(* ===== verification/_CoqProject ===== *)
-Q . S2P
Prelude.v
Bytes.v
Text.v
Scan.v
ScanFacts.v
ScanSpec.v
Ident.v
Lex.v
Script.v
ScriptSpec.v
ScriptGrammar.v
Classify.v
ClassifySpec.v
Wrap.v
Directive.v
ExecLog.v
Env.v
Guard.v
GuardSpec.v
Retry.v
Plan.v
PlanSpec.v
PlanParts.v
Lease.v
LeaseSpec.v
Dates.v
Value.v
PgValue.v
MyValue.v
Json.v
TrinoValue.v
ValueSpec.v
SqlType.v
Names.v
Types.v
Encode.v
TypesSpec.v
EncodeSpec.v
PgTextSpec.v
Batch.v
Writers.v
WritersSpec.v
JsonSource.v
JsonSourceSpec.v
JsonText.v
JsonTrip.v
CsvSource.v
Tagged.v
TaggedSpec.v
Columnar.v
ColumnarSpec.v
Collate.v
JsonCheck.v
Chunk.v
Spill.v
View.v
Registry.v
RegistrySpec.v
Store.v
StoreSpec.v
ViewSpec.v
TransferPlan.v
TableSwap.v
TableSwapSpec.v
TransferRun.v
TransferRunSpec.v
TransferSetup.v
Apply.v
ApplySpec.v
ImportDates.v
ImportPlan.v
Import.v
ImportSpec.v
ImportServerSpec.v
Glob.v
KnownHosts.v
KnownHostsSpec.v
PoolKey.v
Pool.v
PoolSpec.v
