(* ===== verification/Prelude.v ===== *)
(** * QueryHive: a verification of the engine's text, guard and export logic

    QueryHive is a database client: a Rust engine ([crates/]) behind a Swift application
    ([app/]).  The engine reads SQL text it did not write, decides what a connection may run,
    records the decision, runs it through a driver, and streams the result to the application or
    into files.  This library models the parts of the engine whose correctness is a matter of
    its own logic, and proves what those parts promise.

    ** How the parts interact

    Everything that reads SQL starts with one loop, [walk] ([Scan.v]), which reports words,
    opaque regions (strings, quoted names, comments, dollar quotes) and separators to a visitor.
    The token lexer, the script splitter, the classifier's surface and the client directives are
    visitors of that loop, written here as folds over its list of reports.  The classifier splits
    a script with the splitter and gives every statement a kind; a Safe Mode turns kinds into
    decisions; the gate of the commands ([Guard.v]) makes the decisions of a script, records each
    in the execution log and lets the script through or not.  What passes runs through the retry
    loops ([Retry.v]) and its rows go to the exporter ([Plan.v]), to another server ([TransferRun.v]) or
    to the store of results the application scrolls over: columns are staged and sealed
    ([Columnar.v]), described ([Chunk.v]), kept within a memory budget and moved to an encrypted file
    ([Registry.v], [Spill.v]), and read, filtered and sorted ([Store.v], [View.v]).

    ** Files

    - [Prelude.v]: loops as bodies that continue or leave ([iter] with fuel, [reaches] without),
      slices, ordered ranges, shared list lemmas and the hint database.
    - [Bytes.v]: the parts of Rust's [u8], [[u8]] and [str] the sources call.  A byte is a [Z];
      a text is a list of bytes; offsets are byte offsets, as in the source.
    - [Scan.v] ([qh-sql/src/scan.rs]): [Dialect], [Lexer], the readings of each dialect, [walk]
      with one definition per state ([step_normal], [step_single], ...), comments, dollar tags,
      string continuations, [first_significant], [leading_keyword], [statement_count],
      [scan_dialect].  [ScanFacts.v] proves the invariant of the walk, [ScanSpec.v] what it
      reports.
    - [Ident.v] ([ident.rs]): [quote_ident], and that it is read back as one name.
    - [Lex.v] ([lex.rs]): [lex] and what its tokens are.
    - [Script.v] ([script.rs], first half): the splitter of scripts with stored programs, a
      state machine of a top level, a header and a body.  [ScriptSpec.v]: which separators it
      drops.  [ScriptGrammar.v]: the body grammar of MySQL as inductive types over tokens, and
      that the machine follows it.
    - [Classify.v] ([classify.rs]): kinds, modes, the floor, the surface, [classify_dialect],
      the statements of a script with their lines, decisions under one reading or several, and
      the checks.  [ClassifySpec.v] holds the properties.
    - [Wrap.v] ([wrap.rs]): peeling a terminator and the count wrapper.
    - [Directive.v] ([script.rs], second half): lines that are for a client program.
    - [ExecLog.v] ([qh-storage/src/execution_log.rs]): the hash-chained log, and the class
      [ExecutionStore] that states what the gate needs of a log, with the table as an instance.
    - [Env.v] ([qh-ffi/src/env.rs]): settings, the destination of a transfer, redaction.
    - [Guard.v] ([qh-ffi/src/commands.rs], [qh-ffi/src/execution_log.rs]): the Safe Mode of a run,
      the three gates and the recording of decisions, over any [ExecutionStore].
      [GuardSpec.v] holds the properties.
    - [Retry.v] ([qh-ffi/src/retry.rs], [qh-core/src/error.rs]): the error taxonomy, the policy,
      the retry loops and the retrying cursor; the class [PagedCursor] states what the cursor
      needs of a driver.
    - [Plan.v] ([qh-export/src/plan.rs], [qh-export/src/lib.rs]): the exporter, its methods as
      steps of a state and error monad over the exporter and the file system.  [PlanSpec.v]:
      what a failed export leaves.  [PlanParts.v]: what a successful one has written.
    - [Writers.v] ([qh-export/src/writers.rs], [encoding.rs], [open] of [lib.rs]): code pages, quoting, and
      the writers of text, csv, json, xml, html and sql as states with their files' bytes, the
      [WriterOps] the exporter runs over.  [WritersSpec.v]: the grammar of a delimited file as a
      reader, and what an export's files are read back as.
    - [Text.v]: the rest of the standard library on strings and numbers the sources call
      (splitting, trimming, [parse], [Display], UTF-8 validity), with their lemmas.
    - [Lease.v] ([qh-ffi/src/host/lease.rs]): the borrowed session, its calls with the reconnect
      rule, tracked cursors, cancelling, what becomes of it.  [LeaseSpec.v]: the properties, over
      every answer of the driver and every dropped call.
    - [PoolKey.v], [Pool.v] ([qh-ffi/src/host/pool.rs], the connection and tunnel records of
      [qh-driver] and [qh-tunnel]): the key of a connection and the pool as interleaved tasks.
      [PoolSpec.v]: the properties by rule induction over the interleavings.
    - [Glob.v], [KnownHosts.v] ([qh-tunnel/src/pattern.rs], [known_hosts.rs], [host_key.rs]): host
      patterns, [known_hosts] files and the decision on a host key.  [KnownHostsSpec.v].
    - [Dates.v] (the civil date functions of [qh-core] and the drivers), [Value.v]
      ([qh-core/src/value.rs], [render.rs]), [PgValue.v], [MyValue.v], [TrinoValue.v] (what each
      driver makes of a server's text), [Json.v].  [ValueSpec.v]: what is shown reads back.
    - [SqlType.v] ([qh-driver/src/sql_type.rs], the type parser of [qh-driver-trino]), [Names.v],
      [Types.v], [Encode.v] ([qh-ffi/src/transfer/names.rs], [types.rs], [encode.rs]): the table a
      transfer creates and the values it writes.  [TypesSpec.v], [EncodeSpec.v] (MySQL and COPY),
      [PgTextSpec.v] (PostgreSQL): the properties.
    - [Batch.v] ([qh-core/src/batch.rs]), [Tagged.v] and [Columnar.v] ([qh-columnar/src/tagged.rs],
      [builder.rs], [encoding.rs], [read.rs]): a chunk of rows staged, sealed into Arrow columns and
      read back, values without an Arrow type as tagged blobs.  [TaggedSpec.v],
      [ColumnarSpec.v]: the properties.
    - [Collate.v] ([qh-result-store/src/collate.rs]): number keys, natural order, folded search.
      [JsonCheck.v] ([render.rs], the validator), [Chunk.v] ([chunk.rs]): the grid's flags and the
      statistics of a chunk.  Each ends with its properties.
    - [Spill.v] ([spill.rs]): the encrypted records.  [Registry.v] ([registry.rs] and the residency of
      [store.rs]): the stores as one [World], the budget, eviction and the cache.  [View.v]
      ([view.rs]): filters, search, sorting, distinct values.  [Store.v] ([store.rs]): pushing,
      reading, views.  [RegistrySpec.v] (the invariant and a rule for every operation),
      [StoreSpec.v] (runs of the store, by rule induction), [ViewSpec.v].
    - [TransferPlan.v], [TransferRun.v], [TransferSetup.v] ([transfer/plan.rs], [transfer/mod.rs]): the
      statements of a transfer and their decisions, its run as a trace of events against an
      environment that answers, and what is decided before the network.  [TransferRunSpec.v].
    - [TableSwap.v] ([table_swap.rs], [sql_ident.rs]) and [Apply.v] ([apply.rs], [open] of
      [commands.rs]): a table replaced on one connection, and a reviewed plan of changes.  Their
      properties ([TableSwapSpec.v], [ApplySpec.v]) know the server by its laws ([SwapServer],
      [ApplyServer]).
    - [JsonSource.v] ([qh-import/src/json_source.rs]): the objects of a JSON file, framed over reads of any
      size, the sample that names the columns, the rows.  [JsonSourceSpec.v]: a grammar of such files and
      their rows.  [JsonText.v]: the grammar of JSON by which an object's text has its members.
      [JsonTrip.v]: what the exporter writes as JSON is of it, and is read back.
    - [CsvSource.v] ([qh-import/src/csv_source.rs]): a CSV file checked in its code page and turned into
      UTF-8 over reads of any size, the page read backwards from the writer's table.
    - [ImportDates.v] ([qh-import/src/values.rs]): date patterns and numbers of a locale.
      [ImportPlan.v] ([qh-ffi/src/import.rs]): the settings of an import, its columns, what becomes of
      a row and the [INSERT] of a batch.  [Import.v] ([import.rs], [progress.rs]): the runs, as a trace
      against an environment that answers.  [ImportSpec.v] (the trace of a run as
      a ledger of batches), [ImportServerSpec.v] (the server and what the table holds after).

    ** What the theorems show

    - The walk ends and reads every text whole ([walk_terminates]); its reports are ordered and
      disjoint ([walk_reports_ordered]), lie on character boundaries
      ([reports_at_char_boundaries]), hold every separator ([separators_exact]) and every word
      ([words_exact]) of the text outside the regions.  The readings a guard checks cover every
      setting of a MySQL server ([mysql_readings_complete]).
    - Quoted names and tokens are what they should be ([quote_ident_one_region],
      [quote_ident_inj], [lex_tokens_ok]).
    - The splitter ends ([event_loops_end]), drops separators of the scan only
      ([script_separators_sublist]), only inside a stored program
      ([dropped_separators_in_programs]), and reads a program body of the grammar as one
      statement ([program_body_is_one_statement]).  The statements are the pieces between the
      separators ([statements_are_the_pieces]) and nothing is lost ([pieces_join]).
    - A read holds no write ([read_only_holds_no_write]).  An accepted script is accepted under
      every reading ([accepted_under_every_reading]); readings that disagree are a refusal
      ([disagreement_is_refused]); what the splitter keeps whole is refused anyway
      ([program_openers_refused]); the first refused statement is the one reported
      ([check_reports_first_refusal]); a floor never weakens a mode ([floor_never_weakens]).
    - The mode of a run covers every condition that asked for one
      ([safe_mode_covers_every_condition]); the gate is the check ([guard_is_the_check]) and
      leaves one row per decision ([guard_records_every_decision]); the other gates run reads and
      confirmed destructive operations only ([require_read_only_reads],
      [guard_destructive_cases], [destructive_mode_reads_the_entries]).
    - A statement is sent twice only where that cannot hurt
      ([statement_sent_twice_only_if_safe]), a read-only session stays so across reconnects
      ([read_only_survives_reconnects]) and only settled sessions are pooled
      ([only_settled_sessions_go_back]).  The pool's counts are its live guards
      ([counts_are_live_guards]), a reused session is the one asked for
      ([reused_session_is_the_one_asked_for]), idle ones are few and clean
      ([idle_sessions_are_few_and_clean]), and a key names one connection
      ([key_identifies_connection]).
    - A host key passes only when known ([key_passes_only_when_known]), by what the files say
      ([verdict_is_what_the_files_say]), and an accepted one is on record
      ([accepted_key_is_on_record]).
    - Civil dates are the Gregorian calendar ([civil_dates_are_the_calendar]) and what is shown of
      a value is read back by the drivers that have a type for it ([shown_values_read_back]).
    - A planned table is sound ([planned_table_is_sound]: names, types the server takes and with
      room, a MySQL row within its bytes by the manual), its types are ones the server declares
      ([mapped_types_are_declarable]), planning ends with a reason ([plan_ends_with_a_reason]); what
      is accepted fits its column and carries the value ([mysql_rows_arrive_whole],
      [pg_texts_arrive_whole]) and COPY text reads back ([copy_rows_read_back]).
    - In every run of the store what is pushed is what is read, wherever the chunks are
      ([pushed_rows_read_back]), the budget is what is held ([budget_is_what_is_held]) and a view is
      the filtered and sorted table when it is installed ([view_is_the_filtered_sorted_table]).  Under it: values and
      columns read back ([blobs_read_back], [sealed_chunk_reads_back]), chunks describe their cells
      ([store_chunk_describes_its_cells]), nonces never repeat ([nonces_never_repeat]), numbers sort by
      value ([numbers_sort_by_value]) and the JSON validator is a recursive descent
      ([validator_is_the_descent]).
    - A transfer's table takes its name last ([table_takes_its_name_last]), every statement it sends
      was decided ([every_written_statement_was_decided]), it leaves nothing open
      ([run_leaves_nothing_open]), its source is read-only
      ([source_is_read_only_and_cancelled_before_it_is_dropped]) and it ends
      ([transfer_terminates]); what it decides first it decides before the network
      ([setup_decides_before_the_network]).
    - A replaced table is never lost, though a report may be wrong where an answer was lost
      ([replace_never_costs_the_table]), and a plan of changes is applied or accounted for
      ([plan_is_applied_or_accounted_for]).
    - An import leaves in the table what its error mode says ([import_keeps_what_its_mode_says]) and
      the foreign-key checks on, with two exceptions ([foreign_key_checks_are_put_back]); a date is read as it was written
      ([dates_are_read_as_written]) and every object of a JSON file is a row
      ([every_object_is_a_row]).  A CSV file is checked exactly ([file_is_checked_exactly]) and a text
      exported in a code page is the text imported ([code_pages_round_trip]).
    - The log's chain is kept by appends ([append_keeps_chain]) and shows tampering with anything but
      the row numbers ([equal_tails_equal_logs]).
    - A destination's settings are isolated and never ignored ([destination_isolated],
      [destination_never_ignored]) and secrets are redacted ([secrets_are_redacted]).
    - A retried call ends in the doubling schedule ([retry_call_spec]) and a retried result is
      never repeated nor cut short in silence ([retry_never_repeats_a_page]).
    - A successful export has written every row into correctly named files of the right size
      ([export_writes_every_row]); a failed one has changed nothing that was there
      ([failed_export_changes_nothing]); staging names are found ([staging_path_free]); a text or csv
      file reads back as its header and rows in any code page ([delimited_export_reads_back]), and a
      JSON file is imported as the rows it was exported from ([json_export_is_imported]).
    - The client directives are found exactly ([delimiter_refusal], [first_backslash_spec]) and
      the count wrapper answers in four cases ([count_statement_cases]).

    ** Bounds and fuel

    Loops of the source are run by [iter] with a fuel that a theorem shows to be enough: the walk
    with one more than the length of the text, each event of the splitter with two or four turns,
    the retry loops with one more than the number of retries, the rows of an import with one more than
    the rows of the file, the search for a staging name with
    one more than the number of files.  [i64] settings are kept within their bounds and parsed
    with overflow as an error; [u32] retries and durations saturate as in the source, and the
    staging counter wraps at 2^64.  Counters that only count bytes or tokens of one text in memory
    are naturals.

    ** Parameters

    SHA-256, serde_json's writing of an array of scalars, new identities and SQLite's answer ([ExecLog.v]); the
    hasher of pool keys ([PoolKey.v]); the hashes, Base64 and disk of host keys ([KnownHosts.v]);
    what is asked of a float ([Float] in [Value.v]), of Unicode's tables ([Unicode] in [Names.v])
    and of serde_json ([Encoding] in [Encode.v]); a driver's read-only capability and the clock ([Guard.v]); a driver's calls ([Retry.v]); the
    writers of the spreadsheets, dbf and parquet, serde_json's printing, the letters past ASCII and
    whether each call to the file system goes through ([Plan.v], [Writers.v]); Arrow's arrays and stream format, AES-GCM, the medium of the spill file, Unicode's
    normal forms ([Columnar.v], [Chunk.v], [Spill.v], [Collate.v]); the servers of a transfer, a swap,
    a plan of changes and an import, and serde_json's reading ([TransferRun.v], [TableSwap.v],
    [Apply.v], [Import.v]); the rows a file to import holds ([Import.v]) and serde_json's reading of one object ([JsonSource.v]).  Where a theorem needs something of them it is a class with an instance
    ([ExecutionStore], [PagedCursor]) or a named hypothesis with a witness ([finish_creates]).

    ** Not modelled

    Drivers, tunnels, SQLite, SSH, the tree-sitter grammar and the Swift application: network,
    files and third-party code.  Of the result store, locks (its operations are taken one after
    another) and the sweep of old spill files.  The rest of the commands, the FFI and the writers of
    the spreadsheets, dbf and parquet are logic of the engine that this library does not reach. *)
From stdpp Require Export base list strings.
From Stdlib Require Export ZArith Lia Sorting.Sorted.

#[export] Set Warnings "-clear-no-such-hyp".

Create HintDb qh discriminated.

(** ** Case analysis shared by every component *)

(** Split every boolean test and every match the goal or a hypothesis is
    blocked on. *)
Ltac case_goal :=
  match goal with
  | |- context [match ?x with _ => _ end] => destruct x eqn:?
  end.
Ltac case_all := repeat (case_goal; simplify_eq/=).

(** Turn boolean equations into propositions and let [lia] finish. *)
Ltac blia := repeat (progress simplify_eq/=); lia.

(** Membership in a list written out. *)
Ltac in_list := repeat first [by apply list_elem_of_here | apply list_elem_of_further].

(** ** Loops

    A Rust [loop]/[while] is a body that either continues with a new state
    ([inl]) or leaves the loop with a result ([inr]).  [iter] runs it with fuel;
    [reaches] is the fuel-free big-step reading of the same loop. *)
Section Loop.
Context {S R : Type}.
Variable body : S -> S + R.

Fixpoint iter (fuel : nat) (s : S) : option R :=
  match fuel with
  | O => None
  | Datatypes.S n =>
      match body s with
      | inl s' => iter n s'
      | inr r => Some r
      end
  end.

Inductive reaches : S -> R -> Prop :=
| reaches_done s r : body s = inr r -> reaches s r
| reaches_next s s' r : body s = inl s' -> reaches s' r -> reaches s r.

Lemma iter_reaches n s r : iter n s = Some r -> reaches s r.
Proof.
  revert s; induction n as [|n IH]; intros s; simpl; [done|].
  destruct (body s) as [s'|r'] eqn:E; intros H.
  - eapply reaches_next; eauto.
  - simplify_eq. by apply reaches_done.
Qed.

Lemma reaches_det s r1 : reaches s r1 -> forall r2, reaches s r2 -> r1 = r2.
Proof.
  induction 1 as [s r E|s s' r E _ IH]; intros r2 H2;
    destruct H2 as [? ? E2|? ? ? E2 H2]; rewrite E in E2; simplify_eq; auto.
Qed.

(** A loop whose body decreases a measure ends, and more fuel than the measure
    is enough. *)
Lemma iter_total (m : S -> nat) :
  (forall s s', body s = inl s' -> m s' < m s) ->
  forall n s, m s < n -> exists r, iter n s = Some r.
Proof.
  intros Hm n; induction n as [|n IH]; intros s Hn; [lia|]; simpl.
  destruct (body s) as [s'|r] eqn:E; [|eauto].
  apply IH. apply Hm in E. lia.
Qed.

(** The same with the decrease only under an invariant of the loop. *)
Lemma iter_total_inv (Inv : S -> Prop) (m : S -> nat) :
  (forall s s', Inv s -> body s = inl s' -> Inv s' /\ m s' < m s) ->
  forall n s, Inv s -> m s < n -> exists r, iter n s = Some r.
Proof.
  intros Hm n; induction n as [|n IH]; intros s Hi Hn; [lia|]; simpl.
  destruct (body s) as [s'|r] eqn:E; [|eauto].
  destruct (Hm _ _ Hi E). apply IH; [done|lia].
Qed.

(** Rule of the loop: an invariant kept by the body holds at the exit. *)
Lemma reaches_inv (Inv : S -> Prop) (Post : R -> Prop) :
  (forall s s', Inv s -> body s = inl s' -> Inv s') ->
  (forall s r, Inv s -> body s = inr r -> Post r) ->
  forall s r, reaches s r -> Inv s -> Post r.
Proof. intros Hs Hr s r H; induction H; eauto. Qed.

Lemma iter_inv (Inv : S -> Prop) (Post : R -> Prop) n s r :
  (forall s s', Inv s -> body s = inl s' -> Inv s') ->
  (forall s r, Inv s -> body s = inr r -> Post r) ->
  Inv s -> iter n s = Some r -> Post r.
Proof. intros Hs Hr Hi H. eapply reaches_inv; eauto using iter_reaches. Qed.

Lemma iter_more n k s r : iter n s = Some r -> n <= k -> iter k s = Some r.
Proof.
  revert k s; induction n as [|n IH]; intros k s; simpl; [done|].
  intros H Hk. destruct k as [|k]; [lia|]. simpl.
  destruct (body s); [|done]. apply IH; [done|lia].
Qed.
End Loop.

(** Two loops with the same body run alike. *)
Lemma iter_ext {S R} (f g : S -> S + R) :
  (forall s, f s = g s) -> forall n s, iter f n s = iter g n s.
Proof.
  intros H n; induction n as [|n IH]; intros s; simpl; [done|].
  rewrite H. destruct (g s); auto.
Qed.

Lemma iter_S {S R} (body : S -> S + R) n s :
  iter body (Datatypes.S n) s = match body s with inl s' => iter body n s' | inr r => Some r end.
Proof. done. Qed.

Arguments iter {S R} body fuel s : simpl never.

(** ** Lists *)

Lemma lookup_drop_hd {A} (l : list A) i : l !! i = head (drop i l).
Proof.
  revert i; induction l as [|x l IH]; intros [|i]; simpl; auto.
Qed.

Lemma drop_lookup_cons {A} (l : list A) i x :
  l !! i = Some x -> drop i l = x :: drop (i + 1) l.
Proof.
  intros H. rewrite (drop_S l x i H). by replace (i + 1) with (S i) by lia.
Qed.

Lemma drop_cons_inv {A} (l : list A) i x r :
  drop i l = x :: r -> l !! i = Some x /\ drop (i + 1) l = r.
Proof.
  intros H. split; [by rewrite lookup_drop_hd, H|].
  by rewrite <- drop_drop, H.
Qed.

Lemma elem_of_snoc_self {A} (l : list A) x : x ∈ l ++ [x].
Proof. apply elem_of_app. right. by apply list_elem_of_singleton. Qed.

(** The half-open slice [l[a..b]]. *)
Definition slice {A} (l : list A) (a b : nat) : list A := take (b - a) (drop a l).

Lemma slice_lookup {A} (l : list A) a b k :
  k < b - a -> slice l a b !! k = l !! (a + k).
Proof. intros H. unfold slice. rewrite lookup_take_lt by lia. apply lookup_drop. Qed.

Lemma length_slice {A} (l : list A) a b :
  b <= length l -> length (slice l a b) = b - a.
Proof. intros H. unfold slice. rewrite length_take, length_drop. lia. Qed.

Lemma slice_all {A} (l : list A) : slice l 0 (length l) = l.
Proof. unfold slice. rewrite drop_0. apply take_ge. lia. Qed.

(** ** Ranges

    Items that each cover a half-open range of offsets. *)
Section Ranges.
Context {A : Type} (start end_ : A -> nat).

Definition in_range (r : A) (i : nat) : Prop := start r <= i < end_ r.

(** In order, each non-empty, no two overlapping, all within [lo..hi]. *)
Fixpoint ranges (lo : nat) (rs : list A) (hi : nat) : Prop :=
  match rs with
  | [] => lo <= hi
  | r :: rs => lo <= start r /\ start r < end_ r /\ ranges (end_ r) rs hi
  end.

Lemma ranges_snoc lo rs hi r hi' :
  ranges lo rs hi -> hi <= start r -> start r < end_ r -> end_ r <= hi' ->
  ranges lo (rs ++ [r]) hi'.
Proof.
  revert lo; induction rs as [|x rs IH]; intros lo; simpl; [lia|].
  intros (H1 & H2 & H3) H4 H5 H6. auto.
Qed.

Lemma ranges_weaken lo rs hi hi' : ranges lo rs hi -> hi <= hi' -> ranges lo rs hi'.
Proof.
  revert lo; induction rs as [|x rs IH]; intros lo; simpl; [lia|].
  intros (? & ? & ?) ?. eauto.
Qed.

Lemma ranges_le lo rs hi : ranges lo rs hi -> lo <= hi.
Proof.
  revert lo; induction rs as [|r rs IH]; intros lo; simpl; [done|].
  intros (? & ? & H). apply IH in H. lia.
Qed.

Lemma ranges_bounds lo rs hi r :
  ranges lo rs hi -> r ∈ rs -> lo <= start r /\ start r < end_ r /\ end_ r <= hi.
Proof.
  revert lo; induction rs as [|x rs IH]; intros lo Hc Hr; [by apply elem_of_nil in Hr|].
  destruct Hc as (H1 & H2 & H3). apply elem_of_cons in Hr as [->|Hr].
  - split_and!; [done..|]. by eapply ranges_le.
  - destruct (IH _ H3 Hr) as (? & ? & ?). split_and!; lia.
Qed.

Lemma ranges_disjoint lo rs hi r1 r2 i :
  ranges lo rs hi -> r1 ∈ rs -> r2 ∈ rs -> in_range r1 i -> in_range r2 i -> r1 = r2.
Proof.
  revert lo; induction rs as [|x rs IH]; intros lo Hc H1 H2 C1 C2;
    [by apply elem_of_nil in H1|].
  destruct Hc as (_ & _ & Hc). unfold in_range in *.
  apply elem_of_cons in H1 as [->|H1]; apply elem_of_cons in H2 as [->|H2]; [done|..].
  - destruct (ranges_bounds _ _ _ _ Hc H2); lia.
  - destruct (ranges_bounds _ _ _ _ Hc H1); lia.
  - eauto.
Qed.
End Ranges.

#[export] Hint Resolve ranges_weaken ranges_snoc : qh.
