(* ===== verification/Bytes.v ===== *)
(** * Bytes: the parts of Rust's [u8], [[u8]] and [str] the program uses.

    A byte is a [Z]; text is a list of bytes.  Only what the sources call is
    here: the ASCII classes of [u8], case folding, prefix tests, and [str]'s
    whitespace trimming (which reads UTF-8). *)
From S2P Require Import Prelude.

Abbreviation bytes := (list Z).

Definition byte_of_ascii (a : Ascii.ascii) : Z := Z.of_N (Ascii.N_of_ascii a).
(** A string literal as its bytes. *)
Definition B (s : string) : bytes := byte_of_ascii <$> String.list_ascii_of_string s.

(** ASCII code points the sources name as byte literals. *)
Abbreviation NUL := 0%Z (only parsing).
Abbreviation TAB := 9%Z (only parsing).
Abbreviation LF := 10%Z (only parsing).
Abbreviation VT := 11%Z (only parsing).
Abbreviation FF := 12%Z (only parsing).
Abbreviation CR := 13%Z (only parsing).
Abbreviation SP := 32%Z (only parsing).
Abbreviation BANG := 33%Z (only parsing).
Abbreviation DQUOTE := 34%Z (only parsing).
Abbreviation HASH := 35%Z (only parsing).
Abbreviation DOLLAR := 36%Z (only parsing).
Abbreviation AMP := 38%Z (only parsing).
Abbreviation SQUOTE := 39%Z (only parsing).
Abbreviation LPAREN := 40%Z (only parsing).
Abbreviation RPAREN := 41%Z (only parsing).
Abbreviation STAR := 42%Z (only parsing).
Abbreviation COMMA := 44%Z (only parsing).
Abbreviation DASH := 45%Z (only parsing).
Abbreviation DOT := 46%Z (only parsing).
Abbreviation SLASH := 47%Z (only parsing).
Abbreviation COLON := 58%Z (only parsing).
Abbreviation SEMI := 59%Z (only parsing).
Abbreviation EQUALS := 61%Z (only parsing).
Abbreviation AT := 64%Z (only parsing).
Abbreviation BACKSLASH := 92%Z (only parsing).
Abbreviation UNDERSCORE := 95%Z (only parsing).
Abbreviation BTICK := 96%Z (only parsing).

Declare Scope qh_scope.
Delimit Scope qh_scope with qh.
Notation "a =b b" := (Z.eqb a b) (at level 70, no associativity) : qh_scope.
Open Scope qh_scope.

(** ** [u8] classes *)

Definition is_ascii_uppercase (b : Z) : bool := ((65 <=? b) && (b <=? 90))%Z.
Definition is_ascii_lowercase (b : Z) : bool := ((97 <=? b) && (b <=? 122))%Z.
Definition is_ascii_alphabetic (b : Z) : bool := is_ascii_uppercase b || is_ascii_lowercase b.
Definition is_ascii_digit (b : Z) : bool := ((48 <=? b) && (b <=? 57))%Z.
Definition is_ascii_alphanumeric (b : Z) : bool := is_ascii_alphabetic b || is_ascii_digit b.
(** Space, tab, LF, FF, CR; not VT. *)
Definition is_ascii_whitespace (b : Z) : bool :=
  (b =b SP) || (b =b TAB) || (b =b LF) || (b =b FF) || (b =b CR).
Definition is_ascii_hexdigit (b : Z) : bool :=
  is_ascii_digit b || ((65 <=? b) && (b <=? 70) || (97 <=? b) && (b <=? 102))%Z.
(** The white space of JSON. *)
Definition is_json_space (c : Z) : bool := (c =b SP) || (c =b 9) || (c =b LF) || (c =b CR).
Definition is_ascii_control (b : Z) : bool := ((0 <=? b) && (b <=? 31) || (b =? 127))%Z.
Definition is_ascii_punctuation (b : Z) : bool :=
  ((33 <=? b) && (b <=? 47) || (58 <=? b) && (b <=? 64)
   || (91 <=? b) && (b <=? 96) || (123 <=? b) && (b <=? 126))%Z.

Definition to_ascii_uppercase (b : Z) : Z := if is_ascii_lowercase b then (b - 32)%Z else b.
Definition to_ascii_lowercase (b : Z) : Z := if is_ascii_uppercase b then (b + 32)%Z else b.
Definition upper (s : bytes) : bytes := to_ascii_uppercase <$> s.
Definition lower (s : bytes) : bytes := to_ascii_lowercase <$> s.

Fixpoint bytes_eqb (a b : bytes) : bool :=
  match a, b with
  | [], [] => true
  | x :: a, y :: b => (x =b y) && bytes_eqb a b
  | _, _ => false
  end.
Definition eq_ignore_ascii_case (a b : bytes) : bool := bytes_eqb (lower a) (lower b).

(** ** Slices *)

(** [bytes.get(i) == Some(&c)] *)
Definition is_at (bs : bytes) (i : nat) (c : Z) : bool :=
  match bs !! i with Some b => b =b c | None => false end.

(** [bytes.get(i).is_some_and(p)] *)
Definition at_is (p : Z -> bool) (bs : bytes) (i : nat) : bool :=
  match bs !! i with Some b => p b | None => false end.

Fixpoint starts_with (s p : bytes) {struct p} : bool :=
  match p, s with
  | [], _ => true
  | x :: p, y :: s => (x =b y) && starts_with s p
  | _ :: _, [] => false
  end.

Fixpoint count_while (p : Z -> bool) (s : bytes) : nat :=
  match s with
  | [] => 0
  | b :: s => if p b then S (count_while p s) else 0
  end.

(** [while i < bs.len() && p(bs[i]) { i += 1 }], returning the final [i]. *)
Definition skip_while (p : Z -> bool) (bs : bytes) (i : nat) : nat :=
  i + count_while p (drop i bs).

Fixpoint position (p : Z -> bool) (s : bytes) : option nat :=
  match s with
  | [] => None
  | b :: s => if p b then Some 0 else S <$> position p s
  end.

(** ** Unicode whitespace, as [str::trim] reads it

    The byte length of the White_Space character the text starts with, 0 when it
    starts with anything else. *)
Definition ws_len (s : bytes) : nat :=
  match s with
  | b :: r =>
      if ((9 <=? b) && (b <=? 13) || (b =? 32))%Z then 1
      else match r with
      | c :: r =>
          if (b =b 0xC2) && ((c =b 0x85) || (c =b 0xA0)) then 2
          else match r with
          | d :: _ =>
              if (b =b 0xE1) && (c =b 0x9A) && (d =b 0x80) then 3
              else if (b =b 0xE2) && (c =b 0x80)
                   && (((0x80 <=? d) && (d <=? 0x8A))%Z || (d =b 0xA8) || (d =b 0xA9) || (d =b 0xAF))
              then 3
              else if (b =b 0xE2) && (c =b 0x81) && (d =b 0x9F) then 3
              else if (b =b 0xE3) && (c =b 0x80) && (d =b 0x80) then 3
              else 0
          | [] => 0
          end
      | [] => 0
      end
  | [] => 0
  end.

Fixpoint trim_start_fuel (n : nat) (s : bytes) : bytes :=
  match n with
  | O => s
  | S n => match ws_len s with O => s | k => trim_start_fuel n (drop k s) end
  end.
(** [str::trim_start] *)
Definition trim_start (s : bytes) : bytes := trim_start_fuel (length s) s.

(** The byte length of the White_Space character [s] ends with. *)
Definition ws_len_end (s : bytes) : nat :=
  let n := length s in
  if (1 <=? n) && (ws_len (drop (n - 1) s) =? 1) then 1
  else if (2 <=? n) && (ws_len (drop (n - 2) s) =? 2) then 2
  else if (3 <=? n) && (ws_len (drop (n - 3) s) =? 3) then 3
  else 0.

Fixpoint trim_end_fuel (n : nat) (s : bytes) : bytes :=
  match n with
  | O => s
  | S n => match ws_len_end s with O => s | k => trim_end_fuel n (take (length s - k) s) end
  end.
(** [str::trim_end] *)
Definition trim_end (s : bytes) : bytes := trim_end_fuel (length s) s.
(** [str::trim] *)
Definition trim (s : bytes) : bytes := trim_end (trim_start s).

(** ** Lemmas *)

Lemma bytes_eqb_eq a b : bytes_eqb a b = true <-> a = b.
Proof.
  revert b; induction a as [|x a IH]; intros [|y b]; simpl; try (split; congruence).
  rewrite andb_true_iff, IH, Z.eqb_eq.
  split; [by intros [-> ->] | by intros [= -> ->]].
Qed.

Lemma bytes_eqb_refl a : bytes_eqb a a = true.
Proof. by apply bytes_eqb_eq. Qed.

Lemma is_at_true bs i c : is_at bs i c = true <-> bs !! i = Some c.
Proof.
  unfold is_at. destruct (bs !! i) as [b|]; [rewrite Z.eqb_eq|]; naive_solver.
Qed.

Lemma starts_with_app p s : starts_with (p ++ s) p = true.
Proof. induction p as [|x p IH]; simpl; [done|]. by rewrite Z.eqb_refl. Qed.

Lemma starts_with_true s p : starts_with s p = true <-> exists r, s = p ++ r.
Proof.
  split; [|intros [r ->]; apply starts_with_app].
  revert s; induction p as [|x p IH]; intros s; simpl; [by exists s|].
  destruct s as [|y s]; simpl; [done|]. rewrite andb_true_iff, Z.eqb_eq.
  intros [-> [r ->]%IH]. by exists r.
Qed.

Lemma count_while_le p s : count_while p s <= length s.
Proof. induction s as [|b s IH]; simpl; [lia|]. destruct (p b); lia. Qed.

Lemma count_while_all p s k : k < count_while p s -> exists b, s !! k = Some b /\ p b = true.
Proof.
  revert k; induction s as [|b s IH]; intros k; simpl; [lia|].
  destruct (p b) eqn:E; [|lia]. destruct k as [|k]; simpl; [eauto|].
  intros H. apply IH. lia.
Qed.

Lemma count_while_stop p s b : s !! count_while p s = Some b -> p b = false.
Proof.
  induction s as [|c s IH]; simpl; [done|].
  destruct (p c) eqn:E; simpl; [done|]. naive_solver.
Qed.

Lemma skip_while_ge p bs i : i <= skip_while p bs i.
Proof. unfold skip_while; lia. Qed.

Lemma skip_while_le p bs i : i <= length bs -> skip_while p bs i <= length bs.
Proof.
  intros H. unfold skip_while. pose proof (count_while_le p (drop i bs)).
  rewrite length_drop in *. lia.
Qed.

Lemma skip_while_all p bs i k :
  i <= k -> k < skip_while p bs i -> exists b, bs !! k = Some b /\ p b = true.
Proof.
  intros H1 H2. unfold skip_while in H2.
  destruct (count_while_all p (drop i bs) (k - i)) as (b & Hb & Hp); [lia|].
  rewrite lookup_drop in Hb. replace (i + (k - i)) with k in Hb by lia. eauto.
Qed.

Lemma skip_while_stop p bs i b : bs !! skip_while p bs i = Some b -> p b = false.
Proof.
  unfold skip_while. rewrite <- lookup_drop. apply count_while_stop.
Qed.

Lemma skip_while_step p bs i b :
  bs !! i = Some b -> p b = true -> i < skip_while p bs i.
Proof.
  intros Hb Hp. unfold skip_while.
  rewrite (drop_lookup_cons bs i b Hb); simpl. rewrite Hp. lia.
Qed.

Lemma skip_while_none p bs i :
  (forall b, bs !! i = Some b -> p b = false) -> skip_while p bs i = i.
Proof.
  intros H. unfold skip_while. rewrite lookup_drop_hd in H.
  destruct (drop i bs) as [|b r]; simpl in *; [lia|].
  rewrite (H b eq_refl). lia.
Qed.

(** Unfold the byte classes so that [lia] decides them. *)
Ltac byte_unfold :=
  unfold is_ascii_alphanumeric, is_ascii_alphabetic, is_ascii_uppercase, is_ascii_lowercase,
    is_ascii_digit, is_ascii_whitespace, is_ascii_control, is_ascii_punctuation in *.
Ltac byte_lia := byte_unfold; lia.

(** Split boolean hypotheses into the facts about bytes and offsets they test. *)
Ltac split_bool :=
  repeat match goal with
  | H : _ && _ = true |- _ => apply andb_true_iff in H as [? ?]
  | H : _ || _ = false |- _ => apply orb_false_iff in H as [? ?]
  | H : negb _ = true |- _ => apply negb_true_iff in H
  | H : negb _ = false |- _ => apply negb_false_iff in H
  | H : is_at _ _ _ = true |- _ => apply is_at_true in H
  | H : Z.eqb _ _ = true |- _ => apply Z.eqb_eq in H
  | H : Z.eqb _ _ = false |- _ => apply Z.eqb_neq in H
  | H : Nat.eqb _ _ = true |- _ => apply Nat.eqb_eq in H
  | H : Nat.eqb _ _ = false |- _ => apply Nat.eqb_neq in H
  | H : Nat.leb _ _ = true |- _ => apply Nat.leb_le in H
  | H : Nat.leb _ _ = false |- _ => apply Nat.leb_gt in H
  | H : Nat.ltb _ _ = true |- _ => apply Nat.ltb_lt in H
  | H : Nat.ltb _ _ = false |- _ => apply Nat.ltb_ge in H
  end; subst.

(** Every offset the context reads is inside the text. *)
Ltac pose_lookup_lt :=
  repeat match goal with
  | H : ?l !! ?i = Some _ |- _ =>
      lazymatch goal with
      | _ : i < length l |- _ => fail
      | _ => pose proof (lookup_lt_Some _ _ _ H)
      end
  end.

#[export] Hint Resolve skip_while_ge skip_while_le bytes_eqb_refl : qh.

(** ** UTF-8

    The shape of Rust's [str]: each character is one byte below 0x80, or a lead byte followed
    by its continuation bytes.  (Overlong and surrogate encodings, which [str] excludes too,
    are not excluded here, so what is proved of [utf8] text holds for every [str].) *)
Definition is_continuation (b : Z) : bool := ((0x80 <=? b) && (b <? 0xC0))%Z.

(** The number of continuation bytes a lead byte announces. *)
Definition utf8_tail (b : Z) : option nat :=
  if ((0 <=? b) && (b <? 0x80))%Z then Some 0
  else if ((0xC0 <=? b) && (b <? 0xE0))%Z then Some 1
  else if ((0xE0 <=? b) && (b <? 0xF0))%Z then Some 2
  else if ((0xF0 <=? b) && (b <? 0xF8))%Z then Some 3
  else None.

(** [n] continuation bytes are owed before the next character. *)
Fixpoint utf8_from (n : nat) (s : bytes) : bool :=
  match s with
  | [] => n =? 0
  | b :: s =>
      match n with
      | O => match utf8_tail b with Some k => utf8_from k s | None => false end
      | S n => is_continuation b && utf8_from n s
      end
  end.
Definition utf8 (s : bytes) : bool := utf8_from 0 s.

(** [str::is_char_boundary]: where a slice may be cut without a panic. *)
Definition is_char_boundary (s : bytes) (i : nat) : bool :=
  if i =? length s then true
  else match s !! i with Some b => negb (is_continuation b) | None => false end.

Lemma utf8_from_lookup n s i b c :
  utf8_from n s = true -> s !! i = Some b -> (b < 0x80)%Z -> s !! (i + 1) = Some c ->
  is_continuation c = false.
Proof.
  revert n i; induction s as [|x s IH]; intros n i; [done|].
  destruct i as [|i]; simpl.
  - intros H [= ->] Hb Hc. destruct s as [|y s]; simplify_eq/=.
    destruct n as [|n].
    + unfold utf8_tail in H. unfold is_continuation.
      repeat case_match; simplify_eq/=; unfold utf8_tail in *;
      repeat case_match; simplify_eq/=; split_bool; lia.
    + unfold is_continuation in H. split_bool. lia.
  - destruct n as [|n]; [destruct (utf8_tail x); [|done]; eauto|].
    intros [? ?]%andb_true_iff. eauto.
Qed.

(** In UTF-8 text, the offset after an ASCII byte, and the offset of one, are boundaries. *)
Lemma boundary_after_ascii s i b :
  utf8 s = true -> s !! i = Some b -> (b < 0x80)%Z -> is_char_boundary s (i + 1) = true.
Proof.
  intros Hu Hb Hlt. unfold is_char_boundary. case_match eqn:E; [done|].
  pose_lookup_lt. split_bool. destruct (s !! (i + 1)) as [c|] eqn:Ec.
  - by rewrite (utf8_from_lookup 0 s i b c).
  - apply lookup_ge_None in Ec. lia.
Qed.

Lemma boundary_at_ascii s i b :
  s !! i = Some b -> (b < 0x80)%Z -> is_char_boundary s i = true.
Proof.
  intros Hb Hlt. unfold is_char_boundary. rewrite Hb. case_match; [done|].
  unfold is_continuation. apply negb_true_iff. lia.
Qed.

Lemma boundary_start s : utf8 s = true -> is_char_boundary s 0 = true.
Proof.
  destruct s as [|b s]; [done|]. unfold utf8, is_char_boundary; simpl.
  unfold utf8_tail, is_continuation. intros H. apply negb_true_iff.
  repeat case_match; try lia; done.
Qed.

Lemma boundary_end s : is_char_boundary s (length s) = true.
Proof. unfold is_char_boundary. by rewrite Nat.eqb_refl. Qed.

(** [to_le_bytes] of an integer of [k] bytes, two's complement, and [from_le_bytes], unsigned. *)
Fixpoint le_bytes (k : nat) (n : Z) : bytes :=
  match k with O => [] | S k => (n mod 256)%Z :: le_bytes k (n / 256) end.
Fixpoint from_le (s : bytes) : Z := match s with [] => 0 | b :: s => b + 256 * from_le s end%Z.
(** An unsigned integer of [w] bits read as a signed one. *)
Definition as_signed (w : Z) (n : Z) : Z := (if n <? 2 ^ (w - 1) then n else n - 2 ^ w)%Z.
Lemma le_bytes_length k n : length (le_bytes k n) = k.
Proof. revert n; induction k as [|k IH]; intros n; [done|]. cbn. by rewrite IH. Qed.
Lemma from_le_bytes k : forall n, from_le (le_bytes k n) = (n mod 256 ^ Z.of_nat k)%Z.
Proof.
  induction k as [|k IH]; intros n; [by rewrite Z.mod_1_r|]. cbn [le_bytes from_le]. rewrite IH.
  rewrite Nat2Z.inj_succ, Z.pow_succ_r by lia. rewrite (Z.rem_mul_r n 256) by lia. done.
Qed.
Lemma as_signed_mod w n : (0 < w)%Z -> (- 2 ^ (w - 1) <= n < 2 ^ (w - 1))%Z -> as_signed w (n mod 2 ^ w) = n.
Proof.
  intros Hw Hn. unfold as_signed. assert (2 ^ w = 2 * 2 ^ (w - 1))%Z as E by (rewrite <- Z.pow_succ_r by lia; f_equal; lia).
  destruct (Z_le_gt_dec 0 n).
  - rewrite Z.mod_small by lia. destruct (Z.ltb_spec n (2 ^ (w - 1))); lia.
  - assert (n mod 2 ^ w = n + 2 ^ w)%Z as ->.
    { symmetry. apply (Z.mod_unique n (2 ^ w) (-1)); lia. }
    destruct (Z.ltb_spec (n + 2 ^ w) (2 ^ (w - 1))); lia.
Qed.
