(* ===== verification/Text.v ===== *)
(** * Text: the parts of [str] and of number formatting the components share. *)
From S2P Require Import Prelude Bytes.

(** ** Words and lines *)

(** [str::split_whitespace] *)
Fixpoint split_ws (n : nat) (word s : bytes) : list bytes :=
  let flush := match word with [] => [] | _ => [word] end in
  match n with
  | O => flush
  | S n =>
      match s with
      | [] => flush
      | b :: r => match ws_len s with
                  | O => split_ws n (word ++ [b]) r
                  | k => flush ++ split_ws n [] (drop k s)
                  end
      end
  end.
Definition split_whitespace (s : bytes) : list bytes := split_ws (S (length s)) [] s.

Fixpoint join_sep (sep : bytes) (l : list bytes) : bytes :=
  match l with [] => [] | [x] => x | x :: l => x ++ sep ++ join_sep sep l end.

(** The first [n] characters of a text and what is left: a character is a byte and the
    continuation bytes after it. *)
Fixpoint take_chars (n : nat) (s : bytes) : bytes * bytes :=
  match s with
  | [] => ([], [])
  | b :: r =>
      if is_continuation b then let '(h, t) := take_chars n r in (b :: h, t)
      else match n with
           | O => ([], s)
           | S n => let '(h, t) := take_chars n r in (b :: h, t)
           end
  end.


(** [str::split] on one byte: always at least one piece. *)
Fixpoint split_byte (c : Z) (s : bytes) : list bytes :=
  match s with
  | [] => [[]]
  | b :: s =>
      if b =b c then [] :: split_byte c s
      else match split_byte c s with w :: ws => (b :: w) :: ws | [] => [[b]] end
  end.

(** [str::split_once] on the first byte that is one of some ASCII characters, and on the last. *)
Fixpoint split_once (p : Z -> bool) (s : bytes) : option (bytes * bytes) :=
  match s with
  | [] => None
  | b :: s => if p b then Some ([], s)
              else match split_once p s with Some (x, y) => Some (b :: x, y) | None => None end
  end.
Definition rsplit_once (p : Z -> bool) (s : bytes) : option (bytes * bytes) :=
  match split_once p (rev s) with Some (x, y) => Some (rev y, rev x) | None => None end.

(** [str::splitn] with at most [n] pieces, [n] at least 1. *)
Fixpoint splitn (n : nat) (c : Z) (s : bytes) : list bytes :=
  match n with
  | O | 1 => [s]
  | S n => match split_once (fun b => b =b c) s with Some (x, y) => x :: splitn n c y | None => [s] end
  end.
(** [str::trim_end_matches] and [trim_start_matches] of ASCII characters. *)
Definition trim_start_matches (p : Z -> bool) (s : bytes) : bytes := drop (count_while p s) s.
Definition trim_end_matches (p : Z -> bool) (s : bytes) : bytes := rev (trim_start_matches p (rev s)).

(** [str::lines]: the pieces between line feeds, a carriage return before one dropped, and no
    piece for a line feed at the end. *)
Definition strip_cr (s : bytes) : bytes :=
  match last s with Some b => if b =b CR then removelast s else s | None => s end.
Fixpoint lines_of (pieces : list bytes) : list bytes :=
  match pieces with
  | [] => []
  | [p] => match p with [] => [] | _ => [p] end
  | p :: ps => strip_cr p :: lines_of ps
  end.
Definition lines (s : bytes) : list bytes := lines_of (split_byte LF s).

Definition ends_with (s p : bytes) : bool := starts_with (rev s) (rev p).

(** [str::strip_prefix] *)
Definition strip_prefix (s p : bytes) : option bytes :=
  if starts_with s p then Some (drop (length p) s) else None.

(** [str::from_utf8] accepts the bytes: no overlong form, no surrogate, nothing past U+10FFFF. *)
Fixpoint valid_utf8 (s : bytes) : bool :=
  let tail b := ((128 <=? b) && (b <=? 191))%Z in
  match s with
  | [] => true
  | b :: s =>
      if (b <? 128)%Z then valid_utf8 s
      else if ((194 <=? b) && (b <=? 223))%Z then
        match s with c :: s => tail c && valid_utf8 s | _ => false end
      else if ((224 <=? b) && (b <=? 239))%Z then
        match s with
        | c :: d :: s =>
            ((if b =b 224 then 160 else 128) <=? c)%Z && (c <=? (if b =b 237 then 159 else 191))%Z
            && tail d && valid_utf8 s
        | _ => false
        end
      else if ((240 <=? b) && (b <=? 244))%Z then
        match s with
        | c :: d :: e :: s =>
            ((if b =b 240 then 144 else 128) <=? c)%Z && (c <=? (if b =b 244 then 143 else 191))%Z
            && tail d && tail e && valid_utf8 s
        | _ => false
        end
      else false
  end.

(** ** Integers *)

(** [i64::from_str]: an optional sign, at least one digit, in range. *)
Definition I64_MIN : Z := (- 2 ^ 63)%Z.
Definition I64_MAX : Z := (2 ^ 63 - 1)%Z.
Definition digits_value (s : bytes) : Z := foldl (fun n b => (10 * n + (b - 48))%Z) 0%Z s.
Definition parse_int (lo hi : Z) (s : bytes) : option Z :=
  let '(neg, digits) := match s with
                        | b :: r => if b =b 45 then (true, r) else if b =b 43 then (false, r) else (false, s)
                        | [] => (false, s)
                        end in
  match digits with
  | [] => None
  | _ =>
      if forallb is_ascii_digit digits then
        let v := if neg then (- digits_value digits)%Z else digits_value digits in
        if ((lo <=? v) && (v <=? hi))%Z then Some v else None
      else None
  end.
Definition parse_i64 : bytes -> option Z := parse_int I64_MIN I64_MAX.
Definition parse_i32 : bytes -> option Z := parse_int (- 2 ^ 31) (2 ^ 31 - 1).
(** The unsigned types take no minus sign. *)
Definition parse_uint (hi : Z) (s : bytes) : option Z :=
  match s with b :: _ => if b =b 45 then None else parse_int 0 hi s | [] => None end.
Definition U8_MAX : Z := 255.
Definition U32_MAX : Z := (2 ^ 32 - 1)%Z.
Definition U64_MAX : Z := (2 ^ 64 - 1)%Z.

(** [Display] of an unsigned integer. *)
Fixpoint dec (fuel : nat) (n : Z) (acc : bytes) : bytes :=
  match fuel with
  | O => acc
  | S fuel =>
      let acc := (48 + n `mod` 10)%Z :: acc in
      if (n <? 10)%Z then acc else dec fuel (n / 10)%Z acc
  end.
Definition decimal (n : Z) : bytes := dec (S (Z.to_nat (Z.log2 n))) n [].
(** [{:02}] *)
Definition decimal2 (n : Z) : bytes := if (n <? 10)%Z then 48%Z :: decimal n else decimal n.

(** [Display] of a signed integer, and [{:0w}], whose width counts the sign. *)
Definition signed (n : Z) : bytes := if (n <? 0)%Z then DASH :: decimal (- n) else decimal n.
Definition zeros (n : nat) : bytes := replicate n 48%Z.
Definition pad0 (w : nat) (n : Z) : bytes :=
  if (n <? 0)%Z then let d := decimal (- n) in DASH :: zeros (w - 1 - length d) ++ d
  else let d := decimal n in zeros (w - length d) ++ d.

(** ** Lemmas *)

(** Appends grouped to the right. *)
Ltac app_norm := do 4 (rewrite <- ?app_assoc; cbn [app]).


Lemma digits_value_app (a b : bytes) :
  digits_value (a ++ b) = foldl (fun n d => (10 * n + (d - 48))%Z) (digits_value a) b.
Proof. apply foldl_app. Qed.

Lemma dec_value fuel : forall n acc, (0 <= n < 2 ^ Z.of_nat fuel)%Z ->
  digits_value (dec fuel n acc) = foldl (fun n d => (10 * n + (d - 48))%Z) n acc.
Proof.
  induction fuel as [|fuel IH]; intros n acc Hn.
  - assert (n = 0)%Z as -> by (change (2 ^ Z.of_nat 0)%Z with 1%Z in Hn; lia). done.
  - rewrite Nat2Z.inj_succ, Z.pow_succ_r in Hn by lia. cbn [dec].
    destruct (n <? 10)%Z eqn:E; apply Z.ltb_lt in E || apply Z.ltb_ge in E.
    + rewrite Z.mod_small by lia. unfold digits_value. cbn [foldl]. f_equal. lia.
    + rewrite IH; [cbn [foldl]; f_equal; pose proof (Z.div_mod n 10); lia|].
      split; [apply Z.div_pos; lia|apply Z.div_lt_upper_bound; lia].
Qed.

Lemma decimal_value n : (0 <= n)%Z -> digits_value (decimal n) = n.
Proof.
  intros Hn. unfold decimal. rewrite dec_value; [done|]. split; [done|].
  destruct (decide (n = 0)%Z) as [->|Hz]; [done|].
  rewrite Nat2Z.inj_succ, Z2Nat.id by apply Z.log2_nonneg. apply Z.log2_spec. lia.
Qed.

Lemma decimal_inj a b : (0 <= a)%Z -> (0 <= b)%Z -> decimal a = decimal b -> a = b.
Proof. intros Ha Hb H. apply (f_equal digits_value) in H. by rewrite !decimal_value in H. Qed.

Lemma decimal2_inj a b : (0 <= a)%Z -> (0 <= b)%Z -> decimal2 a = decimal2 b -> a = b.
Proof.
  intros Ha Hb H. apply (f_equal digits_value) in H. revert H. unfold decimal2.
  assert (forall n, (0 <= n)%Z -> digits_value (48%Z :: decimal n) = n) as Hz.
  { intros n Hn. change (48%Z :: decimal n) with ([48%Z] ++ decimal n). rewrite digits_value_app.
    apply (decimal_value n Hn). }
  repeat case_match; rewrite ?Hz, ?decimal_value by done; done.
Qed.

Lemma dec_digits fuel : forall n acc, Forall (fun b => is_ascii_digit b = true) acc ->
  Forall (fun b => is_ascii_digit b = true) (dec fuel n acc).
Proof.
  induction fuel as [|fuel IH]; intros n acc Hacc; cbn [dec]; [done|].
  assert (is_ascii_digit (48 + n mod 10) = true) as Hd
    by (pose proof (Z.mod_pos_bound n 10); unfold is_ascii_digit; lia).
  destruct (n <? 10)%Z; [by constructor|]. apply IH. by constructor.
Qed.
Lemma decimal_digits n : Forall (fun b => is_ascii_digit b = true) (decimal n).
Proof. apply dec_digits. constructor. Qed.
Lemma decimal2_digits n : Forall (fun b => is_ascii_digit b = true) (decimal2 n).
Proof. unfold decimal2. case_match; [constructor; [done|]|]; apply decimal_digits. Qed.

Lemma strip_prefix_some s p r : strip_prefix s p = Some r <-> s = p ++ r.
Proof.
  unfold strip_prefix. destruct (starts_with s p) eqn:E.
  - apply starts_with_true in E as [x ->]. rewrite drop_app_length. split; [by intros [= ->]|].
    intros H. by apply app_inv_head in H as ->.
  - split; [done|]. intros ->. by rewrite starts_with_app in E.
Qed.

(** ** Splitting *)

Lemma split_byte_nonempty c s : split_byte c s <> [].
Proof. destruct s as [|b s]; cbn; [done|]. case_match; [done|]. by destruct (split_byte c s). Qed.

Lemma split_byte_none c s : Forall (fun b => b <> c) s -> split_byte c s = [s].
Proof.
  induction 1 as [|b s Hb _ IH]; cbn; [done|]. by rewrite (proj2 (Z.eqb_neq _ _) Hb), IH.
Qed.

Lemma split_byte_app c a b : split_byte c (a ++ c :: b) = split_byte c a ++ split_byte c b.
Proof.
  induction a as [|x a IH]; cbn; [by rewrite Z.eqb_refl|].
  rewrite IH. destruct (x =b c); [done|].
  destruct (split_byte c a) eqn:E; [by apply split_byte_nonempty in E|done].
Qed.

Lemma lines_of_app xs ys : ys <> [] -> lines_of (xs ++ ys) = (strip_cr <$> xs) ++ lines_of ys.
Proof.
  intros Hy. induction xs as [|x xs IH]; [done|]. cbn [app fmap list_fmap lines_of].
  rewrite IH. destruct (xs ++ ys) eqn:E; [|done]. apply app_eq_nil in E as [_ ->]. done.
Qed.

Lemma lines_app a b : lines (a ++ LF :: b) = (strip_cr <$> split_byte LF a) ++ lines b.
Proof. unfold lines. rewrite split_byte_app, lines_of_app; [done|apply split_byte_nonempty]. Qed.

Lemma lines_one s : Forall (fun b => b <> LF) s -> lines (s ++ [LF]) = [strip_cr s].
Proof. intros Hs. rewrite lines_app, split_byte_none by done. done. Qed.

Lemma strip_cr_other s b : b <> CR -> strip_cr (s ++ [b]) = s ++ [b].
Proof. intros Hb. unfold strip_cr. rewrite last_snoc. by rewrite (proj2 (Z.eqb_neq _ _) Hb). Qed.
Lemma strip_cr_cases s : strip_cr s = s \/ s = strip_cr s ++ [CR].
Proof.
  destruct s as [|b s _] using rev_ind; [by left|]. unfold strip_cr. rewrite last_snoc, removelast_last.
  destruct (b =b CR) eqn:E; [right|by left]. by apply Z.eqb_eq in E as ->.
Qed.

(** ** White space *)

Lemma ws_len_graphic b s : (33 <= b <= 126)%Z -> ws_len (b :: s) = 0.
Proof.
  intros Hb. cbn. repeat match goal with
  | |- (if ?c then _ else _) = 0 => let E := fresh in destruct c eqn:E; [split_bool; lia|]
  | |- match ?l with _ => _ end = 0 => destruct l
  end; done.
Qed.

Lemma ws_len_le s : ws_len s <= length s.
Proof. unfold ws_len. repeat case_match; cbn; lia. Qed.

Lemma split_ws_more n m w s : length s < n -> n <= m -> split_ws m w s = split_ws n w s.
Proof.
  revert m w s. induction n as [|n IH]; intros m w s Hn Hm; [lia|]. destruct m as [|m]; [lia|].
  cbn [split_ws]. destruct s as [|b s]; [done|]. cbn [length] in Hn.
  destruct (ws_len (b :: s)) as [|k] eqn:E; [apply IH; cbn; lia|]. f_equal.
  apply IH; [|lia]. rewrite length_drop. cbn [length]. lia.
Qed.

(** A word of visible characters, then a space. *)
Lemma split_ws_word n w v s : Forall (fun b => 33 <= b <= 126)%Z w -> v ++ w <> [] ->
  length w + S (length s) < n ->
  split_ws n v (w ++ SP :: s) = (v ++ w) :: split_whitespace s.
Proof.
  intros Hw. revert n v. induction Hw as [|b w Hb Hw IH]; intros n v Hv Hn; (destruct n as [|n]; [lia|]).
  - rewrite app_nil_r in *. cbn [app split_ws]. change (ws_len (SP :: s)) with 1.
    destruct v as [|x v]; [done|]. cbn [drop app]. f_equal. unfold split_whitespace.
    apply split_ws_more; cbn in Hn; lia.
  - cbn [app split_ws]. rewrite ws_len_graphic by done.
    rewrite IH; [by rewrite <- app_assoc|by destruct v|cbn in Hn; lia].
Qed.
Lemma split_whitespace_word w s : Forall (fun b => 33 <= b <= 126)%Z w -> w <> [] ->
  split_whitespace (w ++ SP :: s) = w :: split_whitespace s.
Proof.
  intros Hw Hne. unfold split_whitespace at 1. rewrite (split_ws_word _ w []); [done|done|done|].
  rewrite length_app. cbn. lia.
Qed.

(** A carriage return at the end is trimmed with the rest. *)
Lemma ws_len_cr s : s <> [] -> ws_len (s ++ [CR]) = ws_len s.
Proof.
  intros Hs. destruct s as [|b [|c [|d s]]]; [done|..|done]; cbn.
  - rewrite !andb_false_r. by repeat case_match.
  - rewrite !andb_false_r. by repeat case_match.
Qed.
Lemma trim_start_fuel_cr n s : length s <= n ->
  trim_start_fuel (S n) (s ++ [CR]) = match trim_start_fuel n s with [] => [] | t => t ++ [CR] end.
Proof.
  revert s. induction n as [|n IH]; intros s Hn.
  { destruct s; [done|cbn in Hn; lia]. }
  destruct s as [|b s]; [done|].
  change (trim_start_fuel (S (S n)) ((b :: s) ++ [CR]))
    with (match ws_len ((b :: s) ++ [CR]) with O => (b :: s) ++ [CR] | k => trim_start_fuel (S n) (drop k ((b :: s) ++ [CR])) end).
  rewrite ws_len_cr by done. cbn [trim_start_fuel]. pose proof (ws_len_le (b :: s)) as Hle.
  destruct (ws_len (b :: s)) as [|k] eqn:E; [done|].
  rewrite drop_app_le by lia. apply IH. rewrite length_drop. cbn in *. lia.
Qed.
Lemma trim_end_cr s : trim_end (s ++ [CR]) = trim_end s.
Proof.
  unfold trim_end. rewrite length_app, Nat.add_1_r. cbn [trim_end_fuel].
  assert (ws_len_end (s ++ [CR]) = 1) as ->.
  { unfold ws_len_end. rewrite length_app. cbn [length]. rewrite drop_app_length' by lia.
    assert ((1 <=? length s + 1) = true) as -> by (apply Nat.leb_le; lia). done. }
  rewrite length_app. cbn [length]. by rewrite take_app_length' by lia.
Qed.
Lemma trim_cr s : trim (s ++ [CR]) = trim s.
Proof.
  unfold trim, trim_start. rewrite length_app, Nat.add_1_r, trim_start_fuel_cr by done.
  destruct (trim_start_fuel (length s) s) as [|b t] eqn:E; [done|]. by rewrite trim_end_cr.
Qed.
Lemma trim_strip_cr s : trim (strip_cr s) = trim s.
Proof. destruct (strip_cr_cases s) as [->|E]; [done|]. rewrite E at 2. by rewrite trim_cr. Qed.

(** Text that starts and ends with visible characters is trimmed to itself. *)
Lemma trim_graphic b s c : (33 <= b <= 126)%Z -> (33 <= c <= 126)%Z -> trim (b :: s ++ [c]) = b :: s ++ [c].
Proof.
  intros Hb Hc. unfold trim, trim_start. cbn [length trim_start_fuel]. rewrite ws_len_graphic by done.
  unfold trim_end. change (b :: s ++ [c]) with ((b :: s) ++ [c]). rewrite length_app, Nat.add_1_r. cbn [trim_end_fuel].
  assert (forall x, ws_len (x ++ [c]) <> S (length x)) as Hw.
  { intros x E. destruct x as [|x1 [|x2 [|x3 x]]]; cbn in E; repeat case_match; split_bool; simplify_eq; lia. }
  assert (ws_len_end ((b :: s) ++ [c]) = 0) as ->; [|done].
  unfold ws_len_end. repeat match goal with |- (if ?g then _ else _) = _ => let E := fresh in destruct g eqn:E; [exfalso|] end;
    [..|done]; split_bool; rewrite length_app in *; cbn [length] in *;
    match goal with E : ws_len (drop ?k _) = _ |- _ =>
      rewrite drop_app_le in E by (cbn; lia);
      apply (Hw (drop k (b :: s))); rewrite E, length_drop; cbn; lia end.
Qed.

Lemma trim_visible s b c : head s = Some b -> last s = Some c -> (33 <= b <= 126)%Z -> (33 <= c <= 126)%Z ->
  trim s = s.
Proof.
  intros Hh Hl Hb Hc. destruct s as [|x s]; [done|]. cbn in Hh. simplify_eq.
  destruct s as [|y s _] using rev_ind.
  - unfold trim, trim_start. cbn [length trim_start_fuel]. rewrite ws_len_graphic by done.
    unfold trim_end. cbn [length trim_end_fuel]. unfold ws_len_end. cbn [length].
    assert ((1 <=? 1) = true) as -> by done. change (drop (1 - 1) [b]) with [b]. by rewrite ws_len_graphic.
  - rewrite app_comm_cons, last_snoc in Hl. simplify_eq. by apply trim_graphic.
Qed.
Lemma trim_word s : Forall (fun b => 33 <= b <= 126)%Z s -> trim s = s.
Proof.
  intros Hs. destruct (head s) as [b|] eqn:Hb; [|by destruct s].
  destruct (last s) as [c|] eqn:Hc; [|by apply last_None in Hc as ->].
  rewrite Forall_forall in Hs. eapply trim_visible; eauto.
  - apply Hs. by apply head_Some_elem_of.
  - apply Hs. by apply last_Some_elem_of.
Qed.

(** ** Reading numbers *)

Definition digits (s : bytes) : Prop := Forall (fun b => is_ascii_digit b = true) s.

Lemma digits_graphic s : digits s -> Forall (fun b => 33 <= b <= 126)%Z s.
Proof. intros Hs. eapply Forall_impl; [exact Hs|]. intros b. byte_unfold. lia. Qed.
Lemma digits_forallb s : digits s -> forallb is_ascii_digit s = true.
Proof. induction 1 as [|b s Hb _ IH]; [done|]. cbn. by rewrite Hb, IH. Qed.
Lemma digits_not s p : digits s -> (forall b, is_ascii_digit b = true -> p b = false) -> Forall (fun b => p b = false) s.
Proof. intros Hs Hp. eapply Forall_impl; [exact Hs|]. exact Hp. Qed.

Lemma dec_nonempty fuel n acc : fuel <> O \/ acc <> [] -> dec fuel n acc <> [].
Proof.
  revert n acc. induction fuel as [|fuel IH]; intros n acc [Hf|Ha]; try done; cbn [dec];
    (destruct (n <? 10)%Z; [done|]; apply IH; by right).
Qed.
Lemma decimal_nonempty n : decimal n <> [].
Proof. apply dec_nonempty. by left. Qed.
Lemma zeros_digits k : digits (zeros k).
Proof. apply Forall_replicate. done. Qed.
Lemma zeros_value k s : digits_value (zeros k ++ s) = digits_value s.
Proof. induction k as [|k IH]; [done|]. cbn [zeros replicate app]. exact IH. Qed.

Lemma digits_of_forallb s : forallb is_ascii_digit s = true -> digits s.
Proof. intros H. apply Forall_forall. intros b Hb. rewrite forallb_forall in H. apply H. by apply list_elem_of_In. Qed.
Lemma parse_int_range lo hi s n : parse_int lo hi s = Some n -> (lo <= n <= hi)%Z.
Proof.
  unfold parse_int. cbn zeta. intros H. repeat case_match; try done; injection H as <-; lia.
Qed.
Lemma parse_int_digits lo hi s : digits s -> s <> [] ->
  parse_int lo hi s = if ((lo <=? digits_value s) && (digits_value s <=? hi))%Z then Some (digits_value s) else None.
Proof.
  intros Hs Hne. destruct s as [|b s]; [done|]. pose proof Hs as Hall. apply Forall_cons in Hs as [Hb _].
  assert ((b =b 45) = false /\ (b =b 43) = false) as [E1 E2] by (byte_unfold; lia).
  unfold parse_int. rewrite E1, E2. cbn [andb]. by rewrite (digits_forallb _ Hall).
Qed.
Lemma parse_uint_digits hi s : digits s -> s <> [] -> (0 <= digits_value s <= hi)%Z -> parse_uint hi s = Some (digits_value s).
Proof.
  intros Hs Hne Hv. unfold parse_uint. destruct s as [|b s]; [done|].
  assert ((b =b 45) = false) as -> by (apply Forall_cons in Hs as [Hb _]; byte_unfold; lia).
  rewrite parse_int_digits by done. by replace ((0 <=? digits_value (b :: s)) && (digits_value (b :: s) <=? hi))%Z with true by lia.
Qed.
Lemma parse_int_value lo hi s n : digits s -> s <> [] -> digits_value s = n -> (lo <= n <= hi)%Z -> parse_int lo hi s = Some n.
Proof.
  intros Hs Hne <- Hn. rewrite parse_int_digits by done.
  by replace ((lo <=? digits_value s) && (digits_value s <=? hi))%Z with true by lia.
Qed.
Lemma parse_int_signed lo hi n : (lo <= n <= hi)%Z -> parse_int lo hi (signed n) = Some n.
Proof.
  intros Hn. unfold signed. destruct (n <? 0)%Z eqn:E.
  - unfold parse_int. rewrite Z.eqb_refl. destruct (decimal (- n)) as [|b s] eqn:Ed; [by apply decimal_nonempty in Ed|].
    rewrite <- Ed. rewrite digits_forallb by apply decimal_digits. rewrite decimal_value by lia.
    rewrite Z.opp_involutive. by replace ((lo <=? n) && (n <=? hi))%Z with true by lia.
  - apply parse_int_value; [apply decimal_digits|apply decimal_nonempty|apply decimal_value; lia|done].
Qed.

(** A number padded with zeros. *)
Lemma pad0_spec w n : (0 <= n)%Z -> digits (pad0 w n) /\ pad0 w n <> [] /\ digits_value (pad0 w n) = n.
Proof.
  intros Hn. unfold pad0. replace (n <? 0)%Z with false by lia. split_and!.
  - apply Forall_app. split; [apply zeros_digits|apply decimal_digits].
  - intros [_ E]%app_eq_nil. by apply (decimal_nonempty n).
  - by rewrite zeros_value, decimal_value.
Qed.
Lemma parse_int_pad0 lo hi w n : (0 <= n)%Z -> (lo <= n <= hi)%Z -> parse_int lo hi (pad0 w n) = Some n.
Proof. intros H0 Hn. destruct (pad0_spec w n H0) as (? & ? & ?). by apply parse_int_value. Qed.
Lemma parse_uint_pad0 hi w n : (0 <= n <= hi)%Z -> parse_uint hi (pad0 w n) = Some n.
Proof.
  intros Hn. destruct (pad0_spec w n) as (? & ? & E); [lia|]. rewrite <- E at 2. apply parse_uint_digits; [done..|lia].
Qed.

Lemma length_dec fuel : forall n acc k, (0 <= n < 10 ^ Z.of_nat k)%Z -> k <> O ->
  length (dec fuel n acc) <= k + length acc.
Proof.
  induction fuel as [|fuel IH]; intros n acc k Hn Hk; cbn [dec]; [lia|].
  destruct (n <? 10)%Z eqn:E; [cbn; lia|]. destruct k as [|k]; [done|].
  assert (k <> 0) as Hk0 by (intros ->; cbn in Hn; lia).
  specialize (IH (n / 10)%Z ((48 + n mod 10)%Z :: acc) k). cbn [length] in IH.
  rewrite Nat2Z.inj_succ, Z.pow_succ_r in Hn by lia.
  assert (0 <= n / 10 < 10 ^ Z.of_nat k)%Z as Hd by (split; [apply Z.div_pos; lia|apply Z.div_lt_upper_bound; lia]).
  specialize (IH Hd Hk0). lia.
Qed.
Lemma length_decimal n k : (0 <= n < 10 ^ Z.of_nat k)%Z -> k <> O -> length (decimal n) <= k.
Proof. intros Hn Hk. pose proof (length_dec (S (Z.to_nat (Z.log2 n))) n [] k Hn Hk). cbn in *. unfold decimal. lia. Qed.
Lemma length_pad0 w n : (0 <= n < 10 ^ Z.of_nat w)%Z -> w <> O -> length (pad0 w n) = w.
Proof.
  intros Hn Hw. unfold pad0. replace (n <? 0)%Z with false by lia. rewrite length_app. unfold zeros. rewrite length_replicate.
  pose proof (length_decimal n w Hn Hw). lia.
Qed.

(** ** Splitting once *)

Lemma split_once_at p a b c : Forall (fun x => p x = false) a -> p b = true -> split_once p (a ++ b :: c) = Some (a, c).
Proof. intros Ha Hb. induction Ha as [|x a Hx _ IH]; cbn; [by rewrite Hb|]. by rewrite Hx, IH. Qed.
Lemma split_once_none p a : Forall (fun x => p x = false) a -> split_once p a = None.
Proof. induction 1 as [|x a Hx _ IH]; cbn; [done|]. by rewrite Hx, IH. Qed.
Lemma rsplit_once_at p a b c : Forall (fun x => p x = false) c -> p b = true -> rsplit_once p (a ++ b :: c) = Some (a, c).
Proof.
  intros Hc Hb. unfold rsplit_once. rewrite rev_app_distr. cbn [rev]. rewrite <- app_assoc. cbn [app].
  rewrite split_once_at; [by rewrite !rev_involutive|by apply Forall_rev|done].
Qed.
Lemma rsplit_once_none p a : Forall (fun x => p x = false) a -> rsplit_once p a = None.
Proof. intros Ha. unfold rsplit_once. by rewrite split_once_none by (by apply Forall_rev). Qed.
Lemma split_byte_two c x y : Forall (fun b => b <> c) x -> Forall (fun b => b <> c) y ->
  split_byte c (x ++ c :: y) = [x; y].
Proof. intros Hx Hy. by rewrite split_byte_app, !split_byte_none. Qed.
Lemma split_byte_three c x y z : Forall (fun b => b <> c) x -> Forall (fun b => b <> c) y -> Forall (fun b => b <> c) z ->
  split_byte c (x ++ c :: y ++ c :: z) = [x; y; z].
Proof. intros Hx Hy Hz. by rewrite split_byte_app, split_byte_two, split_byte_none. Qed.

Lemma trim_start_visible s b : head s = Some b -> (33 <= b <= 126)%Z -> trim_start s = s.
Proof.
  intros Hh Hb. destruct s as [|x s]; [done|]. cbn in Hh. simplify_eq. unfold trim_start. cbn [length trim_start_fuel].
  by rewrite ws_len_graphic.
Qed.
Lemma trim_end_visible s b c : head s = Some b -> last s = Some c -> (33 <= b <= 126)%Z -> (33 <= c <= 126)%Z ->
  trim_end s = s.
Proof.
  intros Hh Hl Hb Hc. pose proof (trim_visible s b c Hh Hl Hb Hc) as Ht. unfold trim in Ht.
  by rewrite (trim_start_visible s b) in Ht.
Qed.

(** [text.chars()] *)
Fixpoint chars (s : bytes) : list Z :=
  match s with
  | [] => []
  | b :: s1 =>
      if (b <? 128)%Z then b :: chars s1
      else if (b <? 224)%Z then
        match s1 with c :: s => ((b - 192) * 64 + (c - 128))%Z :: chars s | _ => [] end
      else if (b <? 240)%Z then
        match s1 with c :: d :: s => ((b - 224) * 4096 + (c - 128) * 64 + (d - 128))%Z :: chars s | _ => [] end
      else
        match s1 with
        | c :: d :: e :: s => ((b - 240) * 262144 + (c - 128) * 4096 + (d - 128) * 64 + (e - 128))%Z :: chars s
        | _ => []
        end
  end.
(** [String::push]: the UTF-8 form of a character. *)
Definition encode_utf8 (c : Z) : bytes :=
  (if c <? 128 then [c]
   else if c <? 2048 then [192 + c / 64; 128 + c mod 64]
   else if c <? 65536 then [224 + c / 4096; 128 + c / 64 mod 64; 128 + c mod 64]
   else [240 + c / 262144; 128 + c / 4096 mod 64; 128 + c / 64 mod 64; 128 + c mod 64])%Z.
(** [char::len_utf8] *)
Definition char_len (c : Z) : nat := if (c <? 128)%Z then 1 else if (c <? 2048)%Z then 2 else if (c <? 65536)%Z then 3 else 4.
Definition chars_len (cs : list Z) : nat := foldr (fun c n => char_len c + n) 0 cs.
(** What is left between the first and the last character that [p] does not hold of. *)
Definition trim_chars (p : Z -> bool) (s : bytes) : bytes :=
  let cs := chars s in
  let start := chars_len (take (count_while p cs) cs) in
  let finish := length s - chars_len (take (count_while p (rev cs)) (rev cs)) in
  if finish <=? start then [] else take (finish - start) (drop start s).

(** [str::contains] and [str::replace] of a text that is not empty. *)
Fixpoint contains (s p : bytes) : bool :=
  starts_with s p || match s with [] => false | _ :: s => contains s p end.
Fixpoint replace_fuel (n : nat) (pat by_ s : bytes) : bytes :=
  match n with
  | O => s
  | S n =>
      if starts_with s pat then by_ ++ replace_fuel n pat by_ (drop (length pat) s)
      else match s with [] => [] | b :: s => b :: replace_fuel n pat by_ s end
  end.
Definition replace_text (pat by_ s : bytes) : bytes := replace_fuel (S (length s)) pat by_ s.
(** [Ord] of byte strings. *)
Fixpoint bytes_compare (a b : bytes) : comparison :=
  match a, b with
  | [], [] => Eq
  | [], _ :: _ => Lt
  | _ :: _, [] => Gt
  | x :: a, y :: b => match Z.compare x y with Eq => bytes_compare a b | c => c end
  end.

(** ** The value of digits *)

Lemma digits_value_bound s : digits s -> (0 <= digits_value s < 10 ^ Z.of_nat (length s))%Z.
Proof.
  intros H. induction s as [|b s IH] using rev_ind; [cbn; lia|].
  apply Forall_app in H as [H1 H2]. apply Forall_cons in H2 as [Hb _].
  specialize (IH H1). unfold digits_value in *. rewrite fold_left_app || rewrite foldl_app. cbn [foldl].
  rewrite length_app. cbn [length]. replace (Z.of_nat (length s + 1)) with (Z.succ (Z.of_nat (length s))) by lia.
  rewrite Z.pow_succ_r by lia. unfold is_ascii_digit in Hb. lia.
Qed.
Lemma digits_value_cat a b : digits_value (a ++ b) = (digits_value a * 10 ^ Z.of_nat (length b) + digits_value b)%Z.
Proof.
  induction b as [|x b IH] using rev_ind; [rewrite app_nil_r; change (digits_value []) with 0%Z; cbn [length]; lia|].
  rewrite app_assoc, !(digits_value_app _ [x]), length_app. cbn [foldl length].
  replace (Z.of_nat (length b + 1)) with (Z.succ (Z.of_nat (length b))) by lia. rewrite Z.pow_succ_r by lia. rewrite IH. lia.
Qed.
Lemma digits_value_cons b s : digits_value (b :: s) = ((b - 48) * 10 ^ Z.of_nat (length s) + digits_value s)%Z.
Proof. change (b :: s) with ([b] ++ s). rewrite digits_value_cat. by cbn [length]. Qed.

(** ** Characters and their UTF-8 form *)

(** A character is its number; one below 2^21 has a form of four bytes at most. *)
Definition scalar (c : Z) : Prop := (c < 2097152)%Z.
Ltac div_lia := Z.to_euclidean_division_equations; lia.
Lemma chars_encode c s : scalar c -> chars (encode_utf8 c ++ s) = c :: chars s.
Proof.
  unfold scalar, encode_utf8. intros Hc.
  destruct (c <? 128)%Z eqn:E1; [cbn; by rewrite E1|].
  destruct (c <? 2048)%Z eqn:E2.
  { cbn [app chars]. replace (192 + c / 64 <? 128)%Z with false by div_lia. replace (192 + c / 64 <? 224)%Z with true by div_lia. f_equal. div_lia. }
  destruct (c <? 65536)%Z eqn:E3.
  { cbn [app chars]. replace (224 + c / 4096 <? 128)%Z with false by div_lia. replace (224 + c / 4096 <? 224)%Z with false by div_lia.
    replace (224 + c / 4096 <? 240)%Z with true by div_lia. f_equal. div_lia. }
  cbn [app chars]. replace (240 + c / 262144 <? 128)%Z with false by div_lia. replace (240 + c / 262144 <? 224)%Z with false by div_lia.
  replace (240 + c / 262144 <? 240)%Z with false by div_lia. f_equal. div_lia.
Qed.
Lemma chars_encode_all cs s : Forall scalar cs -> chars (mjoin (encode_utf8 <$> cs) ++ s) = cs ++ chars s.
Proof. induction 1 as [|c cs Hc _ IH]; [done|]. change (mjoin (encode_utf8 <$> c :: cs)) with (encode_utf8 c ++ mjoin (encode_utf8 <$> cs)).
  rewrite <- app_assoc, chars_encode by done. by rewrite IH.
Qed.
Lemma valid_chars_le n : forall s t, length s <= n -> valid_utf8 s = true -> chars (s ++ t) = chars s ++ chars t /\ Forall scalar (chars s).
Proof.
  unfold scalar. induction n as [|n IH]; intros s t Hn Hv; [by destruct s; [|cbn in Hn; lia]|].
  destruct s as [|b s]; [by split|]. cbn [length] in Hn. cbn [valid_utf8] in Hv. cbn [chars app].
  destruct (b <? 128)%Z eqn:E1.
  { destruct (IH s t ltac:(lia) Hv) as [-> Hf]. split; [done|]. constructor; [lia|done]. }
  destruct ((194 <=? b) && (b <=? 223))%Z eqn:E2.
  { replace (b <? 224)%Z with true by lia. destruct s as [|c s]; [done|]. apply andb_true_iff in Hv as [Hc Hv]. cbn [length app] in *.
    destruct (IH s t ltac:(lia) Hv) as [-> Hf]. split; [done|]. constructor; [lia|done]. }
  destruct ((224 <=? b) && (b <=? 239))%Z eqn:E3.
  { replace (b <? 224)%Z with false by lia. replace (b <? 240)%Z with true by lia. destruct s as [|c [|d s]]; [done..|]. rewrite !andb_true_iff in Hv.
    destruct Hv as [[[Hc1 Hc2] Hd] Hv]. cbn [length app] in *. destruct (IH s t ltac:(lia) Hv) as [-> Hf]. split; [done|].
    constructor; [|done]. destruct (b =b 224), (b =b 237); lia. }
  destruct ((240 <=? b) && (b <=? 244))%Z eqn:E4; [|done].
  replace (b <? 224)%Z with false by lia. replace (b <? 240)%Z with false by lia. destruct s as [|c [|d [|e s]]]; [done..|]. rewrite !andb_true_iff in Hv.
  destruct Hv as [[[[Hc1 Hc2] Hd] He] Hv]. cbn [length app] in *. destruct (IH s t ltac:(lia) Hv) as [-> Hf]. split; [done|].
  constructor; [|done]. destruct (b =b 240), (b =b 244); lia.
Qed.
(** A Rust string is read character by character, whatever follows it. *)
Lemma valid_chars s t : valid_utf8 s = true -> chars (s ++ t) = chars s ++ chars t.
Proof. intros Hv. by apply (valid_chars_le (length s)). Qed.
Lemma valid_scalars s : valid_utf8 s = true -> Forall scalar (chars s).
Proof. intros Hv. by apply (valid_chars_le (length s) s []). Qed.
