(* ===== verification/Scan.v ===== *)
(** * Scan: the dialect-aware SQL scanner of [crates/qh-sql/src/scan.rs].

    The lexers, the single pass ([walk]) every other scan is made of, the script
    scan built on it ([scan_dialect]) and the skipping helpers
    ([first_significant], [leading_keyword], [statement_count]).

    A visitor receives [walk]'s reports in order, so a walk is modelled as the
    list of its reports and a visitor as a fold over that list. *)
From S2P Require Import Prelude Bytes Text.

(** ** Lexers and dialects *)

Inductive Dialect := Generic | Mysql | Postgres | Trino.

Record Lexer := MkLexer {
  mysql_syntax : bool;
  trino : bool;
  postgres : bool;
  backslash_escapes : bool;
  vt_is_space : bool;
  ansi_quotes : bool;
  executable_code : bool;
}.

#[export] Instance Lexer_eq_dec : EqDecision Lexer.
Proof. solve_decision. Defined.
#[export] Instance Dialect_eq_dec : EqDecision Dialect.
Proof. solve_decision. Defined.

Definition lexer_mysql (backslash ansi executable : bool) : Lexer := {|
  mysql_syntax := true; trino := false; postgres := false; vt_is_space := false;
  backslash_escapes := backslash; ansi_quotes := ansi; executable_code := executable |}.

Definition lexer_postgres (backslash vt : bool) : Lexer := {|
  mysql_syntax := false; trino := false; postgres := true; vt_is_space := vt;
  backslash_escapes := backslash; ansi_quotes := false; executable_code := false |}.

Definition GENERIC : Lexer := {|
  mysql_syntax := false; trino := false; postgres := false; vt_is_space := false;
  backslash_escapes := false; ansi_quotes := false; executable_code := false |}.
Definition TRINO : Lexer := {|
  mysql_syntax := false; trino := true; postgres := false; vt_is_space := false;
  backslash_escapes := false; ansi_quotes := false; executable_code := false |}.
Definition MYSQL : Lexer := lexer_mysql true false true.
Definition POSTGRES : Lexer := lexer_postgres false true.

Definition runs_executable_comments (l : Lexer) : bool := executable_code l.
Definition dollar_quotes (l : Lexer) : bool := negb (mysql_syntax l) && negb (trino l).
Definition ident_dollar (l : Lexer) : bool := mysql_syntax l || postgres l.
Definition unicode_ident (l : Lexer) : bool := postgres l.
Definition backtick_quotes (l : Lexer) : bool := negb (postgres l) && negb (trino l).
Definition nested_comments (l : Lexer) : bool := postgres l.
Definition cr_ends_line (l : Lexer) : bool := postgres l || trino l.
Definition is_postgres (l : Lexer) : bool := postgres l.
Definition is_mysql (l : Lexer) : bool := mysql_syntax l.
Definition hash_comment (l : Lexer) : bool := mysql_syntax l.
Definition dash_needs_space (l : Lexer) : bool := mysql_syntax l.
Definition single_backslash (l : Lexer) : bool := backslash_escapes l.
Definition double_backslash (l : Lexer) : bool :=
  backslash_escapes l && negb (ansi_quotes l) && negb (postgres l).

(** [impl From<Dialect> for Lexer] *)
Definition lexer_of (d : Dialect) : Lexer :=
  match d with
  | Generic => GENERIC
  | Mysql => MYSQL
  | Postgres => POSTGRES
  | Trino => TRINO
  end.

Definition GENERIC_READINGS : list Lexer := [GENERIC].
Definition TRINO_READINGS : list Lexer := [TRINO].
Definition MYSQL_READINGS : list Lexer :=
  [ lexer_mysql true false true; lexer_mysql true true true; lexer_mysql false false true;
    lexer_mysql true false false; lexer_mysql true true false; lexer_mysql false false false ].
Definition POSTGRES_READINGS : list Lexer :=
  [ lexer_postgres false true; lexer_postgres true true;
    lexer_postgres false false; lexer_postgres true false ].

Definition readings (d : Dialect) : list Lexer :=
  match d with
  | Generic => GENERIC_READINGS
  | Mysql => MYSQL_READINGS
  | Postgres => POSTGRES_READINGS
  | Trino => TRINO_READINGS
  end.

(** ** Tests on bytes *)

Definition dash_opens_comment (bs : bytes) (i : nat) (l : Lexer) : bool :=
  if negb (is_at bs i DASH) || negb (is_at bs (i + 1) DASH) then false
  else if negb (dash_needs_space l) then true
  else match bs !! (i + 2) with
       | None => true
       | Some b => is_ascii_whitespace b || is_ascii_control b
       end.

Definition executable_comment_opener (bs : bytes) (i : nat) (l : Lexer) : option nat :=
  if negb (executable_code l) then None
  else if negb (is_at bs i SLASH) || negb (is_at bs (i + 1) STAR) || negb (is_at bs (i + 2) BANG)
  then None
  else Some (skip_while is_ascii_digit bs (i + 3)).

Definition is_ident_start (b : Z) (l : Lexer) : bool :=
  is_ascii_alphabetic b || (b =b UNDERSCORE) || (unicode_ident l && (0x80 <=? b)%Z).

Definition is_ident_cont (b : Z) (l : Lexer) : bool :=
  is_ascii_alphanumeric b || (b =b UNDERSCORE) || ((b =b DOLLAR) && ident_dollar l)
  || (unicode_ident l && (0x80 <=? b)%Z).

Definition ends_line (b : Z) (l : Lexer) : bool :=
  (b =b LF) || (cr_ends_line l && (b =b CR)).

(** ** [string_continuation] *)

Definition is_newline (b : Z) : bool := (b =b LF) || (b =b CR).
Definition skip_comment (bs : bytes) (at_ : nat) : nat :=
  skip_while (fun b => negb (is_newline b)) bs at_.

(** One turn of the first loop: horizontal whitespace and comments. *)
Definition continuation_before (bs : bytes) (l : Lexer) (i : nat) : nat + nat :=
  match bs !! i with
  | Some b =>
      if (b =b SP) || (b =b TAB) || (b =b FF) then inl (i + 1)
      else if (b =b VT) && vt_is_space l then inl (i + 1)
      else if (b =b DASH) && is_at bs (i + 1) DASH then inl (skip_comment bs (i + 2))
      else inr i
  | None => inr i
  end.

(** One turn of the second loop: whitespace, and comments that end in a newline.
    It leaves with [None] when the function returns from inside it. *)
Definition continuation_after (bs : bytes) (l : Lexer) (i : nat) : nat + option nat :=
  match bs !! i with
  | Some b =>
      if (b =b SP) || (b =b TAB) || (b =b LF) || (b =b CR) || (b =b FF) then inl (i + 1)
      else if (b =b VT) && vt_is_space l then inl (i + 1)
      else if (b =b DASH) && is_at bs (i + 1) DASH then
        let end_ := skip_comment bs (i + 2) in
        if length bs <=? end_ then inr None else inl (end_ + 1)
      else inr (Some i)
  | None => inr (Some i)
  end.

Definition string_continuation (bs : bytes) (after : nat) (l : Lexer) : option nat :=
  if negb (postgres l) then None
  else
    index ← iter (continuation_before bs l) (S (length bs)) after;
    if negb (at_is is_newline bs index) then None
    else
      r ← iter (continuation_after bs l) (S (length bs)) (index + 1);
      index ← r;
      if is_at bs index SQUOTE then Some (index + 1) else None.

(** ** [read_dollar_tag] *)

(** One turn: [start] is the offset of the opening [$]. *)
Definition dollar_tag_turn (bs : bytes) (l : Lexer) (start i : nat)
  : nat + option (bytes * nat) :=
  match bs !! i with
  | None => inr None
  | Some b =>
      if b =b DOLLAR then inr (Some (slice bs start (i + 1), i + 1))
      else if postgres l then
        let letter := is_ascii_alphabetic b || (b =b UNDERSCORE) || (0x80 <=? b)%Z in
        if letter || ((start + 1 <? i) && is_ascii_digit b) then inl (i + 1) else inr None
      else if is_ascii_alphanumeric b || (b =b UNDERSCORE) then inl (i + 1)
      else inr None
  end.

Definition read_dollar_tag (bs : bytes) (start : nat) (l : Lexer) : option (bytes * nat) :=
  r ← iter (dollar_tag_turn bs l start) (S (length bs)) (start + 1); r.

(** ** The walk *)

Inductive State :=
| Normal | SingleQuoted | DoubleQuoted | BacktickQuoted | LineComment | BlockComment
| DollarQuoted | EscapeQuoted | UnicodeQuoted | BitQuoted.

Inductive OpaqueKind :=
| SingleQuote | DoubleQuote | Backtick | LineCommentK | BlockCommentK | DollarQuote.

#[export] Instance State_eq_dec : EqDecision State.
Proof. solve_decision. Defined.
#[export] Instance OpaqueKind_eq_dec : EqDecision OpaqueKind.
Proof. solve_decision. Defined.

Inductive EndState := EndNormal | EndOpen (k : OpaqueKind).

(** What a [Visitor] is told. *)
Inductive Report :=
| Separator (at_ : nat)
| Opaque (kind : OpaqueKind) (start end_ : nat)
| Word (start end_ : nat).

#[export] Instance Report_eq_dec : EqDecision Report.
Proof. solve_decision. Defined.

(** The locals of [walk], and what the visitor has been told so far. *)
Record Walk := MkWalk {
  state : State;
  region_start : nat;
  region_kind : OpaqueKind;
  dollar_tag : bytes;
  comment_depth : nat;
  index : nat;
  log : list Report;
}.

Definition walk_start : Walk := {|
  state := Normal; region_start := 0; region_kind := SingleQuote; dollar_tag := [];
  comment_depth := 0; index := 0; log := [] |}.

(** [index = i] *)
Definition goto (w : Walk) (i : nat) : Walk :=
  MkWalk (state w) (region_start w) (region_kind w) (dollar_tag w) (comment_depth w) i (log w).
(** Leave [Normal]: a region of [kind] read in state [st] opened at [start]; reading
    resumes at [next]. *)
Definition enter (w : Walk) (st : State) (kind : OpaqueKind) (start next : nat) : Walk :=
  MkWalk st start kind (dollar_tag w) (comment_depth w) next (log w).
(** [visitor.opaque(region_kind, region_start, end); state = Normal], resuming at [next]. *)
Definition close (w : Walk) (end_ next : nat) : Walk :=
  MkWalk Normal (region_start w) (region_kind w) (dollar_tag w) (comment_depth w) next
    (log w ++ [Opaque (region_kind w) (region_start w) end_]).
Definition set_depth (w : Walk) (d : nat) : Walk :=
  MkWalk (state w) (region_start w) (region_kind w) (dollar_tag w) d (index w) (log w).
Definition set_tag (w : Walk) (t : bytes) : Walk :=
  MkWalk (state w) (region_start w) (region_kind w) t (comment_depth w) (index w) (log w).
Definition report (w : Walk) (r : Report) : Walk :=
  MkWalk (state w) (region_start w) (region_kind w) (dollar_tag w) (comment_depth w) (index w)
    (log w ++ [r]).

(** The one-letter PostgreSQL string prefix whose identifier is [start..i]: the state it
    opens and how many bytes follow the letter. *)
Definition postgres_prefix (bs : bytes) (start i : nat) : option (State * nat) :=
  match bs !! start with
  | None => None
  | Some b =>
      let b := to_ascii_lowercase b in
      if (b =b 101) && is_at bs i SQUOTE then Some (EscapeQuoted, 1)
      else if ((b =b 98) || (b =b 120)) && is_at bs i SQUOTE then Some (BitQuoted, 1)
      else if (b =b 117) && starts_with (drop i bs) [AMP; SQUOTE] then Some (UnicodeQuoted, 2)
      else None
  end.

(** The identifier arm of [State::Normal]. *)
Definition step_ident (l : Lexer) (bs : bytes) (w : Walk) : Walk :=
  let start := index w in
  let i := skip_while (fun b => is_ident_cont b l) bs start in
  match (if postgres l && (i - start =? 1) then postgres_prefix bs start i else None) with
  | Some (quoted, width) => enter w quoted SingleQuote start (i + width)
  | None => goto (report w (Word start i)) i
  end.

(** [State::Normal], the arms in the order of the match. *)
Definition step_normal (l : Lexer) (bs : bytes) (w : Walk) (b : Z) : Walk :=
  let i := index w in
  if b =b SQUOTE then enter w SingleQuoted SingleQuote i (i + 1)
  else if b =b DQUOTE then enter w DoubleQuoted DoubleQuote i (i + 1)
  else if (b =b BTICK) && backtick_quotes l then enter w BacktickQuoted Backtick i (i + 1)
  else match (if b =b SLASH then executable_comment_opener bs i l else None) with
  | Some next => goto w next
  | None =>
  if (b =b DASH) && dash_opens_comment bs i l then enter w LineComment LineCommentK i (i + 2)
  else if (b =b HASH) && hash_comment l then enter w LineComment LineCommentK i (i + 1)
  else if (b =b SLASH) && is_at bs (i + 1) STAR then
    set_depth (enter w BlockComment BlockCommentK i (i + 2)) 1
  else if b =b SEMI then goto (report w (Separator i)) (i + 1)
  else if (b =b DOLLAR) && dollar_quotes l then
    match read_dollar_tag bs i l with
    | Some (tag, next) => set_tag (enter w DollarQuoted DollarQuote i next) tag
    | None => goto w (i + 1)
    end
  else if is_ident_start b l then step_ident l bs w
  else goto w (i + 1)
  end.

(** A quote met inside a string: doubled, continued on a later line, or the end. *)
Definition quote_or_close (l : Lexer) (bs : bytes) (w : Walk) : Walk :=
  let i := index w in
  if is_at bs (i + 1) SQUOTE then goto w (i + 2)
  else match string_continuation bs (i + 1) l with
       | Some next => goto w next
       | None => close w (i + 1) (i + 1)
       end.

Definition step_single (l : Lexer) (bs : bytes) (w : Walk) (b : Z) : Walk :=
  if single_backslash l && (b =b BACKSLASH) then goto w (index w + 2)
  else if b =b SQUOTE then quote_or_close l bs w
  else goto w (index w + 1).

Definition step_escape (l : Lexer) (bs : bytes) (w : Walk) (b : Z) : Walk :=
  if b =b BACKSLASH then goto w (index w + 2)
  else if b =b SQUOTE then quote_or_close l bs w
  else goto w (index w + 1).

Definition step_unicode (l : Lexer) (bs : bytes) (w : Walk) (b : Z) : Walk :=
  if b =b SQUOTE then quote_or_close l bs w
  else goto w (index w + 1).

Definition step_bit (l : Lexer) (bs : bytes) (w : Walk) (b : Z) : Walk :=
  let i := index w in
  if b =b SQUOTE then
    match string_continuation bs (i + 1) l with
    | Some next => goto w next
    | None => close w (i + 1) (i + 1)
    end
  else goto w (i + 1).

Definition step_double (l : Lexer) (bs : bytes) (w : Walk) (b : Z) : Walk :=
  let i := index w in
  if double_backslash l && (b =b BACKSLASH) then goto w (i + 2)
  else if b =b DQUOTE then
    if is_at bs (i + 1) DQUOTE then goto w (i + 2) else close w (i + 1) (i + 1)
  else goto w (i + 1).

Definition step_backtick (bs : bytes) (w : Walk) (b : Z) : Walk :=
  let i := index w in
  if b =b BTICK then
    if is_at bs (i + 1) BTICK then goto w (i + 2) else close w (i + 1) (i + 1)
  else goto w (i + 1).

Definition step_line (l : Lexer) (w : Walk) (b : Z) : Walk :=
  let i := index w in
  if ends_line b l then close w i (i + 1) else goto w (i + 1).

Definition step_block (l : Lexer) (bs : bytes) (w : Walk) (b : Z) : Walk :=
  let i := index w in
  if nested_comments l && (b =b SLASH) && is_at bs (i + 1) STAR then
    goto (set_depth w (comment_depth w + 1)) (i + 2)
  else if (b =b STAR) && is_at bs (i + 1) SLASH then
    let w' := set_depth w (comment_depth w - 1) in
    if comment_depth w' =? 0 then close w' (i + 2) (i + 2) else goto w' (i + 2)
  else goto w (i + 1).

Definition step_dollar (bs : bytes) (w : Walk) (b : Z) : Walk :=
  let i := index w in
  if (b =b DOLLAR) && starts_with (drop i bs) (dollar_tag w) then
    let next := i + length (dollar_tag w) in close w next next
  else goto w (i + 1).

Definition step (l : Lexer) (bs : bytes) (w : Walk) (b : Z) : Walk :=
  match state w with
  | Normal => step_normal l bs w b
  | SingleQuoted => step_single l bs w b
  | EscapeQuoted => step_escape l bs w b
  | UnicodeQuoted => step_unicode l bs w b
  | BitQuoted => step_bit l bs w b
  | DoubleQuoted => step_double l bs w b
  | BacktickQuoted => step_backtick bs w b
  | LineComment => step_line l w b
  | BlockComment => step_block l bs w b
  | DollarQuoted => step_dollar bs w b
  end.

(** [while index < bytes.len()] *)
Definition walk_turn (l : Lexer) (bs : bytes) (w : Walk) : Walk + Walk :=
  match bs !! index w with
  | Some b => inl (step l bs w b)
  | None => inr w
  end.

(** After the loop: a region still open is reported to the end of the text. *)
Definition walk_end (bs : bytes) (w : Walk) : list Report * EndState :=
  match state w with
  | Normal => (log w, EndNormal)
  | _ => (log w ++ [Opaque (region_kind w) (region_start w) (length bs)],
          EndOpen (region_kind w))
  end.

Definition walk (bs : bytes) (l : Lexer) : list Report * EndState :=
  match iter (walk_turn l bs) (S (length bs)) walk_start with
  | Some w => walk_end bs w
  | None => ([], EndNormal)
  end.

Definition reports (bs : bytes) (l : Lexer) : list Report := (walk bs l).1.

(** ** Skipping comments *)

(** One turn of the block-comment loop of [comment_end]: the depth and the offset. *)
Definition block_turn (bs : bytes) (l : Lexer) (s : nat * nat) : (nat * nat) + nat :=
  let '(depth, at_) := s in
  if length bs <=? at_ then inr at_
  else if nested_comments l && is_at bs at_ SLASH && is_at bs (at_ + 1) STAR then
    inl (depth + 1, at_ + 2)
  else if is_at bs at_ STAR && is_at bs (at_ + 1) SLASH then
    let depth := depth - 1 in
    if depth =? 0 then inr (at_ + 2) else inl (depth, at_ + 2)
  else inl (depth, at_ + 1).

Definition comment_end (bs : bytes) (i : nat) (l : Lexer) : option nat :=
  let line_end at_ := skip_while (fun b => negb (ends_line b l)) bs at_ in
  if dash_opens_comment bs i l then Some (line_end (i + 2))
  else if is_at bs i HASH && hash_comment l then Some (line_end (i + 1))
  else if is_at bs i SLASH && is_at bs (i + 1) STAR then
    iter (block_turn bs l) (S (length bs)) (1, i + 2)
  else None.

(** One turn of the skipping loop of [leading_keyword]: [inr None] when the text ends,
    [inr (Some i)] when [i] is the first byte that is not skipped. *)
Definition keyword_turn (bs : bytes) (l : Lexer) (i : nat) : nat + option nat :=
  let i := skip_while is_ascii_whitespace bs i in
  if length bs <=? i then inr None
  else match executable_comment_opener bs i l with
       | Some next => inl next
       | None =>
           match comment_end bs i l with
           | Some next => inl next
           | None => inr (Some i)
           end
       end.

Definition leading_keyword (bs : bytes) (l : Lexer) : option bytes :=
  r ← iter (keyword_turn bs l) (S (length bs)) 0;
  start ← r;
  if postgres l then
    let i := skip_while (fun b => is_ident_cont b l) bs start in
    if (i =? start) || negb (at_is (fun b => is_ident_start b l) bs start) then None
    else Some (upper (slice bs start i))
  else
    let i := skip_while (fun b => is_ascii_alphabetic b || (b =b UNDERSCORE)) bs start in
    if i =? start then None else Some (upper (slice bs start i)).

(** One turn of [first_significant]. *)
Definition significant_turn (bs : bytes) (l : Lexer) (i : nat) : nat + option nat :=
  match bs !! i with
  | None => inr None
  | Some b =>
      if is_ascii_whitespace b || (b =b SEMI) then inl (i + 1)
      else match executable_comment_opener bs i l with
           | Some next => inl next
           | None =>
               match comment_end bs i l with
               | Some next => inl next
               | None => inr (Some i)
               end
           end
  end.

Definition first_significant (bs : bytes) (l : Lexer) : option nat :=
  r ← iter (significant_turn bs l) (S (length bs)) 0; r.

Definition has_significant_text_dialect (bs : bytes) (l : Lexer) : bool :=
  match first_significant bs l with Some _ => true | None => false end.
Definition has_significant_text (bs : bytes) : bool := has_significant_text_dialect bs GENERIC.

(** ** The script scan *)

Record Scan := MkScan {
  separators : list nat;
  ends_with_terminator : bool;
  scan_leading_keyword : option bytes;
  keywords : list bytes;
}.

(** The [Collect] visitor. *)
Definition collect (bs : bytes) (s : list nat * list bytes) (r : Report)
  : list nat * list bytes :=
  match r with
  | Separator at_ => (s.1 ++ [at_], s.2)
  | Word start end_ => (s.1, s.2 ++ [upper (slice bs start end_)])
  | Opaque _ _ _ => s
  end.

Definition ends_with (s : bytes) (b : Z) : bool :=
  match last s with Some c => c =b b | None => false end.

Definition scan_dialect (bs : bytes) (l : Lexer) : Scan :=
  let c := foldl (collect bs) ([], []) (reports bs l) in
  {| separators := c.1;
     ends_with_terminator := ends_with (trim_end bs) SEMI;
     scan_leading_keyword := leading_keyword bs l;
     keywords := c.2 |}.
Definition scan (bs : bytes) : Scan := scan_dialect bs GENERIC.

Definition statement_count_dialect (bs : bytes) (s : Scan) (l : Lexer) : nat :=
  if negb (has_significant_text_dialect bs l) then 0
  else match separators s with
       | [] => 1
       | _ => if ends_with_terminator s then length (separators s)
              else length (separators s) + 1
       end.
Definition statement_count (bs : bytes) (s : Scan) : nat := statement_count_dialect bs s GENERIC.
