(* ===== verification/ScanFacts.v ===== *)
(** * ScanFacts: what the walk of [Scan.v] guarantees, whatever the text.

    Every loop of the scanner ends within its fuel; the reports of a walk are
    in order, disjoint and inside the text; and together they account for every
    [;] and every identifier of the text. *)
From S2P Require Import Prelude Bytes Text Scan.

(** ** Report ranges *)

Definition rep_start (r : Report) : nat :=
  match r with Separator i => i | Opaque _ s _ => s | Word s _ => s end.
Definition rep_end (r : Report) : nat :=
  match r with Separator i => i + 1 | Opaque _ _ e => e | Word _ e => e end.
Abbreviation covers := (in_range rep_start rep_end).

(** Reports in order, each non-empty and disjoint from the next, within [lo..hi]. *)
Abbreviation chain := (ranges rep_start rep_end).

(** ** The inner loops: range and termination *)

Section Bounds.
Context (bs : bytes) (l : Lexer).

Lemma lookup_lt i b : bs !! i = Some b -> i < length bs.
Proof. apply lookup_lt_Some. Qed.

Lemma is_at_lt i c : is_at bs i c = true -> i < length bs.
Proof. rewrite is_at_true. apply lookup_lt_Some. Qed.

Lemma skip_comment_range at_ :
  at_ <= length bs -> at_ <= skip_comment bs at_ <= length bs.
Proof. intros H. split; [apply skip_while_ge|by apply skip_while_le]. Qed.

Lemma executable_comment_opener_range i next :
  executable_comment_opener bs i l = Some next -> i + 3 <= next <= length bs.
Proof.
  unfold executable_comment_opener. intros H. case_match; [done|].
  destruct (is_at bs (i + 2) BANG) eqn:E; [|rewrite orb_true_r in H; done].
  case_match; simplify_eq. apply is_at_lt in E.
  split; [apply skip_while_ge|apply skip_while_le; lia].
Qed.

Lemma executable_comment_opener_bytes i next k b :
  executable_comment_opener bs i l = Some next -> i <= k < next -> bs !! k = Some b ->
  b = SLASH \/ b = STAR \/ b = BANG \/ is_ascii_digit b = true.
Proof.
  unfold executable_comment_opener. intros H Hk Hb. case_match; [done|].
  destruct (is_at bs i SLASH) eqn:E1, (is_at bs (i + 1) STAR) eqn:E2,
    (is_at bs (i + 2) BANG) eqn:E3; simplify_eq/=.
  apply is_at_true in E1, E2, E3.
  destruct (decide (k < i + 3)) as [Hlt|Hge].
  - assert (k = i \/ k = i + 1 \/ k = i + 2) as [->|[->| ->]] by lia; simplify_eq; auto.
  - destruct (skip_while_all is_ascii_digit bs (i + 3) k) as (c & ? & ?); [lia..|].
    simplify_eq; auto.
Qed.

Lemma continuation_before_next i j :
  continuation_before bs l i = inl j -> i < length bs /\ i < j <= length bs.
Proof.
  unfold continuation_before. intros H.
  pose proof (skip_comment_range (i + 2)).
  repeat case_match; simplify_eq; split_bool; pose_lookup_lt; lia.
Qed.

Lemma continuation_after_next i j :
  continuation_after bs l i = inl j -> i < length bs /\ i < j <= length bs.
Proof.
  unfold continuation_after. intros H.
  pose proof (skip_comment_range (i + 2)).
  repeat case_match; simplify_eq; split_bool; pose_lookup_lt; lia.
Qed.

Lemma continuation_before_total i :
  exists j, iter (continuation_before bs l) (S (length bs)) i = Some j.
Proof.
  eapply (iter_total _ (fun i => length bs - i)); [|lia].
  intros s s' H. apply continuation_before_next in H. lia.
Qed.

Lemma continuation_after_total i :
  exists r, iter (continuation_after bs l) (S (length bs)) i = Some r.
Proof.
  eapply (iter_total _ (fun i => length bs - i)); [|lia].
  intros s s' H. apply continuation_after_next in H. lia.
Qed.

Lemma string_continuation_range after next :
  string_continuation bs after l = Some next -> after + 2 <= next <= length bs.
Proof.
  unfold string_continuation. intros H. case_match; [done|].
  destruct (iter (continuation_before bs l) _ after) as [i|] eqn:E1; simplify_eq/=.
  assert (after <= i) as Hi.
  { refine (iter_inv _ (fun i => after <= i) (fun r => after <= r) _ _ _ _ _ (le_n _) E1).
    - intros s s' ? ?%continuation_before_next. lia.
    - intros s r. unfold continuation_before. repeat case_match; naive_solver. }
  case_match; [done|].
  destruct (iter (continuation_after bs l) _ (i + 1)) as [r|] eqn:E2; simplify_eq/=.
  assert (forall j, r = Some j -> after + 1 <= j) as Hj.
  { refine (iter_inv _ (fun j => after + 1 <= j)
              (fun r => forall j, r = Some j -> after + 1 <= j) _ _ _ _ _ _ E2); [..|lia].
    - intros s s' ? ?%continuation_after_next. lia.
    - intros s r'. unfold continuation_after. repeat case_match; naive_solver. }
  destruct r as [j|]; simplify_eq/=. case_match eqn:E3; simplify_eq.
  apply is_at_lt in E3. specialize (Hj _ eq_refl). lia.
Qed.

Lemma dollar_tag_turn_next start i j :
  dollar_tag_turn bs l start i = inl j -> i < length bs /\ j = i + 1.
Proof.
  unfold dollar_tag_turn. intros H. case_match eqn:E; [|done].
  apply lookup_lt in E. repeat case_match; simplify_eq; lia.
Qed.

Lemma dollar_tag_total start i :
  exists r, iter (dollar_tag_turn bs l start) (S (length bs)) i = Some r.
Proof.
  eapply (iter_total _ (fun i => length bs - i)); [|lia].
  intros s s' H. apply dollar_tag_turn_next in H. lia.
Qed.

Lemma read_dollar_tag_range start tag next :
  read_dollar_tag bs start l = Some (tag, next) ->
  start + 2 <= next <= length bs /\ tag = slice bs start next /\ bs !! (next - 1) = Some DOLLAR.
Proof.
  unfold read_dollar_tag.
  destruct (iter _ _ _) as [r|] eqn:E; simpl; [|done]. intros ->.
  assert (forall t n, (Some (tag, next)) = Some (t, n) ->
            start + 2 <= n <= length bs /\ t = slice bs start n /\ bs !! (n - 1) = Some DOLLAR)
    as H; [|by apply H].
  refine (iter_inv _ (fun i => start + 1 <= i)
            (fun r => forall t n, r = Some (t, n) -> start + 2 <= n <= length bs
               /\ t = slice bs start n /\ bs !! (n - 1) = Some DOLLAR) _ _ _ _ _ _ E); [..|lia].
  - intros s s' ? ?%dollar_tag_turn_next. lia.
  - intros s r Hs. unfold dollar_tag_turn. intros Hr t n ->.
    case_match eqn:Eb; [|done]. repeat case_match; simplify_eq.
    pose proof (lookup_lt _ _ Eb). apply Z.eqb_eq in H as ->.
    replace (s + 1 - 1) with s by lia. split_and!; [lia|lia|done|done].
Qed.
End Bounds.

(** ** The walk's invariant *)

(** What a region of each kind starts with. *)
Definition region_opens (l : Lexer) (bs : bytes) (k : OpaqueKind) (s : nat) : Prop :=
  match k with
  | SingleQuote =>
      bs !! s = Some SQUOTE
      \/ (postgres l = true /\ exists b, bs !! s = Some b /\ is_ascii_alphabetic b = true)
  | DoubleQuote => bs !! s = Some DQUOTE
  | Backtick => bs !! s = Some BTICK /\ backtick_quotes l = true
  | LineCommentK =>
      dash_opens_comment bs s l = true \/ (bs !! s = Some HASH /\ hash_comment l = true)
  | BlockCommentK => bs !! s = Some SLASH /\ bs !! (s + 1) = Some STAR
  | DollarQuote => bs !! s = Some DOLLAR /\ dollar_quotes l = true
  end.

(** What a closed region of each kind ends with, [e] being the offset just past it. *)
Definition region_closes (l : Lexer) (bs : bytes) (k : OpaqueKind) (e : nat) : Prop :=
  match k with
  | SingleQuote => bs !! (e - 1) = Some SQUOTE
  | DoubleQuote => bs !! (e - 1) = Some DQUOTE
  | Backtick => bs !! (e - 1) = Some BTICK
  | LineCommentK => exists b, bs !! e = Some b /\ ends_line b l = true
  | BlockCommentK => bs !! (e - 2) = Some STAR /\ bs !! (e - 1) = Some SLASH
  | DollarQuote => bs !! (e - 1) = Some DOLLAR
  end.

(** The kind of region each state reads. *)
Definition kind_of (st : State) : OpaqueKind :=
  match st with
  | DoubleQuoted => DoubleQuote
  | BacktickQuoted => Backtick
  | LineComment => LineCommentK
  | BlockComment => BlockCommentK
  | DollarQuoted => DollarQuote
  | Normal | SingleQuoted | EscapeQuoted | UnicodeQuoted | BitQuoted => SingleQuote
  end.

(** What one report says of the text. *)
Definition report_ok (l : Lexer) (bs : bytes) (r : Report) : Prop :=
  match r with
  | Separator i => bs !! i = Some SEMI
  | Word s e =>
      (exists b, bs !! s = Some b /\ is_ident_start b l = true)
      /\ (forall i, s <= i < e -> exists b, bs !! i = Some b /\ is_ident_cont b l = true)
      /\ (forall b, bs !! e = Some b -> is_ident_cont b l = false)
  | Opaque k s e => region_opens l bs k s /\ (e = length bs \/ region_closes l bs k e)
  end.

(** A byte that may lie outside every report: not a [;] and not the start of a word. *)
Definition plain (l : Lexer) (b : Z) : Prop := b <> SEMI /\ is_ident_start b l = false.

Definition accounted (l : Lexer) (rs : list Report) (i : nat) (b : Z) : Prop :=
  (exists r, r ∈ rs /\ covers r i) \/ plain l b.

(** Where the reports already made end: the offset itself in code, the start of the open
    region inside one. *)
Definition frontier (w : Walk) : nat :=
  match state w with Normal => index w | _ => region_start w end.

Record wf (l : Lexer) (bs : bytes) (w : Walk) : Prop := {
  wf_frontier : frontier w <= length bs;
  wf_inside : state w <> Normal -> region_start w < index w /\ region_start w < length bs;
  wf_opens : state w <> Normal -> region_opens l bs (region_kind w) (region_start w);
  wf_depth : state w = BlockComment -> 1 <= comment_depth w;
  wf_tag : state w = DollarQuoted ->
    2 <= length (dollar_tag w) /\ last (dollar_tag w) = Some DOLLAR;
  wf_kind : state w <> Normal -> region_kind w = kind_of (state w);
  wf_chain : chain 0 (log w) (frontier w);
  wf_reports : Forall (report_ok l bs) (log w);
  wf_accounted : forall i b, i < frontier w -> bs !! i = Some b -> accounted l (log w) i b;
}.

Lemma wf_start l bs : wf l bs walk_start.
Proof.
  split; simpl; try done; unfold frontier; simpl; lia.
Qed.

Section Invariant.
Context (l : Lexer) (bs : bytes).

Lemma accounted_app rs r i b : accounted l rs i b -> accounted l (rs ++ [r]) i b.
Proof.
  intros [(x & Hx & Hc)|Hp]; [left|by right]. exists x. split; [|done].
  apply elem_of_app. by left.
Qed.

Definition good_step (w w' : Walk) : Prop := wf l bs w' /\ index w < index w'.

(** Skip plain bytes in code. *)
Lemma wf_goto_code w n :
  wf l bs w -> state w = Normal -> index w <= n <= length bs ->
  (forall i b, index w <= i < n -> bs !! i = Some b -> plain l b) ->
  wf l bs (goto w n).
Proof.
  intros [Hf Hi Ho Hd Ht Hk Hc Hr Ha] Hs Hn Hp. unfold frontier in *. rewrite Hs in *.
  split; simpl; unfold frontier; simpl; rewrite ?Hs; try done; try lia.
  - eapply ranges_weaken; eauto; lia.
  - intros i b Hib Hb. destruct (decide (i < index w)); [by apply Ha|].
    right. eapply Hp; eauto. lia.
Qed.

(** Report a separator or a word that starts here. *)
Lemma wf_report w r :
  wf l bs w -> state w = Normal -> rep_start r = index w -> rep_start r < rep_end r ->
  rep_end r <= length bs -> report_ok l bs r ->
  wf l bs (goto (report w r) (rep_end r)).
Proof.
  intros [Hf Hi Ho Hd Ht Hk Hc Hr Ha] Hs H1 H2 H3 H4. unfold frontier in *. rewrite Hs in *.
  split; simpl; unfold frontier; simpl; rewrite ?Hs; try done; try lia.
  - eapply ranges_snoc; eauto; lia.
  - apply Forall_app; auto.
  - intros i b Hib Hb. destruct (decide (i < index w)).
    + apply accounted_app. by apply Ha.
    + left. exists r. split; [apply elem_of_app; right; by apply list_elem_of_singleton|].
      unfold in_range. lia.
Qed.

(** Open a region. *)
Lemma wf_enter w st k tag d next :
  wf l bs w -> state w = Normal -> st <> Normal -> index w < length bs -> index w < next ->
  region_opens l bs k (index w) ->
  (st = BlockComment -> 1 <= d) ->
  (st = DollarQuoted -> 2 <= length tag /\ last tag = Some DOLLAR) -> k = kind_of st ->
  wf l bs (MkWalk st (index w) k tag d next (log w)).
Proof.
  intros [Hf Hi Ho Hd Ht Hk Hc Hr Ha] Hs Hst Hlt Hn Hk' Hd' Ht' Hkind. unfold frontier in *.
  rewrite Hs in *.
  split; simpl; unfold frontier; simpl; try done; destruct st; done || lia.
Qed.

(** Move on inside a region. *)
Lemma wf_goto_region w d n :
  wf l bs w -> state w <> Normal -> index w < n -> (state w = BlockComment -> 1 <= d) ->
  wf l bs (goto (set_depth w d) n).
Proof.
  intros [Hf Hi Ho Hd Ht Hk Hc Hr Ha] Hs Hn Hd'. unfold frontier in *.
  split; simpl; unfold frontier; simpl; try done.
  - by destruct (state w).
  - intros _. destruct (Hi Hs). lia.
  - by destruct (state w).
  - by destruct (state w).
Qed.

(** Close the region at [e] and go on at [n]. *)
Lemma wf_close w d e n :
  wf l bs w -> state w <> Normal -> index w <= e -> e <= n <= length bs ->
  region_closes l bs (kind_of (state w)) e ->
  (forall i b, e <= i < n -> bs !! i = Some b -> plain l b) ->
  wf l bs (close (set_depth w d) e n).
Proof.
  intros [Hf Hi Ho Hd Ht Hk Hc Hr Ha] Hs He Hn Hcl Hp. destruct (Hi Hs) as [Hi1 Hi2].
  assert (frontier w = region_start w) as Hfr by (unfold frontier; by destruct (state w)).
  rewrite Hfr in *.
  split; simpl; unfold frontier; simpl; try done; try lia.
  - eapply ranges_snoc; simpl; eauto; simpl; lia.
  - apply Forall_app; split; [done|]. constructor; [|done]. simpl. rewrite (Hk Hs) in *. auto.
  - intros i b Hib Hb. destruct (decide (i < region_start w)).
    + apply accounted_app. by apply Ha.
    + destruct (decide (i < e)); [|right; eapply Hp; eauto; lia].
      left. eexists. split; [apply elem_of_app; right; by apply list_elem_of_singleton|].
      unfold in_range; simpl. lia.
Qed.

Lemma wf_goto_region_same w n :
  wf l bs w -> state w <> Normal -> index w < n -> wf l bs (goto w n).
Proof.
  intros H ??. change (goto w n) with (goto (set_depth w (comment_depth w)) n).
  apply wf_goto_region; auto. by destruct H.
Qed.

(** Close a region and resume right after it. *)
Lemma wf_close_here w e :
  wf l bs w -> state w <> Normal -> index w <= e <= length bs ->
  region_closes l bs (kind_of (state w)) e -> wf l bs (close w e e).
Proof.
  intros H ???. change (close w e e) with (close (set_depth w (comment_depth w)) e e).
  apply wf_close; auto; lia.
Qed.

Lemma wf_next_code w b :
  wf l bs w -> state w = Normal -> bs !! index w = Some b -> plain l b ->
  wf l bs (goto w (index w + 1)).
Proof.
  intros H Hs Hb Hp. pose_lookup_lt. apply wf_goto_code; auto; [lia|].
  intros i c Hi Hc. assert (i = index w) as -> by lia. by simplify_eq.
Qed.

Lemma ident_start_cont b : is_ident_start b l = true -> is_ident_cont b l = true.
Proof.
  unfold is_ident_start, is_ident_cont. byte_unfold. destruct (unicode_ident l); lia.
Qed.

Lemma ident_cont_not_semi : is_ident_cont SEMI l = false.
Proof. unfold is_ident_cont. by destruct (unicode_ident l), (ident_dollar l). Qed.

Lemma postgres_prefix_spec start i st k :
  postgres_prefix bs start i = Some (st, k) ->
  st <> Normal /\ st <> BlockComment /\ st <> DollarQuoted /\ kind_of st = SingleQuote /\ 1 <= k
  /\ exists b, bs !! start = Some b /\ is_ascii_alphabetic b = true.
Proof.
  unfold postgres_prefix. intros H. destruct (bs !! start) as [b|]; [|done].
  unfold to_ascii_lowercase in H.
  destruct (is_ascii_uppercase b) eqn:E; repeat case_match; simplify_eq;
    split_and!; try done; try lia; exists b; (split; [done|]); byte_lia.
Qed.

Ltac solve_enter :=
  split_bool; split; [unfold set_depth, enter; simpl; apply wf_enter; simpl; try done; try lia | simpl; lia].

(** *** Each state's step keeps the invariant and moves on *)


Lemma step_ident_good w b :
  wf l bs w -> state w = Normal -> bs !! index w = Some b -> is_ident_start b l = true ->
  good_step w (step_ident l bs w).
Proof.
  intros H Hs Hb Hst. unfold step_ident.
  set (i := skip_while _ bs (index w)).
  assert (index w < i) as Hi.
  { eapply skip_while_step; eauto. by apply ident_start_cont. }
  assert (i <= length bs) as Hle by (apply skip_while_le; pose_lookup_lt; lia).
  assert (wf l bs (goto (report w (Word (index w) i)) i)) as Hword.
  { apply wf_report with (r := Word (index w) i); simpl; auto.
    split; [eauto|]. split.
    - intros j [? ?]. by apply (skip_while_all (fun b => is_ident_cont b l) bs (index w)).
    - intros c. apply skip_while_stop. }
  destruct (if postgres l && _ then _ else _) as [[st k]|] eqn:E; [|by split].
  case_match; [|done]. split_bool.
  apply postgres_prefix_spec in E as (? & ? & ? & ? & ? & ?).
  split; simpl; [|lia].
  apply wf_enter; try done; pose_lookup_lt; try lia. right. eauto.
Qed.

Lemma step_normal_good w b :
  wf l bs w -> state w = Normal -> bs !! index w = Some b ->
  good_step w (step_normal l bs w b).
Proof.
  intros H Hs Hb. unfold step_normal. pose_lookup_lt.
  destruct (b =b SQUOTE) eqn:E1; [solve_enter; by left|].
  destruct (b =b DQUOTE) eqn:E2; [solve_enter|].
  destruct ((b =b BTICK) && _) eqn:E3; [solve_enter|].
  destruct (if b =b SLASH then _ else _) as [next|] eqn:E4.
  { case_match; [|done]. pose proof (executable_comment_opener_range _ _ _ _ E4).
    split; simpl; [|lia]. apply wf_goto_code; auto; [lia|].
    intros j c Hj Hc. unfold plain, is_ident_start.
    destruct (executable_comment_opener_bytes _ _ _ _ _ _ E4 Hj Hc) as [->|[->|[->|Hd]]];
      try (by destruct (unicode_ident l)). byte_unfold. destruct (unicode_ident l); lia. }
  destruct ((b =b DASH) && _) eqn:E5; [solve_enter; by left|].
  destruct ((b =b HASH) && _) eqn:E6; [solve_enter; by right|].
  destruct ((b =b SLASH) && _) eqn:E7; [solve_enter|].
  destruct (b =b SEMI) eqn:E8.
  { split_bool. split; simpl; [|lia].
    apply (wf_report w (Separator (index w))); simpl; auto; lia. }
  destruct ((b =b DOLLAR) && _) eqn:E9.
  { split_bool. destruct (read_dollar_tag bs (index w) l) as [[tag next]|] eqn:E.
    - destruct (read_dollar_tag_range _ _ _ _ _ E) as ([Hn1 Hn2] & -> & Hlast).
      split; simpl; [|lia]. unfold set_tag, enter; simpl.
      apply wf_enter; simpl; try done; try lia. intros _.
      rewrite last_lookup, length_slice, slice_lookup by lia. split; [lia|].
      by replace (index w + Nat.pred (next - index w)) with (next - 1) by lia.
    - split; simpl; [|lia]. eapply wf_next_code; eauto.
      split; [done|]. unfold is_ident_start. by destruct (unicode_ident l). }
  destruct (is_ident_start b l) eqn:E10; [by eapply step_ident_good|].
  split; simpl; [|lia]. eapply wf_next_code; eauto. by split_bool.
Qed.

Lemma goto_region_good w n :
  wf l bs w -> state w <> Normal -> index w < n -> good_step w (goto w n).
Proof. intros. split; [by apply wf_goto_region_same|done]. Qed.

Lemma close_here_good w e :
  wf l bs w -> state w <> Normal -> index w < e <= length bs ->
  region_closes l bs (kind_of (state w)) e -> good_step w (close w e e).
Proof. intros. split; [apply wf_close_here; auto; lia|simpl; lia]. Qed.

(** A region closed by the one byte just read. *)
Lemma close_byte_good w b :
  wf l bs w -> state w <> Normal -> bs !! index w = Some b ->
  region_closes l bs (kind_of (state w)) (index w + 1) ->
  good_step w (close w (index w + 1) (index w + 1)).
Proof. intros. pose_lookup_lt. apply close_here_good; auto; lia. Qed.

Lemma quote_or_close_good w :
  wf l bs w -> state w <> Normal -> kind_of (state w) = SingleQuote ->
  bs !! index w = Some SQUOTE ->
  good_step w (quote_or_close l bs w).
Proof.
  intros H Hs Hk Hb. pose_lookup_lt. unfold quote_or_close.
  case_match; [apply goto_region_good; auto; lia|].
  case_match eqn:E.
  - apply string_continuation_range in E. apply goto_region_good; auto; lia.
  - eapply close_byte_good; eauto. rewrite Hk; simpl.
    by replace (index w + 1 - 1) with (index w) by lia.
Qed.

Lemma step_line_good w b :
  wf l bs w -> state w = LineComment -> bs !! index w = Some b ->
  good_step w (step_line l w b).
Proof.
  intros H Hs Hb. pose_lookup_lt. unfold step_line.
  assert (state w <> Normal) by congruence.
  case_match eqn:E; [|apply goto_region_good; auto; lia].
  split; simpl; [|lia].
  change (close w (index w) (index w + 1))
    with (close (set_depth w (comment_depth w)) (index w) (index w + 1)).
  apply wf_close; auto; [lia|rewrite Hs; simpl; eauto|].
  intros i c Hi Hc. assert (i = index w) as -> by lia. simplify_eq.
  unfold ends_line in E. unfold plain, is_ident_start. byte_unfold.
  destruct (unicode_ident l), (cr_ends_line l); lia.
Qed.

Lemma step_block_good w b :
  wf l bs w -> state w = BlockComment -> bs !! index w = Some b ->
  good_step w (step_block l bs w b).
Proof.
  intros H Hs Hb. pose proof (wf_depth _ _ _ H Hs).
  assert (state w <> Normal) by congruence. unfold step_block.
  case_match; split_bool; pose_lookup_lt.
  { split; simpl; [|lia]. apply wf_goto_region; auto; lia. }
  case_match; [|apply goto_region_good; auto; lia].
  split_bool; pose_lookup_lt. simpl. case_match; split_bool; split; simpl; try lia.
  - apply wf_close; auto; try lia. rewrite Hs; simpl.
    replace (index w + 2 - 2) with (index w) by lia.
    by replace (index w + 2 - 1) with (index w + 1) by lia.
  - apply wf_goto_region; auto; lia.
Qed.

Lemma step_dollar_good w b :
  wf l bs w -> state w = DollarQuoted -> bs !! index w = Some b ->
  good_step w (step_dollar bs w b).
Proof.
  intros H Hs Hb. destruct (wf_tag _ _ _ H Hs) as [Ht Hl]. pose_lookup_lt.
  assert (state w <> Normal) by congruence. unfold step_dollar.
  case_match; [|apply goto_region_good; auto; lia].
  split_bool. match goal with H : starts_with _ _ = true |- _ =>
    apply starts_with_true in H as [r Hr] end.
  pose proof (f_equal length Hr) as Hlen. rewrite length_drop, length_app in Hlen.
  apply close_here_good; auto; [lia|]. rewrite Hs; simpl.
  replace (index w + length (dollar_tag w) - 1)
    with (index w + (length (dollar_tag w) - 1)) by lia.
  rewrite <- lookup_drop, Hr, lookup_app_l by lia.
  by rewrite last_lookup, <- Nat.sub_1_r in Hl.
Qed.

Lemma step_good w b : wf l bs w -> bs !! index w = Some b -> good_step w (step l bs w b).
Proof.
  intros H Hb. pose proof (lookup_lt _ _ _ Hb) as Hlt. unfold step.
  destruct (state w) eqn:Hs; try assert (state w <> Normal) as Hn by congruence;
    eauto using step_normal_good, step_line_good, step_block_good, step_dollar_good;
    unfold step_single, step_escape, step_unicode, step_bit, step_double, step_backtick;
    repeat case_match; split_bool; pose_lookup_lt;
    repeat match goal with
    | E : string_continuation _ _ _ = Some _ |- _ => apply string_continuation_range in E
    end;
    first
      [ apply goto_region_good; auto; lia
      | apply quote_or_close_good; auto; by rewrite Hs
      | eapply close_byte_good; eauto; rewrite Hs; simpl;
        by replace (index w + 1 - 1) with (index w) by lia ].
Qed.

(** *** The walk ends, well formed *)

Lemma walk_turn_good w w' :
  wf l bs w -> walk_turn l bs w = inl w' -> wf l bs w' /\ length bs - index w' < length bs - index w.
Proof.
  unfold walk_turn. intros H Ht. case_match eqn:Hb; simplify_eq.
  destruct (step_good _ _ H Hb). pose_lookup_lt. split; [done|lia].
Qed.

Lemma walk_total : exists w, iter (walk_turn l bs) (S (length bs)) walk_start = Some w.
Proof.
  eapply (iter_total_inv _ (wf l bs) (fun w => length bs - index w));
    [apply walk_turn_good|apply wf_start|simpl; lia].
Qed.

Lemma walk_final : exists w,
  reaches (walk_turn l bs) walk_start w /\ wf l bs w /\ length bs <= index w
  /\ walk bs l = walk_end bs w.
Proof.
  destruct walk_total as [w E]. exists w. unfold walk. rewrite E.
  assert (wf l bs w /\ length bs <= index w) as [? ?].
  { eapply (iter_inv _ (wf l bs) (fun w => wf l bs w /\ length bs <= index w));
      [..|apply wf_start|exact E].
    - intros s s' H Ht. by apply walk_turn_good in Ht as [? _].
    - intros s r H Ht. unfold walk_turn in Ht. case_match eqn:Hb; simplify_eq.
      split; [done|]. by apply lookup_ge_None. }
  split_and!; try done. by eapply iter_reaches.
Qed.

(** A run of the loop, however it is found, gives the walk. *)
Lemma walk_of_reaches w : reaches (walk_turn l bs) walk_start w -> walk bs l = walk_end bs w.
Proof.
  intros H. destruct walk_final as (w' & Hr & _ & _ & ->).
  by rewrite (reaches_det _ _ _ Hr _ H).
Qed.
End Invariant.

#[export] Hint Resolve wf_goto_code wf_report wf_enter wf_goto_region wf_close : qh.
