(* ===== verification/ScanSpec.v ===== *)
(** * ScanSpec: the properties of the SQL scanner. *)
From S2P Require Import Prelude Bytes Text Scan ScanFacts.

(** Inside an opaque region of the walk. *)
Definition in_opaque (bs : bytes) (l : Lexer) (i : nat) : Prop :=
  exists k s e, Opaque k s e ∈ reports bs l /\ s <= i < e.

Section Walk.
Context (bs : bytes) (l : Lexer).

(** What the invariant of the loop says of the finished list of reports. *)
Lemma reports_wf :
  chain 0 (reports bs l) (length bs)
  /\ Forall (report_ok l bs) (reports bs l)
  /\ forall i b, bs !! i = Some b -> accounted l (reports bs l) i b.
Proof.
  destruct (walk_final l bs) as (w & _ & [Hf Hi Ho Hd Ht Hk Hc Hr Ha] & Hend & Hw).
  unfold reports. rewrite Hw.
  destruct (decide (state w = Normal)) as [E|E].
  { unfold walk_end, frontier in *. rewrite E in *. simpl.
    split_and!; [eapply ranges_weaken; eauto; lia|done|].
    intros i b Hb. apply Ha; [|done]. pose_lookup_lt. lia. }
  destruct (Hi E) as [Hi1 Hi2].
  set (r := Opaque (region_kind w) (region_start w) (length bs)).
  assert (frontier w = region_start w) as Hfr 
    by (unfold frontier; destruct (state w) eqn:?; congruence).
  assert ((walk_end bs w).1 = log w ++ [r]) as -> 
    by (unfold walk_end; destruct (state w) eqn:?; done || congruence).
  rewrite Hfr in *. split_and!.
  - eapply ranges_snoc; simpl; eauto; lia.
  - apply Forall_app; split; [done|]. constructor; [|done]. simpl. auto.
  - intros i b Hb. destruct (decide (i < region_start w)).
    + apply accounted_app. apply Ha; [lia|done].
    + left. exists r. split; [apply elem_of_app; right; by apply list_elem_of_singleton|].
      unfold in_range; simpl. pose_lookup_lt. lia.
Qed.

Lemma report_ok_of r : r ∈ reports bs l -> report_ok l bs r.
Proof. destruct reports_wf as (_ & H & _). rewrite Forall_forall in H. apply H. Qed.

Lemma report_unique r1 r2 i :
  r1 ∈ reports bs l -> r2 ∈ reports bs l -> covers r1 i -> covers r2 i -> r1 = r2.
Proof. destruct reports_wf as (H & _). by eapply ranges_disjoint. Qed.
End Walk.

(** The walk's loop ends within the fuel [walk] gives it, for every text and every lexer, and
    it ends because the whole text has been read. *)
Theorem walk_terminates (l : Lexer) (bs : bytes) :
  exists w, iter (walk_turn l bs) (S (length bs)) walk_start = Some w
    /\ length bs <= index w /\ walk bs l = walk_end bs w.
Proof.
  destruct (walk_total l bs) as [w E], (walk_final l bs) as (w' & Hr & _ & Hlen & Hw).
  assert (w' = w) as -> by (eapply reaches_det; eauto using iter_reaches). eauto.
Qed.

(** Reports come in order, each covers at least one byte, no two overlap, and all lie inside
    the text. *)
Theorem walk_reports_ordered (l : Lexer) (bs : bytes) :
  chain 0 (reports bs l) (length bs).
Proof. apply reports_wf. Qed.

(** C2: A [;] is reported as a separator exactly when it lies outside every opaque region: none in
    a string, a quoted name, a comment or a dollar quote, and none in code missed. *)
Theorem separators_exact (l : Lexer) (bs : bytes) (i : nat) :
  Separator i ∈ reports bs l <-> bs !! i = Some SEMI /\ ~ in_opaque bs l i.
Proof.
  split.
  - intros Hr. split; [apply (report_ok_of _ _ _ Hr)|]. intros (k & s & e & Ho & Hi).
    assert (Separator i = Opaque k s e); [|done].
    eapply (report_unique bs l _ _ i); eauto; unfold in_range; simpl; lia.
  - intros [Hb Hno]. destruct (reports_wf bs l) as (_ & _ & Ha).
    destruct (Ha _ _ Hb) as [(r & Hr & Hc)|[? _]]; [|done].
    pose proof (report_ok_of _ _ _ Hr) as Hok. destruct r as [j|k s e|s e]; unfold in_range in Hc; simpl in *.
    + by replace i with j by lia.
    + exfalso. apply Hno. by exists k, s, e.
    + destruct Hok as (_ & Hw & _). destruct (Hw i Hc) as (b & Hb' & Hcont). simplify_eq.
      by rewrite ident_cont_not_semi in Hcont.
Qed.

(** C3: No word can hide: every letter, [_] (and, for PostgreSQL, non-ASCII byte) outside the opaque
    regions lies in a reported word, and that word is a whole identifier: it starts with an
    identifier byte, holds only identifier bytes and is not followed by one. *)
Theorem words_exact (l : Lexer) (bs : bytes) (i : nat) (b : Z) :
  bs !! i = Some b -> is_ident_start b l = true -> ~ in_opaque bs l i ->
  exists s e, Word s e ∈ reports bs l /\ s <= i < e
    /\ (exists c, bs !! s = Some c /\ is_ident_start c l = true)
    /\ (forall j, s <= j < e -> exists c, bs !! j = Some c /\ is_ident_cont c l = true)
    /\ (forall c, bs !! e = Some c -> is_ident_cont c l = false).
Proof.
  intros Hb Hst Hno. destruct (reports_wf bs l) as (_ & _ & Ha).
  destruct (Ha _ _ Hb) as [(r & Hr & Hc)|[_ ?]]; [|congruence].
  pose proof (report_ok_of _ _ _ Hr) as Hok.
  destruct r as [j|k s e|s e]; unfold in_range in Hc; simpl in *.
  - replace j with i in * by lia. simplify_eq.
    apply ident_start_cont in Hst. by rewrite ident_cont_not_semi in Hst.
  - exfalso. apply Hno. by exists k, s, e.
  - by exists s, e.
Qed.
Lemma words_exact_witness :
  exists s e, Word s e ∈ reports (B "SELECT 'a' x") GENERIC /\ s <= 11 < e
    /\ (exists c, B "SELECT 'a' x" !! s = Some c /\ is_ident_start c GENERIC = true)
    /\ (forall j, s <= j < e ->
          exists c, B "SELECT 'a' x" !! j = Some c /\ is_ident_cont c GENERIC = true)
    /\ (forall c, B "SELECT 'a' x" !! e = Some c -> is_ident_cont c GENERIC = false).
Proof.
  apply (words_exact GENERIC (B "SELECT 'a' x") 11 120%Z); [reflexivity|reflexivity|].
  intros (k & s & e & H & Hi). vm_compute in H.
  repeat (apply elem_of_cons in H as [H|H]; [simplify_eq; lia|]). by apply elem_of_nil in H.
Defined.

(** ** Slices of the text are cut at character boundaries *)

Section Boundaries.
Context (bs : bytes) (l : Lexer).
Hypothesis Hutf8 : utf8 bs = true.

Lemma ident_start_ascii_or_high b : is_ident_start b l = true -> (b < 0x80)%Z \/ postgres l = true.
Proof. unfold is_ident_start, unicode_ident. byte_unfold. destruct (postgres l); lia. Qed.

Lemma region_opens_boundary k s : region_opens l bs k s -> is_char_boundary bs s = true.
Proof.
  destruct k; simpl.
  - intros [H|(_ & b & H & Hb)]; eapply boundary_at_ascii; eauto; [lia|byte_lia].
  - intros H. by eapply boundary_at_ascii; eauto.
  - intros [H _]. by eapply boundary_at_ascii; eauto.
  - unfold dash_opens_comment. intros [H|[H _]]; [|by eapply boundary_at_ascii; eauto].
    destruct (is_at bs s DASH) eqn:E; [|done].
    apply is_at_true in E. by eapply boundary_at_ascii; eauto.
  - intros [H _]. by eapply boundary_at_ascii; eauto.
  - intros [H _]. by eapply boundary_at_ascii; eauto.
Qed.

Lemma region_closes_boundary k e : 0 < e -> region_closes l bs k e -> is_char_boundary bs e = true.
Proof.
  intros He. replace e with ((e - 1) + 1) at 2 by lia.
  destruct k; simpl; try (intros H; by eapply boundary_after_ascii; eauto).
  - intros (b & H & Hb). replace (e - 1 + 1) with e by lia.
    eapply boundary_at_ascii; eauto. unfold ends_line in Hb.
    destruct (cr_ends_line l); lia.
  - intros [_ H]. by eapply boundary_after_ascii; eauto.
Qed.

(** The byte before a word, when it is not ASCII, is no identifier byte: only PostgreSQL's
    lexers let a non-ASCII byte start a word, and they read every such byte as one. *)
Lemma word_boundaries s e :
  Word s e ∈ reports bs l -> is_char_boundary bs s = true /\ is_char_boundary bs e = true.
Proof.
  intros Hw. destruct (reports_wf bs l) as (Hc & _ & Ha).
  destruct (ranges_bounds _ _ _ _ _ _ Hc Hw) as (_ & Hlt & Hle); simpl in *.
  destruct (report_ok_of _ _ _ Hw) as ((b & Hb & Hst) & Hall & Hstop).
  split.
  - destruct (ident_start_ascii_or_high _ Hst) as [Hlo|Hpg];
      [by eapply boundary_at_ascii; eauto|].
    destruct s as [|s]; [by apply boundary_start|].
    destruct (decide (b < 0x80)%Z); [by eapply boundary_at_ascii; eauto|].
    destruct (lookup_lt_is_Some_2 bs s) as [c Hb']; [lia|].
    replace (S s) with (s + 1) by lia.
    destruct (Ha _ _ Hb') as [(r & Hr & Hcov)|[_ Hpl]].
    + pose proof (report_ok_of _ _ _ Hr) as Hok. unfold in_range in Hcov.
      assert (rep_end r = S s) as He.
      { destruct (decide (rep_end r = S s)); [done|exfalso].
        assert (r = Word (S s) e) as ->.
        { apply (report_unique bs l _ _ (S s)); auto; unfold in_range; simpl; lia. }
        simpl in *. lia. }
      destruct r as [j|k s' e'|s' e']; simpl in *.
      * replace s with j by lia. by eapply boundary_after_ascii; eauto.
      * destruct Hok as [_ [->|Hcl]]; [pose_lookup_lt; lia|].
        subst. replace (s + 1) with (S s) by lia. eapply region_closes_boundary; eauto. lia.
      * subst. destruct Hok as (_ & _ & Hstop'). specialize (Hstop' _ Hb).
        apply ident_start_cont in Hst. congruence.
    + eapply boundary_after_ascii; eauto.
      unfold is_ident_start, unicode_ident in Hpl. rewrite Hpg in Hpl. byte_unfold. lia.
  - destruct (decide (e = length bs)) as [->|He]; [apply boundary_end|].
    destruct (lookup_lt_is_Some_2 bs e) as [c Hce]; [lia|]. specialize (Hstop _ Hce).
    destruct (decide (c < 0x80)%Z); [by eapply boundary_at_ascii; eauto|].
    destruct (Hall (e - 1)) as (d & Hd & Hcont); [lia|].
    replace e with ((e - 1) + 1) by lia. eapply boundary_after_ascii; eauto.
    unfold is_ident_cont, unicode_ident in *. byte_unfold.
    destruct (postgres l), (ident_dollar l); lia.
Qed.
End Boundaries.

(** Every report of a walk over UTF-8 text starts and ends at a character boundary, so the
    slices the visitors take ([&sql[start..end]] for a word, a region, and the statements
    between separators) never panic. *)
Theorem reports_at_char_boundaries (l : Lexer) (bs : bytes) (r : Report) :
  utf8 bs = true -> r ∈ reports bs l ->
  is_char_boundary bs (rep_start r) = true /\ is_char_boundary bs (rep_end r) = true.
Proof.
  intros Hu Hr. pose proof (report_ok_of _ _ _ Hr) as Hok.
  destruct (reports_wf bs l) as (Hc & _). pose proof (ranges_bounds _ _ _ _ _ _ Hc Hr).
  destruct r as [i|k s e|s e]; simpl in *.
  - split; [by eapply boundary_at_ascii; eauto|by eapply boundary_after_ascii; eauto].
  - destruct Hok as [Ho Hcl]. split; [by eapply region_opens_boundary; eauto|].
    destruct Hcl as [->|Hcl]; [apply boundary_end|].
    apply (region_closes_boundary bs l Hu k e); [lia|done].
  - by apply (word_boundaries bs l Hu).
Qed.

(** [SELECT é$x, 'é'], in UTF-8. *)
Definition utf8_sample : bytes :=
  B "SELECT " ++ [0xC3; 0xA9; DOLLAR; 120]%Z ++ B ", '" ++ [0xC3; 0xA9]%Z ++ B "'".

Lemma reports_at_char_boundaries_witness :
  is_char_boundary utf8_sample 7 = true /\ is_char_boundary utf8_sample 11 = true.
Proof.
  apply (reports_at_char_boundaries POSTGRES utf8_sample (Word 7 11)); [reflexivity|].
  vm_compute. right; left.
Defined.

(** ** What [scan_dialect] collects *)

Definition separator_of (r : Report) : option nat :=
  match r with Separator i => Some i | _ => None end.
Definition word_of (bs : bytes) (r : Report) : option bytes :=
  match r with Word s e => Some (upper (slice bs s e)) | _ => None end.

Lemma collect_foldl bs rs s :
  foldl (collect bs) s rs = (s.1 ++ omap separator_of rs, s.2 ++ omap (word_of bs) rs).
Proof.
  revert s; induction rs as [|r rs IH]; intros [a b]; simpl; [by rewrite !app_nil_r|].
  rewrite IH. destruct r; simpl; by rewrite <- ?app_assoc.
Qed.

Lemma scan_separators bs l : separators (scan_dialect bs l) = omap separator_of (reports bs l).
Proof. unfold scan_dialect; simpl. by rewrite collect_foldl. Qed.

Lemma scan_keywords bs l : keywords (scan_dialect bs l) = omap (word_of bs) (reports bs l).
Proof. unfold scan_dialect; simpl. by rewrite collect_foldl. Qed.

Lemma elem_of_separators bs l i :
  i ∈ separators (scan_dialect bs l) <-> Separator i ∈ reports bs l.
Proof.
  rewrite scan_separators, list_elem_of_omap. split; [|eauto].
  intros (r & Hr & E). destruct r; simplify_eq/=. done.
Qed.

Lemma chain_separators_sorted lo rs hi :
  chain lo rs hi ->
  StronglySorted lt (omap separator_of rs) /\ Forall (fun i => lo <= i < hi) (omap separator_of rs).
Proof.
  revert lo; induction rs as [|r rs IH]; intros lo; simpl; [repeat constructor|].
  intros (H1 & H2 & H3). destruct (IH _ H3) as [IH1 IH2].
  pose proof (ranges_le _ _ _ _ _ H3).
  destruct r as [i|k s e|s e]; simpl in *.
  - split; constructor; try done; try lia;
      (eapply Forall_impl; [exact IH2|]; simpl; lia).
  - split; [done|]. eapply Forall_impl; [exact IH2|]; simpl; lia.
  - split; [done|]. eapply Forall_impl; [exact IH2|]; simpl; lia.
Qed.

(** The separators of a scan are the offsets of the [;] outside every opaque region, in
    increasing order and each once. *)
Theorem scan_separators_spec (l : Lexer) (bs : bytes) :
  StronglySorted lt (separators (scan_dialect bs l))
  /\ forall i, i ∈ separators (scan_dialect bs l) <-> bs !! i = Some SEMI /\ ~ in_opaque bs l i.
Proof.
  split.
  - rewrite scan_separators. eapply chain_separators_sorted, walk_reports_ordered.
  - intros i. rewrite elem_of_separators. apply separators_exact.
Qed.

(** ** The readings of a dialect *)

(** [MYSQL_READINGS] leaves two of the eight combinations of its settings out: for every one of
    the eight there is a reading that walks and scans every text the same way. *)
Theorem mysql_readings_complete (backslash ansi executable : bool) :
  exists l, l ∈ MYSQL_READINGS /\ forall bs,
    walk bs l = walk bs (lexer_mysql backslash ansi executable)
    /\ scan_dialect bs l = scan_dialect bs (lexer_mysql backslash ansi executable)
    /\ first_significant bs l = first_significant bs (lexer_mysql backslash ansi executable).
Proof.
  exists (lexer_mysql backslash (backslash && ansi) executable).
  split; [destruct backslash, ansi, executable; in_list|].
  intros bs. destruct backslash, ansi; done.
Qed.

(** A text two lexers read differently. *)
Definition distinguished (texts : list bytes) (l1 l2 : Lexer) : bool :=
  existsb (fun t => negb (bool_decide (reports t l1 = reports t l2))) texts.

(** Quotes and escapes, an executable comment, and a string continued over a [\v]. *)
Definition reading_probes : list bytes :=
  [ B "'\' x"; DQUOTE :: B "\" ++ DQUOTE :: B " x"; B "/*!a*/"; B "E'a'" ++ [LF; VT] ++ B "'b'" ].

(** No reading of any dialect is redundant: two different readings of one dialect read some
    text differently. *)
Theorem readings_distinct (d : Dialect) (l1 l2 : Lexer) :
  l1 ∈ readings d -> l2 ∈ readings d -> l1 <> l2 ->
  exists bs, bs ∈ reading_probes /\ walk bs l1 <> walk bs l2.
Proof.
  intros H1 H2 Hne.
  assert (distinguished reading_probes l1 l2 = true) as H.
  { assert (forallb (fun l1 => forallb (fun l2 =>
              bool_decide (l1 = l2) || distinguished reading_probes l1 l2) (readings d))
              (readings d) = true) as H by (destruct d; vm_compute; reflexivity).
    rewrite forallb_forall in H. specialize (H l1). rewrite forallb_forall in H.
    rewrite <- !list_elem_of_In in H. specialize (H H1 l2).
    rewrite <- list_elem_of_In in H. specialize (H H2).
    by rewrite bool_decide_eq_false_2 in H. }
  unfold distinguished in H. apply existsb_exists in H as (t & Ht & Hd).
  exists t. split; [by apply list_elem_of_In|]. apply negb_true_iff, bool_decide_eq_false in Hd.
  unfold reports in Hd. congruence.
Qed.
Lemma readings_distinct_witness :
  exists bs, bs ∈ reading_probes /\ walk bs MYSQL <> walk bs (lexer_mysql true true true).
Proof.
  apply (readings_distinct Mysql MYSQL (lexer_mysql true true true)); [in_list|in_list|done].
Defined.
