(* ===== verification/Ident.v ===== *)
(** * Ident: identifier quoting, [crates/qh-sql/src/ident.rs]. *)
From S2P Require Import Prelude Bytes Text Scan ScanFacts ScanSpec.

Inductive IdentStyle := Ansi | MysqlStyle.

(** [ident.replace(c, "cc")] *)
Fixpoint double (c : Z) (s : bytes) : bytes :=
  match s with
  | [] => []
  | b :: s => if b =b c then c :: c :: double c s else b :: double c s
  end.

Definition quote_char (style : IdentStyle) : Z :=
  match style with Ansi => DQUOTE | MysqlStyle => BTICK end.

Definition quote_ident (style : IdentStyle) (ident : bytes) : bytes :=
  match style with
  | Ansi => [DQUOTE] ++ double DQUOTE ident ++ [DQUOTE]
  | MysqlStyle => [BTICK] ++ double BTICK ident ++ [BTICK]
  end.

(** The lexers that read the style's quote as the quote of a name: no backslash escapes inside
    it, and a backtick is a quote at all. *)
Definition reads_style (l : Lexer) (style : IdentStyle) : bool :=
  match style with
  | Ansi => negb (double_backslash l)
  | MysqlStyle => backtick_quotes l
  end.

Definition style_kind (style : IdentStyle) : OpaqueKind :=
  match style with Ansi => DoubleQuote | MysqlStyle => Backtick end.
Definition style_state (style : IdentStyle) : State :=
  match style with Ansi => DoubleQuoted | MysqlStyle => BacktickQuoted end.

Lemma quote_ident_eq style s :
  quote_ident style s = quote_char style :: double (quote_char style) s ++ [quote_char style].
Proof. by destruct style. Qed.

Lemma double_inj c s1 s2 : double c s1 = double c s2 -> s1 = s2.
Proof.
  revert s2; induction s1 as [|x s1 IH]; intros [|y s2]; simpl; repeat case_match;
    intros; simplify_eq; split_bool; try done; try congruence; by f_equal; auto.
Qed.

(** ** Reading a quoted name *)

Section Quoted.
Context (l : Lexer) (style : IdentStyle).
Hypothesis Hreads : reads_style l style = true.

(** Inside a quoted name every lexer that reads the style does the same. *)
Lemma quoted_step bs w b :
  state w = style_state style ->
  step l bs w b =
    (if b =b quote_char style then
       if is_at bs (index w + 1) (quote_char style) then goto w (index w + 2)
       else close w (index w + 1) (index w + 1)
     else goto w (index w + 1)).
Proof.
  intros Hs. unfold step. rewrite Hs.
  destruct style; simpl in *; [|done]. unfold step_double.
  by destruct (double_backslash l).
Qed.

Lemma quoted_enter bs w :
  state w = Normal -> step l bs w (quote_char style) =
    enter w (style_state style) (style_kind style) (index w) (index w + 1).
Proof.
  intros Hs. unfold step. rewrite Hs. unfold step_normal.
  destruct style; simpl in *; [done|]. by rewrite Hreads.
Qed.

(** From just past the opening quote, the walk runs to the closing one. *)
Lemma quoted_run bs post r :
  head post <> Some (quote_char style) ->
  forall s w,
    state w = style_state style ->
    drop (index w) bs = double (quote_char style) s ++ quote_char style :: post ->
    let e := index w + length (double (quote_char style) s) + 1 in
    reaches (walk_turn l bs) (close w e e) r ->
    reaches (walk_turn l bs) w r.
Proof.
  intros Hpost s. induction s as [|b s IH]; intros w Hs Hd; simpl in Hd |- *.
  - intros Hr. eapply reaches_next; [|exact Hr].
    apply drop_cons_inv in Hd as [Hb Hd].
    unfold walk_turn. rewrite Hb, quoted_step, Z.eqb_refl by done. f_equal.
    unfold is_at. rewrite lookup_drop_hd, Hd, Nat.add_0_r.
    destruct post as [|c post]; [done|]. simpl in *.
    destruct (c =b quote_char style) eqn:E; [split_bool; done|done].
  - case_match; intros Hr; simpl in Hd, Hr.
    + apply drop_cons_inv in Hd as [Hb Hd]. pose proof Hd as Hd'.
      apply drop_cons_inv in Hd as [Hb2 Hd].
      eapply reaches_next.
      { unfold walk_turn. rewrite Hb, quoted_step, Z.eqb_refl by done.
        unfold is_at. by rewrite Hb2, Z.eqb_refl. }
      apply IH; simpl; [done|by replace (index w + 2) with (index w + 1 + 1) by lia|].
      unfold close in *; simpl.
      by replace (index w + 2 + length (double (quote_char style) s) + 1) with
        (index w + S (S (length (double (quote_char style) s))) + 1) by lia.
    + apply drop_cons_inv in Hd as [Hb Hd].
      eapply reaches_next.
      { unfold walk_turn. rewrite Hb, quoted_step by done. by rewrite H. }
      apply IH; simpl; [done|done|].
      unfold close in *; simpl.
      by replace (index w + 1 + length (double (quote_char style) s) + 1) with
        (index w + S (length (double (quote_char style) s)) + 1) by lia.
Qed.

(** A whole text that is one quoted name. *)
Lemma quoted_walk s :
  walk (quote_ident style s) l =
    ([Opaque (style_kind style) 0 (length (quote_ident style s))], EndNormal).
Proof.
  set (bs := quote_ident style s). set (q := quote_char style).
  assert (bs = q :: double q s ++ [q]) as Ebs by apply quote_ident_eq.
  set (w1 := enter walk_start (style_state style) (style_kind style) 0 1).
  set (e := 1 + length (double q s) + 1).
  assert (length bs = e) as He by (rewrite Ebs; simpl; rewrite length_app; simpl; lia).
  rewrite (walk_of_reaches _ _ (close w1 e e)).
  - unfold walk_end; simpl. by rewrite He.
  - apply (reaches_next _ _ w1).
    { unfold walk_turn; simpl. rewrite Ebs; simpl. rewrite <- Ebs. f_equal.
      by apply quoted_enter. }
    apply (quoted_run bs [] _ ltac:(done) s); [by destruct style|by rewrite Ebs|].
    apply reaches_done. unfold walk_turn; simpl.
    rewrite lookup_ge_None_2; [done|]. unfold e in He. unfold q in *. lia.
Qed.
End Quoted.

(** ** Properties *)

(** Quoting is injective: two identifiers are never written the same way. *)
Theorem quote_ident_inj (style : IdentStyle) (s1 s2 : bytes) :
  quote_ident style s1 = quote_ident style s2 -> s1 = s2.
Proof.
  rewrite !quote_ident_eq. intros [= H]. apply app_inj_2 in H as [H _]; [|done].
  by eapply double_inj.
Qed.
Lemma quote_ident_inj_witness : B "a" ++ [DQUOTE] = B "a" ++ [DQUOTE].
Proof. apply (quote_ident_inj Ansi). reflexivity. Defined.

(** Whatever the identifier holds, its quoted form is one quoted name to every lexer that
    reads the style: a single opaque region over the whole text, closed at its last byte, so
    nothing in the name is a separator, a word or a comment. *)
Theorem quote_ident_one_region (style : IdentStyle) (l : Lexer) (ident : bytes) :
  reads_style l style = true ->
  walk (quote_ident style ident) l =
    ([Opaque (style_kind style) 0 (length (quote_ident style ident))], EndNormal).
Proof. intros. by apply quoted_walk. Qed.
Lemma quote_ident_one_region_witness :
  walk (quote_ident Ansi (B "a" ++ DQUOTE :: B "; DROP TABLE t; --")) POSTGRES
    = ([Opaque DoubleQuote 0 23], EndNormal).
Proof.
  apply (quote_ident_one_region Ansi POSTGRES (B "a" ++ DQUOTE :: B "; DROP TABLE t; --")).
  reflexivity.
Defined.
