(* ===== verification/Lex.v ===== *)
(** * Lex: the token lexer for code no parser understands, [crates/qh-sql/src/lex.rs].

    A visitor of the walk: regions and words come from it, and the bytes between them are cut
    into numbers and punctuation. *)
From S2P Require Import Prelude Bytes Text Scan ScanFacts ScanSpec.

Inductive TokenKind :=
| TOpaque (kind : OpaqueKind) | TWord | TNumber | TParam | TPunct.

Record Token := MkToken { tok_start : nat; tok_end : nat; tok_kind : TokenKind }.

#[export] Instance TokenKind_eq_dec : EqDecision TokenKind.
Proof. solve_decision. Defined.
#[export] Instance Token_eq_dec : EqDecision Token.
Proof. solve_decision. Defined.

(** The state of one lexing; the text is fixed, [tokens] is what [emit] was given. *)
Record Lexing := MkLexing { base : nat; cursor : nat; tokens : list Token }.

Definition token (x : Lexing) (start end_ : nat) (kind : TokenKind) : Lexing :=
  MkLexing (base x) (cursor x)
    (tokens x ++ [MkToken (base x + start) (base x + end_) kind]).
Definition set_cursor (x : Lexing) (c : nat) : Lexing := MkLexing (base x) c (tokens x).

Definition number_end (text : bytes) (at_ : nat) : nat :=
  let digits from := skip_while is_ascii_digit text from in
  let end_ := digits at_ in
  if is_at text end_ DOT && at_is is_ascii_digit text (end_ + 1) then digits (end_ + 1)
  else end_.

(** One turn of the loop of [Lexing::code], at offset [at_]. *)
Definition code_turn (text : bytes) (to : nat) (s : Lexing * nat) : (Lexing * nat) + Lexing :=
  let '(x, at_) := s in
  match text !! at_ with
  | Some b =>
      if to <=? at_ then inr x
      else if is_ascii_digit b then
        let end_ := number_end (take to text) at_ in
        let glued := at_is (fun n => is_ascii_alphabetic n || (n =b UNDERSCORE)) text end_ in
        inl (if glued then x else token x at_ end_ TNumber, end_)
      else if is_ascii_punctuation b then
        let end_ := skip_while is_ascii_punctuation (take to text) (at_ + 1) in
        inl (token x at_ end_ TPunct, end_)
      else inl (x, at_ + 1)
  | None => inr x
  end.

Definition code (text : bytes) (x : Lexing) (to : nat) : Lexing :=
  match iter (code_turn text to) (S (length text)) (x, cursor x) with
  | Some y => set_cursor y (Nat.max to (cursor y))
  | None => x
  end.

(** Whether a word at [start] is a [:name] parameter. *)
Definition is_param (text : bytes) (x : Lexing) (start : nat) : bool :=
  (cursor x <? start) && is_at text (start - 1) COLON
  && ((start <? 2)
      || negb (at_is (fun b => is_ascii_alphanumeric b || (b =b UNDERSCORE) || (b =b COLON))
                 text (start - 2))).

(** [impl Visitor for Lexing] *)
Definition lex_visit (text : bytes) (x : Lexing) (r : Report) : Lexing :=
  match r with
  | Separator _ => x
  | Opaque kind start end_ =>
      set_cursor (token (code text x start) start end_ (TOpaque kind)) end_
  | Word start end_ =>
      if is_param text x start then
        set_cursor (token (code text x (start - 1)) (start - 1) end_ TParam) end_
      else set_cursor (token (code text x start) start end_ TWord) end_
  end.

Definition lex (bs : bytes) (range_start range_end : nat) (l : Lexer) : list Token :=
  let end_ := Nat.min range_end (length bs) in
  let start := Nat.min range_start end_ in
  let text := slice bs start end_ in
  let x := foldl (lex_visit text) (MkLexing start 0 []) (reports text l) in
  tokens (code text x (length text)).

(** ** Facts *)

Definition tok_covers := in_range tok_start tok_end.

(** What a token says of the text it was cut from, under the walk's reports [rs]. *)
Definition token_ok (text : bytes) (l : Lexer) (b : nat) (rs : list Report) (t : Token) : Prop :=
  let s := tok_start t - b in
  let e := tok_end t - b in
  b <= tok_start t /\
  match tok_kind t with
  | TOpaque k => Opaque k s e ∈ rs
  | TWord => Word s e ∈ rs
  | TParam => text !! s = Some COLON /\ Word (s + 1) e ∈ rs
  | TNumber => forall i, s <= i < e ->
      exists c, text !! i = Some c /\ (is_ascii_digit c = true \/ c = DOT)
  | TPunct => forall i, s <= i < e -> exists c, text !! i = Some c /\ is_ascii_punctuation c = true
  end.

(** Punctuation the lexer never drops: all but the [.] inside digits glued to a letter. *)
Definition operator (b : Z) : bool := is_ascii_punctuation b && negb (b =b DOT).

(** The lexing invariant: everything before the cursor is cut, in order. *)
Record lex_wf (text : bytes) (l : Lexer) (rs : list Report) (x : Lexing) (at_ : nat) : Prop := {
  lw_ranges : ranges tok_start tok_end (base x) (tokens x) (base x + at_);
  lw_ok : Forall (token_ok text l (base x) rs) (tokens x);
  lw_punct : forall i b, i < at_ -> text !! i = Some b -> operator b = true ->
    exists t, t ∈ tokens x /\ tok_covers t (base x + i);
}.

Section Code.
Context (text : bytes) (l : Lexer) (rs : list Report).

Lemma token_wf x at_ s e k :
  lex_wf text l rs x at_ -> at_ <= s -> s < e ->
  token_ok text l (base x) rs (MkToken (base x + s) (base x + e) k) ->
  (forall i b, at_ <= i < s -> text !! i = Some b -> operator b = false) ->
  lex_wf text l rs (token x s e k) e.
Proof.
  intros [Hr Ho Hp] Hs He Hok Hgap. split; simpl.
  - eapply ranges_snoc; eauto; simpl; lia.
  - apply Forall_app; auto.
  - intros i b Hi Hb Hpb. destruct (decide (i < at_)) as [Hlt|Hge].
    + destruct (Hp _ _ Hlt Hb Hpb) as (t & Ht & Hc).
      exists t. split; [apply elem_of_app; by left|done].
    + destruct (decide (i < s)); [rewrite (Hgap i b) in Hpb; [done|lia|done]|].
      eexists. split; [apply elem_of_app; right; by apply list_elem_of_singleton|].
      unfold tok_covers, in_range; simpl. lia.
Qed.

Lemma skip_wf x at_ n :
  lex_wf text l rs x at_ -> at_ <= n ->
  (forall i b, at_ <= i < n -> text !! i = Some b -> operator b = false) ->
  lex_wf text l rs x n.
Proof.
  intros [Hr Ho Hp] Hn Hgap. split; simpl.
  - eapply ranges_weaken; eauto; lia.
  - done.
  - intros i b Hi Hb Hpb. destruct (decide (i < at_)) as [Hlt|Hge]; [eauto|].
    rewrite (Hgap i b) in Hpb; [done|lia|done].
Qed.

Lemma number_end_range to at_ b :
  to <= length text -> at_ < to -> text !! at_ = Some b -> is_ascii_digit b = true ->
  at_ < number_end (take to text) at_ <= to /\
  forall i, at_ <= i < number_end (take to text) at_ ->
    exists c, text !! i = Some c /\ (is_ascii_digit c = true \/ c = DOT).
Proof.
  intros Hto Hat Hb Hd. unfold number_end. set (cut := take to text).
  assert (length cut = to) as Hl by (unfold cut; rewrite length_take; lia).
  assert (forall i c, cut !! i = Some c -> text !! i = Some c) as Htt.
  { intros i c. unfold cut. rewrite lookup_take. by case_decide. }
  set (e := skip_while is_ascii_digit cut at_).
  assert (at_ < e) as H1.
  { eapply skip_while_step; [|done]. unfold cut. by rewrite lookup_take_lt. }
  assert (e <= to) as H2 by (rewrite <- Hl; apply skip_while_le; lia).
  assert (forall i, at_ <= i < e -> exists c, text !! i = Some c /\ (is_ascii_digit c = true \/ c = DOT))
    as H3.
  { intros i Hi. destruct (skip_while_all is_ascii_digit cut at_ i) as (c & Hc & ?);
      [lia|unfold e in Hi; lia|]. eauto. }
  destruct (is_at cut e DOT && _) eqn:E; [|split; [lia|done]].
  apply andb_true_iff in E as [E _]. apply is_at_true in E. set (e2 := skip_while is_ascii_digit cut (e + 1)).
  assert (e + 1 <= e2) by apply skip_while_ge.
  assert (e2 <= to).
  { rewrite <- Hl. apply skip_while_le. pose_lookup_lt. lia. }
  split; [lia|]. intros i Hi.
  destruct (decide (i < e)); [apply H3; lia|].
  destruct (decide (i = e)) as [->|]; [eauto|].
  destruct (skip_while_all is_ascii_digit cut (e + 1) i) as (c & Hc & ?);
    [lia|unfold e2 in Hi; lia|]. eauto.
Qed.

Lemma punct_end_range to at_ b :
  to <= length text -> at_ < to -> text !! at_ = Some b -> is_ascii_punctuation b = true ->
  let e := skip_while is_ascii_punctuation (take to text) (at_ + 1) in
  at_ < e <= to /\
  forall i, at_ <= i < e -> exists c, text !! i = Some c /\ is_ascii_punctuation c = true.
Proof.
  intros Hto Hat Hb Hp e. set (cut := take to text) in *.
  assert (length cut = to) as Hl by (unfold cut; rewrite length_take; lia).
  assert (at_ + 1 <= e) by apply skip_while_ge.
  assert (e <= to) by (rewrite <- Hl; apply skip_while_le; lia).
  split; [lia|]. intros i Hi. destruct (decide (i = at_)) as [->|]; [eauto|].
  destruct (skip_while_all is_ascii_punctuation cut (at_ + 1) i) as (c & Hc & ?);
    [lia|unfold e in Hi; lia|].
  exists c. split; [|done]. unfold cut in Hc. rewrite lookup_take in Hc. by case_decide.
Qed.

(** One turn of [code] keeps the invariant, moves on and stays within the gap. *)
Lemma code_turn_wf to x at_ x' at_' :
  to <= length text -> at_ <= to -> lex_wf text l rs x at_ ->
  code_turn text to (x, at_) = inl (x', at_') ->
  lex_wf text l rs x' at_' /\ at_ < at_' <= to /\ base x' = base x /\ cursor x' = cursor x.
Proof.
  intros Hto Hat Hw H. simpl in H. destruct (text !! at_) as [b|] eqn:Hb; [|done].
  case_match eqn:Ele; [done|]. split_bool.
  destruct (is_ascii_digit b) eqn:Ed.
  - destruct (number_end_range to at_ b) as [Hr Hall]; [done..|].
    assert (lex_wf text l rs x (number_end (take to text) at_)) as Hskip.
    { apply skip_wf with at_; [done|lia|]. intros i c Hi Hc.
      destruct (Hall i Hi) as (c' & Hc' & [Hd| ->]); simplify_eq; [|done].
      unfold operator. byte_unfold. lia. }
    case_match; simplify_eq; split_and!; try done; try lia.
    apply token_wf with at_; [done|lia|lia| |intros; lia].
    split; simpl; [lia|]. intros i. replace (base x + at_ - base x) with at_ by lia.
    replace (base x + number_end (take to text) at_ - base x)
      with (number_end (take to text) at_) by lia. apply Hall.
  - destruct (is_ascii_punctuation b) eqn:Ep; simplify_eq.
    + destruct (punct_end_range to at_ b) as [Hr Hall]; [done..|].
      split_and!; try done; try lia.
      apply token_wf with at_; [done|lia|lia| |intros; lia].
      split; simpl; [lia|]. intros i. replace (base x + at_ - base x) with at_ by lia.
      intros [? ?]. apply Hall. lia.
    + split_and!; try done; try lia. apply skip_wf with at_; [done|lia|].
      intros i c Hi Hc. replace i with at_ in * by lia. simplify_eq.
      unfold operator. by rewrite Ep.
Qed.

Lemma code_wf x to :
  cursor x <= to <= length text -> lex_wf text l rs x (cursor x) ->
  lex_wf text l rs (code text x to) to /\ cursor (code text x to) = to /\ base (code text x to) = base x.
Proof.
  intros Hto Hw. unfold code.
  set (Inv := fun s : Lexing * nat => lex_wf text l rs s.1 s.2 /\ s.2 <= to
                /\ base s.1 = base x /\ cursor s.1 = cursor x).
  assert (Inv (x, cursor x)) as H0 by (split_and!; simpl; done || lia).
  assert (forall s s', Inv s -> code_turn text to s = inl s' ->
            Inv s' /\ length text - s'.2 < length text - s.2) as Hstep.
  { intros [y a] [y' a'] (H1 & H2 & H3 & H4) Ht; simpl in *.
    destruct (code_turn_wf _ _ _ _ _ (proj2 Hto) H2 H1 Ht) as (? & ? & ? & ?).
    unfold Inv; simpl. split_and!; try done; try lia; congruence. }
  destruct (iter_total_inv _ Inv _ Hstep (S (length text)) _ H0) as [y Hy]; [simpl; lia|].
  rewrite Hy.
  assert (lex_wf text l rs y to /\ base y = base x /\ cursor y = cursor x) as (H1 & H2 & H3).
  { refine (iter_inv _ Inv (fun y => lex_wf text l rs y to /\ base y = base x /\ cursor y = cursor x)
              _ _ _ _ _ H0 Hy); [intros s s' HI Ht; apply (Hstep _ _ HI Ht)|].
    intros [z a] r (H1 & H2 & H3 & H4) Ht; simpl in *.
    destruct (text !! a) eqn:Ha.
    - destruct (to <=? a) eqn:E; [|by repeat case_match; simplify_eq]. split_bool. simplify_eq.
      by replace to with a by lia.
    - simplify_eq. apply lookup_ge_None in Ha. by replace to with a by lia. }
  destruct H1. split_and!; [split; done|simpl; lia|done].
Qed.

(** *** One report *)

Lemma set_cursor_wf x c at_ :
  lex_wf text l rs x at_ -> lex_wf text l rs (set_cursor x c) at_.
Proof. by destruct 1. Qed.

Lemma token_ok_shift b s e k :
  token_ok text l b rs (MkToken (b + s) (b + e) k) <->
  match k with
  | TOpaque k => Opaque k s e ∈ rs
  | TWord => Word s e ∈ rs
  | TParam => text !! s = Some COLON /\ Word (s + 1) e ∈ rs
  | TNumber => forall i, s <= i < e ->
      exists c, text !! i = Some c /\ (is_ascii_digit c = true \/ c = DOT)
  | TPunct => forall i, s <= i < e ->
      exists c, text !! i = Some c /\ is_ascii_punctuation c = true
  end.
Proof.
  unfold token_ok; simpl.
  replace (b + s - b) with s by lia. replace (b + e - b) with e by lia.
  split; [by intros [_ ?]|]. intros ?. split; [lia|done].
Qed.

Definition ready (x : Lexing) : Prop := lex_wf text l rs x (cursor x).

(** Cut the code up to [s], then one token [s..e]. *)
Lemma code_token_ready x s e k :
  ready x -> cursor x <= s -> s < e -> s <= length text ->
  token_ok text l (base x) rs (MkToken (base x + s) (base x + e) k) ->
  let y := set_cursor (token (code text x s) s e k) e in
  ready y /\ cursor y = e /\ base y = base x.
Proof.
  intros Hw Hs He Hlen Hok y.
  destruct (code_wf x s) as (H1 & H2 & H3); [lia|done|].
  split_and!; [|done|done]. apply set_cursor_wf. change (cursor y) with e.
  apply token_wf with s; [done|lia|lia|by rewrite H3|intros; lia].
Qed.

Lemma lex_visit_ready x r lo :
  ready x -> cursor x <= lo -> lo <= rep_start r -> rep_start r < rep_end r ->
  rep_end r <= length text -> r ∈ rs ->
  ready (lex_visit text x r) /\ cursor (lex_visit text x r) <= rep_end r
  /\ base (lex_visit text x r) = base x.
Proof.
  intros Hw Hc Hlo Hlt Hle Hr. destruct r as [i|k s e|s e]; simpl in *.
  - split_and!; [done|lia|done].
  - destruct (code_token_ready x s e (TOpaque k)) as (Hrd & Hcu & Hba);
      [done|lia|done|lia|apply token_ok_shift; done|split_and!; [exact Hrd|simpl; lia|exact Hba]].
  - unfold is_param. case_match eqn:E.
    + apply andb_true_iff in E as [E _]. apply andb_true_iff in E as [E1 E2].
      apply Nat.ltb_lt in E1. apply is_at_true in E2.
      destruct (code_token_ready x (s - 1) e TParam) as (Hrd & Hcu & Hba);
        [done|lia|lia|lia| |split_and!; [exact Hrd|simpl; lia|exact Hba]].
      apply token_ok_shift; simpl. by replace (s - 1 + 1) with s by lia.
    + destruct (code_token_ready x s e TWord) as (Hrd & Hcu & Hba);
        [done|lia|done|lia|apply token_ok_shift; done|split_and!; [exact Hrd|simpl; lia|exact Hba]].
Qed.

Lemma lex_fold_ready es : forall x lo,
  ready x -> cursor x <= lo -> ranges rep_start rep_end lo es (length text) ->
  (forall r, r ∈ es -> r ∈ rs) ->
  ready (foldl (lex_visit text) x es)
  /\ cursor (foldl (lex_visit text) x es) <= length text
  /\ base (foldl (lex_visit text) x es) = base x.
Proof.
  induction es as [|r es IH]; intros x lo Hw Hc Hr Hin; simpl in *.
  - split_and!; [done|lia|done].
  - destruct Hr as (H1 & H2 & H3).
    assert (rep_end r <= length text) by (by eapply ranges_le).
    destruct (lex_visit_ready x r lo) as (? & ? & Hb); auto.
    { apply Hin. by apply list_elem_of_here. }
    rewrite <- Hb. eapply IH; eauto.
    intros r' Hr'. apply Hin. by apply list_elem_of_further.
Qed.
End Code.

(** ** Properties *)

(** The tokens of a range: in order, non-empty, disjoint and inside the range, each being what
    its kind says of the bytes it covers (an opaque token and a word are ones the walk reports;
    a number holds digits and a point; punctuation holds only punctuation). *)
Theorem lex_tokens_ok (l : Lexer) (bs : bytes) (a b : nat) :
  let end_ := Nat.min b (length bs) in
  let start := Nat.min a end_ in
  let text := slice bs start end_ in
  ranges tok_start tok_end start (lex bs a b l) end_
  /\ Forall (token_ok text l start (reports text l)) (lex bs a b l)
  /\ forall i c, text !! i = Some c -> operator c = true ->
       exists t, t ∈ lex bs a b l /\ tok_covers t (start + i).
Proof.
  intros end_ start text. unfold lex. fold end_. fold start. fold text.
  assert (length text = end_ - start) as Hlen by (apply length_slice; lia).
  set (x0 := MkLexing start 0 []).
  assert (ready text l (reports text l) x0) as H0.
  { split; simpl; [lia|done|lia]. }
  destruct (lex_fold_ready text l (reports text l) (reports text l) x0 0) as (H1 & H2 & H3);
    [done|simpl; lia|apply walk_reports_ordered|done|].
  set (x1 := foldl (lex_visit text) x0 (reports text l)) in *.
  destruct (code_wf text l (reports text l) x1 (length text)) as ([Hr Ho Hp] & _ & Hb);
    [split; [exact H2|done]|exact H1|].
  rewrite H3 in Hb. rewrite Hb in *. simpl in *. split_and!.
  - by replace end_ with (start + length text) by lia.
  - done.
  - intros i c Hc. pose_lookup_lt. by apply Hp.
Qed.
