(* ===== verification/Script.v ===== *)
(** * Script: where each statement of a [.sql] file ends, [crates/qh-sql/src/script.rs].

    For MySQL's lexers a [;] inside a stored-program body is content: [Splitter] is a visitor of
    the walk that tracks the header ([Head]) and the blocks ([Body]) of such a program.  The
    counters [depth], [expr_case] and [parens] are unbounded here: they count tokens of one
    text, and Rust's would need a text of 2^31 bytes to overflow. *)
From S2P Require Import Prelude Bytes Text Scan.

Definition is_word (word : bytes) (keyword : string) : bool := eq_ignore_ascii_case word (B keyword).
Definition is_any (word : bytes) (keywords : list string) : bool := existsb (is_word word) keywords.

(** What the walk reported that is neither a comment nor a separator. *)
Inductive Ev := EvWord (word : bytes) | EvQuoted (kind : OpaqueKind).

Record Ctx := MkCtx { ctx_parens : Z; ctx_opens : Z; ctx_at : bool; ctx_label : bool }.

(** ** Bodies *)

Inductive Opener := OIf | OCase | OWhile.
Inductive Cond := COpen | CNot | CSqlstate | CValue | CClosed.
Inductive DeclareStmt := DPre (seen : bool) | DHandler | DCond (c : Cond).
Inductive Stmt :=
| Fresh | SOther | SOpener (o : Opener) | SEnd | SUntil | SDeclare (d : DeclareStmt).

#[export] Instance Opener_eq_dec : EqDecision Opener.
Proof. solve_decision. Defined.
#[export] Instance Cond_eq_dec : EqDecision Cond.
Proof. solve_decision. Defined.
#[export] Instance DeclareStmt_eq_dec : EqDecision DeclareStmt.
Proof. solve_decision. Defined.
#[export] Instance Stmt_eq_dec : EqDecision Stmt.
Proof. solve_decision. Defined.

Record Body := MkBody { depth : nat; at_start : bool; kind : Stmt; expr_case : nat }.

Definition body_block : Body := MkBody 1 true Fresh 0.

Definition opened_by (word : bytes) : option Body :=
  if is_any word ["BEGIN"; "LOOP"; "REPEAT"] then Some body_block
  else
    opener ← (if is_word word "IF" then Some OIf
              else if is_word word "CASE" then Some OCase
              else if is_word word "WHILE" then Some OWhile
              else None);
    Some (MkBody 1 false (SOpener opener) 0).

Definition body_restart (b : Body) : Body := MkBody (depth b) true Fresh 0.

Definition cond_gap (c : Cond) (byte : Z) : Cond :=
  match c with
  | CClosed => if byte =b COMMA then COpen else c
  | COpen => if is_ascii_digit byte then CClosed else c
  | _ => c
  end.

Definition body_gap (b : Body) (segment : bytes) : Body :=
  match kind b with
  | SDeclare (DCond c) =>
      MkBody (depth b) (at_start b) (SDeclare (DCond (foldl cond_gap c segment))) (expr_case b)
  | _ => b
  end.

(** [self.kind = Fresh; self.expr_case = 0], then the first word of a statement. *)
Definition first_word (b : Body) (ctx : Ctx) (word : bytes) : Body * bool :=
  if is_word word "END" then
    let d := depth b - 1 in (MkBody d false SEnd 0, d =? 0)
  else if ctx_label ctx then (MkBody (depth b) (at_start b) Fresh 0, false)
  else if is_any word ["BEGIN"; "LOOP"; "REPEAT"] then
    (MkBody (depth b + 1) (at_start b) Fresh 0, false)
  else if is_word word "ELSE" then (MkBody (depth b) (at_start b) Fresh 0, false)
  else if is_word word "IF" then (MkBody (depth b + 1) false (SOpener OIf) 0, false)
  else if is_word word "CASE" then (MkBody (depth b + 1) false (SOpener OCase) 0, false)
  else if is_word word "WHILE" then (MkBody (depth b + 1) false (SOpener OWhile) 0, false)
  else if is_word word "UNTIL" then (MkBody (depth b) false SUntil 0, false)
  else if is_word word "DECLARE" then (MkBody (depth b) false (SDeclare (DPre false)) 0, false)
  else (MkBody (depth b) false SOther 0, false).

Definition set_kind (b : Body) (k : Stmt) : Body := MkBody (depth b) (at_start b) k (expr_case b).

Definition inner_word (b : Body) (word : bytes) : Body * bool :=
  match kind b with
  | SEnd => (b, false)
  | SDeclare (DPre seen) =>
      (if is_any word ["CONTINUE"; "EXIT"; "UNDO"] then set_kind b (SDeclare (DPre true))
       else if seen && is_word word "HANDLER" then set_kind b (SDeclare DHandler)
       else b, false)
  | SDeclare DHandler =>
      (if is_word word "FOR" then set_kind b (SDeclare (DCond COpen)) else b, false)
  | SDeclare (DCond _) => (b, false) (* unreachable: handled in [body_event] *)
  | k =>
      let plain := expr_case b =? 0 in
      let starts_statement :=
        is_word word "THEN" || is_word word "ELSE"
        || (is_word word "DO" && bool_decide (k = SOpener OWhile)) in
      if starts_statement && plain then (MkBody (depth b) true k (expr_case b), false)
      else if is_word word "CASE" then
        (MkBody (depth b) (at_start b) k (expr_case b + 1), false)
      else if is_word word "END" then
        if 0 <? expr_case b then (MkBody (depth b) (at_start b) k (expr_case b - 1), false)
        else if bool_decide (k = SUntil) then
          let d := depth b - 1 in (MkBody d (at_start b) SEnd (expr_case b), d =? 0)
        else (b, false)
      else (b, false)
  end.

(** An item of a handler's condition list that is not complete yet. *)
Definition cond_next (c : Cond) (event : Ev) : Cond :=
  match c, event with
  | COpen, EvWord word =>
      if is_any word ["SQLEXCEPTION"; "SQLWARNING"] then CClosed
      else if is_word word "NOT" then CNot
      else if is_word word "SQLSTATE" then CSqlstate
      else CClosed
  | CSqlstate, EvWord word => if is_word word "VALUE" then CValue else CClosed
  | _, _ => CClosed
  end.

Definition quotes_name (k : OpaqueKind) : bool :=
  match k with Backtick | DoubleQuote => true | _ => false end.

(** One turn of the loop of [Body::event]: [inl] is its [continue]. *)
Definition body_turn (ctx : Ctx) (event : Ev) (b : Body) : Body + (Body * bool) :=
  match kind b with
  | SDeclare (DCond CClosed) => inl (body_restart b)
  | SDeclare (DCond c) => inr (set_kind b (SDeclare (DCond (cond_next c event))), false)
  | _ =>
      inr (match event with
           | EvWord word => if at_start b then first_word b ctx word else inner_word b word
           | EvQuoted k =>
               if at_start b then
                 if ctx_label ctx && quotes_name k then (b, false)
                 else (MkBody (depth b) false SOther (expr_case b), false)
               else (b, false)
           end)
  end.

Definition body_event (b : Body) (ctx : Ctx) (event : Ev) : Body * bool :=
  match iter (body_turn ctx event) 2 b with Some r => r | None => (b, false) end.

(** ** Headers *)

Inductive Phase :=
| Intro | DefinerUser | DefinerHost | Name | Params | After | ReturnType | TypeTail
| Trigger | Order | Event | BodyFirst.

Record Head := MkHead {
  alter : bool;
  phase : Phase;
  skip : bool;
  for_each : nat;
  opens_at : Z;
}.

Definition CHARACTERISTICS : list string :=
  ["COMMENT"; "LANGUAGE"; "SQL"; "NOT"; "DETERMINISTIC"; "CONTAINS"; "NO"; "READS"; "MODIFIES";
   "DATA"; "SECURITY"; "DEFINER"; "INVOKER"].
Definition TYPE_TAIL : list string :=
  ["UNSIGNED"; "SIGNED"; "ZEROFILL"; "PRECISION"; "VARYING"; "BINARY"; "ASCII"; "UNICODE";
   "NATIONAL"].

Definition head_new (alter : bool) : Head := MkHead alter Intro false 0 0.

Definition set_phase (h : Head) (p : Phase) : Head :=
  MkHead (alter h) p (skip h) (for_each h) (opens_at h).
Definition set_skip (h : Head) (b : bool) : Head :=
  MkHead (alter h) (phase h) b (for_each h) (opens_at h).

Inductive Step := Stay | ToPlain | ToBegin | ToHead (h : Head) | Enter (b : Body).

Definition trigger_progress (word : option bytes) (n : nat) : nat :=
  match word, n with
  | Some w, 0 => if is_word w "FOR" then 1 else 0
  | Some w, 1 => if is_word w "EACH" then 2 else 0
  | Some w, 2 => if is_word w "ROW" then 3 else 0
  | _, _ => 0
  end.

(** One turn of the loop of [Head::event]. *)
Definition head_turn (ctx : Ctx) (event : Ev) (h : Head) : Head + (Head * Step) :=
  let word := match event with EvWord w => Some w | EvQuoted _ => None end in
  match phase h with
  | Name | Params =>
      if (0 <? ctx_parens ctx)%Z then inr (set_phase h Params, Stay)
      else if (ctx_opens ctx =? opens_at h)%Z then inr (h, Stay)
      else inl (set_phase h After)
  | p =>
    if (0 <? ctx_parens ctx)%Z then inr (h, Stay) else
    match p with
    | Intro =>
        match word with
        | None => inr (h, ToPlain)
        | Some w =>
            if is_any w ["OR"; "REPLACE"; "AGGREGATE"] then inr (h, Stay)
            else if is_word w "DEFINER" then inr (set_phase h DefinerUser, Stay)
            else if is_any w ["PROCEDURE"; "FUNCTION"] && negb (alter h) then
              inr (MkHead (alter h) Name (skip h) (for_each h) (ctx_opens ctx), Stay)
            else if is_word w "TRIGGER" && negb (alter h) then inr (set_phase h Trigger, Stay)
            else if is_word w "EVENT" then inr (set_phase h Event, Stay)
            else inr (h, ToPlain)
        end
    | DefinerUser => inr (set_phase h DefinerHost, Stay)
    | DefinerHost =>
        if ctx_at ctx then inr (set_phase h Intro, Stay) else inl (set_phase h Intro)
    | After =>
        match word with
        | Some w =>
            if is_word w "RETURNS" then inr (set_phase h ReturnType, Stay)
            else if is_any w CHARACTERISTICS then inr (h, Stay)
            else inl (set_phase h BodyFirst)
        | None => inr (h, Stay)
        end
    | ReturnType => inr (set_phase h TypeTail, Stay)
    | TypeTail =>
        match word with
        | Some w =>
            if is_any w TYPE_TAIL || is_any w CHARACTERISTICS then inr (h, Stay)
            else if is_any w ["CHARACTER"; "CHAR"] then inr (h, Stay)
            else if is_any w ["SET"; "CHARSET"; "COLLATE"] then inr (set_skip h true, Stay)
            else inl (set_phase h BodyFirst)
        | None => inr (h, Stay)
        end
    | Trigger =>
        let progress := trigger_progress word (for_each h) in
        inr (MkHead (alter h) (if progress =? 3 then Order else phase h) (skip h) progress
               (opens_at h), Stay)
    | Order =>
        match word with
        | Some w =>
            if is_any w ["FOLLOWS"; "PRECEDES"] then inr (set_skip h true, Stay)
            else inl (set_phase h BodyFirst)
        | None => inl (set_phase h BodyFirst)
        end
    | Event =>
        inr (match word with
             | Some w => if is_word w "DO" then set_phase h BodyFirst else h
             | None => h
             end, Stay)
    | _ => (* BodyFirst; Name and Params are handled above *)
        inr (h, match event with
                | EvWord w =>
                    if ctx_label ctx then Stay
                    else match opened_by w with Some b => Enter b | None => ToPlain end
                | EvQuoted k => if quotes_name k && ctx_label ctx then Stay else ToPlain
                end)
    end
  end.

Definition head_event (h : Head) (ctx : Ctx) (event : Ev) : Head * Step :=
  if skip h then (set_skip h false, Stay)
  else match iter (head_turn ctx event) 4 h with Some r => r | None => (h, Stay) end.

(** ** The splitter *)

Inductive Top :=
| TStart | TPlain | TBegin (not_seen : bool) | THead (h : Head) | TBody (b : Body).

Record Splitter := MkSplitter {
  pos : nat;
  parens : Z;
  opens : Z;
  at_seen : bool;
  top : Top;
  kept : list nat;
}.

Definition U32_MAX : Z := (2 ^ 32 - 1)%Z.

Definition gap_byte (s : Z * Z * bool) (byte : Z) : Z * Z * bool :=
  let '(parens, opens, at_) := s in
  if byte =b LPAREN then (parens + 1, Z.min (opens + 1) U32_MAX, at_)%Z
  else if byte =b RPAREN then (Z.max (parens - 1) 0, opens, at_)%Z
  else if byte =b AT then (parens, opens, true)
  else (parens, opens, at_).

Definition split_gap (bs : bytes) (s : Splitter) (upto : nat) : Splitter :=
  match top s with
  | TStart | TPlain | TBegin _ => s
  | t =>
      let segment := slice bs (pos s) upto in
      let '(p, o, a) := foldl gap_byte (parens s, opens s, at_seen s) segment in
      MkSplitter (pos s) p o a
        (match t with TBody b => TBody (body_gap b segment) | _ => t end) (kept s)
  end.

Definition colon_after (bs : bytes) (end_ : nat) : bool :=
  let i := skip_while is_ascii_whitespace bs end_ in
  is_at bs i COLON && negb (is_at bs (i + 1) EQUALS).

Definition split_start (event : Ev) : Step :=
  match event with
  | EvWord w =>
      if is_word w "CREATE" then ToHead (head_new false)
      else if is_word w "ALTER" then ToHead (head_new true)
      else if is_word w "BEGIN" then ToBegin
      else ToPlain
  | EvQuoted _ => ToPlain
  end.

Definition split_begin (not_seen : bool) (event : Ev) : bool * Step :=
  match event with
  | EvWord w =>
      if negb not_seen && is_word w "NOT" then (true, Stay)
      else if not_seen && is_word w "ATOMIC" then (not_seen, Enter body_block)
      else (not_seen, ToPlain)
  | EvQuoted _ => (not_seen, ToPlain)
  end.

Definition apply_step (t : Top) (step : Step) : Top :=
  match step with
  | Stay => t
  | ToPlain => TPlain
  | ToBegin => TBegin false
  | ToHead h => THead h
  | Enter b => TBody b
  end.

Definition split_event (bs : bytes) (s : Splitter) (event : Ev) : Splitter :=
  let label := match top s with
               | THead _ | TBody _ => colon_after bs (pos s)
               | _ => false
               end in
  let ctx := MkCtx (parens s) (opens s) (at_seen s) label in
  let t :=
    match top s with
    | TPlain => TPlain
    | TStart => apply_step TStart (split_start event)
    | TBegin n => let '(n', step) := split_begin n event in apply_step (TBegin n') step
    | THead h => let '(h', step) := head_event h ctx event in apply_step (THead h') step
    | TBody b => let '(b', closed) := body_event b ctx event in
                 if closed then TPlain else TBody b'
    end in
  MkSplitter (pos s) (parens s) (opens s) false t (kept s).

Definition set_pos (s : Splitter) (p : nat) : Splitter :=
  MkSplitter p (parens s) (opens s) (at_seen s) (top s) (kept s).

Definition is_comment (k : OpaqueKind) : bool :=
  match k with LineCommentK | BlockCommentK => true | _ => false end.

(** [impl Visitor for Splitter] *)
Definition split_visit (bs : bytes) (s : Splitter) (r : Report) : Splitter :=
  match r with
  | Separator at_ =>
      let s := set_pos (split_gap bs s at_) (at_ + 1) in
      let push := MkSplitter (pos s) 0 0 false TStart (kept s ++ [at_]) in
      match top s with
      | TBody b =>
          if 0 <? depth b then
            MkSplitter (pos s) (parens s) (opens s) (at_seen s) (TBody (body_restart b)) (kept s)
          else push
      | _ => push
      end
  | Opaque k start end_ =>
      let s := set_pos (split_gap bs s start) end_ in
      if is_comment k then s else split_event bs s (EvQuoted k)
  | Word start end_ =>
      let s := set_pos (split_gap bs s start) end_ in
      split_event bs s (EvWord (slice bs start end_))
  end.

Definition splitter_start : Splitter := MkSplitter 0 0 0 false TStart [].

(** [script::separators] *)
Definition script_separators (bs : bytes) (l : Lexer) : list nat :=
  if negb (is_mysql l) then separators (scan_dialect bs l)
  else kept (foldl (split_visit bs) splitter_start (reports bs l)).
