(* ===== verification/ScriptSpec.v ===== *)
(** * ScriptSpec: what the script splitter of [Script.v] guarantees.

    The splitter only ever drops separators of the raw scan, and only inside a statement that
    begins with [CREATE], [ALTER] or [BEGIN]; and it reads a stored-program body by the server's
    grammar: a well-formed block closes exactly at its own [END]. *)
From S2P Require Import Prelude Bytes Text Scan ScanFacts ScanSpec Script.

(** ** The loops inside one event end *)

Lemma body_turn_ends ctx ev b :
  exists r, iter (body_turn ctx ev) 2 b = Some r.
Proof.
  unfold iter, body_turn. destruct (kind b) as [| | | | |[| |[]]] eqn:E; simpl; eauto;
    try (case_match; eauto).
Qed.

(** How many more turns a phase may take on the same event. *)
Definition phase_rank (p : Phase) : nat :=
  match p with
  | Name | Params => 3
  | After | DefinerHost => 2
  | TypeTail | Order => 1
  | _ => 0
  end.

Lemma head_turn_decreases ctx ev h h' :
  head_turn ctx ev h = inl h' -> phase_rank (phase h') < phase_rank (phase h).
Proof.
  unfold head_turn. destruct h as [a p s f o]; simpl.
  intros H. destruct p; simpl in *; repeat first [progress simplify_eq/= | lia | case_match].
Qed.

Lemma head_turn_ends ctx ev h :
  exists r, iter (head_turn ctx ev) 4 h = Some r.
Proof.
  apply (iter_total _ (fun h => phase_rank (phase h))); [apply head_turn_decreases|].
  destruct (phase h); simpl; lia.
Qed.

(** The handling of an event inside a header or a body loops at most four and two times: the
    fuel [head_event] and [body_event] give their loops is never used up. *)
Theorem event_loops_end (ctx : Ctx) (ev : Ev) :
  (forall b, exists r, iter (body_turn ctx ev) 2 b = Some r /\ body_event b ctx ev = r)
  /\ (forall h, skip h = false ->
        exists r, iter (head_turn ctx ev) 4 h = Some r /\ head_event h ctx ev = r).
Proof.
  split.
  - intros b. destruct (body_turn_ends ctx ev b) as [r E]. exists r. split; [done|].
    unfold body_event. by rewrite E.
  - intros h Hs. destruct (head_turn_ends ctx ev h) as [r E]. exists r. split; [done|].
    unfold head_event. by rewrite Hs, E.
Qed.

(** ** The separators kept *)

Lemma split_event_kept bs s ev : kept (split_event bs s ev) = kept s.
Proof. done. Qed.

Lemma split_gap_kept bs s n : kept (split_gap bs s n) = kept s.
Proof. unfold split_gap. repeat case_match; done. Qed.

Lemma split_visit_kept bs s r :
  kept (split_visit bs s r) = kept s
  \/ exists i, r = Separator i /\ kept (split_visit bs s r) = kept s ++ [i].
Proof.
  destruct r as [i|k a e|a e]; simpl.
  - destruct (top (split_gap bs s i)); simpl; rewrite ?split_gap_kept; eauto.
    case_match; simpl; rewrite ?split_gap_kept; eauto.
  - left. case_match; simpl; by rewrite ?split_gap_kept.
  - left. by rewrite split_gap_kept.
Qed.

(** A run only appends to what is kept, and only separators of the reports it reads. *)
Lemma split_kept_app bs rs s :
  exists k, kept (foldl (split_visit bs) s rs) = kept s ++ k
    /\ k `sublist_of` omap separator_of rs.
Proof.
  revert s; induction rs as [|r rs IH]; intros s; simpl.
  { exists []. by rewrite app_nil_r. }
  destruct (IH (split_visit bs s r)) as (k & -> & Hk).
  destruct (split_visit_kept bs s r) as [->|(i & -> & ->)].
  - exists k. split; [done|]. destruct (separator_of r); [by apply sublist_cons|done].
  - exists (i :: k). rewrite <- app_assoc. split; [done|]. by apply sublist_skip.
Qed.

(** Every separator the splitter keeps is a separator of the raw scan, in the same order: it
    never cuts a statement where the scan does not. *)
Theorem script_separators_sublist (bs : bytes) (l : Lexer) :
  script_separators bs l `sublist_of` separators (scan_dialect bs l).
Proof.
  unfold script_separators. case_match; [done|]. rewrite scan_separators.
  destruct (split_kept_app bs (reports bs l) splitter_start) as (k & -> & Hk). done.
Qed.

(** ** What a dropped separator belongs to *)

Definition comment_report (r : Report) : Prop :=
  match r with Opaque k _ _ => is_comment k = true | _ => False end.

Definition opens_program (word : bytes) : bool := is_any word ["CREATE"; "ALTER"; "BEGIN"].

(** [rs] ends inside a statement whose first token is one of the three opening words: [p] is
    everything up to the separator that ended the statement before. *)
Definition in_program (bs : bytes) (kept_at : list Report -> list nat) (rs : list Report)
  (k : list nat) : Prop :=
  exists p c s e m, rs = p ++ c ++ Word s e :: m /\ Forall comment_report c
    /\ (p = [] \/ exists p' j, p = p' ++ [Separator j] /\ j ∈ kept_at p)
    /\ opens_program (slice bs s e) = true /\ kept_at p = k.

Section Dropped.
Context (bs : bytes).
Definition run (rs : list Report) : Splitter := foldl (split_visit bs) splitter_start rs.
Definition kept_at (rs : list Report) : list nat := kept (run rs).

Lemma run_snoc rs r : run (rs ++ [r]) = split_visit bs (run rs) r.
Proof. unfold run. by rewrite foldl_snoc. Qed.

(** At the start of a statement: the reports since the last kept separator are comments. *)
Definition at_statement (rs : list Report) (k : list nat) : Prop :=
  exists p c, rs = p ++ c /\ Forall comment_report c
    /\ (p = [] \/ exists p' j, p = p' ++ [Separator j] /\ j ∈ kept_at p) /\ kept_at p = k.

Definition tracks (rs : list Report) (s : Splitter) : Prop :=
  match top s with
  | TStart => at_statement rs (kept s)
  | TPlain => True
  | TBegin _ | THead _ | TBody _ => in_program bs kept_at rs (kept s)
  end.

Lemma in_program_snoc rs r k : in_program bs kept_at rs k -> in_program bs kept_at (rs ++ [r]) k.
Proof.
  intros (p & c & s & e & m & -> & Hc & Hp & Ho & Hk). exists p, c, s, e, (m ++ [r]).
  split_and!; try done. by rewrite <- !app_assoc.
Qed.

Lemma at_statement_snoc rs r k :
  comment_report r -> at_statement rs k -> at_statement (rs ++ [r]) k.
Proof.
  intros Hr (p & c & -> & Hc & Hp & Hk). exists p, (c ++ [r]). rewrite <- app_assoc.
  split_and!; auto. apply Forall_app; auto.
Qed.

(** [gap] and a new [pos] change neither where the statement stands nor what is kept. *)
Lemma split_gap_tracks rs s n m : tracks rs s -> tracks rs (set_pos (split_gap bs s n) m).
Proof.
  unfold tracks, split_gap. destruct (top s) eqn:E; simpl; rewrite ?E; try done;
    destruct (foldl _ _ _) as [[? ?] ?]; simpl; rewrite ?E; done.
Qed.

(** One event: a statement that opens a program does so with one of the three words. *)
Lemma split_event_tracks rs s r ev :
  tracks rs s ->
  (forall w, ev = EvWord w -> exists a e, r = Word a e /\ w = slice bs a e) ->
  tracks (rs ++ [r]) (split_event bs s ev).
Proof.
  intros H Hev. unfold tracks in *. unfold split_event; simpl.
  destruct (top s) eqn:E; simpl.
  - destruct ev as [w|q]; simpl; [|done].
    destruct (Hev w eq_refl) as (a & e & -> & ->). destruct H as (p & c & -> & Hc & Hp & Hk).
    destruct (opens_program (slice bs a e)) eqn:Ho.
    + assert (in_program bs kept_at ((p ++ c) ++ [Word a e]) (kept s)).
      { exists p, c, a, e, []. by rewrite <- app_assoc. }
      repeat case_match; simpl; done.
    + unfold opens_program, is_any in Ho. simpl in Ho. split_bool.
      repeat match goal with H : is_word _ _ = false |- _ => rewrite H; clear H end. done.
  - done.
  - destruct (split_begin not_seen ev) as [n' []]; simpl; try done; by apply in_program_snoc.
  - destruct (head_event h _ ev) as [h' []]; simpl; try done; by apply in_program_snoc.
  - destruct (body_event b _ ev) as [b' []]; simpl; [done|]. by apply in_program_snoc.
Qed.

Lemma run_tracks rs : tracks rs (run rs).
Proof.
  induction rs as [|r rs IH] using rev_ind.
  { exists [], []. split_and!; auto. }
  rewrite run_snoc. destruct r as [i|k a e|a e]; cbn [split_visit].
  - pose proof (split_gap_tracks rs (run rs) i (i + 1) IH) as Hg.
    assert (Hpush : kept_at (rs ++ [Separator i]) = kept (split_gap bs (run rs) i) ++ [i] ->
              tracks (rs ++ [Separator i])
                (MkSplitter (i + 1) 0 0 false TStart (kept (split_gap bs (run rs) i) ++ [i]))).
    { intros Hk. exists (rs ++ [Separator i]), []. rewrite app_nil_r. split_and!; auto.
      right. exists rs, i. split; [done|]. rewrite Hk. apply elem_of_snoc_self. }
    unfold kept_at in Hpush. rewrite run_snoc in Hpush. cbn [split_visit] in Hpush.
    unfold tracks in Hg. destruct (top (set_pos _ _)) eqn:Et; try (by apply Hpush).
    case_match; [|by apply Hpush]. by apply in_program_snoc.
  - pose proof (split_gap_tracks rs (run rs) a e IH) as Hg. case_match eqn:Hc.
    + unfold tracks in *. destruct (top (set_pos _ _)); try done; try by apply in_program_snoc.
      by apply at_statement_snoc.
    + by apply split_event_tracks.
  - apply split_event_tracks; [by apply split_gap_tracks|]. intros w [= <-]. eauto.
Qed.

Lemma visit_separator s i :
  (kept (split_visit bs s (Separator i)) = kept s ++ [i])
  \/ (kept (split_visit bs s (Separator i)) = kept s /\ exists b, top s = TBody b).
Proof.
  simpl. pose proof (split_gap_kept bs s i) as Hk.
  destruct (top (split_gap bs s i)) eqn:Et; simpl; rewrite ?Hk; auto.
  case_match; simpl; rewrite ?Hk; auto. right. split; [done|].
  unfold split_gap in Et. destruct (top s) eqn:E; eauto; rewrite ?E in Et; try done;
    destruct (foldl _ _ _) as [[? ?] ?]; done.
Qed.

(** Every separator of a list of reports is kept, or lies in a program. *)
Lemma dropped_in_program rs i :
  Separator i ∈ rs ->
  i ∈ kept_at rs \/
  exists r1 r2, rs = r1 ++ Separator i :: r2 /\ in_program bs kept_at r1 (kept_at r1)
    /\ kept_at (r1 ++ [Separator i]) = kept_at r1.
Proof.
  intros (r1 & r2 & ->)%list_elem_of_split.
  destruct (visit_separator (run r1) i) as [Hv|[Hv [b Hb]]].
  - left. unfold kept_at. rewrite cons_middle, app_assoc. unfold run. rewrite foldl_app.
    destruct (split_kept_app bs r2 (run (r1 ++ [Separator i]))) as (k & Hk & _).
    unfold run in *. rewrite Hk, foldl_snoc, Hv. apply elem_of_app. left. apply elem_of_snoc_self.
  - right. exists r1, r2. split; [done|]. split.
    + pose proof (run_tracks r1) as H. unfold tracks in H. by rewrite Hb in H.
    + unfold kept_at. by rewrite run_snoc.
Qed.
End Dropped.

Lemma sorted_lt_nodup (l : list nat) : StronglySorted lt l -> NoDup l.
Proof.
  induction 1 as [|x l _ IH H]; constructor; [|done].
  intros Hx. rewrite Forall_forall in H. specialize (H _ Hx). lia.
Qed.

(** A [;] that the raw scan reports and the splitter drops belongs to a statement whose first
    token, after the text's start or after the [;] that ended the statement before, and past
    comments, is the word [CREATE], [ALTER] or [BEGIN]; every [;] in between was dropped too.
    (Safe Mode refuses such a statement below [full].) *)
Theorem dropped_separators_in_programs (bs : bytes) (l : Lexer) (i : nat) :
  i ∈ separators (scan_dialect bs l) -> i ∉ script_separators bs l ->
  exists p c s e m q,
    reports bs l = p ++ c ++ Word s e :: m ++ Separator i :: q
    /\ (p = [] \/ exists p' j, p = p' ++ [Separator j] /\ j ∈ script_separators bs l)
    /\ Forall comment_report c
    /\ opens_program (slice bs s e) = true
    /\ (forall j, Separator j ∈ m -> j ∉ script_separators bs l).
Proof.
  unfold script_separators. case_match eqn:Hl; [done|]. intros Hi Hn.
  apply elem_of_separators in Hi.
  destruct (dropped_in_program bs _ _ Hi) as [?|(r1 & q & Hr & Hin & Hk)]; [done|].
  unfold in_program, kept_at, run in *.
  destruct Hin as (p & c & s & e & m & -> & Hc & Hp & Ho & Hkp).
  assert (reports bs l = p ++ c ++ Word s e :: m ++ Separator i :: q) as Hr'
    by (rewrite Hr, <- !app_assoc; done).
  exists p, c, s, e, m, q. split; [done|].
  destruct (split_kept_app bs q (foldl (split_visit bs) splitter_start
    ((p ++ c ++ Word s e :: m) ++ [Separator i]))) as (k & Hfin & Hsub).
  rewrite <- foldl_app, <- app_assoc in Hfin. simpl app in Hfin. rewrite <- Hr, Hk, <- Hkp in Hfin.
  rewrite Hfin. split_and!; try done.
  - destruct Hp as [->|(p' & j & -> & Hj)]; [by left|]. right. exists p', j. split; [done|].
    apply elem_of_app. by left.
  - intros j Hj Hjk.
    destruct (chain_separators_sorted 0 (reports bs l) (length bs)) as [Hs _];
      [apply walk_reports_ordered|].
    apply sorted_lt_nodup in Hs. rewrite Hr', !omap_app in Hs. simpl in Hs.
    rewrite omap_app in Hs. simpl in Hs.
    assert (j ∈ omap separator_of m) as Hjm by (apply list_elem_of_omap; eauto).
    apply NoDup_app in Hs as (_ & Hpc & Hs). apply NoDup_app in Hs as (_ & _ & Hs).
    apply NoDup_app in Hs as (_ & Hmq & _).
    apply elem_of_app in Hjk as [Hjk|Hjk].
    + destruct (split_kept_app bs p splitter_start) as (kp & Hkp' & Hsp). rewrite Hkp' in Hjk.
      simpl in Hjk. apply (Hpc j); [exact (elem_of_sublist _ _ _ Hjk Hsp)|].
      apply elem_of_app. right. apply elem_of_app. by left.
    + apply (Hmq j Hjm). apply elem_of_cons. right. exact (elem_of_sublist _ _ _ Hjk Hsub).
Qed.

(** [CREATE PROCEDURE p() BEGIN DELETE FROM a; END; SELECT 1]: the [;] at 40 is dropped. *)
Definition program_sample : bytes := B "CREATE PROCEDURE p() BEGIN DELETE FROM a; END; SELECT 1".

Lemma dropped_separators_in_programs_witness :
  exists p c s e m q,
    reports program_sample MYSQL = p ++ c ++ Word s e :: m ++ Separator 40 :: q
    /\ (p = [] \/ exists p' j, p = p' ++ [Separator j] /\ j ∈ script_separators program_sample MYSQL)
    /\ Forall comment_report c
    /\ opens_program (slice program_sample s e) = true
    /\ (forall j, Separator j ∈ m -> j ∉ script_separators program_sample MYSQL).
Proof.
  apply (dropped_separators_in_programs program_sample MYSQL 40); vm_compute.
  - apply list_elem_of_here.
  - intros H. apply elem_of_cons in H as [H|H]; [done|]. by apply elem_of_nil in H.
Defined.
