(* ===== verification/ScriptGrammar.v ===== *)
(** * ScriptGrammar: the splitter reads a stored-program body by its grammar.

    The block grammar of a MySQL stored program ([sp_proc_stmt]: blocks, [IF], [CASE], [WHILE],
    [LOOP], [REPEAT], declarations, handlers, labels, [CASE] expressions) as inductive
    predicates on the tokens [Body] is given, and the proof that [Body] follows it: a compound
    statement leaves the depth where it was, and the outermost one closes at its own [END]. *)
From S2P Require Import Prelude Bytes Text Scan ScanFacts Script.

(** What a body is told: an event and the bytes before it, or a [;] and the bytes before it. *)
Inductive Tok := TEv (gap : bytes) (ctx : Ctx) (ev : Ev) | TSemi (gap : bytes).

(** The body's part of [split_visit]: [inr] is what is left when the outermost block closes. *)
Fixpoint body_run (b : Body) (ts : list Tok) : Body + list Tok :=
  match ts with
  | [] => inl b
  | TSemi g :: ts => body_run (body_restart (body_gap b g)) ts
  | TEv g ctx ev :: ts =>
      let '(b', closed) := body_event (body_gap b g) ctx ev in
      if closed then inr ts else body_run b' ts
  end.

(** ** Token classes *)

(** A keyword where a statement may start: a word before [:] is a label there. *)
Definition start_kw (ks : list string) (t : Tok) : bool :=
  match t with
  | TEv _ ctx (EvWord w) => negb (ctx_label ctx) && is_any w ks
  | _ => false
  end.
Definition inner_kw (ks : list string) (t : Tok) : bool :=
  match t with TEv _ _ (EvWord w) => is_any w ks | _ => false end.
(** Any event but the words [ks]. *)
Definition plain_ev (ks : list string) (t : Tok) : bool :=
  match t with
  | TEv _ _ (EvWord w) => negb (is_any w ks)
  | TEv _ _ (EvQuoted _) => true
  | TSemi _ => false
  end.
Definition label_tok (t : Tok) : bool :=
  match t with
  | TEv _ ctx (EvWord w) => ctx_label ctx && negb (is_word w "END")
  | TEv _ ctx (EvQuoted k) => ctx_label ctx && quotes_name k
  | TSemi _ => false
  end.

Definition STARTERS : list string :=
  ["END"; "BEGIN"; "LOOP"; "REPEAT"; "ELSE"; "IF"; "CASE"; "WHILE"; "UNTIL"; "DECLARE"].
Definition simple_start (t : Tok) : bool :=
  match t with
  | TEv _ ctx (EvWord w) => negb (ctx_label ctx) && negb (is_any w STARTERS)
  | TEv _ ctx (EvQuoted k) => negb (ctx_label ctx && quotes_name k)
  | TSemi _ => false
  end.

(** ** The grammar *)

(** Inside a [CASE] expression. *)
Inductive case_inner : list Tok -> Prop :=
| ci_nil : case_inner []
| ci_ev t ts : plain_ev ["CASE"; "END"] t = true -> case_inner ts -> case_inner (t :: ts)
| ci_case t ts u us :
    inner_kw ["CASE"] t = true -> case_inner ts -> inner_kw ["END"] u = true -> case_inner us ->
    case_inner (t :: ts ++ u :: us).

(** The rest of a simple statement, or the condition of a compound one. *)
Inductive expr : list Tok -> Prop :=
| ex_nil : expr []
| ex_ev t ts : plain_ev ["CASE"; "END"; "THEN"; "ELSE"; "DO"] t = true -> expr ts -> expr (t :: ts)
| ex_case t ts u us :
    inner_kw ["CASE"] t = true -> case_inner ts -> inner_kw ["END"] u = true -> expr us ->
    expr (t :: ts ++ u :: us).

Definition tok_gap (t : Tok) : bytes := match t with TEv g _ _ | TSemi g => g end.
Definition head_gap (ts : list Tok) : bytes := match ts with t :: _ => tok_gap t | [] => [] end.

(** One item of a handler's condition list (a number is in the gap and is no item here). *)
Inductive cond_item (g : bytes) : list Tok -> Prop :=
| it_class ctx w : is_any w ["SQLEXCEPTION"; "SQLWARNING"] = true -> cond_item g [TEv g ctx (EvWord w)]
| it_not_found ctx w t :
    is_word w "NOT" = true -> inner_kw ["FOUND"] t = true ->
    cond_item g [TEv g ctx (EvWord w); t]
| it_state ctx w g' ctx' k :
    is_word w "SQLSTATE" = true ->
    cond_item g [TEv g ctx (EvWord w); TEv g' ctx' (EvQuoted k)]
| it_state_value ctx w g' ctx' v g'' ctx'' k :
    is_word w "SQLSTATE" = true -> is_word v "VALUE" = true ->
    cond_item g [TEv g ctx (EvWord w); TEv g' ctx' (EvWord v); TEv g'' ctx'' (EvQuoted k)]
| it_name ctx w :
    is_any w ["NOT"; "SQLSTATE"] = false -> cond_item g [TEv g ctx (EvWord w)]
| it_quoted ctx k : cond_item g [TEv g ctx (EvQuoted k)].

(** A condition list and the gap before the handler's action.  Numbers and commas are read from
    the gaps: [CClosed] is "an item is complete". *)
Inductive conds : Cond -> list Tok -> bytes -> Prop :=
| co_done c g : foldl cond_gap c g = CClosed -> conds c [] g
| co_item c g0 ts us g :
    foldl cond_gap c g0 = COpen -> cond_item g0 ts -> conds CClosed us g -> conds c (ts ++ us) g.

(** A statement with its [;], a compound statement up to its [END], the later branches of an
    [IF] or a [CASE], and a list of statements. *)
Inductive stmt : list Tok -> Prop :=
| st_label t ts : label_tok t = true -> stmt ts -> stmt (t :: ts)
| st_simple t ts g : simple_start t = true -> expr ts -> stmt (t :: ts ++ [TSemi g])
| st_declare t ts g :
    start_kw ["DECLARE"] t = true ->
    Forall (fun u => plain_ev ["CONTINUE"; "EXIT"; "UNDO"] u = true) ts ->
    stmt (t :: ts ++ [TSemi g])
| st_handler t a h f cs act :
    start_kw ["DECLARE"] t = true -> inner_kw ["CONTINUE"; "EXIT"; "UNDO"] a = true ->
    inner_kw ["HANDLER"] h = true -> inner_kw ["FOR"] f = true ->
    conds COpen cs (head_gap act) -> stmt act -> stmt (t :: a :: h :: f :: cs ++ act)
| st_compound ts us g :
    compound ts -> Forall (fun u => plain_ev [] u = true) us -> stmt (ts ++ us ++ [TSemi g])
with compound : list Tok -> Prop :=
| cp_block t ts e :
    start_kw ["BEGIN"; "LOOP"] t = true -> stmts ts -> inner_kw ["END"] e = true ->
    compound (t :: ts ++ [e])
| cp_repeat t ts u ex e :
    start_kw ["REPEAT"] t = true -> stmts ts -> start_kw ["UNTIL"] u = true -> expr ex ->
    inner_kw ["END"] e = true -> compound (t :: ts ++ u :: ex ++ [e])
| cp_while t ex d ts e :
    start_kw ["WHILE"] t = true -> expr ex -> inner_kw ["DO"] d = true -> stmts ts ->
    inner_kw ["END"] e = true -> compound (t :: ex ++ d :: ts ++ [e])
| cp_if_case t ex th ts br e :
    start_kw ["IF"; "CASE"] t = true -> expr ex -> inner_kw ["THEN"] th = true -> stmts ts ->
    branches br -> inner_kw ["END"] e = true ->
    compound (t :: ex ++ th :: ts ++ br ++ [e])
with branches : list Tok -> Prop :=
| br_nil : branches []
| br_cond t ex th ts br :
    start_kw ["ELSEIF"; "WHEN"] t = true -> expr ex -> inner_kw ["THEN"] th = true -> stmts ts ->
    branches br -> branches (t :: ex ++ th :: ts ++ br)
| br_else t ts : start_kw ["ELSE"] t = true -> stmts ts -> branches (t :: ts)
with stmts : list Tok -> Prop :=
| ss_nil : stmts []
| ss_cons ts us : stmt ts -> stmts us -> stmts (ts ++ us).

Scheme stmt_min := Minimality for stmt Sort Prop
  with compound_min := Minimality for compound Sort Prop
  with branches_min := Minimality for branches Sort Prop
  with stmts_min := Minimality for stmts Sort Prop.
Combined Scheme grammar_min from stmt_min, compound_min, branches_min, stmts_min.

(** ** Keywords are told apart *)

Lemma is_word_other w k k' :
  is_word w k = true -> is_word w k' = bytes_eqb (lower (B k)) (lower (B k')).
Proof.
  unfold is_word, eq_ignore_ascii_case. intros H. apply bytes_eqb_eq in H. by rewrite H.
Qed.

(** Rewrite every test on a word one of whose tests is known to be true. *)
Ltac known_word :=
  match goal with
  | H : is_word ?w ?k = true |- context [is_word ?w _] =>
      repeat match goal with
      | |- context [is_word w ?k'] =>
          let v := eval vm_compute in (bytes_eqb (lower (B k)) (lower (B k'))) in
          replace (is_word w k') with v by (symmetry; exact (is_word_other w k k' H))
      end
  end.

(** ** One token *)

Definition not_cond (b : Body) : Prop := forall c, kind b <> SDeclare (DCond c).

Lemma body_gap_id b g : not_cond b -> body_gap b g = b.
Proof. unfold not_cond, body_gap. intros H. repeat case_match; naive_solver. Qed.

Lemma body_event_plain b ctx ev :
  not_cond b ->
  body_event b ctx ev =
    match ev with
    | EvWord w => if at_start b then first_word b ctx w else inner_word b w
    | EvQuoted k =>
        if at_start b then
          if ctx_label ctx && quotes_name k then (b, false)
          else (MkBody (depth b) false SOther (expr_case b), false)
        else (b, false)
    end.
Proof.
  unfold not_cond, body_event, iter, body_turn. intros H.
  destruct (kind b) as [| | | | |[| |c]]; try done. by destruct (H c).
Qed.

Lemma run_word_start b g ctx w ts :
  not_cond b -> at_start b = true ->
  body_run b (TEv g ctx (EvWord w) :: ts) =
    let '(b', closed) := first_word b ctx w in if closed then inr ts else body_run b' ts.
Proof. intros H Ha. simpl. by rewrite body_gap_id, body_event_plain, Ha. Qed.

Lemma run_word_inner b g ctx w ts :
  not_cond b -> at_start b = false ->
  body_run b (TEv g ctx (EvWord w) :: ts) =
    let '(b', closed) := inner_word b w in if closed then inr ts else body_run b' ts.
Proof. intros H Ha. simpl. by rewrite body_gap_id, body_event_plain, Ha. Qed.

Lemma run_quoted_inner b g ctx k ts :
  not_cond b -> at_start b = false ->
  body_run b (TEv g ctx (EvQuoted k) :: ts) = body_run b ts.
Proof. intros H Ha. simpl. by rewrite body_gap_id, body_event_plain, Ha. Qed.

(** Between statements, and in the middle of one. *)
Definition boundary (b : Body) : Prop := at_start b = true /\ expr_case b = 0 /\ not_cond b.
Definition open_kind (k : Stmt) : Prop := k = SOther \/ (exists o, k = SOpener o) \/ k = SUntil.
Definition mid (d : nat) (k : Stmt) (n : nat) : Body := MkBody d false k n.

Lemma mid_not_cond d k n : open_kind k -> not_cond (mid d k n).
Proof. intros [->|[[o ->]| ->]] c; done. Qed.

Lemma inner_word_mid d k n w :
  open_kind k ->
  inner_word (mid d k n) w =
    if (is_word w "THEN" || is_word w "ELSE"
        || (is_word w "DO" && bool_decide (k = SOpener OWhile))) && (n =? 0) then (MkBody d true k n, false)
    else if is_word w "CASE" then (mid d k (n + 1), false)
    else if is_word w "END" then
      if 0 <? n then (mid d k (n - 1), false)
      else if bool_decide (k = SUntil) then (mid (d - 1) SEnd n, d - 1 =? 0)
      else (mid d k n, false)
    else (mid d k n, false).
Proof.
  unfold open_kind. intros [->|[[o ->]| ->]]; simpl; destruct n; reflexivity.
Qed.

Ltac words_of H := cbn [inner_kw start_kw plain_ev simple_start label_tok is_any existsb] in H.

Lemma plain_other d k n ks t ts :
  open_kind k -> plain_ev ks t = true -> "CASE" ∈ ks -> "END" ∈ ks ->
  (n = 0 -> "THEN" ∈ ks /\ "ELSE" ∈ ks /\ "DO" ∈ ks) ->
  body_run (mid d k n) (t :: ts) = body_run (mid d k n) ts.
Proof.
  intros Hk Ht Hc He H0. destruct t as [g ctx [w|q]|g]; [|by rewrite run_quoted_inner by auto using mid_not_cond|done].
  rewrite run_word_inner, inner_word_mid by auto using mid_not_cond. simpl in Ht.
  assert (forall x, x ∈ ks -> is_word w x = false) as Hx.
  { intros x Hx. apply negb_true_iff in Ht. apply not_true_iff_false. intros Hw.
    apply not_true_iff_false in Ht. apply Ht. unfold is_any. apply existsb_exists.
    exists x. by rewrite <- list_elem_of_In. }
  rewrite (Hx "CASE"), (Hx "END") by done.
  destruct n as [|n]; [|by rewrite andb_false_r].
  destruct H0 as (?&?&?); [done|]. by rewrite (Hx "THEN"), (Hx "ELSE"), (Hx "DO").
Qed.

Lemma case_inner_run d k ts :
  open_kind k -> case_inner ts -> forall n rest, 0 < n ->
  body_run (mid d k n) (ts ++ rest) = body_run (mid d k n) rest.
Proof.
  intros Hk H. induction H as [|t ts Ht _ IH|t ts u us Ht _ IH1 Hu _ IH2]; intros n rest Hn; [done|..].
  - cbn [app]. rewrite (plain_other d k n ["CASE"; "END"] t) by first [done | lia | solve [in_list]]. by apply IH.
  - destruct t as [g ctx [w|]|]; try done. words_of Ht. rewrite orb_false_r in Ht.
    destruct u as [g' ctx' [w'|]|]; try done. words_of Hu. rewrite orb_false_r in Hu.
    cbn [app]. rewrite <- app_assoc. rewrite run_word_inner, inner_word_mid by auto using mid_not_cond.
    destruct n as [|n]; [lia|]. change (S n =? 0) with false. rewrite andb_false_r, Ht. cbv iota.
    rewrite IH1 by lia. cbn [app]. rewrite run_word_inner, inner_word_mid by auto using mid_not_cond.
    replace (S n + 1 =? 0) with false by (symmetry; apply Nat.eqb_neq; lia).
    rewrite andb_false_r, Hu. known_word. simpl. replace (n + 1 - 0) with (S n) by lia. by apply IH2; lia.
Qed.

Lemma expr_run d k ts :
  open_kind k -> expr ts -> forall rest, body_run (mid d k 0) (ts ++ rest) = body_run (mid d k 0) rest.
Proof.
  intros Hk H. induction H as [|t ts Ht _ IH|t ts u us Ht Hi Hu _ IH]; intros rest; [done|..].
  - cbn [app]. rewrite (plain_other d k 0 ["CASE"; "END"; "THEN"; "ELSE"; "DO"] t)
      by first [done | solve [in_list] | intros _; split_and!; in_list]. apply IH.
  - destruct t as [g ctx [w|]|]; try done. words_of Ht. rewrite orb_false_r in Ht.
    destruct u as [g' ctx' [w'|]|]; try done. words_of Hu. rewrite orb_false_r in Hu.
    cbn [app]. rewrite <- app_assoc. rewrite run_word_inner, inner_word_mid by auto using mid_not_cond.
    known_word. cbn [andb orb]. cbv iota. rewrite (case_inner_run d k ts Hk Hi) by lia. cbn [app].
    rewrite run_word_inner, inner_word_mid by auto using mid_not_cond. known_word. apply IH.
Qed.

(** *** Keywords *)

Lemma is_any_inv w ks : is_any w ks = true -> exists k, k ∈ ks /\ is_word w k = true.
Proof.
  unfold is_any. intros (k & Hk & Hw)%existsb_exists. exists k. by rewrite list_elem_of_In.
Qed.

Lemma start_kw_inv ks t :
  start_kw ks t = true ->
  exists g ctx w k, t = TEv g ctx (EvWord w) /\ ctx_label ctx = false /\ k ∈ ks /\ is_word w k = true.
Proof.
  destruct t as [g ctx [w|]|]; try done. simpl. intros [Hl Hw]%andb_true_iff.
  apply negb_true_iff in Hl. apply is_any_inv in Hw as (k & ? & ?). by exists g, ctx, w, k.
Qed.

Lemma inner_kw_inv ks t :
  inner_kw ks t = true -> exists g ctx w k, t = TEv g ctx (EvWord w) /\ k ∈ ks /\ is_word w k = true.
Proof.
  destruct t as [g ctx [w|]|]; try done. simpl. intros Hw.
  apply is_any_inv in Hw as (k & ? & ?). by exists g, ctx, w, k.
Qed.

(** Take a token known to be one of a few keywords apart. *)
Ltac one_of H := repeat (apply elem_of_cons in H as [->|H]); [..|by apply elem_of_nil in H].
Ltac start_tok H :=
  let g := fresh "g" in let ctx := fresh "ctx" in let w := fresh "w" in let k := fresh "k" in
  let Hl := fresh "Hl" in let Hin := fresh "Hin" in let Hw := fresh "Hw" in
  apply start_kw_inv in H as (g & ctx & w & k & -> & Hl & Hin & Hw); one_of Hin.
Ltac inner_tok H :=
  let g := fresh "g" in let ctx := fresh "ctx" in let w := fresh "w" in let k := fresh "k" in
  let Hin := fresh "Hin" in let Hw := fresh "Hw" in
  apply inner_kw_inv in H as (g & ctx & w & k & -> & Hin & Hw); one_of Hin.

Ltac run_start Hb :=
  destruct Hb as (? & ? & ?); rewrite run_word_start by done;
  unfold first_word, is_any, existsb; known_word; cbv iota;
  match goal with H : ctx_label _ = false |- _ => rewrite H end; cbv iota; cbn [orb].

Definition fresh (d : nat) : Body := MkBody d true Fresh 0.
Lemma fresh_boundary d : boundary (fresh d).
Proof. done. Qed.
Lemma reopened_boundary d k : open_kind k -> boundary (MkBody d true k 0).
Proof. intros H. split_and!; try done. by apply (mid_not_cond d k 0). Qed.

Lemma run_block_opener b t ts :
  boundary b -> start_kw ["BEGIN"; "LOOP"; "REPEAT"] t = true ->
  body_run b (t :: ts) = body_run (fresh (depth b + 1)) ts.
Proof.
  intros Hb Ht. start_tok Ht; run_start Hb; (destruct b; simpl in *; by subst).
Qed.

Lemma run_while b t ts :
  boundary b -> start_kw ["WHILE"] t = true ->
  body_run b (t :: ts) = body_run (mid (depth b + 1) (SOpener OWhile) 0) ts.
Proof. intros Hb Ht. start_tok Ht; by run_start Hb. Qed.

Lemma run_if_case b t ts :
  boundary b -> start_kw ["IF"; "CASE"] t = true ->
  exists o, body_run b (t :: ts) = body_run (mid (depth b + 1) (SOpener o) 0) ts.
Proof. intros Hb Ht. start_tok Ht; [exists OIf|exists OCase]; by run_start Hb. Qed.

Lemma run_branch b t ts :
  boundary b -> start_kw ["ELSEIF"; "WHEN"] t = true ->
  body_run b (t :: ts) = body_run (mid (depth b) SOther 0) ts.
Proof. intros Hb Ht. start_tok Ht; by run_start Hb. Qed.

Lemma run_else b t ts :
  boundary b -> start_kw ["ELSE"] t = true -> body_run b (t :: ts) = body_run (fresh (depth b)) ts.
Proof. intros Hb Ht. start_tok Ht; run_start Hb. destruct b; simpl in *; by subst. Qed.

Lemma run_until b t ts :
  boundary b -> start_kw ["UNTIL"] t = true -> body_run b (t :: ts) = body_run (mid (depth b) SUntil 0) ts.
Proof. intros Hb Ht. start_tok Ht; by run_start Hb. Qed.

Lemma run_declare b t ts :
  boundary b -> start_kw ["DECLARE"] t = true ->
  body_run b (t :: ts) = body_run (mid (depth b) (SDeclare (DPre false)) 0) ts.
Proof. intros Hb Ht. start_tok Ht; by run_start Hb. Qed.

Lemma run_end b t ts :
  boundary b -> inner_kw ["END"] t = true ->
  body_run b (t :: ts) =
    if depth b - 1 =? 0 then inr ts else body_run (mid (depth b - 1) SEnd 0) ts.
Proof.
  intros (? & ? & ?) Ht. inner_tok Ht. rewrite run_word_start by done.
  unfold first_word. known_word. cbv iota zeta. by case_match.
Qed.

Lemma run_until_end d t ts :
  inner_kw ["END"] t = true ->
  body_run (mid d SUntil 0) (t :: ts) = if d - 1 =? 0 then inr ts else body_run (mid (d - 1) SEnd 0) ts.
Proof.
  intros Ht. inner_tok Ht. rewrite run_word_inner, inner_word_mid by first [done|right; right; done].
  known_word. cbn [orb andb Nat.ltb Nat.leb]. cbv iota. rewrite bool_decide_eq_true_2 by done. by case_match.
Qed.

Lemma run_then d k t ts :
  open_kind k -> inner_kw ["THEN"] t = true ->
  body_run (mid d k 0) (t :: ts) = body_run (MkBody d true k 0) ts.
Proof.
  intros Hk Ht. inner_tok Ht. rewrite run_word_inner, inner_word_mid by auto using mid_not_cond.
  known_word. done.
Qed.

Lemma run_do d t ts :
  inner_kw ["DO"] t = true ->
  body_run (mid d (SOpener OWhile) 0) (t :: ts) = body_run (MkBody d true (SOpener OWhile) 0) ts.
Proof.
  intros Ht. inner_tok Ht. rewrite run_word_inner, inner_word_mid by first [done|right; left; by eexists].
  known_word. rewrite bool_decide_eq_true_2 by done. done.
Qed.

Lemma run_semi b g ts : body_run b (TSemi g :: ts) = body_run (fresh (depth b)) ts.
Proof. simpl. unfold body_gap, body_restart. repeat case_match; done. Qed.

Lemma run_simple b t ts :
  boundary b -> simple_start t = true -> body_run b (t :: ts) = body_run (mid (depth b) SOther 0) ts.
Proof.
  intros (Ha & He & Hc) Ht. destruct t as [g ctx [w|q]|g]; [| |done].
  - simpl in Ht. apply andb_true_iff in Ht as [Hl Hw]. apply negb_true_iff in Hl, Hw.
    rewrite run_word_start by done. unfold STARTERS, is_any, existsb in Hw.
    unfold first_word, is_any, existsb. split_bool.
    repeat match goal with H : is_word w _ = false |- _ => rewrite H; clear H end.
    by rewrite Hl.
  - simpl in Ht. apply negb_true_iff in Ht. simpl.
    by rewrite body_gap_id, body_event_plain, Ha, Ht, He.
Qed.

Lemma run_label b t ts :
  boundary b -> label_tok t = true ->
  exists b', body_run b (t :: ts) = body_run b' ts /\ boundary b' /\ depth b' = depth b.
Proof.
  intros (Ha & He & Hc) Ht. destruct t as [g ctx [w|q]|g]; [| |done].
  - simpl in Ht. apply andb_true_iff in Ht as [Hl Hw]. apply negb_true_iff in Hw.
    exists (fresh (depth b)). rewrite run_word_start by done. unfold first_word.
    by rewrite Hw, Hl, Ha.
  - exists b. simpl in Ht. simpl. by rewrite body_gap_id, body_event_plain, Ha, Ht.
Qed.

(** The rest of a statement the tracker ignores: after [END], and in a plain [DECLARE]. *)
Lemma run_after_end d ts rest :
  Forall (fun u => plain_ev [] u = true) ts ->
  body_run (mid d SEnd 0) (ts ++ rest) = body_run (mid d SEnd 0) rest.
Proof.
  induction 1 as [|t ts Ht _ IH]; [done|]. destruct t as [g ctx [w|q]|g]; done.
Qed.

Lemma run_declared d ts rest :
  Forall (fun u => plain_ev ["CONTINUE"; "EXIT"; "UNDO"] u = true) ts ->
  body_run (mid d (SDeclare (DPre false)) 0) (ts ++ rest)
  = body_run (mid d (SDeclare (DPre false)) 0) rest.
Proof.
  induction 1 as [|t ts Ht _ IH]; [done|]. destruct t as [g ctx [w|q]|g]; [|done|done].
  cbn [app]. rewrite run_word_inner by done. simpl in *. apply negb_true_iff in Ht. by rewrite Ht.
Qed.

(** *** Handlers *)

Definition in_cond (d : nat) (c : Cond) : Body := mid d (SDeclare (DCond c)) 0.

Lemma run_cond d c g ctx ev ts :
  foldl cond_gap c g <> CClosed ->
  body_run (in_cond d c) (TEv g ctx ev :: ts)
  = body_run (in_cond d (cond_next (foldl cond_gap c g) ev)) ts.
Proof.
  intros H. simpl. unfold body_event, iter, body_turn, body_gap; simpl.
  by destruct (foldl cond_gap c g).
Qed.

Lemma cond_gap_word c g : c <> COpen -> c <> CClosed -> foldl cond_gap c g = c.
Proof. intros ??. induction g as [|b g IH]; [done|]. simpl. by destruct c. Qed.

Lemma run_cond_item d c g ts rest :
  foldl cond_gap c g = COpen -> cond_item g ts ->
  body_run (in_cond d c) (ts ++ rest) = body_run (in_cond d CClosed) rest.
Proof.
  intros Hg H. destruct H; cbn [app]; rewrite run_cond, Hg by (by rewrite Hg);
    cbn [cond_next]; unfold is_any, existsb in *.
  - by rewrite H.
  - inner_tok H0. known_word. cbn [orb]. rewrite run_cond by (by rewrite cond_gap_word).
    by rewrite cond_gap_word.
  - known_word. cbn [orb]. rewrite run_cond by (by rewrite cond_gap_word). by rewrite cond_gap_word.
  - known_word. cbn [orb]. rewrite run_cond by (by rewrite cond_gap_word).
    rewrite cond_gap_word by done. cbn [cond_next]. rewrite H0.
    rewrite run_cond by (by rewrite cond_gap_word). by rewrite cond_gap_word.
  - repeat case_match; split_bool; congruence.
  - done.
Qed.

(** The condition list ends where the action starts, and the action starts afresh. *)
Lemma run_conds d c cs g ctx ev ts :
  conds c cs g ->
  body_run (in_cond d c) (cs ++ TEv g ctx ev :: ts) = body_run (fresh d) (TEv g ctx ev :: ts).
Proof.
  intros H. remember g as g' eqn:Hg. rewrite Hg. rewrite Hg in H. clear g' Hg.
  induction H as [c g Hc|c g0 us vs g Hc Hi _ IH].
  - cbn [app]. simpl. rewrite (body_gap_id (fresh d)) by done.
    unfold body_event at 1, iter, body_turn, body_gap; simpl. rewrite Hc.
    unfold body_restart; simpl. by rewrite body_event_plain.
  - rewrite <- app_assoc, (run_cond_item _ _ g0) by done. apply IH.
Qed.

(** ** The grammar is followed *)

Lemma stmt_head ts : stmt ts -> exists ctx ev us, ts = TEv (head_gap ts) ctx ev :: us.
Proof.
  assert (forall ks t, start_kw ks t = true -> exists ctx ev, t = TEv (tok_gap t) ctx ev) as Hs.
  { intros ks [g ctx ev|g]; [|done]. simpl. eauto. }
  destruct 1 as [t ts Ht|t ts g Ht|t ts g Ht|t a h f cs act Ht|ts us g Hc].
  - destruct t as [g ctx ev|]; [|done]. simpl. eauto.
  - destruct t as [g' ctx ev|]; [|done]. simpl. eauto.
  - destruct (Hs _ _ Ht) as (ctx & ev & E). rewrite E. simpl. eauto.
  - destruct (Hs _ _ Ht) as (ctx & ev & E). rewrite E. simpl. eauto.
  - destruct Hc as [t ? ? Ht|t ? ? ? ? Ht|t ? ? ? ? Ht|t ? ? ? ? ? Ht];
      destruct (Hs _ _ Ht) as (ctx & ev & E); rewrite E; simpl; eauto.
Qed.

Definition keeps (ts : list Tok) : Prop :=
  forall b rest, boundary b -> 1 <= depth b ->
  exists b', body_run b (ts ++ rest) = body_run b' rest /\ boundary b' /\ depth b' = depth b.
Definition closes (ts : list Tok) : Prop :=
  forall b rest, boundary b ->
  body_run b (ts ++ rest) = if depth b =? 0 then inr rest else body_run (mid (depth b) SEnd 0) rest.

(** Run through a part of the grammar that keeps the depth. *)
Lemma keeps_through ts b rest d :
  keeps ts -> boundary b -> depth b = d -> 1 <= d ->
  exists b', body_run b (ts ++ rest) = body_run b' rest /\ boundary b' /\ depth b' = d.
Proof. intros H Hb <- Hd. by apply H. Qed.

Lemma end_of_compound b e d rest :
  boundary b -> depth b = d + 1 -> inner_kw ["END"] e = true ->
  body_run b (e :: rest) = if d =? 0 then inr rest else body_run (mid d SEnd 0) rest.
Proof.
  intros Hb Hd He. rewrite run_end by done. by replace (depth b - 1) with d by lia.
Qed.

Lemma keeps_label t ts : label_tok t = true -> keeps ts -> keeps (t :: ts).
Proof.
  intros Ht H b rest Hb Hd. destruct (run_label b t (ts ++ rest) Hb Ht) as (b' & E & Hb' & Hd').
  cbn [app]. rewrite E. rewrite <- Hd'. apply H; [done|lia].
Qed.

Lemma keeps_simple t ts g : simple_start t = true -> expr ts -> keeps (t :: ts ++ [TSemi g]).
Proof.
  intros Ht He b rest Hb Hd. exists (fresh (depth b)). cbn [app]. rewrite <- app_assoc.
  rewrite run_simple, expr_run by first [done|by left]. cbn [app]. by rewrite run_semi.
Qed.

Lemma keeps_declare t ts g :
  start_kw ["DECLARE"] t = true ->
  Forall (fun u => plain_ev ["CONTINUE"; "EXIT"; "UNDO"] u = true) ts ->
  keeps (t :: ts ++ [TSemi g]).
Proof.
  intros Ht He b rest Hb Hd. exists (fresh (depth b)). cbn [app]. rewrite <- app_assoc.
  rewrite run_declare, run_declared by done. cbn [app]. by rewrite run_semi.
Qed.

Lemma keeps_handler t a h f cs act :
  start_kw ["DECLARE"] t = true -> inner_kw ["CONTINUE"; "EXIT"; "UNDO"] a = true ->
  inner_kw ["HANDLER"] h = true -> inner_kw ["FOR"] f = true ->
  conds COpen cs (head_gap act) -> stmt act -> keeps act -> keeps (t :: a :: h :: f :: cs ++ act).
Proof.
  intros Ht Ha Hh Hf Hc Hs H b rest Hb Hd. cbn [app]. rewrite run_declare by done.
  apply inner_kw_inv in Ha as (g1 & c1 & w1 & k1 & -> & Hin & Hw).
  rewrite run_word_inner by done. cbn [inner_word kind mid].
  assert (is_any w1 ["CONTINUE"; "EXIT"; "UNDO"] = true) as ->.
  { apply existsb_exists. exists k1. by rewrite <- list_elem_of_In. }
  cbv iota. inner_tok Hh. rewrite run_word_inner by done. cbn [inner_word kind mid set_kind].
  unfold is_any, existsb. known_word. cbn [orb andb].
  inner_tok Hf. rewrite run_word_inner by done. cbn [inner_word kind mid set_kind]. known_word.
  change (set_kind _ _) with (in_cond (depth b) COpen).
  destruct (stmt_head _ Hs) as (cx & ev & us & E). rewrite E, <- app_assoc. cbn [app].
  rewrite run_conds by done. change (TEv ?g cx ev :: us ++ rest) with ((TEv g cx ev :: us) ++ rest).
  rewrite <- E. by apply (H (fresh (depth b))).
Qed.

Lemma keeps_compound ts us g :
  closes ts -> Forall (fun u => plain_ev [] u = true) us -> keeps (ts ++ us ++ [TSemi g]).
Proof.
  intros H Hu b rest Hb Hd. exists (fresh (depth b)). rewrite <- !app_assoc, H by done.
  replace (depth b =? 0) with false by (symmetry; apply Nat.eqb_neq; lia).
  rewrite run_after_end by done. cbn [app]. by rewrite run_semi.
Qed.

Lemma closes_block t ts e :
  start_kw ["BEGIN"; "LOOP"] t = true -> keeps ts -> inner_kw ["END"] e = true ->
  closes (t :: ts ++ [e]).
Proof.
  intros Ht H He b rest Hb. cbn [app]. rewrite <- app_assoc.
  rewrite run_block_opener by (first [done|by start_tok Ht; cbn; rewrite Hl; known_word]).
  destruct (keeps_through ts (fresh (depth b + 1)) ([e] ++ rest) (depth b + 1) H)
    as (b' & -> & Hb' & Hd'); [done|done|lia|]. by apply end_of_compound.
Qed.

Lemma closes_repeat t ts u ex e :
  start_kw ["REPEAT"] t = true -> keeps ts -> start_kw ["UNTIL"] u = true -> expr ex ->
  inner_kw ["END"] e = true -> closes (t :: ts ++ u :: ex ++ [e]).
Proof.
  intros Ht H Hu Hx He b rest Hb. cbn [app]. rewrite <- app_assoc. cbn [app]. rewrite <- app_assoc.
  rewrite run_block_opener by (first [done|by start_tok Ht; cbn; rewrite Hl; known_word]).
  destruct (keeps_through ts (fresh (depth b + 1)) (u :: ex ++ [e] ++ rest) (depth b + 1) H)
    as (b' & -> & Hb' & Hd'); [done|done|lia|].
  rewrite run_until, expr_run by first [done|by right; right]. cbn [app].
  rewrite run_until_end by done. by replace (depth b' - 1) with (depth b) by lia.
Qed.

Lemma closes_while t ex d ts e :
  start_kw ["WHILE"] t = true -> expr ex -> inner_kw ["DO"] d = true -> keeps ts ->
  inner_kw ["END"] e = true -> closes (t :: ex ++ d :: ts ++ [e]).
Proof.
  intros Ht Hx Hdo H He b rest Hb. cbn [app]. rewrite <- app_assoc. cbn [app]. rewrite <- app_assoc.
  assert (open_kind (SOpener OWhile)) as Hk by (right; left; eauto).
  rewrite run_while, expr_run, run_do by done.
  destruct (keeps_through ts (MkBody (depth b + 1) true (SOpener OWhile) 0) ([e] ++ rest) (depth b + 1) H)
    as (b' & -> & Hb' & Hd'); [by apply reopened_boundary|done|lia|]. by apply end_of_compound.
Qed.

Lemma closes_if_case t ex th ts br e :
  start_kw ["IF"; "CASE"] t = true -> expr ex -> inner_kw ["THEN"] th = true -> keeps ts ->
  keeps br -> inner_kw ["END"] e = true -> closes (t :: ex ++ th :: ts ++ br ++ [e]).
Proof.
  intros Ht Hx Hth H Hbr He b rest Hb. cbn [app]. rewrite <- app_assoc. cbn [app].
  rewrite <- !app_assoc.
  destruct (run_if_case b t (ex ++ th :: ts ++ br ++ [e] ++ rest) Hb Ht) as [o ->].
  assert (open_kind (SOpener o)) as Hk by (right; left; eauto).
  rewrite expr_run, run_then by done.
  destruct (keeps_through ts (MkBody (depth b + 1) true (SOpener o) 0) (br ++ [e] ++ rest) (depth b + 1) H)
    as (b' & -> & Hb' & Hd'); [by apply reopened_boundary|done|lia|].
  destruct (keeps_through br b' ([e] ++ rest) (depth b + 1) Hbr) as (b'' & -> & Hb'' & Hd'');
    [done|done|lia|]. by apply end_of_compound.
Qed.

Lemma keeps_branch t ex th ts br :
  start_kw ["ELSEIF"; "WHEN"] t = true -> expr ex -> inner_kw ["THEN"] th = true -> keeps ts ->
  keeps br -> keeps (t :: ex ++ th :: ts ++ br).
Proof.
  intros Ht Hx Hth H Hbr b rest Hb Hd. cbn [app]. rewrite <- app_assoc. cbn [app].
  rewrite <- app_assoc. rewrite run_branch, expr_run, run_then by first [done|by left].
  destruct (keeps_through ts (MkBody (depth b) true SOther 0) (br ++ rest) (depth b) H)
    as (b' & -> & Hb' & Hd'); [by apply reopened_boundary; left|done|lia|].
  rewrite <- Hd'. apply Hbr; [done|lia].
Qed.

Lemma keeps_else t ts : start_kw ["ELSE"] t = true -> keeps ts -> keeps (t :: ts).
Proof.
  intros Ht H b rest Hb Hd. cbn [app]. rewrite run_else by done. by apply (H (fresh (depth b))).
Qed.

Lemma keeps_nil : keeps [].
Proof. intros b rest Hb Hd. by exists b. Qed.

Lemma keeps_app ts us : keeps ts -> keeps us -> keeps (ts ++ us).
Proof.
  intros H1 H2 b rest Hb Hd. rewrite <- app_assoc.
  destruct (H1 b (us ++ rest) Hb Hd) as (b' & -> & Hb' & Hd'). rewrite <- Hd'. apply H2; [done|lia].
Qed.

Lemma grammar_followed :
  (forall ts, stmt ts -> keeps ts) /\ (forall ts, compound ts -> closes ts)
  /\ (forall ts, branches ts -> keeps ts) /\ (forall ts, stmts ts -> keeps ts).
Proof.
  apply grammar_min; intros;
    eauto using keeps_label, keeps_simple, keeps_declare, keeps_handler, keeps_compound,
      closes_block, closes_repeat, closes_while, closes_if_case, keeps_branch, keeps_else,
      keeps_nil, keeps_app.
Qed.

(** ** The splitter runs the body *)

(** The reports of a walk as a body reads them: comments vanish into the gap around them. *)
Fixpoint tokens (bs : bytes) (p : nat) (pend : bytes) (rs : list Report) : list Tok :=
  match rs with
  | [] => []
  | Separator i :: rs => TSemi (pend ++ slice bs p i) :: tokens bs (i + 1) [] rs
  | Opaque k s e :: rs =>
      if is_comment k then tokens bs e (pend ++ slice bs p s) rs
      else TEv (pend ++ slice bs p s) (MkCtx 0 0 false (colon_after bs e)) (EvQuoted k)
             :: tokens bs e [] rs
  | Word s e :: rs =>
      TEv (pend ++ slice bs p s) (MkCtx 0 0 false (colon_after bs e)) (EvWord (slice bs s e))
        :: tokens bs e [] rs
  end.

Lemma body_gap_app b g1 g2 : body_gap b (g1 ++ g2) = body_gap (body_gap b g1) g2.
Proof.
  unfold body_gap. destruct (kind b) as [| | | | |[| |c]] eqn:E; simpl; rewrite ?E; try done.
  by rewrite foldl_app.
Qed.

Lemma body_gap_depth b g : depth (body_gap b g) = depth b.
Proof. unfold body_gap. repeat case_match; done. Qed.

(** A body sees only the label of its context. *)
Lemma body_event_ctx b ctx ctx' ev :
  ctx_label ctx = ctx_label ctx' -> body_event b ctx ev = body_event b ctx' ev.
Proof.
  intros H. unfold body_event. rewrite (iter_ext _ (body_turn ctx' ev)); [done|].
  intros b'. unfold body_turn, first_word. by rewrite H.
Qed.

Lemma first_word_depth b ctx w b' : 1 <= depth b -> first_word b ctx w = (b', false) -> 1 <= depth b'.
Proof.
  unfold first_word. intros Hd H. repeat case_match; simplify_eq/=; split_bool; lia.
Qed.

Lemma inner_word_depth b w b' : 1 <= depth b -> inner_word b w = (b', false) -> 1 <= depth b'.
Proof.
  unfold inner_word. intros Hd H. destruct (kind b) as [| | | | |[| |]];
    repeat case_match; simplify_eq/=; split_bool; try lia.
Qed.

(** An open body has an open block: the counter never reaches zero without the event saying so. *)
Lemma body_event_depth b ctx ev b' :
  1 <= depth b -> body_event b ctx ev = (b', false) -> 1 <= depth b'.
Proof.
  intros Hd. unfold body_event. destruct (iter _ _ _) as [r|] eqn:E; intros H; simplify_eq; [|done].
  refine (iter_inv _ (fun b => 1 <= depth b) (fun r => r.2 = false -> 1 <= depth r.1)
            2 b (b', false) _ _ Hd E eq_refl); unfold body_turn.
  - intros s s' Hs. repeat case_match; intros; simplify_eq/=; done.
  - intros s [r c] Hs Hr Hc. simpl in *. subst c.
    repeat case_match; simplify_eq/=; eauto using first_word_depth, inner_word_depth.
Qed.

Lemma body_gap_nil b : body_gap b [] = b.
Proof. unfold body_gap. destruct b as [? ? [| | | | |[| |]] ?]; done. Qed.

Lemma split_gap_body bs s b n :
  top s = TBody b ->
  top (split_gap bs s n) = TBody (body_gap b (slice bs (pos s) n))
  /\ kept (split_gap bs s n) = kept s.
Proof.
  intros H. unfold split_gap. rewrite H. by destruct (foldl _ _ _) as [[? ?] ?].
Qed.

(** One event of the walk is one event of the body. *)
Lemma split_event_body bs s e p ev b pend :
  top s = TBody (body_gap b pend) ->
  let r := body_event (body_gap b (pend ++ slice bs (pos s) e))
             (MkCtx 0 0 false (colon_after bs p)) ev in
  let s' := split_event bs (set_pos (split_gap bs s e) p) ev in
  kept s' = kept s /\ pos s' = p /\ top s' = if r.2 then TPlain else TBody r.1.
Proof.
  intros H r s'. destruct (split_gap_body bs s _ e H) as [Ht Hk]. split_and!; [done|done|].
  subst s' r. unfold split_event. simpl. rewrite Ht. simpl. rewrite body_gap_app.
  rewrite (body_event_ctx _ (MkCtx 0 0 false (colon_after bs p))
             (MkCtx (parens (split_gap bs s e)) (opens (split_gap bs s e))
                (at_seen (split_gap bs s e)) (colon_after bs p))) by done.
  by destruct (body_event _ _ ev) as [b' []].
Qed.

(** Where a body that started in [s] is over, [rest] being what is left to read. *)
Definition body_over (bs : bytes) (s : Splitter) (rs : list Report) (rest : list Tok) : Prop :=
  exists rs1 rs2, rs = rs1 ++ rs2
    /\ top (foldl (split_visit bs) s rs1) = TPlain
    /\ kept (foldl (split_visit bs) s rs1) = kept s
    /\ tokens bs (pos (foldl (split_visit bs) s rs1)) [] rs2 = rest.

Lemma body_over_cons bs s r rs rest :
  kept (split_visit bs s r) = kept s -> body_over bs (split_visit bs s r) rs rest ->
  body_over bs s (r :: rs) rest.
Proof.
  intros Hk (rs1 & rs2 & -> & H1 & H2 & H3). exists (r :: rs1), rs2. simpl. by rewrite H2, Hk.
Qed.

(** Run the splitter to the end of the body it is in: it drops every [;] up to there. *)
Lemma split_body bs rs : forall s b pend rest,
  top s = TBody (body_gap b pend) -> 1 <= depth b ->
  body_run b (tokens bs (pos s) pend rs) = inr rest -> body_over bs s rs rest.
Proof.
  induction rs as [|r rs IH]; intros s b pend rest Ht Hd Hr; [done|].
  assert (forall e p ev, split_visit bs s r = split_event bs (set_pos (split_gap bs s e) p) ev ->
            tokens bs (pos s) pend (r :: rs)
              = TEv (pend ++ slice bs (pos s) e) (MkCtx 0 0 false (colon_after bs p)) ev
                  :: tokens bs p [] rs ->
            body_over bs s (r :: rs) rest) as Hev.
  { intros e p ev Hs Htok. rewrite Htok in Hr. cbn [body_run] in Hr.
    destruct (split_event_body bs s e p ev b pend Ht) as (Hk & Hp & Htop). rewrite <- Hs in *.
    destruct (body_event _ _ ev) as [b' []] eqn:Eb; simpl in Htop.
    - simplify_eq. exists [r], rs. simpl. by split_and!.
    - apply body_over_cons; [done|]. apply (IH _ b' []); [by rewrite body_gap_nil|..].
      + eapply body_event_depth; [|exact Eb]. by rewrite body_gap_depth.
      + by rewrite Hp. }
  destruct (split_gap_body bs s _ (rep_start r) Ht) as [Hgt Hgk].
  destruct r as [i|k a e|a e]; cbn [rep_start] in *.
  - assert (split_visit bs s (Separator i) = MkSplitter (i + 1) (parens (split_gap bs s i))
              (opens (split_gap bs s i)) (at_seen (split_gap bs s i))
              (TBody (body_restart (body_gap (body_gap b pend) (slice bs (pos s) i)))) (kept s)) as Hs.
    { simpl. rewrite Hgt. simpl. rewrite Hgk, !body_gap_depth.
      by replace (0 <? depth b) with true by (symmetry; apply Nat.ltb_lt; lia). }
    apply body_over_cons; [by rewrite Hs|]. rewrite Hs.
    eapply IH; cbn [top pos]; [by rewrite body_gap_nil| |].
    + unfold body_restart; simpl. by rewrite !body_gap_depth.
    + cbn [tokens body_run] in Hr. by rewrite <- body_gap_app.
  - destruct (is_comment k) eqn:Hc.
    + cbn [tokens] in Hr. rewrite Hc in Hr.
      assert (split_visit bs s (Opaque k a e) = set_pos (split_gap bs s a) e) as Hs
        by (cbn [split_visit]; by rewrite Hc).
      apply body_over_cons; [by rewrite Hs|]. rewrite Hs.
      apply (IH _ b (pend ++ slice bs (pos s) a)); [|done|done].
      cbn [top set_pos]. by rewrite Hgt, body_gap_app.
    + apply (Hev a e (EvQuoted k)); cbn [split_visit tokens]; by rewrite Hc.
  - by apply (Hev a e (EvWord (slice bs a e))).
Qed.

(** In a plain statement, everything up to the next [;] is read over, and that [;] is kept. *)
Lemma split_plain bs rs : forall s us g more p,
  top s = TPlain -> Forall (fun u => plain_ev [] u = true) us ->
  tokens bs (pos s) p rs = us ++ TSemi g :: more ->
  exists rs1 i rs2, rs = rs1 ++ Separator i :: rs2
    /\ kept (foldl (split_visit bs) s (rs1 ++ [Separator i])) = kept s ++ [i]
    /\ tokens bs (i + 1) [] rs2 = more.
Proof.
  induction rs as [|r rs IH]; intros s us g more p Ht Hu Htok; [by destruct us|].
  assert (forall n, split_gap bs s n = s) as Hg by (intros; unfold split_gap; by rewrite Ht).
  assert (Hgo : forall us' p', top (split_visit bs s r) = TPlain ->
            kept (split_visit bs s r) = kept s ->
            Forall (fun u => plain_ev [] u = true) us' ->
            tokens bs (pos (split_visit bs s r)) p' rs = us' ++ TSemi g :: more ->
            exists rs1 i rs2, r :: rs = rs1 ++ Separator i :: rs2
              /\ kept (foldl (split_visit bs) s (rs1 ++ [Separator i])) = kept s ++ [i]
              /\ tokens bs (i + 1) [] rs2 = more).
  { intros us' p' H1 H2 H3 H4. destruct (IH _ us' g more p' H1 H3 H4) as (rs1 & i & rs2 & -> & H5 & H6).
    exists (r :: rs1), i, rs2. simpl. by rewrite H5, H2. }
  destruct r as [i|k a e|a e]; cbn [tokens split_visit] in *; rewrite ?Hg in *.
  - destruct Hu as [|u us Hp Hu]; simplify_list_eq.
    exists [], i, rs. simpl. by rewrite Hg, Ht.
  - case_match; [by eapply Hgo; eauto|].
    destruct Hu as [|u us Hp Hu]; simplify_list_eq. eapply Hgo; eauto; unfold split_event; simpl; by rewrite Ht.
  - destruct Hu as [|u us Hp Hu]; simplify_list_eq. eapply Hgo; eauto; unfold split_event; simpl; by rewrite Ht.
Qed.

(** The opener that ended the header is the body's first token. *)
Lemma opened_by_first g ctx w b ts :
  opened_by w = Some b -> ctx_label ctx = false ->
  depth b = 1 /\ body_run (fresh 0) (TEv g ctx (EvWord w) :: ts) = body_run b ts.
Proof.
  unfold opened_by, is_any, existsb. intros H Hl. rewrite run_word_start by done.
  unfold first_word, is_any, existsb. rewrite Hl. cbv iota.
  destruct (is_word w "BEGIN") eqn:E1; [|destruct (is_word w "LOOP") eqn:E2];
    [..|destruct (is_word w "REPEAT") eqn:E3]; [..|destruct (is_word w "IF") eqn:E4];
    [..|destruct (is_word w "CASE") eqn:E5]; [..|destruct (is_word w "WHILE") eqn:E6]; [..|done];
    simplify_eq/=; known_word; done.
Qed.

(** C5: A stored-program body is one statement: once the splitter has entered a body at the opener
    [w], and what follows is that compound statement by the block grammar (up to its [END]), any
    tokens but a [;], and a [;], then every [;] of the body is dropped, that last [;] is kept,
    and reading goes on after it. *)
Theorem program_body_is_one_statement
  (bs : bytes) (s : Splitter) (rs : list Report) (w g : bytes) (ctx : Ctx) (b : Body)
  (tail us more : list Tok) (g' : bytes) :
  top s = TBody b -> opened_by w = Some b -> ctx_label ctx = false ->
  compound (TEv g ctx (EvWord w) :: tail) ->
  Forall (fun u => plain_ev [] u = true) us ->
  tokens bs (pos s) [] rs = tail ++ us ++ TSemi g' :: more ->
  exists rs1 i rs2, rs = rs1 ++ Separator i :: rs2
    /\ kept (foldl (split_visit bs) s (rs1 ++ [Separator i])) = kept s ++ [i]
    /\ tokens bs (i + 1) [] rs2 = more.
Proof.
  intros Ht Hw Hl Hc Hu Htok. destruct grammar_followed as (_ & Hcl & _).
  destruct (opened_by_first g ctx w b (tail ++ us ++ TSemi g' :: more) Hw Hl) as [Hd Hrun].
  specialize (Hcl _ Hc (fresh 0) (us ++ TSemi g' :: more) (fresh_boundary 0)).
  cbn [app depth fresh Nat.eqb] in Hcl. rewrite Hrun in Hcl.
  destruct (split_body bs rs s b [] (us ++ TSemi g' :: more)) as (r1 & r2 & -> & Hp & Hk & Htok');
    [by rewrite body_gap_nil|lia|by rewrite Htok|].
  destruct (split_plain bs r2 _ us g' more [] Hp Hu Htok') as (q1 & i & q2 & -> & Hk' & Hm).
  exists (r1 ++ q1), i, q2. rewrite <- !app_assoc, foldl_app. split_and!; [done| |done].
  by rewrite Hk', Hk.
Qed.

(** [CREATE PROCEDURE p() BEGIN IF a THEN b; END IF; END; c]: the body is entered after five
    reports, and the [;] kept is the one at 51. *)
Definition grammar_sample : bytes := B "CREATE PROCEDURE p() BEGIN IF a THEN b; END IF; END; c".
Definition sample_reports : list Report := drop 4 (reports grammar_sample MYSQL).
Definition sample_state : Splitter :=
  foldl (split_visit grammar_sample) splitter_start (take 4 (reports grammar_sample MYSQL)).
Definition no_label : Ctx := MkCtx 0 0 false false.
Definition ev (s : string) : Tok := TEv [SP] no_label (EvWord (B s)).

Lemma program_body_is_one_statement_witness :
  exists rs1 i rs2, sample_reports = rs1 ++ Separator i :: rs2
    /\ kept (foldl (split_visit grammar_sample) sample_state (rs1 ++ [Separator i]))
       = kept sample_state ++ [i]
    /\ tokens grammar_sample (i + 1) [] rs2 = [ev "c"].
Proof.
  apply (program_body_is_one_statement grammar_sample sample_state sample_reports (B "BEGIN") [SP]
           no_label body_block
           [ev "IF"; ev "a"; ev "THEN"; ev "b"; TSemi []; ev "END"; ev "IF"; TSemi []; ev "END"]
           [] [ev "c"] []); try reflexivity.
  - apply (cp_block (ev "BEGIN") [ev "IF"; ev "a"; ev "THEN"; ev "b"; TSemi []; ev "END"; ev "IF"; TSemi []]
             (ev "END")); [reflexivity| |reflexivity].
    apply (ss_cons [ev "IF"; ev "a"; ev "THEN"; ev "b"; TSemi []; ev "END"; ev "IF"; TSemi []] []);
      [|constructor].
    apply (st_compound [ev "IF"; ev "a"; ev "THEN"; ev "b"; TSemi []; ev "END"] [ev "IF"] []);
      [|by repeat constructor].
    apply (cp_if_case (ev "IF") [ev "a"] (ev "THEN") [ev "b"; TSemi []] [] (ev "END"));
      try reflexivity; [by repeat constructor| |constructor].
    apply (ss_cons [ev "b"; TSemi []] []); [|constructor].
    apply (st_simple (ev "b") [] []); [reflexivity|constructor].
  - constructor.
Defined.
