(* ===== verification/Classify.v ===== *)
(** * Classify: what a statement does and what Safe Mode does about it,
    [crates/qh-sql/src/classify.rs].

    The statement kinds, the modes and their decisions, the floor that resolves several minimums,
    the surface a call or a lock clause is read from, the classification of one text, the
    statements of a script with their lines, and the checks over one or several readings. *)
From S2P Require Import Prelude Bytes Text Scan Script.

(** [text == "..."] *)
Definition says (text : bytes) (s : string) : bool := bytes_eqb text (B s).
(** [LIST.contains(&text)] *)
Definition one_of (text : bytes) (l : list string) : bool := existsb (says text) l.

(** [Iterator::max_by_key]: the last of the greatest. *)
Definition max_by {A} (le : A -> A -> bool) (l : list A) : option A :=
  foldl (fun m x => match m with
                    | None => Some x
                    | Some y => Some (if le y x then x else y)
                    end) None l.

(** ** Kinds and modes *)

Inductive StatementKind := KReadOnly | KDml | KDdl | KUnknown.
Inductive SafeMode := MFull | MNoDdl | MConfirm | MReadOnly.
Inductive Decision := Allow | Confirm | Refuse.

#[export] Instance StatementKind_eq_dec : EqDecision StatementKind.
Proof. solve_decision. Defined.
#[export] Instance SafeMode_eq_dec : EqDecision SafeMode.
Proof. solve_decision. Defined.
#[export] Instance Decision_eq_dec : EqDecision Decision.
Proof. solve_decision. Defined.

Definition kind_label (k : StatementKind) : string :=
  match k with
  | KReadOnly => "read-only" | KDml => "a write" | KDdl => "DDL" | KUnknown => "unclassified"
  end.
Definition kind_token (k : StatementKind) : string :=
  match k with
  | KReadOnly => "read_only" | KDml => "dml" | KDdl => "ddl" | KUnknown => "unknown"
  end.

Definition SAFE_MODES : list string := ["full"; "no_ddl"; "confirm"; "read_only"].

Definition is_allowed (d : Decision) : bool := match d with Allow => true | _ => false end.

Definition safe_mode_parse (name : bytes) : option SafeMode :=
  let name := lower (trim name) in
  if says name "full" then Some MFull
  else if says name "no_ddl" then Some MNoDdl
  else if says name "confirm" then Some MConfirm
  else if says name "read_only" then Some MReadOnly
  else None.

Definition safe_mode_as_str (m : SafeMode) : string :=
  match m with
  | MFull => "full" | MNoDdl => "no_ddl" | MConfirm => "confirm" | MReadOnly => "read_only"
  end.

Definition strictness (m : SafeMode) : nat :=
  match m with MFull => 0 | MNoDdl => 1 | MConfirm => 2 | MReadOnly => 3 end.

Definition strictest (self other : SafeMode) : SafeMode :=
  if strictness self <? strictness other then other else self.

Definition decision (m : SafeMode) (k : StatementKind) : Decision :=
  match m with
  | MFull => Allow
  | MNoDdl => match k with KReadOnly | KDml => Allow | KDdl | KUnknown => Refuse end
  | MConfirm => match k with KReadOnly => Allow | KDml => Confirm | KDdl | KUnknown => Refuse end
  | MReadOnly => match k with KReadOnly => Allow | _ => Refuse end
  end.

Definition CONFIRM_REASON : string :=
  "writing runs on a confirm connection only after an explicit confirmation (SAFE_MODE_CONFIRMED=1)".
Definition NO_DDL_REASON : string :=
  "DDL is not allowed on a connection whose Safe Mode is no_ddl".
Definition CONFIRM_DDL_REASON : string :=
  "DDL is not allowed on a connection whose Safe Mode is confirm".
Definition CONFIRM_UNKNOWN_REASON : string :=
  "the classifier could not tell whether this statement is read-only, and a confirm connection refuses an unclassified statement".
Definition READ_ONLY_DML_REASON : string := "writing is not allowed on a read-only connection".
Definition READ_ONLY_DDL_REASON : string := "DDL is not allowed on a read-only connection".
Definition READ_ONLY_UNKNOWN_REASON : string :=
  "the classifier could not tell whether this statement is read-only, and a read-only connection refuses an unclassified statement".

Definition refusal (m : SafeMode) (k : StatementKind) : option string :=
  match decision m k with
  | Allow => None
  | Confirm => Some CONFIRM_REASON
  | Refuse =>
      match m with
      | MNoDdl => Some NO_DDL_REASON
      | MConfirm => match k with KDdl => Some CONFIRM_DDL_REASON | _ => Some CONFIRM_UNKNOWN_REASON end
      | MReadOnly =>
          match k with
          | KDml => Some READ_ONLY_DML_REASON
          | KDdl => Some READ_ONLY_DDL_REASON
          | _ => Some READ_ONLY_UNKNOWN_REASON
          end
      | MFull => None
      end
  end.

(** ** The floor *)

Inductive FloorSource := FUser | FDriver | FConnection | FPolicy.

#[export] Instance FloorSource_eq_dec : EqDecision FloorSource.
Proof. solve_decision. Defined.

(** The derived [Ord]: declaration order. *)
Definition floor_rank (s : FloorSource) : nat :=
  match s with FUser => 0 | FDriver => 1 | FConnection => 2 | FPolicy => 3 end.

Definition floor_as_str (s : FloorSource) : string :=
  match s with
  | FUser => "the connection's own Safe Mode"
  | FDriver => "the driver, which cannot write"
  | FConnection => "the connection, which is marked read-only"
  | FPolicy => "a policy pinned outside the connection"
  end.

Definition SafeModeFloor : Type := list (FloorSource * SafeMode).
Definition floor_new : SafeModeFloor := [].
Definition floor_raise (f : SafeModeFloor) (s : FloorSource) (m : SafeMode) : SafeModeFloor :=
  f ++ [(s, m)].
Definition floor_is_empty (f : SafeModeFloor) : bool := match f with [] => true | _ => false end.

(** The key [(strictness, source)], compared in that order. *)
Definition floor_le (a b : FloorSource * SafeMode) : bool :=
  (strictness a.2 <? strictness b.2)
  || ((strictness a.2 =? strictness b.2) && (floor_rank a.1 <=? floor_rank b.1)).

Definition floor_resolve (f : SafeModeFloor) : option (SafeMode * FloorSource) :=
  (fun e => (e.2, e.1)) <$> max_by floor_le f.

(** ** Words *)

Definition DML_WORDS : list string :=
  ["INSERT"; "UPDATE"; "DELETE"; "MERGE"; "REPLACE"; "UPSERT"; "COPY"; "LOAD"].
Definition OPAQUE_WORDS : list string := ["DO"; "CALL"; "EXECUTE"].
Definition DDL_WORDS : list string :=
  ["CREATE"; "ALTER"; "DROP"; "TRUNCATE"; "GRANT"; "REVOKE"; "COMMENT"; "RENAME"; "REINDEX";
   "VACUUM"; "CLUSTER"; "ANALYZE"; "ANALYSE"; "REFRESH"; "ATTACH"; "DETACH"; "LOCK"; "INTO"].

Definition write_kind (word : bytes) : option StatementKind :=
  if one_of word DML_WORDS then Some KDml
  else if one_of word DDL_WORDS then Some KDdl
  else if one_of word OPAQUE_WORDS then Some KUnknown
  else None.

Definition SIDE_EFFECT_FUNCTIONS : list string :=
  ["nextval"; "setval";
   "pg_terminate_backend"; "pg_cancel_backend"; "pg_reload_conf"; "pg_rotate_logfile";
   "pg_logfile_rotate"; "pg_switch_wal"; "pg_switch_xlog"; "pg_create_restore_point";
   "pg_backup_start"; "pg_backup_stop"; "pg_start_backup"; "pg_stop_backup"; "pg_promote";
   "pg_wal_replay_pause"; "pg_wal_replay_resume"; "pg_xlog_replay_pause"; "pg_xlog_replay_resume";
   "pg_create_physical_replication_slot"; "pg_create_logical_replication_slot";
   "pg_drop_replication_slot"; "pg_replication_slot_advance"; "pg_logical_emit_message";
   "pg_notify"; "pg_import_system_collations"; "pg_prewarm";
   "pg_stat_reset"; "pg_stat_reset_shared"; "pg_stat_reset_slru";
   "pg_stat_reset_single_table_counters"; "pg_stat_reset_single_function_counters";
   "pg_stat_statements_reset";
   "lo_create"; "lo_creat"; "lo_import"; "lo_export"; "lo_unlink"; "lo_put"; "lo_from_bytea";
   "lo_truncate"; "lo_truncate64"; "lowrite"; "pg_file_write"; "pg_file_rename"; "pg_file_unlink";
   "get_lock"; "release_lock"; "release_all_locks"].

Definition has_side_effect (name : bytes) : bool :=
  one_of name SIDE_EFFECT_FUNCTIONS || starts_with name (B "pg_advisory_")
  || starts_with name (B "pg_try_advisory_").

Definition TEXT_AS_SQL_FUNCTIONS : list string :=
  ["query_to_xml"; "query_to_xmlschema"; "query_to_xml_and_xmlschema"; "ts_stat"; "ts_rewrite";
   "connectby"; "crosstab"; "crosstab2"; "crosstab3"; "crosstab4"; "sys_exec"; "sys_eval"].

Definition runs_text_as_sql (name : bytes) : bool :=
  one_of name TEXT_AS_SQL_FUNCTIONS || starts_with name (B "dblink").

(** ** The surface of a text *)

Inductive Token :=
| TWord (start end_ : nat)
| TQuoted (start end_ : nat)
| TLiteral
| TOpen (call : bool)
| TClose.

#[export] Instance Token_eq_dec : EqDecision Token.
Proof. solve_decision. Defined.

Record Surface := MkSurface {
  tokens : list Token;
  unicode_identifier : bool;
  literal_names_encoding : bool;
}.

(** [SurfaceBuilder], less the lexer and the text, which do not change. *)
Record Builder := MkBuilder {
  surface : Surface;
  seen : nat;
  dirty : bool;
}.

Definition builder_start : Builder := MkBuilder (MkSurface [] false false) 0 false.

Definition add_token (s : Surface) (t : Token) : Surface :=
  MkSurface (tokens s ++ [t]) (unicode_identifier s) (literal_names_encoding s).

Definition is_name (t : option Token) : bool :=
  match t with Some (TWord _ _) | Some (TQuoted _ _) => true | _ => false end.

(** One turn of the loop of [SurfaceBuilder::gap]: the offset, the surface and [dirty]. *)
Definition gap_turn (bs : bytes) (l : Lexer) (upto : nat) (st : nat * Surface * bool)
  : (nat * Surface * bool) + (Surface * bool) :=
  let '(i, s, dirty) := st in
  if i <? upto then
    match bs !! i with
    | None => inr (s, dirty)
    | Some b =>
        let next := i + 1 in
        if b =b LPAREN then
          inl (next, add_token s (TOpen (negb dirty && is_name (last (tokens s)))), false)
        else if b =b RPAREN then inl (next, add_token s TClose, false)
        else if is_ascii_whitespace b || (b =b VT) then inl (next, s, dirty)
        else if (b =b SLASH) && match executable_comment_opener bs i l with
                                | Some n => n <=? upto
                                | None => false
                                end then
          inl (match executable_comment_opener bs i l with Some n => n | None => next end, s, dirty)
        else if (b =b STAR) && runs_executable_comments l && is_at bs next SLASH then
          inl (next + 1, s, dirty)
        else inl (next, s, true)
    end
  else inr (s, dirty).

Definition builder_gap (bs : bytes) (l : Lexer) (b : Builder) (upto : nat) : Builder :=
  match iter (gap_turn bs l upto) (S (length bs)) (Nat.min (seen b) upto, surface b, dirty b) with
  | Some (s, d) => MkBuilder s upto d
  | None => b
  end.

Definition builder_push (b : Builder) (t : Token) (end_ : nat) : Builder :=
  MkBuilder (add_token (surface b) t) end_ false.

(** [windows(needle.len()).any(|w| w.eq_ignore_ascii_case(needle))] *)
Fixpoint contains_ci (needle text : bytes) : bool :=
  match text with
  | [] => false
  | _ :: rest =>
      eq_ignore_ascii_case (take (length needle) text) needle || contains_ci needle rest
  end.

Definition mentions_encoding (text : bytes) : bool :=
  contains_ci (B "set_config") text || contains_ci (B "client_encoding") text.

(** The test of a [U&] before or in a quoted name. *)
Definition unicode_escaped (bs : bytes) (start end_ : nat) : bool :=
  let region := slice bs start end_ in
  ((2 <=? length region) && eq_ignore_ascii_case (take 2 region) (B "u&"))
  || ((2 <=? start)
      && at_is (fun b => to_ascii_lowercase b =b 117) bs (start - 2)
      && is_at bs (start - 1) AMP).

(** [impl Visitor for SurfaceBuilder] *)
Definition surface_visit (bs : bytes) (l : Lexer) (b : Builder) (r : Report) : Builder :=
  match r with
  | Word start end_ => builder_push (builder_gap bs l b start) (TWord start end_) end_
  | Opaque k start end_ =>
      let b := builder_gap bs l b start in
      match k with
      | LineCommentK | BlockCommentK => MkBuilder (surface b) end_ (dirty b)
      | DoubleQuote | Backtick =>
          let s := surface b in
          let s := MkSurface (tokens s) (unicode_identifier s || unicode_escaped bs start end_)
                     (literal_names_encoding s) in
          builder_push (MkBuilder s (seen b) (dirty b)) (TQuoted start end_) end_
      | SingleQuote | DollarQuote =>
          let s := surface b in
          let s := MkSurface (tokens s) (unicode_identifier s)
                     (literal_names_encoding s
                      || (is_postgres l && mentions_encoding (slice bs start end_))) in
          builder_push (MkBuilder s (seen b) (dirty b)) TLiteral end_
      end
  | Separator _ => b
  end.

Definition surface_of (bs : bytes) (l : Lexer) : Surface :=
  surface (builder_gap bs l (foldl (surface_visit bs l) builder_start (reports bs l)) (length bs)).

Definition is_quote_mark (b : Z) : bool := (b =b DQUOTE) || (b =b BTICK).
(** [strip_prefix] and [strip_suffix] of a quote mark. *)
Definition strip_quotes (text : bytes) : bytes :=
  let text := match text with b :: r => if is_quote_mark b then r else text | [] => text end in
  match last text with
  | Some b => if is_quote_mark b then take (length text - 1) text else text
  | None => text
  end.

Definition token_name (bs : bytes) (t : Token) : option bytes :=
  match t with
  | TWord s e => Some (slice bs s e)
  | TQuoted s e => Some (strip_quotes (slice bs s e))
  | _ => None
  end.

(** [Surface::word]: the bare word at [i], or the empty text. *)
Definition token_word (bs : bytes) (ts : list Token) (i : nat) : bytes :=
  match ts !! i with Some (TWord s e) => slice bs s e | _ => [] end.

Fixpoint calls_from (bs : bytes) (matches : bytes -> bool) (ts : list Token) : bool :=
  match ts with
  | a :: ((b :: _) as rest) =>
      match b with
      | TOpen true => match token_name bs a with Some n => matches (lower n) | None => false end
      | _ => false
      end || calls_from bs matches rest
  | _ => false
  end.
Definition calls_a_function (bs : bytes) (s : Surface) (matches : bytes -> bool) : bool :=
  calls_from bs matches (tokens s).

Definition names_encoding (bs : bytes) (s : Surface) : bool :=
  unicode_identifier s
  || existsb (fun t => match token_name bs t with
                       | Some n => is_any n ["set_config"; "client_encoding"]
                       | None => false
                       end) (tokens s).

Definition lock_words (a b c : bytes) : bool :=
  says a "share" || (says a "key" && says b "share")
  || (says a "no" && says b "key" && says c "update").

(** The loop of [has_locking_clause]: [i] is the index of the first of [rest] in [ts], [open] the
    stack, its top first. *)
Fixpoint locking_from (bs : bytes) (ts : list Token) (i : nat) (rest : list Token) (open : list bytes)
  : bool :=
  match rest with
  | [] => false
  | t :: rest =>
      let word n := token_word bs ts n in
      match t with
      | TOpen _ =>
          locking_from bs ts (i + 1) rest
            ((if 1 <=? i then word (i - 1) else []) :: open)
      | TClose => locking_from bs ts (i + 1) rest (tail open)
      | TWord _ _ =>
          if eq_ignore_ascii_case (word i) (B "for") then
            let in_length := match open with
                             | call :: _ => is_any call ["substring"; "substr"; "overlay"]
                             | [] => false
                             end in
            if negb in_length
               && lock_words (lower (word (i + 1))) (lower (word (i + 2))) (lower (word (i + 3)))
            then true
            else locking_from bs ts (i + 1) rest open
          else locking_from bs ts (i + 1) rest open
      | _ => locking_from bs ts (i + 1) rest open
      end
  end.
Definition has_locking_clause (bs : bytes) (s : Surface) : bool :=
  locking_from bs (tokens s) 0 (tokens s) [].

(** ** Classification *)

Definition kind_rank (k : StatementKind) : nat :=
  match k with KReadOnly => 0 | KDml => 1 | KDdl => 2 | KUnknown => 3 end.
Definition kind_le (a b : StatementKind) : bool := kind_rank a <=? kind_rank b.

Definition option_list {A} (o : option A) : list A := match o with Some x => [x] | None => [] end.

(** The arms of the [match leading] of [classify_dialect]. *)
Definition leading_kind (bs : bytes) (leading : bytes) (keywords : list bytes) (s : Surface)
  : StatementKind :=
  if one_of leading ["SHOW"; "DESC"; "DESCRIBE"] then KReadOnly
  else if one_of leading ["SELECT"; "VALUES"; "TABLE"; "WITH"; "EXPLAIN"] then
    let word_kind := max_by kind_le (omap write_kind keywords) in
    let lock_kind := if has_locking_clause bs s then Some KDml else None in
    let call_kind := if calls_a_function bs s has_side_effect then Some KDml else None in
    default KReadOnly
      (max_by kind_le (option_list word_kind ++ option_list lock_kind ++ option_list call_kind))
  else if says leading "COPY" && existsb (fun w => says w "PROGRAM") keywords then KUnknown
  else default KUnknown (write_kind leading).

Definition classify_dialect (bs : bytes) (l : Lexer) : StatementKind :=
  let sc := scan_dialect bs l in
  let s := surface_of bs l in
  if calls_a_function bs s runs_text_as_sql then KUnknown
  else if is_postgres l
          && negb (match scan_leading_keyword sc with Some w => says w "SHOW" | None => false end)
          && names_encoding bs s
  then KUnknown
  else
    match scan_leading_keyword sc with
    | None => KUnknown
    | Some leading =>
        let kind := leading_kind bs leading (keywords sc) s in
        if negb (bool_decide (kind = KReadOnly)) && is_postgres l && literal_names_encoding s
        then KUnknown
        else kind
    end.
Definition classify (bs : bytes) : StatementKind := classify_dialect bs GENERIC.

(** The loop of [classify_readings]: a strictly higher rank replaces. *)
Definition merge_kind (m : option StatementKind) (k : StatementKind) : option StatementKind :=
  match m with
  | None => Some k
  | Some c => if kind_rank c <? kind_rank k then Some k else Some c
  end.
Definition classify_readings (bs : bytes) (readings : list Lexer) : StatementKind :=
  default KUnknown (foldl (fun m l => merge_kind m (classify_dialect bs l)) None readings).

(** ** The statements of a script *)

Record ScriptStatement := MkStatement { line : nat; text : bytes }.

#[export] Instance ScriptStatement_eq_dec : EqDecision ScriptStatement.
Proof. solve_decision. Defined.

Definition newlines (s : bytes) : nat := length (filter (fun b => b = LF) s).

(** [line_at] *)
Definition line_at (bs : bytes) (offset : nat) : nat := newlines (take offset bs) + 1.

Record LineCounter := MkCounter { counter_offset : nat; counter_line : nat }.
Definition counter_new : LineCounter := MkCounter 0 1.
Definition counter_at (bs : bytes) (c : LineCounter) (offset : nat) : LineCounter * nat :=
  let line := counter_line c + newlines (slice bs (counter_offset c) offset) in
  (MkCounter offset line, line).

Definition push_with_line (bs : bytes) (l : Lexer) (st : list ScriptStatement * LineCounter)
  (start end_ : nat) : list ScriptStatement * LineCounter :=
  let piece := slice bs start end_ in
  match first_significant piece l with
  | None => st
  | Some leading =>
      let '(counter, line) := counter_at bs st.2 (start + leading) in
      (st.1 ++ [MkStatement line (trim piece)], counter)
  end.

(** The loop over the separators: what was found, the counter, and where the next piece starts. *)
Definition push_separators (bs : bytes) (l : Lexer) (seps : list nat)
  : (list ScriptStatement * LineCounter) * nat :=
  foldl (fun st sep => (push_with_line bs l st.1 st.2 sep, sep + 1)) (([], counter_new), 0) seps.

Definition statements_with_lines_dialect (bs : bytes) (l : Lexer) : list ScriptStatement :=
  if negb (has_significant_text_dialect bs l) then []
  else
    let '(st, start) := push_separators bs l (script_separators bs l) in
    (push_with_line bs l st start (length bs)).1.
Definition statements_with_lines (bs : bytes) : list ScriptStatement :=
  statements_with_lines_dialect bs GENERIC.

Definition statements_dialect (bs : bytes) (l : Lexer) : list bytes :=
  text <$> statements_with_lines_dialect bs l.
Definition statements (bs : bytes) : list bytes := statements_dialect bs GENERIC.

Definition statements_agreeing (bs : bytes) (readings : list Lexer) : option (list bytes) :=
  match readings with
  | [] => None
  | first :: rest =>
      let expected := statements_dialect bs first in
      if forallb (fun l => bool_decide (statements_dialect bs l = expected)) rest
      then Some expected else None
  end.

(** ** Decisions *)

Record StatementDecision := MkDecision {
  d_index : nat;
  d_kind : StatementKind;
  d_statement : bytes;
  d_decision : Decision;
  d_reason : option string;
}.

Inductive SafeModeError :=
| Refused (mode : SafeMode) (index : nat) (kind : StatementKind) (reason : string) (statement : bytes)
| NeedsConfirmation (mode : SafeMode) (index : nat) (kind : StatementKind) (reason : string)
    (statement : bytes).

Definition SNIPPET_LIMIT : nat := 80.
(** U+2026, the ellipsis. *)
Definition ELLIPSIS : bytes := [0xE2; 0x80; 0xA6]%Z.
Definition snippet (s : bytes) : bytes :=
  let flattened := join_sep [SP] (split_whitespace s) in
  let '(head, rest) := take_chars SNIPPET_LIMIT flattened in
  match rest with [] => head | _ => head ++ ELLIPSIS end.

Definition refusal_error (d : StatementDecision) (mode : SafeMode) (confirmed : bool)
  : option SafeModeError :=
  let reason := default "this statement is not allowed here"%string (d_reason d) in
  match d_decision d with
  | Allow => None
  | Confirm =>
      if confirmed then None
      else Some (NeedsConfirmation mode (d_index d) (d_kind d) reason (snippet (d_statement d)))
  | Refuse => Some (Refused mode (d_index d) (d_kind d) reason (snippet (d_statement d)))
  end.

Definition decide_statement (mode : SafeMode) (l : Lexer) (offset : nat) (statement : bytes)
  : StatementDecision :=
  let kind := classify_dialect statement l in
  MkDecision (offset + 1) kind statement (decision mode kind) (refusal mode kind).

Definition decisions_dialect (mode : SafeMode) (bs : bytes) (l : Lexer) : list StatementDecision :=
  imap (decide_statement mode l) (statements_dialect bs l).
Definition decisions (mode : SafeMode) (bs : bytes) : list StatementDecision :=
  decisions_dialect mode bs GENERIC.

Inductive Who := WNoDdl | WConfirm | WReadOnly.
Definition who_str (w : Who) : string :=
  match w with
  | WNoDdl => "a no_ddl connection" | WConfirm => "a confirm connection"
  | WReadOnly => "a read-only connection"
  end.
Definition AMBIGUOUS_MYSQL : string :=
  "the classifier could not tell where this statement ends or what it does, because MySQL string escaping and comments depend on the server's sql_mode (write a quote inside a string as '' instead of \' and avoid unusual comments), and ".
Definition AMBIGUOUS_POSTGRES : string :=
  "the classifier could not tell where this statement ends or what it does, because PostgreSQL reads a backslash in a plain string differently depending on standard_conforming_strings (write a quote inside a string as '' instead of \', or use an E'' string), and ".

Definition ambiguous_reason (mode : SafeMode) (pg : bool) : option string :=
  let text w := ((if pg then AMBIGUOUS_POSTGRES else AMBIGUOUS_MYSQL) ++ who_str w
                 ++ " refuses an unclassified statement")%string in
  match mode with
  | MFull => None
  | MNoDdl => Some (text WNoDdl)
  | MConfirm => Some (text WConfirm)
  | MReadOnly => Some (text WReadOnly)
  end.

Definition decide_readings (mode : SafeMode) (readings : list Lexer) (offset : nat)
  (statement : bytes) : StatementDecision :=
  let kind := classify_readings statement readings in
  let ambiguous :=
    bool_decide (kind = KUnknown)
    && existsb (fun l => negb (bool_decide (classify_dialect statement l = KUnknown))) readings in
  MkDecision (offset + 1) kind statement (decision mode kind)
    (if ambiguous then ambiguous_reason mode (existsb is_postgres readings) else refusal mode kind).

Definition decisions_readings (mode : SafeMode) (bs : bytes) (readings : list Lexer)
  : list StatementDecision :=
  match statements_agreeing bs readings with
  | None => [MkDecision 1 KUnknown (trim bs) (decision mode KUnknown)
               (ambiguous_reason mode (existsb is_postgres readings))]
  | Some statements => imap (decide_readings mode readings) statements
  end.

(** [find_map], then [map_or(Ok(()), Err)]. *)
Fixpoint find_map {A B} (f : A -> option B) (l : list A) : option B :=
  match l with
  | [] => None
  | x :: l => match f x with Some y => Some y | None => find_map f l end
  end.
Definition to_result {E} (o : option E) : unit + E :=
  match o with None => inl tt | Some e => inr e end.

Definition check_confirmed_dialect (mode : SafeMode) (confirmed : bool) (bs : bytes) (l : Lexer)
  : unit + SafeModeError :=
  to_result (find_map (fun d => refusal_error d mode confirmed) (decisions_dialect mode bs l)).
Definition check_confirmed_readings (mode : SafeMode) (confirmed : bool) (bs : bytes)
  (readings : list Lexer) : unit + SafeModeError :=
  to_result (find_map (fun d => refusal_error d mode confirmed) (decisions_readings mode bs readings)).
Definition check_confirmed (mode : SafeMode) (confirmed : bool) (bs : bytes) : unit + SafeModeError :=
  check_confirmed_dialect mode confirmed bs GENERIC.
Definition check_dialect (mode : SafeMode) (bs : bytes) (l : Lexer) : unit + SafeModeError :=
  check_confirmed_dialect mode false bs l.
Definition check (mode : SafeMode) (bs : bytes) : unit + SafeModeError :=
  check_confirmed mode false bs.
