(* ===== verification/ClassifySpec.v ===== *)
(** * ClassifySpec: what Safe Mode promises.

    Modes form a chain and a floor never weakens one; several readings are merged to the strictest;
    a script that is let through is allowed under every reading; a text classified read-only holds
    no write word in code; and the statements checked are the whole script, at their lines. *)
From S2P Require Import Prelude Bytes Text Scan ScanFacts ScanSpec Script ScriptSpec Classify.

(** ** Maxima and searches *)

Section MaxBy.
Context {A : Type} (le : A -> A -> bool).
Hypothesis le_total : forall x y, le x y = true \/ le y x = true.
Hypothesis le_trans : forall x y z, le x y = true -> le y z = true -> le x z = true.

Lemma le_refl' x : le x x = true.
Proof. by destruct (le_total x x). Qed.

Lemma max_by_snoc l x :
  max_by le (l ++ [x]) = Some (match max_by le l with
                               | None => x
                               | Some y => if le y x then x else y
                               end).
Proof. unfold max_by. rewrite foldl_snoc. by destruct (foldl _ None l). Qed.

Lemma max_by_spec l m :
  max_by le l = Some m -> m ∈ l /\ forall x, x ∈ l -> le x m = true.
Proof.
  revert m; induction l as [|x l IH] using rev_ind; intros m; [done|].
  rewrite max_by_snoc. intros [= <-]. destruct (max_by le l) as [y|] eqn:E.
  - destruct (IH y eq_refl) as [Hy Hall]. split.
    + case_match; [apply elem_of_snoc_self|]. apply elem_of_app; auto.
    + intros z [Hz|Hz]%elem_of_app.
      * case_match; [eapply le_trans; eauto|auto].
      * apply list_elem_of_singleton in Hz as ->. case_match; [apply le_refl'|].
        destruct (le_total x y); congruence.
  - destruct l as [|y l _] using rev_ind; [|by rewrite max_by_snoc in E].
    split; [by apply list_elem_of_singleton|]. intros z Hz%list_elem_of_singleton. subst. apply le_refl'.
Qed.

Lemma max_by_none l : max_by le l = None <-> l = [].
Proof.
  split; [|by intros ->]. destruct l as [|x l _] using rev_ind; [done|]. by rewrite max_by_snoc.
Qed.

(** When the order separates the elements, the maximum does not depend on their order. *)
Lemma max_by_permutation l l' :
  (forall x y, le x y = true -> le y x = true -> x = y) ->
  l ≡ₚ l' -> max_by le l = max_by le l'.
Proof.
  intros Hanti Hp. destruct (max_by le l) as [m|] eqn:E; destruct (max_by le l') as [m'|] eqn:E'.
  - apply max_by_spec in E as [Hm Ha], E' as [Hm' Ha']. f_equal. apply Hanti.
    + apply Ha'. by rewrite <- Hp.
    + apply Ha. by rewrite Hp.
  - apply max_by_none in E' as ->. apply Permutation_length in Hp. by destruct l.
  - apply max_by_none in E as ->. apply Permutation_length in Hp. by destruct l'.
  - done.
Qed.
End MaxBy.

(** The key as one number. *)
Lemma floor_le_key a b :
  floor_le a b = (4 * strictness a.2 + floor_rank a.1 <=? 4 * strictness b.2 + floor_rank b.1).
Proof. destruct a as [[] []], b as [[] []]; reflexivity. Qed.
Lemma floor_le_total a b : floor_le a b = true \/ floor_le b a = true.
Proof. rewrite !floor_le_key, !Nat.leb_le. lia. Qed.
Lemma floor_le_trans a b c : floor_le a b = true -> floor_le b c = true -> floor_le a c = true.
Proof. rewrite !floor_le_key, !Nat.leb_le. lia. Qed.
Lemma floor_le_anti a b : floor_le a b = true -> floor_le b a = true -> a = b.
Proof. destruct a as [[] []], b as [[] []]; done. Qed.

Lemma kind_le_total a b : kind_le a b = true \/ kind_le b a = true.
Proof. unfold kind_le. rewrite !Nat.leb_le. lia. Qed.
Lemma kind_le_trans a b c : kind_le a b = true -> kind_le b c = true -> kind_le a c = true.
Proof. unfold kind_le. rewrite !Nat.leb_le. lia. Qed.

Lemma find_map_none {A B} (f : A -> option B) l :
  find_map f l = None <-> Forall (fun x => f x = None) l.
Proof.
  induction l as [|x l IH]; simpl; [done|]. rewrite Forall_cons, <- IH.
  case_match; [split; [done|by intros []]|split; [done|by intros []]].
Qed.

Lemma find_map_some {A B} (f : A -> option B) l y :
  find_map f l = Some y ->
  exists l1 x l2, l = l1 ++ x :: l2 /\ Forall (fun x => f x = None) l1 /\ f x = Some y.
Proof.
  induction l as [|x l IH]; simpl; [done|]. case_match eqn:E.
  - intros [= <-]. by exists [], x, l.
  - intros (l1 & z & l2 & -> & ? & ?)%IH. exists (x :: l1), z, l2. auto.
Qed.

(** ** The chain of modes *)

Definition decision_rank (d : Decision) : nat :=
  match d with Allow => 0 | Confirm => 1 | Refuse => 2 end.

Lemma decision_monotone m1 m2 k :
  strictness m1 <= strictness m2 ->
  decision_rank (decision m1 k) <= decision_rank (decision m2 k).
Proof. destruct m1, m2, k; simpl; lia. Qed.

Lemma strictness_strictest a b :
  strictness (strictest a b) = Nat.max (strictness a) (strictness b).
Proof. unfold strictest. case_match; split_bool; lia. Qed.

(** A floor only ever tightens: the mode a run gets, the stricter of the user's own and the
    floor's, decides every kind at least as strictly as the user's mode and as every condition
    raised; and it is no stricter than the strictest of them. *)
Theorem floor_never_weakens (user : SafeMode) (f : SafeModeFloor) (m : SafeMode) (s : FloorSource) :
  floor_resolve f = Some (m, s) ->
  (s, m) ∈ f
  /\ (forall k, decision_rank (decision user k) <= decision_rank (decision (strictest user m) k))
  /\ (forall s' m' k, (s', m') ∈ f ->
        decision_rank (decision m' k) <= decision_rank (decision (strictest user m) k))
  /\ (forall s', (s', m) ∈ f -> floor_rank s' <= floor_rank s).
Proof.
  unfold floor_resolve. destruct (max_by floor_le f) as [[s0 m0]|] eqn:E; intros [= <- <-].
  apply (max_by_spec _ floor_le_total floor_le_trans) in E as [Hin Hall]. split_and!; [done|..].
  - intros k. apply decision_monotone. rewrite strictness_strictest. lia.
  - intros s' m' k Hs. apply decision_monotone. rewrite strictness_strictest.
    specialize (Hall _ Hs). rewrite floor_le_key, Nat.leb_le in Hall. simpl in Hall.
    destruct s', s0; simpl in *; lia.
  - intros s' Hs. specialize (Hall _ Hs). rewrite floor_le_key, Nat.leb_le in Hall. simpl in Hall.
    destruct s', s0; simpl in *; lia.
Qed.
Lemma floor_never_weakens_witness :
  (FConnection, MReadOnly) ∈ [(FPolicy, MConfirm); (FConnection, MReadOnly); (FDriver, MReadOnly)]
  /\ (forall k, decision_rank (decision MNoDdl k) <= decision_rank (decision (strictest MNoDdl MReadOnly) k))
  /\ (forall s' m' k, (s', m') ∈ [(FPolicy, MConfirm); (FConnection, MReadOnly); (FDriver, MReadOnly)] ->
        decision_rank (decision m' k) <= decision_rank (decision (strictest MNoDdl MReadOnly) k))
  /\ (forall s', (s', MReadOnly) ∈ [(FPolicy, MConfirm); (FConnection, MReadOnly); (FDriver, MReadOnly)] ->
        floor_rank s' <= floor_rank FConnection).
Proof. apply floor_never_weakens. reflexivity. Defined.

(** The floor does not depend on the order its conditions were raised in, and there is a floor
    exactly when a condition was raised. *)
Theorem floor_order_independent (f f' : SafeModeFloor) :
  (f ≡ₚ f' -> floor_resolve f = floor_resolve f')
  /\ (floor_resolve f = None <-> floor_is_empty f = true).
Proof.
  split.
  - intros Hp. unfold floor_resolve.
    by rewrite (max_by_permutation _ floor_le_total floor_le_trans _ _ floor_le_anti Hp).
  - unfold floor_resolve. rewrite fmap_None, max_by_none. by destruct f.
Qed.
Lemma floor_order_independent_witness :
  floor_resolve [(FUser, MNoDdl); (FPolicy, MConfirm)] = floor_resolve [(FPolicy, MConfirm); (FUser, MNoDdl)].
Proof.
  apply (proj1 (floor_order_independent [(FUser, MNoDdl); (FPolicy, MConfirm)]
                  [(FPolicy, MConfirm); (FUser, MNoDdl)])).
  constructor.
Defined.

(** A mode gives a reason exactly when it does not run the statement as it is, and every mode's
    name parses back to it. *)
Theorem refusal_iff_not_allowed (m : SafeMode) (k : StatementKind) :
  (refusal m k = None <-> is_allowed (decision m k) = true)
  /\ safe_mode_parse (B (safe_mode_as_str m)) = Some m.
Proof. destruct m, k; split; try done; vm_compute; reflexivity. Qed.

(** [confirm] and [read_only] run the same statements without a confirmation: the step between
    them refuses no unconfirmed statement more. *)
Lemma confirm_allows_what_read_only_allows k :
  decision MConfirm k = Allow <-> decision MReadOnly k = Allow.
Proof. by destruct k. Qed.

(** ** Merged readings *)

Lemma merge_kind_le m k : exists c, merge_kind m k = Some c /\ kind_rank k <= kind_rank c
  /\ (forall c', m = Some c' -> kind_rank c' <= kind_rank c) /\ (c = k \/ m = Some c).
Proof.
  destruct m as [c|]; simpl; [|naive_solver]. case_match; split_bool; eexists; split_and!; eauto;
    naive_solver lia.
Qed.

Lemma merge_fold bs readings :
  readings <> [] -> exists c,
    foldl (fun m l => merge_kind m (classify_dialect bs l)) None readings = Some c
    /\ (forall l, l ∈ readings -> kind_rank (classify_dialect bs l) <= kind_rank c)
    /\ exists l, l ∈ readings /\ classify_dialect bs l = c.
Proof.
  induction readings as [|x l IH] using rev_ind; [done|]. intros _. rewrite foldl_snoc.
  destruct (decide (l = [])) as [->|Hl].
  { simpl. eexists. split_and!; [done|..].
    - intros y ->%list_elem_of_singleton. done.
    - exists x. by rewrite list_elem_of_singleton. }
  destruct (IH Hl) as (c & -> & Hall & y & Hy & Hyc).
  destruct (merge_kind_le (Some c) (classify_dialect bs x)) as (c' & -> & H1 & H2 & H3).
  specialize (H2 c eq_refl). exists c'. split_and!; [done|..].
  - intros z [Hz|Hz]%elem_of_app; [specialize (Hall _ Hz); lia|].
    apply list_elem_of_singleton in Hz as ->. done.
  - destruct H3 as [->|[= ->]]; [exists x|exists y]; rewrite elem_of_app, ?list_elem_of_singleton; auto.
Qed.

(** Several readings are merged to the strictest: the merged kind is refused at least as much as
    each reading's own and is the kind of one of them; no readings at all is [Unknown]. *)
Theorem classify_readings_strictest (bs : bytes) (readings : list Lexer) :
  (forall l, l ∈ readings ->
     kind_rank (classify_dialect bs l) <= kind_rank (classify_readings bs readings))
  /\ (readings = [] -> classify_readings bs readings = KUnknown)
  /\ (readings <> [] -> exists l, l ∈ readings /\ classify_dialect bs l = classify_readings bs readings).
Proof.
  unfold classify_readings. destruct (decide (readings = [])) as [->|Hne].
  { split_and!; try done. intros l Hl. by apply elem_of_nil in Hl. }
  destruct (merge_fold bs readings Hne) as (c & -> & Hall & Hex). split_and!; done.
Qed.

(** ** Checking a script *)

(** A statement of kind [k] runs under [m] when the caller has [confirmed] or not. *)
Definition permitted (m : SafeMode) (confirmed : bool) (k : StatementKind) : bool :=
  match decision m k with Allow => true | Confirm => confirmed | Refuse => false end.

Lemma permitted_antitone m c k1 k2 :
  kind_rank k1 <= kind_rank k2 -> permitted m c k2 = true -> permitted m c k1 = true.
Proof. unfold permitted. destruct m, k1, k2; simpl; try lia; done. Qed.

Lemma refusal_error_none d m c :
  refusal_error d m c = None <-> d_decision d = Allow \/ (d_decision d = Confirm /\ c = true).
Proof.
  unfold refusal_error. destruct (d_decision d), c; split; first [done | intros [?|[??]]; done | auto].
Qed.

Lemma to_result_ok {E} (o : option E) : to_result o = inl tt <-> o = None.
Proof. by destruct o. Qed.
Lemma to_result_err {E} (o : option E) e : to_result o = inr e <-> o = Some e.
Proof. destruct o; simpl; split; congruence. Qed.

(** The decisions carry the mode's own answer for their kind. *)
Definition decided (m : SafeMode) (d : StatementDecision) : Prop := d_decision d = decision m (d_kind d).

Lemma decisions_readings_decided m bs readings : Forall (decided m) (decisions_readings m bs readings).
Proof.
  unfold decisions_readings. case_match; [|by repeat constructor].
  apply Forall_lookup. intros i d. rewrite list_lookup_imap.
  intros (s & _ & ->)%fmap_Some_1. done.
Qed.

(** A check fails with the first statement that may not run, and says which one it is: its
    position, its kind and whether a confirmation would let it through; it succeeds when there is
    none. *)
Theorem check_reports_first_refusal (m : SafeMode) (c : bool) (bs : bytes) (readings : list Lexer) :
  match check_confirmed_readings m c bs readings with
  | inl _ => Forall (fun d => permitted m c (d_kind d) = true) (decisions_readings m bs readings)
  | inr e =>
      exists before d after reason,
        decisions_readings m bs readings = before ++ d :: after
        /\ Forall (fun d => permitted m c (d_kind d) = true) before
        /\ permitted m c (d_kind d) = false
        /\ e = match decision m (d_kind d) with
               | Refuse => Refused m (d_index d) (d_kind d) reason (snippet (d_statement d))
               | _ => NeedsConfirmation m (d_index d) (d_kind d) reason (snippet (d_statement d))
               end
  end.
Proof.
  pose proof (decisions_readings_decided m bs readings) as Hd.
  assert (forall d, decided m d -> refusal_error d m c = None -> permitted m c (d_kind d) = true) as Hn.
  { intros d Hdd [Ha|[Ha ->]]%refusal_error_none; unfold decided, permitted in *; by rewrite <- Hdd, Ha. }
  destruct (check_confirmed_readings m c bs readings) as [[]|e] eqn:E;
    unfold check_confirmed_readings in E.
  - apply to_result_ok, find_map_none in E. eapply Forall_impl; [apply Forall_and; split; [exact Hd|exact E]|].
    intros d [? ?]. by apply Hn.
  - apply to_result_err, find_map_some in E as (b & d & a & Heq & Hb & He).
    rewrite Heq in Hd |- *. apply Forall_app in Hd as [Hd1 [Hd2 _]%Forall_cons].
    exists b, d, a, (default "this statement is not allowed here"%string (d_reason d)).
    split_and!; [done|..].
    + eapply Forall_impl; [apply Forall_and; split; [exact Hd1|exact Hb]|].
      intros x [? ?]. by apply Hn.
    + unfold permitted, decided, refusal_error in *. rewrite <- Hd2. repeat case_match; done.
    + unfold permitted, decided, refusal_error in *. rewrite <- Hd2. repeat case_match; simplify_eq; done.
Qed.

Lemma statements_agreeing_all bs readings stmts l :
  statements_agreeing bs readings = Some stmts -> l ∈ readings -> statements_dialect bs l = stmts.
Proof.
  unfold statements_agreeing. destruct readings as [|x ls]; [done|]. intros H Hl.
  destruct (forallb _ ls) eqn:Hf; simplify_eq. apply elem_of_cons in Hl as [->|Hl]; [done|].
  rewrite forallb_forall in Hf. specialize (Hf l). rewrite <- list_elem_of_In in Hf.
  specialize (Hf Hl). by apply bool_decide_eq_true in Hf.
Qed.

Lemma statements_agreeing_none bs readings :
  statements_agreeing bs readings = None ->
  readings = [] \/ exists l1 l2, l1 ∈ readings /\ l2 ∈ readings
    /\ statements_dialect bs l1 <> statements_dialect bs l2.
Proof.
  unfold statements_agreeing. destruct readings as [|x ls]; [by left|]. intros H. right.
  destruct (forallb _ ls) eqn:Hf; [done|]. apply not_true_iff_false in Hf.
  destruct (decide (Forall (fun l => statements_dialect bs l = statements_dialect bs x) ls)) as [Ha|Ha].
  - exfalso. apply Hf. apply forallb_forall. intros l Hl. apply bool_decide_eq_true.
    rewrite Forall_forall in Ha. apply Ha. by apply list_elem_of_In.
  - apply not_Forall_Exists in Ha; [|intros l; apply _]. apply Exists_exists in Ha as (l & Hl & Hne).
    exists l, x. split_and!; [by apply elem_of_cons; right|by left|done].
Qed.

(** C1: The guard's guarantee: a script a check lets through is one every reading of the dialect
    would let through. Whatever lexer the server turns out to use, each statement it then
    sees is of a kind the mode runs. *)
Theorem accepted_under_every_reading
  (m : SafeMode) (c : bool) (bs : bytes) (readings : list Lexer) (l : Lexer) (s : bytes) :
  check_confirmed_readings m c bs readings = inl tt ->
  l ∈ readings -> s ∈ statements_dialect bs l ->
  permitted m c (classify_dialect s l) = true.
Proof.
  intros Hc Hl Hs. pose proof (check_reports_first_refusal m c bs readings) as H. rewrite Hc in H.
  unfold decisions_readings in H. destruct (statements_agreeing bs readings) as [stmts|] eqn:E.
  - rewrite (statements_agreeing_all _ _ _ _ E Hl) in Hs.
    apply list_elem_of_lookup_1 in Hs as [i Hi]. rewrite Forall_lookup in H.
    specialize (H i (decide_readings m readings i s)). rewrite list_lookup_imap, Hi in H.
    specialize (H eq_refl). cbn [decide_readings d_kind] in H.
    eapply permitted_antitone; [|exact H]. by apply classify_readings_strictest.
  - apply Forall_cons in H as [H _]. cbn [d_kind] in H. eapply permitted_antitone; [|exact H].
    by destruct (classify_dialect s l); simpl; lia.
Qed.
Lemma accepted_under_every_reading_witness :
  permitted MReadOnly false (classify_dialect (B "SELECT 1") (lexer_mysql false false false)) = true.
Proof.
  apply (accepted_under_every_reading MReadOnly false (B "SELECT 1; SHOW TABLES") MYSQL_READINGS);
    [vm_compute; reflexivity|in_list|]. vm_compute. apply list_elem_of_here.
Defined.

(** Doubt is refused: when two readings cut the script differently, or there is no reading at
    all, every mode below [full] refuses it. *)
Theorem disagreement_is_refused (m : SafeMode) (c : bool) (bs : bytes) (readings : list Lexer) :
  m <> MFull ->
  readings = [] \/ (exists l1 l2, l1 ∈ readings /\ l2 ∈ readings
                      /\ statements_dialect bs l1 <> statements_dialect bs l2) ->
  exists reason,
    check_confirmed_readings m c bs readings
    = inr (Refused m 1 KUnknown reason (snippet (trim bs))).
Proof.
  intros Hm Hd. assert (statements_agreeing bs readings = None) as E.
  { destruct (statements_agreeing bs readings) as [stmts|] eqn:E; [exfalso|done].
    destruct Hd as [->|(l1 & l2 & H1 & H2 & Hne)]; [done|].
    by rewrite (statements_agreeing_all _ _ _ _ E H1), (statements_agreeing_all _ _ _ _ E H2) in Hne. }
  unfold check_confirmed_readings, decisions_readings. rewrite E.
  destruct m; [done|..]; simpl; by eexists.
Qed.
Lemma disagreement_is_refused_witness :
  exists reason,
    check_confirmed_readings MConfirm true (B "SELECT 'a\'; DELETE FROM t -- '") MYSQL_READINGS
    = inr (Refused MConfirm 1 KUnknown reason (snippet (trim (B "SELECT 'a\'; DELETE FROM t -- '")))).
Proof.
  apply disagreement_is_refused; [discriminate|]. right.
  exists (lexer_mysql true false true), (lexer_mysql false false true).
  split_and!; [in_list|in_list|]. vm_compute. intros H. discriminate H.
Defined.

(** ** What a read-only text holds *)

Lemma write_kind_not_read w k : write_kind w = Some k -> k <> KReadOnly.
Proof. unfold write_kind. intros H. repeat case_match; simplify_eq; done. Qed.

Lemma keywords_words bs l w :
  w ∈ keywords (scan_dialect bs l) <-> exists a e, Word a e ∈ reports bs l /\ w = upper (slice bs a e).
Proof.
  rewrite scan_keywords, list_elem_of_omap. split.
  - intros (r & Hr & E). destruct r as [| |a e]; simplify_eq/=. by exists a, e.
  - intros (a & e & Hr & ->). by exists (Word a e).
Qed.

(** A leading keyword of the read starters is read-only only when nothing in the text writes. *)
Lemma starter_read_only bs leading kws s :
  leading_kind bs leading kws s = KReadOnly ->
  one_of leading ["SHOW"; "DESC"; "DESCRIBE"] = true
  \/ one_of leading ["SELECT"; "VALUES"; "TABLE"; "WITH"; "EXPLAIN"] = true
     /\ (forall w, w ∈ kws -> write_kind w = None)
     /\ has_locking_clause bs s = false /\ calls_a_function bs s has_side_effect = false.
Proof.
  unfold leading_kind. destruct (one_of leading ["SHOW"; _; _]); [by left|].
  destruct (one_of leading ["SELECT"; _; _; _; _]).
  - intros H. right. split; [done|].
    set (ks := option_list _ ++ _ ++ _) in H.
    assert (forall k, k ∈ ks -> k <> KReadOnly) as Hks.
    { subst ks. intros k. rewrite !elem_of_app. intros [Hk|[Hk|Hk]].
      - destruct (max_by kind_le (omap write_kind kws)) as [k'|] eqn:E; simpl in Hk; [|by apply elem_of_nil in Hk].
        apply list_elem_of_singleton in Hk as ->.
        apply (max_by_spec _ kind_le_total kind_le_trans) in E as [E _].
        apply list_elem_of_omap in E as (w & _ & E). by eapply write_kind_not_read.
      - destruct (has_locking_clause bs s); simpl in Hk; [|by apply elem_of_nil in Hk].
        by apply list_elem_of_singleton in Hk as ->.
      - destruct (calls_a_function bs s has_side_effect); simpl in Hk; [|by apply elem_of_nil in Hk].
        by apply list_elem_of_singleton in Hk as ->. }
    destruct (max_by kind_le ks) as [k|] eqn:E.
    { apply (max_by_spec _ kind_le_total kind_le_trans) in E as [E _]. simpl in H.
      by destruct (Hks _ E). }
    apply max_by_none in E. subst ks. apply app_eq_nil in E as [E1 [E2 E3]%app_eq_nil].
    split_and!.
    + intros w Hw. destruct (write_kind w) as [k|] eqn:Ew; [exfalso|done].
      destruct (max_by kind_le (omap write_kind kws)) eqn:Em; [done|]. apply max_by_none in Em.
      assert (k ∈ omap write_kind kws) as Hk by (apply list_elem_of_omap; eauto).
      rewrite Em in Hk. by apply elem_of_nil in Hk.
    + by destruct (has_locking_clause bs s).
    + by destruct (calls_a_function bs s has_side_effect).
  - intros H. exfalso. case_match; [done|]. destruct (write_kind leading) as [k|] eqn:E; [|done].
    simpl in H. subst. by apply write_kind_not_read in E.
Qed.

(** C4: What a text classified read-only is: it begins with a keyword that reads; it calls no
    function that runs text as SQL; under PostgreSQL it does not touch the encoding; and unless it
    is a [SHOW] or a [DESCRIBE], none of its bare words is a write word (by [words_exact] those are
    all the words of its code), it takes no row lock and calls no function with a side effect. *)
Theorem read_only_holds_no_write (bs : bytes) (l : Lexer) :
  classify_dialect bs l = KReadOnly ->
  exists leading, leading_keyword bs l = Some leading
    /\ calls_a_function bs (surface_of bs l) runs_text_as_sql = false
    /\ (is_postgres l = true -> says leading "SHOW" = false ->
          names_encoding bs (surface_of bs l) = false)
    /\ (one_of leading ["SHOW"; "DESC"; "DESCRIBE"] = true
        \/ one_of leading ["SELECT"; "VALUES"; "TABLE"; "WITH"; "EXPLAIN"] = true
           /\ (forall a e, Word a e ∈ reports bs l -> write_kind (upper (slice bs a e)) = None)
           /\ has_locking_clause bs (surface_of bs l) = false
           /\ calls_a_function bs (surface_of bs l) has_side_effect = false).
Proof.
  unfold classify_dialect. change (scan_leading_keyword (scan_dialect bs l)) with (leading_keyword bs l).
  destruct (calls_a_function bs _ runs_text_as_sql) eqn:E1; [done|].
  destruct (is_postgres l && _ && _) eqn:E2; [done|].
  destruct (leading_keyword bs l) as [leading|] eqn:E3; [|done].
  destruct (negb _ && _ && _) eqn:E4; [done|]. intros Hk. exists leading. split_and!; try done.
  - intros Hp Hs. rewrite Hp, Hs in E2. done.
  - apply starter_read_only in Hk as [Hk|(Hs & Hw & Hl & Hc)]; [by left|right].
    split_and!; try done. intros a e Hr. apply Hw. apply keywords_words. eauto.
Qed.
Lemma read_only_holds_no_write_witness :
  exists leading, leading_keyword (B "SELECT 'DROP' FROM t") MYSQL = Some leading
    /\ calls_a_function (B "SELECT 'DROP' FROM t") (surface_of (B "SELECT 'DROP' FROM t") MYSQL)
         runs_text_as_sql = false
    /\ (is_postgres MYSQL = true -> says leading "SHOW" = false ->
          names_encoding (B "SELECT 'DROP' FROM t") (surface_of (B "SELECT 'DROP' FROM t") MYSQL) = false)
    /\ (one_of leading ["SHOW"; "DESC"; "DESCRIBE"] = true
        \/ one_of leading ["SELECT"; "VALUES"; "TABLE"; "WITH"; "EXPLAIN"] = true
           /\ (forall a e, Word a e ∈ reports (B "SELECT 'DROP' FROM t") MYSQL ->
                 write_kind (upper (slice (B "SELECT 'DROP' FROM t") a e)) = None)
           /\ has_locking_clause (B "SELECT 'DROP' FROM t") (surface_of (B "SELECT 'DROP' FROM t") MYSQL) = false
           /\ calls_a_function (B "SELECT 'DROP' FROM t") (surface_of (B "SELECT 'DROP' FROM t") MYSQL)
                has_side_effect = false).
Proof. apply read_only_holds_no_write. vm_compute. reflexivity. Defined.

(** A statement that can open a stored-program body, one that begins with [CREATE], [ALTER] or
    [BEGIN], runs under no mode but [full], confirmed or not: what the script splitter swallows
    into such a statement cannot slip past Safe Mode. *)
Theorem program_openers_refused (m : SafeMode) (c : bool) (bs : bytes) (l : Lexer) (w : bytes) :
  leading_keyword bs l = Some w -> one_of w ["CREATE"; "ALTER"; "BEGIN"] = true ->
  permitted m c (classify_dialect bs l) = true -> m = MFull.
Proof.
  intros Hl Hw Hp. assert (2 <= kind_rank (classify_dialect bs l)) as Hr.
  { unfold classify_dialect. change (scan_leading_keyword (scan_dialect bs l)) with (leading_keyword bs l).
    rewrite Hl. case_match; [simpl; lia|]. case_match; [simpl; lia|].
    assert (2 <= kind_rank (leading_kind bs w (keywords (scan_dialect bs l)) (surface_of bs l))) as Hk.
    { generalize (keywords (scan_dialect bs l)) (surface_of bs l). intros kws s.
      unfold one_of, existsb in Hw. repeat (apply orb_true_iff in Hw as [Hw|Hw]); [..|done];
        apply bytes_eqb_eq in Hw as ->; vm_compute; lia. }
    case_match; [simpl; lia|done]. }
  unfold permitted in Hp. destruct m; [done|..]; exfalso;
    destruct (classify_dialect bs l); simpl in *; first [done | lia].
Qed.
Lemma program_openers_refused_witness : MFull = MFull.
Proof.
  apply (program_openers_refused MFull false (B "/* x */ create table t (a int)") GENERIC (B "CREATE"));
    vm_compute; reflexivity.
Defined.

(** ** Properties

    The statements of a script are all of it, at their lines.

    The incremental line counter of [classify.rs] agrees with counting from the start of the
    text, and the pieces between the separators, joined by [;], are the script again. *)

(** ** Pieces *)

(** The pieces of a text cut at [seps], from [start] to [end_]. *)
Fixpoint pieces (start : nat) (seps : list nat) (end_ : nat) : list (nat * nat) :=
  match seps with
  | [] => [(start, end_)]
  | s :: seps => (start, s) :: pieces (s + 1) seps end_
  end.

(** A piece as a statement: nothing when it holds no significant byte, else the line counted from
    the start of the text. *)
Definition piece_statement (bs : bytes) (l : Lexer) (p : nat * nat) : option ScriptStatement :=
  k ← first_significant (slice bs p.1 p.2) l;
  Some (MkStatement (line_at bs (p.1 + k)) (trim (slice bs p.1 p.2))).

(** ** First significant bytes *)

Lemma first_significant_lt bs l k :
  first_significant bs l = Some k -> k < length bs.
Proof.
  unfold first_significant. destruct (iter _ _ 0) as [r|] eqn:E; simpl; [|done]. intros ->.
  refine (iter_inv _ (fun _ => True) (fun r => forall k, r = Some k -> k < length bs)
            _ _ _ _ _ I E k eq_refl).
  - done.
  - intros i r _. unfold significant_turn. intros H k' ->.
    destruct (bs !! i) as [b|] eqn:Eb; [|done]. repeat case_match; simplify_eq.
    by eapply lookup_lt_Some.
Qed.

(** ** Lines *)

Lemma newlines_app a b : newlines (a ++ b) = newlines a + newlines b.
Proof. unfold newlines. rewrite filter_app, length_app. done. Qed.

Lemma take_slice (bs : bytes) a b : a <= b -> take b bs = take a bs ++ slice bs a b.
Proof.
  intros H. unfold slice. rewrite take_take_drop. f_equal. lia.
Qed.

(** The counter stands at a line of the text. *)
Definition counter_ok (bs : bytes) (c : LineCounter) : Prop :=
  counter_line c = line_at bs (counter_offset c).

Lemma counter_at_ok bs c offset :
  counter_ok bs c -> counter_offset c <= offset ->
  counter_at bs c offset = (MkCounter offset (line_at bs offset), line_at bs offset).
Proof.
  unfold counter_ok, counter_at, line_at. intros Hc Ho.
  rewrite Hc, (take_slice bs _ _ Ho), newlines_app. f_equal; [f_equal|]; lia.
Qed.

(** One piece: what is pushed, and that the counter stays within the piece. *)
Lemma push_with_line_spec bs l found c start end_ :
  counter_ok bs c -> counter_offset c <= start -> start <= end_ <= length bs ->
  exists c', push_with_line bs l (found, c) start end_
      = (found ++ option_list (piece_statement bs l (start, end_)), c')
    /\ counter_ok bs c' /\ counter_offset c' <= end_.
Proof.
  intros Hc Ho Hle. unfold push_with_line, piece_statement. cbn [fst snd].
  destruct (first_significant (slice bs start end_) l) as [k|] eqn:E;
    cbn [mbind option_bind option_list].
  - apply first_significant_lt in E. rewrite length_slice in E by lia.
    rewrite counter_at_ok by (auto; lia). eexists. split; [done|]. split; [done|]. simpl. lia.
  - exists c. rewrite app_nil_r. split_and!; [done|done|lia].
Qed.

Lemma push_all_spec bs l seps : forall found c start,
  counter_ok bs c -> counter_offset c <= start ->
  StronglySorted lt seps -> Forall (fun s => start <= s < length bs) seps -> start <= length bs ->
  let '(st, start') := foldl (fun st sep => (push_with_line bs l st.1 st.2 sep, sep + 1))
                         ((found, c), start) seps in
  (push_with_line bs l st start' (length bs)).1
  = found ++ omap (piece_statement bs l) (pieces start seps (length bs)).
Proof.
  induction seps as [|s seps IH]; intros found c start Hc Ho Hs Hf Hlen; cbn [foldl pieces].
  - destruct (push_with_line_spec bs l found c start (length bs)) as (c' & -> & _); [auto; lia..|].
    simpl. by destruct (piece_statement bs l _).
  - apply Forall_cons in Hf as [Hs0 Hf]. apply StronglySorted_inv in Hs as [Hss Hall].
    destruct (push_with_line_spec bs l found c start s) as (c' & E & Hc' & Ho'); [auto; lia..|].
    cbn [fst snd]. rewrite E.
    specialize (IH (found ++ option_list (piece_statement bs l (start, s))) c' (s + 1)).
    destruct (foldl _ _ seps) as [st start'] eqn:Ef. rewrite IH; [|done|lia|done| |lia].
    + rewrite <- app_assoc. simpl. f_equal. by destruct (piece_statement bs l (start, s)).
    + rewrite Forall_forall in Hall |- *. rewrite Forall_forall in Hf.
      intros x Hx. specialize (Hall _ Hx). specialize (Hf _ Hx). lia.
Qed.

(** ** The separators of a script *)

Lemma sublist_sorted (l k : list nat) : l `sublist_of` k -> StronglySorted lt k -> StronglySorted lt l.
Proof.
  induction 1 as [|x l k Hs IH|x l k Hs IH]; intros H; [done|..];
    apply StronglySorted_inv in H as [H1 H2]; auto.
  constructor; auto. rewrite Forall_forall in *. intros y Hy. apply H2. exact (elem_of_sublist _ _ _ Hy Hs).
Qed.

Lemma script_separators_ok bs l :
  StronglySorted lt (script_separators bs l)
  /\ Forall (fun s => 0 <= s < length bs /\ bs !! s = Some SEMI) (script_separators bs l).
Proof.
  pose proof (script_separators_sublist bs l) as Hsub.
  destruct (scan_separators_spec l bs) as [Hs Hi]. split; [exact (sublist_sorted _ _ Hsub Hs)|].
  apply Forall_forall. intros s Hin. pose proof (elem_of_sublist _ _ _ Hin Hsub) as Hin'.
  apply Hi in Hin' as [Hb _]. pose_lookup_lt. split; [lia|done].
Qed.

(** The statements of a script are its pieces: cut at the script's separators, a piece that holds
    nothing significant left out, each one trimmed and at the line of its first significant byte
    counted from the start of the script.  (The code counts lines piece by piece.) *)
Theorem statements_are_the_pieces (bs : bytes) (l : Lexer) :
  statements_with_lines_dialect bs l
  = if has_significant_text_dialect bs l
    then omap (piece_statement bs l) (pieces 0 (script_separators bs l) (length bs))
    else [].
Proof.
  unfold statements_with_lines_dialect. destruct (has_significant_text_dialect bs l); [|done].
  cbn [negb]. destruct (script_separators_ok bs l) as [Hs Hf].
  pose proof (push_all_spec bs l (script_separators bs l) [] counter_new 0) as H.
  unfold push_separators. destruct (foldl _ _ (script_separators bs l)) as [st start].
  rewrite H; [done|done|simpl; lia|done| |lia].
  eapply Forall_impl; [exact Hf|]. intros s [? _]. done.
Qed.

Lemma join_cons sep x l : l <> [] -> join_sep sep (x :: l) = x ++ sep ++ join_sep sep l.
Proof. by destruct l. Qed.

(** No byte of a script is lost between its statements: the pieces, joined by [;], are the
    script. *)
Theorem pieces_join (bs : bytes) (l : Lexer) :
  join_sep [SEMI] ((fun p => slice bs p.1 p.2) <$> pieces 0 (script_separators bs l) (length bs)) = bs.
Proof.
  destruct (script_separators_ok bs l) as [Hs Hf].
  assert (forall seps start, StronglySorted lt seps ->
            Forall (fun s => start <= s < length bs /\ bs !! s = Some SEMI) seps ->
            start <= length bs ->
            join_sep [SEMI] ((fun p => slice bs p.1 p.2) <$> pieces start seps (length bs)) = drop start bs)
    as Hj; [|by apply Hj; first [done|lia]].
  clear Hs Hf. induction seps as [|s seps IH]; intros start Hs Hf Hlen; cbn [pieces fmap list_fmap].
  - cbn [join_sep fst snd]. unfold slice. apply take_ge. rewrite length_drop. lia.
  - apply Forall_cons in Hf as [[Hs0 Hb] Hf]. apply StronglySorted_inv in Hs as [Hss Hall].
    assert (Hf' : Forall (fun x => s + 1 <= x < length bs /\ bs !! x = Some SEMI) seps).
    { rewrite Forall_forall in *. intros x Hx. specialize (Hall _ Hx).
      destruct (Hf _ Hx). split; [lia|done]. }
    rewrite join_cons by (by destruct seps). rewrite (IH (s + 1) Hss Hf') by lia. cbn [fst snd app].
    rewrite <- (drop_lookup_cons bs s SEMI Hb).
    unfold slice. replace s with (start + (s - start)) at 2 by lia.
    rewrite <- drop_drop. apply take_drop.
Qed.
