(* ===== verification/Wrap.v ===== *)
(** * Wrap: peeling the terminator and the [count] wrapper, [crates/qh-sql/src/wrap.rs]. *)
From S2P Require Import Prelude Bytes Text Scan ScanFacts ScanSpec.

Inductive SqlError :=
| Blank
| MultipleStatements (count : nat)
| NotASelect (keyword : bytes).

Definition strip_suffix (s : bytes) (b : Z) : option bytes :=
  match last s with
  | Some c => if c =b b then Some (take (length s - 1) s) else None
  | None => None
  end.

Definition drop_trailing_terminator (text : bytes) : bytes :=
  let trimmed := trim text in
  match strip_suffix trimmed SEMI with Some without => trim_end without | None => trimmed end.

Definition strip_terminator_dialect (sql : bytes) (l : Lexer) : bytes :=
  let trimmed := trim sql in
  let sc := scan_dialect trimmed l in
  match separators sc with
  | [] => if ends_with_terminator sc then drop_trailing_terminator trimmed else trimmed
  | first_separator :: _ =>
      let head := take first_separator trimmed in
      let rest := drop (first_separator + 1) trimmed in
      if has_significant_text_dialect rest l then trimmed
      else
        let rest := drop_trailing_terminator rest in
        let head := trim_end head in
        let rest := trim rest in
        match rest with [] => head | _ => head ++ [SP] ++ rest end
  end.
Definition strip_terminator (sql : bytes) : bytes := strip_terminator_dialect sql GENERIC.

Definition COUNT_PREFIX : bytes := B "SELECT COUNT(*) FROM (".
Definition COUNT_SUFFIX : bytes := [LF] ++ B ") AS queryhive_count".

Definition count_statement_dialect (sql : bytes) (l : Lexer) : SqlError + bytes :=
  let trimmed := trim sql in
  let sc := scan_dialect trimmed l in
  let count := statement_count_dialect trimmed sc l in
  if count =? 0 then inl Blank
  else if 1 <? count then inl (MultipleStatements count)
  else match scan_leading_keyword sc with
       | Some keyword =>
           if bytes_eqb keyword (B "SELECT") || bytes_eqb keyword (B "WITH") then
             inr (COUNT_PREFIX ++ strip_terminator_dialect trimmed l ++ COUNT_SUFFIX)
           else inl (NotASelect keyword)
       | None => inl Blank
       end.
Definition count_statement (sql : bytes) : SqlError + bytes := count_statement_dialect sql GENERIC.

(** ** What the wrapper accepts *)

Lemma statement_count_one bs l :
  statement_count_dialect bs (scan_dialect bs l) l = 1 ->
  length (separators (scan_dialect bs l)) <= 1
  /\ (length (separators (scan_dialect bs l)) = 1 -> ends_with (trim_end bs) SEMI = true).
Proof.
  unfold statement_count_dialect. case_match; [done|].
  destruct (separators (scan_dialect bs l)) as [|s ss] eqn:E; [simpl; lia|].
  cbn [scan_dialect ends_with_terminator]. destruct (ends_with (trim_end bs) SEMI); simpl; lia.
Qed.

(** [count_statement] wraps a text only when it begins with [SELECT] or [WITH], holds something
    significant and has at most one separator, in which case the text ends in a [;]; what it
    sends is then the text less its terminator between a fixed opening and a closing parenthesis
    on a line of its own. Every other text is an error, and the error says which test failed. *)
Theorem count_statement_cases (sql : bytes) (l : Lexer) :
  let t := trim sql in
  let seps := length (separators (scan_dialect t l)) in
  match count_statement_dialect sql l with
  | inr wrapped =>
      wrapped = COUNT_PREFIX ++ strip_terminator_dialect t l ++ COUNT_SUFFIX
      /\ has_significant_text_dialect t l = true
      /\ (leading_keyword t l = Some (B "SELECT") \/ leading_keyword t l = Some (B "WITH"))
      /\ seps <= 1 /\ (seps = 1 -> ends_with (trim_end t) SEMI = true)
  | inl Blank => has_significant_text_dialect t l = false \/ leading_keyword t l = None
  | inl (MultipleStatements count) => 1 < count /\ count <= seps + 1
  | inl (NotASelect keyword) =>
      leading_keyword t l = Some keyword /\ keyword <> B "SELECT" /\ keyword <> B "WITH"
  end.
Proof.
  intros t seps. unfold count_statement_dialect. fold t.
  destruct (_ =? 0) eqn:E0.
  { left. split_bool. unfold statement_count_dialect in E0.
    destruct (has_significant_text_dialect t l); [|done]. cbn [negb] in E0.
    destruct (separators (scan_dialect t l)); repeat case_match; simpl in *; lia. }
  destruct (1 <? _) eqn:E1.
  { split_bool. split; [done|]. unfold seps, statement_count_dialect.
    repeat case_match; simpl; lia. }
  split_bool. assert (statement_count_dialect t (scan_dialect t l) l = 1) as E by lia.
  destruct (statement_count_one _ _ E) as [Hs1 Hs2].
  change (scan_leading_keyword (scan_dialect t l)) with (leading_keyword t l).
  destruct (leading_keyword t l) as [k|]; [|by right].
  destruct (bytes_eqb k (B "SELECT")) eqn:E2; [|destruct (bytes_eqb k (B "WITH")) eqn:E3]; cbn [orb].
  - apply bytes_eqb_eq in E2 as ->. split_and!; auto. unfold statement_count_dialect in E.
    by destruct (has_significant_text_dialect t l).
  - apply bytes_eqb_eq in E3 as ->. split_and!; auto. unfold statement_count_dialect in E.
    by destruct (has_significant_text_dialect t l).
  - split_and!; [done|intros ->; by rewrite bytes_eqb_refl in E2|intros ->; by rewrite bytes_eqb_refl in E3].
Qed.

(** A trailing comment that ends in [;] is taken for the last statement's terminator: two
    statements are counted as one and wrapped together. *)
Example count_accepts_two_statements :
  separators (scan (B "SELECT 1; SELECT 2 -- x;")) = [8]
  /\ count_statement (B "SELECT 1; SELECT 2 -- x;")
     = inr (B "SELECT COUNT(*) FROM (SELECT 1; SELECT 2 -- x;" ++ [LF] ++ B ") AS queryhive_count").
Proof. split; vm_compute; reflexivity. Qed.

(** Three terminators leave one behind. *)
Example strip_leaves_a_separator :
  strip_terminator (B "SELECT 1;;;") = B "SELECT 1 ;"
  /\ strip_terminator (strip_terminator (B "SELECT 1;;;")) = B "SELECT 1".
Proof. split; vm_compute; reflexivity. Qed.
