(* ===== verification/Directive.v ===== *)
(** * Directive: the lines of a script no server can run, the second half of
    [crates/qh-sql/src/script.rs].

    [DELIMITER] lines (MySQL), psql's backslash commands and [COPY ... FROM STDIN] (PostgreSQL). *)
From S2P Require Import Prelude Bytes Text Scan ScanFacts ScanSpec Script Classify.

Record ScriptRefusal := MkRefusal { refusal_line : nat; directive : bytes; reason : bytes }.

(** [leading_word] *)
Definition leading_word (s : bytes) : bytes :=
  take (default (length s)
          (position (fun b => negb (is_ascii_alphanumeric b || (b =b UNDERSCORE))) s)) s.

(** The [Delimiter] visitor. *)
Definition starts_line (bs : bytes) (start : nat) : bool :=
  let back := rev (take start bs) in
  forallb is_ascii_whitespace (take (count_while (fun b => negb (b =b LF)) back) back).
Definition delimiter_visit (bs : bytes) (found : option nat) (r : Report) : option nat :=
  match r, found with
  | Word start end_, None =>
      if eq_ignore_ascii_case (slice bs start end_) (B "DELIMITER") && starts_line bs start
      then Some start else None
  | _, _ => found
  end.
Definition first_delimiter_line (bs : bytes) (l : Lexer) : option nat :=
  foldl (delimiter_visit bs) None (reports bs l).

(** The [Backslash] visitor: [pos] and [found]. *)
Definition backslash_take (bs : bytes) (st : nat * option nat) (upto resume : nat)
  : nat * option nat :=
  let '(pos, found) := st in
  (resume, match found with
           | Some _ => found
           | None => (fun at_ => pos + at_) <$> position (Z.eqb BACKSLASH) (slice bs pos upto)
           end).
Definition backslash_visit (bs : bytes) (st : nat * option nat) (r : Report) : nat * option nat :=
  match r with
  | Separator at_ => backslash_take bs st at_ (at_ + 1)
  | Opaque _ start end_ => backslash_take bs st start end_
  | Word start end_ => backslash_take bs st start end_
  end.
Definition first_backslash (bs : bytes) (l : Lexer) : option nat :=
  let st := foldl (backslash_visit bs) (0, None) (reports bs l) in
  (backslash_take bs st (length bs) (length bs)).2.

(** [chars().take_while(|c| !c.is_whitespace())] *)
Fixpoint until_ws (s : bytes) : bytes :=
  match s with
  | [] => []
  | b :: r => if ws_len s =? 0 then b :: until_ws r else []
  end.

Definition DELIMITER_REASON : bytes :=
  B "`DELIMITER` is a mysql client command, not SQL. The server rejects it, and this import does not honour it, so a routine body that relies on it would be cut at its own `;` and sent in pieces. Load the file with the mysql client, or remove the DELIMITER lines and end each routine with a single `;`. Any line that starts with the word is refused, a column named `delimiter` included; write it in backticks".
Definition backslash_reason (name : bytes) : bytes :=
  B "`" ++ name ++ B "` is a psql meta-command, not SQL. The server cannot run it, so this import refuses the file before connecting. Remove the line, or load the file with psql".
Definition COPY_DIRECTIVE : bytes := B "COPY … FROM STDIN".
Definition COPY_REASON : bytes :=
  B "`COPY … FROM STDIN` reads its rows from the client's input stream, which the lines after it in a file are not. An import cannot supply them. Use `\copy` in psql, or export the table as CSV and import that".

Fixpoint from_stdin (keywords : list bytes) : bool :=
  match keywords with
  | a :: ((b :: _) as rest) => (says a "FROM" && says b "STDIN") || from_stdin rest
  | _ => false
  end.

Definition copies_stdin (l : Lexer) (text : bytes) : bool :=
  match first_significant text l with
  | Some at_ => eq_ignore_ascii_case (leading_word (drop at_ text)) (B "COPY")
  | None => false
  end && from_stdin (keywords (scan_dialect text l)).

Definition copy_statement (bs : bytes) (l : Lexer) : option ScriptStatement :=
  find_map (fun s => if copies_stdin l (text s) then Some s else None)
    (statements_with_lines_dialect bs l).

Definition client_directive (bs : bytes) (l : Lexer) : option ScriptRefusal :=
  if is_mysql l then
    offset ← first_delimiter_line bs l;
    Some (MkRefusal (line_at bs offset) (B "DELIMITER") DELIMITER_REASON)
  else if negb (is_postgres l) then None
  else
    let backslash :=
      offset ← first_backslash bs l;
      let name := (take_chars 32 (until_ws (drop offset bs))).1 in
      Some (MkRefusal (line_at bs offset) name (backslash_reason name)) in
    let copy :=
      s ← copy_statement bs l; Some (MkRefusal (line s) COPY_DIRECTIVE COPY_REASON) in
    match backslash, copy with
    | Some b, Some c => if refusal_line c <? refusal_line b then Some c else Some b
    | Some b, None => Some b
    | None, c => c
    end.

(** ** Positions *)

Lemma position_some p s i :
  position p s = Some i ->
  (exists b, s !! i = Some b /\ p b = true) /\ forall j b, j < i -> s !! j = Some b -> p b = false.
Proof.
  revert i; induction s as [|x s IH]; intros i; simpl; [done|]. destruct (p x) eqn:E.
  - intros [= <-]. split; [by exists x|lia].
  - intros (k & Hk & ->)%fmap_Some_1. destruct (IH _ Hk) as [H1 H2]. split; [done|].
    intros [|j] b Hj; simpl; [by intros [= ->]|]. apply H2. lia.
Qed.

Lemma position_none p s : position p s = None -> forall j b, s !! j = Some b -> p b = false.
Proof.
  induction s as [|x s IH]; simpl; [done|]. destruct (p x) eqn:E; [done|].
  intros H%fmap_None [|j] b; simpl; [by intros [= ->]|]. by apply IH.
Qed.

Lemma slice_position p (bs : bytes) a b :
  b <= length bs ->
  match position p (slice bs a b) with
  | Some k => a + k < b /\ (exists c, bs !! (a + k) = Some c /\ p c = true)
              /\ forall j c, a <= j < a + k -> bs !! j = Some c -> p c = false
  | None => forall j c, a <= j < b -> bs !! j = Some c -> p c = false
  end.
Proof.
  intros Hb. destruct (position p (slice bs a b)) as [k|] eqn:E.
  - apply position_some in E as [(c & Hc & Hp) Hmin].
    assert (k < b - a) as Hk.
    { pose_lookup_lt. unfold slice in *. rewrite length_take, length_drop in *. lia. }
    rewrite slice_lookup in Hc by done. split_and!; [lia|by exists c|].
    intros j d Hj Hd. apply (Hmin (j - a) d); [lia|]. rewrite slice_lookup by lia.
    by replace (a + (j - a)) with j by lia.
  - intros j d Hj Hd. apply (position_none _ _ E (j - a)). rewrite slice_lookup by lia.
    by replace (a + (j - a)) with j by lia.
Qed.

(** ** The first backslash of the code *)

Section Backslash.
Context (bs : bytes) (l : Lexer).

Definition in_report (rs : list Report) (i : nat) : Prop := exists r, r ∈ rs /\ in_range rep_start rep_end r i.

(** What is known when everything up to [upto] has been taken: the least backslash outside the
    reports, if one was seen. *)
Definition least (rs : list Report) (upto : nat) (found : option nat) : Prop :=
  match found with
  | Some i => bs !! i = Some BACKSLASH /\ ~ in_report rs i
              /\ forall j, j < i -> bs !! j = Some BACKSLASH -> in_report rs j
  | None => forall j, j < upto -> bs !! j = Some BACKSLASH -> in_report rs j
  end.

Lemma take_least rs pos found upto resume :
  upto <= length bs -> pos <= upto ->
  (forall j, pos <= j < upto -> ~ in_report rs j) ->
  least rs pos found -> least rs upto (backslash_take bs (pos, found) upto resume).2.
Proof.
  intros Hu Hp Hno Hl. unfold backslash_take. destruct found as [i|]; [done|]. cbn [snd].
  pose proof (slice_position (Z.eqb BACKSLASH) bs pos upto Hu) as H.
  destruct (position _ _) as [k|]; cbn [fmap option_fmap option_map] in *.
  - destruct H as (Hk & (c & Hc & He) & Hmin). apply Z.eqb_eq in He as <-. split_and!; [done| |].
    + apply Hno. lia.
    + intros j Hj Hb. destruct (decide (j < pos)); [by apply Hl|].
      specialize (Hmin j _ ltac:(lia) Hb). by rewrite Z.eqb_refl in Hmin.
  - intros j Hj Hb. destruct (decide (j < pos)); [by apply Hl|].
    specialize (H j _ ltac:(lia) Hb). by rewrite Z.eqb_refl in H.
Qed.

Lemma visit_take st r :
  backslash_visit bs st r = backslash_take bs st (rep_start r) (rep_end r).
Proof. by destruct r. Qed.

(** The fold over the reports, started at [lo] with what was taken before. *)
Lemma visits_least rs all : forall lo found,
  ranges rep_start rep_end lo rs (length bs) ->
  (forall j, lo <= j -> in_report all j -> in_report rs j) ->
  (forall j, in_report rs j -> in_report all j) ->
  least all lo found ->
  let st := foldl (backslash_visit bs) (lo, found) rs in
  least all (length bs) (backslash_take bs st (length bs) (length bs)).2.
Proof.
  induction rs as [|r rs IH]; intros lo found Hr Hsub Hsup Hl; cbn [foldl].
  - simpl in Hr. apply take_least; [done|done| |done].
    intros j Hj Hin. apply Hsub in Hin as (r & Hin & _); [by apply elem_of_nil in Hin|lia].
  - destruct Hr as (H1 & H2 & H3). pose proof (ranges_le _ _ _ _ _ H3) as Hle.
    rewrite visit_take. destruct (backslash_take bs (lo, found) (rep_start r) (rep_end r)) as [pos f] eqn:E.
    assert (pos = rep_end r) as -> by (unfold backslash_take in E; by simplify_eq).
    assert (least all (rep_start r) f) as Hf.
    { replace f with ((backslash_take bs (lo, found) (rep_start r) (rep_end r)).2) by (by rewrite E).
      apply take_least; [lia|lia| |done].
      intros j Hj Hin. apply Hsub in Hin as (q & Hq & Hc); [|lia].
      apply elem_of_cons in Hq as [->|Hq]; unfold in_range in Hc; [lia|].
      pose proof (ranges_bounds _ _ _ _ _ _ H3 Hq). lia. }
    apply IH; [done|..].
    + intros j Hj Hin. apply Hsub in Hin as (q & Hq & Hc); [|lia]. exists q. split; [|done].
      apply elem_of_cons in Hq as [->|Hq]; [|done]. unfold in_range in Hc. lia.
    + intros j (q & Hq & Hc). apply Hsup. exists q. split; [by apply elem_of_cons; right|done].
    + destruct f as [i|]; [done|]. intros j Hj Hb. destruct (decide (j < rep_start r)).
      * by apply Hf.
      * apply Hsup. exists r. split; [by left|]. unfold in_range. lia.
Qed.

Lemma backslash_in_opaque i : bs !! i = Some BACKSLASH -> in_report (reports bs l) i -> in_opaque bs l i.
Proof.
  intros Hb (r & Hr & Hc). pose proof (report_ok_of _ _ _ Hr) as Hok. unfold in_range in Hc.
  destruct r as [j|k s e|s e]; simpl in *.
  - replace i with j in * by lia. congruence.
  - by exists k, s, e.
  - destruct Hok as (_ & Hw & _). destruct (Hw i Hc) as (b & Hb' & Hcont). simplify_eq.
    unfold is_ident_cont in Hcont. byte_unfold. simpl in Hcont. by rewrite andb_false_r in Hcont.
Qed.
End Backslash.

(** The refusal of psql commands finds the first backslash that is syntax: the least offset of a
    [\ ] outside every string, quoted name and comment, and none when every backslash is text. *)
Theorem first_backslash_spec (bs : bytes) (l : Lexer) :
  match first_backslash bs l with
  | Some i => bs !! i = Some BACKSLASH /\ ~ in_opaque bs l i
              /\ forall j, j < i -> bs !! j = Some BACKSLASH -> in_opaque bs l j
  | None => forall j, bs !! j = Some BACKSLASH -> in_opaque bs l j
  end.
Proof.
  destruct (reports_wf bs l) as (Hc & _ & _).
  assert (least bs (reports bs l) 0 None) as H0 by (intros j ?; lia).
  pose proof (visits_least bs (reports bs l) (reports bs l) 0 None Hc
    (fun _ _ H => H) (fun _ H => H) H0) as H.
  unfold first_backslash. cbv zeta in H. destruct (backslash_take _ _ _ _).2 as [i|].
  - destruct H as (Hb & Hno & Hmin). split_and!; [done| |].
    + intros (k & s & e & Hr & Hi). apply Hno. exists (Opaque k s e). by split.
    + intros j Hj Hbj. apply backslash_in_opaque; auto.
  - intros j Hj. apply backslash_in_opaque; [done|]. apply H; [by eapply lookup_lt_Some|done].
Qed.

Lemma delimiter_fold bs rs :
  match foldl (delimiter_visit bs) None rs with
  | Some i => exists e r1 r2, rs = r1 ++ Word i e :: r2
      /\ eq_ignore_ascii_case (slice bs i e) (B "DELIMITER") && starts_line bs i = true
      /\ foldl (delimiter_visit bs) None r1 = None
  | None => forall s e, Word s e ∈ rs ->
      eq_ignore_ascii_case (slice bs s e) (B "DELIMITER") && starts_line bs s = false
  end.
Proof.
  induction rs as [|r rs IH] using rev_ind; [intros s e H; by apply elem_of_nil in H|].
  rewrite foldl_snoc. destruct (foldl (delimiter_visit bs) None rs) as [i|] eqn:E.
  - destruct IH as (e & r1 & r2 & -> & H1 & H2). simpl.
    replace (delimiter_visit bs (Some i) r) with (Some i) by (by destruct r).
    exists e, r1, (r2 ++ [r]). by rewrite <- app_assoc.
  - destruct r as [|k s e|s e]; simpl.
    1,2: intros s' e' [H|H]%elem_of_app; [by apply IH|by apply list_elem_of_singleton in H].
    destruct (_ && _) eqn:Ew.
    + exists e, rs, []. by rewrite E.
    + intros s' e' [H|H]%elem_of_app; [by apply IH|]. apply list_elem_of_singleton in H. by simplify_eq.
Qed.

(** A MySQL script is refused at its first line whose first token is the bare word [DELIMITER]
    (in any case, outside strings, comments and quoted names), and is not when there is none. *)
Theorem delimiter_refusal (bs : bytes) (l : Lexer) :
  is_mysql l = true ->
  let opens_line s e :=
    eq_ignore_ascii_case (slice bs s e) (B "DELIMITER") && starts_line bs s = true in
  match client_directive bs l with
  | Some r => exists s e before after, reports bs l = before ++ Word s e :: after
      /\ opens_line s e /\ refusal_line r = line_at bs s /\ directive r = B "DELIMITER"
      /\ (forall s' e', Word s' e' ∈ before -> ~ opens_line s' e')
  | None => forall s e, Word s e ∈ reports bs l -> ~ opens_line s e
  end.
Proof.
  intros Hm. cbv zeta. unfold client_directive. rewrite Hm. unfold first_delimiter_line.
  pose proof (delimiter_fold bs (reports bs l)) as H.
  destruct (foldl _ None (reports bs l)) as [i|]; simpl.
  - destruct H as (e & r1 & r2 & Hr & Hw & Hn). exists i, e, r1, r2. split_and!; try done.
    intros s' e' Hin Hc. pose proof (delimiter_fold bs r1) as H. rewrite Hn in H.
    specialize (H _ _ Hin). congruence.
  - intros s e Hin Hc. specialize (H _ _ Hin). congruence.
Qed.
(** [USE db] without a [;], then [delimiter //]. *)
Definition delimiter_sample : bytes := B "USE db" ++ [LF] ++ B "delimiter //".
Lemma delimiter_refusal_witness :
  match client_directive delimiter_sample MYSQL with
  | Some r => exists s e before after, reports delimiter_sample MYSQL = before ++ Word s e :: after
      /\ eq_ignore_ascii_case (slice delimiter_sample s e) (B "DELIMITER")
         && starts_line delimiter_sample s = true
      /\ refusal_line r = line_at delimiter_sample s /\ directive r = B "DELIMITER"
      /\ (forall s' e', Word s' e' ∈ before ->
            ~ eq_ignore_ascii_case (slice delimiter_sample s' e') (B "DELIMITER")
              && starts_line delimiter_sample s' = true)
  | None => False
  end.
Proof. exact (delimiter_refusal delimiter_sample MYSQL eq_refl). Defined.
