(* ===== verification/ExecLog.v ===== *)
(** * ExecLog: the chained execution log, [crates/qh-storage/src/execution_log.rs].

    A row's chain hash covers its fields and the hash of the row before it.  SHA-256, the writer of
    serde_json, the identity generator and whether SQLite accepts a write are parameters; the
    table is the list of its rows as both queries order it, by [seq]. *)
From stdpp Require Import countable.
From S2P Require Import Prelude Bytes Text.

(** What the engine needs of a log: an append that may fail, and the decisions stored so far. *)
Record NewExecution := MkNew {
  ne_safe_mode : bytes;
  ne_decision : bytes;
  ne_statement_kind : bytes;
  ne_statement_index : Z;
  ne_statement : bytes;
  ne_reason : option bytes;
  ne_at : Z;
}.

#[export] Instance NewExecution_eq_dec : EqDecision NewExecution.
Proof. solve_decision. Defined.

(** What a row says of the decision it records (the statement itself is only hashed). *)
Record Stored := MkStored {
  st_safe_mode : bytes;
  st_decision : bytes;
  st_kind : bytes;
  st_index : Z;
  st_reason : option bytes;
}.
Definition stored (e : NewExecution) : Stored :=
  MkStored (ne_safe_mode e) (ne_decision e) (ne_statement_kind e) (ne_statement_index e) (ne_reason e).

Class ExecutionStore (S : Type) := {
  es_append : S -> NewExecution -> option S;
  es_rows : S -> list Stored;
  es_append_rows : forall s e s', es_append s e = Some s' -> es_rows s' = es_rows s ++ [stored e];
}.

(** ** The chain *)

Record ExecutionRecord := MkRecord {
  er_seq : Z;
  er_id : bytes;
  er_at : Z;
  er_safe_mode : bytes;
  er_decision : bytes;
  er_statement_kind : bytes;
  er_statement_index : Z;
  er_statement_hash : bytes;
  er_reason : option bytes;
  er_prev_hash : bytes;
  er_chain_hash : bytes;
}.

Record ChainFields := MkFields {
  cf_id : bytes;
  cf_at : Z;
  cf_safe_mode : bytes;
  cf_decision : bytes;
  cf_statement_kind : bytes;
  cf_statement_index : Z;
  cf_statement_hash : bytes;
  cf_reason : option bytes;
  cf_prev_hash : bytes;
}.

Definition GENESIS : bytes := B "genesis".

(** The scalars of [serde_json::Value] a payload is made of, and the payload [chain_hash] builds: the
    fields in their order, an absent reason as [null]. *)
Inductive JsonScalar := SString (s : bytes) | SInteger (n : Z) | SNull.
#[export] Instance JsonScalar_eq_dec : EqDecision JsonScalar.
Proof. solve_decision. Defined.
Definition of_option (s : option bytes) : JsonScalar := match s with Some s => SString s | None => SNull end.
Definition chain_payload (f : ChainFields) : list JsonScalar :=
  [SString (cf_id f); SInteger (cf_at f); SString (cf_safe_mode f); SString (cf_decision f); SString (cf_statement_kind f);
   SInteger (cf_statement_index f); SString (cf_statement_hash f); of_option (cf_reason f); SString (cf_prev_hash f)].
Lemma chain_payload_inj f f' : chain_payload f = chain_payload f' -> f = f'.
Proof. destruct f as [? ? ? ? ? ? ? r ?], f' as [? ? ? ? ? ? ? r' ?]. unfold chain_payload; cbn. intros [=]. subst. f_equal. destruct r, r'; cbn in *; congruence. Qed.

Inductive ChainError := BrokenExecutionChain (seq : Z) (expected found : bytes).

(** The fields of a stored row, as [verify_execution_log] passes them. *)
Definition fields_of (r : ExecutionRecord) : ChainFields :=
  MkFields (er_id r) (er_at r) (er_safe_mode r) (er_decision r) (er_statement_kind r)
    (er_statement_index r) (er_statement_hash r) (er_reason r) (er_prev_hash r).

Definition stored_of (r : ExecutionRecord) : Stored :=
  MkStored (er_safe_mode r) (er_decision r) (er_statement_kind r) (er_statement_index r) (er_reason r).

(** The table, and what the environment answers: the next identity, the row number SQLite gives,
    and whether the transaction goes through. *)
Record Storage := MkStorage {
  sto_rows : list ExecutionRecord;
  sto_next_id : bytes;
  sto_next_seq : Z;
  sto_writable : bool;
  sto_env : nat -> bytes * Z * bool;
}.

Section Chain.
Context (sha256_hex : bytes -> bytes) (to_vec : list JsonScalar -> bytes).

Definition hash_statement (sql : bytes) : bytes := sha256_hex sql.
Definition chain_hash (f : ChainFields) : bytes := sha256_hex (to_vec (chain_payload f)).

Definition last_hash (rows : list ExecutionRecord) : bytes :=
  match last rows with Some r => er_chain_hash r | None => GENESIS end.

Definition chained (prev id : bytes) (seq : Z) (e : NewExecution) : ExecutionRecord :=
  let statement_hash := hash_statement (ne_statement e) in
  let f := MkFields id (ne_at e) (ne_safe_mode e) (ne_decision e) (ne_statement_kind e)
             (ne_statement_index e) statement_hash (ne_reason e) prev in
  MkRecord seq id (ne_at e) (ne_safe_mode e) (ne_decision e) (ne_statement_kind e)
    (ne_statement_index e) statement_hash (ne_reason e) prev (chain_hash f).

(** [append_execution]: one immediate transaction, so the read of the tail and the write are one
    step. *)
Definition append_execution (s : Storage) (e : NewExecution) : option (Storage * ExecutionRecord) :=
  if sto_writable s then
    let record := chained (last_hash (sto_rows s)) (sto_next_id s) (sto_next_seq s) e in
    let '(id, seq, ok) := sto_env s (length (sto_rows s)) in
    Some (MkStorage (sto_rows s ++ [record]) id seq ok (sto_env s), record)
  else None.

(** One turn of the loop of [verify_execution_log]. *)
Definition verify_row (st : bytes * nat) (r : ExecutionRecord) : ChainError + (bytes * nat) :=
  let '(expected_prev, verified) := st in
  if negb (bytes_eqb (er_prev_hash r) expected_prev) then
    inl (BrokenExecutionChain (er_seq r) expected_prev (er_prev_hash r))
  else
    let expected := chain_hash (fields_of r) in
    if negb (bytes_eqb expected (er_chain_hash r)) then
      inl (BrokenExecutionChain (er_seq r) expected (er_chain_hash r))
    else inr (er_chain_hash r, verified + 1).

Fixpoint verify_rows (st : bytes * nat) (rows : list ExecutionRecord) : ChainError + nat :=
  match rows with
  | [] => inr st.2
  | r :: rows => match verify_row st r with inl e => inl e | inr st => verify_rows st rows end
  end.
Definition verify_execution_log (rows : list ExecutionRecord) : ChainError + nat :=
  verify_rows (GENESIS, 0) rows.

(** The most recent rows, newest first. *)
Definition execution_log (s : Storage) (limit : nat) : list ExecutionRecord :=
  take limit (rev (sto_rows s)).

(** ** What verifies *)

(** The chain as a property of the rows. *)
Fixpoint chain_ok (prev : bytes) (rows : list ExecutionRecord) : Prop :=
  match rows with
  | [] => True
  | r :: rows =>
      er_prev_hash r = prev /\ er_chain_hash r = chain_hash (fields_of r)
      /\ chain_ok (er_chain_hash r) rows
  end.

Lemma verify_row_ok prev n r :
  verify_row (prev, n) r = inr (er_chain_hash r, n + 1)
  <-> er_prev_hash r = prev /\ er_chain_hash r = chain_hash (fields_of r).
Proof.
  unfold verify_row. destruct (bytes_eqb (er_prev_hash r) prev) eqn:E1; cbn [negb].
  - apply bytes_eqb_eq in E1. destruct (bytes_eqb _ _) eqn:E2; cbn [negb].
    + apply bytes_eqb_eq in E2. done.
    + split; [done|]. intros [_ H]. rewrite H in E2. by rewrite bytes_eqb_refl in E2.
  - split; [done|]. intros [H _]. subst. by rewrite bytes_eqb_refl in E1.
Qed.

Lemma verify_row_cases prev n r :
  verify_row (prev, n) r = inr (er_chain_hash r, n + 1) \/ exists e, verify_row (prev, n) r = inl e.
Proof. unfold verify_row. repeat case_match; eauto. Qed.

Lemma verify_rows_ok prev n rows m :
  verify_rows (prev, n) rows = inr m <-> chain_ok prev rows /\ m = n + length rows.
Proof.
  revert prev n m; induction rows as [|r rows IH]; intros prev n m;
    cbn [verify_rows chain_ok length].
  - split; [intros [= <-]; simpl; split; [done|lia]|intros [_ ->]; simpl; f_equal; lia].
  - destruct (verify_row_cases prev n r) as [E|[e E]]; rewrite E.
    + apply verify_row_ok in E as [? ?]. rewrite IH. split; [intros [? ->]|intros [(_ & _ & ?) ->]];
        split_and!; auto; lia.
    + split; [done|]. intros [(H1 & H2 & _) _].
      by rewrite (proj2 (verify_row_ok prev n r) (conj H1 H2)) in E.
Qed.

Lemma chain_ok_snoc prev rows r :
  chain_ok prev (rows ++ [r])
  <-> chain_ok prev rows /\ er_prev_hash r = match last rows with Some x => er_chain_hash x | None => prev end
      /\ er_chain_hash r = chain_hash (fields_of r).
Proof.
  revert prev; induction rows as [|x rows IH]; intros prev; [simpl; tauto|].
  cbn [app chain_ok]. rewrite IH, last_cons. destruct (last rows); tauto.
Qed.
End Chain.

(** ** The table as a store of decisions *)

#[export] Instance storage_store (sha256_hex : bytes -> bytes) (to_vec : list JsonScalar -> bytes)
  : ExecutionStore Storage.
Proof.
  refine {| es_append s e := fst <$> append_execution sha256_hex to_vec s e;
            es_rows s := stored_of <$> sto_rows s |}.
  intros s e s'. unfold append_execution. destruct (sto_writable s); [|done].
  destruct (sto_env s _) as [[id seq] ok]. intros [= <-]. simpl. by rewrite fmap_app.
Defined.

(** Appending to a log that verifies gives a log that verifies, one row longer: a chain written
    only through [append_execution] always checks. *)
Theorem append_keeps_chain (sha256_hex : bytes -> bytes) (to_vec : list JsonScalar -> bytes)
  (s : Storage) (e : NewExecution) (s' : Storage) (r : ExecutionRecord) (n : nat) :
  verify_execution_log sha256_hex to_vec (sto_rows s) = inr n ->
  append_execution sha256_hex to_vec s e = Some (s', r) ->
  verify_execution_log sha256_hex to_vec (sto_rows s') = inr (n + 1)
  /\ sto_rows s' = sto_rows s ++ [r] /\ stored_of r = stored e.
Proof.
  unfold verify_execution_log. rewrite verify_rows_ok. intros [Hc ->].
  unfold append_execution. destruct (sto_writable s); [|done].
  destruct (sto_env s _) as [[id seq] ok]. intros [= <- <-]. cbn [sto_rows].
  split; [|done]. rewrite verify_rows_ok, chain_ok_snoc, length_app. split; [|simpl; lia].
  split; [done|]. split; [|done]. unfold last_hash. simpl. by destruct (last (sto_rows s)).
Qed.

(** A digest of 64 bytes and a writer for the examples: the writer's text holds the number that encodes the
    scalars, and the digest is the start of its input, filled up. *)
Definition scalar_sum (x : JsonScalar) : bytes + (Z + unit) :=
  match x with SString s => inl s | SInteger n => inr (inl n) | SNull => inr (inr tt) end.
Definition sum_scalar (x : bytes + (Z + unit)) : JsonScalar :=
  match x with inl s => SString s | inr (inl n) => SInteger n | inr (inr _) => SNull end.
#[export] Instance JsonScalar_countable : Countable JsonScalar.
Proof. apply (inj_countable' scalar_sum sum_scalar). by intros []. Defined.
Definition toy_payload (items : list JsonScalar) : bytes := [Z.pos (encode items)].
Definition toy_hash (b : bytes) : bytes := take 64 (b ++ replicate 64 48%Z).

Definition sample_entry (decision : bytes) : NewExecution :=
  MkNew (B "confirm") decision (B "dml") 1 (B "DELETE FROM t") None 1700000000000.
Definition empty_storage : Storage :=
  MkStorage [] (B "id-0") 1 true (fun n => (B "id", Z.of_nat n + 2, true)%Z).
Definition one_row : option (Storage * ExecutionRecord) :=
  append_execution toy_hash toy_payload empty_storage (sample_entry (B "confirmed")).

Lemma append_keeps_chain_witness :
  match one_row with
  | Some (s, r) =>
      verify_execution_log toy_hash toy_payload (sto_rows s) = inr 1
      /\ sto_rows s = [r] /\ stored_of r = stored (sample_entry (B "confirmed"))
  | None => False
  end.
Proof.
  exact (append_keeps_chain toy_hash toy_payload empty_storage (sample_entry (B "confirmed"))
           _ _ 0 eq_refl eq_refl).
Defined.

(** ** Tamper evidence *)

(** What the chain needs of the two libraries: a hex SHA-256 has 64 digits, and serde_json writes two arrays of
    scalars alike only when they are the same array (it reads back what it wrote). *)
Class ChainLaws (sha256_hex : bytes -> bytes) (to_vec : list JsonScalar -> bytes) : Prop := {
  digest_length : forall b, length (sha256_hex b) = 64;
  to_vec_inj : forall items items', to_vec items = to_vec items' -> items = items';
}.
(** What is hashed for a row, and two rows of the logs with different texts and one digest. *)
Definition hashed_text (to_vec : list JsonScalar -> bytes) (r : ExecutionRecord) : bytes := to_vec (chain_payload (fields_of r)).
Definition collision (sha256_hex : bytes -> bytes) (to_vec : list JsonScalar -> bytes) (rows rows' : list ExecutionRecord) : Prop :=
  exists r r', r ∈ rows /\ r' ∈ rows' /\ hashed_text to_vec r <> hashed_text to_vec r' /\ sha256_hex (hashed_text to_vec r) = sha256_hex (hashed_text to_vec r').
Lemma collision_more sha256_hex to_vec rows rows' more more' : collision sha256_hex to_vec rows rows' -> collision sha256_hex to_vec (rows ++ more) (rows' ++ more').
Proof. intros (r & r' & Hr & Hr' & H). exists r, r'. rewrite !elem_of_app. auto. Qed.
(** Two rows that agree on every column but [seq]. *)
Definition same_but_seq (r r' : ExecutionRecord) : Prop := fields_of r = fields_of r' /\ er_chain_hash r = er_chain_hash r'.
Lemma same_chain_hash sha256_hex to_vec r r' : ChainLaws sha256_hex to_vec ->
  chain_hash sha256_hex to_vec (fields_of r) = chain_hash sha256_hex to_vec (fields_of r') ->
  fields_of r = fields_of r' \/ hashed_text to_vec r <> hashed_text to_vec r' /\ sha256_hex (hashed_text to_vec r) = sha256_hex (hashed_text to_vec r').
Proof.
  intros [_ Hinj] Hh. destruct (decide (hashed_text to_vec r = hashed_text to_vec r')) as [He|He]; [left; by apply chain_payload_inj, Hinj|by right].
Qed.
Lemma chain_hash_not_genesis sha256_hex to_vec f : ChainLaws sha256_hex to_vec -> chain_hash sha256_hex to_vec f <> GENESIS.
Proof. intros [Hl _] Hg. specialize (Hl (to_vec (chain_payload f))). unfold chain_hash in Hg. by rewrite Hg in Hl. Qed.
Lemma equal_chains sha256_hex to_vec rows rows' : ChainLaws sha256_hex to_vec ->
  chain_ok sha256_hex to_vec GENESIS rows -> chain_ok sha256_hex to_vec GENESIS rows' -> last_hash rows = last_hash rows' ->
  Forall2 same_but_seq rows rows' \/ collision sha256_hex to_vec rows rows'.
Proof.
  intros Hlaws Hc. revert rows'. induction rows as [|r rows IH] using rev_ind; intros rows' Hc' Hl; unfold last_hash in Hl; rewrite ?last_snoc in Hl;
    (destruct rows' as [|r' rows' _] using rev_ind; rewrite ?last_snoc in Hl); cbn in Hl.
  - by left; constructor.
  - apply chain_ok_snoc in Hc' as (_ & _ & Hh). rewrite <- Hl in Hh. by destruct (chain_hash_not_genesis sha256_hex to_vec (fields_of r') Hlaws).
  - apply chain_ok_snoc in Hc as (_ & _ & Hh). rewrite Hl in Hh. by destruct (chain_hash_not_genesis sha256_hex to_vec (fields_of r) Hlaws).
  - apply chain_ok_snoc in Hc as (Hc & Hp & Hh), Hc' as (Hc' & Hp' & Hh').
    destruct (same_chain_hash sha256_hex to_vec r r' Hlaws) as [Hf|Hf]; [congruence| |right; exists r, r'; rewrite !elem_of_app, !list_elem_of_singleton; auto].
    destruct (IH Hc rows' Hc') as [Hr|]; [|left; apply Forall2_app; [done|by constructor]|right; by apply collision_more].
    assert (er_prev_hash r = er_prev_hash r') as Hpp by (by injection Hf). unfold last_hash. congruence.
Qed.

(** C39: Tamper evidence. Take two logs that both verify and end in the same chain hash: they have as many rows,
    and row for row the same identity, moment, mode, decision, kind, index, statement hash, reason and
    hashes, or a row of each was hashed from different texts to one SHA-256. So whoever kept one earlier chain hash
    can tell that no row up to it was edited, removed or inserted since; only the numbers [seq] the rows
    are ordered by are not under the hash. *)
Theorem equal_tails_equal_logs (sha256_hex : bytes -> bytes) (to_vec : list JsonScalar -> bytes) `{ChainLaws sha256_hex to_vec}
  (rows rows' : list ExecutionRecord) (n n' : nat) :
  verify_execution_log sha256_hex to_vec rows = inr n ->
  verify_execution_log sha256_hex to_vec rows' = inr n' ->
  last_hash rows = last_hash rows' ->
  (n = length rows /\ n' = length rows' /\ Forall2 same_but_seq rows rows') \/ collision sha256_hex to_vec rows rows'.
Proof.
  unfold verify_execution_log. rewrite !verify_rows_ok. intros [Hc ->] [Hc' ->] Hl. destruct (equal_chains sha256_hex to_vec rows rows') as [Hs|]; try done; [|by right].
  by left.
Qed.
#[export] Instance toy_chain_laws : ChainLaws toy_hash toy_payload.
Proof.
  split; [intros b; unfold toy_hash; rewrite length_take, length_app, length_replicate; lia|].
  intros items items' [= Hp]. by apply (inj encode) in Hp.
Qed.
Definition small_rows : list ExecutionRecord := match one_row with Some (s, _) => sto_rows s | None => [] end.
(** The same rows under other numbers. *)
Definition renumber (n : Z) (r : ExecutionRecord) : ExecutionRecord :=
  MkRecord n (er_id r) (er_at r) (er_safe_mode r) (er_decision r) (er_statement_kind r) (er_statement_index r) (er_statement_hash r)
    (er_reason r) (er_prev_hash r) (er_chain_hash r).
Lemma equal_tails_equal_logs_witness :
  (1 = length small_rows /\ 1 = length (renumber 7 <$> small_rows) /\ Forall2 same_but_seq small_rows (renumber 7 <$> small_rows)) \/ collision toy_hash toy_payload small_rows (renumber 7 <$> small_rows).
Proof. exact (equal_tails_equal_logs toy_hash toy_payload small_rows (renumber 7 <$> small_rows) 1 1 eq_refl eq_refl eq_refl). Defined.
(** The numbers can be changed without a trace, which the module's "a row that was edited" does not say. *)
Example renumbered_rows_verify : verify_execution_log toy_hash toy_payload (renumber 7 <$> small_rows) = inr 1
  /\ last_hash (renumber 7 <$> small_rows) = last_hash small_rows /\ renumber 7 <$> small_rows <> small_rows.
Proof. split; [reflexivity|]. split; [reflexivity|]. vm_compute. discriminate. Qed.
