(* ===== verification/Env.v ===== *)
(** * Env: the settings and their readers, [crates/qh-ffi/src/env.rs].

    Settings are a map of text to text.  A transfer describes its second connection with the same
    keys behind [DEST_]; [prefixed] and [without_prefix] split the map in two, and
    [destination] is the one place that builds both halves. *)
From stdpp Require Import gmap.
From S2P Require Import Prelude Bytes Text Scan Script Classify.

Abbreviation Settings := (gmap bytes bytes).

Inductive SettingError :=
| NotANumber (key value : bytes)
| Negative (key : bytes) (value : Z).

Definition SECRET_KEYS : list string :=
  ["DB_PASSWORD"; "TRINO_PASSWORD"; "DB_URL"; "TRINO_URL"; "DB_JWT"; "SSH_PASSWORD";
   "SSH_KEY_PASSPHRASE"].
Definition DEST_PREFIX : bytes := B "DEST_".
Definition SHARED_KEYS : list string := ["DB_PATH"; "PROGRESS_MS"].

(** The [while let] of [is_secret_key]. *)
Definition strip_turn (key : bytes) : bytes + bytes :=
  match strip_prefix key DEST_PREFIX with Some rest => inl rest | None => inr key end.
Definition is_secret_key (key : bytes) : bool :=
  match iter strip_turn (S (length key)) key with
  | Some bare => one_of bare SECRET_KEYS
  | None => false
  end.

(** What [impl Debug for Settings] shows of one entry. *)
Definition REDACTED : bytes := B "<redacted>".
Definition debug_entry (key value : bytes) : bytes * bytes :=
  (key, if is_secret_key key then REDACTED else value).

(** ** Readers *)

Definition get (s : Settings) (key : bytes) : option bytes := s !! key.
Definition is_set (s : Settings) (key : bytes) : bool :=
  match s !! key with Some _ => true | None => false end.
Definition raw (s : Settings) (key default : bytes) : bytes :=
  match get s key with
  | None | Some [] => default
  | Some value => value
  end.
Definition setting_text (s : Settings) (key default : bytes) : bytes :=
  match trim (raw s key []) with [] => default | value => value end.

Definition number (s : Settings) (key : bytes) (default : Z) : SettingError + Z :=
  match setting_text s key [] with
  | [] => inr default
  | raw => match parse_i64 raw with Some v => inr v | None => inl (NotANumber key raw) end
  end.

Definition non_negative (s : Settings) (key : bytes) (default : Z) : SettingError + Z :=
  match number s key default with
  | inl e => inl e
  | inr value => if (value <? 0)%Z then inl (Negative key value) else inr value
  end.

Definition parse_flag (raw : bytes) (default : bool) : bool :=
  let raw := lower (trim raw) in
  if one_of raw [""%string] then default
  else if one_of raw ["0"; "false"; "no"; "off"]%string then false
  else if one_of raw ["1"; "true"; "yes"; "on"]%string then true
  else default.
Definition flag (s : Settings) (key : bytes) (default : bool) : bool :=
  parse_flag (setting_text s key []) default.

(** ** Two connections *)

Definition has_prefixed (s : Settings) (prefix : bytes) : bool :=
  existsb (fun e => starts_with e.1 prefix) (map_to_list s).

(** The [filter_map] of [prefixed]. *)
Definition bare_entry (prefix : bytes) (e : bytes * bytes) : option (bytes * bytes) :=
  bare ← strip_prefix e.1 prefix;
  match bare with [] => None | _ => Some (bare, e.2) end.

(** One turn of the loop over [SHARED_KEYS]. *)
Definition share_key (s values : Settings) (shared : string) : Settings :=
  let values := delete (B shared) values in
  match s !! B shared with Some value => <[B shared := value]> values | None => values end.

Definition prefixed (s : Settings) (prefix : bytes) : Settings :=
  foldl (share_key s) (list_to_map (omap (bare_entry prefix) (map_to_list s))) SHARED_KEYS.

Definition without_prefix (s : Settings) (prefix : bytes) : Settings :=
  filter (fun e => starts_with e.1 prefix = false) s.

Inductive TransferMode := TCreate | TReplace.

Record Destination := MkDestination {
  dst_source : Settings;
  dst_dest : Settings;
  dst_mode : TransferMode;
  dst_safe_mode : SafeMode;
}.

Inductive DestinationError :=
| NoConnection
| NoSafeMode
| UnknownSafeMode (raw : bytes)
| Append
| UnknownWriteMode (raw : bytes).

Definition write_mode (s : Settings) : DestinationError + TransferMode :=
  match get s (B "WRITE_MODE") with
  | None => inr TCreate
  | Some raw =>
      let raw := lower (trim raw) in
      if says raw "create" then inr TCreate
      else if says raw "replace" then inr TReplace
      else if says raw "append" then inl Append
      else inl (UnknownWriteMode raw)
  end.

Definition is_blank (s : bytes) : bool := match s with [] => true | _ => false end.

Definition destination (s : Settings) : DestinationError + option Destination :=
  if negb (has_prefixed s DEST_PREFIX) then inr None
  else
    let dest := prefixed s DEST_PREFIX in
    if is_blank (setting_text dest (B "DB_KIND") []) && is_blank (setting_text dest (B "DB_URL") [])
    then inl NoConnection
    else
      let raw_safe := setting_text dest (B "SAFE_MODE") [] in
      if is_blank raw_safe then inl NoSafeMode
      else match safe_mode_parse raw_safe with
           | None => inl (UnknownSafeMode raw_safe)
           | Some safe_mode =>
               match write_mode s with
               | inl e => inl e
               | inr mode =>
                   inr (Some (MkDestination (without_prefix s DEST_PREFIX) dest mode safe_mode))
               end
           end.

(** ** The two halves *)

Definition shared_key (key : bytes) : bool := one_of key SHARED_KEYS.

Lemma bare_entry_some prefix e k v :
  bare_entry prefix e = Some (k, v) <-> e = (prefix ++ k, v) /\ k <> [].
Proof.
  unfold bare_entry. destruct e as [key value]; simpl. split.
  - destruct (strip_prefix key prefix) as [r|] eqn:E; simpl; [|done].
    apply strip_prefix_some in E as ->. destruct r; [done|]. by intros [= <- <-].
  - intros [[= -> ->] Hk]. rewrite (proj2 (strip_prefix_some _ _ _) eq_refl). simpl. by destruct k.
Qed.

Lemma bare_entries_nodup prefix l :
  NoDup l.*1 -> NoDup (omap (bare_entry prefix) l).*1.
Proof.
  induction l as [|[key value] l IH]; [by constructor|]. intros [Hk Hl]%NoDup_cons. simpl.
  destruct (bare_entry prefix (key, value)) as [[k v]|] eqn:E; [|auto].
  apply bare_entry_some in E as [[= -> ->] _]. simpl. apply NoDup_cons. split; [|auto].
  intros ([k' v'] & Hk' & Hin)%list_elem_of_fmap. simpl in Hk'. subst k'.
  apply list_elem_of_omap in Hin as (e & He & Hb). apply bare_entry_some in Hb as [-> _].
  apply Hk. apply list_elem_of_fmap. by exists (prefix ++ k, v').
Qed.

Lemma lookup_bare s prefix k :
  (list_to_map (omap (bare_entry prefix) (map_to_list s)) : Settings) !! k
  = if decide (k = []) then None else s !! (prefix ++ k).
Proof.
  pose proof (bare_entries_nodup prefix _ (NoDup_fst_map_to_list s)) as Hnd.
  apply option_eq. intros v. rewrite <- elem_of_list_to_map by done.
  rewrite list_elem_of_omap. case_decide as Hk.
  - split; [|done]. intros (e & _ & [_ ?]%bare_entry_some). done.
  - split.
    + intros (e & He & [-> _]%bare_entry_some). by apply elem_of_map_to_list in He.
    + intros Hv. exists (prefix ++ k, v). split; [by apply elem_of_map_to_list|].
      by apply bare_entry_some.
Qed.

Lemma lookup_share_key s values shared k :
  share_key s values shared !! k = if says k shared then s !! k else values !! k.
Proof.
  unfold share_key, says. destruct (bytes_eqb k (B shared)) eqn:E.
  - apply bytes_eqb_eq in E as ->. destruct (s !! B shared); by simplify_map_eq.
  - assert (B shared <> k) by (intros <-; by rewrite bytes_eqb_refl in E).
    destruct (s !! B shared); by simplify_map_eq.
Qed.

Lemma lookup_prefixed s prefix k :
  prefixed s prefix !! k
  = if shared_key k then s !! k else if decide (k = []) then None else s !! (prefix ++ k).
Proof.
  unfold prefixed, shared_key, one_of, SHARED_KEYS. cbn [foldl existsb].
  rewrite !lookup_share_key, lookup_bare.
  by destruct (says k "DB_PATH"), (says k "PROGRESS_MS").
Qed.

Lemma lookup_without_prefix s prefix k :
  without_prefix s prefix !! k = if starts_with k prefix then None else s !! k.
Proof.
  unfold without_prefix. rewrite map_lookup_filter. destruct (s !! k) as [v|] eqn:E; simpl.
  - case_guard as Hg; simpl in Hg; [by rewrite Hg|]. by destruct (starts_with k prefix).
  - by destruct (starts_with k prefix).
Qed.

Lemma has_prefixed_iff s prefix :
  has_prefixed s prefix = true <-> exists k v, s !! k = Some v /\ starts_with k prefix = true.
Proof.
  unfold has_prefixed. rewrite existsb_exists. split.
  - intros ([k v] & Hin & Hp). exists k, v. apply list_elem_of_In, elem_of_map_to_list in Hin. done.
  - intros (k & v & Hk & Hp). exists (k, v). by rewrite <- list_elem_of_In, elem_of_map_to_list.
Qed.

(** Two connections never mix. When settings describe a destination, its half holds exactly the
    [DEST_] keys with the prefix off, plus the two keys shared by everything (read from the top
    level only); the source's half holds exactly the keys without the prefix; so a credential, a
    Safe Mode or a floor of one connection is never the other's. The destination's mode is the one
    its own key spells. *)
Theorem destination_isolated (s : Settings) (d : Destination) :
  destination s = inr (Some d) ->
  (forall k, dst_dest d !! k
     = if shared_key k then s !! k else if decide (k = []) then None else s !! (DEST_PREFIX ++ k))
  /\ (forall k, dst_source d !! k = if starts_with k DEST_PREFIX then None else s !! k)
  /\ safe_mode_parse (setting_text (dst_dest d) (B "SAFE_MODE") []) = Some (dst_safe_mode d)
  /\ setting_text (dst_dest d) (B "SAFE_MODE") [] <> [].
Proof.
  unfold destination. destruct (has_prefixed s DEST_PREFIX); [|done]. cbn [negb].
  destruct (_ && _); [done|]. destruct (is_blank _) eqn:Eb; [done|].
  destruct (safe_mode_parse _) as [m|] eqn:Em; [|done].
  destruct (write_mode s) as [|mode]; [done|]. intros [= <-]. cbn [dst_dest dst_source dst_safe_mode].
  split_and!; [apply lookup_prefixed|apply lookup_without_prefix|done|].
  intros E. by rewrite E in Eb.
Qed.
Definition transfer_settings : Settings :=
  list_to_map [(B "DB_KIND", B "mysql"); (B "DB_PASSWORD", B "s3cret"); (B "SAFE_MODE", B "full");
               (B "DEST_DB_KIND", B "postgres"); (B "DEST_SAFE_MODE", B " Confirm ")].
Lemma destination_isolated_witness :
  exists d, destination transfer_settings = inr (Some d)
    /\ dst_dest d !! B "DB_PASSWORD" = None /\ dst_safe_mode d = MConfirm.
Proof.
  eexists. split; [vm_compute; reflexivity|].
  destruct (destination_isolated transfer_settings
    (MkDestination (without_prefix transfer_settings DEST_PREFIX)
       (prefixed transfer_settings DEST_PREFIX) TCreate MConfirm)) as (H & _ & _);
    [vm_compute; reflexivity|].
  split; [|reflexivity]. etransitivity; [|exact (H (B "DB_PASSWORD"))]. vm_compute. reflexivity.
Defined.

(** A single key behind [DEST_], blank or not, is a request for a second connection: it is never
    ignored. Without one there is no destination; with one there is a destination or an error,
    and a destination only when a kind or URL, a known Safe Mode and a known write mode were
    given. *)
Theorem destination_never_ignored (s : Settings) :
  (destination s = inr None <-> forall k v, s !! k = Some v -> starts_with k DEST_PREFIX = false)
  /\ (forall d, destination s = inr (Some d) ->
        (setting_text (dst_dest d) (B "DB_KIND") [] <> [] \/ setting_text (dst_dest d) (B "DB_URL") [] <> [])
        /\ write_mode s = inr (dst_mode d)).
Proof.
  unfold destination. destruct (has_prefixed s DEST_PREFIX) eqn:E; cbn [negb].
  - apply has_prefixed_iff in E as (k & v & Hk & Hp). split.
    + split; [|intros H; specialize (H _ _ Hk); congruence]. repeat case_match; done.
    + intros d. destruct (_ && _) eqn:Eb; [done|]. destruct (is_blank (setting_text _ (B "SAFE_MODE") _)); [done|].
      destruct (safe_mode_parse _); [|done]. destruct (write_mode s); [done|]. intros [= <-].
      split; [|done]. cbn [dst_dest]. apply andb_false_iff in Eb as [Eb|Eb];
        [left|right]; intros Hn; by rewrite Hn in Eb.
  - split; [|done]. split; [|done]. intros _ k v Hk.
    destruct (starts_with k DEST_PREFIX) eqn:Hp; [|done]. exfalso.
    assert (has_prefixed s DEST_PREFIX = true) by (apply has_prefixed_iff; eauto). congruence.
Qed.
Lemma destination_never_ignored_witness :
  destination {[ B "DEST_SSH_HOST" := [] ]} <> inr None.
Proof.
  intros H. pose proof (proj1 (proj1 (destination_never_ignored {[ B "DEST_SSH_HOST" := [] ]})) H
    (B "DEST_SSH_HOST") [] (lookup_singleton_eq _ _)) as H'.
  vm_compute in H'. discriminate H'.
Defined.

(** ** Secrets *)

Lemma strip_turn_next key rest : strip_turn key = inl rest -> key = DEST_PREFIX ++ rest.
Proof.
  unfold strip_turn. destruct (strip_prefix key DEST_PREFIX) eqn:E; [|done].
  intros [= <-]. by apply strip_prefix_some.
Qed.

Lemma strip_turn_done key bare :
  strip_turn key = inr bare -> key = bare /\ starts_with key DEST_PREFIX = false.
Proof.
  unfold strip_turn, strip_prefix. destruct (starts_with key DEST_PREFIX); [done|]. by intros [= <-].
Qed.

Lemma strip_reaches key bare :
  reaches strip_turn key bare -> is_secret_key key = one_of bare SECRET_KEYS.
Proof.
  intros H. unfold is_secret_key.
  destruct (iter_total strip_turn length) with (n := S (length key)) (s := key) as [b E];
    [|lia|by rewrite E, (reaches_det _ _ _ (iter_reaches _ _ _ _ E) _ H)].
  intros s s' Hs. apply strip_turn_next in Hs as ->. rewrite length_app. simpl. lia.
Qed.

(** [n] times [DEST_] before a key. *)
Fixpoint dest_key (n : nat) (key : bytes) : bytes :=
  match n with O => key | S n => DEST_PREFIX ++ dest_key n key end.

(** A credential's key is a secret under any number of [DEST_] prefixes, and nothing else is: the
    debug print of settings redacts exactly those. (No secret key itself begins with the
    prefix.) *)
Theorem secrets_are_redacted (key value : bytes) :
  (is_secret_key key = true <->
     exists n bare, key = dest_key n bare /\ one_of bare SECRET_KEYS = true)
  /\ ((debug_entry key value).2 = value <-> is_secret_key key = false \/ value = REDACTED).
Proof.
  split; [split|].
  - intros H. assert (exists b, reaches strip_turn key b) as [b Hb].
    { destruct (iter_total strip_turn length) with (n := S (length key)) (s := key) as [b E];
        [|lia|eauto using iter_reaches].
      intros s s' Hs. apply strip_turn_next in Hs as ->. rewrite length_app. simpl. lia. }
    rewrite (strip_reaches _ _ Hb) in H. clear -H Hb. induction Hb as [s r E|s s' r E _ IH].
    + apply strip_turn_done in E as [-> _]. by exists 0, r.
    + destruct (IH H) as (n & bare & -> & Hbare). apply strip_turn_next in E as ->.
      by exists (S n), bare.
  - intros (n & bare & -> & Hb).
    assert (reaches strip_turn (dest_key n bare) bare) as Hr.
    { induction n as [|n IH]; cbn [dest_key].
      - apply reaches_done. unfold strip_turn, strip_prefix.
        assert (starts_with bare DEST_PREFIX = false) as ->; [|done].
        unfold one_of, SECRET_KEYS in Hb. cbn [existsb] in Hb.
        repeat (apply orb_true_iff in Hb as [Hb|Hb]); [..|done]; by apply bytes_eqb_eq in Hb as ->.
      - eapply reaches_next; [|exact IH]. unfold strip_turn.
        by rewrite (proj2 (strip_prefix_some _ _ _) eq_refl). }
    by rewrite (strip_reaches _ _ Hr).
  - unfold debug_entry; simpl. destruct (is_secret_key key); split; intuition congruence.
Qed.

(** ** Numbers *)

(** A whole-number setting is the default when it is blank, and otherwise a value in the range of
    an [i64] or an error that names the setting; a non-negative one is never below zero. *)
Theorem number_bounds (s : Settings) (key : bytes) (default : Z) :
  (I64_MIN <= default <= I64_MAX)%Z ->
  match number s key default with
  | inr v => (I64_MIN <= v <= I64_MAX)%Z /\ (setting_text s key [] = [] -> v = default)
  | inl e => e = NotANumber key (setting_text s key []) /\ setting_text s key [] <> []
  end
  /\ forall v, non_negative s key default = inr v -> (0 <= v <= I64_MAX)%Z.
Proof.
  intros Hd.
  assert (match number s key default with
          | inr v => (I64_MIN <= v <= I64_MAX)%Z /\ (setting_text s key [] = [] -> v = default)
          | inl e => e = NotANumber key (setting_text s key []) /\ setting_text s key [] <> []
          end) as H.
  { unfold number. destruct (setting_text s key []) as [|b r]; [done|].
    destruct (parse_i64 (b :: r)) as [v|] eqn:E; [|done]. split; [|done].
    unfold parse_i64, parse_int in E. destruct (if b =b 45 then _ else _) as [neg digits].
    destruct digits as [|d ds]; [done|]. destruct (forallb _ _); [|done].
    cbv zeta in E. destruct (_ && _) eqn:Eb; [|done]. simplify_eq. lia. }
  split; [done|]. intros v. unfold non_negative. destruct (number s key default) as [e|v'] eqn:E; [done|].
  destruct (v' <? 0)%Z eqn:En; [done|]. intros [= <-]. lia.
Qed.
Definition timeout_settings : Settings := {[ B "STATEMENT_TIMEOUT_MS" := B " +2500 " ]}.
Lemma number_bounds_witness : (0 <= 2500 <= I64_MAX)%Z.
Proof.
  apply (proj2 (number_bounds timeout_settings (B "STATEMENT_TIMEOUT_MS") 0
                  ltac:(vm_compute; split; discriminate))).
  vm_compute. reflexivity.
Defined.
