(* ===== verification/Guard.v ===== *)
(** * Guard: the Safe Mode a run is under and the gate every command passes,
    [crates/qh-ffi/src/commands.rs] and [crates/qh-ffi/src/execution_log.rs].

    [safe_mode_floor] collects the minimums of a run from its settings, [guard_confirmed] refuses
    a script the mode does not allow and records every decision, [require_read] and
    [guard_destructive_mode] are the two gates with rules of their own.  The log is any
    [ExecutionStore]; whether a driver says it cannot write, and the clock, are parameters. *)
From stdpp Require Import pretty.
From S2P Require Import Prelude Bytes Text Scan Script Classify Env ExecLog.

Inductive DriverKind := DTrino | DPostgres | DMysql.
Definition driver_kind_parse (name : bytes) : option DriverKind :=
  let name := lower (trim name) in
  if says name "trino" then Some DTrino
  else if says name "postgres" || says name "postgresql" then Some DPostgres
  else if says name "mysql" || says name "mariadb" then Some DMysql
  else None.

(** The errors the gate raises: a usage error with its message, and a log that was not written. *)
Inductive CliError := Usage (message : bytes) | StorageFailed.

(** [SAFE_MODES.join(", ")] *)
Definition mode_names : bytes := join_sep (B ", ") (B <$> SAFE_MODES).

Definition parse_safe_mode (raw key : bytes) : CliError + SafeMode :=
  if is_blank (trim raw) then inr MFull
  else match safe_mode_parse raw with
       | Some m => inr m
       | None => inl (Usage (B "unknown " ++ key ++ B " '" ++ raw ++ B "'; expected " ++ mode_names))
       end.

(** ** The mode of a run *)

Definition opt_raise (b : bool) (s : FloorSource) (m : SafeMode) (f : SafeModeFloor) : SafeModeFloor :=
  if b then floor_raise f s m else f.

(** Whether [DB_KIND] names a driver that cannot write. *)
Definition kind_read_only (driver_read_only : DriverKind -> bool) (s : Settings) : bool :=
  match driver_kind_parse (setting_text s (B "DB_KIND") []) with
  | Some kind => driver_read_only kind
  | None => false
  end.

Definition safe_mode_floor (driver_read_only : DriverKind -> bool) (s : Settings)
  : CliError + SafeModeFloor :=
  match parse_safe_mode (setting_text s (B "SAFE_MODE") []) (B "SAFE_MODE") with
  | inl e => inl e
  | inr user =>
      let f := floor_raise floor_new FUser user in
      let f := opt_raise (flag s (B "DB_READ_ONLY") false) FConnection MReadOnly f in
      let f := opt_raise (kind_read_only driver_read_only s) FDriver MReadOnly f in
      let pinned := setting_text s (B "SAFE_MODE_FLOOR") [] in
      if is_blank pinned then inr f
      else match parse_safe_mode pinned (B "SAFE_MODE_FLOOR") with
           | inl e => inl e
           | inr m => inr (floor_raise f FPolicy m)
           end
  end.

Definition safe_mode (driver_read_only : DriverKind -> bool) (s : Settings) : CliError + SafeMode :=
  match safe_mode_floor driver_read_only s with
  | inl e => inl e
  | inr f => inr (match floor_resolve f with Some (m, _) => m | None => MFull end)
  end.

Definition safe_mode_confirmed (s : Settings) : bool := flag s (B "SAFE_MODE_CONFIRMED") false.

(** ** Recording decisions *)

Inductive LogDecision := LAllowed | LConfirmed | LRefused | LNeedsConfirmation.
#[export] Instance LogDecision_eq_dec : EqDecision LogDecision.
Proof. solve_decision. Defined.
Definition log_decision_str (d : LogDecision) : string :=
  match d with
  | LAllowed => "allowed" | LConfirmed => "confirmed" | LRefused => "refused"
  | LNeedsConfirmation => "needs_confirmation"
  end.

Record DecisionEntry := MkEntry {
  de_safe_mode : SafeMode;
  de_index : nat;
  de_kind : StatementKind;
  de_statement : bytes;
  de_decision : LogDecision;
  de_reason : option string;
}.

(** [Display] of the error a refusal raises. *)
Definition display_error (e : SafeModeError) : bytes :=
  let show (how : bytes) mode index kind reason statement :=
    B "SAFE_MODE=" ++ B (safe_mode_as_str mode) ++ how ++ B (pretty index) ++ B " ("
    ++ B (kind_label kind) ++ B "): " ++ B reason ++ B ": " ++ statement in
  match e with
  | Refused mode index kind reason statement =>
      show (B " refuses statement ") mode index kind reason statement
  | NeedsConfirmation mode index kind reason statement =>
      show (B " requires confirmation for statement ") mode index kind reason statement
  end.

Definition logged (error : option SafeModeError) (d : Decision) : LogDecision :=
  match error, d with
  | None, Confirm => LConfirmed
  | None, _ => LAllowed
  | Some _, Confirm => LNeedsConfirmation
  | Some _, _ => LRefused
  end.

Definition ANALYZE_READ_ONLY_REASON : string :=
  "EXPLAIN ANALYZE runs the statement, so it is offered for reads only".
Definition REQUIRE_READ_REASON : string :=
  "this run repeats a result that was already read, so it is offered for reads only (REQUIRE_READ)".
Definition DESTRUCTIVE_CONFIRM_REASON : string :=
  "a destructive table operation runs on a confirm connection only after an explicit confirmation (SAFE_MODE_CONFIRMED=1)".

Section Gate.
Context {S : Type} `{ExecutionStore S} (now_millis : S -> Z).

(** [i64::try_from(index).unwrap_or(i64::MAX)] *)
Definition i64_of_index (n : nat) : Z := if (Z.of_nat n <=? I64_MAX)%Z then Z.of_nat n else I64_MAX.

Definition new_execution (at_ : Z) (e : DecisionEntry) : NewExecution :=
  MkNew (B (safe_mode_as_str (de_safe_mode e))) (B (log_decision_str (de_decision e)))
    (B (kind_token (de_kind e))) (i64_of_index (de_index e)) (de_statement e) (B <$> de_reason e) at_.

(** [record]: no sink, nothing to do; [None] is a write that failed. *)
Definition record (sink : option S) (e : DecisionEntry) : option (option S) :=
  match sink with
  | None => Some None
  | Some s => Some <$> es_append s (new_execution (now_millis s) e)
  end.

Definition record_decision (sink : option S) (mode : SafeMode) (confirmed : bool)
  (d : StatementDecision) : CliError + (option S * option SafeModeError) :=
  let error := refusal_error d mode confirmed in
  let entry := MkEntry mode (d_index d) (d_kind d) (d_statement d) (logged error (d_decision d))
                 (match error with Some _ => d_reason d | None => None end) in
  match record sink entry with
  | None => inl StorageFailed
  | Some sink => inr (sink, error)
  end.

(** The loop of [guard_confirmed]: the sink as it is left, and the outcome. *)
Fixpoint guard_loop (sink : option S) (mode : SafeMode) (confirmed : bool)
  (ds : list StatementDecision) : option S * (CliError + unit) :=
  match ds with
  | [] => (sink, inr tt)
  | d :: ds =>
      match record_decision sink mode confirmed d with
      | inl e => (sink, inl e)
      | inr (sink, Some error) => (sink, inl (Usage (display_error error)))
      | inr (sink, None) => guard_loop sink mode confirmed ds
      end
  end.

Definition guard_confirmed (sink : option S) (mode : SafeMode) (confirmed : bool) (sql : bytes)
  (d : Dialect) : option S * (CliError + unit) :=
  guard_loop sink mode confirmed (decisions_readings mode sql (readings d)).
Definition guard (sink : option S) (mode : SafeMode) (sql : bytes) (d : Dialect)
  : option S * (CliError + unit) := guard_confirmed sink mode false sql d.

(** [require_read], the dialect resolved by the caller. *)
Fixpoint require_loop (sink : option S) (mode : SafeMode) (reason : string)
  (ds : list StatementDecision) : option S * (CliError + unit) :=
  match ds with
  | [] => (sink, inr tt)
  | d :: ds =>
      if is_allowed (d_decision d) then require_loop sink mode reason ds
      else
        match record_decision sink mode false
                (MkDecision (d_index d) (d_kind d) (d_statement d) Refuse (Some reason)) with
        | inl e => (sink, inl e)
        | inr (sink, error) =>
            (sink, inl (Usage (match error with Some e => display_error e | None => [] end)))
        end
  end.
Definition require_read (sink : option S) (d : Dialect) (mode : SafeMode) (sql : bytes) (reason : string)
  : option S * (CliError + unit) :=
  require_loop sink mode reason (decisions_readings MReadOnly sql (readings d)).
Definition analyze_requires_read (sink : option S) (d : Dialect) (mode : SafeMode) (sql : bytes)
  : option S * (CliError + unit) := require_read sink d mode sql ANALYZE_READ_ONLY_REASON.

(** [destructive_mode_of] *)
Definition forbids_ddl (m : SafeMode) : bool :=
  match m with MNoDdl | MReadOnly => true | _ => false end.
Definition strictness_le (a b : SafeMode) : bool := strictness a <=? strictness b.
Definition destructive_mode_of (f : SafeModeFloor) : SafeMode :=
  match max_by strictness_le (List.filter forbids_ddl (snd <$> f)) with
  | Some m => m
  | None => if existsb (fun e => bool_decide (e.2 = MConfirm)) f then MConfirm else MFull
  end.

Definition destructive_decision (mode : SafeMode) (k : StatementKind) : Decision * option string :=
  match mode with
  | MFull => (Allow, None)
  | MNoDdl | MReadOnly => (Refuse, refusal mode k)
  | MConfirm => (Confirm, Some DESTRUCTIVE_CONFIRM_REASON)
  end.

Definition guard_destructive_mode (sink : option S) (mode : SafeMode) (confirmed : bool) (d : Dialect)
  (statement : bytes) : option S * (CliError + unit) :=
  let kind := classify_readings statement (readings d) in
  let '(decision, reason) := destructive_decision mode kind in
  match record_decision sink mode confirmed (MkDecision 1 kind statement decision reason) with
  | inl e => (sink, inl e)
  | inr (sink, Some e) => (sink, inl (Usage (display_error e)))
  | inr (sink, None) => (sink, inr tt)
  end.

Definition record_kind (sink : option S) (mode : SafeMode) (kind : StatementKind) (subject : bytes)
  : option S * (CliError + unit) :=
  match record_decision sink mode false
          (MkDecision 1 kind subject (decision mode kind) (refusal mode kind)) with
  | inl e => (sink, inl e)
  | inr (sink, _) => (sink, inr tt)
  end.
End Gate.
