(* ===== verification/GuardSpec.v ===== *)
(** * GuardSpec: what the gate promises: the mode of a run is never weaker than any condition on it,
    every decision is recorded once and in order, and the two special gates keep their own
    rules. *)
From stdpp Require Import gmap.
From S2P Require Import Prelude Bytes Text Scan Script Classify ClassifySpec Env ExecLog Guard.

(** ** The mode of a run *)

Lemma resolve_spec f m s :
  floor_resolve f = Some (m, s) ->
  (s, m) ∈ f /\ forall s' m', (s', m') ∈ f -> strictness m' <= strictness m.
Proof.
  unfold floor_resolve. destruct (max_by floor_le f) as [[s0 m0]|] eqn:E; intros [= <- <-].
  apply (max_by_spec _ floor_le_total floor_le_trans) in E as [Hin Hall]. split; [done|].
  intros s' m' Hs. specialize (Hall _ Hs). rewrite floor_le_key, Nat.leb_le in Hall. simpl in Hall.
  destruct s', s0; simpl in Hall; lia.
Qed.

(** The conditions a run's settings raise. *)
Definition raised (dro : DriverKind -> bool) (s : Settings) (src : FloorSource) (m : SafeMode) : Prop :=
  match src with
  | FUser => parse_safe_mode (setting_text s (B "SAFE_MODE") []) (B "SAFE_MODE") = inr m
  | FConnection => flag s (B "DB_READ_ONLY") false = true /\ m = MReadOnly
  | FDriver => kind_read_only dro s = true /\ m = MReadOnly
  | FPolicy => is_blank (setting_text s (B "SAFE_MODE_FLOOR") []) = false
      /\ parse_safe_mode (setting_text s (B "SAFE_MODE_FLOOR") []) (B "SAFE_MODE_FLOOR") = inr m
  end.

Lemma elem_of_raise b s m f e :
  e ∈ opt_raise b s m f <-> e ∈ f \/ (b = true /\ e = (s, m)).
Proof.
  unfold opt_raise, floor_raise. destruct b.
  - rewrite elem_of_app, list_elem_of_singleton. tauto.
  - split; [by left|]. by intros [?|[? _]].
Qed.

Lemma floor_conditions dro s f :
  safe_mode_floor dro s = inr f -> forall src m, (src, m) ∈ f <-> raised dro s src m.
Proof.
  unfold safe_mode_floor. destruct (parse_safe_mode _ (B "SAFE_MODE")) as [|user] eqn:Eu; [done|].
  set (f0 := opt_raise (kind_read_only dro s) _ _ _).
  assert (forall src m, (src, m) ∈ f0 <->
            match src with FPolicy => False | _ => raised dro s src m end) as H0.
  { intros src m. subst f0. rewrite !elem_of_raise. unfold floor_raise, floor_new. simpl.
    rewrite list_elem_of_singleton. destruct src; simpl; rewrite ?Eu; split; try naive_solver. }
  destruct (is_blank _) eqn:Eb.
  - intros [= <-] src m. rewrite H0. destruct src; [done..|]. unfold raised. rewrite Eb. naive_solver.
  - destruct (parse_safe_mode _ (B "SAFE_MODE_FLOOR")) as [|p] eqn:Ep; [done|].
    intros [= <-] src m. unfold floor_raise. rewrite elem_of_app, list_elem_of_singleton, H0.
    destruct src; unfold raised; rewrite ?Eb, ?Ep; naive_solver.
Qed.

(** C7: The mode of a run is at least as strict as every condition its settings raise: the user's own
    level, a connection marked read-only, a driver that cannot write and a pinned floor; and it is
    exactly one of them, so no condition is invented. A spelling nobody knows is an error. *)
Theorem safe_mode_covers_every_condition (dro : DriverKind -> bool) (s : Settings) (m : SafeMode) :
  safe_mode dro s = inr m ->
  (forall src m', raised dro s src m' ->
     strictness m' <= strictness m
     /\ forall k, decision_rank (decision m' k) <= decision_rank (decision m k))
  /\ exists src, raised dro s src m.
Proof.
  unfold safe_mode. destruct (safe_mode_floor dro s) as [|f] eqn:Ef; [done|].
  pose proof (floor_conditions _ _ _ Ef) as Hf.
  destruct (floor_resolve f) as [[m0 src]|] eqn:Er; intros [= <-].
  - apply resolve_spec in Er as [Hin Hall]. split; [|exists src; by apply Hf].
    intros src' m' Hr. apply Hf in Hr. pose proof (Hall _ _ Hr).
    split; [done|]. intros k. by apply decision_monotone.
  - exfalso. unfold safe_mode_floor in Ef.
    destruct (parse_safe_mode _ (B "SAFE_MODE")) as [|user] eqn:Eu; [done|].
    assert ((FUser, user) ∈ f) as Hin by (by apply Hf).
    unfold floor_resolve in Er. apply fmap_None, max_by_none in Er as ->. by apply elem_of_nil in Hin.
Qed.
Definition confirm_settings : Settings :=
  list_to_map [(B "SAFE_MODE", B "no_ddl"); (B "SAFE_MODE_FLOOR", B "confirm")].
Lemma safe_mode_covers_every_condition_witness :
  exists src, raised (fun _ => false) confirm_settings src MConfirm.
Proof.
  apply (safe_mode_covers_every_condition (fun _ => false) confirm_settings MConfirm).
  vm_compute. reflexivity.
Defined.

(** ** The destructive gate *)

Lemma strictness_le_total a b : strictness_le a b = true \/ strictness_le b a = true.
Proof. unfold strictness_le. rewrite !Nat.leb_le. lia. Qed.
Lemma strictness_le_trans a b c :
  strictness_le a b = true -> strictness_le b c = true -> strictness_le a c = true.
Proof. unfold strictness_le. rewrite !Nat.leb_le. lia. Qed.

(** The mode of a destructive operation is decided by the conditions, not by the strictest of them:
    one condition that forbids DDL forbids it whatever else is raised ([confirm] is stricter than
    [no_ddl] but would only ask); otherwise one that asks makes it a question; it is allowed
    without one only when every condition is [full]. *)
Theorem destructive_mode_reads_the_entries (f : SafeModeFloor) :
  match destructive_mode_of f with
  | MNoDdl | MReadOnly => exists s m, (s, m) ∈ f /\ decision m KDdl = Refuse /\ m <> MConfirm
  | MConfirm => (exists s, (s, MConfirm) ∈ f) /\ forall s m, (s, m) ∈ f -> m = MConfirm \/ m = MFull
  | MFull => forall s m, (s, m) ∈ f -> m = MFull
  end.
Proof.
  unfold destructive_mode_of.
  assert (forall m, m ∈ List.filter forbids_ddl (snd <$> f) <-> forbids_ddl m = true /\ exists s, (s, m) ∈ f)
    as Hin.
  { intros m. rewrite list_elem_of_In, filter_In, <- list_elem_of_In, list_elem_of_fmap. split.
    - intros [([s m'] & -> & Hs) Hf]. eauto.
    - intros [Hf [s Hs]]. split; [|done]. by exists (s, m). }
  destruct (max_by strictness_le _) as [m|] eqn:E.
  - apply (max_by_spec _ strictness_le_total strictness_le_trans) in E as [Hm _].
    apply Hin in Hm as [Hf [s Hs]]. destruct m; try done; exists s; eexists; split_and!; done.
  - apply max_by_none in E. rewrite E in Hin.
    assert (forall s m, (s, m) ∈ f -> forbids_ddl m = false) as Hno.
    { intros s m Hs. destruct (forbids_ddl m) eqn:Ef; [exfalso|done].
      assert (m ∈ (@nil SafeMode)) as Hm by (apply Hin; eauto). by apply elem_of_nil in Hm. }
    destruct (existsb _ f) eqn:Ex.
    + apply existsb_exists in Ex as ([s m] & Hs & Hc). apply bool_decide_eq_true in Hc. simpl in Hc. subst.
      rewrite <- list_elem_of_In in Hs. split; [eauto|].
      intros s' m' Hs'. specialize (Hno _ _ Hs'). destruct m'; auto; done.
    + intros s m Hs. specialize (Hno _ _ Hs). destruct m; try done.
      exfalso. apply not_true_iff_false in Ex. apply Ex. apply existsb_exists.
      exists (s, MConfirm). split; [by apply list_elem_of_In|]. by apply bool_decide_eq_true.
Qed.

Lemma destructive_decision_ddl m k :
  (m = MNoDdl \/ m = MReadOnly) -> (destructive_decision m k).1 = Refuse.
Proof. intros [->| ->]; done. Qed.

(** ** The audit trail *)

Section Audit.
Context {S : Type} `{ExecutionStore S} (now_millis : S -> Z).

(** The row one decision leaves. *)
Definition row_of (mode : SafeMode) (confirmed : bool) (d : StatementDecision) : Stored :=
  let error := refusal_error d mode confirmed in
  MkStored (B (safe_mode_as_str mode)) (B (log_decision_str (logged error (d_decision d))))
    (B (kind_token (d_kind d))) (i64_of_index (d_index d))
    (B <$> match error with Some _ => d_reason d | None => None end).

Lemma record_decision_rows s mode c d r :
  record_decision now_millis (Some s) mode c d = inr r ->
  exists s', r = (Some s', refusal_error d mode c) /\ es_rows s' = es_rows s ++ [row_of mode c d].
Proof.
  unfold record_decision, record. destruct (es_append s _) as [s'|] eqn:E; [|done]. simpl.
  intros [= <-]. exists s'. split; [done|]. by apply es_append_rows in E.
Qed.

Lemma record_decision_no_sink mode c d :
  record_decision now_millis None mode c d = inr (None, refusal_error d mode c).
Proof. done. Qed.

Lemma record_decision_fails s mode c d e :
  record_decision now_millis s mode c d = inl e -> e = StorageFailed.
Proof. unfold record_decision. case_match; congruence. Qed.

Lemma guard_loop_audits mode c ds : forall s,
  exists s' before after,
    ds = before ++ after /\ Forall (fun d => refusal_error d mode c = None) before
    /\ (guard_loop now_millis (Some s) mode c ds).1 = Some s'
    /\ match (guard_loop now_millis (Some s) mode c ds).2 with
       | inr _ => after = [] /\ es_rows s' = es_rows s ++ (row_of mode c <$> before)
       | inl (Usage message) =>
           exists d rest e, after = d :: rest /\ refusal_error d mode c = Some e
             /\ message = display_error e
             /\ es_rows s' = es_rows s ++ (row_of mode c <$> before) ++ [row_of mode c d]
       | inl StorageFailed => after <> [] /\ es_rows s' = es_rows s ++ (row_of mode c <$> before)
       end.
Proof.
  induction ds as [|d ds IH]; intros s; cbn [guard_loop].
  { exists s, [], []. split_and!; try done. by rewrite app_nil_r. }
  destruct (record_decision now_millis (Some s) mode c d) as [e|r] eqn:Er.
  { apply record_decision_fails in Er as ->. exists s, [], (d :: ds). split_and!; try done.
    by rewrite app_nil_r. }
  apply record_decision_rows in Er as (s1 & -> & Hrows).
  destruct (refusal_error d mode c) as [e|] eqn:Ee.
  { exists s1, [], (d :: ds). split_and!; try done. exists d, ds, e. split_and!; done. }
  destruct (IH s1) as (s2 & before & after & -> & Hb & H1 & H2).
  exists s2, (d :: before), after. split_and!; [done|by constructor|done|].
  rewrite Hrows in H2. destruct (guard_loop now_millis (Some s1) mode c (before ++ after)).2 as [[m|]|].
  - destruct H2 as (x & rest & e & -> & Hx & -> & ->). exists x, rest, e. split_and!; try done.
    by rewrite fmap_cons, <- app_assoc.
  - destruct H2 as [? ->]. split; [done|]. by rewrite fmap_cons, <- app_assoc.
  - destruct H2 as [? ->]. split; [done|]. by rewrite fmap_cons, <- app_assoc.
Qed.

Lemma require_loop_ok sink mode reason ds :
  (require_loop now_millis sink mode reason ds).2 = inr tt
  <-> Forall (fun d => is_allowed (d_decision d) = true) ds.
Proof.
  induction ds as [|d ds IH]; cbn [require_loop]; [done|]. rewrite Forall_cons, <- IH.
  destruct (is_allowed (d_decision d)); [tauto|]. split; [|by intros []].
  repeat case_match; done.
Qed.

Lemma require_loop_pure sink mode reason ds :
  (require_loop now_millis sink mode reason ds).2 = inr tt ->
  (require_loop now_millis sink mode reason ds).1 = sink.
Proof.
  induction ds as [|d ds IH]; cbn [require_loop]; [done|].
  destruct (is_allowed (d_decision d)); [done|]. repeat case_match; done.
Qed.

(** C6: Every decision the guard makes is written down, once, in order. When it lets the script
    through, the log has grown by one row per statement and none of them was refused; when it
    refuses, by one row for each statement before the refused one and one for that, whose error is
    the message returned; and when a row cannot be written the guard fails, so nothing runs on a
    decision that was not recorded. *)
Theorem guard_records_every_decision (s : S) (mode : SafeMode) (c : bool) (sql : bytes) (d : Dialect) :
  let ds := decisions_readings mode sql (readings d) in
  exists s' before after,
    ds = before ++ after
    /\ Forall (fun x => permitted mode c (d_kind x) = true) before
    /\ (guard_confirmed now_millis (Some s) mode c sql d).1 = Some s'
    /\ match (guard_confirmed now_millis (Some s) mode c sql d).2 with
       | inr _ => after = [] /\ es_rows s' = es_rows s ++ (row_of mode c <$> ds)
       | inl (Usage message) =>
           exists x rest e, after = x :: rest /\ refusal_error x mode c = Some e
             /\ message = display_error e
             /\ es_rows s' = es_rows s ++ (row_of mode c <$> before ++ [x])
       | inl StorageFailed => after <> [] /\ es_rows s' = es_rows s ++ (row_of mode c <$> before)
       end.
Proof.
  intros ds. destruct (guard_loop_audits mode c ds s) as (s' & before & after & Hds & Hb & H1 & H2).
  exists s', before, after. unfold guard_confirmed. fold ds. split_and!; [done| |done|].
  - pose proof (decisions_readings_decided mode sql (readings d)) as Hd. fold ds in Hd.
    rewrite Hds in Hd. apply Forall_app in Hd as [Hd _]. rewrite Forall_forall in *.
    intros x Hx. specialize (Hb _ Hx). specialize (Hd _ Hx). unfold decided, permitted in *.
    apply refusal_error_none in Hb as [Hb|[Hb ->]]; by rewrite <- Hd, Hb.
  - destruct (guard_loop now_millis (Some s) mode c ds).2 as [[m|]|].
    + destruct H2 as (x & rest & e & -> & Hx & -> & ->). exists x, rest, e.
      split_and!; try done. by rewrite fmap_app.
    + done.
    + destruct H2 as [-> ->]. by rewrite Hds, app_nil_r.
Qed.

(** Without a log the guard is the check: it lets through what [check_confirmed_readings] lets
    through and refuses with its error. *)
Theorem guard_is_the_check (mode : SafeMode) (c : bool) (sql : bytes) (d : Dialect) :
  guard_confirmed now_millis None mode c sql d
  = (None, match check_confirmed_readings mode c sql (readings d) with
           | inl tt => inr tt
           | inr e => inl (Usage (display_error e))
           end).
Proof.
  unfold guard_confirmed, check_confirmed_readings.
  induction (decisions_readings mode sql (readings d)) as [|x ds IH]; [done|].
  cbn [guard_loop find_map]. rewrite record_decision_no_sink.
  by destruct (refusal_error x mode c).
Qed.

(** A run that repeats a read is let through, whatever the mode of the connection, exactly when
    [read_only] would let the script through unasked, and then nothing is written to the log; so
    no row claims that a write ran. *)
Theorem require_read_only_reads (sink : option S) (d : Dialect) (mode : SafeMode) (sql : bytes)
  (reason : string) :
  ((require_read now_millis sink d mode sql reason).2 = inr tt
   <-> check_confirmed_readings MReadOnly false sql (readings d) = inl tt)
  /\ ((require_read now_millis sink d mode sql reason).2 = inr tt ->
      (require_read now_millis sink d mode sql reason).1 = sink).
Proof.
  split; [|apply require_loop_pure]. unfold require_read. rewrite require_loop_ok.
  unfold check_confirmed_readings. rewrite to_result_ok, find_map_none.
  apply Forall_iff. intros x. rewrite refusal_error_none. unfold is_allowed.
  destruct (d_decision x); naive_solver.
Qed.
(** The destructive gate runs a statement only when the mode is [full], or is [confirm] and the
    caller confirmed; what the statement is does not matter. *)
Theorem guard_destructive_cases (sink : option S) (mode : SafeMode) (c : bool) (d : Dialect)
  (statement : bytes) :
  (guard_destructive_mode now_millis sink mode c d statement).2 = inr tt ->
  mode = MFull \/ (mode = MConfirm /\ c = true).
Proof.
  unfold guard_destructive_mode, record_decision.
  destruct mode; [by left| |destruct c; [by right|]|]; intros Hg; exfalso; revert Hg;
    unfold destructive_decision, refusal_error; simpl;
    destruct (record now_millis sink _); done.
Qed.
End Audit.

(** The chained log as the store of the examples. *)
#[local] Instance toy_store : ExecutionStore Storage := storage_store toy_hash toy_payload.
Definition toy_clock (s : Storage) : Z := 1700000000000.

Lemma require_read_only_reads_witness :
  (require_read toy_clock (Some empty_storage) Mysql MFull (B "SELECT 1") REQUIRE_READ_REASON).1
  = Some empty_storage.
Proof.
  apply (proj2 (require_read_only_reads toy_clock (Some empty_storage) Mysql MFull (B "SELECT 1")
                  REQUIRE_READ_REASON)).
  vm_compute. reflexivity.
Defined.

Lemma guard_destructive_cases_witness :
  MConfirm = MFull \/ (MConfirm = MConfirm /\ true = true).
Proof.
  apply (guard_destructive_cases toy_clock (Some empty_storage) MConfirm true Postgres (B "DROP TABLE t")).
  vm_compute. reflexivity.
Defined.

(** A log with a row for a read and one for the write that stopped the script. *)
Lemma guard_records_every_decision_witness :
  exists s' before after,
    decisions_readings MReadOnly (B "SELECT 1; DELETE FROM t; SELECT 2") (readings Generic)
      = before ++ after
    /\ (guard_confirmed toy_clock (Some empty_storage) MReadOnly false
          (B "SELECT 1; DELETE FROM t; SELECT 2") Generic).1 = Some s'.
Proof.
  destruct (guard_records_every_decision toy_clock empty_storage MReadOnly false
    (B "SELECT 1; DELETE FROM t; SELECT 2") Generic) as (s' & before & after & H1 & _ & H2 & _).
  exists s', before, after. exact (conj H1 H2).
Defined.
