(* ===== verification/Retry.v ===== *)
(** * Retry: repeating a call that an accident interrupted, [crates/qh-ffi/src/retry.rs] and the
    error taxonomy of [crates/qh-core/src/error.rs].

    A driver's call is a parameter: it reads and changes the state [W] of the connection.  Waiting
    out a backoff is recorded as the list of the waits, in nanoseconds. *)
From stdpp Require Import gmap.
From S2P Require Import Prelude Bytes Text Scan Script Classify Env Guard.

(** ** Errors *)

Inductive FailureKind := Transient | Permanent | Cancelled.
#[export] Instance FailureKind_eq_dec : EqDecision FailureKind.
Proof. solve_decision. Defined.

Inductive HostKeyState :=
| HkUnknown | HkChanged | HkRevoked | HkCertificate | HkCertificateExpected | HkPinMismatch
| HkRecordFailed | HkStoreUnsafe.
Definition host_key_state_str (s : HostKeyState) : string :=
  match s with
  | HkUnknown => "unknown" | HkChanged => "changed" | HkRevoked => "revoked"
  | HkCertificate => "certificate" | HkCertificateExpected => "certificate_expected"
  | HkPinMismatch => "pin_mismatch" | HkRecordFailed => "record_failed"
  | HkStoreUnsafe => "store_unsafe"
  end.

Record RecordedHostKey := MkHostKey {
  hk_fingerprint : bytes; hk_key_type : bytes; hk_source : bytes; hk_path : bytes; hk_line : Z }.
Record HostKeyFailure := MkHostKeyFailure {
  hkf_message : bytes; hkf_state : HostKeyState; hkf_host : bytes; hkf_port : Z;
  hkf_alias : option bytes; hkf_key_type : option bytes; hkf_fingerprint : option bytes;
  hkf_app_known_hosts : option bytes; hkf_ca_covered : bool; hkf_recorded : list RecordedHostKey;
  hkf_pinned : option bytes }.

Inductive EngineError :=
| EUsage (message : bytes)
| EConnect (message : bytes) (kind : FailureKind)
| EQuery (message : bytes) (code : option bytes) (position : option Z) (kind : FailureKind)
| EStaleHandle
| ETimeout (message : bytes) (limit_ms : option Z)
| EHostKey (failure : HostKeyFailure)
| EInternal (message : bytes).

Definition failure_kind (e : EngineError) : FailureKind :=
  match e with
  | EConnect _ kind | EQuery _ _ _ kind => kind
  | EUsage _ | EInternal _ => Permanent
  | EHostKey _ => Permanent
  | ETimeout _ _ => Permanent
  | EStaleHandle => Cancelled
  end.
Definition error_message (e : EngineError) : bytes :=
  match e with
  | EUsage m | EConnect m _ | EQuery m _ _ _ | ETimeout m _ | EInternal m => m
  | EHostKey f => hkf_message f
  | EStaleHandle => B "result handle is stale"
  end.
Definition error_code (e : EngineError) : option bytes :=
  match e with EQuery _ code _ _ => code | _ => None end.
Definition error_position (e : EngineError) : option Z :=
  match e with EQuery _ _ position _ => position | _ => None end.
Definition error_limit_ms (e : EngineError) : option Z :=
  match e with ETimeout _ limit_ms => limit_ms | _ => None end.
Definition error_host_key (e : EngineError) : option HostKeyFailure :=
  match e with EHostKey f => Some f | _ => None end.

(** ** The policy *)

Definition DEFAULT_RETRIES : Z := 5.
Definition NANOS : Z := 1000000000.
Definition BACKOFF_BASE : Z := (2 * NANOS)%Z.
(** [Duration::MAX]: 2^64 - 1 seconds and 999999999 nanoseconds. *)
Definition DURATION_MAX : Z := (2 ^ 64 * NANOS - 1)%Z.
Definition U32_MAX : Z := (2 ^ 32 - 1)%Z.

(** [retries] is a [u32], [backoff] a duration in nanoseconds. *)
Record RetryPolicy := MkPolicy { retries : Z; backoff : Z }.
Definition policy_ok (p : RetryPolicy) : Prop :=
  (0 <= retries p <= U32_MAX /\ 0 <= backoff p <= DURATION_MAX)%Z.

Definition policy_from_settings (s : Settings) : SettingError + RetryPolicy :=
  match number s (B "RETRIES") DEFAULT_RETRIES with
  | inl e => inl e
  | inr n =>
      let n := Z.max n 0 in
      inr (MkPolicy (if (n <=? U32_MAX)%Z then n else U32_MAX) BACKOFF_BASE)
  end.

(** [attempts]: a [u32] addition, [None] where it overflows. *)
Definition attempts (p : RetryPolicy) : option Z :=
  if (retries p + 1 <=? U32_MAX)%Z then Some (retries p + 1)%Z else None.

(** [1u32.checked_shl(attempt).unwrap_or(u32::MAX)], then [Duration::saturating_mul]. *)
Definition delay (p : RetryPolicy) (attempt : Z) : Z :=
  let factor := if (attempt <? 32)%Z then Z.shiftl 1 attempt else U32_MAX in
  Z.min (backoff p * factor) DURATION_MAX.

Definition again (p : RetryPolicy) (attempt : Z) (e : EngineError) : bool :=
  (attempt <? retries p)%Z && bool_decide (failure_kind e = Transient).

Definition produced_no_page (e : EngineError) : bool :=
  match e with
  | EConnect _ _ => true
  | EQuery _ code _ _ => match code with None => true | Some _ => false end
  | _ => false
  end.

Definition again_mid_stream (p : RetryPolicy) (attempt : Z) (e : EngineError) : bool :=
  again p attempt e && produced_no_page e.

(** ** The loops *)

Section Loop.
Context {W A : Type} (call : W -> (EngineError + A) * W).
(** When another attempt is made, after the failure of attempt number [attempt]. *)
Context (retry : Z -> EngineError -> bool) (p : RetryPolicy).

(** The state of the loop: [attempt], the connection, the waits so far. *)
Definition retry_turn (st : Z * W * list Z) : (Z * W * list Z) + ((EngineError + A) * W * list Z) :=
  let '(attempt, w, waits) := st in
  match call w with
  | (inr a, w) => inr (inr a, w, waits)
  | (inl e, w) =>
      if retry attempt e then inl ((attempt + 1)%Z, w, waits ++ [delay p attempt])
      else inr (inl e, w, waits)
  end.
End Loop.

(** The loops of [connect], [execute], [browse] and [objects]: they differ in the call. *)
Definition retry_call {W A} (call : W -> (EngineError + A) * W) (p : RetryPolicy) (w : W)
  : option ((EngineError + A) * W * list Z) :=
  iter (retry_turn call (again p) p) (S (Z.to_nat (retries p))) (0%Z, w, []).

Record RetryCursor (C : Type) := MkCursor { inner : C; cursor_policy : RetryPolicy; resumable : bool }.
Arguments MkCursor {C}. Arguments inner {C}. Arguments cursor_policy {C}. Arguments resumable {C}.

(** [execute] wraps the cursor it gets. *)
Definition retry_execute {W C} (call : W -> (EngineError + C) * W) (persistent_connection : W -> bool)
  (p : RetryPolicy) (w : W) : option ((EngineError + RetryCursor C) * W * list Z) :=
  match retry_call call p w with
  | Some (inr c, w, waits) => Some (inr (MkCursor c p (negb (persistent_connection w))), w, waits)
  | Some (inl e, w, waits) => Some (inl e, w, waits)
  | None => None
  end.

(** [RetryCursor::next_batch] over an inner cursor whose fetch is [fetch]. *)
Definition next_batch {C R} (fetch : C -> (EngineError + option R) * C) (c : RetryCursor C)
  : option ((EngineError + option R) * RetryCursor C * list Z) :=
  let p := cursor_policy c in
  match iter (retry_turn fetch (fun n e => resumable c && again_mid_stream p n e) p)
          (S (Z.to_nat (retries p))) (0%Z, inner c, []) with
  | Some (r, i, waits) => Some (r, MkCursor i p (resumable c), waits)
  | None => None
  end.

(** ** Waits *)

(** Every wait is a duration: it never overflows, whatever the policy and the attempt. *)
Lemma delay_bounds p n : policy_ok p -> (0 <= n)%Z -> (0 <= delay p n <= DURATION_MAX)%Z.
Proof.
  intros [_ Hb] Hn. unfold delay. set (f := if (n <? 32)%Z then _ else _).
  assert (0 <= f)%Z.
  { subst f. case_match; [|unfold U32_MAX; lia]. rewrite Z.shiftl_1_l. apply Z.pow_nonneg. lia. }
  split; [|lia]. apply Z.min_glb; [apply Z.mul_nonneg_nonneg; lia|].
  unfold DURATION_MAX, NANOS. lia.
Qed.

(** The delay doubles from the base, up to the factor a [u32] holds and the longest duration. *)
Theorem delay_doubles (p : RetryPolicy) (n : Z) :
  policy_ok p -> (0 <= n)%Z ->
  (0 <= delay p n <= DURATION_MAX)%Z
  /\ delay p n = Z.min (backoff p * (if (n <? 32)%Z then 2 ^ n else U32_MAX)) DURATION_MAX
  /\ (delay p n <= delay p (n + 1) <= 2 * delay p n)%Z.
Proof.
  intros Hp Hn. split; [by apply delay_bounds|]. destruct Hp as [_ Hb]. unfold delay.
  split; [case_match; [rewrite Z.shiftl_1_l|]; done|].
  assert (forall f g, (0 <= f <= g)%Z -> (g <= 2 * f)%Z ->
            (Z.min (backoff p * f) DURATION_MAX <= Z.min (backoff p * g) DURATION_MAX
             <= 2 * Z.min (backoff p * f) DURATION_MAX)%Z) as H.
  { intros f g Hf Hg. assert (backoff p * f <= backoff p * g)%Z by (apply Z.mul_le_mono_nonneg_l; lia).
    assert (backoff p * g <= 2 * (backoff p * f))%Z by nia. lia. }
  apply H; destruct (n <? 32)%Z eqn:E1, (n + 1 <? 32)%Z eqn:E2; try lia;
    rewrite ?Z.shiftl_1_l, ?Z.pow_add_r by lia; try (unfold U32_MAX; lia);
    try (assert (0 <= 2 ^ n)%Z by (apply Z.pow_nonneg; lia); lia);
    assert (n = 31)%Z as -> by lia; unfold U32_MAX; lia.
Qed.
Lemma delay_doubles_witness :
  (delay (MkPolicy 5 BACKOFF_BASE) 4 = 32 * NANOS)%Z.
Proof.
  destruct (delay_doubles (MkPolicy 5 BACKOFF_BASE) 4) as (_ & H & _);
    [split; vm_compute; split; discriminate|discriminate|].
  rewrite H. vm_compute. reflexivity.
Defined.

Lemma policy_from_settings_ok s p : policy_from_settings s = inr p -> policy_ok p.
Proof.
  unfold policy_from_settings. destruct (number s _ _) as [|n]; [done|]. intros [= <-].
  split; simpl; [case_match; unfold U32_MAX in *; lia|]. vm_compute; split; discriminate.
Qed.

(** A large [RETRIES] is kept at the greatest [u32], and then the number of attempts overflows one. *)
Example attempts_overflow :
  policy_from_settings {[ B "RETRIES" := B "4294967295" ]} = inr (MkPolicy U32_MAX BACKOFF_BASE)
  /\ attempts (MkPolicy U32_MAX BACKOFF_BASE) = None.
Proof. split; vm_compute; reflexivity. Qed.

(** ** What a loop does *)

Section LoopSpec.
Context {W A : Type} (call : W -> (EngineError + A) * W).
Context (retry : Z -> EngineError -> bool) (p : RetryPolicy).
Hypothesis Hretry : forall n e, retry n e = true -> (n < retries p)%Z.

(** The first calls from [w] fail with [es], leaving [w']. *)
Fixpoint failing (w : W) (es : list EngineError) (w' : W) : Prop :=
  match es with
  | [] => w' = w
  | e :: es => exists w1, call w = (inl e, w1) /\ failing w1 es w'
  end.

Lemma retry_loop_spec k : forall attempt w waits,
  (attempt + Z.of_nat k = retries p)%Z ->
  exists r w1 w2 es,
    iter (retry_turn call retry p) (S k) (attempt, w, waits)
      = Some (r, w2, waits ++ (delay p <$> seqZ attempt (Z.of_nat (length es))))
    /\ failing w es w1 /\ call w1 = (r, w2) /\ length es <= k
    /\ Forall (fun x => retry x.1 x.2 = true) (zip (seqZ attempt (Z.of_nat (length es))) es)
    /\ (forall e, r = inl e -> retry (attempt + Z.of_nat (length es))%Z e = false).
Proof.
  induction k as [|k IH]; intros attempt w waits Hk.
  - destruct (call w) as [r w2] eqn:Ec. exists r, w, w2, [].
    change (iter (retry_turn call retry p) 1 (attempt, w, waits))
      with (match retry_turn call retry p (attempt, w, waits) with
            | inl s => iter (retry_turn call retry p) 0 s | inr r => Some r end).
    unfold retry_turn. rewrite Ec. rewrite app_nil_r. destruct r as [e|a].
    + assert (retry attempt e = false) as Hr.
      { destruct (retry attempt e) eqn:Hr; [|done]. apply Hretry in Hr. lia. }
      rewrite Hr. split_and!; try done.
      intros e' [= <-]. by rewrite Z.add_0_r.
    + split_and!; done.
  - destruct (call w) as [r w2] eqn:Ec.
    change (iter (retry_turn call retry p) (S (S k)) (attempt, w, waits))
      with (match retry_turn call retry p (attempt, w, waits) with
            | inl s => iter (retry_turn call retry p) (S k) s | inr r => Some r end).
    unfold retry_turn at 1. rewrite Ec. destruct r as [e|a].
    + destruct (retry attempt e) eqn:Hr.
      * destruct (IH (attempt + 1)%Z w2 (waits ++ [delay p attempt]))
          as (r & w1 & w3 & es & -> & Hf & Hc & Hl & Hall & Hend); [lia|].
        exists r, w1, w3, (e :: es). simpl length. rewrite Nat2Z.inj_succ.
        rewrite (seqZ_cons attempt (Z.succ _)) by lia. rewrite <- app_assoc. rewrite Z.pred_succ.
        replace (Z.succ attempt) with (attempt + 1)%Z by lia.
        split_and!; [done|simpl; eauto|done|lia|by constructor|].
        intros e' Hr'. replace (attempt + Z.succ (Z.of_nat (length es)))%Z with (attempt + 1 + Z.of_nat (length es))%Z by lia.
        by apply Hend.
      * exists (inl e), w, w2, []. rewrite app_nil_r. simpl length. split_and!; try done; [simpl; lia|].
        intros e' [= <-]. by rewrite Z.add_0_r.
    + exists (inr a), w, w2, []. rewrite app_nil_r. split_and!; try done. simpl; lia.
Qed.
End LoopSpec.

Lemma again_lt p n e : again p n e = true -> (n < retries p)%Z.
Proof. unfold again. rewrite andb_true_iff. lia. Qed.

Lemma zip_seqZ_errors (P : Z -> EngineError -> bool) (Q : EngineError -> Prop) a es :
  (forall n e, P n e = true -> Q e) ->
  Forall (fun x => P x.1 x.2 = true) (zip (seqZ a (Z.of_nat (length es))) es) -> Forall Q es.
Proof.
  intros H. revert a; induction es as [|e es IH]; intros a; [constructor|].
  simpl length. rewrite Nat2Z.inj_succ, seqZ_cons by lia.
  rewrite Z.pred_succ.
  simpl. intros [H1 H2]%Forall_cons. constructor; [by eapply H|]. by eapply IH.
Qed.

(** A retried call ends with what its last call answered. *)
Lemma retry_call_runs {W A : Type} (call : W -> (EngineError + A) * W) (p : RetryPolicy) (w : W) : policy_ok p ->
  exists r w1 w2 waits, retry_call call p w = Some (r, w2, waits) /\ call w1 = (r, w2).
Proof.
  intros [Hp _]. destruct (retry_loop_spec call (again p) p (again_lt p) (Z.to_nat (retries p)) 0 w [])
    as (r & w1 & w2 & es & E & _ & Hc & _); [lia|]. by eexists r, w1, w2, _.
Qed.

(** A retried call ends: after at most [RETRIES] transient failures, waited out in the doubling
    schedule, it returns what the last call made returned; that is an answer, a failure a retry
    cannot help with, or the failure of the last attempt allowed. *)
Theorem retry_call_spec {W A : Type} (call : W -> (EngineError + A) * W) (p : RetryPolicy) (w : W) :
  policy_ok p ->
  exists r w1 w2 es,
    retry_call call p w = Some (r, w2, delay p <$> seqZ 0 (Z.of_nat (length es)))
    /\ failing call w es w1 /\ call w1 = (r, w2)
    /\ (Z.of_nat (length es) <= retries p)%Z
    /\ Forall (fun e => failure_kind e = Transient) es
    /\ (forall e, r = inl e -> failure_kind e <> Transient \/ Z.of_nat (length es) = retries p).
Proof.
  intros [Hp _].
  destruct (retry_loop_spec call (again p) p (again_lt p) (Z.to_nat (retries p)) 0 w [])
    as (r & w1 & w2 & es & E & Hf & Hc & Hl & Hall & Hend); [lia|].
  exists r, w1, w2, es. split_and!; [exact E|done|done|lia| |].
  - eapply (zip_seqZ_errors (again p)); [|exact Hall]. intros n e.
    unfold again. intros [_ H]%andb_true_iff. by apply bool_decide_eq_true in H.
  - intros e He. specialize (Hend e He). unfold again in Hend.
    apply andb_false_iff in Hend as [H|H]; [right; lia|left; by apply bool_decide_eq_false in H].
Qed.
(** A coordinator that is restarting: two refused connections, then a session. *)
Definition restarting (n : nat) : (EngineError + nat) * nat :=
  (if n <? 2 then inl (EConnect (B "connection refused") Transient) else inr n, n + 1).
Lemma retry_call_spec_witness :
  exists r w1 w2 es,
    retry_call restarting (MkPolicy 5 BACKOFF_BASE) 0
      = Some (r, w2, delay (MkPolicy 5 BACKOFF_BASE) <$> seqZ 0 (Z.of_nat (length es)))
    /\ failing restarting 0 es w1 /\ restarting w1 = (r, w2)
    /\ (Z.of_nat (length es) <= 5)%Z
    /\ Forall (fun e => failure_kind e = Transient) es
    /\ (forall e, r = inl e -> failure_kind e <> Transient \/ Z.of_nat (length es) = 5%Z).
Proof.
  apply (retry_call_spec restarting (MkPolicy 5 BACKOFF_BASE) 0).
  split; vm_compute; split; discriminate.
Defined.

(** ** No page twice *)

(** What the retry needs of a driver: [pages] are the batches a cursor has not handed over, [in_step] says
    that it still answers from where it is. A batch is handed over once, and the end is reported when
    none is left. A cursor that asks for its pages by address ([by_address], Trino's, the only one of a
    session that keeps no connection) is still in step after a failure that carried no answer of the server.
    Nothing is said of a cursor after any other failure: one that lives inside a connection may report
    the end when it is asked again, and so may one whose page the server answered with an error. *)
Class PagedCursor (C R : Type) := {
  fetch : C -> (EngineError + option R) * C;
  pages : C -> list R;
  in_step : C -> Prop;
  by_address : C -> Prop;
  fetch_batch : forall c r c', in_step c -> fetch c = (inr (Some r), c') -> pages c = r :: pages c' /\ in_step c' /\ (by_address c -> by_address c');
  fetch_end : forall c c', in_step c -> fetch c = (inr None, c') -> pages c = [];
  fetch_no_page : forall c e c', in_step c -> by_address c -> fetch c = (inl e, c') -> produced_no_page e = true ->
    pages c' = pages c /\ in_step c' /\ by_address c';
}.

(** Reading a result to its end through the retrying cursor: the batches delivered, and the error
    that ended it if one did. *)
Fixpoint drain {C R} `{PagedCursor C R} (n : nat) (c : RetryCursor C)
  : option (list R * option EngineError) :=
  match n with
  | O => None
  | S n =>
      match next_batch fetch c with
      | Some (inr (Some r), c, _) => '(rs, e) ← drain n c; Some (r :: rs, e)
      | Some (inr None, _, _) => Some ([], None)
      | Some (inl e, _, _) => Some ([], Some e)
      | None => None
      end
  end.

Lemma again_mid_stream_no_page p n e : again_mid_stream p n e = true -> produced_no_page e = true.
Proof. unfold again_mid_stream. by intros [_ H]%andb_true_iff. Qed.

Section Paged.
Context {C R : Type} `{PagedCursor C R}.
Lemma failing_pages (c : C) es c' : in_step c -> (es <> [] -> by_address c) -> failing fetch c es c' ->
  Forall (fun e => produced_no_page e = true) es -> pages c' = pages c /\ in_step c' /\ (by_address c -> by_address c').
Proof.
  revert c; induction es as [|e es IH]; intros c Hs Ha; cbn [failing]; [by intros ->|].
  intros (c1 & Hf & Hr) [He Hes]%Forall_cons. specialize (Ha ltac:(done)).
  destruct (fetch_no_page c e c1 Hs Ha Hf He) as (Hp & Hs1 & Ha1).
  destruct (IH c1 Hs1 (fun _ => Ha1) Hr Hes) as (Hp2 & Hs2 & Ha2). split; [congruence|]. by split; [|intros _; apply Ha2].
Qed.

(** One call of the wrapped cursor: a cursor that may not be asked again is asked once. *)
Lemma next_batch_spec (c : RetryCursor C) : policy_ok (cursor_policy c) -> in_step (inner c) -> (resumable c = true -> by_address (inner c)) ->
  exists r c' waits, next_batch fetch c = Some (r, c', waits) /\ cursor_policy c' = cursor_policy c /\ resumable c' = resumable c
    /\ match r with
       | inr (Some b) => pages (inner c) = b :: pages (inner c') /\ in_step (inner c') /\ (resumable c' = true -> by_address (inner c'))
       | inr None => pages (inner c) = []
       | inl _ => True
       end.
Proof.
  intros [Hp _] Hs Ha. unfold next_batch. set (p := cursor_policy c) in *.
  destruct (retry_loop_spec fetch (fun n e => resumable c && again_mid_stream p n e) p)
    with (k := Z.to_nat (retries p)) (attempt := 0%Z) (w := inner c) (waits := @nil Z)
    as (r & c1 & c2 & es & E & Hf & Hc & Hl & Hall & Hend).
  { intros n e [_ Hn]%andb_true_iff. unfold again_mid_stream in Hn. apply andb_true_iff in Hn as [Hn _]. by eapply again_lt. }
  { lia. }
  rewrite E. eexists _, _, _. split; [done|]. split; [done|]. split; [done|]. cbn [inner resumable].
  assert (Forall (fun e => resumable c = true /\ produced_no_page e = true) es) as Hes.
  { eapply (zip_seqZ_errors (fun n e => resumable c && again_mid_stream p n e)); [|exact Hall].
    intros n e [Hr Hn]%andb_true_iff. split; [done|by eapply again_mid_stream_no_page]. }
  destruct (failing_pages (inner c) es c1 Hs) as (Hpg & Hs1 & Ha1); [|done|by eapply Forall_impl; [exact Hes|intros e [_ ?]]|].
  { intros Hne. apply Ha. by destruct es; [|apply Forall_cons in Hes as [[? _] _]]. }
  rewrite <- Hpg. destruct r as [e|[b|]]; [done| |by eapply fetch_end].
  destruct (fetch_batch c1 b c2 Hs1 Hc) as (Hb & Hs2 & Ha2). split; [done|]. split; [done|]. intros Hr. by apply Ha2, Ha1, Ha.
Qed.
Lemma drain_spec n : forall c : RetryCursor C, n = length (pages (inner c)) ->
  policy_ok (cursor_policy c) -> in_step (inner c) -> (resumable c = true -> by_address (inner c)) ->
  exists delivered error, drain (S n) c = Some (delivered, error)
    /\ exists rest, pages (inner c) = delivered ++ rest /\ (error = None -> rest = []).
Proof.
  induction n as [|n IH]; intros c Hn Hp Hs Ha; cbn [drain];
    destruct (next_batch_spec c Hp Hs Ha) as (r & c' & waits & -> & Hpol & Hres & Hr);
    destruct r as [e|[b|]].
  - exists [], (Some e). split; [done|]. by exists (pages (inner c)).
  - destruct Hr as [Hr _]. by rewrite Hr in Hn.
  - exists [], None. split; [done|]. exists []. by rewrite Hr.
  - exists [], (Some e). split; [done|]. by exists (pages (inner c)).
  - destruct Hr as (Hr & Hs' & Ha'). rewrite Hr in Hn. injection Hn as Hn. rewrite <- Hpol in Hp.
    destruct (IH c' Hn Hp Hs' Ha') as (ds & e & E & rest & Hrest & He).
    cbn [drain] in E. rewrite E. exists (b :: ds), e. split; [done|].
    exists rest. split; [|done]. by rewrite Hr, Hrest.
  - exists [], None. split; [done|]. exists []. by rewrite Hr.
Qed.
End Paged.

(** A driver's [execute]: the cursor it answers with is in step, and one of a session that keeps no connection
    asks for its pages by address. *)
Definition opens_cursor {W C R} `{PagedCursor C R} (call : W -> (EngineError + C) * W) (persistent_connection : W -> bool) : Prop :=
  forall w c w', call w = (inr c, w') -> in_step c /\ (persistent_connection w' = false -> by_address c).


(** A driver with its answers scripted: the pages left, how many fetches fail before each page with no answer of the
    server, and whether the cursor lives inside a connection, which is then lost with the first failure:
    asked again it says that the result has ended. *)
Record Scripted := MkScripted { sc_pages : list nat; sc_failures : nat; sc_connected : bool; sc_lost : bool }.
Definition scripted_fetch (c : Scripted) : (EngineError + option nat) * Scripted :=
  if sc_lost c then (inr None, c)
  else match sc_failures c with
       | S k => (inl (EConnect (B "connection reset") Transient), MkScripted (sc_pages c) k (sc_connected c) (sc_connected c))
       | O => match sc_pages c with
              | r :: rs => (inr (Some r), MkScripted rs 1 (sc_connected c) false)
              | [] => (inr None, c)
              end
       end.
#[export] Instance scripted_cursor : PagedCursor Scripted nat.
Proof.
  refine {| fetch := scripted_fetch; pages := sc_pages; in_step c := sc_lost c = false; by_address c := sc_connected c = false |};
    intros [ps [|k] [] []]; cbn; try done; unfold scripted_fetch; cbn; destruct ps; cbn; intros; simplify_eq; done.
Defined.
(** The session: refused once, then a cursor over three pages. *)
Definition scripted_execute (w : nat * bool) : (EngineError + Scripted) * (nat * bool) :=
  match w with
  | (S k, persistent) => (inl (EConnect (B "connection refused") Transient), (k, persistent))
  | (O, persistent) => (inr (MkScripted [7; 8; 9] 2 persistent false), (O, persistent))
  end.
Lemma scripted_opens : opens_cursor scripted_execute snd.
Proof. intros [[|k] b] c w'; cbn; intros; simplify_eq; done. Qed.
Definition scripted_read (persistent : bool) : Prop :=
  exists r w' waits, retry_execute scripted_execute snd (MkPolicy 5 BACKOFF_BASE) (1, persistent) = Some (r, w', waits)
    /\ match r with
       | inl _ => True
       | inr c => exists delivered error, drain (S (length (pages (inner c)))) c = Some (delivered, error)
                  /\ exists rest, pages (inner c) = delivered ++ rest /\ (error = None -> rest = [])
       end.
Example scripted_drain :
  drain 4 (MkCursor (MkScripted [7; 8; 9] 2 false false) (MkPolicy 5 BACKOFF_BASE) true) = Some ([7; 8; 9], None)
  /\ drain 4 (MkCursor (MkScripted [7; 8; 9] 2 true false) (MkPolicy 5 BACKOFF_BASE) false)
     = Some ([], Some (EConnect (B "connection reset") Transient)).
Proof. split; vm_compute; reflexivity. Qed.
