(* ===== verification/Plan.v ===== *)
(** * Plan: one export and its files, [crates/qh-export/src/plan.rs] and the formats of
    [crates/qh-export/src/lib.rs].

    [Exporter] splits rows over parts, writes every part under a staging name and renames the
    parts at the end.  A format's writer is a parameter: what it has put in its file is a function
    of its state.  The file system is a finite map from paths; whether a call to it goes through
    is an oracle. *)
From stdpp Require Import gmap.
From S2P Require Import Prelude Bytes Text Scan Classify Env.

(** ** Formats *)

Inductive Format := FText | FCsv | FJson | FXml | FHtml | FSql | FXlsx | FXls | FDbf | FParquet.
#[export] Instance Format_eq_dec : EqDecision Format.
Proof. solve_decision. Defined.
Definition FORMATS : list Format :=
  [FText; FCsv; FJson; FXml; FHtml; FSql; FXls; FXlsx; FDbf; FParquet].

Definition format_name (f : Format) : string :=
  match f with
  | FText => "txt" | FCsv => "csv" | FJson => "json" | FXml => "xml" | FHtml => "html"
  | FSql => "sql" | FXlsx => "xlsx" | FXls => "xls" | FDbf => "dbf" | FParquet => "parquet"
  end.
Definition extension (f : Format) : string :=
  match f with
  | FText => "txt" | FCsv => "csv" | FJson => "json" | FXml => "xml" | FHtml => "html"
  | FSql => "sql" | FXlsx => "xlsx" | FXls => "xls" | FDbf => "dbf" | FParquet => "parquet"
  end.
Definition format_parse (name : bytes) : option Format :=
  let name := lower (trim name) in
  let name := if says name "text" then B "txt" else name in
  List.find (fun f => says name (format_name f)) FORMATS.
Definition max_rows (f : Format) : option Z :=
  match f with
  | FXls => Some (65536 - 1)%Z
  | FXlsx => Some (1048576 - 1)%Z
  | _ => None
  end.
Definition implemented (f : Format) : bool :=
  match f with
  | FText | FCsv | FJson | FXml | FHtml | FSql | FDbf | FXlsx | FXls | FParquet => true
  end.
Definition renderable (f : Format) : bool :=
  match f with FText | FCsv | FXml | FHtml => true | _ => false end.

Record ExportOptions := MkOptions {
  o_header : bool; o_delimiter : option Z; o_quotechar : Z; o_null_text : bytes;
  o_lineterminator : bytes; o_bom : bool; o_encoding : bytes; o_jsonl : bool; o_indent : nat;
  o_xml_root : bytes; o_xml_record : bytes; o_title : option bytes; o_sql_dialect : Dialect;
  o_sql_rows_per_insert : nat; o_sql_table : option bytes; o_dbf_char_width : nat;
  o_dbf_encoding : bytes; o_sheet : option bytes }.
Definition default_options : ExportOptions :=
  MkOptions true None DQUOTE [] [CR; LF] false (B "utf-8") false 2 (B "RECORDS") (B "RECORD") None
    Generic 200 None 254 (B "cp1252") None.

(** [row_limit]: the smaller of the two ceilings, zero being none. *)
Definition opt_min (a b : option Z) : option Z :=
  match a, b with
  | Some a, Some b => Some (Z.min a b)
  | Some a, None => Some a
  | None, b => b
  end.
Definition positive (n : option Z) : option Z :=
  match n with Some n => if (0 <? n)%Z then Some n else None | None => None end.
Definition row_limit (f : Format) (rows_per_file : option Z) : option Z :=
  opt_min (positive (max_rows f)) (positive rows_per_file).

(** ** Names *)

(** A path: its directory and its last component. *)
Definition Path : Type := bytes * bytes.

(** [out_dir.join("{basename}.{ext}")], and the numbered names of the parts after the first; the
    base name is a file name, with no separator in it. *)
Definition part_name (basename ext : bytes) (index : nat) : bytes :=
  match index with
  | O => basename ++ B "." ++ ext
  | S _ => basename ++ B "_part" ++ decimal2 (Z.of_nat index + 1) ++ B "." ++ ext
  end.
Definition part_path (out_dir basename ext : bytes) (index : nat) : Path :=
  (out_dir, part_name basename ext index).

(** [Path::file_stem] of a name. *)
Definition file_stem (name : bytes) : bytes :=
  match position (fun b => b =b DOT) (rev name) with
  | Some k => let i := length name - 1 - k in if i =? 0 then name else take i name
  | None => name
  end.

(** ** The file system *)

Section Plan.
(** What a file holds, a row, a column, the state of a writer, and an error of the row source. *)
Context {C Row Col W E : Type}.

Inductive ExportError :=
| EIo
| EUnsupported (format : string)
| EUsage (message : bytes)
| ESource (error : E).

(** A file has its permissions and its content; a link names another path. *)
Inductive Node := File (mode : Z) (content : C) | Directory | Link (target : Path).

(** [w_next] is the counter of [staging_path], [w_clock] the calls made to the file system. *)
Record World := MkWorld { w_files : gmap Path Node; w_next : Z; w_clock : nat }.

(** A writer. [wr_new] opens one on a file that is not there and says what the file holds when
    it cannot; [wr_file] is what the file holds, [None] until the writer creates it. *)
Record WriterOps := MkWriter {
  wr_new : Format -> list Col -> ExportOptions -> (ExportError * option C) + W;
  wr_row : W -> Row -> option ExportError * W;
  wr_finish : W -> option ExportError * W;
  wr_truncated : W -> nat;
  wr_warnings : W -> list bytes;
  wr_file : W -> option C;
}.

(** [ops]: the writers. [io]: whether the n-th call to the file system goes through. [pid]: the
    process. [mode_new]: the permissions of a new file. *)
Context (ops : WriterOps) (io : nat -> bool) (pid mode_new : Z).

Definition set_files (w : World) (f : gmap Path Node) : World := MkWorld f (w_next w) (w_clock w).
(** One call to the file system. *)
Definition tick (w : World) : bool * World := (io (w_clock w), MkWorld (w_files w) (w_next w) (S (w_clock w))).

(** [fs::symlink_metadata(path).is_ok()] *)
Definition occupied (w : World) (p : Path) : bool := bool_decide (is_Some (w_files w !! p)).

(** [fs::canonicalize]: links followed, as many as the system allows; [None] at a dead end. *)
Definition LINKS : nat := 40.
Fixpoint resolve (fuel : nat) (files : gmap Path Node) (p : Path) : option Path :=
  match fuel with
  | O => None
  | S fuel =>
      match files !! p with
      | Some (Link q) => resolve fuel files q
      | Some _ => Some p
      | None => None
      end
  end.

(** What the writer has put in its file is there; the file keeps its permissions. *)
Definition sync (w : World) (p : Path) (c : option C) : World :=
  match c with
  | Some c =>
      let mode := match w_files w !! p with Some (File m _) => m | _ => mode_new end in
      set_files w (<[p := File mode c]> (w_files w))
  | None => w
  end.

Definition remove_file (w : World) (p : Path) : World :=
  let '(ok, w) := tick w in
  if ok then set_files w (delete p (w_files w)) else w.
Definition remove_files (w : World) (ps : list Path) : World := foldl remove_file w ps.

(** [staging_path]: the plain name if it is free, else the first free numbered one. *)
Definition staged_name (name : bytes) : bytes := B "." ++ name ++ B ".qhpart".
Definition numbered_name (name : bytes) (n : Z) : bytes :=
  B "." ++ name ++ B "." ++ decimal pid ++ B "-" ++ decimal n ++ B ".qhpart".
Definition U64 : Z := (2 ^ 64)%Z.
Definition staging_turn (p : Path) (w : World) : World + (Path * World) :=
  let unique := (p.1, numbered_name p.2 (w_next w)) in
  let w := MkWorld (w_files w) ((w_next w + 1) `mod` U64)%Z (w_clock w) in
  if occupied w unique then inl w else inr (unique, w).
Definition staging_path (p : Path) (w : World) : option (Path * World) :=
  let plain := (p.1, staged_name p.2) in
  if occupied w plain then iter (staging_turn p) (S (size (w_files w))) w
  else Some (plain, w).

(** [place]: rename the staged file onto its name, keeping the permissions of the file there and
    following a link. *)
Definition LINK_REFUSED (p : Path) : bytes :=
  p.1 ++ B "/" ++ p.2 ++ B " is a symbolic link that points nowhere. Remove it or choose another name.".
Definition place (staging final : Path) (w : World) : option ExportError * World :=
  let target := match w_files w !! final with
                | Some (Link _) => resolve LINKS (w_files w) final
                | _ => Some final
                end in
  match target with
  | None => (Some (EUsage (LINK_REFUSED final)), w)
  | Some target =>
      let '(ok, w) :=
        match w_files w !! target with
        | Some (File old _) =>
            let '(ok, w) := tick w in
            (ok, if ok then match w_files w !! staging with
                            | Some (File _ c) => set_files w (<[staging := File old c]> (w_files w))
                            | _ => w
                            end
                 else w)
        | _ => (true, w)
        end in
      if negb ok then (Some EIo, w) else
      let '(ok, w) := tick w in
      match ok, w_files w !! staging, w_files w !! target with
      | true, Some (File m c), (None | Some (File _ _ | Link _)) =>
          (None, set_files w (<[target := File m c]> (delete staging (w_files w))))
      | _, _, _ => (Some EIo, w)
      end
  end.

Definition PART_EXISTS (p : Path) : bytes :=
  p.1 ++ B "/" ++ p.2 ++ B " already exists, and a split export does not replace a part. Move or delete it, or choose another name.".
Definition require_free (w : World) (p : Path) : option ExportError :=
  if occupied w p then Some (EUsage (PART_EXISTS p)) else None.

(** ** The exporter *)

Record ExportSpec := MkSpec {
  sp_format : Format; sp_out_dir : bytes; sp_basename : bytes; sp_columns : list Col;
  sp_options : ExportOptions; sp_rows_per_file : option Z }.

Record Exporter := MkExporter {
  x_format : Format; x_out_dir : bytes; x_basename : bytes; x_options : ExportOptions;
  x_columns : list Col; x_limit : option Z; x_part : nat; x_in_part : nat; x_writer : option W;
  x_files : list Path; x_staging : list Path; x_rows : nat; x_warnings : list bytes;
  x_cancelled : bool; x_finished : bool }.

Definition set_parts (x : Exporter) (part in_part : nat) : Exporter :=
  MkExporter (x_format x) (x_out_dir x) (x_basename x) (x_options x) (x_columns x) (x_limit x)
    part in_part (x_writer x) (x_files x) (x_staging x) (x_rows x) (x_warnings x)
    (x_cancelled x) (x_finished x).
Definition set_writer (x : Exporter) (wr : option W) : Exporter :=
  MkExporter (x_format x) (x_out_dir x) (x_basename x) (x_options x) (x_columns x) (x_limit x)
    (x_part x) (x_in_part x) wr (x_files x) (x_staging x) (x_rows x) (x_warnings x)
    (x_cancelled x) (x_finished x).
Definition set_paths (x : Exporter) (files staging : list Path) : Exporter :=
  MkExporter (x_format x) (x_out_dir x) (x_basename x) (x_options x) (x_columns x) (x_limit x)
    (x_part x) (x_in_part x) (x_writer x) files staging (x_rows x) (x_warnings x)
    (x_cancelled x) (x_finished x).
Definition add_row (x : Exporter) : Exporter :=
  MkExporter (x_format x) (x_out_dir x) (x_basename x) (x_options x) (x_columns x) (x_limit x)
    (x_part x) (S (x_in_part x)) (x_writer x) (x_files x) (x_staging x) (S (x_rows x))
    (x_warnings x) (x_cancelled x) (x_finished x).
Definition warn (x : Exporter) (notes : list bytes) : Exporter :=
  MkExporter (x_format x) (x_out_dir x) (x_basename x) (x_options x) (x_columns x) (x_limit x)
    (x_part x) (x_in_part x) (x_writer x) (x_files x) (x_staging x) (x_rows x)
    (x_warnings x ++ notes) (x_cancelled x) (x_finished x).
Definition mark_cancelled (x : Exporter) : Exporter :=
  MkExporter (x_format x) (x_out_dir x) (x_basename x) (x_options x) (x_columns x) (x_limit x)
    (x_part x) (x_in_part x) (x_writer x) (x_files x) (x_staging x) (x_rows x) (x_warnings x)
    true (x_finished x).
Definition set_finished (x : Exporter) : Exporter :=
  MkExporter (x_format x) (x_out_dir x) (x_basename x) (x_options x) (x_columns x) (x_limit x)
    (x_part x) (x_in_part x) (x_writer x) (x_files x) (x_staging x) (x_rows x) (x_warnings x)
    (x_cancelled x) true.

(** A method of the exporter: it changes the exporter and the file system, and may fail. *)
Definition M (A : Type) : Type := Exporter * World -> (ExportError + A) * (Exporter * World).
Definition ret {A} (a : A) : M A := fun st => (inr a, st).
Definition raise {A} (e : ExportError) : M A := fun st => (inl e, st).
Definition bind {A B} (m : M A) (f : A -> M B) : M B := fun st =>
  match m st with
  | (inr a, st) => f a st
  | (inl e, st) => (inl e, st)
  end.
Definition update (f : Exporter -> Exporter) : M unit := fun '(x, w) => (inr tt, (f x, w)).
Definition reads {A} (f : Exporter -> M A) : M A := fun st => f st.1 st.
Definition try (f : World -> option ExportError) : M unit := fun '(x, w) =>
  (match f w with Some e => inl e | None => inr tt end, (x, w)).
Local Notation "x <- m ;; k" := (bind m (fun x => k)) (at level 100, m at next level, right associativity) : qh_scope.
Local Notation "m ;;; k" := (bind m (fun _ => k)) (at level 100, right associativity) : qh_scope.
Local Open Scope qh_scope.

(** [open] of the crate, on a staging path. *)
Definition NO_COLUMNS : bytes :=
  B "an export needs at least one column: the writers take their header and their shape from them".
Definition open_writer (path : Path) (options : ExportOptions) : M unit := fun '(x, w) =>
  if negb (implemented (x_format x)) then
    (inl (EUnsupported (format_name (x_format x))), (x, w))
  else match x_columns x with
  | [] => (inl (EUsage NO_COLUMNS), (x, w))
  | _ =>
      match wr_new ops (x_format x) (x_columns x) options with
      | inl (e, c) => (inl e, (x, sync w path c))
      | inr wr => (inr tt, (set_writer x (Some wr), sync w path (wr_file ops wr)))
      end
  end.

(** [truncation_note] *)
Definition truncation_note (f : Format) : bytes :=
  match f with
  | FXls | FXlsx => B "cell(s) cut to the 32,767-character limit of an Excel cell"
  | _ => B "value(s) truncated to the dbf field width"
  end.
Definition stem_option (o stem : option bytes) : option bytes :=
  match o with Some t => Some t | None => stem end.
Definition titled (o : ExportOptions) (stem : option bytes) : ExportOptions :=
  MkOptions (o_header o) (o_delimiter o) (o_quotechar o) (o_null_text o) (o_lineterminator o)
    (o_bom o) (o_encoding o) (o_jsonl o) (o_indent o) (o_xml_root o) (o_xml_record o)
    (stem_option (o_title o) stem) (o_sql_dialect o) (o_sql_rows_per_insert o)
    (stem_option (o_sql_table o) stem) (o_dbf_char_width o) (o_dbf_encoding o) (o_sheet o).

(** [staging_path] as a step: it moves the counter. It always answers ([staging_path_free]). *)
Definition stage (p : Path) : M Path := fun '(x, w) =>
  match staging_path p w with
  | Some (s, w) => (inr s, (x, w))
  | None => (inl EIo, (x, w))
  end.

Definition open_part (index : nat) : M unit := reads (fun x =>
  let path := part_path (x_out_dir x) (x_basename x) (B (extension (x_format x))) index in
  (if 0 <? index then try (fun w => require_free w path) else ret tt) ;;;
  staging <- stage path ;;
  open_writer staging (titled (x_options x) (Some (file_stem path.2))) ;;;
  update (fun x => set_paths x (x_files x ++ [path]) (x_staging x ++ [staging]))).

(** The writer's file after a call to the writer: it is the staged file of the open part. *)
Definition wrote (wr : W) (e : option ExportError) : M unit := fun '(x, w) =>
  (match e with Some e => inl e | None => inr tt end,
   (x, match last (x_staging x) with Some p => sync w p (wr_file ops wr) | None => w end)).

Definition close_notes (x : Exporter) (wr : W) : list bytes :=
  let name := match last (x_files x) with Some p => p.2 | None => x_basename x end in
  (if 0 <? wr_truncated ops wr then
     [name ++ B ": " ++ decimal (Z.of_nat (wr_truncated ops wr)) ++ B " " ++ truncation_note (x_format x)]
   else [])
  ++ ((fun note => name ++ B ": " ++ note) <$> wr_warnings ops wr).

Definition close_part : M unit := reads (fun x =>
  match x_writer x with
  | None => ret tt
  | Some wr =>
      let '(e, wr) := wr_finish ops wr in
      update (fun x => set_writer x None) ;;;
      wrote wr e ;;;
      update (fun x => warn x (close_notes x wr))
  end).

Definition roll_over : M unit := reads (fun x =>
  (if x_part x =? 0 then
     let renamed := (x_out_dir x, x_basename x ++ B "_part01." ++ B (extension (x_format x))) in
     try (fun w => require_free w renamed) ;;;
     update (fun x => set_paths x (<[0 := renamed]> (x_files x)) (x_staging x))
   else ret tt) ;;;
  close_part ;;;
  update (fun x => set_parts x (S (x_part x)) 0) ;;;
  reads (fun x => open_part (x_part x))).

Definition ALREADY_FINISHED : bytes := B "this export has already been finished".
Definition part_full (x : Exporter) : bool :=
  match x_limit x with Some limit => (limit <=? Z.of_nat (x_in_part x))%Z | None => false end.
Definition write_row (row : Row) : M unit := reads (fun x =>
  (if part_full x then roll_over else ret tt) ;;;
  reads (fun x =>
    match x_writer x with
    | None => raise (EUsage ALREADY_FINISHED)
    | Some wr =>
        let '(e, wr) := wr_row ops wr row in
        update (fun x => set_writer x (Some wr)) ;;;
        wrote wr e ;;;
        update add_row
    end)).

(** [abort]: every staged file is deleted. *)
Definition abort (st : Exporter * World) : Exporter * World :=
  let '(x, w) := st in
  (set_paths (set_writer (set_finished x) None) (x_files x) [], remove_files w (x_staging x)).

(** The renames of [commit], from part [index]. *)
Fixpoint place_all (staged files : list Path) (w : World) : option ExportError * World :=
  match staged, files with
  | [], _ => (None, w)
  | s :: staged', p :: files =>
      match place s p w with
      | (Some e, w) => (Some e, remove_files w staged)
      | (None, w) => place_all staged' files w
      end
  | _ :: _, [] => (Some EIo, w)
  end.
Fixpoint first_taken (w : World) (ps : list Path) : option ExportError :=
  match ps with
  | [] => None
  | p :: ps => match require_free w p with Some e => Some e | None => first_taken w ps end
  end.
Definition commit : M unit := fun '(x, w) =>
  match (if 1 <? length (x_files x) then first_taken w (x_files x) else None) with
  | Some e => (inl e, (x, w))
  | None =>
      let '(e, w) := place_all (x_staging x) (x_files x) w in
      (match e with Some e => inl e | None => inr tt end, (set_paths x (x_files x) [], w))
  end.

Definition finish (st : Exporter * World) : (ExportError + unit) * (Exporter * World) :=
  if x_finished st.1 then (inr tt, st)
  else match (update set_finished ;;; close_part ;;; commit) st with
       | (inr _, st) => (inr tt, st)
       | (inl e, st) => (inl e, abort st)
       end.

Definition exporter_new (s : ExportSpec) (w : World) : (ExportError + unit) * (Exporter * World) :=
  let x := MkExporter (sp_format s) (sp_out_dir s) (sp_basename s) (sp_options s) (sp_columns s)
             (row_limit (sp_format s) (sp_rows_per_file s)) 0 0 None [] [] 0 [] false false in
  let '(ok, w) := tick w in
  if ok then open_part 0 (x, w) else (inl EIo, (x, w)).

(** ** The row loop *)

Definition PROGRESS_EVERY : nat := 1000.
(** What has been reported so far is a list of row counts. *)
Definition write_row_with_progress (row : Row) (reports : list nat) (st : Exporter * World)
  : (ExportError + list nat) * (Exporter * World) :=
  match write_row row st with
  | (inl e, st) => (inl e, st)
  | (inr _, st) =>
      (inr (if x_rows st.1 mod PROGRESS_EVERY =? 0 then reports ++ [x_rows st.1] else reports), st)
  end.

(** [feed]: [cancel n] answers the n-th question whether to stop. *)
Fixpoint feed (cancel : nat -> bool) (n : nat) (rows : list (E + Row)) (reports : list nat)
  (st : Exporter * World) : (ExportError + list nat) * (Exporter * World) :=
  if cancel n then
    let st := (mark_cancelled st.1, st.2) in (inr (reports ++ [x_rows st.1]), st)
  else match rows with
  | [] => (inr (reports ++ [x_rows st.1]), st)
  | inl e :: _ => (inl (ESource e), st)
  | inr row :: rows =>
      match write_row_with_progress row reports st with
      | (inl e, st) => (inl e, st)
      | (inr reports, st) => feed cancel (S n) rows reports st
      end
  end.

Record ExportOutcome := MkOutcome {
  oc_files : list Path; oc_rows : nat; oc_columns : list Col; oc_warnings : list bytes;
  oc_cancelled : bool }.
Definition into_outcome (x : Exporter) : ExportOutcome :=
  MkOutcome (x_files x) (x_rows x) (x_columns x) (x_warnings x) (x_cancelled x).

(** [export_rows]; an exporter that goes out of scope is aborted. *)
Definition export_rows (s : ExportSpec) (rows : list (E + Row)) (cancel : nat -> bool) (w : World)
  : (ExportError + (ExportOutcome * list nat)) * World :=
  match exporter_new s w with
  | (inl e, st) => (inl e, (abort st).2)
  | (inr _, st) =>
      match feed cancel 0 rows [] st with
      | (inl e, st) => (inl e, (abort st).2)
      | (inr reports, st) =>
          match finish st with
          | (inl e, st) => (inl e, (abort st).2)
          | (inr _, st) => (inr (into_outcome st.1, reports), (abort st).2)
          end
      end
  end.
End Plan.
