(* ===== verification/PlanSpec.v ===== *)
(** * PlanSpec: what an export leaves behind, for the exporter of [Plan]. *)
From stdpp Require Import gmap.
From S2P Require Import Prelude Bytes Text Scan Classify Env Plan.

Lemma numbered_name_inj pid name a b :
  (0 <= a)%Z -> (0 <= b)%Z -> numbered_name pid name a = numbered_name pid name b -> a = b.
Proof.
  unfold numbered_name. intros Ha Hb H. do 5 apply app_inv_head in H. apply app_inv_tail in H.
  by apply decimal_inj.
Qed.

(** ** A free staging name *)

Section Staging.
Context {C : Type} (pid : Z).
Implicit Types (w : World (C := C)) (p : Path).

(** The counters [staging_path] asks about, from [n]. *)
Definition counter (n : Z) (i : nat) : Z := ((n + Z.of_nat i) `mod` U64)%Z.

Lemma staging_turns_taken fuel : forall w p, (0 <= w_next w < U64)%Z ->
  iter (staging_turn pid p) fuel w = None ->
  forall i, i < fuel -> is_Some (w_files w !! (p.1, numbered_name pid p.2 (counter (w_next w) i))).
Proof.
  induction fuel as [|fuel IH]; intros w p Hw H i Hi; [lia|].
  rewrite iter_S in H. destruct (staging_turn pid p w) as [w1|] eqn:E; [|done].
  unfold staging_turn, occupied in E. cbn [w_files] in E. case_bool_decide as Ho; [|done].
  injection E as <-.
  destruct i as [|i]; [unfold counter; rewrite Z.add_0_r, Z.mod_small by lia; done|].
  assert (0 <= (w_next w + 1) `mod` U64 < U64)%Z as Hm by (apply Z.mod_pos_bound; unfold U64; lia).
  pose proof (IH _ p (Hm : (0 <= w_next (MkWorld _ _ _) < U64)%Z) H i ltac:(lia)) as IH'.
  cbn [w_files w_next] in IH'.
  replace (counter (w_next w) (S i)) with (counter ((w_next w + 1) `mod` U64)%Z i); [done|].
  unfold counter. rewrite Z.add_mod_idemp_l by (unfold U64; lia). f_equal. lia.
Qed.

Lemma staging_turns_spec fuel : forall w p r,
  iter (staging_turn pid p) fuel w = Some r ->
  w_files r.2 = w_files w /\ w_files w !! r.1 = None /\ r.1.1 = p.1.
Proof.
  induction fuel as [|fuel IH]; intros w p r H; [done|].
  rewrite iter_S in H. destruct (staging_turn pid p w) as [w1|r'] eqn:E;
    unfold staging_turn, occupied in E; cbn [w_files] in E; case_bool_decide as Ho; simplify_eq.
  - by apply IH in H.
  - simpl. by rewrite <- eq_None_not_Some in Ho.
Qed.

Lemma staging_path_spec p w s w' : staging_path pid p w = Some (s, w') ->
  w_files w' = w_files w /\ w_files w !! s = None /\ s.1 = p.1.
Proof.
  unfold staging_path, occupied. case_bool_decide as Ho.
  - intros H. by apply staging_turns_spec in H.
  - intros [= <- <-]. by rewrite <- eq_None_not_Some in Ho.
Qed.

(** A staging name is found: the loop over the numbered names ends, for any directory of fewer
    than 2^64 entries, at a name in the directory of the target that no entry has, and nothing is
    changed in the file system. *)
Theorem staging_path_free p w :
  (0 <= w_next w < U64)%Z -> (Z.of_nat (size (w_files w)) < U64)%Z ->
  exists s w', staging_path pid p w = Some (s, w')
    /\ w_files w' = w_files w /\ w_files w !! s = None /\ s.1 = p.1.
Proof.
  intros Hw Hsize. destruct (staging_path pid p w) as [[s w']|] eqn:E.
  { exists s, w'. split; [done|]. by apply staging_path_spec. }
  exfalso. unfold staging_path in E. case_match; [|done].
  pose proof (staging_turns_taken _ _ _ Hw E) as Ht.
  set (names := (fun i => (p.1, numbered_name pid p.2 (counter (w_next w) i)))
                  <$> seq 0 (S (size (w_files w)))).
  assert (NoDup names) as Hnd.
  { apply NoDup_fmap_2_strong; [|apply NoDup_seq]. intros i j Hi Hj He. apply (f_equal snd) in He. cbn [snd] in He.
    apply elem_of_seq in Hi, Hj. unfold counter in He.
    apply numbered_name_inj in He; [|apply Z.mod_pos_bound; unfold U64; lia..].
    assert ((w_next w + Z.of_nat i - (w_next w + Z.of_nat j)) `mod` U64 = 0)%Z as Hm.
    { rewrite Zminus_mod, He, Z.sub_diag. done. }
    apply Z.mod_divide in Hm; [|unfold U64; lia]. destruct Hm as [k Hk].
    assert (0 < U64)%Z by (unfold U64; lia). destruct (Z.lt_trichotomy k 0) as [|[->|]]; nia. }
  assert (list_to_set names ⊆@{gset Path} dom (w_files w)) as Hsub.
  { intros x Hx. apply elem_of_list_to_set, list_elem_of_fmap in Hx as (i & -> & Hi).
    apply elem_of_seq in Hi. apply elem_of_dom, Ht. lia. }
  apply subseteq_size in Hsub. rewrite size_list_to_set, size_dom in Hsub by done.
  unfold names in Hsub. rewrite length_fmap, length_seq in Hsub. lia.
Qed.
End Staging.

(** ** Methods of the exporter *)

Section Spec.
Context {C Row Col W E : Type}.
Abbreviation Exporter := (@Exporter Col W).
Abbreviation World := (@World C).
Abbreviation ExportError := (@ExportError E).
Abbreviation M := (@M C Col W E).
Context (ops : @WriterOps C Row Col W E) (io : nat -> bool) (pid mode_new : Z).

(** A property of the state every method keeps, whether it succeeds or fails. *)
Definition keeps (P : Exporter * World -> Prop) {A} (m : M A) : Prop :=
  forall st r st', m st = (r, st') -> P st -> P st'.

Section Keeps.
Context (P : Exporter * World -> Prop).
Lemma keeps_ret {A} (a : A) : keeps P (ret a).
Proof. by intros st r st' [= <- <-]. Qed.
Lemma keeps_raise {A} e : keeps P (raise e : M A).
Proof. by intros st r st' [= <- <-]. Qed.
Lemma keeps_bind {A B} (m : M A) (f : A -> M B) :
  keeps P m -> (forall a, keeps P (f a)) -> keeps P (bind m f).
Proof.
  intros Hm Hf st r st'. unfold bind. destruct (m st) as [[e|a] st1] eqn:Em.
  - intros [= <- <-]. eauto.
  - intros H1 H2. eapply Hf; [exact H1|]. eapply Hm; eauto.
Qed.
Lemma keeps_reads {A} (f : Exporter -> M A) : (forall x, keeps P (f x)) -> keeps P (reads f).
Proof. intros Hf st r st' H. eapply Hf; exact H. Qed.
Lemma keeps_try f : keeps P (try f).
Proof. intros [x w] r st'. unfold try. by intros [= <- <-]. Qed.
Lemma keeps_update f : (forall x w, P (x, w) -> P (f x, w)) -> keeps P (update f).
Proof. intros Hf [x w] r st'. unfold update. intros [= <- <-]. apply Hf. Qed.
End Keeps.

(** ** A failed export *)

(** What was in the file system before the export is there, and the staging names are new. *)
Definition safe (w0 : World) (st : Exporter * World) : Prop :=
  w_files w0 ⊆ w_files st.2
  /\ Forall (fun s => w_files w0 !! s = None) (x_staging st.1)
  /\ length (x_staging st.1) = length (x_files st.1).

Lemma sync_subset (w0 w : World) p c :
  w_files w0 ⊆ w_files w -> w_files w0 !! p = None -> w_files w0 ⊆ w_files (sync mode_new w p c).
Proof.
  intros Hs Hp. destruct c as [c|]; [|done]. simpl. by apply insert_subseteq_r.
Qed.

Lemma tick_files (w : World) : w_files (tick io w).2 = w_files w.
Proof. done. Qed.

Lemma remove_file_subset (w0 w : World) p :
  w_files w0 ⊆ w_files w -> w_files w0 !! p = None -> w_files w0 ⊆ w_files (remove_file io w p).
Proof.
  intros Hs Hp. unfold remove_file, tick. case_match; [|done]. simpl.
  apply map_subseteq_spec. intros i x Hi. rewrite lookup_delete_ne; [by eapply lookup_weaken|].
  intros ->. congruence.
Qed.
Lemma remove_files_subset (w0 : World) ps : forall w,
  w_files w0 ⊆ w_files w -> Forall (fun p => w_files w0 !! p = None) ps ->
  w_files w0 ⊆ w_files (remove_files io w ps).
Proof.
  induction ps as [|p ps IH]; intros w Hs; [done|]. intros [Hp Hps]%Forall_cons.
  apply IH; [by apply remove_file_subset|done].
Qed.

Lemma safe_wrote w0 wr e : keeps (safe w0) (wrote ops mode_new wr e).
Proof.
  intros [x w] r st'. unfold wrote. intros [= <- <-] (Hs & Hf & Hl). cbn [fst snd] in *.
  split; [|done]. cbn [snd]. destruct (last (x_staging x)) as [p|] eqn:El; [|done].
  apply sync_subset; [done|]. rewrite Forall_forall in Hf. apply Hf.
  apply last_Some in El as [l ->]. apply elem_of_snoc_self.
Qed.

Lemma safe_open_part w0 i : keeps (safe w0) (open_part ops pid mode_new i).
Proof.
  unfold open_part. apply keeps_reads. intros x. apply keeps_bind.
  { case_match; [apply keeps_try|apply keeps_ret]. }
  intros _ [x1 w1] r st' H (Hs & Hf & Hl). cbn [fst snd] in Hs, Hf, Hl. revert H.
  unfold bind, stage.
  destruct (staging_path pid _ w1) as [[s w2]|] eqn:Es; [|by intros [= <- <-]].
  apply staging_path_spec in Es as (Hw & Hfree & _).
  assert (w_files w0 ⊆ w_files w2) as Hs2 by (by rewrite Hw).
  assert (w_files w0 !! s = None) as H0.
  { destruct (w_files w0 !! s) eqn:E0; [|done]. eapply lookup_weaken in E0; [|exact Hs]. congruence. }
  unfold open_writer. destruct (negb _); [by intros [= <- <-]|].
  destruct (x_columns x1) as [|col cols]; [by intros [= <- <-]|].
  destruct (wr_new ops _ _ _) as [[e co]|wr].
  - intros [= <- <-]. split; [by apply sync_subset|done].
  - unfold update. intros [= <- <-]. split; [by apply sync_subset|]. cbn [fst x_staging x_files set_paths].
    split; [apply Forall_app; auto|]. rewrite !length_app. simpl. lia.
Qed.

Lemma safe_close_part w0 : keeps (safe w0) (close_part ops mode_new).
Proof.
  apply keeps_reads. intros x. destruct (x_writer x) as [wr|]; [|apply keeps_ret].
  destruct (wr_finish ops wr) as [e wr']. apply keeps_bind; [by apply keeps_update|].
  intros _. apply keeps_bind; [apply safe_wrote|]. intros _. by apply keeps_update.
Qed.

Lemma safe_roll_over w0 : keeps (safe w0) (roll_over ops pid mode_new).
Proof.
  apply keeps_reads. intros x. apply keeps_bind.
  { case_match; [|apply keeps_ret]. apply keeps_bind; [apply keeps_try|]. intros _.
    apply keeps_update. intros y w (Hs & Hf & Hl). split; [done|]. split; [done|].
    cbn [fst x_staging x_files set_paths] in *. by rewrite length_insert. }
  intros _. apply keeps_bind; [apply safe_close_part|]. intros _.
  apply keeps_bind; [by apply keeps_update|]. intros _. apply keeps_reads. intros y.
  apply safe_open_part.
Qed.

Lemma safe_write_row w0 row : keeps (safe w0) (write_row ops pid mode_new row).
Proof.
  apply keeps_reads. intros x. apply keeps_bind.
  { case_match; [apply safe_roll_over|apply keeps_ret]. }
  intros _. apply keeps_reads. intros y. destruct (x_writer y) as [wr|]; [|apply keeps_raise].
  destruct (wr_row ops wr row) as [e wr']. apply keeps_bind; [by apply keeps_update|].
  intros _. apply keeps_bind; [apply safe_wrote|]. intros _. by apply keeps_update.
Qed.

Lemma safe_feed w0 cancel rows : forall n reports st r st',
  feed ops pid mode_new cancel n rows reports st = (r, st') -> safe w0 st -> safe w0 st'.
Proof.
  induction rows as [|[e|row] rows IH]; intros n reports st r st'; cbn [feed]; destruct (cancel n);
    try by intros [= <- <-].
  unfold write_row_with_progress. destruct (write_row _ _ _ row st) as [[e|u] st1] eqn:Ew.
  - intros [= <- <-]. eapply safe_write_row, Ew.
  - intros H Hs. eapply IH; [exact H|]. eapply safe_write_row; eauto.
Qed.

Lemma safe_abort w0 st : safe w0 st -> w_files w0 ⊆ w_files (abort io st).2.
Proof. destruct st as [x w]. intros (Hs & Hf & _). by apply remove_files_subset. Qed.

(** A rename that fails changes no file but the staged one, and one onto a name that was free
    replaces none. *)
Definition not_link (w : World) (p : Path) : Prop := forall q, w_files w !! p <> Some (Link q).
Definition place_keeps (w0 w : World) (p : Path) (e : option ExportError) (w' : World) : Prop :=
  (e <> None \/ w_files w0 !! p = None /\ not_link w p -> w_files w0 ⊆ w_files w')
  /\ forall q, not_link w q -> not_link w' q.

Lemma place_subset (w0 w : World) s p (e : option ExportError) w' :
  w_files w0 ⊆ w_files w -> w_files w0 !! s = None ->
  place io s p w = (e, w') -> place_keeps w0 w p e w'.
Proof.
  intros Hs H0. unfold place, place_keeps.
  set (target := match w_files w !! p with Some (Link _) => _ | _ => _ end). intros Hp.
  assert (not_link w p -> target = Some p) as Hfree.
  { subst target. intros Hn. destruct (w_files w !! p) as [[| |q]|] eqn:Ep; try done.
    by destruct (Hn q). }
  destruct target as [t|]; [|by simplify_eq]. revert Hp.
  match goal with |- context [let '(ok, w) := ?X in _] => destruct X as [ok w1] eqn:E1 end.
  assert (w_files w0 ⊆ w_files w1 /\ forall q, not_link w q -> not_link w1 q) as [Hs1 Hl1].
  { repeat case_match; simplify_eq; try done; unfold tick in *; simplify_eq; try done.
    split; [by apply insert_subseteq_r|]. intros q Hq r. cbn [w_files set_files].
    rewrite lookup_insert_Some. intros [[_ ?]|[_ ?]]; [done|by eapply Hq]. }
  destruct ok; cbn [negb]; [|by intros [= <- <-]].
  unfold tick. set (w2 := MkWorld _ _ _). assert (w_files w2 = w_files w1) as E2 by done.
  rewrite E2. destruct (io (w_clock w1)); [|by intros [= <- <-]].
  destruct (w_files w1 !! s) as [[m c| |]|]; try (by intros [= <- <-]).
  assert (w_files w0 !! p = None /\ not_link w p -> w_files w0 ⊆ <[t:=File m c]> (delete s (w_files w1))) as Hadd.
  { intros [Hn Hnl]. specialize (Hfree Hnl) as [= ->].
    apply insert_subseteq_r; [done|]. apply map_subseteq_spec. intros i x Hi.
    rewrite lookup_delete_ne; [by eapply lookup_weaken|]. intros ->. congruence. }
  assert (forall q, not_link w q -> not_link (set_files w2 (<[t:=File m c]> (delete s (w_files w1)))) q) as Hl2.
  { intros q Hq r. cbn [w_files set_files]. rewrite lookup_insert_Some, lookup_delete_Some.
    intros [[_ ?]|(_ & _ & ?)]; [done|]. by eapply (Hl1 q Hq). }
  destruct (w_files w1 !! t) as [[| |]|]; intros [= <- <-]; (split; [|assumption]);
    intros Hc; first [exact Hs1|destruct Hc as [Hc|Hc]; [by destruct Hc|exact (Hadd Hc)]].
Qed.

Lemma place_all_subset (w0 : World) ss : forall ps (w : World) (e : option ExportError) w',
  w_files w0 ⊆ w_files w -> Forall (fun s => w_files w0 !! s = None) ss ->
  Forall (fun p => w_files w0 !! p = None /\ not_link w p) ps ->
  place_all io ss ps w = (e, w') -> w_files w0 ⊆ w_files w'.
Proof.
  induction ss as [|s ss IH]; intros ps w e w' Hs Hss Hps; cbn [place_all]; [by intros [= <- <-]|].
  destruct ps as [|p ps]; [by intros [= <- <-]|].
  apply Forall_cons in Hps as [Hp Hps]. pose proof Hss as Hss'. apply Forall_cons in Hss' as [H0 Hss'].
  destruct (place io s p w) as [e1 w1] eqn:Ep.
  destruct (place_subset w0 w s p e1 w1 Hs H0 Ep) as [Hk Hl]. specialize (Hk (or_intror Hp)).
  destruct e1 as [e1|].
  { intros H. apply (f_equal snd) in H. cbn [snd] in H. subst w'. by apply remove_files_subset. }
  apply IH; [exact Hk|exact Hss'|]. eapply Forall_impl; [exact Hps|]. intros q [? ?]. auto.
Qed.

Lemma first_taken_None (w : World) ps : first_taken (E := E) w ps = None -> Forall (fun p => w_files w !! p = None) ps.
Proof.
  induction ps as [|p ps IH]; cbn [first_taken]; [done|].
  unfold require_free, occupied. case_bool_decide as Ho; [done|]. intros H.
  constructor; [by rewrite eq_None_not_Some|by apply IH].
Qed.

Lemma safe_commit w0 st (e : ExportError) st' :
  commit io st = (inl e, st') -> safe w0 st ->
  w_files w0 ⊆ w_files st'.2 /\ Forall (fun s => w_files w0 !! s = None) (x_staging st'.1).
Proof.
  destruct st as [x w]. intros H (Hs & Hf & Hl). cbn [fst snd] in Hs, Hf, Hl. revert H. unfold commit.
  destruct (if 1 <? length (x_files x) then first_taken w (x_files x) else None) as [e1|] eqn:Et;
    [by intros [= <- <-]|].
  destruct (place_all io (x_staging x) (x_files x) w) as [[e1|] w1] eqn:Ep; [|done].
  intros [= <- <-]. cbn [fst snd]. split; [|by constructor].
  destruct (1 <? length (x_files x)) eqn:E1.
  - eapply place_all_subset; [exact Hs|exact Hf| |exact Ep].
    apply first_taken_None in Et. eapply Forall_impl; [exact Et|]. intros p Hp. split.
    + destruct (w_files w0 !! p) eqn:E0; [|done]. eapply lookup_weaken in E0; [|exact Hs]. congruence.
    + intros q Hq. congruence.
  - apply Nat.ltb_ge in E1. destruct (x_staging x) as [|s [|s' ss]]; [done| |simpl in Hl; lia].
    destruct (x_files x) as [|p ps]; [done|]. cbn [place_all] in Ep.
    apply Forall_cons in Hf as [H0 _].
    destruct (place io s p w) as [[e2|] w2] eqn:Ep2; [|done]. injection Ep as <- <-.
    apply (remove_files_subset w0 [s]); [|by constructor].
    destruct (place_subset w0 w s p _ _ Hs H0 Ep2) as [Hk _]. apply Hk. by left.
Qed.

Lemma safe_finish w0 st (e : ExportError) st' :
  finish ops io mode_new st = (inl e, st') -> safe w0 st ->
  w_files w0 ⊆ w_files st'.2 /\ x_staging st'.1 = [].
Proof.
  unfold finish. destruct (x_finished st.1); [done|].
  destruct (bind _ _ st) as [[e1|] st1] eqn:Eb; [|done]. intros [= <- <-] Hsafe.
  assert (w_files w0 ⊆ w_files st1.2 /\ Forall (fun s => w_files w0 !! s = None) (x_staging st1.1))
    as [Hs Hf].
  { revert Eb. unfold bind at 1. destruct (update set_finished st) as [[e2|u] st2] eqn:Eu.
    { by destruct st; unfold update in Eu. }
    assert (safe w0 st2) as Hs2.
    { eapply (keeps_update (safe w0) set_finished); [|exact Eu|exact Hsafe]. done. }
    unfold bind. destruct (close_part ops mode_new st2) as [[e3|u3] st3] eqn:Ec;
      pose proof (safe_close_part w0 _ _ _ Ec Hs2) as Hs3.
    - intros [= <- <-]. destruct Hs3 as (? & ? & ?). done.
    - intros Hcm. by eapply safe_commit. }
  destruct st1 as [x1 w1]. split; [by apply remove_files_subset|done].
Qed.

(** C9: A failed export changes nothing that was there. Whatever the writers, the row source, the
    file system and the stop button do, when [export_rows] reports an error every file, link and
    directory that existed before is still there with its content and permissions: also the file
    the export was to replace. *)
Theorem failed_export_changes_nothing (s : ExportSpec) (rows : list (E + Row)) (cancel : nat -> bool)
  (w w' : World) (e : ExportError) :
  export_rows ops io pid mode_new s rows cancel w = (inl e, w') -> w_files w ⊆ w_files w'.
Proof.
  unfold export_rows. destruct (exporter_new _ _ _ _ s w) as [r0 st0] eqn:En.
  assert (safe w st0) as H0.
  { revert En. unfold exporter_new, tick. destruct (io (w_clock w)).
    - intros H. eapply safe_open_part; [exact H|]. split; [done|]. split; [constructor|done].
    - intros [= <- <-]. split; [done|]. split; [constructor|done]. }
  destruct r0 as [e0|u0]; [intros [= <- <-]; by apply safe_abort|].
  destruct (feed _ _ _ _ _ _ _ st0) as [[e1|reports] st1] eqn:Ef;
    pose proof (safe_feed w _ _ _ _ _ _ _ Ef H0) as H1; [intros [= <- <-]; by apply safe_abort|].
  destruct (finish ops io mode_new st1) as [[e2|u2] st2] eqn:Efi; [|done].
  intros [= <- <-]. destruct (safe_finish w _ _ _ Efi H1) as [Hs Hst].
  destruct st2 as [x2 w2]. cbn [fst snd] in *. unfold abort. by rewrite Hst.
Qed.
End Spec.
