(* ===== verification/PlanParts.v ===== *)
(** * PlanParts: what a successful export has written, for the exporter of [Plan]. *)
From stdpp Require Import gmap.
From S2P Require Import Prelude Bytes Text Scan Classify Env Plan PlanSpec.

Section Parts.
Context {C Row Col W E : Type}.
Abbreviation Exporter := (@Exporter Col W).
Abbreviation World := (@World C).
Abbreviation ExportError := (@ExportError E).
Abbreviation M := (@M C Col W E).
Context (ops : @WriterOps C Row Col W E) (io : nat -> bool) (pid mode_new : Z).
Context (sp : @ExportSpec Col).

(** A writer that has finished has created its file. *)
Definition finish_creates : Prop :=
  forall wr wr', wr_finish ops wr = (None, wr') -> is_Some (wr_file ops wr').

(** ** What a part should hold *)

Definition ext : bytes := B (extension (sp_format sp)).
Definition limit : option Z := row_limit (sp_format sp) (sp_rows_per_file sp).

(** A writer over a list of rows, none of which it refuses. *)
Fixpoint write_rows (wr : W) (rows : list Row) : option W :=
  match rows with
  | [] => Some wr
  | row :: rows => match wr_row ops wr row with (None, wr) => write_rows wr rows | _ => None end
  end.
Definition opened (i : nat) (rows : list Row) : option W :=
  match wr_new ops (sp_format sp) (sp_columns sp)
          (titled (sp_options sp) (Some (file_stem (part_name (sp_basename sp) ext i)))) with
  | inr wr => write_rows wr rows
  | inl _ => None
  end.
(** The file of part [i] when its writer is given [rows]. *)
Definition part_content (i : nat) (rows : list Row) : option C :=
  match opened i rows with
  | Some wr => match wr_finish ops wr with (None, wr) => wr_file ops wr | _ => None end
  | None => None
  end.

(** The names of an export of [n] parts: the name asked for when there is one, a numbered set
    with none missing when there are more. *)
Definition numbered (k : nat) : Path :=
  (sp_out_dir sp, sp_basename sp ++ B "_part" ++ decimal2 (Z.of_nat k) ++ B "." ++ ext).
Definition names (n : nat) : list Path :=
  if n =? 1 then [(sp_out_dir sp, sp_basename sp ++ B "." ++ ext)] else numbered <$> seq 1 n.

(** What a path reads as, links followed. *)
Definition read_file (w : World) (p : Path) : option C :=
  match resolve LINKS (w_files w) p with
  | Some t => match w_files w !! t with Some (File _ c) => Some c | _ => None end
  | None => None
  end.

(** The rows an export takes: up to the stop, the end, or a failure of the source. *)
Fixpoint taken (cancel : nat -> bool) (n : nat) (rows : list (E + Row)) : list Row :=
  if cancel n then []
  else match rows with inr row :: rows => row :: taken cancel (S n) rows | _ => [] end.
Definition progress_points (n : nat) : list nat :=
  List.filter (fun k => k mod PROGRESS_EVERY =? 0) (seq 1 n) ++ [n].

Lemma write_rows_snoc wr rows row :
  write_rows wr (rows ++ [row])
  = match write_rows wr rows with
    | Some wr => match wr_row ops wr row with (None, wr) => Some wr | _ => None end
    | None => None
    end.
Proof.
  revert wr; induction rows as [|r rows IH]; intros wr; simpl.
  - by destruct (wr_row ops wr row) as [[]].
  - destruct (wr_row ops wr r) as [[e|] wr1]; [done|apply IH].
Qed.

Lemma opened_snoc i rows row wr wr' :
  opened i rows = Some wr -> wr_row ops wr row = (None, wr') -> opened i (rows ++ [row]) = Some wr'.
Proof.
  unfold opened. destruct (wr_new _ _ _ _); [done|]. intros H1 H2.
  by rewrite write_rows_snoc, H1, H2.
Qed.

Lemma numbered_inj a b : numbered a = numbered b -> a = b.
Proof.
  unfold numbered. intros H. apply (f_equal snd) in H. cbn [snd] in H.
  do 2 apply app_inv_head in H. apply app_inv_tail in H. apply decimal2_inj in H; lia.
Qed.
Lemma numbered_nodup n : NoDup (numbered <$> seq 1 n).
Proof. apply NoDup_fmap_2_strong; [|apply NoDup_seq]. intros a b _ _. apply numbered_inj. Qed.
Lemma numbered_S i : part_path (sp_out_dir sp) (sp_basename sp) ext (S i) = numbered (S (S i)).
Proof.
  unfold part_path, part_name, numbered.
  by replace (Z.of_nat (S (S i))) with (Z.of_nat (S i) + 1)%Z by lia.
Qed.
Lemma numbered_1 : (sp_out_dir sp, sp_basename sp ++ B "_part01." ++ ext) = numbered 1.
Proof. done. Qed.

(** ** Steps that succeed *)

Lemma bind_ok {A A'} (m : M A) (f : A -> M A') st b st' :
  bind m f st = (inr b, st') -> exists a st1, m st = (inr a, st1) /\ f a st1 = (inr b, st').
Proof. unfold bind. destruct (m st) as [[e|a] st1]; [done|]. eauto. Qed.

(** The part of the exporter that a row loop never changes. *)
Definition same_spec (x : Exporter) : Prop :=
  x_format x = sp_format sp /\ x_out_dir x = sp_out_dir sp /\ x_basename x = sp_basename sp
  /\ x_options x = sp_options sp /\ x_columns x = sp_columns sp /\ x_limit x = limit.

(** The parts before the open one are closed: each staged file holds its part. *)
Record closed (w : World) (ss : list Path) (parts : list (list Row)) : Prop := {
  cl_nodup : NoDup ss;
  cl_length : length ss = length parts;
  cl_content : forall i part s, parts !! i = Some part -> ss !! i = Some s ->
    exists m c, part_content i part = Some c /\ w_files w !! s = Some (File m c);
}.

(** Part [length done] is open and holds [cur]. *)
Record open_at (st : Exporter * World) (fd : bool) (F : list Path) (done : list (list Row)) (cur : list Row)
  : Prop := {
  oa_spec : same_spec st.1;
  oa_part : x_part st.1 = length done;
  oa_in_part : x_in_part st.1 = length cur;
  oa_rows : x_rows st.1 = length (concat done) + length cur;
  oa_writer : exists wr, (x_writer st.1 = Some wr) /\ opened (length done) cur = Some wr;
  oa_files : x_files st.1 = F;
  oa_staging : exists ss s, (x_staging st.1 = ss ++ [s]) /\ (s ∉ ss) /\ closed st.2 ss done;
  oa_finished : x_finished st.1 = fd;
}.

(** Every part is closed. *)
Record all_closed (st : Exporter * World) (parts : list (list Row)) : Prop := {
  ac_spec : same_spec st.1;
  ac_rows : x_rows st.1 = length (concat parts);
  ac_writer : x_writer st.1 = None;
  ac_closed : closed st.2 (x_staging st.1) parts;
}.

Lemma sync_other (w : World) p q c : q <> p -> w_files (sync mode_new w p c) !! q = w_files w !! q.
Proof. intros H. destruct c; [|done]. simpl. by rewrite lookup_insert_ne. Qed.

Lemma closed_frame (w w' : World) ss parts :
  closed w ss parts -> (forall s, s ∈ ss -> w_files w' !! s = w_files w !! s) -> closed w' ss parts.
Proof.
  intros [Hn Hl Hc] Hf. split; [done|done|]. intros i part s Hp Hs.
  rewrite Hf; [by apply Hc|]. by eapply list_elem_of_lookup_2.
Qed.

Lemma closed_exists (w : World) ss parts s : closed w ss parts -> s ∈ ss -> is_Some (w_files w !! s).
Proof.
  intros [Hn Hl Hc] [i Hi]%list_elem_of_lookup_1.
  destruct (lookup_lt_is_Some_2 parts i) as [part Hp]; [rewrite <- Hl; by eapply lookup_lt_Some|].
  destruct (Hc i part s Hp Hi) as (m & c & _ & ->). eauto.
Qed.

Lemma close_part_ok (Hfin : finish_creates) st fd F done cur st' :
  close_part ops mode_new st = (inr tt, st') -> open_at st fd F done cur ->
  all_closed st' (done ++ [cur]) /\ x_files st'.1 = x_files st.1 /\ x_part st'.1 = x_part st.1
  /\ x_finished st'.1 = x_finished st.1.
Proof.
  destruct st as [x w]. intros H [Hsp Hpart _ Hrows (wr & Hwr & Hop) _ (ss & s & Hst & Hns & Hcl) _].
  cbn [fst snd] in *. unfold close_part, reads in H. cbn [fst] in H. rewrite Hwr in H.
  destruct (wr_finish ops wr) as [e wr'] eqn:Ef.
  apply bind_ok in H as ([] & st1 & Hu & H). unfold update in Hu. injection Hu as <-.
  apply bind_ok in H as ([] & st2 & Hw & H). unfold wrote in Hw.
  destruct e; [done|]. injection Hw as <-. cbn [x_staging set_writer] in H.
  rewrite Hst, last_snoc in H. unfold update in H. injection H as <-. cbn [fst snd].
  split; [|done]. destruct (Hfin _ _ Ef) as [c Hc].
  split; [done| |done|]; cbn [fst snd x_rows x_staging warn set_writer].
  - rewrite Hrows, concat_app, concat_cons, app_nil_r. symmetry. apply length_app.
  - rewrite Hst, Hc. assert (closed (sync mode_new w s (Some c)) ss done) as Hcl'.
    { eapply closed_frame; [exact Hcl|]. intros q Hq. apply sync_other. by intros ->. }
    destruct Hcl' as [Hn Hl Hcc]. split.
    + apply NoDup_app. split; [done|]. split; [|apply NoDup_singleton]. intros q Hq.
      rewrite list_elem_of_singleton. by intros ->.
    + rewrite !length_app, Hl. done.
    + intros i part q Hp Hq. destruct (decide (i < length done)) as [Hi|Hi].
      * rewrite (lookup_app_l done) in Hp by lia. rewrite (lookup_app_l ss) in Hq by lia. by apply (Hcc i).
      * rewrite (lookup_app_r done) in Hp by lia. rewrite (lookup_app_r ss) in Hq by lia. rewrite Hl in Hq.
        destruct (i - length done) as [|k] eqn:Ek; [|done]. simpl in Hp, Hq. simplify_eq.
        assert (i = length done) as -> by lia. eexists _, c. split.
        -- unfold part_content. by rewrite Hop, Ef.
        -- simpl. by rewrite lookup_insert_eq.
Qed.

Lemma open_part_ok st fd parts i F st' :
  open_part ops pid mode_new i st = (inr tt, st') -> all_closed st parts ->
  i = length parts -> x_part st.1 = i -> x_in_part st.1 = 0 -> x_finished st.1 = fd ->
  x_files st.1 = F ->
  open_at st' fd (F ++ [part_path (sp_out_dir sp) (sp_basename sp) ext i]) parts [].
Proof.
  destruct st as [x w]. intros H [Hsp Hrows Hwr Hcl] Hi Hpart Hin Hfd HF. cbn [fst snd] in *.
  pose proof Hsp as (Ef & Ed & Eb & Eo & Ec & El).
  unfold open_part, reads in H. cbn [fst] in H. rewrite Ef, Ed, Eb, Eo in H. fold ext in H.
  apply bind_ok in H as ([] & st1 & Ht & H).
  assert (st1 = (x, w)) as ->.
  { destruct (0 <? i); unfold try, ret in Ht; [|by injection Ht as <-].
    destruct (require_free w _); [done|by injection Ht as <-]. }
  apply bind_ok in H as (s & st2 & Hs & H). unfold stage in Hs.
  destruct (staging_path pid _ w) as [[s' w2]|] eqn:Es; [|done]. injection Hs as -> <-.
  apply staging_path_spec in Es as (Hw & Hfree & _).
  apply bind_ok in H as ([] & st3 & Ho & H). unfold open_writer in Ho.
  rewrite Ef, Ec in Ho. destruct (negb _); [done|].
  destruct (sp_columns sp) as [|col cols] eqn:Ecols; [done|].
  unfold part_path in Ho. cbn [snd] in Ho.
  destruct (wr_new ops (sp_format sp) (col :: cols) _) as [[e co]|wr] eqn:En; [done|].
  injection Ho as <-. unfold update in H. injection H as <-.
  split; cbn [fst snd set_paths set_writer x_part x_in_part x_rows x_writer x_files x_staging x_finished];
    try done; [congruence|simpl; lia| |by rewrite HF|].
  - exists wr. split; [done|]. unfold opened. rewrite Ecols, <- Hi, En. done.
  - exists (x_staging x), s. split; [done|].
    assert (s ∉ x_staging x) as Hns.
    { intros Hin'. destruct (closed_exists _ _ _ _ Hcl Hin') as [n Hn]. congruence. }
    split; [done|]. eapply closed_frame; [exact Hcl|]. intros q Hq.
    rewrite sync_other by (by intros ->). by rewrite Hw.
Qed.

Lemma names_roll i :
  (if i =? 0 then <[0 := numbered 1]> (names (S i)) else names (S i))
  ++ [part_path (sp_out_dir sp) (sp_basename sp) ext (S i)] = names (S (S i)).
Proof.
  rewrite numbered_S. destruct i as [|i]; [done|]. cbn [Nat.eqb].
  unfold names. cbn [Nat.eqb]. rewrite (seq_S (S (S i))), fmap_app. done.
Qed.

Lemma roll_over_ok (Hfin : finish_creates) st fd done cur st' :
  roll_over ops pid mode_new st = (inr tt, st') -> open_at st fd (names (S (length done))) done cur ->
  open_at st' fd (names (S (length (done ++ [cur])))) (done ++ [cur]) [].
Proof.
  destruct st as [x w]. intros H [Hsp Ep Ei Er Ew EF Es Efd].
  pose proof Hsp as (Ef & Ed & Eb & _). cbn [fst snd] in *.
  unfold roll_over, reads in H. cbn [fst] in H. rewrite Ef, Ed, Eb, Ep in H.
  fold ext in H. rewrite numbered_1 in H. apply bind_ok in H as ([] & st1 & Hr & H).
  set (F := if length done =? 0 then <[0 := numbered 1]> (names (S (length done)))
            else names (S (length done))).
  assert (open_at st1 fd F done cur) as Hopen.
  { destruct (length done =? 0).
    - apply bind_ok in Hr as ([] & st2 & Ht & Hu). unfold try in Ht.
      destruct (require_free w _); [done|]. injection Ht as <-. injection Hu as <-.
      split; try done. cbn [fst set_paths x_files]. by rewrite EF.
    - injection Hr as <-. by split. }
  apply bind_ok in H as ([] & st2 & Hc & H).
  apply (close_part_ok Hfin st1 fd F done cur) in Hc as (Hac & E2 & E3 & E4); [|done].
  apply bind_ok in H as ([] & st3 & Hu & H). destruct st2 as [x2 w2]. injection Hu as <-.
  unfold reads in H. cbn [fst x_part set_parts] in H, E2, E3, E4.
  rewrite E3, (oa_part _ _ _ _ _ Hopen) in H. rewrite length_app, Nat.add_1_r.
  rewrite <- names_roll. fold F. eapply open_part_ok; [exact H| | | |done| |].
  - destruct Hac as [? ? ? ?]. by split.
  - rewrite length_app. simpl. lia.
  - done.
  - cbn [fst x_finished set_parts]. by rewrite E4, (oa_finished _ _ _ _ _ Hopen).
  - cbn [fst x_files set_parts]. by rewrite E2, (oa_files _ _ _ _ _ Hopen).
Qed.

(** The shape of the parts: none over the limit, and only the last one short. *)
Record shaped (done : list (list Row)) (cur : list Row) : Prop := {
  sh_full : Forall (fun part => limit = Some (Z.of_nat (length part))) done;
  sh_last : forall L, limit = Some L -> (Z.of_nat (length cur) <= L)%Z;
  sh_short : done <> [] -> cur <> [];
}.

Lemma limit_positive L : limit = Some L -> (0 < L)%Z.
Proof.
  unfold limit, row_limit, opt_min, positive. intros H.
  repeat case_match; simplify_eq; lia.
Qed.

Lemma write_row_ok (Hfin : finish_creates) row st fd done cur st' :
  write_row ops pid mode_new row st = (inr tt, st') ->
  open_at st fd (names (S (length done))) done cur -> shaped done cur ->
  exists done' cur', concat done' ++ cur' = concat done ++ cur ++ [row]
    /\ open_at st' fd (names (S (length done'))) done' cur' /\ shaped done' cur'.
Proof.
  intros H Hopen [Hfull Hlast Hshort]. unfold write_row, reads in H.
  assert (part_full st.1 = match limit with Some L => (L <=? Z.of_nat (length cur))%Z | None => false end)
    as Epf.
  { pose proof (oa_spec _ _ _ _ _ Hopen) as (_ & _ & _ & _ & _ & El).
    unfold part_full. by rewrite El, (oa_in_part _ _ _ _ _ Hopen). }
  apply bind_ok in H as ([] & st1 & Hr & H).
  assert (exists done' cur1, concat done' ++ cur1 = concat done ++ cur
    /\ open_at st1 fd (names (S (length done'))) done' cur1 /\ shaped done' (cur1 ++ [row]))
    as (done' & cur1 & Econcat & Hopen1 & Hsh).
  { destruct (part_full st.1) eqn:Efull.
    - pose proof (roll_over_ok Hfin st fd done cur st1 Hr Hopen) as Hroll.
      assert (exists L, limit = Some L /\ (L <=? Z.of_nat (length cur))%Z = true) as (L & El & HL).
      { destruct limit as [L|]; [by exists L|done]. }
      exists (done ++ [cur]), [].
      split; [by rewrite concat_app, concat_cons, !app_nil_r|]. split; [exact Hroll|].
      specialize (Hlast L El). apply Z.leb_le in HL.
      split; [|intros L' HL'; pose proof (limit_positive L' HL'); simpl; lia|done].
      rewrite Forall_app, Forall_singleton. split; [done|]. rewrite El. f_equal. lia.
    - injection Hr as <-. exists done, cur. split; [done|]. split; [done|]. split; [done| |].
      + intros L HL. rewrite HL in Epf. symmetry in Epf. apply Z.leb_gt in Epf.
        rewrite length_app. simpl. lia.
      + intros _ Habs. by apply app_eq_nil in Habs as [_ ?]. }
  exists done', (cur1 ++ [row]). split; [by rewrite app_assoc, Econcat, app_assoc|]. split; [|done].
  destruct Hopen1 as [Hsp Ep Ei Er (wr & Ew & Eop) EF (ss & s & Es & Hns & Hcl) Efd].
  destruct st1 as [x w]. cbn [fst snd] in *. rewrite Ew in H.
  destruct (wr_row ops wr row) as [e wr'] eqn:Erow.
  apply bind_ok in H as ([] & st2 & Hu & H). injection Hu as <-.
  apply bind_ok in H as ([] & st3 & Hw & H). unfold wrote in Hw. destruct e; [done|].
  injection Hw as <-. cbn [x_staging set_writer] in H. rewrite Es, last_snoc in H. injection H as <-.
  split; cbn [fst snd add_row set_writer x_part x_in_part x_rows x_writer x_files x_staging x_finished];
    try done; [rewrite length_app; simpl; lia|rewrite length_app; simpl; lia| |].
  - exists wr'. split; [done|]. by eapply opened_snoc.
  - exists ss, s. split; [done|]. split; [done|]. eapply closed_frame; [exact Hcl|].
    intros q Hq. apply sync_other. by intros ->.
Qed.

(** ** The row loop *)

Definition every (n : nat) : list nat := List.filter (fun k => k mod PROGRESS_EVERY =? 0) (seq 1 n).
Lemma every_S n : every (S n) = if S n mod PROGRESS_EVERY =? 0 then every n ++ [S n] else every n.
Proof.
  unfold every. rewrite seq_S, List.filter_app. cbn [List.filter Nat.add].
  destruct (_ =? 0); [done|apply app_nil_r].
Qed.

Lemma feed_ok (Hfin : finish_creates) (cancel : nat -> bool) rows : forall n reports st fd done cur reports' st',
  feed ops pid mode_new cancel n rows reports st = (inr reports', st') ->
  open_at st fd (names (S (length done))) done cur -> shaped done cur -> reports = every (x_rows st.1) ->
  exists done' cur', concat done' ++ cur' = (concat done ++ cur) ++ taken cancel n rows
    /\ open_at st' fd (names (S (length done'))) done' cur' /\ shaped done' cur'
    /\ reports' = progress_points (x_rows st'.1).
Proof.
  induction rows as [|[e|row] rows IH]; intros n reports st fd done cur reports' st'; cbn [feed taken];
    (destruct (cancel n);
      [intros [= <- <-] [? ? ? ? ? ? ? ?] Hsh ->; exists done, cur; rewrite app_nil_r; by split_and!|]).
  - intros [= <- <-] Hopen Hsh ->. exists done, cur. rewrite app_nil_r. by split_and!.
  - done.
  - unfold write_row_with_progress. destruct (write_row _ _ _ row st) as [[e|[]] st1] eqn:Ew; [done|].
    intros H Hopen Hsh ->.
    destruct (write_row_ok Hfin row st fd done cur st1 Ew Hopen Hsh) as (done1 & cur1 & Ec & Hopen1 & Hsh1).
    destruct (IH _ _ _ fd done1 cur1 _ _ H Hopen1 Hsh1) as (done2 & cur2 & Ec2 & Hopen2 & Hsh2 & Hr).
    { assert (x_rows st1.1 = S (x_rows st.1)) as ->.
      { rewrite (oa_rows _ _ _ _ _ Hopen), (oa_rows _ _ _ _ _ Hopen1).
        apply (f_equal length) in Ec. rewrite !length_app in Ec. simpl in Ec. lia. }
      by rewrite every_S. }
    exists done2, cur2. split_and!; try done. by rewrite Ec2, Ec, <- !app_assoc.
Qed.

(** ** The commit *)

Lemma place_free (w : World) s p m c w' :
  w_files w !! p = None -> w_files w !! s = Some (File m c) ->
  place (E := E) io s p w = (None, w') -> w_files w' = <[p := File m c]> (delete s (w_files w)).
Proof.
  intros Hp Hs. unfold place. rewrite Hp. cbn [negb]. rewrite Hp. cbn [negb]. unfold tick. cbn [w_files].
  destruct (io (w_clock w)); [|done]. rewrite Hs, Hp. by intros [= <-].
Qed.

Lemma place_all_ok ss : forall ps (w w' : World),
  place_all (E := E) io ss ps w = (None, w') -> NoDup ss -> NoDup ps -> length ss = length ps ->
  Forall (fun p => w_files w !! p = None) ps ->
  Forall (fun s => exists m c, w_files w !! s = Some (File m c)) ss ->
  (forall i s p, ss !! i = Some s -> ps !! i = Some p -> w_files w' !! p = w_files w !! s)
  /\ forall q, q ∉ ss -> q ∉ ps -> w_files w' !! q = w_files w !! q.
Proof.
  induction ss as [|s ss IH]; intros ps w w' H Hss Hps Hlen Hfree Hstaged; cbn [place_all] in H.
  { injection H as <-. split; [by intros|done]. }
  destruct ps as [|p ps]; [done|]. destruct (place io s p w) as [[e|] w1] eqn:Ep; [done|].
  apply NoDup_cons in Hss as [Hs Hss], Hps as [Hp Hps].
  apply Forall_cons in Hfree as [Hfp Hfree], Hstaged as [(m & c & Hsf) Hstaged].
  apply (place_free w s p m c w1 Hfp Hsf) in Ep.
  assert (forall q, q <> s -> q <> p -> w_files w1 !! q = w_files w !! q) as Hother.
  { intros q H1 H2. by rewrite Ep, lookup_insert_ne, lookup_delete_ne by done. }
  assert (p ∉ ss) as Hpss.
  { intros Hin. rewrite Forall_forall in Hstaged. destruct (Hstaged p Hin) as (? & ? & ?). congruence. }
  assert (s ∉ ps) as Hsps.
  { intros Hin. rewrite Forall_forall in Hfree. specialize (Hfree s Hin). congruence. }
  assert (forall q, q ∈ ps -> w_files w1 !! q = w_files w !! q) as Hq1.
  { intros q Hq. apply Hother; intros ->; done. }
  assert (forall q, q ∈ ss -> w_files w1 !! q = w_files w !! q) as Hq2.
  { intros q Hq. apply Hother; intros ->; done. }
  destruct (IH ps w1 w' H Hss Hps) as [Hplaced Hrest]; [by injection Hlen| | |].
  - rewrite Forall_forall in Hfree |- *. intros q Hq. rewrite Hq1 by done. by apply Hfree.
  - rewrite Forall_forall in Hstaged |- *. intros q Hq. rewrite Hq2 by done. by apply Hstaged.
  - split.
    + intros [|i] s' p' Hs' Hp'; simpl in Hs', Hp'.
      * simplify_eq. rewrite Hrest by done. by rewrite Ep, lookup_insert_eq, Hsf.
      * rewrite (Hplaced i s' p' Hs' Hp'). apply Hq2. by eapply list_elem_of_lookup_2.
    + intros q Hqs Hqp. apply not_elem_of_cons in Hqs as [? ?], Hqp as [? ?].
      rewrite Hrest by done. by apply Hother.
Qed.

(** A link read after its target was replaced by the staged file. *)
Lemma resolve_insert (m m' : Z) (c c' : C) (s t : Path) fuel : forall (files : gmap Path (@Node C)) p,
  resolve fuel files p = Some t -> files !! s = Some (File m' c') ->
  resolve fuel (<[t := File m c]> (delete s files)) p = Some t.
Proof.
  induction fuel as [|fuel IH]; intros files p; cbn [resolve]; [done|].
  intros H Hs. destruct (decide (p = t)) as [->|Hpt].
  - by rewrite lookup_insert_eq.
  - destruct (files !! p) as [[m1 c1| |q]|] eqn:Ep; simplify_eq.
    rewrite lookup_insert_ne by done. rewrite lookup_delete_ne by (intros ->; congruence).
    rewrite Ep. by apply IH.
Qed.

Lemma resolve_mode (m m' : Z) (c : C) (s : Path) fuel : forall (files : gmap Path (@Node C)) p,
  files !! s = Some (File m' c) ->
  resolve fuel (<[s := File m c]> files) p = resolve fuel files p.
Proof.
  induction fuel as [|fuel IH]; intros files p Hs; cbn [resolve]; [done|].
  destruct (decide (p = s)) as [->|Hps]; [by rewrite lookup_insert_eq, Hs|].
  rewrite lookup_insert_ne by done. destruct (files !! p) as [[| |]|]; auto.
Qed.

(** One file placed: its name reads as the staged content, the file that was there lends its
    permissions, and nothing else changes. *)
Lemma place_read (w : World) s p m c w' :
  w_files w !! s = Some (File m c) -> place (E := E) io s p w = (None, w') ->
  exists t m1, resolve LINKS (w_files w') p = Some t /\ w_files w' !! t = Some (File m1 c)
    /\ ((forall q, w_files w !! p <> Some (Link q)) -> t = p)
    /\ (forall old c0, w_files w !! t = Some (File old c0) -> m1 = old)
    /\ forall q, q <> t -> q <> s -> w_files w' !! q = w_files w !! q.
Proof.
  intros Hs. unfold place.
  set (target := match w_files w !! p with Some (Link _) => _ | _ => _ end).
  destruct target as [t|] eqn:Et; [|done].
  assert ((forall q, w_files w !! p <> Some (Link q)) -> t = p) as Hnl.
  { subst target. destruct (w_files w !! p) as [[| |q]|]; try congruence. intros H. by destruct (H q). }
  assert (resolve LINKS (w_files w) p = Some t \/ t = p /\ forall q, w_files w !! p <> Some (Link q)) as Hres.
  { subst target. destruct (w_files w !! p) as [[| |q]|]; simplify_eq; auto; right; split; congruence. }
  clearbody target. clear Et target.
  match goal with |- context [let '(ok, w) := ?X in _] => destruct X as [ok w1] eqn:E1 end.
  destruct ok; cbn [negb]; [|done]. unfold tick. cbn [w_files].
  destruct (io (w_clock w1)); [|done].
  assert (exists m1, w_files w1 = <[s := File m1 c]> (w_files w)
    /\ forall old c0, w_files w !! t = Some (File old c0) -> m1 = old) as (m1 & Ew1 & Hold).
  { destruct (w_files w !! t) as [[old c0| |]|] eqn:Ewt; simplify_eq.
    - unfold tick in E1. injection E1 as Hio <-. rewrite Hio. cbn [w_files]. rewrite Hs.
      exists old. split; [done|]. by intros ? ? [= <- <-].
    - exists m. rewrite insert_id by done. split; [done|]. by intros.
    - exists m. rewrite insert_id by done. split; [done|]. by intros.
    - exists m. rewrite insert_id by done. split; [done|]. by intros. }
  rewrite Ew1, lookup_insert_eq.
  assert (forall files', files' = <[t := File m1 c]> (delete s (<[s := File m1 c]> (w_files w))) ->
    resolve LINKS files' p = Some t /\ files' !! t = Some (File m1 c)
    /\ forall q, q <> t -> q <> s -> files' !! q = w_files w !! q) as Hfinal.
  { intros files' ->. split; [|split].
    - destruct Hres as [Hres|[-> _]].
      + apply (resolve_insert m1 m1 c c); [|by rewrite lookup_insert_eq].
        by rewrite (resolve_mode m1 m c s LINKS _ _ Hs).
      + cbn [resolve LINKS]. by rewrite lookup_insert_eq.
    - by rewrite lookup_insert_eq.
    - intros q H1 H2. by rewrite lookup_insert_ne, lookup_delete_ne, lookup_insert_ne by done. }
  destruct (<[s:=_]> (w_files w) !! t) as [[| |]|]; intros H; try done; injection H as <-;
    cbn [w_files set_files]; destruct (Hfinal _ eq_refl) as (H1 & H2 & H3);
    exists t, m1; by split_and!.
Qed.

(** ** The whole export *)

(** Every part's file reads as its content, and what was there is there, but for the file a
    single part replaced. *)
Definition committed (w w' : World) (files : list Path) (parts : list (list Row)) : Prop :=
  (forall i part, parts !! i = Some part ->
     exists p c, files !! i = Some p /\ part_content i part = Some c /\ read_file w' p = Some c)
  /\ forall q n, w_files w !! q = Some n ->
       (forall p, files = [p] -> resolve LINKS (w_files w') p <> Some q) -> w_files w' !! q = Some n.

Lemma read_direct (w : World) p m c : w_files w !! p = Some (File m c) -> read_file w p = Some c.
Proof. intros H. unfold read_file. cbn [resolve LINKS]. by rewrite H, H. Qed.

Lemma commit_ok (w0 : World) st parts st' :
  commit (E := E) io st = (inr tt, st') -> all_closed st parts -> safe w0 st ->
  x_files st.1 = names (length parts) -> parts <> [] ->
  committed w0 st'.2 (names (length parts)) parts
  /\ x_rows st'.1 = x_rows st.1 /\ x_files st'.1 = x_files st.1 /\ x_staging st'.1 = [].
Proof.
  destruct st as [x w]. intros H [_ _ _ [Hn Hl Hc]] (Hsub & Hnew & _) EF Hne. cbn [fst snd] in *.
  unfold commit in H. destruct (if 1 <? length (x_files x) then _ else None) as [e|] eqn:Et; [done|].
  destruct (place_all io (x_staging x) (x_files x) w) as [[e|] w1] eqn:Ep; [done|].
  injection H as <-. cbn [fst snd set_paths x_rows x_files x_staging]. split; [|done].
  assert (forall q n, w_files w0 !! q = Some n -> w_files w !! q = Some n /\ q ∉ x_staging x) as Hold.
  { intros q n Hq. split; [by eapply lookup_weaken|]. intros Hin. rewrite Forall_forall in Hnew.
    specialize (Hnew q Hin). congruence. }
  rewrite EF in Ep, Et. destruct (decide (length parts = 1)) as [E1|E1].
  - rewrite E1 in Ep |- *. unfold names in *. cbn [Nat.eqb] in *.
    destruct parts as [|part [|]]; [done| |done]. destruct (x_staging x) as [|s [|]]; [done| |done].
    cbn [place_all] in Ep. destruct (place io s _ w) as [[e|] w2] eqn:Epl; [done|]. injection Ep as <-.
    destruct (Hc 0 part s eq_refl eq_refl) as (m & c & Hpc & Hs).
    destruct (place_read w s _ m c w2 Hs Epl) as (t & m1 & Hr & Ht & _ & _ & Hoth). split.
    + intros [|i] part' Hp; [|done]. simpl in Hp. simplify_eq. eexists _, c. split; [done|].
      split; [done|]. unfold read_file. by rewrite Hr, Ht.
    + intros q n Hq Hne2. destruct (Hold q n Hq) as [Hqw Hqs]. rewrite Hoth; [done| |].
      * intros ->. by apply (Hne2 _ eq_refl).
      * intros ->. apply Hqs. by left.
  - assert ((1 <? length (names (length parts))) = true) as E2.
    { unfold names. destruct (length parts =? 1) eqn:E3; [apply Nat.eqb_eq in E3; lia|].
      rewrite length_fmap, length_seq. destruct parts; [done|]. apply Nat.ltb_lt. simpl in *. lia. }
    rewrite E2 in Et. apply first_taken_None in Et.
    assert (NoDup (names (length parts)) /\ length (names (length parts)) = length parts) as [Hnd Hlen].
    { unfold names. destruct (length parts =? 1) eqn:E3; [apply Nat.eqb_eq in E3; lia|].
      split; [apply numbered_nodup|by rewrite length_fmap, length_seq]. }
    destruct (place_all_ok _ _ _ _ Ep Hn Hnd) as [Hpl Hrest]; [by rewrite Hlen|done| |].
    { apply Forall_forall. intros s [i Hi]%list_elem_of_lookup_1.
      destruct (lookup_lt_is_Some_2 parts i) as [part Hpart]; [rewrite <- Hl; by eapply lookup_lt_Some|].
      destruct (Hc i part s Hpart Hi) as (m & c & _ & ?). eauto. }
    split.
    + intros i part Hpart. assert (i < length parts) as Hi by (by eapply lookup_lt_Some).
      destruct (lookup_lt_is_Some_2 (x_staging x) i) as [s Hs]; [by rewrite Hl|].
      destruct (lookup_lt_is_Some_2 (names (length parts)) i) as [p Hp]; [by rewrite Hlen|].
      destruct (Hc i part s Hpart Hs) as (m & c & Hpc & Hsf). exists p, c. split; [done|].
      split; [done|]. apply (read_direct _ _ m). by rewrite (Hpl i s p Hs Hp).
    + intros q n Hq _. destruct (Hold q n Hq) as [Hqw Hqs]. rewrite Hrest; [done|done|].
      intros Hin. rewrite Forall_forall in Et. specialize (Et q Hin). congruence.
Qed.

(** The parts: the rows in order, none over the limit, only the last one short, and more than one
    only when there is a limit. *)
Definition parts_of (rows : list Row) (parts : list (list Row)) : Prop :=
  concat parts = rows
  /\ (limit = None -> length parts = 1)
  /\ forall i part, parts !! i = Some part ->
       (0 < i -> part <> [])
       /\ forall L, limit = Some L -> (Z.of_nat (length part) <= L)%Z
            /\ (S i < length parts -> Z.of_nat (length part) = L).

Lemma shaped_parts done cur rows :
  shaped done cur -> concat done ++ cur = rows -> parts_of rows (done ++ [cur]).
Proof.
  intros [Hf Hl Hs] Hrows. split; [by rewrite concat_app, concat_cons, app_nil_r|]. split.
  - intros Hno. destruct done as [|d ds]; [done|]. apply Forall_cons in Hf as [Hd _]. congruence.
  - intros i part Hp. rewrite length_app. cbn [length]. rewrite Forall_forall in Hf.
    apply lookup_app_Some in Hp as [Hp|[Hge Hp]].
    + pose proof (Hf part (list_elem_of_lookup_2 _ _ _ Hp)) as HL. split.
      * intros _ ->. pose proof (limit_positive _ HL). simpl in *. lia.
      * intros L HL'. rewrite HL in HL'. injection HL' as <-. split; lia.
    + destruct (i - length done) as [|k] eqn:Ek; [|done]. simpl in Hp. injection Hp as <-. split.
      * intros Hi. apply Hs. intros ->. simpl in *. lia.
      * intros L HL'. split; [by apply Hl|]. intros. lia.
Qed.

Lemma new_ok (w : World) st :
  exporter_new (E := E) ops io pid mode_new sp w = (inr tt, st) ->
  open_at st false (names 1) [] [] /\ x_rows st.1 = 0.
Proof.
  unfold exporter_new, tick. destruct (io (w_clock w)); [|done].
  set (x := MkExporter _ _ _ _ _ _ _ _ _ _ _ _ _ _ _). intros H.
  assert (open_at st false (names 1) [] []) as Hopen.
  { eapply (open_part_ok (x, _) false [] 0 []); [exact H| |done..].
    split; try done. split; [constructor|done|]. intros i part s Hp. done. }
  split; [done|]. apply (oa_rows _ _ _ _ _ Hopen).
Qed.

Lemma finish_ok (Hfin : finish_creates) (w0 : World) st done cur st' :
  finish (E := E) ops io mode_new st = (inr tt, st') ->
  open_at st false (names (S (length done))) done cur -> safe w0 st ->
  committed w0 st'.2 (x_files st'.1) (done ++ [cur])
  /\ x_files st'.1 = names (length (done ++ [cur]))
  /\ x_rows st'.1 = length (concat done) + length cur /\ x_staging st'.1 = [].
Proof.
  intros H Hopen Hsafe. unfold finish in H. rewrite (oa_finished _ _ _ _ _ Hopen) in H.
  destruct (bind _ _ st) as [[e|[]] st3] eqn:Eb; [done|]. injection H as <-.
  apply bind_ok in Eb as ([] & st1 & Hu & Eb). apply bind_ok in Eb as ([] & st2 & Hc & Hcm).
  assert (open_at st1 true (names (S (length done))) done cur /\ safe w0 st1) as [Hopen1 Hsafe1].
  { destruct st as [x w]. injection Hu as <-. split; [|done]. destruct Hopen. by split. }
  pose proof (safe_close_part ops mode_new w0 _ _ _ Hc Hsafe1) as Hsafe2.
  destruct (close_part_ok Hfin _ _ _ _ _ _ Hc Hopen1) as (Hac & EF & _ & _).
  rewrite (oa_files _ _ _ _ _ Hopen1) in EF.
  assert (length (done ++ [cur]) = S (length done)) as Hlen by (rewrite length_app; simpl; lia).
  rewrite <- Hlen in EF.
  destruct (commit_ok w0 _ _ _ Hcm Hac Hsafe2 EF) as (Hcommit & Er & Ef & Es); [by destruct done|].
  split; [by rewrite Ef, EF|]. split; [by rewrite Ef, EF|]. split; [|done].
  rewrite Er, (ac_rows _ _ Hac), concat_app, concat_cons, app_nil_r. apply length_app.
Qed.

(** The parts of a successful export, and what it says of them. *)
Lemma export_parts (Hfin : finish_creates) (rows : list (E + Row)) (cancel : nat -> bool) (w w' : World) (oc : ExportOutcome) (reports : list nat) :
  export_rows ops io pid mode_new sp rows cancel w = (inr (oc, reports), w') ->
  exists done cur, concat done ++ cur = taken cancel 0 rows /\ shaped done cur
    /\ oc_files oc = names (length (done ++ [cur])) /\ committed w w' (oc_files oc) (done ++ [cur])
    /\ oc_rows oc = length (taken cancel 0 rows) /\ reports = progress_points (length (taken cancel 0 rows)).
Proof.
  intros H. unfold export_rows in H.
  destruct (exporter_new _ _ _ _ sp w) as [[e|[]] st0] eqn:En; [done|].
  destruct (feed _ _ _ _ _ _ _ st0) as [[e|reports1] st1] eqn:Ef; [done|].
  destruct (finish _ _ _ st1) as [[e|[]] st2] eqn:Efi; [done|].
  destruct (new_ok w st0 En) as [Hopen0 Hr0].
  assert (safe w st0) as Hsafe0.
  { revert En. unfold exporter_new, tick. destruct (io (w_clock w)); [|done].
    intros H'. eapply safe_open_part; [exact H'|]. split; [done|]. split; [constructor|done]. }
  destruct (feed_ok Hfin cancel rows 0 [] st0 false [] [] reports1 st1 Ef Hopen0)
    as (done & cur & Ec & Hopen1 & Hsh & Hreports).
  { split; [constructor|intros L HL; pose proof (limit_positive L HL); simpl; lia|done]. }
  { by rewrite Hr0. }
  pose proof (safe_feed ops pid mode_new w _ _ _ _ _ _ _ Ef Hsafe0) as Hsafe1.
  destruct (finish_ok Hfin w st1 done cur st2 Efi Hopen1 Hsafe1) as (Hcom & EF & Er & Es).
  simpl app in Ec. exists done, cur.
  assert (length (taken cancel 0 rows) = length (concat done) + length cur) as Hlen by (by rewrite <- Ec, length_app).
  destruct st2 as [x2 w2]. cbn [fst snd] in *. unfold abort in H. rewrite Es in H.
  injection H as <- <- <-. cbn [into_outcome oc_files oc_rows]. 
  split; [done|]. split; [done|]. split; [done|]. split; [done|]. split; [by rewrite Hlen|].
  by rewrite Hreports, (oa_rows _ _ _ _ _ Hopen1), Hlen.
Qed.

(** C8: What a successful export has written. The rows taken from the source, all of them and in
    order, are split over parts of the size asked for; there is one file per part, under the name
    asked for when there is one part and numbered without a gap when there are more; reading a
    file gives what its writer makes of the rows of its part; everything else that was in the
    file system is as it was; and progress was reported every thousand rows and at the end. *)
Theorem export_writes_every_row (rows : list (E + Row)) (cancel : nat -> bool) (w w' : World)
  (oc : ExportOutcome) (reports : list nat) :
  finish_creates ->
  export_rows ops io pid mode_new sp rows cancel w = (inr (oc, reports), w') ->
  exists parts, parts_of (taken cancel 0 rows) parts
    /\ oc_files oc = names (length parts)
    /\ committed w w' (oc_files oc) parts
    /\ oc_rows oc = length (taken cancel 0 rows)
    /\ reports = progress_points (length (taken cancel 0 rows)).
Proof.
  intros Hfin H. destruct (export_parts Hfin rows cancel w w' oc reports H) as (done & cur & Hc & Hsh & Hf & Hcom & Hr & Hp).
  exists (done ++ [cur]). split; [by apply shaped_parts|done].
Qed.
End Parts.

(** ** A writer for the examples

    Its file is the list of the numbers it was given; it refuses the number 13, and one that is
    opened on no column but [false] fails after its file was created. *)
Definition toy_writer : @WriterOps (list nat) nat bool (list nat) nat :=
  MkWriter (fun _ columns _ => if existsb id columns then inr [] else inl (EIo, Some []))
    (fun w row => if row =? 13 then (Some EIo, w) else (None, w ++ [row]))
    (fun w => (None, w)) (fun _ => 0) (fun _ => []) Some.
Definition toy_spec (columns : list bool) (per_file : option Z) : @ExportSpec bool :=
  MkSpec FCsv (B "/out") (B "report") columns default_options per_file.
Definition old_report : Path := (B "/out", B "report.csv").
Definition toy_world : @World (list nat) := MkWorld {[ old_report := File 384 [0] ]} 0 0.
Definition toy_export (columns : list bool) (per_file : option Z) (rows : list (nat + nat)) :=
  export_rows toy_writer (fun _ => true) 7 420 (toy_spec columns per_file) rows (fun _ => false) toy_world.

Lemma toy_finish_creates : finish_creates toy_writer.
Proof. intros wr wr' _. by eexists. Qed.

(** Five rows, two per file: three numbered files beside the old one. *)
Definition toy_split := toy_export [true] (Some 2%Z) (inr <$> [1; 2; 3; 4; 5]).
Lemma export_writes_every_row_witness :
  match toy_split with
  | (inr (oc, reports), w') =>
      exists parts, parts_of (toy_spec [true] (Some 2%Z)) [1; 2; 3; 4; 5] parts
        /\ oc_files oc = names (toy_spec [true] (Some 2%Z)) (length parts)
        /\ committed toy_writer (toy_spec [true] (Some 2%Z)) toy_world w' (oc_files oc) parts
        /\ oc_rows oc = 5 /\ reports = progress_points 5
  | _ => False
  end.
Proof.
  destruct toy_split as [[e|[oc reports]] w'] eqn:H; [by vm_compute in H|].
  exact (export_writes_every_row toy_writer (fun _ => true) 7 420 (toy_spec [true] (Some 2%Z))
           (inr <$> [1; 2; 3; 4; 5]) (fun _ => false) toy_world w' oc reports toy_finish_creates H).
Defined.
Example toy_split_files :
  match toy_split with
  | (inr (oc, reports), w') =>
      oc_files oc = [(B "/out", B "report_part01.csv"); (B "/out", B "report_part02.csv");
                     (B "/out", B "report_part03.csv")]
      /\ (read_file w' <$> oc_files oc) = [Some [1; 2]; Some [3; 4]; Some [5]]
      /\ read_file w' old_report = Some [0] /\ reports = [5]
  | _ => False
  end.
Proof. vm_compute. split_and!; reflexivity. Qed.

(** One file: the old report is replaced and keeps its permissions. *)
Example toy_single_file :
  match toy_export [true] None (inr <$> [1; 2]) with
  | (inr (oc, _), w') => w_files w' !! old_report = Some (File 384 [1; 2]) /\ size (w_files w') = 1
  | _ => False
  end.
Proof. vm_compute. split; reflexivity. Qed.

(** A row the writer refuses: the old report is untouched and no staged file is left. *)
Definition toy_failed := toy_export [true] (Some 1%Z) (inr <$> [1; 13; 2]).
Lemma failed_export_changes_nothing_witness :
  match toy_failed with
  | (inl _, w') => w_files toy_world ⊆ w_files w'
  | _ => False
  end.
Proof.
  destruct toy_failed as [[e|[oc reports]] w'] eqn:H; [|by vm_compute in H].
  exact (failed_export_changes_nothing toy_writer (fun _ => true) 7 420 (toy_spec [true] (Some 1%Z))
           (inr <$> [1; 13; 2]) (fun _ => false) toy_world w' e H).
Defined.
Example toy_failed_leaves_nothing : w_files toy_failed.2 = w_files toy_world.
Proof. vm_compute. reflexivity. Qed.

(** A writer that cannot be opened but has created its file leaves the staged file: the exporter
    records the staged path only after [open] has answered. *)
Example failed_open_leaves_the_staged_file :
  match toy_export [false] None [] with
  | (inl EIo, w') => w_files w' !! (B "/out", B ".report.csv.qhpart") = Some (File 420 [])
  | _ => False
  end.
Proof. vm_compute. reflexivity. Qed.

(** A finished export whose last part is full opens a part for another row instead of refusing it. *)
Example finished_export_opens_a_part :
  match exporter_new toy_writer (fun _ => true) 7 420 (toy_spec [true] (Some 1%Z)) toy_world with
  | (inr _, st) =>
      let st := (write_row (E := nat) toy_writer 7 420 1 st).2 in
      let st := (finish (E := nat) toy_writer (fun _ => true) 420 st).2 in
      match write_row (E := nat) toy_writer 7 420 2 st with
      | (inr _, (x, w)) => x_finished x = true /\ x_rows x = 2
          /\ w_files w !! (B "/out", B ".report_part02.csv.qhpart") = Some (File 420 [2])
      | _ => False
      end
  | _ => False
  end.
Proof. vm_compute. split_and!; reflexivity. Qed.

(** The plain staging name is taken by another export. *)
Definition busy_world : @World (list nat) :=
  MkWorld {[ (B "/out", B ".report.csv.qhpart") := File 420 []; (B "/out", B ".report.csv.7-0.qhpart") := File 420 [] ]} 0 0.
Lemma staging_path_free_witness :
  exists s w', staging_path 7 old_report busy_world = Some (s, w')
    /\ w_files w' = w_files busy_world /\ w_files busy_world !! s = None /\ s.1 = B "/out".
Proof. apply (staging_path_free 7 old_report busy_world); vm_compute; split; congruence. Defined.
