(* ===== verification/Lease.v ===== *)
(** * Lease: the session a run borrows, [crates/qh-ffi/src/host/lease.rs].

    [Held] forwards calls to a driver's session, replaces a connection that was lost and says
    what becomes of the session when it comes back.  The driver and the pool are the environment:
    [answers] says what each request is answered, from the requests made before it; [None] is a
    call that was dropped before it was answered.  The [CursorEnd] a cursor shares with its lease
    is a cell of the store [h_ends]. *)
From S2P Require Import Prelude Bytes Text Scan Classify Env Guard Retry.

(** ** When a statement may be sent again *)

Definition dialect_of (kind : DriverKind) : Dialect :=
  match kind with DMysql => Mysql | DPostgres => Postgres | DTrino => Trino end.
Definition RERUN_TEXTS : list string :=
  ["BEGIN"; "START TRANSACTION"; "BEGIN READ ONLY"; "START TRANSACTION READ ONLY"].
Definition rerunnable (sql : bytes) (kind : DriverKind) : bool :=
  let trimmed := trim sql in
  if existsb (fun text => eq_ignore_ascii_case trimmed (B text)) RERUN_TEXTS then true
  else bool_decide (classify_readings sql (readings (dialect_of kind)) = KReadOnly).

Definition connection_lost (e : EngineError) : bool :=
  produced_no_page e && bool_decide (failure_kind e = Transient).

Inductive Fate := FateReset | FateDiscard | FateDiscardAndRefill.
#[export] Instance Fate_eq_dec : EqDecision Fate.
Proof. solve_decision. Defined.

Section Lease.
(** Statement options, bound parameters, levels and paths of the object tree, and what a driver
    answers with. *)
Context {Options Param Level ObjPath Cur Copy Page Batch : Type}.
Context (row_limit : Options -> option nat) (batch_rows : Batch -> nat).

Inductive Op :=
| OpExecute (sql : bytes) (options : Options)
| OpBound (sql : bytes) (parameters : list Param) (options : Options)
| OpCopyIn (sql : bytes) (options : Options)
| OpBrowse (level : Level) (path : ObjPath) (include_system : bool)
| OpObjects (path : ObjPath).
Inductive Reply :=
| RCursor (c : Cur) | RCopy (c : Copy) | RNames (names : list bytes) | RPage (page : Page).

(** What was asked of the driver and of the pool. *)
Inductive Event :=
| Sent (op : Op)
| Connect_ (ok : bool)
| ReadOnly_ (ok : bool)
| Fetched
| Cancelled_
| Checkin (fate : Fate) (refill : bool)
| Closed.

(** The answers of the environment, from what was asked before. *)
Record Answers := MkAnswers {
  an_call : list Event -> Op -> option (EngineError + Reply);
  an_connect : list Event -> option (EngineError + unit);
  an_read_only : list Event -> option (EngineError + unit);
  an_batch : list Event -> Cur -> option (EngineError + option Batch);
  an_cancel : list Event -> option (EngineError + unit);
  an_query_id : list Event -> option bytes;
}.
Context (env : Answers).

(** ** The state *)

Record LeaseState := MkLease {
  l_kind : DriverKind; l_reused : bool; l_executed : bool; l_broken : bool; l_unsettled : bool;
  l_dirty : bool; l_read_only : bool; l_cancelled : bool; l_last_cursor : option nat }.
Definition lease_new (kind : DriverKind) (reused : bool) : LeaseState :=
  MkLease kind reused false false false false false false None.

Definition set_executed (l : LeaseState) (b : bool) : LeaseState :=
  MkLease (l_kind l) (l_reused l) b (l_broken l) (l_unsettled l) (l_dirty l) (l_read_only l)
    (l_cancelled l) (l_last_cursor l).
Definition set_broken (l : LeaseState) (b : bool) : LeaseState :=
  MkLease (l_kind l) (l_reused l) (l_executed l) b (l_unsettled l) (l_dirty l) (l_read_only l)
    (l_cancelled l) (l_last_cursor l).
Definition set_unsettled (l : LeaseState) (b : bool) : LeaseState :=
  MkLease (l_kind l) (l_reused l) (l_executed l) (l_broken l) b (l_dirty l) (l_read_only l)
    (l_cancelled l) (l_last_cursor l).
Definition set_dirty (l : LeaseState) (b : bool) : LeaseState :=
  MkLease (l_kind l) (l_reused l) (l_executed l) (l_broken l) (l_unsettled l) b (l_read_only l)
    (l_cancelled l) (l_last_cursor l).
Definition set_read_only (l : LeaseState) : LeaseState :=
  MkLease (l_kind l) (l_reused l) (l_executed l) (l_broken l) (l_unsettled l) (l_dirty l) true
    (l_cancelled l) (l_last_cursor l).
Definition set_cancelled (l : LeaseState) : LeaseState :=
  MkLease (l_kind l) (l_reused l) (l_executed l) (l_broken l) (l_unsettled l) (l_dirty l)
    (l_read_only l) true (l_last_cursor l).
Definition set_last_cursor (l : LeaseState) (c : nat) : LeaseState :=
  MkLease (l_kind l) (l_reused l) (l_executed l) (l_broken l) (l_unsettled l) (l_dirty l)
    (l_read_only l) (l_cancelled l) (Some c).
(** The end of a reconnect: the flags of the connection that is gone are cleared. *)
Definition replaced (l : LeaseState) : LeaseState :=
  MkLease (l_kind l) false false false false false (l_read_only l) (l_cancelled l) None.

(** [h_present]: the session is there. [h_ends]: the cursor ends, [true] once the server ended
    the stream. *)
Record Held := MkHeld {
  h_present : bool; h_query_id : option bytes; h_lease : option LeaseState; h_ends : list bool;
  h_history : list Event }.
Definition held_new (lease : option LeaseState) : Held := MkHeld true None lease [] [].

Definition note (h : Held) (e : Event) : Held :=
  MkHeld (h_present h) (h_query_id h) (h_lease h) (h_ends h) (h_history h ++ [e]).
Definition on_lease (f : LeaseState -> LeaseState) (h : Held) : Held :=
  MkHeld (h_present h) (h_query_id h) (f <$> h_lease h) (h_ends h) (h_history h).

(** Whether the last cursor of the lease was left before the server ended it. *)
Definition left_open (h : Held) (l : LeaseState) : bool :=
  match l_last_cursor l with Some c => negb (default false (h_ends h !! c)) | None => false end.

(** ** Calls

    The result of a call: [None] when it was dropped. *)

Definition held_rerunnable (h : Held) (sql : bytes) : bool :=
  match h_lease h with Some l => rerunnable sql (l_kind l) | None => false end.

(** [enforce_read_only] on the session itself. *)
Definition session_read_only (h : Held) : option (EngineError + unit) * Held :=
  match an_read_only env (h_history h) with
  | Some (inr _) => (Some (inr tt), note h (ReadOnly_ true))
  | r => (r, note h (ReadOnly_ false))
  end.

Definition reconnect (h : Held) : option (EngineError + unit) * Held :=
  match h_lease h with
  | None => (Some (inr tt), h)
  | Some l =>
      let h := on_lease (fun l => set_broken l true) h in
      match an_connect env (h_history h) with
      | None => (None, note h (Connect_ false))
      | Some (inl e) => (Some (inl e), note h (Connect_ false))
      | Some (inr _) =>
          let h := note h (Connect_ true) in
          let '(r, h) := if l_read_only l then session_read_only h else (Some (inr tt), h) in
          match r with
          | Some (inr _) => (Some (inr tt), on_lease replaced h)
          | _ => (r, h)
          end
      end
  end.

Definition attempt (op : Op) (h : Held) : option (EngineError + Reply) * Held :=
  let h := on_lease (fun l => set_unsettled (if left_open h l then set_dirty l true else l) true) h in
  let r := an_call env (h_history h) op in
  let h := note h (Sent op) in
  match r with
  | None => (None, h)
  | Some r => (Some r, on_lease (fun l => set_unsettled l false) h)
  end.

Definition LOST : bytes := B "the pooled connection was lost; the statement was not sent again".
Definition is_connect (e : EngineError) : bool := match e with EConnect _ _ => true | _ => false end.

(** The second half of [call]: what the lease notes of the outcome. *)
Definition noted (r : option (EngineError + Reply)) (h : Held) : option (EngineError + Reply) * Held :=
  match r with
  | None => (None, h)
  | Some r =>
      let lost := match r with inl e => connection_lost e | inr _ => false end in
      (Some r, on_lease (fun l => let l := set_executed l true in
                                  if lost then set_broken l true else l) h)
  end.
(** The first attempt, and the one after a reconnect. *)
Definition attempts (again : bool) (op : Op) (h : Held) : option (EngineError + Reply) * Held :=
  let first := match h_lease h with Some l => l_reused l && negb (l_executed l) | None => false end in
  let '(outcome, h) := attempt op h in
  match outcome with
  | Some (inl e) =>
      if first && again && (is_connect e && produced_no_page e) then
        match reconnect h with
        | (Some (inr _), h) => let '(outcome, h) := attempt op h in noted outcome h
        | (Some (inl e), h) => (Some (inl e), h)
        | (None, h) => (None, h)
        end
      else noted outcome h
  | _ => noted outcome h
  end.
Definition call (again : bool) (op : Op) (h : Held) : option (EngineError + Reply) * Held :=
  if match h_lease h with Some l => l_broken l | None => false end then
    if negb again then (Some (inl (EConnect LOST Permanent)), h)
    else match reconnect h with
         | (Some (inr _), h) => attempts again op h
         | (Some (inl e), h) => (Some (inl e), h)
         | (None, h) => (None, h)
         end
  else attempts again op h.

(** ** Cursors *)

(** [t_end]: the cell the cursor reports its end to; a cursor of a session with no lease has
    none. *)
Record Tracked := MkTracked { t_inner : Cur; t_end : option nat; t_row_limit : option nat; t_delivered : nat }.

Definition track (c : Cur) (options : Options) (h : Held) : Tracked * Held :=
  match h_lease h with
  | None => (MkTracked c None (row_limit options) 0, h)
  | Some _ =>
      let end_ := length (h_ends h) in
      (MkTracked c (Some end_) (row_limit options) 0,
       MkHeld (h_present h) (h_query_id h) ((fun l => set_last_cursor l end_) <$> h_lease h)
         (h_ends h ++ [false]) (h_history h))
  end.

Definition store_clean (t : Tracked) (h : Held) : Held :=
  match t_end t with
  | Some e => MkHeld (h_present h) (h_query_id h) (h_lease h) (<[e := true]> (h_ends h)) (h_history h)
  | None => h
  end.
Definition server_error (e : EngineError) : bool :=
  match error_code e, e with Some _, _ => true | None, ETimeout _ _ => true | None, _ => false end.

Definition cursor_next (t : Tracked) (h : Held)
  : option (EngineError + option Batch) * Tracked * Held :=
  let r := an_batch env (h_history h) (t_inner t) in
  let h := note h Fetched in
  match r with
  | None => (None, t, h)
  | Some (inr (Some b)) =>
      (Some (inr (Some b)), MkTracked (t_inner t) (t_end t) (t_row_limit t) (t_delivered t + batch_rows b), h)
  | Some (inr None) =>
      (Some (inr None), t,
       if match t_row_limit t with Some limit => t_delivered t <? limit | None => true end
       then store_clean t h else h)
  | Some (inl e) => (Some (inl e), t, if server_error e then store_clean t h else h)
  end.

(** ** The methods of the session *)

Definition set_query_id (h : Held) : Held :=
  MkHeld (h_present h) (an_query_id env (h_history h)) (h_lease h) (h_ends h) (h_history h).

(** [execute] and [execute_bound]; an answer that is not a cursor does not happen. *)
Definition run_cursor (sql : bytes) (op : Op) (options : Options) (h : Held)
  : option (EngineError + Tracked) * Held :=
  match call (held_rerunnable h sql) op h with
  | (Some (inr (RCursor c)), h) =>
      let '(t, h) := track c options (set_query_id h) in (Some (inr t), h)
  | (Some (inr _), h) => (None, h)
  | (Some (inl e), h) => (Some (inl e), h)
  | (None, h) => (None, h)
  end.
Definition execute (sql : bytes) (options : Options) (h : Held) : option (EngineError + Tracked) * Held :=
  run_cursor sql (OpExecute sql options) options h.
Definition execute_bound (sql : bytes) (ps : list Param) (options : Options) (h : Held)
  : option (EngineError + Tracked) * Held := run_cursor sql (OpBound sql ps options) options h.
Definition copy_in (sql : bytes) (options : Options) (h : Held) : option (EngineError + Reply) * Held :=
  call false (OpCopyIn sql options) h.
Definition browse (level : Level) (path : ObjPath) (include_system : bool) (h : Held)
  : option (EngineError + Reply) * Held := call true (OpBrowse level path include_system) h.
Definition objects (path : ObjPath) (h : Held) : option (EngineError + Reply) * Held :=
  call true (OpObjects path) h.

(** [cancel]: the lease is marked before anything is waited for. *)
Definition cancel (h : Held) : option (EngineError + unit) * Held :=
  let h := on_lease set_cancelled h in
  if h_present h then (an_cancel env (h_history h), note h Cancelled_) else (Some (inr tt), h).

Definition enforce_read_only (h : Held) : option (EngineError + unit) * Held :=
  match session_read_only h with
  | (Some (inr _), h) => (Some (inr tt), on_lease set_read_only h)
  | r => r
  end.

(** ** Giving the session back *)

Definition is_postgres_kind (k : DriverKind) : bool := match k with DPostgres => true | _ => false end.
Definition fate (h : Held) (l : LeaseState) : Fate :=
  let left_behind := is_postgres_kind (l_kind l) && (l_dirty l || left_open h l) in
  if l_cancelled l || l_broken l || l_unsettled l then FateDiscard
  else if left_behind then FateDiscardAndRefill
  else FateReset.

Definition release (h : Held) : Held :=
  let gone h := MkHeld false (h_query_id h) None (h_ends h) (h_history h) in
  match h_lease h with
  | Some l =>
      if h_present h then
        let f := fate h l in
        gone (note h (Checkin f (bool_decide (f = FateDiscardAndRefill))))
      else gone h
  | None => if h_present h then gone (note h Closed) else gone h
  end.
End Lease.
