(* ===== verification/LeaseSpec.v ===== *)
(** * LeaseSpec: what a borrowed session guarantees, for [Lease]. *)
From S2P Require Import Prelude Bytes Text Scan Classify ClassifySpec Env Guard Retry Lease.

Section Spec.
Context {Options Param Level ObjPath Cur Copy Page Batch : Type}.
Context (row_limit : Options -> option nat) (batch_rows : Batch -> nat).
Abbreviation Op := (@Op Options Param Level ObjPath).
Abbreviation Reply := (@Reply Cur Copy Page).
Abbreviation Event := (@Event Options Param Level ObjPath).
Abbreviation Held := (@Held Options Param Level ObjPath).
Abbreviation Tracked := (@Tracked Cur).
Context (env : @Answers Options Param Level ObjPath Cur Copy Page Batch).

(** ** The trace of a call *)

(** The operations sent, in order. *)
Definition sends (evs : list Event) : list Op :=
  omap (fun e => match e with Sent op => Some op | _ => None end) evs.
(** Whether the connection in use is read-only. *)
Definition enforced_step (b : bool) (e : Event) : bool :=
  match e with Connect_ true => false | ReadOnly_ true => true | _ => b end.
Definition enforced (evs : list Event) : bool := foldl enforced_step false evs.
(** How many connections have been opened. *)
Definition opens (e : Event) : bool := match e with Connect_ true => true | _ => false end.
Definition conn (h : Held) : nat := length (List.filter opens (h_history h)).

Lemma sends_app a b : sends (a ++ b) = sends a ++ sends b.
Proof. apply omap_app. Qed.
Lemma enforced_app a e : enforced (a ++ [e]) = enforced_step (enforced a) e.
Proof. unfold enforced. by rewrite foldl_app. Qed.

Lemma reconnect_trace (h : Held) r h' :
  reconnect env h = (r, h') -> exists evs, h_history h' = h_history h ++ evs /\ sends evs = [].
Proof.
  unfold reconnect, session_read_only. destruct (h_lease h) as [l|].
  2:{ intros [= <- <-]. exists []. by rewrite app_nil_r. }
  repeat case_match; intros; simplify_eq; cbn [h_history note on_lease];
    rewrite <- ?app_assoc; eexists; (split; [reflexivity|done]).
Qed.

Lemma attempt_trace op (h : Held) r h' :
  attempt env op h = (r, h') ->
  h_history h' = h_history h ++ [Sent op]
  /\ r = an_call env (h_history h) op.
Proof. unfold attempt. repeat case_match; intros [= <- <-]; done. Qed.

Lemma noted_history (r : option (EngineError + Reply)) (h : Held) r' h' :
  noted r h = (r', h') -> r' = r /\ h_history h' = h_history h.
Proof. unfold noted. case_match; intros [= <- <-]; done. Qed.

(** What one call may send: the operation once, or twice when it may be sent again, the session
    was an idle one not used yet, and the first answer says the connection would not open. *)
Definition sent_safely (again : bool) (op : Op) (h : Held) (evs : list Event) : Prop :=
  sends evs = [] \/ sends evs = [op]
  \/ sends evs = [op; op] /\ again = true
     /\ exists l e, h_lease h = Some l /\ l_reused l = true /\ l_executed l = false
          /\ an_call env (h_history h) op = Some (inl e) /\ is_connect e = true.

Lemma reconnect_lease (h : Held) r h' l :
  reconnect env h = (Some (inr r), h') -> h_lease h = Some l ->
  exists l', h_lease h' = Some l' /\ l_reused l' = false.
Proof.
  intros H Hl. unfold reconnect, session_read_only in H. rewrite Hl in H.
  repeat case_match; simplify_eq; cbn [h_lease note on_lease]; rewrite Hl; simpl; eauto.
Qed.

Lemma attempts_trace again op (h : Held) r h' :
  attempts env again op h = (r, h') ->
  exists evs, h_history h' = h_history h ++ evs /\ sent_safely again op h evs.
Proof.
  unfold attempts. destruct (attempt env op h) as [o h1] eqn:Ea.
  destruct (attempt_trace _ _ _ _ Ea) as [Eh Eo].
  assert (forall o, noted o h1 = (r, h') -> exists evs, h_history h' = h_history h ++ evs
            /\ sent_safely again op h evs) as Hone.
  { intros o' [_ ->]%noted_history. exists [Sent op]. split; [done|]. right. by left. }
  destruct o as [[e|reply]|]; [|by apply Hone..].
  match goal with |- context [if ?c then _ else _] => destruct c eqn:Ec end; [|by apply Hone].
  rewrite !andb_true_iff in Ec. destruct Ec as [[Hfirst ->] [Hcon _]].
  destruct (h_lease h) as [l|] eqn:El; [|done]. apply andb_true_iff in Hfirst as [Hreused Hex].
  destruct (reconnect env h1) as [rc h2] eqn:Er. destruct (reconnect_trace _ _ _ Er) as (ev2 & E2 & Hs2).
  destruct rc as [[e2|u]|].
  - intros [= <- <-]. exists (Sent op :: ev2). rewrite E2, Eh, <- app_assoc. split; [done|].
    right. left. simpl. by rewrite Hs2.
  - destruct (attempt env op h2) as [o3 h3] eqn:Ea3. destruct (attempt_trace _ _ _ _ Ea3) as [Eh3 _].
    intros [_ ->]%noted_history. exists (Sent op :: ev2 ++ [Sent op]).
    rewrite Eh3, E2, Eh, <- !app_assoc. split; [done|]. right. right.
    split; [simpl; fold (sends (ev2 ++ [Sent op])); by rewrite sends_app, Hs2|]. split; [done|].
    exists l, e. split_and!; try done. by apply negb_true_iff.
  - intros [= <- <-]. exists (Sent op :: ev2). rewrite E2, Eh, <- app_assoc. split; [done|].
    right. left. simpl. by rewrite Hs2.
Qed.

Lemma call_trace again op (h : Held) r h' :
  call env again op h = (r, h') ->
  exists evs, h_history h' = h_history h ++ evs /\ sent_safely again op h evs
    /\ (again = false -> match h_lease h with Some l => l_broken l | None => false end = true -> evs = []).
Proof.
  unfold call. destruct (match h_lease h with Some l => l_broken l | None => false end) eqn:Eb.
  - destruct again; cbn [negb].
    + destruct (reconnect env h) as [rc h1] eqn:Er. destruct (reconnect_trace _ _ _ Er) as (ev1 & E1 & Hs1).
      destruct rc as [[e|u]|]; try (intros [= <- <-]; exists ev1; split; [done|]; split; [by left|done]).
      destruct (h_lease h) as [l|] eqn:El; [|done].
      destruct (reconnect_lease _ _ _ _ Er El) as (l1 & El1 & Hr1).
      intros (ev2 & E2 & Hs2)%attempts_trace. exists (ev1 ++ ev2). rewrite E2, E1, <- app_assoc.
      split; [done|]. split; [|done]. unfold sent_safely in *. rewrite sends_app, Hs1. simpl.
      destruct Hs2 as [Hs2|[Hs2|(_ & _ & l2 & e & Hl2 & Hr2 & _)]]; [by left|right; by left|].
      rewrite El1 in Hl2. simplify_eq. congruence.
    + intros [= <- <-]. exists []. rewrite app_nil_r. split; [done|]. split; [by left|done].
  - intros (evs & E & Hs)%attempts_trace. exists evs. by split_and!.
Qed.

(** Text that may be sent again: one of the statements that open a transaction, or a statement
    every reading of the server takes for a read. *)
Definition safe_twice (sql : bytes) (kind : DriverKind) : Prop :=
  (exists text, text ∈ RERUN_TEXTS /\ eq_ignore_ascii_case (trim sql) (B text) = true)
  \/ forall l, l ∈ readings (dialect_of kind) -> classify_dialect sql l = KReadOnly.

Lemma rerunnable_safe sql kind : rerunnable sql kind = true -> safe_twice sql kind.
Proof.
  unfold rerunnable. destruct (existsb _ _) eqn:Ex.
  - intros _. left. apply existsb_exists in Ex as (t & Ht & E). exists t. split; [|done].
    by apply list_elem_of_In.
  - intros Hk%bool_decide_eq_true. right. intros l Hl.
    destruct (classify_readings_strictest sql (readings (dialect_of kind))) as [Hr _]. specialize (Hr l Hl).
    rewrite Hk in Hr. destruct (classify_dialect sql l); simpl in Hr; [done|lia..].
Qed.

Lemma run_cursor_history sql op o (h : Held) r h' :
  run_cursor row_limit env sql op o h = (r, h') ->
  exists r1 h1, call env (held_rerunnable h sql) op h = (r1, h1)
    /\ h_history h' = h_history h1
    /\ (forall t, r = Some (inr t) -> exists c, r1 = Some (inr (RCursor c))
          /\ (t, h') = track row_limit c o (set_query_id env h1))
    /\ ((forall t, r <> Some (inr t)) -> h' = h1).
Proof.
  unfold run_cursor. destruct (call env _ op h) as [r1 h1] eqn:Ec. intros H. exists r1, h1.
  split; [done|]. destruct r1 as [[e|[c| | |]]|]; simplify_eq;
    try (split_and!; [done|intros; simplify_eq|done]; fail).
  destruct (track row_limit c o (set_query_id env h1)) as [t h2] eqn:Et. simplify_eq.
  split; [|split].
  - unfold track, set_query_id in Et. cbn [h_lease] in Et. destruct (h_lease h1); by simplify_eq.
  - intros t' [= <-]. by exists c.
  - intros Hno. by destruct (Hno t).
Qed.

(** C33: A write is never sent twice. One [execute] on a borrowed session sends its statement at most
    once, or twice when sending it twice cannot hurt (a read under every reading of the server,
    or the opening of a transaction), the session came from the idle list with nothing sent on
    it yet, and the first answer was that the connection would not open. *)
Theorem statement_sent_twice_only_if_safe (sql : bytes) (o : Options) (h h' : Held) (l : LeaseState)
  (r : option (EngineError + Tracked)) :
  h_lease h = Some l -> execute row_limit env sql o h = (r, h') ->
  exists evs, h_history h' = h_history h ++ evs
    /\ (sends evs = [] \/ sends evs = [OpExecute sql o]
        \/ sends evs = [OpExecute sql o; OpExecute sql o]
           /\ safe_twice sql (l_kind l) /\ l_reused l = true /\ l_executed l = false
           /\ exists e, an_call env (h_history h) (OpExecute sql o) = Some (inl e) /\ is_connect e = true).
Proof.
  intros Hl (r1 & h1 & Hc & -> & _)%run_cursor_history.
  destruct (call_trace _ _ _ _ _ Hc) as (evs & -> & Hs & _). exists evs. split; [done|].
  destruct Hs as [Hs|[Hs|(Hs & Hagain & l2 & e & Hl2 & ? & ? & ? & ?)]]; [by left|right; by left|].
  right. right. rewrite Hl in Hl2. injection Hl2 as <-. split_and!; eauto.
  apply rerunnable_safe. unfold held_rerunnable in Hagain. by rewrite Hl in Hagain.
Qed.

(** ** The runs of a borrowed session *)

(** The session, and the cursors handed out with the number of the connection each was opened
    on. *)
Inductive step : Held * list (nat * Tracked) -> Held * list (nat * Tracked) -> Prop :=
| step_execute sql o h cs r h' : execute row_limit env sql o h = (r, h') ->
    step (h, cs) (h', match r with Some (inr t) => (conn h', t) :: cs | _ => cs end)
| step_bound sql ps o h cs r h' : execute_bound row_limit env sql ps o h = (r, h') ->
    step (h, cs) (h', match r with Some (inr t) => (conn h', t) :: cs | _ => cs end)
| step_copy sql o h cs r h' : copy_in env sql o h = (r, h') -> step (h, cs) (h', cs)
| step_browse level path system h cs r h' : browse env level path system h = (r, h') -> step (h, cs) (h', cs)
| step_objects path h cs r h' : objects env path h = (r, h') -> step (h, cs) (h', cs)
| step_next k t h cs r t' h' : (k, t) ∈ cs -> cursor_next batch_rows env t h = (r, t', h') ->
    step (h, cs) (h', (k, t') :: cs)
| step_cancel h cs r h' : cancel env h = (r, h') -> step (h, cs) (h', cs)
| step_read_only h cs r h' : enforce_read_only env h = (r, h') -> step (h, cs) (h', cs).

Inductive reachable (kind : DriverKind) (reused : bool) : Held * list (nat * Tracked) -> Prop :=
| reach_start : reachable kind reused (held_new (Some (lease_new kind reused)), [])
| reach_step st st' : reachable kind reused st -> step st st' -> reachable kind reused st'.

(** Whether the run has asked for a read-only session, read off the trace. *)
Definition asked (evs : list Event) : Prop := ReadOnly_ true ∈ evs.
(** No statement was sent on a connection that is not read-only once one was asked for. *)
Definition guarded (evs : list Event) : Prop :=
  forall p op q, evs = p ++ Sent op :: q -> asked p -> enforced p = true.

Lemma guarded_snoc evs e :
  guarded evs -> (forall op, e = Sent op -> asked evs -> enforced evs = true) -> guarded (evs ++ [e]).
Proof.
  intros Hg He p op q Hpq Ha. destruct q as [|q1 q] using rev_ind.
  - apply app_inj_tail in Hpq as [-> ->]. by eapply He.
  - clear IHq. rewrite app_comm_cons, app_assoc in Hpq. apply app_inj_tail in Hpq as [-> _].
    by eapply Hg.
Qed.

(** The invariant of a borrowed session. *)
Record lease_ok (h : Held) (l : LeaseState) : Prop := {
  lo_lease : h_lease h = Some l;
  lo_guarded : guarded (h_history h);
  lo_asked : asked (h_history h) -> l_read_only l = true;
  lo_enforced : l_read_only l = true -> l_broken l = false -> enforced (h_history h) = true;
  lo_cancelled : Cancelled_ ∈ h_history h -> l_cancelled l = true;
}.

Definition quiet (e : Event) : Prop :=
  match e with Sent _ | Connect_ true | ReadOnly_ true | Cancelled_ => False | _ => True end.
Lemma asked_snoc evs e : quiet e \/ (exists op, e = Sent op) \/ e = Connect_ true \/ e = Cancelled_ ->
  asked (evs ++ [e]) -> asked evs.
Proof.
  unfold asked. rewrite elem_of_app, list_elem_of_singleton. intros He [|<-]; [done|].
  destruct He as [He|[[op He]|[He|He]]]; simpl in He; done.
Qed.

(** Requests that send nothing and change no connection keep the invariant, whatever the lease
    notes of them. *)
Lemma lease_ok_quiet h l e (f : Held -> Held) :
  quiet e -> lease_ok h l ->
  (forall h, h_history (f h) = h_history h /\ h_lease (f h) = h_lease h) ->
  lease_ok (f (note h e)) l.
Proof.
  intros He [H1 H2 H3 H4 H5] Hf. destruct (Hf (note h e)) as [Eh El].
  split; rewrite ?Eh, ?El; cbn [h_history h_lease note]; try done.
  - apply guarded_snoc; [done|]. intros op ->. done.
  - intros Ha. apply H3. eapply asked_snoc; [by left|done].
  - intros Hr Hb. rewrite enforced_app, (H4 Hr Hb). by destruct e as [|[]|[]| | | |].
  - rewrite elem_of_app, list_elem_of_singleton. intros [Hin|<-]; [by apply H5|done].
Qed.

(** Changes of the lease that leave alone what the invariant reads. *)
Lemma lease_ok_flags h l (f : LeaseState -> LeaseState) :
  lease_ok h l -> l_read_only (f l) = l_read_only l -> l_cancelled (f l) = l_cancelled l ->
  (l_broken (f l) = false -> l_broken l = false) -> lease_ok (on_lease f h) (f l).
Proof.
  intros [H1 H2 H3 H4 H5] Er Ec Eb. split; cbn [h_history h_lease on_lease]; try done.
  - by rewrite H1.
  - by rewrite Er.
  - rewrite Er. auto.
  - by rewrite Ec.
Qed.

Lemma lease_ok_connect h l : lease_ok h l -> l_broken l = true -> lease_ok (note h (Connect_ true)) l.
Proof.
  intros [H1 H2 H3 H4 H5] Hb. split; cbn [h_history h_lease note]; try done.
  - apply guarded_snoc; [done|]. by intros.
  - intros Ha. apply H3. eapply asked_snoc; [|done]. auto.
  - by rewrite Hb.
  - rewrite elem_of_app, list_elem_of_singleton. intros [Hin|?]; [by apply H5|done].
Qed.
Lemma lease_ok_read_only h l : lease_ok h l -> l_read_only l = true ->
  lease_ok (note h (ReadOnly_ true)) l /\ enforced (h_history (note h (ReadOnly_ true))) = true.
Proof.
  intros [H1 H2 H3 H4 H5] Hr. cbn [h_history note]. rewrite enforced_app. split; [|done].
  split; cbn [h_history h_lease note]; try done.
  - apply guarded_snoc; [done|]. by intros.
  - intros _ _. by rewrite enforced_app.
  - rewrite elem_of_app, list_elem_of_singleton. intros [Hin|?]; [by apply H5|done].
Qed.
Lemma lease_ok_send h l op : lease_ok h l -> l_broken l = false -> lease_ok (note h (Sent op)) l.
Proof.
  intros [H1 H2 H3 H4 H5] Hb. split; cbn [h_history h_lease note]; try done.
  - apply guarded_snoc; [done|]. intros op' _ Ha. by apply H4, Hb; apply H3.
  - intros Ha. apply H3. eapply asked_snoc; [|done]. eauto.
  - intros Hr Hb'. rewrite enforced_app. by apply H4.
  - rewrite elem_of_app, list_elem_of_singleton. intros [Hin|?]; [by apply H5|done].
Qed.

(** What the lease knows of a cursor: one opened on the connection in use was read to its end,
    or has marked the lease, or (when [loose]) is the last one. *)
Definition cursor_known (loose : bool) (h : Held) (l : LeaseState) (c : nat * Tracked) : Prop :=
  c.1 <= conn h /\ exists e, t_end c.2 = Some e /\ e < length (h_ends h)
    /\ (c.1 = conn h -> h_ends h !! e = Some true \/ l_dirty l = true \/ l_broken l = true
          \/ loose = true /\ l_last_cursor l = Some e).
Definition cursors_known (loose : bool) (h : Held) (l : LeaseState) (cs : list (nat * Tracked)) : Prop :=
  Forall (cursor_known loose h l) cs.

Lemma conn_note h e : conn (note h e) = conn h + if opens e then 1 else 0.
Proof.
  unfold conn. cbn [h_history note]. rewrite List.filter_app, length_app. simpl.
  by destruct (opens e).
Qed.

Lemma conn_on_lease f h : conn (on_lease f h) = conn h.
Proof. done. Qed.
Ltac conns := rewrite ?conn_on_lease, ?conn_note, ?conn_on_lease; simpl; lia.

(** Later states know at least as much. *)
Lemma cursors_mono loose loose' h l h' l' cs :
  cursors_known loose h l cs -> h_ends h' = h_ends h -> conn h <= conn h' ->
  (loose = true -> loose' = true) ->
  (conn h' = conn h -> (l_dirty l = true -> l_dirty l' = true)
     /\ (l_broken l = true -> l_broken l' = true \/ l_dirty l' = true)
     /\ l_last_cursor l' = l_last_cursor l) ->
  cursors_known loose' h' l' cs.
Proof.
  intros Hk He Hc Hl Hm. eapply Forall_impl; [exact Hk|]. intros [k t] (Hle & e & Ht & Hlt & Hcase).
  cbn [fst snd] in *. split; [cbn; lia|]. exists e. cbn [fst snd]. rewrite He. split_and!; [done|done|].
  intros ->. assert (conn h' = conn h) as Ec by lia. destruct (Hm Ec) as (Hd & Hb & Hlast).
  rewrite Hlast. destruct (Hcase Ec) as [?|[?|[?|[? ?]]]]; [by left|right; left; auto| |].
  - destruct (Hb ltac:(done)); auto.
  - right. right. right. split; auto.
Qed.

Lemma reconnect_ok h l cs r h' :
  reconnect env h = (r, h') -> lease_ok h l -> cursors_known true h l cs ->
  exists l', lease_ok h' l' /\ cursors_known true h' l' cs
    /\ (r = Some (inr tt) -> l_broken l' = false /\ cursors_known false h' l' cs).
Proof.
  intros H Hok Hcs. unfold reconnect in H. rewrite (lo_lease _ _ Hok) in H.
  set (l1 := set_broken l true). set (h1 := on_lease (fun l => set_broken l true) h) in H.
  assert (lease_ok h1 l1) as Hok1.
  { apply (lease_ok_flags h l (fun l => set_broken l true)); try done. }
  assert (forall e, quiet e -> lease_ok (note h1 e) l1 /\ cursors_known true (note h1 e) l1 cs) as Hquiet.
  { intros e He. split; [by apply (lease_ok_quiet h1 l1 e id)|].
    eapply cursors_mono; [exact Hcs|done| |done|intros _; split_and!; auto].
    unfold h1. conns. }
  destruct (an_connect env (h_history h1)) as [[e|u]|].
  - injection H as <- <-. exists l1. destruct (Hquiet (Connect_ false) I). by split_and!.
  - assert (lease_ok (note h1 (Connect_ true)) l1) as Hok2 by (by apply lease_ok_connect).
    assert (forall h2 l2 loose, h_ends h2 = h_ends h -> conn h + 1 <= conn h2 -> cursors_known loose h2 l2 cs)
      as Hnew.
    { intros h2 l2 loose He Hc. eapply Forall_impl; [exact Hcs|]. intros [k t] (Hle & e & Ht & Hlt & _).
      cbn [fst snd] in *. split; [cbn; lia|]. exists e. rewrite He. split_and!; [done|done|]. cbn. lia. }
    assert (conn (note h1 (Connect_ true)) = conn h + 1) as Ec by (by rewrite conn_note).
    destruct (l_read_only l) eqn:Ero.
    + unfold session_read_only in H.
      destruct (an_read_only env (h_history (note h1 (Connect_ true)))) as [[e2|u2]|]; injection H as <- <-.
      * exists l1. split; [by apply (lease_ok_quiet _ _ _ id)|].
        split; [apply Hnew; [done|unfold h1; conns]|done].
      * exists (replaced l1). destruct (lease_ok_read_only _ _ Hok2 Ero) as [[K1 K2 K3 K4 K5] Hen].
        split; [|split; [apply Hnew; [done|unfold h1; conns]|]].
        { split; cbn [h_history h_lease on_lease]; try done; by rewrite K1. }
        intros _. split; [done|]. apply Hnew; [done|]. unfold h1. conns.
      * exists l1. split; [by apply (lease_ok_quiet _ _ _ id)|].
        split; [apply Hnew; [done|unfold h1; conns]|done].
    + injection H as <- <-. exists (replaced l1). destruct Hok2 as [K1 K2 K3 K4 K5].
      split; [|split; [apply Hnew; [done|unfold h1; conns]|]].
      { split; cbn [h_history h_lease on_lease]; try done; [by rewrite K1|].
        intros Hr. cbn in Hr. congruence. }
      intros _. split; [done|]. apply Hnew; [done|]. unfold h1. conns.
  - injection H as <- <-. exists l1. destruct (Hquiet (Connect_ false) I). by split_and!.
Qed.

Lemma attempt_ok op h l cs r h' :
  attempt env op h = (r, h') -> lease_ok h l -> l_broken l = false -> cursors_known true h l cs ->
  exists l', lease_ok h' l' /\ l_broken l' = false /\ cursors_known false h' l' cs.
Proof.
  intros H Hok Hb Hcs. unfold attempt in H.
  set (f := fun l => set_unsettled (if left_open h l then set_dirty l true else l) true) in H.
  assert (lease_ok (on_lease f h) (f l)) as Hok1.
  { apply lease_ok_flags; try done; subst f; cbn beta; by destruct (left_open h l). }
  assert (l_broken (f l) = false) as Hb1 by (subst f; cbn beta; by destruct (left_open h l)).
  pose proof (lease_ok_send _ _ op Hok1 Hb1) as Hok2.
  assert (forall h2 l2, h_ends h2 = h_ends h -> conn h2 = conn h -> l_dirty l2 = l_dirty (f l) ->
            cursors_known false h2 l2 cs) as Hstrong.
  { intros h2 l2 He Hc Hd. eapply Forall_impl; [exact Hcs|]. intros [k t] (Hle & e & Ht & Hlt & Hcase).
    cbn [fst snd] in *. split; [cbn; lia|]. exists e. cbn [fst snd]. rewrite He, Hc, Hd. split_and!; [done|done|].
    intros Hk. subst f. cbn beta. unfold left_open.
    destruct (Hcase Hk) as [?|[?|[?|[_ El]]]]; [by left| |congruence|].
    - right. left. destruct (match l_last_cursor l with Some _ => _ | None => _ end); done.
    - rewrite El. destruct (h_ends h !! e) as [[|]|]; simpl; [by left|by right; left|by right; left]. }
  destruct (an_call env _ op); injection H as <- <-.
  - exists (set_unsettled (f l) false). split; [|split; [done|]].
    + by apply (lease_ok_flags _ _ (fun l => set_unsettled l false)).
    + apply Hstrong; [done|conns|done].
  - exists (f l). split; [done|]. split; [done|]. apply Hstrong; [done|conns|done].
Qed.

(** The state a call leaves, when it is answered and when it is not. *)
Definition call_post (h' : Held) (cs : list (nat * Tracked)) (answered : bool) : Prop :=
  exists l', lease_ok h' l' /\ cursors_known (negb answered) h' l' cs.

Lemma post_weak h' cs b : call_post h' cs b -> call_post h' cs false.
Proof.
  intros (l & Hok & Hcs). exists l. split; [done|]. eapply cursors_mono; [exact Hcs|done|done|done|].
  intros _. split_and!; auto.
Qed.

Lemma noted_ok (r0 : option (EngineError + Reply)) h l cs r h' :
  noted r0 h = (r, h') -> lease_ok h l -> cursors_known false h l cs -> call_post h' cs true.
Proof.
  intros H Hok Hcs. unfold noted in H. destruct r0 as [r0|]; injection H as <- <-; [|by exists l].
  set (lost := match r0 with inl e => connection_lost e | inr _ => false end).
  set (f := fun l => let l := set_executed l true in if lost then set_broken l true else l).
  exists (f l). split; [by apply lease_ok_flags; try done; subst f; destruct lost|].
  eapply cursors_mono; [exact Hcs|done|done|done|]. intros _. subst f. destruct lost; split_and!; auto.
Qed.

Lemma attempts_ok again op h l cs r h' :
  attempts env again op h = (r, h') -> lease_ok h l -> l_broken l = false -> cursors_known true h l cs ->
  call_post h' cs (match r with Some (inr _) => true | _ => false end).
Proof.
  intros H Hok Hb Hcs. unfold attempts in H. destruct (attempt env op h) as [o h1] eqn:Ea.
  destruct (attempt_ok _ _ _ _ _ _ Ea Hok Hb Hcs) as (l1 & Hok1 & Hb1 & Hcs1).
  assert (forall o1, noted o1 h1 = (r, h') ->
            call_post h' cs (match r with Some (inr _) => true | _ => false end)) as Hone.
  { intros o1 Hn. pose proof (noted_ok _ _ _ _ _ _ Hn Hok1 Hcs1) as Hp.
    destruct r as [[|]|]; [by eapply post_weak|done|by eapply post_weak]. }
  destruct o as [[e|reply]|]; [|by eapply Hone..].
  match type of H with (if ?c then _ else _) = _ => destruct c end; [|by eapply Hone].
  assert (cursors_known true h1 l1 cs) as Hw.
  { eapply cursors_mono; [exact Hcs1|done|done|done|]. intros _. split_and!; auto. }
  destruct (reconnect env h1) as [rc h2] eqn:Er.
  destruct (reconnect_ok _ _ _ _ _ Er Hok1 Hw) as (l2 & Hok2 & Hcs2 & Hgood).
  destruct rc as [[e2|[]]|]; [by injection H as <- <-; exists l2| |by injection H as <- <-; exists l2].
  destruct (Hgood eq_refl) as [Hb2 _]. destruct (attempt env op h2) as [o3 h3] eqn:Ea3.
  destruct (attempt_ok _ _ _ _ _ _ Ea3 Hok2 Hb2 Hcs2) as (l3 & Hok3 & Hb3 & Hcs3).
  pose proof (noted_ok _ _ _ _ _ _ H Hok3 Hcs3) as Hp.
  destruct r as [[|]|]; [by eapply post_weak|done|by eapply post_weak].
Qed.

Lemma call_ok again op h l cs r h' :
  call env again op h = (r, h') -> lease_ok h l -> cursors_known true h l cs ->
  call_post h' cs (match r with Some (inr _) => true | _ => false end).
Proof.
  intros H Hok Hcs. unfold call in H. rewrite (lo_lease _ _ Hok) in H. destruct (l_broken l) eqn:Hb.
  - destruct again; cbn [negb] in H; [|injection H as <- <-; by exists l].
    destruct (reconnect env h) as [rc h1] eqn:Er.
    destruct (reconnect_ok _ _ _ _ _ Er Hok Hcs) as (l1 & Hok1 & Hcs1 & Hgood).
    destruct rc as [[e|[]]|]; [by injection H as <- <-; exists l1| |by injection H as <- <-; exists l1].
    destruct (Hgood eq_refl) as [Hb1 _]. by eapply attempts_ok.
  - by eapply attempts_ok.
Qed.

(** A cursor handed out: the new one is the last, the others were read out or have marked the
    lease. *)
Lemma run_cursor_ok sql op o h l cs r h' :
  run_cursor row_limit env sql op o h = (r, h') -> lease_ok h l -> cursors_known true h l cs ->
  call_post h' (match r with Some (inr t) => (conn h', t) :: cs | _ => cs end) false.
Proof.
  intros H Hok Hcs. destruct (run_cursor_history _ _ _ _ _ _ H) as (r1 & h1 & Hc & Eh & Ht & Hno).
  pose proof (call_ok _ _ _ _ _ _ _ Hc Hok Hcs) as Hp.
  destruct r as [[e|t]|]; [by rewrite Hno by done; eapply post_weak| |by rewrite Hno by done; eapply post_weak].
  destruct (Ht t eq_refl) as (c & -> & Etrack). destruct Hp as (l1 & Hok1 & Hcs1).
  pose proof Hok1 as [L1 L2 L3 L4 L5]. unfold track in Etrack. cbn [h_lease set_query_id] in Etrack.
  rewrite L1 in Etrack. injection Etrack as -> ->. cbn [h_ends set_query_id h_history h_present h_query_id] in *.
  exists (set_last_cursor l1 (length (h_ends h1))). split; [by split|].
  apply Forall_cons. split.
  - split; [done|]. exists (length (h_ends h1)). cbn [snd t_end h_ends].
    rewrite length_app. simpl. split_and!; [done|lia|]. intros _. right. right. by right.
  - eapply Forall_impl; [exact Hcs1|]. intros [k t] (Hle & e & Hte & Hlt & Hcase). cbn [fst snd] in *.
    split; [exact Hle|]. exists e. cbn [snd h_ends]. rewrite length_app. split_and!; [done|simpl; lia|].
    intros Hk. destruct (Hcase Hk) as [He|[?|[?|[? _]]]]; [left|by right; left|by right; right; left|done].
    by rewrite lookup_app_l.
Qed.

Lemma cursors_ends h l cs h' loose :
  cursors_known loose h l cs -> conn h' = conn h -> length (h_ends h') = length (h_ends h) ->
  (forall e, h_ends h !! e = Some true -> h_ends h' !! e = Some true) -> cursors_known loose h' l cs.
Proof.
  intros Hk Hc Hl He. eapply Forall_impl; [exact Hk|]. intros [k t] (Hle & e & Ht & Hlt & Hcase).
  cbn [fst snd] in *. split; [cbn; lia|]. exists e. cbn [fst snd]. split_and!; [done|lia|].
  rewrite Hc. intros Hk'. destruct (Hcase Hk') as [?|Hrest]; [left; auto|by right].
Qed.

Lemma cursor_next_ok t h l cs k r t' h' :
  cursor_next batch_rows env t h = (r, t', h') -> (k, t) ∈ cs -> lease_ok h l -> cursors_known true h l cs ->
  call_post h' ((k, t') :: cs) false.
Proof.
  intros H Hin Hok Hcs. set (h1 := note h Fetched) in *.
  assert (lease_ok h1 l) as Hok1 by (by apply (lease_ok_quiet h l Fetched id)).
  assert (cursors_known true h1 l cs) as Hcs1.
  { eapply cursors_ends; [exact Hcs|unfold h1; conns|done|done]. }
  assert (t_end t' = t_end t /\ (h' = h1 \/ h' = store_clean t h1)) as [Het Hh].
  { unfold cursor_next in H. fold h1 in H. repeat case_match; simplify_eq; auto. }
  assert (lease_ok h' l /\ cursors_known true h' l cs) as [Hok2 Hcs2].
  { destruct Hh as [->| ->]; [done|]. unfold store_clean. destruct (t_end t) as [e|]; [|done].
    split; [destruct Hok1; by split|]. eapply cursors_ends; [exact Hcs1|done|by cbn; rewrite length_insert|].
    intros e' He'. cbn [h_ends]. destruct (decide (e = e')) as [->|]; [|by rewrite list_lookup_insert_ne].
    apply list_lookup_insert_eq. by eapply lookup_lt_Some. }
  exists l. split; [done|]. apply Forall_cons. split; [|done].
  unfold cursors_known in Hcs2. rewrite Forall_forall in Hcs2. specialize (Hcs2 (k, t) Hin). unfold cursor_known in *.
  cbn [fst snd] in *. by rewrite Het.
Qed.

(** Every step keeps the invariant. *)
Lemma step_ok st st' l :
  step st st' -> lease_ok st.1 l -> cursors_known true st.1 l st.2 -> call_post st'.1 st'.2 false.
Proof.
  intros Hstep. revert l. destruct Hstep as [sql o h cs r h' H|sql ps o h cs r h' H|sql o h cs r h' H|
    level path system h cs r h' H|path h cs r h' H|k t h cs r t' h' Hin H|h cs r h' H|h cs r h' H];
    intros l Hok Hcs; cbn [fst snd] in *.
  - by eapply run_cursor_ok.
  - by eapply run_cursor_ok.
  - eapply post_weak, call_ok; [exact H|done..].
  - eapply post_weak, call_ok; [exact H|done..].
  - eapply post_weak, call_ok; [exact H|done..].
  - by eapply cursor_next_ok.
  - unfold cancel in H. set (h1 := on_lease set_cancelled h) in H.
    assert (lease_ok h1 (set_cancelled l)) as Hok1.
    { destruct Hok as [H1 H2 H3 H4 H5]. split; cbn [h_history h_lease on_lease h1]; try done. by rewrite H1. }
    assert (cursors_known true h1 (set_cancelled l) cs) as Hcs1.
    { eapply cursors_mono; [exact Hcs|done|done|done|]. intros _. split_and!; auto. }
    exists (set_cancelled l). destruct (h_present h1); injection H as <- <-; [|done]. split.
    + destruct Hok1 as [H1 H2 H3 H4 H5]. split; cbn [h_history h_lease note]; try done.
      * apply guarded_snoc; [done|]. by intros.
      * intros Ha. apply H3. eapply asked_snoc; [|done]. auto.
      * intros Hr Hb. rewrite enforced_app. by apply H4.
    + eapply cursors_ends; [exact Hcs1|conns|done|done].
  - unfold enforce_read_only, session_read_only in H.
    destruct (an_read_only env (h_history h)) as [[e|u]|]; injection H as <- <-.
    + exists l. split; [by apply (lease_ok_quiet h l (ReadOnly_ false) id)|].
      eapply cursors_ends; [exact Hcs|conns|done|done].
    + exists (set_read_only l). split.
      * destruct Hok as [H1 H2 H3 H4 H5]. split; cbn [h_history h_lease on_lease note]; try done.
        -- by rewrite H1.
        -- apply guarded_snoc; [done|]. by intros.
        -- intros _ _. by rewrite enforced_app.
        -- rewrite elem_of_app, list_elem_of_singleton. intros [Hin|?]; [by apply H5|done].
      * eapply cursors_mono; [exact Hcs|done|conns|done|]. intros _. split_and!; auto.
    + exists l. split; [by apply (lease_ok_quiet h l (ReadOnly_ false) id)|].
      eapply cursors_ends; [exact Hcs|conns|done|done].
Qed.

Lemma reachable_ok kind reused st : reachable kind reused st -> call_post st.1 st.2 false.
Proof.
  induction 1 as [|st st' _ (l & Hok & Hcs) Hstep]; [|by eapply step_ok].
  exists (lease_new kind reused). cbn [fst snd]. split; [|constructor]. split; try done.
  - intros p op q Hpq. by destruct p.
  - intros Ha. by apply elem_of_nil in Ha.
  - intros Ha. by apply elem_of_nil in Ha.
Qed.

(** C34: Once a run has asked for a read-only session, every statement it sends is sent on a
    connection that was made read-only, however often connections were lost, replaced or their
    calls dropped half-way. *)
Theorem read_only_survives_reconnects (kind : DriverKind) (reused : bool) (h : Held)
  (cs : list (nat * Tracked)) (p q : list Event) (op : Op) :
  reachable kind reused (h, cs) -> h_history h = p ++ Sent op :: q ->
  ReadOnly_ true ∈ p -> enforced p = true.
Proof. intros (l & Hok & _)%reachable_ok. by apply (lo_guarded _ _ Hok). Qed.

(** Only a session about which nothing is in doubt goes back: when it is reset and kept, it was
    never cancelled, its last call was answered and did not lose the connection, and, on
    PostgreSQL, the server ended the stream of every cursor opened on its connection. *)
Theorem only_settled_sessions_go_back (kind : DriverKind) (reused : bool) (h : Held)
  (cs : list (nat * Tracked)) (l : LeaseState) :
  reachable kind reused (h, cs) -> h_lease h = Some l -> fate h l = FateReset ->
  (Cancelled_ ∉ h_history h) /\ l_broken l = false /\ l_unsettled l = false
  /\ (l_kind l = DPostgres -> forall k t, (k, t) ∈ cs -> k = conn h ->
        exists e, t_end t = Some e /\ h_ends h !! e = Some true).
Proof.
  intros (l' & Hok & Hcs)%reachable_ok Hl Hf. cbn [fst snd] in *.
  rewrite (lo_lease _ _ Hok) in Hl. injection Hl as ->. unfold fate in Hf.
  destruct (l_cancelled l || l_broken l || l_unsettled l) eqn:E1; [done|].
  apply orb_false_iff in E1 as [[E1 Eb]%orb_false_iff Eu]. split; [|split; [done|split; [done|]]].
  - intros Hin. apply (lo_cancelled _ _ Hok) in Hin. congruence.
  - intros Ek k t Hin Hk. rewrite Ek in Hf. cbn [is_postgres_kind andb] in Hf.
    destruct (l_dirty l || left_open h l) eqn:E2; [done|]. apply orb_false_iff in E2 as [Ed Eo].
    unfold cursors_known in Hcs. rewrite Forall_forall in Hcs.
    destruct (Hcs (k, t) Hin) as (_ & e & Ht & Hlt & Hcase). exists e. split; [done|].
    destruct (Hcase Hk) as [?|[?|[?|[_ El]]]]; [done|congruence|congruence|].
    unfold left_open in Eo. rewrite El in Eo. apply negb_false_iff in Eo.
    by destruct (h_ends h !! e) as [[|]|].
Qed.
End Spec.

(** ** A run over a connection that had died

    The first connection is gone, the next one answers; a cursor ends after its first fetch. *)
Definition toy_answers : @Answers unit unit unit unit unit unit unit unit :=
  MkAnswers
    (fun evs _ => if existsb opens evs then Some (inr (RCursor tt))
                  else Some (inl (EConnect (B "closed") Transient)))
    (fun _ => Some (inr tt)) (fun _ => Some (inr tt)) (fun _ _ => Some (inr None))
    (fun _ => Some (inr tt)) (fun _ => None).
Definition select_1 : bytes := B "SELECT 1".
Definition toy_held (reused : bool) : @Held unit unit unit unit := held_new (Some (lease_new DPostgres reused)).
Definition toy_limit (o : unit) : option nat := None.
(** The states of the run: read-only, the statement, the end of its cursor. *)
Definition toy_asked := (enforce_read_only toy_answers (toy_held true)).2.
Definition toy_executed := execute toy_limit toy_answers select_1 tt toy_asked.
Definition toy_cursor : @Tracked unit := MkTracked tt (Some 0) None 0.
Definition toy_ended := (cursor_next (fun _ => 1) toy_answers toy_cursor toy_executed.2).2.

Example toy_trace :
  h_history toy_ended
  = [ReadOnly_ true; Sent (OpExecute select_1 tt); Connect_ true; ReadOnly_ true;
     Sent (OpExecute select_1 tt); Fetched].
Proof. vm_compute. reflexivity. Qed.

Lemma statement_sent_twice_only_if_safe_witness :
  exists evs, h_history toy_executed.2 = h_history toy_asked ++ evs
    /\ (sends evs = [] \/ sends evs = [OpExecute select_1 tt]
        \/ sends evs = [OpExecute select_1 tt; OpExecute select_1 tt]
           /\ safe_twice select_1 DPostgres /\ true = true /\ false = false
           /\ exists e, an_call toy_answers (h_history toy_asked) (OpExecute select_1 tt) = Some (inl e)
                /\ is_connect e = true).
Proof.
  unfold toy_executed.
  destruct (execute toy_limit toy_answers select_1 tt toy_asked) as [r h'] eqn:E. cbn [snd].
  exact (statement_sent_twice_only_if_safe toy_limit toy_answers select_1 tt toy_asked h'
           (set_read_only (lease_new DPostgres true)) r eq_refl E).
Defined.

Lemma read_only_survives_reconnects_witness :
  enforced (take 4 (h_history toy_ended)) = true.
Proof.
  apply (read_only_survives_reconnects toy_limit (fun _ => 1) toy_answers DPostgres true toy_executed.2
           [(1, toy_cursor)] (take 4 (h_history toy_ended)) [] (OpExecute select_1 tt)).
  - eapply reach_step; [eapply reach_step; [apply reach_start|]|].
    + eapply (step_read_only _ _ _ _ _ _ toy_asked). vm_compute. reflexivity.
    + refine (step_execute _ _ _ select_1 tt toy_asked [] (Some (inr toy_cursor)) toy_executed.2 _).
      vm_compute. reflexivity.
  - vm_compute. reflexivity.
  - vm_compute. apply list_elem_of_here.
Defined.

Lemma only_settled_sessions_go_back_witness :
  exists e, t_end toy_cursor = Some e /\ h_ends toy_ended !! e = Some true.
Proof.
  assert (reachable toy_limit (fun _ => 1) toy_answers DPostgres true
            (toy_ended, [(1, toy_cursor); (1, toy_cursor)])) as Hr.
  { eapply reach_step; [eapply reach_step; [eapply reach_step; [apply reach_start|]|]|].
    - eapply (step_read_only _ _ _ _ _ _ toy_asked). vm_compute. reflexivity.
    - refine (step_execute _ _ _ select_1 tt toy_asked [] (Some (inr toy_cursor)) toy_executed.2 _).
      vm_compute. reflexivity.
    - refine (step_next _ _ _ 1 toy_cursor toy_executed.2 [(1, toy_cursor)] (Some (inr None)) toy_cursor toy_ended _ _);
        [vm_compute; apply list_elem_of_here|vm_compute; reflexivity]. }
  destruct (h_lease toy_ended) as [l|] eqn:El; [|by vm_compute in El].
  assert (fate toy_ended l = FateReset /\ l_kind l = DPostgres) as [Hf Hk].
  { vm_compute in El. injection El as <-. by vm_compute. }
  destruct (only_settled_sessions_go_back toy_limit (fun _ => 1) toy_answers DPostgres true toy_ended _ l Hr El Hf)
    as (_ & _ & _ & H).
  apply (H Hk 1 toy_cursor); [apply list_elem_of_here|vm_compute; reflexivity].
Defined.
