(* ===== verification/Dates.v ===== *)
(** * Dates: civil dates and days since the epoch.

    The conversion every text form of a date goes through, [crates/qh-core/src/render.rs], and its
    inverse in the drivers that read dates: [crates/qh-driver-postgres/src/normalize.rs],
    [crates/qh-driver-mysql/src/normalize.rs] (the same function) and
    [crates/qh-driver-trino/src/decode.rs].  Integers are [i64]; [Z.quot] is Rust's division. *)
From S2P Require Import Prelude.
Open Scope Z_scope.

(** ** Casts *)

(** [as u32], [as i32], [as u8], [as i64] *)
Definition as_u32 (n : Z) : Z := n mod 2 ^ 32.
Definition as_u8 (n : Z) : Z := n mod 2 ^ 8.
Definition as_i32 (n : Z) : Z := (n + 2 ^ 31) mod 2 ^ 32 - 2 ^ 31.
Definition as_i64 (n : Z) : Z := (n + 2 ^ 63) mod 2 ^ 64 - 2 ^ 63.
Definition fits_i32 (n : Z) : bool := (- 2 ^ 31 <=? n) && (n <? 2 ^ 31).
Definition fits_i64 (n : Z) : bool := (- 2 ^ 63 <=? n) && (n <? 2 ^ 63).

Definition civil_from_days (days : Z) : Z * Z * Z :=
  let days := days + 719468 in
  let era := Z.quot (if 0 <=? days then days else days - 146096) 146097 in
  let day_of_era := days - era * 146097 in
  let year_of_era :=
    Z.quot (day_of_era - Z.quot day_of_era 1460 + Z.quot day_of_era 36524 - Z.quot day_of_era 146096) 365 in
  let year := year_of_era + era * 400 in
  let day_of_year := day_of_era - (365 * year_of_era + Z.quot year_of_era 4 - Z.quot year_of_era 100) in
  let month_prime := Z.quot (5 * day_of_year + 2) 153 in
  let day := day_of_year - Z.quot (153 * month_prime + 2) 5 + 1 in
  let month := if month_prime <? 10 then month_prime + 3 else month_prime - 9 in
  (if month <=? 2 then year + 1 else year, as_u32 month, as_u32 day).

(** PostgreSQL's and MySQL's drivers. *)
Definition days_from_civil (year month day : Z) : Z :=
  let year := if month <=? 2 then year - 1 else year in
  let era := Z.quot (if 0 <=? year then year else year - 399) 400 in
  let year_of_era := year - era * 400 in
  let month_prime := if 2 <? month then month - 3 else month + 9 in
  let day_of_year := Z.quot (153 * month_prime + 2) 5 + day - 1 in
  let day_of_era := year_of_era * 365 + Z.quot year_of_era 4 - Z.quot year_of_era 100 + day_of_year in
  era * 146097 + day_of_era - 719468.

(** Trino's, whose month and day are [i64] and unchecked. *)
Definition days_from_civil_trino (year month day : Z) : Z :=
  let year := if month <=? 2 then year - 1 else year in
  let era := Z.quot (if 0 <=? year then year else year - 399) 400 in
  let year_of_era := year - era * 400 in
  let day_of_year := Z.quot (153 * (if 2 <? month then month - 3 else month + 9) + 2) 5 + day - 1 in
  let day_of_era := year_of_era * 365 + Z.quot year_of_era 4 - Z.quot year_of_era 100 + day_of_year in
  era * 146097 + day_of_era - 719468.

(** ** The proleptic Gregorian calendar *)

Definition is_leap (y : Z) : bool := (y mod 4 =? 0) && (negb (y mod 100 =? 0) || (y mod 400 =? 0)).
Definition days_in_month (y m : Z) : Z :=
  match m with
  | 2 => if is_leap y then 29 else 28
  | 4 | 6 | 9 | 11 => 30
  | _ => 31
  end.
Definition valid_date (d : Z * Z * Z) : Prop :=
  let '(y, m, d) := d in 1 <= m <= 12 /\ 1 <= d <= days_in_month y m.
Definition next_day (d : Z * Z * Z) : Z * Z * Z :=
  let '(y, m, d) := d in
  if d <? days_in_month y m then (y, m, d + 1)
  else if m <? 12 then (y, m + 1, 1) else (y + 1, 1, 1).

(** ** Lemmas

    A date is an era of 400 years from the first of March, a year of the era and a day of the
    year; the arithmetic is linear once the century and the year of it are known. *)

Lemma quot_div a b : 0 <= a -> 0 < b -> Z.quot a b = a / b.
Proof. apply Z.quot_div_nonneg. Qed.
Lemma quot_floor a b : 0 < b -> Z.quot (if 0 <=? a then a else a - (b - 1)) b = a / b.
Proof.
  intros Hb. destruct (0 <=? a) eqn:E; [apply quot_div; lia|].
  assert (exists c, a - (b - 1) = - c /\ 0 <= c) as (c & Ec & Hc) by (exists (b - 1 - a); lia).
  rewrite Ec, Z.quot_opp_l, quot_div by lia. pose proof (Z.div_mod c b). pose proof (Z.mod_pos_bound c b).
  apply Z.div_unique with (r := a + b * (c / b)); lia.
Qed.

#[local] Ltac Zify.zify_post_hook ::= Z.div_mod_to_equations.

(** The day of the era that a year of the era and a day of the year are. *)
Definition doe_of (yoe doy : Z) : Z := yoe * 365 + yoe / 4 - yoe / 100 + doy.
Definition yoe_of (doe : Z) : Z := (doe - doe / 1460 + doe / 36524 - doe / 146096) / 365.

Lemma leap_mod y : is_leap y = true <-> y mod 4 = 0 /\ (y mod 100 <> 0 \/ y mod 400 = 0).
Proof. unfold is_leap. lia. Qed.

Lemma yoe_spec doe : 0 <= doe < 146097 ->
  0 <= yoe_of doe < 400 /\ 0 <= doe - doe_of (yoe_of doe) 0 <= 365
  /\ (doe - doe_of (yoe_of doe) 0 = 365 -> is_leap (yoe_of doe + 1) = true).
Proof.
  intros H. rewrite leap_mod. unfold yoe_of, doe_of.
  assert (doe / 36524 = 0 \/ doe / 36524 = 1 \/ doe / 36524 = 2 \/ doe / 36524 = 3 \/ doe / 36524 = 4) as Hc by lia.
  destruct Hc as [E|[E|[E|[E|E]]]]; rewrite E; split_and!; lia.
Qed.
Lemma doe_spec yoe doy : 0 <= yoe < 400 -> 0 <= doy <= 365 -> (doy = 365 -> is_leap (yoe + 1) = true) ->
  0 <= doe_of yoe doy < 146097 /\ yoe_of (doe_of yoe doy) = yoe.
Proof.
  rewrite leap_mod. intros Hy Hd Hl. unfold yoe_of, doe_of.
  assert (yoe / 100 = 0 \/ yoe / 100 = 1 \/ yoe / 100 = 2 \/ yoe / 100 = 3) as Hc by lia.
  split; [lia|].
  destruct Hc as [E|[E|[E|E]]]; rewrite E; lia.
Qed.

Definition date_of (era yoe doy : Z) : Z * Z * Z :=
  let mp := (5 * doy + 2) / 153 in
  let month := if mp <? 10 then mp + 3 else mp - 9 in
  let year := yoe + era * 400 in
  (if month <=? 2 then year + 1 else year, month, doy - (153 * mp + 2) / 5 + 1).

Lemma mp_spec doy : 0 <= doy <= 365 ->
  0 <= (5 * doy + 2) / 153 <= 11 /\ 0 <= doy - (153 * ((5 * doy + 2) / 153) + 2) / 5 <= 30.
Proof. lia. Qed.
Lemma as_u32_small n : 0 <= n < 2 ^ 32 -> as_u32 n = n.
Proof. apply Z.mod_small. Qed.
Lemma as_i32_small n : fits_i32 n = true -> as_i32 n = n.
Proof. unfold fits_i32, as_i32. intros Hn. rewrite Z.mod_small; lia. Qed.

Lemma civil_date_of d :
  let doe := (d + 719468) mod 146097 in
  civil_from_days d = date_of ((d + 719468) / 146097) (yoe_of doe) (doe - doe_of (yoe_of doe) 0).
Proof.
  unfold civil_from_days. cbv zeta.
  pose proof (quot_floor (d + 719468) 146097 ltac:(lia)) as Hq. change (146097 - 1) with 146096 in Hq. rewrite !Hq.
  replace (d + 719468 - (d + 719468) / 146097 * 146097) with ((d + 719468) mod 146097) by lia.
  pose proof (Z.mod_pos_bound (d + 719468) 146097) as Hdoe. set (doe := (d + 719468) mod 146097) in *.
  destruct (yoe_spec doe) as (Hy & Hd & _); [lia|]. unfold doe_of in Hd |- *.
  assert (Z.quot (doe - Z.quot doe 1460 + Z.quot doe 36524 - Z.quot doe 146096) 365 = yoe_of doe) as ->.
  { rewrite !(quot_div doe) by lia. apply quot_div; [lia|lia]. }
  rewrite !(quot_div (yoe_of doe)) by lia.
  replace (doe - (365 * yoe_of doe + yoe_of doe / 4 - yoe_of doe / 100))
    with (doe - (yoe_of doe * 365 + yoe_of doe / 4 - yoe_of doe / 100 + 0)) by lia.
  set (doy := doe - (yoe_of doe * 365 + yoe_of doe / 4 - yoe_of doe / 100 + 0)) in *.
  unfold date_of. rewrite (quot_div (5 * doy + 2)) by lia. destruct (mp_spec doy) as [Hm Hday]; [lia|].
  set (mp := (5 * doy + 2) / 153) in *. rewrite quot_div by lia.
  rewrite as_u32_small by (destruct (mp <? 10) eqn:?; lia). by rewrite as_u32_small by lia.
Qed.

Lemma is_leap_era y era : is_leap (y + era * 400) = is_leap y.
Proof. apply eq_true_iff_eq. rewrite !leap_mod. lia. Qed.

Lemma days_in_month_bound y m : 1 <= m <= 12 ->
  days_in_month y m = (if m =? 2 then if is_leap y then 29 else 28
                       else if (m =? 4) || (m =? 6) || (m =? 9) || (m =? 11) then 30 else 31).
Proof.
  intros Hm. assert (m = 1 \/ m = 2 \/ m = 3 \/ m = 4 \/ m = 5 \/ m = 6 \/ m = 7 \/ m = 8 \/ m = 9 \/ m = 10
    \/ m = 11 \/ m = 12) as Hc by lia. by repeat (destruct Hc as [->|Hc]; [done|]); subst.
Qed.

Lemma date_of_valid era yoe doy : 0 <= yoe < 400 -> 0 <= doy <= 365 ->
  (doy = 365 -> is_leap (yoe + 1) = true) ->
  valid_date (date_of era yoe doy).
Proof.
  intros Hy Hd Hl. unfold date_of, valid_date. destruct (mp_spec doy Hd) as [Hm Hday].
  destruct ((5 * doy + 2) / 153 <? 10) eqn:E.
  - split; [lia|]. rewrite days_in_month_bound by lia. repeat case_match; lia.
  - split; [lia|]. rewrite days_in_month_bound by lia.
    replace (if (5 * doy + 2) / 153 - 9 <=? 2 then yoe + era * 400 + 1 else yoe + era * 400) with (yoe + 1 + era * 400)
      by (case_match; lia).
    rewrite is_leap_era. destruct (decide (doy = 365)) as [->|Hne]; [rewrite Hl by done; by vm_compute|].
    repeat case_match; lia.
Qed.

(** The era, the year of it and the day of that year of a date. *)
Definition year_of (y m : Z) : Z := if m <=? 2 then y - 1 else y.
Definition mp_of (m : Z) : Z := if 2 <? m then m - 3 else m + 9.
Definition doy_of (m d : Z) : Z := (153 * mp_of m + 2) / 5 + d - 1.

Lemma mp_bound m : 1 <= m <= 12 -> 0 <= mp_of m <= 11.
Proof. unfold mp_of. case_match; lia. Qed.
Lemma days_date y m d : 1 <= m <= 12 ->
  days_from_civil y m d = year_of y m / 400 * 146097 + doe_of (year_of y m mod 400) (doy_of m d) - 719468.
Proof.
  intros Hm. unfold days_from_civil. cbv zeta. fold (year_of y m). fold (mp_of m).
  pose proof (quot_floor (year_of y m) 400 ltac:(lia)) as Hq. change (400 - 1) with 399 in Hq. rewrite !Hq.
  replace (year_of y m - year_of y m / 400 * 400) with (year_of y m mod 400) by lia.
  pose proof (Z.mod_pos_bound (year_of y m) 400). rewrite !(quot_div (year_of y m mod 400)) by lia.
  pose proof (mp_bound m Hm). rewrite (quot_div (153 * mp_of m + 2)) by lia. unfold doe_of, doy_of. lia.
Qed.

Lemma doy_ok y m d : 1 <= m <= 12 -> 1 <= d <= days_in_month y m ->
  0 <= doy_of m d <= 365 /\ (doy_of m d = 365 -> is_leap (year_of y m mod 400 + 1) = true)
  /\ (5 * doy_of m d + 2) / 153 = mp_of m.
Proof.
  intros Hm. rewrite days_in_month_bound by done. unfold doy_of, mp_of, year_of. intros Hd.
  assert (m = 2 -> (y - 1) mod 400 + 1 + (y - 1) / 400 * 400 = y) as Hy by lia.
  destruct (m =? 2) eqn:E2; [apply Z.eqb_eq in E2; subst m|].
  - cbn in *. pose proof (is_leap_era ((y - 1) mod 400 + 1) ((y - 1) / 400)) as He. rewrite Hy in He by done.
    destruct (is_leap y); cbn in *; split_and!; try (intros _; symmetry; exact He); lia.
  - assert (m = 1 \/ m = 3 \/ m = 4 \/ m = 5 \/ m = 6 \/ m = 7 \/ m = 8 \/ m = 9 \/ m = 10 \/ m = 11 \/ m = 12)
      as Hc by lia.
    repeat (destruct Hc as [->|Hc]); subst; cbn in *; split_and!;
      try match goal with |- _ -> _ = true => intros Hx; exfalso end; lia.
Qed.

Lemma days_civil d :
  let '(y, m, dd) := civil_from_days d in valid_date (y, m, dd) /\ days_from_civil y m dd = d.
Proof.
  pose proof (civil_date_of d) as E. cbv zeta in E. rewrite E.
  pose proof (Z.mod_pos_bound (d + 719468) 146097) as Hb.
  set (doe := (d + 719468) mod 146097) in *. set (era := (d + 719468) / 146097).
  destruct (yoe_spec doe) as (Hy & Hd & Hl); [lia|].
  pose proof (date_of_valid era _ _ Hy Hd Hl) as Hv. destruct (mp_spec _ Hd) as [Hm Hday].
  set (yoe := yoe_of doe) in *. set (doy := doe - doe_of yoe 0) in *. unfold date_of in *.
  set (mp := (5 * doy + 2) / 153) in *. split; [exact Hv|].
  assert (year_of (if (if mp <? 10 then mp + 3 else mp - 9) <=? 2 then yoe + era * 400 + 1 else yoe + era * 400)
            (if mp <? 10 then mp + 3 else mp - 9) = yoe + era * 400) as Ey by (unfold year_of; case_match; lia).
  assert (mp_of (if mp <? 10 then mp + 3 else mp - 9) = mp) as Em by (unfold mp_of; repeat case_match; lia).
  rewrite days_date by (case_match; lia). unfold doy_of. rewrite Ey, Em.
  assert ((yoe + era * 400) mod 400 = yoe) as -> by lia. assert ((yoe + era * 400) / 400 = era) as -> by lia.
  unfold doe_of in *. lia.
Qed.

Lemma civil_days y m d : valid_date (y, m, d) -> civil_from_days (days_from_civil y m d) = (y, m, d).
Proof.
  intros [Hm Hd]. rewrite days_date by done. destruct (doy_ok y m d Hm Hd) as (Hdoy & Hl & Hmp).
  pose proof (Z.mod_pos_bound (year_of y m) 400) as Hy.
  destruct (doe_spec (year_of y m mod 400) (doy_of m d)) as [Hdoe Hyoe]; [lia|done|done|].
  pose proof (civil_date_of (year_of y m / 400 * 146097 + doe_of (year_of y m mod 400) (doy_of m d) - 719468)) as E.
  cbv zeta in E. rewrite E. clear E.
  replace (year_of y m / 400 * 146097 + doe_of (year_of y m mod 400) (doy_of m d) - 719468 + 719468)
    with (doe_of (year_of y m mod 400) (doy_of m d) + year_of y m / 400 * 146097) by lia.
  rewrite Z.mod_add, Z.div_add, (Z.mod_small (doe_of _ _)), (Z.div_small (doe_of _ _)), Hyoe by lia.
  replace (doe_of (year_of y m mod 400) (doy_of m d) - doe_of (year_of y m mod 400) 0) with (doy_of m d)
    by (unfold doe_of; lia).
  unfold date_of. rewrite Hmp.
  assert ((if mp_of m <? 10 then mp_of m + 3 else mp_of m - 9) = m) as -> by (unfold mp_of; repeat case_match; lia).
  assert (year_of y m mod 400 + (0 + year_of y m / 400) * 400 = year_of y m) as -> by lia.
  f_equal; [f_equal|]; [unfold year_of; case_match; lia|unfold doy_of; lia].
Qed.

Lemma next_day_ok y m d : valid_date (y, m, d) ->
  let '(y', m', d') := next_day (y, m, d) in
  valid_date (y', m', d') /\ days_from_civil y' m' d' = days_from_civil y m d + 1.
Proof.
  intros [Hm Hd]. unfold next_day. pose proof (days_in_month_bound y m Hm) as Hb.
  destruct (d <? days_in_month y m) eqn:E1; [|destruct (m <? 12) eqn:E2].
  - split; [split; lia|]. rewrite !days_date by lia. unfold doe_of, doy_of. lia.
  - split; [split; [lia|]; rewrite days_in_month_bound by lia; repeat case_match; lia|].
    rewrite !days_date by lia. assert (d = days_in_month y m) as -> by lia. rewrite Hb.
    unfold doe_of, doy_of. unfold is_leap, year_of, mp_of in *. repeat case_match; try lia.
  - split; [split; [lia|]; rewrite days_in_month_bound by lia; repeat case_match; lia|].
    rewrite !days_date by lia. assert (d = days_in_month y m) as -> by lia. rewrite Hb.
    assert (m = 12) as -> by lia. unfold doe_of, doy_of, year_of, mp_of. cbn. lia.
Qed.

(** ** Properties *)

(** The civil date of a count of days is the calendar's: day 0 is the first of January 1970, and
    each day is followed by the next day of the proleptic Gregorian calendar, in both directions
    and without end. *)
Theorem civil_dates_are_the_calendar :
  civil_from_days 0 = (1970, 1, 1) /\
  forall d : Z, valid_date (civil_from_days d) /\ civil_from_days (d + 1) = next_day (civil_from_days d).
Proof.
  split; [done|]. intros d. pose proof (days_civil d) as Hd. destruct (civil_from_days d) as [[y m] dd].
  destruct Hd as [Hv Hd]. split; [done|]. pose proof (next_day_ok y m dd Hv) as Hn.
  destruct (next_day (y, m, dd)) as [[y' m'] dd']. destruct Hn as [Hv' Hn].
  rewrite Hd in Hn. rewrite <- Hn. by apply civil_days.
Qed.

(** The drivers' day counts and the renderer's dates are inverse: a day shown and read again, by
    any of the drivers, is the same day, and a date of the calendar read and shown again is the
    same date. *)
Theorem dates_round_trip (days year month day : Z) :
  (let '(y, m, d) := civil_from_days days in
   days_from_civil y m d = days /\ days_from_civil_trino y m d = days)
  /\ (valid_date (year, month, day) -> civil_from_days (days_from_civil year month day) = (year, month, day)).
Proof.
  split; [|apply civil_days]. pose proof (days_civil days) as Hd.
  destruct (civil_from_days days) as [[y m] d]. destruct Hd as [_ Hd]. by rewrite Hd.
Qed.
Lemma dates_round_trip_witness :
  valid_date (2024, 2, 29) /\ civil_from_days (days_from_civil 2024 2 29) = (2024, 2, 29).
Proof.
  assert (valid_date (2024, 2, 29)) as Hv by (split; split; vm_compute; discriminate).
  split; [exact Hv|]. apply (proj2 (dates_round_trip 0 2024 2 29)). exact Hv.
Defined.

(** A day that the calendar does not have is taken for a later one. *)
Example february_31 : civil_from_days (days_from_civil 2026 2 31) = (2026, 3, 3).
Proof. reflexivity. Qed.

(** The years a count of days kept in 32 bits can show. *)
Lemma civil_year_bound d : fits_i32 d = true ->
  let '(y, _, _) := civil_from_days d in -5878000 <= y <= 5881600.
Proof.
  unfold fits_i32. change (2 ^ 31) with 2147483648. intros Hd. pose proof (civil_date_of d) as E. cbv zeta in E. rewrite E. unfold date_of.
  pose proof (Z.mod_pos_bound (d + 719468) 146097) as Hb.
  destruct (yoe_spec ((d + 719468) mod 146097)) as (Hy & _); [lia|].
  assert (-14695 <= (d + 719468) / 146097 <= 14703) by lia. clear E Hd Hb. case_match; lia.
Qed.
