(* ===== verification/Value.v ===== *)
(** * Value: the value a driver hands upward and its text forms, [crates/qh-core/src/value.rs] and
    [render.rs].

    The functions append to a buffer [out], as in the source.  A float is a parameter: [Float]
    holds what the code asks of [f64] and of its formatting. *)
From S2P Require Import Prelude Bytes Text Dates.
#[local] Open Scope nat_scope.
#[local] Set Warnings "-register-all".

(** [log10().floor()] of the magnitude, [{}], [{:e}], [str::parse], and a decimal's nearest float. *)
Class Float := {
  f64 : Type;
  is_nan : f64 -> bool; is_infinite : f64 -> bool; is_sign_negative : f64 -> bool; is_zero : f64 -> bool;
  log10_floor : f64 -> Z;
  display : f64 -> bytes; display_exp : f64 -> bytes;
  parse_f64 : bytes -> option f64;
  infinity : f64; neg_infinity : f64;
  of_decimal : Z -> Z -> f64;
}.

Record IntervalValue := MkInterval { months : Z; iv_days : Z; iv_micros : Z }.

Section Values.
Context `{Float}.

Inductive Value :=
| VNull
| VBool (b : bool)
| VInt (n : Z)
| VUInt (n : Z)
| VFloat (f : f64)
| VDecimal (unscaled scale : Z)
| VText (t : bytes)
| VBytes (b : bytes)
| VTimestamp (micros : Z) (offset_secs : option Z)
| VDate (days : Z)
| VTime (micros : Z)
| VInterval (i : IntervalValue)
| VJson (t : bytes)
| VArray (items : list Value)
| VRow (items : list Value)
| VMap (entries : list (Value * Value))
| VUnknown (type_name : bytes) (text raw : option bytes).

Definition unknown (type_name text : bytes) : Value := VUnknown type_name (Some text) None.
Definition unknown_bytes (type_name raw : bytes) : Value := VUnknown type_name None (Some raw).
Definition unsupported (type_name raw : bytes) : Value :=
  if valid_utf8 raw then unknown type_name raw else unknown_bytes type_name raw.
Definition is_null (v : Value) : bool := match v with VNull => true | _ => false end.

(** ** Numbers *)

(** [format!("{number:e}").split_once('e')], the sign, and two digits at least. *)
Definition write_scientific (f : f64) (out : bytes) : bytes :=
  let rusty := display_exp f in
  match split_once (fun b => b =b 101) rusty with
  | None => out ++ rusty
  | Some (mantissa, exponent) =>
      let '(sign, digits) := match strip_prefix exponent [DASH] with
                             | Some rest => (DASH, rest)
                             | None => (43%Z, exponent)
                             end in
      out ++ mantissa ++ [101%Z; sign] ++ zeros (2 - length digits) ++ digits
  end.
Definition write_float (f : f64) (out : bytes) : bytes :=
  if is_nan f then out ++ B "nan"
  else if is_infinite f then out ++ (if is_sign_negative f then B "-inf" else B "inf")
  else if is_zero f then out ++ (if is_sign_negative f then B "-0.0" else B "0.0")
  else if negb ((-4 <=? log10_floor f) && (log10_floor f <? 16))%Z then write_scientific f out
  else let text := display f in
       out ++ text ++ (if existsb (fun b => b =b DOT) text then [] else B ".0").

Definition write_decimal (unscaled scale : Z) (out : bytes) : bytes :=
  if (scale =? 0)%Z then out ++ signed unscaled
  else
    let digits := decimal (Z.abs unscaled) in
    let scale := Z.to_nat scale in
    let out := if (unscaled <? 0)%Z then out ++ [DASH] else out in
    if length digits <=? scale then out ++ B "0." ++ zeros (scale - length digits) ++ digits
    else let split := length digits - scale in
         out ++ take split digits ++ [DOT] ++ drop split digits.

Definition hex_digit (n : Z) : Z := if (n <? 10)%Z then (48 + n)%Z else (87 + n)%Z.
Definition write_hex (b out : bytes) : bytes :=
  out ++ mjoin ((fun x => [hex_digit (x / 16); hex_digit (x mod 16)]) <$> b).
Definition hex_encode (b : bytes) : bytes := write_hex b [].

(** ** Dates and times *)

Definition write_date (days : Z) (out : bytes) : bytes :=
  let '(year, month, day) := civil_from_days days in
  out ++ pad0 4 year ++ B "-" ++ pad0 2 month ++ B "-" ++ pad0 2 day.

Definition write_time (micros : Z) (out : bytes) : bytes :=
  let negative := (micros <? 0)%Z in
  let micros := Z.abs micros in
  let seconds_of_day := (micros / 1000000)%Z in
  let fraction := (micros mod 1000000)%Z in
  let hours := (seconds_of_day / 3600)%Z in
  let minutes := (seconds_of_day mod 3600 / 60)%Z in
  let seconds := (seconds_of_day mod 60)%Z in
  let out := out ++ (if negative then B "-" else []) ++ pad0 2 hours ++ B ":" ++ pad0 2 minutes ++ B ":"
                 ++ pad0 2 seconds in
  if (fraction =? 0)%Z then out else out ++ B "." ++ pad0 6 fraction.

Definition DAY_MICROS : Z := 86400000000.
Definition write_timestamp (micros : Z) (offset_secs : option Z) (out : bytes) : bytes :=
  let local := match offset_secs with Some o => as_i64 (micros + o * 1000000) | None => micros end in
  let days := (local / DAY_MICROS)%Z in
  let within_day := (local mod DAY_MICROS)%Z in
  let out := write_time within_day (write_date (as_i32 days) out ++ [SP]) in
  match offset_secs with
  | None => out
  | Some o =>
      let sign := if (o <? 0)%Z then DASH else 43%Z in
      let o := Z.abs o in
      out ++ [sign] ++ pad0 2 (o / 3600) ++ B ":" ++ pad0 2 (o mod 3600 / 60)
  end.

(** [ is_empty] is asked of the whole buffer. *)
Definition comma (out : bytes) : bytes := match out with [] => [] | _ => out ++ B ", " end.
Definition write_interval (i : IntervalValue) (out : bytes) : bytes :=
  let unit_ n word := signed n ++ B " " ++ word ++ (if (Z.abs n =? 1)%Z then [] else B "s") in
  let out := if (months i =? 0)%Z then out else out ++ unit_ (months i) (B "month") in
  let out := if (iv_days i =? 0)%Z then out else comma out ++ unit_ (iv_days i) (B "day") in
  let negative := (iv_micros i <? 0)%Z in
  let magnitude := Z.abs (iv_micros i) in
  let seconds := (magnitude / 1000000)%Z in
  let sub_second := (magnitude mod 1000000)%Z in
  let time := decimal (seconds / 3600)%Z ++ B ":" ++ pad0 2 (seconds / 60 mod 60) ++ B ":" ++ pad0 2 (seconds mod 60)
              ++ (if (sub_second =? 0)%Z then [] else B "." ++ pad0 6 sub_second) in
  comma out ++ (if negative then [DASH] else []) ++ time.

(** ** Text *)

(** [write_text] of a value that holds no other. *)
Definition write_scalar (v : Value) (out : bytes) : bytes :=
  match v with
  | VNull | VArray _ | VRow _ | VMap _ => out
  | VBool b => out ++ (if b then B "true" else B "false")
  | VInt n => out ++ signed n
  | VUInt n => out ++ decimal n
  | VFloat f => write_float f out
  | VDecimal u s => write_decimal u s out
  | VText t | VJson t => out ++ t
  | VBytes b => write_hex b out
  | VTimestamp m o => write_timestamp m o out
  | VDate d => write_date d out
  | VTime m => write_time m out
  | VInterval i => write_interval i out
  | VUnknown _ (Some text) _ => out ++ text
  | VUnknown _ None (Some raw) => write_hex raw out
  | VUnknown _ None None => out
  end.

Definition json_escape (b : Z) : bytes :=
  if b =b DQUOTE then [BACKSLASH; DQUOTE]
  else if b =b BACKSLASH then [BACKSLASH; BACKSLASH]
  else if b =b LF then B "\n"
  else if b =b CR then B "\r"
  else if b =b 9 then B "\t"
  else if b =b 8 then B "\b"
  else if b =b 12 then B "\f"
  else if (b <? 32)%Z then B "\u00" ++ [hex_digit (b / 16); hex_digit (b mod 16)]
  else [b].
Definition write_json_string (text out : bytes) : bytes :=
  out ++ [DQUOTE] ++ mjoin (json_escape <$> text) ++ [DQUOTE].

(** The items of an array, with [item] for each. *)
Fixpoint write_items {A} (item : A -> bytes -> bytes) (first : bool) (items : list A) (out : bytes) : bytes :=
  match items with
  | [] => out
  | x :: items => write_items item false items (item x (if first then out else out ++ B ", "))
  end.
Fixpoint write_json_like (v : Value) (out : bytes) : bytes :=
  let text (k : Value) : bytes :=
    match k with VArray _ | VRow _ | VMap _ => write_json_like k [] | _ => write_scalar k [] end in
  match v with
  | VArray items | VRow items => write_items write_json_like true items (out ++ B "[") ++ B "]"
  | VMap entries =>
      write_items (fun e out => write_json_like (snd e) (write_json_string (text (fst e)) out ++ B ": ")) true entries
        (out ++ B "{") ++ B "}"
  | VNull => out ++ B "null"
  | VBool b => out ++ (if b then B "true" else B "false")
  | VInt n => out ++ signed n
  | VUInt n => out ++ decimal n
  | VFloat f => write_float f out
  | _ => write_json_string (write_scalar v []) out
  end.
Definition write_text (v : Value) (out : bytes) : bytes :=
  match v with
  | VArray _ | VRow _ | VMap _ => write_json_like v out
  | _ => write_scalar v out
  end.
Definition to_text (v : Value) : option bytes := if is_null v then None else Some (write_text v []).
End Values.
