(* ===== verification/PgValue.v ===== *)
(** * PgValue: what PostgreSQL's text becomes, [crates/qh-driver-postgres/src/normalize.rs]. *)
From S2P Require Import Prelude Bytes Text Dates Value.
#[local] Open Scope nat_scope.

(** [timestamp(6) with time zone] to [timestamp]. *)
Definition base_type (type_name : bytes) : bytes :=
  let trimmed := trim type_name in
  trim_end (match split_once (fun b => b =b LPAREN) trimmed with Some (x, _) => x | None => trimmed end).

Inductive ColumnParser :=
| CBool | CInt | CFloat | CNumeric | CBytea | CDate | CTime | CTimestamp | CTimestamptz | CInterval | CJson | CText.
Definition column_parser (type_name : bytes) : ColumnParser :=
  let any l := existsb (fun s => bytes_eqb (base_type type_name) (B s)) l in
  if any ["bool"] then CBool
  else if any ["int2"; "int4"; "int8"; "oid"] then CInt
  else if any ["float4"; "float8"] then CFloat
  else if any ["numeric"; "decimal"] then CNumeric
  else if any ["bytea"] then CBytea
  else if any ["date"] then CDate
  else if any ["time"] then CTime
  else if any ["timestamp"] then CTimestamp
  else if any ["timestamptz"] then CTimestamptz
  else if any ["interval"] then CInterval
  else if any ["json"; "jsonb"] then CJson
  else CText.

(** ** Numbers *)

Definition mantle_parts (mantissa : bytes) : option (bytes * bytes) :=
  let '(whole, fraction) := match split_once (fun b => b =b DOT) mantissa with
                            | Some p => p
                            | None => (mantissa, [])
                            end in
  if match whole, fraction with [], [] => true | _, _ => false end then None
  else if negb (forallb is_ascii_digit whole) || negb (forallb is_ascii_digit fraction) then None
  else Some (whole, fraction).

(** The sign, and the digits after it. *)
Definition split_sign (text : bytes) : bool * bytes :=
  match strip_prefix text [DASH] with
  | Some rest => (true, rest)
  | None => (false, match strip_prefix text [43%Z] with Some rest => rest | None => text end)
  end.
Definition I128_MAX : Z := (2 ^ 127 - 1)%Z.
Definition MAX_SCALE : Z := 38.

(** [-scale] and [- unscaled] never leave their types here: [scale] is within the exponent's
    range and [unscaled] is at most [I128_MAX]. *)
Definition parse_decimal (text : bytes) : option (Z * Z) :=
  let '(negative, digits) := split_sign (trim text) in
  match match split_once (fun b => (b =b 101) || (b =b 69)) digits with
        | Some (mantissa, exponent) => match parse_i32 exponent with Some e => Some (mantissa, e) | None => None end
        | None => Some (digits, 0%Z)
        end with
  | None => None
  | Some (mantissa, exponent) =>
      match mantle_parts mantissa with
      | None => None
      | Some (whole, fraction) =>
          let scale := as_i32 (Z.of_nat (length fraction) - exponent) in
          if (scale <? 0)%Z && (64 <? - scale)%Z then None
          else
            let combined := whole ++ fraction ++ (if (scale <? 0)%Z then zeros (Z.to_nat (- scale)) else []) in
            let scale := if (scale <? 0)%Z then 0%Z else scale in
            if (MAX_SCALE <? scale)%Z then None
            else match parse_int (- 2 ^ 127) I128_MAX combined with
                 | None => None
                 | Some unscaled => Some (if negative then (- unscaled)%Z else unscaled, as_u8 scale)
                 end
      end
  end.

(** [char::to_digit] *)
Definition to_digit16 (b : Z) : option Z :=
  if ((48 <=? b) && (b <=? 57))%Z then Some (b - 48)%Z
  else if ((97 <=? b) && (b <=? 102))%Z then Some (b - 87)%Z
  else if ((65 <=? b) && (b <=? 70))%Z then Some (b - 55)%Z
  else None.
Fixpoint hex_pairs (hex : bytes) : option bytes :=
  match hex with
  | h :: l :: hex =>
      match to_digit16 h, to_digit16 l, hex_pairs hex with
      | Some h, Some l, Some b => Some (as_u8 (h * 16 + l) :: b)
      | _, _, _ => None
      end
  | _ => Some []
  end.
Definition is_octal (b : Z) : bool := ((48 <=? b) && (b <=? 55))%Z.
(** [n]: the octal digits an escape may still take; [octal]: the ones taken. *)
Fixpoint escaped (octal : option bytes) (s : bytes) : option bytes :=
  let flush (rest : option bytes) (octal : bytes) : option bytes :=
    match octal with
    | [] => None
    | _ => let v := foldl (fun n d => (8 * n + (d - 48))%Z) 0%Z octal in
           if (v <=? U8_MAX)%Z then match rest with Some b => Some (v :: b) | None => None end else None
    end in
  match s with
  | [] => match octal with Some o => flush (Some []) o | None => Some [] end
  | b :: s =>
      let plain :=
        if b =b BACKSLASH then
          match s with
          | c :: s' => if c =b BACKSLASH then match escaped None s' with Some r => Some (BACKSLASH :: r) | None => None end
                       else escaped (Some []) s
          | [] => escaped (Some []) s
          end
        else match escaped None s with Some r => Some (b :: r) | None => None end in
      match octal with
      | None => plain
      | Some o =>
          if (length o <? 3) && is_octal b then escaped (Some (o ++ [b])) s else flush plain o
      end
  end.
(** [inl] is the text that is kept when the bytes cannot be read. *)
Definition parse_bytea (text : bytes) : bytes + bytes :=
  match strip_prefix text (B "\x") with
  | Some hex =>
      if negb (Nat.even (length hex)) then inl text
      else match hex_pairs hex with Some b => inr b | None => inl text end
  | None => match escaped None text with Some b => inr b | None => inl text end
  end.

(** ** Dates and times *)

Definition parse_ymd (text : bytes) : option (Z * Z * Z) :=
  match splitn 3 DASH text with
  | [y; m; d] =>
      match parse_i64 y, parse_uint U32_MAX m, parse_uint U32_MAX d with
      | Some y, Some m, Some d =>
          if negb ((1 <=? m) && (m <=? 12))%Z || negb ((1 <=? d) && (d <=? 31))%Z then None else Some (y, m, d)
      | _, _, _ => None
      end
  | _ => None
  end.
Definition parse_days (text : bytes) : option Z :=
  match parse_ymd (trim text) with Some (y, m, d) => Some (as_i32 (days_from_civil y m d)) | None => None end.

Definition parse_offset_seconds (text : bytes) : option Z :=
  match text with
  | b :: rest =>
      match (if b =b 43 then Some 1%Z else if b =b DASH then Some (-1)%Z else None) with
      | None => None
      | Some sign =>
          let seconds s := parse_i32 (match split_once (fun b => b =b DOT) s with Some (whole, _) => whole | None => s end) in
          let parts := split_byte COLON rest in
          match (match parts with
                 | [h] => match parse_i32 h with Some h => Some (h, 0, 0)%Z | None => None end
                 | [h; m] => match parse_i32 h, parse_i32 m with Some h, Some m => Some (h, m, 0%Z) | _, _ => None end
                 | [h; m; s] => match parse_i32 h, parse_i32 m, seconds s with
                                | Some h, Some m, Some s => Some (h, m, s)
                                | _, _, _ => None
                                end
                 | _ => None
                 end) with
          | Some (hours, minutes, seconds) =>
              if (14 <? hours)%Z || (59 <? minutes)%Z || (59 <? seconds)%Z then None
              else Some (as_i32 (sign * (hours * 3600 + minutes * 60 + seconds)))
          | None => None
          end
      end
  | [] => None
  end.
(** The position of the last sign. *)
Definition is_sign (b : Z) : bool := (b =b 43) || (b =b DASH).
Definition split_offset (text : bytes) : bytes * option Z :=
  match rsplit_once is_sign text with
  | Some (before, after) =>
      let position := length before in
      if match last before with Some b => is_ascii_digit b | None => false end && (position + 1 <? length text) then
        match parse_offset_seconds (drop position text) with
        | Some offset => (trim_end (take position text), Some offset)
        | None => (text, None)
        end
      else (text, None)
  | None => (text, None)
  end.

Definition parse_fraction (fraction : bytes) : option Z :=
  if match fraction with [] => true | _ => 6 <? length fraction end then None
  else if negb (forallb is_ascii_digit fraction) then None
  else match parse_i64 fraction with
       | Some v => Some (v * 10 ^ Z.of_nat (6 - length fraction))%Z
       | None => None
       end.
Definition parse_clock (text : bytes) : option (Z * Z * Z * Z) :=
  match split_byte COLON (trim text) with
  | [h; m; s] =>
      match parse_uint U32_MAX (trim h), parse_uint U32_MAX (trim m) with
      | Some hours, Some minutes =>
          match (match split_once (fun b => b =b DOT) (trim s) with
                 | Some (seconds, fraction) =>
                     match parse_uint U32_MAX seconds, parse_fraction fraction with
                     | Some s, Some f => Some (s, f)
                     | _, _ => None
                     end
                 | None => match parse_uint U32_MAX (trim s) with Some s => Some (s, 0%Z) | None => None end
                 end) with
          | Some (seconds, micros) =>
              if (24 <? hours)%Z || (59 <? minutes)%Z || (60 <? seconds)%Z then None
              else Some (hours, minutes, seconds, micros)
          | None => None
          end
      | _, _ => None
      end
  | _ => None
  end.
Definition parse_time_micros (text : bytes) : option Z :=
  match parse_clock (fst (split_offset (trim text))) with
  | Some (h, m, s, micros) => Some ((h * 3600 + m * 60 + s) * 1000000 + micros)%Z
  | None => None
  end.
Definition parse_timestamp (text : bytes) : option (Z * Z) :=
  match split_once (fun b => (b =b SP) || (b =b 84)) (trim text) with
  | None => None
  | Some (date_part, rest) =>
      match parse_ymd date_part with
      | None => None
      | Some (year, month, day) =>
          let '(clock, offset) := split_offset rest in
          match parse_clock clock with
          | None => None
          | Some (h, m, s, micros) =>
              if (year <? 1)%Z then None
              else
                let days := days_from_civil year month day in
                let local := as_i64 (days * 86400 * 1000000 + (h * 3600 + m * 60 + s) * 1000000 + micros) in
                let offset := default 0%Z offset in
                Some (as_i64 (local - offset * 1000000), offset)
          end
      end
  end.

(** [saw_any] is whether a field was read. *)
Fixpoint interval_tokens (tokens : list bytes) (i : IntervalValue) (saw_any : bool) : option IntervalValue :=
  match tokens with
  | [] => if saw_any then Some i else None
  | token :: tokens =>
      match parse_i64 token with
      | None =>
          match parse_clock token with
          | None => None
          | Some (h, m, s, micros) =>
              let sign := if (iv_micros i <? 0)%Z then (-1)%Z else 1%Z in
              let clock := ((h * 3600 + m * 60 + s) * 1000000 + micros)%Z in
              interval_tokens tokens (MkInterval (months i) (iv_days i) (as_i64 (Z.abs (iv_micros i) + sign * clock))) true
          end
      | Some amount =>
          match tokens with
          | [] => None
          | unit_ :: tokens =>
              let unit_ := trim_end_matches (fun b => b =b 115) (trim_end_matches (fun b => b =b COMMA) unit_) in
              let any l := existsb (fun s => bytes_eqb unit_ (B s)) l in
              let '(MkInterval mo d mi) := i in
              if any ["year"] then interval_tokens tokens (MkInterval (as_i32 (mo + as_i32 (as_i64 (amount * 12)))) d mi) true
              else if any ["mon"; "month"] then interval_tokens tokens (MkInterval (as_i32 (mo + as_i32 amount)) d mi) true
              else if any ["day"] then interval_tokens tokens (MkInterval mo (as_i32 (d + as_i32 amount)) mi) true
              else if any ["hour"] then interval_tokens tokens (MkInterval mo d (as_i64 (mi + amount * 3600000000))) true
              else if any ["min"; "minute"] then interval_tokens tokens (MkInterval mo d (as_i64 (mi + amount * 60000000))) true
              else if any ["sec"; "second"] then interval_tokens tokens (MkInterval mo d (as_i64 (mi + amount * 1000000))) true
              else None
          end
      end
  end.
Definition parse_interval (text : bytes) : option IntervalValue :=
  interval_tokens (split_whitespace text) (MkInterval 0 0 0) false.

(** ** One cell *)

Section Cell.
Context `{Float}.

Definition parse_cell (p : ColumnParser) (text : option bytes) : Value :=
  match text with
  | None => VNull
  | Some text =>
      let any l := existsb (fun s => bytes_eqb text (B s)) l in
      let or {A} (o : option A) (f : A -> Value) := match o with Some x => f x | None => VText text end in
      match p with
      | CBool => if any ["t"; "true"] then VBool true else if any ["f"; "false"] then VBool false else VText text
      | CInt => or (parse_i64 text) VInt
      | CFloat =>
          match parse_f64 text with
          | Some f => VFloat f
          | None => if any ["Infinity"] then VFloat infinity else if any ["-Infinity"] then VFloat neg_infinity
                    else VText text
          end
      | CNumeric => or (parse_decimal text) (fun '(u, s) => VDecimal u s)
      | CBytea => match parse_bytea text with inl t => VText t | inr b => VBytes b end
      | CDate => or (parse_days text) VDate
      | CTime => or (parse_time_micros text) VTime
      | CTimestamp => or (parse_timestamp text) (fun '(micros, _) => VTimestamp micros None)
      | CTimestamptz => or (parse_timestamp text) (fun '(micros, offset) => VTimestamp micros (Some offset))
      | CInterval => or (parse_interval text) VInterval
      | CJson => VJson text
      | CText => VText text
      end
  end.
Definition from_text (type_name : bytes) (text : option bytes) : Value := parse_cell (column_parser type_name) text.
End Cell.
