(* ===== verification/MyValue.v ===== *)
(** * MyValue: what MySQL's values become, [crates/qh-driver-mysql/src/normalize.rs]. *)
From S2P Require Import Prelude Bytes Text Dates Value.
#[local] Open Scope nat_scope.

Section MySQL.
Context `{Float}.

(** The client's value: a [float] is widened, which loses nothing. *)
Inductive MyValue :=
| MyNull
| MyBytes (b : bytes)
| MyInt (n : Z)
| MyUInt (n : Z)
| MyFloat (f : f64)
| MyDouble (f : f64)
| MyDate (year month day hour minute second micros : Z)
| MyTime (negative : bool) (days hours minutes seconds micros : Z).

Inductive ColumnType :=
| TDecimal | TTiny | TShort | TLong | TFloat | TDouble | TNull | TTimestamp | TLonglong | TInt24 | TDate | TTime
| TDatetime | TYear | TNewdate | TVarchar | TBit | TTimestamp2 | TDatetime2 | TTime2 | TTypedArray | TVector
| TUnknown | TJson | TNewdecimal | TEnum | TSet | TTinyBlob | TMediumBlob | TLongBlob | TBlob | TVarString | TString
| TGeometry.

Definition BINARY_CHARSET : Z := 63.
Definition is_binary (character_set : Z) : bool := (character_set =? BINARY_CHARSET)%Z.

(** ** Names *)

Definition flags_name (t : ColumnType) (enum_flag set_flag : bool) : option string :=
  match t with
  | TString => if enum_flag then Some "enum"%string else if set_flag then Some "set"%string else None
  | _ => None
  end.
Definition type_name (t : ColumnType) (enum_flag set_flag : bool) : string :=
  match flags_name t enum_flag set_flag with
  | Some name => name
  | None =>
      match t with
      | TTiny => "tinyint" | TShort => "smallint" | TInt24 => "mediumint" | TLong => "int" | TLonglong => "bigint"
      | TFloat => "float" | TDouble => "double" | TDecimal | TNewdecimal => "decimal"
      | TDate | TNewdate => "date" | TDatetime | TDatetime2 => "datetime" | TTimestamp | TTimestamp2 => "timestamp"
      | TTime | TTime2 => "time" | TYear => "year" | TBit => "bit" | TJson => "json" | TEnum => "enum" | TSet => "set"
      | TTinyBlob => "tinyblob" | TMediumBlob => "mediumblob" | TLongBlob => "longblob" | TBlob => "blob"
      | TGeometry => "geometry" | TVector => "vector" | TVarchar | TVarString => "varchar" | TString => "char"
      | _ => "unknown"
      end%string
  end.

(** ** What is kept when a value has an unexpected shape *)

Definition text_or_bytes_of (b : bytes) (is_binary : bool) : Value :=
  if is_binary then VBytes b else if valid_utf8 b then VText b else VBytes b.
(** [render_fallback], whose hours are [u32]. *)
Definition clock_text (h m s : Z) : bytes := pad0 2 h ++ B ":" ++ pad0 2 m ++ B ":" ++ pad0 2 s.
Definition date_text (y m d : Z) : bytes := pad0 4 y ++ B "-" ++ pad0 2 m ++ B "-" ++ pad0 2 d.
Definition fallback (v : MyValue) : Value :=
  match v with
  | MyNull => VNull
  | MyBytes b => text_or_bytes_of b false
  | MyInt n => VInt n
  | MyUInt n => VUInt n
  | MyFloat f | MyDouble f => VFloat f
  | MyDate y mo d h mi s _ => VText (date_text y mo d ++ B " " ++ clock_text h mi s)
  | MyTime neg d h mi s _ => VText ((if neg then B "-" else []) ++ clock_text (as_u32 (d * 24 + h)) mi s)
  end.
Definition text_or_bytes (v : MyValue) (is_binary : bool) : Value :=
  match v with MyBytes b => text_or_bytes_of b is_binary | other => fallback other end.
Definition as_bytes_value (v : MyValue) : Value := match v with MyBytes b => VBytes b | other => fallback other end.
(** [to_be_bytes] of eight bytes. *)
Definition to_be_bytes (n : Z) : bytes := (fun k => (n / 2 ^ k mod 256)%Z) <$> [56; 48; 40; 32; 24; 16; 8; 0]%Z.
Definition as_bytes (v : MyValue) : Value :=
  match v with
  | MyBytes b => VBytes b
  | MyInt n => VBytes (to_be_bytes n)
  | MyUInt n => VBytes (to_be_bytes n)
  | other => fallback other
  end.

(** Bytes that are not UTF-8 stay bytes. *)
Definition of_text (b : bytes) (read : bytes -> Value) : Value := if valid_utf8 b then read b else VBytes b.

(** ** Numbers *)

Definition as_integer (v : MyValue) : Value :=
  match v with
  | MyInt n => VInt n
  | MyUInt n => VUInt n
  | MyBytes b =>
      of_text b (fun text => match parse_i64 text with
                             | Some n => VInt n
                             | None => match parse_uint U64_MAX text with Some n => VUInt n | None => VText text end
                             end)
  | other => fallback other
  end.
Definition as_float (v : MyValue) : Value :=
  match v with
  | MyFloat f | MyDouble f => VFloat f
  | MyInt n | MyUInt n => VFloat (of_decimal n 0)
  | MyBytes b => of_text b (fun text => match parse_f64 text with Some f => VFloat f | None => VText text end)
  | other => fallback other
  end.

Definition parse_decimal (text : bytes) : option (Z * Z) :=
  let text := trim text in
  let '(negative, digits) := match strip_prefix text [DASH] with
                             | Some rest => (true, rest)
                             | None => (false, match strip_prefix text [43%Z] with Some rest => rest | None => text end)
                             end in
  match match split_once (fun b => (b =b 101) || (b =b 69)) digits with
        | Some (mantissa, exponent) => match parse_i32 exponent with Some e => Some (mantissa, e) | None => None end
        | None => Some (digits, 0%Z)
        end with
  | None => None
  | Some (mantissa, exponent) =>
      let '(whole, fraction) := match split_once (fun b => b =b DOT) mantissa with
                                | Some p => p
                                | None => (mantissa, [])
                                end in
      if match whole, fraction with [], [] => true | _, _ => false end then None
      else if negb (forallb is_ascii_digit whole) || negb (forallb is_ascii_digit fraction) then None
      else
        let scale := as_i32 (Z.of_nat (length fraction) - exponent) in
        if (scale <? 0)%Z && (64 <? - scale)%Z then None
        else
          let combined := whole ++ fraction ++ (if (scale <? 0)%Z then zeros (Z.to_nat (- scale)) else []) in
          let scale := if (scale <? 0)%Z then 0%Z else scale in
          if (38 <? scale)%Z then None
          else match parse_int (- 2 ^ 127) (2 ^ 127 - 1) combined with
               | None => None
               | Some unscaled => Some (if negative then (- unscaled)%Z else unscaled, as_u8 scale)
               end
  end.
Definition as_decimal (v : MyValue) : Value :=
  match v with
  | MyBytes b => of_text b (fun text => match parse_decimal text with Some (u, s) => VDecimal u s | None => VText text end)
  | MyInt n | MyUInt n => VDecimal n 0
  | other => fallback other
  end.

(** ** Dates and times *)

Definition parse_ymd (text : bytes) : option (Z * Z * Z) :=
  match splitn 3 DASH (trim text) with
  | [y; m; d] =>
      match parse_i64 y, parse_uint U8_MAX m, parse_uint U8_MAX d with
      | Some y, Some m, Some d =>
          if negb ((1 <=? m) && (m <=? 12))%Z || negb ((1 <=? d) && (d <=? 31))%Z then None else Some (y, m, d)
      | _, _, _ => None
      end
  | _ => None
  end.
Definition try_i32 (n : Z) : option Z := if fits_i32 n then Some n else None.
Definition parse_date_days (text : bytes) : option Z :=
  match parse_ymd text with Some (y, m, d) => try_i32 (days_from_civil y m d) | None => None end.
Definition date_from_parts (year month day : Z) : option Value :=
  if negb ((1 <=? month) && (month <=? 12))%Z || negb ((1 <=? day) && (day <=? 31))%Z then None
  else match try_i32 (days_from_civil year month day) with Some days => Some (VDate days) | None => None end.
Definition as_date (v : MyValue) : Value :=
  match v with
  | MyDate y m d _ _ _ _ => match date_from_parts y m d with Some v => v | None => VText (date_text y m d) end
  | MyBytes b => of_text b (fun text => match parse_date_days text with Some days => VDate days | None => VText text end)
  | other => fallback other
  end.

Definition timestamp_micros (year month day hour minute second : Z) : option Z :=
  if negb ((1 <=? month) && (month <=? 12))%Z || negb ((1 <=? day) && (day <=? 31))%Z
     || (23 <? hour)%Z || (59 <? minute)%Z || (60 <? second)%Z then None
  else
    let days := days_from_civil year month day in
    let seconds := (hour * 3600 + minute * 60 + second)%Z in
    Some (as_i64 (days * 86400 * 1000000 + seconds * 1000000)).
Definition parse_fraction (fraction : bytes) : option Z :=
  if match fraction with [] => true | _ => 6 <? length fraction end then None
  else if negb (forallb is_ascii_digit fraction) then None
  else match parse_i64 fraction with
       | Some v => Some (v * 10 ^ Z.of_nat (6 - length fraction))%Z
       | None => None
       end.
(** The seconds of a clock and their fraction, with [parse] for the seconds. *)
Definition seconds_of (parse : bytes -> option Z) (field : bytes) : option (Z * Z) :=
  match split_once (fun b => b =b DOT) field with
  | Some (second, fraction) =>
      match parse second, parse_fraction fraction with Some s, Some f => Some (s, f) | _, _ => None end
  | None => match parse field with Some s => Some (s, 0%Z) | None => None end
  end.
Definition parse_timestamp_naive (text : bytes) : option Z :=
  let text := trim text in
  if starts_with text (B "0000-00-00") then None
  else
    match split_once (fun b => (b =b SP) || (b =b 84)) text with
    | None => None
    | Some (date_part, time_part) =>
        match parse_ymd date_part with
        | None => None
        | Some (y, m, d) =>
            match split_byte COLON time_part with
            | h :: mi :: s :: _ =>
                match parse_uint U8_MAX h, parse_uint U8_MAX mi, seconds_of (parse_uint U8_MAX) s with
                | Some h, Some mi, Some (s, micros) =>
                    match timestamp_micros y m d h mi s with Some t => Some (as_i64 (t + micros)) | None => None end
                | _, _, _ => None
                end
            | _ => None
            end
        end
    end.
Definition as_timestamp (v : MyValue) : Value :=
  match v with
  | MyDate y m d h mi s us =>
      match timestamp_micros y m d h mi s with
      | Some base => VTimestamp (as_i64 (base + us)) None
      | None => VText (date_text y m d ++ B " " ++ clock_text h mi s)
      end
  | MyBytes b =>
      of_text b (fun text => match parse_timestamp_naive text with
                             | Some micros => VTimestamp micros None
                             | None => VText text
                             end)
  | other => fallback other
  end.

Definition parse_time_micros (text : bytes) : option Z :=
  let text := trim text in
  let '(negative, rest) := match strip_prefix text [DASH] with Some rest => (true, rest) | None => (false, text) end in
  match split_byte COLON rest with
  | h :: m :: s :: _ =>
      match parse_i64 h, parse_i64 m, seconds_of parse_i64 s with
      | Some h, Some m, Some (s, micros) =>
          if (59 <? m)%Z || (60 <? s)%Z then None
          else let total := as_i64 ((h * 3600 + m * 60 + s) * 1000000 + micros) in
               Some (if negative then as_i64 (- total) else total)
      | _, _, _ => None
      end
  | _ => None
  end.
(** A time of day when it fits in a day. *)
Definition time_value (total : Z) : Value :=
  if ((0 <=? total) && (total <? DAY_MICROS))%Z then VTime total else VInterval (MkInterval 0 0 total).
Definition as_time (v : MyValue) : Value :=
  match v with
  | MyTime negative d h m s us =>
      let total := ((d * 86400 + h * 3600 + m * 60 + s) * 1000000 + us)%Z in
      time_value (if negative then (- total)%Z else total)
  | MyBytes b => of_text b (fun text => match parse_time_micros text with Some total => time_value total | None => VText text end)
  | other => fallback other
  end.

(** ** One cell *)

Definition from_value (t : ColumnType) (value : option MyValue) (is_binary : bool) : Value :=
  match value with
  | None | Some MyNull => VNull
  | Some v =>
      match t with
      | TTiny | TShort | TInt24 | TLong | TLonglong | TYear => as_integer v
      | TFloat | TDouble => as_float v
      | TDecimal | TNewdecimal => as_decimal v
      | TBit => as_bytes v
      | TDate | TNewdate => as_date v
      | TDatetime | TDatetime2 | TTimestamp | TTimestamp2 => as_timestamp v
      | TTime | TTime2 => as_time v
      | TJson => match v with MyBytes b => of_text b VJson | other => fallback other end
      | TGeometry | TVector => as_bytes_value v
      | _ => text_or_bytes v is_binary
      end
  end.
End MySQL.
