(* ===== verification/Json.v ===== *)
(** * Json: the JSON values the code reads and builds, [serde_json::Value].

    Parsing and printing JSON is the library's; what the code asks of a value is here. *)
From S2P Require Import Prelude Bytes Text Value.
#[local] Open Scope nat_scope.
#[local] Set Warnings "-register-all".

Section Json.
Context `{Float}.

Inductive Json :=
| JNull
| JBool (b : bool)
| JPosInt (n : Z)
| JNegInt (n : Z)
| JFloat (f : f64)
| JString (s : bytes)
| JArray (items : list Json)
| JObject (entries : list (bytes * Json)).

Definition j_bool (j : Json) : option bool := match j with JBool b => Some b | _ => None end.
Definition j_i64 (j : Json) : option Z :=
  match j with JPosInt n => if (n <=? I64_MAX)%Z then Some n else None | JNegInt n => Some n | _ => None end.
Definition j_u64 (j : Json) : option Z := match j with JPosInt n => Some n | _ => None end.
Definition j_f64 (j : Json) : option f64 :=
  match j with JPosInt n | JNegInt n => Some (of_decimal n 0) | JFloat f => Some f | _ => None end.
Definition j_str (j : Json) : option bytes := match j with JString s => Some s | _ => None end.

(** [Json::from] of an integer and of a float, and inserting into an object. *)
Definition j_of_int (n : Z) : Json := if (n <? 0)%Z then JNegInt n else JPosInt n.
Definition j_of_f64 (f : f64) : Json := if is_nan f || is_infinite f then JNull else JFloat f.
Fixpoint j_insert (key : bytes) (v : Json) (entries : list (bytes * Json)) : list (bytes * Json) :=
  match entries with
  | [] => [(key, v)]
  | (k, w) :: entries => if bytes_eqb k key then (k, v) :: entries else (k, w) :: j_insert key v entries
  end.

(** ** A value as JSON, [to_json_value] of [crates/qh-core/src/render.rs] *)

Definition decimal_to_f64 (unscaled scale : Z) : option f64 :=
  let number := of_decimal unscaled scale in
  if is_nan number || is_infinite number then None else Some number.
Fixpoint to_json_value (v : Value) : Json :=
  match v with
  | VNull => JNull
  | VBool b => JBool b
  | VInt n => j_of_int n
  | VUInt n => JPosInt n
  | VFloat f => j_of_f64 f
  | VDecimal u s => match decimal_to_f64 u s with Some f => j_of_f64 f | None => JNull end
  | VText t => JString t
  | VArray items => JArray (map to_json_value items)
  | VRow items => JArray (map to_json_value items)
  | VMap entries =>
      JObject (fold_left (fun object e => j_insert (default [] (to_text (fst e))) (to_json_value (snd e)) object)
                 entries [])
  | other => match to_text other with Some t => JString t | None => JNull end
  end.
End Json.
