(* ===== verification/TrinoValue.v ===== *)
(** * TrinoValue: what a Trino page's JSON becomes, [crates/qh-driver-trino/src/decode.rs]. *)
From S2P Require Import Prelude Bytes Text Dates Value Json.
#[local] Open Scope nat_scope.

(** ** Type text *)

Definition base_type (type_text : bytes) : bytes :=
  let text := trim type_text in
  if match strip_prefix text (B "timestamp") with Some rest => contains rest (B "with time zone") | None => false end
  then B "timestamp with time zone"
  else match split_once (fun b => b =b LPAREN) text with Some (x, _) => trim x | None => text end.

Definition strip_suffix1 (c : Z) (s : bytes) : option bytes :=
  match last s with Some b => if b =b c then Some (removelast s) else None | None => None end.
(** [depth]: the parentheses open, never below none. *)
Fixpoint arguments_loop (s : bytes) (depth : nat) (current : bytes) (types : list bytes) : list bytes :=
  match s with
  | [] => match trim current with [] => types | t => types ++ [t] end
  | b :: s =>
      if b =b LPAREN then arguments_loop s (S depth) (current ++ [b]) types
      else if b =b RPAREN then arguments_loop s (pred depth) (current ++ [b]) types
      else if (b =b COMMA) && (depth =? 0) then arguments_loop s depth [] (types ++ [trim current])
      else arguments_loop s depth (current ++ [b]) types
  end.
Definition arguments (type_text name : bytes) : option (list bytes) :=
  match strip_prefix (trim type_text) name with
  | None => None
  | Some rest =>
      match strip_prefix (trim_start rest) [LPAREN] with
      | None => None
      | Some inner => match strip_suffix1 RPAREN inner with
                      | None => None
                      | Some inner => Some (arguments_loop inner 0 [] [])
                      end
      end
  end.
Definition single_argument (type_text name : bytes) : option bytes :=
  match arguments type_text name with Some [t] => Some t | _ => None end.

(** ** Numbers *)

Definition checked_i128 (n : Z) : option Z := if ((- 2 ^ 127 <=? n) && (n <? 2 ^ 127))%Z then Some n else None.
Fixpoint digits_i128 (digits : bytes) (acc : Z) : option Z :=
  match digits with
  | [] => Some acc
  | d :: digits =>
      match checked_i128 (acc * 10) with
      | None => None
      | Some acc => match checked_i128 (acc + (d - 48)) with Some acc => digits_i128 digits acc | None => None end
      end
  end.
Definition parse_decimal (text : bytes) : option (Z * Z) :=
  let text := trim text in
  let '(negative, digits) := match strip_prefix text [DASH] with
                             | Some rest => (true, rest)
                             | None => (false, match strip_prefix text [43%Z] with Some rest => rest | None => text end)
                             end in
  let '(whole, fraction) := match split_once (fun b => b =b DOT) digits with
                            | Some p => p
                            | None => (digits, [])
                            end in
  if match whole, fraction with [], [] => true | _, _ => false end then None
  else if negb (forallb is_ascii_digit whole) || negb (forallb is_ascii_digit fraction) then None
  else if 255 <? length fraction then None
  else match digits_i128 (whole ++ fraction) 0 with
       | None => None
       | Some unscaled => Some (if negative then (- unscaled)%Z else unscaled, Z.of_nat (length fraction))
       end.

(** ** Dates and times *)

Definition parse_date (text : bytes) : option Z :=
  match split_byte DASH (trim text) with
  | [y; m; d] =>
      match parse_i64 y, parse_i64 m, parse_i64 d with
      | Some y, Some m, Some d =>
          let days := days_from_civil_trino y m d in if fits_i32 days then Some days else None
      | _, _, _ => None
      end
  | _ => None
  end.
Definition fraction_to_micros (fraction : bytes) : option Z :=
  match fraction with
  | [] => Some 0%Z
  | _ => if negb (forallb is_ascii_digit fraction) || (6 <? length fraction) then None
         else parse_i64 (fraction ++ zeros (6 - length fraction))
  end.
Definition parse_time_micros (text : bytes) : option Z :=
  match split_byte COLON (trim text) with
  | [h; m; s] =>
      let '(seconds, fraction) := match split_once (fun b => b =b DOT) s with Some p => p | None => (s, []) end in
      match parse_i64 h, parse_i64 m, parse_i64 seconds, fraction_to_micros fraction with
      | Some h, Some m, Some s, Some f => Some (as_i64 (h * 3600000000 + m * 60000000 + s * 1000000 + f))
      | _, _, _, _ => None
      end
  | _ => None
  end.
Definition split_offset (text : bytes) : option (bytes * Z) :=
  match rsplit_once (fun b => b =b SP) text with
  | None => None
  | Some (rest, zone) =>
      let zone := trim zone in
      if eq_ignore_ascii_case zone (B "utc") || eq_ignore_ascii_case zone (B "z") then Some (rest, 0%Z)
      else
        match match strip_prefix zone [43%Z] with
              | Some digits => Some (1%Z, digits)
              | None => match strip_prefix zone [DASH] with Some digits => Some ((-1)%Z, digits) | None => None end
              end with
        | None => None
        | Some (sign, digits) =>
            let '(hours, minutes) := match split_once (fun b => b =b COLON) digits with
                                     | Some p => p
                                     | None => (digits, B "0")
                                     end in
            match parse_i32 hours, parse_i32 minutes with
            | Some h, Some m => Some (rest, as_i32 (sign * as_i32 (h * 3600 + m * 60)))
            | _, _ => None
            end
        end
  end.
Definition parse_timestamp (text : bytes) (has_zone : bool) : option (Z * option Z) :=
  let text := trim text in
  match (if has_zone then match split_offset text with Some (rest, o) => Some (rest, Some o) | None => None end
         else Some (text, None)) with
  | None => None
  | Some (rest, offset) =>
      match split_once (fun b => b =b SP) rest with
      | None => None
      | Some (date_text, time_text) =>
          match parse_date date_text, parse_time_micros time_text with
          | Some days, Some time_micros =>
              Some (as_i64 (days * 86400000000 + time_micros - default 0%Z offset * 1000000), offset)
          | _, _ => None
          end
      end
  end.

(** The sign leads the whole value. *)
Definition parse_interval_day_to_second (text : bytes) : option IntervalValue :=
  match split_once (fun b => b =b SP) (trim text) with
  | None => None
  | Some (days_text, clock_text) =>
      let negative := starts_with days_text [DASH] in
      match parse_i64 (trim_start_matches (fun b => (b =b 43) || (b =b DASH)) days_text), parse_time_micros clock_text with
      | Some days, Some clock =>
          let sign := if negative then (-1)%Z else 1%Z in
          if fits_i32 (as_i64 (sign * days)) then Some (MkInterval 0 (as_i64 (sign * days)) (as_i64 (sign * clock))) else None
      | _, _ => None
      end
  end.
Definition checked_i64 (n : Z) : option Z := if ((I64_MIN <=? n) && (n <=? I64_MAX))%Z then Some n else None.
Definition parse_interval_year_to_month (text : bytes) : option IntervalValue :=
  let text := trim text in
  let '(negative, rest) := match strip_prefix text [DASH] with
                           | Some rest => (true, rest)
                           | None => (false, match strip_prefix text [43%Z] with Some rest => rest | None => text end)
                           end in
  match split_once (fun b => b =b DASH) rest with
  | None => None
  | Some (years, months) =>
      match parse_i64 (trim years), parse_i64 (trim months) with
      | Some y, Some m =>
          match checked_i64 (y * 12) with
          | None => None
          | Some y =>
              match checked_i64 (y + m) with
              | None => None
              | Some total =>
                  let total := as_i64 (if negative then - total else total)%Z in
                  if fits_i32 total then Some (MkInterval total 0 0) else None
              end
          end
      | _, _ => None
      end
  end.

(** ** Base64 *)

Definition ALPHABET : bytes := B "ABCDEFGHIJKLMNOPQRSTUVWXYZabcdefghijklmnopqrstuvwxyz0123456789+/".
Fixpoint position (b : Z) (l : bytes) : option Z :=
  match l with
  | [] => None
  | c :: l => if c =b b then Some 0%Z else match position b l with Some n => Some (n + 1)%Z | None => None end
  end.
(** [buffer] is a [u32] whose shift drops what leaves it. *)
Fixpoint base64_loop (s : bytes) (buffer bits : Z) (out : bytes) : option bytes :=
  match s with
  | [] => Some out
  | b :: s =>
      if b =b EQUALS then Some out
      else match position b ALPHABET with
           | None => None
           | Some index =>
               let buffer := Z.lor (as_u32 (Z.shiftl buffer 6)) index in
               let bits := (bits + 6)%Z in
               if (8 <=? bits)%Z
               then base64_loop s buffer (bits - 8) (out ++ [as_u8 (Z.shiftr buffer (bits - 8))])
               else base64_loop s buffer bits out
           end
  end.
Definition decode_base64 (text : bytes) : option bytes :=
  base64_loop (List.filter (fun b => negb (is_ascii_whitespace b)) (trim text)) 0 0 [].

(** ** One cell *)

Section Cell.
Context `{Float}.
(** [Display] of a JSON value. *)
Variable to_string : Json -> bytes.

Definition unmodelled (type_text : bytes) (v : Json) : Value :=
  match v with JString text => unknown type_text text | other => unknown type_text (to_string other) end.
Definition as_int (type_text : bytes) (v : Json) : Value :=
  match j_i64 v with
  | Some n => VInt n
  | None =>
      match match j_str v with Some text => parse_i64 text | None => None end with
      | Some n => VInt n
      | None => match j_u64 v with Some n => VUInt n | None => unmodelled type_text v end
      end
  end.
Definition as_float (type_text : bytes) (v : Json) : Value :=
  match j_f64 v with
  | Some f => VFloat f
  | None => match match j_str v with Some text => parse_f64 text | None => None end with
            | Some f => VFloat f
            | None => unmodelled type_text v
            end
  end.

(** A string read by [read], kept as it is when it cannot be. *)
Definition string_cell {A} (type_text : bytes) (v : Json) (read : bytes -> option A) (f : A -> Value) : Value :=
  match match j_str v with Some text => read text | None => None end with
  | Some x => f x
  | None => unmodelled type_text v
  end.
(** [decode] of a value that holds no other, of any type: a string read as an array, a row or a
    map is not one. *)
Definition decode_leaf (type_text : bytes) (v : Json) : Value :=
  let base := base_type type_text in
  let any l := existsb (fun s => bytes_eqb base (B s)) l in
  match v with
  | JNull => VNull
  | _ =>
      if any ["boolean"] then match j_bool v with Some b => VBool b | None => unmodelled type_text v end
      else if any ["tinyint"; "smallint"; "integer"; "bigint"] then as_int type_text v
      else if any ["real"; "double"] then as_float type_text v
      else if any ["decimal"] then string_cell type_text v parse_decimal (fun '(u, s) => VDecimal u s)
      else if any ["varchar"; "char"; "uuid"] then string_cell type_text v Some VText
      else if any ["varbinary"] then string_cell type_text v decode_base64 VBytes
      else if any ["json"] then string_cell type_text v Some VJson
      else if any ["date"] then string_cell type_text v parse_date VDate
      else if any ["time"] then string_cell type_text v parse_time_micros VTime
      else if any ["timestamp"; "timestamp with time zone"] then
        string_cell type_text v (fun text => parse_timestamp text (ends_with base (B "with time zone")))
          (fun '(micros, offset) => VTimestamp micros offset)
      else if eq_ignore_ascii_case base (B "interval day to second") then
        string_cell type_text v parse_interval_day_to_second VInterval
      else if eq_ignore_ascii_case base (B "interval year to month") then
        string_cell type_text v parse_interval_year_to_month VInterval
      else unmodelled type_text v
  end.
Fixpoint decode (type_text : bytes) (v : Json) {struct v} : Value :=
  let base := base_type type_text in
  match v with
  | JArray items =>
      if bytes_eqb base (B "array") then
        match single_argument type_text (B "array") with
        | Some element => VArray (map (decode element) items)
        | None => unmodelled type_text v
        end
      else if bytes_eqb base (B "row") then
        match arguments type_text (B "row") with
        | Some types =>
            if length items =? length types then
              VRow ((fix row (items : list Json) (types : list bytes) : list Value :=
                       match items, types with
                       | item :: items, t :: types => decode t item :: row items types
                       | _, _ => []
                       end) items types)
            else unmodelled type_text v
        | None => unmodelled type_text v
        end
      else decode_leaf type_text v
  | JObject entries =>
      if bytes_eqb base (B "map") then
        match arguments type_text (B "map") with
        | Some [key_type; value_type] =>
            VMap (map (fun e => (decode_leaf key_type (JString (fst e)), decode value_type (snd e))) entries)
        | _ => unmodelled type_text v
        end
      else decode_leaf type_text v
  | _ => decode_leaf type_text v
  end.
End Cell.
