(* ===== verification/ValueSpec.v ===== *)
(** * ValueSpec: the text of a value reads back, for [Value], [PgValue], [MyValue] and [TrinoValue]. *)
From S2P Require Import Prelude Bytes Text Dates Value PgValue MyValue Json TrinoValue.
#[local] Open Scope Z_scope.

(** ** Dates *)

Lemma civil_year_from d lo : lo = 0 /\ -719528 <= d \/ lo = 1 /\ -719162 <= d ->
  let '(y, _, _) := civil_from_days d in lo <= y.
Proof.
  intros Hd. pose proof (days_civil d) as Hc. destruct (civil_from_days d) as [[y m] dd].
  destruct Hc as [[Hm Hv] E]. rewrite days_date in E by done.
  destruct (doy_ok y m dd Hm Hv) as [Hdoy _].
  destruct (Z.le_gt_cases lo y) as [|Hlt]; [done|exfalso].
  assert (0 <= doy_of m dd <= (if 2 <? m then 305 else 365)) as Hb.
  { split; [lia|]. destruct (2 <? m) eqn:Em; cbv iota; [|lia]. rewrite days_in_month_bound in Hv by done.
    clear -Hm Hv Em. unfold doy_of, mp_of. rewrite Em. cbv iota.
    destruct (m =? 2) eqn:E2; [lia|]. destruct ((m =? 4) || (m =? 6) || (m =? 9) || (m =? 11)) eqn:E4;
      Z.div_mod_to_equations; lia. }
  unfold doe_of in E. set (Y := year_of y m) in *. assert (Y <= lo - 1 - (if 2 <? m then 0 else 1)) as HY
    by (unfold Y, year_of; destruct (2 <? m) eqn:?; destruct (m <=? 2) eqn:?; cbv iota; lia).
  clear Hv Hdoy. destruct (2 <? m); cbv iota in *; Z.div_mod_to_equations; lia.
Qed.

(** The text of a date whose year is not negative. *)
Definition date_shape (y m d : Z) : bytes := pad0 4 y ++ DASH :: pad0 2 m ++ DASH :: pad0 2 d.

Lemma write_date_shape d out : let '(y, m, dd) := civil_from_days d in write_date d out = out ++ date_shape y m dd.
Proof. unfold write_date. by destruct (civil_from_days d) as [[y m] dd]. Qed.

Lemma digits_no c s : is_ascii_digit c = false -> digits s -> Forall (fun b => b <> c) s.
Proof. intros Hc Hs. eapply Forall_impl; [exact Hs|]. intros b Hb ->. cbn in Hb. congruence. Qed.
Lemma digits_no_eqb c s : is_ascii_digit c = false -> digits s -> Forall (fun b => (b =b c) = false) s.
Proof. intros Hc Hs. eapply Forall_impl; [by eapply digits_no|]. intros b Hb. by apply Z.eqb_neq. Qed.
Lemma pad0_digits w n : 0 <= n -> digits (pad0 w n).
Proof. intros Hn. by destruct (pad0_spec w n Hn). Qed.

Lemma date_shape_graphic y m d : 0 <= y -> 0 <= m -> 0 <= d -> Forall (fun b => 33 <= b <= 126) (date_shape y m d).
Proof.
  intros. unfold date_shape. rewrite Forall_app, Forall_cons, Forall_app, Forall_cons.
  split_and!; try (apply digits_graphic; by apply pad0_digits); lia.
Qed.

Lemma pg_ymd y m d : 0 <= y <= I64_MAX -> 1 <= m <= 12 -> 1 <= d <= 31 -> PgValue.parse_ymd (date_shape y m d) = Some (y, m, d).
Proof.
  intros Hy Hm Hd. unfold PgValue.parse_ymd, date_shape. cbn [splitn].
  rewrite split_once_at by (first [apply digits_no_eqb; [done|apply pad0_digits; lia]|done]).
  cbn [splitn]. rewrite split_once_at by (first [apply digits_no_eqb; [done|apply pad0_digits; lia]|done]).
  unfold parse_i64. rewrite parse_int_pad0 by (unfold I64_MIN; lia).
  rewrite !parse_uint_pad0 by (unfold U32_MAX; lia).
  by replace (negb ((1 <=? m) && (m <=? 12)) || negb ((1 <=? d) && (d <=? 31))) with false by lia.
Qed.

Lemma my_ymd y m d : 0 <= y <= I64_MAX -> 1 <= m <= 12 -> 1 <= d <= 31 -> MyValue.parse_ymd (date_shape y m d) = Some (y, m, d).
Proof.
  intros Hy Hm Hd. unfold MyValue.parse_ymd. rewrite trim_word by (apply date_shape_graphic; lia).
  unfold date_shape. cbn [splitn].
  rewrite split_once_at by (first [apply digits_no_eqb; [done|apply pad0_digits; lia]|done]).
  cbn [splitn]. rewrite split_once_at by (first [apply digits_no_eqb; [done|apply pad0_digits; lia]|done]).
  unfold parse_i64. rewrite parse_int_pad0 by (unfold I64_MIN; lia).
  rewrite !parse_uint_pad0 by (unfold U8_MAX; lia).
  by replace (negb ((1 <=? m) && (m <=? 12)) || negb ((1 <=? d) && (d <=? 31))) with false by lia.
Qed.

Lemma trino_date y m d : 0 <= y <= I64_MAX -> 0 <= m <= 12 -> 0 <= d <= 31 ->
  TrinoValue.parse_date (date_shape y m d)
  = if fits_i32 (days_from_civil_trino y m d) then Some (days_from_civil_trino y m d) else None.
Proof.
  intros Hy Hm Hd. unfold TrinoValue.parse_date. rewrite trim_word by (apply date_shape_graphic; lia).
  unfold date_shape. rewrite split_byte_three by (apply digits_no; [done|apply pad0_digits; lia]).
  unfold parse_i64. by rewrite !parse_int_pad0 by (unfold I64_MIN, I64_MAX in *; lia).
Qed.

Lemma month_days_31 y m d : valid_date (y, m, d) -> 1 <= m <= 12 /\ 1 <= d <= 31.
Proof. intros [Hm Hd]. rewrite days_in_month_bound in Hd by done. repeat case_match; lia. Qed.

(** A date from its text: the year, the month and the day, and what they count. *)
Lemma date_fields d lo : fits_i32 d = true -> lo = 0 /\ -719528 <= d \/ lo = 1 /\ -719162 <= d ->
  exists y m dd, (forall out, write_date d out = out ++ date_shape y m dd) /\ lo <= y <= 5881600
    /\ 1 <= m <= 12 /\ 1 <= dd <= 31 /\ days_from_civil y m dd = d.
Proof.
  intros Hf Hlo. pose proof (civil_year_from d lo Hlo) as Hy. pose proof (civil_year_bound d Hf) as Hb.
  pose proof (days_civil d) as Hc. pose proof (fun out => write_date_shape d out) as Hw.
  destruct (civil_from_days d) as [[y m] dd]. destruct Hc as [Hv Hc]. destruct (month_days_31 _ _ _ Hv).
  exists y, m, dd. split_and!; try done; lia.
Qed.

Lemma dates_read d : fits_i32 d = true -> -719528 <= d ->
  PgValue.parse_days (write_date d []) = Some d /\ MyValue.parse_date_days (write_date d []) = Some d
  /\ TrinoValue.parse_date (write_date d []) = Some d.
Proof.
  intros Hf Hd. destruct (date_fields d 0 Hf) as (y & m & dd & Hw & Hy & Hm & Hdd & E); [by left|].
  rewrite !Hw. cbn [app]. assert (y <= I64_MAX) by (unfold I64_MAX; lia). split_and!.
  - unfold PgValue.parse_days. rewrite trim_word by (apply date_shape_graphic; lia).
    rewrite pg_ymd, E by lia. by rewrite as_i32_small.
  - unfold MyValue.parse_date_days, try_i32. rewrite my_ymd, E by lia. by rewrite Hf.
  - rewrite trino_date by lia. change (days_from_civil_trino y m dd) with (days_from_civil y m dd). by rewrite E, Hf.
Qed.

(** ** Clocks *)

Definition clock_shape (h m s f : Z) : bytes :=
  pad0 2 h ++ COLON :: pad0 2 m ++ COLON :: pad0 2 s ++ (if f =? 0 then [] else DOT :: pad0 6 f).

Lemma write_time_shape t out : 0 <= t ->
  let '(h, m, s, f) := (t / 3600000000, t / 60000000 mod 60, t / 1000000 mod 60, t mod 1000000) in
  write_time t out = out ++ clock_shape h m s f /\ 0 <= h /\ 0 <= m < 60 /\ 0 <= s < 60 /\ 0 <= f < 1000000
  /\ t = (h * 3600 + m * 60 + s) * 1000000 + f.
Proof.
  intros Ht. cbv zeta beta iota. split; [|Z.div_mod_to_equations; lia].
  unfold write_time, clock_shape. replace (t <? 0) with false by lia. rewrite Z.abs_eq by done. cbn [app].
  replace (t / 1000000 / 3600) with (t / 3600000000) by (rewrite Z.div_div by lia; done).
  replace (t / 1000000 mod 3600 / 60) with (t / 60000000 mod 60) by (Z.div_mod_to_equations; lia).
  change (B ":") with [COLON]. change (B ".") with [DOT].
  destruct (t mod 1000000 =? 0); rewrite <- ?app_assoc; cbn [app]; by rewrite ?app_nil_r.
Qed.

(** The seconds of a clock, with their fraction. *)
Definition seconds_shape (s f : Z) : bytes := pad0 2 s ++ (if f =? 0 then [] else DOT :: pad0 6 f).

Lemma seconds_graphic s f : 0 <= s -> 0 <= f -> Forall (fun b => 33 <= b <= 126) (seconds_shape s f).
Proof.
  intros Hs Hf. unfold seconds_shape. apply Forall_app. split; [apply digits_graphic; by apply pad0_digits|].
  destruct (f =? 0); [constructor|]. constructor; [lia|]. apply digits_graphic. by apply pad0_digits.
Qed.
Lemma seconds_no c s f : is_ascii_digit c = false -> c <> DOT -> 0 <= s -> 0 <= f ->
  Forall (fun b => b <> c) (seconds_shape s f).
Proof.
  intros Hc Hd Hs Hf. unfold seconds_shape. apply Forall_app. split; [apply digits_no; [done|by apply pad0_digits]|].
  destruct (f =? 0); [constructor|]. constructor; [done|]. apply digits_no; [done|by apply pad0_digits].
Qed.
Lemma clock_graphic h m s f : 0 <= h -> 0 <= m -> 0 <= s -> 0 <= f -> Forall (fun b => 33 <= b <= 126) (clock_shape h m s f).
Proof.
  intros. unfold clock_shape. fold (seconds_shape s f). rewrite Forall_app, Forall_cons, Forall_app, Forall_cons.
  split_and!; try (apply digits_graphic; by apply pad0_digits); try lia. by apply seconds_graphic.
Qed.
Lemma clock_no c h m s f : is_ascii_digit c = false -> c <> DOT -> c <> COLON -> 0 <= h -> 0 <= m -> 0 <= s -> 0 <= f ->
  Forall (fun b => b <> c) (clock_shape h m s f).
Proof.
  intros Hc Hd Hcol Hh Hm Hs Hf. unfold clock_shape. fold (seconds_shape s f). rewrite Forall_app, Forall_cons, Forall_app, Forall_cons.
  split_and!; try (apply digits_no; [done|by apply pad0_digits]); try done. by apply seconds_no.
Qed.
Lemma clock_split h m s f : 0 <= h -> 0 <= m -> 0 <= s -> 0 <= f ->
  split_byte COLON (clock_shape h m s f) = [pad0 2 h; pad0 2 m; seconds_shape s f].
Proof.
  intros. unfold clock_shape. fold (seconds_shape s f).
  apply split_byte_three; [apply digits_no; [done|by apply pad0_digits]..|by apply seconds_no].
Qed.
Lemma seconds_split s f : 0 <= s -> 0 <= f ->
  split_once (fun b => b =b DOT) (seconds_shape s f) = if f =? 0 then None else Some (pad0 2 s, pad0 6 f).
Proof.
  intros Hs Hf. unfold seconds_shape. destruct (f =? 0).
  - rewrite app_nil_r. apply split_once_none. apply digits_no_eqb; [done|by apply pad0_digits].
  - apply split_once_at; [apply digits_no_eqb; [done|by apply pad0_digits]|done].
Qed.
Lemma seconds_whole s f : (f =? 0) = true -> seconds_shape s f = pad0 2 s.
Proof. intros E. unfold seconds_shape. rewrite E. apply app_nil_r. Qed.

Lemma pg_fraction f : 0 <= f < 1000000 -> PgValue.parse_fraction (pad0 6 f) = Some f.
Proof.
  intros Hf. unfold PgValue.parse_fraction. destruct (pad0_spec 6 f) as (Hd & Hne & _); [lia|].
  assert (length (pad0 6 f) = 6%nat) as El by (apply length_pad0; [cbn; lia|done]).
  replace (match pad0 6 f with [] => true | _ => (6 <? length (pad0 6 f))%nat end) with false
    by (rewrite El; by destruct (pad0 6 f)).
  rewrite digits_forallb by done. cbn [negb]. unfold parse_i64.
  rewrite parse_int_pad0 by (unfold I64_MIN, I64_MAX; lia). rewrite El. cbn. f_equal. lia.
Qed.
Lemma my_fraction f : 0 <= f < 1000000 -> MyValue.parse_fraction (pad0 6 f) = Some f.
Proof. apply pg_fraction. Qed.
Lemma trino_fraction f : 0 <= f < 1000000 -> fraction_to_micros (pad0 6 f) = Some f.
Proof.
  intros Hf. unfold fraction_to_micros. destruct (pad0_spec 6 f) as (Hd & Hne & _); [lia|].
  assert (length (pad0 6 f) = 6%nat) as El by (apply length_pad0; [cbn; lia|done]).
  destruct (pad0 6 f) as [|b r] eqn:E; [done|]. rewrite <- E in *.
  rewrite digits_forallb, El by done. cbn [negb orb]. change (zeros (6 - 6)) with (@nil Z). rewrite app_nil_r.
  unfold parse_i64. apply parse_int_pad0; unfold I64_MIN, I64_MAX; lia.
Qed.

Lemma pg_clock h m s f : 0 <= h <= 24 -> 0 <= m < 60 -> 0 <= s < 60 -> 0 <= f < 1000000 ->
  PgValue.parse_clock (clock_shape h m s f) = Some (h, m, s, f).
Proof.
  intros Hh Hm Hs Hf. unfold PgValue.parse_clock. rewrite trim_word by (apply clock_graphic; lia).
  rewrite clock_split, !(trim_word (pad0 2 _)), (trim_word (seconds_shape s f)), seconds_split
    by (first [lia|apply seconds_graphic; lia|apply digits_graphic, pad0_digits; lia]).
  rewrite !parse_uint_pad0 by (unfold U32_MAX; lia).
  replace ((24 <? h) || (59 <? m) || (60 <? s)) with false by lia. destruct (f =? 0) eqn:E.
  - rewrite seconds_whole, parse_uint_pad0 by (done || unfold U32_MAX; lia).
    replace ((24 <? h) || (59 <? m) || (60 <? s)) with false by lia. by assert (f = 0) as -> by lia.
  - rewrite parse_uint_pad0, pg_fraction by (lia || unfold U32_MAX; lia).
    by replace ((24 <? h) || (59 <? m) || (60 <? s)) with false by lia.
Qed.

Lemma my_seconds (parse : bytes -> option Z) s f : parse (pad0 2 s) = Some s -> 0 <= s -> 0 <= f < 1000000 ->
  seconds_of parse (seconds_shape s f) = Some (s, f).
Proof.
  intros Hp Hs Hf. unfold seconds_of. rewrite seconds_split by lia. destruct (f =? 0) eqn:E.
  - rewrite seconds_whole, Hp by done. by assert (f = 0) as -> by lia.
  - by rewrite Hp, my_fraction.
Qed.
Lemma parse_i64_pad0 w n : 0 <= n <= I64_MAX -> parse_i64 (pad0 w n) = Some n.
Proof. intros Hn. unfold parse_i64. apply parse_int_pad0; unfold I64_MIN; lia. Qed.

Lemma as_i64_small n : I64_MIN <= n <= I64_MAX -> as_i64 n = n.
Proof. unfold as_i64, I64_MIN, I64_MAX. intros Hn. rewrite Z.mod_small; lia. Qed.

Lemma my_time h m s f : 0 <= h < 1000 -> 0 <= m < 60 -> 0 <= s < 60 -> 0 <= f < 1000000 ->
  MyValue.parse_time_micros (clock_shape h m s f) = Some ((h * 3600 + m * 60 + s) * 1000000 + f).
Proof.
  intros Hh Hm Hs Hf. unfold MyValue.parse_time_micros. rewrite trim_word by (apply clock_graphic; lia).
  assert (strip_prefix (clock_shape h m s f) [DASH] = None) as ->.
  { destruct (strip_prefix _ _) as [r|] eqn:E; [|done]. apply strip_prefix_some in E.
    pose proof (clock_no DASH h m s f) as Hc. rewrite E in Hc. cbn [app] in Hc.
    assert (Forall (fun b => b <> DASH) (DASH :: r)) as Hx by (apply Hc; lia || done).
    by apply Forall_cons in Hx as [Hx _]. }
  rewrite clock_split by lia. rewrite !parse_i64_pad0, my_seconds by (first [apply parse_i64_pad0; unfold I64_MAX; lia|unfold I64_MAX; lia]).
  replace ((59 <? m) || (60 <? s)) with false by lia. cbv zeta. by rewrite as_i64_small by (unfold I64_MIN, I64_MAX; lia).
Qed.

Lemma trino_time h m s f : 0 <= h < 1000 -> 0 <= m < 60 -> 0 <= s < 60 -> 0 <= f < 1000000 ->
  TrinoValue.parse_time_micros (clock_shape h m s f) = Some ((h * 3600 + m * 60 + s) * 1000000 + f).
Proof.
  intros Hh Hm Hs Hf. unfold TrinoValue.parse_time_micros. rewrite trim_word by (apply clock_graphic; lia).
  rewrite clock_split, seconds_split by lia.
  destruct (f =? 0) eqn:E; rewrite ?seconds_whole, !parse_i64_pad0 by (done || unfold I64_MAX; lia).
  - cbn [fraction_to_micros]. rewrite as_i64_small by (unfold I64_MIN, I64_MAX; lia). f_equal. lia.
  - rewrite trino_fraction by lia. rewrite as_i64_small by (unfold I64_MIN, I64_MAX; lia). f_equal. lia.
Qed.

Lemma clock_sign h m s f : 0 <= h -> 0 <= m -> 0 <= s -> 0 <= f -> Forall (fun b => is_sign b = false) (clock_shape h m s f).
Proof.
  intros. assert (Forall (fun b => b <> 43 /\ b <> DASH) (clock_shape h m s f)) as Hn
    by (apply Forall_and; split; by apply clock_no).
  eapply Forall_impl; [exact Hn|]. intros b [Hp Hd]. unfold is_sign. lia.
Qed.
Lemma times_read t : 0 <= t < DAY_MICROS ->
  PgValue.parse_time_micros (write_time t []) = Some t /\ MyValue.parse_time_micros (write_time t []) = Some t
  /\ TrinoValue.parse_time_micros (write_time t []) = Some t.
Proof.
  unfold DAY_MICROS. intros Ht. pose proof (write_time_shape t []) as Hw. cbv zeta iota beta in Hw.
  destruct Hw as (-> & Hh & Hm & Hs & Hf & E); [lia|]. cbn [app].
  set (h := t / 3600000000) in *. set (m := t / 60000000 mod 60) in *. set (s := t / 1000000 mod 60) in *.
  set (f := t mod 1000000) in *. assert (h < 24) by lia. split_and!.
  - unfold PgValue.parse_time_micros. rewrite trim_word by (apply clock_graphic; lia).
    unfold PgValue.split_offset. rewrite rsplit_once_none.
    + cbn [fst]. rewrite pg_clock by lia. f_equal. lia.
    + apply clock_sign; lia.
  - rewrite my_time by lia. f_equal. lia.
  - rewrite trino_time by lia. f_equal. lia.
Qed.

(** ** Timestamps *)

Lemma head_digit s x : digits s -> s <> [] -> exists b, head (s ++ x) = Some b /\ 33 <= b <= 126.
Proof.
  intros Hs Hne. destruct s as [|b s]; [done|]. apply digits_graphic, Forall_cons in Hs as [Hb _]. by exists b.
Qed.
Lemma last_digit s x : digits s -> s <> [] -> exists b, last (x ++ s) = Some b /\ 33 <= b <= 126 /\ is_ascii_digit b = true.
Proof.
  intros Hs Hne. destruct s as [|b s _] using rev_ind; [done|]. apply Forall_app in Hs as [_ Hb].
  apply Forall_cons in Hb as [Hb _]. rewrite app_assoc, last_snoc. exists b. split; [done|]. split; [|exact Hb]. cbv beta in Hb. byte_unfold; lia.
Qed.
Lemma clock_last h m s f x : 0 <= s -> 0 <= f ->
  exists b, last (x ++ clock_shape h m s f) = Some b /\ 33 <= b <= 126 /\ is_ascii_digit b = true.
Proof.
  intros Hs Hf. unfold clock_shape. destruct (f =? 0).
  - rewrite app_nil_r. destruct (pad0_spec 2 s Hs) as (Hd & Hn & _).
    destruct (last_digit (pad0 2 s) (x ++ pad0 2 h ++ COLON :: pad0 2 m ++ [COLON]) Hd Hn) as (b & Hb & ?).
    exists b. split; [|done]. rewrite <- Hb. f_equal. by app_norm.
  - destruct (pad0_spec 6 f Hf) as (Hd & Hn & _).
    destruct (last_digit (pad0 6 f) (x ++ pad0 2 h ++ COLON :: pad0 2 m ++ COLON :: pad0 2 s ++ [DOT]) Hd Hn) as (b & Hb & ?).
    exists b. split; [|done]. rewrite <- Hb. f_equal. by app_norm.
Qed.
Lemma date_head y m d x : 0 <= y -> exists b, head (date_shape y m d ++ x) = Some b /\ 33 <= b <= 126.
Proof.
  intros Hy. destruct (pad0_spec 4 y Hy) as (Hd & Hn & _). unfold date_shape. rewrite <- app_assoc. by apply head_digit.
Qed.
Lemma date_no p y m d : (forall b, is_ascii_digit b = true -> p b = false) -> p DASH = false -> 0 <= y -> 0 <= m -> 0 <= d ->
  Forall (fun b => p b = false) (date_shape y m d).
Proof.
  intros Hp Hd Hy Hm Hdd. unfold date_shape. rewrite Forall_app, Forall_cons, Forall_app, Forall_cons.
  split_and!; try done; apply digits_not; try done; by apply pad0_digits.
Qed.

(** A wall clock from year 1 on, as its text and its parts. *)
Lemma wall_shape L : I64_MIN <= L <= I64_MAX -> -62135596800000000 <= L ->
  exists y m d h mi s f,
    (forall out, write_time (L mod DAY_MICROS) (write_date (as_i32 (L / DAY_MICROS)) out ++ [SP])
                 = out ++ date_shape y m d ++ SP :: clock_shape h mi s f)
    /\ 1 <= y <= 5881600 /\ 1 <= m <= 12 /\ 1 <= d <= 31 /\ 0 <= h < 24 /\ 0 <= mi < 60 /\ 0 <= s < 60
    /\ 0 <= f < 1000000 /\ fits_i32 (days_from_civil y m d) = true
    /\ L = days_from_civil y m d * 86400000000 + ((h * 3600 + mi * 60 + s) * 1000000 + f).
Proof.
  intros Hi Hlo. unfold I64_MIN, I64_MAX in Hi. set (n := L / DAY_MICROS). set (t := L mod DAY_MICROS).
  assert (0 <= t < 86400000000 /\ L = n * 86400000000 + t) as [Ht EL]
    by (subst n t; unfold DAY_MICROS; Z.div_mod_to_equations; lia).
  assert (fits_i32 n = true) as Hf by (unfold fits_i32; lia). rewrite as_i32_small by done.
  destruct (date_fields n 1 Hf) as (y & m & d & Hw & Hy & Hm & Hd & E); [right; lia|].
  pose proof (fun out => write_time_shape t out (proj1 Ht)) as Hc. cbv zeta beta iota in Hc.
  exists y, m, d, (t / 3600000000), (t / 60000000 mod 60), (t / 1000000 mod 60), (t mod 1000000).
  destruct (Hc []) as (_ & Hh & Hmi & Hs & Hff & Et). rewrite E. split_and!; try done; try lia.
  intros out. destruct (Hc (write_date n out ++ [SP])) as [-> _]. rewrite Hw, <- !app_assoc. done.
Qed.

Lemma trim_wall y m d h mi s f : 0 <= y -> 0 <= s -> 0 <= f ->
  trim (date_shape y m d ++ SP :: clock_shape h mi s f) = date_shape y m d ++ SP :: clock_shape h mi s f.
Proof.
  intros Hy Hs Hf. destruct (date_head y m d (SP :: clock_shape h mi s f) Hy) as (b & Hb & Hbr).
  destruct (clock_last h mi s f (date_shape y m d ++ [SP]) Hs Hf) as (c & Hc & Hcr & _).
  rewrite <- app_assoc in Hc. by eapply trim_visible.
Qed.

Lemma sp_or_t_date y m d : 0 <= y -> 0 <= m -> 0 <= d ->
  Forall (fun x => ((x =b SP) || (x =b 84)) = false) (date_shape y m d).
Proof. intros. apply date_no; try done. intros b Hb. byte_unfold. lia. Qed.

Lemma pg_wall y m d h mi s f (sfx : bytes) (o : option Z) :
  1 <= y <= 5881600 -> 1 <= m <= 12 -> 1 <= d <= 31 -> 0 <= h < 24 -> 0 <= mi < 60 -> 0 <= s < 60 -> 0 <= f < 1000000 ->
  let text := date_shape y m d ++ SP :: clock_shape h mi s f ++ sfx in
  trim text = text -> PgValue.split_offset (clock_shape h mi s f ++ sfx) = (clock_shape h mi s f, o) ->
  PgValue.parse_timestamp text
  = let local := as_i64 (days_from_civil y m d * 86400 * 1000000 + (h * 3600 + mi * 60 + s) * 1000000 + f) in
    Some (as_i64 (local - default 0 o * 1000000), default 0 o).
Proof.
  intros Hy Hm Hd Hh Hmi Hs Hf text Ht Ho. unfold PgValue.parse_timestamp. rewrite Ht. subst text.
  rewrite split_once_at by (first [apply sp_or_t_date; lia|done]).
  rewrite pg_ymd by (unfold I64_MAX; lia). rewrite Ho, pg_clock by lia. by replace (y <? 1) with false by lia.
Qed.

Lemma my_wall y m d h mi s f :
  1 <= y <= 5881600 -> 1 <= m <= 12 -> 1 <= d <= 31 -> 0 <= h < 24 -> 0 <= mi < 60 -> 0 <= s < 60 -> 0 <= f < 1000000 ->
  MyValue.parse_timestamp_naive (date_shape y m d ++ SP :: clock_shape h mi s f)
  = Some (as_i64 (as_i64 (days_from_civil y m d * 86400 * 1000000 + (h * 3600 + mi * 60 + s) * 1000000) + f)).
Proof.
  intros Hy Hm Hd Hh Hmi Hs Hf. unfold MyValue.parse_timestamp_naive. rewrite trim_wall by lia.
  assert (starts_with (date_shape y m d ++ SP :: clock_shape h mi s f) (B "0000-00-00") = false) as ->.
  { apply not_true_iff_false. intros (r & E)%starts_with_true.
    apply (f_equal (split_once (fun b => b =b DASH))) in E. unfold date_shape in E. rewrite <- app_assoc in E.
    cbn [app] in E. rewrite split_once_at in E by (first [apply digits_no_eqb; [done|apply pad0_digits; lia]|done]).
    change (split_once (fun b => b =b DASH) (B "0000-00-00" ++ r)) with (Some (B "0000", B "00-00" ++ r)) in E.
    injection E as E _. apply (f_equal digits_value) in E.
    destruct (pad0_spec 4 y) as (_ & _ & Ey); [lia|]. rewrite Ey in E. change (digits_value (B "0000")) with 0 in E. lia. }
  rewrite split_once_at by (first [apply sp_or_t_date; lia|done]).
  rewrite my_ymd by (unfold I64_MAX; lia). rewrite clock_split by lia.
  rewrite !parse_uint_pad0, my_seconds by (first [apply parse_uint_pad0; unfold U8_MAX; lia|unfold U8_MAX; lia|lia]).
  unfold timestamp_micros.
  by replace (negb ((1 <=? m) && (m <=? 12)) || negb ((1 <=? d) && (d <=? 31)) || (23 <? h) || (59 <? mi) || (60 <? s))
    with false by lia.
Qed.

Lemma trino_wall y m d h mi s f :
  1 <= y <= 5881600 -> 1 <= m <= 12 -> 1 <= d <= 31 -> 0 <= h < 24 -> 0 <= mi < 60 -> 0 <= s < 60 -> 0 <= f < 1000000 ->
  fits_i32 (days_from_civil y m d) = true ->
  TrinoValue.parse_timestamp (date_shape y m d ++ SP :: clock_shape h mi s f) false
  = Some (as_i64 (days_from_civil y m d * 86400000000 + ((h * 3600 + mi * 60 + s) * 1000000 + f)), None).
Proof.
  intros Hy Hm Hd Hh Hmi Hs Hf Hfit. unfold TrinoValue.parse_timestamp. rewrite trim_wall by lia.
  rewrite split_once_at by (first [apply date_no; [intros b Hb; byte_unfold; lia|done|lia..]|done]).
  rewrite trino_date by (unfold I64_MAX; lia).
  change (days_from_civil_trino y m d) with (days_from_civil y m d). rewrite Hfit, trino_time by lia.
  do 2 f_equal. cbn [default]. f_equal. lia.
Qed.

Lemma timestamps_read L : I64_MIN <= L <= I64_MAX -> -62135596800000000 <= L ->
  let text := write_timestamp L None [] in
  PgValue.parse_timestamp text = Some (L, 0) /\ MyValue.parse_timestamp_naive text = Some L
  /\ TrinoValue.parse_timestamp text false = Some (L, None).
Proof.
  intros Hi Hlo. destruct (wall_shape L Hi Hlo) as (y & m & d & h & mi & s & f & Hw & Hy & Hm & Hd & Hh & Hmi & Hs & Hf & Hfit & E).
  cbv zeta. unfold write_timestamp. rewrite Hw. cbn [app]. split_and!.
  - pose proof (pg_wall y m d h mi s f [] None) as Hp. rewrite !app_nil_r in Hp. cbv zeta in Hp.
    rewrite Hp; [|lia..|by apply trim_wall; lia|].
    + cbn [default].
      assert (days_from_civil y m d * 86400 * 1000000 + (h * 3600 + mi * 60 + s) * 1000000 + f = L) as -> by lia.
      rewrite (as_i64_small L), Z.mul_0_l, Z.sub_0_r by done. by rewrite as_i64_small.
    + unfold PgValue.split_offset. by rewrite rsplit_once_none by (apply clock_sign; lia).
  - rewrite my_wall by lia. rewrite (as_i64_small (_ + _ * 1000000)) by (unfold I64_MIN, I64_MAX in *; lia).
    f_equal. rewrite as_i64_small; lia.
  - rewrite trino_wall by done. rewrite as_i64_small by lia. do 3 f_equal. lia.
Qed.

(** The text of an offset in whole minutes. *)
Definition offset_shape (o : Z) : bytes :=
  (if o <? 0 then DASH else 43) :: pad0 2 (Z.abs o / 3600) ++ COLON :: pad0 2 (Z.abs o mod 3600 / 60).

Lemma pg_offset o : -53940 <= o <= 53940 -> o mod 60 = 0 -> PgValue.parse_offset_seconds (offset_shape o) = Some o.
Proof.
  intros Ho Hm. unfold PgValue.parse_offset_seconds, offset_shape.
  rewrite split_byte_two by (apply digits_no; [done|apply pad0_digits; Z.div_mod_to_equations; lia]).
  unfold parse_i32. rewrite !parse_int_pad0 by (Z.div_mod_to_equations; lia).
  assert (((14 <? Z.abs o / 3600) || (59 <? Z.abs o mod 3600 / 60) || (59 <? 0)) = false) as Hb
    by (Z.div_mod_to_equations; lia).
  destruct (o <? 0) eqn:E; cbn [negb]; rewrite ?Z.eqb_refl.
  - change (DASH =b 43) with false. cbv iota. rewrite Hb. f_equal.
    rewrite as_i32_small by (unfold fits_i32; Z.div_mod_to_equations; lia). Z.div_mod_to_equations; lia.
  - change (43 =b 43) with true. cbv iota. rewrite Hb. f_equal.
    rewrite as_i32_small by (unfold fits_i32; Z.div_mod_to_equations; lia). Z.div_mod_to_equations; lia.
Qed.

Lemma pg_split_offset h mi s f o : 0 <= h -> 0 <= mi -> 0 <= s -> 0 <= f -> -53940 <= o <= 53940 -> o mod 60 = 0 ->
  PgValue.split_offset (clock_shape h mi s f ++ offset_shape o) = (clock_shape h mi s f, Some o).
Proof.
  intros Hh Hmi Hs Hf Ho Hm. unfold PgValue.split_offset. unfold offset_shape at 1.
  rewrite rsplit_once_at.
  - destruct (clock_last h mi s f [] Hs Hf) as (c & Hc & Hcr & Hcd). cbn [app] in Hc. rewrite Hc, Hcd. cbn [andb].
    rewrite length_app. unfold offset_shape at 1. cbn [length]. rewrite length_app. cbn [length].
    replace (_ <? _)%nat with true by (symmetry; apply Nat.ltb_lt; lia).
    rewrite drop_app_length, take_app_length, pg_offset by done.
    destruct (pad0_spec 2 h Hh) as (Hd & Hn & _).
    destruct (head_digit (pad0 2 h) (COLON :: pad0 2 mi ++ COLON :: pad0 2 s ++ (if f =? 0 then [] else DOT :: pad0 6 f)) Hd Hn)
      as (b & Hb & Hbr).
    by rewrite (trim_end_visible _ b c).
  - apply Forall_app. split; [|constructor; [done|]]; (eapply digits_not; [apply pad0_digits; Z.div_mod_to_equations; lia|]);
      intros x Hx; unfold is_sign; byte_unfold; lia.
  - unfold is_sign. by destruct (o <? 0).
Qed.

Lemma zoned_reads L o : I64_MIN <= L + o * 1000000 <= I64_MAX -> I64_MIN <= L <= I64_MAX ->
  -62135596800000000 <= L + o * 1000000 -> -53940 <= o <= 53940 -> o mod 60 = 0 ->
  PgValue.parse_timestamp (write_timestamp L (Some o) []) = Some (L, o).
Proof.
  intros Hi HL Hlo Ho Hm.
  destruct (wall_shape (L + o * 1000000) Hi Hlo) as (y & m & d & h & mi & s & f & Hw & Hy & Hmo & Hd & Hh & Hmi & Hs & Hf & Hfit & E).
  unfold write_timestamp. rewrite as_i64_small by done. rewrite Hw. cbn [app].
  assert ((if o <? 0 then DASH else 43) :: pad0 2 (Z.abs o / 3600) ++ B ":" ++ pad0 2 (Z.abs o mod 3600 / 60) = offset_shape o)
    as Eo by done.
  rewrite Eo. pose proof (pg_wall y m d h mi s f (offset_shape o) (Some o)) as Hp. cbv zeta in Hp.
  rewrite <- app_assoc. cbn [app]. rewrite Hp; [|lia..| |by apply pg_split_offset; lia].
  - change (default 0 (Some o)) with o.
    assert (days_from_civil y m d * 86400 * 1000000 + (h * 3600 + mi * 60 + s) * 1000000 + f = L + o * 1000000) as -> by lia.
    rewrite (as_i64_small (L + _)) by done. replace (L + o * 1000000 - o * 1000000) with L by lia. by rewrite as_i64_small.
  - destruct (date_head y m d (SP :: clock_shape h mi s f ++ offset_shape o)) as (b & Hb & Hbr); [lia|].
    destruct (pad0_spec 2 (Z.abs o mod 3600 / 60)) as (Hdd & Hn & _); [Z.div_mod_to_equations; lia|].
    destruct (last_digit _ (date_shape y m d ++ SP :: clock_shape h mi s f ++ (if o <? 0 then DASH else 43) :: pad0 2 (Z.abs o / 3600) ++ [COLON]) Hdd Hn)
      as (c & Hc & Hcr & _).
    eapply trim_visible; [exact Hb| |exact Hbr|exact Hcr]. rewrite <- Hc. f_equal. unfold offset_shape. by app_norm.
Qed.

(** ** Decimals *)

Lemma write_decimal_shape u s : 0 <= s ->
  exists whole fraction, digits whole /\ whole <> [] /\ digits fraction /\ length fraction = Z.to_nat s
    /\ digits_value (whole ++ fraction) = Z.abs u
    /\ write_decimal u s [] = (if u <? 0 then [DASH] else []) ++ whole ++ (if s =? 0 then [] else DOT :: fraction).
Proof.
  intros Hs. pose proof (decimal_digits (Z.abs u)) as Hd. pose proof (decimal_nonempty (Z.abs u)) as Hn.
  pose proof (decimal_value (Z.abs u)) as Hv. unfold write_decimal, signed. destruct (s =? 0) eqn:E.
  - exists (decimal (Z.abs u)), []. rewrite !app_nil_r. assert (s = 0) as -> by lia.
    split_and!; try done; [constructor|by apply Hv; lia|].
    destruct (u <? 0) eqn:Eu; [by replace (- u) with (Z.abs u) by lia|by replace u with (Z.abs u) at 1 by lia].
  - destruct (length (decimal (Z.abs u)) <=? Z.to_nat s)%nat eqn:El.
    + apply Nat.leb_le in El. exists [48], (zeros (Z.to_nat s - length (decimal (Z.abs u))) ++ decimal (Z.abs u)).
      split_and!; try done.
      * by constructor.
      * apply Forall_app. split; [apply zeros_digits|done].
      * unfold zeros. rewrite length_app, length_replicate. lia.
      * change ([48] ++ zeros (Z.to_nat s - length (decimal (Z.abs u))) ++ decimal (Z.abs u))
          with (zeros (S (Z.to_nat s - length (decimal (Z.abs u)))) ++ decimal (Z.abs u)).
        rewrite zeros_value. apply Hv. lia.
    + apply Nat.leb_gt in El. set (k := (length (decimal (Z.abs u)) - Z.to_nat s)%nat).
      exists (take k (decimal (Z.abs u))), (drop k (decimal (Z.abs u))). split_and!; try done.
      * by apply Forall_take.
      * intros Et. apply (f_equal length) in Et. rewrite length_take in Et. change (length (@nil Z)) with 0%nat in Et. subst k. lia.
      * by apply Forall_drop.
      * rewrite length_drop. subst k. lia.
      * rewrite take_drop. apply Hv. lia.
Qed.

(** The sign and the parts of a decimal, as each driver splits them. *)
Lemma decimal_parts (u : Z) whole fraction s : digits whole -> whole <> [] -> digits fraction ->
  let body := whole ++ (if s =? 0 then [] else DOT :: fraction) in
  let text := (if u <? 0 then [DASH] else []) ++ body in
  trim text = text
  /\ strip_prefix text [DASH] = (if u <? 0 then Some body else None)
  /\ strip_prefix body [43] = None
  /\ split_once (fun b => (b =b 101) || (b =b 69)) body = None
  /\ split_once (fun b => b =b DOT) body = (if s =? 0 then None else Some (whole, fraction)).
Proof.
  intros Hw Hn Hf body text.
  assert (Forall (fun b => is_ascii_digit b = true \/ b = DOT) body) as Hb.
  { subst body. apply Forall_app. split; [eapply Forall_impl; [exact Hw|]; by left|].
    destruct (s =? 0); constructor; [by right|]. eapply Forall_impl; [exact Hf|]. by left. }
  assert (forall c r, is_ascii_digit c = false -> body <> c :: r) as Hfirst.
  { intros c r Hc. subst body. destruct whole as [|b w]; [done|]. apply Forall_cons in Hw as [Hw _]. cbn. congruence. }
  split_and!.
  - apply trim_word. subst text. apply Forall_app. split; [destruct (u <? 0); repeat constructor; lia|].
    eapply Forall_impl; [exact Hb|]. intros b [Hd| ->]; [byte_unfold; lia|lia].
  - subst text. destruct (u <? 0); cbn [app].
    + by apply strip_prefix_some.
    + destruct (strip_prefix body [DASH]) as [r|] eqn:E; [|done]. apply strip_prefix_some in E. by apply Hfirst in E.
  - destruct (strip_prefix body [43]) as [r|] eqn:E; [|done]. apply strip_prefix_some in E. by apply Hfirst in E.
  - apply split_once_none. eapply Forall_impl; [exact Hb|]. intros b [Hd| ->]; [byte_unfold; lia|done].
  - subst body. destruct (s =? 0).
    + rewrite app_nil_r. apply split_once_none. by apply digits_no_eqb.
    + apply split_once_at; [by apply digits_no_eqb|done].
Qed.

Lemma digits_app a b : digits a -> digits b -> digits (a ++ b).
Proof. intros. by apply Forall_app. Qed.
Lemma i128_digits l acc : digits l -> 0 <= acc -> foldl (fun n d => 10 * n + (d - 48)) acc l < 2 ^ 127 ->
  digits_i128 l acc = Some (foldl (fun n d => 10 * n + (d - 48)) acc l).
Proof.
  intros Hl. revert acc. induction Hl as [|d l Hd Hl IH]; intros acc Ha Hlt; [done|]. cbn [digits_i128 foldl] in *.
  assert (forall n, n <= foldl (fun n d => 10 * n + (d - 48)) n l \/ n < 0) as Hmono.
  { clear -Hl. induction Hl as [|e l He _ IHl]; intros n; cbn; [lia|].
    destruct (IHl (10 * n + (e - 48))); byte_unfold; lia. }
  assert (0 <= d - 48 <= 9) as Hdd by (byte_unfold; lia).
  destruct (Hmono (10 * acc + (d - 48))) as [Hm|Hm]; [|lia].
  unfold checked_i128 at 1. replace ((- 2 ^ 127 <=? acc * 10) && (acc * 10 <? 2 ^ 127)) with true by lia.
  unfold checked_i128. replace (acc * 10 + (d - 48)) with (10 * acc + (d - 48)) by lia.
  replace ((- 2 ^ 127 <=? 10 * acc + (d - 48)) && (10 * acc + (d - 48) <? 2 ^ 127)) with true by lia.
  apply IH; lia.
Qed.

Lemma my_decimal_is_pg text : MyValue.parse_decimal text = PgValue.parse_decimal text.
Proof.
  unfold MyValue.parse_decimal, PgValue.parse_decimal, PgValue.split_sign, PgValue.mantle_parts. cbv zeta.
  destruct (match strip_prefix (trim text) [DASH] with Some rest => _ | None => _ end) as [negative ds].
  destruct (match split_once (fun b => (b =b 101) || (b =b 69)) ds with Some _ => _ | None => _ end) as [[mant ex]|]; [|done].
  destruct (match split_once (fun b => b =b DOT) mant with Some _ => _ | None => _ end) as [whole fraction].
  destruct (match whole, fraction with [], [] => true | _, _ => false end); [done|].
  by destruct (negb (forallb is_ascii_digit whole) || negb (forallb is_ascii_digit fraction)).
Qed.
Lemma decimals_read u s : - 2 ^ 127 < u < 2 ^ 127 -> 0 <= s <= 38 ->
  PgValue.parse_decimal (write_decimal u s []) = Some (u, s) /\ MyValue.parse_decimal (write_decimal u s []) = Some (u, s)
  /\ TrinoValue.parse_decimal (write_decimal u s []) = Some (u, s).
Proof.
  intros Hu Hs. destruct (write_decimal_shape u s) as (whole & fraction & Hw & Hn & Hf & Hl & Hv & ->); [lia|].
  destruct (decimal_parts u whole fraction s Hw Hn Hf) as (Ht & Hsign & Hplus & He & Hdot).
  assert (digits (whole ++ fraction)) as Hd by (by apply digits_app).
  assert (whole ++ fraction <> []) as Hne by (by destruct whole).
  assert ((if u <? 0 then - Z.abs u else Z.abs u) = u) as Habs by (destruct (u <? 0) eqn:?; lia).
  set (body := whole ++ (if s =? 0 then [] else DOT :: fraction)) in *.
  assert (s = 0 -> fraction = []) as Hf0 by (intros ->; by destruct fraction).
  assert (PgValue.mantle_parts body = Some (whole, fraction)) as Hmp.
  { unfold PgValue.mantle_parts. rewrite Hdot. destruct (s =? 0) eqn:E.
    - assert (body = whole) as -> by (unfold body; rewrite ?E; apply app_nil_r).
      rewrite Hf0 by lia. destruct whole; [done|]. by rewrite digits_forallb.
    - destruct whole; [done|]. by rewrite !digits_forallb. }
  assert (as_i32 (Z.of_nat (length fraction) - 0) = s) as Hsc by (rewrite as_i32_small; unfold fits_i32; lia).
  assert (parse_int (- 2 ^ 127) (2 ^ 127 - 1) (whole ++ fraction ++ []) = Some (Z.abs u)) as Hp
    by (rewrite app_nil_r; apply parse_int_value; [done..|lia]).
  assert (PgValue.parse_decimal ((if u <? 0 then [DASH] else []) ++ body) = Some (u, s)) as Hpg.
  { unfold PgValue.parse_decimal, PgValue.split_sign, PgValue.MAX_SCALE, PgValue.I128_MAX. rewrite Ht, Hsign.
    destruct (u <? 0); cbv beta iota zeta; try change ([] ++ body) with body; rewrite ?Hplus; cbv beta iota zeta; rewrite He, Hmp;
      cbv beta iota zeta; rewrite Hsc; replace (s <? 0) with false by lia; cbn [andb];
      replace (38 <? s) with false by lia; rewrite Hp, Habs; unfold as_u8; by rewrite Z.mod_small by lia. }
  split_and!.
  - exact Hpg.
  - rewrite <- Hpg. apply my_decimal_is_pg.
  - unfold TrinoValue.parse_decimal. rewrite Ht, Hsign.
    assert (forall neg, (let '(w, f) := match split_once (fun b => b =b DOT) body with Some p => p | None => (body, []) end in
       if match w, f with [], [] => true | _, _ => false end then None
       else if negb (forallb is_ascii_digit w) || negb (forallb is_ascii_digit f) then None
       else if (255 <? length f)%nat then None
       else match digits_i128 (w ++ f) 0 with
            | None => None
            | Some unscaled => Some (if neg : bool then - unscaled else unscaled, Z.of_nat (length f))
            end) = Some (if neg then - Z.abs u else Z.abs u, s)) as Hx.
    { intros neg. unfold PgValue.mantle_parts in Hmp.
      destruct (match split_once (fun b => b =b DOT) body with Some p => p | None => (body, []) end) as [w f].
      destruct (match w, f with [], [] => true | _, _ => false end); [done|].
      destruct (negb (forallb is_ascii_digit w) || negb (forallb is_ascii_digit f)); [done|]. simplify_eq.
      replace (255 <? length fraction)%nat with false by (symmetry; apply Nat.ltb_ge; lia).
      rewrite i128_digits by (try done; fold (digits_value (whole ++ fraction)); lia).
      fold (digits_value (whole ++ fraction)). rewrite Hv. do 2 f_equal. lia. }
    etransitivity; [|exact (f_equal (fun x => Some (x, s)) Habs)]. destruct (u <? 0); cbv beta iota zeta; try change ([] ++ body) with body; rewrite ?Hplus; [apply (Hx true)|apply (Hx false)].
Qed.

(** ** Cells *)

Lemma ascii_utf8 s : Forall (fun b => 32 <= b <= 126) s -> valid_utf8 s = true.
Proof.
  induction 1 as [|b s Hb _ IH]; [done|]. cbn [valid_utf8]. by replace (b <? 128) with true by lia.
Qed.
Lemma graphic_ascii s : Forall (fun b => 33 <= b <= 126) s -> Forall (fun b => 32 <= b <= 126) s.
Proof. intros Hs. eapply Forall_impl; [exact Hs|]. intros b Hb. cbn in *. lia. Qed.

Section Cells.
Context `{Float}.
Variable to_string : Json -> bytes.

(** The values a table holds that every driver shows as plain text: in their type's range, dates
    from the year 0 on, timestamps from the year 1 on, offsets of whole minutes up to 14:59. *)
Definition plain_value (v : Value) : Prop :=
  match v with
  | VNull | VBool _ => True
  | VInt n => I64_MIN <= n <= I64_MAX
  | VDecimal u s => - 2 ^ 127 < u < 2 ^ 127 /\ 0 <= s <= 38
  | VText t | VJson t => valid_utf8 t = true
  | VDate d => fits_i32 d = true /\ -719528 <= d
  | VTime t => 0 <= t < DAY_MICROS
  | VTimestamp l None => I64_MIN <= l <= I64_MAX /\ -62135596800000000 <= l
  | VTimestamp l (Some o) =>
      I64_MIN <= l <= I64_MAX /\ I64_MIN <= l + o * 1000000 <= I64_MAX /\ -62135596800000000 <= l + o * 1000000
      /\ -53940 <= o <= 53940 /\ o mod 60 = 0
  | _ => False
  end.

(** The column a value comes from, by the server's own type names. *)
Definition pg_type (v : Value) : bytes :=
  B match v with
    | VBool _ => "bool" | VInt _ => "int8" | VDecimal _ _ => "numeric" | VDate _ => "date" | VTime _ => "time"
    | VTimestamp _ None => "timestamp" | VTimestamp _ (Some _) => "timestamptz" | VJson _ => "jsonb" | _ => "text"
    end%string.
Definition my_type (v : Value) : option ColumnType :=
  match v with
  | VInt _ => Some TLonglong | VDecimal _ _ => Some TNewdecimal | VDate _ => Some TDate | VTime _ => Some TTime
  | VTimestamp _ None => Some TDatetime | VJson _ => Some TJson | VText _ | VNull => Some TVarString
  | _ => None
  end.
Definition trino_type (v : Value) : option bytes :=
  match v with
  | VInt _ => Some (B "bigint") | VDecimal _ _ => Some (B "decimal(38, 10)") | VDate _ => Some (B "date")
  | VTime _ => Some (B "time(6)") | VTimestamp _ None => Some (B "timestamp(6)") | VJson _ => Some (B "json")
  | VText _ | VNull => Some (B "varchar")
  | _ => None
  end.

Lemma signed_ascii n : Forall (fun b => 32 <= b <= 126) (signed n).
Proof.
  unfold signed. pose proof (digits_graphic _ (decimal_digits n)). pose proof (digits_graphic _ (decimal_digits (- n))).
  destruct (n <? 0); [constructor; [lia|]|]; by apply graphic_ascii.
Qed.
Lemma plain_ascii v : plain_value v ->
  match v with
  | VInt _ | VDecimal _ _ | VDate _ | VTime _ | VTimestamp _ None => Forall (fun b => 32 <= b <= 126) (write_text v [])
  | _ => True
  end.
Proof.
  destruct v as [| |n|n|f|u s|t|b|l [o|]|d|t|i|t|l|l|l|n t r]; cbn [plain_value write_text write_scalar app]; try done.
  - intros _. apply signed_ascii.
  - intros [_ Hs]. destruct (write_decimal_shape u s) as (w & f & Hw & _ & Hf & _ & _ & ->); [lia|].
    apply digits_graphic, graphic_ascii in Hw. apply digits_graphic, graphic_ascii in Hf.
    repeat (apply Forall_app; split); [destruct (u <? 0); repeat constructor; lia|done|].
    destruct (s =? 0); [constructor|]. constructor; [lia|done].
  - intros [Hi Hlo]. destruct (wall_shape l Hi Hlo) as (y & m & d & h & mi & s & f & Hw & Hy & Hm & Hd & Hh & Hmi & Hs & Hf & _).
    unfold write_timestamp. rewrite Hw. cbn [app]. apply Forall_app. split; [apply graphic_ascii, date_shape_graphic; lia|].
    constructor; [lia|]. apply graphic_ascii, clock_graphic; lia.
  - intros [Hf Hd]. destruct (date_fields d 0 Hf) as (y & m & dd & -> & Hy & Hm & Hdd & _); [by left|].
    apply graphic_ascii, date_shape_graphic; lia.
  - intros Ht. pose proof (write_time_shape t []) as Hw. cbv zeta iota beta in Hw.
    destruct Hw as (-> & ?); [lia|]. apply graphic_ascii, clock_graphic; lia.
Qed.

Lemma pg_cell v : plain_value v -> PgValue.from_text (pg_type v) (to_text v) = v.
Proof.
  destruct v as [|[]|n|n|f|u s|t|b|l [o|]|d|t|i|t|l|l|l|n t r]; cbn [plain_value]; intros Hv; try done.
  - change (PgValue.from_text _ _) with (match parse_i64 (signed n) with Some x => VInt x | None => VText (signed n) end).
    unfold parse_i64. by rewrite parse_int_signed.
  - change (PgValue.from_text _ _)
      with (match PgValue.parse_decimal (write_decimal u s []) with Some x => (fun '(u, s) => VDecimal u s) x | None => VText (write_decimal u s []) end).
    by rewrite (proj1 (decimals_read u s (proj1 Hv) (proj2 Hv))).
  - change (PgValue.from_text _ _)
      with (match PgValue.parse_timestamp (write_timestamp l (Some o) []) with
            | Some x => (fun '(m, o) => VTimestamp m (Some o)) x | None => VText (write_timestamp l (Some o) []) end).
    destruct Hv as (Hl & Hi & Hlo & Ho & Hm). by rewrite zoned_reads.
  - change (PgValue.from_text _ _)
      with (match PgValue.parse_timestamp (write_timestamp l None []) with
            | Some x => (fun '(m, _) => VTimestamp m None) x | None => VText (write_timestamp l None []) end).
    by rewrite (proj1 (timestamps_read l (proj1 Hv) (proj2 Hv))).
  - change (PgValue.from_text _ _)
      with (match PgValue.parse_days (write_date d []) with Some x => VDate x | None => VText (write_date d []) end).
    by rewrite (proj1 (dates_read d (proj1 Hv) (proj2 Hv))).
  - change (PgValue.from_text _ _)
      with (match PgValue.parse_time_micros (write_time t []) with Some x => VTime x | None => VText (write_time t []) end).
    by rewrite (proj1 (times_read t Hv)).
Qed.

Lemma my_cell v t : plain_value v -> my_type v = Some t -> from_value t (MyBytes <$> to_text v) false = v.
Proof.
  intros Hv Ht. pose proof (plain_ascii v Hv) as Ha.
  destruct v as [| |n|n|f|u s|tx|b|l [o|]|d|tm|i|tx|l|l|l|n tx r]; cbn in Ht; simplify_eq; cbn [plain_value] in Hv; try done.
  - apply ascii_utf8 in Ha. cbn -[valid_utf8 parse_i64] in *. unfold of_text. rewrite Ha. unfold parse_i64. by rewrite parse_int_signed.
  - apply ascii_utf8 in Ha. cbn -[valid_utf8 MyValue.parse_decimal write_decimal] in *. unfold of_text. rewrite Ha.
    by rewrite (proj1 (proj2 (decimals_read u s (proj1 Hv) (proj2 Hv)))).
  - cbn -[valid_utf8]. unfold text_or_bytes_of. by rewrite Hv.
  - apply ascii_utf8 in Ha. cbn -[valid_utf8 parse_timestamp_naive write_timestamp] in *. unfold of_text. rewrite Ha.
    by rewrite (proj1 (proj2 (timestamps_read l (proj1 Hv) (proj2 Hv)))).
  - apply ascii_utf8 in Ha. cbn -[valid_utf8 parse_date_days write_date] in *. unfold of_text. rewrite Ha.
    by rewrite (proj1 (proj2 (dates_read d (proj1 Hv) (proj2 Hv)))).
  - apply ascii_utf8 in Ha. cbn -[valid_utf8 MyValue.parse_time_micros write_time] in *. unfold of_text. rewrite Ha.
    rewrite (proj1 (proj2 (times_read tm Hv))). unfold time_value. by replace ((0 <=? tm) && (tm <? DAY_MICROS)) with true by lia.
  - cbn -[valid_utf8]. unfold of_text. by rewrite Hv.
Qed.

Definition json_cell (text : option bytes) : Json := match text with Some t => JString t | None => JNull end.
Lemma trino_cell v ty : plain_value v -> trino_type v = Some ty -> decode to_string ty (json_cell (to_text v)) = v.
Proof.
  intros Hv Ht.
  destruct v as [| |n|n|f|u s|tx|b|l [o|]|d|tm|i|tx|l|l|l|n tx r]; cbn in Ht; simplify_eq; cbn [plain_value] in Hv; try done.
  - change (decode to_string _ _) with (match parse_i64 (signed n) with Some x => VInt x | None => unmodelled to_string (B "bigint") (JString (signed n)) end).
    unfold parse_i64. by rewrite parse_int_signed.
  - change (decode to_string _ _) with (string_cell to_string (B "decimal(38, 10)") (JString (write_decimal u s [])) TrinoValue.parse_decimal (fun '(u, s) => VDecimal u s)).
    unfold string_cell. cbn [j_str]. by rewrite (proj2 (proj2 (decimals_read u s (proj1 Hv) (proj2 Hv)))).
  - change (decode to_string _ _) with (string_cell to_string (B "timestamp(6)") (JString (write_timestamp l None [])) (fun text => TrinoValue.parse_timestamp text false) (fun '(m, o) => VTimestamp m o)).
    unfold string_cell. cbn [j_str]. by rewrite (proj2 (proj2 (timestamps_read l (proj1 Hv) (proj2 Hv)))).
  - change (decode to_string _ _) with (string_cell to_string (B "date") (JString (write_date d [])) TrinoValue.parse_date VDate).
    unfold string_cell. cbn [j_str]. by rewrite (proj2 (proj2 (dates_read d (proj1 Hv) (proj2 Hv)))).
  - change (decode to_string _ _) with (string_cell to_string (B "time(6)") (JString (write_time tm [])) TrinoValue.parse_time_micros VTime).
    unfold string_cell. cbn [j_str]. by rewrite (proj2 (proj2 (times_read tm Hv))).
Qed.

(** The kinds all three servers have a text form for: MySQL has no boolean and no zone, and Trino sends a
    boolean as JSON's own. *)
Definition portable (v : Value) : bool := match v with VBool _ | VTimestamp _ (Some _) => false | _ => true end.
Lemma portable_types v : plain_value v -> portable v = true -> exists my trino, my_type v = Some my /\ trino_type v = Some trino.
Proof. destruct v as [| |n|n|f|u s|tx|b|l [o|]|d|tm|i|tx|l|l|l|n tx r]; cbn; try done; intros _ _; by do 2 eexists. Qed.

End Cells.

(** A float type with one value, for closed examples that hold no float. *)
Definition no_float : Float :=
  {| f64 := unit; is_nan _ := true; is_infinite _ := false; is_sign_negative _ := false; is_zero _ := false;
     log10_floor _ := 0; display _ := []; display_exp _ := []; parse_f64 _ := None; infinity := tt; neg_infinity := tt;
     of_decimal _ _ := tt |}.


(** MySQL can hold the 31st of February (sql_mode ALLOW_INVALID_DATES); it is shown as another
    day, not as the text the server sent. *)
Example mysql_february_31 :
  @to_text no_float (@from_value no_float TDate (Some (MyBytes (B "2026-02-31"))) false) = Some (B "2026-03-03").
Proof. vm_compute. reflexivity. Qed.

(** An interval appended after other text gets a comma of its own. *)
Example interval_after_text :
  @write_text no_float (VInterval (MkInterval 0 1 0)) (B "x=") = B "x=, 1 day, 0:00:00".
Proof. vm_compute. reflexivity. Qed.

(** ** JSON strings *)

(** What a reader of JSON makes of a string, from after its opening quote: the text, and what
    follows the closing quote. *)
Definition hex_value (h : Z) : option Z := PgValue.to_digit16 h.
Definition unescape (c : Z) : option Z :=
  if c =b DQUOTE then Some DQUOTE else if c =b BACKSLASH then Some BACKSLASH else if c =b SLASH then Some SLASH
  else if c =b 110 then Some LF else if c =b 114 then Some CR else if c =b 116 then Some 9
  else if c =b 98 then Some 8 else if c =b 102 then Some 12 else None.
Fixpoint json_string_tail (s : bytes) : option (bytes * bytes) :=
  match s with
  | [] => None
  | b :: s =>
      if b =b DQUOTE then Some ([], s)
      else if b <? 32 then None
      else if b =b BACKSLASH then
        match s with
        | 117 :: 48 :: 48 :: h :: l :: s =>
            match hex_value h, hex_value l, json_string_tail s with
            | Some h, Some l, Some (t, r) => Some ((16 * h + l) :: t, r)
            | _, _, _ => None
            end
        | c :: s => match unescape c, json_string_tail s with Some x, Some (t, r) => Some (x :: t, r) | _, _ => None end
        | [] => None
        end
      else match json_string_tail s with Some (t, r) => Some (b :: t, r) | None => None end
  end.

Lemma escape_read b s : 0 <= b -> json_string_tail (json_escape b ++ s)
  = match json_string_tail s with Some (t, r) => Some (b :: t, r) | None => None end.
Proof.
  intros Hb. unfold json_escape.
  destruct (b =b DQUOTE) eqn:E1; [apply Z.eqb_eq in E1 as ->; done|].
  destruct (b =b BACKSLASH) eqn:E2; [apply Z.eqb_eq in E2 as ->; done|].
  destruct (b =b LF) eqn:E3; [apply Z.eqb_eq in E3 as ->; done|].
  destruct (b =b CR) eqn:E4; [apply Z.eqb_eq in E4 as ->; done|].
  destruct (b =b 9) eqn:E5; [apply Z.eqb_eq in E5 as ->; done|].
  destruct (b =b 8) eqn:E6; [apply Z.eqb_eq in E6 as ->; done|].
  destruct (b =b 12) eqn:E7; [apply Z.eqb_eq in E7 as ->; done|].
  destruct (b <? 32) eqn:E8.
  - apply Z.ltb_lt in E8. assert (exists n, b = Z.of_nat n /\ (n < 32)%nat) as (n & -> & Hn) by (exists (Z.to_nat b); lia).
    do 32 (destruct n as [|n]; [done|]). lia.
  - cbn [app json_string_tail]. by rewrite E1, E8, E2.
Qed.

(** A text written as a JSON string reads back as the same text, and the string ends where it was
    closed, whatever quotes, backslashes and control characters the text holds. *)
Theorem json_string_reads_back (text out rest : bytes) : Forall (fun b => 0 <= b) text ->
  exists body, write_json_string text out = out ++ DQUOTE :: body
    /\ json_string_tail (body ++ rest) = Some (text, rest).
Proof.
  intros Ht. exists (mjoin (json_escape <$> text) ++ [DQUOTE]). split; [done|]. rewrite <- app_assoc. cbn [app].
  induction Ht as [|b text Hb _ IH]; [done|].
  change (mjoin (json_escape <$> b :: text)) with (json_escape b ++ mjoin (json_escape <$> text)).
  rewrite <- app_assoc, escape_read by done.
  by rewrite IH.
Qed.
Lemma json_string_reads_back_witness :
  exists body, write_json_string (DQUOTE :: B "\x" ++ [LF]) (B "[") = B "[" ++ DQUOTE :: body
    /\ json_string_tail (body ++ B "]") = Some (DQUOTE :: B "\x" ++ [LF], B "]").
Proof. apply (json_string_reads_back (DQUOTE :: B "\x" ++ [LF]) (B "[") (B "]")). vm_compute; repeat constructor; discriminate. Defined.
