(* ===== verification/SqlType.v ===== *)
(** * SqlType: what a driver says about a column, [crates/qh-driver/src/sql_type.rs], and the
    descriptor Trino's driver reads off the type text, [crates/qh-driver-trino/src/decode.rs]. *)
From S2P Require Import Prelude Bytes Text Dates Value TrinoValue.
#[local] Open Scope nat_scope.
#[local] Set Warnings "-register-all".

Inductive PgBuiltin :=
| Inet | Cidr | Macaddr | Macaddr8 | Bit | Varbit | Xml | Tsvector | Tsquery | Point | Line | Lseg | GeoBox | Path
| Polygon | Circle.
#[export] Instance PgBuiltin_eq_dec : EqDecision PgBuiltin.
Proof. solve_decision. Defined.
Definition builtins : list PgBuiltin :=
  [Inet; Cidr; Macaddr; Macaddr8; Bit; Varbit; Xml; Tsvector; Tsquery; Point; Line; Lseg; GeoBox; Path; Polygon; Circle].
Definition oid (b : PgBuiltin) : Z :=
  match b with
  | Inet => 869 | Cidr => 650 | Macaddr => 829 | Macaddr8 => 774 | Bit => 1560 | Varbit => 1562 | Xml => 142
  | Tsvector => 3614 | Tsquery => 3615 | Point => 600 | Line => 628 | Lseg => 601 | GeoBox => 603 | Path => 602
  | Polygon => 604 | Circle => 718
  end%Z.
Definition from_oid (n : Z) : option PgBuiltin := find (fun b => (oid b =? n)%Z) builtins.
Definition ddl_name (b : PgBuiltin) : string :=
  match b with
  | Inet => "inet" | Cidr => "cidr" | Macaddr => "macaddr" | Macaddr8 => "macaddr8" | Bit => "bit" | Varbit => "varbit"
  | Xml => "xml" | Tsvector => "tsvector" | Tsquery => "tsquery" | Point => "point" | Line => "line" | Lseg => "lseg"
  | GeoBox => "box" | Path => "path" | Polygon => "polygon" | Circle => "circle"
  end.

Inductive Base :=
| BBool | BInt8 | BInt16 | BInt24 | BInt32 | BInt64 | BFloat32 | BFloat64 | BDecimal | BText | BChar | BBinary | BUuid
| BDate | BTime | BTimeTz | BTimestamp | BTimestampTz | BInterval | BJson | BJsonb | BArray | BMap | BRow | BEnum
| BSet | BBuiltin (b : PgBuiltin) | BOther.
#[export] Instance Base_eq_dec : EqDecision Base.
Proof. solve_decision. Defined.

Definition int_bytes (b : Base) : option Z :=
  match b with
  | BInt8 => Some 1 | BInt16 => Some 2 | BInt24 => Some 3 | BInt32 => Some 4 | BInt64 => Some 8 | _ => None
  end%Z.
Definition base_label (b : Base) : string :=
  match b with
  | BBool => "boolean" | BInt8 | BInt16 | BInt24 | BInt32 | BInt64 => "integer" | BFloat32 => "float"
  | BFloat64 => "double" | BDecimal => "decimal" | BText => "text" | BChar => "char" | BBinary => "binary"
  | BUuid => "uuid" | BDate => "date" | BTime => "time" | BTimeTz => "time with time zone" | BTimestamp => "timestamp"
  | BTimestampTz => "timestamp with time zone" | BInterval => "interval" | BJson => "json" | BJsonb => "jsonb"
  | BArray => "array" | BMap => "map" | BRow => "row" | BEnum => "enum" | BSet => "set"
  | BBuiltin kind => ddl_name kind | BOther => "unsupported type"
  end.

Inductive TimeZone := ZNone | ZOffset | ZSession.
#[export] Instance TimeZone_eq_dec : EqDecision TimeZone.
Proof. solve_decision. Defined.

Inductive SqlType := MkSqlType {
  base : Base; precision : option Z; scale : option Z; length : option Z; unsigned : bool; time_zone : TimeZone;
  fraction_digits : option Z; decimals : option Z; element : option SqlType; fields : list SqlType;
  type_oid : option Z; native : bytes }.

Lemma SqlType_element_ind (P : SqlType -> Prop) :
  (forall sql, (forall e, element sql = Some e -> P e) -> P sql) -> forall sql, P sql.
Proof.
  intros Hstep. fix IH 1. intros [b p s l u z f d [e|] fs o na]; apply Hstep; cbn; intros e' [=]; subst e'. apply IH.
Qed.

Definition sql_of (b : Base) : SqlType := MkSqlType b None None None false ZNone None None None [] None [].
Definition sql_decimal (p s : Z) : SqlType := MkSqlType BDecimal (Some p) (Some s) None false ZNone None None None [] None [].
Definition with_length (t : SqlType) (n : Z) : SqlType :=
  let '(MkSqlType b p s _ u z f d e fs o na) := t in MkSqlType b p s (Some n) u z f d e fs o na.
Definition with_fraction (t : SqlType) (n : Z) : SqlType :=
  let '(MkSqlType b p s l u z _ d e fs o na) := t in MkSqlType b p s l u z (Some n) d e fs o na.
Definition with_zone (t : SqlType) (z : TimeZone) : SqlType :=
  let '(MkSqlType b p s l u _ f d e fs o na) := t in MkSqlType b p s l u z f d e fs o na.
Definition with_native (t : SqlType) (na : bytes) : SqlType :=
  let '(MkSqlType b p s l u z f d e fs o _) := t in MkSqlType b p s l u z f d e fs o na.
Definition with_fields (t : SqlType) (fs : list SqlType) : SqlType :=
  let '(MkSqlType b p s l u z f d e _ o na) := t in MkSqlType b p s l u z f d e fs o na.
Definition array_of (t : SqlType) : SqlType := MkSqlType BArray None None None false ZNone None None (Some t) [] None [].
Definition fraction (t : SqlType) : Z := default 6%Z (fraction_digits t).

(** ** Trino's type text *)

(** The numbers inside the first parentheses. *)
Definition numbers (text : bytes) : list Z :=
  match split_once (fun b => b =b LPAREN) text with
  | None => []
  | Some (_, inner) =>
      let inner := match split_once (fun b => b =b RPAREN) inner with Some (x, _) => x | None => inner end in
      omap (fun part => parse_uint U32_MAX (trim part)) (split_byte COMMA inner)
  end.

(** [parse_type] and [field_type]; an element's or a field's text is shorter than its type's, so
    [fuel] beyond the length of the text is never used up. *)
Fixpoint parse_type (fuel : nat) (text : bytes) : SqlType :=
  let zoned := contains text (B "with time zone") in
  let digits := default 3%Z (head (numbers text)) in
  let zone := if zoned then ZOffset else ZNone in
  let field_type parse field :=
    let whole : SqlType := parse field in
    if bool_decide (base whole <> BOther) then whole
    else
      let rest := match strip_prefix field [DQUOTE] with
                  | Some quoted => snd <$> split_once (fun b => b =b DQUOTE) quoted
                  | None => snd <$> split_once (fun b => b =b SP) field
                  end in
      match rest with Some rest => parse (trim rest) | None => whole end in
  if starts_with text (B "timestamp") then
    with_fraction (with_zone (sql_of (if zoned then BTimestampTz else BTimestamp)) zone) digits
  else if starts_with text (B "time") then
    with_fraction (with_zone (sql_of (if zoned then BTimeTz else BTime)) zone) digits
  else
    let name := match split_once (fun b => b =b LPAREN) text with Some (x, _) => trim x | None => text end in
    let any l := existsb (fun s => bytes_eqb name (B s)) l in
    if any ["boolean"] then sql_of BBool
    else if any ["tinyint"] then sql_of BInt8
    else if any ["smallint"] then sql_of BInt16
    else if any ["integer"] then sql_of BInt32
    else if any ["bigint"] then sql_of BInt64
    else if any ["real"] then sql_of BFloat32
    else if any ["double"] then sql_of BFloat64
    else if any ["decimal"] then
      match numbers text with
      | [] => sql_decimal 38 0
      | [p] => sql_decimal p 0
      | p :: s :: _ => sql_decimal p (as_i32 s)
      end
    else if any ["varchar"] then
      match head (numbers text) with Some n => with_length (sql_of BText) n | None => sql_of BText end
    else if any ["char"] then with_length (sql_of BChar) (default 1%Z (head (numbers text)))
    else if any ["varbinary"] then sql_of BBinary
    else if any ["uuid"] then sql_of BUuid
    else if any ["date"] then sql_of BDate
    else if any ["json"] then sql_of BJson
    else if any ["interval day to second"; "interval year to month"] then sql_of BInterval
    else match fuel with
    | O => sql_of BOther
    | S fuel =>
        if any ["array"] then
          match single_argument text (B "array") with
          | Some element => array_of (parse_type fuel element)
          | None => sql_of BOther
          end
        else if any ["map"] then sql_of BMap
        else if any ["row"] then
          match arguments text (B "row") with
          | Some fs => with_fields (sql_of BRow) (field_type (parse_type fuel) <$> fs)
          | None => sql_of BRow
          end
        else sql_of BOther
    end.
Definition sql_type (type_text : bytes) : SqlType :=
  let text := trim type_text in
  with_native (parse_type (S (List.length text)) (lower text)) text.
