(* ===== verification/Names.v ===== *)
(** * Names: how a transfer writes a name into SQL, [crates/qh-ffi/src/transfer/names.rs]. *)
From S2P Require Import Prelude Bytes Text Scan Ident.
#[local] Open Scope nat_scope.

(** The dialects a transfer writes to. *)
Inductive Target := TPostgres | TMysql.
#[export] Instance Target_eq_dec : EqDecision Target.
Proof. solve_decision. Defined.

Definition RESERVED_WORDS : list string :=
  ["accessible"; "add"; "all"; "alter"; "analyse"; "analyze"; "and"; "any"; "array"; "as"; "asc"; "asensitive";
   "asymmetric"; "authorization"; "auto"; "before"; "between"; "bigint"; "binary"; "blob"; "both"; "by";
   "call"; "cascade"; "case"; "cast"; "change"; "char"; "character"; "check"; "collate"; "collation"; "column";
   "concurrently"; "condition"; "constraint"; "continue"; "convert"; "create"; "cross"; "cube"; "cume_dist";
   "current_catalog"; "current_date"; "current_path"; "current_role"; "current_schema"; "current_time";
   "current_timestamp"; "current_user"; "cursor"; "database"; "databases"; "day_hour"; "day_microsecond";
   "day_minute"; "day_second"; "deallocate"; "dec"; "decimal"; "declare"; "default"; "deferrable"; "delayed";
   "delete"; "dense_rank"; "desc"; "describe"; "deterministic"; "distinct"; "distinctrow"; "div"; "do";
   "double"; "drop"; "dual"; "each"; "else"; "elseif"; "empty"; "enclosed"; "end"; "escape"; "escaped";
   "except"; "execute"; "exists"; "exit"; "explain"; "extract"; "false"; "fetch"; "first_value"; "float";
   "float4"; "float8"; "for"; "force"; "foreign"; "freeze"; "from"; "full"; "fulltext"; "function";
   "generated"; "get"; "grant"; "group"; "grouping"; "groups"; "having"; "high_priority"; "hour_microsecond";
   "hour_minute"; "hour_second"; "if"; "ignore"; "ilike"; "in"; "index"; "infile"; "initially"; "inner";
   "inout"; "insensitive"; "insert"; "int"; "int1"; "int2"; "int3"; "int4"; "int8"; "integer"; "intersect";
   "interval"; "into"; "io_after_gtids"; "io_before_gtids"; "is"; "isnull"; "iterate"; "join"; "json_array";
   "json_exists"; "json_object"; "json_query"; "json_table"; "json_value"; "key"; "keys"; "kill"; "lag";
   "last_value"; "lateral"; "lead"; "leading"; "leave"; "left"; "like"; "limit"; "linear"; "lines"; "listagg";
   "load"; "localtime"; "localtimestamp"; "lock"; "long"; "longblob"; "longtext"; "loop"; "low_priority";
   "master_bind"; "master_ssl_verify_server_cert"; "match"; "maxvalue"; "mediumblob"; "mediumint";
   "mediumtext"; "middleint"; "minute_microsecond"; "minute_second"; "mod"; "modifies"; "natural";
   "no_write_to_binlog"; "normalize"; "not"; "notnull"; "nth_value"; "ntile"; "null"; "numeric"; "of";
   "offset"; "on"; "only"; "optimize"; "optimizer_costs"; "option"; "optionally"; "or"; "order"; "out";
   "outer"; "outfile"; "over"; "overlaps"; "partition"; "percent_rank"; "placing"; "precision"; "prepare";
   "primary"; "procedure"; "purge"; "qualify"; "range"; "rank"; "read"; "read_write"; "reads"; "real";
   "recursive"; "references"; "regexp"; "release"; "rename"; "repeat"; "replace"; "require"; "resignal";
   "restrict"; "return"; "returning"; "revoke"; "right"; "rlike"; "rollup"; "row"; "row_number"; "rows";
   "schema"; "schemas"; "second_microsecond"; "select"; "sensitive"; "separator"; "session_user"; "set";
   "show"; "signal"; "similar"; "skip"; "smallint"; "some"; "spatial"; "specific"; "sql"; "sql_big_result";
   "sql_calc_found_rows"; "sql_small_result"; "sqlexception"; "sqlstate"; "sqlwarning"; "ssl"; "starting";
   "stored"; "straight_join"; "symmetric"; "system"; "system_user"; "table"; "tablesample"; "terminated";
   "then"; "tinyblob"; "tinyint"; "tinytext"; "to"; "trailing"; "trigger"; "trim"; "true"; "uescape"; "undo";
   "union"; "unique"; "unlock"; "unnest"; "unsigned"; "update"; "usage"; "use"; "user"; "using"; "utc_date";
   "utc_time"; "utc_timestamp"; "values"; "varbinary"; "varchar"; "varcharacter"; "variadic"; "varying";
   "verbose"; "virtual"; "when"; "where"; "while"; "window"; "with"; "write"; "xor"; "year_month"; "zerofill"].

(** A binary search of a sorted list ([reserved_sorted] in [TransferSpec]). *)
Definition is_reserved (word : bytes) : bool := existsb (fun w => bytes_eqb (B w) word) RESERVED_WORDS.
Definition is_plain (name : bytes) : bool :=
  match name with
  | [] => false
  | first :: rest =>
      ((first =b UNDERSCORE) || is_ascii_lowercase first)
      && forallb (fun b => (b =b UNDERSCORE) || is_ascii_lowercase b || is_ascii_digit b) rest
  end.
Definition needs_quotes (name : bytes) : bool := negb (is_plain name) || is_reserved name.
Definition style (t : Target) : IdentStyle := match t with TPostgres => Ansi | TMysql => MysqlStyle end.
Definition quote (t : Target) (name : bytes) : bytes := quote_ident (style t) name.
Definition ident (t : Target) (name : bytes) : bytes := if needs_quotes name then quote t name else name.

Inductive NameError :=
| NEmpty | NNul | NTooLong (max : nat) (unit_ : string) | NTrailingSpace | NUnnamed | NOutsideBmp | NDuplicate.
Definition name_error_text (e : NameError) : bytes :=
  match e with
  | NEmpty => B "is empty"
  | NNul => B "contains a NUL character"
  | NTooLong max u => B "is longer than " ++ decimal (Z.of_nat max) ++ B " " ++ B u
  | NTrailingSpace => B "ends with a space"
  | NUnnamed => B "has no name of its own (PostgreSQL names such a column ?column?)"
  | NOutsideBmp => B "has a character beyond the Basic Multilingual Plane, which MySQL does not accept in a name"
  | NDuplicate => B "appears more than once"
  end.
Record NameFault := MkFault { nf_index : nat; nf_error : NameError }.

(** [chars().count()]: the bytes that start a character; a character beyond the Basic Multilingual
    Plane is one of four bytes. *)
Definition char_count (s : bytes) : nat := List.length (List.filter (fun b => negb (is_continuation b)) s).
Definition outside_bmp (s : bytes) : bool := existsb (fun b => (240 <=? b)%Z) s.

Definition check (t : Target) (name : bytes) : option NameError :=
  match name with
  | [] => Some NEmpty
  | _ =>
      if existsb (fun b => b =b NUL) name then Some NNul
      else match t with
      | TPostgres =>
          if 63 <? length name then Some (NTooLong 63 "bytes")
          else if bytes_eqb name (B "?column?") then Some NUnnamed else None
      | TMysql =>
          if 64 <? char_count name then Some (NTooLong 64 "characters")
          else if ends_with name SP then Some NTrailingSpace
          else if outside_bmp name then Some NOutsideBmp else None
      end
  end.
Definition checked (t : Target) (name : bytes) : NameError + bytes :=
  match check t name with Some e => inl e | None => inr (ident t name) end.
Fixpoint qualified_loop (t : Target) (index : nat) (parts : list bytes) : NameFault + list bytes :=
  match parts with
  | [] => inr []
  | part :: parts =>
      match checked t part with
      | inl e => inl (MkFault index e)
      | inr w => match qualified_loop t (S index) parts with inl f => inl f | inr ws => inr (w :: ws) end
      end
  end.
Definition qualified (t : Target) (parts : list bytes) : NameFault + bytes :=
  match qualified_loop t 0 parts with inl f => inl f | inr ws => inr (join_sep [DOT] ws) end.

(** [str::to_lowercase] and the [{:?}] of a string, by Unicode's tables. *)
Class Unicode := { to_lowercase : bytes -> bytes; debug : bytes -> bytes }.
Section Columns.
Context `{Unicode}.
Definition name_key (t : Target) (name : bytes) : bytes := match t with TPostgres => name | TMysql => to_lowercase name end.
(** [seen]: the keys of the names before. *)
Fixpoint check_columns_loop (t : Target) (index : nat) (seen : list bytes) (names : list bytes) : option NameFault :=
  match names with
  | [] => None
  | name :: names =>
      match check t name with
      | Some e => Some (MkFault index e)
      | None =>
          let key := name_key t name in
          if existsb (bytes_eqb key) seen then Some (MkFault index NDuplicate)
          else check_columns_loop t (S index) (key :: seen) names
      end
  end.
Definition check_columns (t : Target) (names : list bytes) : option NameFault := check_columns_loop t 0 [] names.
End Columns.
