(* ===== verification/Types.v ===== *)
(** * Types: what a column of a result is created as in the other database,
    [crates/qh-ffi/src/transfer/types.rs].

    [map_type] gives every source type its one outcome in a dialect, [plan_table] checks the names,
    maps every column and fits a MySQL row into its bytes, and [create_table_sql] writes the
    statement from the plan and from nothing the source sent. *)
From S2P Require Import Prelude Bytes Text Ident Guard SqlType Names.
#[local] Open Scope nat_scope.
#[local] Set Warnings "-register-all".

Definition target_of (kind : DriverKind) : option Target :=
  match kind with DPostgres => Some TPostgres | DMysql => Some TMysql | DTrino => None end.
Definition target_label (t : Target) : string := match t with TPostgres => "PostgreSQL" | TMysql => "MySQL" end.
#[export] Instance DriverKind_eq_dec : EqDecision DriverKind.
Proof. solve_decision. Defined.

Inductive TextSize := SizeText | SizeMedium | SizeLong.
#[export] Instance TextSize_eq_dec : EqDecision TextSize.
Proof. solve_decision. Defined.

Inductive TargetType :=
| Boolean
| Int (int_size : Z) (int_unsigned : bool)
| Numeric (digits : option Z) (places : Z)
| FloatT (double : bool)
| Varchar (n : Z)
| Char (n : Z)
| Text (size : TextSize)
| Binary (n : option Z)
| Uuid
| Date
| Time (digits : Z)
| TimeTz (digits : Z)
| Timestamp (digits : Z)
| TimestampTz (digits : Z)
| DateTime (digits : Z)
| Interval
| TJson
| Jsonb
| Array (inner : TargetType)
| Builtin (kind : PgBuiltin) (bits : option Z).
#[export] Instance TargetType_eq_dec : EqDecision TargetType.
Proof. solve_decision. Defined.

(** [name(n)] *)
Definition sized (name : string) (n : Z) : bytes := B name ++ B "(" ++ decimal n ++ B ")".
Definition sized2 (name : string) (p s : Z) : bytes := B name ++ B "(" ++ decimal p ++ B "," ++ decimal s ++ B ")".
Definition int_name (bytes : Z) : option string :=
  match bytes with
  | 1 => Some "tinyint" | 2 => Some "smallint" | 3 => Some "mediumint" | 4 => Some "int" | 8 => Some "bigint" | _ => None
  end%Z.
Fixpoint render (ty : TargetType) (t : Target) : option bytes :=
  match t, ty with
  | TPostgres, Boolean => Some (B "boolean")
  | TMysql, Boolean => Some (B "tinyint(1)")
  | TPostgres, Int n false =>
      match n with
      | 2 => Some (B "smallint") | 4 => Some (B "integer") | 8 => Some (B "bigint") | _ => None
      end%Z
  | TPostgres, Int _ true => None
  | TMysql, Int n u => (fun name => if u : bool then B name ++ B " unsigned" else B name) <$> int_name n
  | TPostgres, Numeric None _ => Some (B "numeric")
  | TPostgres, Numeric (Some p) s => Some (sized2 "numeric" p s)
  | TMysql, Numeric (Some p) s => Some (sized2 "decimal" p s)
  | TMysql, Numeric None _ => None
  | TPostgres, FloatT false => Some (B "real")
  | TPostgres, FloatT true => Some (B "double precision")
  | TMysql, FloatT false => Some (B "float")
  | TMysql, FloatT true => Some (B "double")
  | _, Varchar n => Some (sized "varchar" n)
  | _, Char n => Some (sized "char" n)
  | TPostgres, Text _ => Some (B "text")
  | TMysql, Text SizeText => Some (B "text")
  | TMysql, Text SizeMedium => Some (B "mediumtext")
  | TMysql, Text SizeLong => Some (B "longtext")
  | TPostgres, Binary _ => Some (B "bytea")
  | TMysql, Binary (Some n) => Some (sized "varbinary" n)
  | TMysql, Binary None => Some (B "longblob")
  | TPostgres, Uuid => Some (B "uuid")
  | TMysql, Uuid => None
  | _, Date => Some (B "date")
  | _, Time d => Some (sized "time" d)
  | TPostgres, TimeTz d => Some (sized "timetz" d)
  | TPostgres, Timestamp d => Some (sized "timestamp" d)
  | TPostgres, TimestampTz d => Some (sized "timestamptz" d)
  | TMysql, DateTime d => Some (sized "datetime" d)
  | TPostgres, Interval => Some (B "interval")
  | _, TJson => Some (B "json")
  | TPostgres, Jsonb => Some (B "jsonb")
  | TPostgres, Array inner => (fun s => s ++ B "[]") <$> render inner t
  | TPostgres, Builtin kind bits =>
      match bits, kind with
      | Some n, (Bit | Varbit) => Some (sized (ddl_name kind) n)
      | _, _ => Some (B (ddl_name kind))
      end
  | _, _ => None
  end.

Record Resolved := MkResolved { ty : TargetType; ddl : bytes }.
Inductive Mapping :=
| Exact (r : Resolved)
| Widened (r : Resolved) (note : bytes)
| TextFallback (r : Resolved) (note : bytes)
| Refuse (reason : bytes).
Inductive Outcome := OExact | OWidened | OTextFallback | ORefuse.
#[export] Instance Outcome_eq_dec : EqDecision Outcome.
Proof. solve_decision. Defined.

Definition outcome (m : Mapping) : Outcome :=
  match m with
  | Exact _ => OExact | Widened _ _ => OWidened | TextFallback _ _ => OTextFallback | Refuse _ => ORefuse
  end.
Definition resolved (m : Mapping) : option Resolved :=
  match m with Exact r | Widened r _ | TextFallback r _ => Some r | Refuse _ => None end.
Definition note (m : Mapping) : option bytes :=
  match m with Exact _ => None | Widened _ n | TextFallback _ n | Refuse n => Some n end.

Definition resolve (x : TargetType) (t : Target) : Mapping + Resolved :=
  match render x t with
  | Some d => inr (MkResolved x d)
  | None => inl (Refuse (B (target_label t) ++ B " has no such column type"))
  end.
Definition exact (x : TargetType) (t : Target) : Mapping :=
  match resolve x t with inl refusal => refusal | inr r => Exact r end.
Definition widened (x : TargetType) (t : Target) (n : string) : Mapping :=
  match resolve x t with inl refusal => refusal | inr r => Widened r (B n) end.
Definition fallback (x : TargetType) (t : Target) (n : string) : Mapping :=
  match resolve x t with inl refusal => refusal | inr r => TextFallback r (B n) end.
Definition refuse (reason : string) : Mapping := Refuse (B reason).

Definition PG_VARCHAR_MAX : Z := 10485760.
Definition MYSQL_VARCHAR_MAX : Z := 16383.
Definition MYSQL_DECIMAL_DIGITS : Z := 65.
Definition MYSQL_DECIMAL_SCALE : Z := 30.
Definition PG_NUMERIC_DIGITS : Z := 1000.
Definition MAX_FRACTION : Z := 6.

Definition mysql_text_for (chars : option Z) : TargetType :=
  match chars with
  | None => Text SizeLong
  | Some n => if (n <=? MYSQL_VARCHAR_MAX)%Z then Varchar n
              else if (n * 4 <=? 16777215)%Z then Text SizeMedium else Text SizeLong
  end.

Definition map_decimal_scaled (p : option Z) (s : Z) (t : Target) : Mapping :=
  match t, p with
  | TPostgres, None => exact (Numeric None 0) t
  | TPostgres, Some p =>
      if ((p =b 0) || (PG_NUMERIC_DIGITS <? p) || (p <? s))%Z then refuse "a decimal PostgreSQL cannot declare"
      else exact (Numeric (Some p) s) t
  | TMysql, None =>
      widened (Numeric (Some MYSQL_DECIMAL_DIGITS) MYSQL_DECIMAL_SCALE) t
        "a decimal of no declared size is written as decimal(65,30); a value with more than 30 decimals or 35 whole digits is refused"
  | TMysql, Some p =>
      if ((p =b 0) || (MYSQL_DECIMAL_DIGITS <? p) || (MYSQL_DECIMAL_SCALE <? s) || (p <? s))%Z then
        refuse "a decimal beyond MySQL's 65 digits or 30 decimals"
      else exact (Numeric (Some p) s) t
  end.
Definition map_decimal (sql : SqlType) (t : Target) : Mapping :=
  match scale sql with
  | None => map_decimal_scaled (precision sql) 0%Z t
  | Some s => if (0 <=? s)%Z then map_decimal_scaled (precision sql) s t else refuse "a decimal with a negative scale"
  end.

Definition map_int (bytes : Z) (u : bool) (t : Target) : Mapping :=
  match t with
  | TMysql => exact (Int bytes u) t
  | TPostgres =>
      match bytes, u with
      | (2 | 4 | 8), false => exact (Int bytes u) t
      | 1, _ => widened (Int 2 false) t "PostgreSQL has no one-byte integer; written as smallint"
      | 2, true => widened (Int 4 false) t "PostgreSQL has no unsigned integers; written as integer"
      | 3, _ => widened (Int 4 false) t "PostgreSQL has no three-byte integer; written as integer"
      | 4, true => widened (Int 8 false) t "PostgreSQL has no unsigned integers; written as bigint"
      | _, _ => widened (Numeric (Some 20) 0) t "PostgreSQL has no unsigned bigint; written as numeric(20,0)"
      end%Z
  end.

Definition map_text (len : option Z) (t : Target) : Mapping :=
  match t, len with
  | TPostgres, None => exact (Text SizeText) t
  | TPostgres, Some n =>
      if (n <=? PG_VARCHAR_MAX)%Z then exact (Varchar n) t
      else widened (Text SizeText) t "the length is beyond PostgreSQL's varchar limit; written as text"
  | TMysql, None => widened (Text SizeLong) t "text of no declared length is written as longtext"
  | TMysql, Some n =>
      let wanted := mysql_text_for (Some n) in
      if bool_decide (wanted = Varchar n) then exact wanted t
      else widened wanted t "the length is beyond a MySQL varchar row; written as a text type"
  end.
Definition map_char (len : option Z) (source : DriverKind) (t : Target) : Mapping :=
  match t, len with
  | _, None => refuse "a char column without a length"
  | TPostgres, Some n =>
      if (n <=? PG_VARCHAR_MAX)%Z then exact (Char n) t else refuse "a char column longer than PostgreSQL allows"
  | TMysql, Some n =>
      if (n <=? 255)%Z then
        if bool_decide (source = DMysql) then exact (Char n) t
        else widened (Char n) t "MySQL does not keep the padding of a char value"
      else widened (mysql_text_for (Some n)) t "the length is beyond MySQL's char limit; written as varchar"
  end.
Definition map_binary (len : option Z) (t : Target) : Mapping :=
  let long := widened (Binary None) t "binary data of no fitting length is written as longblob" in
  match t, len with
  | TPostgres, _ => exact (Binary None) t
  | TMysql, Some n => if (n <=? 65535)%Z then exact (Binary (Some n)) t else long
  | TMysql, None => long
  end.

Definition too_fine : Mapping := refuse "fractional seconds beyond microseconds are not carried".
Definition map_timestamp (digits : Z) (session : bool) (t : Target) : Mapping :=
  let note := "a MySQL timestamp is the wall clock of the source session's time zone" in
  match t, session with
  | TPostgres, false => exact (Timestamp digits) t
  | TPostgres, true => fallback (Timestamp digits) t note
  | TMysql, false => exact (DateTime digits) t
  | TMysql, true => fallback (DateTime digits) t note
  end.
Definition json_note : string :=
  "MySQL json normalises key order and spacing, and keeps a number only as a 64-bit integer or a double (a value with any other number is refused)".
Definition map_composite (row : bool) (t : Target) : Mapping :=
  match t with
  | TPostgres =>
      fallback Jsonb t (if row then "a row is written as a jsonb array; its field names are not kept"
                        else "a map is written as a jsonb object")
  | TMysql =>
      fallback TJson t
        (if row then "a row is written as a json array; its field names are not kept, and its numbers are kept only as 64-bit integers or doubles"
         else "a map is written as a json object; its numbers are kept only as 64-bit integers or doubles, so a decimal a double cannot hold is refused")
  end.
Definition map_builtin (kind : PgBuiltin) (len : option Z) (source : DriverKind) (t : Target) : Mapping :=
  match t, source with
  | TPostgres, DPostgres =>
      let bits := match kind with Bit | Varbit => len | _ => None end in
      if bool_decide (kind = Bit) && bool_decide (bits = None) then refuse "a bit column without a length"
      else exact (Builtin kind bits) t
  | _, _ => refuse "this PostgreSQL type can only be written to PostgreSQL"
  end.

(** [map_array] is the [BArray] case: an element with an exact PostgreSQL type gives its array. *)
Fixpoint map_type (sql : SqlType) (source : DriverKind) (t : Target) : Mapping :=
  let digits := fraction sql in
  let carried m := if (MAX_FRACTION <? digits)%Z then too_fine else m in
  match base sql with
  | BBool =>
      match t with TPostgres => exact Boolean t | TMysql => widened Boolean t "boolean is written as tinyint(1)" end
  | BInt8 | BInt16 | BInt24 | BInt32 | BInt64 => map_int (default 8%Z (int_bytes (base sql))) (unsigned sql) t
  | BFloat32 =>
      match source with
      | DMysql => refuse "MySQL sends a FLOAT as text rounded to 6 significant digits, so its value cannot be copied exactly; a DOUBLE column is copied exactly"
      | _ => exact (FloatT false) t
      end
  | BFloat64 =>
      match source, decimals sql with
      | DMysql, Some _ => refuse "MySQL sends a DOUBLE column or expression declared with a fixed number of decimals as text rounded to them, so its value cannot be copied exactly; a plain DOUBLE column is copied exactly"
      | _, _ => exact (FloatT true) t
      end
  | BDecimal => map_decimal sql t
  | BText => map_text (length sql) t
  | BChar => map_char (length sql) source t
  | BBinary => map_binary (length sql) t
  | BUuid =>
      match t with
      | TPostgres => exact Uuid t
      | TMysql => fallback (Char 36) t "MySQL has no uuid type; written as char(36) text"
      end
  | BDate => exact Date t
  | BTime => carried (exact (Time digits) t)
  | BTimeTz =>
      carried match source, t with
              | DTrino, _ => refuse "the Trino driver cannot read a time with time zone"
              | _, TPostgres => exact (TimeTz digits) t
              | _, TMysql => refuse "MySQL has no time with a time zone"
              end
  | BTimestamp => carried (map_timestamp digits (bool_decide (time_zone sql = ZSession)) t)
  | BTimestampTz =>
      carried match t with
              | TPostgres => exact (TimestampTz digits) t
              | TMysql => fallback (DateTime digits) t "MySQL has no time zone in a datetime; written as the UTC wall clock"
              end
  | BInterval => match t with TPostgres => exact Interval t | TMysql => refuse "MySQL has no interval type" end
  | BJson => match t with TPostgres => exact TJson t | TMysql => widened TJson t json_note end
  | BJsonb => match t with TPostgres => exact Jsonb t | TMysql => widened TJson t json_note end
  | BArray =>
      match t with
      | TPostgres =>
          let typed :=
            match element sql with
            | Some e =>
                match base e with
                | BArray | BMap | BRow => None
                | _ => match map_type e source TPostgres with Exact r => Some (ty r) | _ => None end
                end
            | None => None
            end in
          match typed, source with
          | Some inner, _ => exact (Array inner) t
          | None, DPostgres => refuse "the PostgreSQL driver hands an array over as text, which can only be written to an array of an element type that is written exactly"
          | None, _ => fallback Jsonb t "an array of this element type is written as jsonb"
          end
      | TMysql =>
          match source with
          | DPostgres => refuse "the PostgreSQL driver hands an array over as text, and turning that text into JSON is not built"
          | _ => fallback TJson t "MySQL has no array type; written as json, whose numbers are kept only as 64-bit integers or doubles"
          end
      end
  | BMap => map_composite false t
  | BRow => map_composite true t
  | BEnum | BSet =>
      match t with
      | TPostgres => fallback (Text SizeText) t "an enumerated value is written as text"
      | TMysql => fallback (Varchar 255) t "an enumerated value is written as varchar(255)"
      end
  | BBuiltin kind => map_builtin kind (length sql) source t
  | BOther => refuse "this column type has no faithful counterpart"
  end.

(** ** The table *)

Record PlannedColumn := MkColumn {
  pc_name : bytes; pc_ty : SqlType; pc_source : DriverKind; pc_target : Target; pc_resolved : Resolved;
  pc_outcome : Outcome; pc_note : option bytes }.
Definition from_mapping (name : bytes) (sql : SqlType) (source : DriverKind) (t : Target) (m : Mapping)
  : bytes + PlannedColumn :=
  match m with
  | Exact r | Widened r _ | TextFallback r _ => inr (MkColumn name sql source t r (outcome m) (note m))
  | Refuse reason => inl reason
  end.
Record Change := MkChange { ch_column : bytes; ch_from : bytes; ch_to : bytes; ch_note : bytes }.
Record TablePlan := MkTable { tp_target : Target; tp_columns : list PlannedColumn }.
Record Refusal := MkRefusal { rf_column : option nat; rf_reason : bytes }.

Definition describe (sql : SqlType) : bytes := match native sql with [] => B (base_label (base sql)) | n => n end.

Definition decimal_bytes (digits : Z) : Z :=
  (digits / 9 * 4 + nth (Z.to_nat (digits mod 9)) [0; 1; 1; 2; 2; 3; 3; 4; 4] 0)%Z.
Definition div_ceil2 (n : Z) : Z := ((n + 1) / 2)%Z.
Definition mysql_row_bytes (x : TargetType) : Z :=
  match x with
  | Boolean => 1
  | Int n _ => n
  | Numeric p s => decimal_bytes (Z.max 0 (default MYSQL_DECIMAL_DIGITS p - s)) + decimal_bytes s
  | FloatT double => if double then 8 else 4
  | Varchar n => n * 4 + (if (255 <? n * 4)%Z then 2 else 1)
  | Char n => n * 4
  | Binary (Some n) => n + (if (255 <? n)%Z then 2 else 1)
  | Date => 3
  | Time d => 3 + div_ceil2 d
  | DateTime d => 5 + div_ceil2 d
  | _ => 12
  end%Z.
Definition MYSQL_ROW_LIMIT : Z := 65535.
Definition row_bytes (columns : list PlannedColumn) : Z :=
  foldr Z.add 0%Z ((fun c => mysql_row_bytes (ty (pc_resolved c))) <$> columns).

Definition mysql_text_size_for (n : Z) : TargetType :=
  if (n * 4 <=? 65535)%Z then Text SizeText
  else if (n * 4 <=? 16777215)%Z then Text SizeMedium
  else Text SizeLong.
(** What a column can be demoted to, if it can be. *)
Definition demotion (x : TargetType) : option (TargetType * string) :=
  match x with
  | Binary (Some _) => Some (Binary None, "written as longblob so the row fits MySQL's 65,535 bytes")
  | Varchar n | Char n =>
      Some (mysql_text_size_for n, "written as a text type so the row fits MySQL's 65,535 bytes")
  | _ => None
  end.
(** [filter_map(..).max_by_key(..)]: of the widest, the last. *)
Fixpoint widest (index : nat) (best : option (Z * nat * TargetType * string)) (columns : list PlannedColumn)
  : option (Z * nat * TargetType * string) :=
  match columns with
  | [] => best
  | c :: columns =>
      let x := ty (pc_resolved c) in
      let best := match demotion x with
                  | None => best
                  | Some (d, n) =>
                      let mine := Some (mysql_row_bytes x, index, d, n) in
                      match best with
                      | Some (width, _, _, _) => if (width <=? mysql_row_bytes x)%Z then mine else best
                      | None => mine
                      end
                  end in
      widest (S index) best columns
  end.
Definition demote (d : TargetType) (text : bytes) (n : string) (c : PlannedColumn) : PlannedColumn :=
  MkColumn (pc_name c) (pc_ty c) (pc_source c) (pc_target c) (MkResolved d text)
    (if bool_decide (pc_outcome c = OExact) then OWidened else pc_outcome c)
    (Some (match pc_note c with Some old => old ++ B "; " ++ B n | None => B n end)).
(** A turn demotes one column to a type that is not demoted again, so [fuel] beyond the number of
    columns is never used up ([fit_mysql_row_terminates]). *)
Fixpoint fit_mysql_row_loop (fuel : nat) (columns : list PlannedColumn) : option (Refusal + list PlannedColumn) :=
  if (row_bytes columns <=? MYSQL_ROW_LIMIT)%Z then Some (inr columns)
  else match fuel with
  | O => None
  | S fuel =>
      match widest 0 None columns with
      | None => Some (inl (MkRefusal None
          (B "the row is wider than MySQL's 65,535 bytes even with every long column written as a text type")))
      | Some (_, index, demoted, n) =>
          match render demoted TMysql with
          | None => Some (inl (MkRefusal (Some index) (B "a column type MySQL cannot declare")))
          | Some d => fit_mysql_row_loop fuel (alter (demote demoted d n) index columns)
          end
      end
  end.
Definition fit_mysql_row (columns : list PlannedColumn) : option (Refusal + list PlannedColumn) :=
  fit_mysql_row_loop (S (List.length columns)) columns.

Section Plan.
Context `{Unicode}.
Fixpoint plan_columns (source : DriverKind) (t : Target) (index : nat) (columns : list (bytes * SqlType))
  : Refusal + list PlannedColumn :=
  match columns with
  | [] => inr []
  | (name, sql) :: columns =>
      match from_mapping name sql source t (map_type sql source t) with
      | inl reason =>
          inl (MkRefusal (Some index)
                 (B "column " ++ debug name ++ B " (" ++ describe sql ++ B ") cannot be written to "
                  ++ B (target_label t) ++ B " faithfully: " ++ reason))
      | inr column =>
          match plan_columns source t (S index) columns with inl r => inl r | inr cs => inr (column :: cs) end
      end
  end.
Definition plan_table (source : DriverKind) (t : Target) (columns : list (bytes * SqlType))
  : option (Refusal + TablePlan) :=
  let names := fst <$> columns in
  match check_columns t names with
  | Some fault =>
      Some (inl (MkRefusal (Some (nf_index fault))
        (B "column " ++ debug (nth (nf_index fault) names []) ++ B " " ++ name_error_text (nf_error fault))))
  | None =>
      match plan_columns source t 0 columns with
      | inl r => Some (inl r)
      | inr planned =>
          match t with
          | TMysql =>
              match fit_mysql_row planned with
              | None => None
              | Some (inl r) => Some (inl r)
              | Some (inr planned) => Some (inr (MkTable t planned))
              end
          | TPostgres => Some (inr (MkTable t planned))
          end
      end
  end.
End Plan.

Definition changes (p : TablePlan) (wanted : Outcome) : list Change :=
  (fun c => MkChange (pc_name c) (describe (pc_ty c)) (ddl (pc_resolved c)) (default [] (pc_note c)))
    <$> List.filter (fun c => bool_decide (pc_outcome c = wanted)) (tp_columns p).
Definition fallbacks (p : TablePlan) : list Change := changes p OTextFallback.
Definition widenings (p : TablePlan) : list Change := changes p OWidened.
Definition create_table_sql (p : TablePlan) (table : bytes) : bytes :=
  B "CREATE TABLE " ++ table ++ B " ("
  ++ join_sep (B ", ") ((fun c => ident (tp_target p) (pc_name c) ++ [SP] ++ ddl (pc_resolved c)) <$> tp_columns p)
  ++ B ")" ++ match tp_target p with TPostgres => [] | TMysql => B " DEFAULT CHARSET=utf8mb4" end.
