(* ===== verification/Encode.v ===== *)
(** * Encode: a value as the target takes it, or refused, [crates/qh-ffi/src/transfer/encode.rs].

    [copy_row] writes a row for PostgreSQL's [COPY .. FROM STDIN], [mysql_row] the parameters of a
    MySQL [INSERT]; nothing is rounded on the way, and a refusal names a rule and never a value.
    The fuel of the recursive scanners is shown enough in [EncodeSpec]. *)
From S2P Require Import Prelude Bytes Text Ident Guard Dates Value Json SqlType Names Types.
#[local] Open Scope nat_scope.
#[local] Set Warnings "-register-all".

Inductive Rule :=
| WrongKind (expected : string)
| Nul
| OutOfRange (what : string)
| Scale (value target : Z)
| WholeDigits (max : Z)
| TooLong (max : Z) (unit_ : string)
| NonFinite
| Fraction (max : Z)
| DuplicateKey
| JsonNumber
| NotJson
| ArrayBounds
| NotAnArray
| NotCanonical (what : string)
| TooDeep
| Arity.
Definition rule_kind (r : Rule) : string :=
  match r with
  | WrongKind _ => "wrong_kind" | Nul => "nul" | OutOfRange _ => "out_of_range" | Scale _ _ => "scale"
  | WholeDigits _ => "whole_digits" | TooLong _ _ => "too_long" | NonFinite => "non_finite" | Fraction _ => "fraction"
  | DuplicateKey => "duplicate_key" | JsonNumber => "json_number" | NotJson => "not_json"
  | ArrayBounds => "array_bounds" | NotAnArray => "not_an_array" | NotCanonical _ => "not_canonical"
  | TooDeep => "too_deep" | Arity => "arity"
  end.
Definition rule_text (r : Rule) : bytes :=
  match r with
  | WrongKind expected => B "the value is not " ++ B expected ++ B "; the driver could not read it as the column's type"
  | Nul => B "PostgreSQL cannot store U+0000 in text"
  | OutOfRange what => B what
  | Scale value target => B "scale " ++ decimal value ++ B " exceeds the target's " ++ decimal target
  | WholeDigits max => B "more than " ++ decimal max ++ B " digits before the decimal point"
  | TooLong max u => B "longer than the column's " ++ decimal max ++ B " " ++ B u
  | NonFinite => B "NaN and infinity have no counterpart in the target"
  | Fraction max => B "has more than the column's " ++ decimal max ++ B " fractional-second digits"
  | DuplicateKey => B "a JSON object repeats a key"
  | JsonNumber => B "a JSON number MySQL would round: it keeps only 64-bit integers and doubles"
  | NotJson => B "the text is not valid JSON"
  | ArrayBounds => B "an array whose lower bound is not 1 cannot be written as is"
  | NotAnArray => B "the text is not a PostgreSQL array literal"
  | NotCanonical what => B "not a canonical " ++ B what
  | TooDeep => B "nested too deeply to convert"
  | Arity => B "the row has a different number of values than the table"
  end.

Record Violation := MkViolation { vi_column : nat; vi_rule : Rule }.
Definition violation_text `{Unicode} (v : Violation) (columns : list PlannedColumn) (source_row : Z) : bytes :=
  B "column " ++ (match columns !! vi_column v with Some c => debug (pc_name c) | None => [] end)
  ++ B ", source row " ++ decimal source_row ++ B ": " ++ rule_text (vi_rule v).

Local Notation "'let?' x := e 'in' k" :=
  (match e with inl r => inl r | inr x => k end) (at level 10, x name, k at level 200).
Local Notation "'need' e ; k" :=
  (match e with Some r => inl r | None => k end) (at level 10, k at level 200).
Definition wrong (expected : string) : Rule := WrongKind expected.
Definition is_pg (source : DriverKind) : bool := bool_decide (source = DPostgres).

(** ** Rules both targets share *)

Definition no_nul (text : bytes) : option Rule := if existsb (fun b => b =b NUL) text then Some Nul else None.

(** [decimal_text]'s loop: [scale] is a [u8] and falls by one a turn. *)
Fixpoint drop_zeros (fuel : nat) (unscaled scale target_scale : Z) : Z * Z :=
  match fuel with
  | S fuel =>
      if ((target_scale <? scale) && (Z.rem unscaled 10 =b 0))%Z then
        drop_zeros fuel (Z.quot unscaled 10) (scale - 1)%Z target_scale
      else (unscaled, scale)
  | O => (unscaled, scale)
  end.
Definition decimal_text (unscaled scale : Z) (precision : option Z) (target_scale : Z) : Rule + bytes :=
  match precision with
  | None => inr (write_decimal unscaled scale [])
  | Some precision =>
      let '(unscaled, scale) := drop_zeros (Z.to_nat scale) unscaled scale target_scale in
      if (target_scale <? scale)%Z then inl (Scale scale target_scale)
      else
        let digits := Z.of_nat (List.length (decimal (Z.abs unscaled))) in
        let whole := Z.max 0 (digits - scale) in
        let max := Z.max 0 (precision - target_scale) in
        if (negb (unscaled =b 0) && (max <? whole))%Z then inl (WholeDigits max)
        else inr (write_decimal unscaled scale [])
  end.

Definition fraction_fits (micros digits : Z) : option Rule :=
  if (6 <=? digits)%Z then None
  else if (micros mod 10 ^ (6 - digits) =b 0)%Z then None else Some (Fraction digits).

Definition date_text (days low high : Z) : Rule + bytes :=
  let '(year, month, day) := civil_from_days days in
  if ((year <? low) || (high <? year))%Z then
    inl (OutOfRange (if (1000 <=? low)%Z then "a date outside 1000-01-01 to 9999-12-31" else "a date before year 1"))
  else inr (pad0 4 year ++ B "-" ++ pad0 2 month ++ B "-" ++ pad0 2 day).

Definition clock_text (micros : Z) : bytes :=
  let micros := Z.abs micros in
  let seconds := (micros / 1000000)%Z in
  let fraction := (micros mod 1000000)%Z in
  let text := pad0 2 (seconds / 3600) ++ B ":" ++ pad0 2 (seconds / 60 mod 60) ++ B ":" ++ pad0 2 (seconds mod 60) in
  if (fraction =b 0)%Z then text else text ++ B "." ++ pad0 6 fraction.
Definition signed_clock_text (micros : Z) : bytes :=
  if (micros <? 0)%Z then B "-" ++ clock_text micros else clock_text micros.

Definition timestamp_text (micros digits low high : Z) : Rule + bytes :=
  need fraction_fits micros digits;
  let days := (micros / 86400000000)%Z in
  let within := (micros mod 86400000000)%Z in
  if ((days <? - 2 ^ 31) || (2 ^ 31 - 1 <? days))%Z then inl (OutOfRange "a timestamp beyond the supported years")
  else
    let? date := date_text days low high in
    inr (date ++ B " " ++ clock_text within).

Definition interval_text (i : IntervalValue) : bytes :=
  let magnitude := Z.abs (iv_micros i) in
  let whole := (magnitude / 1000000)%Z in
  let fraction := (magnitude mod 1000000)%Z in
  let sign := if (iv_micros i <? 0)%Z then B "-" else [] in
  let seconds := if (fraction =b 0)%Z then sign ++ decimal whole
                 else sign ++ decimal whole ++ B "." ++ pad0 6 fraction in
  B "P" ++ signed (months i) ++ B "M" ++ signed (iv_days i) ++ B "DT" ++ seconds ++ B "S".

(** ** The closed spellings *)

Definition all_digits (text : bytes) : bool := forallb is_ascii_digit text.
Definition digits_between (text : bytes) (min max : nat) : bool :=
  (min <=? List.length text) && (List.length text <=? max) && all_digits text.
Definition is_numeric_special (text : bytes) : bool :=
  existsb (fun s => bytes_eqb text (B s)) ["NaN"; "Infinity"; "-Infinity"].
Definition is_pg_infinity (text : bytes) : bool := existsb (fun s => bytes_eqb text (B s)) ["infinity"; "-infinity"].
Definition clock_prefix (text : bytes) : option nat :=
  if List.length text <? 8 then None
  else
    let at_ p i := match text !! i with Some b => p b | None => false end in
    if negb (forallb (at_ is_ascii_digit) [0; 1; 3; 4; 6; 7]
             && at_ (fun b => b =b COLON) 2 && at_ (fun b => b =b COLON) 5) then None
    else if at_ (fun b => b =b DOT) 8 then
      let fraction := count_while is_ascii_digit (drop 9 text) in
      if (1 <=? fraction) && (fraction <=? 6) then Some (9 + fraction) else None
    else Some 8.
Definition is_offset (text : bytes) : bool :=
  match text with
  | c :: rest =>
      if (c =b 43) || (c =b DASH) then
        match split_byte COLON rest with
        | hours :: parts =>
            digits_between hours 2 2 && ((List.length parts <=? 2) && forallb (fun p => digits_between p 2 2) parts)
        | [] => false
        end
      else false
  | [] => false
  end.
Definition is_iso_date (text : bytes) : bool :=
  match splitn 3 DASH text with
  | [year; month; day] =>
      (4 <=? List.length year) && all_digits year && digits_between month 2 2 && digits_between day 2 2
  | _ => false
  end.
Definition strip_bc (text : bytes) : option bytes :=
  if Text.ends_with text (B " BC") then Some (take (List.length text - 3) text) else None.
Definition is_iso_date_bc (text : bytes) : bool := match strip_bc text with Some t => is_iso_date t | None => false end.
Definition is_iso_timestamp_bc (text : bytes) (zoned : bool) : bool :=
  match strip_bc text with
  | None => false
  | Some body =>
      match split_once (fun b => b =b SP) body with
      | None => false
      | Some (date, rest) =>
          if negb (is_iso_date date) then false
          else match clock_prefix rest with
          | None => false
          | Some clock =>
              let tail := drop clock rest in
              if zoned then is_offset tail else match tail with [] => true | _ => false end
          end
      end
  end.
Definition is_timetz (text : bytes) : bool :=
  match clock_prefix text with Some clock => is_offset (drop clock text) | None => false end.
Definition is_uuid (text : bytes) : bool :=
  let groups := split_byte DASH text in
  (List.length groups =? 5)
  && forallb (fun e => (List.length (snd e) =? fst e) && forallb is_ascii_hexdigit (snd e)) (zip [8; 4; 4; 4; 12] groups).

(** ** JSON text *)

(** The scanners take the characters from the position on. *)
Definition skip_space (s : list Z) : list Z := drop (count_while is_json_space s) s.
Definition hex_value (c : Z) : Z :=
  if is_ascii_digit c then (c - 48)%Z
  else if ((65 <=? c) && (c <=? 70))%Z then (c - 55)%Z
  else if ((97 <=? c) && (c <=? 102))%Z then (c - 87)%Z else 0%Z.
Definition read_hex4 (s : list Z) : Z * list Z :=
  (fold_left (fun code i => (code * 16 + match s !! i with Some c => hex_value c | None => 0 end)%Z) [0; 1; 2; 3] 0%Z,
   drop 4 s).
(** [char::from_u32] of a number below U+110000. *)
Definition scalar (code : Z) : Z := if ((55296 <=? code) && (code <? 57344))%Z then 65533%Z else code.
Definition low_surrogate (s : list Z) : option (Z * list Z) :=
  match s with
  | b :: u :: s =>
      if (b =b BACKSLASH) && (u =b 117) then
        let '(low, rest) := read_hex4 s in
        if ((56320 <=? low) && (low <? 57344))%Z then Some (low, rest) else None
      else None
  | _ => None
  end.
Fixpoint scan_string_loop (fuel : nat) (s : list Z) (decoded : list Z) : list Z * list Z :=
  match fuel, s with
  | S fuel, c :: s =>
      if c =b DQUOTE then (decoded, s)
      else if c =b BACKSLASH then
        match s with
        | [] => (decoded, s)
        | e :: s =>
            let push d := scan_string_loop fuel s (decoded ++ [d]) in
            if e =b 110 then push LF
            else if e =b 116 then push 9%Z
            else if e =b 114 then push CR
            else if e =b 98 then push 8%Z
            else if e =b 102 then push 12%Z
            else if e =b 117 then
              let '(code, s) := read_hex4 s in
              match if ((55296 <=? code) && (code <? 56320))%Z then low_surrogate s else None with
              | Some (low, s) =>
                  scan_string_loop fuel s
                    (decoded ++ [scalar (65536 + Z.shiftl (code - 55296) 10 + (low - 56320))])
              | None => scan_string_loop fuel s (decoded ++ [scalar code])
              end
            else push e
        end
      else scan_string_loop fuel s (decoded ++ [c])
  | _, _ => (decoded, s)
  end.
(** [s] is past the opening quote; each turn takes a character at least. *)
Definition scan_string (s : list Z) : list Z * list Z := scan_string_loop (List.length s) s [].

(** Where [scan_value] stands: at a value, in an object whose keys so far are these, in an array. *)
Inductive Place := AtValue | InObject (keys : list (list Z)) | InArray.
Definition ends_scalar (c : Z) : bool := (c =b COMMA) || (c =b 93) || (c =b 125) || is_json_space c.
(** [None] is a scan that has not ended. *)
Fixpoint scan (fuel : nat) (place : Place) (depth : nat) (s : list Z) : option (bool * list Z) :=
  match fuel with
  | O => None
  | S fuel =>
      match place with
      | AtValue =>
          if 256 <? depth then Some (true, s)
          else
            let s := skip_space s in
            match s with
            | [] => Some (false, s)
            | c :: rest =>
                if c =b 123 then scan fuel (InObject []) depth rest
                else if c =b 91 then scan fuel InArray depth rest
                else if c =b DQUOTE then Some (false, snd (scan_string rest))
                else Some (false, drop (count_while (fun c => negb (ends_scalar c)) s) s)
            end
      | InObject keys =>
          let s := skip_space s in
          match s with
          | c :: rest =>
              if c =b 125 then Some (false, rest)
              else if c =b COMMA then scan fuel place depth rest
              else if c =b DQUOTE then
                let '(key, s) := scan_string rest in
                if existsb (bytes_eqb key) keys then Some (true, s)
                else
                  let s := skip_space s in
                  let s := match s with c :: rest => if c =b COLON then rest else s | [] => s end in
                  match scan fuel AtValue (S depth) s with
                  | Some (true, s) => Some (true, s)
                  | Some (false, s) => scan fuel (InObject (key :: keys)) depth s
                  | None => None
                  end
              else Some (false, s)
          | [] => Some (false, s)
          end
      | InArray =>
          let s := skip_space s in
          match s with
          | [] => Some (false, s)
          | c :: rest =>
              if c =b 93 then Some (false, rest)
              else if c =b COMMA then scan fuel InArray depth rest
              else match scan fuel AtValue (S depth) s with
                   | Some (true, s) => Some (true, s)
                   | Some (false, s) => scan fuel InArray depth s
                   | None => None
                   end
          end
      end
  end.
(** Every call takes a character or enters a value, and a value takes one; a value that takes none
    is met in text that is not JSON only, which the callers parse first. *)
Definition scan_fuel (s : list Z) : nat := 2 * List.length s + 2.
Definition has_duplicate_keys (text : bytes) : bool :=
  let cs := chars text in
  match scan (scan_fuel cs) AtValue 0 cs with Some (repeats, _) => repeats | None => false end.

(** The whole numbers and the exponents of ten of a decimal number: [(negative, digits, power)]. *)
Definition decimal_value (token : bytes) : option (bool * bytes * Z) :=
  let '(negative, rest) := match strip_prefix token [DASH] with Some rest => (true, rest) | None => (false, token) end in
  match match split_once (fun b => (b =b 101) || (b =b 69)) rest with
        | Some (mantissa, exponent) => (fun e => (mantissa, e)) <$> parse_i64 exponent
        | None => Some (rest, 0%Z)
        end with
  | None => None
  | Some (mantissa, exponent) =>
      let '(whole, fraction) := match split_once (fun b => b =b DOT) mantissa with
                                | Some p => p
                                | None => (mantissa, [])
                                end in
      let power := (exponent - Z.of_nat (List.length fraction))%Z in
      if negb (fits_i64 power) then None
      else if negb (all_digits (whole ++ fraction)) then None
      else
        let digits := trim_start_matches (fun b => b =b 48) (whole ++ fraction) in
        let trimmed := trim_end_matches (fun b => b =b 48) digits in
        match trimmed with
        | [] => Some (false, [], 0%Z)
        | _ =>
            let power := (power + Z.of_nat (List.length digits - List.length trimmed))%Z in
            if negb (fits_i64 power) then None else Some (negative, trimmed, power)
        end
  end.

Fixpoint skip_string (s : bytes) : bytes :=
  match s with
  | [] => []
  | c :: s =>
      if c =b BACKSLASH then match s with [] => [] | _ :: s => skip_string s end
      else if c =b DQUOTE then s else skip_string s
  end.
Definition is_number_byte (b : Z) : bool :=
  is_ascii_digit b || (b =b DASH) || (b =b 43) || (b =b DOT) || (b =b 101) || (b =b 69).
Definition starts_number (b : Z) : bool := (b =b DASH) || is_ascii_digit b.

Definition json_string (text out : bytes) : bytes :=
  let escape b :=
    if b =b DQUOTE then [BACKSLASH; DQUOTE]
    else if b =b BACKSLASH then [BACKSLASH; BACKSLASH]
    else if b =b LF then B "\n"
    else if b =b CR then B "\r"
    else if b =b 9 then B "\t"
    else if (b <? 32)%Z then B "\u00" ++ [hex_digit (b / 16); hex_digit (b mod 16)]
    else [b] in
  out ++ [DQUOTE] ++ mjoin (escape <$> text) ++ [DQUOTE].

(** [serde_json::from_str], and what the code asks of a float besides [Float]: the [f32] nearest to
    it, widened again, which is infinite or zero when the [f32] is, and whether it is above zero. *)
Class Encoding `{Float} := {
  parse_json : bytes -> option Json;
  narrowed : f64 -> f64;
  above_zero : f64 -> bool }.

Inductive MysqlCell `{Float} := CNull | CInt (n : Z) | CUInt (n : Z) | CFloat (f : f64) | CText (t : bytes) | CBytes (b : bytes).

Section Encode.
Context `{Encoding}.

Definition is_finite (f : f64) : bool := negb (is_nan f) && negb (is_infinite f).

Definition mysql_keeps_number (token : bytes) : bool :=
  if negb (existsb (fun b => (b =b DOT) || (b =b 101) || (b =b 69)) token) then
    match parse_i64 token with Some _ => true | None => match parse_uint U64_MAX token with Some _ => true | None => false end end
  else
    match parse_f64 token with
    | None => false
    | Some nearest =>
        if negb (is_finite nearest) then false
        else match decimal_value token, decimal_value (display_exp nearest) with
             | Some (n1, d1, p1), Some (n2, d2, p2) => Bool.eqb n1 n2 && bytes_eqb d1 d2 && (p1 =b p2)%Z
             | _, _ => false
             end
    end.
Fixpoint numbers_loop (fuel : nat) (s : bytes) : option Rule :=
  match fuel, s with
  | S fuel, b :: rest =>
      if b =b DQUOTE then numbers_loop fuel (skip_string rest)
      else if starts_number b then
        let n := count_while is_number_byte s in
        if mysql_keeps_number (take n s) then numbers_loop fuel (drop n s) else Some JsonNumber
      else numbers_loop fuel rest
  | _, _ => None
  end.
Definition json_numbers_fit_mysql (text : bytes) : option Rule := numbers_loop (List.length text) text.

Definition json_valid (text : bytes) : Rule + Json := match parse_json text with Some j => inr j | None => inl NotJson end.
Fixpoint json_has_nul (j : Json) : bool :=
  match j with
  | JString t => existsb (fun b => b =b NUL) t
  | JArray items => existsb json_has_nul items
  | JObject entries => existsb (fun e => existsb (fun b => b =b NUL) (fst e) || json_has_nul (snd e)) entries
  | _ => false
  end.
Definition json_for_jsonb (text : bytes) : option Rule :=
  match no_nul text with Some r => Some r | None =>
  match json_valid text with
  | inl r => Some r
  | inr parsed =>
      if json_has_nul parsed then Some Nul
      else if has_duplicate_keys text then Some DuplicateKey else None
  end end.
Definition json_for_mysql (text : bytes) : option Rule :=
  match json_valid text with
  | inl r => Some r
  | inr _ => if has_duplicate_keys text then Some DuplicateKey else json_numbers_fit_mysql text
  end.

(** ** A map, a row or an array as JSON *)

Definition MAX_DEPTH : nat := 64.
Definition json_key (key : Value) : Rule + bytes :=
  match key with
  | VText t => inr t
  | VInt n => inr (signed n)
  | VUInt n => inr (decimal n)
  | VBool b => inr (if b then B "true" else B "false")
  | VDecimal u s => inr (write_decimal u s [])
  | VDate d => date_text d 1 99999999
  | _ => inl (wrong "a map key with a text form")
  end.
Fixpoint json_write (value : Value) (out : bytes) (depth : nat) : Rule + bytes :=
  if MAX_DEPTH <? depth then inl TooDeep
  else
    let items := fix items (first : bool) (vs : list Value) (out : bytes) : Rule + bytes :=
      match vs with
      | [] => inr out
      | v :: vs =>
          let? out := json_write v (if first then out else out ++ [COMMA]) (S depth) in
          items false vs out
      end in
    match value with
    | VNull => inr (out ++ B "null")
    | VBool b => inr (out ++ (if b then B "true" else B "false"))
    | VInt n => inr (out ++ signed n)
    | VUInt n => inr (out ++ decimal n)
    | VFloat f => if is_finite f then inr (out ++ display f) else inl NonFinite
    | VDecimal u s => inr (out ++ write_decimal u s [])
    | VText t => inr (json_string t out)
    | VDate d => let? t := date_text d 1 99999999 in inr (json_string t out)
    | VTime m => inr (json_string (clock_text m) out)
    | VTimestamp m o =>
        let? t := timestamp_text m 6 1 99999999 in
        inr (json_string (match o with Some _ => t ++ B "+00:00" | None => t end) out)
    | VJson t => let? _parsed := json_valid t in inr (out ++ t)
    | VArray vs | VRow vs => let? out := items true vs (out ++ [91%Z]) in inr (out ++ [93%Z])
    | VMap entries =>
        let pairs := fix pairs (first : bool) (es : list (Value * Value)) (seen : list bytes) (out : bytes) : Rule + bytes :=
          match es with
          | [] => inr out
          | (key, item) :: es =>
              let? key := json_key key in
              if existsb (bytes_eqb key) seen then inl DuplicateKey
              else
                let? out := json_write item (json_string key (if first then out else out ++ [COMMA]) ++ [COLON]) (S depth) in
                pairs false es (key :: seen) out
          end in
        let? out := pairs true entries [] (out ++ [123%Z]) in inr (out ++ [125%Z])
    | VBytes _ | VInterval _ => inl (wrong "a value with a JSON form")
    | VUnknown _ _ _ => inl (wrong "a value the driver could read")
    end.
Definition json_of_composite (b : Base) (value : Value) : Rule + bytes :=
  match b, value with
  | BArray, VArray _ | BRow, VRow _ | BMap, VMap _ => json_write value [] 0
  | BArray, _ => inl (wrong "an array")
  | BRow, _ => inl (wrong "a row")
  | _, _ => inl (wrong "a map")
  end.

(** ** PostgreSQL *)

Definition integer (sql : SqlType) (value : Value) : Rule + Z :=
  let? number := match value with VInt n | VUInt n => inr n | _ => inl (wrong "an integer") end in
  let bits := (default 8 (int_bytes (base sql)) * 8)%Z in
  let '(low, high) := if unsigned sql then (0, Z.shiftl 1 bits - 1)%Z
                      else (- Z.shiftl 1 (bits - 1), Z.shiftl 1 (bits - 1) - 1)%Z in
  if ((number <? low) || (high <? number))%Z then inl (OutOfRange "an integer outside its column's range")
  else inr number.

(** The quoted elements of an array literal: a quote and a backslash get a backslash before. *)
Definition array_escape (text : bytes) : bytes :=
  mjoin ((fun b => if (b =b DQUOTE) || (b =b BACKSLASH) then [BACKSLASH; b] else [b]) <$> text).
Fixpoint array_items (element : Value -> Rule + bytes) (first : bool) (vs : list Value) (literal : bytes) : Rule + bytes :=
  match vs with
  | [] => inr (literal ++ [125%Z])
  | v :: vs =>
      let literal := if first then literal else literal ++ [COMMA] in
      if is_null v then array_items element false vs (literal ++ B "NULL")
      else
        let? text := element v in
        array_items element false vs (literal ++ [DQUOTE] ++ array_escape text ++ [DQUOTE])
  end.
Definition checked_text (limit : option Rule) (t : bytes) : Rule + bytes :=
  match limit with Some r => inl r | None => inr t end.
Definition pg_text_value (x : TargetType) (t : bytes) : Rule + bytes :=
  let limit := match x with Varchar n | Char n => Some n | _ => None end in
  need no_nul t;
  match limit with
  | Some max => if (max <? Z.of_nat (char_count t))%Z then inl (TooLong max "characters") else inr t
  | None => inr t
  end.
Definition pg_float (f : f64) : bytes :=
  if is_nan f then B "NaN"
  else if is_infinite f then (if above_zero f then B "Infinity" else B "-Infinity")
  else display f.

Fixpoint pg_value (sql : SqlType) (x : TargetType) (source : DriverKind) (value : Value) {struct x} : Rule + bytes :=
  let pg_to_pg := is_pg source in
  match base sql, x with
  | BBool, _ => match value with VBool b => inr (if b then B "t" else B "f") | _ => inl (wrong "a boolean") end
  | (BInt8 | BInt16 | BInt24 | BInt32 | BInt64), _ => let? number := integer sql value in inr (signed number)
  | (BFloat32 | BFloat64), _ =>
      match value with VFloat f => inr (pg_float f) | _ => inl (wrong "a floating-point number") end
  | BDecimal, Numeric precision places =>
      match value with
      | VDecimal u s => decimal_text u s precision places
      | VText t =>
          if pg_to_pg && is_numeric_special t && (bytes_eqb t (B "NaN") || bool_decide (precision = None)) then inr t
          else inl (wrong "an exact decimal")
      | _ => inl (wrong "an exact decimal")
      end
  | (BText | BChar | BEnum | BSet), _ => match value with VText t => pg_text_value x t | _ => inl (wrong "text") end
  | BUuid, _ =>
      match value with
      | VText t => if is_uuid t then inr t else inl (NotCanonical "uuid")
      | _ => inl (wrong "a uuid")
      end
  | BBinary, _ => match value with VBytes b => inr (B "\x" ++ hex_encode b) | _ => inl (wrong "binary data") end
  | BDate, _ =>
      match value with
      | VDate d => date_text d 1 99999999
      | VText t => if pg_to_pg && (is_pg_infinity t || is_iso_date_bc t) then inr t else inl (wrong "a date")
      | _ => inl (wrong "a date")
      end
  | BTime, _ =>
      match value with
      | VTime m =>
          if negb ((0 <=? m) && (m <=? 86400000000))%Z then inl (OutOfRange "a time outside 00:00:00 to 24:00:00")
          else need fraction_fits m (fraction sql); inr (clock_text m)
      | _ => inl (wrong "a time")
      end
  | BTimeTz, _ =>
      match value with
      | VText t => if pg_to_pg && is_timetz t then inr t else inl (wrong "a time with time zone")
      | _ => inl (wrong "a time with time zone")
      end
  | BTimestamp, _ =>
      match value with
      | VTimestamp m None => timestamp_text m (fraction sql) 1 99999999
      | VText t => if pg_to_pg && (is_pg_infinity t || is_iso_timestamp_bc t false) then inr t
                   else inl (wrong "a timestamp without a zone")
      | _ => inl (wrong "a timestamp without a zone")
      end
  | BTimestampTz, _ =>
      match value with
      | VTimestamp m (Some _) => let? t := timestamp_text m (fraction sql) 1 99999999 in inr (t ++ B "+00:00")
      | VText t => if pg_to_pg && (is_pg_infinity t || is_iso_timestamp_bc t true) then inr t
                   else inl (wrong "a timestamp with a zone")
      | _ => inl (wrong "a timestamp with a zone")
      end
  | BInterval, _ => match value with VInterval i => inr (interval_text i) | _ => inl (wrong "an interval") end
  | BJson, _ =>
      match value with
      | VJson t => need no_nul t; let? _parsed := json_valid t in inr t
      | _ => inl (wrong "JSON")
      end
  | BJsonb, _ => match value with VJson t => checked_text (json_for_jsonb t) t | _ => inl (wrong "JSON") end
  | BArray, Array inner =>
      match value with
      | VText t =>
          if pg_to_pg then
            need no_nul t;
            if starts_with t [91%Z] then inl ArrayBounds
            else if starts_with t [123%Z] && Text.ends_with t [125%Z] then inr t
            else inl NotAnArray
          else inl (wrong "an array")
      | VArray vs =>
          if pg_to_pg then inl (wrong "an array")
          else match element sql with
          | None => inl (wrong "an array with an element type")
          | Some e =>
              array_items (pg_value e inner source) true vs [123%Z]
          end
      | _ => inl (wrong "an array")
      end
  | (BArray | BMap | BRow), Jsonb =>
      let? text := json_of_composite (base sql) value in checked_text (json_for_jsonb text) text
  | BBuiltin _, _ =>
      match value with
      | VText t => if pg_to_pg then checked_text (no_nul t) t else inl (wrong "text")
      | _ => inl (wrong "text")
      end
  | _, _ => inl (wrong "a value this column was planned for")
  end.
Definition pg_text (c : PlannedColumn) (value : Value) : Rule + option bytes :=
  if is_null value then inr None
  else let? t := pg_value (pc_ty c) (ty (pc_resolved c)) (pc_source c) value in inr (Some t).

Definition copy_escape (b : Z) : bytes :=
  if b =b BACKSLASH then [BACKSLASH; BACKSLASH]
  else if b =b LF then B "\n" else if b =b CR then B "\r" else if b =b 9 then B "\t" else [b].
Definition escape_copy (text out : bytes) : bytes := out ++ mjoin (copy_escape <$> text).

(** The rows' buffer is kept on every way out. *)
Fixpoint copy_fields (index : nat) (columns : list PlannedColumn) (values : list Value) (out : bytes)
  : option Violation * bytes :=
  match columns, values with
  | [], [] => (None, out)
  | [], _ => (Some (MkViolation index Arity), out)
  | _, [] => (Some (MkViolation index Arity), out)
  | c :: columns, v :: values =>
      let out := if (0 <? index)%nat then out ++ [9%Z] else out in
      match pg_text c v with
      | inl r => (Some (MkViolation index r), out)
      | inr None => copy_fields (S index) columns values (out ++ B "\N")
      | inr (Some t) => copy_fields (S index) columns values (escape_copy t out)
      end
  end.
Definition write_copy_row (columns : list PlannedColumn) (values : list Value) (out : bytes) : option Violation * bytes :=
  let start := List.length out in
  match copy_fields 0 columns values out with
  | (None, out) =>
      let out := out ++ [LF] in
      if existsb (fun b => b =b NUL) (drop start out) then (Some (MkViolation 0 Nul), out) else (None, out)
  | refused => refused
  end.
Definition copy_row (columns : list PlannedColumn) (values : list Value) (out : bytes) : option Violation * bytes :=
  match write_copy_row columns values out with
  | (Some v, out') => (Some v, take (List.length out) out')
  | (None, out') => (None, out')
  end.

(** ** MySQL *)

Definition text_fits_mysql (t : bytes) (x : TargetType) : option Rule :=
  match x with
  | Varchar n | Char n => if (n <? Z.of_nat (char_count t))%Z then Some (TooLong n "characters") else None
  | Text size =>
      let max := match size with SizeText => 65535 | SizeMedium => 16777215 | SizeLong => 4294967295 end%Z in
      if (max <? Z.of_nat (List.length t))%Z then Some (TooLong max "bytes") else None
  | _ => None
  end.
Definition mysql_timestamp (sql : SqlType) (m : Z) : Rule + MysqlCell :=
  let? t := timestamp_text m (fraction sql) 1000 9999 in inr (CText t).
Definition mysql_value (sql : SqlType) (x : TargetType) (value : Value) : Rule + MysqlCell :=
  match base sql with
  | BBool => match value with VBool b => inr (CInt (if b then 1 else 0)%Z) | _ => inl (wrong "a boolean") end
  | BInt8 | BInt16 | BInt24 | BInt32 | BInt64 =>
      let? number := integer sql value in
      if fits_i64 number then inr (CInt number)
      else if ((0 <=? number) && (number <=? U64_MAX))%Z then inr (CUInt number)
      else inl (OutOfRange "an integer outside 64 bits")
  | BFloat32 =>
      match value with
      | VFloat f =>
          if is_finite f then
            let n := narrowed f in
            if is_infinite n || (is_zero n && negb (is_zero f)) then
              inl (OutOfRange "a number outside the range of a float")
            else inr (CFloat n)
          else inl NonFinite
      | _ => inl (wrong "a floating-point number")
      end
  | BFloat64 =>
      match value with
      | VFloat f => if is_finite f then inr (CFloat f) else inl NonFinite
      | _ => inl (wrong "a floating-point number")
      end
  | BDecimal =>
      match value, x with
      | VDecimal u s, Numeric precision places => let? t := decimal_text u s precision places in inr (CText t)
      | _, _ => inl (wrong "an exact decimal")
      end
  | BText | BChar | BEnum | BSet =>
      match value with
      | VText t => need text_fits_mysql t x; inr (CText t)
      | _ => inl (wrong "text")
      end
  | BUuid =>
      match value with
      | VText t => if is_uuid t then inr (CText t) else inl (NotCanonical "uuid")
      | _ => inl (wrong "a uuid")
      end
  | BBinary =>
      match value, x with
      | VBytes b, Binary (Some max) =>
          if (max <? Z.of_nat (List.length b))%Z then inl (TooLong max "bytes") else inr (CBytes b)
      | VBytes b, _ => inr (CBytes b)
      | _, _ => inl (wrong "binary data")
      end
  | BDate => match value with VDate d => let? t := date_text d 1000 9999 in inr (CText t) | _ => inl (wrong "a date") end
  | BTime =>
      match value with
      | VTime m =>
          if (3020399000000 <? Z.abs m)%Z then inl (OutOfRange "a time outside -838:59:59 to 838:59:59")
          else need fraction_fits m (fraction sql); inr (CText (signed_clock_text m))
      | _ => inl (wrong "a time")
      end
  | BTimestamp =>
      match value with VTimestamp m None => mysql_timestamp sql m | _ => inl (wrong "a timestamp without a zone") end
  | BTimestampTz =>
      match value with VTimestamp m (Some _) => mysql_timestamp sql m | _ => inl (wrong "a timestamp with a zone") end
  | BJson | BJsonb =>
      match value with VJson t => need json_for_mysql t; inr (CText t) | _ => inl (wrong "JSON") end
  | BArray | BMap | BRow =>
      let? text := json_of_composite (base sql) value in need json_for_mysql text; inr (CText text)
  | BTimeTz | BInterval | BBuiltin _ | BOther => inl (wrong "a value this column was planned for")
  end.
Definition mysql_cell (c : PlannedColumn) (value : Value) : Rule + MysqlCell :=
  if is_null value then inr CNull else mysql_value (pc_ty c) (ty (pc_resolved c)) value.
Fixpoint mysql_row_loop (index : nat) (columns : list PlannedColumn) (values : list Value) : Violation + list MysqlCell :=
  match columns, values with
  | [], [] => inr []
  | [], _ | _, [] => inl (MkViolation index Arity)
  | c :: columns, v :: values =>
      match mysql_cell c v with
      | inl r => inl (MkViolation index r)
      | inr cell =>
          match mysql_row_loop (S index) columns values with inl e => inl e | inr cells => inr (cell :: cells) end
      end
  end.
Definition mysql_row (columns : list PlannedColumn) (values : list Value) : Violation + list MysqlCell :=
  mysql_row_loop 0 columns values.
End Encode.
