(* ===== verification/TypesSpec.v ===== *)
(** * TypesSpec: what a planned table promises. *)
From stdpp Require Import sets.
From S2P Require Import Prelude Bytes Text Ident Guard SqlType Names Types.
#[local] Open Scope nat_scope.

(** ** The row is fitted one column at a time *)

Definition demotable (c : PlannedColumn) : bool := bool_decide (is_Some (demotion (ty (pc_resolved c)))).
(** [c'] is [c], or [c] as the type it is demoted to. *)
Inductive kept_or_demoted (c : PlannedColumn) : PlannedColumn -> Prop :=
| kept : kept_or_demoted c c
| demoted d n text : demotion (ty (pc_resolved c)) = Some (d, n) -> render d TMysql = Some text ->
    kept_or_demoted c (demote d text n c).

Lemma demotion_final x d n : demotion x = Some (d, n) -> demotion d = None.
Proof. destruct x as [| | | | | |?|[?|]| | | | | | | | | | | |]; cbn; unfold mysql_text_size_for; intros; simplify_eq/=; by repeat case_match. Qed.
Lemma demotion_renders x d n : demotion x = Some (d, n) -> is_Some (render d TMysql).
Proof.
  destruct x as [| | | | | |?|[?|]| | | | | | | | | | | |]; cbn; unfold mysql_text_size_for; intros; simplify_eq/=; repeat case_match;
    simplify_eq/=; eauto.
Qed.
Lemma kept_or_demoted_step d n text c c' :
  demotion (ty (pc_resolved c)) = Some (d, n) -> render d TMysql = Some text ->
  kept_or_demoted (demote d text n c) c' -> kept_or_demoted c c'.
Proof.
  intros Hd Hr Hk. inversion Hk as [|d' n' t' Hd' Hr']; subst; [by econstructor|].
  cbn in Hd'. by rewrite (demotion_final _ _ _ Hd) in Hd'.
Qed.

Lemma widest_picks columns : forall index best w i d n,
  widest index best columns = Some (w, i, d, n) ->
  best = Some (w, i, d, n)
  \/ index <= i /\ exists c, columns !! (i - index) = Some c /\ demotion (ty (pc_resolved c)) = Some (d, n).
Proof.
  induction columns as [|c columns IH]; cbn; intros index best w i d n H; [by left|].
  destruct (IH _ _ _ _ _ _ H) as [Hb|(Hi & c' & Hc & Hd)].
  - assert (Hmine : forall mine : Z * nat * TargetType * string,
      Some mine = Some (w, i, d, n) -> mine = (w, i, d, n)) by (by intros ? [=]).
    destruct (demotion (ty (pc_resolved c))) as [[d' n']|] eqn:Hdm; [|by left].
    destruct best as [[[[width i'] d''] n'']|]; [destruct (width <=? _)%Z|]; simplify_eq/=; try (by left); right;
      (split; [lia|]; exists c; by rewrite Nat.sub_diag).
  - right. split; [lia|]. exists c'. by replace (i - index) with (S (i - S index)) by lia.
Qed.
Lemma widest_none columns : forall index, widest index None columns = None -> Forall (fun c => demotable c = false) columns.
Proof.
  assert (Hsome : forall columns index b, is_Some (widest index (Some b) columns)).
  { intros cs. induction cs as [|c cs IH]; intros index [[[w i] d] n]; cbn; [by eexists|].
    destruct (demotion _) as [[? ?]|]; [destruct (_ <=? _)%Z|]; apply IH. }
  induction columns as [|c columns IH]; intros index; [constructor|]. cbn. unfold demotable.
  destruct (demotion (ty (pc_resolved c))) as [[d n]|] eqn:Hd.
  - intros H. destruct (Hsome columns (S index) (mysql_row_bytes (ty (pc_resolved c)), index, d, n)) as [? Hx].
    cbn in *; congruence.
  - intros H. constructor; [rewrite Hd; done|by eapply IH].
Qed.

Definition demotables (columns : list PlannedColumn) : nat := List.length (List.filter demotable columns).
Lemma demotables_alter columns : forall i c d n text,
  columns !! i = Some c -> demotion (ty (pc_resolved c)) = Some (d, n) ->
  S (demotables (alter (demote d text n) i columns)) = demotables columns.
Proof.
  unfold demotables.
  induction columns as [|c' columns IH]; intros [|i] c d n text Hc Hd; simplify_eq/=.
  - assert (demotable (demote d text n c) = false) as ->.
    { unfold demotable. cbn. by rewrite (demotion_final _ _ _ Hd). }
    assert (demotable c = true) as ->; [|done]. unfold demotable. by rewrite Hd.
  - specialize (IH i c d n text Hc Hd). destruct (demotable c'); cbn; [by rewrite <- IH|done].
Qed.

Lemma Forall2_alter_l {A B} (R : A -> B -> Prop) (f : A -> A) l : forall l' i,
  Forall2 R (alter f i l) l' -> (forall a b, l !! i = Some a -> R (f a) b -> R a b) -> Forall2 R l l'.
Proof.
  induction l as [|a l IH]; intros l' i H Hf; [by destruct i|].
  destruct i; cbn in H; inversion H; subst; constructor; auto.
  eapply IH; [done|]. intros; by apply Hf.
Qed.

Lemma fit_loop_ends fuel : forall columns, demotables columns < fuel ->
  exists r, fit_mysql_row_loop fuel columns = Some r.
Proof.
  induction fuel as [|fuel IH]; intros columns Hf; [lia|]. cbn.
  destruct (_ <=? _)%Z; [by eexists|].
  destruct (widest 0 None columns) as [[[[w i] d] n]|] eqn:Hw; [|by eexists].
  destruct (widest_picks _ _ _ _ _ _ _ Hw) as [?|(_ & c & Hc & Hd)]; [done|]. rewrite Nat.sub_0_r in Hc.
  destruct (demotion_renders _ _ _ Hd) as [text ->].
  apply IH. pose proof (demotables_alter _ _ _ _ _ text Hc Hd). lia.
Qed.
Lemma demotables_length columns : demotables columns <= List.length columns.
Proof. unfold demotables. induction columns as [|c cs IH]; cbn; [lia|]. destruct (demotable c); cbn; lia. Qed.
Lemma fit_mysql_row_terminates columns : exists r, fit_mysql_row columns = Some r.
Proof. apply fit_loop_ends. pose proof (demotables_length columns). lia. Qed.

Lemma fit_loop_fits fuel : forall columns columns', fit_mysql_row_loop fuel columns = Some (inr columns') ->
  (row_bytes columns' <= MYSQL_ROW_LIMIT)%Z /\ Forall2 kept_or_demoted columns columns'.
Proof.
  assert (Hrefl : forall cs, Forall2 kept_or_demoted cs cs) by (intros; apply Forall_Forall2_diag, Forall_forall; constructor).
  induction fuel as [|fuel IH]; intros columns columns'; cbn; (destruct (_ <=? _)%Z eqn:Hle;
    [intros [= <-]; split; [lia|apply Hrefl]|]); [done|].
  destruct (widest 0 None columns) as [[[[w i] d] n]|] eqn:Hw; [|done].
  destruct (widest_picks _ _ _ _ _ _ _ Hw) as [?|(_ & c & Hc & Hd)]; [done|]. rewrite Nat.sub_0_r in Hc.
  destruct (demotion_renders _ _ _ Hd) as [text Ht]. rewrite Ht. intros H. destruct (IH _ _ H) as [Hl Hk].
  split; [done|]. eapply Forall2_alter_l; [done|]. intros a b Ha. simplify_eq. by apply kept_or_demoted_step.
Qed.
(** A row that is refused has no column left to demote and is too wide. *)
Lemma fit_loop_refuses fuel : forall columns r, fit_mysql_row_loop fuel columns = Some (inl r) ->
  exists columns', Forall2 kept_or_demoted columns columns' /\ Forall (fun c => demotable c = false) columns'
    /\ (MYSQL_ROW_LIMIT < row_bytes columns')%Z.
Proof.
  assert (Hrefl : forall cs, Forall2 kept_or_demoted cs cs) by (intros; apply Forall_Forall2_diag, Forall_forall; constructor).
  induction fuel as [|fuel IH]; intros columns r; cbn; destruct (_ <=? _)%Z eqn:Hle; [done..|].
  destruct (widest 0 None columns) as [[[[w i] d] n]|] eqn:Hw.
  - destruct (widest_picks _ _ _ _ _ _ _ Hw) as [?|(_ & c & Hc & Hd)]; [done|]. rewrite Nat.sub_0_r in Hc.
    destruct (demotion_renders _ _ _ Hd) as [text Ht]. rewrite Ht. intros H. destruct (IH _ _ H) as (cs & Hk & Hn & Hl).
    exists cs. split; [|done]. eapply Forall2_alter_l; [done|]. intros a b Ha. simplify_eq. by apply kept_or_demoted_step.
  - intros _. exists columns. split; [done|]. split; [by eapply widest_none|lia].
Qed.

(** ** What every mapping gives *)

(** A mapping is a refusal or has a type its dialect writes. *)
Definition written (t : Target) (m : Mapping) : Prop :=
  match resolved m with
  | Some r => render (ty r) t = Some (ddl r) /\ outcome m <> ORefuse
  | None => outcome m = ORefuse
  end.
Lemma written_exact x t : written t (exact x t).
Proof. unfold written, exact, resolve. destruct (render x t) eqn:?; cbn; by auto. Qed.
Lemma written_widened x t n : written t (widened x t n).
Proof. unfold written, widened, resolve. destruct (render x t) eqn:?; cbn; by auto. Qed.
Lemma written_fallback x t n : written t (fallback x t n).
Proof. unfold written, fallback, resolve. destruct (render x t) eqn:?; cbn; by auto. Qed.
Lemma written_refuse t n : written t (refuse n).
Proof. done. Qed.
Create HintDb mapping discriminated.
#[local] Hint Resolve written_exact written_widened written_fallback written_refuse : mapping.
Ltac mapping_cases :=
  unfold map_int, map_decimal, map_decimal_scaled, map_text, map_char, map_binary, too_fine, map_timestamp, map_composite, map_builtin;
  repeat case_match; auto with mapping.
Lemma map_type_written sql source t : written t (map_type sql source t).
Proof. destruct sql as [b ? ? ? ? ? ? ? ? ? ? ?]. destruct b; cbn -[Z.ltb written]; mapping_cases. Qed.

(** ** The columns *)

Definition planned_from (source : DriverKind) (t : Target) (col : bytes * SqlType) (c : PlannedColumn) : Prop :=
  exists r, resolved (map_type (snd col) source t) = Some r
    /\ c = MkColumn (fst col) (snd col) source t r (outcome (map_type (snd col) source t)) (note (map_type (snd col) source t)).

Section Plan.
Context `{Unicode}.

Lemma plan_columns_spec source t columns : forall index,
  match plan_columns source t index columns with
  | inr cs => Forall2 (planned_from source t) columns cs
  | inl refusal => exists i name sql reason, columns !! i = Some (name, sql) /\ rf_column refusal = Some (index + i)
      /\ map_type sql source t = Refuse reason
  end.
Proof.
  induction columns as [|[name sql] columns IH]; intros index; [constructor|]. cbn.
  destruct (from_mapping name sql source t (map_type sql source t)) as [reason|c] eqn:Hm.
  - exists 0, name, sql. rewrite Nat.add_0_r. unfold from_mapping in Hm. destruct (map_type _ _ _); simplify_eq. eauto.
  - specialize (IH (S index)). destruct (plan_columns source t (S index) columns) as [r|cs].
    + destruct IH as (i & n & s & reason & Hi & Hr & Hm'). exists (S i), n, s, reason.
      split; [done|]. split; [rewrite Hr; f_equal; lia|done].
    + constructor; [|done]. unfold planned_from. cbn. unfold from_mapping in Hm.
      destruct (map_type sql source t); simplify_eq/=; eauto.
Qed.

Lemma check_columns_loop_spec t names : forall index seen,
  check_columns_loop t index seen names = None ->
  Forall (fun name => check t name = None) names
  /\ NoDup (name_key t <$> names) /\ Forall (fun k => k ∉ seen) (name_key t <$> names).
Proof.
  induction names as [|name names IH]; intros index seen; cbn; [intros _; split_and!; constructor|].
  destruct (check t name) eqn:Hc; [done|].
  destruct (existsb _ seen) eqn:Hs; [done|]. intros Hl. destruct (IH _ _ Hl) as (Ha & Hn & Hd).
  assert (name_key t name ∉ seen) as Hk.
  { intros Hin. apply not_true_iff_false in Hs. apply Hs, existsb_exists. exists (name_key t name).
    split; [by apply list_elem_of_In|]. by apply bytes_eqb_eq. }
  split_and!; constructor; auto.
  - rewrite Forall_forall in Hd. intros Hin. specialize (Hd _ Hin). set_solver.
  - eapply Forall_impl; [exact Hd|]. cbn. set_solver.
Qed.
Lemma check_columns_loop_fault t names : forall index seen fault,
  check_columns_loop t index seen names = Some fault ->
  exists i name, names !! i = Some name /\ nf_index fault = index + i
    /\ (check t name = Some (nf_error fault)
        \/ nf_error fault = NDuplicate /\ (name_key t name ∈ seen \/ name_key t name ∈ name_key t <$> take i names)).
Proof.
  induction names as [|name names IH]; intros index seen fault; cbn; [done|].
  destruct (check t name) eqn:Hc; [intros [= <-]; exists 0, name; rewrite Nat.add_0_r; auto|].
  destruct (existsb _ seen) eqn:Hs.
  - intros [= <-]. exists 0, name. rewrite Nat.add_0_r. split_and!; [done..|]. right. split; [done|]. left.
    apply existsb_exists in Hs as (k & Hin & ->%bytes_eqb_eq). by apply list_elem_of_In.
  - intros Hl. destruct (IH _ _ _ Hl) as (i & n & Hi & Hf & Hr). exists (S i), n. split; [done|]. split; [lia|].
    destruct Hr as [?|[? Hr]]; [by left|]. right. split; [done|]. cbn. set_solver.
Qed.

(** What a column of the plan is: the mapping's type, or in MySQL what that is demoted to; and what
    it is written as is that type's own text. *)
Definition sound_column (source : DriverKind) (t : Target) (col : bytes * SqlType) (c : PlannedColumn) : Prop :=
  pc_name c = fst col /\ pc_ty c = snd col /\ pc_source c = source /\ pc_target c = t
  /\ check t (pc_name c) = None /\ pc_outcome c <> ORefuse
  /\ render (ty (pc_resolved c)) t = Some (ddl (pc_resolved c))
  /\ exists r, resolved (map_type (snd col) source t) = Some r
       /\ (ty (pc_resolved c) = ty r
           \/ t = TMysql /\ exists n, demotion (ty r) = Some (ty (pc_resolved c), n)).

Lemma planned_from_sound source t col c :
  check t (fst col) = None -> planned_from source t col c -> sound_column source t col c.
Proof.
  intros Hn (r & Hr & ->). pose proof (map_type_written (snd col) source t) as Hw. unfold written in Hw.
  rewrite Hr in Hw. destruct Hw as [Hd Ho]. unfold sound_column. cbn. split_and!; eauto.
Qed.
Lemma kept_or_demoted_sound source col c c' :
  sound_column source TMysql col c -> kept_or_demoted c c' ->
  (exists r, resolved (map_type (snd col) source TMysql) = Some r /\ ty (pc_resolved c) = ty r) ->
  sound_column source TMysql col c'.
Proof.
  intros (? & ? & ? & ? & ? & Ho & ? & _) Hk (r & Hr & Hty). destruct Hk as [|d n text Hd Ht].
  - unfold sound_column. split_and!; eauto.
  - unfold sound_column. cbn. split_and!; eauto; [by case_bool_decide|].
    exists r. split; [done|]. right. split; [done|]. exists n. by rewrite <- Hty.
Qed.
Lemma planned_columns_sound source t columns planned :
  Forall (fun name => check t name = None) (fst <$> columns) ->
  Forall2 (planned_from source t) columns planned ->
  Forall2 (sound_column source t) columns planned
  /\ (t = TMysql -> forall fitted, Forall2 kept_or_demoted planned fitted -> Forall2 (sound_column source t) columns fitted).
Proof.
  intros Hn Hp. induction Hp as [|col c columns planned Hc Hp IH]; cbn in Hn.
  { split; [constructor|]. intros _ fitted Hk. inversion Hk. constructor. }
  apply Forall_cons in Hn as [Hn Hns]. destruct (IH Hns) as [IHa IHb]. split.
  - constructor; [by apply planned_from_sound|done].
  - intros -> fitted Hk. inversion Hk as [|? c' ? fitted' Hkc Hks]; subst. constructor; [|by apply IHb].
    eapply kept_or_demoted_sound; [by apply planned_from_sound|done|].
    destruct Hc as (r & Hr & ->). by exists r.
Qed.

Lemma plan_table_sound source t columns plan :
  plan_table source t columns = Some (inr plan) ->
  tp_target plan = t
  /\ Forall2 (sound_column source t) columns (tp_columns plan)
  /\ NoDup (name_key t <$> (fst <$> columns))
  /\ (t = TMysql -> (row_bytes (tp_columns plan) <= MYSQL_ROW_LIMIT)%Z).
Proof.
  unfold plan_table, check_columns. destruct (check_columns_loop t 0 [] _) eqn:Hc; [done|].
  destruct (check_columns_loop_spec _ _ _ _ Hc) as (Hn & Hd & _).
  pose proof (plan_columns_spec source t columns 0) as Hp. destruct (plan_columns _ _ _ _) as [|planned]; [done|].
  destruct (planned_columns_sound _ _ _ _ Hn Hp) as [Hs Hf].
  destruct t; [intros [= <-]; by split_and!|].
  destruct (fit_mysql_row planned) as [[|fitted]|] eqn:Hfit; [done| |done]. intros [= <-].
  destruct (fit_loop_fits _ _ _ Hfit) as [Hl Hk]. split_and!; [done| |done|done]. by apply Hf.
Qed.

(** Planning a table always ends, and a refusal has one of three reasons: a name the server would
    not keep as written or that repeats one before it, with its place; a column no type of the
    target carries, with its place; or a MySQL row too wide with nothing left to demote. *)
Theorem plan_ends_with_a_reason source t columns :
  exists r, plan_table source t columns = Some r
    /\ forall refusal, r = inl refusal ->
       (exists i name sql, columns !! i = Some (name, sql) /\ rf_column refusal = Some i
          /\ (is_Some (check t name)
              \/ name_key t name ∈ name_key t <$> take i (fst <$> columns)
              \/ exists reason, map_type sql source t = Refuse reason))
       \/ t = TMysql /\ exists planned fitted,
            Forall2 (planned_from source t) columns planned /\ Forall2 kept_or_demoted planned fitted
            /\ Forall (fun c => demotable c = false) fitted /\ (MYSQL_ROW_LIMIT < row_bytes fitted)%Z.
Proof.
  unfold plan_table, check_columns. destruct (check_columns_loop t 0 [] _) as [fault|] eqn:Hc.
  { eexists. split; [done|]. intros refusal [= <-]. left.
    destruct (check_columns_loop_fault _ _ _ _ _ Hc) as (i & name & Hi & Hf & Hr).
    apply list_lookup_fmap_Some in Hi as ([name' sql] & -> & Hi). exists i, name', sql. split; [done|].
    split; [cbn; f_equal; lia|]. destruct Hr as [Hr|[_ Hr]]; [left; cbn in Hr; by rewrite Hr|]. right. left.
    destruct Hr as [Hr|Hr]; [by apply not_elem_of_nil in Hr|done]. }
  pose proof (plan_columns_spec source t columns 0) as Hp. destruct (plan_columns _ _ _ _) as [r|planned].
  { destruct Hp as (i & name & sql & reason & Hi & Hr & Hm). eexists. split; [done|]. intros ? [= <-]. left.
    exists i, name, sql. split_and!; eauto. }
  destruct t; [eexists; split; [done|]; by intros ? [=]|].
  destruct (fit_mysql_row_terminates planned) as [[r|fitted] Hfit]; rewrite Hfit; eexists; (split; [done|]); intros ? [=].
  subst r. right. split; [done|]. destruct (fit_loop_refuses _ _ _ Hfit) as (fitted & ? & ? & ?). by exists planned, fitted.
Qed.
End Plan.

(** ** The server declares every type *)

(** The limits of each server on the numbers of a type, but for a length of none
    ([zero_length]). *)
Fixpoint declarable (t : Target) (x : TargetType) : bool :=
  let digits d := ((0 <=? d) && (d <=? 6))%Z in
  match t, x with
  | TPostgres, Int n u => negb u && existsb (Z.eqb n) [2; 4; 8]%Z
  | TMysql, Int n _ => existsb (Z.eqb n) [1; 2; 3; 4; 8]%Z
  | TPostgres, Numeric (Some p) s => ((1 <=? p) && (p <=? 1000) && (0 <=? s) && (s <=? p))%Z
  | TPostgres, Numeric None _ => true
  | TMysql, Numeric (Some p) s => ((1 <=? p) && (p <=? 65) && (0 <=? s) && (s <=? p) && (s <=? 30))%Z
  | TPostgres, Varchar n | TPostgres, Char n => ((0 <=? n) && (n <=? 10485760))%Z
  | TMysql, Varchar n => ((0 <=? n) && (n <=? 16383))%Z
  | TMysql, Char n => ((0 <=? n) && (n <=? 255))%Z
  | TMysql, Binary (Some n) => ((0 <=? n) && (n <=? 65535))%Z
  | _, Time d | TPostgres, TimeTz d | TPostgres, Timestamp d | TPostgres, TimestampTz d | TMysql, DateTime d => digits d
  | TPostgres, Binary b => bool_decide (b = None)
  | TPostgres, (Boolean | FloatT _ | Text _ | Uuid | Date | Interval | TJson | Jsonb) => true
  | TMysql, (Boolean | FloatT _ | Text _ | Binary None | Date | TJson) => true
  | TPostgres, Builtin kind bits => match kind with Bit => bool_decide (is_Some bits) | _ => true end
  | TPostgres, Array inner => declarable TPostgres inner
  | _, _ => false
  end.
(** The numbers of a descriptor are unsigned in the source, but for the scale. *)
Fixpoint described (sql : SqlType) : Prop :=
  let unsigned o := forall n, o = Some n -> (0 <= n)%Z in
  unsigned (precision sql) /\ unsigned (length sql) /\ unsigned (fraction_digits sql)
  /\ match element sql with Some e => described e | None => True end.

Definition declared (t : Target) (m : Mapping) : Prop :=
  forall r, resolved m = Some r -> declarable t (ty r) = true.
Lemma declared_exact x t : declarable t x = true -> declared t (exact x t).
Proof. unfold declared, exact, resolve. intros Hx r. destruct (render x t); by intros [= <-]. Qed.
Lemma declared_widened x t n : declarable t x = true -> declared t (widened x t n).
Proof. unfold declared, widened, resolve. intros Hx r. destruct (render x t); by intros [= <-]. Qed.
Lemma declared_fallback x t n : declarable t x = true -> declared t (fallback x t n).
Proof. unfold declared, fallback, resolve. intros Hx r. destruct (render x t); by intros [= <-]. Qed.
Lemma declared_refuse t n : declared t (refuse n).
Proof. by intros r. Qed.
#[local] Hint Resolve declared_exact declared_widened declared_fallback declared_refuse : mapping.

Lemma described_numbers sql : described sql ->
  (forall n, precision sql = Some n -> (0 <= n)%Z) /\ (forall n, length sql = Some n -> (0 <= n)%Z)
  /\ (forall n, fraction_digits sql = Some n -> (0 <= n)%Z) /\ forall e, element sql = Some e -> described e.
Proof. destruct sql as [? ? ? ? ? ? ? ? e ? ? ?]. cbn. intros (? & ? & ? & ?). split_and!; [done..|]. by intros ? ->. Qed.

Ltac declared_number :=
  repeat case_match; auto with mapping; first [apply declared_exact | apply declared_widened]; cbn; lia.
Lemma map_decimal_scaled_declared p s t : (forall n, p = Some n -> (0 <= n)%Z) -> (0 <= s)%Z ->
  declared t (map_decimal_scaled p s t).
Proof.
  intros Hp Hs. unfold map_decimal_scaled, PG_NUMERIC_DIGITS, MYSQL_DECIMAL_DIGITS, MYSQL_DECIMAL_SCALE.
  destruct t, p as [p|]; try specialize (Hp p eq_refl); auto with mapping; declared_number.
Qed.
Lemma map_decimal_declared sql t : described sql -> declared t (map_decimal sql t).
Proof.
  intros (Hp & _)%described_numbers. unfold map_decimal. destruct (scale sql) as [s|]; [|by apply map_decimal_scaled_declared].
  destruct (0 <=? s)%Z eqn:?; [apply map_decimal_scaled_declared; [done|lia]|auto with mapping].
Qed.
Lemma map_composite_declared row t : declared t (map_composite row t).
Proof. unfold map_composite. destruct t; auto with mapping. Qed.
Lemma map_text_declared len t : (forall n, len = Some n -> (0 <= n)%Z) -> declared t (map_text len t).
Proof.
  intros Hl. unfold map_text, mysql_text_for, PG_VARCHAR_MAX, MYSQL_VARCHAR_MAX.
  destruct t, len as [n|]; try specialize (Hl n eq_refl); auto with mapping; declared_number.
Qed.
Lemma map_char_declared len source t : (forall n, len = Some n -> (0 <= n)%Z) -> declared t (map_char len source t).
Proof.
  intros Hl. unfold map_char, mysql_text_for, PG_VARCHAR_MAX, MYSQL_VARCHAR_MAX.
  destruct t, len as [n|]; try specialize (Hl n eq_refl); auto with mapping; declared_number.
Qed.
Lemma map_binary_declared len t : (forall n, len = Some n -> (0 <= n)%Z) -> declared t (map_binary len t).
Proof.
  intros Hl. unfold map_binary. destruct t, len as [n|]; try specialize (Hl n eq_refl); auto with mapping; declared_number.
Qed.
Lemma map_timestamp_declared d session t : ((0 <=? d) && (d <=? 6))%Z = true -> declared t (map_timestamp d session t).
Proof. intros. unfold map_timestamp. repeat case_match; auto with mapping. Qed.
Lemma map_builtin_declared kind len source t : declared t (map_builtin kind len source t).
Proof.
  unfold map_builtin. destruct t, source; auto with mapping.
  destruct (bool_decide (kind = Bit) && _) eqn:Hb; [auto with mapping|]. apply declared_exact. by destruct kind, len.
Qed.

Lemma map_type_declared sql source t : described sql -> declared t (map_type sql source t).
Proof.
  revert t. induction sql as [sql IH] using SqlType_element_ind. intros t Hd. destruct (described_numbers _ Hd) as (Hp & Hl & Hf & He).
  assert (Hdig : forall m, (((0 <=? fraction sql) && (fraction sql <=? 6))%Z = true -> declared t m) ->
    declared t (if (MAX_FRACTION <? fraction sql)%Z then too_fine else m)).
  { intros m Hm. unfold MAX_FRACTION in *. destruct (6 <? fraction sql)%Z eqn:H6; [apply declared_refuse|]. apply Hm.
    unfold fraction in *. destruct (fraction_digits sql) as [d|]; [specialize (Hf d eq_refl)|]; cbn in *; lia. }
  destruct (base sql) eqn:Hb; destruct t;
    (destruct sql as [bs p s l u z f d [e|] fs o na]; cbn in Hb, Hp, Hl, Hf, Hdig, He, IH; subst bs; cbn -[Z.ltb fraction declared exact widened fallback refuse map_int map_decimal map_text map_char map_binary map_timestamp map_composite map_builtin too_fine]);
    try (apply Hdig; intros Hdig'); clear Hdig;
    auto using map_decimal_declared, map_composite_declared, map_text_declared, map_char_declared, map_binary_declared, map_timestamp_declared, map_builtin_declared
      with mapping; unfold map_int; cbn [int_bytes default]; repeat case_match; simplify_eq; auto with mapping.
  all: match goal with Hm : map_type ?e _ TPostgres = Exact ?r |- _ =>
         pose proof (IH e eq_refl TPostgres (He e eq_refl)) as Hi; rewrite Hm in Hi; apply declared_exact; exact (Hi _ eq_refl) end.
Qed.

(** Whatever a driver says of a column, the type it is mapped to is one the target server
    declares: an integer of a width it has, a numeric, a varchar, a char, a binary and a fraction
    within its limits, a bit with its length, and so for the elements of an array. *)
Theorem mapped_types_are_declarable sql source t r :
  described sql -> resolved (map_type sql source t) = Some r -> declarable t (ty r) = true.
Proof. intros Hd. by apply map_type_declared. Qed.

(** ** The planned table on its server *)

(** What the server documents of a column name: PostgreSQL keeps 63 bytes of it, MySQL takes 64
    characters of the Basic Multilingual Plane, the last no space; neither takes a NUL. What
    PostgreSQL calls a column it could not name is no name either. *)
Definition keeps_name (t : Target) (name : bytes) : Prop :=
  name <> [] /\ ~ In NUL name
  /\ match t with
     | TPostgres => List.length name <= 63 /\ name <> B "?column?"
     | TMysql => char_count name <= 64 /\ last name <> Some SP /\ Forall (fun b => (b < 240)%Z) name
     end.
Lemma check_keeps_name t name : check t name = None -> keeps_name t name.
Proof.
  unfold check, keeps_name. destruct name as [|a name]; [done|]. generalize (a :: name) (nil_cons (x := a) (l := name)).
  intros s Hs. destruct (existsb (fun b => b =b NUL) s) eqn:Hn; [done|]. intros Hc. split; [done|].
  split. { intros Hin. apply not_true_iff_false in Hn. apply Hn, existsb_exists. by exists NUL. }
  destruct t.
  - destruct (63 <? List.length s)%nat eqn:Hl; [done|]. destruct (bytes_eqb s _) eqn:He; [done|].
    split; [apply Nat.ltb_ge in Hl; lia|]. intros ->. by rewrite (proj2 (bytes_eqb_eq _ _) eq_refl) in He.
  - destruct (64 <? char_count s)%nat eqn:Hl; [done|]. unfold Scan.ends_with in Hc.
    destruct (match last s with Some c => c =b SP | None => false end) eqn:He; [done|].
    destruct (outside_bmp s) eqn:Ho; [done|]. split; [apply Nat.ltb_ge in Hl; lia|]. split.
    + intros Hlast. by rewrite Hlast in He.
    + apply Forall_forall. intros b Hb. apply not_true_iff_false in Ho.
      destruct (240 <=? b)%Z eqn:H240; [|lia]. destruct Ho. apply existsb_exists. exists b. split; [|done].
      by apply list_elem_of_In.
Qed.

(** PostgreSQL has no [varchar(0)], [char(0)] or [bit(0)]: a length is at least one. *)
Fixpoint zero_length (x : TargetType) : bool :=
  match x with
  | Varchar n | Char n => (n =? 0)%Z
  | Builtin _ bits => bool_decide (bits = Some 0%Z)
  | Array inner => zero_length inner
  | _ => false
  end.
Definition server_takes (t : Target) (x : TargetType) : bool :=
  declarable t x && negb (bool_decide (t = TPostgres) && zero_length x).
(** The column is said to have a length of none, or is an array of such elements. *)
Fixpoint says_zero (sql : SqlType) : Prop :=
  length sql = Some 0%Z \/ match element sql with Some e => says_zero e | None => False end.

Definition sized_as_said (sql : SqlType) (m : Mapping) : Prop :=
  forall r, resolved m = Some r -> zero_length (ty r) = true -> says_zero sql.
Lemma sized_exact sql x t : (zero_length x = true -> says_zero sql) -> sized_as_said sql (exact x t).
Proof. unfold sized_as_said, exact, resolve. intros Hx r. destruct (render x t); intros [= <-]; exact Hx. Qed.
Lemma sized_widened sql x t n : (zero_length x = true -> says_zero sql) -> sized_as_said sql (widened x t n).
Proof. unfold sized_as_said, widened, resolve. intros Hx r. destruct (render x t); intros [= <-]; exact Hx. Qed.
Lemma sized_fallback sql x t n : (zero_length x = true -> says_zero sql) -> sized_as_said sql (fallback x t n).
Proof. unfold sized_as_said, fallback, resolve. intros Hx r. destruct (render x t); intros [= <-]; exact Hx. Qed.
Lemma sized_refuse sql n : sized_as_said sql (Refuse n).
Proof. by intros r. Qed.
Lemma mapped_zero_length sql source t r :
  resolved (map_type sql source t) = Some r -> zero_length (ty r) = true -> says_zero sql.
Proof.
  revert r. change (sized_as_said sql (map_type sql source t)). revert t.
  induction sql as [sql IH] using SqlType_element_ind. intros t.
  destruct sql as [b p s l u z f d e fs o na]. cbn in IH.
  destruct b; cbn -[Z.ltb fraction sized_as_said];
    unfold map_int, map_decimal, map_decimal_scaled, map_text, map_char, map_binary, too_fine, map_timestamp, map_composite,
      map_builtin, mysql_text_for, refuse;
    repeat case_match;
    first [apply sized_refuse | apply sized_exact | apply sized_widened | apply sized_fallback]; cbn; intros Hz;
    try discriminate Hz; try (apply bool_decide_eq_true in Hz); simplify_eq/=; first [left; f_equal; lia | idtac].
  all: try (right; eapply IH; [done|match goal with Hm : map_type _ _ _ = Exact _ |- _ => by rewrite Hm end|done]).
  all: try (left; congruence).
Qed.

(** The numbers an integer type holds, and the text a MySQL text type does. *)
Definition in_range (lo hi : Z) (x : TargetType) : bool :=
  match x with
  | Int n true => (0 <=? lo) && (hi <? 2 ^ (8 * n))
  | Int n false => (- 2 ^ (8 * n - 1) <=? lo) && (hi <? 2 ^ (8 * n - 1))
  | Numeric (Some p) s => (- 10 ^ (p - s) <? lo) && (hi <? 10 ^ (p - s))
  | _ => false
  end%Z.
Definition text_holds (t : Target) (chars : option Z) (x : TargetType) : bool :=
  match x, chars with
  | (Varchar m | Char m), Some n => n <=? m
  | Text SizeLong, _ => true
  | Text size, Some n =>
      match t with TPostgres => true | TMysql => 4 * n <=? match size with SizeText => 65535 | _ => 16777215 end end
  | Text _, None => bool_decide (t = TPostgres)
  | _, _ => false
  end%Z.
(** The type has room for what the column may hold, as far as its declaration says. *)
Definition has_room (t : Target) (sql : SqlType) (x : TargetType) : bool :=
  match base sql, x with
  | (BInt8 | BInt16 | BInt24 | BInt32 | BInt64), _ =>
      let w := (8 * default 8 (int_bytes (base sql)))%Z in
      if unsigned sql then in_range 0 (2 ^ w - 1) x else in_range (- 2 ^ (w - 1)) (2 ^ (w - 1) - 1) x
  | BDecimal, Numeric (Some p') s' =>
      match precision sql with
      | Some p => let s := default 0%Z (scale sql) in ((s <=? s') && (p - s <=? p' - s'))%Z
      | None => true
      end
  | (BText | BChar), _ => text_holds t (length sql) x
  | BBinary, Binary (Some m) => match length sql with Some n => (n <=? m)%Z | None => false end
  | (BTime | BTimeTz | BTimestamp | BTimestampTz), (Time d | TimeTz d | Timestamp d | TimestampTz d | DateTime d) =>
      (fraction sql <=? d)%Z
  | BUuid, Char m => (36 <=? m)%Z
  | BFloat64, FloatT double => double
  | BBool, Boolean | BDecimal, Numeric None _ | BBinary, Binary None | BUuid, (Uuid | Text _) | BFloat32, FloatT _
  | BDate, Date => true
  | (BBool | BFloat32 | BFloat64 | BDecimal | BBinary | BUuid | BDate | BTime | BTimeTz | BTimestamp | BTimestampTz), _ => false
  | _, _ => true
  end.

Definition roomy (sql : SqlType) (t : Target) (m : Mapping) : Prop :=
  forall r, resolved m = Some r -> has_room t sql (ty r) = true.
Lemma roomy_exact sql x t : has_room t sql x = true -> roomy sql t (exact x t).
Proof. unfold roomy, exact, resolve. intros Hx r. destruct (render x t); by intros [= <-]. Qed.
Lemma roomy_widened sql x t n : has_room t sql x = true -> roomy sql t (widened x t n).
Proof. unfold roomy, widened, resolve. intros Hx r. destruct (render x t); by intros [= <-]. Qed.
Lemma roomy_fallback sql x t n : has_room t sql x = true -> roomy sql t (fallback x t n).
Proof. unfold roomy, fallback, resolve. intros Hx r. destruct (render x t); by intros [= <-]. Qed.
Lemma roomy_refuse sql t n : roomy sql t (Refuse n).
Proof. by intros r. Qed.
Lemma mapped_has_room sql source t : roomy sql t (map_type sql source t).
Proof.
  destruct sql as [b p s l u z f d e fs o na].
  destruct b; cbn -[Z.ltb Z.leb Z.pow fraction roomy];
    unfold map_int, map_decimal, map_decimal_scaled, map_text, map_char, map_binary, too_fine, map_timestamp, map_composite,
      map_builtin, mysql_text_for, refuse;
    repeat case_match;
    first [apply roomy_refuse | apply roomy_exact | apply roomy_widened | apply roomy_fallback];
    simplify_eq/=; try done; unfold has_room; cbn -[Z.leb Z.ltb Z.pow fraction]; try rewrite !Z.leb_refl; try done; try lia;
    by destruct u.
Qed.
Lemma demoted_has_room sql x d n : has_room TMysql sql x = true -> demotion x = Some (d, n) -> has_room TMysql sql d = true.
Proof.
  destruct x as [| | | | |m|m|[m|]| | | | | | | | | | | |]; cbn -[Z.leb]; intros Hr Hd; simplify_eq/=.
  all: destruct sql as [b ? ? l ? ? ? ? ? ? ? ?]; destruct b; cbn -[Z.leb Z.pow] in *; try done; try (by destruct unsigned0).
  all: unfold mysql_text_size_for; repeat case_match; cbn -[Z.leb] in *; try done; simplify_eq/=; lia.
Qed.
Lemma demoted_declarable x d n : demotion x = Some (d, n) -> declarable TMysql d = true.
Proof.
  destruct x as [| | | | |m|m|[m|]| | | | | | | | | | | |]; cbn; unfold mysql_text_size_for; intros; simplify_eq/=; by repeat case_match.
Qed.

(** The bytes of a type in a MySQL row, by the manual's table of storage requirements and its rules
    on row size: nine digits of a decimal in four bytes and a rest of up to two digits a byte, four
    bytes for a character of utf8mb4, the bytes of a length beside what has one, eight bytes and the
    length for what is stored off the row, and two decimals of a second in a byte. *)
Definition storage (x : TargetType) : Z :=
  let digits d := (4 * (d / 9) + (d mod 9 + 1) / 2)%Z in
  let variable data := (data + (if data <? 256 then 1 else 2))%Z in
  match x with
  | Boolean => 1
  | Int n _ => n
  | Numeric (Some p) s => digits (p - s) + digits s
  | FloatT double => if double then 8 else 4
  | Varchar n => variable (4 * n)
  | Char n => 4 * n
  | Binary (Some n) => variable n
  | Date => 3
  | Time d => 3 + (d + 1) / 2
  | DateTime d => 5 + (d + 1) / 2
  | Text SizeText => 8 + 2
  | Text SizeMedium => 8 + 3
  | Text SizeLong | Binary None | TJson => 8 + 4
  | _ => 0
  end%Z.
Definition mysql_storage (plan : TablePlan) : Z :=
  foldr Z.add 0%Z ((fun c => storage (ty (pc_resolved c))) <$> tp_columns plan).

Lemma decimal_bytes_storage d : (0 <= d)%Z -> (4 * (d / 9) + (d mod 9 + 1) / 2 = decimal_bytes d)%Z.
Proof.
  intros Hd. unfold decimal_bytes. pose proof (Z.mod_pos_bound d 9 ltac:(lia)) as Hm. rewrite (Z.mul_comm 4). f_equal.
  revert Hm. generalize (d mod 9)%Z. intros m Hm.
  assert (m = 0 \/ m = 1 \/ m = 2 \/ m = 3 \/ m = 4 \/ m = 5 \/ m = 6 \/ m = 7 \/ m = 8)%Z as Hc by lia.
  destruct Hc as [->|[->|[->|[->|[->|[->|[->|[->| ->]]]]]]]]; reflexivity.
Qed.
Lemma storage_counted x : declarable TMysql x = true -> (storage x <= mysql_row_bytes x)%Z.
Proof.
  destruct x as [| |[p|] s|[]|m|m|[]|[m|]| | | | | | | | | | | |]; cbn -[Z.leb Z.ltb Z.mul Z.add decimal_bytes]; try lia.
  - intros Hd. rewrite (Z.max_r 0 (p - s)) by lia. rewrite !decimal_bytes_storage by lia. lia.
  - intros _. rewrite (Z.mul_comm 4 m). destruct (_ <? 256)%Z eqn:?, (255 <? _)%Z eqn:?; lia.
  - intros _. destruct (_ <? 256)%Z eqn:?, (255 <? _)%Z eqn:?; lia.
  - intros _. unfold div_ceil2. lia.
  - intros _. unfold div_ceil2. lia.
Qed.

(** What a column of the plan is on its server. *)
Definition planned_column (source : DriverKind) (t : Target) (col : bytes * SqlType) (c : PlannedColumn) : Prop :=
  pc_name c = fst col /\ keeps_name t (fst col)
  /\ pc_outcome c <> ORefuse
  /\ render (ty (pc_resolved c)) t = Some (ddl (pc_resolved c))
  /\ (server_takes t (ty (pc_resolved c)) = true \/ t = TPostgres /\ says_zero (snd col))
  /\ has_room t (snd col) (ty (pc_resolved c)) = true
  /\ exists r, resolved (map_type (snd col) source t) = Some r
       /\ (ty (pc_resolved c) = ty r \/ t = TMysql /\ exists n, demotion (ty r) = Some (ty (pc_resolved c), n)).
Lemma sound_column_planned source t col c :
  described (snd col) -> sound_column source t col c ->
  planned_column source t col c /\ declarable t (ty (pc_resolved c)) = true.
Proof.
  intros Hdes (Hname & _ & _ & _ & Hc & Ho & Hr & r & Hmap & Hty). rewrite Hname in Hc.
  pose proof (map_type_declared (snd col) source t Hdes r Hmap) as Hdecl.
  pose proof (mapped_has_room (snd col) source t r Hmap) as Hroom.
  assert (Hd : declarable t (ty (pc_resolved c)) = true /\ has_room t (snd col) (ty (pc_resolved c)) = true).
  { destruct Hty as [->|(-> & n & Hd)]; [done|]. split; [by eapply demoted_declarable|by eapply demoted_has_room]. }
  destruct Hd as [Hd Hh]. split; [|done]. split_and!; [done|by apply check_keeps_name|done|done| |done|by exists r].
  unfold server_takes. rewrite Hd. cbn [andb]. destruct t; [|by left]. cbn [bool_decide].
  destruct (zero_length (ty (pc_resolved c))) eqn:Hz; [right; split; [done|]|by left].
  destruct Hty as [Hty|[? _]]; [|done]. rewrite Hty in Hz. by eapply mapped_zero_length.
Qed.
Lemma storage_fits (columns : list PlannedColumn) :
  Forall (fun c => declarable TMysql (ty (pc_resolved c)) = true) columns ->
  (mysql_storage (MkTable TMysql columns) <= row_bytes columns)%Z.
Proof.
  unfold mysql_storage, row_bytes. cbn [tp_columns]. induction 1 as [|c columns Hc _ IH]; [done|]. cbn [fmap list_fmap foldr].
  pose proof (storage_counted _ Hc). apply Z.add_le_mono; [done|exact IH].
Qed.

(** C10: A planned table has the columns of the result in their order, each with its name: one the
    server keeps as it is written, and no two the same to it. The type of a column is the mapping of
    its source type, or the text or blob type MySQL demotes that to; it has room for every value
    the source type declares; its text is how the engine writes it; and the server takes it, but for
    a PostgreSQL column of a type that is said to have a length of none. A MySQL row is at most
    65,535 bytes by the manual's count of its columns, which leaves out the flags of the nullable
    ones. *)
Theorem planned_table_is_sound `{Unicode} source t columns plan :
  Forall (fun col => described (snd col)) columns ->
  plan_table source t columns = Some (inr plan) ->
  tp_target plan = t
  /\ Forall2 (planned_column source t) columns (tp_columns plan)
  /\ NoDup (name_key t <$> (fst <$> columns))
  /\ (t = TMysql -> (mysql_storage plan <= 65535)%Z).
Proof.
  intros Hdes Hplan. destruct (plan_table_sound _ _ _ _ Hplan) as (Ht & Hs & Hn & Hrow).
  assert (Hall : Forall2 (fun col c => planned_column source t col c /\ declarable t (ty (pc_resolved c)) = true)
    columns (tp_columns plan)).
  { clear -Hdes Hs. induction Hs as [|col c cols cs Hc Hs IH]; [constructor|]. apply Forall_cons in Hdes as [Hd Hdes].
    constructor; [by apply sound_column_planned|by apply IH]. }
  split_and!; [done| |done|].
  - eapply Forall2_impl; [exact Hall|]. by intros ? ? [? _].
  - intros ->. transitivity (row_bytes (tp_columns plan)); [|by apply Hrow].
    apply (storage_fits (tp_columns plan)). clear -Hall. induction Hall as [|? ? ? ? [_ ?] _ IH]; by constructor.
Qed.

(** ** Examples and witnesses *)

Definition ascii_unicode : Unicode := {| to_lowercase := lower; debug := fun s => [DQUOTE] ++ s ++ [DQUOTE] |}.
(** Two long columns and an unsigned bigint: the last of the widest is demoted. *)
Definition sample_columns : list (bytes * SqlType) :=
  [(B "id", MkSqlType BInt64 None None None true ZNone None None None [] None []);
   (B "Note", with_length (sql_of BText) 16000); (B "memo", with_length (sql_of BText) 16000);
   (B "order", sql_decimal 12 2)].
Definition sample_plan : TablePlan :=
  match @plan_table ascii_unicode DMysql TMysql sample_columns with Some (inr p) => p | _ => MkTable TMysql [] end.
Example sample_ddl : create_table_sql sample_plan (B "t")
  = B "CREATE TABLE t (id bigint unsigned, `Note` varchar(16000), memo text, `order` decimal(12,2)) DEFAULT CHARSET=utf8mb4".
Proof. vm_compute. reflexivity. Qed.
(** A length of none is written as it is said, and PostgreSQL has no [varchar(0)]. *)
Example empty_varchar : map_type (with_length (sql_of BText) 0) DMysql TPostgres = Exact (MkResolved (Varchar 0) (B "varchar(0)")).
Proof. reflexivity. Qed.

Lemma planned_table_is_sound_witness :
  NoDup (lower <$> (fst <$> sample_columns)) /\ (mysql_storage sample_plan <= 65535)%Z /\ mysql_storage sample_plan = 64026%Z.
Proof.
  assert (H : @plan_table ascii_unicode DMysql TMysql sample_columns = Some (inr sample_plan)) by (vm_compute; reflexivity).
  destruct (@planned_table_is_sound ascii_unicode DMysql TMysql sample_columns sample_plan
    ltac:(repeat constructor; intros n; cbn; intros [=]; lia) H) as (_ & _ & Hn & Hr).
  split; [exact Hn|]. split; [exact (Hr eq_refl)|vm_compute; reflexivity].
Defined.
Lemma mapped_types_are_declarable_witness :
  declarable TPostgres (Array (Numeric (Some 12%Z) 2)) = true.
Proof.
  exact (mapped_types_are_declarable (array_of (sql_decimal 12 2)) DTrino TPostgres
    (MkResolved (Array (Numeric (Some 12%Z) 2)) (B "numeric(12,2)[]"))
    ltac:(cbn; split_and!; try done; intros n [= <-]; lia) eq_refl).
Defined.
(** The flags of nullable columns are bytes of a MySQL row too: this one is a byte too long. *)
Example null_flags_not_counted :
  match @plan_table ascii_unicode DMysql TMysql [(B "a", with_length (sql_of BText) 16383); (B "b", sql_of BBool)] with
  | Some (inr p) => (row_bytes (tp_columns p), create_table_sql p (B "t"))
  | _ => (0%Z, [])
  end = (65535%Z, B "CREATE TABLE t (a varchar(16383), b tinyint(1)) DEFAULT CHARSET=utf8mb4").
Proof. vm_compute. reflexivity. Qed.
