(* ===== verification/EncodeSpec.v ===== *)
(** * EncodeSpec: a value a transfer accepts arrives as it was.

    What each target's columns hold, what carries a value, and that every accepted row fits and is
    carried; the COPY text read back by a reader of its own. *)
From stdpp Require Import sets.
From S2P Require Import Prelude Bytes Text Ident Guard Dates Value Json SqlType Names Types TypesSpec Encode.
#[local] Open Scope nat_scope.
#[local] Abbreviation length := List.length.

(** ** Decimals *)

(** [u / 10^s] and [u' / 10^s'] are one number. *)
Definition same_number (u s u' s' : Z) : Prop := (u * 10 ^ s' = u' * 10 ^ s)%Z.

Lemma drop_zeros_spec fuel : forall u s ts u' s', (0 <= s)%Z -> (0 <= ts)%Z -> Z.to_nat s <= fuel ->
  drop_zeros fuel u s ts = (u', s') ->
  (0 <= s' <= s)%Z /\ (u = u' * 10 ^ (s - s'))%Z.
Proof.
  induction fuel as [|fuel IH]; intros u s ts u' s' Hs Hts Hf; cbn [drop_zeros].
  { intros [= <- <-]. rewrite Z.sub_diag. lia. }
  destruct (_ && _) eqn:Hb; [|intros [= <- <-]; rewrite Z.sub_diag; lia].
  intros H. apply IH in H as [Hr Hu]; [|lia..]. split; [lia|].
  apply andb_true_iff in Hb as [Hlt Hm].
  pose proof (Z.quot_rem u 10 ltac:(lia)) as Hq. replace (s - s')%Z with (Z.succ (s - 1 - s')) by lia.
  rewrite Z.pow_succ_r by lia. nia.
Qed.
Lemma same_number_scaled u u' s s' : (0 <= s' <= s)%Z -> (u = u' * 10 ^ (s - s'))%Z -> same_number u s u' s'.
Proof.
  intros Hs ->. unfold same_number. rewrite <- Z.mul_assoc, <- Z.pow_add_r by lia. do 2 f_equal. lia.
Qed.

Lemma decimal_bound n : (0 <= n)%Z -> (n < 10 ^ Z.of_nat (length (decimal n)))%Z.
Proof. intros Hn. rewrite <- (Text.decimal_value n Hn) at 1. apply digits_value_bound, decimal_digits. Qed.

(** What fits [numeric(p,s)] or [decimal(p,s)]. *)
Definition fits_decimal (p s u s' : Z) : Prop := (0 <= s' <= s /\ Z.abs u * 10 ^ (s - s') < 10 ^ p)%Z.

Lemma decimal_text_spec u s p ts t : (0 <= s)%Z -> (0 <= ts)%Z -> (forall p', p = Some p' -> (ts <= p')%Z) ->
  decimal_text u s p ts = inr t ->
  exists u' s', t = write_decimal u' s' [] /\ (0 <= s')%Z /\ same_number u s u' s'
    /\ forall p', p = Some p' -> fits_decimal p' ts u' s'.
Proof.
  intros Hs Hts Hp. unfold decimal_text. destruct p as [p|].
  2:{ intros [= <-]. exists u, s. split_and!; try done. }
  specialize (Hp p eq_refl).
  destruct (drop_zeros _ u s ts) as [u' s'] eqn:Hd. apply drop_zeros_spec in Hd as [Hr Hu]; [|lia..].
  destruct (ts <? s')%Z eqn:Hts'; [done|]. destruct (_ && _) eqn:Hw; [done|]. intros [= <-].
  exists u', s'. split_and!; [done|lia|by apply same_number_scaled|]. intros p' [= <-]. split; [lia|].
  pose proof (decimal_bound (Z.abs u') ltac:(lia)) as Hb.
  pose proof (Z.pow_pos_nonneg 10 (p - ts + s') ltac:(lia) ltac:(lia)) as Hpos.
  assert (Z.abs u' < 10 ^ (p - ts + s'))%Z as Hlt.
  { destruct (Z.eq_dec u' 0) as [->|Hnz]; [cbn; lia|].
    eapply Z.lt_le_trans; [exact Hb|]. apply Z.pow_le_mono_r; lia. }
  replace p with (p - ts + s' + (ts - s'))%Z at 1 by lia. rewrite (Z.pow_add_r 10 (p - ts + s')) by lia.
  apply Z.mul_lt_mono_pos_r; [apply Z.pow_pos_nonneg; lia|done].
Qed.

(** ** Dates and times *)

Definition year_of (days : Z) : Z := fst (fst (civil_from_days days)).
Definition keeps_fraction (micros digits : Z) : Prop := (digits <= 6 -> micros mod 10 ^ (6 - digits) = 0)%Z.

Lemma date_text_spec d low high t : date_text d low high = inr t ->
  t = write_date d [] /\ (low <= year_of d <= high)%Z.
Proof.
  unfold date_text, write_date, year_of. destruct (civil_from_days d) as [[y m] dd]. cbn [fst].
  destruct (_ || _) eqn:Hb; [done|]. intros [= <-]. split; [done|lia].
Qed.
Lemma clock_text_spec m : signed_clock_text m = write_time m [].
Proof.
  unfold signed_clock_text, clock_text, write_time.
  assert (Hmin : (Z.abs m / 1000000 mod 3600 / 60 = Z.abs m / 1000000 / 60 mod 60)%Z).
  { generalize (Z.abs m / 1000000)%Z. intros x. Z.div_mod_to_equations. lia. }
  cbv zeta. rewrite Hmin. destruct (m <? 0)%Z, (Z.abs m mod 1000000 =? 0)%Z; app_norm; reflexivity.
Qed.
Lemma clock_text_write m : (0 <= m)%Z -> clock_text m = write_time m [].
Proof. intros Hm. rewrite <- clock_text_spec. unfold signed_clock_text. by destruct (m <? 0)%Z eqn:?; [lia|]. Qed.
Lemma fraction_fits_spec m d : fraction_fits m d = None -> keeps_fraction m d.
Proof.
  unfold fraction_fits, keeps_fraction. destruct (6 <=? d)%Z eqn:H6.
  - intros _ Hd. replace d with 6%Z by lia. apply Z.mod_1_r.
  - destruct (_ mod _ =b 0)%Z eqn:Hm; [|done]. intros _ _. lia.
Qed.
Lemma timestamp_text_spec m dg low high t : timestamp_text m dg low high = inr t ->
  t = write_timestamp m None [] /\ keeps_fraction m dg /\ (low <= year_of (m / DAY_MICROS) <= high)%Z.
Proof.
  unfold timestamp_text. destruct (fraction_fits m dg) eqn:Hf; [done|].
  fold DAY_MICROS. destruct (_ || _) eqn:Hr; [done|].
  destruct (date_text _ low high) as [|date] eqn:Hd; [done|]. intros [= <-].
  apply date_text_spec in Hd as [-> Hy]. split_and!; [|by apply fraction_fits_spec|lia..].
  unfold write_timestamp. rewrite as_i32_small by (unfold fits_i32; lia).
  rewrite clock_text_write by (apply Z.mod_pos_bound; done).
  unfold write_time. cbv zeta. destruct (_ mod 1000000 =? 0)%Z, (_ mod _ <? 0)%Z; app_norm; reflexivity.
Qed.

Section Cells.
Context `{Encoding}.

(** A decimal's scale is unsigned. *)
Definition value_ok (v : Value) : Prop := match v with VDecimal _ s => (0 <= s)%Z | _ => True end.
Definition int_range (size : Z) (u : bool) (n : Z) : Prop :=
  if u then (0 <= n < 2 ^ (size * 8))%Z else (- 2 ^ (size * 8 - 1) <= n < 2 ^ (size * 8 - 1))%Z.
Definition text_max (size : TextSize) : Z :=
  match size with SizeText => 65535 | SizeMedium => 16777215 | SizeLong => 4294967295 end.

(** What a MySQL column holds. *)
Definition mysql_holds (x : TargetType) (cell : MysqlCell) : Prop :=
  match x, cell with
  | _, CNull => True
  | Boolean, CInt n => n = 0%Z \/ n = 1%Z
  | Int size u, (CInt n | CUInt n) => int_range size u n
  | Numeric (Some p) s, CText t => exists u s', t = write_decimal u s' [] /\ fits_decimal p s u s'
  | FloatT _, CFloat f => is_infinite f = false
  | (Varchar n | Char n), CText t => (Z.of_nat (char_count t) <= n)%Z
  | Text size, CText t => (Z.of_nat (length t) <= text_max size)%Z
  | Binary (Some n), CBytes b => (Z.of_nat (length b) <= n)%Z
  | Binary None, CBytes _ => True
  | Date, CText t => exists d, t = write_date d [] /\ (1000 <= year_of d <= 9999)%Z
  | Time dg, CText t => exists m, t = write_time m [] /\ (Z.abs m <= 3020399000000)%Z /\ keeps_fraction m dg
  | DateTime dg, CText t =>
      exists m, t = write_timestamp m None [] /\ (1000 <= year_of (m / DAY_MICROS) <= 9999)%Z /\ keeps_fraction m dg
  | TJson, CText t => json_for_mysql t = None
  | _, _ => False
  end.

(** The cells that carry a value: the value itself, or a text that is exactly it.  [single] columns
    take the nearest [f32]; a timestamp with a zone is its instant's wall clock in UTC. *)
Inductive carries (single : bool) : Value -> MysqlCell -> Prop :=
| carries_null : carries single VNull CNull
| carries_bool b : carries single (VBool b) (CInt (if b then 1 else 0)%Z)
| carries_int v n : v = VInt n \/ v = VUInt n -> carries single v (CInt n)
| carries_uint v n : v = VInt n \/ v = VUInt n -> carries single v (CUInt n)
| carries_float f : carries single (VFloat f) (CFloat (if single then narrowed f else f))
| carries_decimal u s u' s' : (0 <= s')%Z -> same_number u s u' s' ->
    carries single (VDecimal u s) (CText (write_decimal u' s' []))
| carries_text t : carries single (VText t) (CText t)
| carries_bytes b : carries single (VBytes b) (CBytes b)
| carries_date d : carries single (VDate d) (CText (write_date d []))
| carries_time m : carries single (VTime m) (CText (write_time m []))
| carries_timestamp m o : carries single (VTimestamp m o) (CText (write_timestamp m None []))
| carries_json t : carries single (VJson t) (CText t)
| carries_composite v t : json_write v [] 0 = inr t -> carries single v (CText t).

(** The types a column of a MySQL plan may have for a source type. *)
Definition mysql_column (sql : SqlType) (source : DriverKind) (x : TargetType) : Prop :=
  exists r, resolved (map_type sql source TMysql) = Some r /\ (x = ty r \/ exists n, demotion (ty r) = Some (x, n)).

Lemma length_split_byte c s : length s + 1 = foldr (fun p n => length p + 1 + n) 0 (split_byte c s).
Proof.
  induction s as [|b s IH]; cbn [split_byte foldr length]; [lia|].
  destruct (b =b c); cbn [foldr length]; [lia|].
  destruct (split_byte c s) as [|w ws] eqn:Hw; [by apply split_byte_nonempty in Hw|]. cbn [foldr length] in *. lia.
Qed.
Lemma uuid_length t : is_uuid t = true -> length t = 36.
Proof.
  unfold is_uuid. intros [Hl Hg]%andb_true_iff. pose proof (length_split_byte DASH t) as Hs.
  destruct (split_byte DASH t) as [|a [|b [|c [|d [|e [|]]]]]]; try done.
  cbn [zip zip_with forallb fst snd] in Hg. repeat (apply andb_true_iff in Hg as [Hx Hg]; apply andb_true_iff in Hx as [?%Nat.eqb_eq _]).
  cbn [foldr] in Hs. lia.
Qed.
Lemma char_count_length t : char_count t <= length t.
Proof. unfold char_count. apply filter_length_le. Qed.

Lemma mysql_text_value sql source x t :
  mysql_column sql source x -> base sql ∈ [BText; BChar; BEnum; BSet] -> text_fits_mysql t x = None -> mysql_holds x (CText t).
Proof.
  intros (r & Hr & Hx) Hb Hfit.
  assert (Hty : (exists n, x = Varchar n \/ x = Char n) \/ exists size, x = Text size).
  { destruct sql as [b ? ? len ? ? ? ? ? ? ? ?]. cbn [base] in Hb.
    assert (Hr' : (exists n, ty r = Varchar n \/ ty r = Char n) \/ exists size, ty r = Text size).
    { clear Hx Hfit. repeat (apply elem_of_cons in Hb as [->|Hb]); [| | | |by apply elem_of_nil in Hb]; cbn in Hr;
        unfold map_text, map_char, mysql_text_for, exact, widened, fallback, resolve in Hr;
        repeat case_match; simplify_eq/=; eauto. }
    destruct Hx as [->|[n Hd]]; [done|]. right. destruct Hr' as [[m [Hm|Hm]]|[m Hm]]; rewrite Hm in Hd; cbn in Hd;
      unfold mysql_text_size_for in Hd; repeat case_match; simplify_eq; eauto. }
  destruct Hty as [[n [->| ->]]|[size ->]]; cbn in *; [| |destruct size]; cbn; case_match; simplify_eq; lia.
Qed.

(** The type of a column that is not text: the one of its base. *)
Definition mysql_type_of (sql : SqlType) (x : TargetType) : Prop :=
  match base sql with
  | BBool => x = Boolean
  | BInt8 | BInt16 | BInt24 | BInt32 | BInt64 => x = Int (default 8%Z (int_bytes (base sql))) (unsigned sql)
  | BFloat32 => x = FloatT false
  | BFloat64 => x = FloatT true
  | BDecimal => exists p s, x = Numeric (Some p) s /\ (0 <= s <= p)%Z
  | BText | BChar | BEnum | BSet => True
  | BUuid => x = Char 36 \/ x = Text SizeText
  | BBinary => exists n, x = Binary n
  | BDate => x = Date
  | BTime => x = Time (fraction sql)
  | BTimestamp | BTimestampTz => x = DateTime (fraction sql)
  | BJson | BJsonb | BArray | BMap | BRow => x = TJson
  | BTimeTz | BInterval | BBuiltin _ | BOther => False
  end.
Lemma mysql_column_type sql source x : described sql -> mysql_column sql source x -> mysql_type_of sql x.
Proof.
  intros Hd (r & Hr & Hx).
  assert (Hty : mysql_type_of sql (ty r)
    /\ (base sql = BUuid -> ty r = Char 36) /\ (base sql <> BUuid -> base sql ∉ [BText; BChar; BEnum; BSet; BBinary] -> demotion (ty r) = None)).
  { pose proof (map_type_declared sql source TMysql Hd r Hr) as Hdecl. destruct sql as [b p s l u z f d e fs o na].
    unfold mysql_type_of. cbn [base unsigned] in *. clear Hx.
    destruct b; cbn in Hr; unfold map_int, map_decimal, map_decimal_scaled, map_text, map_char, map_binary, too_fine, map_timestamp,
      map_composite, map_builtin, exact, widened, fallback, refuse, resolve in Hr; cbn in Hr;
      repeat case_match; simplify_eq/=; (split_and!; [|done|try done]); eauto; try set_solver. all: cbn in Hdecl.
    all: unfold MYSQL_DECIMAL_DIGITS, MYSQL_DECIMAL_SCALE; eexists _, _; (split; [done|]; lia). }
  destruct Hty as (Hty & Hu & Hn). destruct Hx as [->|[n Hx]]; [done|].
  unfold mysql_type_of in *. destruct (base sql); try (by rewrite Hn in Hx by set_solver); try done.
  - destruct Hty as [m Hm]. rewrite Hm in Hx. destruct m; simplify_eq/=. by eexists.
  - rewrite Hu in Hx by done. cbn in Hx. simplify_eq/=. by right.
Qed.

Lemma integer_spec sql v n : is_Some (int_bytes (base sql)) -> integer sql v = inr n ->
  (v = VInt n \/ v = VUInt n) /\ int_range (default 8%Z (int_bytes (base sql))) (unsigned sql) n.
Proof.
  unfold integer, int_range. intros [w Hw]. rewrite Hw. cbn [default].
  destruct v; try done; rewrite !Z.shiftl_1_l; destruct (unsigned sql); case_match; try done; intros [= <-];
    (split; [by auto|lia]).
Qed.
Lemma int_range_i64 size u n : (size <= 8)%Z -> int_range size u n -> fits_i64 n = false -> (0 <= n)%Z /\ (n <= U64_MAX)%Z.
Proof.
  unfold int_range, fits_i64, U64_MAX. intros Hs Hn Hf.
  assert (2 ^ (size * 8) <= 2 ^ 64)%Z by (apply Z.pow_le_mono_r; lia).
  assert (2 ^ (size * 8 - 1) <= 2 ^ 63)%Z by (apply Z.pow_le_mono_r; lia). destruct u; lia.
Qed.

Lemma mysql_int_sound sql v cell : is_Some (int_bytes (base sql)) -> (default 8 (int_bytes (base sql)) <= 8)%Z ->
  (let number := integer sql v in
   match number with
   | inl r => inl r
   | inr number =>
       if fits_i64 number then inr (CInt number)
       else if ((0 <=? number) && (number <=? U64_MAX))%Z then inr (CUInt number)
       else inl (OutOfRange "an integer outside 64 bits")
   end) = inr cell ->
  mysql_holds (Int (default 8%Z (int_bytes (base sql))) (unsigned sql)) cell /\ carries false v cell.
Proof.
  intros Hw Hs. cbv zeta. destruct (integer sql v) as [|n] eqn:Hi; [done|].
  apply integer_spec in Hi as [Hvn Hr]; [|done].
  destruct (fits_i64 n); [intros [= <-]; split; [done|by constructor]|].
  destruct (_ && _); [intros [= <-]; split; [done|by constructor]|done].
Qed.
Lemma mysql_timestamp_sound sql m o cell : mysql_timestamp sql m = inr cell ->
  mysql_holds (DateTime (fraction sql)) cell /\ carries false (VTimestamp m o) cell.
Proof.
  unfold mysql_timestamp. destruct (timestamp_text _ _ _ _) as [|t] eqn:Ht; [done|]. intros [= <-].
  apply timestamp_text_spec in Ht as (-> & Hf & Hy). split; [by exists m|constructor].
Qed.
Lemma mysql_composite_sound sql v cell : is_null v = false ->
  match json_of_composite (base sql) v with
  | inl r => inl r
  | inr text => match json_for_mysql text with Some r => inl r | None => inr (CText text) end
  end = inr cell -> mysql_holds TJson cell /\ carries false v cell.
Proof.
  intros Hn. destruct (json_of_composite _ v) as [|t] eqn:Hj; [done|]. destruct (json_for_mysql t) eqn:Hm; [done|].
  intros [= <-]. split; [done|]. apply carries_composite.
  unfold json_of_composite in Hj. by destruct (base sql), v.
Qed.

(** Every cell that is accepted fits its column and carries the value. *)
Lemma mysql_value_sound sql source x v cell :
  described sql -> mysql_column sql source x -> value_ok v -> is_null v = false ->
  mysql_value sql x v = inr cell -> mysql_holds x cell /\ carries (bool_decide (base sql = BFloat32)) v cell.
Proof.
  intros Hd Hc Hv Hn. pose proof (mysql_column_type _ _ _ Hd Hc) as Hty. unfold mysql_type_of in Hty.
  assert (Htext : forall t, base sql ∈ [BText; BChar; BEnum; BSet] ->
    match text_fits_mysql t x with Some r => inl r | None => inr (CText t) end = inr cell ->
    mysql_holds x cell /\ carries false (VText t) cell).
  { intros t Hb. destruct (text_fits_mysql t x) eqn:Hf; [done|]. intros [= <-].
    split; [by eapply mysql_text_value|constructor]. }
  pose proof (mysql_int_sound sql v cell) as Hint. pose proof (mysql_composite_sound sql v cell Hn) as Hcomp.
  unfold mysql_value. destruct (base sql) eqn:Hb; cbn [int_bytes default] in *; subst; try done;
    try (intros Hcell; apply Hint; [by eexists|by vm_compute|exact Hcell]);
    try (intros Hcell; apply Hcomp; exact Hcell); clear Hint Hcomp;
    try (destruct v; try done; intros Hcell; eapply Htext; [in_list|exact Hcell]); clear Htext.
  - destruct v; try done. intros [= <-]. split; [destruct b; cbn; auto|constructor].
  - destruct v; try done. destruct (is_finite f) eqn:Hf; [|done]. case_match eqn:Hz; [done|]. intros [= <-].
    apply orb_false_iff in Hz as [Hz _]. split; [exact Hz|exact (carries_float true f)].
  - destruct v; try done. destruct (is_finite f) eqn:Hf; [|done]. intros [= <-]. split; [|exact (carries_float false f)].
    unfold is_finite in Hf. cbn. by destruct (is_infinite f), (is_nan f).
  - destruct Hty as (p & s & -> & Hs). destruct v; try done. destruct (decimal_text _ _ _ _) as [|t] eqn:Ht; [done|].
    intros [= <-]. apply decimal_text_spec in Ht as (u' & s' & -> & Hs' & Hsame & Hfit); [|done|lia|intros ? [= <-]; lia].
    split; [exists u', s'; split; [done|]; by apply Hfit|by constructor].
  - destruct Hty as [n ->]. destruct v; try done. destruct n as [n|].
    + destruct (n <? _)%Z eqn:Hl; [done|]. intros [= <-]. split; [cbn; lia|constructor].
    + intros [= <-]. split; [done|constructor].
  - destruct v; try done. destruct (is_uuid t) eqn:Hu; [|done]. intros [= <-]. split; [|constructor].
    pose proof (uuid_length t Hu). pose proof (char_count_length t). destruct Hty as [->| ->]; cbn; lia.
  - destruct v; try done. destruct (date_text _ _ _) as [|t] eqn:Ht; [done|]. intros [= <-].
    apply date_text_spec in Ht as [-> Hy]. split; [by exists days|constructor].
  - destruct v; try done. destruct (_ <? _)%Z eqn:Hm; [done|]. destruct (fraction_fits _ _) eqn:Hf; [done|]. intros [= <-].
    rewrite clock_text_spec. split; [exists micros; split_and!; [done|lia|by apply fraction_fits_spec]|constructor].
  - destruct v as [| | | | | | | |? [?|]| | | | | | | |]; try done. by apply mysql_timestamp_sound.
  - destruct v as [| | | | | | | |? [?|]| | | | | | | |]; try done. by apply mysql_timestamp_sound.
  - destruct v; try done. destruct (json_for_mysql t) eqn:Hj; [done|]. intros [= <-]. split; [done|constructor].
  - destruct v; try done. destruct (json_for_mysql t) eqn:Hj; [done|]. intros [= <-]. split; [done|constructor].
Qed.

Lemma mysql_row_loop_spec columns : forall index values,
  match mysql_row_loop index columns values with
  | inr cells => Forall2 (fun p cell => mysql_cell (fst p) (snd p) = inr cell) (zip columns values) cells
      /\ length columns = length values
  | inl v => exists i, vi_column v = index + i /\ i <= length columns
      /\ (vi_rule v = Arity /\ length columns <> length values
          \/ exists c value, columns !! i = Some c /\ values !! i = Some value /\ mysql_cell c value = inl (vi_rule v))
  end.
Proof.
  induction columns as [|c columns IH]; intros index [|value values]; cbn;
    try (exists 0; rewrite Nat.add_0_r; cbn; split_and!; [done|lia|by left]).
  { split; [constructor|done]. }
  destruct (mysql_cell c value) as [r|cell] eqn:Hc.
  { exists 0. rewrite Nat.add_0_r. split_and!; [done|lia|]. right. by exists c, value. }
  specialize (IH (S index) values). destruct (mysql_row_loop _ _ _) as [v|cells].
  - destruct IH as (i & Hi & Hle & Hr). exists (S i). split_and!; [lia|lia|].
    destruct Hr as [[? ?]|Hr]; [left; split; [done|lia]|by right].
  - destruct IH as [IH Hl]. split; [by constructor|by f_equal].
Qed.

(** A column of a planned MySQL table. *)
Lemma sound_mysql_column source col c : sound_column source TMysql col c ->
  mysql_column (pc_ty c) source (ty (pc_resolved c)).
Proof.
  intros (_ & -> & _ & _ & _ & _ & _ & r & Hr & Hx). exists r. split; [done|].
  destruct Hx as [->|[_ [n Hx]]]; [by left|right; by exists n].
Qed.

(** C16: A row that is accepted for a planned MySQL table has one cell for every column, every cell
    fits the type its column was created with, and every cell carries its value: the same integer,
    number, text, bytes, date, time or instant, nothing rounded and nothing cut; a refused row has
    the wrong number of values or names the column whose value was refused. *)
Theorem mysql_rows_arrive_whole `{Unicode} source columns plan values :
  plan_table source TMysql columns = Some (inr plan) ->
  Forall (fun col => described (snd col)) columns -> Forall value_ok values ->
  match mysql_row (tp_columns plan) values with
  | inr cells =>
      length (tp_columns plan) = length values
      /\ Forall2 (fun p cell => mysql_holds (ty (pc_resolved (fst p))) cell
                   /\ carries (bool_decide (base (pc_ty (fst p)) = BFloat32)) (snd p) cell)
           (zip (tp_columns plan) values) cells
  | inl v =>
      vi_rule v = Arity /\ length (tp_columns plan) <> length values
      \/ exists c value, tp_columns plan !! vi_column v = Some c /\ values !! vi_column v = Some value
           /\ mysql_cell c value = inl (vi_rule v)
  end.
Proof.
  intros Hplan Hd Hv.
  assert (Hs : Forall (fun c => described (pc_ty c) /\ mysql_column (pc_ty c) source (ty (pc_resolved c))) (tp_columns plan)).
  { destruct (plan_table_sound source TMysql columns plan Hplan) as (_ & Hs & _).
    clear Hplan Hv. induction Hs as [|col c columns' cs Hc Hs IH]; [constructor|].
    apply Forall_cons in Hd as [Hd Hds]. constructor; [|by apply IH]. split; [|by eapply sound_mysql_column].
    destruct Hc as (_ & -> & _). done. }
  unfold mysql_row. pose proof (mysql_row_loop_spec (tp_columns plan) 0 values) as Hrow.
  destruct (mysql_row_loop _ _ _) as [v|cells].
  - destruct Hrow as (i & -> & _ & Hr). destruct Hr as [?|?]; [by left|right; done].
  - destruct Hrow as [Hf Hl]. split; [done|]. clear Hplan Hd.
    revert values cells Hv Hf Hl. induction Hs as [|c cs [Hdc Hc] Hs IH]; intros [|v vs] cells Hv Hf Hl; try done; cbn in *;
      inversion Hf as [|? cell ? cells' Hcell Hrest]; subst; [constructor|].
    apply Forall_cons in Hv as [Hv Hvs]. constructor; [|by apply IH; [| |lia]]. cbn [fst snd] in *.
    unfold mysql_cell in Hcell. destruct (is_null v) eqn:Hn.
    + injection Hcell as <-. destruct v; try done. split; [|constructor]. by destruct (ty (pc_resolved c)) as [| |[?|]| | | | |[?|]| | | | | | | | | | | |].
    + by eapply mysql_value_sound.
Qed.
End Cells.

(** ** PostgreSQL's COPY text *)

(** A reader of one line of [COPY] text, from the format's description: fields apart by tabs, [\N] a
    NULL, and a backslash before a letter of the format's escapes or before itself. *)
Fixpoint copy_unescape (s : bytes) : option bytes :=
  match s with
  | [] => Some []
  | b :: s =>
      if b =b BACKSLASH then
        match s with
        | [] => None
        | e :: s =>
            let c := if e =b BACKSLASH then Some BACKSLASH
                     else if e =b 110 then Some LF else if e =b 114 then Some CR else if e =b 116 then Some 9%Z else None in
            match c, copy_unescape s with Some c, Some t => Some (c :: t) | _, _ => None end
        end
      else cons b <$> copy_unescape s
  end.
Definition copy_field (s : bytes) : option (option bytes) :=
  if bytes_eqb s (B "\N") then Some None else Some <$> copy_unescape s.
Definition copy_line (s : bytes) : list (option (option bytes)) := copy_field <$> split_byte 9 s.
(** The lines of a whole stream. *)
Definition copy_read (s : bytes) : list (list (option (option bytes))) := copy_line <$> removelast (split_byte LF s).

Lemma copy_escape_clean b : Forall (fun x => x <> 9%Z /\ x <> LF) (copy_escape b).
Proof.
  assert (H2 : forall x y, x <> 9%Z /\ x <> LF -> y <> 9%Z /\ y <> LF -> Forall (fun x => x <> 9%Z /\ x <> LF) [x; y])
    by (intros; repeat (constructor; [done|]); constructor).
  unfold copy_escape. repeat case_match; try (by apply H2). constructor; [|constructor]. byte_lia.
Qed.
Lemma copy_escaped_clean t : Forall (fun x => x <> 9%Z /\ x <> LF) (mjoin (copy_escape <$> t)).
Proof.
  induction t as [|b t IH]; cbn [fmap list_fmap mjoin list_join]; [constructor|].
  apply Forall_app. split; [apply copy_escape_clean|exact IH].
Qed.
Lemma copy_unescape_escape t : copy_unescape (mjoin (copy_escape <$> t)) = Some t.
Proof.
  induction t as [|b t IH]; [done|]. change (mjoin (copy_escape <$> b :: t)) with (copy_escape b ++ mjoin (copy_escape <$> t)).
  unfold copy_escape at 1.
  destruct (b =b BACKSLASH) eqn:E1; [apply Z.eqb_eq in E1 as ->; cbn; by rewrite IH|].
  destruct (b =b LF) eqn:E2; [apply Z.eqb_eq in E2 as ->; cbn; by rewrite IH|].
  destruct (b =b CR) eqn:E3; [apply Z.eqb_eq in E3 as ->; cbn; by rewrite IH|].
  destruct (b =b 9) eqn:E4; [apply Z.eqb_eq in E4 as ->; cbn; by rewrite IH|].
  cbn [app copy_unescape]. by rewrite E1, IH.
Qed.
Lemma copy_escaped_not_null t : bytes_eqb (mjoin (copy_escape <$> t)) (B "\N") = false.
Proof.
  destruct (bytes_eqb _ _) eqn:Hb; [|done]. apply bytes_eqb_eq in Hb.
  pose proof (copy_unescape_escape t) as Hu. rewrite Hb in Hu. discriminate Hu.
Qed.

Definition field_bytes (f : option bytes) : bytes :=
  match f with None => B "\N" | Some t => mjoin (copy_escape <$> t) end.
Lemma field_bytes_clean f : Forall (fun x => x <> 9%Z /\ x <> LF) (field_bytes f).
Proof. destruct f; [apply copy_escaped_clean|by repeat (constructor; [done|])]. Qed.
Lemma field_bytes_read f : copy_field (field_bytes f) = Some f.
Proof. destruct f; [|done]. unfold copy_field. cbn [field_bytes]. by rewrite copy_escaped_not_null, copy_unescape_escape. Qed.
Lemma split_fields w ws : Forall (fun x => x <> 9%Z /\ x <> LF) w -> Forall (Forall (fun x => x <> 9%Z /\ x <> LF)) ws ->
  split_byte 9 (w ++ mjoin (cons 9%Z <$> ws)) = w :: ws.
Proof.
  assert (Hno : forall x, Forall (fun x => x <> 9%Z /\ x <> LF) x -> Forall (fun b => b <> 9%Z) x)
    by (intros x Hx; eapply Forall_impl; [exact Hx|by intros ? [? ?]]).
  intros Hw Hws. revert w Hw. induction Hws as [|v ws Hv Hws IH]; intros w Hw; cbn [fmap list_fmap mjoin list_join].
  - rewrite app_nil_r. by apply split_byte_none, Hno.
  - cbn [app]. rewrite split_byte_app, split_byte_none by (by apply Hno). cbn [app]. f_equal. by apply IH.
Qed.
Lemma copy_read_app a line : a = [] \/ last a = Some LF -> Forall (fun x => x <> LF) line ->
  copy_read (a ++ line ++ [LF]) = copy_read a ++ [copy_line line].
Proof.
  intros Ha Hl. unfold copy_read.
  assert (Hone : split_byte LF (line ++ [LF]) = [line; []]) by (rewrite split_byte_app, split_byte_none; done).
  destruct Ha as [->|Ha]; [by rewrite app_nil_l, Hone|].
  apply last_Some in Ha as [a' ->]. rewrite <- app_assoc.
  change ([LF] ++ line ++ [LF]) with (LF :: (line ++ [LF])). rewrite (split_byte_app LF a' (line ++ [LF])), Hone, (split_byte_app LF a' []).
  change (split_byte LF []) with [@nil Z]. rewrite removelast_last.
  change [line; []] with ([line] ++ [[]]). rewrite app_assoc, removelast_last. by rewrite fmap_app.
Qed.

Section Copy.
Context `{Encoding}.

Lemma copy_fields_extend columns : forall index values out,
  exists x, snd (copy_fields index columns values out) = out ++ x.
Proof.
  induction columns as [|c columns IH]; intros index [|v values] out; cbn -[Nat.ltb B]; try (exists []; by rewrite app_nil_r).
  assert (Htab : exists x, (if 0 <? index then out ++ [9%Z] else out) = out ++ x)
    by (destruct (0 <? index); [by eexists|exists []; by rewrite app_nil_r]).
  destruct Htab as [tab ->]. destruct (pg_text c v) as [r|[t|]]; [by exists tab| |].
  - destruct (IH (S index) values (escape_copy t (out ++ tab))) as [x ->]. unfold escape_copy. rewrite <- !app_assoc. by eexists.
  - destruct (IH (S index) values ((out ++ tab) ++ B "\N")) as [x ->]. rewrite <- !app_assoc. by eexists.
Qed.
Lemma copy_fields_more columns : forall index values out out', 0 < index ->
  copy_fields index columns values out = (None, out') ->
  exists fields, Forall2 (fun p f => pg_text (fst p) (snd p) = inr f) (zip columns values) fields
    /\ length columns = length values /\ out' = out ++ mjoin (cons 9%Z <$> (field_bytes <$> fields)).
Proof.
  induction columns as [|c columns IH]; intros index [|v values] out out' Hi; cbn -[Nat.ltb B]; try done.
  { intros [= <-]. exists []. split_and!; [constructor|done|by rewrite app_nil_r]. }
  rewrite (proj2 (Nat.ltb_lt 0 index) Hi).
  destruct (pg_text c v) as [r|f] eqn:Hf; [done|].
  intros Hc. assert (Hc' : copy_fields (S index) columns values (out ++ 9%Z :: field_bytes f) = (None, out')).
  { rewrite <- Hc. destruct f as [t|]; cbn [field_bytes]; unfold escape_copy; by rewrite <- app_assoc. }
  apply IH in Hc' as (fields & Hfs & Hl & ->); [|lia]. exists (f :: fields).
  split_and!; [by constructor|by f_equal|]. rewrite <- app_assoc. done.
Qed.
Lemma copy_fields_first columns values out out' : columns <> [] ->
  copy_fields 0 columns values out = (None, out') ->
  exists f fields, Forall2 (fun p f => pg_text (fst p) (snd p) = inr f) (zip columns values) (f :: fields)
    /\ length columns = length values
    /\ out' = out ++ field_bytes f ++ mjoin (cons 9%Z <$> (field_bytes <$> fields)).
Proof.
  destruct columns as [|c columns], values as [|v values]; try done. intros _. cbn.
  destruct (pg_text c v) as [r|f] eqn:Hf; [done|].
  intros Hc. assert (Hc' : copy_fields 1 columns values (out ++ field_bytes f) = (None, out')) by (rewrite <- Hc; by destruct f).
  apply copy_fields_more in Hc' as (fields & Hfs & Hl & ->); [|lia]. exists f, fields.
  split_and!; [by constructor|by f_equal|by rewrite <- app_assoc].
Qed.
Lemma copy_fields_refused columns : forall index values out v out',
  copy_fields index columns values out = (Some v, out') ->
  vi_rule v = Arity /\ length columns <> length values
  \/ exists i c value, vi_column v = index + i /\ columns !! i = Some c /\ values !! i = Some value
       /\ pg_text c value = inl (vi_rule v).
Proof.
  induction columns as [|c columns IH]; intros index [|value values] out v out'; cbn -[Nat.ltb B]; try done;
    try (intros [= <- <-]; left; split; [done|cbn; lia]).
  destruct (pg_text c value) as [r|f] eqn:Hf.
  { intros [= <- <-]. right. exists 0, c, value. rewrite Nat.add_0_r. done. }
  intros Hc. assert (Hex : exists o, copy_fields (S index) columns values o = (Some v, out')) by (destruct f; by eexists).
  destruct Hex as [o Hc']. apply IH in Hc' as [[? ?]|(i & c' & value' & Hi & Hr)]; [left; split; [done|lia]|].
  right. exists (S i), c', value'. split; [lia|done].
Qed.

(** The line of an accepted row. *)
Definition row_line (columns : list PlannedColumn) (values : list Value) (fields : list (option (option bytes))) : Prop :=
  length columns = length values
  /\ exists texts, fields = Some <$> texts /\ Forall2 (fun p f => pg_text (fst p) (snd p) = inr f) (zip columns values) texts.
Lemma copy_row_appends columns values out out' : columns <> [] -> copy_row columns values out = (None, out') ->
  exists line fields, out' = out ++ line ++ [LF] /\ Forall (fun x => x <> LF) line /\ (NUL ∉ line ++ [LF])
    /\ copy_line line = fields /\ row_line columns values fields.
Proof.
  intros Hne. unfold copy_row, write_copy_row.
  destruct (copy_fields 0 columns values out) as [[v|] out''] eqn:Hc; [done|].
  destruct (copy_fields_first _ _ _ _ Hne Hc) as (f & fields & Hfs & Hl & ->).
  destruct (existsb _ _) eqn:Hnul; [done|]. intros [= <-]. rewrite <- app_assoc, drop_app_length in Hnul.
  exists (field_bytes f ++ mjoin (cons 9%Z <$> (field_bytes <$> fields))), (Some <$> f :: fields).
  assert (Hclean : Forall (Forall (fun x => x <> 9%Z /\ x <> LF)) (field_bytes <$> fields))
    by (apply Forall_fmap, Forall_forall; intros; apply field_bytes_clean).
  split_and!; [by rewrite <- app_assoc| | | |].
  - apply Forall_app. split; [eapply Forall_impl; [apply field_bytes_clean|by intros ? [? ?]]|].
    clear -Hclean. induction Hclean as [|w ws Hw Hws IH]; cbn [fmap list_fmap mjoin list_join]; [constructor|].
    apply Forall_app. split; [|done]. constructor; [done|]. eapply Forall_impl; [exact Hw|by intros ? [? ?]].
  - intros Hin. apply not_true_iff_false in Hnul. apply Hnul, existsb_exists. exists NUL.
    split; [by apply list_elem_of_In|done].
  - unfold copy_line. rewrite split_fields by (done || apply field_bytes_clean).
    cbn [fmap list_fmap]. rewrite field_bytes_read. f_equal. clear. induction fields; cbn; [done|]. by rewrite field_bytes_read, IHfields.
  - split; [done|]. by exists (f :: fields).
Qed.

(** C32: A row accepted for PostgreSQL is appended as one line that [COPY] reads back as the very
    texts of its values, a NULL as a NULL, whatever bytes the texts have, and the rows before it are
    read as before; a refused row leaves the buffer as it was and says why. *)
Theorem copy_rows_read_back columns values out :
  columns <> [] -> out = [] \/ last out = Some LF ->
  match copy_row columns values out with
  | (None, out') =>
      length columns = length values /\ last out' = Some LF /\ (NUL ∉ drop (length out) out')
      /\ exists fields, Forall2 (fun p f => pg_text (fst p) (snd p) = inr f) (zip columns values) fields
           /\ copy_read out' = copy_read out ++ [Some <$> fields]
  | (Some v, out') =>
      out' = out
      /\ (vi_rule v = Nul \/ vi_rule v = Arity /\ length columns <> length values
          \/ exists c value, columns !! vi_column v = Some c /\ values !! vi_column v = Some value
               /\ pg_text c value = inl (vi_rule v))
  end.
Proof.
  intros Hne Hout. unfold copy_row, write_copy_row.
  destruct (copy_fields 0 columns values out) as [[v|] out'] eqn:Hc.
  { destruct (copy_fields_extend columns 0 values out) as [x Hx]. rewrite Hc in Hx. cbn in Hx. subst out'.
    rewrite take_app_length. split; [done|]. right.
    destruct (copy_fields_refused _ _ _ _ _ _ Hc) as [?|(i & c & value & Hi & Hr)]; [by left|right]. cbn in Hi. subst i. eauto. }
  destruct (copy_fields_first _ _ _ _ Hne Hc) as (f & fields & Hfs & Hl & ->).
  destruct (existsb _ _) eqn:Hnul; [rewrite <- app_assoc, take_app_length; split; [done|by left]|].
  assert (Hr : copy_row columns values out = (None, (out ++ field_bytes f ++ mjoin (cons 9%Z <$> (field_bytes <$> fields))) ++ [LF]))
    by (unfold copy_row, write_copy_row; by rewrite Hc, Hnul).
  apply copy_row_appends in Hr as (line & fs & -> & Hline & Hn & <- & _ & texts & Ht & Htexts); [|done].
  rewrite drop_app_length. split_and!; [done|by rewrite app_assoc, last_snoc|done|].
  exists texts. split; [done|]. by rewrite copy_read_app, Ht.
Qed.
End Copy.

(** ** Witnesses *)

(** Floats and JSON as in [ValueSpec], with every text taken for JSON. *)
Definition plain_float : Float :=
  {| f64 := unit; is_nan _ := false; is_infinite _ := false; is_sign_negative _ := false; is_zero _ := false;
     log10_floor _ := 0%Z; display _ := B "1.5"; display_exp _ := B "1.5e0"; parse_f64 _ := Some tt; infinity := tt;
     neg_infinity := tt; of_decimal _ _ := tt |}.
Definition plain_encoding : @Encoding plain_float :=
  {| parse_json _ := Some (@JNull plain_float); narrowed f := f; above_zero _ := true |}.
#[local] Existing Instances plain_float plain_encoding ascii_unicode.

Definition sample_values : list Value := [VUInt 18446744073709551615; VText (B "x"); VNull; VDecimal 150 2].
Lemma mysql_rows_arrive_whole_witness :
  match mysql_row (tp_columns sample_plan) sample_values with
  | inr cells =>
      length (tp_columns sample_plan) = length sample_values
      /\ Forall2 (fun p cell => mysql_holds (ty (pc_resolved (fst p))) cell
                   /\ carries (bool_decide (base (pc_ty (fst p)) = BFloat32)) (snd p) cell)
           (zip (tp_columns sample_plan) sample_values) cells
  | inl v => False
  end /\ mysql_row (tp_columns sample_plan) sample_values
         = inr [CUInt 18446744073709551615; CText (B "x"); CNull; CText (B "1.50")].
Proof.
  assert (Hc : mysql_row (tp_columns sample_plan) sample_values
    = inr [CUInt 18446744073709551615; CText (B "x"); CNull; CText (B "1.50")]) by (vm_compute; reflexivity).
  split; [|exact Hc].
  pose proof (mysql_rows_arrive_whole DMysql sample_columns sample_plan sample_values) as Hw.
  rewrite Hc in Hw |- *. apply Hw.
  - vm_compute; reflexivity.
  - repeat (apply Forall_cons; split; [cbn; split_and!; try done; intros n Hn; simplify_eq; lia|]). apply Forall_nil. done.
  - repeat (apply Forall_cons; split; [cbn; lia|]). apply Forall_nil. done.
Defined.

Definition copy_columns : list PlannedColumn :=
  match plan_table DTrino TPostgres [(B "a", sql_of BText); (B "b", sql_of BInt32)] with
  | Some (inr p) => tp_columns p | _ => [] end.
Lemma copy_rows_read_back_witness :
  exists fields, copy_read (snd (copy_row copy_columns [VText (B "x\N"); VNull] [])) = [] ++ [Some <$> fields]
    /\ fields = [Some (B "x\N"); None].
Proof.
  pose proof (copy_rows_read_back copy_columns [VText (B "x\N"); VNull] [] ltac:(discriminate) (or_introl eq_refl)) as Hw.
  destruct (copy_row copy_columns [VText (B "x\N"); VNull] []) as [[v|] out'] eqn:Hc; [vm_compute in Hc; discriminate|].
  destruct Hw as (_ & _ & _ & fields & Hf & Hr). exists fields. split; [exact Hr|].
  inversion Hf as [|? f1 ? fs1 H1 Hf1]; subst. inversion Hf1 as [|? f2 ? fs2 H2 Hf2]; subst. inversion Hf2; subst.
  vm_compute in H1, H2. injection H1 as <-. injection H2 as <-. reflexivity.
Defined.
