(* ===== verification/PgTextSpec.v ===== *)
(** * PgTextSpec: every text accepted for a PostgreSQL column is one its type takes, and carries the
    value; array literals are read back by a reader of their own. *)
From stdpp Require Import sets.
From S2P Require Import Prelude Bytes Text Ident Guard Dates Value Json SqlType Names Types TypesSpec Encode EncodeSpec.
#[local] Open Scope nat_scope.
#[local] Abbreviation length := List.length.

(** ** Reading an array literal *)

(** An element after its opening quote. *)
Fixpoint quoted (s : bytes) : option (bytes * bytes) :=
  match s with
  | [] => None
  | b :: s =>
      if b =b DQUOTE then Some ([], s)
      else if b =b BACKSLASH then
        match s with
        | [] => None
        | c :: s => match quoted s with Some (t, rest) => Some (c :: t, rest) | None => None end
        end
      else match quoted s with Some (t, rest) => Some (b :: t, rest) | None => None end
  end.
Fixpoint array_elements (fuel : nat) (s : bytes) : option (list (option bytes)) :=
  match fuel with
  | O => None
  | S fuel =>
      let item := match s with
                  | b :: s1 => if b =b DQUOTE then match quoted s1 with Some (t, rest) => Some (Some t, rest) | None => None end
                               else match strip_prefix s (B "NULL") with Some rest => Some (None, rest) | None => None end
                  | [] => None
                  end in
      match item with
      | Some (o, c :: rest) =>
          if c =b COMMA then cons o <$> array_elements fuel rest
          else if (c =b 125) && bytes_eqb rest [] then Some [o] else None
      | _ => None
      end
  end.
Definition array_read (s : bytes) : option (list (option bytes)) :=
  match s with
  | b :: rest => if b =b 123 then if bytes_eqb rest [125%Z] then Some [] else array_elements (length rest) rest else None
  | [] => None
  end.

Definition element_text (o : option bytes) : bytes :=
  match o with None => B "NULL" | Some t => [DQUOTE] ++ array_escape t ++ [DQUOTE] end.
Definition more_elements (os : list (option bytes)) : bytes := mjoin (cons COMMA <$> (element_text <$> os)) ++ [125%Z].

Lemma quoted_escape t rest : quoted (array_escape t ++ DQUOTE :: rest) = Some (t, rest).
Proof.
  induction t as [|b t IH]; [done|].
  change (array_escape (b :: t)) with ((if (b =b DQUOTE) || (b =b BACKSLASH) then [BACKSLASH; b] else [b]) ++ array_escape t).
  rewrite <- app_assoc. destruct (b =b DQUOTE) eqn:E1; [cbn; by rewrite IH|]. destruct (b =b BACKSLASH) eqn:E2; [cbn; by rewrite IH|].
  cbn [orb app quoted]. by rewrite E1, E2, IH.
Qed.
Lemma element_read o rest : match element_text o ++ rest with
    | b :: s1 => if b =b DQUOTE then match quoted s1 with Some (t, rest) => Some (Some t, rest) | None => None end
                 else match strip_prefix (element_text o ++ rest) (B "NULL") with Some rest => Some (None, rest) | None => None end
    | [] => None
    end = Some (o, rest).
Proof.
  destruct o as [t|].
  - unfold element_text. rewrite <- !app_assoc. cbn [app]. change (DQUOTE =b DQUOTE) with true. cbv iota.
    by rewrite quoted_escape.
  - unfold element_text. cbn -[strip_prefix B]. by rewrite (proj2 (strip_prefix_some (B "NULL" ++ rest) (B "NULL") rest)).
Qed.
Lemma array_elements_read os : forall o fuel, length os < fuel ->
  array_elements fuel (element_text o ++ more_elements os) = Some (o :: os).
Proof.
  induction os as [|o' os IH]; intros o [|fuel] Hf; try (cbn in Hf; lia); cbn [array_elements]; rewrite element_read.
  - done.
  - change (more_elements (o' :: os)) with ((COMMA :: element_text o' ++ mjoin (cons COMMA <$> (element_text <$> os))) ++ [125%Z]).
    cbn [app]. change (COMMA =b COMMA) with true. cbv iota. rewrite <- app_assoc.
    change (mjoin _ ++ [125%Z]) with (more_elements os). rewrite IH by (cbn in Hf; lia). done.
Qed.
Lemma more_elements_length os : length os < length (more_elements os).
Proof.
  unfold more_elements. rewrite length_app. cbn [length]. induction os as [|o os IH]; [cbn; lia|].
  change (mjoin (cons COMMA <$> (element_text <$> o :: os)))
    with ((COMMA :: element_text o) ++ mjoin (cons COMMA <$> (element_text <$> os))). rewrite length_app. cbn [length]. lia.
Qed.
Lemma array_literal_read o os : array_read (123%Z :: element_text o ++ more_elements os) = Some (o :: os).
Proof.
  unfold array_read. change (123 =b 123)%Z with true. cbv iota.
  destruct (bytes_eqb _ _) eqn:Hb.
  { apply bytes_eqb_eq in Hb. apply (f_equal length) in Hb. rewrite length_app in Hb.
    destruct o; cbn in Hb; rewrite ?length_app in Hb; cbn in Hb; lia. }
  apply array_elements_read. rewrite length_app. pose proof (more_elements_length os). lia.
Qed.


Section PgTexts.
Context `{Encoding}.

Lemma array_items_more element vs : forall lit out, array_items element false vs lit = inr out ->
  exists os, Forall2 (fun v o => if is_null v then o = None else exists t, o = Some t /\ element v = inr t) vs os
    /\ out = lit ++ more_elements os.
Proof.
  induction vs as [|v vs IH]; intros lit out; cbn -[B].
  { intros [= <-]. exists []. by split; [constructor|]. }
  assert (Hstep : forall o, array_items element false vs ((lit ++ [COMMA]) ++ element_text o) = inr out ->
    (if is_null v then o = None else exists t, o = Some t /\ element v = inr t) ->
    exists os, Forall2 (fun v o => if is_null v then o = None else exists t, o = Some t /\ element v = inr t) (v :: vs) os
      /\ out = lit ++ more_elements os).
  { intros o Hi Ho. apply IH in Hi as (os & Hos & ->). exists (o :: os). split; [by constructor|].
    rewrite <- !app_assoc. f_equal. change (more_elements (o :: os)) with (((COMMA :: element_text o) ++ mjoin (cons COMMA <$> (element_text <$> os))) ++ [125%Z]).
    unfold more_elements. by rewrite <- !app_assoc. }
  destruct (is_null v); [intros Hi; by apply (Hstep None)|].
  destruct (element v) as [|t] eqn:He; [done|]. intros Hi. apply (Hstep (Some t)); [exact Hi|by exists t].
Qed.
Lemma array_items_read element vs out : array_items element true vs [123%Z] = inr out ->
  exists os, array_read out = Some os
    /\ Forall2 (fun v o => if is_null v then o = None else exists t, o = Some t /\ element v = inr t) vs os.
Proof.
  destruct vs as [|v vs]; cbn -[B]; [intros [= <-]; exists []; by split|].
  assert (Hstep : forall o, array_items element false vs ([123%Z] ++ element_text o) = inr out ->
    (if is_null v then o = None else exists t, o = Some t /\ element v = inr t) ->
    exists os, array_read out = Some os
      /\ Forall2 (fun v o => if is_null v then o = None else exists t, o = Some t /\ element v = inr t) (v :: vs) os).
  { intros o Hi Ho. apply array_items_more in Hi as (os & Hos & ->). exists (o :: os).
    rewrite <- app_assoc. split; [apply array_literal_read|by constructor]. }
  destruct (is_null v); [intros Hi; by apply (Hstep None)|].
  destruct (element v) as [|t] eqn:He; [done|]. intros Hi. apply (Hstep (Some t)); [exact Hi|by exists t].
Qed.

(** What PostgreSQL's input of a type takes.  The spellings forwarded from another PostgreSQL are
    the closed ones, and its arrays come as the server printed them. *)
Fixpoint pg_holds (x : TargetType) (t : bytes) : Prop :=
  match x with
  | Boolean => t = B "t" \/ t = B "f"
  | Int size _ => exists n, t = signed n /\ int_range size false n
  | Numeric (Some p) s => t = B "NaN" \/ exists u s', t = write_decimal u s' [] /\ fits_decimal p s u s'
  | Numeric None _ => is_numeric_special t = true \/ exists u s', t = write_decimal u s' []
  | FloatT _ => exists f, t = pg_float f
  | Varchar n | Char n => no_nul t = None /\ (Z.of_nat (char_count t) <= n)%Z
  | Text _ | Builtin _ _ => no_nul t = None
  | Binary _ => exists b, t = B "\x" ++ hex_encode b
  | Uuid => is_uuid t = true
  | Date => is_pg_infinity t = true \/ is_iso_date_bc t = true \/ exists d, t = write_date d [] /\ (1 <= year_of d)%Z
  | Time dg => exists m, t = write_time m [] /\ (0 <= m <= DAY_MICROS)%Z /\ keeps_fraction m dg
  | TimeTz _ => is_timetz t = true
  | Timestamp dg =>
      is_pg_infinity t = true \/ is_iso_timestamp_bc t false = true
      \/ exists m, t = write_timestamp m None [] /\ (1 <= year_of (m / DAY_MICROS))%Z /\ keeps_fraction m dg
  | TimestampTz dg =>
      is_pg_infinity t = true \/ is_iso_timestamp_bc t true = true
      \/ exists m, t = write_timestamp m None [] ++ B "+00:00" /\ (1 <= year_of (m / DAY_MICROS))%Z /\ keeps_fraction m dg
  | Interval => exists i, t = interval_text i
  | TJson => no_nul t = None /\ is_Some (parse_json t)
  | Jsonb => json_for_jsonb t = None
  | Array inner =>
      no_nul t = None /\ starts_with t [123%Z] = true /\ Text.ends_with t [125%Z] = true
      \/ exists os, array_read t = Some os /\ Forall (fun o => forall s, o = Some s -> pg_holds inner s) os
  | DateTime _ => False
  end.

(** The texts that carry a value. *)
Inductive pg_carries : Value -> bytes -> Prop :=
| pgc_bool b : pg_carries (VBool b) (if b then B "t" else B "f")
| pgc_int v n : v = VInt n \/ v = VUInt n -> pg_carries v (signed n)
| pgc_float f : pg_carries (VFloat f) (pg_float f)
| pgc_decimal u s u' s' : (0 <= s')%Z -> same_number u s u' s' -> pg_carries (VDecimal u s) (write_decimal u' s' [])
| pgc_text t : pg_carries (VText t) t
| pgc_bytes b : pg_carries (VBytes b) (B "\x" ++ hex_encode b)
| pgc_date d : pg_carries (VDate d) (write_date d [])
| pgc_time m : pg_carries (VTime m) (write_time m [])
| pgc_timestamp m : pg_carries (VTimestamp m None) (write_timestamp m None [])
| pgc_instant m o : pg_carries (VTimestamp m (Some o)) (write_timestamp m None [] ++ B "+00:00")
| pgc_interval i : pg_carries (VInterval i) (interval_text i)
| pgc_json t : pg_carries (VJson t) t
| pgc_composite v t : json_write v [] 0 = inr t -> pg_carries v t
| pgc_array vs t os : array_read t = Some os -> pg_elements vs os -> pg_carries (VArray vs) t
with pg_elements : list Value -> list (option bytes) -> Prop :=
| pge_nil : pg_elements [] []
| pge_null vs os : pg_elements vs os -> pg_elements (VNull :: vs) (None :: os)
| pge_item v t vs os : pg_carries v t -> pg_elements vs os -> pg_elements (v :: vs) (Some t :: os).

(** A column of a PostgreSQL plan. *)
Definition pg_column (sql : SqlType) (source : DriverKind) (x : TargetType) : Prop :=
  exists r, resolved (map_type sql source TPostgres) = Some r /\ x = ty r.

Definition pg_int_type (size : Z) (u : bool) : TargetType :=
  match size, u with
  | (2 | 4 | 8), false => Int size u
  | 1, _ => Int 2 false
  | 2, true => Int 4 false
  | 3, _ => Int 4 false
  | 4, true => Int 8 false
  | _, _ => Numeric (Some 20%Z) 0
  end%Z.
(** The type of a column by its base. *)
Definition pg_type_of (sql : SqlType) (source : DriverKind) (x : TargetType) : Prop :=
  match base sql with
  | BBool => x = Boolean
  | BInt8 | BInt16 | BInt24 | BInt32 | BInt64 => x = pg_int_type (default 8%Z (int_bytes (base sql))) (unsigned sql)
  | BFloat32 => x = FloatT false
  | BFloat64 => x = FloatT true
  | BDecimal => exists p s, x = Numeric p s /\ (0 <= s)%Z /\ forall p', p = Some p' -> (s <= p')%Z
  | BText | BChar | BEnum | BSet => (exists n, x = Varchar n \/ x = Char n) \/ exists size, x = Text size
  | BUuid => x = Uuid
  | BBinary => exists n, x = Binary n
  | BDate => x = Date
  | BTime => x = Time (fraction sql)
  | BTimeTz => x = TimeTz (fraction sql)
  | BTimestamp => x = Timestamp (fraction sql)
  | BTimestampTz => x = TimestampTz (fraction sql)
  | BInterval => x = Interval
  | BJson => x = TJson
  | BJsonb | BMap | BRow => x = Jsonb
  | BArray => x = Jsonb \/ exists e inner, x = Array inner /\ element sql = Some e /\ pg_column e source inner
  | BBuiltin kind => exists bits, x = Builtin kind bits
  | BOther => False
  end.
Lemma pg_column_type sql source x : described sql -> pg_column sql source x -> pg_type_of sql source x.
Proof.
  intros Hd (r & Hr & ->). pose proof (map_type_declared sql source TPostgres Hd r Hr) as Hdecl.
  destruct sql as [b p s l u z f d e fs o na]. unfold pg_type_of, pg_int_type. cbn [base unsigned element] in *.
  destruct b; cbn in Hr; unfold map_int, map_decimal, map_decimal_scaled, map_text, map_char, map_binary, too_fine, map_timestamp,
    map_composite, map_builtin, exact, widened, fallback, refuse, resolve in Hr; cbn -[sized sized2] in Hr;
    repeat (case_match; try done); simplify_eq/=; eauto.
  all: try (eexists _, _; split; [done|]; split; [lia|]; intros ? [=]; subst; lia).
  all: right; eexists _, _; split; [done|]; split; [done|];
    match goal with Hm : map_type _ _ TPostgres = Exact _ |- _ => eexists; by rewrite Hm end.
Qed.

Fixpoint value_deep_ok (v : Value) : Prop :=
  match v with
  | VDecimal _ s => (0 <= s)%Z
  | VArray vs => foldr (fun v P => value_deep_ok v /\ P) True vs
  | _ => True
  end.

Lemma int_range_weaken (size : Z) (u : bool) (size' n : Z) : (1 <= size)%Z -> (if u then size + 1 <= size' else size <= size')%Z ->
  int_range size u n -> int_range size' false n.
Proof.
  unfold int_range. intros Hs Hle Hn. destruct u.
  - assert (2 ^ (size * 8) <= 2 ^ (size' * 8 - 1))%Z by (apply Z.pow_le_mono_r; lia). lia.
  - assert (2 ^ (size * 8 - 1) <= 2 ^ (size' * 8 - 1))%Z by (apply Z.pow_le_mono_r; lia). lia.
Qed.
(** Every integer of the source type is one of the column's type. *)
Lemma pg_int_holds (size : Z) (u : bool) (n : Z) : size ∈ [1; 2; 3; 4; 8]%Z -> int_range size u n -> pg_holds (pg_int_type size u) (signed n).
Proof.
  intros Hs Hn.
  assert (Hint : forall size', (if u then size + 1 <= size' else size <= size')%Z -> pg_holds (Int size' false) (signed n)).
  { intros size' Hle. exists n. split; [done|]. eapply int_range_weaken; [|exact Hle|exact Hn].
    repeat (apply elem_of_cons in Hs as [->|Hs]; [lia|]). by apply elem_of_nil in Hs. }
  repeat (apply elem_of_cons in Hs as [->|Hs]); [| | | | |by apply elem_of_nil in Hs]; destruct u; try (apply Hint; lia).
  right. exists n, 0%Z. split; [done|]. unfold fits_decimal, int_range in *. cbn in *. lia.
Qed.
Lemma pg_text_value_sound x t t' : ((exists n, x = Varchar n \/ x = Char n) \/ exists size, x = Text size) ->
  pg_text_value x t = inr t' -> t' = t /\ pg_holds x t.
Proof.
  unfold pg_text_value. intros Hx. destruct (no_nul t) eqn:Hn; [done|].
  destruct Hx as [[n [->| ->]]|[size ->]]; try (case_match; [done|]); intros [= <-]; (split; [done|]); cbn; auto with lia.
Qed.
Lemma checked_text_spec o t t' : checked_text o t = inr t' -> o = None /\ t' = t.
Proof. unfold checked_text. destruct o; [done|]. by intros [= <-]. Qed.

Definition pg_sound (x : TargetType) : Prop := forall sql source v t,
  described sql -> pg_column sql source x -> value_deep_ok v -> is_null v = false ->
  pg_value sql x source v = inr t -> pg_holds x t /\ pg_carries v t.

Lemma pg_int_value sql x source v : is_Some (int_bytes (base sql)) ->
  pg_value sql x source v = match integer sql v with inl r => inl r | inr n => inr (signed n) end.
Proof. intros [w Hw]. destruct x; cbn [pg_value]; by destruct (base sql). Qed.
Lemma pg_array_sound sql source inner v t : pg_sound inner -> described sql -> base sql = BArray ->
  (exists e, element sql = Some e /\ pg_column e source inner) -> value_deep_ok v ->
  pg_value sql (Array inner) source v = inr t -> pg_holds (Array inner) t /\ pg_carries v t.
Proof.
  intros IH Hd Hb (e & He & Hc) Hv. cbn [pg_value]. rewrite Hb, He. destruct v as [| | | | | |t'| | | | | | |vs| | |]; try done.
  - destruct (is_pg source); [|done]. destruct (no_nul t') eqn:Hn; [done|]. destruct (starts_with t' [91%Z]); [done|].
    destruct (_ && _) eqn:Hse; [|done]. intros [= <-]. apply andb_true_iff in Hse as [? ?]. split; [left; done|constructor].
  - destruct (is_pg source); [done|]. intros Hi. apply array_items_read in Hi as (os & Hr & Hos).
    destruct (described_numbers _ Hd) as (_ & _ & _ & Hde). specialize (Hde e He).
    assert (Hall : Forall (fun o => forall s, o = Some s -> pg_holds inner s) os /\ pg_elements vs os).
    { clear Hr. induction Hos as [|v o vs os Ho Hos IHos]; [split; constructor|]. cbn in Hv. destruct Hv as [Hv Hvs].
      destruct (IHos Hvs) as [IH1 IH2]. destruct (is_null v) eqn:Hnl.
      - subst o. destruct v; try done. split; by constructor.
      - destruct Ho as (s & -> & Hs). destruct (IH e source v s Hde Hc Hv Hnl Hs) as [Hh Hcar].
        split; constructor; [by intros ? [= <-]|done..]. }
    destruct Hall as [Ha Hp]. split; [right; by exists os|by eapply pgc_array].
Qed.
Lemma pg_composite_sound sql source v t : base sql ∈ [BArray; BMap; BRow] ->
  pg_value sql Jsonb source v = inr t -> pg_holds Jsonb t /\ pg_carries v t.
Proof.
  intros Hb Hv. assert (Hv' : match json_of_composite (base sql) v with inl r => inl r
    | inr text => checked_text (json_for_jsonb text) text end = inr t).
  { rewrite <- Hv. destruct sql as [bs p s l u z f d e fs oid na]. cbn [base] in *.
    repeat (apply elem_of_cons in Hb as [->|Hb]; [done|]). by apply elem_of_nil in Hb. }
  destruct (json_of_composite _ v) as [|text] eqn:Hj; [done|]. apply checked_text_spec in Hv' as [Hn ->].
  split; [done|]. apply pgc_composite. unfold json_of_composite in Hj. by destruct (base sql), v.
Qed.

Lemma pg_text_sound sql x source v t : base sql ∈ [BText; BChar; BEnum; BSet] ->
  ((exists n, x = Varchar n \/ x = Char n) \/ exists size, x = Text size) ->
  pg_value sql x source v = inr t -> pg_holds x t /\ pg_carries v t.
Proof.
  intros Hb Hx Ht. assert (exists t0, v = VText t0 /\ pg_text_value x t0 = inr t) as (t0 & -> & Ht').
  { repeat (apply elem_of_cons in Hb as [Hb|Hb]; [|]); try (by apply elem_of_nil in Hb);
      (destruct Hx as [[n [->| ->]]|[size ->]]; cbn [pg_value] in Ht; rewrite Hb in Ht; destruct v; try done; by eexists). }
  apply pg_text_value_sound in Ht' as [-> Hh]; [by split; [|constructor]|done].
Qed.
(** A value of another base than an array is written without a look at [x]'s parts. *)
Lemma pg_scalar_sound sql source x v t : pg_type_of sql source x -> base sql ∉ [BArray; BMap; BRow] ->
  value_deep_ok v -> pg_value sql x source v = inr t -> pg_holds x t /\ pg_carries v t.
Proof.
  intros Hty Hna Hv Ht. unfold pg_type_of in Hty.
  destruct (is_Some_dec (int_bytes (base sql))) as [Hint|Hint].
  { rewrite pg_int_value in Ht by done. destruct (integer sql v) as [|n] eqn:Hi; [done|]. injection Ht as <-.
    apply integer_spec in Hi as [Hvn Hr]; [|done]. split; [|by constructor].
    assert (x = pg_int_type (default 8%Z (int_bytes (base sql))) (unsigned sql)) as ->
      by (destruct Hint as [w Hw]; by destruct (base sql)).
    apply pg_int_holds; [destruct Hint as [w Hw]; destruct (base sql); simplify_eq/=; in_list|done]. }
  destruct sql as [bs p_ s_ l_ u_ z_ f_ d_ e_ fs_ oid na_]. cbn [base] in *. destruct bs; try done; try (exfalso; apply Hint; by eexists); try (exfalso; apply Hna; by in_list); clear Hint Hna.
  - subst x. cbn [pg_value base] in Ht. destruct v as [|b| | | | | | | | | | | | | | |]; try done.
    injection Ht as <-. split; [destruct b; cbn; auto|constructor].
  - subst x. cbn [pg_value base] in Ht. destruct v; try done. injection Ht as <-. split; [by eexists|constructor].
  - subst x. cbn [pg_value base] in Ht. destruct v; try done. injection Ht as <-. split; [by eexists|constructor].
  - destruct Hty as (p' & s' & -> & Hs & Hp). cbn [pg_value base] in Ht.
    destruct v as [| | | | |u s0|t0| | | | | | | | | |]; try done.
    + apply decimal_text_spec in Ht as (u' & s1 & -> & Hs' & Hsame & Hfit); [|done..].
      split; [|by constructor]. destruct p' as [p'|]; right; exists u', s1; [split; [done|by apply Hfit]|done].
    + destruct (is_pg source); [|done]. destruct (is_numeric_special t0) eqn:Hsp; [|done].
      destruct p' as [p'|]; [destruct (bytes_eqb t0 (B "NaN")) eqn:Hn; [|done]|destruct (bytes_eqb t0 (B "NaN"))];
        injection Ht as <-; (split; [left|constructor]); [by apply bytes_eqb_eq in Hn|done|done].
  - eapply pg_text_sound; [|done|exact Ht]; cbn [base]; by in_list.
  - eapply pg_text_sound; [|done|exact Ht]; cbn [base]; by in_list.
  - destruct Hty as [n ->]. cbn [pg_value base] in Ht. destruct v as [| | | | | | |b| | | | | | | | |]; try done.
    injection Ht as <-. split; [by exists b|constructor].
  - subst x. cbn [pg_value base] in Ht. destruct v as [| | | | | |t0| | | | | | | | | |]; try done.
    destruct (is_uuid t0) eqn:Hu; [|done]. injection Ht as <-. split; [done|constructor].
  - subst x. cbn [pg_value base] in Ht. destruct v as [| | | | | |t0| | |d| | | | | | |]; try done.
    + destruct (is_pg source && _) eqn:Hp; [|done]. injection Ht as <-. apply andb_true_iff in Hp as [_ Hp].
      split; [|constructor]. apply orb_true_iff in Hp as [?|?]; [by left|right; by left].
    + apply date_text_spec in Ht as [-> Hy]. split; [|constructor]. right. right. exists d. split; [done|lia].
  - subst x. cbn [pg_value base] in Ht. destruct v as [| | | | | | | | | |m| | | | | |]; try done.
    destruct (negb _) eqn:Hr; [done|]. destruct (fraction_fits m _) eqn:Hf; [done|]. injection Ht as <-.
    rewrite clock_text_write by lia. split; [|constructor]. exists m. unfold DAY_MICROS.
    split_and!; [done|lia|lia|by apply fraction_fits_spec].
  - subst x. cbn [pg_value base] in Ht. destruct v as [| | | | | |t0| | | | | | | | | |]; try done.
    destruct (is_pg source && _) eqn:Hp; [|done]. injection Ht as <-. apply andb_true_iff in Hp as [_ Hp]. by split; [|constructor].
  - subst x. cbn [pg_value base] in Ht. destruct v as [| | | | | |t0| |m [ofs|]| | | | | | | |]; try done.
    + destruct (is_pg source && _) eqn:Hp; [|done]. injection Ht as <-. apply andb_true_iff in Hp as [_ Hp].
      split; [|constructor]. apply orb_true_iff in Hp as [?|?]; [by left|right; by left].
    + apply timestamp_text_spec in Ht as (-> & Hf & Hy). split; [|constructor]. right. right. exists m. destruct Hy as [Hy _]. split; [done|by split].
  - subst x. cbn [pg_value base] in Ht. destruct v as [| | | | | |t0| |m [ofs|]| | | | | | | |]; try done.
    + destruct (is_pg source && _) eqn:Hp; [|done]. injection Ht as <-. apply andb_true_iff in Hp as [_ Hp].
      split; [|constructor]. apply orb_true_iff in Hp as [?|?]; [by left|right; by left].
    + destruct (timestamp_text _ _ _ _) as [|t0] eqn:Ht0; [done|]. injection Ht as <-.
      apply timestamp_text_spec in Ht0 as (-> & Hf & Hy). split; [|constructor]. right. right. exists m. destruct Hy as [Hy _]. split; [done|by split].
  - subst x. cbn [pg_value base] in Ht. destruct v as [| | | | | | | | | | |i| | | | |]; try done.
    injection Ht as <-. split; [by exists i|constructor].
  - subst x. cbn [pg_value base] in Ht. destruct v as [| | | | | | | | | | | |t0| | | |]; try done.
    destruct (no_nul t0) eqn:Hn; [done|]. unfold json_valid in Ht. destruct (parse_json t0) eqn:Hj; [|done]. injection Ht as <-.
    split; [|constructor]. split; [done|by rewrite Hj].
  - subst x. cbn [pg_value base] in Ht. destruct v as [| | | | | | | | | | | |t0| | | |]; try done.
    apply checked_text_spec in Ht as [Hn ->]. by split; [|constructor].
  - eapply pg_text_sound; [|done|exact Ht]; cbn [base]; by in_list.
  - eapply pg_text_sound; [|done|exact Ht]; cbn [base]; by in_list.
  - destruct Hty as [bits ->]. cbn [pg_value base] in Ht. destruct v as [| | | | | |t0| | | | | | | | | |]; try done.
    destruct (is_pg source); [|done]. apply checked_text_spec in Ht as [Hn ->]. by split; [|constructor].
Qed.

Lemma pg_value_sound x : pg_sound x.
Proof.
  induction x as [| | | | | | | | | | | | | | | | | |inner IH|] using TargetType_ind;
    intros sql source v t Hd Hc Hv Hn Ht; pose proof (pg_column_type _ _ _ Hd Hc) as Hty;
    destruct (decide (base sql ∈ [BArray; BMap; BRow])) as [Hb|Hb]; try (by eapply pg_scalar_sound);
    unfold pg_type_of in Hty.
  all: repeat (apply elem_of_cons in Hb as [Hb|Hb]; [rewrite Hb in Hty|]); try (by apply elem_of_nil in Hb); try done.
  all: try (destruct Hty as [Hty|(e & i & Hty & Hi)]; [|try done]); try discriminate Hty.
  all: try (eapply pg_composite_sound; [rewrite Hb; by in_list|exact Ht]).
  injection Hty as <-. by eapply pg_array_sound; [| | |exists e| |].
Qed.

(** A value accepted for a column of a planned PostgreSQL table is written as a text that the
    column's type takes and that carries the value: an integer of its range, the same number within
    the precision and the scale, a text within the length, the same day, time and instant with the
    fraction the column keeps, an array whose literal reads back as the texts of its elements; only
    a NULL is written as a NULL. *)
Theorem pg_texts_arrive_whole `{Unicode} source columns plan i c v o :
  plan_table source TPostgres columns = Some (inr plan) ->
  Forall (fun col => described (snd col)) columns ->
  tp_columns plan !! i = Some c -> value_deep_ok v -> pg_text c v = inr o ->
  match o with
  | None => v = VNull
  | Some t => pg_holds (ty (pc_resolved c)) t /\ pg_carries v t
  end.
Proof.
  intros Hplan Hd Hi Hv Ht. destruct (plan_table_sound _ _ _ _ Hplan) as (_ & Hs & _).
  destruct (Forall2_lookup_r _ _ _ _ _ Hs Hi) as (col & Hcol & (_ & Hty & Hsrc & _ & _ & _ & _ & r & Hr & Hx)).
  rewrite Forall_lookup in Hd. specialize (Hd _ _ Hcol). unfold pg_text in Ht. destruct (is_null v) eqn:Hn.
  { injection Ht as <-. by destruct v. }
  destruct (pg_value _ _ _ v) as [|t] eqn:Hp; [done|]. injection Ht as <-. rewrite Hty, Hsrc in Hp.
  eapply pg_value_sound; [exact Hd| |exact Hv|exact Hn|exact Hp]. exists r. split; [done|].
  destruct Hx as [?|[? _]]; [done|discriminate].
Qed.
End PgTexts.

#[local] Existing Instances plain_float plain_encoding ascii_unicode.
Definition array_columns : list (bytes * SqlType) := [(B "a", array_of (sql_of BText)); (B "n", sql_decimal 5 2)].
Definition array_plan : TablePlan :=
  match plan_table DTrino TPostgres array_columns with Some (inr p) => p | _ => MkTable TPostgres [] end.
Definition array_column : PlannedColumn :=
  default (MkColumn [] (sql_of BBool) DTrino TPostgres (MkResolved Boolean []) OExact None) (tp_columns array_plan !! 0).
Lemma pg_texts_arrive_whole_witness :
  pg_holds (ty (pc_resolved array_column)) (B "{NULL," ++ [DQUOTE; BACKSLASH; BACKSLASH; DQUOTE] ++ B "}")
  /\ pg_carries (VArray [VNull; VText [BACKSLASH]]) (B "{NULL," ++ [DQUOTE; BACKSLASH; BACKSLASH; DQUOTE] ++ B "}")
  /\ ty (pc_resolved array_column) = Array (Text SizeText).
Proof.
  assert (Hp : plan_table DTrino TPostgres array_columns = Some (inr array_plan)) by (vm_compute; reflexivity).
  assert (Hd : Forall (fun col => described (snd col)) array_columns).
  { repeat (apply Forall_cons; split; [cbn; split_and!; try done; intros n Hn; simplify_eq; lia|]). apply Forall_nil. done. }
  assert (Hi : tp_columns array_plan !! 0 = Some array_column) by (vm_compute; reflexivity).
  assert (Ht : pg_text array_column (VArray [VNull; VText [BACKSLASH]])
    = inr (Some (B "{NULL," ++ [DQUOTE; BACKSLASH; BACKSLASH; DQUOTE] ++ B "}"))) by (vm_compute; reflexivity).
  destruct (pg_texts_arrive_whole DTrino array_columns array_plan 0 array_column (VArray [VNull; VText [BACKSLASH]]) _ Hp Hd Hi
    ltac:(cbn; done) Ht) as [Hh Hc].
  split; [exact Hh|]. split; [exact Hc|vm_compute; reflexivity].
Defined.
