(* ===== verification/Batch.v ===== *)
(** * Batch: a batch of rows held by columns, [crates/qh-core/src/batch.rs]. *)
From S2P Require Import Prelude Bytes Text Value.
#[local] Open Scope nat_scope.

Record ColumnMeta := MkMeta { cm_name : bytes; cm_type_name : bytes }.
Inductive BatchError := NoColumns | RaggedColumn (index expected found : nat).

Section Batch.
Context `{Float}.

Definition Batch : Type := list (list Value).
Definition batch_size (b : Batch) : nat := match b with [] => 0 | c :: _ => List.length c end.
Definition batch_row (b : Batch) (index : nat) : list Value := omap (fun c => c !! index) b.

(** The first column of another length, from the [index]-th on. *)
Fixpoint ragged (expected index : nat) (columns : Batch) : option BatchError :=
  match columns with
  | [] => None
  | c :: columns => if negb (length c =? expected) then Some (RaggedColumn index expected (length c)) else ragged expected (S index) columns
  end.
Definition batch_new (columns : Batch) : BatchError + Batch :=
  match columns with
  | [] => inl NoColumns
  | first :: _ => match ragged (length first) 0 columns with Some e => inl e | None => inr columns end
  end.
Definition batch_empty (width : nat) : BatchError + Batch := if width =? 0 then inl NoColumns else inr (replicate width []).
Definition batch_is_empty (b : Batch) : bool := batch_size b =? 0.
Definition batch_value (b : Batch) (row column : nat) : option Value := c ← b !! column; c !! row.
(** [slice_rows] of [start..finish]; a range that ends before it starts panics. *)
Definition slice_rows (b : Batch) (start finish : nat) : option (BatchError + Batch) :=
  match b with
  | [] => Some (inl NoColumns)
  | _ =>
      let first := Nat.min start (batch_size b) in
      let last := Nat.min finish (batch_size b) in
      if last <? first then None else Some (batch_new ((fun c => firstn (last - first) (skipn first c)) <$> b))
  end.
End Batch.

(** ** What a batch that was built promises *)

Section Facts.
Context `{Float}.
Definition rectangular (n : nat) (b : Batch) : Prop := Forall (fun c => length c = n) b.
Lemma ragged_none expected columns : forall index, ragged expected index columns = None <-> rectangular expected columns.
Proof.
  induction columns as [|c columns IH]; intros index; [split; [intros _; by constructor|done]|]. cbn. unfold rectangular in *. rewrite Forall_cons.
  destruct (Nat.eqb_spec (length c) expected) as [Hc|Hc]; cbn; [rewrite IH; tauto|]. split; [intros [=]|intros [Hc' _]; congruence].
Qed.
Lemma batch_new_ok columns b : batch_new columns = inr b -> b = columns /\ columns <> [] /\ rectangular (batch_size b) b.
Proof.
  destruct columns as [|c columns]; [done|]. unfold batch_new. destruct (ragged _ _ _) eqn:Hr; [done|]. intros [= <-].
  apply ragged_none in Hr. by split_and!.
Qed.
Lemma batch_value_in b row column : rectangular (batch_size b) b -> row < batch_size b -> column < length b ->
  is_Some (batch_value b row column).
Proof.
  intros Hb Hr Hc. unfold batch_value. assert (exists c, b !! column = Some c) as [c Hcol] by (by apply lookup_lt_is_Some_2). rewrite Hcol. cbn.
  apply lookup_lt_is_Some_2. unfold rectangular in Hb. rewrite Forall_forall in Hb. rewrite (Hb c); [done|]. by apply list_elem_of_lookup_2 in Hcol.
Qed.
(** A slice of a batch is a batch: what the clamped range holds of every column. *)
Lemma slice_rows_ok b start finish n : b <> [] -> rectangular n b -> start <= finish ->
  slice_rows b start finish = Some (inr ((fun c => firstn (Nat.min finish n - Nat.min start n) (skipn (Nat.min start n) c)) <$> b)).
Proof.
  intros Hb Hn Hs. destruct b as [|c b]; [done|]. pose proof Hn as Hn'. unfold rectangular in Hn'. apply Forall_cons in Hn' as [Hc Hrest].
  unfold slice_rows. cbn [batch_size]. rewrite Hc. destruct (Nat.ltb_spec (Nat.min finish n) (Nat.min start n)); [lia|].
  set (f := fun c : list Value => firstn _ (skipn _ c)).
  assert (Hf : forall x, length x = n -> length (f x) = Nat.min finish n - Nat.min start n).
  { intros x Hx. unfold f. rewrite length_firstn, length_skipn, Hx. lia. }
  assert (Hr : rectangular (length (f c)) (f <$> c :: b)).
  { unfold rectangular. rewrite Forall_fmap. eapply Forall_impl; [exact Hn|]. intros x Hx. cbn. by rewrite !Hf. }
  apply (proj2 (ragged_none _ _ 0)) in Hr. unfold batch_new. cbn [fmap list_fmap] in *. do 2 f_equal. by rewrite Hr.
Qed.
End Facts.
