(* ===== verification/Writers.v ===== *)
(** * Writers: the text formats of an export and their code pages, [crates/qh-export/src/encoding.rs],
    [writers.rs] and [open], [render_rows] and [escape] of [lib.rs].

    A writer is what it has put in its file and what it keeps between rows. Whether the file system
    takes a text is an oracle; the writers of the binary formats and serde_json's printing are
    parameters. [text_writers] is the [WriterOps] the exporter of [Plan] runs over. *)
From S2P Require Import Prelude Bytes Text Scan Ident Dates Value Json Batch Plan.
#[local] Open Scope nat_scope.
#[local] Set Warnings "-register-all".

(** ** Code pages *)

Inductive Codec := Utf8 | AsciiPage | Latin1 | Cp1252 | Cp437 | Cp850.
#[export] Instance Codec_eq_dec : EqDecision Codec.
Proof. solve_decision. Defined.
Definition CODECS : list Codec := [Utf8; AsciiPage; Latin1; Cp1252; Cp437; Cp850].
Definition codec_label (c : Codec) : string :=
  match c with Utf8 => "utf-8" | AsciiPage => "ascii" | Latin1 => "latin-1" | Cp1252 => "cp1252" | Cp437 => "cp437" | Cp850 => "cp850" end.
Definition codec_aliases (c : Codec) : list string :=
  match c with
  | Utf8 => ["utf_8"; "u8"; "utf"; "utf8"; "cp65001"]
  | AsciiPage => ["ascii"; "us_ascii"; "646"; "cp367"; "ibm367"; "csascii"; "iso646_us"; "us"]
  | Latin1 => ["latin_1"; "8859"; "cp819"; "latin"; "latin1"; "l1"; "iso8859"; "iso8859_1"; "iso_8859_1"; "iso_8859_1_1987"; "iso8859_1_1987";
               "iso_ir_100"; "csisolatin1"]
  | Cp1252 => ["cp1252"; "windows_1252"]
  | Cp437 => ["cp437"; "437"; "ibm437"; "cspc8codepage437"]
  | Cp850 => ["cp850"; "850"; "ibm850"; "cspc850multilingual"]
  end%string.
Definition language_driver (c : Codec) : Z := match c with Cp1252 => 3 | Cp437 => 1 | Cp850 => 2 | _ => 0 end%Z.
Definition codec_is_utf8 (c : Codec) : bool := match c with Utf8 => true | _ => false end.
Definition CP1252_HIGH : list Z :=
  [0x20ac; 0x0000; 0x201a; 0x0192; 0x201e; 0x2026; 0x2020; 0x2021;
   0x02c6; 0x2030; 0x0160; 0x2039; 0x0152; 0x0000; 0x017d; 0x0000;
   0x0000; 0x2018; 0x2019; 0x201c; 0x201d; 0x2022; 0x2013; 0x2014;
   0x02dc; 0x2122; 0x0161; 0x203a; 0x0153; 0x0000; 0x017e; 0x0178;
   0x00a0; 0x00a1; 0x00a2; 0x00a3; 0x00a4; 0x00a5; 0x00a6; 0x00a7;
   0x00a8; 0x00a9; 0x00aa; 0x00ab; 0x00ac; 0x00ad; 0x00ae; 0x00af;
   0x00b0; 0x00b1; 0x00b2; 0x00b3; 0x00b4; 0x00b5; 0x00b6; 0x00b7;
   0x00b8; 0x00b9; 0x00ba; 0x00bb; 0x00bc; 0x00bd; 0x00be; 0x00bf;
   0x00c0; 0x00c1; 0x00c2; 0x00c3; 0x00c4; 0x00c5; 0x00c6; 0x00c7;
   0x00c8; 0x00c9; 0x00ca; 0x00cb; 0x00cc; 0x00cd; 0x00ce; 0x00cf;
   0x00d0; 0x00d1; 0x00d2; 0x00d3; 0x00d4; 0x00d5; 0x00d6; 0x00d7;
   0x00d8; 0x00d9; 0x00da; 0x00db; 0x00dc; 0x00dd; 0x00de; 0x00df;
   0x00e0; 0x00e1; 0x00e2; 0x00e3; 0x00e4; 0x00e5; 0x00e6; 0x00e7;
   0x00e8; 0x00e9; 0x00ea; 0x00eb; 0x00ec; 0x00ed; 0x00ee; 0x00ef;
   0x00f0; 0x00f1; 0x00f2; 0x00f3; 0x00f4; 0x00f5; 0x00f6; 0x00f7;
   0x00f8; 0x00f9; 0x00fa; 0x00fb; 0x00fc; 0x00fd; 0x00fe; 0x00ff]%Z.
Definition CP437_HIGH : list Z :=
  [0x00c7; 0x00fc; 0x00e9; 0x00e2; 0x00e4; 0x00e0; 0x00e5; 0x00e7;
   0x00ea; 0x00eb; 0x00e8; 0x00ef; 0x00ee; 0x00ec; 0x00c4; 0x00c5;
   0x00c9; 0x00e6; 0x00c6; 0x00f4; 0x00f6; 0x00f2; 0x00fb; 0x00f9;
   0x00ff; 0x00d6; 0x00dc; 0x00a2; 0x00a3; 0x00a5; 0x20a7; 0x0192;
   0x00e1; 0x00ed; 0x00f3; 0x00fa; 0x00f1; 0x00d1; 0x00aa; 0x00ba;
   0x00bf; 0x2310; 0x00ac; 0x00bd; 0x00bc; 0x00a1; 0x00ab; 0x00bb;
   0x2591; 0x2592; 0x2593; 0x2502; 0x2524; 0x2561; 0x2562; 0x2556;
   0x2555; 0x2563; 0x2551; 0x2557; 0x255d; 0x255c; 0x255b; 0x2510;
   0x2514; 0x2534; 0x252c; 0x251c; 0x2500; 0x253c; 0x255e; 0x255f;
   0x255a; 0x2554; 0x2569; 0x2566; 0x2560; 0x2550; 0x256c; 0x2567;
   0x2568; 0x2564; 0x2565; 0x2559; 0x2558; 0x2552; 0x2553; 0x256b;
   0x256a; 0x2518; 0x250c; 0x2588; 0x2584; 0x258c; 0x2590; 0x2580;
   0x03b1; 0x00df; 0x0393; 0x03c0; 0x03a3; 0x03c3; 0x00b5; 0x03c4;
   0x03a6; 0x0398; 0x03a9; 0x03b4; 0x221e; 0x03c6; 0x03b5; 0x2229;
   0x2261; 0x00b1; 0x2265; 0x2264; 0x2320; 0x2321; 0x00f7; 0x2248;
   0x00b0; 0x2219; 0x00b7; 0x221a; 0x207f; 0x00b2; 0x25a0; 0x00a0]%Z.
Definition CP850_HIGH : list Z :=
  [0x00c7; 0x00fc; 0x00e9; 0x00e2; 0x00e4; 0x00e0; 0x00e5; 0x00e7;
   0x00ea; 0x00eb; 0x00e8; 0x00ef; 0x00ee; 0x00ec; 0x00c4; 0x00c5;
   0x00c9; 0x00e6; 0x00c6; 0x00f4; 0x00f6; 0x00f2; 0x00fb; 0x00f9;
   0x00ff; 0x00d6; 0x00dc; 0x00f8; 0x00a3; 0x00d8; 0x00d7; 0x0192;
   0x00e1; 0x00ed; 0x00f3; 0x00fa; 0x00f1; 0x00d1; 0x00aa; 0x00ba;
   0x00bf; 0x00ae; 0x00ac; 0x00bd; 0x00bc; 0x00a1; 0x00ab; 0x00bb;
   0x2591; 0x2592; 0x2593; 0x2502; 0x2524; 0x00c1; 0x00c2; 0x00c0;
   0x00a9; 0x2563; 0x2551; 0x2557; 0x255d; 0x00a2; 0x00a5; 0x2510;
   0x2514; 0x2534; 0x252c; 0x251c; 0x2500; 0x253c; 0x00e3; 0x00c3;
   0x255a; 0x2554; 0x2569; 0x2566; 0x2560; 0x2550; 0x256c; 0x00a4;
   0x00f0; 0x00d0; 0x00ca; 0x00cb; 0x00c8; 0x0131; 0x00cd; 0x00ce;
   0x00cf; 0x2518; 0x250c; 0x2588; 0x2584; 0x00a6; 0x00cc; 0x2580;
   0x00d3; 0x00df; 0x00d4; 0x00d2; 0x00f5; 0x00d5; 0x00b5; 0x00fe;
   0x00de; 0x00da; 0x00db; 0x00d9; 0x00fd; 0x00dd; 0x00af; 0x00b4;
   0x00ad; 0x00b1; 0x2017; 0x00be; 0x00b6; 0x00a7; 0x00f7; 0x00b8;
   0x00b0; 0x00a8; 0x00b7; 0x00b9; 0x00b3; 0x00b2; 0x25a0; 0x00a0]%Z.
Definition high_byte (code : Z) (table : list Z) : option Z :=
  if (code <=? 0x7F)%Z then Some code else (fun index => (0x80 + Z.of_nat index)%Z) <$> position (fun entry => entry =b code) table.
Definition encode_single_byte (text : bytes) (byte_for : Z -> option Z) : bytes := (fun c => default 63%Z (byte_for c)) <$> chars text.
Definition byte_of (c : Codec) (code : Z) : option Z :=
  match c with
  | Utf8 => Some code
  | AsciiPage => if (code <=? 0x7F)%Z then Some code else None
  | Latin1 => if (code <=? 0xFF)%Z then Some code else None
  | Cp1252 => high_byte code CP1252_HIGH
  | Cp437 => high_byte code CP437_HIGH
  | Cp850 => high_byte code CP850_HIGH
  end.
Definition codec_encode (c : Codec) (text : bytes) : bytes :=
  match c with Utf8 => text | _ => encode_single_byte text (byte_of c) end.
(** [char::is_alphanumeric], past ASCII. *)
Class Alphanumeric := { other_alphanumeric : Z -> bool }.
Definition is_alphanumeric `{Alphanumeric} (c : Z) : bool := if (c <? 128)%Z then is_ascii_alphanumeric c else other_alphanumeric c.
Fixpoint normalize_chars `{Alphanumeric} (separator : bool) (cs : list Z) (out : bytes) : bytes :=
  match cs with
  | [] => out
  | c :: cs =>
      if is_alphanumeric c || (c =b DOT) then
        normalize_chars false cs (out ++ (match out with [] => [] | _ => if separator then [UNDERSCORE] else [] end) ++ encode_utf8 (to_ascii_lowercase c))
      else normalize_chars true cs out
  end.
Definition normalize_encoding `{Alphanumeric} (name : bytes) : bytes := normalize_chars false (chars name) [].
(** [Codec::resolve]; the message of a usage error. *)
Definition codec_resolve `{Alphanumeric} (setting value : bytes) : bytes + Codec :=
  let wanted := normalize_encoding value in
  match List.find (fun codec => existsb (fun a => bytes_eqb wanted (B a)) (codec_aliases codec)) CODECS with
  | Some codec => inr codec
  | None =>
      inl (B "unknown " ++ setting ++ B " '" ++ value ++ B "'; expected "
           ++ join_sep (B ", ") ((fun c => B (codec_label c)) <$> take 5 CODECS) ++ B " or " ++ B (codec_label Cp850))
  end.

(** ** Text escaped *)

Definition escape_char (c : Z) : bytes :=
  if c =b AMP then B "&amp;" else if c =b 60 then B "&lt;" else if c =b 62 then B "&gt;" else if c =b DQUOTE then B "&quot;"
  else if c =b SQUOTE then B "&#x27;" else encode_utf8 c.
Definition escape (text : bytes) : bytes := mjoin (escape_char <$> chars text).
Definition is_xml_control (code : Z) : bool :=
  ((0 <=? code) && (code <=? 8) || (code =? 11) || (code =? 12) || (14 <=? code) && (code <=? 31))%Z.
(** [text.chars().filter(p).collect()] *)
Definition keep_chars (p : Z -> bool) (text : bytes) : bytes := mjoin (encode_utf8 <$> List.filter p (chars text)).
Definition tag_char (c : Z) : bool := is_ascii_alphanumeric c || (c =b UNDERSCORE) || (c =b DOT) || (c =b DASH).
Definition xml_tag (name : bytes) : bytes :=
  let tag := (fun c => if tag_char c then c else UNDERSCORE) <$> chars name in
  match tag with
  | c :: _ => if is_ascii_alphabetic c || (c =b UNDERSCORE) then tag else UNDERSCORE :: tag
  | [] => [UNDERSCORE]
  end.

(** ** Rows of text and csv *)

Record Delimited := MkDelimited { dl_codec : Codec; dl_delimiter : Z; dl_quotechar : Z; dl_lineterminator : bytes; dl_null_text : bytes }.
Definition has_char (cs : list Z) (c : Z) : bool := existsb (fun x => x =b c) cs.
Definition quote_field (delimiter quotechar : Z) (lineterminator field : bytes) : bytes :=
  let cs := chars field in
  if has_char cs delimiter || has_char cs quotechar || existsb (fun c => has_char (chars lineterminator) c) cs then
    encode_utf8 quotechar ++ mjoin ((fun c => (if c =b quotechar then encode_utf8 quotechar else []) ++ encode_utf8 c) <$> cs) ++ encode_utf8 quotechar
  else field.
Definition render_fields (delimiter quotechar : Z) (lineterminator : bytes) (fields : list bytes) : bytes :=
  join_sep (encode_utf8 delimiter) (quote_field delimiter quotechar lineterminator <$> fields) ++ lineterminator.
Definition default_delimiter (f : Format) : Z := match f with FCsv => 44 | _ => TAB end.

Section Writers.
Context `{Float} `{Alphanumeric}.
Definition fields_of (null_text : bytes) (row : list Value) : list bytes := (fun v => default null_text (to_text v)) <$> row.
Definition render_delimited (f : Format) (o : ExportOptions) (rows : list (list Value)) : bytes :=
  mjoin ((fun row => render_fields (default (default_delimiter f) (o_delimiter o)) (o_quotechar o) (o_lineterminator o) (fields_of (o_null_text o) row)) <$> rows).

(** ** Objects of json *)

(** [serde_json::to_string] of a text and of a scalar. *)
Variable json_string : bytes -> bytes.
Variable json_scalar : Json -> bytes.
Definition row_object (names : list bytes) (row : list Value) : Json :=
  JObject (fold_left (fun object x => j_insert x.1 (to_json_value x.2) object) (zip names row) []).
Fixpoint compact (value : Json) : bytes :=
  match value with
  | JObject entries => B "{" ++ join_sep (B ", ") (map (fun e => json_string (fst e) ++ B ": " ++ compact (snd e)) entries) ++ B "}"
  | JArray items => B "[" ++ join_sep (B ", ") (map compact items) ++ B "]"
  | scalar => json_scalar scalar
  end.
Fixpoint pretty (indent : nat) (level : nat) (value : Json) : bytes :=
  let pad level := replicate (indent * level) SP in
  match value with
  | JObject [] => B "{}"
  | JObject entries =>
      B "{" ++ [LF] ++ join_sep [44%Z; LF] (map (fun e => pad (S level) ++ json_string (fst e) ++ B ": " ++ pretty indent (S level) (snd e)) entries)
      ++ [LF] ++ pad level ++ B "}"
  | JArray [] => B "[]"
  | JArray items =>
      B "[" ++ [LF] ++ join_sep [44%Z; LF] (map (fun item => pad (S level) ++ pretty indent (S level) item) items) ++ [LF] ++ pad level ++ B "]"
  | scalar => json_scalar scalar
  end.
(** [split_inclusive]: the lines with their line feeds. *)
Fixpoint split_inclusive (s : bytes) : list bytes :=
  match s with
  | [] => []
  | b :: s =>
      if b =b LF then [b] :: split_inclusive s
      else match split_inclusive s with [] => [[b]] | line :: lines => (b :: line) :: lines end
  end.

(** ** Elements of xml and html *)

Definition xml_cell (x : bytes * Value) : bytes :=
  match to_text x.2 with
  | None => B "    <" ++ x.1 ++ B " xsi:nil=" ++ [DQUOTE] ++ B "true" ++ [DQUOTE] ++ B "/>" ++ [LF]
  | Some text => B "    <" ++ x.1 ++ B ">" ++ escape (keep_chars (fun c => negb (is_xml_control c)) text) ++ B "</" ++ x.1 ++ B ">" ++ [LF]
  end.
Definition render_xml_row (tags : list bytes) (record : bytes) (row : list Value) : bytes :=
  B "  <" ++ record ++ B ">" ++ [LF] ++ mjoin (xml_cell <$> zip tags row) ++ B "  </" ++ record ++ B ">" ++ [LF].
Definition tags_of (columns : list ColumnMeta) : list bytes := (fun c => xml_tag (cm_name c)) <$> columns.
Definition render_xml (o : ExportOptions) (columns : list ColumnMeta) (rows : list (list Value)) : bytes :=
  mjoin (render_xml_row (tags_of columns) (o_xml_record o) <$> rows).
Definition xml_head (root : bytes) : bytes :=
  B "<?xml version=" ++ [DQUOTE] ++ B "1.0" ++ [DQUOTE] ++ B " encoding=" ++ [DQUOTE] ++ B "UTF-8" ++ [DQUOTE] ++ B "?>" ++ [LF] ++ B "<" ++ root ++ B ">" ++ [LF].
Definition HTML_HEAD : bytes :=
  B "<!doctype html>" ++ [LF]
  ++ B "<html lang=" ++ [DQUOTE] ++ B "en" ++ [DQUOTE] ++ B "><head><meta charset=" ++ [DQUOTE] ++ B "utf-8" ++ [DQUOTE] ++ B ">" ++ [LF]
  ++ B "<title>{title}</title>" ++ [LF]
  ++ B "<style>" ++ [LF]
  ++ B " body{{font:13px/1.5 -apple-system,BlinkMacSystemFont," ++ [DQUOTE] ++ B "Segoe UI" ++ [DQUOTE] ++ B ",sans-serif;margin:24px;color:#1a1a1a}}" ++ [LF]
  ++ B " table{{border-collapse:collapse;font-variant-numeric:tabular-nums}}" ++ [LF]
  ++ B " th,td{{border:1px solid #d8d8d8;padding:4px 9px;text-align:left;vertical-align:top}}" ++ [LF]
  ++ B " th{{background:#f2f2f2;position:sticky;top:0;font-weight:600}}" ++ [LF]
  ++ B " tr:nth-child(even) td{{background:#fafafa}}" ++ [LF]
  ++ B " td.null{{color:#999;font-style:italic}}" ++ [LF]
  ++ B "</style></head><body>" ++ [LF]
  ++ B "<h2>{title}</h2>" ++ [LF]
  ++ B "<table><thead><tr>{head}</tr></thead><tbody>" ++ [LF].
Definition html_head (title : bytes) (columns : list ColumnMeta) : bytes :=
  replace_text (B "{head}") (mjoin ((fun c => B "<th>" ++ escape (cm_name c) ++ B "</th>") <$> columns))
    (replace_text (B "{title}") (escape title) HTML_HEAD).
Definition html_cell (v : Value) : bytes :=
  match to_text v with
  | None => B "<td class=" ++ [DQUOTE] ++ B "null" ++ [DQUOTE] ++ B ">NULL</td>"
  | Some text => B "<td>" ++ escape text ++ B "</td>"
  end.
Definition render_html_row (row : list Value) : bytes := B "<tr>" ++ mjoin (html_cell <$> row) ++ B "</tr>" ++ [LF].
Definition render_html (rows : list (list Value)) : bytes := mjoin (render_html_row <$> rows).
(** [render_rows]. *)
Definition render_rows (f : Format) (columns : list ColumnMeta) (o : ExportOptions) (rows : list (list Value)) : option bytes :=
  if negb (renderable f) then None
  else match f with
       | FText | FCsv => Some (render_delimited f o rows)
       | FXml => Some (render_xml o columns rows)
       | FHtml => Some (render_html rows)
       | _ => None
       end.

(** ** Statements of sql *)

Definition sql_style (d : Dialect) : IdentStyle := match d with Mysql => MysqlStyle | _ => Ansi end.
(** The loop of [qualified_name]: the parts, the part being read and the quote that is open. *)
Fixpoint name_parts (cs : list Z) (parts : list bytes) (part : bytes) (open : option Z) : list bytes :=
  match cs with
  | [] => parts ++ [part]
  | c :: cs =>
      match open with
      | Some quote =>
          if c =b quote then
            match cs with
            | c2 :: cs' => if c2 =b quote then name_parts cs' parts (part ++ encode_utf8 quote) open else name_parts cs parts part None
            | [] => name_parts cs parts part None
            end
          else name_parts cs parts (part ++ encode_utf8 c) open
      | None =>
          if ((c =b DQUOTE) || (c =b BTICK)) && (match part with [] => true | _ => false end) then name_parts cs parts part (Some c)
          else if c =b DOT then name_parts cs (parts ++ [part]) [] None
          else name_parts cs parts (part ++ encode_utf8 c) None
      end
  end.
Definition qualified_name (name : bytes) (style : IdentStyle) : bytes :=
  join_sep (B ".") (quote_ident style <$> name_parts (chars name) [] [] None).
Definition float_is_finite (f : f64) : bool := negb (is_nan f) && negb (is_infinite f).
(** A literal, and what it adds to [non_finite]. *)
Definition sql_string (d : Dialect) (text : bytes) : bytes :=
  let text := match d with Mysql => double BACKSLASH text | _ => text end in [SQUOTE] ++ double SQUOTE text ++ [SQUOTE].
Definition sql_literal (d : Dialect) (v : Value) : bytes * nat :=
  match v with
  | VNull => (B "NULL", 0)
  | VBool b => (if b then B "TRUE" else B "FALSE", 0)
  | VInt n => (signed n, 0)
  | VUInt n => (decimal n, 0)
  | VFloat f =>
      if float_is_finite f then (write_float f [], 0)
      else match d with
           | Postgres => ([SQUOTE] ++ (if is_nan f then B "NaN" else if is_sign_negative f then B "-Infinity" else B "Infinity") ++ [SQUOTE], 0)
           | _ => (B "NULL", 1)
           end
  | VDecimal u s => (write_decimal u s [], 0)
  | VBytes b =>
      (match d with
       | Postgres => B "decode('" ++ hex_encode b ++ B "', 'hex')"
       | _ => B "X'" ++ hex_encode b ++ B "'"
       end, 0)
  | other => (sql_string d (default [] (to_text other)), 0)
  end.
Definition sql_tuple (d : Dialect) (row : list Value) : bytes := B "(" ++ join_sep (B ", ") (fst <$> (sql_literal d <$> row)) ++ B ")".
Definition sql_non_finite (d : Dialect) (row : list Value) : nat := sum_list (snd <$> (sql_literal d <$> row)).
Definition sql_prefix (d : Dialect) (table : bytes) (columns : list ColumnMeta) : bytes :=
  B "INSERT INTO " ++ qualified_name table (sql_style d) ++ B " (" ++ join_sep (B ", ") ((fun c => quote_ident (sql_style d) (cm_name c)) <$> columns)
  ++ B ") VALUES" ++ [LF].
Definition sql_statement (prefix : bytes) (tuples : list bytes) : bytes := prefix ++ join_sep [44%Z; LF] tuples ++ B ";" ++ [LF].

(** ** The writers *)

Context {E Other : Type}.
Abbreviation ExportError := (@ExportError E).
(** What a file is opened, written and flushed through. *)
Record Disk := MkDisk { disk_create : bool; disk_write : bytes -> bytes -> bool; disk_flush : bytes -> bool }.
Variable disk : Disk.
Inductive WriterState :=
| WDelimited (d : Delimited)
| WJson (names : list bytes) (lines : bool) (indent : nat) (first : bool)
| WXml (tags : list bytes) (root record : bytes)
| WHtml
| WSql (prefix : bytes) (rows_per_insert : nat) (buffer : list bytes) (dialect : Dialect) (non_finite : nat).
(** A text writer has its state and its file's bytes; the others are the parameter's. *)
Inductive TextWriter := TextFile (st : WriterState) (out : bytes) | OtherFile (w : Other).
Variable others : @WriterOps bytes (list Value) ColumnMeta Other E.

(** [write_all]. *)
Definition write_all (out text : bytes) : option bytes :=
  match text with [] => Some out | _ => if disk_write disk out text then Some (out ++ text) else None end.
Definition wrote (st st' : WriterState) (out text : bytes) : option ExportError * TextWriter :=
  match write_all out text with Some out => (None, TextFile st' out) | None => (Some EIo, TextFile st out) end.
Definition created (st : WriterState) (head : bytes) : (ExportError * option bytes) + TextWriter :=
  if negb (disk_create disk) then inl (EIo, None)
  else match write_all [] head with Some out => inr (TextFile st out) | None => inl (EIo, Some []) end.
Definition BOM : bytes := [0xEF; 0xBB; 0xBF]%Z.
Definition delimited_new (f : Format) (columns : list ColumnMeta) (o : ExportOptions) : (ExportError * option bytes) + TextWriter :=
  match codec_resolve (B "ENCODING") (o_encoding o) with
  | inl message => inl (EUsage message, None)
  | inr codec =>
      let d := MkDelimited codec (default (default_delimiter f) (o_delimiter o)) (o_quotechar o) (o_lineterminator o) (o_null_text o) in
      created (WDelimited d)
        ((if o_bom o && codec_is_utf8 codec then BOM else [])
         ++ (if o_header o then codec_encode codec (render_fields (dl_delimiter d) (dl_quotechar d) (dl_lineterminator d) (cm_name <$> columns)) else []))
  end.
Definition text_new (f : Format) (columns : list ColumnMeta) (o : ExportOptions) : (ExportError * option bytes) + TextWriter :=
  match f with
  | FText | FCsv => delimited_new f columns o
  | FJson => created (WJson (cm_name <$> columns) (o_jsonl o) (o_indent o) true) (if o_jsonl o then [] else B "[" ++ [LF])
  | FXml => created (WXml (tags_of columns) (o_xml_root o) (o_xml_record o)) (xml_head (o_xml_root o))
  | FHtml => created WHtml (html_head (default [] (o_title o)) columns)
  | FSql =>
      created (WSql (sql_prefix (o_sql_dialect o) (default [] (o_sql_table o)) columns) (Nat.max (o_sql_rows_per_insert o) 1) [] (o_sql_dialect o) 0) []
  | _ => match wr_new others f columns o with inl e => inl e | inr w => inr (OtherFile w) end
  end.
Definition indented (text : bytes) : bytes := mjoin ((fun line => B "  " ++ line) <$> split_inclusive text).
Definition text_row (w : TextWriter) (row : list Value) : option ExportError * TextWriter :=
  match w with
  | OtherFile w => let '(e, w) := wr_row others w row in (e, OtherFile w)
  | TextFile st out =>
      match st with
      | WDelimited d =>
          wrote st st out (codec_encode (dl_codec d) (render_fields (dl_delimiter d) (dl_quotechar d) (dl_lineterminator d) (fields_of (dl_null_text d) row)))
      | WJson names lines indent first =>
          let object := row_object names row in
          if lines then wrote st st out (compact object ++ [LF])
          else let st := WJson names lines indent false in wrote st st out ((if first then [] else [44%Z; LF]) ++ indented (pretty indent 0 object))
      | WXml tags root record => wrote st st out (render_xml_row tags record row)
      | WHtml => wrote st st out (render_html_row row)
      | WSql prefix per buffer d n =>
          let buffer := buffer ++ [sql_tuple d row] in
          let n := n + sql_non_finite d row in
          if per <=? length buffer then wrote (WSql prefix per buffer d n) (WSql prefix per [] d n) out (sql_statement prefix buffer)
          else (None, TextFile (WSql prefix per buffer d n) out)
      end
  end.
(** The trailer of a format, and what is left to flush. *)
Definition trailer (st : WriterState) : bytes :=
  match st with
  | WDelimited _ => []
  | WJson _ lines _ first => if lines then [] else if first then B "]" ++ [LF] else [LF] ++ B "]" ++ [LF]
  | WXml _ root _ => B "</" ++ root ++ B ">" ++ [LF]
  | WHtml => B "</tbody></table></body></html>" ++ [LF]
  | WSql prefix _ buffer _ _ => match buffer with [] => [] | _ => sql_statement prefix buffer end
  end.
Definition after_trailer (st : WriterState) : WriterState := match st with WSql prefix per _ d n => WSql prefix per [] d n | _ => st end.
Definition text_finish (w : TextWriter) : option ExportError * TextWriter :=
  match w with
  | OtherFile w => let '(e, w) := wr_finish others w in (e, OtherFile w)
  | TextFile st out =>
      match write_all out (trailer st) with
      | None => (Some EIo, w)
      | Some out => (if disk_flush disk out then None else Some EIo, TextFile (after_trailer st) out)
      end
  end.
Definition text_warnings (w : TextWriter) : list bytes :=
  match w with
  | OtherFile w => wr_warnings others w
  | TextFile (WSql _ _ _ _ (S _ as n)) _ =>
      [decimal (Z.of_nat n) ++ B " NaN or infinite float(s) written as NULL: this SQL dialect has no literal for them"]
  | TextFile _ _ => []
  end.
(** [open] and the methods of its writers. *)
Definition text_writers : @WriterOps bytes (list Value) ColumnMeta TextWriter E :=
  MkWriter text_new text_row text_finish
    (fun w => match w with OtherFile w => wr_truncated others w | TextFile _ _ => 0 end) text_warnings
    (fun w => match w with OtherFile w => wr_file others w | TextFile _ out => Some out end).
End Writers.
