(* ===== verification/WritersSpec.v ===== *)
(** * WritersSpec: a file of text or csv is read back as its rows, for [Writers] and [Plan].

    The reader is the grammar of the format: fields parted by the delimiter, rows ended by the line
    terminator, a field in quotes with every quote doubled or bare. *)
From stdpp Require Import gmap.
From S2P Require Import Prelude Bytes Text Scan Ident Directive Dates Value Json Batch Plan PlanSpec PlanParts Writers ValueSpec.
#[local] Open Scope nat_scope.
#[local] Set Warnings "-register-all".

(** ** Code pages *)

Definition page_table (c : Codec) : list Z :=
  match c with Cp1252 => CP1252_HIGH | Cp437 => CP437_HIGH | Cp850 => CP850_HIGH | _ => [] end.
(** A byte of a page of one byte a character. *)
Definition decode_byte (c : Codec) (b : Z) : Z :=
  if (b <=? 0x7F)%Z then b else match c with Latin1 => b | _ => default 0%Z (page_table c !! Z.to_nat (b - 0x80)) end.
Definition codec_decode (c : Codec) (s : bytes) : list Z := match c with Utf8 => chars s | _ => decode_byte c <$> s end.
Definition held (c : Codec) (code : Z) : bool := match byte_of c code with Some _ => true | None => false end.
(** What a page makes of a character. *)
Definition shown (c : Codec) (code : Z) : Z := if held c code then code else 63%Z.
Lemma high_byte_back code table b : high_byte code table = Some b ->
  (if (b <=? 0x7F)%Z then b else default 0%Z (table !! Z.to_nat (b - 0x80))) = code.
Proof.
  unfold high_byte. destruct (code <=? 0x7F)%Z eqn:E; [intros [= <-]; by rewrite E|].
  destruct (position _ table) as [i|] eqn:Ei; [|done]. intros [= <-]. apply position_some in Ei as ((x & Hx & ->%Z.eqb_eq) & _).
  rewrite (proj2 (Z.leb_gt _ _)) by lia. replace (Z.to_nat (128 + Z.of_nat i - 128)) with i by lia. by rewrite Hx.
Qed.
Lemma decode_shown c code : c <> Utf8 -> decode_byte c (default 63%Z (byte_of c code)) = shown c code.
Proof.
  intros Hc. unfold shown, held. destruct (byte_of c code) as [b|] eqn:E; [|by destruct c]. cbn. unfold decode_byte.
  destruct c; [done| | |by apply high_byte_back..]; cbn in E.
  - destruct (code <=? 0x7F)%Z eqn:E2; [|done]. injection E as <-. by rewrite E2.
  - destruct (code <=? 0xFF)%Z; [|done]. injection E as <-. by destruct (code <=? 0x7F)%Z.
Qed.
(** A text that any other follows without joining. *)
Definition apart (s : bytes) : Prop := forall t, chars (s ++ t) = chars s ++ chars t.
Lemma apart_nil : apart [].
Proof. by intros t. Qed.
Lemma apart_app a b : apart a -> apart b -> apart (a ++ b).
Proof. intros Ha Hb t. by rewrite <- app_assoc, !Ha, Hb, app_assoc. Qed.
Lemma apart_encode c : scalar c -> apart (encode_utf8 c).
Proof. intros Hc t. rewrite chars_encode by done. rewrite <- (app_nil_r (encode_utf8 c)), chars_encode by done. done. Qed.
Lemma chars_encode_one c : scalar c -> chars (encode_utf8 c) = [c].
Proof. intros Hc. by rewrite <- (app_nil_r (encode_utf8 c)), chars_encode. Qed.
Lemma apart_valid s : valid_utf8 s = true -> apart s.
Proof. intros Hv t. by apply valid_chars. Qed.
(** A text written in a code page is read as its characters, [?] for those the page does not hold. *)
Lemma page_reads c text rest : apart text -> codec_decode c (codec_encode c text ++ rest) = (shown c <$> chars text) ++ codec_decode c rest.
Proof.
  intros Ha. destruct (decide (c = Utf8)) as [->|Hc]; cbn.
  { rewrite Ha. f_equal. symmetry. erewrite list_fmap_ext; [apply list_fmap_id|done]. }
  assert (codec_decode c (codec_encode c text ++ rest) = decode_byte c <$> encode_single_byte text (byte_of c) ++ rest) as -> by (by destruct c).
  assert (codec_decode c rest = decode_byte c <$> rest) as -> by (by destruct c). rewrite fmap_app. f_equal.
  unfold encode_single_byte. rewrite <- list_fmap_compose. apply list_fmap_ext. intros i x _. by apply decode_shown.
Qed.

(** ** The reader *)

(** [quoted]: inside quotes; [fresh]: nothing of the field read yet. The rows of a text whose last line is ended. *)
Fixpoint read_rows (d q : Z) (t : list Z) (n : nat) (quoted fresh : bool) (row : list (list Z)) (field s : list Z) : option (list (list (list Z))) :=
  match n with
  | O => None
  | S n =>
      let read := read_rows d q t n in
      match s with
      | [] => if quoted then None else match row, field, fresh with [], [], true => Some [] | _, _, _ => None end
      | c :: s' =>
          if quoted then
            if c =b q then
              match s' with
              | c2 :: s'' => if c2 =b q then read true false row (field ++ [q]) s'' else read false false row field s'
              | [] => read false false row field s'
              end
            else read true false row (field ++ [c]) s'
          else if fresh && (c =b q) then read true false row field s'
          else if c =b d then read false true (row ++ [field]) [] s'
          else if starts_with s t then cons (row ++ [field]) <$> read false true [] [] (drop (length t) s)
          else read false false row (field ++ [c]) s'
      end
  end.
Definition read_delimited (d q : Z) (t s : list Z) : option (list (list (list Z))) := read_rows d q t (S (length s)) false true [] [] s.
Section Reader.
Variables (d q : Z) (t : list Z).
Hypothesis d_not_q : d <> q.
Hypothesis q_not_t : q ∉ t.
Hypothesis d_not_t : d ∉ t.
Hypothesis t_some : t <> [].
Abbreviation read := (read_rows d q t).
Lemma read_more n : forall m quoted fresh row field s r, n <= m -> read n quoted fresh row field s = Some r -> read m quoted fresh row field s = Some r.
Proof.
  induction n as [|n IH]; intros m quoted fresh row field s r Hm Hr; [done|]. destruct m as [|m]; [lia|]. cbn [read_rows] in Hr |- *.
  destruct s as [|c s]; [done|]. destruct quoted.
  - destruct (c =b q); [destruct s as [|c2 s]; [|destruct (c2 =b q)]|]; (eapply IH; [lia|exact Hr]).
  - destruct (fresh && (c =b q)); [eapply IH; [lia|exact Hr]|]. destruct (c =b d); [eapply IH; [lia|exact Hr]|].
    destruct (starts_with (c :: s) t); [|eapply IH; [lia|exact Hr]].
    destruct (read n false true [] [] _) as [rows|] eqn:E; [|done]. cbn in Hr. injection Hr as <-. by erewrite IH; [|lia|exact E].
Qed.
(** The two forms of a field. *)
Definition special (c : Z) : bool := (c =b d) || (c =b q) || has_char t c.
Definition in_quotes (f : list Z) : list Z := q :: double q f ++ [q].
Definition written (f x : list Z) : Prop := x = f /\ Forall (fun c => special c = false) f \/ x = in_quotes f.
Lemma has_char_spec cs c : has_char cs c = true <-> c ∈ cs.
Proof.
  unfold has_char. rewrite existsb_exists. setoid_rewrite list_elem_of_In. split; [intros (x & Hx & ->%Z.eqb_eq); done|]. intros Hc. exists c. by rewrite Z.eqb_refl.
Qed.
Definition stops (rest : list Z) : Prop := (exists rest', rest = d :: rest') \/ exists rest', rest = t ++ rest'.
Lemma stops_not_q rest c rest' : stops rest -> rest = c :: rest' -> (c =b q) = false.
Proof.
  intros [[r ->]|[r ->]] E.
  - injection E as -> ->. by apply Z.eqb_neq.
  - destruct t as [|x t'] eqn:Et; [done|]. injection E as -> _. apply Z.eqb_neq. intros ->. apply q_not_t. left.
Qed.
Lemma read_quoted f : forall n row field rest r, stops rest -> read n false false row (field ++ f) rest = Some r ->
  read (length (double q f ++ [q]) + n) true false row field (double q f ++ [q] ++ rest) = Some r.
Proof.
  induction f as [|c f IH]; intros n row field rest r Hs Hr.
  - rewrite app_nil_r in Hr. cbn [double app length Nat.add read_rows]. rewrite Z.eqb_refl.
    destruct rest as [|c2 rest]; [done|]. by rewrite (stops_not_q _ _ _ Hs eq_refl).
  - cbn [double]. replace (field ++ c :: f) with ((field ++ [c]) ++ f) in Hr by (by rewrite <- app_assoc). destruct (c =b q) eqn:E.
    + apply Z.eqb_eq in E as ->. apply read_more with (n := S (length (double q f ++ [q]) + n)); [cbn; lia|]. cbn [app read_rows]. rewrite !Z.eqb_refl. by apply IH.
    + cbn [length app Nat.add read_rows]. rewrite E. by apply IH.
Qed.
Lemma starts_other c s : c ∉ t -> starts_with (c :: s) t = false.
Proof. intros Hc. destruct t as [|x t']; [done|]. cbn. replace (x =b c) with false; [done|]. symmetry. apply Z.eqb_neq. intros ->. apply Hc. left. Qed.
Lemma read_bare f : forall n fresh row field rest r, Forall (fun c => special c = false) f -> stops rest ->
  (forall fresh', read n false fresh' row (field ++ f) rest = Some r) -> read (length f + n) false fresh row field (f ++ rest) = Some r.
Proof.
  induction f as [|c f IH]; intros n fresh row field rest r Hf Hs Hr; cbn [length app Nat.add]; [specialize (Hr fresh); by rewrite app_nil_r in Hr|].
  inversion Hf as [|? ? Hc Hf']; subst. unfold special in Hc. rewrite !orb_false_iff in Hc. destruct Hc as [[Hd Hq] Ht]. cbn [read_rows]. rewrite Hq, Hd, andb_false_r.
  rewrite starts_other by (rewrite <- has_char_spec, Ht; done). apply IH; [done..|]. intros fresh'. rewrite <- app_assoc. apply Hr.
Qed.
Lemma read_field f x n row rest r : written f x -> stops rest -> (forall fresh, read n false fresh row f rest = Some r) -> read (length x + n) false true row [] (x ++ rest) = Some r.
Proof.
  intros [[-> Hf]| ->] Hs Hr; [by apply read_bare|]. unfold in_quotes. cbn [length app Nat.add read_rows]. rewrite Z.eqb_refl. cbn [andb]. rewrite <- app_assoc. by apply read_quoted.
Qed.
(** A row: its fields parted by the delimiter and ended by the terminator. *)
Fixpoint join_chars (xs : list (list Z)) : list Z := match xs with [] => [] | [x] => x | x :: xs => x ++ d :: join_chars xs end.
Lemma stops_end fresh n row f rest r : read n false true [] [] rest = Some r -> read (S n) false fresh row f (t ++ rest) = Some ((row ++ [f]) :: r).
Proof.
  intros Hr. destruct t as [|c t'] eqn:Et; [done|]. cbn [app read_rows].
  assert (c ∈ t) as Hc by (rewrite Et; left). rewrite <- Et in *.
  replace (c =b q) with false by (symmetry; apply Z.eqb_neq; intros ->; done). replace (c =b d) with false by (symmetry; apply Z.eqb_neq; intros ->; done).
  rewrite andb_false_r. change (c :: t' ++ rest) with ((c :: t') ++ rest). rewrite <- Et, starts_with_app, drop_app_length. by rewrite Hr.
Qed.
Lemma read_row xs : forall fs n row rest r, Forall2 written fs xs -> xs <> [] -> read n false true [] [] rest = Some r ->
  read (length (join_chars xs ++ t) + n) false true row [] (join_chars xs ++ t ++ rest) = Some ((row ++ fs) :: r).
Proof.
  induction xs as [|x xs IH]; intros fs n row rest r Hw Hne Hr; [done|]. inversion Hw as [|f ? fs' ? Hx Hxs]; subst. destruct xs as [|y xs].
  - inversion Hxs; subst. cbn [join_chars]. rewrite length_app, <- Nat.add_assoc. apply read_field with f; [done|by right; eexists|].
    intros fresh. eapply read_more; [|by apply stops_end]. destruct t; [done|cbn; lia].
  - specialize (IH fs' n (row ++ [f]) rest r Hxs ltac:(done) Hr). change (join_chars (x :: y :: xs)) with (x ++ d :: join_chars (y :: xs)).
    set (J := join_chars (y :: xs)) in *. clearbody J. replace (length ((x ++ d :: J) ++ t) + n) with (length x + S (length (J ++ t) + n)) by (rewrite !length_app; cbn; lia).
    rewrite <- app_assoc. apply read_field with f; [done|by left; eexists|]. intros fresh. cbn [app read_rows].
    replace (d =b q) with false by (symmetry; by apply Z.eqb_neq). rewrite andb_false_r, Z.eqb_refl. rewrite <- app_assoc in IH. exact IH.
Qed.
Lemma read_all lines : forall fss, Forall2 (fun fs xs => Forall2 written fs xs /\ xs <> []) fss lines ->
  read (S (length (mjoin ((fun xs => join_chars xs ++ t) <$> lines)))) false true [] [] (mjoin ((fun xs => join_chars xs ++ t) <$> lines)) = Some fss.
Proof.
  induction lines as [|xs lines IH]; intros fss Hl; inversion Hl as [|fs ? fss' ? [Hw Hne] Hrest]; subst; [done|].
  change (mjoin ((fun xs => join_chars xs ++ t) <$> xs :: lines)) with ((join_chars xs ++ t) ++ mjoin ((fun xs => join_chars xs ++ t) <$> lines)).
  rewrite <- app_assoc. eapply read_more; [|exact (read_row xs fs _ [] _ fss' Hw Hne (IH fss' Hrest))]. rewrite !length_app. lia.
Qed.
End Reader.

(** ** What the writer writes *)

Section Written.
Variables (codec : Codec) (d q : Z) (term : bytes).
Abbreviation T := (chars term).
(** Separators that do not clash and that the page holds; [?] is none of them unless it stands for nothing. *)
Record Separators : Prop := {
  se_d_not_q : d <> q; se_q_not_t : q ∉ T; se_d_not_t : d ∉ T; se_some : T <> []; se_d : scalar d; se_q : scalar q; se_term : valid_utf8 term = true;
  se_held : Forall (fun c => held codec c = true) (d :: q :: T); se_mark : codec = Utf8 \/ special d q T 63 = false }.
Hypothesis seps : Separators.
Abbreviation mapped := (fmap (shown codec)).
Lemma shown_held c : held codec c = true -> shown codec c = c.
Proof. unfold shown. by intros ->. Qed.
Lemma special_in c : special d q T c = true <-> c ∈ d :: q :: T.
Proof. unfold special. rewrite !orb_true_iff, has_char_spec, !elem_of_cons, !Z.eqb_eq. tauto. Qed.
Lemma shown_special c : special d q T (shown codec c) = special d q T c.
Proof.
  destruct (held codec c) eqn:Eh; [by rewrite shown_held|]. unfold shown. rewrite Eh. destruct (se_mark seps) as [E|E]; [by rewrite E in Eh|]. rewrite E. symmetry.
  apply not_true_iff_false. rewrite special_in. intros Hc. pose proof (proj1 (Forall_forall _ _) (se_held seps) c Hc) as Hh. congruence.
Qed.
Lemma shown_of c : c ∈ d :: q :: T -> shown codec c = c.
Proof. intros Hc. apply shown_held. exact (proj1 (Forall_forall _ _) (se_held seps) c Hc). Qed.
Lemma shown_quote c : (shown codec c =b q) = (c =b q).
Proof.
  destruct (c =b q) eqn:E; [apply Z.eqb_eq in E as ->; rewrite shown_of by (right; left); by rewrite Z.eqb_refl|].
  apply not_true_iff_false. intros Hq%Z.eqb_eq. apply Z.eqb_neq in E. unfold shown in Hq. destruct (held codec c) eqn:Eh; [done|].
  destruct (se_mark seps) as [E2|E2]; [by rewrite E2 in Eh|]. apply not_true_iff_false in E2. apply E2, special_in. rewrite Hq. right; left.
Qed.
Lemma shown_double cs : mapped (double q cs) = double q (mapped cs).
Proof. induction cs as [|c cs IH]; [done|]. cbn. rewrite shown_quote. destruct (c =b q); cbn; rewrite <- IH; [rewrite shown_of by (right; left)|]; done. Qed.
Lemma existsb_special cs : has_char cs d || has_char cs q || existsb (fun c => has_char T c) cs = existsb (special d q T) cs.
Proof.
  induction cs as [|c cs IH]; [done|]. change (existsb (special d q T) (c :: cs)) with (special d q T c || existsb (special d q T) cs). rewrite <- IH.
  unfold special, has_char. cbn. destruct (c =b d), (c =b q), (existsb (fun x => x =b d) cs), (existsb (fun x => x =b q) cs); cbn; rewrite ?orb_true_r; done.
Qed.
Lemma quoted_chars field : apart field -> Forall scalar (chars field) -> apart (quote_field d q term field)
  /\ chars (quote_field d q term field) = if existsb (special d q T) (chars field) then in_quotes q (chars field) else chars field.
Proof.
  intros Ha Hs. unfold quote_field. rewrite existsb_special. destruct (existsb _ _); [|done].
  set (body := mjoin _).
  assert (apart body /\ chars body = double q (chars field)) as [Hb Hc].
  { unfold body. clear -Hs seps. induction Hs as [|c cs Hc Hcs [IHa IHc]]; [split; [apply apart_nil|done]|].
    change (mjoin ((fun c => (if c =b q then encode_utf8 q else []) ++ encode_utf8 c) <$> c :: cs))
      with (((if c =b q then encode_utf8 q else []) ++ encode_utf8 c) ++ mjoin ((fun c => (if c =b q then encode_utf8 q else []) ++ encode_utf8 c) <$> cs)).
    assert (apart ((if c =b q then encode_utf8 q else []) ++ encode_utf8 c)) as Hap
      by (destruct (c =b q); [apply apart_app; apply apart_encode; [apply seps|done]|by apply apart_encode]).
    split; [by apply apart_app|]. rewrite Hap, IHc. cbn [double]. destruct (c =b q) eqn:E; [|cbn [app]; by rewrite chars_encode_one].
    apply Z.eqb_eq in E as ->. rewrite apart_encode, !chars_encode_one by apply seps. done. }
  pose proof (apart_encode q (se_q seps)) as Hq. split; [by repeat apply apart_app|].
  rewrite Hq, Hb, Hc, chars_encode_one by apply seps. done.
Qed.
Lemma field_written field : valid_utf8 field = true -> written d q T (mapped (chars field)) (mapped (chars (quote_field d q term field))).
Proof.
  intros Hv. destruct (quoted_chars field (apart_valid _ Hv) (valid_scalars _ Hv)) as [_ ->]. destruct (existsb (special d q T) (chars field)) eqn:E.
  - right. unfold in_quotes. rewrite fmap_cons, fmap_app, shown_double. cbn. rewrite shown_of by (right; left). done.
  - left. split; [done|]. apply Forall_fmap, Forall_forall. intros c Hc. cbn. rewrite shown_special. apply not_true_iff_false. intros Hsp.
    apply not_true_iff_false in E. apply E, existsb_exists. exists c. split; [by apply list_elem_of_In|done].
Qed.
Lemma join_fields fields : Forall (fun f => valid_utf8 f = true) fields ->
  apart (join_sep (encode_utf8 d) (quote_field d q term <$> fields))
  /\ mapped (chars (join_sep (encode_utf8 d) (quote_field d q term <$> fields))) = join_chars d ((fun f => mapped (chars (quote_field d q term f))) <$> fields).
Proof.
  induction 1 as [|f fields Hf Hfs [IHa IHc]]; [split; [apply apart_nil|done]|].
  destruct (quoted_chars f (apart_valid _ Hf) (valid_scalars _ Hf)) as [Ha _]. destruct fields as [|g fields]; [done|].
  change (join_sep (encode_utf8 d) (quote_field d q term <$> f :: g :: fields))
    with (quote_field d q term f ++ encode_utf8 d ++ join_sep (encode_utf8 d) (quote_field d q term <$> g :: fields)).
  pose proof (apart_encode d (se_d seps)) as Hd. split; [by repeat apply apart_app|]. rewrite Ha, Hd, !fmap_app, IHc, chars_encode_one by apply seps.
  cbn. rewrite shown_of by left. done.
Qed.
(** A row written and encoded, before anything. *)
Lemma row_decoded fields rest : Forall (fun f => valid_utf8 f = true) fields ->
  codec_decode codec (codec_encode codec (render_fields d q term fields) ++ rest)
  = (join_chars d ((fun f => mapped (chars (quote_field d q term f))) <$> fields) ++ T) ++ codec_decode codec rest.
Proof.
  intros Hf. destruct (join_fields fields Hf) as [Ha Hc]. unfold render_fields. rewrite page_reads by (apply apart_app; [done|apply apart_valid, seps]). f_equal.
  rewrite Ha, fmap_app, Hc. f_equal. transitivity (id <$> T); [|apply list_fmap_id]. apply list_fmap_ext. intros i c Hi. apply shown_of.
  right; right. by eapply list_elem_of_lookup_2.
Qed.
(** The characters of a field, and a row written. *)
Definition shows (field : bytes) : list Z := shown codec <$> chars field.
Definition line (fields : list bytes) : bytes := codec_encode codec (render_fields d q term fields).
Definition line_chars (fields : list bytes) : list (list Z) := (fun f => mapped (chars (quote_field d q term f))) <$> fields.
Definition seen (rows : list (list bytes)) : list (list (list Z)) := map (map shows) rows.
(** A file of such rows is read back. *)
Lemma file_reads_back (rows : list (list bytes)) : Forall (fun fields => fields <> [] /\ Forall (fun f => valid_utf8 f = true) fields) rows ->
  read_delimited d q T (codec_decode codec (mjoin (line <$> rows))) = Some (seen rows).
Proof.
  intros Hrows. assert (codec_decode codec (mjoin (line <$> rows)) = mjoin ((fun xs => join_chars d xs ++ T) <$> (line_chars <$> rows))) as ->.
  { induction Hrows as [|fields rows [_ Hf] _ IH]; [by destruct codec|]. change (mjoin (line <$> fields :: rows)) with (line fields ++ mjoin (line <$> rows)).
    unfold line at 1. rewrite row_decoded by done. by rewrite IH. }
  apply read_all; [apply seps..|]. induction Hrows as [|fields rows [Hne Hf] _ IH]; constructor; [|exact IH].
  split; [|by destruct fields]. clear -Hf seps. induction Hf as [|f fields Hf _ IH]; constructor; [|exact IH]. by apply field_written.
Qed.
End Written.

(** ** The file of a part *)

Section Files.
Context `{Float} `{Alphanumeric} {E Other : Type}.
Variable json_string : bytes -> bytes.
Variable json_scalar : Json -> bytes.
Variable disk : Disk.
Variable others : @WriterOps bytes (list Value) ColumnMeta Other E.
Abbreviation ops := (text_writers (E := E) json_string json_scalar disk others).
Abbreviation TextWriter := (@TextWriter Other).
Lemma write_all_ok out text out' : write_all disk out text = Some out' -> out' = out ++ text.
Proof. unfold write_all. destruct text; [intros [= <-]; by rewrite app_nil_r|]. destruct (disk_write _ _ _); [by intros [= <-]|done]. Qed.
Lemma created_ok st head wr : created (E := E) (Other := Other) disk st head = inr wr -> wr = TextFile st head.
Proof.
  unfold created. destruct (negb _); [done|]. destruct (write_all _ [] head) as [out|] eqn:Ew; [|done]. intros [= <-]. by rewrite (write_all_ok _ _ _ Ew).
Qed.
(** A writer of the text formats that has finished has its file. *)
Lemma text_finish_creates : finish_creates others -> finish_creates ops.
Proof.
  intros Ho wr wr' Hf. destruct wr as [st out|w]; cbn in Hf.
  - destruct (write_all disk out (trailer st)); [|done]. destruct (disk_flush disk _); [|done]. injection Hf as <-. by eexists.
  - destruct (wr_finish others w) as [e w1] eqn:Ew. injection Hf as -> <-. exact (Ho _ _ Ew).
Qed.
Definition row_line (d : Delimited) (fields : list bytes) : bytes := line (dl_codec d) (dl_delimiter d) (dl_quotechar d) (dl_lineterminator d) fields.
Lemma delimited_rows d rows : forall out (wr : TextWriter), write_rows ops (TextFile (WDelimited d) out) rows = Some wr ->
  wr = TextFile (WDelimited d) (out ++ mjoin (row_line d <$> (fields_of (dl_null_text d) <$> rows))).
Proof.
  induction rows as [|row rows IH]; intros out wr Hw; cbn [write_rows] in Hw; [injection Hw as <-; cbn; by rewrite app_nil_r|].
  cbn in Hw. unfold wrote in Hw. destruct (write_all disk out _) as [out'|] eqn:Ew; [|done]. rewrite (IH _ _ Hw), (write_all_ok _ _ _ Ew), <- app_assoc. done.
Qed.
Definition delimited_of (f : Format) (codec : Codec) (o : ExportOptions) : Delimited :=
  MkDelimited codec (default (default_delimiter f) (o_delimiter o)) (o_quotechar o) (o_lineterminator o) (o_null_text o).
Definition mark_of (codec : Codec) (o : ExportOptions) : bytes := if o_bom o && codec_is_utf8 codec then BOM else [].
(** The rows of a file: the header, when there is one, and the rows of the part. *)
Definition file_rows (o : ExportOptions) (columns : list ColumnMeta) (rows : list (list Value)) : list (list bytes) :=
  (if o_header o then [cm_name <$> columns] else []) ++ (fields_of (o_null_text o) <$> rows).
Lemma delimited_part sp codec i rows c : sp_format sp = FText \/ sp_format sp = FCsv ->
  codec_resolve (B "ENCODING") (o_encoding (sp_options sp)) = inr codec -> part_content ops sp i rows = Some c ->
  c = mark_of codec (sp_options sp)
      ++ mjoin (row_line (delimited_of (sp_format sp) codec (sp_options sp)) <$> file_rows (sp_options sp) (sp_columns sp) rows).
Proof.
  intros Hf Hcodec Hp. unfold part_content, opened in Hp. set (o := titled _ _) in Hp.
  assert (wr_new ops (sp_format sp) (sp_columns sp) o = delimited_new disk (sp_format sp) (sp_columns sp) o) as En by (destruct Hf as [-> | ->]; done).
  rewrite En in Hp. unfold delimited_new in Hp. change (o_encoding o) with (o_encoding (sp_options sp)) in Hp. rewrite Hcodec in Hp.
  destruct (created _ _ _) as [|wr0] eqn:Ec; [done|]. apply created_ok in Ec as ->.
  destruct (write_rows _ _ _) as [wr|] eqn:Ew; [|done]. apply delimited_rows in Ew as ->. cbn in Hp.
  destruct (disk_flush _ _); [|done]. injection Hp as <-. unfold file_rows. rewrite <- app_assoc. f_equal.
  change (o_header o) with (o_header (sp_options sp)). by destruct (o_header (sp_options sp)).
Qed.
(** What is asked of the rows for a file to hold them: valid texts, and a field in every row. *)
Record Writable (o : ExportOptions) (columns : list ColumnMeta) (rows : list (list Value)) : Prop := {
  wt_columns : columns <> []; wt_names : Forall (fun c => valid_utf8 (cm_name c) = true) columns;
  wt_rows : Forall (fun row => row <> []) rows;
  wt_texts : Forall (Forall (fun v => valid_utf8 (default (o_null_text o) (to_text v)) = true)) rows }.
Lemma writable_part o columns rows parts i part : Writable o columns rows -> concat parts = rows -> parts !! i = Some part -> Writable o columns part.
Proof.
  intros [Hc Hn Hr Ht] <- Hi. rewrite Forall_concat in Hr, Ht. split; [done|done|exact (Forall_lookup_1 _ _ _ _ Hr Hi)|exact (Forall_lookup_1 _ _ _ _ Ht Hi)].
Qed.
Lemma file_rows_valid o columns rows : Writable o columns rows ->
  Forall (fun fields => fields <> [] /\ Forall (fun f => valid_utf8 f = true) fields) (file_rows o columns rows).
Proof.
  intros [Hc Hn Hr Ht]. unfold file_rows. apply Forall_app. split.
  - destruct (o_header o); [|constructor]. constructor; [|constructor]. split; [by destruct columns|by apply Forall_fmap].
  - apply Forall_fmap. apply Forall_forall. intros row Hin. cbn. rewrite Forall_forall in Hr, Ht. specialize (Hr row Hin). specialize (Ht row Hin).
    split; [by destruct row|by apply Forall_fmap].
Qed.
(** C19: What a text or csv export writes is what it was given. The rows taken from the source are split over the files
    of the export, in order, and a reader of the format - fields parted by the delimiter, rows ended by the
    terminator, quotes doubled inside quotes - that decodes a file in its code page finds after the mark the names
    of the columns, when a header is asked for, and then the rows of the file, the same fields in the same places:
    no delimiter, quote or line end inside a value moves a field, whatever the code page, and a character changes
    only when the page does not hold it, into a question mark. *)
Theorem delimited_export_reads_back (io : nat -> bool) (pid mode_new : Z) (sp : @ExportSpec ColumnMeta) (codec : Codec)
  (rows : list (E + list Value)) (cancel : nat -> bool) (w w' : @World bytes) (oc : @ExportOutcome ColumnMeta) (reports : list nat) :
  let o := sp_options sp in let d := delimited_of (sp_format sp) codec o in
  sp_format sp = FText \/ sp_format sp = FCsv ->
  codec_resolve (B "ENCODING") (o_encoding o) = inr codec ->
  Separators codec (dl_delimiter d) (dl_quotechar d) (dl_lineterminator d) ->
  Writable o (sp_columns sp) (taken cancel 0 rows) ->
  finish_creates others ->
  export_rows ops io pid mode_new sp rows cancel w = (inr (oc, reports), w') ->
  exists parts, parts_of sp (taken cancel 0 rows) parts /\ forall i part, parts !! i = Some part ->
    exists p body, oc_files oc !! i = Some p /\ read_file w' p = Some (mark_of codec o ++ body)
      /\ read_delimited (dl_delimiter d) (dl_quotechar d) (chars (dl_lineterminator d)) (codec_decode codec body)
         = Some (seen codec (file_rows o (sp_columns sp) part)).
Proof.
  intros o d Hf Hcodec Hseps Hwr Ho Hx.
  destruct (export_parts ops io pid mode_new sp (text_finish_creates Ho) rows cancel w w' oc reports Hx) as (done & cur & Hc & Hsh & _ & [Hcom _] & _).
  exists (done ++ [cur]). split; [by apply shaped_parts|]. intros i part Hi. destruct (Hcom i part Hi) as (p & c & Hp & Hpart & Hread).
  apply delimited_part with (codec := codec) in Hpart as ->; [|done..].
  exists p, (mjoin (row_line d <$> file_rows o (sp_columns sp) part)). split; [done|]. split; [done|].
  apply file_reads_back; [done|]. apply file_rows_valid. apply writable_part with (rows := taken cancel 0 rows) (parts := done ++ [cur]) (i := i); [done| |done].
  by rewrite concat_app, concat_cons, app_nil_r.
Qed.
End Files.

(** ** A small export *)

(** Two columns and three rows, a delimiter, a quote, a line end and a character past the code page among
    the values, two rows to a file, in cp1252. *)
Module SmallExport.
#[local] Existing Instance no_float.
#[export] Instance ascii_alphanumeric : Alphanumeric := {| other_alphanumeric _ := false |}.
Definition options : ExportOptions :=
  MkOptions true None DQUOTE (B "NULL") [CR; LF] true (B "Windows-1252") false 2 (B "RECORDS") (B "RECORD") None Generic 200 None 254 (B "cp1252") None.
Definition spec : @ExportSpec ColumnMeta := MkSpec FCsv (B "/out") (B "report") [MkMeta (B "id") (B "int"); MkMeta (B "note") (B "text")] options (Some 2%Z).
Definition texts : list bytes := [B "a,b"; [DQUOTE; CR; LF]; encode_utf8 0x20AC ++ encode_utf8 0x4E2D].
Definition rows : list (nat + list Value) := (fun t => inr [VInt 7; VText t]) <$> texts.
Definition disk : Disk := MkDisk true (fun _ _ => true) (fun _ => true).
Definition no_others : @WriterOps bytes (list Value) ColumnMeta Empty_set nat :=
  MkWriter (fun _ _ _ => inl (EIo, None)) (fun w _ => (None, w)) (fun w => (None, w)) (fun _ => 0) (fun _ => []) (fun _ => None).
Definition run := export_rows (text_writers (fun s => s) (fun _ => []) disk no_others) (fun _ => true) 7 420 spec rows (fun _ => false) (MkWorld ∅ 0 0).
Lemma separators : Separators Cp1252 44 DQUOTE [CR; LF].
Proof.
  assert (forall c, has_char [CR; LF] c = false -> c ∉ chars [CR; LF]) as Hn by (intros c Hc Hin%has_char_spec; change (chars [CR; LF]) with [CR; LF] in Hin; by rewrite Hc in Hin).
  split; [discriminate|by apply Hn..|discriminate|done|done|reflexivity|by repeat constructor|by right].
Qed.
End SmallExport.
#[local] Existing Instances no_float SmallExport.ascii_alphanumeric.
Lemma delimited_export_reads_back_witness : exists oc reports w' parts, SmallExport.run = (inr (oc, reports), w')
  /\ parts_of SmallExport.spec (taken (fun _ => false) 0 SmallExport.rows) parts /\ forall i part, parts !! i = Some part ->
    exists p body, oc_files oc !! i = Some p /\ read_file w' p = Some body
      /\ read_delimited 44 DQUOTE [CR; LF] (codec_decode Cp1252 body) = Some (seen Cp1252 (file_rows SmallExport.options (sp_columns SmallExport.spec) part)).
Proof.
  destruct SmallExport.run as [[e|[oc reports]] w'] eqn:E; [vm_compute in E; discriminate E|].
  destruct (delimited_export_reads_back (fun s => s) (fun _ => []) SmallExport.disk SmallExport.no_others (fun _ => true) 7 420 SmallExport.spec Cp1252
              SmallExport.rows (fun _ => false) (MkWorld ∅ 0 0) w' oc reports ltac:(by right) ltac:(vm_compute; reflexivity) SmallExport.separators
              ltac:(split; [discriminate|by repeat constructor|by repeat constructor|by repeat constructor]) ltac:(intros []) E) as (parts & Hp & Hr).
  exists oc, reports, w', parts. split; [reflexivity|]. split; [exact Hp|exact Hr].
Defined.
Example small_files : match SmallExport.run with
  | (inr (oc, _), w') => (read_file w' <$> oc_files oc) =
      [Some (B "id,note" ++ [CR; LF] ++ B "7," ++ [DQUOTE] ++ B "a,b" ++ [DQUOTE; CR; LF] ++ B "7," ++ [DQUOTE; DQUOTE; DQUOTE; CR; LF; DQUOTE; CR; LF]);
       Some (B "id,note" ++ [CR; LF] ++ B "7," ++ [128; 63; CR; LF]%Z)]
  | _ => False end.
Proof. vm_compute. reflexivity. Qed.

(** ** What the heads of the files hold *)

(** [HTML_HEAD] is written as a [format!] string would be and filled with [replace], which leaves the
    doubled braces: no rule of the style sheet opens with a single one. *)
Example html_head_keeps_doubled_braces :
  let head := html_head (B "report") [MkMeta (B "id") (B "int")] in
  contains head (B " table{{border-collapse:collapse;") = true /\ contains head (B " table{border-collapse:collapse;") = false.
Proof. vm_compute. by split. Qed.
(** The title is put in first and then searched for the place of the column heads. *)
Example html_title_takes_the_column_heads :
  contains (html_head (B "{head}") [MkMeta (B "id") (B "int")]) (B "<title><th>id</th></title>") = true.
Proof. vm_compute. reflexivity. Qed.
(** An empty cell uses the prefix [xsi], which nothing in the file binds. *)
Example xml_null_has_an_unbound_prefix :
  let doc := xml_head (B "RECORDS") ++ render_xml SmallExport.options [MkMeta (B "id") (B "int")] [[VNull]] ++ B "</RECORDS>" ++ [LF] in
  contains doc (B "<id xsi:nil=") = true /\ contains doc (B "xmlns") = false.
Proof. vm_compute. by split. Qed.
