(* ===== verification/JsonSource.v ===== *)
(** * JsonSource: the objects of a JSON file, [crates/qh-import/src/json_source.rs].

    The reader is a buffer and the reads to come, each some bytes or an error; a read of no bytes is
    the end of the file. A method changes the source and may fail ([M]). serde_json's reading of an
    object and of a string are parameters. *)
From stdpp Require Import gmap.
From S2P Require Import Prelude Bytes Text Scan.
#[local] Open Scope nat_scope.
#[local] Set Warnings "-register-all".

Definition MAX_ELEMENT_BYTES : Z := (64 * 1024 * 1024)%Z.
Definition MAX_DEPTH : nat := 128.
Definition SAMPLE_ROWS : nat := 1000.
Definition SAMPLE_BYTES : Z := (16 * 1024 * 1024)%Z.
Definition MAX_UNMAPPED : nat := 20.
Record Limits := MkLimits { max_element_bytes : Z; sample_rows : nat; sample_bytes : Z }.
Definition default_limits : Limits := MkLimits MAX_ELEMENT_BYTES SAMPLE_ROWS SAMPLE_BYTES.
Inductive JsonMode := Unstarted | Stream | Array.
#[export] Instance JsonMode_eq_dec : EqDecision JsonMode.
Proof. solve_decision. Defined.
(** [ImportError] of a JSON file, the path left out. *)
Inductive ImportError := IeIo (message : bytes) | IeJson (line offset : nat) (message : bytes).
(** An object as its keys and raw values, in file order. *)
Abbreviation Obj := (list (bytes * bytes)).
Record Element := MkElement { el_bytes : bytes; el_line : nat; el_offset : nat; el_index : nat }.
(** A row of the file: its cells, [None] being a definite NULL. *)
Record SourceRow := MkSourceRow { sr_line : nat; sr_cells : list (option bytes) }.
Record JsonSource := MkSource {
  js_buf : bytes; js_reads : list (bytes + bytes); js_mode : JsonMode; js_expect_element : bool; js_done : bool;
  js_line : nat; js_offset : nat; js_count : nat; js_header : list bytes; js_index : gmap bytes nat;
  js_queue : list (Element * Obj); js_unmapped : list bytes }.
Definition source_new (reads : list (bytes + bytes)) : JsonSource := MkSource [] reads Unstarted true false 1 0 0 [] ∅ [] [].
Definition set_reader (buf : bytes) (reads : list (bytes + bytes)) (s : JsonSource) : JsonSource :=
  MkSource buf reads (js_mode s) (js_expect_element s) (js_done s) (js_line s) (js_offset s) (js_count s) (js_header s) (js_index s) (js_queue s) (js_unmapped s).
Definition set_mode (mode : JsonMode) (s : JsonSource) : JsonSource :=
  MkSource (js_buf s) (js_reads s) mode (js_expect_element s) (js_done s) (js_line s) (js_offset s) (js_count s) (js_header s) (js_index s) (js_queue s) (js_unmapped s).
Definition set_expect (e : bool) (s : JsonSource) : JsonSource :=
  MkSource (js_buf s) (js_reads s) (js_mode s) e (js_done s) (js_line s) (js_offset s) (js_count s) (js_header s) (js_index s) (js_queue s) (js_unmapped s).
Definition set_done (s : JsonSource) : JsonSource :=
  MkSource (js_buf s) (js_reads s) (js_mode s) (js_expect_element s) true (js_line s) (js_offset s) (js_count s) (js_header s) (js_index s) (js_queue s) (js_unmapped s).
Definition set_place (line offset : nat) (s : JsonSource) : JsonSource :=
  MkSource (js_buf s) (js_reads s) (js_mode s) (js_expect_element s) (js_done s) line offset (js_count s) (js_header s) (js_index s) (js_queue s) (js_unmapped s).
Definition count_element (s : JsonSource) : JsonSource :=
  MkSource (js_buf s) (js_reads s) (js_mode s) false (js_done s) (js_line s) (js_offset s) (S (js_count s)) (js_header s) (js_index s) (js_queue s) (js_unmapped s).
Definition set_queue (q : list (Element * Obj)) (s : JsonSource) : JsonSource :=
  MkSource (js_buf s) (js_reads s) (js_mode s) (js_expect_element s) (js_done s) (js_line s) (js_offset s) (js_count s) (js_header s) (js_index s) q (js_unmapped s).
Definition add_key (key : bytes) (s : JsonSource) : JsonSource :=
  match js_index s !! key with
  | Some _ => s
  | None => MkSource (js_buf s) (js_reads s) (js_mode s) (js_expect_element s) (js_done s) (js_line s) (js_offset s) (js_count s)
              (js_header s ++ [key]) (<[key := length (js_header s)]> (js_index s)) (js_queue s) (js_unmapped s)
  end.
Definition note_unmapped (key : bytes) (s : JsonSource) : JsonSource :=
  if (length (js_unmapped s) <? MAX_UNMAPPED) && negb (existsb (bytes_eqb key) (js_unmapped s)) then
    MkSource (js_buf s) (js_reads s) (js_mode s) (js_expect_element s) (js_done s) (js_line s) (js_offset s) (js_count s)
      (js_header s) (js_index s) (js_queue s) (js_unmapped s ++ [key])
  else s.

(** ** Methods *)

Definition M (A : Type) : Type := JsonSource -> (ImportError + A) * JsonSource.
Definition ret {A} (a : A) : M A := fun s => (inr a, s).
Definition raise {A} (e : ImportError) : M A := fun s => (inl e, s).
Definition bind {A B} (m : M A) (f : A -> M B) : M B := fun s => match m s with (inr a, s) => f a s | (inl e, s) => (inl e, s) end.
Definition modify (f : JsonSource -> JsonSource) : M unit := fun s => (inr tt, f s).
Definition reads {A} (f : JsonSource -> M A) : M A := fun s => f s s.
Local Notation "'let!' x := m 'in' k" := (bind m (fun x => k)) (at level 10, x name, m at level 100, k at level 200).
Local Notation "m ;;; k" := (bind m (fun _ => k)) (at level 100, right associativity).
Definition here {A} (message : bytes) : M A := reads (fun s => raise (IeJson (js_line s) (js_offset s) message)).
(** [fill_buf] *)
Definition fill_buf : M bytes := fun s =>
  match js_buf s, js_reads s with
  | [], [] => (inr [], s)
  | [], inl e :: rs => (inl (IeIo e), set_reader [] rs s)
  | [], inr chunk :: rs => (inr chunk, set_reader chunk rs s)
  | buf, _ => (inr buf, s)
  end.
Definition consume (n : nat) : M unit := modify (fun s => set_reader (drop n (js_buf s)) (js_reads s) s).
Definition peek : M (option Z) := let! buf := fill_buf in ret (head buf).
Definition line_after (b : Z) (line : nat) : nat := if b =b LF then S line else line.
Definition bump (b : Z) : M unit := consume 1 ;;; modify (fun s => set_place (line_after b (js_line s)) (S (js_offset s)) s).
(** [skip_ws]: over the buffer, then over the reads. *)
Definition is_json_ws (b : Z) : bool := (b =b SP) || (b =b TAB) || (b =b CR) || (b =b LF).
Fixpoint skip_buf (buf : bytes) (line offset : nat) : bytes * nat * nat :=
  match buf with
  | b :: buf' => if is_json_ws b then skip_buf buf' (line_after b line) (S offset) else (buf, line, offset)
  | [] => ([], line, offset)
  end.
Definition skip_here (s : JsonSource) : JsonSource :=
  let '(buf, line, offset) := skip_buf (js_buf s) (js_line s) (js_offset s) in set_place line offset (set_reader buf (js_reads s) s).
Fixpoint skip_reads (rs : list (bytes + bytes)) (s : JsonSource) : (ImportError + unit) * JsonSource :=
  let s := skip_here s in
  match js_buf s, rs with
  | [], inl e :: rs => (inl (IeIo e), set_reader [] rs s)
  | [], inr [] :: rs => (inr tt, set_reader [] rs s)
  | [], inr chunk :: rs => skip_reads rs (set_reader chunk rs s)
  | _, _ => (inr tt, s)
  end.
Definition skip_ws : M unit := fun s => skip_reads (js_reads s) s.
Definition UTF16_REFUSED : bytes := B "the file is UTF-16; only UTF-8 is supported".
Definition start : M unit :=
  let! head := fill_buf in
  if starts_with head [255; 254]%Z || starts_with head [254; 255]%Z then here UTF16_REFUSED
  else
    (if starts_with head [239; 187; 191]%Z then consume 3 ;;; modify (fun s => set_place (js_line s) (js_offset s + 3) s) else ret tt) ;;;
    skip_ws ;;;
    let! next := peek in
    if bool_decide (next = Some 91%Z) then bump 91 ;;; modify (set_mode Array) else modify (set_mode Stream).

(** ** Elements *)

(** Where [read_object] is in an element, and what a byte of it ends. *)
Record Nesting := MkNesting { ne_depth : nat; ne_in_string : bool; ne_escaped : bool }.
Inductive Verdict := Going | TooDeep | Finished.
Definition is_opener (b : Z) : bool := (b =b 123) || (b =b 91).
Definition is_closer (b : Z) : bool := (b =b 125) || (b =b 93).
Definition nest (n : Nesting) (b : Z) : Nesting * Verdict :=
  if ne_in_string n then
    if ne_escaped n then (MkNesting (ne_depth n) true false, Going)
    else if b =b BACKSLASH then (MkNesting (ne_depth n) true true, Going)
    else if b =b DQUOTE then (MkNesting (ne_depth n) false false, Going)
    else (n, Going)
  else if b =b DQUOTE then (MkNesting (ne_depth n) true (ne_escaped n), Going)
  else if is_opener b then
    let depth := S (ne_depth n) in (MkNesting depth false (ne_escaped n), if MAX_DEPTH <? depth then TooDeep else Going)
  else if is_closer b then
    let depth := pred (ne_depth n) in (MkNesting depth false (ne_escaped n), if depth =? 0 then Finished else Going)
  else (n, Going).
Fixpoint nest_chunk (n : Nesting) (chunk : bytes) (used : nat) : Nesting * nat * Verdict :=
  match chunk with
  | [] => (n, used, Going)
  | b :: chunk => match nest n b with (n, Going) => nest_chunk n chunk (S used) | (n, v) => (n, S used, v) end
  end.
Definition newlines (s : bytes) : nat := length (List.filter (fun b => b =b LF) s).

Section Source.
(** [serde_json::from_slice] of an object and [from_str] of a string, or the message; [{:?}] of a byte as a character. *)
Variable from_slice : bytes -> bytes + Obj.
Variable from_str : bytes -> bytes + bytes.
Variable debug_char : Z -> bytes.
Variable limits : Limits.

(** A turn of the loop of [read_object], on a chunk that is not empty. *)
Definition object_turn (line offset : nat) (n : Nesting) (out : bytes) (chunk : bytes) (s : JsonSource)
  : ((ImportError + bytes) + (Nesting * bytes)) * JsonSource :=
  let '(n, used, v) := nest_chunk n chunk 0 in
  let part := take used chunk in
  let out := out ++ part in
  let s := set_reader (drop used chunk) (js_reads s) (set_place (js_line s + newlines part) (js_offset s + used) s) in
  match v with
  | TooDeep =>
      (inl (inl (IeJson line offset (B "element nesting is deeper than " ++ decimal (Z.of_nat MAX_DEPTH) ++ B " levels (line "
                                     ++ decimal (Z.of_nat line) ++ B ")"))), s)
  | _ =>
      if (max_element_bytes limits <? Z.of_nat (length out))%Z then
        (inl (inl (IeJson line offset (B "element at line " ++ decimal (Z.of_nat line) ++ B " is larger than "
                                       ++ decimal (max_element_bytes limits) ++ B " bytes"))), s)
      else match v with Finished => (inl (inr out), s) | _ => (inr (n, out), s) end
  end.
Definition cut_off (line offset : nat) : ImportError :=
  IeJson line offset (B "unexpected end of file inside the element that starts at line " ++ decimal (Z.of_nat line)).
Fixpoint object_reads (line offset : nat) (rs : list (bytes + bytes)) (n : Nesting) (out : bytes) (s : JsonSource) : (ImportError + bytes) * JsonSource :=
  match rs with
  | [] => (inl (cut_off line offset), s)
  | inl e :: rs => (inl (IeIo e), set_reader [] rs s)
  | inr [] :: rs => (inl (cut_off line offset), set_reader [] rs s)
  | inr chunk :: rs =>
      match object_turn line offset n out chunk (set_reader chunk rs s) with
      | (inl r, s) => (r, s)
      | (inr (n, out), s) => object_reads line offset rs n out s
      end
  end.
Definition read_object (line offset : nat) : M bytes := fun s =>
  let n := MkNesting 0 false false in
  match js_buf s with
  | [] => object_reads line offset (js_reads s) n [] s
  | chunk =>
      match object_turn line offset n [] chunk s with
      | (inl r, s) => (r, s)
      | (inr (n, out), s) => object_reads line offset (js_reads s) n out s
      end
  end.
Definition NOT_CLOSED : bytes := B "unexpected end of file: the array is not closed".
Definition TRAILING_COMMA : bytes := B "trailing comma before ']'".
(** The start of the next element of an array: [true] when the array has ended. *)
Definition next_in_array : M bool := reads (fun s =>
  let! next := peek in
  match next with
  | None => here NOT_CLOSED
  | Some b =>
      if b =b 93 then
        if (js_count s =? 0) || negb (js_expect_element s) then
          bump 93 ;;; skip_ws ;;;
          let! after := peek in
          if bool_decide (is_Some after) then here (B "unexpected data after the closing ']'") else modify set_done ;;; ret true
        else here TRAILING_COMMA
      else if negb (js_expect_element s) then
        if b =b 44 then
          bump 44 ;;; modify (set_expect true) ;;; skip_ws ;;;
          let! after := peek in
          if bool_decide (after = Some 93%Z) then here TRAILING_COMMA else ret false
        else here (B "expected ',' or ']' after element " ++ decimal (Z.of_nat (js_count s)) ++ B ", found " ++ debug_char b)
      else ret false
  end).
Definition next_in_stream : M bool :=
  let! next := peek in match next with None => modify set_done ;;; ret true | Some _ => ret false end.
(** The object that starts here. *)
Definition element_here : M (option Element) := reads (fun s =>
  let '(line, offset, index) := (js_line s, js_offset s, S (js_count s)) in
  let! next := peek in
  match next with
  | None => here NOT_CLOSED
  | Some b =>
      if b =b 123 then let! out := read_object line offset in modify count_element ;;; ret (Some (MkElement out line offset index))
      else raise (IeJson line offset (B "element " ++ decimal (Z.of_nat index) ++ B " (line " ++ decimal (Z.of_nat line) ++ B ") is not an object"))
  end).
Definition next_element : M (option Element) :=
  reads (fun s => if bool_decide (js_mode s = Unstarted) then start else ret tt) ;;;
  reads (fun s =>
    if js_done s then ret None
    else
      skip_ws ;;;
      let! ended := (if bool_decide (js_mode s = Array) then next_in_array else next_in_stream) in
      if ended then ret None else element_here).
Definition next_object : M (option (Element * Obj)) :=
  let! element := next_element in
  match element with
  | None => ret None
  | Some e =>
      match from_slice (el_bytes e) with
      | inr obj => ret (Some (e, obj))
      | inl m => raise (IeJson (el_line e) (el_offset e) (B "element " ++ decimal (Z.of_nat (el_index e)) ++ B " is not valid JSON: " ++ m))
      end
  end.

(** ** Rows *)

(** [sample]: [n] more elements at most. *)
Fixpoint sample (n : nat) (total : Z) : M unit :=
  match n with
  | O => ret tt
  | S n =>
      if (total <? sample_bytes limits)%Z then
        let! next := next_object in
        match next with
        | None => ret tt
        | Some (e, obj) =>
            modify (fun s => fold_left (fun s x => add_key x.1 s) obj s) ;;;
            modify (fun s => set_queue (js_queue s ++ [(e, obj)]) s) ;;;
            sample n (total + Z.of_nat (length (el_bytes e)))
        end
      else ret tt
  end.
Definition build (file : list (bytes + bytes)) : (ImportError + unit) * JsonSource := sample (sample_rows limits) 0 (source_new file).
Definition header (s : JsonSource) : option (list bytes) := match js_header s with [] => None | h => Some h end.
Definition unmapped_keys (s : JsonSource) : list bytes := js_unmapped s.
Definition bytes_read (s : JsonSource) : nat := js_offset s.
Definition cell (raw : bytes) : bytes + option bytes :=
  match raw with
  | b :: _ =>
      if b =b 110 then inr None
      else if b =b DQUOTE then match from_str raw with inr s => inr (Some s) | inl m => inl m end
      else inr (Some raw)
  | [] => inr (Some raw)
  end.
Fixpoint fill_cells (e : Element) (obj : Obj) (cells : list (option bytes)) : M (list (option bytes)) :=
  match obj with
  | [] => ret cells
  | (key, value) :: obj => reads (fun s =>
      match js_index s !! key with
      | Some column =>
          match cell value with
          | inr c => fill_cells e obj (<[column := c]> cells)
          | inl m => raise (IeJson (el_line e) (el_offset e)
                              (B "element " ++ decimal (Z.of_nat (el_index e)) ++ B ", key '" ++ key ++ B "': invalid string: " ++ m))
          end
      | None => modify (note_unmapped key) ;;; fill_cells e obj cells
      end)
  end.
Definition next_row : M (option SourceRow) := reads (fun s =>
  let! entry := (match js_queue s with
                 | entry :: q => modify (set_queue q) ;;; ret (Some entry)
                 | [] => next_object
                 end) in
  match entry with
  | None => ret None
  | Some (e, obj) =>
      let! cells := fill_cells e obj (replicate (length (js_header s)) None) in
      ret (Some (MkSourceRow (el_line e) cells))
  end).
End Source.
