(* ===== verification/JsonSourceSpec.v ===== *)
(** * JsonSourceSpec: every object of a JSON file is a row, whatever the reads, for [JsonSource]. *)
From stdpp Require Import gmap.
From S2P Require Import Prelude Bytes Text Scan JsonSource.
#[local] Open Scope nat_scope.
#[local] Set Warnings "-register-all".

(** ** What an element is *)

(** A text the framer ends at its last byte, from a place of its own. *)
Definition closes (n : Nesting) (e : bytes) : Prop := exists n', nest_chunk n e 0 = (n', length e, Finished).
Definition goes (n : Nesting) (x : bytes) (n' : Nesting) : Prop := nest_chunk n x 0 = (n', length x, Going).
Lemma nest_chunk_used n x u : nest_chunk n x u = let '(n', k, v) := nest_chunk n x 0 in (n', u + k, v).
Proof.
  revert n u. induction x as [|b x IH]; intros n u; cbn; [by rewrite Nat.add_0_r|]. destruct (nest n b) as [n1 []].
  - rewrite (IH n1 (S u)), (IH n1 1). destruct (nest_chunk n1 x 0) as [[n2 k] v]. f_equal. f_equal. lia.
  - f_equal. f_equal. lia.
  - f_equal. f_equal. lia.
Qed.
Lemma goes_nil n : goes n [] n.
Proof. done. Qed.
Lemma goes_app n a n1 b n2 : goes n a n1 -> goes n1 b n2 -> goes n (a ++ b) n2.
Proof.
  revert n. unfold goes. induction a as [|x a IH]; intros n Ha Hb; cbn in *; [by injection Ha as <-|].
  destruct (nest n x) as [n3 []]; [|done|done]. rewrite nest_chunk_used in Ha |- *. destruct (nest_chunk n3 a 0) as [[n4 k] v] eqn:E. injection Ha as -> Hk ->.
  rewrite (IH n3); [by cbn; rewrite length_app| |done]. rewrite E. f_equal. f_equal. lia.
Qed.
Lemma goes_one n b n' : nest n b = (n', Going) -> goes n [b] n'.
Proof. unfold goes. cbn. by intros ->. Qed.
Lemma goes_closes n a n1 e : goes n a n1 -> closes n1 e -> closes n (a ++ e).
Proof.
  revert n. unfold goes, closes. induction a as [|x a IH]; intros n Ha He; cbn in *; [by injection Ha as <-|].
  destruct (nest n x) as [n3 []]; [|done|done]. rewrite nest_chunk_used in Ha |- *. destruct (nest_chunk n3 a 0) as [[n4 k] v] eqn:E. injection Ha as -> Hk ->.
  destruct (IH n3) as (n' & Hn); [rewrite E; f_equal; f_equal; lia|done|]. rewrite Hn. exists n'. f_equal.
Qed.
(** Cut anywhere, the beginning goes on and the rest closes; what follows does not matter. *)
Lemma closes_cut a b n : b <> [] -> closes n (a ++ b) -> exists n1, goes n a n1 /\ closes n1 b.
Proof.
  intros Hb. revert n. unfold goes, closes. induction a as [|x a IH]; intros n (n' & Hn); cbn in *; [exists n; split; [done|by exists n']|].
  destruct (nest n x) as [n3 []] eqn:Ex.
  - rewrite nest_chunk_used in Hn. destruct (nest_chunk n3 (a ++ b) 0) as [[n4 k] v] eqn:E. injection Hn as -> Hk ->.
    destruct (IH n3) as (n1 & Ha & Hc); [exists n'; rewrite E; f_equal; f_equal; lia|]. exists n1. split; [|done]. rewrite nest_chunk_used, Ha. done.
  - injection Hn as _ Hl. destruct a, b; done.
  - injection Hn as _ Hl. rewrite length_app in Hl. destruct a, b; cbn in Hl; try lia; done.
Qed.
Lemma closes_then n e t : closes n e -> exists n', nest_chunk n (e ++ t) 0 = (n', length e, Finished).
Proof.
  revert n. unfold closes. induction e as [|x e IH]; intros n (n' & Hn); cbn in *; [done|]. destruct (nest n x) as [n3 []] eqn:Ex.
  - rewrite nest_chunk_used in Hn |- *. destruct (nest_chunk n3 e 0) as [[n4 k] v] eqn:E. injection Hn as -> Hk ->.
    destruct (IH n3) as (n2 & H2); [exists n'; rewrite E; f_equal; f_equal; lia|]. rewrite H2. by exists n2.
  - by exists n3.
  - injection Hn as _ Hl. exists n3. f_equal. f_equal. lia.
Qed.

(** ** The reader *)

Definition core (s : JsonSource) : JsonSource := set_reader [] [] (set_place 0 0 s).
(** [pre] was read, [text] is to come, in reads that each hold something. *)
Record At (c : JsonSource) (pre text : bytes) (s : JsonSource) : Prop := {
  at_core : core s = c;
  at_text : exists chunks, js_reads s = inr <$> chunks /\ Forall (fun x => x <> []) chunks /\ js_buf s ++ concat chunks = text;
  at_line : js_line s = S (newlines pre); at_offset : js_offset s = length pre }.
Lemma line_feeds_app a b : newlines (a ++ b) = newlines a + newlines b.
Proof. unfold newlines. by rewrite List.filter_app, length_app. Qed.
Lemma line_after_newlines b pre : line_after b (S (newlines pre)) = S (newlines (pre ++ [b])).
Proof. unfold line_after. rewrite line_feeds_app. assert (newlines [b] = if b =b LF then 1 else 0) as -> by (unfold newlines; cbn; by destruct (b =b LF)). destruct (b =b LF); lia. Qed.
Lemma fill_ok c pre text s : At c pre text s -> exists s', fill_buf s = (inr (js_buf s'), s') /\ At c pre text s' /\ (text <> [] -> js_buf s' <> [])
  /\ exists rest, text = js_buf s' ++ rest.
Proof.
  intros [Hc (chunks & Hr & Hn & Ht) Hl Ho]. unfold fill_buf. destruct (js_buf s) as [|b buf] eqn:Eb.
  - rewrite Hr. destruct Hn as [|chunk chunks Hchunk Hn]; cbn in *.
    + exists s. rewrite Eb. split; [done|]. subst text. split; [|split; [done|by exists []]]. split; [done| |done|done]. exists []. by rewrite Eb.
    + exists (set_reader chunk (inr <$> chunks) s). split; [reflexivity|]. split; [|split; [done|by eexists]]. split; [done| |done|done]. by exists chunks.
  - exists s. rewrite Eb. split; [done|]. split; [split; [done| |done|done]; exists chunks; by rewrite Eb|]. split; [done|]. by eexists.
Qed.
Definition filled (text : bytes) (s : JsonSource) : Prop := text <> [] -> js_buf s <> [].
Lemma peek_ok c pre text s : At c pre text s -> exists s', peek s = (inr (head text), s') /\ At c pre text s' /\ filled text s'.
Proof.
  intros Hat. destruct (fill_ok c pre text s Hat) as (s' & Hf & Ha & Hb & rest & Hrest). exists s'. unfold peek, bind, ret. rewrite Hf. split; [|done].
  do 2 f_equal. rewrite Hrest. destruct (js_buf s') as [|b buf] eqn:E; [|done]. destruct text as [|x t]; [|by destruct (Hb ltac:(done))]. by rewrite <- Hrest.
Qed.
Lemma bump_ok c pre b text s : At c pre (b :: text) s -> filled (b :: text) s -> exists s', bump b s = (inr tt, s') /\ At c (pre ++ [b]) text s'.
Proof.
  intros [Hc (chunks & Hr & Hn & Ht) Hl Ho] Hf. specialize (Hf ltac:(done)). eexists. split; [reflexivity|]. destruct (js_buf s) as [|x buf] eqn:Eb; [done|].
  injection Ht as -> Ht. split; cbn; [done| |by rewrite Hl, line_after_newlines|rewrite Ho, length_app; cbn; lia]. exists chunks. rewrite Eb. done.
Qed.
(** White space before a byte that is not. *)
Definition blank (w : bytes) : Prop := Forall (fun b => is_json_ws b = true) w.
Definition dense (text : bytes) : Prop := match text with b :: _ => is_json_ws b = false | [] => True end.
Lemma skip_buf_dense buf : forall line offset, dense buf -> skip_buf buf line offset = (buf, line, offset).
Proof. destruct buf as [|b buf]; intros line offset Hd; [done|]. cbn in *. by rewrite Hd. Qed.
Lemma skip_buf_blank w : forall buf pre, blank w -> skip_buf (w ++ buf) (S (newlines pre)) (length pre) = skip_buf buf (S (newlines (pre ++ w))) (length (pre ++ w)).
Proof.
  induction w as [|b w IH]; intros buf pre Hw; [by rewrite app_nil_r|]. inversion Hw as [|? ? Hb Hw']; subst. cbn [skip_buf app]. rewrite Hb, line_after_newlines.
  replace (S (length pre)) with (length (pre ++ [b])) by (rewrite length_app; cbn; lia). rewrite IH by done. by rewrite <- app_assoc.
Qed.
Lemma app_cut (a b x y : bytes) : a ++ b = x ++ y -> (exists m, x = a ++ m /\ b = m ++ y) \/ (exists m, m <> [] /\ a = x ++ m /\ y = m ++ b).
Proof.
  intros E. apply app_eq_inv in E as [(m & -> & ->)|(m & -> & ->)]; [|left; by exists m]. destruct m as [|z m]; [left; exists []; by rewrite !app_nil_r|right; by exists (z :: m)].
Qed.
Lemma skip_ok rs : forall c pre w text s, js_reads s = rs -> At c pre (w ++ text) s -> blank w -> dense text ->
  exists s', skip_reads rs s = (inr tt, s') /\ At c (pre ++ w) text s'.
Proof.
  induction rs as [|r rs IH]; intros c pre w text s Hrs [Hc (chunks & Hr & Hn & Ht) Hl Ho] Hw Hd.
  all: assert (skip_here s = let '(buf, line, offset) := skip_buf (js_buf s) (S (newlines pre)) (length pre) in set_place line offset (set_reader buf (js_reads s) s)) as Esk
    by (unfold skip_here; by rewrite Hl, Ho).
  - rewrite Hrs in Hr. destruct chunks; [|done]. cbn in Ht. rewrite app_nil_r in Ht. cbn [skip_reads]. rewrite Esk, Ht, skip_buf_blank, skip_buf_dense by done.
    eexists. split; [cbn; by destruct text|]. split; [done| |done|done]. exists []. cbn. by rewrite Hrs, app_nil_r.
  - rewrite Hrs in Hr. destruct chunks as [|chunk chunks]; [done|]. injection Hr as -> ->. apply Forall_cons in Hn as [Hchunk Hn]. cbn [concat] in Ht.
    apply app_cut in Ht as [(m & -> & Ht)|(m & Hm & Eb & Ht)].
    + apply Forall_app in Hw as [Hw1 Hw2]. cbn [skip_reads]. rewrite Esk. rewrite <- (app_nil_r (js_buf s)), skip_buf_blank, app_nil_r by done. cbn [skip_buf js_buf set_place set_reader].
      destruct chunk as [|x chunk]; [done|]. destruct (IH c (pre ++ js_buf s) m text (set_reader (x :: chunk) (inr <$> chunks)
          (set_place (S (newlines (pre ++ js_buf s))) (length (pre ++ js_buf s)) (set_reader [] (js_reads s) s)))) as (s' & Hs & Ha); [done| |done|done|].
      { split; [done| |done|done]. exists chunks. split; [done|]. split; [done|]. cbn. exact Ht. }
      exists s'. split; [exact Hs|]. by rewrite app_assoc.
    + assert (dense m) as Hdm by (destruct m; [done|]; rewrite Ht in Hd; done).
      cbn [skip_reads]. rewrite Esk, Eb, skip_buf_blank, skip_buf_dense by done. eexists. split; [cbn; by destruct m|].
      split; [done| |done|done]. exists (chunk :: chunks). cbn. rewrite Hrs. split; [done|]. split; [by constructor|]. by rewrite Ht.
Qed.
Lemma skip_ws_ok c pre w text s : At c pre (w ++ text) s -> blank w -> dense text -> exists s', skip_ws s = (inr tt, s') /\ At c (pre ++ w) text s'.
Proof. by apply skip_ok. Qed.

(** ** The framer *)

(** The inside of a string: a quote or a backslash only after a backslash. *)
Inductive Quoted : bytes -> Prop :=
| quoted_end : Quoted []
| quoted_byte b t : b <> DQUOTE -> b <> BACKSLASH -> Quoted t -> Quoted (b :: t)
| quoted_escape b t : Quoted t -> Quoted (BACKSLASH :: b :: t).
(** Text between brackets: strings, groups in brackets [k] deep at most, and anything else. *)
Inductive Inside : nat -> bytes -> Prop :=
| inside_end k : Inside k []
| inside_byte k b t : b <> DQUOTE -> is_opener b = false -> is_closer b = false -> Inside k t -> Inside k (b :: t)
| inside_string k s t : Quoted s -> Inside k t -> Inside k (DQUOTE :: s ++ DQUOTE :: t)
| inside_group k o c x t : is_opener o = true -> is_closer c = true -> Inside k x -> Inside (S k) t -> Inside (S k) (o :: x ++ c :: t).
Lemma quoted_goes d s : Quoted s -> goes (MkNesting d true false) (s ++ [DQUOTE]) (MkNesting d false false).
Proof.
  induction 1 as [|b t Hq Hb _ IH|b t _ IH]; [done| |].
  - change (b :: t) with ([b] ++ t). rewrite <- app_assoc. eapply goes_app; [|exact IH]. apply goes_one. unfold nest. cbn.
    by rewrite (proj2 (Z.eqb_neq _ _) Hq), (proj2 (Z.eqb_neq _ _) Hb).
  - change (BACKSLASH :: b :: t) with ([BACKSLASH] ++ [b] ++ t). rewrite <- !app_assoc. eapply goes_app; [by apply goes_one|]. eapply goes_app; [by apply goes_one|exact IH].
Qed.
Lemma opener_facts o : is_opener o = true -> (o =b DQUOTE) = false /\ is_closer o = false.
Proof. unfold is_opener, is_closer. rewrite orb_true_iff, !Z.eqb_eq. by intros [-> | ->]. Qed.
Lemma closer_facts c : is_closer c = true -> (c =b DQUOTE) = false /\ is_opener c = false.
Proof. unfold is_opener, is_closer. rewrite orb_true_iff, !Z.eqb_eq. by intros [-> | ->]. Qed.
Lemma inside_goes k x : Inside k x -> forall d, S d + k <= MAX_DEPTH -> goes (MkNesting (S d) false false) x (MkNesting (S d) false false).
Proof.
  induction 1 as [|k b t Hq Ho Hc _ IH|k s t Hs _ IH|k o c x t Ho Hc _ IHx _ IHt]; intros d Hd; [done| | |].
  - change (b :: t) with ([b] ++ t). eapply goes_app; [|by apply IH]. apply goes_one. unfold nest. cbn [ne_in_string]. by rewrite (proj2 (Z.eqb_neq _ _) Hq), Ho, Hc.
  - change (DQUOTE :: s ++ DQUOTE :: t) with ([DQUOTE] ++ s ++ [DQUOTE] ++ t). rewrite (app_assoc s). eapply goes_app; [by apply goes_one|]. eapply goes_app; [by apply quoted_goes|by apply IH].
  - destruct (opener_facts o Ho) as [Ho1 Ho2], (closer_facts c Hc) as [Hc1 Hc2]. change (o :: x ++ c :: t) with ([o] ++ x ++ [c] ++ t).
    apply goes_app with (MkNesting (S (S d)) false false).
    { apply goes_one. unfold nest. cbn [ne_in_string ne_depth ne_escaped]. rewrite Ho1, Ho. by rewrite (proj2 (Nat.ltb_ge _ _)) by lia. }
    eapply goes_app; [apply IHx; lia|]. eapply goes_app; [|apply IHt; lia]. apply goes_one. unfold nest. cbn [ne_in_string ne_depth ne_escaped]. by rewrite Hc1, Hc2, Hc.
Qed.
(** An element: an object by its braces, within the nesting and the size allowed. *)
Record Framable (limits : Limits) (e : bytes) : Prop := {
  fr_object : exists x, e = 123%Z :: x ++ [125%Z] /\ Inside (pred MAX_DEPTH) x; fr_size : (Z.of_nat (length e) <= max_element_bytes limits)%Z }.
Lemma fr_closes limits e : Framable limits e -> closes (MkNesting 0 false false) e.
Proof.
  intros [(x & -> & Hx) _]. change (123%Z :: x ++ [125%Z]) with ([123%Z] ++ x ++ [125%Z]). apply goes_closes with (MkNesting 1 false false); [by apply goes_one|].
  eapply goes_closes; [apply inside_goes with (k := pred MAX_DEPTH); [done|unfold MAX_DEPTH; lia]|]. by eexists.
Qed.
Section Framer.
Variable from_slice : bytes -> bytes + Obj.
Variable debug_char : Z -> bytes.
Variable limits : Limits.
Abbreviation next_element := (next_element debug_char limits).

Lemma object_turn_ends line offset n out chunk rest c pre s : At c pre (chunk ++ rest) s -> js_buf s = chunk ->
  forall e x, chunk = e ++ x -> closes n e -> (Z.of_nat (length (out ++ e)) <= max_element_bytes limits)%Z ->
  exists s', object_turn limits line offset n out chunk s = (inl (inr (out ++ e)), s') /\ At c (pre ++ e) (x ++ rest) s'.
Proof.
  intros [Hc (chunks & Hr & Hn & Ht) Hl Ho] Hb e x Ex He Hsize. subst chunk. destruct (closes_then n e x He) as (n' & Hnest). rewrite <- Ex in Hnest.
  unfold object_turn. rewrite Hnest, Ex, take_app_length, drop_app_length, (proj2 (Z.ltb_ge _ _)) by done. eexists. split; [reflexivity|].
  split; cbn; [done| |by rewrite Hl, line_feeds_app|by rewrite Ho, length_app]. exists chunks. split; [done|]. split; [done|]. by apply app_inv_head in Ht as ->.
Qed.
Lemma object_turn_goes line offset n n' out chunk rest c pre s : At c pre (chunk ++ rest) s -> js_buf s = chunk -> goes n chunk n' ->
  (Z.of_nat (length (out ++ chunk)) <= max_element_bytes limits)%Z ->
  exists s', object_turn limits line offset n out chunk s = (inr (n', out ++ chunk), s') /\ At c (pre ++ chunk) rest s' /\ js_buf s' = [] /\ js_reads s' = js_reads s.
Proof.
  intros [Hc (chunks & Hr & Hn & Ht) Hl Ho] Hb Hg Hsize. subst chunk. unfold object_turn. rewrite Hg, take_ge, drop_ge, (proj2 (Z.ltb_ge _ _)) by done.
  eexists. split; [reflexivity|]. split; [|done]. split; cbn; [done| |by rewrite Hl, line_feeds_app|by rewrite Ho, length_app].
  exists chunks. split; [done|]. split; [done|]. by apply app_inv_head in Ht as ->.
Qed.
Lemma object_reads_ok line offset rs : forall n out e rest c pre s, js_reads s = rs -> js_buf s = [] -> At c pre (e ++ rest) s -> e <> [] -> closes n e ->
  (Z.of_nat (length (out ++ e)) <= max_element_bytes limits)%Z ->
  exists s', object_reads limits line offset rs n out s = (inr (out ++ e), s') /\ At c (pre ++ e) rest s'.
Proof.
  induction rs as [|r rs IH]; intros n out e rest c pre s Hrs Hb [Hc (chunks & Hr & Hn & Ht) Hl Ho] He Hcl Hsize; rewrite Hrs in Hr; rewrite Hb in Ht.
  { destruct chunks; [|done]. by destruct e. }
  destruct chunks as [|chunk chunks]; [done|]. injection Hr as -> Hr. apply Forall_cons in Hn as [Hchunk Hn]. cbn [app concat] in Ht. cbn [object_reads].
  set (s1 := set_reader chunk rs s). assert (At c pre (e ++ rest) s1) as Hat by (split; [done| |done|done]; by exists chunks).
  destruct (app_cut e rest chunk (concat chunks) (eq_sym Ht)) as [(m & Em & Er)|(m & Hm & Em & Er)].
  - destruct (object_turn_ends line offset n out chunk (concat chunks) c pre s1) with (e := e) (x := m) as (s' & Hs & Ha); [by rewrite Ht|done|done|done|done|].
    exists s'. destruct chunk as [|y chunk]; [done|]. rewrite Hs, Er. by split.
  - subst e. destruct (closes_cut chunk m n Hm Hcl) as (n1 & Hg & Hcl1).
    destruct (object_turn_goes line offset n n1 out chunk (concat chunks) c pre s1) as (s2 & Hs & Ha & Hb2 & Hr2); [by rewrite Ht|done|done| |].
    { rewrite app_assoc, length_app in Hsize. lia. }
    rewrite Er in Ha. destruct (IH n1 (out ++ chunk) m rest c (pre ++ chunk) s2) as (s' & Hs' & Ha'); [done|done|done|done|done|by rewrite <- app_assoc|].
    exists s'. destruct chunk as [|y chunk]; [done|]. rewrite Hs, Hs', <- !app_assoc in *. by split.
Qed.
Lemma read_object_ok line offset e rest c pre s : At c pre (e ++ rest) s -> e <> [] -> closes (MkNesting 0 false false) e ->
  (Z.of_nat (length e) <= max_element_bytes limits)%Z -> exists s', read_object limits line offset s = (inr e, s') /\ At c (pre ++ e) rest s'.
Proof.
  intros Hat He Hcl Hsize. unfold read_object. destruct (js_buf s) as [|b buf] eqn:Eb; [by apply (object_reads_ok line offset (js_reads s) _ [])|]. rewrite <- Eb.
  pose proof Hat as [Hc (chunks & Hr & Hn & Ht) Hl Ho].
  destruct (app_cut e rest (js_buf s) (concat chunks) (eq_sym Ht)) as [(m & Em & Er)|(m & Hm & Em & Er)].
  - destruct (object_turn_ends line offset (MkNesting 0 false false) [] (js_buf s) (concat chunks) c pre s) with (e := e) (x := m) as (s' & Hs & Ha); [by rewrite Ht|done..|].
    exists s'. rewrite Hs, Er. by split.
  - destruct (closes_cut (js_buf s) m (MkNesting 0 false false) Hm) as (n1 & Hg & Hcl1); [by rewrite <- Em|].
    destruct (object_turn_goes line offset (MkNesting 0 false false) n1 [] (js_buf s) (concat chunks) c pre s) as (s2 & Hs & Ha & Hb2 & Hr2); [by rewrite Ht|done|done| |].
    { rewrite Em, length_app in Hsize. cbn [app]. lia. }
    rewrite Er in Ha. destruct (object_reads_ok line offset (js_reads s) n1 (js_buf s) m rest c (pre ++ js_buf s) s2) as (s' & Hs' & Ha'); [done|done|done|done|done|by rewrite <- Em|].
    exists s'. rewrite Hs. cbn [app]. rewrite Hr2, Hs', <- Em. rewrite <- app_assoc, <- Em in Ha'. by split.
Qed.

(** ** Files of objects *)

(** After an element of an array, and after the bracket that opens one. *)
Inductive More : list bytes -> bytes -> Prop :=
| more_end w w' : blank w -> blank w' -> More [] (w ++ 93%Z :: w')
| more_next w w' e es t : blank w -> blank w' -> Framable limits e -> More es t -> More (e :: es) (w ++ 44%Z :: w' ++ e ++ t).
Inductive Body : list bytes -> bytes -> Prop :=
| body_empty w w' : blank w -> blank w' -> Body [] (w ++ 93%Z :: w')
| body_first w e es t : blank w -> Framable limits e -> More es t -> Body (e :: es) (w ++ e ++ t).
(** Objects one after another. *)
Inductive Lines : list bytes -> bytes -> Prop :=
| lines_end w : blank w -> Lines [] w
| lines_next w e es t : blank w -> Framable limits e -> Lines es t -> Lines (e :: es) (w ++ e ++ t).
Inductive Objects : list bytes -> bytes -> Prop :=
| objects_array w es t : blank w -> Body es t -> Objects es (w ++ 91%Z :: t)
| objects_lines es t : Lines es t -> Objects es t.

(** A source that has yet to give [es], after [n] elements. *)
Inductive Phase (n : nat) (es : list bytes) (text : bytes) : JsonSource -> Prop :=
| ph_array c : js_mode c = Array -> js_done c = false -> js_count c = n -> n = 0 -> js_expect_element c = true -> Body es text -> Phase n es text c
| ph_more c : js_mode c = Array -> js_done c = false -> js_count c = n -> js_expect_element c = false -> More es text -> Phase n es text c
| ph_lines c : js_mode c = Stream -> js_done c = false -> js_count c = n -> Lines es text -> Phase n es text c
| ph_done c : js_mode c <> Unstarted -> js_done c = true -> js_count c = n -> es = [] -> Phase n es text c.
Lemma dense_cons b t : is_json_ws b = false -> dense (b :: t).
Proof. done. Qed.
Lemma framable_dense e t : Framable limits e -> exists e', e = 123%Z :: e' /\ dense (e ++ t).
Proof. intros [(x & -> & _) _]. by eexists. Qed.
(** The core of a source is changed by what is changed of the source. *)
Lemma at_modify f c pre text s : (forall s, core (f s) = f (core s)) -> (forall s, js_buf (f s) = js_buf s /\ js_reads (f s) = js_reads s
  /\ js_line (f s) = js_line s /\ js_offset (f s) = js_offset s) -> At c pre text s -> At (f c) pre text (f s).
Proof.
  intros Hf Hs [Hc Ht Hl Ho]. destruct (Hs s) as (E1 & E2 & E3 & E4). split; [by rewrite Hf, Hc|by rewrite E1, E2|by rewrite E3|by rewrite E4].
Qed.
Lemma core_of {A} (p : JsonSource -> A) c pre text s : (forall s, p (core s) = p s) -> At c pre text s -> p s = p c.
Proof. intros Hp Hat. rewrite <- (at_core _ _ _ _ Hat). by rewrite Hp. Qed.

Lemma bind_done {A B} (m : M A) (f : A -> M B) s a s' : m s = (inr a, s') -> bind m f s = f a s'.
Proof. unfold bind. by intros ->. Qed.
Lemma element_here_ok c pre e t s : At c pre (e ++ t) s -> Framable limits e ->
  exists s', element_here limits s = (inr (Some (MkElement e (S (newlines pre)) (length pre) (S (js_count c)))), s') /\ At (count_element c) (pre ++ e) t s'.
Proof.
  intros Hat Hf. unfold element_here, reads. rewrite (at_line _ _ _ _ Hat), (at_offset _ _ _ _ Hat), (core_of js_count c _ _ _ ltac:(done) Hat).
  destruct (peek_ok _ _ _ _ Hat) as (s1 & Hp & Ha & _). rewrite (bind_done _ _ _ _ _ Hp). destruct (framable_dense e t Hf) as (e' & He & _). assert (head (e ++ t) = Some 123%Z) as -> by (by rewrite He). cbv iota beta.
  destruct (read_object_ok (S (newlines pre)) (length pre) e t c pre s1 Ha) as (s2 & Hr & Ha2); [by rewrite He|by eapply fr_closes|apply Hf|].
  change (123 =b 123) with true. cbv iota. rewrite (bind_done _ _ _ _ _ Hr). eexists. split; [reflexivity|]. by apply at_modify.
Qed.
Lemma peek_not (b x : Z) : b <> x -> (b =b x) = false.
Proof. apply Z.eqb_neq. Qed.
(** After [skip_ws], at the end of an array, at its comma, or at its first object. *)
Lemma array_end_ok c pre w text s : At c pre (93%Z :: w) s -> blank w -> (js_count c = 0 \/ js_expect_element c = false) -> text = [] ->
  exists s', next_in_array debug_char s = (inr true, s') /\ At (set_done c) (pre ++ 93%Z :: w) text s'.
Proof.
  intros Hat Hw Hc ->. unfold next_in_array, reads. destruct (peek_ok _ _ _ _ Hat) as (s1 & Hp & Ha & Hf). rewrite (bind_done _ _ _ _ _ Hp). cbn [head].
  change (93 =b 93) with true. cbv iota. rewrite (core_of js_count c _ _ _ ltac:(done) Hat), (core_of js_expect_element c _ _ _ ltac:(done) Hat).
  assert ((js_count c =? 0) || negb (js_expect_element c) = true) as -> by (destruct Hc as [-> | ->]; [done|by rewrite orb_true_r]).
  destruct (bump_ok _ _ _ _ _ Ha Hf) as (s2 & Hb & Ha2). rewrite (bind_done _ _ _ _ _ Hb).
  rewrite <- (app_nil_r w) in Ha2. destruct (skip_ws_ok _ _ _ _ _ Ha2 Hw I) as (s3 & Hs & Ha3). rewrite (bind_done _ _ _ _ _ Hs).
  destruct (peek_ok _ _ _ _ Ha3) as (s4 & Hp4 & Ha4 & _). rewrite (bind_done _ _ _ _ _ Hp4). cbn [head]. rewrite bool_decide_eq_false_2 by (by intros []).
  eexists. split; [reflexivity|]. rewrite <- app_assoc in Ha4. by apply at_modify.
Qed.
Lemma array_comma_ok c pre w e t s : At c pre (44%Z :: w ++ e ++ t) s -> blank w -> Framable limits e -> js_expect_element c = false ->
  exists s', next_in_array debug_char s = (inr false, s') /\ At (set_expect true c) (pre ++ 44%Z :: w) (e ++ t) s'.
Proof.
  intros Hat Hw Hfr Hc. destruct (framable_dense e t Hfr) as (e' & He & Hd). unfold next_in_array, reads. destruct (peek_ok _ _ _ _ Hat) as (s1 & Hp & Ha & Hf).
  rewrite (bind_done _ _ _ _ _ Hp). cbn [head]. change (44 =b 93) with false. change (44 =b 44) with true. cbv iota. rewrite (core_of js_expect_element c _ _ _ ltac:(done) Hat), Hc. cbn [negb].
  destruct (bump_ok _ _ _ _ _ Ha Hf) as (s2 & Hb & Ha2). rewrite (bind_done _ _ _ _ _ Hb).
  assert (At (set_expect true c) (pre ++ [44%Z]) (w ++ e ++ t) (set_expect true s2)) as Ha2' by (by apply at_modify). rewrite (bind_done _ _ s2 tt (set_expect true s2) eq_refl).
  destruct (skip_ws_ok _ _ _ _ _ Ha2' Hw Hd) as (s3 & Hs & Ha3). rewrite (bind_done _ _ _ _ _ Hs).
  destruct (peek_ok _ _ _ _ Ha3) as (s4 & Hp4 & Ha4 & _). rewrite (bind_done _ _ _ _ _ Hp4). assert (head (e ++ t) = Some 123%Z) as -> by (by rewrite He). cbv iota beta. rewrite bool_decide_eq_false_2 by done.
  eexists. split; [reflexivity|]. by rewrite <- app_assoc in Ha4.
Qed.
Lemma array_first_ok c pre e t s : At c pre (e ++ t) s -> Framable limits e -> js_expect_element c = true ->
  exists s', next_in_array debug_char s = (inr false, s') /\ At c pre (e ++ t) s'.
Proof.
  intros Hat Hfr Hc. destruct (framable_dense e t Hfr) as (e' & He & Hd). unfold next_in_array, reads. destruct (peek_ok _ _ _ _ Hat) as (s1 & Hp & Ha & Hf).
  rewrite (bind_done _ _ _ _ _ Hp). assert (head (e ++ t) = Some 123%Z) as -> by (by rewrite He). cbv iota beta. change (123 =b 93) with false. cbv iota. rewrite (core_of js_expect_element c _ _ _ ltac:(done) Hat), Hc. cbn [negb]. by eexists.
Qed.
Lemma stream_ok c pre text s : At c pre text s ->
  exists s', next_in_stream s = (inr (match text with [] => true | _ => false end), s') /\ At (match text with [] => set_done c | _ => c end) pre text s'.
Proof.
  intros Hat. destruct (peek_ok _ _ _ _ Hat) as (s1 & Hp & Ha & _). unfold next_in_stream. rewrite (bind_done _ _ _ _ _ Hp).
  destruct text; cbn [head]; eexists; (split; [reflexivity|]); [by apply at_modify|done].
Qed.
(** What the framer leaves alone. *)
Definition side (s : JsonSource) : list bytes * gmap bytes nat * list (Element * Obj) * list bytes := (js_header s, js_index s, js_queue s, js_unmapped s).
(** The source has yet to give [es] of the file [whole], after [n] elements. *)
Inductive Rest (n : nat) (es : list bytes) (whole : bytes) (sd : list bytes * gmap bytes nat * list (Element * Obj) * list bytes) (s : JsonSource) : Prop :=
| rest_at c pre text : whole = pre ++ text -> At c pre text s -> Phase n es text c -> side c = sd -> Rest n es whole sd s.
(** An element is where it says it is. *)
Definition placed (whole e : bytes) (el : Element) : Prop :=
  el_bytes el = e /\ take (length e) (drop (el_offset el) whole) = e /\ el_line el = S (newlines (take (el_offset el) whole)).
Lemma placed_here pre e t i : placed (pre ++ e ++ t) e (MkElement e (S (newlines pre)) (length pre) i).
Proof. unfold placed. cbn. by rewrite drop_app_length, !take_app_length. Qed.
Lemma element_rest n e es whole sd c pre t s : At c pre (e ++ t) s -> whole = pre ++ e ++ t -> Framable limits e -> js_count c = n ->
  Phase (S n) es t (count_element c) -> side c = sd ->
  exists s' el, element_here limits s = (inr (Some el), s') /\ placed whole e el /\ el_index el = S n /\ Rest (S n) es whole sd s'.
Proof.
  intros Hat -> Hfr Hn Hph Hsd. destruct (element_here_ok c pre e t s Hat Hfr) as (s' & Hs & Ha). do 2 eexists. split; [exact Hs|]. split; [apply placed_here|].
  rewrite Hn. split; [done|]. apply rest_at with (count_element c) (pre ++ e) t; [by rewrite <- app_assoc|done..].
Qed.
(** What [next_element] does once the file has been started. *)
Lemma started_ok n es whole sd s : Rest n es whole sd s ->
  match es with
  | [] => exists s', next_element s = (inr None, s') /\ Rest n [] whole sd s'
  | e :: es => exists s' el, next_element s = (inr (Some el), s') /\ placed whole e el /\ el_index el = S n /\ Rest (S n) es whole sd s'
  end.
Proof.
  intros [c pre text Hw Hat Hph Hsd]. unfold JsonSource.next_element. rewrite (bind_done _ _ s tt s).
  2:{ unfold reads. rewrite bool_decide_eq_false_2; [done|]. rewrite (core_of js_mode c _ _ _ ltac:(done) Hat). destruct Hph; congruence. }
  unfold reads. rewrite (core_of js_done c _ _ _ ltac:(done) Hat), (core_of js_mode c _ _ _ ltac:(done) Hat).
  destruct Hph as [c Hm Hd Hc Hn He Hb|c Hm Hd Hc He Hb|c Hm Hd Hc Hb|c Hm Hd Hc ->]; rewrite Hd.
  - rewrite bool_decide_eq_true_2 by done. destruct Hb as [w w' Hw1 Hw2|w e es t Hw1 Hfr Hmore].
    + destruct (skip_ws_ok _ _ _ _ _ Hat Hw1 eq_refl) as (s1 & Hs & Ha). rewrite (bind_done _ _ _ _ _ Hs).
      destruct (array_end_ok c _ w' [] s1 Ha Hw2) as (s2 & Hs2 & Ha2); [by left; rewrite Hc|done|]. rewrite (bind_done _ _ _ _ _ Hs2).
      exists s2. split; [done|]. econstructor; [|exact Ha2|apply ph_done; cbn; congruence|done]. by rewrite app_nil_r, <- app_assoc.
    + destruct (framable_dense e t Hfr) as (e' & Ee & Hde). destruct (skip_ws_ok _ _ _ _ _ Hat Hw1 Hde) as (s1 & Hs & Ha). rewrite (bind_done _ _ _ _ _ Hs).
      destruct (array_first_ok c _ e t s1 Ha Hfr He) as (s2 & Hs2 & Ha2). rewrite (bind_done _ _ _ _ _ Hs2).
      eapply element_rest; [exact Ha2|by rewrite <- app_assoc|done|done| |done]. apply ph_more; cbn; try done; congruence.
  - rewrite bool_decide_eq_true_2 by done. destruct Hb as [w w' Hw1 Hw2|w w' e es t Hw1 Hw2 Hfr Hmore].
    + destruct (skip_ws_ok _ _ _ _ _ Hat Hw1 eq_refl) as (s1 & Hs & Ha). rewrite (bind_done _ _ _ _ _ Hs).
      destruct (array_end_ok c _ w' [] s1 Ha Hw2) as (s2 & Hs2 & Ha2); [by right|done|]. rewrite (bind_done _ _ _ _ _ Hs2).
      exists s2. split; [done|]. econstructor; [|exact Ha2|apply ph_done; cbn; congruence|done]. by rewrite app_nil_r, <- app_assoc.
    + destruct (skip_ws_ok _ _ _ _ _ Hat Hw1 eq_refl) as (s1 & Hs & Ha). rewrite (bind_done _ _ _ _ _ Hs).
      destruct (array_comma_ok c _ w' e t s1 Ha Hw2 Hfr He) as (s2 & Hs2 & Ha2). rewrite (bind_done _ _ _ _ _ Hs2).
      eapply element_rest; [exact Ha2|by rewrite <- !app_assoc|done|done| |done]. apply ph_more; cbn; try done; congruence.
  - rewrite bool_decide_eq_false_2 by (by rewrite Hm). destruct Hb as [w Hw1|w e es t Hw1 Hfr Hmore].
    + rewrite <- (app_nil_r w) in Hat. destruct (skip_ws_ok _ _ _ _ _ Hat Hw1 I) as (s1 & Hs & Ha). rewrite (bind_done _ _ _ _ _ Hs).
      destruct (stream_ok _ _ _ _ Ha) as (s2 & Hp & Ha2). rewrite (bind_done _ _ _ _ _ Hp). exists s2. split; [done|].
      econstructor; [|exact Ha2|apply ph_done; cbn; congruence|done]. by rewrite app_nil_r.
    + destruct (framable_dense e t Hfr) as (e' & Ee & Hde). destruct (skip_ws_ok _ _ _ _ _ Hat Hw1 Hde) as (s1 & Hs & Ha). rewrite (bind_done _ _ _ _ _ Hs).
      assert (exists s2, next_in_stream s1 = (inr false, s2) /\ At c (pre ++ w) (e ++ t) s2) as (s2 & Hp & Ha2)
        by (pose proof (stream_ok _ _ _ _ Ha) as Hx; rewrite Ee in Hx |- *; exact Hx). rewrite (bind_done _ _ _ _ _ Hp).
      eapply element_rest; [exact Ha2|by rewrite <- app_assoc|done|done| |done]. apply ph_lines; cbn; try done; congruence.
  - exists s. split; [done|]. econstructor; [done|exact Hat| |done]. by apply ph_done.
Qed.
Definition fresh : JsonSource := core (source_new []).
Lemma is_json_ws_ascii b : is_json_ws b = true -> (b < 128)%Z.
Proof. unfold is_json_ws. rewrite !orb_true_iff, !Z.eqb_eq. lia. Qed.
Lemma blank_then w b t : blank w -> (b < 128)%Z -> forall x, head (w ++ b :: t) = Some x -> (x < 128)%Z.
Proof. intros Hw Hb x Hx. destruct Hw as [|y w Hy Hw]; injection Hx as <-; [done|by apply is_json_ws_ascii]. Qed.
Lemma lines_ascii es text : Lines es text -> forall x, head text = Some x -> (x < 128)%Z.
Proof.
  intros [w Hw|w e es' t Hw Hfr _] x Hx; [destruct Hw as [|y w Hy Hw]; [done|]; injection Hx as <-; by apply is_json_ws_ascii|].
  destruct (framable_dense e t Hfr) as (e' & -> & _). by apply (blank_then w 123 (e' ++ t)) with (x := x).
Qed.
Lemma objects_ascii es text : Objects es text -> forall x, head text = Some x -> (x < 128)%Z.
Proof. intros [w es' t Hw _|es' t Hl]; [by apply blank_then|by eapply lines_ascii]. Qed.
Lemma no_mark buf rest text b p : text = buf ++ rest -> (forall x, head text = Some x -> (x < 128)%Z) -> (128 <= b)%Z -> starts_with buf (b :: p) = false.
Proof.
  intros -> Hx Hb. destruct buf as [|x buf]; [done|]. cbn. specialize (Hx x eq_refl). replace (b =b x) with false; [done|]. symmetry. apply Z.eqb_neq. lia.
Qed.
Lemma started_at_objects es text s : At fresh [] text s -> Objects es text -> exists s', start s = (inr tt, s') /\ Rest 0 es text ([], ∅, [], []) s'.
Proof.
  intros Hat Hobj. unfold start. destruct (fill_ok _ _ _ _ Hat) as (s1 & Hf & Ha & _ & rest & Hrest). rewrite (bind_done _ _ _ _ _ Hf).
  pose proof (objects_ascii es text Hobj) as Hx. rewrite !(no_mark _ _ _ _ _ Hrest Hx) by lia. cbn [orb]. rewrite (bind_done _ _ s1 tt s1 eq_refl).
  assert (forall w t, text = w ++ t -> blank w -> dense t -> exists s2, skip_ws s1 = (inr tt, s2) /\ exists s3, peek s2 = (inr (head t), s3)
    /\ At fresh w t s3 /\ filled t s3) as Hgo.
  { intros w t -> Hw Hd. destruct (skip_ws_ok _ _ _ _ _ Ha Hw Hd) as (s2 & Hs & Ha2). destruct (peek_ok _ _ _ _ Ha2) as (s3 & Hp & Ha3 & Hf3).
    exists s2. split; [done|]. by exists s3. }
  assert (forall c w t s3, At fresh w t s3 -> At (set_mode c fresh) w t (set_mode c s3)) as Hset by (intros; by apply at_modify).
  destruct Hobj as [w es t Hw Hb|es t Hl].
  - destruct (Hgo w (91%Z :: t) eq_refl Hw eq_refl) as (s2 & Hs & s3 & Hp & Ha3 & Hf3). rewrite (bind_done _ _ _ _ _ Hs), (bind_done _ _ _ _ _ Hp). cbn [head].
    rewrite bool_decide_eq_true_2 by done. destruct (bump_ok _ _ _ _ _ Ha3 Hf3) as (s4 & Hb4 & Ha4). rewrite (bind_done _ _ _ _ _ Hb4). eexists. split; [reflexivity|].
    apply rest_at with (set_mode Array fresh) (w ++ [91%Z]) t; [by rewrite <- app_assoc|by apply Hset| |done]. by apply ph_array.
  - assert (exists w t', t = w ++ t' /\ blank w /\ dense t' /\ head t' <> Some 91%Z /\ Lines es t') as (w & t' & -> & Hw & Hd & Hh & Hl').
    { destruct Hl as [w Hw|w e es t Hw Hfr Hl]; [exists w, []; rewrite app_nil_r; split; [done|]; split; [done|]; split; [done|]; split; [done|]; apply lines_end, List.Forall_nil|]. destruct (framable_dense e t Hfr) as (e' & Ee & Hd).
      exists w, (e ++ t). split; [done|]. split; [done|]. split; [done|]. split; [by rewrite Ee|]. apply (lines_next []); [by apply List.Forall_nil|done|done]. }
    destruct (Hgo w t' eq_refl Hw Hd) as (s2 & Hs & s3 & Hp & Ha3 & Hf3). rewrite (bind_done _ _ _ _ _ Hs), (bind_done _ _ _ _ _ Hp).
    rewrite bool_decide_eq_false_2 by done. eexists. split; [reflexivity|].
    apply rest_at with (set_mode Stream fresh) w t'; [done|by apply Hset| |done]. by apply ph_lines.
Qed.
(** A file in hand, however it is read. *)
Lemma file_opened chunks : Forall (fun x => x <> []) chunks -> At fresh [] (concat chunks) (source_new (inr <$> chunks)).
Proof. intros Hn. split; [done| |done|done]. by exists chunks. Qed.

(** ** Rows *)

(** A source before its first read, or under way. *)
Definition Source (n : nat) (es : list bytes) (whole : bytes) sd (s : JsonSource) : Prop :=
  Rest n es whole sd s \/ (n = 0 /\ sd = ([], ∅, [], []) /\ At fresh [] whole s /\ Objects es whole).
Lemma next_element_ok n es whole sd s : Source n es whole sd s ->
  match es with
  | [] => exists s', next_element s = (inr None, s') /\ Rest n [] whole sd s'
  | e :: es => exists s' el, next_element s = (inr (Some el), s') /\ placed whole e el /\ el_index el = S n /\ Rest (S n) es whole sd s'
  end.
Proof.
  intros [Hr|(-> & -> & Hat & Hobj)]; [by apply started_ok|]. destruct (started_at_objects es whole s Hat Hobj) as (s1 & Hs & Hr). pose proof (started_ok _ _ _ _ _ Hr) as Hn.
  assert (next_element s = next_element s1) as ->; [|done]. unfold JsonSource.next_element.
  rewrite (bind_done _ _ s tt s1); [|unfold reads; by rewrite (core_of js_mode fresh _ _ _ ltac:(done) Hat)].
  rewrite (bind_done _ _ s1 tt s1); [done|]. unfold reads. rewrite bool_decide_eq_false_2; [done|]. destruct Hr as [c pre text _ Ha Hph _].
  rewrite (core_of js_mode c _ _ _ ltac:(done) Ha). destruct Hph; congruence.
Qed.
Lemma rest_side n es whole sd f s : (forall c, core (f c) = f (core c)) -> (forall c, js_buf (f c) = js_buf c /\ js_reads (f c) = js_reads c
  /\ js_line (f c) = js_line c /\ js_offset (f c) = js_offset c) -> (forall c, js_mode (f c) = js_mode c /\ js_done (f c) = js_done c /\ js_count (f c) = js_count c
  /\ js_expect_element (f c) = js_expect_element c) -> Rest n es whole sd s -> Rest n es whole (side (f s)) (f s).
Proof.
  intros Hf Hr Hp [c pre text Hw Hat Hph Hsd]. destruct (Hp c) as (E1 & E2 & E3 & E4).
  apply rest_at with (f c) pre text; [done|by apply at_modify| |].
  - destruct Hph; [apply ph_array|apply ph_more|apply ph_lines|apply ph_done]; congruence.
  - rewrite <- (at_core _ _ _ _ Hat). by rewrite <- Hf.
Qed.
Lemma rest_side_is n es whole sd s : Rest n es whole sd s -> side s = sd.
Proof. intros [c pre text _ Hat _ <-]. by apply (core_of side c pre text). Qed.
Variable from_str : bytes -> bytes + bytes.
Abbreviation next_object := (next_object from_slice debug_char limits).
Abbreviation sample := (sample from_slice debug_char limits).
Abbreviation next_row := (next_row from_slice from_str debug_char limits).
(** An entry is an object of the file, with its keys and values. *)
Definition entry_of (whole e : bytes) (x : Element * Obj) : Prop := placed whole e x.1 /\ from_slice e = inr x.2.
Lemma next_object_ok n es objs whole sd s : Source n es whole sd s -> Forall2 (fun e obj => from_slice e = inr obj) es objs ->
  match es, objs with
  | e :: es, obj :: _ => exists s' x, next_object s = (inr (Some x), s') /\ entry_of whole e x /\ x.2 = obj /\ Rest (S n) es whole sd s'
  | _, _ => exists s', next_object s = (inr None, s') /\ Rest n [] whole sd s'
  end.
Proof.
  intros Hs Hobj. pose proof (next_element_ok _ _ _ _ _ Hs) as Hn. unfold JsonSource.next_object. destruct Hobj as [|e obj es objs He Hobj].
  - destruct Hn as (s' & Hn & Hr). rewrite (bind_done _ _ _ _ _ Hn). by exists s'.
  - destruct Hn as (s' & el & Hn & Hp & _ & Hr). rewrite (bind_done _ _ _ _ _ Hn). pose proof Hp as (Hb & _ & _). rewrite Hb, He.
    exists s', (el, obj). split; [done|]. split; [by split|]. by split.
Qed.

(** The keys of a sample, in the order they are first seen, and where each is. *)
Definition see (h : list bytes) (key : bytes) : list bytes := if bool_decide (key ∈ h) then h else h ++ [key].
Definition keys (obj : Obj) : list bytes := map fst obj.
Definition first_seen (h : list bytes) (objs : list Obj) : list bytes := fold_left see (concat (map keys objs)) h.
Definition indexed (h : list bytes) (idx : gmap bytes nat) : Prop := NoDup h /\ forall key i, idx !! key = Some i <-> h !! i = Some key.
Lemma indexed_in h idx key : indexed h idx -> key ∈ h <-> is_Some (idx !! key).
Proof.
  intros [_ Hi]. split; [intros (i & Hk)%list_elem_of_lookup_1; exists i; by apply Hi|intros [i Hk]; apply Hi in Hk; by eapply list_elem_of_lookup_2].
Qed.
Lemma add_key_ok key s : indexed (js_header s) (js_index s) -> js_header (add_key key s) = see (js_header s) key /\ indexed (js_header (add_key key s)) (js_index (add_key key s)).
Proof.
  intros Hi. unfold add_key, see. pose proof (indexed_in _ _ key Hi) as Hin. destruct (js_index s !! key) as [i|] eqn:E.
  - rewrite bool_decide_eq_true_2 by (apply Hin; by eexists). done.
  - assert (key ∉ js_header s) as Hnot by (rewrite Hin; by intros []). rewrite bool_decide_eq_false_2 by done. split; [done|]. destruct Hi as [Hnd Hi].
    split; cbn; [apply NoDup_app; split; [done|split; [|apply NoDup_singleton]]; by intros x Hx ->%list_elem_of_singleton|]. intros k i.
    destruct (decide (k = key)) as [->|Hk].
    + rewrite lookup_insert_eq. split; [intros [= <-]; by rewrite list_lookup_middle|]. intros Hl. apply lookup_app_Some in Hl as [Hl|[Hge Hl]]; [by apply list_elem_of_lookup_2 in Hl|].
      apply list_lookup_singleton_Some in Hl as [Hl _]. f_equal. lia.
    + rewrite lookup_insert_ne by done. rewrite Hi, lookup_app_Some. split; [by left|]. intros [Hl|[_ Hl]]; [done|]. by apply list_lookup_singleton_Some in Hl as [_ ->].
Qed.
Lemma add_keys_ok (obj : Obj) : forall s, indexed (js_header s) (js_index s) ->
  let s' := fold_left (fun s x => add_key x.1 s) obj s in js_header s' = fold_left see (keys obj) (js_header s) /\ indexed (js_header s') (js_index s').
Proof.
  induction obj as [|[key v] obj IH]; intros s Hi; [done|]. destruct (add_key_ok key s Hi) as [Hh Hi']. destruct (IH (add_key key s) Hi') as [Hh2 Hi2].
  cbn in *. split; [by rewrite Hh2, Hh|done].
Qed.
(** [fold_left add_key] and [set_queue] leave the reader alone. *)
Lemma add_key_rest n es whole sd key s : Rest n es whole sd s -> Rest n es whole (side (add_key key s)) (add_key key s).
Proof.
  intros Hr. apply rest_side with (f := add_key key) in Hr; [done|..]; intros c; unfold add_key; cbn; by destruct (js_index c !! key).
Qed.
Lemma add_keys_rest n es whole (obj : Obj) : forall sd s, Rest n es whole sd s ->
  Rest n es whole (side (fold_left (fun s x => add_key x.1 s) obj s)) (fold_left (fun s x => add_key x.1 s) obj s).
Proof. induction obj as [|x obj IH]; intros sd s Hr; cbn; [by rewrite (rest_side_is _ _ _ _ _ Hr)|]. eapply IH. by eapply add_key_rest. Qed.
Lemma add_keys_queue (obj : Obj) : forall s, js_queue (fold_left (fun s x => add_key x.1 s) obj s) = js_queue s /\ js_unmapped (fold_left (fun s x => add_key x.1 s) obj s) = js_unmapped s.
Proof. induction obj as [|x obj IH]; intros s; [done|]. cbn. rewrite !(proj1 (IH _)), !(proj2 (IH _)). unfold add_key. by destruct (js_index s !! x.1). Qed.

(** How many objects are sampled, by their sizes. *)
Fixpoint sampled (k : nat) (total : Z) (es : list bytes) : nat :=
  match k, es with S k, e :: es => if (total <? sample_bytes limits)%Z then S (sampled k (total + Z.of_nat (length e))%Z es) else 0 | _, _ => 0 end.
(** A source whose queue holds [q] and that has yet to read [es]. *)
Record Sampled (n : nat) (q es : list bytes) (qobjs : list Obj) (whole : bytes) (h : list bytes) (s : JsonSource) : Prop := {
  sm_rest : Source n es whole (side s) s; sm_header : js_header s = h; sm_index : indexed (js_header s) (js_index s);
  sm_queue : Forall2 (entry_of whole) q (js_queue s); sm_objs : (js_queue s).*2 = qobjs }.
Lemma sample_ok k : forall n total q es qobjs objs whole h s, Sampled n q es qobjs whole h s -> Forall2 (fun e obj => from_slice e = inr obj) es objs ->
  let m := sampled k total es in
  exists s' n', sample k total s = (inr tt, s') /\ Sampled n' (q ++ take m es) (drop m es) (qobjs ++ take m objs) whole (first_seen h (take m objs)) s'.
Proof.
  induction k as [|k IH]; intros n total q es qobjs objs whole h s Hs Hobj; cbn [JsonSource.sample sampled].
  { exists s, n. cbn. by rewrite !drop_0, !app_nil_r. }
  destruct (total <? sample_bytes limits)%Z eqn:Et.
  2:{ exists s, n. split; [done|]. destruct es; cbn; by rewrite ?app_nil_r. }
  destruct Hs as [Hrest Hh Hi Hq Ho]. pose proof (next_object_ok n es objs whole (side s) s Hrest Hobj) as Hn. destruct Hobj as [|e obj es objs He Hobj].
  { destruct Hn as (s1 & Hn & Hr). rewrite (bind_done _ _ _ _ _ Hn). exists s1, n. cbn. rewrite !app_nil_r. split; [done|]. pose proof (rest_side_is _ _ _ _ _ Hr) as Hsd.
    injection Hsd as E1 E2 E3 E4. split; [left; by rewrite (rest_side_is _ _ _ _ _ Hr)|congruence|by rewrite E1, E2|by rewrite E3|by rewrite E3]. }
  destruct Hn as (s1 & [el obj'] & Hn & Hentry & Hobj' & Hr). cbn in Hobj'. subst obj'. rewrite (bind_done _ _ _ _ _ Hn). pose proof (rest_side_is _ _ _ _ _ Hr) as Hsd. injection Hsd as E1 E2 E3 E4.
  set (s2 := fold_left (fun s x => add_key x.1 s) obj s1). set (s3 := set_queue (js_queue s2 ++ [(el, obj)]) s2).
  rewrite (bind_done (modify (fun s => fold_left (fun s x => add_key x.1 s) obj s)) _ s1 tt s2 eq_refl).
  rewrite (bind_done (modify (fun s => set_queue (js_queue s ++ [(el, obj)]) s)) _ s2 tt s3 eq_refl).
  destruct (add_keys_ok obj s1) as [Hh2 Hi2]; [by rewrite E1, E2|]. destruct (add_keys_queue obj s1) as [Hq2 _]. fold s2 in Hh2, Hi2, Hq2.
  assert (length (el_bytes el) = length e) as -> by (destruct Hentry as [(Hb & _ & _) _]; by rewrite <- Hb).
  destruct (IH (S n) (total + Z.of_nat (length e))%Z (q ++ [e]) es (qobjs ++ [obj]) objs whole (fold_left see (keys obj) h) s3) as (s' & n' & Hs' & Hsm); [|done|].
  - split; cbn; [left| |done| |].
    + pose proof (add_keys_rest _ _ _ obj _ _ Hr) as Hr2. fold s2 in Hr2. by apply rest_side with (f := set_queue (js_queue s2 ++ [(el, obj)])) in Hr2.
    + by rewrite Hh2, E1, Hh.
    + rewrite Hq2, E3. apply Forall2_app; [done|by constructor].
    + by rewrite Hq2, E3, fmap_app, Ho.
  - exists s', n'. split; [done|]. cbn [take drop app]. rewrite <- !app_assoc in Hsm. cbn [app] in Hsm. unfold first_seen in *. cbn. by rewrite fold_left_app.
Qed.

(** The cells of a row: under each key the last value it has in the object. *)
Definition readable (obj : Obj) : Prop := Forall (fun kv => is_Some (match cell from_str kv.2 with inr c => Some c | inl _ => None end)) obj.
Definition cell_text (raw : bytes) : option bytes := match cell from_str raw with inr c => c | inl _ => None end.
Definition last_cell (key : bytes) (obj : Obj) (c : option bytes) : option bytes :=
  fold_left (fun c kv => if bool_decide (kv.1 = key) then cell_text kv.2 else c) obj c.
Definition row_cells (h : list bytes) (obj : Obj) : list (option bytes) := map (fun key => last_cell key obj None) h.
Definition noted (obj : Obj) (s : JsonSource) : JsonSource :=
  fold_left (fun s kv => match js_index s !! kv.1 with Some _ => s | None => note_unmapped kv.1 s end) obj s.
Lemma note_unmapped_keeps key s : js_header (note_unmapped key s) = js_header s /\ js_index (note_unmapped key s) = js_index s /\ js_queue (note_unmapped key s) = js_queue s.
Proof. unfold note_unmapped. by destruct (_ && _). Qed.
Lemma noted_keeps obj : forall s, js_header (noted obj s) = js_header s /\ js_index (noted obj s) = js_index s /\ js_queue (noted obj s) = js_queue s.
Proof.
  induction obj as [|kv obj IH]; intros s; [done|]. cbn. destruct (js_index s !! kv.1); [apply IH|]. destruct (note_unmapped_keeps kv.1 s) as (E1 & E2 & E3).
  destruct (IH (note_unmapped kv.1 s)) as (E4 & E5 & E6). unfold noted in *. by rewrite E4, E5, E6.
Qed.
Lemma noted_rest n es whole obj : forall sd s, Rest n es whole sd s -> Rest n es whole (side (noted obj s)) (noted obj s).
Proof.
  induction obj as [|kv obj IH]; intros sd s Hr; cbn; [by rewrite (rest_side_is _ _ _ _ _ Hr)|]. destruct (js_index s !! kv.1); [by eapply IH|].
  apply rest_side with (f := note_unmapped kv.1) in Hr; [by eapply IH|..]; intros c; unfold note_unmapped; cbn; by destruct (_ && _).
Qed.
Lemma fill_cells_ok e obj : forall cells s, indexed (js_header s) (js_index s) -> readable obj -> length cells = length (js_header s) ->
  exists cells', fill_cells from_str e obj cells s = (inr cells', noted obj s) /\ length cells' = length (js_header s)
    /\ forall i key c, js_header s !! i = Some key -> cells !! i = Some c -> cells' !! i = Some (last_cell key obj c).
Proof.
  induction obj as [|[key raw] obj IH]; intros cells s Hi Hr Hl; cbn [fill_cells noted fold_left].
  { exists cells. split; [done|]. split; [done|]. by intros i k c _ Hc. }
  apply Forall_cons in Hr as [Hraw Hr]. unfold reads. cbn [fst snd] in *. destruct (js_index s !! key) as [col|] eqn:Ek.
  - destruct (cell from_str raw) as [m|c] eqn:Ec; [by destruct Hraw|]. destruct (IH (<[col:=c]> cells) s Hi Hr) as (cells' & Hf & Hlen & Hc); [by rewrite length_insert|].
    exists cells'. split; [exact Hf|]. split; [done|]. intros i k c0 Hk Hc0. unfold last_cell. cbn [fold_left]. destruct Hi as [Hnd Hi]. apply Hi in Ek.
    case_bool_decide as Hkey; cbn [fst snd] in Hkey.
    + subst k. assert (i = col) as -> by (by eapply NoDup_lookup). cbn [fst snd]. unfold cell_text at 2. rewrite Ec. apply (Hc _ _ _ Hk).
      apply list_lookup_insert_eq. rewrite Hl. by eapply lookup_lt_Some.
    + apply (Hc _ _ _ Hk). rewrite list_lookup_insert_ne; [done|]. intros ->. congruence.
  - destruct (note_unmapped_keeps key s) as (E1 & E2 & E3). rewrite (bind_done (modify (note_unmapped key)) _ s tt (note_unmapped key s) eq_refl).
    destruct (IH cells (note_unmapped key s)) as (cells' & Hf & Hlen & Hc); [by rewrite E1, E2|done|by rewrite E1|]. rewrite E1 in Hlen, Hc.
    exists cells'. split; [exact Hf|]. split; [done|]. intros i k c0 Hk Hc0. unfold last_cell. cbn [fold_left fst]. rewrite bool_decide_eq_false_2; [by apply Hc|].
    intros ->. destruct Hi as [_ Hi]. apply Hi in Hk. congruence.
Qed.
Lemma row_ok e obj s : indexed (js_header s) (js_index s) -> readable obj ->
  fill_cells from_str e obj (replicate (length (js_header s)) None) s = (inr (row_cells (js_header s) obj), noted obj s).
Proof.
  intros Hi Hr. destruct (fill_cells_ok e obj (replicate (length (js_header s)) None) s Hi Hr) as (cells' & Hf & Hlen & Hc); [by rewrite length_replicate|].
  rewrite Hf. do 2 f_equal. apply (list_eq_same_length _ _ (length (js_header s))); [by unfold row_cells; rewrite length_map|done|]. intros i x y Hlt Hx Hy.
  destruct (lookup_lt_is_Some_2 (js_header s) i Hlt) as [key Hk].
  rewrite (Hc i key None Hk) in Hx by (by apply lookup_replicate_2). unfold row_cells in Hy.
  rewrite (list_lookup_fmap (fun key => last_cell key obj None)), Hk in Hy. cbn in Hy. congruence.
Qed.

(** A row is an object of the file: on its line, with its cells under the header. *)
Definition row_of (whole : bytes) (h : list bytes) (e : bytes) (obj : Obj) (row : SourceRow) : Prop :=
  (exists offset, take (length e) (drop offset whole) = e /\ sr_line row = S (newlines (take offset whole))) /\ sr_cells row = row_cells h obj.
(** The rows to the end. *)
Fixpoint all_rows (fuel : nat) (s : JsonSource) : option (ImportError + list SourceRow) :=
  match fuel with
  | O => None
  | S fuel =>
      match next_row s with
      | (inl e, _) => Some (inl e)
      | (inr None, _) => Some (inr [])
      | (inr (Some row), s) => match all_rows fuel s with Some (inr rows) => Some (inr (row :: rows)) | r => r end
      end
  end.
Lemma entry_row whole h e el obj : entry_of whole e (el, obj) -> row_of whole h e obj (MkSourceRow (el_line el) (row_cells h obj)).
Proof. intros [(Hb & Ht & Hl) _]. split; [|done]. by exists (el_offset el). Qed.
(** A queued object is a row, and so is the next one of the file. *)
Lemma next_row_ok n q es qobjs objs whole h s : Sampled n q es qobjs whole h s -> Forall2 (fun e obj => from_slice e = inr obj) es objs -> Forall readable (qobjs ++ objs) ->
  match q ++ es, qobjs ++ objs with
  | e :: rest, obj :: robjs => exists s' n' row q' es' qobjs' objs', next_row s = (inr (Some row), s') /\ row_of whole h e obj row
      /\ rest = q' ++ es' /\ robjs = qobjs' ++ objs' /\ Sampled n' q' es' qobjs' whole h s' /\ Forall2 (fun e obj => from_slice e = inr obj) es' objs'
  | _, _ => exists s', next_row s = (inr None, s')
  end.
Proof.
  intros [Hrest Hh Hi Hq Ho] Hobj Hread. unfold JsonSource.next_row, reads. remember (js_queue s) as queue eqn:Eq. destruct Hq as [|e [el obj] q entries Hentry Hq].
  - subst qobjs. cbn [app fmap list_fmap] in *. pose proof (next_object_ok _ _ _ _ _ _ Hrest Hobj) as Hn. destruct Hobj as [|e obj es objs He Hobj].
    { destruct Hn as (s' & Hn & _). exists s'. by rewrite (bind_done _ _ _ _ _ Hn). }
    destruct Hn as (s1 & [el obj'] & Hn & Hentry & Hobj' & Hr). cbn in Hobj'. subst obj'. rewrite (bind_done _ _ _ _ _ Hn). pose proof (rest_side_is _ _ _ _ _ Hr) as Hsd. injection Hsd as E1 E2 E3 E4.
    apply Forall_cons in Hread as [Hread1 Hread]. rewrite <- E1 in *. rewrite <- E2 in *. rewrite (bind_done _ _ _ _ _ (row_ok el obj s1 Hi Hread1)). rewrite Hh.
    destruct (noted_keeps obj s1) as (F1 & F2 & F3). exists (noted obj s1), (S n), (MkSourceRow (el_line el) (row_cells h obj)), [], es, [], objs.
    split; [done|]. split; [by apply entry_row|]. split; [done|]. split; [done|]. split; [|done].
    split; [left; by eapply noted_rest|by rewrite F1|by rewrite F1, F2|rewrite F3, E3, <- Eq; constructor|by rewrite F3, E3, <- Eq].
  - cbn in Ho. subst qobjs. cbn [app] in *. apply Forall_cons in Hread as [Hread1 Hread]. set (s1 := set_queue entries s).
    rewrite (bind_done (bind (modify (set_queue entries)) (fun _ => ret (Some (el, obj)))) _ s (Some (el, obj)) s1 eq_refl). change (js_header s) with (js_header s1). rewrite (bind_done _ _ _ _ _ (row_ok el obj s1 Hi Hread1)).
    change (js_header s1) with (js_header s). rewrite Hh. destruct (noted_keeps obj s1) as (F1 & F2 & F3).
    exists (noted obj s1), n, (MkSourceRow (el_line el) (row_cells h obj)), q, es, entries.*2, objs.
    split; [done|]. split; [by apply entry_row|]. split; [done|]. split; [done|]. split; [|done].
    destruct Hrest as [Hr|(_ & Hsd & _)]; [|injection Hsd as _ _ Hsd _; congruence].
    apply rest_side with (f := set_queue entries) in Hr; [|done..]. split; [left; by eapply noted_rest|by rewrite F1|by rewrite F1, F2|by rewrite F3|by rewrite F3].
Qed.
Lemma all_rows_ok fuel : forall n q es qobjs objs whole h s, Sampled n q es qobjs whole h s -> Forall2 (fun e obj => from_slice e = inr obj) es objs ->
  Forall readable (qobjs ++ objs) -> length q = length qobjs -> length (q ++ es) < fuel ->
  exists rows, all_rows fuel s = Some (inr rows) /\ Forall3 (row_of whole h) (q ++ es) (qobjs ++ objs) rows.
Proof.
  induction fuel as [|fuel IH]; intros n q es qobjs objs whole h s Hs Hobj Hread Hlen Hfuel; [lia|]. pose proof (next_row_ok _ _ _ _ _ _ _ _ Hs Hobj Hread) as Hn. cbn [all_rows].
  assert (length (q ++ es) = length (qobjs ++ objs)) as Hl by (rewrite !length_app, Hlen; by rewrite (Forall2_length _ _ _ Hobj)).
  destruct (q ++ es) as [|e rest], (qobjs ++ objs) as [|obj robjs]; [|done|done|].
  - destruct Hn as [s' ->]. exists []. split; [done|constructor].
  - destruct Hn as (s' & n' & row & q' & es' & qobjs' & objs' & -> & Hrow & -> & -> & Hs' & Hobj'). apply Forall_cons in Hread as [_ Hread]. cbn in Hl, Hfuel.
    destruct (IH n' q' es' qobjs' objs' whole h s' Hs' Hobj' Hread) as (rows & Ha & Hrows); [|lia|].
    { rewrite <- (sm_objs _ _ _ _ _ _ _ Hs'), length_fmap. by rewrite (Forall2_length _ _ _ (sm_queue _ _ _ _ _ _ _ Hs')). }
    rewrite Ha. exists (row :: rows). split; [done|]. by constructor.
Qed.
(** After the sample, the queue and the rest of the file hold the objects. *)
Lemma objects_sampled (chunks : list bytes) (es : list bytes) (objs : list Obj) :
  Forall (fun chunk => chunk <> []) chunks -> Objects es (concat chunks) -> Forall2 (fun e obj => from_slice e = inr obj) es objs ->
  let m := sampled (sample_rows limits) 0 es in
  exists s n, build from_slice debug_char limits (inr <$> chunks) = (inr tt, s)
    /\ Sampled n (take m es) (drop m es) (take m objs) (concat chunks) (first_seen [] (take m objs)) s.
Proof.
  intros Hn Hobjs Hfrom m. assert (Sampled 0 [] es [] (concat chunks) [] (source_new (inr <$> chunks))) as Hs.
  { split; [right; split; [done|]; split; [done|]; split; [by apply file_opened|done]|done| |constructor|done].
    split; [constructor|]. intros key i. cbn. by rewrite lookup_empty, lookup_nil. }
  destruct (sample_ok (sample_rows limits) 0 0 [] es [] objs _ [] _ Hs Hfrom) as (s & n & Hb & Hsm). by exists s, n.
Qed.
Lemma sampled_rows n m es objs whole h s : Sampled n (take m es) (drop m es) (take m objs) whole h s -> Forall2 (fun e obj => from_slice e = inr obj) es objs ->
  Forall readable objs -> exists rows, all_rows (S (length es)) s = Some (inr rows) /\ Forall3 (row_of whole h) es objs rows.
Proof.
  intros Hsm Hfrom Hread.
  destruct (all_rows_ok (S (length es)) n (take m es) (drop m es) (take m objs) (drop m objs) _ h s Hsm) as (rows & Ha & Hrows).
  { by apply Forall2_drop. } { by rewrite take_drop. } { rewrite !length_take. by rewrite (Forall2_length _ _ _ Hfrom). } { rewrite take_drop. lia. }
  rewrite !take_drop in Hrows. by exists rows.
Qed.
(** C21: Every object of a JSON file is a row. Of a file that holds objects - one after another or in an array with
    its commas, with any white space between - each within the size and nesting allowed, [build] names the columns
    by the keys of the first objects, in the order they are first seen, as many objects as the limits sample; and the
    rows that follow are the objects, all of them, in order, each with the line it starts on and under each column
    the last value it has there, or a NULL; whatever sizes the reads of the file come in. *)
Theorem every_object_is_a_row (chunks : list bytes) (es : list bytes) (objs : list Obj) :
  Forall (fun chunk => chunk <> []) chunks -> Objects es (concat chunks) ->
  Forall2 (fun e obj => from_slice e = inr obj) es objs -> Forall readable objs ->
  let h := first_seen [] (take (sampled (sample_rows limits) 0 es) objs) in
  exists s rows, build from_slice debug_char limits (inr <$> chunks) = (inr tt, s) /\ js_header s = h
    /\ all_rows (S (length es)) s = Some (inr rows) /\ Forall3 (row_of (concat chunks) h) es objs rows.
Proof.
  intros Hn Hobjs Hfrom Hread h. destruct (objects_sampled chunks es objs Hn Hobjs Hfrom) as (s & n & Hb & Hsm).
  destruct (sampled_rows _ _ _ _ _ _ _ Hsm Hfrom Hread) as (rows & Ha & Hrows).
  exists s, rows. split; [exact Hb|]. split; [exact (sm_header _ _ _ _ _ _ _ Hsm)|]. by split.
Qed.
End Framer.

(** ** A small file *)

(** Two objects with a line feed between, read in pieces of four bytes at most. *)
Module SmallSource.
Definition first : bytes := B "{" ++ [DQUOTE] ++ B "a" ++ [DQUOTE] ++ B ":1}".
Definition second : bytes := B "{" ++ [DQUOTE] ++ B "b" ++ [DQUOTE] ++ B ":[2]}".
Definition chunks : list bytes := [take 4 first; drop 4 first ++ [LF]; take 3 second; drop 3 second].
Definition from_slice (e : bytes) : bytes + Obj :=
  if bytes_eqb e first then inr [(B "a", B "1")] else if bytes_eqb e second then inr [(B "b", B "[2]")] else inl (B "expected a value").
Definition from_str (raw : bytes) : bytes + bytes := inl raw.
Definition debug_char (b : Z) : bytes := [b].
Lemma members k : Inside (S k) ([DQUOTE] ++ B "a" ++ [DQUOTE] ++ B ":1") /\ Inside (S k) ([DQUOTE] ++ B "b" ++ [DQUOTE] ++ B ":[2]").
Proof.
  split.
  - apply (inside_string (S k) (B "a") (B ":1")); [by repeat constructor|]. do 2 (apply inside_byte; [done..|]). apply inside_end.
  - apply (inside_string (S k) (B "b") (B ":[2]")); [by repeat constructor|]. apply inside_byte; [done..|].
    apply (inside_group k 91 93 (B "2") []); [done..| |apply inside_end]. apply inside_byte; [done..|]. apply inside_end.
Qed.
Lemma objects : Objects default_limits [first; second] (concat chunks).
Proof.
  destruct (members (pred (pred MAX_DEPTH))) as [Ha Hb]. apply objects_lines. apply (lines_next default_limits [] first [second] ([LF] ++ second ++ [])); [constructor| |].
  - split; [eexists; split; [|exact Ha]; reflexivity|by vm_compute].
  - apply lines_next; [by repeat constructor| |apply lines_end; constructor]. split; [eexists; split; [|exact Hb]; reflexivity|by vm_compute].
Qed.
End SmallSource.
Lemma every_object_is_a_row_witness : exists s rows,
  build SmallSource.from_slice SmallSource.debug_char default_limits (inr <$> SmallSource.chunks) = (inr tt, s) /\ js_header s = [B "a"; B "b"]
  /\ all_rows SmallSource.from_slice SmallSource.debug_char default_limits SmallSource.from_str 3 s = Some (inr rows)
  /\ Forall3 (row_of SmallSource.from_str (concat SmallSource.chunks) [B "a"; B "b"]) [SmallSource.first; SmallSource.second]
       [[(B "a", B "1")]; [(B "b", B "[2]")]] rows.
Proof.
  exact (every_object_is_a_row SmallSource.from_slice SmallSource.debug_char default_limits SmallSource.from_str SmallSource.chunks
           [SmallSource.first; SmallSource.second] [[(B "a", B "1")]; [(B "b", B "[2]")]]
           ltac:(by repeat constructor) SmallSource.objects ltac:(repeat constructor) ltac:(repeat constructor; by eexists)).
Defined.
Example small_source_rows : (fun r => match r with (inr _, s) => all_rows SmallSource.from_slice SmallSource.debug_char default_limits SmallSource.from_str 3 s | (inl e, _) => Some (inl e) end)
    (build SmallSource.from_slice SmallSource.debug_char default_limits (inr <$> SmallSource.chunks))
  = Some (inr [MkSourceRow 1 [Some (B "1"); None]; MkSourceRow 2 [None; Some (B "[2]")]]).
Proof. vm_compute. reflexivity. Qed.
(** A byte-order mark that the first read cuts is not skipped, and the file is refused. *)
Example mark_cut_by_the_first_read :
  (build SmallSource.from_slice SmallSource.debug_char default_limits [inr [239; 187; 191]%Z; inr SmallSource.first]).1 = inr tt
  /\ (build SmallSource.from_slice SmallSource.debug_char default_limits [inr [239; 187]%Z; inr (191%Z :: SmallSource.first)]).1
     = inl (IeJson 1 0 (B "element 1 (line 1) is not an object")).
Proof. by vm_compute. Qed.
