(* ===== verification/JsonText.v ===== *)
(** * JsonText: the grammar of a JSON text, RFC 8259, as far as an object of a file goes: which texts
    are strings, numbers and values, and which members a text of an object has.

    It is what a file is read by, and knows nothing of how one is written: [JsonTrip] proves the
    objects an export prints to be texts of this grammar, and asks of serde_json that it reads them. *)
From stdpp Require Import gmap.
From S2P Require Import Prelude Bytes Text Scan JsonSource JsonSourceSpec.
#[local] Open Scope nat_scope.
#[local] Set Warnings "-register-all".

(** ** Strings and numbers *)

Definition is_control (b : Z) : bool := (0 <=? b)%Z && (b <? 32)%Z.
Inductive StringChars : bytes -> Prop :=
| chars_end : StringChars []
| chars_unescaped b t : is_control b = false -> b <> DQUOTE -> b <> BACKSLASH -> StringChars t -> StringChars (b :: t)
| chars_escaped b t : In b [34; 92; 47; 98; 102; 110; 114; 116]%Z -> StringChars t -> StringChars (BACKSLASH :: b :: t)
| chars_code h1 h2 h3 h4 t : forallb is_ascii_hexdigit [h1; h2; h3; h4] = true -> StringChars t ->
    StringChars (BACKSLASH :: 117%Z :: h1 :: h2 :: h3 :: h4 :: t).
Definition StringText (text : bytes) : Prop := exists s, StringChars s /\ text = DQUOTE :: s ++ [DQUOTE].

Definition digits (s : bytes) : Prop := s <> [] /\ Forall (fun b => is_ascii_digit b = true) s.
(** [-], a whole part without zeros before it, a fraction and an exponent. *)
Definition NumberText (text : bytes) : Prop :=
  exists sign whole fraction exponent, text = sign ++ whole ++ fraction ++ exponent
    /\ (sign = [] \/ sign = B "-")
    /\ digits whole /\ (head whole = Some 48%Z -> whole = [48%Z])
    /\ (fraction = [] \/ exists d, digits d /\ fraction = DOT :: d)
    /\ (exponent = [] \/ exists e s d, (e = 69 \/ e = 101)%Z /\ (s = [] \/ s = B "-" \/ s = B "+") /\ digits d /\ exponent = e :: s ++ d).
Definition ScalarText (text : bytes) : Prop :=
  text = B "null" \/ text = B "true" \/ text = B "false" \/ NumberText text \/ StringText text.

(** ** Values and members *)

Inductive ValueText : bytes -> Prop :=
| value_scalar t : ScalarText t -> ValueText t
| value_no_items w : blank w -> ValueText (91%Z :: w ++ [93%Z])
| value_items t : ItemsText t -> ValueText (91%Z :: t ++ [93%Z])
| value_no_members w : blank w -> ValueText (123%Z :: w ++ [125%Z])
| value_members t ms : MembersText t ms -> ValueText (123%Z :: t ++ [125%Z])
with ItemsText : bytes -> Prop :=
| items_last w1 v w2 : blank w1 -> ValueText v -> blank w2 -> ItemsText (w1 ++ v ++ w2)
| items_more w1 v w2 t : blank w1 -> ValueText v -> blank w2 -> ItemsText t -> ItemsText (w1 ++ v ++ w2 ++ 44%Z :: t)
(** The members of an object in order, each its name and its value as they are written. *)
with MembersText : bytes -> list (bytes * bytes) -> Prop :=
| members_last w1 n w2 w3 v w4 : blank w1 -> StringText n -> blank w2 -> blank w3 -> ValueText v -> blank w4 ->
    MembersText (w1 ++ n ++ w2 ++ 58%Z :: w3 ++ v ++ w4) [(n, v)]
| members_more w1 n w2 w3 v w4 t ms : blank w1 -> StringText n -> blank w2 -> blank w3 -> ValueText v -> blank w4 -> MembersText t ms ->
    MembersText (w1 ++ n ++ w2 ++ 58%Z :: w3 ++ v ++ w4 ++ 44%Z :: t) ((n, v) :: ms).
Inductive ObjectText : bytes -> list (bytes * bytes) -> Prop :=
| object_empty w : blank w -> ObjectText (123%Z :: w ++ [125%Z]) []
| object_members t ms : MembersText t ms -> ObjectText (123%Z :: t ++ [125%Z]) ms.
Scheme ValueText_mut := Induction for ValueText Sort Prop
  with ItemsText_mut := Induction for ItemsText Sort Prop
  with MembersText_mut := Induction for MembersText Sort Prop.
Combined Scheme json_text_ind from ValueText_mut, ItemsText_mut, MembersText_mut.
Lemma object_value t ms : ObjectText t ms -> ValueText t.
Proof. destruct 1; [by apply value_no_members|by eapply value_members]. Qed.

(** ** What its bytes are to the framer *)

Lemma inside_app k a b : Inside k a -> Inside k b -> Inside k (a ++ b).
Proof.
  intros Ha Hb. induction Ha as [|k c t Hq Ho Hc _ IH|k s t Hs _ IH|k o c x t Ho Hc Hx _ _ IH]; cbn [app]; [done|by apply inside_byte; [..|apply IH]| |].
  - rewrite <- app_assoc. apply inside_string; [done|by apply IH].
  - rewrite <- app_assoc. apply inside_group; [done..|by apply IH].
Qed.
Lemma inside_more k a : Inside k a -> forall k', k <= k' -> Inside k' a.
Proof.
  induction 1 as [|k b t Hq Ho Hc _ IH|k s t Hs _ IH|k o c x t Ho Hc Hx IHx _ IH]; intros k' Hk.
  - apply inside_end.
  - apply inside_byte; auto.
  - apply inside_string; auto.
  - destruct k' as [|k']; [lia|]. apply inside_group; [done..|apply IHx; lia|apply IH; lia].
Qed.
Lemma chars_quoted s : StringChars s -> Quoted s.
Proof.
  induction 1 as [|b t _ Hq Hb _ IH|b t _ _ IH|h1 h2 h3 h4 t Hh _ IH]; [constructor|by apply quoted_byte|by apply quoted_escape|].
  apply quoted_escape. cbn in Hh. rewrite !andb_true_iff in Hh. destruct Hh as (H1 & H2 & H3 & H4 & _).
  assert (forall h, is_ascii_hexdigit h = true -> h <> DQUOTE /\ h <> BACKSLASH) as Hhex.
  { intros h Hh. split; intros ->; discriminate Hh. }
  apply Hhex in H1 as [], H2 as [], H3 as [], H4 as []. by do 4 (apply quoted_byte; [done..|]).
Qed.
(** A byte that means nothing to the framer. *)
Definition plain (b : Z) : bool := negb (b =b DQUOTE) && negb (is_opener b) && negb (is_closer b).
Lemma inside_plain k s : forallb plain s = true -> Inside k s.
Proof.
  induction s as [|b s IH]; intros Hp; [apply inside_end|]. cbn in Hp. apply andb_true_iff in Hp as [Hb Hp]. unfold plain in Hb. rewrite !andb_true_iff, !negb_true_iff in Hb.
  destruct Hb as [[Hq Ho] Hc]. apply inside_byte; [by apply Z.eqb_neq|done..|by apply IH].
Qed.
Lemma inside_group_only k o c x : is_opener o = true -> is_closer c = true -> Inside k x -> Inside (S k) (o :: x ++ [c]).
Proof. intros Ho Hc Hx. apply inside_group; [done..|apply inside_end]. Qed.
Definition quoted_text (text : bytes) : Prop := exists s, Quoted s /\ text = DQUOTE :: s ++ [DQUOTE].
Lemma string_quotes t : StringText t -> quoted_text t.
Proof. intros (s & Hs & ->). exists s. split; [by apply chars_quoted|done]. Qed.
Definition number_byte (b : Z) : bool := is_ascii_digit b || existsb (Z.eqb b) [43; 45; 46; 69; 101]%Z.
Lemma number_bytes t : NumberText t -> Forall (fun b => number_byte b = true) t.
Proof.
  intros (sg & w & f & e & -> & Hsg & (_ & Hw) & _ & Hf & He).
  assert (Hd : forall d, Forall (fun b => is_ascii_digit b = true) d -> Forall (fun b => number_byte b = true) d).
  { intros d Hall. eapply Forall_impl; [exact Hall|]. intros b Hb. unfold number_byte. by rewrite Hb. }
  apply Forall_app_2; [|apply Forall_app_2].
  - destruct Hsg as [-> | ->]; repeat constructor.
  - by apply Hd.
  - apply Forall_app_2.
    + destruct Hf as [-> |(d & (_ & Hfd) & ->)]; [constructor|]. constructor; [done|by apply Hd].
    + destruct He as [-> |(x & s & d & Hx & Hs & (_ & Hed) & ->)]; [constructor|]. constructor; [by destruct Hx as [-> | ->]|].
      apply Forall_app_2; [|by apply Hd]. destruct Hs as [-> |[-> | ->]]; repeat constructor.
Qed.
Lemma number_byte_plain b : number_byte b = true -> plain b = true /\ b <> 44%Z /\ b <> 58%Z /\ b <> 110%Z /\ is_json_ws b = false.
Proof.
  unfold number_byte. rewrite orb_true_iff. intros [Hb|Hb].
  - unfold is_ascii_digit in Hb. apply andb_true_iff in Hb as [H1%Z.leb_le H2%Z.leb_le].
    unfold plain, is_opener, is_closer, is_json_ws. rewrite !andb_true_iff, !negb_true_iff, !orb_false_iff, !Z.eqb_neq. lia.
  - apply existsb_exists in Hb as (x & Hin & ->%Z.eqb_eq). repeat (destruct Hin as [<-|Hin]; [done|]). done.
Qed.
Lemma scalar_bytes t : ScalarText t -> quoted_text t \/ forallb plain t = true /\ Forall (fun b => b <> 44 /\ b <> 58)%Z t.
Proof.
  intros [-> |[-> |[-> |[Hn|Hs]]]]; [right; split; [done|repeat constructor; done]..| |left; by apply string_quotes].
  right. apply number_bytes in Hn. split.
  - apply forallb_forall. intros b Hb%list_elem_of_In. rewrite Forall_forall in Hn. by apply number_byte_plain, Hn.
  - eapply Forall_impl; [exact Hn|]. intros b Hb. apply number_byte_plain in Hb. naive_solver.
Qed.

(** ** Lists of members and items *)

Lemma blank_app a b : blank a -> blank b -> blank (a ++ b).
Proof. apply Forall_app_2. Qed.
Lemma blank_plain w : blank w -> forallb plain w = true.
Proof.
  intros Hw. apply forallb_forall. intros b Hb%list_elem_of_In. unfold blank in Hw. rewrite Forall_forall in Hw.
  specialize (Hw b Hb). cbn in Hw. unfold is_json_ws in Hw. rewrite !orb_true_iff, !Z.eqb_eq in Hw. by destruct Hw as [[[-> | ->] | ->] | ->].
Qed.
(** Appended lists, to the right. *)
Ltac flat := repeat first [rewrite <- app_assoc | progress cbn [app]].
Lemma join_next sep (x y : bytes) l : join_sep sep (x :: y :: l) = x ++ sep ++ join_sep sep (y :: l).
Proof. done. Qed.
(** Members one after the other, commas between them and blanks around; and items. *)
Lemma members_joined pad gap sep post ms : blank pad -> blank gap -> blank sep -> blank post ->
  Forall (fun m => StringText m.1 /\ ValueText m.2) ms -> ms <> [] -> forall lead, blank lead ->
  MembersText (lead ++ join_sep (44%Z :: sep) ((fun m => pad ++ m.1 ++ 58%Z :: gap ++ m.2) <$> ms) ++ post) ms.
Proof.
  intros Hpad Hgap Hsep Hpost. induction 1 as [|[n v] ms [Hn Hv] Hms IH]; [done|]. intros _ lead Hlead. cbn [fst snd] in Hn, Hv. destruct ms as [|m ms].
  - cbn [fmap list_fmap join_sep fst snd]. replace (lead ++ (pad ++ n ++ 58%Z :: gap ++ v) ++ post) with ((lead ++ pad) ++ n ++ [] ++ 58%Z :: gap ++ v ++ post)
      by (by flat).
    apply members_last; try done; [by apply blank_app|constructor].
  - specialize (IH ltac:(done) sep Hsep). rewrite !fmap_cons in *. rewrite join_next. cbn [fst snd]. revert IH. generalize (join_sep (44%Z :: sep) ((pad ++ m.1 ++ 58%Z :: gap ++ m.2) :: ((fun m => pad ++ m.1 ++ 58%Z :: gap ++ m.2) <$> ms))).
    intros rest IH. replace (lead ++ _ ++ post) with ((lead ++ pad) ++ n ++ [] ++ 58%Z :: gap ++ v ++ [] ++ 44%Z :: (sep ++ rest ++ post))
      by (by flat).
    apply members_more; try done; [by apply blank_app|constructor|constructor].
Qed.
Lemma items_joined pad sep post vs : blank pad -> blank sep -> blank post -> Forall ValueText vs -> vs <> [] -> forall lead, blank lead ->
  ItemsText (lead ++ join_sep (44%Z :: sep) ((fun v => pad ++ v) <$> vs) ++ post).
Proof.
  intros Hpad Hsep Hpost. induction 1 as [|v vs Hv Hvs IH]; [done|]. intros _ lead Hlead. destruct vs as [|v' vs].
  - change (ItemsText (lead ++ (pad ++ v) ++ post)). replace (lead ++ (pad ++ v) ++ post) with ((lead ++ pad) ++ v ++ post) by (by rewrite <- !app_assoc).
    apply items_last; [by apply blank_app|done..].
  - specialize (IH ltac:(done) sep Hsep). rewrite !fmap_cons in *. rewrite join_next. revert IH. generalize (join_sep (44%Z :: sep) ((pad ++ v') :: ((fun v => pad ++ v) <$> vs))).
    intros rest IH. replace (lead ++ _ ++ post) with ((lead ++ pad) ++ v ++ [] ++ 44%Z :: (sep ++ rest ++ post)) by (by flat).
    apply items_more; [by apply blank_app|done|constructor|done].
Qed.

(** A value is a scalar or a text between brackets. *)
Definition bracketed (v : bytes) : Prop := exists o c k x, is_opener o = true /\ is_closer c = true /\ Inside k x /\ v = o :: x ++ [c].
Lemma shape_inside v : ScalarText v \/ bracketed v -> exists k, Inside k v.
Proof.
  intros [Hs|(o & c & k & x & Ho & Hc & Hx & ->)]; [exists 0|by exists (S k); apply inside_group_only].
  apply scalar_bytes in Hs as [(s & Hs & ->)|[Hp _]]; [apply inside_string; [done|apply inside_end]|by apply inside_plain].
Qed.
Lemma inside_two k1 k2 a b : Inside k1 a -> Inside k2 b -> Inside (k1 + k2) (a ++ b).
Proof. intros Ha Hb. apply inside_app; (eapply inside_more; [eassumption|lia]). Qed.
Lemma string_shape n : StringText n -> ScalarText n.
Proof. intros H. by repeat right. Qed.
Lemma value_shape v : ValueText v -> ScalarText v \/ bracketed v.
Proof.
  revert v. enough ((forall v, ValueText v -> ScalarText v \/ bracketed v) /\ (forall t, ItemsText t -> exists k, Inside k t)
    /\ (forall t ms, MembersText t ms -> exists k, Inside k t)) as [H _] by exact H.
  assert (Hb : forall w, blank w -> Inside 0 w) by (intros w Hw; by apply inside_plain, blank_plain).
  assert (Hp : forall b, plain b = true -> Inside 0 [b]) by (intros b Hp; apply inside_plain; cbn; by rewrite Hp).
  apply json_text_ind.
  - by left.
  - intros w Hw. right. exists 91%Z, 93%Z, 0, w. repeat split; by try apply Hb.
  - intros t _ [k Hk]. right. by exists 91%Z, 93%Z, k, t.
  - intros w Hw. right. exists 123%Z, 125%Z, 0, w. repeat split; by try apply Hb.
  - intros t ms _ [k Hk]. right. by exists 123%Z, 125%Z, k, t.
  - intros w1 v w2 H1 _ [k Hk]%shape_inside H2. eexists. apply inside_two; [by apply Hb|]. apply inside_two; [done|by apply Hb].
  - intros w1 v w2 t H1 _ [k Hk]%shape_inside H2 _ [k' Hk']. eexists. change (44%Z :: t) with ([44%Z] ++ t).
    do 3 (apply inside_two; [first [eassumption|by apply Hb]|]). apply inside_two; [by apply Hp|done].
  - intros w1 n w2 w3 v w4 H1 Hn H2 H3 _ [k Hk]%shape_inside H4. destruct (shape_inside n (or_introl (string_shape n Hn))) as [k1 Hk1].
    eexists. change (58%Z :: w3 ++ v ++ w4) with ([58%Z] ++ w3 ++ v ++ w4).
    do 6 (apply inside_two; [first [eassumption|by apply Hb|by apply Hp]|]). by apply Hb.
  - intros w1 n w2 w3 v w4 t ms H1 Hn H2 H3 _ [k Hk]%shape_inside H4 _ [k' Hk']. destruct (shape_inside n (or_introl (string_shape n Hn))) as [k1 Hk1].
    eexists. change (58%Z :: w3 ++ v ++ w4 ++ 44%Z :: t) with ([58%Z] ++ w3 ++ v ++ w4 ++ [44%Z] ++ t).
    do 8 (apply inside_two; [first [eassumption|by apply Hb|by apply Hp]|]). done.
Qed.
(** Neither end of a value is white. *)
Definition tight (v : bytes) : Prop := v <> [] /\ dense v /\ dense (rev v).
Lemma tight_ends a x b : is_json_ws a = false -> is_json_ws b = false -> tight (a :: x ++ [b]).
Proof. intros Ha Hb. split; [done|]. split; [done|]. rewrite app_comm_cons, rev_app_distr. done. Qed.
Lemma value_tight v : ValueText v -> tight v.
Proof.
  intros [Hs|(o & c & k & x & Ho & Hc & _ & ->)]%value_shape.
  - destruct Hs as [-> |[-> |[-> |[Hn|Hs]]]]; [by split..| |].
    + pose proof (number_bytes v Hn) as Hb. assert (v <> []) as Hv.
      { destruct Hn as (sg & w & f & e & -> & _ & [Hw _] & _). destruct sg, w; done. }
      assert (Hd : forall x, Forall (fun b => number_byte b = true) x -> dense x) by (intros [|b x] Hx; [done|]; inversion Hx; subst; by apply number_byte_plain).
      split; [done|]. split; apply Hd; [done|by apply Forall_rev].
    + destruct (string_quotes v Hs) as (q & _ & ->). by apply tight_ends.
  - unfold is_opener, is_closer in *. rewrite orb_true_iff, !Z.eqb_eq in Ho, Hc. apply tight_ends; [by destruct Ho as [-> | ->]|by destruct Hc as [-> | ->]].
Qed.

(** ** A small reader of objects *)


(** Up to a byte outside strings and brackets at which [stop] says so. *)
Section Reader.
Variable from_str : bytes -> bytes + bytes.
Fixpoint span (stop : Z -> bool) (n : Nesting) (s : bytes) : bytes * bytes :=
  match s with
  | [] => ([], [])
  | b :: rest =>
      if (ne_depth n =? 0) && negb (ne_in_string n) && stop b then ([], s)
      else let '(taken, after) := span stop (fst (nest n b)) rest in (b :: taken, after)
  end.
Definition no_ws (s : bytes) : bytes := drop (count_while is_json_ws s) s.
Definition trimmed (s : bytes) : bytes := rev (no_ws (rev (no_ws s))).
Fixpoint read_members (fuel : nat) (s : bytes) : option Obj :=
  match fuel with
  | O => None
  | S fuel =>
      let '(name, rest) := span (fun b => b =b 58) (MkNesting 0 false false) s in
      match from_str (trimmed name), rest with
      | inr key, _ :: rest =>
          let '(value, rest) := span (fun b => (b =b 44) || (b =b 125)) (MkNesting 0 false false) rest in
          match rest with
          | b :: rest =>
              if b =b 44 then match read_members fuel rest with Some obj => Some ((key, trimmed value) :: obj) | None => None end
              else match no_ws rest with [] => Some [(key, trimmed value)] | _ => None end
          | [] => None
          end
      | _, _ => None
      end
  end.
Definition read_object_text (s : bytes) : bytes + Obj :=
  match s with
  | b :: s =>
      if b =b 123 then
        if bytes_eqb (no_ws s) [125%Z] then inr []
        else match read_members (length s) s with Some obj => inr obj | None => inl (B "expected value") end
      else inl (B "expected value")
  | [] => inl (B "expected value")
  end.

(** It reads every text of the grammar. *)
Definition spans (stop : Z -> bool) (n : Nesting) (x : bytes) (n' : Nesting) : Prop :=
  forall rest, span stop n (x ++ rest) = (x ++ fst (span stop n' rest), snd (span stop n' rest)).
Lemma spans_end stop n : spans stop n [] n.
Proof. intros rest. cbn [app]. by destruct (span stop n rest). Qed.
Lemma spans_app stop n1 n2 n3 x y : spans stop n1 x n2 -> spans stop n2 y n3 -> spans stop n1 (x ++ y) n3.
Proof. intros Hx Hy rest. rewrite <- app_assoc, Hx, Hy. cbn. by rewrite app_assoc. Qed.
Lemma spans_byte stop n b n' : (ne_depth n =? 0) && negb (ne_in_string n) && stop b = false -> fst (nest n b) = n' -> spans stop n [b] n'.
Proof. intros Hs <- rest. cbn [app span]. rewrite Hs. by destruct (span stop (fst (nest n b)) rest). Qed.
Lemma spans_quoted stop d s : Quoted s -> spans stop (MkNesting d true false) (s ++ [DQUOTE]) (MkNesting d false false).
Proof.
  assert (Hin : forall e b, (d =? 0) && negb (ne_in_string (MkNesting d true e)) && stop b = false) by (intros; cbn; by rewrite andb_false_r).
  induction 1 as [|b t Hq Hb _ IH|b t _ IH].
  - apply spans_byte; [apply Hin|done].
  - change ((b :: t) ++ [DQUOTE]) with ([b] ++ t ++ [DQUOTE]). eapply spans_app; [apply spans_byte; [apply Hin|]|exact IH].
    unfold nest. cbn. by rewrite (proj2 (Z.eqb_neq _ _) Hq), (proj2 (Z.eqb_neq _ _) Hb).
  - change ((BACKSLASH :: b :: t) ++ [DQUOTE]) with ([BACKSLASH] ++ [b] ++ t ++ [DQUOTE]).
    eapply spans_app; [apply spans_byte; [apply Hin|reflexivity]|]. eapply spans_app; [apply spans_byte; [apply Hin|reflexivity]|exact IH].
Qed.
Lemma spans_inside stop k x : Inside k x -> forall d, spans stop (MkNesting (S d) false false) x (MkNesting (S d) false false).
Proof.
  induction 1 as [|k b t Hq Ho Hc _ IH|k s t Hs _ IH|k o c x t Ho Hc _ IHx _ IHt]; intros d; [apply spans_end| | |].
  - change (b :: t) with ([b] ++ t). eapply spans_app; [|apply IH]. apply spans_byte; [done|]. unfold nest. cbn [ne_in_string]. by rewrite (proj2 (Z.eqb_neq _ _) Hq), Ho, Hc.
  - change (DQUOTE :: s ++ DQUOTE :: t) with ([DQUOTE] ++ s ++ [DQUOTE] ++ t). rewrite (app_assoc s).
    eapply spans_app; [apply spans_byte; [done|reflexivity]|]. eapply spans_app; [by apply spans_quoted|apply IH].
  - destruct (opener_facts o Ho) as [Ho1 Ho2], (closer_facts c Hc) as [Hc1 Hc2]. change (o :: x ++ c :: t) with ([o] ++ x ++ [c] ++ t).
    apply spans_app with (MkNesting (S (S d)) false false).
    { apply spans_byte; [done|]. unfold nest. cbn [ne_in_string ne_depth ne_escaped]. by rewrite Ho1, Ho. }
    eapply spans_app; [apply IHx|]. eapply spans_app; [|apply IHt]. apply spans_byte; [done|]. unfold nest. cbn [ne_in_string ne_depth ne_escaped]. by rewrite Hc1, Hc2, Hc.
Qed.
Definition top : Nesting := MkNesting 0 false false.
Lemma spans_plain stop x : Forall (fun b => plain b = true /\ stop b = false) x -> spans stop top x top.
Proof.
  induction 1 as [|b x [Hb Hs] _ IH]; [apply spans_end|]. change (b :: x) with ([b] ++ x). eapply spans_app; [|exact IH].
  unfold plain in Hb. rewrite !andb_true_iff, !negb_true_iff in Hb. destruct Hb as [[Hq Ho] Hc].
  apply spans_byte; [exact Hs|]. unfold nest. cbn [ne_in_string top]. by rewrite Hq, Ho, Hc.
Qed.
Lemma spans_string stop t : stop DQUOTE = false -> quoted_text t -> spans stop top t top.
Proof.
  intros Hs (s & Hq & ->). change (DQUOTE :: s ++ [DQUOTE]) with ([DQUOTE] ++ s ++ [DQUOTE]). eapply spans_app; [|by apply spans_quoted]. by apply spans_byte.
Qed.
Lemma spans_group stop o c k x : stop o = false -> is_opener o = true -> is_closer c = true -> Inside k x -> spans stop top (o :: x ++ [c]) top.
Proof.
  intros Hs Ho Hc Hx. destruct (opener_facts o Ho) as [Ho1 Ho2], (closer_facts c Hc) as [Hc1 Hc2]. change (o :: x ++ [c]) with ([o] ++ x ++ [c]).
  apply spans_app with (MkNesting 1 false false). { apply spans_byte; [exact Hs|]. unfold nest. cbn [ne_in_string ne_depth ne_escaped top]. by rewrite Ho1, Ho. }
  eapply spans_app; [by eapply spans_inside|]. apply spans_byte; [done|]. unfold nest. cbn [ne_in_string ne_depth ne_escaped]. by rewrite Hc1, Hc2, Hc.
Qed.
Definition ends_value (b : Z) : bool := (b =b 44) || (b =b 125).
Lemma spans_value v : ValueText v -> spans ends_value top v top.
Proof.
  intros [Hs|(o & c & k & x & Ho & Hc & Hx & ->)]%value_shape.
  - destruct (scalar_bytes v Hs) as [Hq|[Hp Hn]]; [by apply spans_string|]. apply spans_plain. rewrite Forall_forall in *. intros b Hb.
    assert (plain b = true) as Hpb by (eapply forallb_forall in Hp; [exact Hp|by apply list_elem_of_In]). split; [done|].
    destruct (Hn b Hb) as [H44 _]. unfold ends_value. rewrite (proj2 (Z.eqb_neq _ _) H44). cbn.
    unfold plain, is_closer in Hpb. rewrite !andb_true_iff, !negb_true_iff, orb_false_iff in Hpb. tauto.
  - eapply spans_group; [|done..|exact Hx]. unfold is_opener in Ho. rewrite orb_true_iff, !Z.eqb_eq in Ho. by destruct Ho as [-> | ->].
Qed.
Lemma spans_blank stop w : (forall b, is_json_ws b = true -> stop b = false) -> blank w -> spans stop top w top.
Proof.
  intros Hs Hw. apply spans_plain. pose proof (blank_plain w Hw) as Hp. unfold blank in Hw. rewrite Forall_forall in *. intros b Hb.
  split; [|by apply Hs, Hw]. eapply forallb_forall in Hp; [exact Hp|by apply list_elem_of_In].
Qed.
Lemma ws_stops b : is_json_ws b = true -> (b =b 58) = false /\ ends_value b = false.
Proof. unfold is_json_ws. rewrite !orb_true_iff, !Z.eqb_eq. by intros [[[-> | ->] | ->] | ->]. Qed.
Lemma no_ws_blank w x : blank w -> dense x -> no_ws (w ++ x) = x.
Proof.
  intros Hw Hx. unfold no_ws. induction Hw as [|b w Hb Hw IH]; cbn; [|by rewrite Hb].
  destruct x as [|b x]; [done|]. cbn in *. by rewrite Hx.
Qed.
Lemma trimmed_blank w1 v w2 : blank w1 -> blank w2 -> tight v -> trimmed (w1 ++ v ++ w2) = v.
Proof.
  intros H1 H2 (Hv & Hd & Hr). unfold trimmed. rewrite no_ws_blank; [|done|by destruct v]. rewrite rev_app_distr, no_ws_blank; [by rewrite rev_involutive| |done].
  unfold blank in *. by apply Forall_rev.
Qed.
Lemma span_stops stop x b rest : spans stop top x top -> stop b = true -> span stop top (x ++ b :: rest) = (x, b :: rest).
Proof. intros Hx Hb. rewrite Hx. cbn. rewrite Hb. cbn. by rewrite app_nil_r. Qed.
Lemma span_name w1 n w2 rest : blank w1 -> StringText n -> blank w2 -> span (fun b => b =b 58) top (w1 ++ n ++ w2 ++ 58%Z :: rest) = (w1 ++ n ++ w2, 58%Z :: rest).
Proof.
  intros H1 Hn H2. replace (w1 ++ n ++ w2 ++ 58%Z :: rest) with ((w1 ++ n ++ w2) ++ 58%Z :: rest) by (by flat). apply span_stops; [|done].
  eapply spans_app; [apply spans_blank; [by intros b []%ws_stops|done]|]. eapply spans_app; [by apply spans_string; [|apply string_quotes]|].
  apply spans_blank; [by intros b []%ws_stops|done].
Qed.
Lemma span_value w1 v w2 b rest : blank w1 -> ValueText v -> blank w2 -> ends_value b = true -> span ends_value top (w1 ++ v ++ w2 ++ b :: rest) = (w1 ++ v ++ w2, b :: rest).
Proof.
  intros H1 Hv H2 Hb. replace (w1 ++ v ++ w2 ++ b :: rest) with ((w1 ++ v ++ w2) ++ b :: rest) by (by flat). apply span_stops; [|done].
  eapply spans_app; [apply spans_blank; [by intros c []%ws_stops|done]|]. eapply spans_app; [by apply spans_value|].
  apply spans_blank; [by intros c []%ws_stops|done].
Qed.
Definition read_as (m kv : bytes * bytes) : Prop := from_str m.1 = inr kv.1 /\ kv.2 = m.2.
Lemma read_members_text t ms : MembersText t ms -> forall obj fuel, Forall2 read_as ms obj -> length ms <= fuel -> read_members fuel (t ++ [125%Z]) = Some obj.
Proof.
  induction 1 as [w1 n w2 w3 v w4 H1 Hn H2 H3 Hv H4|w1 n w2 w3 v w4 t ms H1 Hn H2 H3 Hv H4 _ IH]; intros obj fuel Ho Hf;
    inversion Ho as [|? [key raw] ? obj' [Hk Hr] Ho']; subst; cbn in Hk, Hr; subst raw; (destruct fuel as [|fuel]; [cbn in Hf; lia|]).
  all: pose proof (value_tight v Hv) as Htv; pose proof (value_tight n (value_scalar n (string_shape n Hn))) as Htn.
  - inversion Ho'; subst. replace ((w1 ++ n ++ w2 ++ 58%Z :: w3 ++ v ++ w4) ++ [125%Z]) with (w1 ++ n ++ w2 ++ 58%Z :: w3 ++ v ++ w4 ++ [125%Z]) by (by flat).
    cbn [read_members]. fold top. rewrite span_name by done. rewrite trimmed_blank, Hk by done.
    change (fun b => (b =b 44) || (b =b 125)) with ends_value. rewrite span_value by done. by rewrite trimmed_blank by done.
  - replace ((w1 ++ n ++ w2 ++ 58%Z :: w3 ++ v ++ w4 ++ 44%Z :: t) ++ [125%Z]) with (w1 ++ n ++ w2 ++ 58%Z :: w3 ++ v ++ w4 ++ 44%Z :: (t ++ [125%Z])) by (by flat).
    cbn [read_members]. fold top. rewrite span_name by done. rewrite trimmed_blank, Hk by done.
    change (fun b => (b =b 44) || (b =b 125)) with ends_value. rewrite span_value by done. rewrite trimmed_blank by done.
    cbn [Z.eqb]. rewrite (IH obj' fuel) by (done || (cbn in Hf; lia)). done.
Qed.
Lemma members_longer t ms : MembersText t ms -> length ms <= length t /\ no_ws (t ++ [125%Z]) <> [125%Z].
Proof.
  assert (Hfirst : forall w1 n x, blank w1 -> StringText n -> no_ws (w1 ++ n ++ x) <> [125%Z]).
  { intros w1 n x H1 Hn. destruct (string_quotes n Hn) as (q & _ & ->). cbn. rewrite no_ws_blank by done. by intros [=]. }
  induction 1 as [w1 n w2 w3 v w4 H1 Hn H2 H3 Hv H4|w1 n w2 w3 v w4 t ms H1 Hn H2 H3 Hv H4 _ [IH _]]; (split; [rewrite !length_app; cbn; rewrite ?length_app; cbn; lia|]).
  - replace ((w1 ++ n ++ w2 ++ 58%Z :: w3 ++ v ++ w4) ++ [125%Z]) with (w1 ++ n ++ w2 ++ 58%Z :: w3 ++ v ++ w4 ++ [125%Z]) by (by flat). by apply Hfirst.
  - replace ((w1 ++ n ++ w2 ++ 58%Z :: w3 ++ v ++ w4 ++ 44%Z :: t) ++ [125%Z]) with (w1 ++ n ++ w2 ++ 58%Z :: w3 ++ v ++ w4 ++ 44%Z :: (t ++ [125%Z])) by (by flat). by apply Hfirst.
Qed.
Theorem object_text_is_read t ms obj : ObjectText t ms -> Forall2 read_as ms obj -> read_object_text t = inr obj.
Proof.
  intros [w Hw|t' ms' Ht] Ho.
  - inversion Ho; subst. cbn [read_object_text]. change (123 =b 123) with true. cbv iota. rewrite no_ws_blank by done. by rewrite (proj2 (bytes_eqb_eq _ _) eq_refl).
  - destruct (members_longer t' ms' Ht) as [Hl Hn]. cbn [read_object_text]. change (123 =b 123) with true. cbv iota.
    destruct (bytes_eqb (no_ws (t' ++ [125%Z])) [125%Z]) eqn:E; [by apply bytes_eqb_eq in E|].
    rewrite (read_members_text t' ms' Ht obj) by (done || (rewrite length_app; lia)). done.
Qed.
End Reader.
