(* ===== verification/JsonTrip.v ===== *)
(** * JsonTrip: a JSON file the exporter of [Plan] and [Writers] has written is one the source of [JsonSource]
    reads, row for row. *)
From stdpp Require Import gmap.
From S2P Require Import Prelude Bytes Text Scan Value Json Batch Plan PlanSpec PlanParts ValueSpec Writers WritersSpec JsonSource JsonSourceSpec JsonText.
#[local] Open Scope nat_scope.
#[local] Set Warnings "-register-all".

(** ** Texts between brackets *)

Lemma inside_join k sep xs : Inside k sep -> Forall (Inside k) xs -> Inside k (join_sep sep xs).
Proof.
  intros Hs. induction 1 as [|x xs Hx Hxs IH]; [apply inside_end|]. cbn. destruct xs; [done|]. apply inside_app; [done|]. by apply inside_app.
Qed.
(** Two spaces after every line feed. *)
Definition shift (x : bytes) : bytes := mjoin ((fun b => if b =b LF then [LF; SP; SP] else [b]) <$> x).
Lemma shift_app a b : shift (a ++ b) = shift a ++ shift b.
Proof. unfold shift. by rewrite fmap_app, join_app. Qed.
Lemma shift_cons b x : shift (b :: x) = (if b =b LF then [LF; SP; SP] else [b]) ++ shift x.
Proof. done. Qed.
Lemma quoted_shift s : Quoted s -> Quoted (shift s).
Proof.
  induction 1 as [|b t Hq Hb _ IH|b t _ IH]; [constructor| |].
  - rewrite shift_cons. destruct (b =b LF); cbn [app]; [do 3 (apply quoted_byte; [done..|]); exact IH|by apply quoted_byte].
  - rewrite shift_cons, shift_cons. change (BACKSLASH =b LF) with false. destruct (b =b LF); cbn [app]; apply quoted_escape; [|done]. by do 2 (apply quoted_byte; [done..|]).
Qed.
Lemma inside_shift k x : Inside k x -> Inside k (shift x).
Proof.
  induction 1 as [|k b t Hq Ho Hc _ IH|k s t Hs _ IH|k o c x t Ho Hc Hx IHx _ IH]; [apply inside_end| | |].
  - rewrite shift_cons. apply inside_app; [|done]. destruct (b =b LF); [by apply inside_plain|]. apply inside_byte; [done..|apply inside_end].
  - rewrite shift_cons, shift_app, shift_cons. cbn. apply inside_string; [by apply quoted_shift|done].
  - rewrite shift_cons, shift_app, shift_cons. assert ((o =b LF) = false) as -> by (unfold is_opener in Ho; rewrite orb_true_iff, !Z.eqb_eq in Ho; by destruct Ho as [-> | ->]).
    assert ((c =b LF) = false) as -> by (unfold is_closer in Hc; rewrite orb_true_iff, !Z.eqb_eq in Hc; by destruct Hc as [-> | ->]). cbn [app]. by apply inside_group.
Qed.
Lemma split_shift x c : (c =b LF) = false ->
  exists line lines, split_inclusive (x ++ [c]) = line :: lines /\ line ++ mjoin ((fun line => B "  " ++ line) <$> lines) = shift x ++ [c].
Proof.
  intros Hc. induction x as [|b x (line & lines & Hs & Hl)].
  - exists [c], []. cbn. by rewrite Hc.
  - cbn [app split_inclusive]. rewrite shift_cons, <- app_assoc, <- Hl, Hs. destruct (b =b LF) eqn:E; do 2 eexists; (split; [reflexivity|]); [|done]. apply Z.eqb_eq in E as ->. done.
Qed.
Lemma indented_shift x c : (c =b LF) = false -> indented (x ++ [c]) = [SP; SP] ++ shift x ++ [c].
Proof. intros Hc. destruct (split_shift x c Hc) as (line & lines & Hs & Hl). unfold indented. rewrite Hs, <- Hl. done. Qed.

(** Nothing of the grammar but white space has a line feed, so the text says the same shifted. *)
Lemma shift_same x : Forall (fun b => b <> LF) x -> shift x = x.
Proof. induction 1 as [|b x Hb _ IH]; [done|]. rewrite shift_cons, IH. by rewrite (proj2 (Z.eqb_neq _ _) Hb). Qed.
Lemma shift_blank w : blank w -> blank (shift w).
Proof.
  induction 1 as [|b w Hb _ IH]; [constructor|]. rewrite shift_cons. apply blank_app; [|exact IH]. destruct (b =b LF); repeat constructor; done.
Qed.
Lemma chars_no_lf s : StringChars s -> Forall (fun b => b <> LF) s.
Proof.
  induction 1 as [|b t Hb _ _ _ IH|b t Hb _ IH|h1 h2 h3 h4 t Hh _ IH]; [constructor|constructor; [by intros ->|done]| |].
  - constructor; [done|]. constructor; [|done]. intros ->. by repeat destruct Hb as [Hb|Hb].
  - cbn in Hh. rewrite !andb_true_iff in Hh. destruct Hh as (H1 & H2 & H3 & H4 & _).
    repeat (constructor; [by first [done|intros ->]|]). done.
Qed.
Lemma string_shift n : StringText n -> shift n = n.
Proof.
  intros (s & Hs & ->). apply shift_same. constructor; [done|]. apply Forall_app_2; [by apply chars_no_lf|by repeat constructor].
Qed.
Lemma scalar_shift v : ScalarText v -> shift v = v.
Proof.
  intros [-> |[-> |[-> |[Hn|Hs]]]]; [done..| |by apply string_shift].
  apply shift_same. eapply Forall_impl; [by apply number_bytes|]. intros b Hb -> . discriminate Hb.
Qed.
Definition shifted (m : bytes * bytes) : bytes * bytes := (m.1, shift m.2).
Lemma shift_grammar : (forall v, ValueText v -> ValueText (shift v)) /\ (forall t, ItemsText t -> ItemsText (shift t))
  /\ (forall t ms, MembersText t ms -> MembersText (shift t) (shifted <$> ms)).
Proof.
  apply json_text_ind.
  - intros t Ht. rewrite scalar_shift by done. by apply value_scalar.
  - intros w Hw. rewrite shift_cons, shift_app. apply (value_no_items (shift w)). by apply shift_blank.
  - intros t _ Ht. rewrite shift_cons, shift_app. by apply (value_items (shift t)).
  - intros w Hw. rewrite shift_cons, shift_app. apply (value_no_members (shift w)). by apply shift_blank.
  - intros t ms _ Ht. rewrite shift_cons, shift_app. by apply (value_members (shift t) (shifted <$> ms)).
  - intros w1 v w2 H1 _ Hv H2. rewrite !shift_app. by apply items_last; [apply shift_blank| |apply shift_blank].
  - intros w1 v w2 t H1 _ Hv H2 _ Ht. rewrite !shift_app, shift_cons. by apply items_more; [apply shift_blank| |apply shift_blank|].
  - intros w1 n w2 w3 v w4 H1 Hn H2 H3 _ Hv H4. rewrite !shift_app, shift_cons, !shift_app, (string_shift n) by done.
    apply (members_last (shift w1) n (shift w2) (shift w3) (shift v) (shift w4)); by try apply shift_blank.
  - intros w1 n w2 w3 v w4 t ms H1 Hn H2 H3 _ Hv H4 _ Ht. rewrite !shift_app, shift_cons, !shift_app, shift_cons, (string_shift n), fmap_cons by done.
    change (58 =b LF) with false. change (44 =b LF) with false.
    apply (members_more (shift w1) n (shift w2) (shift w3) (shift v) (shift w4) (shift t) (shifted <$> ms)); by try apply shift_blank.
Qed.

(** ** Printed objects *)

Section Printed.
Context `{Float}.
Variable json_string : bytes -> bytes.
Variable json_scalar : Json -> bytes.
Definition is_scalar (v : Json) : bool := match v with JArray _ | JObject _ => false | _ => true end.
(** An induction principle for JSON values. *)
Fixpoint json_induction (P : Json -> Prop) (Hs : forall v, is_scalar v = true -> P v) (Ha : forall items, Forall P items -> P (JArray items))
  (Ho : forall entries, Forall (fun e => P (snd e)) entries -> P (JObject entries)) (v : Json) {struct v} : P v :=
  match v with
  | JArray items =>
      Ha items ((fix go (l : list Json) : Forall P l :=
                   match l with [] => @List.Forall_nil Json P | x :: l => @List.Forall_cons Json P x l (json_induction P Hs Ha Ho x) (go l) end) items)
  | JObject entries =>
      Ho entries ((fix go (l : list (bytes * Json)) : Forall (fun e => P (snd e)) l :=
                     match l with [] => @List.Forall_nil _ (fun e => P (snd e))
                     | e :: l => @List.Forall_cons _ (fun e => P (snd e)) e l (json_induction P Hs Ha Ho (snd e)) (go l) end) entries)
  | JNull => Hs JNull eq_refl | JBool b => Hs (JBool b) eq_refl | JPosInt n => Hs (JPosInt n) eq_refl | JNegInt n => Hs (JNegInt n) eq_refl
  | JFloat f => Hs (JFloat f) eq_refl | JString t => Hs (JString t) eq_refl
  end.
(** The brackets a value is printed in. *)
Fixpoint json_depth (v : Json) : nat :=
  match v with
  | JArray items => S (max_list (map json_depth items))
  | JObject entries => S (max_list (map (fun e => json_depth (snd e)) entries))
  | _ => 0
  end.
(** What is known of serde_json's printing: a string and a scalar are printed as JSON says. *)
Hypothesis string_text : forall s, StringText (json_string s).
Hypothesis scalar_text : forall v, is_scalar v = true -> ScalarText (json_scalar v).
Lemma string_quoted s : quoted_text (json_string s).
Proof. apply string_quotes, string_text. Qed.
Lemma scalar_plain v : is_scalar v = true -> quoted_text (json_scalar v) \/ forallb plain (json_scalar v) = true.
Proof. intros [Hq|[Hp _]]%scalar_text%scalar_bytes; [by left|by right]. Qed.
Lemma inside_quoted k text : quoted_text text -> Inside k text.
Proof. intros (s & Hs & ->). apply inside_string; [done|apply inside_end]. Qed.
Lemma inside_scalar k v : is_scalar v = true -> Inside k (json_scalar v).
Proof. intros Hv. destruct (scalar_plain v Hv) as [Hq|Hp]; [by apply inside_quoted|by apply inside_plain]. Qed.
Lemma max_list_le (l : list nat) k : max_list l <= k -> Forall (fun n => n <= k) l.
Proof. induction l as [|n l IH]; intros Hl; constructor; cbn in *; [lia|apply IH; lia]. Qed.
(** A member, its name before it. *)
Lemma inside_member k key text : Inside k text -> Inside k (json_string key ++ B ": " ++ text).
Proof. intros Ht. apply inside_app; [apply inside_quoted, string_quoted|]. apply inside_app; [by apply inside_plain|done]. Qed.
Lemma compact_inside v : forall k, json_depth v <= k -> Inside k (compact json_string json_scalar v).
Proof.
  induction v as [v Hv|items IH|entries IH] using json_induction; intros k Hk.
  - destruct v; try done; by apply inside_scalar.
  - destruct k as [|k]; [cbn in Hk; lia|]. cbn [compact json_depth] in *. apply inside_group_only; [done..|]. apply inside_join; [by apply inside_plain|].
    apply le_S_n, max_list_le in Hk. induction IH as [|x items Hx _ IH']; inversion Hk; subst; constructor; [by apply Hx|by apply IH'].
  - destruct k as [|k]; [cbn in Hk; lia|]. cbn [compact json_depth] in *. apply inside_group_only; [done..|]. apply inside_join; [by apply inside_plain|].
    apply le_S_n, max_list_le in Hk. induction IH as [|x entries Hx _ IH']; inversion Hk; subst; constructor; [by apply inside_member, Hx|by apply IH'].
Qed.
Lemma inside_pad k n : Inside k (replicate n SP).
Proof. apply inside_plain. induction n; done. Qed.
(** A block of lines between brackets. *)
Lemma inside_block k o c j n : is_opener o = true -> is_closer c = true -> Inside k j -> Inside (S k) ([o] ++ [LF] ++ j ++ [LF] ++ replicate n SP ++ [c]).
Proof.
  intros Ho Hc Hj. replace ([o] ++ [LF] ++ j ++ [LF] ++ replicate n SP ++ [c]) with (o :: ([LF] ++ j ++ [LF] ++ replicate n SP) ++ [c]) by (cbn; by rewrite <- !app_assoc).
  apply inside_group_only; [done..|]. repeat apply inside_app; [by apply inside_plain|done|by apply inside_plain|apply inside_pad].
Qed.
Lemma inside_map {A} k (f : A -> bytes) (depth : A -> nat) l : Forall (fun x => forall k, depth x <= k -> Inside k (f x)) l -> max_list (map depth l) <= k -> Forall (Inside k) (map f l).
Proof. intros Hl Hk%max_list_le. induction Hl as [|x l Hx _ IH]; inversion Hk; subst; constructor; [by apply Hx|by apply IH]. Qed.
Lemma pretty_inside indent v : forall k level, json_depth v <= k -> Inside k (pretty json_string json_scalar indent level v).
Proof.
  induction v as [v Hv|items IH|entries IH] using json_induction; intros k level Hk.
  - destruct v; try done; by apply inside_scalar.
  - destruct k as [|k]; [cbn in Hk; lia|]. apply le_S_n in Hk. assert (Forall (Inside k) (map (fun item => replicate (indent * S level) SP ++ pretty json_string json_scalar indent (S level) item) items)) as Hi.
    { apply inside_map with json_depth; [|done]. eapply Forall_impl; [exact IH|]. intros x Hx k' Hk'. apply inside_app; [apply inside_pad|by apply Hx]. }
    destruct items as [|x items]; [by apply (inside_group_only k 91 93 []); [..|apply inside_end]|]. apply (inside_block k 91 93); [done..|]. apply inside_join; [by apply inside_plain|exact Hi].
  - destruct k as [|k]; [cbn in Hk; lia|]. apply le_S_n in Hk.
    assert (Forall (Inside k) (map (fun e => replicate (indent * S level) SP ++ json_string (fst e) ++ B ": " ++ pretty json_string json_scalar indent (S level) (snd e)) entries)) as Hi.
    { apply inside_map with (fun e => json_depth (snd e)); [|done]. eapply Forall_impl; [exact IH|]. intros x Hx k' Hk'. apply inside_app; [apply inside_pad|by apply inside_member, Hx]. }
    destruct entries as [|x entries]; [by apply (inside_group_only k 123 125 []); [..|apply inside_end]|]. apply (inside_block k 123 125); [done..|]. apply inside_join; [by apply inside_plain|exact Hi].
Qed.
(** The text an object of a file is written as, from its brace to its brace. *)
Definition object_text (lines : bool) (indent : nat) (entries : list (bytes * Json)) : bytes :=
  if lines then compact json_string json_scalar (JObject entries) else drop 2 (indented (pretty json_string json_scalar indent 0 (JObject entries))).
Lemma compact_object k entries : json_depth (JObject entries) <= S k -> exists x, compact json_string json_scalar (JObject entries) = 123%Z :: x ++ [125%Z] /\ Inside k x.
Proof.
  intros Hk%le_S_n. eexists. split; [reflexivity|]. apply inside_join; [by apply inside_plain|]. apply inside_map with (fun e => json_depth (snd e)); [|done].
  apply Forall_forall. intros e _ k' Hk'. by apply inside_member, compact_inside.
Qed.
Lemma pretty_object k indent level entries : json_depth (JObject entries) <= S k ->
  exists x, pretty json_string json_scalar indent level (JObject entries) = 123%Z :: x ++ [125%Z] /\ Inside k x.
Proof.
  intros Hk%le_S_n. set (f := fun e => replicate (indent * S level) SP ++ json_string (fst e) ++ B ": " ++ pretty json_string json_scalar indent (S level) (snd e)).
  assert (Forall (Inside k) (map f entries)) as Hi.
  { apply inside_map with (fun e => json_depth (snd e)); [|done]. apply Forall_forall. intros e _ k' Hk'. apply inside_app; [apply inside_pad|by apply inside_member, pretty_inside]. }
  destruct entries as [|e entries]; [exists []; split; [done|apply inside_end]|].
  exists ([LF] ++ join_sep [44%Z; LF] (map f (e :: entries)) ++ [LF] ++ replicate (indent * level) SP). split.
  - change (pretty json_string json_scalar indent level (JObject (e :: entries)))
      with ([123%Z] ++ [LF] ++ join_sep [44%Z; LF] (map f (e :: entries)) ++ [LF] ++ replicate (indent * level) SP ++ [125%Z]). cbn [app]. by rewrite <- !app_assoc.
  - repeat apply inside_app; [by apply inside_plain| |by apply inside_plain|apply inside_pad]. apply inside_join; [by apply inside_plain|exact Hi].
Qed.
Lemma indented_object indent entries : indented (pretty json_string json_scalar indent 0 (JObject entries)) = [SP; SP] ++ object_text false indent entries.
Proof.
  destruct (pretty_object (json_depth (JObject entries)) indent 0 entries) as (x & Hx & _); [lia|]. unfold object_text. rewrite Hx, app_comm_cons, indented_shift by done. done.
Qed.
Lemma object_framable limits lines indent entries : json_depth (JObject entries) <= MAX_DEPTH ->
  (Z.of_nat (length (object_text lines indent entries)) <= max_element_bytes limits)%Z -> Framable limits (object_text lines indent entries).
Proof.
  intros Hd Hs. split; [|done]. destruct lines; cbn [object_text].
  - by apply (compact_object (pred MAX_DEPTH)).
  - destruct (pretty_object (pred MAX_DEPTH) indent 0 entries Hd) as (x & -> & Hx). rewrite app_comm_cons, indented_shift by done. exists (shift x). split; [done|by apply inside_shift].
Qed.

(** ** Printed objects are JSON *)

Lemma blank_pad n : blank (replicate n SP).
Proof. unfold blank. by apply Forall_replicate. Qed.
Definition compact_members (entries : list (bytes * Json)) : list (bytes * bytes) :=
  (fun e => (json_string e.1, compact json_string json_scalar e.2)) <$> entries.
Lemma compact_object_text entries : Forall (fun e => ValueText (compact json_string json_scalar (snd e))) entries ->
  ObjectText (compact json_string json_scalar (JObject entries)) (compact_members entries).
Proof.
  intros He. destruct entries as [|e entries]; [apply (object_empty []); constructor|]. set (es := e :: entries) in *.
  apply (object_members _ (compact_members es)). pose proof (members_joined [] [SP] [SP] [] (compact_members es)) as Hj. rewrite app_nil_r in Hj.
  unfold compact_members in Hj. rewrite <- list_fmap_compose in Hj. apply Hj with (lead := []); try done; try (by repeat constructor).
  apply Forall_fmap. eapply Forall_impl; [exact He|]. intros x Hx. split; [apply string_text|exact Hx].
Qed.
Lemma compact_value v : ValueText (compact json_string json_scalar v).
Proof.
  induction v as [v Hv|items IH|entries IH] using json_induction.
  - destruct v; try done; by apply value_scalar, scalar_text.
  - destruct items as [|x items]; [apply (value_no_items []); constructor|]. apply (value_items (join_sep (B ", ") (map (compact json_string json_scalar) (x :: items)))).
    pose proof (items_joined [] [SP] [] (map (compact json_string json_scalar) (x :: items))) as Hj. rewrite list_fmap_id, app_nil_r in Hj.
    apply Hj with (lead := []); try done; try (by repeat constructor). by apply Forall_map.
  - by eapply object_value, compact_object_text.
Qed.
Definition pretty_members (indent level : nat) (entries : list (bytes * Json)) : list (bytes * bytes) :=
  (fun e => (json_string e.1, pretty json_string json_scalar indent level e.2)) <$> entries.
Lemma pretty_object_text indent level entries : Forall (fun e => ValueText (pretty json_string json_scalar indent (S level) (snd e))) entries ->
  ObjectText (pretty json_string json_scalar indent level (JObject entries)) (pretty_members indent (S level) entries).
Proof.
  intros He. destruct entries as [|e entries]; [apply (object_empty []); constructor|]. set (es := e :: entries) in *.
  pose proof (members_joined (replicate (indent * S level) SP) [SP] [LF] ([LF] ++ replicate (indent * level) SP) (pretty_members indent (S level) es)) as Hj.
  specialize (Hj (blank_pad _) ltac:(by repeat constructor) ltac:(by repeat constructor) ltac:(apply blank_app; [by repeat constructor|apply blank_pad])).
  unfold pretty_members in Hj at 3. rewrite <- list_fmap_compose in Hj.
  specialize (Hj ltac:(apply Forall_fmap; eapply Forall_impl; [exact He|]; intros y Hy; split; [apply string_text|apply Hy]) ltac:(done) [LF] ltac:(by repeat constructor)).
  apply object_members in Hj. revert Hj. cbn [app]. rewrite <- app_assoc, <- app_comm_cons. exact (fun H => H).
Qed.
Lemma pretty_value indent v : forall level, ValueText (pretty json_string json_scalar indent level v).
Proof.
  induction v as [v Hv|items IH|entries IH] using json_induction; intros level.
  - destruct v; try done; by apply value_scalar, scalar_text.
  - destruct items as [|x items]; [apply (value_no_items []); constructor|]. set (vs := x :: items) in *.
    set (f := pretty json_string json_scalar indent (S level)).
    pose proof (items_joined (replicate (indent * S level) SP) [LF] ([LF] ++ replicate (indent * level) SP) (f <$> vs)) as Hj.
    rewrite <- list_fmap_compose in Hj. specialize (Hj (blank_pad _) ltac:(by repeat constructor)). specialize (Hj ltac:(apply blank_app; [by repeat constructor|apply blank_pad])).
    specialize (Hj ltac:(apply Forall_fmap; eapply Forall_impl; [exact IH|]; intros y Hy; apply Hy) ltac:(done) [LF] ltac:(by repeat constructor)).
    apply value_items in Hj. revert Hj. cbn [app]. rewrite <- app_assoc, <- app_comm_cons. exact (fun H => H).
  - eapply object_value, pretty_object_text. eapply Forall_impl; [exact IH|]. intros e He. apply He.
Qed.
Definition opens (v : bytes) : Prop := exists c t, v = c :: t /\ is_opener c = true.
Lemma opens_shift v : opens v -> opens (shift v).
Proof.
  intros (c & t & -> & Hc). exists c, (shift t). split; [|done]. rewrite shift_cons.
  unfold is_opener in Hc. rewrite orb_true_iff, !Z.eqb_eq in Hc. by destruct Hc as [-> | ->].
Qed.
(** The member of an entry: its name, and its value, a scalar as it is printed. *)
Definition member_of (e : bytes * Json) (m : bytes * bytes) : Prop :=
  m.1 = json_string e.1 /\ if is_scalar e.2 then m.2 = json_scalar e.2 else opens m.2.
Lemma compact_member e : member_of e (json_string e.1, compact json_string json_scalar e.2).
Proof. destruct e as [k v]. split; [done|]. destruct v; try done; by do 2 eexists. Qed.
Lemma pretty_member indent level e : member_of e (json_string e.1, pretty json_string json_scalar indent level e.2).
Proof. destruct e as [k v]. split; [done|]. destruct v as [| | | | | |items|es]; try done; [destruct items|destruct es]; by do 2 eexists. Qed.
Lemma shifted_member e m : member_of e m -> member_of e (shifted m).
Proof.
  intros [Hn Hv]. split; [done|]. cbn [shifted snd]. destruct (is_scalar e.2) eqn:Hs; [|by apply opens_shift].
  rewrite Hv. by apply scalar_shift, scalar_text.
Qed.
Lemma shifted_object t ms : ObjectText t ms -> ObjectText (shift t) (shifted <$> ms).
Proof.
  intros [w Hw|x xs Hx]; rewrite shift_cons, shift_app; [by apply (object_empty (shift w)), shift_blank|].
  apply (object_members (shift x)). by apply shift_grammar.
Qed.
(** The text of an object is one of JSON, with an entry for every member. *)
Lemma object_grammar lines indent entries : exists ms, ObjectText (object_text lines indent entries) ms /\ Forall2 member_of entries ms.
Proof.
  destruct lines; cbn [object_text].
  - exists (compact_members entries). split; [apply compact_object_text, Forall_forall; intros; apply compact_value|].
    unfold compact_members. apply Forall2_fmap_r, Forall_Forall2_diag, Forall_forall. intros e _. apply compact_member.
  - exists (shifted <$> pretty_members indent 1 entries). split.
    + destruct (pretty_object (json_depth (JObject entries)) indent 0 entries) as (x & Hx & _); [lia|]. rewrite Hx, app_comm_cons, indented_shift by done.
      cbn [app drop]. change [125%Z] with (shift [125%Z]). rewrite <- shift_app, <- app_comm_cons, <- Hx. apply shifted_object, pretty_object_text, Forall_forall. intros; apply pretty_value.
    + apply Forall2_fmap_r. unfold pretty_members. apply Forall2_fmap_r, Forall_Forall2_diag, Forall_forall. intros e _. apply shifted_member, pretty_member.
Qed.

(** ** The file of a part *)

(** The text of a file of [n] objects or more. *)
Definition array_text (indent : nat) (objects : list (list (bytes * Json))) : bytes :=
  B "[" ++ [LF] ++ join_sep [44%Z; LF] ((fun entries => [SP; SP] ++ object_text false indent entries) <$> objects)
  ++ (match objects with [] => [] | _ => [LF] end) ++ B "]" ++ [LF].
Definition lines_text (objects : list (list (bytes * Json))) : bytes := mjoin ((fun entries => object_text true 0 entries ++ [LF]) <$> objects).
Definition json_text (lines : bool) (indent : nat) (objects : list (list (bytes * Json))) : bytes := if lines then lines_text objects else array_text indent objects.
Lemma lines_objects limits objects : Forall (fun entries => Framable limits (object_text true 0 entries)) objects ->
  forall w, blank w -> Lines limits (object_text true 0 <$> objects) (w ++ lines_text objects).
Proof.
  induction 1 as [|entries objects Hf _ IH]; intros w Hw; [rewrite app_nil_r; by apply lines_end|].
  change (lines_text (entries :: objects)) with ((object_text true 0 entries ++ [LF]) ++ lines_text objects). rewrite fmap_cons, <- app_assoc. apply lines_next; [done|done|].
  apply (IH [LF]). by constructor.
Qed.
Lemma array_more limits indent objects : Forall (fun entries => Framable limits (object_text false indent entries)) objects ->
  More limits (object_text false indent <$> objects)
    (mjoin ((fun entries => [44%Z; LF] ++ [SP; SP] ++ object_text false indent entries) <$> objects) ++ [LF] ++ B "]" ++ [LF]).
Proof.
  induction 1 as [|entries objects Hf _ IH].
  - apply (more_end limits [LF] [LF]); by constructor.
  - set (f := fun entries => _) in *. change (mjoin (f <$> entries :: objects)) with (f entries ++ mjoin (f <$> objects)). rewrite fmap_cons. unfold f at 1. rewrite <- !app_assoc. apply (more_next limits [] [LF; SP; SP]); [by constructor|by repeat constructor|done|exact IH].
Qed.
Lemma join_first sep (x : bytes) xs : join_sep sep (x :: xs) = x ++ mjoin ((fun y => sep ++ y) <$> xs).
Proof. revert x. induction xs as [|y xs IH]; intros x; [cbn; by rewrite app_nil_r|]. change (join_sep sep (x :: y :: xs)) with (x ++ sep ++ join_sep sep (y :: xs)). rewrite IH. cbn. by rewrite <- app_assoc. Qed.
Lemma array_objects limits indent objects : Forall (fun entries => Framable limits (object_text false indent entries)) objects ->
  Objects limits (object_text false indent <$> objects) (array_text indent objects).
Proof.
  intros Hf. apply (objects_array limits []); [constructor|]. destruct Hf as [|entries objects Hf Hfs].
  - apply (body_empty limits [LF] [LF]); by constructor.
  - rewrite !fmap_cons, join_first. cbn [app]. rewrite <- !app_assoc. apply (body_first limits [LF; SP; SP]); [by repeat constructor|done|].
    rewrite <- list_fmap_compose. exact (array_more limits indent objects Hfs).
Qed.
Lemma json_objects limits lines indent objects : Forall (fun entries => Framable limits (object_text lines indent entries)) objects ->
  Objects limits (object_text lines indent <$> objects) (json_text lines indent objects).
Proof.
  intros Hf. destruct lines; [|by apply array_objects]. apply objects_lines. apply (lines_objects limits objects) with (w := []); [done|constructor].
Qed.
(** What [write_row] adds for each of the rows. *)
Context `{Alphanumeric} {E Other : Type}.
Variable disk : Disk.
Variable others : @WriterOps bytes (list Value) ColumnMeta Other E.
Abbreviation ops := (text_writers (E := E) json_string json_scalar disk others).
Abbreviation TextWriter := (@TextWriter Other).
Definition entries_of (names : list bytes) (row : list Value) : list (bytes * Json) :=
  fold_left (fun object x => j_insert x.1 (to_json_value x.2) object) (zip names row) [].
Lemma lines_rows names indent first rows : forall out (wr : TextWriter), write_rows ops (TextFile (WJson names true indent first) out) rows = Some wr ->
  wr = TextFile (WJson names true indent first) (out ++ lines_text (entries_of names <$> rows)).
Proof.
  induction rows as [|row rows IH]; intros out wr Hw; cbn [write_rows] in Hw; [injection Hw as <-; by rewrite app_nil_r|].
  cbn [wr_row text_writers text_row] in Hw. unfold wrote in Hw. destruct (write_all disk out _) as [out'|] eqn:Ew; [|done]. rewrite (IH _ _ Hw), (write_all_ok _ _ _ _ Ew), <- app_assoc. done.
Qed.
Lemma array_rows names indent rows : forall first out (wr : TextWriter), write_rows ops (TextFile (WJson names false indent first) out) rows = Some wr ->
  wr = TextFile (WJson names false indent (first && match rows with [] => true | _ => false end))
    (out ++ match rows with
            | [] => []
            | row :: rows => (if first then [] else [44%Z; LF]) ++ [SP; SP] ++ object_text false indent (entries_of names row)
                ++ mjoin ((fun row => [44%Z; LF] ++ [SP; SP] ++ object_text false indent (entries_of names row)) <$> rows)
            end).
Proof.
  induction rows as [|row rows IH]; intros first out wr Hw; cbn [write_rows] in Hw; [injection Hw as <-; by rewrite app_nil_r, andb_true_r|].
  cbn [wr_row text_writers text_row] in Hw. unfold wrote in Hw. destruct (write_all disk out _) as [out'|] eqn:Ew; [|done]. rewrite (IH _ _ _ Hw), (write_all_ok _ _ _ _ Ew), andb_false_r.
  change (row_object names row) with (JObject (entries_of names row)). rewrite indented_object. cbn [andb]. f_equal. rewrite <- !app_assoc. f_equal. f_equal. f_equal. f_equal.
  by destruct rows.
Qed.
Lemma json_part (sp : @ExportSpec ColumnMeta) i rows c : sp_format sp = FJson -> part_content ops sp i rows = Some c ->
  c = json_text (o_jsonl (sp_options sp)) (o_indent (sp_options sp)) (entries_of (cm_name <$> sp_columns sp) <$> rows).
Proof.
  intros Hf Hp. unfold part_content, opened in Hp. rewrite Hf in Hp. cbn [wr_new text_writers text_new] in Hp.
  set (o := titled _ _) in Hp. change (o_jsonl o) with (o_jsonl (sp_options sp)) in Hp. change (o_indent o) with (o_indent (sp_options sp)) in Hp.
  destruct (created _ _ _) as [|wr0] eqn:Ec; [done|]. apply created_ok in Ec as ->. destruct (write_rows _ _ _) as [wr|] eqn:Ew; [|done].
  destruct (o_jsonl (sp_options sp)).
  - apply lines_rows in Ew as ->. cbn in Hp. destruct (disk_flush _ _); [|done]. by injection Hp as <-.
  - apply array_rows in Ew as ->. cbn [wr_finish wr_file text_writers text_finish trailer andb] in Hp. destruct (write_all _ _ _) as [out|] eqn:Ew; [|done]. apply write_all_ok in Ew as ->.
    destruct (disk_flush _ _); [|done]. assert (forall a b : bytes, Some a = Some b -> b = a) as Hinj by congruence. rewrite (Hinj _ _ Hp). cbn [json_text]. unfold array_text. destruct rows as [|row rows]; [done|].
    rewrite !fmap_cons, join_first, <- !list_fmap_compose. rewrite <- !app_assoc. reflexivity.
Qed.
(** ** The rows read *)

Lemma insert_new key v entries : key ∉ entries.*1 -> j_insert key v entries = entries ++ [(key, v)].
Proof.
  induction entries as [|[k w] entries IH]; intros Hk; [done|]. cbn in *. apply not_elem_of_cons in Hk as [Hk Hin].
  destruct (bytes_eqb k key) eqn:Ek; [apply bytes_eqb_eq in Ek; congruence|]. by rewrite IH.
Qed.
Lemma entries_distinct (l : list (bytes * Value)) : forall acc, NoDup (acc.*1 ++ l.*1) ->
  fold_left (fun object x => j_insert x.1 (to_json_value x.2) object) l acc = acc ++ ((fun x => (x.1, to_json_value x.2)) <$> l).
Proof.
  induction l as [|[key v] l IH]; intros acc Hn; cbn; [by rewrite app_nil_r|]. cbn in Hn. pose proof Hn as (_ & Hout & _)%NoDup_app. rewrite insert_new; [|intros Hin; apply (Hout key Hin); left].
  rewrite IH; [by rewrite <- app_assoc|]. rewrite fmap_app, <- app_assoc. exact Hn.
Qed.
Lemma entries_zip names row : NoDup names -> length row = length names -> entries_of names row = (fun x => (x.1, to_json_value x.2)) <$> zip names row.
Proof. intros Hn Hl. unfold entries_of. rewrite entries_distinct; [done|]. cbn. rewrite fst_zip by lia. done. Qed.
Lemma see_in h key : key ∈ h -> see h key = h.
Proof. intros Hk. unfold see. by rewrite bool_decide_eq_true_2. Qed.
Lemma see_all ks : forall h, Forall (fun k => k ∈ h) ks -> fold_left see ks h = h.
Proof. induction ks as [|k ks IH]; intros h Hk; [done|]. inversion Hk; subst. cbn. rewrite see_in by done. by apply IH. Qed.
Lemma see_new ks : forall h, NoDup (h ++ ks) -> fold_left see ks h = h ++ ks.
Proof.
  induction ks as [|k ks IH]; intros h Hn; [by rewrite app_nil_r|]. cbn. unfold see at 2. rewrite bool_decide_eq_false_2.
  - rewrite IH; by rewrite <- app_assoc.
  - intros Hin. apply NoDup_app in Hn as (_ & Hout & _). apply (Hout k Hin). left.
Qed.
Lemma first_seen_same names objs : NoDup names -> objs <> [] -> Forall (fun obj => keys obj = names) objs -> first_seen [] objs = names.
Proof.
  intros Hn Hne Hk. destruct Hk as [|obj objs Hobj Hk]; [done|]. unfold first_seen. cbn [map concat]. rewrite fold_left_app, Hobj, (see_new names []) by exact Hn. cbn [app]. clear Hne Hobj.
  induction Hk as [|obj' objs Hobj' _ IH]; [done|]. cbn [map concat]. rewrite fold_left_app, Hobj', (see_all names names); [done|]. by apply Forall_forall.
Qed.
Variable from_slice : bytes -> bytes + Obj.
Variable from_str : bytes -> bytes + bytes.
Variable debug_char : Z -> bytes.
Lemma last_cell_other key obj c : key ∉ keys obj -> last_cell from_str key obj c = c.
Proof.
  revert c. induction obj as [|kv obj IH]; intros c Hk; [done|]. cbn in Hk. apply not_elem_of_cons in Hk as [Hk Hin]. unfold last_cell. cbn. rewrite bool_decide_eq_false_2 by done. by apply IH.
Qed.
Lemma last_cell_at obj : forall j key raw c, NoDup (keys obj) -> obj !! j = Some (key, raw) -> last_cell from_str key obj c = cell_text from_str raw.
Proof.
  induction obj as [|kv obj IH]; intros j key raw c Hn Hj; [done|]. cbn in Hn. apply NoDup_cons in Hn as [Hout Hn]. destruct j as [|j]; cbn in Hj.
  - injection Hj as ->. unfold last_cell. cbn. rewrite bool_decide_eq_true_2 by done. by apply (last_cell_other key obj).
  - unfold last_cell. cbn. by eapply IH.
Qed.
Lemma row_cells_at names obj j key raw : NoDup names -> keys obj = names -> obj !! j = Some (key, raw) -> row_cells from_str names obj !! j = Some (cell_text from_str raw).
Proof.
  intros Hn Hk Hj. unfold row_cells. rewrite (list_lookup_fmap (fun key => last_cell from_str key obj None)).
  assert (names !! j = Some key) as -> by (rewrite <- Hk; unfold keys; by rewrite (list_lookup_fmap fst), Hj). cbn. f_equal. eapply last_cell_at; [by rewrite Hk|exact Hj].
Qed.

(** What is known of serde_json: it prints null and the booleans as such, a number as JSON does and a string it reads
    back; and of a text of JSON in UTF-8 that is an object it gives the members, a name as it reads a string and a value
    as it is written ([RawValue]). *)
Definition cell_value (v : Json) : option bytes := match v with JNull => None | JString t => Some t | v => Some (json_scalar v) end.
Record SerdeLaws : Prop := {
  sl_null : json_scalar JNull = B "null"; sl_bool : forall b, json_scalar (JBool b) = if b then B "true" else B "false";
  sl_number : forall v, match v with JPosInt _ | JNegInt _ | JFloat _ => NumberText (json_scalar v) | _ => True end;
  sl_string : forall t, json_scalar (JString t) = json_string t; sl_str : forall t, from_str (json_string t) = inr t;
  sl_object : forall text ms obj, ObjectText text ms -> valid_utf8 text = true -> Forall2 (read_as from_str) ms obj -> from_slice text = inr obj }.
Lemma number_first text : NumberText text -> exists b t, text = b :: t /\ b <> 110%Z /\ b <> DQUOTE.
Proof.
  intros Hn. pose proof (number_bytes text Hn) as Hb. destruct text as [|b t].
  - destruct Hn as (sg & w & f & e & He & _ & [Hw _] & _). destruct sg, w; done.
  - exists b, t. inversion Hb as [|? ? Hd]; subst. apply number_byte_plain in Hd as (Hp & _ & _ & H110 & _). split; [done|]. split; [done|]. by intros ->.
Qed.
Lemma scalar_cell v : SerdeLaws -> is_scalar v = true -> cell_text from_str (json_scalar v) = cell_value v.
Proof.
  intros [Hnull Hbool Hnumber Hstr Hread _] Hv. pose proof (Hnumber v) as Ho. unfold cell_text. destruct v as [|b|n|n|f|t| |]; try done; cbn [cell_value].
  1: by rewrite Hnull.
  1: rewrite Hbool; by destruct b.
  4: { rewrite Hstr. destruct (string_quoted t) as (q & _ & Eq). unfold cell. rewrite Eq. change (DQUOTE =b 110) with false. change (DQUOTE =b DQUOTE) with true. cbv iota. by rewrite <- Eq, Hread. }
  all: apply number_first in Ho as (c & rest & -> & Hc1 & Hc2); unfold cell; by rewrite (proj2 (Z.eqb_neq _ _) Hc1), (proj2 (Z.eqb_neq _ _) Hc2).
Qed.
(** A row that can be carried by a JSON file: as wide as its columns, its object within what is imported, and text. *)
Record Importable (names : list bytes) (lines : bool) (indent : nat) (row : list Value) : Prop := {
  im_width : length row = length names; im_depth : json_depth (row_object names row) <= MAX_DEPTH;
  im_size : (Z.of_nat (length (object_text lines indent (entries_of names row))) <= MAX_ELEMENT_BYTES)%Z;
  im_utf8 : valid_utf8 (object_text lines indent (entries_of names row)) = true }.
(** The object serde_json reads a row's text as. *)
Definition carries (e : bytes * Json) (kv : bytes * bytes) : Prop := kv.1 = e.1 /\ (is_scalar e.2 = true -> kv.2 = json_scalar e.2).
Lemma readable_member e m : SerdeLaws -> member_of e m -> is_Some (match cell from_str m.2 with inr c => Some c | inl _ => None end).
Proof.
  intros [Hnull Hbool Hnumber Hstr Hread _] [_ Hm]. destruct e as [k v]. cbn in Hm. pose proof (Hnumber v) as Ho. destruct v as [|b|n|n|f|t|items|es]; cbn [is_scalar] in Hm; [rewrite Hm..| |].
  1: by rewrite Hnull.
  1: rewrite Hbool; by destruct b.
  4: { rewrite Hstr. destruct (string_quoted t) as (q & _ & Eq). unfold cell. rewrite Eq. change (DQUOTE =b 110) with false. change (DQUOTE =b DQUOTE) with true. cbv iota. by rewrite <- Eq, Hread. }
  1-3: apply number_first in Ho as (c & rest & -> & Hc1 & Hc2); unfold cell; by rewrite (proj2 (Z.eqb_neq _ _) Hc1), (proj2 (Z.eqb_neq _ _) Hc2).
  all: destruct Hm as (c & t & -> & Hc); unfold is_opener in Hc; rewrite orb_true_iff, !Z.eqb_eq in Hc; by destruct Hc as [-> | ->].
Qed.
Lemma row_read names lines indent row : SerdeLaws -> Importable names lines indent row ->
  exists obj, from_slice (object_text lines indent (entries_of names row)) = inr obj /\ readable from_str obj /\ Forall2 carries (entries_of names row) obj.
Proof.
  intros Hlaws [_ _ _ Hu]. destruct (object_grammar lines indent (entries_of names row)) as (ms & Ht & Hms).
  enough (exists obj, Forall2 (read_as from_str) ms obj /\ readable from_str obj /\ Forall2 carries (entries_of names row) obj) as (obj & Ho & Hr & Hc).
  { exists obj. split; [by eapply (sl_object Hlaws)|done]. }
  clear Ht Hu. revert Hms. generalize (entries_of names row). intros es Hms. induction Hms as [|e m es ms Hm _ (obj & Ho & Hr & Hc)]; [exists []; repeat split; constructor|].
  exists ((e.1, m.2) :: obj). pose proof (readable_member e m Hlaws Hm) as Hcell. destruct Hm as [Hn Hv]. split; [|split].
  - constructor; [|done]. split; [|done]. cbn. rewrite Hn. apply (sl_str Hlaws).
  - by constructor.
  - constructor; [|done]. split; [done|]. intros Hs. cbn. by rewrite Hs in Hv.
Qed.
(** A row arrived: every value that is not a list or a map is in its cell. *)
Definition arrived (row : list Value) (got : SourceRow) : Prop :=
  forall j v, row !! j = Some v -> is_scalar (to_json_value v) = true -> sr_cells got !! j = Some (cell_value (to_json_value v)).
Lemma member_keys names row obj : NoDup names -> length row = length names ->
  Forall2 carries (entries_of names row) obj -> keys obj = names.
Proof.
  intros Hn Hl. rewrite entries_zip by done. intros Hf. transitivity (zip names row).*1; [|apply fst_zip; lia].
  revert Hf. generalize (zip names row). intros l. revert obj. induction l as [|x l IH]; intros obj Hf; inversion Hf as [|? kv ? obj' [Hk _] Hf']; subst; [done|]. change (keys (kv :: obj')) with (kv.1 :: keys obj'). rewrite (IH _ Hf'), Hk. done.
Qed.
Lemma row_arrived names row obj got : SerdeLaws -> NoDup names -> length row = length names ->
  Forall2 carries (entries_of names row) obj ->
  sr_cells got = row_cells from_str names obj -> arrived row got.
Proof.
  intros Hlaws Hn Hl Hf Hg j v Hj Hv. pose proof (member_keys _ _ _ Hn Hl Hf) as Hk. rewrite entries_zip in Hf by done. rewrite Hg.
  destruct (lookup_lt_is_Some_2 names j) as [key Hkey]; [rewrite <- Hl; by eapply lookup_lt_Some|].
  assert (zip names row !! j = Some (key, v)) as Hz by (apply lookup_zip_with_Some; by exists key, v).
  destruct (Forall2_lookup_l _ _ _ j (key, to_json_value v) Hf) as ([k raw] & Hraw & Hkey' & Hs); [by rewrite list_lookup_fmap, Hz|]. cbn in *. subst k.
  rewrite (row_cells_at names obj j key raw Hn Hk Hraw), (Hs Hv). f_equal. by apply scalar_cell.
Qed.
(** The objects of a part. *)
Lemma part_objects names lines indent part : SerdeLaws -> NoDup names -> Forall (Importable names lines indent) part ->
  exists objs, Forall2 (fun e obj => from_slice e = inr obj) (object_text lines indent <$> (entries_of names <$> part)) objs
    /\ Forall (readable from_str) objs /\ Forall (fun obj => keys obj = names) objs
    /\ Forall2 (fun row obj => Forall2 carries (entries_of names row) obj) part objs.
Proof.
  intros Hlaws Hn. induction 1 as [|row part Him _ (objs & H1 & H2 & H3 & H4)]; [exists []; repeat split; constructor|].
  destruct (row_read names lines indent row Hlaws Him) as (obj & Hfrom & Hread & Hm). destruct Him as [Hw Hd Hs _].
  exists (obj :: objs). split; [by constructor|]. split; [by constructor|]. split; [constructor; [by apply (member_keys names row)|done]|by constructor].
Qed.
Lemma rows_arrived names whole es part objs got : SerdeLaws -> NoDup names -> Forall (fun row => length row = length names) part ->
  Forall2 (fun row obj => Forall2 carries (entries_of names row) obj) part objs ->
  Forall3 (row_of from_str whole names) es objs got -> Forall2 arrived part got.
Proof.
  intros Hlaws Hn Hw Hm. revert es got. induction Hm as [|row obj part objs Hrow _ IH]; intros es got Hg; inversion Hg as [|e ? got1 es' ? got' Hone Hrest]; subst; constructor.
  - inversion Hw; subst. destruct Hone as [_ Hc]. by eapply row_arrived.
  - inversion Hw; subst. by eapply IH.
Qed.
Lemma sampled_some limits es : 0 < sample_rows limits -> (0 < sample_bytes limits)%Z -> es <> [] -> 0 < sampled limits (sample_rows limits) 0 es.
Proof. intros Hr Hb He. destruct (sample_rows limits); [lia|]. destruct es; [done|]. cbn. rewrite (proj2 (Z.ltb_lt _ _)) by done. lia. Qed.
(** C20: What a JSON export writes, a JSON import reads. Each file of a successful export of columns with distinct names,
    whether an array or an object a line and at any indentation, opens as a source whatever sizes its reads come in; its
    columns are the columns of the export, and its rows are the rows of the part, in order and no more, with every value
    that is not a list or a map in the cell under its column: a null as a NULL, a text as itself and a number or boolean
    as it was printed. The rows are within the size and the nesting an import takes, and serde_json reads an object of
    JSON as its members. *)
Theorem json_export_is_imported (io : nat -> bool) (pid mode_new : Z) (sp : @ExportSpec ColumnMeta) (rows : list (E + list Value))
  (cancel : nat -> bool) (w w' : @World bytes) (oc : @ExportOutcome ColumnMeta) (reports : list nat) :
  let o := sp_options sp in let names := cm_name <$> sp_columns sp in
  sp_format sp = FJson -> NoDup names -> SerdeLaws -> finish_creates others -> Forall (Importable names (o_jsonl o) (o_indent o)) (taken cancel 0 rows) ->
  export_rows ops io pid mode_new sp rows cancel w = (inr (oc, reports), w') ->
  exists parts, parts_of sp (taken cancel 0 rows) parts /\ forall i part, parts !! i = Some part ->
    exists p content, oc_files oc !! i = Some p /\ read_file w' p = Some content
      /\ forall chunks, Forall (fun chunk => chunk <> []) chunks -> concat chunks = content ->
         exists s got, build from_slice debug_char default_limits (inr <$> chunks) = (inr tt, s) /\ (part <> [] -> js_header s = names)
           /\ all_rows from_slice debug_char default_limits from_str (S (length part)) s = Some (inr got) /\ Forall2 arrived part got.
Proof.
  intros o names Hf Hn Hlaws Ho Him Hx.
  destruct (export_parts ops io pid mode_new sp (text_finish_creates json_string json_scalar disk others Ho) rows cancel w w' oc reports Hx) as (done & cur & Hc & Hsh & _ & [Hcom _] & _).
  exists (done ++ [cur]). split; [by apply shaped_parts|]. intros i part Hi. destruct (Hcom i part Hi) as (p & c & Hp & Hpart & Hread).
  exists p, c. split; [done|]. split; [done|]. intros chunks Hne Hcat. apply json_part in Hpart; [|done]. fold o names in Hpart.
  assert (Forall (Importable names (o_jsonl o) (o_indent o)) part) as Hip.
  { apply (Forall_lookup_1 _ (done ++ [cur]) i); [|done]. rewrite <- Forall_concat, concat_app, concat_cons, app_nil_r. by rewrite Hc. }
  destruct (part_objects names _ _ part Hlaws Hn Hip) as (objs & Hfrom & Hreadable & Hkeys & Hm).
  edestruct (objects_sampled from_slice debug_char default_limits chunks) as (s & n & Hb & Hsm); [exact Hne| |exact Hfrom|].
  { rewrite Hcat, Hpart. apply json_objects. apply Forall_fmap. eapply Forall_impl; [exact Hip|]. intros row [Hw Hd Hs _]. by apply object_framable. }
  edestruct sampled_rows as (got & Ha & Hrows); [exact Hsm|exact Hfrom|exact Hreadable|]. rewrite !length_fmap in Ha.
  exists s, got. split; [exact Hb|].
  assert (part <> [] -> first_seen [] (take (sampled default_limits (sample_rows default_limits) 0 (object_text (o_jsonl o) (o_indent o) <$> (entries_of names <$> part))) objs) = names) as Hh.
  { intros Hpn. apply first_seen_same; [done| |by apply Forall_take].
    assert (0 < sampled default_limits (sample_rows default_limits) 0 (object_text (o_jsonl o) (o_indent o) <$> (entries_of names <$> part))) as Hpos.
    { apply sampled_some; [cbn; unfold SAMPLE_ROWS; lia|done|by destruct part]. }
    destruct part; [done|]. inversion Hm; subst. by destruct (sampled _ _ _ _); [lia|]. }
  split; [intros Hpn; rewrite <- (Hh Hpn); apply Hsm|]. split; [exact Ha|].
  destruct (decide (part = [])) as [->|Hpn].
  - inversion Hm; subst. inversion Hrows; subst. constructor.
  - rewrite Hh in Hrows by done. eapply rows_arrived; [done|done| |exact Hm|exact Hrows]. eapply Forall_impl; [exact Hip|]. by intros row [Hw _ _ _].
Qed.
End Printed.

(** ** A small export and its import *)

(** Two columns and two rows, a quote, a brace and a line end among the values, a NULL and a number. *)
Module SmallTrip.
#[local] Existing Instances no_float SmallExport.ascii_alphanumeric.
Definition nibble_digit (x : Z) : Z := (if x <? 10 then 48 + x else 87 + x)%Z.
Definition hex_value (c : Z) : Z := (if c <? 58 then c - 48 else c - 87)%Z.
Definition escaped (b : Z) : bytes :=
  if (b =b DQUOTE) || (b =b BACKSLASH) then [BACKSLASH; b]
  else if is_control b then [BACKSLASH; 117; 48; 48; nibble_digit (b / 16); nibble_digit (b mod 16)]%Z
  else [b].
Definition json_string (s : bytes) : bytes := DQUOTE :: mjoin (escaped <$> s) ++ [DQUOTE].
Fixpoint unescape (s : bytes) : bytes :=
  match s with
  | [] => []
  | b :: s =>
      if b =b DQUOTE then []
      else if b =b BACKSLASH then
        match s with
        | 117%Z :: _ :: _ :: h :: l :: s => (16 * hex_value h + hex_value l)%Z :: unescape s
        | c :: s => c :: unescape s
        | [] => []
        end
      else b :: unescape s
  end.
Definition from_str (raw : bytes) : bytes + bytes := inr (unescape (drop 1 raw)).
Definition json_scalar (v : Json) : bytes :=
  match v with
  | JNull => B "null" | JBool b => if b then B "true" else B "false" | JPosInt n => decimal (Z.abs n) | JNegInt n => B "-" ++ decimal (Z.abs n)
  | JFloat _ => B "0.0" | JString t => json_string t | _ => []
  end.
Lemma hex_value_nibble x : (0 <= x < 16)%Z -> hex_value (nibble_digit x) = x.
Proof. intros Hx. unfold hex_value, nibble_digit. destruct (x <? 10)%Z eqn:E; case_match; lia. Qed.
Lemma nibble_digit_ok x : (0 <= x < 16)%Z -> is_ascii_hexdigit (nibble_digit x) = true.
Proof. intros Hx. unfold is_ascii_hexdigit, is_ascii_digit, nibble_digit. destruct (x <? 10)%Z eqn:E; lia. Qed.
Lemma control_halves b : is_control b = true -> (0 <= b / 16 < 16)%Z /\ (0 <= b mod 16 < 16)%Z /\ b = (16 * (b / 16) + b mod 16)%Z.
Proof. unfold is_control. intros Hb. pose proof (Z.div_mod b 16). pose proof (Z.mod_pos_bound b 16). lia. Qed.
Lemma unescape_escaped s : unescape (mjoin (escaped <$> s) ++ [DQUOTE]) = s.
Proof.
  induction s as [|b s IH]; [done|]. change (mjoin (escaped <$> b :: s)) with (escaped b ++ mjoin (escaped <$> s)). rewrite <- app_assoc. unfold escaped at 1.
  destruct ((b =b DQUOTE) || (b =b BACKSLASH)) eqn:E.
  - apply orb_true_iff in E as [->%Z.eqb_eq | ->%Z.eqb_eq]; cbn; by rewrite IH.
  - apply orb_false_iff in E as [E1 E2]. destruct (is_control b) eqn:Ec; [|cbn; by rewrite E1, E2, IH].
    destruct (control_halves b Ec) as (Hh & Hl & Hb). cbn [app unescape]. change (BACKSLASH =b DQUOTE) with false. change (BACKSLASH =b BACKSLASH) with true. cbv iota.
    rewrite IH, !hex_value_nibble by done. by rewrite <- Hb.
Qed.
Lemma escaped_chars s : StringChars (mjoin (escaped <$> s)).
Proof.
  induction s as [|b s IH]; [constructor|]. change (mjoin (escaped <$> b :: s)) with (escaped b ++ mjoin (escaped <$> s)). unfold escaped at 1.
  destruct ((b =b DQUOTE) || (b =b BACKSLASH)) eqn:E.
  - apply orb_true_iff in E as [->%Z.eqb_eq | ->%Z.eqb_eq]; apply chars_escaped; [by left|done|by right; left|done].
  - apply orb_false_iff in E as [E1%Z.eqb_neq E2%Z.eqb_neq]. destruct (is_control b) eqn:Ec; [|by apply chars_unescaped].
    destruct (control_halves b Ec) as (Hh & Hl & _). apply chars_code; [|done]. cbn. by rewrite !nibble_digit_ok.
Qed.
Lemma string_text s : StringText (json_string s).
Proof. eexists. split; [apply escaped_chars|reflexivity]. Qed.
Lemma dec_first fuel : forall n acc, (0 < n < 2 ^ Z.of_nat fuel)%Z -> head (dec fuel n acc) <> Some 48%Z.
Proof.
  induction fuel as [|fuel IH]; intros n acc Hn; [change (2 ^ Z.of_nat 0)%Z with 1%Z in Hn; lia|].
  rewrite Nat2Z.inj_succ, Z.pow_succ_r in Hn by lia. cbn [dec]. destruct (n <? 10)%Z eqn:E.
  - rewrite Z.mod_small by lia. cbn. intros [= He]. lia.
  - apply IH. pose proof (Z.div_mod n 10). pose proof (Z.mod_pos_bound n 10). lia.
Qed.
Lemma decimal_first n : (0 <= n)%Z -> head (decimal n) = Some 48%Z -> decimal n = [48%Z].
Proof.
  intros Hn. destruct (decide (n = 0)%Z) as [->|Hz]; [done|]. intros H. exfalso. revert H. apply dec_first. split; [lia|].
  rewrite Nat2Z.inj_succ, Z2Nat.id by apply Z.log2_nonneg. apply Z.log2_spec. lia.
Qed.
Lemma decimal_number sign n fraction : sign = [] \/ sign = B "-" -> (0 <= n)%Z -> fraction = [] \/ fraction = B ".0" -> NumberText (sign ++ decimal n ++ fraction).
Proof.
  intros Hs Hn Hf. exists sign, (decimal n), fraction, []. split; [by rewrite app_nil_r|]. split; [done|].
  split; [by split; [apply decimal_nonempty|apply decimal_digits]|]. split; [by apply decimal_first|]. split; [|by left].
  destruct Hf as [->| ->]; [by left|]. right. exists (B "0"). split; [|done]. split; [done|by repeat constructor].
Qed.
Lemma number_text v : match v with JPosInt _ | JNegInt _ | JFloat _ => NumberText (json_scalar v) | _ => True end.
Proof.
  destruct v as [| |n|n| | | |]; try done; cbn [json_scalar].
  - rewrite <- (app_nil_r (decimal _)). apply (decimal_number []); [by left|lia|by left].
  - rewrite <- (app_nil_r (decimal _)). apply (decimal_number (B "-")); [by right|lia|by left].
  - apply (decimal_number [] 0 (B ".0")); [by left|lia|by right].
Qed.
Lemma scalar_text v : is_scalar v = true -> ScalarText (json_scalar v).
Proof.
  pose proof (number_text v) as Hn. destruct v as [|b| | | |t| |]; try done; intros _; [by left|right; destruct b; [by left|by right; left]|by do 3 right; left..|].
  apply string_shape, string_text.
Qed.
Lemma laws : SerdeLaws json_string json_scalar (read_object_text from_str) from_str.
Proof.
  split; [done|done|exact number_text|done| |].
  - intros t. change (inr (unescape (mjoin (escaped <$> t) ++ [DQUOTE])) = inr (A := bytes) t). by rewrite unescape_escaped.
  - intros text ms obj Ht _. by apply object_text_is_read.
Qed.
Definition names : list bytes := [B "id"; B "note"].
Definition rows : list (list Value) := [[VInt 7; VText ([DQUOTE] ++ B "}" ++ [LF])]; [VNull; VText (B "two")]].
Definition spec : @ExportSpec ColumnMeta := MkSpec FJson (B "/out") (B "report") [MkMeta (B "id") (B "int"); MkMeta (B "note") (B "text")] default_options None.
Definition from_slice : bytes -> bytes + Obj := read_object_text from_str.
Definition debug_char (b : Z) : bytes := [b].
Definition run := export_rows (text_writers json_string json_scalar SmallExport.disk SmallExport.no_others) (fun _ => true) 7 420 spec ((inr : list Value -> nat + list Value) <$> rows)
  (fun _ => false) (MkWorld ∅ 0 0).
Lemma importable : Forall (Importable json_string json_scalar names false 2) rows.
Proof. repeat constructor; vm_compute; congruence. Qed.
Lemma names_distinct : NoDup names.
Proof. by apply (bool_decide_unpack _). Qed.
End SmallTrip.
#[local] Existing Instances no_float SmallExport.ascii_alphanumeric.
Lemma json_export_is_imported_witness : exists oc reports w' parts, SmallTrip.run = (inr (oc, reports), w') /\ parts_of SmallTrip.spec SmallTrip.rows parts
  /\ forall i part, parts !! i = Some part ->
    exists p content, oc_files oc !! i = Some p /\ read_file w' p = Some content
      /\ forall chunks, Forall (fun chunk => chunk <> []) chunks -> concat chunks = content ->
         exists s got, build SmallTrip.from_slice SmallTrip.debug_char default_limits (inr <$> chunks) = (inr tt, s) /\ (part <> [] -> js_header s = SmallTrip.names)
           /\ all_rows SmallTrip.from_slice SmallTrip.debug_char default_limits SmallTrip.from_str (S (length part)) s = Some (inr got)
           /\ Forall2 (arrived SmallTrip.json_scalar) part got.
Proof.
  destruct SmallTrip.run as [[e|[oc reports]] w'] eqn:E; [vm_compute in E; discriminate E|].
  destruct (json_export_is_imported SmallTrip.json_string SmallTrip.json_scalar SmallTrip.string_text SmallTrip.scalar_text SmallExport.disk SmallExport.no_others
              SmallTrip.from_slice SmallTrip.from_str SmallTrip.debug_char (fun _ => true) 7 420 SmallTrip.spec (inr <$> SmallTrip.rows) (fun _ => false) (MkWorld ∅ 0 0) w' oc reports
              eq_refl SmallTrip.names_distinct SmallTrip.laws ltac:(intros []) SmallTrip.importable E) as (parts & Hp & Hr).
  exists oc, reports, w', parts. split; [reflexivity|]. split; [exact Hp|exact Hr].
Defined.
(** The file, cut once by its reads. *)
Example small_trip_rows : match SmallTrip.run with
  | (inr (oc, _), w') =>
      match read_file w' <$> oc_files oc with
      | [Some content] =>
          match build SmallTrip.from_slice SmallTrip.debug_char default_limits [inr (take 17 content); inr (drop 17 content)] with
          | (inr _, s) => js_header s = SmallTrip.names
              /\ all_rows SmallTrip.from_slice SmallTrip.debug_char default_limits SmallTrip.from_str 3 s
                 = Some (inr [MkSourceRow 2 [Some (B "7"); Some ([DQUOTE] ++ B "}" ++ [LF])]; MkSourceRow 6 [None; Some (B "two")]])
          | _ => False
          end
      | _ => False
      end
  | _ => False
  end.
Proof. vm_compute. by split. Qed.
