(* ===== verification/CsvSource.v ===== *)
(** * CsvSource: the bytes of a CSV file, [crates/qh-import/src/csv_source.rs].

    The file is checked whole in its code page before a row is read ([scan]) and turned into UTF-8 as
    it is read ([transcoder_read]). A file is the reads to come; the parser of the csv crate is a
    parameter. The properties follow the definitions. *)
From stdpp Require Import gmap.
From S2P Require Import Prelude Bytes Text Scan Directive Value Batch Plan Writers WritersSpec JsonSource JsonSourceSpec.
#[local] Open Scope nat_scope.
#[local] Set Warnings "-register-all".

(** A call to [read]; [Got []] is the end of the file. *)
Inductive FileRead := Interrupted | Failed (error : bytes) | Got (chunk : bytes).

(** ** The high half of a page *)

(** [char::from_u32] *)
Definition from_u32 (code : Z) : option Z := if ((0xD800 <=? code) && (code <=? 0xDFFF) || (0x10FFFF <? code))%Z then None else Some code.
Definition note_char (c : Codec) (table : list (option Z)) (code : Z) : list (option Z) :=
  match from_u32 code with
  | None => table
  | Some character =>
      match codec_encode c (encode_utf8 character) with
      | [b] =>
          if ((0x80 <=? b) && (b <=? 0xFF))%Z then
            let index := Z.to_nat (b - 0x80) in match table !! index with Some None => <[index := Some character]> table | _ => table end
          else table
      | _ => table
      end
  end.
(** [from..], [n] codes. *)
Fixpoint codes (n : nat) (from : Z) : list Z := match n with O => [] | S n => from :: codes n (from + 1)%Z end.
Definition high_half (c : Codec) : list (option Z) :=
  match c with AsciiPage => replicate 128 None | _ => fold_left (note_char c) (codes (Z.to_nat (0xFFFF - 0x80 + 1)) 0x80) (replicate 128 None) end.
Definition in_table (table : list (option Z)) (b : Z) : option Z := if (b <? 0x80)%Z then Some b else mjoin (table !! Z.to_nat (b - 0x80)).

(** ** The scan *)

(** What [std::str::from_utf8] finds at the start of a text: a character, the beginning of one, or neither. *)
Inductive CharAt := Whole (n : nat) | Cut | Bad.
Definition tail_byte (b : Z) : bool := ((128 <=? b) && (b <=? 191))%Z.
Definition second_of_three (b c : Z) : bool := ((if b =b 224 then 160 else 128) <=? c)%Z && (c <=? (if b =b 237 then 159 else 191))%Z.
Definition second_of_four (b c : Z) : bool := ((if b =b 240 then 144 else 128) <=? c)%Z && (c <=? (if b =b 244 then 143 else 191))%Z.
Definition char_at (s : bytes) : CharAt :=
  match s with
  | [] => Cut
  | b :: s =>
      if (b <? 128)%Z then Whole 1
      else if ((194 <=? b) && (b <=? 223))%Z then match s with [] => Cut | c :: _ => if tail_byte c then Whole 2 else Bad end
      else if ((224 <=? b) && (b <=? 239))%Z then
        match s with
        | [] => Cut
        | c :: s => if second_of_three b c then match s with [] => Cut | d :: _ => if tail_byte d then Whole 3 else Bad end else Bad
        end
      else if ((240 <=? b) && (b <=? 244))%Z then
        match s with
        | [] => Cut
        | c :: s =>
            if second_of_four b c then
              match s with
              | [] => Cut
              | d :: s => if tail_byte d then match s with [] => Cut | e :: _ => if tail_byte e then Whole 4 else Bad end else Bad
              end
            else Bad
        end
      else Bad
  end.
(** [from_utf8]: nothing wrong, or how much is valid and whether the text ends inside a character. *)
Fixpoint utf8_error (fuel : nat) (s : bytes) (valid : nat) : option (nat * bool) :=
  match fuel, s with
  | O, _ | _, [] => None
  | S fuel, _ => match char_at s with Whole n => utf8_error fuel (drop n s) (valid + n) | Cut => Some (valid, true) | Bad => Some (valid, false) end
  end.
Definition from_utf8 (s : bytes) : option (nat * bool) := utf8_error (length s) s 0.
(** Why a file is refused; the path is left out. *)
Inductive CsvError := CeIo (error : bytes) | CeEncoding (line offset : nat) (message : bytes).
Definition hex_upper (b : Z) : bytes := (fun d => if (d <? 10)%Z then (48 + d)%Z else (55 + d)%Z) <$> [(b / 16)%Z; (b mod 16)%Z].
Definition not_in_page (c : Codec) (b : Z) : bytes :=
  B "byte 0x" ++ hex_upper b ++ B " is not a character in " ++ B (codec_label c) ++ B "; the file is in another code page, or is binary".
Definition NOT_UTF8 : bytes := B "not valid UTF-8; if this is Windows-1252 or Latin-1 text, import it with ENCODING=cp1252 (or latin-1)".
Record Scanned := MkScanned { sn_carried : bytes; sn_offset : nat; sn_line : nat }.
(** A turn of the loop, on what a read gave: the end, or where the next read goes on. *)
Definition scan_turn (c : Codec) (table : option (list (option Z))) (st : Scanned) (chunk : bytes) : (CsvError + unit) + Scanned :=
  let buffer := sn_carried st ++ chunk in
  let at_end st := match chunk with [] => inl (inr tt) | _ => inr st end in
  match table with
  | Some table =>
      match position (fun b => bool_decide (in_table table b = None)) buffer with
      | Some bad => inl (inl (CeEncoding (sn_line st + newlines (take bad buffer)) (sn_offset st + bad) (not_in_page c (nth bad buffer 0%Z))))
      | None => at_end (MkScanned [] (sn_offset st + length buffer) (sn_line st + newlines buffer))
      end
  | None =>
      match from_utf8 buffer with
      | None => at_end (MkScanned [] (sn_offset st + length buffer) (sn_line st + newlines buffer))
      | Some (valid, cut) =>
          let line := sn_line st + newlines (take valid buffer) in
          let offset := sn_offset st + valid in
          match chunk with
          | _ :: _ => if cut then inr (MkScanned (drop valid buffer) offset line) else inl (inl (CeEncoding line offset NOT_UTF8))
          | [] => inl (inl (CeEncoding line offset NOT_UTF8))
          end
      end
  end.
Fixpoint scan_reads (c : Codec) (table : option (list (option Z))) (reads : list FileRead) (st : Scanned) : CsvError + unit :=
  match reads with
  | [] => match scan_turn c table st [] with inl r => r | inr _ => inr tt end
  | Interrupted :: reads => scan_reads c table reads st
  | Failed e :: _ => inl (CeIo e)
  | Got chunk :: reads => match scan_turn c table st chunk with inl r => r | inr st => scan_reads c table reads st end
  end.
Definition scan (c : Codec) (file : bytes + list FileRead) : CsvError + unit :=
  match file with
  | inl e => inl (CeIo e)
  | inr reads =>
      let table := if codec_is_utf8 c then None else Some (high_half c) in
      if match table with Some t => forallb (fun x => match x with Some _ => true | None => false end) t | None => false end then inr tt
      else scan_reads c table reads (MkScanned [] 0 1)
  end.

(** ** The transcoder *)

Record Transcoder := MkTranscoder { tc_inner : list FileRead; tc_out : bytes; tc_at : nat }.
(** The bytes of a read as UTF-8, or the first that is no character, after those before it. *)
Fixpoint transcode (table : list (option Z)) (raw : bytes) (out : bytes) : bytes * option Z :=
  match raw with
  | [] => (out, None)
  | b :: raw => match in_table table b with Some ch => transcode table raw (out ++ encode_utf8 ch) | None => (out, Some b) end
  end.
Inductive ReadError := ReInterrupted | ReFailed (error : bytes).
Definition undefined_byte (b : Z) : bytes := B "byte 0x" ++ hex_upper b ++ B " is undefined in the file's code page".
Definition give (n : nat) (t : Transcoder) : (ReadError + bytes) * Transcoder :=
  let given := take n (drop (tc_at t) (tc_out t)) in (inr given, MkTranscoder (tc_inner t) (tc_out t) (tc_at t + length given)).
(** [read] into a buffer of [n] bytes. *)
Definition transcoder_read (table : list (option Z)) (n : nat) (t : Transcoder) : (ReadError + bytes) * Transcoder :=
  if tc_at t =? length (tc_out t) then
    match tc_inner t with
    | [] => (inr [], MkTranscoder [] [] 0)
    | Interrupted :: reads => (inl ReInterrupted, MkTranscoder reads (tc_out t) (tc_at t))
    | Failed e :: reads => (inl (ReFailed e), MkTranscoder reads (tc_out t) (tc_at t))
    | Got raw :: reads =>
        match transcode table raw [] with
        | (out, Some b) => (inl (ReFailed (undefined_byte b)), MkTranscoder reads out 0)
        | (out, None) => match raw with [] => (inr [], MkTranscoder reads [] 0) | _ => give n (MkTranscoder reads out 0) end
        end
    end
  else give n t.

(** ** The source *)

Section Source.
(** The csv crate's reader: the next record with its line, or its error. *)
Context {Reader : Type}.
Variable read_record : Reader -> (bytes + option (option nat * list bytes)) * Reader.
Record CsvSource := MkCsv { cs_reader : Reader; cs_header : option (list bytes); cs_want_header : bool }.
Definition detect_header (s : CsvSource) : (bytes + unit) * CsvSource :=
  if negb (cs_want_header s) then (inr tt, s)
  else match read_record (cs_reader s) with
       | (inl e, r) => (inl e, MkCsv r (cs_header s) (cs_want_header s))
       | (inr None, r) => (inr tt, MkCsv r (cs_header s) (cs_want_header s))
       | (inr (Some (_, fields)), r) => (inr tt, MkCsv r (Some fields) (cs_want_header s))
       end.
Definition csv_header (s : CsvSource) : option (list bytes) := match cs_header s with Some (_ :: _) => cs_header s | _ => None end.
Definition csv_next_row (s : CsvSource) : (bytes + option (nat * list bytes)) * CsvSource :=
  match read_record (cs_reader s) with
  | (inl e, r) => (inl e, MkCsv r (cs_header s) (cs_want_header s))
  | (inr None, r) => (inr None, MkCsv r (cs_header s) (cs_want_header s))
  | (inr (Some (line, fields)), r) => (inr (Some (default 0 line, fields)), MkCsv r (cs_header s) (cs_want_header s))
  end.
(** [CsvSource::open]: the file checked, then opened again; [reader_on] builds the crate's reader over it, through
    the transcoder for a page that is not UTF-8. *)
Variable reader_on : Codec -> option Z -> list FileRead -> Reader.
Definition csv_open (encoding : option Codec) (delimiter : option Z) (want_header : bool) (first second : bytes + list FileRead)
  : (CsvError + bytes) + CsvSource :=
  let codec := default Utf8 encoding in
  match scan codec first with
  | inl e => inl (inl e)
  | inr _ =>
      match second with
      | inl e => inl (inl (CeIo e))
      | inr reads =>
          match detect_header (MkCsv (reader_on codec ((fun d => (d mod 256)%Z) <$> delimiter) reads) None want_header) with
          | (inl e, _) => inl (inr e)
          | (inr _, s) => inr s
          end
      end
  end.
End Source.

(** ** The high half is the page read backwards *)

Lemma in_codes n : forall from x, x ∈ codes n from <-> (from <= x < from + Z.of_nat n)%Z.
Proof.
  induction n as [|n IH]; intros from x; cbn [codes]; [rewrite elem_of_nil; lia|]. rewrite elem_of_cons, IH. lia.
Qed.
(** The byte a code is written as, when it is one of the high half. *)
Definition hits (c : Codec) (i : nat) (code : Z) : bool :=
  match from_u32 code with Some ch => match codec_encode c (encode_utf8 ch) with [b] => ((0x80 <=? b) && (b <=? 0xFF))%Z && (Z.to_nat (b - 0x80) =? i) | _ => false end | None => false end.
Lemma from_u32_some code ch : from_u32 code = Some ch -> ch = code.
Proof. unfold from_u32. destruct (_ || _); [done|]. by intros [= <-]. Qed.
Lemma note_lookup c table code i : note_char c table code !! i = match table !! i with Some None => Some (if hits c i code then Some code else None) | r => r end.
Proof.
  unfold note_char, hits. destruct (from_u32 code) as [ch|] eqn:Ef; [|by destruct (table !! i) as [[]|]]. apply from_u32_some in Ef as ->.
  destruct (codec_encode c (encode_utf8 code)) as [|b [|b2 l]]; [by destruct (table !! i) as [[]|]| |by destruct (table !! i) as [[]|]].
  destruct ((0x80 <=? b) && (b <=? 0xFF))%Z; [|by destruct (table !! i) as [[]|]]. cbn [andb]. destruct (decide (Z.to_nat (b - 128) = i)) as [<-|Hi].
  - rewrite Nat.eqb_refl. destruct (table !! Z.to_nat (b - 128)) as [[x|]|] eqn:Et; [done| |done]. apply list_lookup_insert_eq. by eapply lookup_lt_Some.
  - rewrite (proj2 (Nat.eqb_neq _ _) Hi). destruct (table !! Z.to_nat (b - 128)) as [[x|]|]; rewrite ?list_lookup_insert_ne by done; by destruct (table !! i) as [[]|].
Qed.
Lemma notes_lookup c l i : forall table, fold_left (note_char c) l table !! i = match table !! i with Some None => Some (List.find (hits c i) l) | r => r end.
Proof.
  induction l as [|code l IH]; intros table; cbn [fold_left List.find]; [by destruct (table !! i) as [[]|]|]. rewrite IH, note_lookup.
  destruct (table !! i) as [[x|]|]; [done| |done]. by destruct (hits c i code).
Qed.
Lemma page_codes_ok c : c <> Utf8 -> forallb (fun x => (0 <=? x) && (x <? 0xD800))%Z (page_table c) = true.
Proof. by destruct c. Qed.
(** A code written as a byte of the high half is one of the codes looked at. *)
Lemma high_code c x b : byte_of c x = Some b -> (0x80 <= b)%Z -> c <> Utf8 -> (0x80 <= x < 0xD800)%Z.
Proof.
  intros Hb Hge Hc. pose proof (page_codes_ok c Hc) as Hp. destruct c; [done|cbn in Hb| | | |]; cbn in Hb.
  1,2: destruct (x <=? _)%Z eqn:E; [|done]; injection Hb as <-; lia.
  all: unfold high_byte in Hb; destruct (x <=? 127)%Z eqn:E; [injection Hb as <-; lia|]; destruct (position _ _) as [i|] eqn:Ei; [|done];
    apply position_some in Ei as ((y & Hy & ->%Z.eqb_eq) & _); rewrite forallb_forall in Hp; apply list_elem_of_lookup_2, list_elem_of_In, Hp in Hy; lia.
Qed.
Lemma one_byte c code : c <> Utf8 -> scalar code -> codec_encode c (encode_utf8 code) = [default 63%Z (byte_of c code)].
Proof.
  intros Hc Hs. assert (codec_encode c (encode_utf8 code) = encode_single_byte (encode_utf8 code) (byte_of c)) as -> by (by destruct c).
  unfold encode_single_byte. by rewrite chars_encode_one.
Qed.
Lemma from_u32_low x : (x < 0xD800)%Z -> from_u32 x = Some x.
Proof. intros Hx. unfold from_u32. rewrite (proj2 (Z.leb_gt _ _)), (proj2 (Z.ltb_ge _ _)) by lia. done. Qed.
Lemma hits_byte c i code : c <> Utf8 -> (code <= 0xFFFF)%Z -> hits c i code = true -> byte_of c code = Some (0x80 + Z.of_nat i)%Z.
Proof.
  intros Hc Hle Hh. unfold hits in Hh. destruct (from_u32 code) as [ch|] eqn:Ef; [|done]. apply from_u32_some in Ef as ->. rewrite one_byte in Hh by (done || (unfold scalar; lia)).
  apply andb_true_iff in Hh as [[H1%Z.leb_le H2%Z.leb_le]%andb_true_iff H3%Nat.eqb_eq]. destruct (byte_of c code) as [b|]; [change (default 63%Z (Some b)) with b in *; f_equal; lia|]. change (default 63%Z None) with 63%Z in *. lia.
Qed.
Lemma byte_hits c i x : c <> Utf8 -> byte_of c x = Some (0x80 + Z.of_nat i)%Z -> i < 128 -> hits c i x = true.
Proof.
  intros Hc Hb Hi. pose proof (high_code c x _ Hb ltac:(lia) Hc) as Hx. unfold hits. rewrite from_u32_low, one_byte, Hb by (done || (unfold scalar; lia)).
  change (default 63%Z (Some (0x80 + Z.of_nat i)%Z)) with (0x80 + Z.of_nat i)%Z. rewrite !andb_true_iff, !Z.leb_le, Nat.eqb_eq. lia.
Qed.
Lemma decode_of c x b : c <> Utf8 -> byte_of c x = Some b -> decode_byte c b = x.
Proof. intros Hc Hb. pose proof (decode_shown c x Hc) as Hd. unfold shown, held in Hd. by rewrite Hb in Hd. Qed.
Lemma low_byte c b x : c <> Utf8 -> (b < 0x80)%Z -> byte_of c x = Some b <-> x = b.
Proof.
  intros Hc Hb. split; [intros Hx; pose proof (decode_of c x b Hc Hx) as <-; unfold decode_byte; by rewrite (proj2 (Z.leb_le _ _)) by lia|]. intros ->.
  destruct c; [done|..]; cbn; unfold high_byte; by rewrite (proj2 (Z.leb_le _ _)) by lia.
Qed.
(** The table of a page gives back the character a byte was written for, and nothing for a byte no character is written as. *)
Lemma in_table_spec c b x : c <> Utf8 -> (b <= 0xFF)%Z -> in_table (high_half c) b = Some x <-> byte_of c x = Some b.
Proof.
  intros Hc Hb. unfold in_table. destruct (b <? 0x80)%Z eqn:E; [apply Z.ltb_lt in E; rewrite low_byte by done; split; [by intros [= ->]|by intros ->]|]. apply Z.ltb_ge in E.
  set (i := Z.to_nat (b - 0x80)). assert (b = 0x80 + Z.of_nat i)%Z as Eb by (unfold i; lia). assert (i < 128) as Hi by lia. clearbody i. subst b.
  assert (c = AsciiPage \/ high_half c = fold_left (note_char c) (codes (Z.to_nat (0xFFFF - 0x80 + 1)) 0x80) (replicate 128 None)) as [-> | ->] by (destruct c; [done|by left|by right..]).
  - unfold high_half. rewrite (lookup_replicate_2 _ _ _ Hi). cbn. destruct (x <=? 127)%Z eqn:Ex; [|done]. split; [done|]. intros [= ->]. lia.
  - rewrite notes_lookup, (lookup_replicate_2 _ _ _ Hi). cbn [mjoin option_join]. split.
    + intros Hf. apply List.find_some in Hf as [Hin Hh]. apply list_elem_of_In, in_codes in Hin. apply hits_byte; [done|lia|done].
    + intros Hx. pose proof (byte_hits c i x Hc Hx Hi) as Hh. pose proof (high_code c x _ Hx ltac:(lia) Hc) as Hr. destruct (List.find _ _) as [y|] eqn:Ef.
      * apply List.find_some in Ef as [Hin Hy]. apply list_elem_of_In, in_codes in Hin. pose proof (hits_byte c i y Hc ltac:(lia) Hy) as Hby.
        f_equal. by rewrite <- (decode_of c x _ Hc Hx), <- (decode_of c y _ Hc Hby).
      * assert (x ∈ codes (Z.to_nat (0xFFFF - 0x80 + 1)) 0x80) as Hin by (apply in_codes; lia). apply list_elem_of_In in Hin. pose proof (List.find_none _ _ Ef x Hin). congruence.
Qed.

(** ** UTF-8, in pieces *)

Ltac char_cases := repeat match goal with |- context [if ?x then _ else _] => destruct x eqn:? end.
Lemma char_whole s n : char_at s = Whole n -> 0 < n <= length s.
Proof. destruct s as [|b [|c [|d [|e s]]]]; unfold char_at; char_cases; intros [= <-]; cbn; lia. Qed.
Lemma char_more s t : match char_at s with Whole n => char_at (s ++ t) = Whole n | Bad => char_at (s ++ t) = Bad | Cut => True end.
Proof. destruct s as [|b [|c [|d [|e s]]]]; cbn [char_at app]; char_cases; done. Qed.
Lemma char_take n s : char_at s = Whole n -> char_at (take n s) = Whole n.
Proof. destruct s as [|b [|c [|d [|e s]]]]; unfold char_at; char_cases; intros [= <-]; cbn [take]; repeat match goal with E : _ = _ |- _ => rewrite E end; done. Qed.
Lemma valid_step s : s <> [] -> valid_utf8 s = match char_at s with Whole n => valid_utf8 (drop n s) | _ => false end.
Proof.
  intros Hs. destruct s as [|b s]; [done|]. cbn [valid_utf8 char_at]. destruct (b <? 128)%Z; [done|].
  destruct ((194 <=? b) && (b <=? 223))%Z; [destruct s as [|c s]; [done|]; unfold tail_byte; destruct ((128 <=? c) && (c <=? 191))%Z; done|].
  destruct ((224 <=? b) && (b <=? 239))%Z.
  { destruct s as [|c [|d s]]; [done|by destruct (second_of_three b c)|]. unfold second_of_three, tail_byte. destruct (_ && (c <=? _)%Z)%bool; [|done].
    by destruct ((128 <=? d) && (d <=? 191))%Z. }
  destruct ((240 <=? b) && (b <=? 244))%Z; [|done]. destruct s as [|c [|d [|e s]]]; [done|by destruct (second_of_four b c)| |].
  { destruct (second_of_four b c); [|done]. by destruct (tail_byte d). }
  unfold second_of_four, tail_byte. destruct (_ && (c <=? _)%Z)%bool; [|done]. destruct ((128 <=? d) && (d <=? 191))%Z; [|done]. by destruct ((128 <=? e) && (e <=? 191))%Z.
Qed.
Definition further (k : nat) (r : option (nat * bool)) : option (nat * bool) := match r with Some (v, cut) => Some (k + v, cut) | None => None end.
Lemma further_more a b r : further a (further b r) = further (a + b) r.
Proof. destruct r as [[v cut]|]; [|done]. cbn. do 2 f_equal. lia. Qed.
Lemma utf8_error_fuel n : forall s f1 f2 v, length s <= n -> length s <= f1 -> length s <= f2 -> utf8_error f1 s v = further v (utf8_error f2 s 0).
Proof.
  induction n as [|n IH]; intros s f1 f2 v Hn H1 H2; (destruct s as [|b s]; [by destruct f1, f2|]); [cbn in Hn; lia|].
  destruct f1 as [|f1], f2 as [|f2]; cbn in H1, H2; try lia. cbn [utf8_error]. pose proof (char_whole (b :: s)) as Hw. destruct (char_at (b :: s)) as [k| |]; [|cbn; f_equal; f_equal; lia..].
  specialize (Hw k eq_refl). assert (length (drop k (b :: s)) <= n) as Hd by (rewrite length_drop; cbn in *; lia).
  assert (forall f, length s <= f -> length (drop k (b :: s)) <= f) as Hf by (intros f Hf; rewrite length_drop; cbn; lia).
  rewrite (IH _ f1 f2 (v + k)), (IH _ f2 f2 k) by auto with lia. by rewrite further_more.
Qed.
Lemma from_utf8_step s : s <> [] -> from_utf8 s = match char_at s with Whole n => further n (from_utf8 (drop n s)) | Cut => Some (0, true) | Bad => Some (0, false) end.
Proof.
  intros Hs. unfold from_utf8. destruct s as [|b s]; [done|]. cbn [length utf8_error]. pose proof (char_whole (b :: s)) as Hw. destruct (char_at (b :: s)) as [k| |]; [|done..].
  specialize (Hw k eq_refl). apply (utf8_error_fuel (length s)); rewrite length_drop; cbn in *; lia.
Qed.
Lemma from_utf8_app n : forall a b, length a <= n ->
  from_utf8 (a ++ b) = match from_utf8 a with None => further (length a) (from_utf8 b) | Some (v, false) => Some (v, false) | Some (v, true) => further v (from_utf8 (drop v a ++ b)) end.
Proof.
  induction n as [|n IH]; intros a b Hn; (destruct a as [|x a]; [change (from_utf8 b = further 0 (from_utf8 b)); by destruct (from_utf8 b) as [[]|]|]); [cbn in Hn; lia|].
  rewrite (from_utf8_step (x :: a)), (from_utf8_step ((x :: a) ++ b)) by done. pose proof (char_more (x :: a) b) as Hm. pose proof (char_whole (x :: a)) as Hw.
  destruct (char_at (x :: a)) as [k| |] eqn:Ec.
  - rewrite Hm. specialize (Hw k eq_refl). rewrite drop_app_le, IH by (rewrite ?length_drop; cbn in *; lia).
    destruct (from_utf8 (drop k (x :: a))) as [[v []]|]; cbn [further]; rewrite ?further_more; [by rewrite drop_drop|done|]. f_equal. rewrite length_drop. lia.
  - rewrite <- from_utf8_step by done. cbn [drop]. by destruct (from_utf8 _) as [[]|].
  - by rewrite Hm.
Qed.
Lemma take_plus k v : forall l : bytes, take (k + v) l = take k l ++ take v (drop k l).
Proof. induction k as [|k IH]; intros l; [done|]. destruct l as [|x l]; cbn; [by destruct v|by rewrite IH]. Qed.
(** What [from_utf8] says of a text. *)
Lemma from_utf8_valid n : forall s, length s <= n -> match from_utf8 s with
  | None => valid_utf8 s = true
  | Some (v, _) => v <= length s /\ valid_utf8 (take v s) = true /\ valid_utf8 s = false /\ forall k, char_at (drop v s) <> Whole k end.
Proof.
  induction n as [|n IH]; intros s Hn; (destruct s as [|x s]; [done|]); [cbn in Hn; lia|]. rewrite from_utf8_step by done. pose proof (char_whole (x :: s)) as Hw.
  rewrite valid_step by done. destruct (char_at (x :: s)) as [k| |] eqn:Ec; [|split; [lia|]; split; [done|]; split; [done|]; intros k; rewrite drop_0, Ec; done..].
  specialize (Hw k eq_refl). specialize (IH (drop k (x :: s))). rewrite length_drop in IH. cbn [length] in *. specialize (IH ltac:(lia)).
  destruct (from_utf8 (drop k (x :: s))) as [[v cut]|]; cbn [further]; [|done]. destruct IH as (H1 & H2 & H3 & H4). split; [lia|]. split.
  - rewrite take_plus.
    assert (take k (x :: s) <> []) as Hne by (destruct k; [lia|done]). rewrite valid_step by (by destruct (take k (x :: s))).
    pose proof (char_take k (x :: s) Ec) as Hk. pose proof (char_more (take k (x :: s)) (take v (drop k (x :: s)))) as Hm. rewrite Hk in Hm. rewrite Hm.
    rewrite drop_app_length'; [done|]. rewrite length_take. cbn. lia.
  - split; [done|]. intros j. rewrite <- drop_drop. apply H4.
Qed.

(** ** The scan of a file *)

(** Reads that do not fail; one that is interrupted is made again. *)
Definition clean (reads : list FileRead) : Prop := Forall (fun r => match r with Interrupted => True | Failed _ => False | Got chunk => chunk <> [] end) reads.
Definition content (reads : list FileRead) : bytes := mjoin ((fun r => match r with Got chunk => chunk | _ => [] end) <$> reads).
Lemma content_cons r reads : content (r :: reads) = (match r with Got chunk => chunk | _ => [] end) ++ content reads.
Proof. done. Qed.
(** Whether a page holds a text, and where the text first leaves it. *)
Definition in_page (c : Codec) (text : bytes) : Prop := match c with Utf8 => valid_utf8 text = true | _ => Forall (fun b => is_Some (in_table (high_half c) b)) text end.
Definition utf8_verdict (text : bytes) (offset line : nat) : CsvError + unit :=
  match from_utf8 text with None => inr tt | Some (v, _) => inl (CeEncoding (line + newlines (take v text)) (offset + v) NOT_UTF8) end.
Lemma verdict_after a b offset line : from_utf8 a = None -> utf8_verdict (a ++ b) offset line = utf8_verdict b (offset + length a) (line + newlines a).
Proof.
  intros Ha. unfold utf8_verdict. rewrite (from_utf8_app (length a)), Ha by done. destruct (from_utf8 b) as [[v cut]|]; [|done]. cbn [further].
  rewrite take_app_add', line_feeds_app by done. f_equal. f_equal; lia.
Qed.
Lemma verdict_cut a b v offset line : from_utf8 a = Some (v, true) -> utf8_verdict (a ++ b) offset line = utf8_verdict (drop v a ++ b) (offset + v) (line + newlines (take v a)).
Proof.
  intros Ha. unfold utf8_verdict. rewrite (from_utf8_app (length a)), Ha by done. pose proof (from_utf8_valid (length a) a ltac:(done)) as Hv. rewrite Ha in Hv. destruct Hv as [Hv _].
  destruct (from_utf8 (drop v a ++ b)) as [[k cut]|]; [|done]. cbn [further]. rewrite take_plus, line_feeds_app. rewrite take_app_le, drop_app_le by done. f_equal. f_equal; lia.
Qed.
Lemma scan_utf8 c reads : forall st, clean reads -> scan_reads c None reads st = utf8_verdict (sn_carried st ++ content reads) (sn_offset st) (sn_line st).
Proof.
  induction reads as [|[|e|chunk] reads IH]; intros st Hc; cbn [scan_reads].
  - rewrite app_nil_r. unfold scan_turn, utf8_verdict. rewrite app_nil_r. by destruct (from_utf8 (sn_carried st)) as [[v cut]|].
  - apply Forall_cons in Hc as [_ Hc]. by apply IH.
  - by apply Forall_cons in Hc as [[] _].
  - apply Forall_cons in Hc as [Hne Hc]. rewrite content_cons, app_assoc. unfold scan_turn. set (buffer := sn_carried st ++ chunk). destruct (from_utf8 buffer) as [[v [|]]|] eqn:Eb.
    + rewrite (verdict_cut _ _ v) by done. destruct chunk as [|x chunk]; [done|]. by rewrite IH.
    + unfold utf8_verdict. rewrite (from_utf8_app (length buffer)), Eb by done. pose proof (from_utf8_valid (length buffer) buffer ltac:(done)) as Hv. rewrite Eb in Hv. destruct Hv as [Hv _].
      destruct chunk as [|x chunk]; [done|]. by rewrite take_app_le.
    + rewrite verdict_after by done. destruct chunk as [|x chunk]; [done|]. by rewrite IH.
Qed.
Definition undefined (c : Codec) (b : Z) : bool := bool_decide (in_table (high_half c) b = None).
Definition page_verdict (c : Codec) (text : bytes) (offset line : nat) : CsvError + unit :=
  match position (undefined c) text with
  | None => inr tt
  | Some v => inl (CeEncoding (line + newlines (take v text)) (offset + v) (not_in_page c (nth v text 0%Z)))
  end.
Lemma position_app (p : Z -> bool) (a b : bytes) : position p (a ++ b) = match position p a with Some i => Some i | None => (fun i => length a + i) <$> position p b end.
Proof.
  induction a as [|x a IH]; cbn; [by destruct (position p b)|]. destruct (p x); [done|]. rewrite IH. destruct (position p a); [done|]. by destruct (position p b).
Qed.
Lemma scan_page c reads : forall st, clean reads -> sn_carried st = [] -> scan_reads c (Some (high_half c)) reads st = page_verdict c (content reads) (sn_offset st) (sn_line st).
Proof.
  induction reads as [|[|e|chunk] reads IH]; intros st Hc Hs; cbn [scan_reads].
  - unfold scan_turn, page_verdict. by rewrite Hs.
  - apply Forall_cons in Hc as [_ Hc]. by apply IH.
  - by apply Forall_cons in Hc as [[] _].
  - apply Forall_cons in Hc as [Hne Hc]. rewrite content_cons. unfold scan_turn, page_verdict. rewrite Hs. cbn [app]. rewrite position_app. change (fun b => bool_decide (in_table (high_half c) b = None)) with (undefined c).
    destruct (position (undefined c) chunk) as [v|] eqn:Ep.
    + pose proof Ep as ((x & Hx & _) & _)%position_some. apply lookup_lt_Some in Hx. rewrite take_app_le, app_nth1 by lia. done.
    + destruct chunk as [|x chunk]; [done|]. rewrite IH by done. unfold page_verdict. destruct (position (undefined c) (content reads)) as [v|]; [|done]. cbn [fmap option_fmap option_map].
      rewrite take_app_add', line_feeds_app by done. rewrite app_nth2 by lia. replace (length (x :: chunk) + v - length (x :: chunk)) with v by lia. f_equal. f_equal; cbn; lia.
Qed.
Lemma high_half_length c : length (high_half c) = 128.
Proof.
  assert (forall l table, length table = 128 -> length (fold_left (note_char c) l table) = 128) as Hl.
  { induction l as [|code l IH]; intros table Ht; [done|]. cbn. apply IH. unfold note_char. destruct (from_u32 code); [|done].
    destruct (codec_encode _ _) as [|b [|]]; [done| |done]. destruct (_ && _); [|done]. destruct (table !! _) as [[]|]; [done| |done]. by rewrite length_insert. }
  unfold high_half. destruct c; [apply Hl|done|apply Hl..]; apply length_replicate.
Qed.
Lemma table_full c b : forallb (fun x => match x with Some _ => true | None => false end) (high_half c) = true -> (b <= 0xFF)%Z -> is_Some (in_table (high_half c) b).
Proof.
  intros Hf Hb. unfold in_table. destruct (b <? 128)%Z eqn:E; [by eexists|]. destruct (lookup_lt_is_Some_2 (high_half c) (Z.to_nat (b - 128))) as [x Hx]; [rewrite high_half_length; lia|].
  rewrite Hx. rewrite forallb_forall in Hf. apply list_elem_of_lookup_2, list_elem_of_In, Hf in Hx. by destruct x; [eexists|].
Qed.
Lemma position_none' (p : Z -> bool) s : position p s = None -> Forall (fun b => p b = false) s.
Proof. induction s as [|b s IH]; cbn; [constructor|]. destruct (p b) eqn:E; [done|]. destruct (position p s); [done|]. intros _. constructor; [done|by apply IH]. Qed.
Lemma undefined_some c b : undefined c b = false <-> is_Some (in_table (high_half c) b).
Proof. unfold undefined. rewrite bool_decide_eq_false. split; [intros Hn; destruct (in_table _ b); [by eexists|done]|by intros [x ->]]. Qed.
(** C23: A CSV file is checked whole before a row is read. Whatever sizes the reads of it come in, and wherever they are
    interrupted, a file in its code page passes; one that is not is refused at the first place where it leaves the
    page: all before it is in the page, no character of the page begins at it, and the line and the byte of the
    refusal are those of that place. *)
Theorem file_is_checked_exactly (c : Codec) (reads : list FileRead) :
  clean reads -> Forall (fun b => b <= 0xFF)%Z (content reads) ->
  match scan c (inr reads) with
  | inr _ => in_page c (content reads)
  | inl e => exists v message, e = CeEncoding (S (newlines (take v (content reads)))) v message /\ v <= length (content reads)
      /\ in_page c (take v (content reads)) /\ ~ in_page c (content reads) /\ forall k, 0 < k -> v + k <= length (content reads) -> ~ in_page c (take k (drop v (content reads)))
  end.
Proof.
  intros Hc Hb. unfold scan. set (text := content reads) in *. destruct (decide (c = Utf8)) as [->|Hne].
  - cbn [codec_is_utf8]. rewrite scan_utf8 by done. cbn [sn_carried sn_offset sn_line app]. fold text. unfold utf8_verdict. pose proof (from_utf8_valid (length text) text ltac:(done)) as Hv.
    destruct (from_utf8 text) as [[v cut]|]; [|exact Hv]. destruct Hv as (H1 & H2 & H3 & H4). exists v, NOT_UTF8. split; [done|]. split; [done|]. split; [done|]. split; [unfold in_page; congruence|].
    intros k Hk Hle. unfold in_page. assert (take k (drop v text) <> []) as Hd by (intros E; apply (f_equal length) in E; rewrite length_take, length_drop in E; cbn in E; lia).
    rewrite valid_step by done. pose proof (char_more (take k (drop v text)) (drop k (drop v text))) as Hm. rewrite take_drop in Hm.
    destruct (char_at (take k (drop v text))) as [n| |]; [by destruct (H4 n)|done|done].
  - assert (codec_is_utf8 c = false) as -> by (by destruct c). assert (forall s, in_page c s <-> Forall (fun b => is_Some (in_table (high_half c) b)) s) as Hin by (by destruct c).
    destruct (forallb _ (high_half c)) eqn:Ef.
    { apply Hin. eapply Forall_impl; [exact Hb|]. intros b Hle. by apply table_full. }
    rewrite scan_page by done. cbn [sn_offset sn_line]. fold text. unfold page_verdict. destruct (position (undefined c) text) as [v|] eqn:Ep.
    + pose proof Ep as ((x & Hx & Hu) & Hbefore)%position_some. pose proof (lookup_lt_Some _ _ _ Hx) as Hlt. exists v, (not_in_page c (nth v text 0%Z)).
      assert (~ is_Some (in_table (high_half c) x)) as Hnot by (rewrite <- undefined_some; congruence).
      split; [done|]. split; [lia|]. split; [|split].
      * apply Hin, Forall_forall. intros b (j & Hj)%list_elem_of_lookup_1. apply lookup_take_Some in Hj as [Hj Hlt2]. apply undefined_some. by eapply Hbefore.
      * rewrite Hin. intros Hf. by apply Hnot, (Forall_lookup_1 _ _ _ _ Hf Hx).
      * intros k Hk _. rewrite Hin. intros Hf. apply Hnot, (Forall_lookup_1 _ _ 0 _ Hf). apply lookup_take_Some. split; [|done]. by rewrite lookup_drop, Nat.add_0_r.
    + apply position_none' in Ep. apply Hin. eapply Forall_impl; [exact Ep|]. intros b. apply undefined_some.
Qed.

(** ** The transcoder *)

Definition read_as (c : Codec) (s : bytes) : bytes := mjoin ((fun b => encode_utf8 (default 0%Z (in_table (high_half c) b))) <$> s).
Lemma encode_some x : encode_utf8 x <> [].
Proof. unfold encode_utf8. by repeat case_match. Qed.
Lemma read_as_app c a b : read_as c (a ++ b) = read_as c a ++ read_as c b.
Proof. unfold read_as. by rewrite fmap_app, join_app. Qed.
Lemma transcode_ok c raw : forall out, Forall (fun b => is_Some (in_table (high_half c) b)) raw -> transcode (high_half c) raw out = (out ++ read_as c raw, None).
Proof.
  induction raw as [|b raw IH]; intros out Hf; cbn [transcode]; [by rewrite app_nil_r|]. apply Forall_cons in Hf as [[x Hx] Hf]. rewrite Hx, IH by done.
  change (read_as c (b :: raw)) with (encode_utf8 (default 0%Z (in_table (high_half c) b)) ++ read_as c raw). by rewrite Hx, <- app_assoc.
Qed.
(** Reading to the end with buffers of any sizes; an interrupted read is made again. *)
Fixpoint drained (table : list (option Z)) (size : nat -> nat) (fuel : nat) (t : Transcoder) : option (ReadError + bytes) :=
  match fuel with
  | O => None
  | S fuel =>
      match transcoder_read table (S (size fuel)) t with
      | (inl ReInterrupted, t) => drained table size fuel t
      | (inl e, _) => Some (inl e)
      | (inr [], _) => Some (inr [])
      | (inr got, t) => match drained table size fuel t with Some (inr rest) => Some (inr (got ++ rest)) | r => r end
      end
  end.
Definition left_over (c : Codec) (t : Transcoder) : bytes := drop (tc_at t) (tc_out t) ++ read_as c (content (tc_inner t)).
Lemma give_ok c n t : tc_at t < length (tc_out t) -> exists got t', give (S n) t = (inr got, t') /\ got <> [] /\ left_over c t = got ++ left_over c t' /\ tc_inner t' = tc_inner t
  /\ tc_at t' <= length (tc_out t').
Proof.
  intros Hlt. unfold give. do 2 eexists. split; [reflexivity|]. set (rest := drop (tc_at t) (tc_out t)). assert (length rest = length (tc_out t) - tc_at t) as Hl by (unfold rest; by rewrite length_drop).
  split; [intros E; apply (f_equal length) in E; rewrite length_take, Hl in E; change (length (@nil Z)) with 0 in E; lia|]. split; [|split; [done|cbn [tc_at tc_out]; rewrite length_take; lia]]. unfold left_over. cbn [tc_at tc_out tc_inner]. fold rest.
  rewrite app_assoc. f_equal. rewrite <- drop_drop. fold rest. rewrite length_take. rewrite <- (take_drop (S n) rest) at 1. f_equal.
  destruct (Nat.le_ge_cases (S n) (length rest)); [by rewrite Nat.min_l|]. rewrite Nat.min_r by done. by rewrite !drop_ge by lia.
Qed.
Lemma drained_ok c size fuel : forall t, clean (tc_inner t) -> Forall (fun b => is_Some (in_table (high_half c) b)) (content (tc_inner t)) -> tc_at t <= length (tc_out t) ->
  length (tc_inner t) + length (left_over c t) < fuel -> drained (high_half c) size fuel t = Some (inr (left_over c t)).
Proof.
  induction fuel as [|fuel IH]; intros t Hc Hf Hat Hfuel; [lia|]. cbn [drained]. unfold transcoder_read. destruct (Nat.eqb_spec (tc_at t) (length (tc_out t))) as [He|He].
  - assert (left_over c t = read_as c (content (tc_inner t))) as Hleft by (unfold left_over; rewrite He, drop_all; done).
    destruct (tc_inner t) as [|[|e|raw] reads] eqn:Ei.
    + by rewrite Hleft.
    + apply Forall_cons in Hc as [_ Hc]. set (t1 := MkTranscoder reads (tc_out t) (tc_at t)). assert (left_over c t = left_over c t1) as Hl by (unfold left_over; by rewrite Ei).
      rewrite Hl. apply IH; [done|done|done|]. rewrite Hl in Hfuel. cbn [tc_inner t1 length] in *. lia.
    + by apply Forall_cons in Hc as [[] _].
    + apply Forall_cons in Hc as [Hne Hc]. rewrite content_cons in Hf, Hleft. apply Forall_app in Hf as [Hf1 Hf2]. rewrite transcode_ok by done. cbn [app]. rewrite read_as_app in Hleft.
      set (t1 := MkTranscoder reads (read_as c raw) 0). assert (left_over c t1 = left_over c t) as Ht1 by (rewrite Hleft; done).
      destruct raw as [|b raw]; [done|]. assert (0 < length (read_as c (b :: raw))) as Hpos.
      { change (read_as c (b :: raw)) with (encode_utf8 (default 0%Z (in_table (high_half c) b)) ++ read_as c raw). rewrite length_app.
        pose proof (encode_some (default 0%Z (in_table (high_half c) b))) as Hs. destruct (encode_utf8 _); [done|cbn; lia]. }
      destruct (give_ok c (size fuel) t1 Hpos) as (got & t2 & Hg & Hgot & Hl2 & Hi2 & Hat2). rewrite Hg. destruct got as [|g got]; [done|].
      rewrite IH; rewrite ?Hi2; [by rewrite <- Hl2, Ht1|done|done|done|]. rewrite <- Ht1, Hl2, length_app in Hfuel. cbn in *. lia.
  - destruct (give_ok c (size fuel) t ltac:(lia)) as (got & t2 & Hg & Hgot & Hl2 & Hi2 & Hat2). rewrite Hg. destruct got as [|g got]; [done|].
    rewrite IH; rewrite ?Hi2; [by rewrite <- Hl2|done|done|done|]. rewrite Hl2, length_app in Hfuel. cbn in *. lia.
Qed.

(** ** A text exported in a page *)

Lemma encode_two b c : (194 <= b <= 223)%Z -> (128 <= c <= 191)%Z -> encode_utf8 ((b - 192) * 64 + (c - 128)) = [b; c].
Proof.
  intros Hb Hc. unfold encode_utf8. set (x := ((b - 192) * 64 + (c - 128))%Z). assert (128 <= x < 2048)%Z by (unfold x; lia). rewrite (proj2 (Z.ltb_ge _ _)), (proj2 (Z.ltb_lt _ _)) by lia.
  assert (192 + x / 64 = b)%Z as -> by (unfold x; div_lia). assert (128 + x mod 64 = c)%Z as -> by (unfold x; div_lia). done.
Qed.
Lemma encode_three b c d : (224 <= b <= 239)%Z -> (128 <= c <= 191)%Z -> (128 <= d <= 191)%Z -> (b = 224 -> 160 <= c)%Z ->
  encode_utf8 ((b - 224) * 4096 + (c - 128) * 64 + (d - 128)) = [b; c; d].
Proof.
  intros Hb Hc Hd Hs. unfold encode_utf8. set (x := ((b - 224) * 4096 + (c - 128) * 64 + (d - 128))%Z). assert (2048 <= x < 65536)%Z by (unfold x; lia).
  replace (x <? 128)%Z with false by lia. replace (x <? 2048)%Z with false by lia. replace (x <? 65536)%Z with true by lia.
  assert (224 + x / 4096 = b)%Z as -> by (unfold x; div_lia). assert (128 + x / 64 mod 64 = c)%Z as -> by (unfold x; div_lia). assert (128 + x mod 64 = d)%Z as -> by (unfold x; div_lia). done.
Qed.
Lemma encode_four b c d e : (240 <= b <= 244)%Z -> (128 <= c <= 191)%Z -> (128 <= d <= 191)%Z -> (128 <= e <= 191)%Z -> (b = 240 -> 144 <= c)%Z ->
  encode_utf8 ((b - 240) * 262144 + (c - 128) * 4096 + (d - 128) * 64 + (e - 128)) = [b; c; d; e].
Proof.
  intros Hb Hc Hd He Hs. unfold encode_utf8. set (x := ((b - 240) * 262144 + (c - 128) * 4096 + (d - 128) * 64 + (e - 128))%Z). assert (65536 <= x)%Z by (unfold x; lia).
  replace (x <? 128)%Z with false by lia. replace (x <? 2048)%Z with false by lia. replace (x <? 65536)%Z with false by lia.
  assert (240 + x / 262144 = b)%Z as -> by (unfold x; div_lia). assert (128 + x / 4096 mod 64 = c)%Z as -> by (unfold x; div_lia).
  assert (128 + x / 64 mod 64 = d)%Z as -> by (unfold x; div_lia). assert (128 + x mod 64 = e)%Z as -> by (unfold x; div_lia). done.
Qed.
(** A Rust string is the UTF-8 form of its characters. *)
Lemma encode_chars n : forall s, length s <= n -> valid_utf8 s = true -> mjoin (encode_utf8 <$> chars s) = s.
Proof.
  induction n as [|n IH]; intros s Hn Hv; (destruct s as [|b s]; [done|]); cbn [length] in Hn; [lia|]. cbn [valid_utf8] in Hv. cbn [chars].
  assert (forall x cs, mjoin (encode_utf8 <$> x :: cs) = encode_utf8 x ++ mjoin (encode_utf8 <$> cs)) as Hj by done.
  destruct (b <? 128)%Z eqn:E1; [rewrite Hj, IH by (done || lia); unfold encode_utf8; by rewrite E1|].
  destruct ((194 <=? b) && (b <=? 223))%Z eqn:E2.
  { replace (b <? 224)%Z with true by lia. destruct s as [|c s]; [done|]. apply andb_true_iff in Hv as [Hc Hv]. cbn [length] in Hn. rewrite Hj, IH by (done || lia). by rewrite encode_two by lia. }
  destruct ((224 <=? b) && (b <=? 239))%Z eqn:E3.
  { replace (b <? 224)%Z with false by lia. replace (b <? 240)%Z with true by lia. destruct s as [|c [|d s]]; [done..|]. rewrite !andb_true_iff in Hv. destruct Hv as [[[Hc1 Hc2] Hd] Hv].
    cbn [length] in Hn. rewrite Hj, IH by (done || lia). rewrite encode_three; [done|lia|destruct (b =b 224), (b =b 237); lia|lia|]. intros ->. cbn in Hc1. lia. }
  destruct ((240 <=? b) && (b <=? 244))%Z eqn:E4; [|done].
  replace (b <? 224)%Z with false by lia. replace (b <? 240)%Z with false by lia. destruct s as [|c [|d [|e s]]]; [done..|]. rewrite !andb_true_iff in Hv. destruct Hv as [[[[Hc1 Hc2] Hd] He] Hv].
  cbn [length] in Hn. rewrite Hj, IH by (done || lia). rewrite encode_four; [done|lia|destruct (b =b 240), (b =b 244); lia|lia|lia|]. intros ->. cbn in Hc1. lia.
Qed.
Lemma byte_of_range c x b : c <> Utf8 -> byte_of c x = Some b -> (b <= 0xFF)%Z.
Proof.
  intros Hc Hb. destruct c; [done|..]; cbn in Hb.
  1,2: destruct (x <=? _)%Z eqn:E; [|done]; injection Hb as <-; lia.
  all: unfold high_byte in Hb; destruct (x <=? 127)%Z eqn:E; [injection Hb as <-; lia|]; destruct (position _ _) as [i|] eqn:Ei; [|done];
    apply position_some in Ei as ((y & Hy & _) & _); apply lookup_lt_Some in Hy; injection Hb as <-; cbn in Hy; lia.
Qed.
Lemma encoded_bytes c t : c <> Utf8 -> Forall (fun x => held c x = true) (chars t) ->
  Forall (fun b => is_Some (in_table (high_half c) b)) (codec_encode c t) /\ read_as c (codec_encode c t) = mjoin (encode_utf8 <$> chars t) /\ Forall (fun b => b <= 0xFF)%Z (codec_encode c t).
Proof.
  intros Hc. assert (codec_encode c t = (fun x => default 63%Z (byte_of c x)) <$> chars t) as -> by (by destruct c). induction 1 as [|x cs Hx _ (IH1 & IH2 & IH3)]; [split; [constructor|split; [done|constructor]]|].
  rewrite fmap_cons. unfold held in Hx. destruct (byte_of c x) as [b|] eqn:Eb; [|done]. pose proof (byte_of_range c x b Hc Eb) as Hr. pose proof (proj2 (in_table_spec c b x Hc Hr) Eb) as Ht.
  change (default 63%Z (Some b)) with b. split; [constructor; [by eexists|done]|]. split; [|by constructor].
  change (read_as c (b :: ((fun x => default 63%Z (byte_of c x)) <$> cs)))
    with (encode_utf8 (default 0%Z (in_table (high_half c) b)) ++ read_as c ((fun x => default 63%Z (byte_of c x)) <$> cs)). rewrite Ht, IH2. done.
Qed.
(** C22: A text exported in a code page is the text imported from it. When the page holds every character of the text,
    the file [codec_encode] makes of it passes the check of the import in that page, and what the csv parser is
    given - by the transcoder, or the file itself for UTF-8 - is that very text, byte for byte, whatever sizes the
    reads and the buffers have and wherever a read is interrupted. *)
Theorem code_pages_round_trip (c : Codec) (t : bytes) (reads : list FileRead) (size : nat -> nat) :
  valid_utf8 t = true -> Forall (fun x => held c x = true) (chars t) -> clean reads -> content reads = codec_encode c t ->
  scan c (inr reads) = inr tt
  /\ if codec_is_utf8 c then content reads = t
     else drained (high_half c) size (S (length reads + length t)) (MkTranscoder reads [] 0) = Some (inr t).
Proof.
  intros Hv Hh Hc Ht. destruct (decide (c = Utf8)) as [->|Hne].
  - split; [|done]. cbn in Ht. unfold scan. cbn [codec_is_utf8]. rewrite scan_utf8 by done. cbn. rewrite Ht. unfold utf8_verdict. pose proof (from_utf8_valid (length t) t ltac:(done)) as Hf.
    destruct (from_utf8 t) as [[v cut]|]; [|done]. destruct Hf as (_ & _ & Hf & _). congruence.
  - destruct (encoded_bytes c t Hne Hh) as (Hb & Hr & _). assert (codec_is_utf8 c = false) as -> by (by destruct c). rewrite (encode_chars (length t)) in Hr by done. split.
    + unfold scan. assert (codec_is_utf8 c = false) as -> by (by destruct c). destruct (forallb _ _); [done|]. rewrite scan_page by done. unfold page_verdict. cbn [sn_offset sn_line].
      destruct (position (undefined c) (content reads)) as [v|] eqn:Ep; [|done]. pose proof Ep as ((x & Hx & Hu) & _)%position_some. rewrite Ht in Hx. pose proof (Forall_lookup_1 _ _ _ _ Hb Hx) as Hs.
      apply undefined_some in Hs. congruence.
    + assert (left_over c (MkTranscoder reads [] 0) = t) as Hl by (unfold left_over; cbn [tc_at tc_out tc_inner drop app]; by rewrite Ht, Hr).
      pose proof (drained_ok c size (S (length reads + length t)) (MkTranscoder reads [] 0)) as Hd. rewrite Hl in Hd. apply Hd; [done|cbn [tc_inner]; by rewrite Ht|done|cbn; lia].
Qed.

(** ** A small file *)

Definition small_text : bytes := B "caf" ++ encode_utf8 0xE9 ++ [LF] ++ encode_utf8 0x20AC.
Definition small_reads : list FileRead := [Got (B "ca"); Interrupted; Got (B "f" ++ [0xE9; LF]%Z); Got [0x80%Z]].
Lemma code_pages_round_trip_witness : scan Cp1252 (inr small_reads) = inr tt
  /\ drained (high_half Cp1252) (fun n => n mod 2) (S (length small_reads + length small_text)) (MkTranscoder small_reads [] 0) = Some (inr small_text).
Proof.
  exact (code_pages_round_trip Cp1252 small_text small_reads (fun n => n mod 2) ltac:(vm_compute; reflexivity) ltac:(repeat constructor) ltac:(repeat constructor; discriminate) ltac:(vm_compute; reflexivity)).
Defined.
(** In UTF-8 the same bytes are refused at the accented letter, on the line and the byte it is at. *)
Lemma file_is_checked_exactly_witness : exists line v message, scan Utf8 (inr small_reads) = inl (CeEncoding line v message) /\ ~ in_page Utf8 (content small_reads).
Proof.
  pose proof (file_is_checked_exactly Utf8 small_reads ltac:(repeat constructor; discriminate) ltac:(repeat constructor; vm_compute; discriminate)) as Hf.
  destruct (scan Utf8 (inr small_reads)) as [e|[]] eqn:E; [|vm_compute in E; discriminate E]. destruct Hf as (v & message & -> & _ & _ & Hn & _). do 3 eexists. split; [reflexivity|exact Hn].
Defined.
Example small_refusal : scan Utf8 (inr small_reads) = inl (CeEncoding 1 3 NOT_UTF8).
Proof. vm_compute. reflexivity. Qed.
