(* ===== verification/Tagged.v ===== *)
(** * Tagged: one cell as a self-delimiting blob, [crates/qh-columnar/src/tagged.rs].

    [encode_value] writes a cell after its tag, [decode_value] reads it back through a bounds-checked
    [Reader]. The reader's depth is the [room] left under [MAX_DEPTH]: a nested value is refused where
    the code refuses it, and the recursion is structural. *)
From S2P Require Import Prelude Bytes Text Value.
#[local] Open Scope nat_scope.

Inductive ColumnarError :=
| UnknownEncoding (name : bytes)
| MissingEncoding (field : bytes)
| Mismatch (encoding data_type : bytes)
| Corrupt (detail : bytes)
| Width (expected found : nat)
| ArrowRefused (message : bytes).

(** The error's text. *)
Definition columnar_text (e : ColumnarError) : bytes :=
  match e with
  | UnknownEncoding name => B "unknown chunk encoding: " ++ name
  | MissingEncoding field => B "chunk field " ++ field ++ B " carries no qh.enc metadata"
  | Mismatch encoding data_type => B "encoding " ++ encoding ++ B " does not fit " ++ data_type
  | Corrupt detail => B "tagged value is damaged: " ++ detail
  | Width expected found =>
      B "batch has " ++ decimal (Z.of_nat found) ++ B " columns but the builder holds " ++ decimal (Z.of_nat expected)
  | ArrowRefused message => B "arrow: " ++ message
  end.

(** [f64::to_bits] and [f64::from_bits]. *)
Class FloatBits `{Float} := {
  to_bits : f64 -> Z;
  from_bits : Z -> f64;
  to_bits_range : forall x, (0 <= to_bits x < 2 ^ 64)%Z;
  from_to_bits : forall x, from_bits (to_bits x) = x;
}.

Definition TAG_NULL : Z := 0.
Definition TAG_BOOL : Z := 1.
Definition TAG_INT : Z := 2.
Definition TAG_UINT : Z := 3.
Definition TAG_FLOAT : Z := 4.
Definition TAG_DECIMAL : Z := 5.
Definition TAG_TEXT : Z := 6.
Definition TAG_BYTES : Z := 7.
Definition TAG_TIMESTAMP : Z := 8.
Definition TAG_DATE : Z := 9.
Definition TAG_TIME : Z := 10.
Definition TAG_INTERVAL : Z := 11.
Definition TAG_JSON : Z := 12.
Definition TAG_ARRAY : Z := 13.
Definition TAG_ROW : Z := 14.
Definition TAG_MAP : Z := 15.
Definition TAG_UNKNOWN : Z := 16.
Definition HAS_TEXT : Z := 1.
Definition HAS_RAW : Z := 2.
Definition MAX_DEPTH : nat := 64.
Definition LENGTH_LIMIT : Z := 256 * 1024 * 1024.
Definition USIZE_MAX : Z := 2 ^ 64 - 1.

Definition too_deep {A} : ColumnarError + A := inl (Corrupt (B "value nests deeper than 64")).

Section Codec.
Context `{FloatBits}.

(** ** Encoding *)

Definition encode_bytes (s : bytes) : bytes := le_bytes 4 (Z.of_nat (length s)) ++ s.
Local Notation "'let?' x := e 'in' k" := (match e with inl err => inl err | inr x => k end) (at level 10, x name, e at level 100, k at level 200).

(** The loop over items, nested one level deeper. *)
Definition encode_all {A} (f : A -> ColumnarError + bytes) : list A -> ColumnarError + bytes :=
  fix go l := match l with [] => inr [] | x :: l => let? a := f x in let? rest := go l in inr (a ++ rest) end.

(** What [encode_at] appends. *)
Fixpoint encode_at (v : Value) (depth : nat) {struct v} : ColumnarError + bytes :=
  if MAX_DEPTH <? depth then too_deep
  else
    match v with
    | VNull => inr [TAG_NULL]
    | VBool b => inr [TAG_BOOL; if b then 1%Z else 0%Z]
    | VInt n => inr (TAG_INT :: le_bytes 8 n)
    | VUInt n => inr (TAG_UINT :: le_bytes 8 n)
    | VFloat f => inr (TAG_FLOAT :: le_bytes 8 (to_bits f))
    | VDecimal unscaled scale => inr (TAG_DECIMAL :: le_bytes 16 unscaled ++ [scale])
    | VText t => inr (TAG_TEXT :: encode_bytes t)
    | VBytes b => inr (TAG_BYTES :: encode_bytes b)
    | VJson t => inr (TAG_JSON :: encode_bytes t)
    | VTimestamp micros offset =>
        inr (TAG_TIMESTAMP :: le_bytes 8 micros ++ match offset with Some o => 1%Z :: le_bytes 4 o | None => [0%Z] end)
    | VDate days => inr (TAG_DATE :: le_bytes 4 days)
    | VTime micros => inr (TAG_TIME :: le_bytes 8 micros)
    | VInterval i => inr (TAG_INTERVAL :: le_bytes 4 (months i) ++ le_bytes 4 (iv_days i) ++ le_bytes 8 (iv_micros i))
    | VArray items =>
        let? body := encode_all (fun x => encode_at x (S depth)) items in
        inr (TAG_ARRAY :: le_bytes 4 (Z.of_nat (length items)) ++ body)
    | VRow items =>
        let? body := encode_all (fun x => encode_at x (S depth)) items in
        inr (TAG_ROW :: le_bytes 4 (Z.of_nat (length items)) ++ body)
    | VMap pairs =>
        let? body := encode_all (fun p => let? k := encode_at p.1 (S depth) in let? x := encode_at p.2 (S depth) in inr (k ++ x)) pairs in
        inr (TAG_MAP :: le_bytes 4 (Z.of_nat (length pairs)) ++ body)
    | VUnknown type_name text raw =>
        let flags := Z.lor (match text with Some _ => HAS_TEXT | None => 0 end) (match raw with Some _ => HAS_RAW | None => 0 end) in
        let part o := match o with Some s => encode_bytes s | None => [] end in
        inr (TAG_UNKNOWN :: encode_bytes type_name ++ [flags] ++ part text ++ part raw)
    end.
Definition encode_value (v : Value) : ColumnarError + bytes := encode_at v 0.

(** ** Decoding *)

Record Reader := MkReader { rd_bytes : bytes; rd_position : nat }.
Definition reader_new (s : bytes) : Reader := MkReader s 0.
Definition reader_is_empty (r : Reader) : bool := length (rd_bytes r) <=? rd_position r.
Definition Rd (A : Type) : Type := Reader -> ColumnarError + (A * Reader).
Definition rd_ret {A} (x : A) : Rd A := fun r => inr (x, r).
Definition rd_fail {A} (detail : bytes) : Rd A := fun _ => inl (Corrupt detail).
Definition rd_bind {A C} (m : Rd A) (k : A -> Rd C) : Rd C := fun r => match m r with inl e => inl e | inr (x, r) => k x r end.
Local Notation "'let!' x := m 'in' k" := (rd_bind m (fun x => k)) (at level 10, x name, m at level 100, k at level 200).

Definition take_ (count : Z) : Rd bytes := fun r =>
  let end_ := (Z.of_nat (rd_position r) + count)%Z in
  if (USIZE_MAX <? end_)%Z then inl (Corrupt (B "length overflow"))
  else if (end_ <=? Z.of_nat (length (rd_bytes r)))%Z then
    inr (firstn (Z.to_nat count) (skipn (rd_position r) (rd_bytes r)), MkReader (rd_bytes r) (Z.to_nat end_))
  else inl (Corrupt (B "wanted " ++ decimal count ++ B " bytes at " ++ decimal (Z.of_nat (rd_position r)) ++ B " of "
                     ++ decimal (Z.of_nat (length (rd_bytes r))))).
Definition rd_unsigned (k : nat) : Rd Z := let! s := take_ (Z.of_nat k) in rd_ret (from_le s).
Definition rd_u8 : Rd Z := rd_unsigned 1.
Definition rd_u32 : Rd Z := rd_unsigned 4.
Definition rd_u64 : Rd Z := rd_unsigned 8.
Definition rd_i32 : Rd Z := let! n := rd_u32 in rd_ret (as_signed 32 n).
Definition rd_i64 : Rd Z := let! n := rd_u64 in rd_ret (as_signed 64 n).
Definition rd_i128 : Rd Z := let! n := rd_unsigned 16 in rd_ret (as_signed 128 n).
Definition length_prefixed : Rd bytes :=
  let! len := rd_u32 in
  if (LENGTH_LIMIT <? len)%Z then rd_fail (B "length prefix " ++ decimal len ++ B " over 256 MiB") else take_ len.
Definition rd_text : Rd bytes :=
  let! s := length_prefixed in if valid_utf8 s then rd_ret s else rd_fail (B "invalid UTF-8 in text").

Fixpoint read_times {A} (count : nat) (m : Rd A) : Rd (list A) :=
  match count with O => rd_ret [] | S count => let! x := m in let! l := read_times count m in rd_ret (x :: l) end.

(** The arms of [decode_value], given how a nested value is read ([decode_nested]). *)
Definition decode_composite (nested : Rd Value) : Rd (list Value) := let! count := rd_u32 in read_times (Z.to_nat count) nested.
Definition decode_tagged (nested : Rd Value) (tag : Z) : Rd Value :=
  if (tag =? TAG_NULL)%Z then rd_ret VNull
  else if (tag =? TAG_BOOL)%Z then let! b := rd_u8 in rd_ret (VBool (negb (b =? 0)%Z))
  else if (tag =? TAG_INT)%Z then let! n := rd_i64 in rd_ret (VInt n)
  else if (tag =? TAG_UINT)%Z then let! n := rd_u64 in rd_ret (VUInt n)
  else if (tag =? TAG_FLOAT)%Z then let! n := rd_u64 in rd_ret (VFloat (from_bits n))
  else if (tag =? TAG_DECIMAL)%Z then let! n := rd_i128 in let! s := rd_u8 in rd_ret (VDecimal n s)
  else if (tag =? TAG_TEXT)%Z then let! t := rd_text in rd_ret (VText t)
  else if (tag =? TAG_BYTES)%Z then let! b := length_prefixed in rd_ret (VBytes b)
  else if (tag =? TAG_JSON)%Z then let! t := rd_text in rd_ret (VJson t)
  else if (tag =? TAG_TIMESTAMP)%Z then
    let! micros := rd_i64 in let! flag := rd_u8 in
    if (flag =? 0)%Z then rd_ret (VTimestamp micros None)
    else if (flag =? 1)%Z then let! o := rd_i32 in rd_ret (VTimestamp micros (Some o))
    else rd_fail (B "timestamp offset flag " ++ decimal flag)
  else if (tag =? TAG_DATE)%Z then let! d := rd_i32 in rd_ret (VDate d)
  else if (tag =? TAG_TIME)%Z then let! n := rd_i64 in rd_ret (VTime n)
  else if (tag =? TAG_INTERVAL)%Z then
    let! m := rd_i32 in let! d := rd_i32 in let! n := rd_i64 in rd_ret (VInterval (MkInterval m d n))
  else if (tag =? TAG_ARRAY)%Z then let! l := decode_composite nested in rd_ret (VArray l)
  else if (tag =? TAG_ROW)%Z then let! l := decode_composite nested in rd_ret (VRow l)
  else if (tag =? TAG_MAP)%Z then
    let! count := rd_u32 in
    let! l := read_times (Z.to_nat count) (let! k := nested in let! x := nested in rd_ret (k, x)) in rd_ret (VMap l)
  else if (tag =? TAG_UNKNOWN)%Z then
    let! type_name := rd_text in let! flags := rd_u8 in
    if negb (Z.ldiff flags (Z.lor HAS_TEXT HAS_RAW) =? 0)%Z then rd_fail (B "unknown-value flags " ++ decimal flags)
    else
      let! text := (if negb (Z.land flags HAS_TEXT =? 0)%Z then let! t := rd_text in rd_ret (Some t) else rd_ret None) in
      let! raw := (if negb (Z.land flags HAS_RAW =? 0)%Z then let! t := length_prefixed in rd_ret (Some t) else rd_ret None) in
      rd_ret (VUnknown type_name text raw)
  else rd_fail (B "value tag " ++ decimal tag).
Fixpoint decode_value (room : nat) {struct room} : Rd Value :=
  let! tag := rd_u8 in decode_tagged (match room with O => fun _ => too_deep | S room => decode_value room end) tag.
End Codec.
