(* ===== verification/TaggedSpec.v ===== *)
(** * TaggedSpec: a cell written as a blob is read back as it was, for [Tagged]. *)
From S2P Require Import Prelude Bytes Text Dates Value ValueSpec Tagged.
#[local] Open Scope nat_scope.

(** ** Induction over a value *)

#[local] Arguments le_bytes : simpl never.
#[local] Opaque le_bytes.

Section Induction.
Context `{Float}.
Variable P : Value -> Prop.
Hypothesis leaf : forall v, match v with VArray _ | VRow _ | VMap _ => True | _ => P v end.
Hypothesis array : forall l, Forall P l -> P (VArray l).
Hypothesis row : forall l, Forall P l -> P (VRow l).
Hypothesis map : forall l, Forall (fun p => P p.1 /\ P p.2) l -> P (VMap l).
Fixpoint value_nested_ind (v : Value) : P v :=
  match v as v return (match v with VArray _ | VRow _ | VMap _ => True | _ => P v end -> P v) with
  | VArray l => fun _ => array l ((fix go l : Forall P l := match l with [] => Forall_nil_2 P | x :: l => Forall_cons_2 P x l (value_nested_ind x) (go l) end) l)
  | VRow l => fun _ => row l ((fix go l : Forall P l := match l with [] => Forall_nil_2 P | x :: l => Forall_cons_2 P x l (value_nested_ind x) (go l) end) l)
  | VMap l => fun _ => map l ((fix go l : Forall (fun p => P p.1 /\ P p.2) l := match l with [] => Forall_nil_2 _ | p :: l =>
      Forall_cons_2 (fun p => P p.1 /\ P p.2) p l (conj (value_nested_ind p.1) (value_nested_ind p.2)) (go l) end) l)
  | _ => fun H => H
  end (leaf v).
End Induction.

(** ** Values a blob holds *)

Section Spec.
Context `{FloatBits}.

Definition length_ok (s : bytes) : bool := (Z.of_nat (length s) <=? LENGTH_LIMIT)%Z.
Definition text_ok (s : bytes) : bool := valid_utf8 s && length_ok s.
Definition count_ok {A} (l : list A) : bool := (Z.of_nat (length l) <? 2 ^ 32)%Z.
Definition opt_ok {A} (f : A -> bool) (o : option A) : bool := match o with Some x => f x | None => true end.
(** The widths of the source's integers, texts of at most 256 MiB, and counts of 32 bits. *)
Fixpoint cell_ok (v : Value) : bool :=
  match v with
  | VNull | VBool _ | VFloat _ => true
  | VInt n | VTime n => fits_i64 n
  | VUInt n => ((0 <=? n) && (n <? 2 ^ 64))%Z
  | VDecimal u _ => ((- 2 ^ 127 <=? u) && (u <? 2 ^ 127))%Z
  | VText t | VJson t => text_ok t
  | VBytes b => length_ok b
  | VTimestamp m o => fits_i64 m && opt_ok fits_i32 o
  | VDate d => fits_i32 d
  | VInterval i => fits_i32 (months i) && fits_i32 (iv_days i) && fits_i64 (iv_micros i)
  | VArray l | VRow l => count_ok l && forallb cell_ok l
  | VMap l => count_ok l && forallb (fun p => cell_ok p.1 && cell_ok p.2) l
  | VUnknown n t r => text_ok n && opt_ok text_ok t && opt_ok length_ok r
  end.
(** How many levels of arrays, rows and maps a value has below it. *)
Fixpoint nesting (v : Value) : nat :=
  match v with
  | VArray l | VRow l => list_max ((fun x => S (nesting x)) <$> l)
  | VMap l => list_max ((fun p => S (Nat.max (nesting p.1) (nesting p.2))) <$> l)
  | _ => 0
  end.

(** ** Reading what was written *)

Definition in_memory (s : bytes) : Prop := (Z.of_nat (length s) <= USIZE_MAX)%Z.
(** [m] reads [x] off the bytes [s], wherever they stand, and stops behind them. *)
Definition reads {A} (m : Rd A) (x : A) (s : bytes) : Prop := forall pre post, in_memory (pre ++ s ++ post) ->
  m (MkReader (pre ++ s ++ post) (length pre)) = inr (x, MkReader (pre ++ s ++ post) (length pre + length s)).

Lemma reads_ret {A} (x : A) : reads (rd_ret x) x [].
Proof. intros pre post _. unfold rd_ret. by rewrite Nat.add_0_r. Qed.
Lemma reads_bind {A C} (m : Rd A) (k : A -> Rd C) x y a b : reads m x a -> reads (k x) y b -> reads (rd_bind m k) y (a ++ b).
Proof.
  intros Hm Hk pre post Hin. unfold rd_bind. rewrite <- app_assoc in *. rewrite (Hm pre (b ++ post) Hin).
  rewrite (app_assoc pre a (b ++ post)) in *. rewrite <- length_app. rewrite (Hk (pre ++ a) post Hin). by rewrite !length_app, Nat.add_assoc.
Qed.
Lemma reads_last {A C} (m : Rd A) (k : A -> Rd C) x y a : reads m x a -> reads (k x) y [] -> reads (rd_bind m k) y a.
Proof. intros Hm Hk. rewrite <- (app_nil_r a). by apply (reads_bind _ _ x). Qed.
Lemma reads_take s : reads (take_ (Z.of_nat (length s))) s s.
Proof.
  intros pre post Hin. unfold take_, in_memory in *. cbn [rd_bytes rd_position]. rewrite !length_app in *.
  destruct (Z.ltb_spec USIZE_MAX (Z.of_nat (length pre) + Z.of_nat (length s))); [lia|].
  destruct (Z.leb_spec (Z.of_nat (length pre) + Z.of_nat (length s)) (Z.of_nat (length pre + (length s + length post)))); [|lia].
  rewrite skipn_app, skipn_all, Nat.sub_diag, skipn_O, app_nil_l, Nat2Z.id, firstn_app, firstn_all, Nat.sub_diag, firstn_O, app_nil_r.
  do 3 f_equal. lia.
Qed.
Lemma reads_unsigned k n : reads (rd_unsigned k) (n mod 256 ^ Z.of_nat k)%Z (le_bytes k n).
Proof.
  unfold rd_unsigned. rewrite <- (le_bytes_length k n) at 1. apply (reads_last _ _ (le_bytes k n)); [apply reads_take|].
  rewrite from_le_bytes. apply reads_ret.
Qed.
Lemma reads_u8 b : reads rd_u8 b [b].
Proof.
  unfold rd_u8, rd_unsigned. change (Z.of_nat 1) with (Z.of_nat (length [b])). apply (reads_last _ _ [b]); [apply reads_take|].
  cbn [from_le]. rewrite Z.mul_0_r, Z.add_0_r. apply reads_ret.
Qed.
Lemma reads_u32 n : (0 <= n < 2 ^ 32)%Z -> reads rd_u32 n (le_bytes 4 n).
Proof. intros Hn. rewrite <- (Z.mod_small n (2 ^ 32)) at 1 by done. apply reads_unsigned. Qed.
Lemma reads_u64 n : (0 <= n < 2 ^ 64)%Z -> reads rd_u64 n (le_bytes 8 n).
Proof. intros Hn. rewrite <- (Z.mod_small n (2 ^ 64)) at 1 by done. apply reads_unsigned. Qed.
Lemma reads_signed k w n : (0 < w)%Z -> (256 ^ Z.of_nat k = 2 ^ w)%Z -> (- 2 ^ (w - 1) <= n < 2 ^ (w - 1))%Z ->
  reads (rd_bind (rd_unsigned k) (fun n => rd_ret (as_signed w n))) n (le_bytes k n).
Proof.
  intros Hw Hk Hn. apply (reads_last _ _ (n mod 2 ^ w)%Z); [rewrite <- Hk; apply reads_unsigned|].
  rewrite as_signed_mod by done. apply reads_ret.
Qed.
Lemma reads_i32 n : fits_i32 n = true -> reads rd_i32 n (le_bytes 4 n).
Proof. intros Hn. apply reads_signed; [done|done|]. unfold fits_i32 in Hn. change (2 ^ (32 - 1))%Z with (2 ^ 31)%Z. lia. Qed.
Lemma reads_i64 n : fits_i64 n = true -> reads rd_i64 n (le_bytes 8 n).
Proof. intros Hn. apply reads_signed; [done|done|]. unfold fits_i64 in Hn. change (2 ^ (64 - 1))%Z with (2 ^ 63)%Z. lia. Qed.
Lemma reads_i128 n : ((- 2 ^ 127 <=? n) && (n <? 2 ^ 127))%Z = true -> reads rd_i128 n (le_bytes 16 n).
Proof. intros Hn. apply reads_signed; [done|done|]. change (2 ^ (128 - 1))%Z with (2 ^ 127)%Z. lia. Qed.
Lemma reads_prefixed s : length_ok s = true -> reads length_prefixed s (encode_bytes s).
Proof.
  unfold length_ok. intros Hs%Z.leb_le. unfold length_prefixed, encode_bytes. apply (reads_bind _ _ (Z.of_nat (length s))).
  { apply reads_u32. unfold LENGTH_LIMIT in Hs. change (2 ^ 32)%Z with 4294967296%Z. lia. }
  destruct (Z.ltb_spec LENGTH_LIMIT (Z.of_nat (length s))); [lia|]. apply reads_take.
Qed.
Lemma reads_text s : text_ok s = true -> reads rd_text s (encode_bytes s).
Proof.
  unfold text_ok. intros [Hv Hl]%andb_prop. unfold rd_text. apply (reads_last _ _ s); [by apply reads_prefixed|]. rewrite Hv. apply reads_ret.
Qed.
Lemma reads_times {A} (m : Rd A) xs ss : Forall2 (reads m) xs ss -> reads (read_times (length xs) m) xs (concat ss).
Proof.
  induction 1 as [|x s xs ss Hx _ IH]; [apply reads_ret|]. cbn [length read_times concat].
  apply (reads_bind _ _ x); [done|]. apply (reads_last _ _ xs); [done|]. apply reads_ret.
Qed.

Lemma encode_all_pieces {A} (f : A -> ColumnarError + bytes) l body :
  encode_all f l = inr body -> exists ss, Forall2 (fun x s => f x = inr s) l ss /\ body = concat ss.
Proof.
  revert body; induction l as [|x l IH]; intros body; cbn; [intros [= <-]; by exists []|].
  destruct (f x) as [|a] eqn:Hx; [done|]. fold (encode_all f l). destruct (encode_all f l) as [|rest]; [done|]. intros [= <-].
  destruct (IH rest eq_refl) as (ss & Hss & ->). exists (a :: ss). split; [by constructor|done].
Qed.

Definition nested (room : nat) : Rd Value := match room with O => fun _ => too_deep | S room => decode_value room end.
Lemma encode_deep v : encode_at v (S MAX_DEPTH) = too_deep.
Proof. by destruct v. Qed.
Lemma encode_at_depth v d blob : encode_at v d = inr blob -> d <= MAX_DEPTH.
Proof. destruct (Nat.ltb_spec MAX_DEPTH d) as [Hd|]; [|done]. apply Nat.ltb_lt in Hd. destruct v; cbn [encode_at]; by rewrite Hd. Qed.

(** What the induction gives of a nested value. *)
Definition read_back (v : Value) : Prop := forall depth room blob, cell_ok v = true -> depth + room = MAX_DEPTH ->
  encode_at v depth = inr blob -> reads (decode_value room) v blob.
Lemma nested_reads v depth room blob : read_back v -> cell_ok v = true -> depth + room = MAX_DEPTH ->
  encode_at v (S depth) = inr blob -> reads (nested room) v blob.
Proof.
  intros Hv Ho Hd He. destruct room as [|room].
  - assert (depth = MAX_DEPTH) as -> by lia. by rewrite encode_deep in He.
  - apply (Hv (S depth)); [done|lia|done].
Qed.
#[local] Opaque reads.
Lemma reads_count {A C} (m : Rd A) (wrap : list A -> C) l ss : count_ok l = true -> Forall2 (reads m) l ss ->
  reads (rd_bind rd_u32 (fun count => rd_bind (read_times (Z.to_nat count) m) (fun x => rd_ret (wrap x)))) (wrap l)
    (le_bytes 4 (Z.of_nat (length l)) ++ concat ss).
Proof.
  intros Hc Hl. unfold count_ok in Hc. apply (reads_bind _ _ (Z.of_nat (length l))); [apply reads_u32; lia|].
  rewrite Nat2Z.id. apply (reads_last _ _ l); [by apply reads_times|apply reads_ret].
Qed.
Lemma items_read l depth room body : Forall read_back l -> forallb cell_ok l = true -> depth + room = MAX_DEPTH ->
  encode_all (fun x => encode_at x (S depth)) l = inr body -> exists ss, Forall2 (reads (nested room)) l ss /\ body = concat ss.
Proof.
  intros Hl Ho Hd (ss & Hss & ->)%encode_all_pieces. exists ss. split; [|done].
  revert Hl Ho. induction Hss as [|x s l ss Hx _ IH]; [by constructor|]. intros [Hx' Hl]%Forall_cons [Ho1 Ho2]%andb_prop.
  constructor; [by apply (nested_reads _ depth)|by apply IH].
Qed.
Lemma pairs_read l depth room body : Forall (fun p => read_back p.1 /\ read_back p.2) l ->
  forallb (fun p => cell_ok p.1 && cell_ok p.2) l = true -> depth + room = MAX_DEPTH ->
  encode_all (fun p => match encode_at p.1 (S depth) with inl e => inl e | inr k =>
      match encode_at p.2 (S depth) with inl e => inl e | inr x => inr (k ++ x) end end) l = inr body ->
  exists ss, Forall2 (reads (rd_bind (nested room) (fun k => rd_bind (nested room) (fun x => rd_ret (k, x))))) l ss /\ body = concat ss.
Proof.
  intros Hl Ho Hd (ss & Hss & ->)%encode_all_pieces. exists ss. split; [|done].
  revert Hl Ho. induction Hss as [|[k x] s l ss Hx _ IH]; [by constructor|].
  intros [[Hk' Hx'] Hl]%Forall_cons [[Ho1 Ho2]%andb_prop Ho3]%andb_prop. cbn in Hk', Hx', Hx, Ho1, Ho2.
  destruct (encode_at k (S depth)) as [|a] eqn:Ha; [done|]. destruct (encode_at x (S depth)) as [|b] eqn:Hb; [done|]. injection Hx as <-.
  constructor; [|by apply IH]. apply (reads_bind _ _ k); [by apply (nested_reads _ depth)|].
  apply (reads_last _ _ x); [by apply (nested_reads _ depth)|apply reads_ret].
Qed.

Lemma decode_value_eq room : decode_value room = rd_bind rd_u8 (decode_tagged (nested room)).
Proof. by destruct room. Qed.
Lemma reads_tagged room tag v s : reads (decode_tagged (nested room) tag) v s -> reads (decode_value room) v (tag :: s).
Proof. intros Hs. rewrite decode_value_eq. apply (reads_bind rd_u8 _ tag v [tag] s); [apply reads_u8|done]. Qed.
Ltac arm := apply reads_tagged; unfold decode_tagged;
  repeat match goal with |- context [(?a =? ?b)%Z] => let r := eval vm_compute in (a =? b)%Z in change (a =? b)%Z with r end; cbv iota.
Lemma reads_wrap {A} (m : Rd A) (wrap : A -> Value) x s : reads m x s -> reads (rd_bind m (fun x => rd_ret (wrap x))) (wrap x) s.
Proof. intros Hm. apply (reads_last _ _ x); [done|apply reads_ret]. Qed.
Lemma reads_composite room l ss (wrap : list Value -> Value) : count_ok l = true -> Forall2 (reads (nested room)) l ss ->
  reads (rd_bind (decode_composite (nested room)) (fun x => rd_ret (wrap x))) (wrap l) (le_bytes 4 (Z.of_nat (length l)) ++ concat ss).
Proof.
  intros Hc Hl. apply (reads_last _ _ l); [|apply reads_ret]. unfold decode_composite, count_ok in *.
  apply (reads_bind _ _ (Z.of_nat (length l))); [apply reads_u32; lia|]. rewrite Nat2Z.id. by apply reads_times.
Qed.
Lemma reads_optional (b : bool) (m : Rd bytes) o : (b = match o with Some _ => true | None => false end) ->
  (forall s, o = Some s -> reads m s (encode_bytes s)) ->
  reads (if b then rd_bind m (fun t => rd_ret (Some t)) else rd_ret None) o (match o with Some s => encode_bytes s | None => [] end).
Proof.
  intros -> Ho. destruct o as [s|]; [|apply reads_ret]. apply (reads_last _ _ s); [by apply Ho|apply reads_ret].
Qed.

Lemma unknown_reads room n t r : text_ok n && opt_ok text_ok t && opt_ok length_ok r = true ->
  reads (decode_value room) (VUnknown n t r)
    (TAG_UNKNOWN :: encode_bytes n ++ [Z.lor (match t with Some _ => HAS_TEXT | None => 0 end) (match r with Some _ => HAS_RAW | None => 0 end)]
     ++ match t with Some s => encode_bytes s | None => [] end ++ match r with Some s => encode_bytes s | None => [] end).
Proof.
  intros [[Hn Ht]%andb_prop Hr]%andb_prop. arm. apply (reads_bind _ _ n); [by apply reads_text|]. cbn [app].
  eapply (reads_bind rd_u8 _ _ _ [_]); [apply reads_u8|].
  replace (negb _) with false by (by destruct t, r). cbv iota.
  apply (reads_bind _ _ t); [apply reads_optional; [by destruct t, r|intros s ->; by apply reads_text]|].
  apply (reads_last _ _ r); [apply reads_optional; [by destruct t, r|intros s ->; by apply reads_prefixed]|apply reads_ret].
Qed.
Lemma timestamp_reads room m o : fits_i64 m && opt_ok fits_i32 o = true ->
  reads (decode_value room) (VTimestamp m o)
    (TAG_TIMESTAMP :: le_bytes 8 m ++ match o with Some o => 1%Z :: le_bytes 4 o | None => [0%Z] end).
Proof.
  intros [Hm Ho]%andb_prop. arm. apply (reads_bind _ _ m); [by apply reads_i64|]. destruct o as [o|].
  - apply (reads_bind rd_u8 _ 1%Z _ [1%Z]); [apply reads_u8|]. cbn [Z.eqb]. apply (reads_last _ _ o); [by apply reads_i32|apply reads_ret].
  - apply (reads_last rd_u8 _ 0%Z); [apply reads_u8|apply reads_ret].
Qed.
Lemma encode_at_shallow v depth blob : encode_at v depth = inr blob -> (MAX_DEPTH <? depth) = false.
Proof. intros He%encode_at_depth. by apply Nat.ltb_ge. Qed.
Lemma leaf_reads v : match v with VArray _ | VRow _ | VMap _ => True | _ => read_back v end.
Proof.
  destruct v; try exact I; intros depth room blob Ho Hd He; pose proof (encode_at_shallow _ _ _ He) as Hs; cbn [encode_at] in He;
    rewrite Hs in He; injection He as <-; cbn [cell_ok] in Ho.
  - arm. apply reads_ret.
  - arm. apply (reads_last rd_u8 _ (if b then 1 else 0)%Z); [apply reads_u8|]. destruct b; apply reads_ret.
  - arm. by apply reads_wrap, reads_i64.
  - arm. apply reads_wrap, reads_u64. lia.
  - arm. apply (reads_last _ _ (to_bits f)); [apply reads_u64, to_bits_range|]. rewrite from_to_bits. apply reads_ret.
  - arm. apply (reads_bind _ _ unscaled); [by apply reads_i128|]. apply (reads_last rd_u8 _ scale); [apply reads_u8|apply reads_ret].
  - arm. by apply reads_wrap, reads_text.
  - arm. by apply reads_wrap, reads_prefixed.
  - by apply timestamp_reads.
  - arm. by apply reads_wrap, reads_i32.
  - arm. by apply reads_wrap, reads_i64.
  - apply andb_prop in Ho as [[Hm Hi]%andb_prop Hn]. arm. destruct i as [m d n]. apply (reads_bind _ _ m); [by apply reads_i32|].
    apply (reads_bind _ _ d); [by apply reads_i32|]. apply (reads_last _ _ n); [by apply reads_i64|apply reads_ret].
  - arm. by apply reads_wrap, reads_text.
  - by apply unknown_reads.
Qed.
Lemma reads_back v : read_back v.
Proof.
  apply value_nested_ind; [exact leaf_reads|intros l IH|intros l IH|intros l IH]; intros depth room blob Ho Hd He;
    pose proof (encode_at_shallow _ _ _ He) as Hs; cbn [encode_at] in He; rewrite Hs in He; cbn [cell_ok] in Ho;
    apply andb_prop in Ho as [Hc Ho]; destruct (encode_all _ l) as [|body] eqn:Hb; try discriminate He; injection He as <-.
  - destruct (items_read l depth room body IH Ho Hd Hb) as (ss & Hss & ->). arm. by apply reads_composite.
  - destruct (items_read l depth room body IH Ho Hd Hb) as (ss & Hss & ->). arm. by apply reads_composite.
  - destruct (pairs_read l depth room body IH Ho Hd Hb) as (ss & Hss & ->). arm. by apply reads_count.
Qed.

(** ** When a value is written at all *)

Lemma encode_all_ok {A} (f : A -> ColumnarError + bytes) l :
  (exists s, encode_all f l = inr s) <-> Forall (fun x => exists s, f x = inr s) l.
Proof.
  induction l as [|x l IH]; cbn; [split; [by constructor|by exists []]|]. rewrite Forall_cons, <- IH. fold (encode_all f l).
  destruct (f x) as [e|a]; [split; [intros [s Hs]; discriminate Hs|intros [[s Hs] _]; discriminate Hs]|].
  destruct (encode_all f l) as [e|rest]; [split; [intros [s Hs]; discriminate Hs|intros [_ [s Hs]]; discriminate Hs]|].
  split; [intros _; split; eexists; done|intros _; by eexists].
Qed.
Definition written (v : Value) : Prop := forall d, (exists s, encode_at v d = inr s) <-> d + nesting v <= MAX_DEPTH.
Lemma written_shallow v d : d <= MAX_DEPTH -> match v with VArray _ | VRow _ | VMap _ => True | _ => exists s, encode_at v d = inr s end.
Proof. intros Hd%Nat.ltb_ge. destruct v; try exact I; cbn [encode_at]; rewrite Hd; by eexists. Qed.
Lemma nesting_bound {A} (f : A -> nat) (l : list A) d :
  d + list_max ((fun x => S (f x)) <$> l) <= MAX_DEPTH <-> d <= MAX_DEPTH /\ Forall (fun x => S d + f x <= MAX_DEPTH) l.
Proof.
  rewrite Forall_forall. split.
  - intros Hm. split; [lia|]. intros x Hx. pose proof (proj1 (list_max_le ((fun x => S (f x)) <$> l) _) (le_n _)) as Hl.
    rewrite List.Forall_forall in Hl. specialize (Hl (S (f x))). rewrite <- list_elem_of_In in Hl.
    specialize (Hl (list_elem_of_fmap_2 (fun x => S (f x)) l x Hx)). lia.
  - intros [Hd Hl]. assert (list_max ((fun x => S (f x)) <$> l) <= MAX_DEPTH - d); [|lia]. apply list_max_le, List.Forall_forall.
    intros y Hy. apply list_elem_of_In, list_elem_of_fmap in Hy as (x & -> & Hx). specialize (Hl x Hx). lia.
Qed.
Lemma written_items {A} (f : A -> ColumnarError + bytes) (g : A -> nat) l d :
  Forall (fun x => (exists s, f x = inr s) <-> S d + g x <= MAX_DEPTH) l -> d <= MAX_DEPTH ->
  (exists body, encode_all f l = inr body) <-> d + list_max ((fun x => S (g x)) <$> l) <= MAX_DEPTH.
Proof.
  intros Hl Hd. rewrite encode_all_ok, nesting_bound. rewrite !Forall_forall in *. split.
  - intros Hf. split; [done|]. intros x Hx. by apply Hl, Hf.
  - intros [_ Hf] x Hx. by apply Hl, Hf.
Qed.
Lemma written_wrap (r : ColumnarError + bytes) (wrap : bytes -> bytes) d :
  (exists s, (if MAX_DEPTH <? d then too_deep else match r with inl e => inl e | inr body => inr (wrap body) end) = inr s)
  <-> d <= MAX_DEPTH /\ exists body, r = inr body.
Proof.
  destruct (Nat.ltb_spec MAX_DEPTH d); (split; [intros [s Hs]; try discriminate Hs|intros [Hd [body Hb]]]); [lia| |].
  - destruct r; [done|]. split; [done|by eexists].
  - rewrite Hb. by eexists.
Qed.
Lemma nesting_le {A} (g : A -> nat) l d : d + list_max ((fun x => S (g x)) <$> l) <= MAX_DEPTH <->
  d <= MAX_DEPTH /\ d + list_max ((fun x => S (g x)) <$> l) <= MAX_DEPTH.
Proof. split; [|tauto]. intros; split; [lia|done]. Qed.
Lemma written_composite {A} (f : A -> ColumnarError + bytes) (g : A -> nat) (wrap : bytes -> bytes) l d :
  Forall (fun x => (exists s, f x = inr s) <-> S d + g x <= MAX_DEPTH) l ->
  (exists s, (if MAX_DEPTH <? d then too_deep else match encode_all f l with inl e => inl e | inr body => inr (wrap body) end) = inr s)
  <-> d + list_max ((fun x => S (g x)) <$> l) <= MAX_DEPTH.
Proof.
  intros Hl. rewrite written_wrap, (nesting_le g). split; intros [Hd Hb]; (split; [done|]); by apply (written_items f g l d Hl Hd).
Qed.
Lemma all_written v : written v.
Proof.
  apply value_nested_ind.
  - intros w. pose proof (written_shallow w) as Hw. destruct w; try exact I; intros d; cbn [nesting]; rewrite Nat.add_0_r;
      (split; [intros [s Hs]; by apply encode_at_depth in Hs|apply Hw]).
  - intros l IH d. apply (written_composite (fun x => encode_at x (S d)) nesting (fun body => _ :: _ ++ body)).
    eapply Forall_impl; [exact IH|]. intros x Hx. apply Hx.
  - intros l IH d. apply (written_composite (fun x => encode_at x (S d)) nesting (fun body => _ :: _ ++ body)).
    eapply Forall_impl; [exact IH|]. intros x Hx. apply Hx.
  - intros l IH d.
    apply (written_composite (fun p => match encode_at p.1 (S d) with inl e => inl e | inr k =>
        match encode_at p.2 (S d) with inl e => inl e | inr x => inr (k ++ x) end end) (fun p => Nat.max (nesting p.1) (nesting p.2)) (fun body => _ :: _ ++ body)).
    eapply Forall_impl; [exact IH|]. intros [k x] [Hk Hx]. cbn [fst snd] in *. specialize (Hk (S d)). specialize (Hx (S d)). split.
    + intros [s Hs]. destruct (encode_at k (S d)) as [|a]; [discriminate Hs|]. destruct (encode_at x (S d)) as [|b]; [discriminate Hs|].
      pose proof (proj1 Hk (ex_intro _ a eq_refl)). pose proof (proj1 Hx (ex_intro _ b eq_refl)). lia.
    + intros Hd. destruct (proj2 Hk) as [a ->]; [lia|]. destruct (proj2 Hx) as [b ->]; [lia|]. by eexists.
Qed.

(** C31: A cell that is mixed, composite or of an unknown type loses nothing in its blob. Every value of
    the source's integer widths whose texts are within 256 MiB is written exactly when it nests at
    most 64 levels, and the blob is read back as that value, to its last byte. *)
Theorem blobs_read_back v : cell_ok v = true ->
  ((exists blob, encode_value v = inr blob) <-> nesting v <= MAX_DEPTH)
  /\ forall blob, encode_value v = inr blob -> in_memory blob ->
       exists r, decode_value MAX_DEPTH (reader_new blob) = inr (v, r) /\ reader_is_empty r = true.
Proof.
  intros Ho. split; [apply (all_written v 0)|]. intros blob He Hin.
  pose proof (reads_back v 0 MAX_DEPTH blob Ho eq_refl He [] []) as Hr. cbn [app] in Hr. rewrite app_nil_r in Hr.
  specialize (Hr Hin). exists (MkReader blob (length blob)). split; [exact Hr|]. apply Nat.leb_refl.
Qed.
End Spec.

#[local] Transparent le_bytes.
#[local] Instance no_bits : @FloatBits no_float.
Proof.
  refine (@Build_FloatBits no_float (fun _ => 0%Z) (fun _ => tt) (fun _ => conj (Z.le_refl 0) eq_refl) _). by intros [].
Defined.
Definition sample_cell : @Value no_float :=
  VRow [VInt (-5); VText (B "a"); VMap [(VText (B "k"), VArray [VNull; VDecimal (-12345) 2])]; VUnknown (B "inet") None (Some [1; 2]%Z)].
Lemma blobs_read_back_witness : exists blob,
  @encode_value no_float no_bits sample_cell = inr blob /\ length blob = 71
  /\ exists r, @decode_value no_float no_bits MAX_DEPTH (reader_new blob) = inr (sample_cell, r) /\ reader_is_empty r = true.
Proof.
  destruct (@encode_value no_float no_bits sample_cell) as [e|blob] eqn:He; [vm_compute in He; discriminate He|].
  exists blob. split; [done|]. split; [vm_compute in He; injection He as <-; cbn; reflexivity|].
  destruct (@blobs_read_back no_float no_bits sample_cell eq_refl) as [_ Hb].
  apply (Hb blob He). vm_compute in He. injection He as <-. unfold in_memory. vm_compute. discriminate.
Defined.
