(* ===== verification/Columnar.v ===== *)
(** * Columnar: a chunk of rows staged, sealed into Arrow columns and read back,
    [crates/qh-columnar/src/builder.rs], [encoding.rs] and [read.rs].

    The Arrow library is a parameter ([Arrow]): arrays with a type, validity and cells, the builders
    that make them and the record batch that holds them, with the laws the code relies on
    ([ArrowLaws]). *)
From S2P Require Import Prelude Bytes Text Dates Value Batch Tagged.
#[local] Open Scope nat_scope.

(** ** Encodings *)

Inductive Encoding := ENull | EBool | EI64 | EU64 | EF64 | EDec | EDate | ETime | ETs | ETsz | EInterval | EText | EJson | EBytes | ETagged.
#[export] Instance Encoding_eq_dec : EqDecision Encoding.
Proof. solve_decision. Defined.
Definition enc_as_str (e : Encoding) : string :=
  match e with
  | ENull => "null" | EBool => "bool" | EI64 => "i64" | EU64 => "u64" | EF64 => "f64" | EDec => "dec" | EDate => "date" | ETime => "time"
  | ETs => "ts" | ETsz => "tsz" | EInterval => "interval" | EText => "text" | EJson => "json" | EBytes => "bytes" | ETagged => "tagged"
  end.
Definition ENCODINGS : list Encoding :=
  [ENull; EBool; EI64; EU64; EF64; EDec; EDate; ETime; ETs; ETsz; EInterval; EText; EJson; EBytes; ETagged].
Definition enc_parse (name : bytes) : ColumnarError + Encoding :=
  match find (fun e => bytes_eqb name (B (enc_as_str e))) ENCODINGS with Some e => inr e | None => inl (UnknownEncoding name) end.
Definition ENC_KEY : bytes := B "qh.enc".

(** The Arrow types the code names; any other is its text. *)
Inductive DataType :=
| DtNull | DtBoolean | DtInt64 | DtUInt64 | DtFloat64 | DtDecimal128 (precision scale : Z) | DtDate32 | DtTime64Micro
| DtTimestampMicro (zone : option bytes) | DtIntervalMonthDayNano | DtUtf8 | DtBinary | DtOther (name : bytes).
#[export] Instance DataType_eq_dec : EqDecision DataType.
Proof. solve_decision. Defined.
Record Field := MkField { fl_name : bytes; fl_type : DataType; fl_metadata : list (bytes * bytes) }.
#[export] Instance Field_eq_dec : EqDecision Field.
Proof. solve_decision. Defined.
Definition field_with_encoding (index : nat) (t : DataType) (e : Encoding) : Field :=
  MkField (B "c" ++ decimal (Z.of_nat index)) t
    ((ENC_KEY, B (enc_as_str e)) :: match e with EJson => [(B "ARROW:extension:name", B "arrow.json")] | _ => [] end).
Definition encoding_of (f : Field) : ColumnarError + Encoding :=
  match find (fun e => bytes_eqb e.1 ENC_KEY) (fl_metadata f) with
  | Some (_, name) => enc_parse name
  | None => inl (MissingEncoding (fl_name f))
  end.
Definition check_compatible (e : Encoding) (t : DataType) : bool :=
  match e, t with
  | ENull, DtNull | EBool, DtBoolean | EI64, DtInt64 | EU64, DtUInt64 | EF64, DtFloat64 | EDate, DtDate32 | ETime, DtTime64Micro
  | ETs, DtTimestampMicro None | ETsz, DtTimestampMicro (Some _) | EInterval, DtIntervalMonthDayNano
  | (EText | EJson), DtUtf8 | (EBytes | ETagged), DtBinary => true
  | EDec, DtDecimal128 p _ => (p =? 38)%Z
  | _, _ => false
  end.

(** ** Column kinds *)

Inductive ColumnKind :=
| CkNull | CkBool | CkI64 | CkU64 | CkF64 | CkDec (scale : Z) | CkDate | CkTime | CkTs | CkTsz (offset : Z) | CkInterval | CkText | CkJson
| CkBytes | CkTagged.
#[export] Instance ColumnKind_eq_dec : EqDecision ColumnKind.
Proof. solve_decision. Defined.
Definition kind_encoding (k : ColumnKind) : Encoding :=
  match k with
  | CkNull => ENull | CkBool => EBool | CkI64 => EI64 | CkU64 => EU64 | CkF64 => EF64 | CkDec _ => EDec | CkDate => EDate | CkTime => ETime
  | CkTs => ETs | CkTsz _ => ETsz | CkInterval => EInterval | CkText => EText | CkJson => EJson | CkBytes => EBytes | CkTagged => ETagged
  end.
Definition DECIMAL_LIMIT : Z := 10 ^ 38.
Definition CHUNK_MAX_ROWS : Z := 65536.
Definition CHUNK_TARGET_BYTES : Z := 2 * 1024 * 1024.

(** [format!("{sign}{:02}:{:02}")] *)
Definition format_tz (offset : Z) : bytes :=
  let magnitude := Z.abs offset in
  (if (offset <? 0)%Z then B "-" else B "+") ++ decimal2 (magnitude / 3600) ++ B ":" ++ decimal2 (magnitude mod 3600 / 60).
(** The zone is ASCII, so the slices stand on character boundaries. *)
Definition offset_of (zone : bytes) : option Z :=
  let parts :=
    match strip_prefix zone (B "+") with
    | Some rest => Some (1%Z, rest)
    | None => match strip_prefix zone (B "-") with Some rest => Some ((-1)%Z, rest) | None => None end
    end in
  match parts with
  | None => None
  | Some (sign, digits) =>
      let read :=
        match length digits with
        | 2 => match parse_i32 digits with Some h => Some (h, 0%Z) | None => None end
        | 4 => match parse_i32 (firstn 2 digits), parse_i32 (skipn 2 digits) with Some h, Some m => Some (h, m) | _, _ => None end
        | 5 => if is_at digits 2 58%Z then
                 match parse_i32 (firstn 2 digits), parse_i32 (skipn 3 digits) with Some h, Some m => Some (h, m) | _, _ => None end
               else None
        | _ => None
        end in
      match read with
      | None => None
      | Some (hours, minutes) => if (23 <? hours)%Z || (59 <? minutes)%Z then None else Some (sign * (hours * 3600 + minutes * 60))%Z
      end
  end.

Section Columnar.
Context `{FloatBits}.

Definition single_kind (v : Value) : option ColumnKind :=
  match v with
  | VNull => None
  | VBool _ => Some CkBool
  | VInt _ => Some CkI64
  | VUInt _ => Some CkU64
  | VFloat _ => Some CkF64
  | VDecimal unscaled scale => Some (if ((38 <? scale) || (DECIMAL_LIMIT <=? Z.abs unscaled))%Z then CkTagged else CkDec scale)
  | VDate _ => Some CkDate
  | VTime _ => Some CkTime
  | VTimestamp _ None => Some CkTs
  | VTimestamp _ (Some offset) => Some (if (Z.rem offset 60 =? 0)%Z then CkTsz offset else CkTagged)
  | VInterval i => Some (if fits_i64 (iv_micros i * 1000) then CkInterval else CkTagged)
  | VText _ => Some CkText
  | VJson _ => Some CkJson
  | VBytes _ => Some CkBytes
  | VArray _ | VRow _ | VMap _ | VUnknown _ _ _ => Some CkTagged
  end.
Definition merge_kinds (current single : ColumnKind) : ColumnKind := if decide (current = single) then current else CkTagged.
Definition pick_turn (kind : option ColumnKind) (v : Value) : option ColumnKind :=
  match single_kind v with
  | None => kind
  | Some single => Some match kind with None => single | Some current => merge_kinds current single end
  end.
Definition pick_encoding (values : list Value) : ColumnKind :=
  match foldl pick_turn None values with Some k => k | None => CkNull end.

(** ** Arrow *)

Inductive Scalar := ScBool (b : bool) | ScInt (n : Z) | ScFloat (f : f64) | ScInterval (months days nanos : Z) | ScBytes (s : bytes).

Class Arrow := {
  array : Type;
  data_type : array -> DataType;
  array_len : array -> nat;
  (** [Array::is_null] of a row, and the cell of a downcast array. *)
  array_is_null : array -> nat -> bool;
  array_value : array -> nat -> option Scalar;
  (** A builder of the type, filled in order and finished. *)
  finish_builder : DataType -> list (option Scalar) -> array;
  null_array : nat -> array;
  with_precision_and_scale : array -> Z -> Z -> bytes + array;
  with_timezone : array -> bytes -> array;
  record_batch : Type;
  rb_columns : record_batch -> list array;
  rb_rows : record_batch -> nat;
  rb_fields : record_batch -> list Field;
  rb_memory_size : record_batch -> Z;
  try_new : list Field -> list array -> bytes + record_batch;
}.
(** What the code relies on. *)
Definition default_type (t : DataType) : Prop :=
  match t with DtNull | DtOther _ => False | DtDecimal128 p s => p = 38%Z /\ s = 10%Z | DtTimestampMicro z => z = None | _ => True end.
Class ArrowLaws `{Arrow} : Prop := {
  finish_type : forall t l, default_type t -> data_type (finish_builder t l) = t;
  finish_len : forall t l, default_type t -> array_len (finish_builder t l) = length l;
  finish_cell : forall t l i c, default_type t -> l !! i = Some c ->
    array_is_null (finish_builder t l) i = (match c with None => true | _ => false end)
    /\ forall x, c = Some x -> array_value (finish_builder t l) i = Some x;
  null_type : forall n, data_type (null_array n) = DtNull;
  null_len : forall n, array_len (null_array n) = n;
  retype_decimal : forall l s, (0 <= s <= 38)%Z -> exists a,
    with_precision_and_scale (finish_builder (DtDecimal128 38 10) l) 38 s = inr a /\ data_type a = DtDecimal128 38 s
    /\ array_len a = length l
    /\ (forall i, array_is_null a i = array_is_null (finish_builder (DtDecimal128 38 10) l) i)
    /\ (forall i, array_value a i = array_value (finish_builder (DtDecimal128 38 10) l) i);
  retype_zone : forall l z (a := finish_builder (DtTimestampMicro None) l),
    data_type (with_timezone a z) = DtTimestampMicro (Some z) /\ array_len (with_timezone a z) = length l
    /\ (forall i, array_is_null (with_timezone a z) i = array_is_null a i)
    /\ (forall i, array_value (with_timezone a z) i = array_value a i);
  try_new_ok : forall n fields arrays, arrays <> [] -> Forall2 (fun f a => fl_type f = data_type a /\ array_len a = n) fields arrays ->
    exists rb, try_new fields arrays = inr rb /\ rb_columns rb = arrays /\ rb_rows rb = n /\ rb_fields rb = fields;
  memory_nonneg : forall rb, (0 <= rb_memory_size rb)%Z;
}.

Section Build.
Context `{Arrow}.

(** What an arm of [build_column] appends for a value: [None] is a null. *)
Definition plain_cell (k : ColumnKind) (v : Value) : option Scalar :=
  match k, v with
  | CkBool, VBool b => Some (ScBool b)
  | CkI64, VInt n | CkU64, VUInt n | CkDec _, VDecimal n _ | CkDate, VDate n | CkTime, VTime n
  | CkTs, VTimestamp n _ | CkTsz _, VTimestamp n _ => Some (ScInt n)
  | CkF64, VFloat f => Some (ScFloat f)
  | (CkText | CkJson), (VText t | VJson t) => Some (ScBytes t)
  | CkBytes, VBytes b => Some (ScBytes b)
  | _, _ => None
  end.
Definition interval_cell (v : Value) : ColumnarError + option Scalar :=
  match v with
  | VInterval i =>
      if fits_i64 (iv_micros i * 1000) then inr (Some (ScInterval (months i) (iv_days i) (iv_micros i * 1000)))
      else inl (Corrupt (B "interval micros overflow"))
  | _ => inr None
  end.
Definition tagged_cell (v : Value) : ColumnarError + option Scalar :=
  match v with VNull => inr None | v => match encode_value v with inl e => inl e | inr blob => inr (Some (ScBytes blob)) end end.
Fixpoint each {A C} (f : A -> ColumnarError + C) (l : list A) : ColumnarError + list C :=
  match l with [] => inr [] | x :: l => match f x with inl e => inl e | inr y => match each f l with inl e => inl e | inr l => inr (y :: l) end end end.
Definition builder_type (k : ColumnKind) : DataType :=
  match k with
  | CkNull => DtNull | CkBool => DtBoolean | CkI64 => DtInt64 | CkU64 => DtUInt64 | CkF64 => DtFloat64 | CkDec _ => DtDecimal128 38 10
  | CkDate => DtDate32 | CkTime => DtTime64Micro | CkTs | CkTsz _ => DtTimestampMicro None | CkInterval => DtIntervalMonthDayNano
  | CkText | CkJson => DtUtf8 | CkBytes | CkTagged => DtBinary
  end.
Definition build_column (k : ColumnKind) (values : list Value) : ColumnarError + array :=
  let plain := finish_builder (builder_type k) (plain_cell k <$> values) in
  match k with
  | CkNull => inr (null_array (length values))
  | CkDec scale => match with_precision_and_scale plain 38 scale with inl m => inl (ArrowRefused m) | inr a => inr a end
  | CkTsz offset => inr (with_timezone plain (format_tz offset))
  | CkInterval => match each interval_cell values with inl e => inl e | inr l => inr (finish_builder (builder_type k) l) end
  | CkTagged => match each tagged_cell values with inl e => inl e | inr l => inr (finish_builder (builder_type k) l) end
  | _ => inr plain
  end.

Record SealedChunk := MkSealed { sd_batch : record_batch; sd_encodings : list Encoding }.
(** The loop of [seal_columns], from the [index]-th column. *)
Fixpoint seal_each (index : nat) (columns : Batch) : ColumnarError + list (Field * array * Encoding) :=
  match columns with
  | [] => inr []
  | column :: columns =>
      let kind := pick_encoding column in
      match build_column kind column with
      | inl e => inl e
      | inr a =>
          match seal_each (S index) columns with
          | inl e => inl e
          | inr l => inr ((field_with_encoding index (data_type a) (kind_encoding kind), a, kind_encoding kind) :: l)
          end
      end
  end.
Definition seal_columns (columns : Batch) : ColumnarError + SealedChunk :=
  match columns with
  | [] => inl (Width 1 0)
  | _ =>
      match seal_each 0 columns with
      | inl e => inl e
      | inr l =>
          match try_new (fst ∘ fst <$> l) (snd ∘ fst <$> l) with
          | inl m => inl (ArrowRefused m)
          | inr batch => inr (MkSealed batch (snd <$> l))
          end
      end
  end.

(** ** Reading a cell *)

Definition dt_text (t : DataType) : bytes := match t with DtOther name => name | _ => B "arrow type" end.
Definition mismatch (e : Encoding) (t : DataType) : ColumnarError := Mismatch (B (enc_as_str e)) (dt_text t).
Definition value_at (a : array) (e : Encoding) (row : nat) : ColumnarError + Value :=
  if negb (check_compatible e (data_type a)) then inl (mismatch e (data_type a))
  else if array_is_null a row then inr VNull
  else
    match e, array_value a row with
    | ENull, _ => inr VNull
    | EBool, Some (ScBool b) => inr (VBool b)
    | EI64, Some (ScInt n) => inr (VInt n)
    | EU64, Some (ScInt n) => inr (VUInt n)
    | EF64, Some (ScFloat f) => inr (VFloat f)
    | EDec, Some (ScInt n) => match data_type a with DtDecimal128 _ scale => inr (VDecimal n scale) | t => inl (mismatch e t) end
    | EDate, Some (ScInt n) => inr (VDate n)
    | ETime, Some (ScInt n) => inr (VTime n)
    | ETs, Some (ScInt n) => inr (VTimestamp n None)
    | ETsz, Some (ScInt n) =>
        match data_type a with
        | DtTimestampMicro (Some zone) =>
            match offset_of zone with
            | Some offset => inr (VTimestamp n (Some offset))
            | None => inl (Corrupt (B "bad column zone " ++ zone))
            end
        | t => inl (mismatch e t)
        end
    | EInterval, Some (ScInterval m d nanos) => inr (VInterval (MkInterval m d (Z.quot nanos 1000)))
    | EText, Some (ScBytes t) => inr (VText t)
    | EJson, Some (ScBytes t) => inr (VJson t)
    | EBytes, Some (ScBytes b) => inr (VBytes b)
    | ETagged, Some (ScBytes blob) =>
        match decode_value MAX_DEPTH (reader_new blob) with
        | inl err => inl err
        | inr (v, r) => if reader_is_empty r then inr v else inl (Corrupt (B "trailing bytes"))
        end
    | _, _ => inl (mismatch e (data_type a))
    end.
Definition text_at (a : array) (e : Encoding) (row : nat) : ColumnarError + option bytes :=
  if array_is_null a row then inr None
  else
    match e with
    | EText | EJson => match data_type a, array_value a row with DtUtf8, Some (ScBytes t) => inr (Some t) | t, _ => inl (mismatch e t) end
    | EBytes => match data_type a, array_value a row with DtBinary, Some (ScBytes b) => inr (Some (hex_encode b)) | t, _ => inl (mismatch e t) end
    | _ => match value_at a e row with inl err => inl err | inr v => inr (to_text v) end
    end.
End Build.

(** ** The builder *)

Record ChunkBuilder := MkBuilder { cb_width : nat; cb_columns : Batch; cb_bytes : Z }.
Definition builder_new (width : nat) : ChunkBuilder := MkBuilder width (replicate width []) 0.
Definition builder_rows (b : ChunkBuilder) : nat := batch_size (cb_columns b).
Definition builder_is_empty (b : ChunkBuilder) : bool := builder_rows b =? 0.
Definition opt_len (o : option bytes) : nat := match o with Some s => length s | None => 0 end.
Definition cell_width (v : Value) : Z :=
  match v with
  | VText t | VJson t => Z.of_nat (length t) + 9
  | VBytes b => Z.of_nat (length b) + 9
  | VUnknown _ text raw => Z.of_nat (opt_len text + opt_len raw) + 21
  | VArray items | VRow items => 9 + Z.of_nat (length items) * 16
  | _ => 16
  end%Z.
Definition sum_width (l : list Value) : Z := foldr Z.add 0%Z (cell_width <$> l).
Definition columns_width (columns : Batch) : Z := foldr Z.add 0%Z (sum_width <$> columns).
Definition builder_truncate (rows : nat) (b : ChunkBuilder) : ChunkBuilder :=
  if builder_rows b <=? rows then b
  else
    let dropped := columns_width (skipn rows <$> cb_columns b) in
    MkBuilder (cb_width b) (firstn rows <$> cb_columns b) (cb_bytes b - dropped).
Definition builder_is_full (b : ChunkBuilder) : bool :=
  (CHUNK_MAX_ROWS <=? Z.of_nat (builder_rows b))%Z || (CHUNK_TARGET_BYTES <=? cb_bytes b)%Z.
(** The column is one of the builder's: another is a panic. *)
Definition push_value (column : nat) (v : Value) (b : ChunkBuilder) : ChunkBuilder :=
  MkBuilder (cb_width b) (alter (fun c => c ++ [v]) column (cb_columns b : list (list Value))) (cb_bytes b + cell_width v).
Definition row_width (columns : Batch) (row : nat) : Z := sum_width (omap (fun c => c !! row) columns).
(** The loop of [split_sealable]: the rows taken and their bytes, with [room] rows to go. *)
Fixpoint split_loop (columns : Batch) (room take : nat) (size : Z) : nat * Z :=
  match room with
  | O => (take, size)
  | S room =>
      if (Z.of_nat take <? CHUNK_MAX_ROWS)%Z && (size <? CHUNK_TARGET_BYTES)%Z
      then split_loop columns room (S take) (size + row_width columns take)
      else (take, size)
  end.
Definition split_sealable (b : ChunkBuilder) : ChunkBuilder * ChunkBuilder :=
  let rows := builder_rows b in
  let '(take, size) := split_loop (cb_columns b) rows 0 0 in
  let head_bytes := if take =? rows then cb_bytes b else size in
  (MkBuilder (cb_width b) (firstn take <$> cb_columns b) head_bytes,
   MkBuilder (cb_width b) (skipn take <$> cb_columns b) (cb_bytes b - head_bytes)).
(** [while !builder.is_empty()]: the chunks cut off one after another, and what is left. *)
Fixpoint split_all (fuel : nat) (b : ChunkBuilder) : list ChunkBuilder * ChunkBuilder :=
  match fuel with
  | O => ([], b)
  | S fuel =>
      if builder_is_empty b then ([], b)
      else let '(head, rest) := split_sealable b in let '(pieces, last) := split_all fuel rest in (head :: pieces, last)
  end.
Definition push_column (column : nat) (cells : list Value) (b : ChunkBuilder) : ChunkBuilder :=
  foldl (fun b v => push_value column v b) b cells.
Fixpoint push_columns (column : nat) (columns : Batch) (b : ChunkBuilder) : ChunkBuilder :=
  match columns with [] => b | cells :: columns => push_columns (S column) columns (push_column column cells b) end.
Definition push_owned (batch : Batch) (b : ChunkBuilder) : ColumnarError + (nat * ChunkBuilder) :=
  if negb (length batch =? cb_width b) then inl (Width (cb_width b) (length batch))
  else
    inr (batch_size batch,
         if builder_is_empty b then MkBuilder (cb_width b) batch (columns_width batch) else push_columns 0 batch b).
(** One row, every column in order. *)
Definition push_row (batch : Batch) (row : nat) (b : ChunkBuilder) : ChunkBuilder :=
  foldl (fun b column => push_value column (match batch_value batch row column with Some v => v | None => VNull end) b) b (seq 0 (cb_width b)).
Fixpoint push_rows (batch : Batch) (rows : list nat) (accepted : nat) (b : ChunkBuilder) : nat * ChunkBuilder :=
  match rows with
  | [] => (accepted, b)
  | row :: rows => if builder_is_full b then (accepted, b) else push_rows batch rows (S accepted) (push_row batch row b)
  end.
Definition push_batch (batch : Batch) (b : ChunkBuilder) : ColumnarError + (nat * ChunkBuilder) :=
  if negb (length batch =? cb_width b) then inl (Width (cb_width b) (length batch))
  else inr (push_rows batch (seq 0 (batch_size batch)) 0 b).
Definition seal `{Arrow} (b : ChunkBuilder) : ColumnarError + SealedChunk := seal_columns (cb_columns b).
End Columnar.
