(* ===== verification/ColumnarSpec.v ===== *)
(** * ColumnarSpec: a sealed chunk reads back as the rows that were staged, for [Columnar]. *)
From S2P Require Import Prelude Bytes Text Dates Value ValueSpec Batch Tagged TaggedSpec Columnar.
#[local] Open Scope nat_scope.

(** ** Zones *)

Definition zone_fits (offset : Z) : bool := ((-86400 <? offset) && (offset <? 86400))%Z.
Definition zone_minute (i : nat) : bool :=
  let m := ((Z.of_nat i - 1439) * 60)%Z in match offset_of (format_tz m) with Some n => (n =? m)%Z | None => false end.
Lemma zone_minutes : forallb zone_minute (seq 0 2879) = true.
Proof. vm_compute. reflexivity. Qed.
Lemma zone_reads_back o : zone_fits o = true -> Z.rem o 60 = 0%Z -> offset_of (format_tz o) = Some o.
Proof.
  unfold zone_fits. intros Ho Hr. assert (Hm : exists q, o = (60 * q)%Z) by (apply Z.rem_divide in Hr as [q Hq]; [exists q; lia|done]).
  destruct Hm as [q ->]. pose proof zone_minutes as Hz. rewrite forallb_forall in Hz. specialize (Hz (Z.to_nat (q + 1439))).
  unfold zone_minute in Hz. replace ((Z.of_nat (Z.to_nat (q + 1439)) - 1439) * 60)%Z with (60 * q)%Z in Hz by lia.
  destruct (offset_of _) as [n|]; [|exfalso; discriminate Hz; apply in_seq; lia].
  f_equal. apply Z.eqb_eq, Hz, in_seq. lia.
Qed.
(** A zone of a day or more passes [pick_encoding] and is written as a text [offset_of] refuses. *)
Example zone_past_a_day : offset_of (format_tz 86400) = None.
Proof. reflexivity. Qed.

Section Spec.
Context `{FloatBits} `{!Arrow} `{!ArrowLaws}.

(** A value whose blob fits the memory, and whose zone is of less than a day. *)
Definition shape_ok (v : Value) : bool :=
  match v with
  | VDecimal _ scale => (0 <=? scale)%Z
  | VTimestamp _ (Some o) => negb (Z.rem o 60 =? 0)%Z || zone_fits o
  | _ => true
  end.
Definition cell_fits (v : Value) : Prop :=
  cell_ok v = true /\ shape_ok v = true /\ nesting v <= MAX_DEPTH /\ forall blob, encode_value v = inr blob -> in_memory blob.

(** ** The kind of a column *)

#[local] Opaque DECIMAL_LIMIT.
Definition form_of (k : ColumnKind) (v : Value) : Prop :=
  match k with
  | CkNull => False
  | CkBool => exists b, v = VBool b
  | CkI64 => exists n, v = VInt n
  | CkU64 => exists n, v = VUInt n
  | CkF64 => exists f, v = VFloat f
  | CkDec s => (s <= 38)%Z /\ exists n, v = VDecimal n s
  | CkDate => exists n, v = VDate n
  | CkTime => exists n, v = VTime n
  | CkTs => exists n, v = VTimestamp n None
  | CkTsz o => Z.rem o 60 = 0%Z /\ exists n, v = VTimestamp n (Some o)
  | CkInterval => exists i, v = VInterval i /\ fits_i64 (iv_micros i * 1000) = true
  | CkText => exists t, v = VText t
  | CkJson => exists t, v = VJson t
  | CkBytes => exists b, v = VBytes b
  | CkTagged => True
  end.
Lemma single_kind_form v k : single_kind v = Some k -> form_of k v.
Proof.
  destruct v as [| | | | |u s| | |m [o|]| | |i| | | | |]; cbn [single_kind]; intros Hs; try discriminate Hs;
    try (injection Hs as <-; cbn; by first [eexists|exact I]).
  - destruct (_ || _)%Z eqn:Hb; injection Hs as <-; [exact I|]. apply orb_false_iff in Hb as [Hb%Z.ltb_ge _]. split; [done|by eexists].
  - destruct (Z.eqb_spec (Z.rem o 60) 0); injection Hs as <-; [|exact I]. split; [done|by eexists].
  - destruct (fits_i64 _) eqn:Hf; injection Hs as <-; [|exact I]. by eexists.
Qed.

Definition of_kind (k : ColumnKind) (v : Value) : Prop := v = VNull \/ single_kind v = Some k \/ k = CkTagged.
Definition picked (kind : option ColumnKind) (values : list Value) : Prop :=
  match kind with None => Forall (fun v => v = VNull) values | Some k => Forall (of_kind k) values /\ (k = CkTagged \/ exists v, v ∈ values /\ single_kind v = Some k) end.
Lemma single_kind_null v : single_kind v = None <-> v = VNull.
Proof. split; [|by intros ->]. destruct v as [| | | | | | | |? [?|]| | | | | | | |]; cbn; try done; by case_match. Qed.
Lemma single_kind_not_null v : single_kind v <> Some CkNull.
Proof. destruct v as [| | | | | | | |? [?|]| | | | | | | |]; cbn; try done; by case_match. Qed.
Lemma pick_turn_picked kind values v : picked kind values -> picked (pick_turn kind v) (values ++ [v]).
Proof.
  assert (Hlast : forall k, single_kind v = Some k -> exists x, x ∈ values ++ [v] /\ single_kind x = Some k)
    by (intros k Hk; exists v; split; [apply elem_of_snoc_self|done]).
  unfold pick_turn. destruct (single_kind v) as [single|] eqn:Hs.
  - destruct kind as [k|]; cbn.
    + intros [Hk Hex]. unfold merge_kinds. destruct (decide (k = single)) as [->|Hne].
      * split; [|by right; apply Hlast]. apply Forall_app. split; [done|]. constructor; [by right; left|constructor].
      * split; [|by left]. apply Forall_app. split; [|constructor; [by right; right|constructor]].
        eapply Forall_impl; [exact Hk|]. intros x _. by right; right.
    + intros Hall. split; [|by right; apply Hlast]. apply Forall_app. split; [|constructor; [by right; left|constructor]].
      eapply Forall_impl; [exact Hall|]. intros x ->. by left.
  - apply single_kind_null in Hs as ->. destruct kind as [k|]; cbn.
    + intros [Hk Hex]. split; [apply Forall_app; split; [done|]; constructor; [by left|constructor]|].
      destruct Hex as [|(x & Hx & Hxs)]; [by left|]. right. exists x. split; [|done]. apply elem_of_app. by left.
    + intros Hall. apply Forall_app. split; [done|]. by constructor.
Qed.
Lemma foldl_picked values : forall kind seen, picked kind seen -> picked (foldl pick_turn kind values) (seen ++ values).
Proof.
  induction values as [|v values IH]; intros kind seen Hk; [by rewrite app_nil_r|]. cbn.
  replace (seen ++ v :: values) with ((seen ++ [v]) ++ values) by (by rewrite <- app_assoc). apply IH. by apply pick_turn_picked.
Qed.
Lemma pick_of_kind values : Forall (of_kind (pick_encoding values)) values
  /\ (pick_encoding values = CkNull \/ pick_encoding values = CkTagged \/ exists v, v ∈ values /\ single_kind v = Some (pick_encoding values)).
Proof.
  pose proof (foldl_picked values None [] (Forall_nil_2 _)) as Hp. unfold pick_encoding. cbn in Hp.
  destruct (foldl pick_turn None values) as [k|]; cbn in Hp.
  - destruct Hp as [Hk Hex]. split; [done|]. by right.
  - split; [|by left]. eapply Forall_impl; [exact Hp|]. intros v ->. by left.
Qed.

(** ** One column *)

(** What reading a cell gives: [VNull] at a null, the value of the scalar elsewhere. *)
Definition reads_cell (a : array) (e : Encoding) (row : nat) (c : option Scalar) : Prop :=
  array_is_null a row = (match c with None => true | _ => false end) /\ forall x, c = Some x -> array_value a row = Some x.
Definition column_reads (a : array) (k : ColumnKind) (values : list Value) : Prop :=
  array_len a = length values /\ forall row v, values !! row = Some v -> value_at a (kind_encoding k) row = inr v.

Lemma plain_reads k values a : data_type a = builder_type k ->
  match k with CkNull | CkDec _ | CkTsz _ | CkInterval | CkTagged => False | _ => True end ->
  Forall (of_kind k) values ->
  (forall row v, values !! row = Some v -> reads_cell a (kind_encoding k) row (plain_cell k v)) ->
  forall row v, values !! row = Some v -> value_at a (kind_encoding k) row = inr v.
Proof.
  intros Ht Hk Hof Hc row v Hv. rewrite Forall_forall in Hof. specialize (Hof v (list_elem_of_lookup_2 _ _ _ Hv)).
  destruct (Hc row v Hv) as [Hn Hx]. unfold value_at. rewrite Ht, Hn.
  replace (negb (check_compatible (kind_encoding k) (builder_type k))) with false by (by destruct k).
  destruct Hof as [->|[Hs| ->]]; [by destruct k| |done].
  apply single_kind_form in Hs. destruct k; try done; destruct Hs as [x ->]; cbn [plain_cell kind_encoding] in *; by rewrite (Hx _ eq_refl).
Qed.

Lemma finish_reads t (l : list (option Scalar)) e row c : default_type t -> l !! row = Some c -> reads_cell (finish_builder t l) e row c.
Proof. intros Ht Hc. split; [by apply finish_cell|]. intros x ->. by eapply finish_cell in Hc as [_ Hx]; [apply Hx|]. Qed.
Lemma each_ok {A C} (f : A -> ColumnarError + C) l : Forall (fun x => exists y, f x = inr y) l ->
  exists ys, each f l = inr ys /\ Forall2 (fun x y => f x = inr y) l ys.
Proof.
  induction 1 as [|x l [y Hy] _ (ys & Hys & IH)]; [by exists []|]. exists (y :: ys). cbn. rewrite Hy, Hys. split; [done|]. by constructor.
Qed.
Lemma fmap_cell {A} (f : Value -> A) (values : list Value) row v : values !! row = Some v -> (f <$> values) !! row = Some (f v).
Proof. intros Hv. by rewrite list_lookup_fmap, Hv. Qed.

Lemma plain_column k values : Forall (of_kind k) values ->
  match k with CkNull | CkDec _ | CkTsz _ | CkInterval | CkTagged => False | _ => True end ->
  column_reads (finish_builder (builder_type k) (plain_cell k <$> values)) k values.
Proof.
  intros Hof Hk. assert (Hd : default_type (builder_type k)) by (by destruct k). split; [by rewrite finish_len, length_fmap|].
  apply plain_reads; [by apply finish_type|done|done|]. intros row v Hv. apply finish_reads; [done|]. by apply fmap_cell.
Qed.
Lemma decimal_column s values : (0 <= s)%Z -> (s <= 38)%Z -> Forall (of_kind (CkDec s)) values ->
  exists a, build_column (CkDec s) values = inr a /\ column_reads a (CkDec s) values.
Proof.
  intros Hs0 H38 Hof. cbn [build_column builder_type].
  destruct (retype_decimal (plain_cell (CkDec s) <$> values) s) as (a & -> & Ht & Hlen & Hn & Hv); [done|].
  exists a. split; [done|]. split; [by rewrite Hlen, length_fmap|]. intros row v Hrow. unfold value_at. rewrite Ht. cbn [check_compatible kind_encoding].
  rewrite Z.eqb_refl. cbn [negb]. rewrite Hn, Hv.
  destruct (finish_reads (DtDecimal128 38 10) (plain_cell (CkDec s) <$> values) EDec row (plain_cell (CkDec s) v)) as [Hc Hx];
    [by split|by apply fmap_cell|]. rewrite Hc. rewrite Forall_forall in Hof.
  destruct (Hof v (list_elem_of_lookup_2 _ _ _ Hrow)) as [->|[Hs| ]]; [done| |done]. apply single_kind_form in Hs as (_ & n & ->).
  cbn [plain_cell] in *. by rewrite (Hx _ eq_refl).
Qed.
Lemma zoned_column o values : zone_fits o = true -> Z.rem o 60 = 0%Z -> Forall (of_kind (CkTsz o)) values ->
  exists a, build_column (CkTsz o) values = inr a /\ column_reads a (CkTsz o) values.
Proof.
  intros Hz Hr Hof. cbn [build_column builder_type]. eexists. split; [done|].
  destruct (retype_zone (plain_cell (CkTsz o) <$> values) (format_tz o)) as (Ht & Hlen & Hn & Hv).
  split; [by rewrite Hlen, length_fmap|]. intros row v Hrow. unfold value_at. rewrite Ht. cbn [check_compatible kind_encoding negb]. rewrite Hn, Hv.
  destruct (finish_reads (DtTimestampMicro None) (plain_cell (CkTsz o) <$> values) ETsz row (plain_cell (CkTsz o) v)) as [Hc Hx];
    [done|by apply fmap_cell|]. rewrite Hc. rewrite Forall_forall in Hof.
  destruct (Hof v (list_elem_of_lookup_2 _ _ _ Hrow)) as [->|[Hs| ]]; [done| |done]. apply single_kind_form in Hs as (_ & n & ->).
  cbn [plain_cell] in *. rewrite (Hx _ eq_refl), zone_reads_back; done.
Qed.
Lemma interval_column values : Forall (of_kind CkInterval) values ->
  exists a, build_column CkInterval values = inr a /\ column_reads a CkInterval values.
Proof.
  intros Hof. cbn [build_column].
  assert (He : Forall (fun v => exists y, interval_cell v = inr y) values).
  { eapply Forall_impl; [exact Hof|]. intros v [->|[Hs| ]]; [by eexists| |done]. apply single_kind_form in Hs as (i & -> & Hf). cbn. rewrite Hf. by eexists. }
  apply each_ok in He as (ys & -> & Hys). eexists. split; [done|]. split.
  { rewrite finish_len by done. symmetry. by eapply Forall2_length. }
  intros row v Hrow. destruct (Forall2_lookup_l _ _ _ _ _ Hys Hrow) as (c & Hc & Hcell). unfold value_at.
  rewrite finish_type by done. cbn [check_compatible kind_encoding builder_type negb].
  destruct (finish_reads DtIntervalMonthDayNano ys EInterval row c) as [Hn Hx]; [done|done|]. rewrite Hn.
  rewrite Forall_forall in Hof. destruct (Hof v (list_elem_of_lookup_2 _ _ _ Hrow)) as [->|[Hs| ]]; [by injection Hcell as <-| |done].
  apply single_kind_form in Hs as ([m d n] & -> & Hf). cbn in Hcell, Hf. rewrite Hf in Hcell. injection Hcell as <-.
  rewrite (Hx _ eq_refl), Z.quot_mul; done.
Qed.
Lemma tagged_cell_ok v : cell_fits v -> exists c, tagged_cell v = inr c
  /\ (v = VNull /\ c = None \/ exists blob r, c = Some (ScBytes blob) /\ decode_value MAX_DEPTH (reader_new blob) = inr (v, r) /\ reader_is_empty r = true).
Proof.
  intros (Ho & _ & Hn & Hin). destruct (is_null v) eqn:Hv; [destruct v; try discriminate Hv; by exists None; split; [|left]|].
  destruct (proj2 (all_written v 0) Hn) as [blob Hb]. exists (Some (ScBytes blob)).
  assert (Ht : tagged_cell v = match encode_value v with inl e => inl e | inr blob => inr (Some (ScBytes blob)) end) by (by destruct v).
  rewrite Ht. unfold encode_value in *. rewrite Hb. split; [done|]. right.
  pose proof (reads_back v 0 MAX_DEPTH blob Ho eq_refl Hb [] []) as Hr. cbn [app] in Hr. rewrite app_nil_r in Hr.
  exists blob, (MkReader blob (length blob)). split; [done|]. split; [apply Hr, Hin, Hb|apply Nat.leb_refl].
Qed.
Lemma tagged_column values : Forall cell_fits values ->
  exists a, build_column CkTagged values = inr a /\ column_reads a CkTagged values.
Proof.
  intros Hfit. cbn [build_column].
  assert (He : Forall (fun v => exists y, tagged_cell v = inr y) values).
  { eapply Forall_impl; [exact Hfit|]. intros v Hv. destruct (tagged_cell_ok v Hv) as (c & Hc & _). by eexists. }
  apply each_ok in He as (ys & -> & Hys). eexists. split; [done|]. split.
  { rewrite finish_len by done. symmetry. by eapply Forall2_length. }
  intros row v Hrow. destruct (Forall2_lookup_l _ _ _ _ _ Hys Hrow) as (c & Hc & Hcell). unfold value_at.
  rewrite finish_type by done. cbn [check_compatible kind_encoding builder_type negb].
  destruct (finish_reads DtBinary ys ETagged row c) as [Hn Hx]; [done|done|]. rewrite Hn.
  rewrite Forall_forall in Hfit. destruct (tagged_cell_ok v (Hfit v (list_elem_of_lookup_2 _ _ _ Hrow))) as (c' & Hc' & Hcase).
  rewrite Hcell in Hc'. injection Hc' as <-. destruct Hcase as [[-> ->]|(blob & r & -> & Hd & Hr)]; [done|].
  by rewrite (Hx _ eq_refl), Hd, Hr.
Qed.

Lemma null_column values : Forall (of_kind CkNull) values -> column_reads (null_array (length values)) CkNull values.
Proof.
  intros Hof. split; [apply null_len|]. intros row v Hrow. rewrite Forall_forall in Hof. unfold value_at. rewrite null_type. cbn.
  destruct (Hof v (list_elem_of_lookup_2 _ _ _ Hrow)) as [->|[Hs| ]]; [by destruct (array_is_null _ _)|by apply single_kind_not_null in Hs|done].
Qed.
Lemma column_reads_back values : Forall cell_fits values ->
  exists a, build_column (pick_encoding values) values = inr a /\ column_reads a (pick_encoding values) values.
Proof.
  intros Hfit. destruct (pick_of_kind values) as [Hof Hex]. revert Hof Hex. generalize (pick_encoding values) as k. intros k Hof Hex.
  destruct k as [| | | | |scale| | | |offset| | | | |];
    try (eexists; split; [reflexivity|]; first [by apply plain_column|by apply null_column]); [| |by apply interval_column|by apply tagged_column];
    destruct Hex as [Hx|[Hx|(v & Hv & Hs)]]; try discriminate Hx; pose proof (single_kind_form _ _ Hs) as Hform;
    rewrite Forall_forall in Hfit; destruct (Hfit v Hv) as (_ & Hsh & _).
  - destruct Hform as (Hle & n & ->). apply decimal_column; [cbn in Hsh; lia|done|done].
  - destruct Hform as (Hr & n & ->). cbn in Hsh. rewrite Hr in Hsh. cbn in Hsh. by apply zoned_column.
Qed.

(** ** A whole chunk *)

Lemma seal_each_ok n columns : Forall (fun c => length c = n /\ Forall cell_fits c) columns -> forall index, exists l,
  seal_each index columns = inr l
  /\ Forall2 (fun f a => fl_type f = data_type a /\ array_len a = n) (fst ∘ fst <$> l) (snd ∘ fst <$> l)
  /\ Forall2 (fun c x => snd x = kind_encoding (pick_encoding c) /\ column_reads (snd (fst x)) (pick_encoding c) c) columns l.
Proof.
  induction 1 as [|c columns [Hn Hc] _ IH]; intros index; [exists []; cbn; split_and!; constructor|].
  destruct (column_reads_back c Hc) as (a & Ha & Hlen & Hread). destruct (IH (S index)) as (l & Hl & Hf & Hr).
  cbn [seal_each]. rewrite Ha, Hl. eexists. split; [reflexivity|]. split; cbn.
  - constructor; [|done]. split; [done|]. by rewrite Hlen.
  - constructor; [|done]. split; [done|]. by split.
Qed.

Lemma enc_parse_text e : enc_parse (B (enc_as_str e)) = inr e.
Proof. by destruct e. Qed.
Lemma field_encoding index t e : encoding_of (field_with_encoding index t e) = inr e.
Proof. unfold encoding_of, field_with_encoding. cbn [fl_metadata find fst]. rewrite bytes_eqb_refl. apply enc_parse_text. Qed.
Lemma seal_each_fields columns : forall index l, seal_each index columns = inr l ->
  Forall (fun x => encoding_of (fst (fst x)) = inr (snd x) /\ fl_type (fst (fst x)) = data_type (snd (fst x))) l.
Proof.
  induction columns as [|c columns IH]; intros index l; cbn [seal_each]; [intros [= <-]; constructor|].
  destruct (build_column _ c) as [|a]; [discriminate|]. destruct (seal_each (S index) columns) as [|l'] eqn:E; [discriminate|].
  intros [= <-]. constructor; [|by eapply IH]. cbn [fst snd]. split; [apply field_encoding|done].
Qed.
Lemma seal_columns_reads n columns : columns <> [] -> Forall (fun c => length c = n /\ Forall cell_fits c) columns ->
  exists chunk, seal_columns columns = inr chunk /\ rb_rows (sd_batch chunk) = n /\ length (rb_columns (sd_batch chunk)) = length columns
  /\ length (sd_encodings chunk) = length columns
  /\ (forall column values row v, columns !! column = Some values -> values !! row = Some v ->
       exists a e, rb_columns (sd_batch chunk) !! column = Some a /\ sd_encodings chunk !! column = Some e /\ value_at a e row = inr v)
  /\ Forall2 (fun f e => encoding_of f = inr e) (rb_fields (sd_batch chunk)) (sd_encodings chunk)
  /\ Forall2 (fun f a => fl_type f = data_type a) (rb_fields (sd_batch chunk)) (rb_columns (sd_batch chunk)).
Proof.
  intros Hne Hall. destruct (seal_each_ok n columns Hall 0) as (l & Hl & Hf & Hr). pose proof (seal_each_fields columns 0 l Hl) as Hfields.
  assert (Hlen : length columns = length l) by (by eapply Forall2_length).
  destruct (try_new_ok n (fst ∘ fst <$> l) (snd ∘ fst <$> l)) as (rb & Hnew & Hcols & Hrows & Hrf); [|done|].
  { intros E. apply Hne. apply (f_equal length) in E. rewrite length_fmap, <- Hlen in E. by destruct columns. }
  exists (MkSealed rb (snd <$> l)). unfold seal_columns. destruct columns as [|c0 columns]; [done|]. rewrite Hl, Hnew.
  split; [done|]. split; [done|]. cbn [sd_batch sd_encodings]. rewrite Hcols, Hrf. split; [by rewrite length_fmap|]. split; [by rewrite length_fmap|].
  split; [|split; apply Forall2_fmap, Forall_Forall2_diag; (eapply Forall_impl; [exact Hfields|]); by intros x [? ?]].
  intros column values row v Hcol Hrow. destruct (Forall2_lookup_l _ _ _ _ _ Hr Hcol) as ([[f a] e] & Hx & He & Hread).
  exists a, e. rewrite !list_lookup_fmap, Hx. split; [done|]. split; [done|]. cbn in He. subst e. by apply Hread.
Qed.

(** C30: Sealing loses nothing: a rectangle of values of the source's widths, however mixed, is sealed, and
    every cell of the chunk reads back as the value that was staged, with its variant, its scale, its
    zone and its bytes. *)
Theorem sealed_chunk_reads_back n columns : columns <> [] -> Forall (fun c => length c = n /\ Forall cell_fits c) columns ->
  exists chunk, seal_columns columns = inr chunk /\ rb_rows (sd_batch chunk) = n /\ length (rb_columns (sd_batch chunk)) = length columns
  /\ length (sd_encodings chunk) = length columns
  /\ forall column values row v, columns !! column = Some values -> values !! row = Some v ->
       exists a e, rb_columns (sd_batch chunk) !! column = Some a /\ sd_encodings chunk !! column = Some e /\ value_at a e row = inr v.
Proof. intros Hne Hall. destruct (seal_columns_reads n columns Hne Hall) as (chunk & ? & ? & ? & ? & ? & _). exists chunk. by split_and!. Qed.
End Spec.

(** ** A small Arrow *)

Module Toy.
#[local] Existing Instance no_float.
#[export] Instance toy_bits : FloatBits.
Proof. refine (@Build_FloatBits no_float (fun _ => 0%Z) (fun _ => tt) (fun _ => conj (Z.le_refl 0) eq_refl) _). by intros []. Defined.
(** An array is its type and its cells, a batch its arrays. *)
#[export] Instance toy_arrow : Arrow := {|
  array := DataType * list (option Scalar);
  data_type a := a.1;
  array_len a := length a.2;
  array_is_null a i := match a.2 !! i with Some (Some _) => false | _ => true end;
  array_value a i := mjoin (a.2 !! i);
  finish_builder t l := (t, l);
  null_array n := (DtNull, replicate n None);
  with_precision_and_scale a p s := inr (DtDecimal128 p s, a.2);
  with_timezone a z := (DtTimestampMicro (Some z), a.2);
  record_batch := list Field * list (DataType * list (option Scalar));
  rb_columns rb := rb.2;
  rb_rows rb := match rb.2 with a :: _ => length a.2 | [] => 0 end;
  rb_fields rb := rb.1;
  rb_memory_size _ := 0%Z;
  try_new fields arrays := inr (fields, arrays)
|}.
#[export] Instance toy_laws : ArrowLaws.
Proof.
  split; cbn; try done.
  - intros t l i c _ Hc. rewrite Hc. split; [by destruct c|]. intros x ->. done.
  - intros n. apply length_replicate.
  - intros l s _. by eexists.
  - intros n fields arrays Hne Hf. exists (fields, arrays). split_and!; [done|done| |done]. destruct Hf as [|f a fields arrays [_ Hn] _]; done.
Qed.
Definition columns : Batch :=
  [[VInt 7; VNull]; [VText (B "a"); VBool true]; [VTimestamp 5 (Some 3600%Z); VTimestamp (-1) (Some 3600%Z)]; [VDecimal (-1250) 2; VNull]].
End Toy.
#[local] Existing Instances no_float Toy.toy_bits Toy.toy_arrow Toy.toy_laws.
Lemma sealed_chunk_reads_back_witness : exists chunk, seal_columns Toy.columns = inr chunk /\ rb_rows (sd_batch chunk) = 2
  /\ length (rb_columns (sd_batch chunk)) = 4 /\ length (sd_encodings chunk) = 4
  /\ forall column values row v, (Toy.columns : list (list Value)) !! column = Some values -> values !! row = Some v ->
       exists a e, rb_columns (sd_batch chunk) !! column = Some a /\ sd_encodings chunk !! column = Some e /\ value_at a e row = inr v.
Proof.
  apply (sealed_chunk_reads_back 2 Toy.columns); [discriminate|].
  repeat first [apply Forall_cons_2 | apply Forall_nil_2 | split]; try (cbn; unfold MAX_DEPTH; lia);
    intros blob Hb; vm_compute in Hb; injection Hb as <-; vm_compute; discriminate.
Defined.

(** ** Properties

    The chunk builder counts exactly and cuts within the limits, for [Columnar]. *)

#[local] Open Scope nat_scope.

Section Spec.
Context `{FloatBits}.

(** The builder has its columns, and its estimate is theirs. *)
Definition builder_exact (b : ChunkBuilder) : Prop := length (cb_columns b) = cb_width b /\ cb_bytes b = columns_width (cb_columns b).
(** Between rows: every column has every row. *)
Definition builder_ok (b : ChunkBuilder) : Prop := builder_exact b /\ rectangular (builder_rows b) (cb_columns b).

(** ** Widths *)

Lemma cell_width_nonneg v : (0 <= cell_width v)%Z.
Proof. destruct v; cbn; lia. Qed.
Lemma sum_width_app l k : sum_width (l ++ k) = (sum_width l + sum_width k)%Z.
Proof. unfold sum_width. induction l as [|x l IH]; cbn in *; lia. Qed.
Lemma sum_width_nonneg l : (0 <= sum_width l)%Z.
Proof. unfold sum_width. induction l as [|x l IH]; cbn; [lia|]. pose proof (cell_width_nonneg x). lia. Qed.
Lemma columns_width_cons c columns : columns_width (c :: columns) = (sum_width c + columns_width columns)%Z.
Proof. done. Qed.
Lemma columns_width_nonneg columns : (0 <= columns_width columns)%Z.
Proof. induction columns as [|c columns IH]; [done|]. rewrite columns_width_cons. pose proof (sum_width_nonneg c). lia. Qed.
Lemma columns_width_cut n columns :
  columns_width columns = (columns_width (firstn n <$> columns) + columns_width (skipn n <$> columns))%Z.
Proof.
  induction columns as [|c columns IH]; [done|]. rewrite !fmap_cons, !columns_width_cons.
  pose proof (sum_width_app (firstn n c) (skipn n c)) as Hs. rewrite firstn_skipn in Hs. lia.
Qed.
Lemma columns_width_row n columns row : rectangular n columns -> row < n ->
  columns_width (firstn (S row) <$> columns) = (columns_width (firstn row <$> columns) + row_width columns row)%Z.
Proof.
  intros Hr Hrow. induction Hr as [|c columns Hc _ IH]; [done|]. rewrite !fmap_cons, !columns_width_cons.
  destruct (lookup_lt_is_Some_2 c row) as [x Hx]; [lia|]. rewrite (take_S_r _ _ _ Hx), sum_width_app.
  assert (row_width (c :: columns) row = (cell_width x + row_width columns row)%Z) as -> by (unfold row_width; cbn; by rewrite Hx).
  unfold sum_width at 2. cbn. lia.
Qed.
Lemma columns_width_alter v i columns : i < length columns ->
  columns_width (alter (fun c => c ++ [v]) i columns) = (columns_width columns + cell_width v)%Z.
Proof.
  revert i; induction columns as [|c columns IH]; intros [|i] Hi; cbn in Hi; [lia|lia| |].
  - change (alter _ 0 (c :: columns)) with ((c ++ [v]) :: columns). rewrite !columns_width_cons, sum_width_app. unfold sum_width. cbn. lia.
  - change (alter ?f (S i) (c :: columns)) with (c :: alter f i columns). rewrite !columns_width_cons, IH by lia. lia.
Qed.

(** ** The operations *)

Lemma builder_new_ok width : builder_ok (builder_new width).
Proof.
  assert (Hz : forall w, columns_width (replicate w []) = 0%Z) by (intros w; induction w as [|w IH]; [done|]; exact IH).
  unfold builder_ok, builder_exact, builder_new, rectangular, builder_rows. cbn [cb_columns cb_width cb_bytes].
  rewrite length_replicate, Hz. split; [done|]. apply Forall_replicate. by destruct width.
Qed.
Lemma rectangular_cut n k (columns : Batch) : rectangular n columns ->
  rectangular (Nat.min k n) (firstn k <$> columns) /\ rectangular (n - k) (skipn k <$> columns).
Proof.
  unfold rectangular. intros Hr. split; rewrite Forall_fmap; (eapply Forall_impl; [exact Hr|]); intros c Hc; cbn in *;
    first [rewrite length_firstn|rewrite length_skipn]; lia.
Qed.
Lemma batch_size_rectangular n columns : columns <> [] -> rectangular n columns -> batch_size columns = n.
Proof. destruct columns as [|c columns]; [done|]. intros _ [Hc _]%Forall_cons. done. Qed.
Lemma rectangular_size n columns : rectangular n columns -> rectangular (batch_size columns) columns.
Proof. destruct columns as [|c columns]; [intros _; by constructor|]. intros Hr. by rewrite (batch_size_rectangular n). Qed.
Lemma builder_truncate_ok k b : builder_ok b ->
  builder_ok (builder_truncate k b) /\ cb_columns (builder_truncate k b) = (firstn k <$> cb_columns b).
Proof.
  intros [[Hw Hb] Hr]. unfold builder_truncate. destruct (Nat.leb_spec (builder_rows b) k) as [Hk|Hk].
  - split; [by split_and!|]. symmetry. rewrite <- (list_fmap_id (cb_columns b)) at 2. apply list_fmap_ext. intros i c Hc.
    apply firstn_all2. unfold rectangular in Hr. rewrite Forall_lookup in Hr. specialize (Hr i c Hc). cbn beta in Hr. unfold id. lia.
  - split; [|done]. destruct (rectangular_cut _ k _ Hr) as [Hf _]. split; [split; cbn [cb_columns cb_width cb_bytes]|].
    + by rewrite length_fmap.
    + pose proof (columns_width_cut k (cb_columns b)). lia.
    + cbn. by apply (rectangular_size _ _ Hf).
Qed.
Lemma push_value_exact i v b : i < cb_width b -> builder_exact b -> builder_exact (push_value i v b).
Proof.
  intros Hi [Hw Hb]. split; cbn [push_value cb_columns cb_width cb_bytes]; [by rewrite length_alter|]. rewrite columns_width_alter by lia. lia.
Qed.
Lemma push_cells (f : nat -> Value) : forall m k b, builder_exact b -> k + m <= cb_width b ->
  let b' := foldl (fun b i => push_value i (f i) b) b (seq k m) in
  builder_exact b' /\ cb_width b' = cb_width b
  /\ forall i, (cb_columns b' : list (list Value)) !! i =
       let c := (cb_columns b : list (list Value)) !! i in if (k <=? i) && (i <? k + m) then (fun c => c ++ [f i]) <$> c else c.
Proof.
  induction m as [|m IH]; intros k b Hb Hk; cbv zeta; cbn [seq foldl].
  - split_and!; [done|done|]. intros i. destruct (Nat.leb_spec k i), (Nat.ltb_spec i (k + 0)); try lia; try done.
  - destruct (IH (S k) (push_value k (f k) b)) as (He & Hw & Hl); [apply push_value_exact; [lia|done]|cbn; lia|].
    split_and!; [done|done|]. intros i. rewrite Hl. cbn [push_value cb_columns].
    destruct (decide (i = k)) as [->|Hne].
    + rewrite list_lookup_alter_eq. destruct (Nat.leb_spec (S k) k); [lia|]. destruct (Nat.leb_spec k k), (Nat.ltb_spec k (k + S m)); try lia. done.
    + rewrite list_lookup_alter_ne by done.
      destruct (Nat.leb_spec (S k) i), (Nat.ltb_spec i (S k + m)), (Nat.leb_spec k i), (Nat.ltb_spec i (k + S m)); try lia; done.
Qed.

(** ** Cutting a builder into chunks *)

(** The rows fit one chunk: no more than the limit, and under the size before the last of them. *)
Definition within_limits (b : ChunkBuilder) : Prop :=
  0 < builder_rows b /\ (Z.of_nat (builder_rows b) <= CHUNK_MAX_ROWS)%Z
  /\ (columns_width (firstn (builder_rows b - 1) <$> cb_columns b) < CHUNK_TARGET_BYTES)%Z.
Lemma columns_width_none columns : columns_width (firstn 0 <$> columns) = 0%Z.
Proof. induction columns as [|c columns IH]; [done|]. by rewrite fmap_cons, columns_width_cons, IH. Qed.
Lemma split_loop_ok n columns : rectangular n columns -> forall room take size, take + room = n ->
  size = columns_width (firstn take <$> columns) ->
  (take = 0 \/ (Z.of_nat take <= CHUNK_MAX_ROWS)%Z /\ (columns_width (firstn (take - 1) <$> columns) < CHUNK_TARGET_BYTES)%Z) ->
  let '(t, z) := split_loop columns room take size in
  take <= t <= n /\ z = columns_width (firstn t <$> columns)
  /\ (t = 0 \/ (Z.of_nat t <= CHUNK_MAX_ROWS)%Z /\ (columns_width (firstn (t - 1) <$> columns) < CHUNK_TARGET_BYTES)%Z)
  /\ (0 < room -> 0 < t).
Proof.
  intros Hr room. induction room as [|room IH]; intros take size Hn Hs Hlim; cbn [split_loop]; [split_and!; try lia; done|].
  destruct (Z.ltb_spec (Z.of_nat take) CHUNK_MAX_ROWS), (Z.ltb_spec size CHUNK_TARGET_BYTES); cbn [andb].
  1: { specialize (IH (S take) (size + row_width columns take)%Z). destruct (split_loop _ _ _ _) as [t z].
    destruct IH as (Ht & Hz & Hl & _); [lia|by rewrite (columns_width_row n), <- Hs by (done || lia)| |].
    - right. split; [lia|]. by rewrite Nat.sub_succ, Nat.sub_0_r, <- Hs.
    - split_and!; try done; lia. }
  all: split_and!; [lia|lia|done|done|intros _]; destruct (Nat.eq_0_gt_0_cases take) as [->|]; [|done];
    rewrite columns_width_none in Hs; unfold CHUNK_MAX_ROWS, CHUNK_TARGET_BYTES in *; lia.
Qed.

Definition join_columns (pieces : list ChunkBuilder) (columns : Batch) : Batch :=
  foldr (fun p rest => zip_with app (cb_columns p) rest) columns pieces.
Lemma zip_cut k (columns : Batch) : zip_with app (firstn k <$> columns) (skipn k <$> columns) = columns.
Proof. induction columns as [|c columns IH]; [done|]. by rewrite !fmap_cons; cbn; rewrite firstn_skipn, IH. Qed.
Lemma split_sealable_ok b : builder_ok b -> 0 < builder_rows b ->
  let '(head, rest) := split_sealable b in
  builder_ok head /\ builder_ok rest /\ within_limits head /\ builder_rows rest < builder_rows b
  /\ zip_with app (cb_columns head) (cb_columns rest) = cb_columns b.
Proof.
  intros [[Hw Hb] Hr] H0b. unfold split_sealable.
  assert (Hne : cb_columns b <> []) by (intros E; unfold builder_rows in H0b; rewrite E in H0b; cbn in H0b; lia).
  pose proof (split_loop_ok _ _ Hr (builder_rows b) 0 0%Z eq_refl (eq_sym (columns_width_none _)) (or_introl eq_refl)) as Hl.
  destruct (split_loop _ _ _ _) as [t z]. destruct Hl as (Ht & -> & Hl & Hpos). specialize (Hpos H0b).
  destruct (rectangular_cut _ t _ Hr) as [Hf Hs]. pose proof (columns_width_cut t (cb_columns b)) as Hcut.
  assert (Hrf : builder_rows (MkBuilder (cb_width b) (firstn t <$> cb_columns b) 0) = t).
  { unfold builder_rows at 1. cbn [cb_columns]. rewrite (batch_size_rectangular (Nat.min t (builder_rows b))); [lia| |done]. by destruct (cb_columns b). }
  assert (Hrs : builder_rows (MkBuilder (cb_width b) (skipn t <$> cb_columns b) 0) = builder_rows b - t).
  { unfold builder_rows at 1. cbn [cb_columns]. rewrite (batch_size_rectangular (builder_rows b - t)); [done| |done]. by destruct (cb_columns b). }
  unfold builder_rows at 1 in Hrf. unfold builder_rows at 1 in Hrs. cbn [cb_columns] in Hrf, Hrs.
  assert (Hhead : (if t =? builder_rows b then cb_bytes b else columns_width (take t <$> cb_columns b)) = columns_width (take t <$> cb_columns b)).
  { destruct (Nat.eqb_spec t (builder_rows b)) as [->|]; [|done]. rewrite Hb. rewrite Hcut at 1.
    assert (Hz : skipn (builder_rows b) <$> cb_columns b = (firstn 0 <$> cb_columns b)).
    { apply list_fmap_ext. intros i c Hc. unfold rectangular in Hr. rewrite Forall_lookup in Hr. specialize (Hr i c Hc). cbn beta in Hr.
      rewrite skipn_all2; [done|]. lia. }
    rewrite Hz, columns_width_none. lia. }
  rewrite Hhead. unfold builder_ok, builder_exact, within_limits, builder_rows. cbn [cb_columns cb_width cb_bytes].
  rewrite !length_fmap, Hrf, Hrs. fold (builder_rows b). split_and!; try done; try lia.
  - assert (Nat.min t (builder_rows b) = t) as Hm by lia. by rewrite Hm in Hf.
  - rewrite <- list_fmap_compose. destruct Hl as [|[_ Hl]]; [lia|]. erewrite list_fmap_ext; [exact Hl|].
    intros i c _. cbn. rewrite firstn_firstn. f_equal. lia.
  - apply zip_cut.
Qed.
Lemma split_all_ok : forall fuel b, builder_ok b -> builder_rows b <= fuel ->
  let '(pieces, last) := split_all fuel b in
  builder_is_empty last = true /\ builder_ok last /\ Forall (fun p => builder_ok p /\ within_limits p) pieces
  /\ join_columns pieces (cb_columns last) = cb_columns b.
Proof.
  induction fuel as [|fuel IH]; intros b Hb Hf; cbn [split_all].
  - split_and!; [|done|by constructor|done]. unfold builder_is_empty. apply Nat.eqb_eq. lia.
  - destruct (builder_is_empty b) eqn:He; [split_and!; [done|done|by constructor|done]|]. apply Nat.eqb_neq in He.
    pose proof (split_sealable_ok b Hb ltac:(lia)) as Hs. destruct (split_sealable b) as [head rest]. destruct Hs as (Hh & Hr & Hw & Hlt & Hz).
    specialize (IH rest Hr ltac:(lia)). destruct (split_all fuel rest) as [pieces last]. destruct IH as (Hl & Hlo & Hp & Hj).
    split_and!; try done; [by constructor|]. cbn. by rewrite <- Hz, <- Hj.
Qed.

(** ** Staging rows *)

(** A batch of the builder's width. *)
Definition fits_builder (batch : Batch) (b : ChunkBuilder) : Prop := length batch = cb_width b /\ rectangular (batch_size batch) batch.
Lemma push_row_ok batch row b : builder_ok b -> fits_builder batch b -> row < batch_size batch ->
  let b' := push_row batch row b in
  builder_ok b' /\ cb_width b' = cb_width b /\ builder_rows b' = (if cb_width b =? 0 then builder_rows b else S (builder_rows b))
  /\ cb_columns b' = zip_with (fun c x => c ++ firstn 1 (skipn row x)) (cb_columns b) batch.
Proof.
  intros [He Hr] [Hw Hb] Hrow b'. destruct (push_cells (fun column => match batch_value batch row column with Some v => v | None => VNull end)
    (cb_width b) 0 b He ltac:(lia)) as (He' & Hw' & Hl). fold (push_row batch row b) in He', Hw', Hl. fold b' in He', Hw', Hl.
  assert (Hcell : forall i c, (batch : list (list Value)) !! i = Some c -> exists x, batch_value batch row i = Some x /\ firstn 1 (skipn row c) = [x]).
  { intros i c Hc. unfold rectangular in Hb. rewrite Forall_lookup in Hb. specialize (Hb i c Hc). cbn beta in Hb.
    destruct (lookup_lt_is_Some_2 c row) as [x Hx]; [lia|]. exists x. split; [unfold batch_value; unfold Batch in *; by rewrite Hc|].
    rewrite (drop_S _ _ _ Hx). done. }
  assert (Hcols : cb_columns b' = zip_with (fun c x => c ++ firstn 1 (skipn row x)) (cb_columns b) batch).
  { apply list_eq. intros i. rewrite Hl, lookup_zip_with. destruct He as [Hlen _].
    destruct ((cb_columns b : list (list Value)) !! i) as [c|] eqn:Hc.
    - assert (i < cb_width b) by (rewrite <- Hlen; by eapply lookup_lt_Some).
      destruct (lookup_lt_is_Some_2 (batch : list (list Value)) i) as [x Hx]; [lia|]. destruct (Hcell i x Hx) as (v & Hv & Hf).
      unfold Batch in *. rewrite Hx, Hv. cbn [mbind option_bind]. rewrite Hf.
      destruct (Nat.ltb_spec i (0 + cb_width b)); [done|lia].
    - cbn. by case_match. }
  assert (Hrect : rectangular (S (builder_rows b)) (cb_columns b')).
  { rewrite Hcols. unfold rectangular in *. apply Forall_lookup. intros i c Hc. apply lookup_zip_with_Some in Hc as (y & x & -> & Hy & Hx).
    rewrite Forall_lookup in Hr. specialize (Hr i y Hy). cbn beta in Hr. destruct (Hcell i x Hx) as (v & _ & Hf). rewrite Hf, length_app, Hr. cbn. lia. }
  assert (Hrows : builder_rows b' = (if cb_width b =? 0 then builder_rows b else S (builder_rows b))).
  { destruct He as [Hlen _]. destruct He' as [Hlen' _]. destruct (Nat.eqb_spec (cb_width b) 0) as [Hz|Hz].
    - unfold builder_rows. rewrite Hw', Hz in Hlen'. rewrite Hz in Hlen. apply length_zero_iff_nil in Hlen, Hlen'. by rewrite Hlen, Hlen'.
    - unfold builder_rows at 1. apply batch_size_rectangular; [|done]. intros E. rewrite E, Hw' in Hlen'. cbn in Hlen'. lia. }
  split_and!; try done. split; [done|]. by apply (rectangular_size _ _ Hrect).
Qed.
Lemma zip_rows (f g h : list Value -> list Value -> list Value) (columns batch : Batch) : length columns = length batch ->
  (forall c x : list Value, f (g c x) x = h c x) -> zip_with f (zip_with g columns batch) batch = zip_with h columns batch.
Proof.
  revert batch; induction columns as [|c columns IH]; intros [|x batch] Hl Hf; try done. cbn in *. rewrite Hf. f_equal. apply IH; [lia|done].
Qed.
Lemma zip_none (columns batch : Batch) row : length columns = length batch ->
  zip_with (fun c x => c ++ firstn 0 (skipn row x)) columns batch = columns.
Proof.
  revert batch; induction columns as [|c columns IH]; intros [|x batch] Hl; try done. cbn in *. rewrite app_nil_r. f_equal. apply IH. lia.
Qed.
(** Rows pushed until the builder is full: the ones accepted are the first, and they are behind the others. *)
Lemma push_rows_ok batch : forall count row accepted b, builder_ok b -> fits_builder batch b -> row + count = batch_size batch ->
  let '(n, b') := push_rows batch (seq row count) accepted b in
  accepted <= n <= accepted + count /\ builder_ok b' /\ cb_width b' = cb_width b
  /\ cb_columns b' = zip_with (fun c x => c ++ firstn (n - accepted) (skipn row x)) (cb_columns b) batch
  /\ (n < accepted + count -> builder_is_full b' = true).
Proof.
  induction count as [|count IH]; intros row accepted b Hb Hf Hc; cbn [seq push_rows].
  - split_and!; try done; try lia. rewrite Nat.sub_diag, zip_none; [done|]. destruct Hb as [[Hlen _] _], Hf as [Hw _]. by rewrite Hlen, Hw.
  - destruct (builder_is_full b) eqn:Hfull.
    + split_and!; try done; try lia. rewrite Nat.sub_diag, zip_none; [done|]. destruct Hb as [[Hlen _] _], Hf as [Hw _]. by rewrite Hlen, Hw.
    + destruct (push_row_ok batch row b Hb Hf ltac:(lia)) as (Hb' & Hw' & _ & Hcols).
      specialize (IH (S row) (S accepted) (push_row batch row b) Hb').
      destruct (push_rows batch (seq (S row) count) (S accepted) (push_row batch row b)) as [n b'].
      destruct IH as (Hn & Hok & Hw & Hc' & Hfl); [by destruct Hf as [? ?]; split; [rewrite Hw'|]|lia|].
      split_and!; [lia|lia|done|congruence| |intros Hlt; apply Hfl; lia]. rewrite Hc', Hcols. apply zip_rows.
      { destruct Hb as [[Hlen _] _], Hf as [Hwd _]. by rewrite Hlen, Hwd. }
      intros c x. rewrite <- app_assoc. f_equal. replace (n - accepted) with (1 + (n - S accepted)) by lia.
      by rewrite <- take_take_drop, drop_drop, (Nat.add_1_r row).
Qed.
Lemma push_column_ok column cells : forall b, builder_exact b -> column < cb_width b ->
  let b' := push_column column cells b in
  builder_exact b' /\ cb_width b' = cb_width b
  /\ forall i, (cb_columns b' : list (list Value)) !! i =
       let c := (cb_columns b : list (list Value)) !! i in if decide (i = column) then (fun c => c ++ cells) <$> c else c.
Proof.
  unfold push_column. induction cells as [|v cells IH]; intros b Hb Hc; cbn [foldl].
  - split_and!; [done|done|]. intros i. cbn. case_decide; [|done]. destruct (_ !! i) as [c|]; [cbn; by rewrite app_nil_r|done].
  - destruct (IH (push_value column v b) (push_value_exact _ _ _ Hc Hb) Hc) as (He & Hw & Hl). split_and!; [done|done|].
    intros i. rewrite Hl. cbn [push_value cb_columns]. cbn zeta. case_decide as Hi; [subst i; rewrite list_lookup_alter_eq|by rewrite list_lookup_alter_ne].
    destruct (_ !! column) as [c|]; [cbn; by rewrite <- app_assoc|done].
Qed.
Lemma push_columns_ok (batch : Batch) : forall k b, builder_exact b -> k + length batch <= cb_width b ->
  let b' := push_columns k batch b in
  builder_exact b' /\ cb_width b' = cb_width b
  /\ forall i, (cb_columns b' : list (list Value)) !! i =
       let c := (cb_columns b : list (list Value)) !! i in
       if k <=? i then match (batch : list (list Value)) !! (i - k) with Some x => (fun c => c ++ x) <$> c | None => c end else c.
Proof.
  induction batch as [|cells batch IH]; intros k b Hb Hk; cbn [push_columns].
  - split_and!; [done|done|]. intros i. cbn. by destruct (k <=? i).
  - cbn [length] in Hk. destruct (push_column_ok k cells b Hb ltac:(lia)) as (He & Hw & Hl).
    destruct (IH (S k) (push_column k cells b) He ltac:(lia)) as (He' & Hw' & Hl'). split_and!; [done|by rewrite Hw'|].
    intros i. rewrite Hl', Hl. cbn zeta. destruct (Nat.leb_spec (S k) i), (Nat.leb_spec k i); try lia.
    + replace (i - k) with (S (i - S k)) by lia. cbn. by case_decide; [lia|].
    + assert (i = k) as -> by lia. rewrite Nat.sub_diag. cbn. by case_decide.
    + by case_decide; [lia|].
Qed.
Lemma push_owned_ok batch b n b' : builder_ok b -> fits_builder batch b -> push_owned batch b = inr (n, b') ->
  n = batch_size batch /\ builder_ok b' /\ cb_columns b' = zip_with app (cb_columns b) batch.
Proof.
  intros [He Hr] [Hw Hb]. unfold push_owned. rewrite Hw, Nat.eqb_refl. cbn [negb]. intros [= <- <-]. split; [done|].
  destruct He as [Hlen Hbytes]. destruct (builder_is_empty b) eqn:Hemp.
  - apply Nat.eqb_eq in Hemp. rewrite Hemp in Hr. split; [split; [by split|done]|]. cbn [cb_columns]. symmetry. clear -Hlen Hr Hw.
    unfold Batch in *. rewrite <- Hw in Hlen. clear Hw. revert batch Hlen. induction Hr as [|c columns Hc Hr IH]; intros [|x batch] Hl; try done.
    apply length_zero_iff_nil in Hc as ->. cbn in *. f_equal. apply IH. lia.
  - destruct (push_columns_ok batch 0 b (conj Hlen Hbytes) ltac:(lia)) as (He' & Hw' & Hl).
    assert (Hz : cb_columns (push_columns 0 batch b) = zip_with app (cb_columns b) batch).
    { apply list_eq. intros i. rewrite Hl, lookup_zip_with. cbn. rewrite Nat.sub_0_r. unfold Batch in *.
      destruct ((cb_columns b : list (list Value)) !! i) as [c|] eqn:Ec; [|cbn; by destruct (batch !! i)].
      assert (Hi : i < length batch) by (apply lookup_lt_Some in Ec; lia). by destruct (lookup_lt_is_Some_2 batch i Hi) as [x ->]. }
    split; [|done]. split; [done|]. apply (rectangular_size (builder_rows b + batch_size batch)). rewrite Hz. unfold rectangular in *.
    apply Forall_lookup. intros i c Hc. apply lookup_zip_with_Some in Hc as (y & x & -> & Hy & Hx). rewrite Forall_lookup in Hr, Hb.
    specialize (Hr i y Hy). specialize (Hb i x Hx). cbn beta in *. rewrite length_app. lia.
Qed.

(** A batch handed over whole, however large, is staged behind the rows already there and cut into
    chunks of at most 65536 rows, each under two mebibytes before its last row, with nothing left
    staged; put back together the chunks are the rows that were there and the batch's, column by
    column and in order, and each chunk's running estimate is the width of its cells. *)
Theorem staged_batch_cuts_within_limits batch b n b' : builder_ok b -> fits_builder batch b -> push_owned batch b = inr (n, b') ->
  exists pieces last, split_all (builder_rows b') b' = (pieces, last)
  /\ builder_is_empty last = true /\ Forall (fun p => builder_ok p /\ within_limits p) pieces
  /\ join_columns pieces (cb_columns last) = zip_with app (cb_columns b) batch.
Proof.
  intros Hb Hf Hp. destruct (push_owned_ok batch b n b' Hb Hf Hp) as (_ & Hok & <-).
  pose proof (split_all_ok (builder_rows b') b' Hok (Nat.le_refl _)) as Hs. destruct (split_all _ _) as [pieces last]. exists pieces, last. tauto.
Qed.
End Spec.

#[local] Existing Instance no_float.
Lemma staged_batch_cuts_within_limits_witness : exists pieces last,
  split_all 3 (MkBuilder 1 [[VInt 1; VNull; VText (B "a")]] 42) = (pieces, last)
  /\ builder_is_empty last = true /\ Forall (fun p => builder_ok p /\ within_limits p) pieces
  /\ join_columns pieces (cb_columns last) = [[VInt 1; VNull; VText (B "a")]].
Proof.
  apply (staged_batch_cuts_within_limits [[VNull; VText (B "a")]] (MkBuilder 1 [[VInt 1]] 16) 2
    (MkBuilder 1 [[VInt 1; VNull; VText (B "a")]] 42)); [|split; [done|by constructor]|reflexivity].
  split; [by split|]. by constructor.
Defined.
