(* ===== verification/Collate.v ===== *)
(** * Collate: how the grid orders and matches texts, [crates/qh-result-store/src/collate.rs].

    Numbers compare by their exact decimal value ([NumKey]), other texts by a key of bytes
    ([natural_key]), and the search and the filters fold case ([fold]). Unicode's tables, its normal
    forms and the arithmetic of floats are parameters. *)
From S2P Require Import Prelude Bytes Text Dates Value ValueSpec Names.
#[local] Open Scope nat_scope.

(** ** Numbers *)

Record NumKey := MkNum { nk_neg : bool; nk_adj_exp : Z; nk_digits : bytes }.
Definition num_sign (k : NumKey) : Z := match nk_digits k with [] => 0 | _ => if nk_neg k then -1 else 1 end%Z.
Definition num_magnitude (k : NumKey) : Z := (nk_adj_exp k + Z.of_nat (length (nk_digits k)))%Z.
Definition then_with (c d : comparison) : comparison := match c with Eq => d | c => c end.
Definition num_cmp (a b : NumKey) : comparison :=
  match Z.compare (num_sign a) (num_sign b) with
  | Eq =>
      if (num_sign a =? 0)%Z then Eq
      else
        let order := then_with (Z.compare (num_magnitude a) (num_magnitude b)) (bytes_compare (nk_digits a) (nk_digits b)) in
        if nk_neg a then CompOpp order else order
  | c => c
  end.

(** A space separator or a tab. *)
Definition is_zs_or_tab (c : Z) : bool :=
  (existsb (Z.eqb c) [32; 160; 5760; 8239; 8287; 12288; 9] || (8192 <=? c) && (c <=? 8202))%Z.
Definition trim_zs_tab (s : bytes) : bytes := trim_chars is_zs_or_tab s.
Definition is_exp (b : Z) : bool := (b =b 101) || (b =b 69).
Definition is_sign (b : Z) : bool := (b =b 43) || (b =b 45).
(** [strip_prefix] of one character of a set. *)
Definition strip_one (p : Z -> bool) (s : bytes) : option bytes := match s with b :: r => if p b then Some r else None | [] => None end.
Definition strip_or (p : Z -> bool) (s : bytes) : bytes := match strip_one p s with Some r => r | None => s end.
(** [i64] arithmetic as it wraps; a debug build panics instead. *)
Definition wrap_i64 (n : Z) : Z := as_signed 64 (n mod 2 ^ 64).
(** The exponent of a number's text, and whether it is one. *)
Definition read_exp (text : option bytes) : option Z :=
  match text with
  | None => Some 0%Z
  | Some text => let digits := strip_or is_sign text in
                 match digits with [] => None | _ => if forallb is_ascii_digit digits then parse_i64 text else None end
  end.
(** The digits before and after the dot, no more than 38 of them. *)
Definition read_mantissa (mantissa : bytes) : option (bytes * bytes) :=
  let check int frac :=
    if negb (forallb is_ascii_digit int) || negb (forallb is_ascii_digit frac) then None
    else let total := length int + length frac in if (total =? 0) || (38 <? total) then None else Some (int, frac) in
  match split_byte DOT mantissa with
  | [int] => check int []
  | [int; frac] => check int frac
  | _ => None
  end.
Definition ZERO : Z := 48.
Definition strip_leading (digits : bytes) : bytes := drop (count_while (fun b => b =b ZERO) digits) digits.
Definition adjusted (exp_given : Z) (frac : bytes) (trailing : nat) : Z :=
  wrap_i64 (wrap_i64 (exp_given - Z.of_nat (length frac)) + Z.of_nat trailing).
Definition in_decimal_range (e : Z) : bool := ((-166 <=? e) && (e <=? 128))%Z.
Definition split_exp (rest : bytes) : bytes * option bytes :=
  match split_once is_exp rest with Some (m, e) => (m, Some e) | None => (rest, None) end.
Definition swift_plain_number (text : bytes) : option NumKey :=
  match trim_zs_tab text with
  | [] => None
  | body =>
      let '(neg, rest) := match strip_prefix body (B "-") with
                          | Some rest => (true, rest)
                          | None => (false, match strip_prefix body (B "+") with Some r => r | None => body end)
                          end in
      let '(mantissa, exp_text) := split_exp rest in
      match read_exp exp_text with
      | None => None
      | Some exp_given =>
          match read_mantissa mantissa with
          | None => None
          | Some (int, frac) =>
              let digits := strip_leading (int ++ frac) in
              let trailing := count_while (fun b => b =b ZERO) (rev digits) in
              let digits := take (length digits - trailing) digits in
              let adj_exp := adjusted exp_given frac trailing in
              if negb (in_decimal_range adj_exp) then None
              else match digits with
                   | [] => Some (MkNum false 0 [])
                   | _ => Some (MkNum neg adj_exp digits)
                   end
          end
      end
  end.
(** The same question without building the key. *)
Definition is_swift_plain_number (text : bytes) : bool :=
  let body := trim_zs_tab text in
  match body with
  | b :: _ =>
      if is_ascii_digit b || is_sign b || (b =b DOT) then
        let '(mantissa, exp_text) := split_exp (strip_or is_sign body) in
        match read_exp exp_text with
        | None => false
        | Some exp_given =>
            match read_mantissa mantissa with
            | None => false
            | Some (int, frac) =>
                let trailing := if forallb (fun b => b =b ZERO) (int ++ frac) then 0 else count_while (fun b => b =b ZERO) (rev (int ++ frac)) in
                in_decimal_range (adjusted exp_given frac trailing)
            end
        end
      else false
  | [] => false
  end.

(** ** Folding *)

(** Unicode's normal forms and tables. *)
Class Normal := {
  nfc : bytes -> bytes;
  nfd : bytes -> list Z;
  is_nonspacing : Z -> bool;
  char_whitespace : Z -> bool; char_alphabetic : Z -> bool; char_numeric : Z -> bool; char_lowercase : Z -> bool;
}.
(** What the code asks of [f64] beside its text: order, sums and products, and powers of two. *)
Class FloatOps `{Float} := { f_le : f64 -> f64 -> bool; f_lt : f64 -> f64 -> bool; f_add : f64 -> f64 -> f64; f_mul : f64 -> f64 -> f64;
  f_neg : f64 -> f64; f_of_u32 : Z -> f64; f_div : f64 -> f64 -> f64; f_exp2 : Z -> f64 }.

Section Fold.
Context `{Unicode} `{Normal}.
Definition is_ascii (s : bytes) : bool := forallb (fun b => (b <? 128)%Z) s.
(** The texts replaced after lowercasing, in UTF-8: the sharp s, the ligatures, the final sigma and
    the dotted capital i. *)
Definition FOLDS : list (bytes * bytes) :=
  [([195; 159], B "ss"); ([239; 172; 128], B "ff"); ([239; 172; 129], B "fi"); ([239; 172; 130], B "fl"); ([239; 172; 131], B "ffi");
   ([239; 172; 132], B "ffl"); ([239; 172; 133], B "ft"); ([239; 172; 134], B "st"); ([207; 130], [207; 131]); ([196; 176], [105; 204; 135])]%Z.
Definition fold (s : bytes) : bytes := foldl (fun s e => replace_text e.1 e.2 s) (to_lowercase (nfc s)) FOLDS.
Definition ci_contains (haystack needle : bytes) : bool :=
  match needle with
  | [] => true
  | _ => if is_ascii haystack && is_ascii needle then contains (lower haystack) (lower needle) else contains (fold haystack) (fold needle)
  end.
Definition ci_equal (a b : bytes) : bool :=
  if is_ascii a && is_ascii b then eq_ignore_ascii_case a b else bytes_eqb (fold a) (fold b).

(** ** The natural key *)

Record Element := MkElement { el_base : option Z; el_marks : list Z }.
(** The elements so far are kept in reverse. *)
Definition split_turn (elements : list Element) (c : Z) : list Element :=
  if is_nonspacing c then
    match elements with
    | MkElement (Some b) marks :: rest => MkElement (Some b) (marks ++ [c]) :: rest
    | _ => MkElement None [c] :: elements
    end
  else MkElement (Some c) [] :: elements.
Definition split_elements (s : bytes) : list Element := rev (foldl split_turn [] (nfd s)).
Definition element_digit (e : Element) : option Z :=
  match el_base e with Some c => if is_ascii_digit c then Some c else None | None => None end.
Definition is_digit_element (e : Element) : bool := match element_digit e with Some _ => true | None => false end.
Definition other_script_cp (base : Z) : Z := (if (12449 <=? base) && (base <=? 12534) then base - 96 else base)%Z.
Definition be3 (v : Z) : bytes := [Z.shiftr v 16 mod 256; Z.shiftr v 8 mod 256; v mod 256]%Z.
Definition byte_min (n : nat) : Z := Z.of_nat (Nat.min n 255).
Definition primary_of (base : option Z) : bytes :=
  match base with
  | Some c =>
      if char_whitespace c then [1%Z]
      else if is_ascii_lowercase c then [4%Z; c]
      else if is_ascii_uppercase c then [4%Z; to_ascii_lowercase c]
      else if char_alphabetic c || char_numeric c then 5%Z :: be3 (other_script_cp c)
      else 2%Z :: be3 c
  | None => 2%Z :: be3 0
  end.
Definition secondary_of (marks : list Z) : bytes :=
  match marks with [] => [0%Z] | _ => byte_min (length marks) :: mjoin (be3 <$> marks) end.
Definition tertiary_of (base : option Z) : Z := match base with Some c => if char_lowercase c then 1 else 2 | None => 0 end%Z.
Record Levels := MkLevels { lv_primary : bytes; lv_secondary : bytes; lv_tertiary : bytes; lv_quaternary : bytes }.
Definition add_levels (l m : Levels) : Levels :=
  MkLevels (lv_primary l ++ lv_primary m) (lv_secondary l ++ lv_secondary m) (lv_tertiary l ++ lv_tertiary m) (lv_quaternary l ++ lv_quaternary m).
Definition run_levels (raw : bytes) : Levels :=
  let leading := count_while (fun b => b =b ZERO) raw in
  let significant := drop leading raw in
  MkLevels (3%Z :: byte_min (length significant) :: significant) [] [] [byte_min leading].
Definition element_levels (e : Element) : Levels :=
  MkLevels (primary_of (el_base e)) (secondary_of (el_marks e)) [tertiary_of (el_base e)] [0%Z].
(** The loop: [run] holds the digits of the run the elements before end with. *)
Fixpoint levels (run : bytes) (elements : list Element) : Levels :=
  let flush rest := match run with [] => rest | _ => add_levels (run_levels run) rest end in
  match elements with
  | [] => flush (MkLevels [] [] [] [])
  | e :: elements =>
      match element_digit e with
      | Some d => levels (run ++ [d]) elements
      | None => flush (add_levels (element_levels e) (levels [] elements))
      end
  end.
Definition natural_key (s : bytes) : bytes :=
  let l := levels [] (split_elements s) in
  lv_primary l ++ [0%Z] ++ lv_secondary l ++ [0%Z] ++ lv_tertiary l ++ [0%Z] ++ lv_quaternary l ++ [0%Z] ++ s.
(** The first sixteen bytes, padded with zeros, little-endian. *)
Definition natural_key_prefix (s : bytes) : Z := from_le (take 16 (natural_key s ++ replicate 16 0%Z)).
End Fold.

(** ** Floats *)

Section Double.
Context `{FloatOps}.
Definition hex_digit_value (b : Z) : Z :=
  (if is_ascii_digit b then b - 48 else if (97 <=? b) && (b <=? 102) then b - 87 else if (65 <=? b) && (b <=? 70) then b - 55 else 0)%Z.
Definition is_p (b : Z) : bool := (b =b 112) || (b =b 80).
Definition hex_fraction (frac : bytes) (value scale : f64) : f64 :=
  (foldl (fun vs b => (f_add vs.1 (f_mul (f_of_u32 (hex_digit_value b)) vs.2), f_div vs.2 (f_of_u32 16))) (value, scale) frac).1.
Definition swift_double (text : bytes) : option f64 :=
  match parse_f64 text with
  | Some f => Some f
  | None =>
      let '(neg, rest) := match strip_prefix text (B "-") with
                          | Some rest => (true, rest)
                          | None => (false, match strip_prefix text (B "+") with Some r => r | None => text end)
                          end in
      let body := match strip_prefix rest (B "0x") with Some r => Some r | None => strip_prefix rest (B "0X") end in
      match body with
      | None => None
      | Some rest =>
          let parts := match split_once is_p rest with
                       | Some (m, e) => match parse_i32 e with Some e => Some (m, e) | None => None end
                       | None => Some (rest, 0%Z)
                       end in
          match parts with
          | None => None
          | Some (mantissa, exp) =>
              let '(int, frac) := match split_once (fun b => b =b DOT) mantissa with Some p => p | None => (mantissa, []) end in
              if (length int + length frac =? 0) || negb (forallb is_ascii_hexdigit int) || negb (forallb is_ascii_hexdigit frac) then None
              else
                let value := foldl (fun acc b => f_add (f_mul acc (f_of_u32 16)) (f_of_u32 (hex_digit_value b))) (f_of_u32 0) int in
                let value := hex_fraction frac value (f_div (f_of_u32 1) (f_of_u32 16)) in
                let value := f_mul value (f_exp2 exp) in
                Some (if neg then f_neg value else value)
          end
      end
  end.
End Double.

(** ** Properties

    Number keys order texts by their exact decimal value, for [Collate]. *)

#[local] Open Scope nat_scope.

(** ** Order of keys *)

(** Digits that do not end with a zero. *)
Definition no_tail (s : bytes) : Prop := last s <> Some ZERO.
Lemma no_tail_cons b s : no_tail (b :: s) -> no_tail s.
Proof. unfold no_tail. destruct s; [done|]. by rewrite last_cons_cons. Qed.
Lemma no_tail_positive s : digits s -> no_tail s -> s <> [] -> (0 < digits_value s)%Z.
Proof.
  induction 1 as [|b s Hb Hs IH]; [done|]. intros Ht _. rewrite digits_value_cons. unfold is_ascii_digit in Hb.
  destruct s as [|c s]; [unfold no_tail, ZERO in Ht; cbn in *; assert (b <> 48)%Z by congruence; lia|].
  specialize (IH (no_tail_cons _ _ Ht) ltac:(done)). pose proof (Z.pow_nonneg 10 (Z.of_nat (length (c :: s))) ltac:(lia)). nia.
Qed.
(** The comparison of digits is the one of the fractions they are. *)
Lemma digits_compare a : forall b k, digits a -> digits b -> no_tail a -> no_tail b -> length a <= k -> length b <= k ->
  bytes_compare a b = Z.compare (digits_value a * 10 ^ Z.of_nat (k - length a)) (digits_value b * 10 ^ Z.of_nat (k - length b)).
Proof.
  induction a as [|x a IH]; intros [|y b] k Ha Hb Ta Tb Hla Hlb.
  - cbn. by rewrite Z.compare_refl.
  - cbn [bytes_compare]. symmetry. apply Z.compare_lt_iff. pose proof (no_tail_positive _ Hb Tb ltac:(done)).
    pose proof (Z.pow_pos_nonneg 10 (Z.of_nat (k - length (y :: b))) ltac:(lia) ltac:(lia)). change (digits_value []) with 0%Z. nia.
  - cbn [bytes_compare]. symmetry. apply Z.compare_gt_iff. pose proof (no_tail_positive _ Ha Ta ltac:(done)).
    pose proof (Z.pow_pos_nonneg 10 (Z.of_nat (k - length (x :: a))) ltac:(lia) ltac:(lia)). change (digits_value []) with 0%Z. nia.
  - cbn in Hla, Hlb. destruct k as [|k]; [lia|]. apply Forall_cons in Ha as [Hx Ha], Hb as [Hy Hb].
    assert (Hv : forall z s, digits s -> length s <= k ->
      (digits_value (z :: s) * 10 ^ Z.of_nat (S k - length (z :: s)) = (z - 48) * 10 ^ Z.of_nat k + digits_value s * 10 ^ Z.of_nat (k - length s))%Z).
    { intros z s _ Hs. rewrite digits_value_cons. cbn [length]. replace (S k - S (length s)) with (k - length s) by lia.
      replace (Z.of_nat k) with (Z.of_nat (length s) + Z.of_nat (k - length s))%Z by lia. rewrite Z.pow_add_r by lia. lia. }
    assert (Hbound : forall s, digits s -> length s <= k -> (0 <= digits_value s * 10 ^ Z.of_nat (k - length s) < 10 ^ Z.of_nat k)%Z).
    { intros s Hs Hl. pose proof (digits_value_bound s Hs) as Hd. replace (Z.of_nat k) with (Z.of_nat (length s) + Z.of_nat (k - length s))%Z by lia.
      rewrite Z.pow_add_r by lia. pose proof (Z.pow_pos_nonneg 10 (Z.of_nat (k - length s)) ltac:(lia) ltac:(lia)). nia. }
    rewrite !Hv by (done || lia). cbn [bytes_compare]. unfold is_ascii_digit in Hx, Hy. pose proof (Hbound a Ha ltac:(lia)). pose proof (Hbound b Hb ltac:(lia)).
    destruct (Z.compare_spec x y) as [->|Hlt|Hgt].
    + rewrite Z.add_compare_mono_l. apply IH; try done; [by eapply no_tail_cons|by eapply no_tail_cons|lia|lia].
    + symmetry. apply Z.compare_lt_iff. nia.
    + symmetry. apply Z.compare_gt_iff. nia.
Qed.

(** What a key stands for, scaled to be whole: the smallest exponent of a key is [-166], and a key has at
    most 38 digits. *)
Definition SCALE : Z := 204.
Definition key_value (k : NumKey) : Z := ((if nk_neg k then -1 else 1) * digits_value (nk_digits k) * 10 ^ (nk_adj_exp k + SCALE))%Z.
Record canonical (k : NumKey) : Prop := {
  key_digits : digits (nk_digits k);
  key_tail : no_tail (nk_digits k);
  key_lead : head (nk_digits k) <> Some ZERO;
  key_length : length (nk_digits k) <= 38;
  key_range : (-166 <= nk_adj_exp k <= 128)%Z;
}.
Lemma leading_bound s : digits s -> s <> [] -> head s <> Some ZERO -> (10 ^ (Z.of_nat (length s) - 1) <= digits_value s)%Z.
Proof.
  destruct s as [|b s]; [done|]. intros Hs _ Hb. apply Forall_cons in Hs as [Hd Hs]. unfold is_ascii_digit in Hd. rewrite digits_value_cons.
  pose proof (digits_value_bound s Hs). assert (b <> 48)%Z by (unfold ZERO in Hb; cbn in Hb; congruence). cbn [length].
  replace (Z.of_nat (S (length s)) - 1)%Z with (Z.of_nat (length s)) by lia. nia.
Qed.
Lemma canonical_magnitude k : canonical k -> nk_digits k <> [] -> let v := (digits_value (nk_digits k) * 10 ^ (nk_adj_exp k + SCALE))%Z in
  (10 ^ (num_magnitude k + SCALE - 1) <= v < 10 ^ (num_magnitude k + SCALE))%Z.
Proof.
  intros [Hd Ht Hl Hn Hr] Hne v. subst v. unfold num_magnitude, SCALE. pose proof (leading_bound _ Hd Hne Hl). pose proof (digits_value_bound _ Hd).
  assert (0 < length (nk_digits k)) by (destruct (nk_digits k); [done|cbn; lia]).
  replace (nk_adj_exp k + Z.of_nat (length (nk_digits k)) + 204 - 1)%Z with ((Z.of_nat (length (nk_digits k)) - 1) + (nk_adj_exp k + 204))%Z by lia.
  replace (nk_adj_exp k + Z.of_nat (length (nk_digits k)) + 204)%Z with (Z.of_nat (length (nk_digits k)) + (nk_adj_exp k + 204))%Z by lia.
  rewrite (Z.pow_add_r 10 (_ - 1)), (Z.pow_add_r 10 (Z.of_nat _)) by lia.
  pose proof (Z.pow_pos_nonneg 10 (nk_adj_exp k + 204) ltac:(lia) ltac:(lia)). nia.
Qed.
(** The order of two keys of the same sign, by what they stand for. *)
Lemma magnitude_compare a b : canonical a -> canonical b -> nk_digits a <> [] -> nk_digits b <> [] ->
  then_with (Z.compare (num_magnitude a) (num_magnitude b)) (bytes_compare (nk_digits a) (nk_digits b)) =
  Z.compare (digits_value (nk_digits a) * 10 ^ (nk_adj_exp a + SCALE)) (digits_value (nk_digits b) * 10 ^ (nk_adj_exp b + SCALE)).
Proof.
  intros Ha Hb Na Nb. pose proof (canonical_magnitude a Ha Na) as Va. pose proof (canonical_magnitude b Hb Nb) as Vb. cbn zeta in *.
  assert (Hgap : forall x y, (x < y -> 10 ^ (x + SCALE) <= 10 ^ (y + SCALE - 1))%Z) by (intros; apply Z.pow_le_mono_r; lia).
  destruct Ha as [Hda Hta _ Hna Hra], Hb as [Hdb Htb _ Hnb Hrb].
  destruct (Z.compare_spec (num_magnitude a) (num_magnitude b)) as [E|Hlt|Hgt]; cbn [then_with].
  - rewrite (digits_compare _ _ 38) by (done || lia).
    assert (Hk : forall k, length (nk_digits k) <= 38 -> (0 <= num_magnitude k + 166)%Z -> (0 <= nk_adj_exp k + 204)%Z ->
      (digits_value (nk_digits k) * 10 ^ (nk_adj_exp k + SCALE) = digits_value (nk_digits k) * 10 ^ Z.of_nat (38 - length (nk_digits k)) * 10 ^ (num_magnitude k + 166))%Z).
    { intros k Hk Hm He. unfold num_magnitude, SCALE in *. rewrite <- Z.mul_assoc, <- Z.pow_add_r by lia. do 2 f_equal. lia. }
    assert (Hma : (0 <= num_magnitude a + 166)%Z) by (unfold num_magnitude; lia). assert (Hmb : (0 <= num_magnitude b + 166)%Z) by (unfold num_magnitude; lia).
    rewrite (Hk a), (Hk b), E by lia.
    pose proof (Z.pow_pos_nonneg 10 (num_magnitude b + 166) ltac:(lia) ltac:(lia)). apply Zmult_compare_compat_r. lia.
  - symmetry. apply Z.compare_lt_iff. specialize (Hgap _ _ Hlt). lia.
  - symmetry. apply Z.compare_gt_iff. specialize (Hgap _ _ Hgt). lia.
Qed.
Lemma num_cmp_value a b : canonical a -> canonical b -> num_cmp a b = Z.compare (key_value a) (key_value b).
Proof.
  intros Ha Hb.
  assert (Hpos : forall k, canonical k -> nk_digits k <> [] -> (0 < digits_value (nk_digits k) * 10 ^ (nk_adj_exp k + SCALE))%Z).
  { intros k Hk Hne. pose proof (no_tail_positive _ (key_digits k Hk) (key_tail k Hk) Hne). destruct (key_range k Hk).
    pose proof (Z.pow_pos_nonneg 10 (nk_adj_exp k + SCALE) ltac:(lia) ltac:(unfold SCALE; lia)). nia. }
  pose proof (magnitude_compare a b Ha Hb) as Hm. specialize (Hpos a Ha) as Pa. specialize (Hpos b Hb) as Pb. clear Hpos.
  unfold num_cmp, num_sign, key_value. rewrite <- !Z.mul_assoc.
  set (va := (digits_value (nk_digits a) * _)%Z) in *. set (vb := (digits_value (nk_digits b) * _)%Z) in *.
  assert (Za : nk_digits a = [] -> va = 0%Z) by (unfold va; by intros ->). assert (Zb : nk_digits b = [] -> vb = 0%Z) by (unfold vb; by intros ->).
  destruct (nk_digits a) as [|xa sa]; [rewrite Za by done|specialize (Pa ltac:(done))];
    (destruct (nk_digits b) as [|xb sb]; [rewrite Zb by done|specialize (Pb ltac:(done))]);
    destruct (nk_neg a), (nk_neg b); cbn [Z.compare Z.eqb Pos.compare Pos.compare_cont]; try (symmetry; first [apply Z.compare_lt_iff|apply Z.compare_gt_iff|apply Z.compare_eq_iff]; lia);
    try rewrite Hm by done.
  all: change (-1 ?= -1)%Z with Eq; cbn [Z.eqb].
  all: try (destruct (Z.compare_spec va vb); cbn [CompOpp]; symmetry; first [apply Z.compare_lt_iff|apply Z.compare_gt_iff|apply Z.compare_eq_iff]; lia).
Qed.

(** ** The parts of a number's text *)

(** Sign, digits before and after the dot, and exponent. *)
Definition plain_parts (text : bytes) : option (bool * bytes * bytes * Z) :=
  match trim_zs_tab text with
  | [] => None
  | b :: r =>
      let '(mantissa, exp_text) := split_exp (strip_or is_sign (b :: r)) in
      match read_exp exp_text, read_mantissa mantissa with
      | Some e, Some (int, frac) => Some (b =b 45, int, frac, e)
      | _, _ => None
      end
  end.
(** The number a text is, times [10 ^ SCALE]. *)
Definition plain_value (text : bytes) : option Z :=
  match plain_parts text with
  | Some (neg, int, frac, e) => Some ((if neg then -1 else 1) * digits_value (int ++ frac) * 10 ^ (e - Z.of_nat (length frac) + SCALE))%Z
  | None => None
  end.
Definition zero_run (s : bytes) : nat := count_while (fun b => b =b ZERO) s.
Definition key_of (neg : bool) (int frac : bytes) (e : Z) : option NumKey :=
  let digits := strip_leading (int ++ frac) in
  let trailing := zero_run (rev digits) in
  let digits := take (length digits - trailing) digits in
  if negb (in_decimal_range (adjusted e frac trailing)) then None
  else match digits with [] => Some (MkNum false 0 []) | _ => Some (MkNum neg (adjusted e frac trailing) digits) end.
Lemma strip_one_byte b s : strip_prefix s [b] = match s with x :: r => if x =b b then Some r else None | [] => None end.
Proof. unfold strip_prefix. destruct s as [|x s]; [done|]. cbn [starts_with length drop app]. rewrite Z.eqb_sym. by destruct (x =b b), s. Qed.
Lemma swift_key text : swift_plain_number text = match plain_parts text with Some (neg, int, frac, e) => key_of neg int frac e | None => None end.
Proof.
  unfold swift_plain_number, plain_parts. destruct (trim_zs_tab text) as [|b r]; [done|].
  change (B "-") with [45%Z]. change (B "+") with [43%Z]. rewrite !strip_one_byte. unfold strip_or, strip_one, is_sign.
  assert (Hs : forall n rest, match (if b =b 45 then Some r else None) with Some rest => (true, rest)
      | None => (false, match (if b =b 43 then Some r else None) with Some r => r | None => b :: r end) end = (n, rest) ->
      n = (b =b 45) /\ rest = match (if (b =b 43) || (b =b 45) then Some r else None) with Some r => r | None => b :: r end).
  { intros n rest. destruct (b =b 45), (b =b 43); cbn [orb]; intros [= <- <-]; done. }
  destruct (match _ with Some _ => _ | None => _ end) as [n rest] eqn:E in |- *. destruct (Hs n rest E) as [-> ->]. clear Hs E.
  destruct (split_exp _) as [mantissa exp]. destruct (read_exp exp) as [e|]; [|done]. by destruct (read_mantissa mantissa) as [[int frac]|].
Qed.
Lemma zero_run_split s : s = zeros (zero_run s) ++ drop (zero_run s) s /\ head (drop (zero_run s) s) <> Some ZERO.
Proof.
  unfold zero_run. induction s as [|b s [IH Hh]]; [by split|]. cbn [count_while]. destruct (b =b ZERO) eqn:E.
  - apply Z.eqb_eq in E as ->. cbn [drop zeros replicate app]. fold (zeros (count_while (fun b => b =b ZERO) s)). rewrite <- IH. by split.
  - cbn. split; [done|]. intros [= ->]. by rewrite Z.eqb_refl in E.
Qed.
Lemma rev_reversed {A} (l : list A) : rev l = reverse l.
Proof. apply rev_alt. Qed.
Lemma zeros_rev k : rev (zeros k) = zeros k.
Proof. unfold zeros. rewrite rev_reversed. apply reverse_replicate. Qed.
Lemma zero_tail_split s : let t := zero_run (rev s) in s = take (length s - t) s ++ zeros t /\ no_tail (take (length s - t) s) /\ t <= length s.
Proof.
  cbn zeta. destruct (zero_run_split (rev s)) as [Hs Hh]. set (t := zero_run (rev s)) in *.
  assert (Ht : t <= length s) by (unfold t, zero_run; rewrite <- length_rev; apply count_while_le).
  assert (E : s = rev (drop t (rev s)) ++ zeros t) by (rewrite <- (rev_involutive s) at 1; rewrite Hs at 1; by rewrite rev_app_distr, zeros_rev).
  assert (Et : take (length s - t) s = rev (drop t (rev s))).
  { rewrite E at 2. rewrite take_app_le, take_ge; [done|..]; rewrite length_rev, length_drop, length_rev; lia. }
  rewrite Et. split; [exact E|]. split; [|done]. unfold no_tail. rewrite rev_reversed, last_reverse. exact Hh.
Qed.
Lemma read_mantissa_ok m int frac : read_mantissa m = Some (int, frac) -> digits int /\ digits frac /\ 0 < length (int ++ frac) <= 38.
Proof.
  intros H.
  assert (Hc : forall i f, (if negb (forallb is_ascii_digit i) || negb (forallb is_ascii_digit f) then None
     else if (length i + length f =? 0) || (38 <? length i + length f) then None else Some (i, f)) = Some (int, frac) ->
     digits int /\ digits frac /\ 0 < length (int ++ frac) <= 38).
  { intros i f. destruct (forallb is_ascii_digit i) eqn:Ei, (forallb is_ascii_digit f) eqn:Ef; cbn [negb orb]; try done.
    destruct ((length i + length f =? 0) || (38 <? length i + length f)) eqn:El; [done|]. intros [= <- <-]. rewrite length_app.
    apply orb_false_iff in El as [E0%Nat.eqb_neq E1%Nat.ltb_ge].
    repeat split; [by apply digits_of_forallb..|lia|lia]. }
  unfold read_mantissa in H. cbn zeta in H. destruct (split_byte DOT m) as [|i [|f [|? ?]]]; try done; by apply Hc in H.
Qed.
Lemma read_exp_range text e : read_exp text = Some e -> (- 2 ^ 63 <= e < 2 ^ 63)%Z.
Proof.
  unfold read_exp. destruct text as [text|]; [|intros [= <-]; lia]. destruct (strip_or is_sign text); [done|]. destruct (forallb _ _); [|done].
  intros H%parse_int_range. unfold I64_MIN, I64_MAX in H. lia.
Qed.
Lemma parts_ok text neg int frac e : plain_parts text = Some (neg, int, frac, e) ->
  digits int /\ digits frac /\ 0 < length (int ++ frac) <= 38 /\ (- 2 ^ 63 <= e < 2 ^ 63)%Z.
Proof.
  unfold plain_parts. destruct (trim_zs_tab text) as [|b r]; [done|]. destruct (split_exp _) as [m x]. destruct (read_exp x) as [e'|] eqn:Ee; [|done].
  destruct (read_mantissa m) as [[i f]|] eqn:Em; [|done]. intros [= _ -> -> ->]. apply read_mantissa_ok in Em as (? & ? & ?). apply read_exp_range in Ee. done.
Qed.
Lemma wrap_i64_shift n : exists k, wrap_i64 n = (n + k * 2 ^ 64)%Z.
Proof.
  unfold wrap_i64, as_signed. pose proof (Z.div_mod n (2 ^ 64) ltac:(lia)).
  destruct (_ <? _)%Z; [exists (- (n / 2 ^ 64))%Z|exists (- (n / 2 ^ 64) - 1)%Z]; lia.
Qed.
(** Where the exponent is in range no sum wrapped. *)
Lemma adjusted_value e frac t : (- 2 ^ 63 <= e < 2 ^ 63)%Z -> length frac <= 38 -> t <= 38 -> in_decimal_range (adjusted e frac t) = true ->
  adjusted e frac t = (e - Z.of_nat (length frac) + Z.of_nat t)%Z /\ (-166 <= adjusted e frac t <= 128)%Z.
Proof.
  intros He Hf Ht Hr. unfold in_decimal_range in Hr. assert (Hb : (-166 <= adjusted e frac t <= 128)%Z) by lia. split; [|exact Hb]. revert Hb.
  unfold adjusted. destruct (wrap_i64_shift (e - Z.of_nat (length frac))) as [k1 ->].
  destruct (wrap_i64_shift (e - Z.of_nat (length frac) + k1 * 2 ^ 64 + Z.of_nat t)) as [k2 ->]. lia.
Qed.
Lemma zero_run_app a b : forallb (fun b => b =b ZERO) a = false -> zero_run (a ++ b) = zero_run a.
Proof. unfold zero_run. induction a as [|x a IH]; [done|]. cbn [forallb app count_while]. destruct (x =b ZERO); [|done]. cbn [andb]. intros H. by rewrite IH. Qed.
Lemma forallb_rev {A} (p : A -> bool) l : forallb p (rev l) = forallb p l.
Proof. induction l as [|x l IH]; [done|]. cbn [rev forallb]. rewrite forallb_app, IH. cbn [forallb]. by rewrite andb_true_r, andb_comm. Qed.
Lemma strip_leading_zeros s : strip_leading (zeros (zero_run s) ++ drop (zero_run s) s) = drop (zero_run s) s.
Proof. rewrite <- (proj1 (zero_run_split s)). done. Qed.
(** The trailing zeros of the digits left are those of the digits given, unless all are zeros. *)
Lemma trailing_run s : zero_run (rev (strip_leading s)) = if forallb (fun b => b =b ZERO) s then 0 else zero_run (rev s).
Proof.
  destruct (zero_run_split s) as [Hs Hh]. change (strip_leading s) with (drop (zero_run s) s) in *. set (k := zero_run s) in *.
  assert (Hz : forallb (fun b => b =b ZERO) (zeros k) = true) by (clear; induction k as [|k IH]; [done|exact IH]).
  assert (E1 : forallb (fun b => b =b ZERO) s = forallb (fun b => b =b ZERO) (drop k s)) by (rewrite Hs at 1; by rewrite forallb_app, Hz).
  assert (E2 : rev s = rev (drop k s) ++ rev (zeros k)) by (rewrite Hs at 1; by rewrite rev_app_distr).
  rewrite E1, E2. destruct (drop k s) as [|b r] eqn:E; [done|].
  assert (Hn : forallb (fun b => b =b ZERO) (b :: r) = false).
  { cbn [forallb]. apply andb_false_iff. left. apply Z.eqb_neq. cbn in Hh. congruence. }
  rewrite Hn. symmetry. apply zero_run_app. by rewrite forallb_rev.
Qed.
Lemma key_of_ok neg int frac e k : digits int -> digits frac -> 0 < length (int ++ frac) <= 38 -> (- 2 ^ 63 <= e < 2 ^ 63)%Z ->
  key_of neg int frac e = Some k ->
  canonical k /\ key_value k = ((if neg then -1 else 1) * digits_value (int ++ frac) * 10 ^ (e - Z.of_nat (length frac) + SCALE))%Z.
Proof.
  intros Hi Hf Hl He. unfold key_of. cbn zeta. set (D := int ++ frac) in *. assert (HD : digits D) by (by apply Forall_app).
  destruct (zero_run_split D) as [Hs Hh]. change (drop (zero_run D) D) with (strip_leading D) in *.
  destruct (zero_tail_split (strip_leading D)) as (Ht & Htail & Hlen). set (t := zero_run (rev (strip_leading D))) in *.
  set (d := take (length (strip_leading D) - t) (strip_leading D)) in *.
  assert (Hsl : length (strip_leading D) <= 38) by (unfold strip_leading; rewrite length_drop; lia).
  assert (Hd : digits (strip_leading D)) by (by apply Forall_drop). assert (Hdd : digits d) by (by apply Forall_take).
  assert (Hv : digits_value D = (digits_value d * 10 ^ Z.of_nat t)%Z).
  { rewrite Hs, zeros_value, Ht, digits_value_cat. replace (digits_value (zeros t)) with 0%Z by (rewrite <- (app_nil_r (zeros t)), zeros_value; done).
    unfold zeros. rewrite length_replicate. lia. }
  assert (Hfl : length frac <= 38) by (unfold D in Hl; rewrite length_app in Hl; lia).
  destruct (in_decimal_range (adjusted e frac t)) eqn:Er; [|done]. cbn [negb].
  destruct (adjusted_value e frac t He Hfl ltac:(lia) Er) as [Ea Hb].
  destruct d as [|b r] eqn:Ed; intros [= <-].
  - split; [split; cbn; [constructor|done|done|lia|lia]|]. rewrite Hv. unfold key_value. cbn [nk_digits]. change (digits_value []) with 0%Z. lia.
  - rewrite <- Ed in *. split; [split; cbn; try done|].
    + rewrite Ed in Ht. rewrite Ht in Hh. by cbn in *; rewrite Ed.
    + unfold d. rewrite length_take. lia.
    + unfold key_value. cbn [nk_neg nk_digits nk_adj_exp]. rewrite Hv, Ea, <- !Z.mul_assoc, <- Z.pow_add_r by (unfold SCALE; lia). do 3 f_equal. lia.
Qed.
Lemma swift_key_ok text k : swift_plain_number text = Some k -> canonical k /\ plain_value text = Some (key_value k).
Proof.
  rewrite swift_key. unfold plain_value. destruct (plain_parts text) as [[[[neg int] frac] e]|] eqn:E; [|done]. apply parts_ok in E as (Hi & Hf & Hl & He).
  intros Hk. by apply key_of_ok in Hk as [Hc ->].
Qed.
Lemma is_swift_key text : is_swift_plain_number text = match plain_parts text with
  | Some (neg, int, frac, e) => in_decimal_range (adjusted e frac (zero_run (rev (strip_leading (int ++ frac)))))
  | None => false end.
Proof.
  unfold is_swift_plain_number, plain_parts. cbn zeta. destruct (trim_zs_tab text) as [|b r] eqn:Et; [done|].
  destruct (is_ascii_digit b || is_sign b || (b =b DOT)) eqn:Eb.
  - destruct (split_exp _) as [m x]. destruct (read_exp x) as [e|]; [|done]. destruct (read_mantissa m) as [[int frac]|]; [|done]. by rewrite trailing_run.
  - apply orb_false_iff in Eb as [[Ed Es]%orb_false_iff Ex]. unfold strip_or, strip_one. rewrite Es.
    destruct (split_exp (b :: r)) as [m x] eqn:E. destruct (read_exp x) as [e|]; [|done].
    assert (Hm : m = [] \/ exists m', m = b :: m').
    { unfold split_exp in E. cbn [split_once] in E. destruct (is_exp b); [injection E as <- _; by left|]. right.
      destruct (split_once is_exp r) as [[x' y]|]; injection E as <- _; eauto. }
    assert (read_mantissa m = None) as ->; [|done]. destruct Hm as [->|[m' ->]]; [done|].
    unfold read_mantissa. cbn zeta. cbn [split_byte]. rewrite Ex. destruct (split_byte DOT m') as [|w [|w' [|? ?]]]; cbn [forallb]; try rewrite Ed; done.
Qed.

(** ** What is claimed *)

(** The grid's check that a cell is a number and the parser that builds the key it sorts by accept the
    same texts, although the check builds no key and counts zeros over all of the digits. *)
Theorem plain_number_check_agrees text : is_swift_plain_number text = match swift_plain_number text with Some _ => true | None => false end.
Proof.
  rewrite is_swift_key, swift_key. destruct (plain_parts text) as [[[[neg int] frac] e]|]; [|done]. unfold key_of. cbn zeta.
  fold (zero_run (rev (strip_leading (int ++ frac)))). destruct (in_decimal_range _); [|done]. cbn [negb]; by destruct (take _ _).
Qed.

(** Two texts the grid takes for numbers are ordered by their exact decimal values, whatever the zeros,
    signs and exponents they are written with, and no step of the parse wraps: [num_cmp] of the keys is the
    comparison of the values scaled to whole numbers, with no rounding, up to 38 digits. *)
Theorem numbers_sort_by_value (s t : bytes) (a b : NumKey) :
  swift_plain_number s = Some a -> swift_plain_number t = Some b ->
  exists x y, plain_value s = Some x /\ plain_value t = Some y /\ num_cmp a b = Z.compare x y.
Proof.
  intros [Ha Ea]%swift_key_ok [Hb Eb]%swift_key_ok. exists (key_value a), (key_value b). split; [done|]. split; [done|]. by apply num_cmp_value.
Qed.
Lemma numbers_sort_by_value_witness : exists x y, plain_value (B "-0.0120e2") = Some x /\ plain_value (B "  -1.2") = Some y /\
  num_cmp (MkNum true (-1) (B "12")) (MkNum true (-1) (B "12")) = Z.compare x y.
Proof. apply (numbers_sort_by_value (B "-0.0120e2") (B "  -1.2")); vm_compute; reflexivity. Defined.
