(* ===== verification/JsonCheck.v ===== *)
(** * JsonCheck: the grid's iterative JSON validator, [json_validate] of
    [crates/qh-result-store/src/render.rs].

    The validator keeps a stack of frames and a position; here the position is the text from it on. One
    turn of its loop is [check_step], and the loop has as much fuel as its measure. *)
From stdpp Require Import relations.
From S2P Require Import Prelude Bytes Text.
#[local] Open Scope nat_scope.

Inductive ObjState := ObjFirst | ObjKey | ObjColon | ObjValue | ObjComma.
Inductive ArrState := ArrFirst | ArrValue | ArrComma.
Inductive Frame := Obj (st : ObjState) | Arr (st : ArrState).

Definition skip_ws (s : bytes) : bytes := drop (count_while is_json_space s) s.
Definition is_escape (b : Z) : bool := existsb (Z.eqb b) [34; 92; 47; 98; 102; 110; 114; 116]%Z.
(** [skip_string] past its first byte. *)
Fixpoint string_rest (s : bytes) : option bytes :=
  match s with
  | [] => None
  | b :: s =>
      if b =b 34 then Some s
      else if b =b 92 then
        match s with
        | [] => None
        | e :: s =>
            if is_escape e then string_rest s
            else if e =b 117 then
              match s with
              | h1 :: h2 :: h3 :: h4 :: s => if forallb is_ascii_hexdigit [h1; h2; h3; h4] then string_rest s else None
              | _ => None
              end
            else None
        end
      else if (b <? 32)%Z then None
      else string_rest s
  end.
(** The first byte is taken for the quote. *)
Definition skip_string (s : bytes) : option bytes := match s with [] => None | _ :: s => string_rest s end.
Definition expect_literal (s literal : bytes) : option bytes := strip_prefix s literal.
Definition skip_digits (s : bytes) : bytes := drop (count_while is_ascii_digit s) s.
Definition starts_digit (s : bytes) : bool := match s with b :: _ => is_ascii_digit b | [] => false end.
Definition skip_number (s : bytes) : option bytes :=
  let s := match s with b :: r => if b =b 45 then r else s | [] => s end in
  if negb (starts_digit s) then None
  else
    let s := match s with b :: r => if b =b 48 then r else skip_digits s | [] => s end in
    let fraction := match s with
                    | b :: r => if b =b 46 then if starts_digit r then Some (skip_digits r) else None else Some s
                    | [] => Some s
                    end in
    match fraction with
    | None => None
    | Some ((b :: r) as s) =>
        if (b =b 101) || (b =b 69) then
          let r := match r with c :: r' => if (c =b 43) || (c =b 45) then r' else r | [] => r end in
          if starts_digit r then Some (skip_digits r) else None
        else Some s
    | Some [] => Some []
    end.
(** The value at the text, when it is not a container. *)
Definition skip_scalar (s : bytes) : option bytes :=
  match s with
  | b :: _ =>
      if b =b 34 then skip_string s
      else if b =b 116 then expect_literal s (B "true")
      else if b =b 102 then expect_literal s (B "false")
      else if b =b 110 then expect_literal s (B "null")
      else if (b =b 45) || is_ascii_digit b then skip_number s
      else None
  | [] => None
  end.

Record Check := MkCheck { ck_rest : bytes; ck_stack : list Frame; ck_expect : bool; ck_after : bool }.
Definition at_value (rest : bytes) (stack : list Frame) : Check := MkCheck rest stack true false.
Definition after_value (rest : bytes) (stack : list Frame) : Check := MkCheck rest stack false true.
Definition within (rest : bytes) (stack : list Frame) : Check := MkCheck rest stack false false.
(** One turn of the loop: the answer, or the state after. *)
Definition check_step (c : Check) : bool + Check :=
  let rest := skip_ws (ck_rest c) in
  if ck_after c then
    match ck_stack c with
    | [] => inl (match rest with [] => true | _ => false end)
    | Obj _ :: stack => inr (MkCheck rest (Obj ObjComma :: stack) (ck_expect c) false)
    | Arr _ :: stack => inr (MkCheck rest (Arr ArrComma :: stack) (ck_expect c) false)
    end
  else if ck_expect c then
    match rest with
    | [] => inl false
    | b :: r =>
        if b =b 123 then inr (within r (Obj ObjFirst :: ck_stack c))
        else if b =b 91 then inr (within r (Arr ArrFirst :: ck_stack c))
        else match skip_scalar rest with Some r => inr (after_value r (ck_stack c)) | None => inl false end
    end
  else
    match rest with
    | [] => inl false
    | b :: r =>
        let key stack := match skip_string rest with Some r => inr (within r (Obj ObjColon :: stack)) | None => inl false end in
        match ck_stack c with
        | [] => inr (at_value rest [])
        | Obj ObjFirst :: stack => if b =b 125 then inr (after_value r stack) else key stack
        | Obj ObjKey :: stack => key stack
        | Obj ObjColon :: stack => if b =b 58 then inr (within r (Obj ObjValue :: stack)) else inl false
        | Obj ObjValue :: stack => inr (at_value rest (Obj ObjValue :: stack))
        | Obj ObjComma :: stack =>
            if b =b 44 then inr (within r (Obj ObjKey :: stack)) else if b =b 125 then inr (after_value r stack) else inl false
        | Arr ArrFirst :: stack => if b =b 93 then inr (after_value r stack) else inr (at_value rest (Arr ArrFirst :: stack))
        | Arr ArrValue :: stack => inr (at_value rest (Arr ArrValue :: stack))
        | Arr ArrComma :: stack =>
            if b =b 44 then inr (within r (Arr ArrValue :: stack)) else if b =b 93 then inr (after_value r stack) else inl false
        end
    end.
Fixpoint check_loop (fuel : nat) (c : Check) : option bool :=
  match fuel with
  | O => None
  | S fuel => match check_step c with inl answer => Some answer | inr c => check_loop fuel c end
  end.
(** Every turn lowers it. *)
Definition check_measure (c : Check) : nat := 3 * length (ck_rest c) + (if ck_after c then 2 else if ck_expect c then 0 else 1).
Definition json_validate (text : bytes) : bool :=
  match check_loop (S (check_measure (at_value text []))) (at_value text []) with Some answer => answer | None => false end.

(** ** Properties

    The iterative JSON validator accepts what a recursive descent does, for [JsonCheck]. *)

#[local] Open Scope nat_scope.

(** ** The reference: a recursive descent

    The text past a value, past the members of an object and past the elements of an array, [first] at
    their first one. As in the code, a member's name is any byte and the rest of a string. *)

Fixpoint parse_value (fuel : nat) (s : bytes) : option bytes :=
  match fuel with
  | O => None
  | S fuel =>
      match skip_ws s with
      | [] => None
      | (b :: r) as rest =>
          if b =b 123 then parse_members fuel true r
          else if b =b 91 then parse_elements fuel true r
          else skip_scalar rest
      end
  end
with parse_members (fuel : nat) (first : bool) (s : bytes) : option bytes :=
  match fuel with
  | O => None
  | S fuel =>
      match skip_ws s with
      | [] => None
      | (b :: r) as rest =>
          if first && (b =b 125) then Some r
          else
            match skip_string rest with
            | None => None
            | Some s =>
                match skip_ws s with
                | b :: s =>
                    if b =b 58 then
                      match parse_value fuel s with
                      | None => None
                      | Some s =>
                          match skip_ws s with
                          | b :: s => if b =b 44 then parse_members fuel false s else if b =b 125 then Some s else None
                          | [] => None
                          end
                      end
                    else None
                | [] => None
                end
            end
      end
  end
with parse_elements (fuel : nat) (first : bool) (s : bytes) : option bytes :=
  match fuel with
  | O => None
  | S fuel =>
      match skip_ws s with
      | [] => None
      | b :: r =>
          if first && (b =b 93) then Some r
          else
            match parse_value fuel s with
            | None => None
            | Some s =>
                match skip_ws s with
                | b :: s => if b =b 44 then parse_elements fuel false s else if b =b 93 then Some s else None
                | [] => None
                end
            end
      end
  end.
(** A text is one value and white space around it. *)
Definition parses (s : bytes) : bool :=
  match parse_value (2 * length s + 1) s with Some r => match skip_ws r with [] => true | _ => false end | None => false end.

(** ** Cursors move forward *)

Lemma skip_ws_le s : length (skip_ws s) <= length s.
Proof. unfold skip_ws. rewrite length_drop. lia. Qed.
Lemma skip_ws_idem s : skip_ws (skip_ws s) = skip_ws s.
Proof.
  unfold skip_ws. induction s as [|b s IH]; [done|]. cbn [count_while]. destruct (is_json_space b) eqn:E; [exact IH|]. cbn [drop count_while]. by rewrite E.
Qed.
Lemma string_rest_lt n : forall s r, length s <= n -> string_rest s = Some r -> length r < length s.
Proof.
  induction n as [|n IH]; intros [|b s] r Hn; cbn [length string_rest] in Hn |- *; try done; [lia|].
  destruct (b =b 34); [intros [= <-]; lia|]. destruct (b =b 92).
  - destruct s as [|e s]; [done|]. cbn [length string_rest] in Hn |- *. destruct (is_escape e); [intros Hr; apply IH in Hr; lia|]. destruct (e =b 117); [|done].
    destruct s as [|h1 [|h2 [|h3 [|h4 s]]]]; try done. cbn [length string_rest] in Hn |- *. destruct (forallb _ _); [|done]. intros Hr. apply IH in Hr; lia.
  - destruct (b <? 32)%Z; [done|]. intros Hr. apply IH in Hr; lia.
Qed.
Lemma skip_string_lt s r : skip_string s = Some r -> S (length r) < length s.
Proof. destruct s as [|b s]; [done|]. cbn. intros H. apply (string_rest_lt (length s)) in H; [lia|done]. Qed.
Lemma skip_digits_lt s : starts_digit s = true -> length (skip_digits s) < length s.
Proof.
  unfold skip_digits. rewrite length_drop. destruct s as [|b s]; [done|]. cbn. intros ->. lia.
Qed.
Lemma skip_number_lt s r : skip_number s = Some r -> length r < length s.
Proof.
  unfold skip_number. cbn zeta. set (t := match s with _ :: _ => _ | [] => _ end).
  assert (Ht : length t <= length s) by (subst t; destruct s as [|b s]; [done|]; destruct (b =b 45); cbn; lia).
  destruct (starts_digit t) eqn:Ed; [|done]. cbn [negb]. set (u := match t with _ :: _ => _ | [] => _ end).
  assert (Hu : length u < length t).
  { subst u. pose proof (skip_digits_lt t Ed). destruct t as [|b t']; [done|]. destruct (b =b 48); [cbn; lia|done]. }
  clearbody u. intros H. enough (length r <= length u) by lia. destruct u as [|b u]; [by injection H as <-|].
  destruct (b =b 46).
  - destruct (starts_digit u) eqn:Eu; [|done]. pose proof (skip_digits_lt u Eu) as Hl. destruct (skip_digits u) as [|c v] eqn:Ev; [injection H as <-; cbn; lia|].
    destruct (_ || _); [|injection H as <-; cbn in *; lia]. set (w := match v with _ :: _ => _ | [] => _ end) in H.
    assert (Hw : length w <= length v) by (subst w; destruct v as [|d v']; [done|]; destruct (_ || _); cbn; lia).
    destruct (starts_digit w) eqn:Ew; [|done]. injection H as <-. pose proof (skip_digits_lt w Ew). cbn in *. lia.
  - destruct (_ || _); [|injection H as <-; cbn in *; lia]. set (w := match u with _ :: _ => _ | [] => _ end) in H.
    assert (Hw : length w <= length u) by (subst w; destruct u as [|d v']; [done|]; destruct (_ || _); cbn; lia).
    destruct (starts_digit w) eqn:Ew; [|done]. injection H as <-. pose proof (skip_digits_lt w Ew). cbn in *. lia.
Qed.
Lemma skip_scalar_lt s r : skip_scalar s = Some r -> length r < length s.
Proof.
  assert (Hlit : forall p, p <> [] -> expect_literal s p = Some r -> length r < length s).
  { intros p Hp H. unfold expect_literal in H. apply strip_prefix_some in H as ->. rewrite length_app. destruct p; [done|cbn; lia]. }
  unfold skip_scalar. destruct s as [|b s]; [done|]. intros H.
  repeat (match type of H with (if ?c then _ else _) = _ => destruct c end); try done;
    try (apply skip_string_lt in H; lia); try (by apply (Hlit _) in H); by apply skip_number_lt.
Qed.

(** ** The turns *)

Definition turn (c c' : Check) : Prop := check_step c = inr c'.
(** Every turn lowers the measure, so the loop ends. *)
Lemma turn_measure c c' : turn c c' -> check_measure c' < check_measure c.
Proof.
  unfold turn, check_step, check_measure. cbn zeta. pose proof (skip_ws_le (ck_rest c)) as Hw. destruct c as [s stack expect after]. cbn [ck_rest ck_stack ck_expect ck_after] in *.
  destruct after.
  - destruct stack as [|[]]; [discriminate|..]; intros [= <-]; cbn; destruct expect; lia.
  - destruct expect.
    + destruct (skip_ws s) as [|b r]; [discriminate|]. cbn [length] in Hw. destruct (b =b 123); [intros [= <-]; cbn; lia|].
      destruct (b =b 91); [intros [= <-]; cbn; lia|]. destruct (skip_scalar (b :: r)) as [r'|] eqn:E; [|discriminate]. apply skip_scalar_lt in E.
      intros [= <-]. cbn in *. lia.
    + destruct (skip_ws s) as [|b r]; [discriminate|]. cbn [length] in Hw.
      assert (Hk : forall st, match skip_string (b :: r) with Some r => inr (within r (Obj ObjColon :: st)) | None => inl false end = inr c' ->
        check_measure c' < 3 * length s + 1).
      { intros st. destruct (skip_string (b :: r)) as [r'|] eqn:E; [|discriminate]. apply skip_string_lt in E. intros [= <-]. cbn in *. lia. }
      destruct stack as [|[[]|[]] stack]; try (by apply Hk);
        repeat match goal with |- (if ?c then _ else _) = _ -> _ => destruct c end; try discriminate; try (by apply Hk); intros [= <-]; cbn; lia.
Qed.
Lemma check_loop_ends : forall fuel c, check_measure c < fuel -> exists answer c', rtc turn c c' /\ check_step c' = inl answer /\ check_loop fuel c = Some answer.
Proof.
  induction fuel as [|fuel IH]; intros c Hc; [lia|]. cbn [check_loop]. destruct (check_step c) as [answer|c'] eqn:E.
  - exists answer, c. split; [constructor|]. by split.
  - destruct (IH c') as (answer & c2 & Hr & Hs & Hl); [pose proof (turn_measure c c' E); lia|]. exists answer, c2. split; [by econstructor|]. by split.
Qed.

(** ** The loop does what the descent does *)

Definition fails (c : Check) : Prop := exists c', rtc turn c c' /\ check_step c' = inl false.
(** From [c] the turns come to the end of the value that leaves [stack], or to a refusal. *)
Definition follows (o : option bytes) (c : Check) (stack : list Frame) (n : nat) : Prop :=
  match o with Some r => length r < n /\ rtc turn c (after_value r stack) | None => fails c end.
Lemma follows_turn o c c' stack n m : check_step c = inr c' -> n <= m -> follows o c' stack n -> follows o c stack m.
Proof.
  intros Ht Hn. destruct o as [r|]; cbn.
  - intros [Hr Hs]. split; [lia|]. by econstructor.
  - intros (c2 & Hs & Hf). exists c2. split; [by econstructor|done].
Qed.
Lemma follows_turns o c c' stack n m : rtc turn c c' -> n <= m -> follows o c' stack n -> follows o c stack m.
Proof.
  intros Ht Hn. destruct o as [r|]; cbn.
  - intros [Hr Hs]. split; [lia|]. by etransitivity.
  - intros (c2 & Hs & Hf). exists c2. split; [by etransitivity|done].
Qed.
Lemma fails_now c : check_step c = inl false -> fails c.
Proof. intros H. exists c. split; [constructor|done]. Qed.
Lemma fails_turn c c' : check_step c = inr c' -> fails c' -> fails c.
Proof. intros H (c2 & Hs & Hf). exists c2. split; [by econstructor|done]. Qed.
Lemma fails_turns c c' : rtc turn c c' -> fails c' -> fails c.
Proof. intros H (c2 & Hs & Hf). exists c2. split; [by etransitivity|done]. Qed.
(** A turn reads the text past its white space. *)
Lemma parse_value_ws n s : parse_value n (skip_ws s) = parse_value n s.
Proof. destruct n; [done|]. cbn [parse_value]. by rewrite skip_ws_idem. Qed.
Ltac turn_with Hws := unfold check_step; cbn [ck_rest ck_after ck_expect ck_stack within at_value after_value]; rewrite ?skip_ws_idem, Hws.
Definition members_state (first : bool) : Frame := Obj (if first then ObjFirst else ObjKey).
Definition elements_state (first : bool) : Frame := Arr (if first then ArrFirst else ArrValue).
Section Step.
Context (n : nat).
Hypothesis IHv : forall s stack, 2 * length s + 1 <= n -> follows (parse_value n s) (at_value s stack) stack (length s).
Hypothesis IHm : forall first s stack, 2 * length s + 2 <= n -> follows (parse_members n first s) (within s (members_state first :: stack)) stack (length s).
Hypothesis IHe : forall first s stack, 2 * length s + 2 <= n -> follows (parse_elements n first s) (within s (elements_state first :: stack)) stack (length s).

Lemma value_follows s stack : 2 * length s + 1 <= S n -> follows (parse_value (S n) s) (at_value s stack) stack (length s).
Proof.
  intros Hn. cbn [parse_value]. pose proof (skip_ws_le s) as Hw. destruct (skip_ws s) as [|b r] eqn:E; cbn [length] in Hw.
  { apply fails_now. by turn_with E. }
  destruct (b =b 123) eqn:E1; [|destruct (b =b 91) eqn:E2].
  - apply (follows_turn _ _ (within r (members_state true :: stack)) _ (length r)); [turn_with E; by rewrite E1|lia|apply IHm; lia].
  - apply (follows_turn _ _ (within r (elements_state true :: stack)) _ (length r)); [turn_with E; by rewrite E1, E2|lia|apply IHe; lia].
  - destruct (skip_scalar (b :: r)) as [r'|] eqn:Es; cbn.
    + split; [apply skip_scalar_lt in Es; cbn in Es; lia|]. apply rtc_once. unfold turn. turn_with E. by rewrite E1, E2, Es.
    + apply fails_now. turn_with E. by rewrite E1, E2, Es.
Qed.
Lemma elements_follows first s stack : 2 * length s + 2 <= S n ->
  follows (parse_elements (S n) first s) (within s (elements_state first :: stack)) stack (length s).
Proof.
  intros Hn. cbn [parse_elements]. pose proof (skip_ws_le s) as Hw. destruct (skip_ws s) as [|b r] eqn:E; cbn [length] in Hw.
  { apply fails_now. by turn_with E. }
  destruct (first && (b =b 93)) eqn:Ef.
  { apply andb_true_iff in Ef as [-> Eb]. split; [lia|]. apply rtc_once. unfold turn, elements_state. turn_with E. by rewrite Eb. }
  assert (Hs : check_step (within s (elements_state first :: stack)) = inr (at_value (b :: r) (elements_state first :: stack))).
  { unfold elements_state. turn_with E. destruct first; [|done]. cbn in Ef. by rewrite Ef. }
  pose proof (IHv (b :: r) (elements_state first :: stack) ltac:(cbn; lia)) as Hv. rewrite <- E, parse_value_ws, E in Hv.
  destruct (parse_value n s) as [s1|]; [|by apply (fails_turn _ _ Hs)]. destruct Hv as [Hl Hv]. cbn in Hl.
  pose proof (skip_ws_le s1) as Hw1.
  assert (Ha : rtc turn (within s (elements_state first :: stack)) (within (skip_ws s1) (Arr ArrComma :: stack))).
  { econstructor; [exact Hs|]. etransitivity; [exact Hv|]. by apply rtc_once. }
  destruct (skip_ws s1) as [|c s2] eqn:E1; cbn in Hw1; [apply (fails_turns _ _ Ha), fails_now; reflexivity|].
  pose proof (skip_ws_idem s1) as E2. rewrite E1 in E2. destruct (c =b 44) eqn:Ec.
  - apply (follows_turns _ _ _ _ _ (length s) Ha (le_n _)), (follows_turn _ _ (within s2 (elements_state false :: stack)) _ (length s2));
      [by turn_with E2; rewrite Ec|lia|apply IHe; lia].
  - destruct (c =b 93) eqn:Ed.
    + split; [lia|]. etransitivity; [exact Ha|]. apply rtc_once. unfold turn. turn_with E2. by rewrite Ec, Ed.
    + apply (fails_turns _ _ Ha), fails_now. turn_with E2. by rewrite Ec, Ed.
Qed.
Lemma members_follows first s stack : 2 * length s + 2 <= S n ->
  follows (parse_members (S n) first s) (within s (members_state first :: stack)) stack (length s).
Proof.
  intros Hn. cbn [parse_members]. pose proof (skip_ws_le s) as Hw. destruct (skip_ws s) as [|b r] eqn:E; cbn [length] in Hw.
  { apply fails_now. by turn_with E. }
  destruct (first && (b =b 125)) eqn:Ef.
  { apply andb_true_iff in Ef as [-> Eb]. split; [lia|]. apply rtc_once. unfold turn, members_state. turn_with E. by rewrite Eb. }
  assert (Hs : check_step (within s (members_state first :: stack)) =
    match skip_string (b :: r) with Some r => inr (within r (Obj ObjColon :: stack)) | None => inl false end).
  { unfold members_state. turn_with E. destruct first; [|done]. cbn in Ef. by rewrite Ef. }
  destruct (skip_string (b :: r)) as [s1|] eqn:Ek; [|by apply fails_now]. apply skip_string_lt in Ek. cbn in Ek.
  apply (follows_turn _ _ _ _ _ _ Hs (le_n _)). clear Hs. pose proof (skip_ws_le s1) as Hw1. destruct (skip_ws s1) as [|c s2] eqn:E1; cbn in Hw1.
  { apply fails_now. by turn_with E1. }
  destruct (c =b 58) eqn:Ec; [|apply fails_now; turn_with E1; by rewrite Ec].
  apply (follows_turn _ _ (within s2 (Obj ObjValue :: stack)) _ (length s)); [turn_with E1; by rewrite Ec|lia|].
  destruct (skip_ws s2) as [|d s3] eqn:E3.
  { assert (parse_value n s2 = None) as -> by (destruct n; [done|]; cbn [parse_value]; by rewrite E3). apply fails_now. by turn_with E3. }
  apply (follows_turn _ _ (at_value (d :: s3) (Obj ObjValue :: stack)) _ (length s)); [by turn_with E3|lia|].
  pose proof (skip_ws_le s2) as Hw3. rewrite E3 in Hw3. cbn in Hw3.
  pose proof (IHv (d :: s3) (Obj ObjValue :: stack) ltac:(cbn; lia)) as Hv. rewrite <- E3, parse_value_ws, E3 in Hv.
  destruct (parse_value n s2) as [s4|]; [|done]. destruct Hv as [Hl Hv]. cbn in Hl. pose proof (skip_ws_le s4) as Hw4.
  assert (Ha : rtc turn (at_value (d :: s3) (Obj ObjValue :: stack)) (within (skip_ws s4) (Obj ObjComma :: stack))).
  { etransitivity; [exact Hv|]. by apply rtc_once. }
  destruct (skip_ws s4) as [|f s5] eqn:E4; cbn in Hw4; [apply (fails_turns _ _ Ha), fails_now; reflexivity|].
  pose proof (skip_ws_idem s4) as E5. rewrite E4 in E5. destruct (f =b 44) eqn:Ef4.
  - apply (follows_turns _ _ _ _ _ (length s) Ha (le_n _)), (follows_turn _ _ (within s5 (members_state false :: stack)) _ (length s5));
      [turn_with E5; by rewrite Ef4|lia|apply IHm; lia].
  - destruct (f =b 125) eqn:Ed.
    + split; [lia|]. etransitivity; [exact Ha|]. apply rtc_once. unfold turn. turn_with E5. by rewrite Ef4, Ed.
    + apply (fails_turns _ _ Ha), fails_now. turn_with E5. by rewrite Ef4, Ed.
Qed.
End Step.
Lemma descent_follows : forall n,
  (forall s stack, 2 * length s + 1 <= n -> follows (parse_value n s) (at_value s stack) stack (length s))
  /\ (forall first s stack, 2 * length s + 2 <= n -> follows (parse_members n first s) (within s (members_state first :: stack)) stack (length s))
  /\ (forall first s stack, 2 * length s + 2 <= n -> follows (parse_elements n first s) (within s (elements_state first :: stack)) stack (length s)).
Proof.
  induction n as [|n (IHv & IHm & IHe)]; [split_and!; intros; lia|].
  split_and!; intros; [by apply value_follows|by apply members_follows|by apply elements_follows].
Qed.
Lemma turns_deterministic c c1 c2 a b : rtc turn c c1 -> rtc turn c c2 -> check_step c1 = inl a -> check_step c2 = inl b -> a = b.
Proof.
  intros H1. revert c2. induction H1 as [c1|c d c1 Hd H1 IH]; intros c2 H2 Ha Hb.
  - destruct H2 as [|? ? ? Ht]; [congruence|]. unfold turn in Ht. congruence.
  - destruct H2 as [|? e ? Ht H2]; [unfold turn in Hd; congruence|]. unfold turn in Hd, Ht. rewrite Hd in Ht. injection Ht as <-. by eapply IH.
Qed.

(** The validator's loop over a stack of frames accepts a text exactly when the recursive descent takes
    it for one value with white space around it, and it always comes to an answer: every turn lowers a
    measure that starts at three times the length of the text. *)
Theorem validator_is_the_descent (text : bytes) :
  check_loop (S (3 * length text)) (at_value text []) = Some (parses text) /\ json_validate text = parses text.
Proof.
  destruct (check_loop_ends (S (check_measure (at_value text []))) (at_value text []) (Nat.lt_succ_diag_r _)) as (answer & c' & Hr & Hs & Hl).
  assert (Ha : answer = parses text).
  { destruct (descent_follows (2 * length text + 1)) as [Hv _]. specialize (Hv text [] (le_n _)). unfold parses.
    destruct (parse_value _ text) as [r|].
    - destruct Hv as [_ Hv]. by apply (turns_deterministic _ _ _ _ _ Hr Hv Hs).
    - destruct Hv as (c2 & Hv & Hf). by apply (turns_deterministic _ _ _ _ _ Hr Hv Hs). }
  unfold json_validate. rewrite Hl, <- Ha. split; [|done].
  rewrite <- Hl. do 2 f_equal. unfold check_measure. cbn. lia.
Qed.
(** A member's name need not open with a quote: the byte in its place is skipped unread. *)
Example name_without_quote : json_validate (B "{x" ++ [34] ++ B ":1}")%Z = true /\ json_validate (B "{" ++ [34] ++ B "x" ++ [34] ++ B ":1}")%Z = true.
Proof. split; vm_compute; reflexivity. Qed.
