(* ===== verification/Chunk.v ===== *)
(** * Chunk: a sealed chunk with its grid bits and its statistics,
    [crates/qh-result-store/src/chunk.rs].

    Arrow's arrays are those of [Columnar]; its bitmaps are a parameter too ([Bitmaps]). *)
From S2P Require Import Prelude Bytes Text Dates Value ValueSpec Names Batch Tagged TaggedSpec Columnar ColumnarSpec Collate.
From S2P Require Import JsonCheck.
#[local] Open Scope nat_scope.

(** ** Bitmaps *)

(** [BooleanBuffer]: made over bytes at an offset, with a length; a bit is of the byte it is in,
    least significant first. *)
Class Bitmaps := {
  bitmap : Type;
  bitmap_new : bytes -> nat -> nat -> bitmap;
  bitmap_value : bitmap -> nat -> bool;
  bitmap_inner : bitmap -> bytes;
}.
Class BitmapLaws `{Bitmaps} : Prop := {
  bitmap_bit : forall s len i, i < len -> bitmap_value (bitmap_new s 0 len) i = Z.testbit (nth (i / 8) s 0%Z) (Z.of_nat (i mod 8));
  bitmap_bytes : forall s len, bitmap_inner (bitmap_new s 0 len) = s;
}.
Fixpoint pack_byte (index : nat) (bits : list bool) : Z :=
  match bits with [] => 0%Z | b :: bits => Z.lor (if b then Z.shiftl 1 (Z.of_nat index) else 0) (pack_byte (S index) bits) end.
Fixpoint chunks_of {A} (fuel n : nat) (l : list A) : list (list A) :=
  match fuel, l with S fuel, _ :: _ => firstn n l :: chunks_of fuel n (skipn n l) | _, _ => [] end.
Definition pack_bits (bits : list bool) : bytes := pack_byte 0 <$> chunks_of (length bits) 8 bits.
Definition bits_to_buffer `{Bitmaps} (bits : list bool) : bitmap := bitmap_new (pack_bits bits) 0 (length bits).

Record ChunkFlags `{Bitmaps} := MkFlags { openable : list (option bitmap); numeric : list (option bitmap) }.
Definition flags_empty `{Bitmaps} (width : nat) : ChunkFlags := MkFlags _ (replicate width None) (replicate width None).
Definition flags_bytes `{Bitmaps} (f : ChunkFlags) : Z :=
  foldr Z.add 0%Z ((fun b => Z.of_nat (length (bitmap_inner b))) <$> omap id (openable f ++ numeric f)).

(** ** Statistics *)

Record ColumnStats := MkStats {
  variants : Z; max_scale : Z; scale_uniform : bool; cs_offset : option Z; has_naive_ts : bool; overflow : bool; cs_rows : Z }.
Definition V_BOOL : Z := 1.
Definition V_INT : Z := 2.
Definition V_UINT : Z := 4.
Definition V_FLOAT : Z := 8.
Definition V_DEC : Z := 16.
Definition V_DATE : Z := 32.
Definition V_TIME : Z := 64.
Definition V_TS : Z := 128.
Definition V_TSZ : Z := 256.
Definition V_INTERVAL : Z := 512.
Definition V_TEXT : Z := 1024.
Definition V_JSON : Z := 2048.
Definition V_BYTES : Z := 4096.
Definition V_COMPOSITE : Z := 8192.
Definition V_UNKNOWN : Z := 16384.
Definition default_stats : ColumnStats := MkStats 0 0 true None false false 0.
(** The offset that marks a disagreement. *)
Definition MIXED : Z := (- 2 ^ 31)%Z.
Definition saw (bit : Z) (s : ColumnStats) : ColumnStats :=
  MkStats (Z.lor (variants s) bit) (max_scale s) (scale_uniform s) (cs_offset s) (has_naive_ts s) (overflow s) (cs_rows s).
Definition count_row (s : ColumnStats) : ColumnStats :=
  MkStats (variants s) (max_scale s) (scale_uniform s) (cs_offset s) (has_naive_ts s) (overflow s) (cs_rows s + 1).

Section Observe.
Context `{Float}.
Definition observe (s : ColumnStats) (v : Value) : ColumnStats :=
  let s := count_row s in
  match v with
  | VNull => s
  | VBool _ => saw V_BOOL s
  | VInt _ => saw V_INT s
  | VUInt _ => saw V_UINT s
  | VFloat _ => saw V_FLOAT s
  | VDecimal unscaled scale =>
      let first := (Z.land (variants s) V_DEC =? 0)%Z in
      MkStats (Z.lor (variants s) V_DEC) (Z.max scale (max_scale s))
        (if negb first && negb (scale =? max_scale s)%Z then false else scale_uniform s)
        (cs_offset s) (has_naive_ts s) (overflow s || (10 ^ 38 <=? Z.abs unscaled)%Z) (cs_rows s)
  | VDate _ => saw V_DATE s
  | VTime _ => saw V_TIME s
  | VTimestamp _ None =>
      let s := saw V_TS s in MkStats (variants s) (max_scale s) (scale_uniform s) (cs_offset s) true (overflow s) (cs_rows s)
  | VTimestamp _ (Some offset) =>
      let s := saw V_TSZ s in
      let o := match cs_offset s with
               | None => Some offset
               | Some first => if negb (first =? offset)%Z then Some MIXED else Some first
               end in
      MkStats (variants s) (max_scale s) (scale_uniform s) o (has_naive_ts s) (overflow s) (cs_rows s)
  | VInterval i =>
      let s := saw V_INTERVAL s in
      MkStats (variants s) (max_scale s) (scale_uniform s) (cs_offset s) (has_naive_ts s) (overflow s || negb (fits_i64 (iv_micros i * 1000))) (cs_rows s)
  | VText _ => saw V_TEXT s
  | VJson _ => saw V_JSON s
  | VBytes _ => saw V_BYTES s
  | VArray _ | VRow _ | VMap _ => saw V_COMPOSITE s
  | VUnknown _ _ _ => saw V_UNKNOWN s
  end.

(** ** The bits of a cell *)

Definition cell_text (v : Value) : bytes := default [] (to_text v).
Context `{Unicode} `{Normal}.
Definition openable_by_type (type_name : bytes) : bool :=
  let name := to_lowercase type_name in
  let structured := ends_with name (B "[]") || contains name (B "array") || contains name (B "map(") || contains name (B "row(")
                    || contains name (B "json") in
  let binary := contains name (B "bytea") || contains name (B "blob") || contains name (B "binary") in
  structured || binary.
(** [encode_utf16().count()]: a character past the first plane is two units. *)
Definition utf16_count (s : bytes) : nat := foldr (fun c n => (if (c <? 65536)%Z then 1 else 2) + n) 0 (chars s).
Definition cell_openable_text (text : bytes) : bool :=
  match find (fun c => negb (char_whitespace c)) (chars text) with
  | None => false
  | Some first =>
      if negb (first =b 123) && negb (first =b 91) then false
      else if (100000 <? Z.of_nat (length text))%Z && (100000 <? Z.of_nat (utf16_count text))%Z then false
      else json_validate text
  end.
Definition cell_openable (v : Value) : bool :=
  match v with VText text | VJson text => cell_openable_text text | _ => cell_openable_text (cell_text v) end.
Definition cell_numeric (v : Value) : bool := negb (is_null v) && is_swift_plain_number (cell_text v).
End Observe.

(** ** Sealing *)

Section Seal.
Context `{FloatBits} `{!Arrow} `{!Unicode} `{!Normal} `{!Bitmaps}.

Record StoreChunk := MkChunk { sc_batch : record_batch; sc_encodings : list Encoding; sc_flags : ChunkFlags; sc_bytes : Z }.
(** The store's errors: [InvalidArgument], [Corrupt] and the others it makes. *)
Inductive StoreError :=
| SeCorrupt (detail : bytes) | SeIo (message : bytes) | SeShape (e : BatchError) | SeColumnCount (expected found : nat)
| SeSpillUnavailable (reason : bytes) | SeSpillAuth (chunk : Z) | SeInternal (detail : bytes) | SeDiskFull | SeArrow (message : bytes)
| SeBudgetExceeded (needed budget : Z) | SeReleased | SeStaleView (current : Z) | SeSuperseded | SeStreaming
| SeTooLarge (needed_bytes budget_bytes : Z) (message : bytes) | SeInvalidArgument (message : bytes).
Definition store_corrupt (e : ColumnarError) : StoreError := SeCorrupt (columnar_text e).

(** What the rows of a column give: its statistics, its openable bits and its numeric bits. *)
Record ColumnBits := MkBits { cb_stats : ColumnStats; cb_open : list bool; cb_num : list bool }.
Definition want_open (by_type : bool) (enc : Encoding) : bool :=
  negb by_type && match enc with EText | EJson | ETagged => true | _ => false end.
Definition want_num (enc : Encoding) : bool := match enc with EText | EJson | ETagged | EBytes => true | _ => false end.
(** A row of a string array, read as a borrowed text. *)
Definition text_row (a : array) (kind : Z) (opens : bool) (row : nat) (b : ColumnBits) : ColumnBits :=
  let s := count_row (cb_stats b) in
  if array_is_null a row then MkBits s (if opens then cb_open b ++ [false] else cb_open b) (cb_num b ++ [false])
  else
    let text := match array_value a row with Some (ScBytes t) => t | _ => [] end in
    MkBits (saw kind s) (if opens then cb_open b ++ [cell_openable_text text] else cb_open b) (cb_num b ++ [is_swift_plain_number text]).
Definition value_row (a : array) (enc : Encoding) (opens numbers : bool) (row : nat) (b : ColumnBits) : ColumnarError + ColumnBits :=
  match value_at a enc row with
  | inl e => inl e
  | inr v =>
      inr (MkBits (observe (cb_stats b) v) (if opens then cb_open b ++ [cell_openable v] else cb_open b)
             (if numbers then cb_num b ++ [cell_numeric v] else cb_num b))
  end.
Fixpoint value_rows (a : array) (enc : Encoding) (opens numbers : bool) (rows : list nat) (b : ColumnBits) : ColumnarError + ColumnBits :=
  match rows with
  | [] => inr b
  | row :: rows => match value_row a enc opens numbers row b with inl e => inl e | inr b => value_rows a enc opens numbers rows b end
  end.
(** A string array is read without its values. *)
Definition is_string_array (enc : Encoding) (a : array) : bool :=
  match enc, data_type a with (EText | EJson), DtUtf8 => true | _, _ => false end.
Definition column_bits (a : array) (enc : Encoding) (by_type : bool) (rows : nat) : ColumnarError + ColumnBits :=
  let opens := want_open by_type enc in
  let start := MkBits default_stats [] [] in
  if is_string_array enc a then
    inr (foldl (fun b row => text_row a (match enc with EText => V_TEXT | _ => V_JSON end) opens row b) start (seq 0 rows))
  else value_rows a enc opens (want_num enc) (seq 0 rows) start.
Definition some_bits (wanted : bool) (bits : list bool) : option bitmap :=
  if wanted && existsb id bits then Some (bits_to_buffer bits) else None.
(** The columns of the batch with their encodings, in order. *)
Fixpoint seal_bits (columns : list ColumnMeta) (rows : nat) (arrays : list array) (encodings : list Encoding)
  : ColumnarError + list (option bitmap * option bitmap * ColumnStats) :=
  match arrays, encodings with
  | a :: arrays, enc :: encodings =>
      let '(type_name, columns) := match columns with meta :: columns => (cm_type_name meta, columns) | [] => ([], []) end in
      let by_type := openable_by_type type_name in
      match column_bits a enc by_type rows with
      | inl e => inl e
      | inr b =>
          match seal_bits columns rows arrays encodings with
          | inl e => inl e
          | inr l => inr ((some_bits (want_open by_type enc) (cb_open b), some_bits (want_num enc) (cb_num b), cb_stats b) :: l)
          end
      end
  | _, _ => inr []
  end.
Definition pad {A} (width : nat) (x : A) (l : list A) : list A := l ++ replicate (width - length l) x.
Definition seal_store_chunk (sealed : SealedChunk) (columns : list ColumnMeta) : StoreError + (StoreChunk * list ColumnStats) :=
  let rb := sd_batch sealed in
  let width := length (rb_columns rb) in
  match seal_bits columns (rb_rows rb) (rb_columns rb) (sd_encodings sealed) with
  | inl e => inl (store_corrupt e)
  | inr l =>
      let flags := MkFlags _ (pad width None ((fun x => x.1.1) <$> l)) (pad width None ((fun x => x.1.2) <$> l)) in
      inr (MkChunk rb (sd_encodings sealed) flags (rb_memory_size rb + flags_bytes flags), pad width default_stats (snd <$> l))
  end.
End Seal.

(** ** Properties

    The grid bits and the statistics of a chunk are those of its cells, for [Chunk]. *)

#[local] Open Scope nat_scope.

(** ** Bitmaps *)

Lemma pack_byte_bit bits : forall k i, Z.testbit (pack_byte k bits) (Z.of_nat i) = (k <=? i) && nth (i - k) bits false.
Proof.
  induction bits as [|b bits IH]; intros k i; cbn [pack_byte].
  - rewrite Z.testbit_0_l. destruct (k <=? i); [|done]. by destruct (i - k).
  - rewrite Z.lor_spec, IH. destruct (Nat.leb_spec (S k) i), (Nat.leb_spec k i); try lia; cbn [andb].
    + replace (i - k) with (S (i - S k)) by lia. cbn [nth]. destruct b; [|by rewrite Z.testbit_0_l].
      rewrite Z.shiftl_1_l, Z.pow2_bits_eqb by lia. by replace (Z.of_nat k =? Z.of_nat i)%Z with false by lia.
    + assert (i = k) as -> by lia. rewrite Nat.sub_diag, orb_false_r. cbn [nth]. destruct b; [|by rewrite Z.testbit_0_l].
      rewrite Z.shiftl_1_l, Z.pow2_bits_eqb by lia. by rewrite Z.eqb_refl.
    + rewrite orb_false_r. destruct b; [|by rewrite Z.testbit_0_l]. rewrite Z.shiftl_1_l, Z.pow2_bits_eqb by lia.
      by replace (Z.of_nat k =? Z.of_nat i)%Z with false by lia.
Qed.
Lemma nth_firstn_skipn (bits : list bool) n i : i < n -> nth i (firstn n bits) false = nth i bits false.
Proof. revert n bits; induction i as [|i IH]; intros [|n] [|b bits] Hi; try done; try lia. cbn. apply IH. lia. Qed.
Lemma chunks_bit n : forall fuel bits i, 0 < n -> length bits <= fuel -> nth (i mod n) (nth (i / n) (chunks_of fuel n bits) []) false = nth i bits false.
Proof.
  induction fuel as [|fuel IH]; intros bits i Hn Hf; destruct bits as [|b bits]; cbn in Hf; try lia.
  1, 2: cbn [chunks_of]; destruct (i / n), i; cbn; by destruct (_ mod n).
  destruct (Nat.ltb_spec i n) as [Hi|Hi].
  - rewrite Nat.div_small, Nat.mod_small by done. cbn [chunks_of nth]. by apply nth_firstn_skipn.
  - replace (i / n) with (S ((i - n) / n)).
    2: { rewrite <- (Nat.add_1_r), <- Nat.div_add by lia. f_equal. lia. }
    replace (i mod n) with ((i - n) mod n).
    2: { rewrite <- (Nat.Div0.mod_add (i - n) 1 n). f_equal. lia. }
    cbn [chunks_of]. change (nth (S ?k) (?x :: ?l) []) with (nth k l []). rewrite IH by (rewrite ?length_skipn; cbn [length]; lia).
    rewrite nth_skipn. f_equal. lia.
Qed.
Lemma pack_bits_bit bits i : i < length bits -> Z.testbit (nth (i / 8) (pack_bits bits) 0%Z) (Z.of_nat (i mod 8)) = nth i bits false.
Proof.
  intros Hi. unfold pack_bits. change 0%Z with (pack_byte 0 []). rewrite (map_nth (pack_byte 0)). rewrite pack_byte_bit. cbn [Nat.leb andb].
  rewrite Nat.sub_0_r. by apply chunks_bit; [lia|].
Qed.
Lemma bitmap_of_bits `{BitmapLaws} bits i : i < length bits -> bitmap_value (bits_to_buffer bits) i = nth i bits false.
Proof. intros Hi. unfold bits_to_buffer. rewrite bitmap_bit by done. by apply pack_bits_bit. Qed.

(** ** One column *)

Section Spec.
Context `{FloatBits} `{!Arrow} `{!ArrowLaws} `{!Unicode} `{!Normal} `{!Bitmaps} `{!BitmapLaws}.

Definition bits_of (values : list Value) (opens numbers : bool) : ColumnBits :=
  MkBits (foldl observe default_stats values) (if opens then cell_openable <$> values else []) (if numbers then cell_numeric <$> values else []).
Lemma bits_of_snoc values v opens numbers :
  bits_of (values ++ [v]) opens numbers =
  MkBits (observe (cb_stats (bits_of values opens numbers)) v)
    (if opens then cb_open (bits_of values opens numbers) ++ [cell_openable v] else cb_open (bits_of values opens numbers))
    (if numbers then cb_num (bits_of values opens numbers) ++ [cell_numeric v] else cb_num (bits_of values opens numbers)).
Proof. unfold bits_of. rewrite foldl_app. destruct opens, numbers; cbn; by rewrite ?fmap_app. Qed.
Lemma cell_text_text t : cell_text (VText t) = t /\ cell_text (VJson t) = t.
Proof. split; unfold cell_text; cbn; by rewrite ?app_nil_r. Qed.
(** A row of a string array read as a borrowed text gives what its value gives. *)
Lemma text_row_value a enc opens row b v : is_string_array enc a = true -> value_at a enc row = inr v ->
  value_row a enc opens true row b = inr (text_row a (match enc with EText => V_TEXT | _ => V_JSON end) opens row b).
Proof.
  intros Hs Hv. unfold value_row. rewrite Hv. f_equal. unfold is_string_array in Hs. unfold value_at in Hv. unfold text_row.
  destruct enc; try discriminate Hs; destruct (data_type a) eqn:Ed; try discriminate Hs; cbn [check_compatible negb] in Hv;
    destruct (array_is_null a row); try (injection Hv as <-; reflexivity); destruct (array_value a row) as [[]|]; try discriminate Hv; injection Hv as <-;
    unfold cell_openable, cell_numeric; cbn [is_null negb andb observe]; by rewrite ?(proj1 (cell_text_text _)), ?(proj2 (cell_text_text _)).
Qed.
Lemma value_rows_ok a enc opens numbers values : forall k done, k = length done ->
  (forall row v, values !! row = Some v -> value_at a enc (k + row) = inr v) ->
  value_rows a enc opens numbers (seq k (length values)) (bits_of done opens numbers) = inr (bits_of (done ++ values) opens numbers).
Proof.
  induction values as [|v values IH]; intros k dn Hk Hv; cbn [length seq value_rows]; [by rewrite app_nil_r|].
  unfold value_row at 1. pose proof (Hv 0 v eq_refl) as Hv0. rewrite Nat.add_0_r in Hv0. rewrite Hv0, <- bits_of_snoc.
  replace (dn ++ v :: values) with ((dn ++ [v]) ++ values) by (by rewrite <- app_assoc). apply IH; [rewrite length_app; cbn; lia|].
  intros row x Hx. specialize (Hv (S row) x Hx). by rewrite Nat.add_succ_r in Hv.
Qed.
Lemma text_rows_ok a enc opens rows b : is_string_array enc a = true -> (forall row, row ∈ rows -> exists v, value_at a enc row = inr v) ->
  value_rows a enc opens true rows b = inr (foldl (fun b row => text_row a (match enc with EText => V_TEXT | _ => V_JSON end) opens row b) b rows).
Proof.
  intros Hs. revert b. induction rows as [|row rows IH]; intros b Hv; cbn [value_rows foldl]; [done|].
  destruct (Hv row) as [v Hrow]; [constructor|]. rewrite (text_row_value a enc opens row b v Hs Hrow). apply IH. intros r Hr. apply Hv. by constructor.
Qed.
(** The way around values for string arrays included. *)
Lemma column_bits_ok a enc by_type values : (forall row v, values !! row = Some v -> value_at a enc row = inr v) ->
  column_bits a enc by_type (length values) = inr (bits_of values (want_open by_type enc) (want_num enc)).
Proof.
  intros Hv. pose proof (value_rows_ok a enc (want_open by_type enc) (want_num enc) values 0 [] eq_refl Hv) as Hr. unfold bits_of at 1 in Hr. cbn in Hr.
  unfold column_bits. destruct (is_string_array enc a) eqn:Hs.
  - assert (Hn : want_num enc = true) by (by destruct enc). rewrite Hn in *.
    rewrite (text_rows_ok a enc (want_open by_type enc) _ _ Hs) in Hr.
    + destruct (want_open by_type enc); exact Hr.
    + intros row Hrow. apply elem_of_seq in Hrow. destruct (lookup_lt_is_Some_2 values row) as [v Hx]; [lia|]. exists v. by apply Hv.
  - destruct (want_open by_type enc), (want_num enc); exact Hr.
Qed.
Definition bit_at (bits : option bitmap) (row : nat) : bool := match bits with Some b => bitmap_value b row | None => false end.
Lemma some_bits_at wanted (f : Value -> bool) values row v : values !! row = Some v ->
  bit_at (some_bits wanted (if wanted then f <$> values else [])) row = wanted && f v.
Proof.
  intros Hv. unfold some_bits. destruct wanted; [|done]. cbn [andb].
  assert (Hn : nth row (f <$> values) false = f v) by (apply nth_lookup_Some; by rewrite list_lookup_fmap, Hv).
  assert (Hl : row < length (f <$> values)) by (rewrite length_fmap; by eapply lookup_lt_Some).
  destruct (existsb id (f <$> values)) eqn:He; cbn [bit_at]; [rewrite bitmap_of_bits by done; by rewrite Hn|].
  destruct (f v) eqn:Hf; [|done]. assert (existsb id (f <$> values) = true); [|congruence].
  apply existsb_exists. exists true. split; [|done]. rewrite <- Hn. by apply nth_In.
Qed.

(** ** A chunk *)

Definition type_name_of (metas : list ColumnMeta) (column : nat) : bytes := match metas !! column with Some m => cm_type_name m | None => [] end.
Lemma seal_bits_ok rows : forall arrays encodings columns metas,
  length arrays = length columns -> length encodings = length columns -> Forall (fun values => length values = rows) columns ->
  (forall column values row v, columns !! column = Some values -> values !! row = Some v ->
     exists a e, arrays !! column = Some a /\ encodings !! column = Some e /\ value_at a e row = inr v) ->
  exists l, seal_bits metas rows arrays encodings = inr l /\ length l = length columns
  /\ forall column values e, columns !! column = Some values -> encodings !! column = Some e ->
       let opens := want_open (openable_by_type (type_name_of metas column)) e in
       exists o n, l !! column = Some (o, n, foldl observe default_stats values)
       /\ o = some_bits opens (if opens then cell_openable <$> values else [])
       /\ n = some_bits (want_num e) (if want_num e then cell_numeric <$> values else []).
Proof.
  induction arrays as [|a arrays IH]; intros [|e encodings] [|values columns] metas Ha He Hrect Hv; try done; cbn [seal_bits].
  { exists []. split_and!; [done|done|]. intros column values e Hc. by rewrite lookup_nil in Hc. }
  apply Forall_cons in Hrect as [Hlen Hrect].
  assert (Hcol : forall row v, values !! row = Some v -> value_at a e row = inr v).
  { intros row v Hrow. destruct (Hv 0 values row v eq_refl Hrow) as (a' & e' & Ha' & He' & Hx). cbn in Ha', He'. congruence. }
  set (m := match metas with meta :: columns => (cm_type_name meta, columns) | [] => ([], []) end).
  assert (Hm : m.1 = type_name_of metas 0 /\ forall k, type_name_of m.2 k = type_name_of metas (S k)) by (unfold m, type_name_of; by destruct metas).
  destruct m as [type_name rest]. cbn [fst snd] in Hm. destruct Hm as [-> Hm].
  pose proof (column_bits_ok a e (openable_by_type (type_name_of metas 0)) values Hcol) as Hb. rewrite Hlen in Hb. rewrite Hb.
  destruct (IH encodings columns rest) as (l & -> & Hl & Hall); [cbn in Ha; lia|cbn in He; lia|done|intros column vs row v Hc; exact (Hv (S column) vs row v Hc)|].
  eexists. split; [done|]. split; [cbn; lia|]. intros [|column] vs e' Hc He'; cbn in Hc, He'.
  - injection Hc as <-. injection He' as <-. do 2 eexists. split; [done|]. by split.
  - destruct (Hall column vs e' Hc He') as (o & n & Ho & Ho1 & Hn1). rewrite Hm in Ho1. exists o, n. by split_and!.
Qed.
Lemma pad_full {A} width (x : A) l : length l = width -> pad width x l = l.
Proof. intros <-. unfold pad. by rewrite Nat.sub_diag, app_nil_r. Qed.

(** No bits, or a bit for every row. *)
Definition whole (n : nat) (b : option bitmap) : Prop := b = None \/ exists bits, length bits = n /\ b = Some (bits_to_buffer bits).
Lemma some_bits_whole wanted (f : Value -> bool) values n : length values = n -> whole n (some_bits wanted (if wanted then f <$> values else [])).
Proof.
  intros Hn. unfold some_bits. destruct wanted; [|by left]. cbn [andb]. destruct (existsb id _); [|by left]. right. eexists. split; [|done]. by rewrite length_fmap.
Qed.
Lemma store_chunk_sealed n columns metas : columns <> [] -> Forall (fun c => length c = n /\ Forall cell_fits c) columns ->
  exists sealed chunk stats, seal_columns columns = inr sealed /\ seal_store_chunk sealed metas = inr (chunk, stats)
  /\ sc_batch chunk = sd_batch sealed /\ sc_encodings chunk = sd_encodings sealed /\ stats = foldl observe default_stats <$> columns
  /\ (length (openable (sc_flags chunk)) = length columns /\ length (numeric (sc_flags chunk)) = length columns
      /\ Forall (whole n) (openable (sc_flags chunk)) /\ Forall (whole n) (numeric (sc_flags chunk)))
  /\ forall column values row v, columns !! column = Some values -> values !! row = Some v ->
       exists e opens numbers, sc_encodings chunk !! column = Some e
       /\ openable (sc_flags chunk) !! column = Some opens /\ numeric (sc_flags chunk) !! column = Some numbers
       /\ bit_at opens row = want_open (openable_by_type (type_name_of metas column)) e && cell_openable v
       /\ bit_at numbers row = want_num e && cell_numeric v.
Proof.
  intros Hne Hall. destruct (seal_columns_reads n columns Hne Hall) as (sealed & Hsealed & Hrows & Hwidth & Henc & Hread & _).
  destruct (seal_bits_ok n (rb_columns (sd_batch sealed)) (sd_encodings sealed) columns metas) as (l & Hl & Hll & Hbits); [done|done| |exact Hread|].
  { eapply Forall_impl; [exact Hall|]. by intros c [Hc _]. }
  assert (Hat : forall i, i < length columns -> exists values e, columns !! i = Some values /\ length values = n /\ sd_encodings sealed !! i = Some e).
  { intros i Hi. destruct (lookup_lt_is_Some_2 columns i Hi) as [values Hc]. rewrite <- Henc in Hi. destruct (lookup_lt_is_Some_2 _ i Hi) as [e He].
    exists values, e. split_and!; [done| |done]. rewrite Forall_lookup in Hall. apply (Hall i values Hc). }
  do 3 eexists. split; [exact Hsealed|]. unfold seal_store_chunk. rewrite Hrows, Hl. split; [reflexivity|]. cbn [sc_batch sc_encodings sc_flags openable numeric].
  rewrite !pad_full by (by rewrite length_fmap, Hll, Hwidth). split; [done|]. split; [done|]. split; [|split].
  - apply list_eq. intros i. rewrite !list_lookup_fmap. destruct (columns !! i) as [values|] eqn:Hc.
    + destruct (Hat i) as (vs & e & Hc' & _ & He); [by eapply lookup_lt_Some|]. destruct (Hbits i values e Hc He) as (o & x & -> & _). done.
    + assert (l !! i = None) as -> by (apply lookup_ge_None in Hc; apply lookup_ge_None; by rewrite Hll). done.
  - rewrite !length_fmap. split_and!; [done|done|..]; apply Forall_lookup; intros i x Hx; rewrite list_lookup_fmap in Hx;
      (destruct (l !! i) as [y|] eqn:Ey; [|discriminate Hx]); injection Hx as <-;
      (destruct (Hat i) as (values & e & Hc & Hn & He); [rewrite <- Hll; by eapply lookup_lt_Some|]);
      destruct (Hbits i values e Hc He) as (o & x & Hy & -> & ->); rewrite Ey in Hy; injection Hy as ->; by apply some_bits_whole.
  - intros column values row v Hc Hrow. destruct (Hread column values row v Hc Hrow) as (a & e & _ & He & _).
    destruct (Hbits column values e Hc He) as (o & x & Hx & -> & ->). exists e. do 2 eexists. rewrite !list_lookup_fmap, Hx.
    split_and!; [done|reflexivity|reflexivity|..]; by apply some_bits_at.
Qed.

(** A chunk sealed from staged rows is published with, for every column, the statistics of its values
    in order, and for every cell the bits the grid draws by: openable where the column's type does not
    decide it and the cell's text is a JSON object or array, numeric where the text is a number; the way
    around values that text columns take gives the same. *)
Theorem store_chunk_describes_its_cells n columns metas : columns <> [] -> Forall (fun c => length c = n /\ Forall cell_fits c) columns ->
  exists sealed chunk stats, seal_columns columns = inr sealed /\ seal_store_chunk sealed metas = inr (chunk, stats)
  /\ sc_batch chunk = sd_batch sealed /\ stats = foldl observe default_stats <$> columns
  /\ forall column values row v, columns !! column = Some values -> values !! row = Some v ->
       exists e opens numbers, sc_encodings chunk !! column = Some e
       /\ openable (sc_flags chunk) !! column = Some opens /\ numeric (sc_flags chunk) !! column = Some numbers
       /\ bit_at opens row = want_open (openable_by_type (type_name_of metas column)) e && cell_openable v
       /\ bit_at numbers row = want_num e && cell_numeric v.
Proof.
  intros Hne Hall. destruct (store_chunk_sealed n columns metas Hne Hall) as (sealed & chunk & stats & Hs & Hc & Hb & _ & Hst & _ & Hbits).
  exists sealed, chunk, stats. by split_and!.
Qed.
End Spec.

(** ** A small Unicode and small bitmaps *)

Module Small.
#[local] Existing Instance no_float.
#[export] Instance small_bitmaps : Bitmaps := {|
  bitmap := bytes * nat;
  bitmap_new s offset len := (s, offset);
  bitmap_value b i := Z.testbit (nth ((b.2 + i) / 8) b.1 0%Z) (Z.of_nat ((b.2 + i) mod 8));
  bitmap_inner b := b.1
|}.
#[export] Instance small_bitmap_laws : BitmapLaws.
Proof. by split. Defined.
#[export] Instance small_unicode : Unicode := {| to_lowercase := lower; debug s := s |}.
#[export] Instance small_normal : Normal := {|
  nfc s := s; nfd := chars; is_nonspacing _ := false; char_whitespace := is_ascii_whitespace; char_alphabetic := is_ascii_alphabetic;
  char_numeric := is_ascii_digit; char_lowercase := is_ascii_lowercase |}.
Definition columns : Batch := [[VText (B "[1]"); VNull; VText (B "12")]; [VInt 7; VText (B "{}"); VNull]].
End Small.
#[local] Existing Instances no_float Toy.toy_bits Toy.toy_arrow Toy.toy_laws Small.small_bitmaps Small.small_bitmap_laws Small.small_unicode
  Small.small_normal.
Lemma store_chunk_describes_its_cells_witness : exists sealed chunk stats,
  seal_columns Small.columns = inr sealed /\ seal_store_chunk sealed [MkMeta (B "a") (B "text")] = inr (chunk, stats)
  /\ sc_batch chunk = sd_batch sealed /\ stats = foldl observe default_stats <$> Small.columns
  /\ forall column values row v, (Small.columns : list (list Value)) !! column = Some values -> values !! row = Some v ->
       exists e opens numbers, sc_encodings chunk !! column = Some e
       /\ openable (sc_flags chunk) !! column = Some opens /\ numeric (sc_flags chunk) !! column = Some numbers
       /\ bit_at opens row = want_open (openable_by_type (type_name_of [MkMeta (B "a") (B "text")] column)) e && cell_openable v
       /\ bit_at numbers row = want_num e && cell_numeric v.
Proof.
  apply (store_chunk_describes_its_cells 3 Small.columns); [discriminate|].
  repeat first [apply Forall_cons_2 | apply Forall_nil_2 | split]; try (cbn; unfold MAX_DEPTH; lia);
    intros blob Hb; vm_compute in Hb; injection Hb as <-; vm_compute; discriminate.
Defined.
