(* ===== verification/Spill.v ===== *)
(** * Spill: the records of chunks moved to disk, [crates/qh-result-store/src/spill.rs].

    Arrow's stream format ([Ipc]), the cipher ([Aead]) and the medium the records are written to are
    parameters. *)
From S2P Require Import Prelude Bytes Text Dates Value ValueSpec Names Batch Tagged TaggedSpec Columnar ColumnarSpec Collate.
From S2P Require Import JsonCheck Chunk.
#[local] Open Scope nat_scope.

(** The stream written from a batch, and what the reader makes of bytes: the only batch of them, an
    error or a panic. *)
Inductive IpcRead {A} := IrBatch (batch : A) | IrError (message : bytes) | IrPanic.
Arguments IpcRead : clear implicits.
Class Ipc `{Arrow} := { ipc_write : record_batch -> bytes + bytes; ipc_read : bytes -> IpcRead record_batch }.
Class IpcLaws `{Ipc} : Prop := { ipc_reads : forall rb s, ipc_write rb = inr s -> ipc_read s = IrBatch rb }.
(** [LessSafeKey]: the text sealed under a nonce and data, with its tag, and the text opened. *)
Class Aead := {
  aead_key : Type;
  aead_seal : aead_key -> bytes -> bytes -> bytes -> option (bytes * bytes);
  aead_open : aead_key -> bytes -> bytes -> bytes -> option bytes;
}.
Class AeadLaws `{Aead} : Prop := {
  aead_opens : forall key nonce aad plain text tag, aead_seal key nonce aad plain = Some (text, tag) -> aead_open key nonce aad (text ++ tag) = Some plain;
  aead_length : forall key nonce aad plain text tag, aead_seal key nonce aad plain = Some (text, tag) -> length text = length plain /\ length tag = 16;
}.

Definition DOMAIN_APP : bytes := B "QHS2".
Definition DOMAIN_HELPER : bytes := B "QHD1".
Definition MAGIC : bytes := B "QHP1".
Definition HEADER_LEN : nat := 64.
Definition be_bytes (k : nat) (n : Z) : bytes := rev (le_bytes k n).
Definition nonce_bytes (counter : Z) : bytes := replicate 4 0%Z ++ be_bytes 8 counter.
Definition aad (domain : bytes) (store_id chunk_index : Z) : bytes := domain ++ le_bytes 8 store_id ++ le_bytes 4 chunk_index.
Definition U64_MAX : Z := 2 ^ 64 - 1.

Section Spill.
Context `{FloatBits} `{!Arrow} `{!Bitmaps} `{!Ipc} `{!Aead}.

(** ** The cipher *)

Record SpillCipher := MkCipher { ci_domain : bytes; ci_key : aead_key; ci_counter : Z }.
Definition from_seed (domain : bytes) (key : aead_key) : SpillCipher := MkCipher domain key 1.
(** The counter is claimed first, so a seal that fails uses it up. *)
Definition cipher_seal (c : SpillCipher) (store_id chunk_index : Z) (plain : bytes) : (StoreError + Z * bytes) * SpillCipher :=
  if (ci_counter c =? U64_MAX)%Z then (inl (SeSpillUnavailable (B "nonce space exhausted")), c)
  else
    let counter := ci_counter c in
    let next := MkCipher (ci_domain c) (ci_key c) (counter + 1) in
    match aead_seal (ci_key c) (nonce_bytes counter) (aad (ci_domain c) store_id chunk_index) plain with
    | Some (text, tag) => (inr (counter, text ++ tag), next)
    | None => (inl (SeSpillUnavailable (B "sealing failed")), next)
    end.
Definition cipher_open (c : SpillCipher) (store_id chunk_index nonce : Z) (record : bytes) : StoreError + bytes :=
  match aead_open (ci_key c) (nonce_bytes nonce) (aad (ci_domain c) store_id chunk_index) record with
  | Some plain => inr plain
  | None => inl (SeSpillAuth chunk_index)
  end.

(** ** Records *)

Definition presence (o n : option bitmap) : Z :=
  Z.lor (match o with Some _ => 1 | None => 0 end) (match n with Some _ => 2 | None => 0 end).
Definition bitmap_texts (b : option bitmap) : bytes := match b with Some b => bitmap_inner b | None => [] end.
Definition encode_flags (flags : ChunkFlags) : bytes :=
  let pairs := zip (openable flags) (numeric flags) in
  ((fun p => presence p.1 p.2) <$> pairs) ++ mjoin ((fun p => bitmap_texts p.1 ++ bitmap_texts p.2) <$> pairs).
Definition encode_record (batch : record_batch) (flags : ChunkFlags) : StoreError + bytes :=
  match ipc_write batch with
  | inl m => inl (SeInternal m)
  | inr ipc =>
      let flag_bytes := encode_flags flags in
      inr (MAGIC ++ le_bytes 4 (Z.of_nat (length ipc)) ++ le_bytes 4 (Z.of_nat (length flag_bytes)) ++ replicate (HEADER_LEN - 12) 0%Z ++ ipc ++ flag_bytes)
  end.
Definition corrupt (detail : string) : StoreError := SeCorrupt (B detail).
(** [get(..n)] and [split_at_checked]. *)
Definition split_at_checked (n : nat) (s : bytes) : option (bytes * bytes) := if n <=? length s then Some (take n s, drop n s) else None.
Definition take_bitmap (present : bool) (words rows : nat) (rest : bytes) : StoreError + (option bitmap * bytes) :=
  if present then
    match split_at_checked words rest with
    | None => inl (corrupt "bitmap truncated")
    | Some (bits, tail) => inr (Some (bitmap_new bits 0 rows), tail)
    end
  else inr (None, rest).
Fixpoint decode_columns (presence : bytes) (words rows : nat) (rest : bytes) : StoreError + (list (option bitmap * option bitmap) * bytes) :=
  match presence with
  | [] => inr ([], rest)
  | present :: presence =>
      if negb (Z.land present (Z.lnot 3) =? 0)%Z then inl (corrupt "unknown flag presence bits")
      else
        match take_bitmap (Z.testbit present 0) words rows rest with
        | inl e => inl e
        | inr (o, rest) =>
            match take_bitmap (Z.testbit present 1) words rows rest with
            | inl e => inl e
            | inr (n, rest) =>
                match decode_columns presence words rows rest with inl e => inl e | inr (l, rest) => inr ((o, n) :: l, rest) end
            end
        end
  end.
Definition decode_flags (s : bytes) (width rows : nat) : StoreError + ChunkFlags :=
  let words := (rows + 7) / 8 in
  match split_at_checked width s with
  | None => inl (corrupt "flags truncated")
  | Some (presence, rest) =>
      match decode_columns presence words rows rest with
      | inl e => inl e
      | inr (l, []) => inr (MkFlags _ l.*1 l.*2)
      | inr (_, _) => inl (corrupt "trailing bytes after flags")
      end
  end.
Fixpoint check_fields (fields : list Field) : option StoreError :=
  match fields with
  | [] => None
  | f :: fields =>
      match encoding_of f with
      | inl e => Some (SeCorrupt (columnar_text e))
      | inr enc =>
          if negb (check_compatible enc (fl_type f)) then
            Some (SeCorrupt (B "encoding " ++ B (enc_as_str enc) ++ B " does not fit " ++ dt_text (fl_type f)))
          else check_fields fields
      end
  end.
Fixpoint field_encodings (fields : list Field) : StoreError + list Encoding :=
  match fields with
  | [] => inr []
  | f :: fields =>
      match encoding_of f with
      | inl e => inl (SeCorrupt (columnar_text e))
      | inr enc => match field_encodings fields with inl e => inl e | inr l => inr (enc :: l) end
      end
  end.
Record DecodedRecord := MkDecoded { dr_batch : record_batch; dr_flags : ChunkFlags; dr_encodings : list Encoding }.
Definition decode_record (plain : bytes) : StoreError + DecodedRecord :=
  match split_at_checked HEADER_LEN plain with
  | None => inl (corrupt "record shorter than header")
  | Some (header, body) =>
      if negb (bytes_eqb (take 4 header) MAGIC) then inl (corrupt "record magic mismatch")
      else
        let ipc_len := Z.to_nat (from_le (take 4 (drop 4 header))) in
        let flag_len := Z.to_nat (from_le (take 4 (drop 8 header))) in
        match split_at_checked ipc_len body with
        | None => inl (corrupt "record shorter than its IPC length")
        | Some (ipc, flag_bytes) =>
            if negb (length flag_bytes =? flag_len) then inl (corrupt "flag length disagrees with the record")
            else
              match ipc_read ipc with
              | IrError m => inl (SeCorrupt m)
              | IrPanic => inl (corrupt "the IPC decoder panicked on this record")
              | IrBatch batch =>
                  match decode_flags flag_bytes (length (rb_columns batch)) (rb_rows batch) with
                  | inl e => inl e
                  | inr flags =>
                      match check_fields (rb_fields batch) with
                      | Some e => inl e
                      | None =>
                          match field_encodings (rb_fields batch) with
                          | inl e => inl e
                          | inr encodings => inr (MkDecoded batch flags encodings)
                          end
                      end
                  end
              end
        end
  end.

(** ** The file *)

(** What is written at an offset and read at one; a failure is whether the disk is full, with its text. A
    write that fails may have written some of it. *)
Class Medium := {
  medium : Type;
  write_at : medium -> Z -> bytes -> option (bool * bytes) * medium;
  read_at : medium -> Z -> Z -> (bool * bytes) + bytes;
}.
(** What is before a write is as it was; what was written is there. *)
Class MediumLaws `{Medium} : Prop := {
  read_before : forall m offset s at_ len, (0 <= at_ -> at_ + len <= offset -> read_at (write_at m offset s).2 at_ len = read_at m at_ len)%Z;
  read_written : forall m offset s, (write_at m offset s).1 = None -> read_at (write_at m offset s).2 offset (Z.of_nat (length s)) = inr s;
}.
Definition map_io (e : bool * bytes) : StoreError := if e.1 then SeDiskFull else SeIo e.2.
Context `{!Medium}.
Record SpillFile := MkFile { sf_medium : medium; next_offset : Z }.
Definition with_medium (m : medium) : SpillFile := MkFile m 0.
Definition file_append (f : SpillFile) (record : bytes) : (StoreError + Z * Z) * SpillFile :=
  let '(failure, m) := write_at (sf_medium f) (next_offset f) record in
  match failure with
  | Some e => (inl (map_io e), MkFile m (next_offset f))
  | None => (inr (next_offset f, (Z.of_nat (length record) mod 2 ^ 32)%Z), MkFile m (next_offset f + Z.of_nat (length record)))
  end.
Definition file_read (f : SpillFile) (offset len : Z) : StoreError + bytes :=
  match read_at (sf_medium f) offset len with inl e => inl (map_io e) | inr s => inr s end.
End Spill.

(** ** Properties

    A spilled chunk comes back whole, and no nonce is used twice, for [Spill]. *)

#[local] Open Scope nat_scope.
#[local] Opaque le_bytes.

(** ** Nonces *)

Lemma nonce_bytes_inj a b : (0 <= a < 2 ^ 64)%Z -> (0 <= b < 2 ^ 64)%Z -> nonce_bytes a = nonce_bytes b -> a = b.
Proof.
  unfold nonce_bytes, be_bytes. intros Ha Hb Heq. apply app_inv_head in Heq. apply (f_equal (fun s => from_le (rev s))) in Heq.
  rewrite !rev_involutive, !from_le_bytes in Heq. change (256 ^ Z.of_nat 8)%Z with (2 ^ 64)%Z in Heq. rewrite !Z.mod_small in Heq; done.
Qed.
Section Cipher.
Context `{FloatBits} `{!Arrow} `{!Bitmaps} `{!Ipc} `{!Aead} `{!AeadLaws}.

(** The nonces of a run of seals, a seal of each text for its store and its chunk. *)
Fixpoint nonces (c : SpillCipher) (runs : list (Z * Z * bytes)) : list bytes :=
  match runs with
  | [] => []
  | (store, chunk, plain) :: runs =>
      let '(sealed, c) := cipher_seal c store chunk plain in
      match sealed with inr (counter, _) => nonce_bytes counter :: nonces c runs | inl _ => nonces c runs end
  end.
Lemma nonces_above runs : forall c, (0 <= ci_counter c <= U64_MAX)%Z ->
  Forall (fun s => exists n, s = nonce_bytes n /\ ci_counter c <= n < U64_MAX)%Z (nonces c runs) /\ NoDup (nonces c runs).
Proof.
  induction runs as [|[[store chunk] plain] runs IH]; intros c Hc; cbn [nonces]; [split; constructor|].
  unfold cipher_seal. destruct (Z.eqb_spec (ci_counter c) U64_MAX) as [Heq|Hne]; [by apply IH|].
  destruct (IH (MkCipher (ci_domain c) (ci_key c) (ci_counter c + 1)) ltac:(cbn; lia)) as [Hall Hnd]. cbn [ci_counter] in Hall.
  assert (Hweak : Forall (fun s => exists n, s = nonce_bytes n /\ ci_counter c <= n < U64_MAX)%Z
    (nonces (MkCipher (ci_domain c) (ci_key c) (ci_counter c + 1)) runs)).
  { eapply Forall_impl; [exact Hall|]. intros s (n & -> & Hn). exists n. split; [done|lia]. }
  destruct (aead_seal _ _ _ _) as [[text tag]|]; [|by split]. split; [constructor; [|done]; exists (ci_counter c); split; [done|lia]|].
  constructor; [|done]. intros Hin. rewrite Forall_forall in Hall. destruct (Hall _ Hin) as (n & Heq & Hn).
  apply nonce_bytes_inj in Heq; unfold U64_MAX in *; lia.
Qed.
(** Under one key no nonce is ever used twice, whatever is sealed, for whichever store and chunk, failed
    seals included: the counter starts at one and only rises, and at its end it refuses instead of
    coming round. *)
Theorem nonces_never_repeat domain key runs : NoDup (nonces (from_seed domain key) runs).
Proof. apply nonces_above. cbn. unfold U64_MAX. lia. Qed.
End Cipher.

(** ** Flags *)

Section Record.
Context `{FloatBits} `{!Arrow} `{!ArrowLaws} `{!Unicode} `{!Normal} `{!Bitmaps} `{!BitmapLaws} `{!Ipc} `{!IpcLaws} `{!Aead} `{!AeadLaws}.

Lemma chunks_of_length {A} fuel : forall (l : list A), length l <= fuel -> length (chunks_of fuel 8 l) = (length l + 7) / 8.
Proof.
  induction fuel as [|fuel IH]; intros [|x l] Hf; cbn in Hf; try lia; try done. change (chunks_of (S fuel) 8 (x :: l)) with (firstn 8 (x :: l) :: chunks_of fuel 8 (skipn 8 (x :: l))).
  cbn [length]. rewrite IH by (rewrite length_skipn; cbn [length]; lia). rewrite length_skipn. cbn [length].
  destruct (Nat.le_gt_cases 8 (S (length l))) as [Hl|Hl].
  - replace (S (length l) + 7) with (S (length l) - 8 + 7 + 1 * 8) by lia. rewrite Nat.div_add by lia. lia.
  - replace (S (length l) - 8) with 0 by lia. rewrite (Nat.div_small (0 + 7)) by lia.
    replace (S (length l) + 7) with (length l + 1 * 8) by lia. rewrite Nat.div_add, Nat.div_small by lia. done.
Qed.
Lemma pack_bits_length bits : length (pack_bits bits) = (length bits + 7) / 8.
Proof. unfold pack_bits. rewrite length_fmap. by apply chunks_of_length. Qed.
Lemma take_whole n b rest : whole n b -> take_bitmap (match b with Some _ => true | None => false end) ((n + 7) / 8) n (bitmap_texts b ++ rest) = inr (b, rest).
Proof.
  intros [->|(bits & Hb & ->)]; [done|]. unfold take_bitmap, split_at_checked, bitmap_texts, bits_to_buffer. rewrite bitmap_bytes.
  pose proof (pack_bits_length bits) as Hl. rewrite Hb in Hl. rewrite length_app, Hl. replace (_ <=? _) with true by (symmetry; apply Nat.leb_le; lia).
  rewrite <- Hl, take_app_length, drop_app_length, Hb. done.
Qed.
Lemma presence_bits o n : Z.land (presence o n) (Z.lnot 3) = 0%Z /\ Z.testbit (presence o n) 0 = (match o with Some _ => true | None => false end)
  /\ Z.testbit (presence o n) 1 = (match n with Some _ => true | None => false end).
Proof. by destruct o, n. Qed.
Lemma decode_columns_ok n pairs rest : Forall (fun p => whole n p.1 /\ whole n p.2) pairs ->
  decode_columns ((fun p => presence p.1 p.2) <$> pairs) ((n + 7) / 8) n (mjoin ((fun p => bitmap_texts p.1 ++ bitmap_texts p.2) <$> pairs) ++ rest) = inr (pairs, rest).
Proof.
  induction 1 as [|[o b] pairs [Ho Hb] _ IH]; [done|]. rewrite !fmap_cons. change (mjoin (?x :: ?l)) with (x ++ mjoin l). cbn [decode_columns fst snd].
  destruct (presence_bits o b) as (-> & -> & ->). cbn [Z.eqb negb]. rewrite <- !app_assoc, (take_whole n o _ Ho), (take_whole n b _ Hb). cbn [fst snd] in IH.
  by rewrite IH.
Qed.
Lemma flags_read_back n flags : length (openable flags) = length (numeric flags) -> Forall (whole n) (openable flags) -> Forall (whole n) (numeric flags) ->
  decode_flags (encode_flags flags) (length (openable flags)) n = inr flags.
Proof.
  intros Hlen Ho Hn. unfold decode_flags, encode_flags. set (pairs := zip (openable flags) (numeric flags)).
  assert (Hp : length pairs = length (openable flags)) by (unfold pairs; rewrite length_zip_with; lia).
  assert (Hw : Forall (fun p => whole n p.1 /\ whole n p.2) pairs).
  { apply Forall_forall. intros [o b] Hin. unfold pairs in Hin. apply elem_of_zip_l in Hin as H1'. apply elem_of_zip_r in Hin as H2'.
    rewrite Forall_forall in Ho, Hn. split; [by apply Ho|by apply Hn]. }
  unfold split_at_checked. replace (_ <=? _) with true by (symmetry; apply Nat.leb_le; rewrite length_app, length_fmap; lia).
  rewrite <- Hp, <- (length_fmap (fun p => presence p.1 p.2) pairs), take_app_length, drop_app_length.
  pose proof (decode_columns_ok n pairs [] Hw) as Hd. rewrite app_nil_r in Hd. rewrite Hd.
  unfold pairs. rewrite fst_zip, snd_zip by lia. by destruct flags.
Qed.
Lemma fields_read_back fields encodings types : Forall2 (fun f e => encoding_of f = inr e) fields encodings ->
  Forall2 (fun f t => fl_type f = t) fields types -> Forall2 (fun e t => check_compatible e t = true) encodings types ->
  check_fields fields = None /\ field_encodings fields = inr encodings.
Proof.
  intros He. revert types. induction He as [|f e fields encodings Hf He IH]; intros types Ht Hc; [done|].
  inversion Ht as [|? t ? types' Hft Ht']; subst. inversion Hc as [|? ? ? ? Hct Hc']; subst. destruct (IH types' Ht' Hc') as [H1' H2'].
  cbn [check_fields field_encodings]. rewrite Hf, Hct, H1', H2'. done.
Qed.

(** ** A record *)

Definition fits_u32 (s : bytes) : Prop := (Z.of_nat (length s) < 2 ^ 32)%Z.
Lemma u32_read (a b : bytes) (c : list Z) n : length a = n -> (0 <= Z.of_nat n)%Z -> forall k, (0 <= k < 2 ^ 32)%Z ->
  Z.to_nat (from_le (take 4 (drop n (a ++ le_bytes 4 k ++ c)))) = Z.to_nat k.
Proof.
  intros <- _ k Hk. rewrite drop_app_length, take_app_le by (rewrite le_bytes_length; lia). rewrite take_ge by (rewrite le_bytes_length; lia).
  rewrite from_le_bytes. change (256 ^ Z.of_nat 4)%Z with (2 ^ 32)%Z. by rewrite Z.mod_small.
Qed.
Lemma record_reads_back batch flags encodings plain :
  encode_record batch flags = inr plain -> fits_u32 plain ->
  decode_flags (encode_flags flags) (length (rb_columns batch)) (rb_rows batch) = inr flags ->
  check_fields (rb_fields batch) = None -> field_encodings (rb_fields batch) = inr encodings ->
  decode_record plain = inr (MkDecoded batch flags encodings).
Proof.
  unfold encode_record. destruct (ipc_write batch) as [m|ipc] eqn:Ei; [discriminate|]. cbn zeta. intros Hp Hfit Hflags Hcheck Henc.
  set (fb := encode_flags flags) in *. set (li := le_bytes 4 (Z.of_nat (length ipc))) in *. set (lf := le_bytes 4 (Z.of_nat (length fb))) in *.
  assert (Hi : length li = 4) by apply le_bytes_length. assert (Hf : length lf = 4) by apply le_bytes_length.
  set (z := replicate (HEADER_LEN - 12) 0%Z) in *. assert (Hz : length z = 52) by (unfold z; by rewrite length_replicate).
  assert (Hplain : plain = (MAGIC ++ li ++ lf ++ z) ++ ipc ++ fb) by (rewrite <- !app_assoc; congruence). clear Hp. subst plain.
  assert (Hbound : (Z.of_nat (length ipc) < 2 ^ 32 /\ Z.of_nat (length fb) < 2 ^ 32)%Z).
  { unfold fits_u32 in Hfit. rewrite !length_app in Hfit. lia. }
  assert (Hh : HEADER_LEN = length (MAGIC ++ li ++ lf ++ z)) by (rewrite !length_app, Hi, Hf, Hz; done).
  assert (Hsplit : split_at_checked HEADER_LEN ((MAGIC ++ li ++ lf ++ z) ++ ipc ++ fb) = Some (MAGIC ++ li ++ lf ++ z, ipc ++ fb)).
  { unfold split_at_checked. rewrite Hh. replace (_ <=? _) with true by (symmetry; apply Nat.leb_le; rewrite (length_app (MAGIC ++ _)); lia).
    by rewrite take_app_length, drop_app_length. }
  unfold decode_record. rewrite Hsplit. change (take 4 (MAGIC ++ li ++ lf ++ z)) with MAGIC. rewrite bytes_eqb_refl. cbn [negb].
  assert (E1 : Z.to_nat (from_le (take 4 (drop 4 (MAGIC ++ li ++ lf ++ z)))) = length ipc).
  { unfold li. rewrite (u32_read MAGIC [] (lf ++ z) 4) by (done || lia). lia. }
  assert (E2 : Z.to_nat (from_le (take 4 (drop 8 (MAGIC ++ li ++ lf ++ z)))) = length fb).
  { rewrite app_assoc. unfold lf. rewrite (u32_read (MAGIC ++ li) [] z 8) by (rewrite ?length_app, ?Hi; done || lia). lia. }
  rewrite E1, E2. unfold split_at_checked. replace (length ipc <=? _) with true by (symmetry; apply Nat.leb_le; rewrite length_app; lia).
  rewrite take_app_length, drop_app_length, Nat.eqb_refl. cbn [negb]. rewrite (ipc_reads batch ipc Ei), Hflags, Hcheck, Henc. done.
Qed.
Lemma cipher_opens c store chunk plain nonce record c' : cipher_seal c store chunk plain = (inr (nonce, record), c') ->
  cipher_open c' store chunk nonce record = inr plain.
Proof.
  unfold cipher_seal, cipher_open. destruct (_ =? U64_MAX)%Z; [discriminate|]. destruct (aead_seal _ _ _ _) as [[text tag]|] eqn:E; [|discriminate].
  intros [= <- <- <-]. cbn [ci_key ci_domain]. by rewrite (aead_opens _ _ _ _ _ _ E).
Qed.

(** The record of a chunk sealed from staged rows. *)
Lemma chunk_record_reads n columns metas : columns <> [] -> 0 < n -> Forall (fun c => length c = n /\ Forall cell_fits c) columns ->
  exists sealed chunk stats, seal_columns columns = inr sealed /\ seal_store_chunk sealed metas = inr (chunk, stats)
  /\ sc_batch chunk = sd_batch sealed /\ sc_encodings chunk = sd_encodings sealed
  /\ forall plain, encode_record (sc_batch chunk) (sc_flags chunk) = inr plain -> fits_u32 plain ->
       decode_record plain = inr (MkDecoded (sc_batch chunk) (sc_flags chunk) (sc_encodings chunk)).
Proof.
  intros Hne Hn Hall. destruct (store_chunk_sealed n columns metas Hne Hall) as (sealed & chunk & stats & Hs & Hc & Hb & He & _ & (Hlo & Hln & Hwo & Hwn) & _).
  destruct (seal_columns_reads n columns Hne Hall) as (sealed' & Hs' & Hrows & Hwidth & Henc & Hread & Hfe & Hft). rewrite Hs in Hs'. injection Hs' as <-.
  exists sealed, chunk, stats. split; [done|]. split; [done|]. split; [done|]. split; [done|]. intros plain Hp Hfit. rewrite Hb in *.
  assert (Hcomp : Forall2 (fun e t => check_compatible e t = true) (sd_encodings sealed) (data_type <$> rb_columns (sd_batch sealed))).
  { apply Forall2_same_length_lookup_2; [by rewrite length_fmap, Henc, Hwidth|]. intros i e t Hei Hti. rewrite list_lookup_fmap in Hti.
    destruct (lookup_lt_is_Some_2 columns i) as [values Hv]; [rewrite <- Henc; by eapply lookup_lt_Some|].
    rewrite Forall_lookup in Hall. destruct (Hall i values Hv) as [Hlv _]. destruct (lookup_lt_is_Some_2 values 0) as [v Hv0]; [lia|].
    destruct (Hread i values 0 v Hv Hv0) as (a & e' & Ha & He' & Hx). rewrite Ha in Hti. injection Hti as <-. assert (e' = e) as -> by congruence.
    unfold value_at in Hx. destruct (check_compatible e (data_type a)); [done|discriminate Hx]. }
  destruct (fields_read_back (rb_fields (sd_batch sealed)) (sd_encodings sealed) (data_type <$> rb_columns (sd_batch sealed))) as [Hcf Hff]; [done| |done|].
  { apply Forall2_fmap_r. exact Hft. }
  rewrite He. apply record_reads_back; [done|done| |done|done].
  rewrite Hrows, Hwidth, <- Hlo. apply flags_read_back; [by rewrite Hlo, Hln|done|done].
Qed.

(** A chunk that is written to disk under memory pressure comes back as it was: the batch with every
    cell, the encodings and the grid's bits, through the record's header, the flags' bitmaps, the
    stream and the cipher. *)
Theorem spilled_chunk_reads_back n columns metas c store index : columns <> [] -> 0 < n -> Forall (fun c => length c = n /\ Forall cell_fits c) columns ->
  exists sealed chunk stats, seal_columns columns = inr sealed /\ seal_store_chunk sealed metas = inr (chunk, stats)
  /\ forall plain nonce record c', encode_record (sc_batch chunk) (sc_flags chunk) = inr plain -> fits_u32 plain ->
       cipher_seal c store index plain = (inr (nonce, record), c') ->
       exists opened, cipher_open c' store index nonce record = inr opened
       /\ decode_record opened = inr (MkDecoded (sc_batch chunk) (sc_flags chunk) (sc_encodings chunk)).
Proof.
  intros Hne Hn Hall. destruct (chunk_record_reads n columns metas Hne Hn Hall) as (sealed & chunk & stats & Hs & Hc & _ & _ & Hread).
  exists sealed, chunk, stats. split; [done|]. split; [done|]. intros plain nonce record c' Hp Hfit Hseal.
  exists plain. split; [by eapply cipher_opens|]. by apply Hread.
Qed.
End Record.

(** ** A small stream, a small cipher *)

Module Disk.
#[local] Existing Instances no_float Toy.toy_bits Toy.toy_arrow Toy.toy_laws Small.small_bitmaps Small.small_bitmap_laws Small.small_unicode
  Small.small_normal.
Definition rows : Batch := [[VText (B "[1]"); VNull]; [VInt 7; VText (B "{}")]].
Definition batch : option record_batch := match seal_columns rows with inr sealed => Some (sd_batch sealed) | inl _ => None end.
#[export] Instance scalar_dec : EqDecision Scalar.
Proof. solve_decision. Defined.
#[export] Instance batch_dec : EqDecision record_batch.
Proof. cbn. solve_decision. Defined.
(** The stream of the one batch there is. *)
#[export] Instance small_ipc : Ipc := {|
  ipc_write rb := if decide (Some rb = batch) then inr [7%Z] else inl [];
  ipc_read s := match batch with Some rb => IrBatch rb | None => IrPanic end
|}.
#[export] Instance small_ipc_laws : IpcLaws.
Proof. split. intros rb s. cbn. destruct (decide _) as [E|]; [|discriminate]. intros _. by rewrite <- E. Defined.
(** The text in clear, with sixteen zeros for a tag. *)
Definition zero_tag : bytes := replicate 16 0%Z.
#[export] Instance small_aead : Aead := {|
  aead_key := unit;
  aead_seal _ nonce data plain := Some (plain, zero_tag);
  aead_open _ nonce data text := if ends_with text zero_tag then Some (take (length text - 16) text) else None
|}.
#[export] Instance small_aead_laws : AeadLaws.
Proof.
  split; cbn [aead_key aead_seal aead_open small_aead]; intros _ nonce data plain text tag [= <- <-]; [|done].
  unfold ends_with. rewrite rev_app_distr, starts_with_app. f_equal.
  rewrite length_app. change (length zero_tag) with 16. rewrite Nat.add_sub. apply take_app_length.
Defined.
End Disk.
#[local] Existing Instances no_float Toy.toy_bits Toy.toy_arrow Toy.toy_laws Small.small_bitmaps Small.small_bitmap_laws Small.small_unicode
  Small.small_normal Disk.small_ipc Disk.small_ipc_laws Disk.small_aead Disk.small_aead_laws.
Lemma spilled_chunk_reads_back_witness : exists sealed chunk stats nonce record c' opened,
  seal_columns Disk.rows = inr sealed /\ seal_store_chunk sealed [] = inr (chunk, stats) /\ length record = 86
  /\ cipher_open c' 3 0 nonce record = inr opened
  /\ decode_record opened = inr (MkDecoded (sc_batch chunk) (sc_flags chunk) (sc_encodings chunk)).
Proof.
  destruct (spilled_chunk_reads_back 2 Disk.rows [] (@from_seed Disk.small_aead DOMAIN_APP tt) 3 0) as (sealed & chunk & stats & Hs & Hc & Hspill); [discriminate|lia| |].
  { repeat first [apply Forall_cons_2 | apply Forall_nil_2 | split]; try (cbn; unfold MAX_DEPTH; lia);
      intros blob Hb; vm_compute in Hb; injection Hb as <-; vm_compute; discriminate. }
  exists sealed, chunk, stats. vm_compute in Hs. injection Hs as <-. vm_compute in Hc. injection Hc as <- <-.
  edestruct Hspill as (opened & Ho & Hd); [vm_compute; reflexivity|vm_compute; reflexivity|vm_compute; reflexivity|].
  do 4 eexists. split; [vm_compute; reflexivity|]. split; [vm_compute; reflexivity|]. split; [|split; [exact Ho|exact Hd]]. vm_compute. reflexivity.
Defined.
