(* ===== verification/View.v ===== *)
(** * View: filter, then search, then sort the rows of a result, [crates/qh-result-store/src/view.rs].

    A view is computed from a snapshot of the chunks ([refs], with the chunks loaded); what the store
    does around it is in [Store]. The scans that run in parallel are collected in chunk order. *)
From S2P Require Import Prelude Bytes Text Dates Value Names Batch Tagged Columnar Collate JsonCheck Chunk.
#[local] Open Scope nat_scope.

Definition add_u32 (a b : Z) : Z := ((a + b) mod 2 ^ 32)%Z.
(** [ChunkRef], less the cell it shares. *)
Record ChunkRef := MkRef { cr_index : nat; cr_first : Z; cr_rows : Z }.

(** ** Sorting *)

(** [sort_unstable_by] of an order under which no two elements are equal. *)
Fixpoint insert_by {A} (cmp : A -> A -> comparison) (x : A) (l : list A) : list A :=
  match l with [] => [x] | y :: l => match cmp x y with Gt => y :: insert_by cmp x l | _ => x :: y :: l end end.
Definition sort_by {A} (cmp : A -> A -> comparison) (l : list A) : list A := foldr (insert_by cmp) [] l.

Inductive SortKey := KNum (n : NumKey) | KTemporal (rank value : Z) | KText (key : bytes) | KNull.
Definition key_rank (k : SortKey) : Z := match k with KNum _ => 0 | KTemporal _ _ => 1 | KText _ => 2 | KNull => 3 end.
Definition cmp_keys (left_ right_ : SortKey) : comparison :=
  if negb (key_rank left_ =? key_rank right_)%Z then Z.compare (key_rank left_) (key_rank right_)
  else
    match left_, right_ with
    | KNum a, KNum b => num_cmp a b
    | KTemporal ra a, KTemporal rb b => then_with (Z.compare ra rb) (Z.compare a b)
    | KText a, KText b => bytes_compare a b
    | _, _ => Eq
    end.

(** [BTreeSet::insert] of texts. *)
Fixpoint set_insert (s : bytes) (l : list bytes) : list bytes :=
  match l with
  | [] => [s]
  | t :: l => match bytes_compare s t with Lt => s :: t :: l | Eq => t :: l | Gt => t :: set_insert s l end
  end.

Section View.
Context `{FloatBits} `{!FloatOps} `{!Arrow} `{!Unicode} `{!Normal} `{!Bitmaps}.

Definition sort_key (v : Value) : SortKey :=
  match v with
  | VNull => KNull
  | VDate days => KTemporal 0 days
  | VTimestamp micros _ => KTemporal 0 micros
  | VTime micros => KTemporal 1 micros
  | other =>
      let text := cell_text other in
      match swift_plain_number text with Some number => KNum number | None => KText (natural_key text) end
  end.

(** ** Filters *)

Inductive FilterSpec := FValues (column : nat) (values : list (option bytes)) | FText (column : nat) (needle : bytes).
Definition filter_column (f : FilterSpec) : nat := match f with FValues c _ | FText c _ => c end.
Inductive CmpOp := OpGe | OpLe | OpGt | OpLt | OpEq.
Definition op_text (o : CmpOp) : bytes := match o with OpGe => B ">=" | OpLe => B "<=" | OpGt => B ">" | OpLt => B "<" | OpEq => B "=" end.
Definition compare_f64 (o : CmpOp) (l r : f64) : bool :=
  match o with OpGe => f_le r l | OpLe => f_le l r | OpGt => f_lt r l | OpLt => f_lt l r | OpEq => false end.
Definition compare_string (o : CmpOp) (l r : bytes) : bool :=
  match o, bytes_compare (nfc l) (nfc r) with
  | OpGe, (Gt | Eq) | OpLe, (Lt | Eq) | OpGt, Gt | OpLt, Lt => true
  | _, _ => false
  end.
Definition compare_op (o : CmpOp) (value operand : bytes) : bool :=
  match o with
  | OpEq => ci_equal value operand
  | _ => match swift_double value, swift_double operand with Some l, Some r => compare_f64 o l r | _, _ => compare_string o value operand end
  end.
(** The operators tried in order; one with no operand ends the search for one. *)
Fixpoint match_ops (ops : list CmpOp) (value trimmed : bytes) : bool :=
  match ops with
  | [] => ci_contains value trimmed
  | o :: ops =>
      match strip_prefix trimmed (op_text o) with
      | None => match_ops ops value trimmed
      | Some rest => match trim_zs_tab rest with [] => ci_contains value trimmed | operand => compare_op o value operand end
      end
  end.
Definition matches_text (value needle : bytes) : bool :=
  match trim_zs_tab needle with [] => true | trimmed => match_ops [OpGe; OpLe; OpGt; OpLt; OpEq] value trimmed end.
Definition is_none {A} (o : option A) : bool := match o with None => true | Some _ => false end.
Definition filter_matches (f : FilterSpec) (v : Value) : bool :=
  match f with
  | FValues _ values =>
      if is_null v then existsb is_none values
      else let text := nfc (cell_text v) in existsb (fun entry => match entry with Some t => bytes_eqb (nfc t) text | None => false end) values
  | FText _ needle =>
      if is_null v then match trim_zs_tab needle with [] => true | _ => false end
      else matches_text (cell_text v) needle
  end.

(** ** Specs *)

Definition search_white (c : Z) : bool := char_whitespace c || existsb (Z.eqb c) [133; 8232; 8233]%Z.
Definition trim_search (s : bytes) : bytes := trim_chars search_white s.
Record ViewSpec := MkSpec { vs_sort : option (nat * bool); vs_filters : list FilterSpec; vs_search : bytes }.
Definition needs_rows (s : ViewSpec) : bool :=
  negb (match vs_filters s with [] => true | _ => false end) || negb (match trim_search (vs_search s) with [] => true | _ => false end).
Definition is_identity (s : ViewSpec) : bool :=
  is_none (vs_sort s) && match vs_filters s with [] => true | _ => false end && match trim_search (vs_search s) with [] => true | _ => false end.
Record ViewInfo := MkInfo { vi_id : Z; vi_rows : list Z; vi_fetched : Z; vi_visible : Z; vi_identity : bool; vi_streaming : bool }.

(** ** Scanning a chunk *)

Definition value_of (chunk : StoreChunk) (column row : nat) : option Value :=
  match rb_columns (sc_batch chunk) !! column with
  | None => None
  | Some a =>
      match value_at a (match sc_encodings chunk !! column with Some e => e | None => ENull end) row with
      | inr v => Some v
      | inl _ => None
      end
  end.
Definition filter_passes (chunk : StoreChunk) (row : nat) (f : FilterSpec) : bool :=
  match value_of chunk (filter_column f) row with Some v => filter_matches f v | None => false end.
Definition search_hits (chunk : StoreChunk) (search : bytes) (row column : nat) : bool :=
  match value_of chunk column row with Some v => negb (is_null v) && ci_contains (cell_text v) search | None => false end.
Definition row_passes (chunk : StoreChunk) (spec : ViewSpec) (row : nat) : bool :=
  forallb (filter_passes chunk row) (vs_filters spec)
  && match trim_search (vs_search spec) with
     | [] => true
     | search => existsb (search_hits chunk search row) (seq 0 (length (rb_columns (sc_batch chunk))))
     end.
Definition ref_rows (r : ChunkRef) : list nat := seq 0 (Z.to_nat (cr_rows r)).
Definition source_of (r : ChunkRef) (row : nat) : Z := add_u32 (cr_first r) (Z.of_nat row).
Definition scan_chunk (r : ChunkRef) (chunk : StoreChunk) (spec : ViewSpec) : list Z :=
  source_of r <$> List.filter (row_passes chunk spec) (ref_rows r).
Definition scan_chunks (loaded : list (ChunkRef * StoreChunk)) (spec : ViewSpec) : list Z :=
  mjoin ((fun x => scan_chunk x.1 x.2 spec) <$> loaded).
Definition check_columns (spec : ViewSpec) (width : nat) : option StoreError :=
  let out what column := SeInvalidArgument (B what ++ B " column " ++ decimal (Z.of_nat column) ++ B " is out of range (width " ++ decimal (Z.of_nat width) ++ B ")") in
  let filters := match find (fun f => width <=? filter_column f) (vs_filters spec) with Some f => Some (out "filter"%string (filter_column f)) | None => None end in
  match vs_sort spec with
  | Some (column, _) => if width <=? column then Some (out "sort"%string column) else filters
  | None => filters
  end.

(** ** Computing a view *)

(** What is decided before a chunk is read: an answer, or that the rows are needed. *)
Definition view_gate (spec : ViewSpec) (fetched : Z) (streaming : bool) (width : nat) : option (StoreError + ViewInfo) :=
  if is_identity spec then Some (inr (MkInfo 0 [] fetched fetched true streaming))
  else
    match check_columns spec width with
    | Some e => Some (inl e)
    | None => if negb (is_none (vs_sort spec)) && streaming then Some (inl SeStreaming) else None
    end.
Definition row_cmp (descending : bool) (a b : Z * SortKey) : comparison :=
  let order := cmp_keys a.2 b.2 in
  then_with (if descending then CompOpp order else order) (Z.compare a.1 b.1).
(** The rows in the view, as a flag for each row fetched. *)
Definition included (fetched : Z) (rows : list Z) : list bool :=
  foldl (fun flags row => <[Z.to_nat row := true]> flags) (replicate (Z.to_nat fetched) false) rows.
Definition chunk_keys (column : nat) (x : ChunkRef * StoreChunk) : list (Z * SortKey) :=
  (fun row => (source_of x.1 row, sort_key (default VNull (value_of x.2 column row)))) <$> ref_rows x.1.
Definition sort_rows (loaded : list (ChunkRef * StoreChunk)) (fetched : Z) (column : nat) (descending : bool) (rows : list Z) : list Z :=
  let flags := included fetched rows in
  let keys := List.filter (fun k => default false (flags !! Z.to_nat k.1)) (mjoin (chunk_keys column <$> loaded)) in
  fst <$> sort_by (row_cmp descending) keys.
Definition view_rows (spec : ViewSpec) (fetched : Z) (streaming : bool) (loaded : list (ChunkRef * StoreChunk)) : ViewInfo :=
  let rows := if needs_rows spec then scan_chunks loaded spec else Z.of_nat <$> seq 0 (Z.to_nat fetched) in
  let visible := (Z.of_nat (length rows) mod 2 ^ 32)%Z in
  let rows := match vs_sort spec with Some (column, descending) => sort_rows loaded fetched column descending rows | None => rows end in
  MkInfo 0 rows fetched visible false streaming.

(** ** Distinct values *)

Record DistinctValues := MkDistinct { dv_values : list (option bytes); dv_more : bool }.
(** A row added to what was seen. *)
Definition distinct_turn (chunk : StoreChunk) (column row : nat) (seen : list bytes * bool) : list bytes * bool :=
  match value_of chunk column row with
  | Some v => if is_null v then (seen.1, true) else (set_insert (nfc (cell_text v)) seen.1, seen.2)
  | None => seen
  end.
Definition over_limit (limit : nat) (seen : list bytes * bool) : bool := limit <? length seen.1 + (if seen.2 then 1 else 0).
Fixpoint distinct_scan (column limit : nat) (rows : list (StoreChunk * nat)) (seen : list bytes * bool) : option (list bytes * bool) :=
  match rows with
  | [] => Some seen
  | (chunk, row) :: rows =>
      let seen := distinct_turn chunk column row seen in if over_limit limit seen then None else distinct_scan column limit rows seen
  end.
Definition all_rows (loaded : list (ChunkRef * StoreChunk)) : list (StoreChunk * nat) :=
  mjoin ((fun x => (fun row => (x.2, row)) <$> ref_rows x.1) <$> loaded).
Definition distinct_of (column limit : nat) (loaded : list (ChunkRef * StoreChunk)) : DistinctValues :=
  match distinct_scan column limit (all_rows loaded) ([], false) with
  | None => MkDistinct [] true
  | Some (seen, has_null) => MkDistinct ((if has_null then [None] else []) ++ (Some <$> seen)) false
  end.

(** ** A published view *)

Record View := MkView {
  v_id : Z; v_rows : list Z; v_len : Z; v_cancel : bool; v_scanned : nat; v_expanding : bool; v_spec : ViewSpec; v_identity : bool; v_expandable : bool }.
Definition view_new (id : Z) (spec : ViewSpec) (info : ViewInfo) (streaming : bool) : View :=
  let identity := is_identity spec in
  let expandable := streaming && negb identity && is_none (vs_sort spec) && needs_rows spec in
  let len := if identity then vi_fetched info else (Z.of_nat (length (vi_rows info)) mod 2 ^ 32)%Z in
  MkView id (vi_rows info) len false 0 false spec identity expandable.
Definition view_cancel (v : View) : View :=
  MkView (v_id v) (v_rows v) (v_len v) true (v_scanned v) (v_expanding v) (v_spec v) (v_identity v) (v_expandable v).
Definition rows_of_view (v : View) : StoreError + list Z := if v_cancel v then inl SeSuperseded else inr (v_rows v).
(** Positions from [start] up to [finish], as many as there are; a start past the end is a panic. *)
Definition source_rows (v : View) (start finish : Z) : StoreError + list Z :=
  if v_cancel v then inl SeSuperseded
  else if v_identity v then inr ((fun k => start + Z.of_nat k)%Z <$> seq 0 (Z.to_nat (finish - start)))
  else
    let len := length (v_rows v) in
    let a := Nat.min (Z.to_nat start) len in
    let b := Nat.min (Z.to_nat finish) len in
    inr (take (b - a) (drop a (v_rows v))).
Definition set_scanned (count : nat) (v : View) : View :=
  MkView (v_id v) (v_rows v) (v_len v) (v_cancel v) count (v_expanding v) (v_spec v) (v_identity v) (v_expandable v).
Definition set_expanding (flag : bool) (v : View) : View :=
  MkView (v_id v) (v_rows v) (v_len v) (v_cancel v) (v_scanned v) flag (v_spec v) (v_identity v) (v_expandable v).
Definition append_rows (rows : list Z) (v : View) : View :=
  match rows with
  | [] => v
  | _ =>
      let all := v_rows v ++ rows in
      MkView (v_id v) all (Z.of_nat (length all) mod 2 ^ 32) (v_cancel v) (v_scanned v) (v_expanding v) (v_spec v) (v_identity v) (v_expandable v)
  end.
End View.
