(* ===== verification/Registry.v ===== *)
(** * Registry: the stores, their budget and the chunks moved to disk,
    [crates/qh-result-store/src/registry.rs] and the residency of a chunk in
    [crates/qh-result-store/src/store.rs].

    The registry, its stores and who holds a chunk are one [World]; an operation is a function of it
    ([M]). Operations run one after another: a chunk is held ([w_pins]) while an operation reads it. *)
From stdpp Require Import gmap.
From S2P Require Import Prelude Bytes Text Dates Value Names Batch Tagged Columnar Collate JsonCheck Chunk Spill View.
#[local] Open Scope nat_scope.

Inductive Phase := PhEmpty | PhStreaming | PhComplete | PhCancelled | PhFailed | PhReleased.
#[export] Instance Phase_eq_dec : EqDecision Phase.
Proof. solve_decision. Defined.
Definition phase_is_finished (p : Phase) : bool := match p with PhComplete | PhCancelled | PhFailed => true | _ => false end.
Record StoreConfig := MkConfig { budget_bytes : Z; low_water_bytes : Z; spill_dir : option bytes; decoded_cache_chunks : nat; query_share_bytes : Z }.
Inductive Origin := OWriter | OView | ODecodedCache.
Record HeadWidths := MkWidths { hw_widths : list Z; hw_rows : Z; hw_done : bool }.

Section Registry.
Context `{FloatBits} `{!FloatOps} `{!Arrow} `{!Unicode} `{!Normal} `{!Bitmaps} `{!Ipc} `{!Aead} `{!Medium}.

Inductive Residency := Resident (chunk : StoreChunk) | Spilled (offset len nonce size : Z).
Record ChunkEntry := MkEntry { ce_first : Z; ce_rows : Z; ce_residency : Residency; ce_access : Z }.
(** [StoreShared], with every view made of it by its id. *)
Record StoreShared := MkStore {
  st_columns : list ColumnMeta; st_chunks : list ChunkEntry; st_stats : list ColumnStats; st_rows : Z; st_phase : Phase;
  st_widths : HeadWidths; st_head_rows : Z; st_builder : option ChunkBuilder; st_spill : option SpillFile;
  st_views : gmap Z View; st_view : option Z; st_view_seq : Z; st_truncated : bool }.
Definition store_new : StoreShared := MkStore [] [] [] 0 PhEmpty (MkWidths [] 0 false) 0 None None ∅ None 0 false.
Record DecodedEntry := MkDecodedEntry { de_id : Z; de_index : nat; de_chunk : StoreChunk; de_access : Z }.
Record World := MkWorld {
  w_config : StoreConfig; w_cipher : option SpillCipher; w_live : list Z; w_next_id : Z; w_resident : Z; w_query : Z; w_clock : Z;
  w_decoded : list DecodedEntry; w_stores : gmap Z StoreShared; w_pins : list (Z * nat); w_tasks : list (Z * Z); w_held : list Z }.

Definition set_chunks (f : list ChunkEntry -> list ChunkEntry) (s : StoreShared) : StoreShared :=
  MkStore (st_columns s) (f (st_chunks s)) (st_stats s) (st_rows s) (st_phase s) (st_widths s) (st_head_rows s) (st_builder s) (st_spill s)
    (st_views s) (st_view s) (st_view_seq s) (st_truncated s).
Definition set_spill (f : option SpillFile) (s : StoreShared) : StoreShared :=
  MkStore (st_columns s) (st_chunks s) (st_stats s) (st_rows s) (st_phase s) (st_widths s) (st_head_rows s) (st_builder s) f
    (st_views s) (st_view s) (st_view_seq s) (st_truncated s).
Definition set_resident (n : Z) (w : World) : World :=
  MkWorld (w_config w) (w_cipher w) (w_live w) (w_next_id w) n (w_query w) (w_clock w) (w_decoded w) (w_stores w) (w_pins w) (w_tasks w) (w_held w).
Definition set_decoded (l : list DecodedEntry) (w : World) : World :=
  MkWorld (w_config w) (w_cipher w) (w_live w) (w_next_id w) (w_resident w) (w_query w) (w_clock w) l (w_stores w) (w_pins w) (w_tasks w) (w_held w).
Definition set_cipher (c : option SpillCipher) (w : World) : World :=
  MkWorld (w_config w) c (w_live w) (w_next_id w) (w_resident w) (w_query w) (w_clock w) (w_decoded w) (w_stores w) (w_pins w) (w_tasks w) (w_held w).
Definition set_clock (n : Z) (w : World) : World :=
  MkWorld (w_config w) (w_cipher w) (w_live w) (w_next_id w) (w_resident w) (w_query w) n (w_decoded w) (w_stores w) (w_pins w) (w_tasks w) (w_held w).
Definition set_stores (m : gmap Z StoreShared) (w : World) : World :=
  MkWorld (w_config w) (w_cipher w) (w_live w) (w_next_id w) (w_resident w) (w_query w) (w_clock w) (w_decoded w) m (w_pins w) (w_tasks w) (w_held w).
Definition set_pins (l : list (Z * nat)) (w : World) : World :=
  MkWorld (w_config w) (w_cipher w) (w_live w) (w_next_id w) (w_resident w) (w_query w) (w_clock w) (w_decoded w) (w_stores w) l (w_tasks w) (w_held w).
Definition put_store (id : Z) (s : StoreShared) (w : World) : World := set_stores (<[id := s]> (w_stores w)) w.

(** ** Operations *)

Definition M (A : Type) : Type := World -> (StoreError + A) * World.
#[export] Instance store_ret : MRet M := fun A x w => (inr x, w).
#[export] Instance store_bind : MBind M := fun A C f m w => match m w with (inl e, w) => (inl e, w) | (inr x, w) => f x w end.
Definition fail_with {A} (e : StoreError) : M A := fun w => (inl e, w).
(** [is_err()] and a match on the result: the error is a value. *)
Definition attempt {A} (m : M A) : M (StoreError + A) := fun w => let '(r, w) := m w in (inr r, w).
Definition ask {A} (f : World -> A) : M A := fun w => (inr (f w), w).
Definition change (f : World -> World) : M unit := fun w => (inr tt, f w).
(** The shared state of a store; one that is gone answers as a released one. *)
Definition get_store (id : Z) : M StoreShared := fun w => match w_stores w !! id with Some s => (inr s, w) | None => (inl SeReleased, w) end.
Definition change_store (id : Z) (f : StoreShared -> StoreShared) : M unit := change (fun w => set_stores (alter f id (w_stores w)) w).
Definition tick : M Z := fun w => (inr (w_clock w), set_clock ((w_clock w + 1) mod 2 ^ 64) w).

(** ** The budget *)

Definition uncharge (size : Z) : M unit := change (fun w => set_resident (Z.max 0 (w_resident w - size)) w).
Definition over_budget : M bool := ask (fun w => budget_bytes (w_config w) <? w_resident w)%Z.
Definition older (a b : DecodedEntry) : comparison := Z.compare (de_access a) (de_access b).
(** Entries dropped from the front, oldest first. *)
Fixpoint drop_entries (n : nat) (l : list DecodedEntry) (resident : Z) : list DecodedEntry * Z :=
  match n, l with
  | S n, e :: l => drop_entries n l (Z.max 0 (resident - sc_bytes (de_chunk e)))
  | _, _ => (l, resident)
  end.
Definition trim_decoded_cache (keep : nat) : M unit := change (fun w =>
  let sorted := sort_by older (w_decoded w) in
  let '(l, resident) := drop_entries (length sorted - keep) sorted (w_resident w) in set_resident resident (set_decoded l w)).
Definition pinned (id : Z) (index : nat) (w : World) : bool := existsb (fun p => (p.1 =? id)%Z && (p.2 =? index)) (w_pins w).
(** The medium a new spill file is over. *)
Class SpillDir := { spill_create : bytes -> Z -> Z -> StoreError + medium }.
Context `{!SpillDir}.
(** The store's spill file, opened when there is none: nothing without a directory. *)
Definition spill_file (id : Z) (s : StoreShared) (w : World) : StoreError + option SpillFile :=
  match st_spill s with
  | Some f => inr (Some f)
  | None =>
      match spill_dir (w_config w) with
      | None => inr None
      | Some dir => match spill_create dir id (w_clock w) with inl e => inl e | inr m => inr (Some (with_medium m)) end
      end
  end.
Definition spill_entry (offset len nonce : Z) (chunk : StoreChunk) (e : ChunkEntry) : ChunkEntry :=
  MkEntry (ce_first e) (ce_rows e) (Spilled offset len nonce (sc_bytes chunk)) (ce_access e).
Definition spill_one (id : Z) (index : nat) : M (option Z) := fun w =>
  match w_stores w !! id with
  | None => (inr None, w)
  | Some s =>
      match st_chunks s !! index with
      | None => (inr None, w)
      | Some entry =>
          match ce_residency entry with
          | Spilled _ _ _ _ => (inr None, w)
          | Resident chunk =>
              if pinned id index w then (inr None, w)
              else
                match w_cipher w with
                | None => (inr None, w)
                | Some cipher =>
                    match encode_record (sc_batch chunk) (sc_flags chunk) with
                    | inl _ => (inr None, w)
                    | inr plain =>
                        let '(sealed, cipher) := cipher_seal cipher id (Z.of_nat index) plain in
                        let w := set_cipher (Some cipher) w in
                        match sealed with
                        | inl _ => (inr None, w)
                        | inr (nonce, record) =>
                            if decide (st_phase s = PhReleased) then (inr None, w)
                            else
                              match spill_file id s w with
                              | inl e => (inl e, w)
                              | inr None => (inr None, w)
                              | inr (Some f) =>
                                  let '(written, f) := file_append f record in
                                  match written with
                                  | inl e => (inl e, put_store id (set_spill (Some f) s) w)
                                  | inr (offset, len) =>
                                      let s := set_chunks (alter (spill_entry offset len nonce chunk) index) (set_spill (Some f) s) in
                                      let '(_, w) := uncharge (sc_bytes chunk) (put_store id s w) in (inr (Some (sc_bytes chunk)), w)
                                  end
                              end
                        end
                    end
                end
          end
      end
  end.
Definition is_resident (e : ChunkEntry) : bool := match ce_residency e with Resident _ => true | Spilled _ _ _ _ => false end.
Definition evictable_chunks (s : StoreShared) : list (nat * Z) :=
  omap (fun x => if is_resident x.2 then Some (x.1, ce_access x.2) else None) (imap pair (st_chunks s)).
Definition candidates (w : World) : list (Z * nat * Z) :=
  sort_by (fun a b => Z.compare a.2 b.2)
    (mjoin ((fun id => match w_stores w !! id with Some s => (fun c => (id, c.1, c.2)) <$> evictable_chunks s | None => [] end) <$> w_live w)).
Fixpoint evict_loop (target : Z) (l : list (Z * nat * Z)) (first_error : option StoreError) : M unit :=
  match l with
  | [] => match first_error with Some e => fail_with e | None => mret tt end
  | (id, index, _) :: l =>
      enough ← ask (fun w => w_resident w <=? target)%Z;
      if (enough : bool) then mret tt
      else
        spilled ← attempt (spill_one id index);
        evict_loop target l (match spilled, first_error with inl e, None => Some e | _, _ => first_error end)
  end.
Definition evict_until (target : Z) : M unit :=
  cap ← ask (fun w => decoded_cache_chunks (w_config w));
  _ ← trim_decoded_cache (Nat.min cap 4);
  l ← ask candidates;
  evict_loop target l None.
(** What a charge past the budget does when its own cache is not enough. *)
Definition make_room (size : Z) : M unit :=
  low ← ask (fun w => low_water_bytes (w_config w));
  evicted ← attempt (evict_until low);
  match evicted with
  | inl e => _ ← uncharge size; fail_with e
  | inr _ =>
      over ← over_budget;
      if (over : bool) then budget ← ask (fun w => budget_bytes (w_config w)); _ ← uncharge size; fail_with (SeBudgetExceeded size budget)
      else mret tt
  end.
Definition charge (size : Z) (origin : Origin) : M unit :=
  _ ← change (fun w => set_resident (w_resident w + size) w);
  over ← over_budget;
  if negb (over : bool) then mret tt
  else
    match origin with
    | OWriter | OView => make_room size
    | ODecodedCache =>
        _ ← trim_decoded_cache 0;
        over ← over_budget;
        if negb (over : bool) then mret tt else make_room size
    end.
(** Scratch for a view, and a helper's share: what is held until it is given back. *)
Definition set_held (l : list Z) (w : World) : World :=
  MkWorld (w_config w) (w_cipher w) (w_live w) (w_next_id w) (w_resident w) (w_query w) (w_clock w) (w_decoded w) (w_stores w) (w_pins w) (w_tasks w) l.
Definition set_query (n : Z) (w : World) : World :=
  MkWorld (w_config w) (w_cipher w) (w_live w) (w_next_id w) (w_resident w) n (w_clock w) (w_decoded w) (w_stores w) (w_pins w) (w_tasks w) (w_held w).
Definition past_budget (size : Z) : M bool := ask (fun w => budget_bytes (w_config w) <? w_resident w + size)%Z.
Definition evict_to_low : M unit := low ← ask (fun w => low_water_bytes (w_config w)); evict_until low.
Definition reserve (size : Z) : M Z :=
  over ← past_budget size;
  _ ← (if (over : bool) then evict_to_low else mret tt);
  over ← past_budget size;
  if (over : bool) then budget ← ask (fun w => budget_bytes (w_config w)); fail_with (SeBudgetExceeded size budget)
  else _ ← change (fun w => set_held (size :: w_held w) (set_resident (w_resident w + size) w)); mret size.
Fixpoint remove_one (n : Z) (l : list Z) : list Z := match l with [] => [] | m :: l => if (m =? n)%Z then l else m :: remove_one n l end.
Definition drop_reservation (size : Z) : M unit := _ ← change (fun w => set_held (remove_one size (w_held w)) w); uncharge size.
Definition MIN_QUERY_BYTES : Z := 32 * 1024 * 1024.
Definition reserve_query (max : Z) : M Z :=
  want ← ask (fun w => Z.min max (query_share_bytes (w_config w)));
  over ← past_budget want;
  _ ← (if (over : bool) then evict_to_low else mret tt);
  available ← ask (fun w => Z.max 0 (budget_bytes (w_config w) - w_resident w));
  if (available <? MIN_QUERY_BYTES)%Z then fail_with (SeBudgetExceeded MIN_QUERY_BYTES available)
  else
    let grant := Z.min want available in
    _ ← change (fun w => set_query (w_query w + grant) (set_held (grant :: w_held w) (set_resident (w_resident w + grant) w))); mret grant.
Definition drop_lease (size : Z) : M unit := _ ← drop_reservation size; change (fun w => set_query (w_query w - size) w).

(** ** The cache of decrypted chunks *)

Definition is_entry (id : Z) (index : nat) (e : DecodedEntry) : bool := (de_id e =? id)%Z && (de_index e =? index).
Fixpoint remove_entry (id : Z) (index : nat) (l : list DecodedEntry) : option (DecodedEntry * list DecodedEntry) :=
  match l with
  | [] => None
  | e :: l => if is_entry id index e then Some (e, l) else match remove_entry id index l with Some (x, l) => Some (x, e :: l) | None => None end
  end.
(** The loop after an entry is added. *)
Fixpoint cache_trim (cap : nat) (budget : Z) (l : list DecodedEntry) (resident : Z) : list DecodedEntry * Z :=
  match l with
  | [] => ([], resident)
  | e :: rest =>
      if (cap <? length l) || (budget <? resident)%Z then cache_trim cap budget rest (Z.max 0 (resident - sc_bytes (de_chunk e)))
      else (l, resident)
  end.
Definition cache_add (id : Z) (index : nat) (chunk : StoreChunk) (now : Z) : M unit := change (fun w =>
  let '(l, resident) := match remove_entry id index (w_decoded w) with
                        | Some (old, l) => (l, Z.max 0 (w_resident w - sc_bytes (de_chunk old)))
                        | None => (w_decoded w, w_resident w)
                        end in
  let sorted := sort_by older (l ++ [MkDecodedEntry id index chunk now]) in
  let '(l, resident) := cache_trim (decoded_cache_chunks (w_config w)) (budget_bytes (w_config w)) sorted resident in
  set_resident resident (set_decoded l w)).
Definition cache_decoded (id : Z) (index : nat) (chunk : StoreChunk) : M StoreChunk :=
  now ← tick;
  charged ← attempt (charge (sc_bytes chunk) ODecodedCache);
  match charged with
  | inl _ => mret chunk
  | inr _ =>
      over ← over_budget;
      room ← (if (over : bool) then attempt evict_to_low else mret (inr tt));
      match (room : StoreError + unit) with
      | inl _ => _ ← uncharge (sc_bytes chunk); mret chunk
      | inr _ => _ ← cache_add id index chunk now; mret chunk
      end
  end.
Fixpoint touch (id : Z) (index : nat) (now : Z) (l : list DecodedEntry) : list DecodedEntry :=
  match l with
  | [] => []
  | e :: l => if is_entry id index e then MkDecodedEntry (de_id e) (de_index e) (de_chunk e) now :: l else e :: touch id index now l
  end.
Definition decoded_chunk (id : Z) (index : nat) : M (option StoreChunk) :=
  hit ← ask (fun w => find (is_entry id index) (w_decoded w));
  match hit with
  | None => mret None
  | Some e => now ← tick; _ ← change (fun w => set_decoded (touch id index now (w_decoded w)) w); mret (Some (de_chunk e))
  end.
Definition purge_decoded (id : Z) : M unit := change (fun w =>
  let gone := List.filter (fun e => (de_id e =? id)%Z) (w_decoded w) in
  set_resident (foldl (fun r e => Z.max 0 (r - sc_bytes (de_chunk e))) (w_resident w) gone)
    (set_decoded (List.filter (fun e => negb (de_id e =? id)%Z) (w_decoded w)) w)).

(** ** Loading a chunk *)

Definition set_access (now : Z) (e : ChunkEntry) : ChunkEntry := MkEntry (ce_first e) (ce_rows e) (ce_residency e) now.
Definition pin (id : Z) (index : nat) : M unit := change (fun w => set_pins ((id, index) :: w_pins w) w).
Definition load_spilled (id : Z) (index : nat) (offset len nonce : Z) : M StoreChunk :=
  s ← get_store id;
  match st_spill s with
  | None => fail_with (SeCorrupt (B "chunk " ++ decimal (Z.of_nat index) ++ B " is spilled but there is no spill file"))
  | Some f =>
      match file_read f offset len with
      | inl e => fail_with e
      | inr record =>
          cipher ← ask w_cipher;
          match cipher with
          | None => fail_with (SeSpillUnavailable (B "spill is off"))
          | Some cipher =>
              match cipher_open cipher id (Z.of_nat index) nonce record with
              | inl e => fail_with e
              | inr plain =>
                  match decode_record plain with
                  | inl e => fail_with e
                  | inr d =>
                      cache_decoded id index
                        (MkChunk (dr_batch d) (dr_encodings d) (dr_flags d) (rb_memory_size (dr_batch d) + flags_bytes (dr_flags d)))
                  end
              end
          end
      end
  end.
Definition load_chunk (id : Z) (index : nat) : M StoreChunk :=
  s ← get_store id;
  match st_chunks s !! index with
  | None => fail_with (SeCorrupt (B "no chunk " ++ decimal (Z.of_nat index)))
  | Some e =>
      now ← tick;
      _ ← change_store id (set_chunks (alter (set_access now) index));
      match ce_residency e with
      | Resident chunk => _ ← pin id index; mret chunk
      | Spilled offset len nonce _ =>
          hit ← decoded_chunk id index;
          match hit with
          | Some chunk => mret chunk
          | None => load_spilled id index offset len nonce
          end
      end
  end.
(** An operation's hold on the chunks it read ends with it. *)
Definition holding {A} (m : M A) : M A := fun w => let '(r, w') := m w in (r, set_pins (w_pins w) w').

(** ** Stores *)

Definition registry_new (config : StoreConfig) (cipher : option SpillCipher) : World := MkWorld config cipher [] 1 0 0 1 [] ∅ [] [] [].
Definition create : M Z := fun w =>
  let id := w_next_id w in
  (inr id, MkWorld (w_config w) (w_cipher w) (w_live w ++ [id]) (id + 1) (w_resident w) (w_query w) (w_clock w) (w_decoded w)
             (<[id := store_new]> (w_stores w)) (w_pins w) (w_tasks w) (w_held w)).
Definition set_live (l : list Z) (w : World) : World :=
  MkWorld (w_config w) (w_cipher w) l (w_next_id w) (w_resident w) (w_query w) (w_clock w) (w_decoded w) (w_stores w) (w_pins w) (w_tasks w) (w_held w).
Definition entry_bytes (e : ChunkEntry) : Z := match ce_residency e with Resident chunk => sc_bytes chunk | Spilled _ _ _ _ => 0 end.
Definition release_store (s : StoreShared) : StoreShared :=
  MkStore (st_columns s) [] (st_stats s) (st_rows s) PhReleased (st_widths s) (st_head_rows s) (st_builder s) None
    (match st_view s with Some id => alter view_cancel id (st_views s) | None => st_views s end) (st_view s) (st_view_seq s) (st_truncated s).
Definition store_release (id : Z) : M unit := fun w =>
  match w_stores w !! id with
  | None => (inr tt, w)
  | Some s =>
      if decide (st_phase s = PhReleased) then (inr tt, w)
      else
        let freed := foldl (fun r e => match ce_residency e with Resident chunk => Z.max 0 (r - sc_bytes chunk) | Spilled _ _ _ _ => r end)
                       (w_resident w) (st_chunks s) in
        (inr tt, set_resident freed (put_store id (release_store s) w))
  end.
Definition registry_release (id : Z) : M unit :=
  known ← ask (fun w => existsb (Z.eqb id) (w_live w));
  _ ← change (fun w => set_live (List.filter (fun x => negb (x =? id)%Z) (w_live w)) w);
  _ ← (if (known : bool) then store_release id else mret tt);
  purge_decoded id.
End Registry.
