(* ===== verification/RegistrySpec.v ===== *)
(** * RegistrySpec: the budget is what is held, and every chunk is loaded as it was published, for
    [Registry]. *)
From stdpp Require Import gmap.
From S2P Require Import Prelude Bytes Text Dates Value Names Batch Tagged TaggedSpec Columnar ColumnarSpec Collate JsonCheck Chunk.
From S2P Require Import Chunk Spill View Registry.
#[local] Open Scope nat_scope.

(** ** Sums *)

Lemma sort_by_perm {A} (cmp : A -> A -> comparison) l : Permutation (sort_by cmp l) l.
Proof.
  assert (Hi : forall x k, Permutation (insert_by cmp x k) (x :: k)).
  { intros x k. induction k as [|y k IH]; [done|]. cbn. destruct (cmp x y); [done|done|]. rewrite IH. apply perm_swap. }
  unfold sort_by. induction l as [|x l IH]; [done|]. cbn. by rewrite Hi, IH.
Qed.
Definition zsum {A} (f : A -> Z) (l : list A) : Z := foldr (fun x n => f x + n)%Z 0%Z l.
Lemma zsum_app {A} (f : A -> Z) a b : zsum f (a ++ b) = (zsum f a + zsum f b)%Z.
Proof. unfold zsum. induction a as [|x a IH]; cbn in *; lia. Qed.
Lemma zsum_perm {A} (f : A -> Z) a b : Permutation a b -> zsum f a = zsum f b.
Proof. unfold zsum. induction 1; cbn in *; lia. Qed.
Lemma zsum_nonneg {A} (f : A -> Z) l : Forall (fun x => 0 <= f x)%Z l -> (0 <= zsum f l)%Z.
Proof. induction 1 as [|x l Hx _ IH]; cbn; [lia|]. unfold zsum in IH. lia. Qed.
Lemma zsum_alter {A} (f : A -> Z) g l : forall i x, l !! i = Some x -> zsum f (alter g i l) = (zsum f l - f x + f (g x))%Z.
Proof.
  unfold zsum. induction l as [|y l IH]; intros [|i] x Hi; try done.
  - injection Hi as ->. cbn. lia.
  - change (alter g (S i) (y :: l)) with (y :: alter g i l). cbn [foldr]. rewrite (IH i x Hi). lia.
Qed.
Definition gsum {A} (f : A -> Z) (m : gmap Z A) : Z := map_fold (fun _ x n => (f x + n)%Z) 0%Z m.
Lemma gsum_insert {A} (f : A -> Z) m id x : m !! id = None -> gsum f (<[id := x]> m) = (f x + gsum f m)%Z.
Proof. intros Hm. unfold gsum. rewrite map_fold_insert_L; [done| |done]. intros. lia. Qed.
Lemma gsum_replace {A} (f : A -> Z) m id x y : m !! id = Some x -> gsum f (<[id := y]> m) = (gsum f m - f x + f y)%Z.
Proof.
  intros Hm. rewrite <- (insert_id m id x Hm) at 2. rewrite <- (insert_delete_eq m id y), <- (insert_delete_eq m id x).
  rewrite !gsum_insert by apply lookup_delete_eq. lia.
Qed.
Lemma gsum_nonneg {A} (f : A -> Z) m : (forall id x, m !! id = Some x -> 0 <= f x)%Z -> (0 <= gsum f m)%Z.
Proof.
  induction m as [|id x m Hm IH] using map_ind; intros Hf; [done|]. rewrite gsum_insert by done.
  assert (0 <= f x)%Z by (eapply Hf; apply lookup_insert_eq). enough (0 <= gsum f m)%Z by lia. apply IH. intros i y Hy. apply (Hf i).
  rewrite lookup_insert_ne; [done|]. intros ->. congruence.
Qed.

(** The fields of a world read off. *)
Ltac wsimp := cbn [w_config w_cipher w_live w_next_id w_resident w_query w_clock w_decoded w_stores w_pins w_tasks w_held set_resident set_decoded
  set_cipher set_clock set_stores set_pins put_store set_held set_query fst snd] in *.

Section Spec.
Context `{FloatBits} `{!FloatOps} `{!Arrow} `{!ArrowLaws} `{!Unicode} `{!Normal} `{!Bitmaps} `{!BitmapLaws} `{!Ipc} `{!IpcLaws} `{!Aead} `{!AeadLaws}
  `{!Medium} `{!MediumLaws} `{!SpillDir}.

(** ** The invariant *)

(** A chunk whose record is read back as it, of a size a record has room for. *)
Record chunk_good (c : StoreChunk) : Prop := {
  good_bytes : sc_bytes c = (rb_memory_size (sc_batch c) + flags_bytes (sc_flags c))%Z;
  good_size : (0 <= sc_bytes c)%Z;
  good_record : forall plain, encode_record (sc_batch c) (sc_flags c) = inr plain ->
    (Z.of_nat (length plain) + 16 < 2 ^ 32)%Z /\ decode_record plain = inr (MkDecoded (sc_batch c) (sc_flags c) (sc_encodings c));
}.
(** What the chunks of the stores were when they were published. *)
Definition Published : Type := Z -> list StoreChunk.
Definition opens_as (cipher : option SpillCipher) (id : Z) (index : nat) (nonce : Z) (record : bytes) (c : StoreChunk) : Prop :=
  exists k plain, cipher = Some k /\ cipher_open k id (Z.of_nat index) nonce record = inr plain
    /\ decode_record plain = inr (MkDecoded (sc_batch c) (sc_flags c) (sc_encodings c)).
Definition entry_holds (cipher : option SpillCipher) (file : option SpillFile) (id : Z) (index : nat) (e : ChunkEntry) (c : StoreChunk) : Prop :=
  match ce_residency e with
  | Resident chunk => chunk = c
  | Spilled offset len nonce size =>
      exists f record, file = Some f /\ (0 <= offset)%Z /\ (0 <= len)%Z /\ (offset + len <= next_offset f)%Z
      /\ file_read f offset len = inr record /\ opens_as cipher id index nonce record c
  end.
Record store_holds (cipher : option SpillCipher) (id : Z) (s : StoreShared) (l : list StoreChunk) : Prop := {
  holds_length : st_phase s <> PhReleased -> length (st_chunks s) = length l;
  holds_released : st_phase s = PhReleased -> st_chunks s = [];
  holds_entry : forall i e, st_chunks s !! i = Some e -> exists c, l !! i = Some c /\ entry_holds cipher (st_spill s) id i e c;
  holds_file : forall f, st_spill s = Some f -> (0 <= next_offset f)%Z;
}.
Definition store_bytes (s : StoreShared) : Z := zsum entry_bytes (st_chunks s).
Definition decoded_bytes (l : list DecodedEntry) : Z := zsum (fun e => sc_bytes (de_chunk e)) l.
Definition accounted (w : World) : Z := (gsum store_bytes (w_stores w) + decoded_bytes (w_decoded w) + zsum id (w_held w))%Z.
(** The budget's total is what is held, and [extra] that is charged and not held yet. *)
Record Inv (published : Published) (extra : Z) (w : World) : Prop := {
  inv_total : w_resident w = (accounted w + extra)%Z;
  inv_extra : (0 <= extra)%Z;
  inv_held : Forall (fun n => 0 <= n)%Z (w_held w);
  inv_stores : forall id s, w_stores w !! id = Some s -> store_holds (w_cipher w) id s (published id);
  inv_decoded : Forall (fun e => published (de_id e) !! de_index e = Some (de_chunk e)) (w_decoded w);
  inv_good : forall id c, c ∈ published id -> chunk_good c;
}.

Lemma good_at published w extra id i c : Inv published extra w -> published id !! i = Some c -> chunk_good c.
Proof. intros HI Hc. apply (inv_good _ _ _ HI id). by eapply list_elem_of_lookup_2. Qed.
Lemma entry_bytes_nonneg published extra w id s e i : Inv published extra w -> w_stores w !! id = Some s -> st_chunks s !! i = Some e -> (0 <= entry_bytes e)%Z.
Proof.
  intros HI Hs He. destruct (holds_entry _ _ _ _ (inv_stores _ _ _ HI id s Hs) i e He) as (c & Hc & Hh). unfold entry_bytes, entry_holds in *.
  destruct (ce_residency e) as [chunk|]; [|done]. subst chunk. apply good_size. by eapply (good_at _ _ _ _ _ _ HI).
Qed.
Lemma store_bytes_nonneg published extra w id s : Inv published extra w -> w_stores w !! id = Some s -> (0 <= store_bytes s)%Z.
Proof. intros HI Hs. apply zsum_nonneg, Forall_lookup. intros i e He. by eapply (entry_bytes_nonneg _ _ _ _ _ _ _ HI). Qed.
Lemma decoded_nonneg published extra w : Inv published extra w -> Forall (fun e => 0 <= sc_bytes (de_chunk e))%Z (w_decoded w).
Proof.
  intros HI. eapply Forall_impl; [apply (inv_decoded _ _ _ HI)|]. intros e He. apply good_size. eapply (good_at _ _ _ _ _ _ HI), He.
Qed.
Lemma stores_nonneg published extra w : Inv published extra w -> (0 <= gsum store_bytes (w_stores w))%Z.
Proof. intros HI. apply gsum_nonneg. intros id s Hs. by eapply (store_bytes_nonneg _ _ _ _ _ HI). Qed.
Lemma held_nonneg published extra w : Inv published extra w -> (0 <= zsum id (w_held w))%Z.
Proof. intros HI. apply zsum_nonneg, (inv_held _ _ _ HI). Qed.
Lemma decoded_bytes_nonneg l : Forall (fun e => 0 <= sc_bytes (de_chunk e))%Z l -> (0 <= decoded_bytes l)%Z.
Proof. apply zsum_nonneg. Qed.

(** ** What an operation leaves alone *)

Definition shape (s : StoreShared) :=
  (st_columns s, (fun e => (ce_first e, ce_rows e)) <$> st_chunks s, st_stats s, st_rows s, st_phase s, (st_widths s, st_head_rows s, st_builder s),
   (st_views s, st_view s, st_view_seq s, st_truncated s)).
Record Frame (w w' : World) : Prop := {
  fr_config : w_config w' = w_config w;
  fr_live : w_live w' = w_live w;
  fr_next : w_next_id w' = w_next_id w;
  fr_tasks : w_tasks w' = w_tasks w;
  fr_held : w_held w' = w_held w;
  fr_shape : forall id, shape <$> w_stores w' !! id = shape <$> w_stores w !! id;
}.
#[export] Instance frame_preorder : PreOrder Frame.
Proof.
  split; [by split|]. intros a b c [] []. split; try congruence.
Qed.
Definition wp {A} (m : M A) (Q : StoreError + A -> World -> Prop) (w : World) : Prop := Q (m w).1 (m w).2.
Lemma wp_bind {A C} (m : M A) (f : A -> M C) Q w :
  wp m (fun r w' => match r with inl e => Q (inl e) w' | inr x => wp (f x) Q w' end) w -> wp (m ≫= f) Q w.
Proof. unfold wp, mbind, store_bind. by destruct (m w) as [[e|x] w']. Qed.
Lemma wp_mono {A} (m : M A) (P Q : StoreError + A -> World -> Prop) w : (forall r w', P r w' -> Q r w') -> wp m P w -> wp m Q w.
Proof. unfold wp. auto. Qed.
Lemma wp_attempt {A} (m : M A) Q w : wp m (fun r w' => Q (inr r) w') w -> wp (attempt m) Q w.
Proof. unfold wp, attempt. by destruct (m w). Qed.
(** An operation that keeps the invariant, and its frame. *)
Definition steady {A} (published : Published) (extra : Z) (w : World) (r : StoreError + A) (w' : World) : Prop := Inv published extra w' /\ Frame w w'.

(** ** Giving back and trimming *)

Lemma accounted_nonneg published x w : Inv published x w -> (0 <= accounted w)%Z.
Proof.
  intros HI. unfold accounted. pose proof (stores_nonneg _ _ _ HI). pose proof (decoded_bytes_nonneg _ (decoded_nonneg _ _ _ HI)). pose proof (held_nonneg _ _ _ HI). lia.
Qed.
Lemma uncharge_ok published x n w : (0 <= x)%Z -> (0 <= n)%Z -> Inv published (x + n) w -> wp (uncharge n) (steady published x w) w.
Proof.
  intros Hx Hn HI. pose proof (accounted_nonneg _ _ _ HI). unfold wp, uncharge, change. cbn. split; [|by split].
  destruct HI as [Ht _ Hh Hs Hd Hg]. split; try done. unfold accounted in *. wsimp. lia.
Qed.
(** A cache of other entries of the same chunks, with a total to match. *)
Lemma inv_decoded_change published x y w l n : Inv published x w -> (0 <= y)%Z ->
  Forall (fun e => published (de_id e) !! de_index e = Some (de_chunk e)) l ->
  n = (w_resident w - decoded_bytes (w_decoded w) + decoded_bytes l - x + y)%Z -> Inv published y (set_resident n (set_decoded l w)).
Proof. intros [Ht Hx Hh Hs Hd Hg] Hy Hl ->. split; try done. unfold accounted in *. wsimp. lia. Qed.
Lemma decoded_bytes_cons e l : decoded_bytes (e :: l) = (sc_bytes (de_chunk e) + decoded_bytes l)%Z.
Proof. done. Qed.
Lemma drop_entries_ok n : forall l r, Forall (fun e => 0 <= sc_bytes (de_chunk e))%Z l -> (decoded_bytes l <= r)%Z ->
  let '(l', r') := drop_entries n l r in (exists k, l' = drop k l) /\ (r' = r - decoded_bytes l + decoded_bytes l')%Z.
Proof.
  induction n as [|n IH]; intros l r Hl Hr; [cbn; split; [by exists 0|lia]|]. destruct l as [|e l]; [cbn; split; [by exists 0|lia]|].
  apply Forall_cons in Hl as [He Hl]. pose proof (decoded_bytes_nonneg l Hl). cbn [drop_entries]. rewrite decoded_bytes_cons in Hr |- *.
  specialize (IH l (Z.max 0 (r - sc_bytes (de_chunk e)))%Z Hl ltac:(lia)). destruct (drop_entries _ _ _) as [l' r']. destruct IH as [[k ->] Hr'].
  split; [by exists (S k)|]. lia.
Qed.
Lemma decoded_total published x w : Inv published x w -> (decoded_bytes (w_decoded w) + x <= w_resident w)%Z.
Proof.
  intros HI. pose proof (stores_nonneg _ _ _ HI). pose proof (held_nonneg _ _ _ HI). rewrite (inv_total _ _ _ HI). unfold accounted. lia.
Qed.
Lemma trim_decoded_ok published x keep w : Inv published x w -> wp (trim_decoded_cache keep) (steady published x w) w.
Proof.
  intros HI. unfold wp, trim_decoded_cache, change. cbn [fst snd]. pose proof (sort_by_perm older (w_decoded w)) as Hp.
  set (sorted := sort_by older (w_decoded w)) in *. pose proof (decoded_nonneg _ _ _ HI) as Hnn. rewrite <- Hp in Hnn.
  pose proof (zsum_perm (fun e => sc_bytes (de_chunk e)) _ _ Hp) as Hsum. fold (decoded_bytes sorted) (decoded_bytes (w_decoded w)) in Hsum.
  pose proof (decoded_total _ _ _ HI) as Htot. pose proof (inv_extra _ _ _ HI) as Hx.
  pose proof (drop_entries_ok (length sorted - keep) sorted (w_resident w) Hnn ltac:(lia)) as Hd. destruct (drop_entries _ _ _) as [l r]. destruct Hd as [[k ->] ->].
  split; [|by split]. apply (inv_decoded_change published x x w); [done|done| |lia]. apply Forall_drop. rewrite Hp. apply (inv_decoded _ _ _ HI).
Qed.

(** ** Spilling a chunk *)

Lemma file_after f record r f' : file_append f record = (r, f') -> (0 <= next_offset f)%Z ->
  (forall offset len, 0 <= offset -> offset + len <= next_offset f -> file_read f' offset len = file_read f offset len)%Z
  /\ (next_offset f <= next_offset f')%Z
  /\ (forall offset len, r = inr (offset, len) -> (Z.of_nat (length record) < 2 ^ 32)%Z ->
        (0 <= offset /\ 0 <= len /\ offset + len <= next_offset f')%Z /\ file_read f' offset len = inr record).
Proof.
  unfold file_append. destruct (write_at (sf_medium f) (next_offset f) record) as [failure m] eqn:Ew. intros Hf Hn.
  assert (Hm : m = (write_at (sf_medium f) (next_offset f) record).2) by (by rewrite Ew).
  assert (Hread : forall offset len, (0 <= offset -> offset + len <= next_offset f -> read_at m offset len = read_at (sf_medium f) offset len)%Z).
  { intros offset len H1' H2'. rewrite Hm. by apply read_before. }
  destruct failure as [e|]; injection Hf as <- <-; (split; [|split]); try discriminate; try (cbn; lia); try (intros offset len H1' H2'; unfold file_read; cbn; by rewrite Hread).
  intros offset len [= <- <-] Hl. rewrite Z.mod_small by lia. split; [cbn; lia|]. unfold file_read. cbn [sf_medium].
  rewrite Hm, read_written; [done|]. by rewrite Ew.
Qed.
Definition same_key (a b : option SpillCipher) : Prop :=
  match a, b with Some k, Some l => ci_key k = ci_key l /\ ci_domain k = ci_domain l | None, None => True | _, _ => False end.
Lemma opens_same_key a b id index nonce record c : same_key a b -> opens_as a id index nonce record c -> opens_as b id index nonce record c.
Proof.
  intros Hk (k & plain & -> & Ho & Hd). destruct b as [l|]; [|done]. destruct Hk as [Hk Hdom]. exists l, plain. split_and!; [done| |done].
  unfold cipher_open in *. by rewrite <- Hk, <- Hdom.
Qed.
(** The file of a store, with what the spilled chunks read of it. *)
Definition file_extends (a b : option SpillFile) : Prop :=
  forall f, a = Some f -> exists f', b = Some f' /\ (next_offset f <= next_offset f')%Z
    /\ forall offset len, (0 <= offset -> offset + len <= next_offset f -> file_read f' offset len = file_read f offset len)%Z.
Lemma file_extends_refl a : file_extends a a.
Proof. intros f ->. exists f. split_and!; [done|lia|done]. Qed.
Lemma entry_moves a b fa fb id index e c : same_key a b -> file_extends fa fb -> entry_holds a fa id index e c -> entry_holds b fb id index e c.
Proof.
  intros Hk Hf. unfold entry_holds. destruct (ce_residency e) as [chunk|offset len nonce size]; [done|].
  intros (f & record & Hfa & Ho & Hl & Hb & Hr & Hopen). destruct (Hf f Hfa) as (f' & -> & Hn & Hread). exists f', record.
  split_and!; [done|done|done|lia|by rewrite Hread|by eapply opens_same_key].
Qed.
Lemma store_moves a b id s l f : same_key a b -> file_extends (st_spill s) f -> (forall g, f = Some g -> (0 <= next_offset g)%Z) ->
  store_holds a id s l -> store_holds b id (set_spill f s) l.
Proof.
  intros Hk Hf Hn [Hlen Hrel He Hfile]. split; [exact Hlen|exact Hrel| |exact Hn].
  intros i e Hi. destruct (He i e Hi) as (c & Hc & Hh). exists c. split; [done|]. by eapply entry_moves.
Qed.
Lemma inv_cipher published x w k : same_key (w_cipher w) k -> Inv published x w -> Inv published x (set_cipher k w).
Proof.
  intros Hk [Ht Hx Hh Hs Hd Hg]. split; try done. wsimp. intros id s Hid. pose proof (Hs id s Hid) as Hst.
  assert (s = set_spill (st_spill s) s) as -> by (by destruct s). eapply store_moves; [done|apply file_extends_refl| |done]. apply Hst.
Qed.
Lemma frame_put w id s s' : w_stores w !! id = Some s -> shape s' = shape s -> Frame w (put_store id s' w).
Proof.
  intros Hs Hsh. split; try done. intros i. wsimp. destruct (decide (i = id)) as [->|Hne]; [|by rewrite lookup_insert_ne].
  rewrite lookup_insert_eq, Hs. cbn. by rewrite Hsh.
Qed.
(** A store put in place of one of the same shape. *)
Lemma inv_put published x y w id s s' : Inv published x w -> w_stores w !! id = Some s -> store_holds (w_cipher w) id s' (published id) ->
  (store_bytes s' = store_bytes s + x - y)%Z -> (0 <= y)%Z -> Inv published y (put_store id s' w).
Proof.
  intros [Ht Hx Hh Hs Hd Hg] Hid Hst Hb Hy. split; try done.
  - unfold accounted in *. wsimp. rewrite (gsum_replace _ _ _ _ s' Hid). lia.
  - wsimp. intros i t Hi. destruct (decide (i = id)) as [->|Hne]; [rewrite lookup_insert_eq in Hi; by injection Hi as <-|].
    rewrite lookup_insert_ne in Hi by done. by apply Hs.
Qed.
Lemma spilled_store k file id index nonce offset len s l entry chunk record plain : store_holds k id (set_spill (Some file) s) l ->
  st_chunks s !! index = Some entry -> ce_residency entry = Resident chunk -> l !! index = Some chunk ->
  (0 <= offset /\ 0 <= len /\ offset + len <= next_offset file)%Z -> file_read file offset len = inr record ->
  (exists c, k = Some c /\ cipher_open c id (Z.of_nat index) nonce record = inr plain) ->
  decode_record plain = inr (MkDecoded (sc_batch chunk) (sc_flags chunk) (sc_encodings chunk)) ->
  store_holds k id (set_chunks (alter (spill_entry offset len nonce chunk) index) (set_spill (Some file) s)) l.
Proof.
  intros [Hlen Hrel He Hfile] Hentry Hres Hl Hb Hread (c & Hk & Hopen) Hdec. split.
  - intros Hp. cbn in *. rewrite length_alter. by apply Hlen.
  - intros Hp. cbn in *. rewrite (Hrel Hp) in Hentry. by rewrite lookup_nil in Hentry.
  - intros i e. cbn [st_chunks set_chunks set_spill st_spill]. destruct (decide (i = index)) as [->|Hne].
    + rewrite list_lookup_alter_eq, Hentry. intros [= <-]. exists chunk. split; [done|]. unfold entry_holds. cbn. exists file, record.
      split_and!; try done; try lia. by exists c, plain.
    + rewrite list_lookup_alter_ne by done. intros Hi. by apply He.
  - exact Hfile.
Qed.
Lemma spilled_bytes offset len nonce chunk index s file entry : st_chunks s !! index = Some entry -> ce_residency entry = Resident chunk ->
  store_bytes (set_chunks (alter (spill_entry offset len nonce chunk) index) (set_spill file s)) = (store_bytes s - sc_bytes chunk)%Z.
Proof.
  intros He Hr. unfold store_bytes. cbn [st_chunks set_chunks set_spill]. rewrite (zsum_alter _ _ _ _ _ He). unfold entry_bytes at 2 3. rewrite Hr. cbn. lia.
Qed.
Lemma spilled_shape offset len nonce chunk index s file : shape (set_chunks (alter (spill_entry offset len nonce chunk) index) (set_spill file s)) = shape s.
Proof.
  unfold shape. cbn. do 6 f_equal. apply list_eq. intros i. rewrite !list_lookup_fmap. destruct (decide (i = index)) as [->|Hne].
  - rewrite list_lookup_alter_eq. by destruct (_ !! index).
  - by rewrite list_lookup_alter_ne.
Qed.

Lemma steady_refl {A} published x w (r : StoreError + A) : Inv published x w -> steady published x w r w.
Proof. intros HI. by split. Qed.
Lemma spill_file_ok published x w id s f : Inv published x w -> w_stores w !! id = Some s -> spill_file id s w = inr (Some f) ->
  file_extends (st_spill s) (Some f) /\ (0 <= next_offset f)%Z.
Proof.
  intros HI Hs. unfold spill_file. pose proof (inv_stores _ _ _ HI id s Hs) as Hst. destruct (st_spill s) as [g|] eqn:Eg.
  - intros [= <-]. split; [apply file_extends_refl|]. by apply (holds_file _ _ _ _ Hst).
  - destruct (spill_dir _); [|discriminate]. destruct (spill_create _ _ _); [discriminate|]. intros [= <-]. split; [|cbn; lia]. by intros g.
Qed.
Lemma seal_key k id index plain : same_key (Some k) (Some (cipher_seal k id index plain).2).
Proof. unfold cipher_seal. destruct (_ =? _)%Z; [by split|]. by destruct (aead_seal _ _ _ _) as [[? ?]|]. Qed.
Lemma spill_one_ok published x id index w : Inv published x w -> wp (spill_one id index) (steady published x w) w.
Proof.
  intros HI. unfold wp, spill_one. destruct (w_stores w !! id) as [s|] eqn:Hs; [|by apply steady_refl].
  destruct (st_chunks s !! index) as [entry|] eqn:He; [|by apply steady_refl].
  destruct (ce_residency entry) as [chunk|] eqn:Hr; [|by apply steady_refl]. destruct (pinned id index w); [by apply steady_refl|].
  destruct (w_cipher w) as [k|] eqn:Hk; [|by apply steady_refl].
  pose proof (inv_stores _ _ _ HI id s Hs) as Hst. destruct (holds_entry _ _ _ _ Hst index entry He) as (c & Hc & Hh).
  unfold entry_holds in Hh. rewrite Hr in Hh. subst c. pose proof (good_at _ _ _ _ _ _ HI Hc) as Hgood.
  destruct (encode_record (sc_batch chunk) (sc_flags chunk)) as [|plain] eqn:Henc; [by apply steady_refl|].
  pose proof (seal_key k id (Z.of_nat index) plain) as Hkey. destruct (cipher_seal k id (Z.of_nat index) plain) as [sealed k'] eqn:Hseal. cbn [snd] in Hkey.
  assert (HI' : Inv published x (set_cipher (Some k') w)) by (apply inv_cipher; [by rewrite Hk|done]).
  assert (Hfr : Frame w (set_cipher (Some k') w)) by (by split). cbv zeta.
  destruct sealed as [|[nonce record]]; [by split|]. destruct (decide (st_phase s = PhReleased)) as [|Hp]; [by split|].
  destruct (spill_file id s (set_cipher (Some k') w)) as [|[f|]] eqn:Hf; [by split| |by split].
  destruct (spill_file_ok published x _ id s f HI' Hs Hf) as [Hext Hn]. destruct (file_append f record) as [written f'] eqn:Happ.
  destruct (file_after f record written f' Happ Hn) as (Hread & Hmono & Hwritten).
  assert (Hext' : file_extends (st_spill s) (Some f')).
  { intros g Hg. destruct (Hext g Hg) as (g' & [= <-] & Hgn & Hgr). exists f'. split_and!; [done|lia|]. intros offset len H1' H2'. rewrite Hread by lia. by apply Hgr. }
  assert (Hst' : store_holds (Some k') id (set_spill (Some f') s) (published id)).
  { eapply store_moves; [|exact Hext'| |exact Hst]; [by rewrite Hk|]. intros g [= <-]. lia. }
  destruct written as [e|[offset len]].
  - split; [|etransitivity; [exact Hfr|]; by apply (frame_put _ id s)]. apply (inv_put published x x _ id s _ HI' Hs Hst'); [|apply (inv_extra _ _ _ HI)].
    unfold store_bytes. cbn [st_chunks set_spill]. lia.
  - destruct (good_record _ Hgood plain Henc) as [Hsize Hdec].
    assert (Hlen : (Z.of_nat (length record) < 2 ^ 32)%Z).
    { unfold cipher_seal in Hseal. destruct (_ =? _)%Z; [discriminate|]. destruct (aead_seal _ _ _ plain) as [[text tag]|] eqn:Ea; [|discriminate].
      injection Hseal as _ <- _. destruct (aead_length _ _ _ _ _ _ Ea) as [E1 E2]. rewrite length_app, E1, E2. lia. }
    destruct (Hwritten offset len eq_refl Hlen) as [Hb Hrec].
    set (s' := set_chunks (alter (spill_entry offset len nonce chunk) index) (set_spill (Some f') s)).
    assert (Hst2 : store_holds (Some k') id s' (published id)).
    { eapply (spilled_store (Some k') f' id index nonce offset len s (published id) entry chunk record plain); try done.
      exists k'. split; [done|]. eapply cipher_opens; eassumption. }
    pose proof (good_size _ Hgood) as Hnn. pose proof (inv_extra _ _ _ HI) as Hx.
    assert (HI2 : Inv published (x + sc_bytes chunk) (put_store id s' (set_cipher (Some k') w))).
    { apply (inv_put published x _ _ id s s' HI' Hs Hst2); [|lia]. unfold s'. rewrite (spilled_bytes _ _ _ _ _ _ _ entry He Hr). lia. }
    pose proof (uncharge_ok published x (sc_bytes chunk) _ Hx Hnn HI2) as Hu. unfold wp in Hu.
    destruct (uncharge (sc_bytes chunk) _) as [r w2]. destruct Hu as [Hu1 Hu2]. split; [exact Hu1|].
    etransitivity; [exact Hfr|]. etransitivity; [|exact Hu2]. apply (frame_put _ id s); [done|]. apply spilled_shape.
Qed.
Lemma steady_trans {A C} published x w w1 (r : StoreError + A) (r2 : StoreError + C) w2 :
  steady published x w r w1 -> steady published x w1 r2 w2 -> steady published x w r2 w2.
Proof. intros [_ F1] [HI F2]. split; [done|]. by etransitivity. Qed.
(** Sequencing of operations that keep the invariant. *)
Lemma steady_bind {A C} published x (m : M A) (f : A -> M C) w : wp m (steady published x w) w ->
  (forall a w', Inv published x w' -> wp (f a) (steady published x w') w') -> wp (m ≫= f) (steady published x w) w.
Proof.
  intros Hm Hf. apply wp_bind. eapply wp_mono; [|exact Hm]. intros [e|a] w' Hs; [exact Hs|].
  eapply wp_mono; [|apply Hf, Hs]. intros r w2. intros Hs2. exact (steady_trans published x w w' (inr a) r w2 Hs Hs2).
Qed.
Lemma steady_ask {A} published x (f : World -> A) w : Inv published x w -> wp (ask f) (steady published x w) w.
Proof. intros HI. by split. Qed.
Lemma steady_ret {A} published x (a : A) w : Inv published x w -> wp (mret a) (steady published x w) w.
Proof. intros HI. by split. Qed.
Lemma steady_fail {A} published x e w : Inv published x w -> wp (fail_with (A:=A) e) (steady published x w) w.
Proof. intros HI. by split. Qed.
Lemma steady_attempt {A} published x (m : M A) w : wp m (steady published x w) w -> wp (attempt m) (steady published x w) w.
Proof. intros Hm. by apply wp_attempt. Qed.

(** ** Eviction and charging *)

Lemma evict_loop_ok published x target l : forall first w, Inv published x w -> wp (evict_loop target l first) (steady published x w) w.
Proof.
  induction l as [|[[id index] access] l IH]; intros first w HI; cbn [evict_loop]; [destruct first; [by apply steady_fail|by apply steady_ret]|].
  apply steady_bind; [by apply steady_ask|]. intros enough w1 HI1. destruct enough; [by apply steady_ret|].
  apply steady_bind; [by apply steady_attempt, spill_one_ok|]. intros spilled w2 HI2. by apply IH.
Qed.
Lemma evict_until_ok published x target w : Inv published x w -> wp (evict_until target) (steady published x w) w.
Proof.
  intros HI. unfold evict_until. apply steady_bind; [by apply steady_ask|]. intros cap w1 HI1.
  apply steady_bind; [by apply trim_decoded_ok|]. intros [] w2 HI2. apply steady_bind; [by apply steady_ask|]. intros l w3 HI3. by apply evict_loop_ok.
Qed.
Lemma evict_to_low_ok published x w : Inv published x w -> wp evict_to_low (steady published x w) w.
Proof. intros HI. unfold evict_to_low. apply steady_bind; [by apply steady_ask|]. intros low w1 HI1. by apply evict_until_ok. Qed.
(** A charge is held by the caller where it is granted, and nowhere where it is not. *)
Definition charged {A} (published : Published) (x size : Z) (w : World) (r : StoreError + A) (w' : World) : Prop :=
  Frame w w' /\ match r with
                | inr _ => Inv published (x + size) w' /\ (w_resident w' <= budget_bytes (w_config w'))%Z
                | inl _ => Inv published x w'
                end.
Lemma charged_ret published x size w w' : Frame w w' -> Inv published (x + size) w' -> (w_resident w' <= budget_bytes (w_config w'))%Z ->
  wp (mret tt) (charged published x size w) w'.
Proof. by split. Qed.
Lemma make_room_ok published x size w : (0 <= x)%Z -> (0 <= size)%Z -> Inv published (x + size) w -> wp (make_room size) (charged published x size w) w.
Proof.
  intros Hx Hs HI. unfold make_room. apply wp_bind. unfold wp at 1, ask. cbn [fst snd]. apply wp_bind, wp_attempt.
  eapply wp_mono; [|apply (evict_until_ok published (x + size)); exact HI]. intros evicted w1 [HI1 F1].
  assert (Hgive : forall e, wp (_ ← uncharge size; fail_with e) (charged (A:=unit) published x size w) w1).
  { intros e. apply wp_bind. eapply wp_mono; [|by apply (uncharge_ok published x size)]. intros r w2 [HI2 F2].
    assert (charged (A:=unit) published x size w (inl e) w2) by (split; [by etransitivity|done]). destruct r; [by split; [etransitivity|]|done]. }
  destruct evicted as [e|[]]; [apply Hgive|]. apply wp_bind. unfold wp at 1, over_budget, ask. cbn [fst snd].
  destruct (budget_bytes (w_config w1) <? w_resident w1)%Z eqn:Eb.
  - apply wp_bind. unfold wp at 1. cbn [fst snd]. apply Hgive.
  - apply charged_ret; [done|done|lia].
Qed.
Lemma charge_ok published x size origin w : (0 <= size)%Z -> Inv published x w -> wp (charge size origin) (charged published x size w) w.
Proof.
  intros Hs HI. pose proof (inv_extra _ _ _ HI) as Hx. unfold charge. apply wp_bind. unfold wp at 1, change. cbn [fst snd].
  set (w1 := set_resident (w_resident w + size) w).
  assert (HI1 : Inv published (x + size) w1).
  { destruct HI as [Ht _ Hh Hst Hd Hg]. split; try done; [|lia]. unfold w1, accounted in *. wsimp. lia. }
  assert (F1 : Frame w w1) by (by split). apply wp_bind. unfold wp at 1, over_budget, ask. cbn [fst snd].
  destruct (budget_bytes (w_config w1) <? w_resident w1)%Z eqn:Eb; cbn [negb]; [|apply charged_ret; [done|done|lia]].
  assert (Hroom : forall w2, Frame w w2 -> Inv published (x + size) w2 -> wp (make_room size) (charged published x size w) w2).
  { intros w2 F2 HI2. eapply wp_mono; [|by apply (make_room_ok published x size)]. intros r w3 [F3 Hr]. split; [by etransitivity|done]. }
  destruct origin; [by apply Hroom|by apply Hroom|]. apply wp_bind.
  pose proof (trim_decoded_ok published (x + size) 0 w1 HI1) as [HI2 F2]. unfold wp at 1.
  change (trim_decoded_cache 0 w1).1 with (inr tt : StoreError + unit). set (w2 := (trim_decoded_cache 0 w1).2) in *.
  assert (F3 : Frame w w2) by (by etransitivity). apply wp_bind. unfold wp at 1, over_budget, ask. cbn [fst snd].
  destruct (budget_bytes (w_config w2) <? w_resident w2)%Z eqn:Eb2; cbn [negb]; [by apply Hroom|]. apply charged_ret; [done|done|lia].
Qed.

(** ** The cache *)

Lemma cache_trim_ok cap budget l : forall r, Forall (fun e => 0 <= sc_bytes (de_chunk e))%Z l -> (decoded_bytes l <= r)%Z ->
  let '(l', r') := cache_trim cap budget l r in
  (exists k, l' = drop k l) /\ (r' = r - decoded_bytes l + decoded_bytes l')%Z /\ length l' <= cap /\ (l' <> [] -> r' <= budget)%Z.
Proof.
  induction l as [|e l IH]; intros r Hl Hr; cbn [cache_trim].
  - split_and!; [by exists 0|lia|cbn; lia|done].
  - pose proof Hl as Hl0. apply Forall_cons in Hl as [He Hl]. pose proof (decoded_bytes_nonneg l Hl). rewrite decoded_bytes_cons in Hr.
    destruct ((cap <? length (e :: l)) || (budget <? r)%Z) eqn:Eb.
    + specialize (IH (Z.max 0 (r - sc_bytes (de_chunk e)))%Z Hl ltac:(lia)). destruct (cache_trim _ _ l _) as [l' r']. destruct IH as ([k ->] & Hr' & Hlen & Hb).
      split_and!; [by exists (S k)|rewrite decoded_bytes_cons; lia|done|done].
    + apply orb_false_iff in Eb as [E1%Nat.ltb_ge E2%Z.ltb_ge]. split_and!; [by exists 0|lia|done|done].
Qed.
Lemma remove_entry_ok id index l e l' : remove_entry id index l = Some (e, l') -> Permutation l (e :: l').
Proof.
  revert l'; induction l as [|x l IH]; intros l' Hr; [done|]. cbn in Hr. destruct (is_entry id index x); [by injection Hr as <- <-|].
  destruct (remove_entry id index l) as [[y k]|]; [|done]. injection Hr as <- <-. rewrite (IH k eq_refl). apply perm_swap.
Qed.
Definition decoded_ok (published : Published) (l : list DecodedEntry) : Prop := Forall (fun e => published (de_id e) !! de_index e = Some (de_chunk e)) l.
Lemma decoded_ok_nonneg published x w l : Inv published x w -> decoded_ok published l -> Forall (fun e => 0 <= sc_bytes (de_chunk e))%Z l.
Proof.
  intros HI Hl. eapply Forall_impl; [exact Hl|]. intros e He. apply good_size. eapply (good_at _ _ _ _ _ _ HI), He.
Qed.
Lemma cache_add_ok published x id index chunk now w : (0 <= x)%Z -> published id !! index = Some chunk -> Inv published (x + sc_bytes chunk) w ->
  wp (cache_add id index chunk now) (steady published x w) w.
Proof.
  intros Hx Hc HI. pose proof (decoded_total _ _ _ HI) as Htot. pose proof (good_size _ (good_at _ _ _ _ _ _ HI Hc)) as Hcs.
  pose proof (inv_decoded _ _ _ HI) as Hd. unfold wp, cache_add, change. cbn [fst snd].
  set (start := match remove_entry id index (w_decoded w) with Some (old, l) => _ | None => _ end).
  assert (Hstart : decoded_ok published start.1 /\ (start.2 = w_resident w - decoded_bytes (w_decoded w) + decoded_bytes start.1)%Z).
  { subst start. destruct (remove_entry id index (w_decoded w)) as [[old l]|] eqn:Er; cbn [fst snd]; [|split; [done|lia]].
    apply remove_entry_ok in Er. pose proof (zsum_perm (fun e => sc_bytes (de_chunk e)) _ _ Er) as Hs. fold (decoded_bytes (w_decoded w)) (decoded_bytes (old :: l)) in Hs.
    rewrite decoded_bytes_cons in Hs. rewrite Er in Hd. apply Forall_cons in Hd as [Ho Hl]. split; [done|].
    pose proof (decoded_bytes_nonneg l (decoded_ok_nonneg _ _ _ _ HI Hl)). lia. }
  destruct start as [l r]. cbn [fst snd] in Hstart. destruct Hstart as [Hl ->]. set (added := l ++ [MkDecodedEntry id index chunk now]).
  pose proof (sort_by_perm older added) as Hp. set (sorted := sort_by older added) in *.
  assert (Hsok : decoded_ok published sorted) by (unfold decoded_ok; rewrite Hp; apply Forall_app; split; [done|by constructor]).
  assert (Hsum : decoded_bytes sorted = (decoded_bytes l + sc_bytes chunk)%Z).
  { unfold decoded_bytes. rewrite (zsum_perm _ _ _ Hp). unfold added. rewrite zsum_app. unfold zsum at 2. cbn. lia. }
  pose proof (cache_trim_ok (decoded_cache_chunks (w_config w)) (budget_bytes (w_config w)) sorted (w_resident w - decoded_bytes (w_decoded w) + decoded_bytes l)%Z
    (decoded_ok_nonneg _ _ _ _ HI Hsok) ltac:(lia)) as Ht.
  destruct (cache_trim _ _ _ _) as [l' r']. destruct Ht as ([k ->] & -> & _ & _). split; [|by split].
  apply (inv_decoded_change published (x + sc_bytes chunk) x w); [done|done|by apply Forall_drop|lia].
Qed.
Lemma tick_ok published x w : Inv published x w -> wp tick (steady published x w) w.
Proof. intros HI. split; [|by split]. destruct HI as [Ht Hx Hh Hs Hd Hg]. by split. Qed.
(** The chunk handed in is handed back, cached or not. *)
Definition gives {A} (published : Published) (x : Z) (P : A -> Prop) (w : World) (r : StoreError + A) (w' : World) : Prop :=
  steady published x w r w' /\ match r with inr a => P a | inl _ => True end.
Lemma gives_bind {A C} published x (P : C -> Prop) (m : M A) (f : A -> M C) w : wp m (steady published x w) w ->
  (forall a w', Inv published x w' -> wp (f a) (gives published x P w') w') -> wp (m ≫= f) (gives published x P w) w.
Proof.
  intros Hm Hf. apply wp_bind. eapply wp_mono; [|exact Hm]. intros [e|a] w' Hs; [by split|].
  eapply wp_mono; [|apply Hf, Hs]. intros r w2 [Hs2 Hr]. split; [|done]. exact (steady_trans published x w w' (inr a) r w2 Hs Hs2).
Qed.
Lemma gives_ret {A} published x (P : A -> Prop) a w : Inv published x w -> P a -> wp (mret a) (gives published x P w) w.
Proof. intros HI Ha. split; [by split|done]. Qed.
Lemma gives_fail {A} published x (P : A -> Prop) e w : Inv published x w -> wp (fail_with e) (gives published x P w) w.
Proof. intros HI. split; [by split|done]. Qed.
Lemma gives_from {A} published x (P : A -> Prop) (m : M A) w0 w : Frame w0 w -> wp m (gives published x P w) w -> wp m (gives published x P w0) w.
Proof. intros F. apply wp_mono. intros r w1 [[HI F2] Hr]. split; [|done]. split; [done|]. by etransitivity. Qed.
Lemma cache_decoded_ok published x id index chunk w : published id !! index = Some chunk -> Inv published x w ->
  wp (cache_decoded id index chunk) (gives published x (fun c => c = chunk) w) w.
Proof.
  intros Hc HI. pose proof (inv_extra _ _ _ HI) as Hx. pose proof (good_size _ (good_at _ _ _ _ _ _ HI Hc)) as Hcs.
  unfold cache_decoded. apply gives_bind; [by apply tick_ok|]. intros now w1 HI1. apply wp_bind, wp_attempt.
  eapply wp_mono; [|by apply (charge_ok published x)]. intros r w2 [F2 Hr]. destruct r as [e|[]].
  { apply (gives_from _ _ _ _ w1 w2); [done|]. by apply gives_ret. }
  destruct Hr as [HI2 Hb]. apply wp_bind. unfold wp at 1, over_budget, ask. cbn [fst snd].
  replace (budget_bytes (w_config w2) <? w_resident w2)%Z with false by lia. apply wp_bind. unfold wp at 1, mret, store_ret. cbn [fst snd].
  apply wp_bind. eapply wp_mono; [|by apply (cache_add_ok published x)]. intros r w3 [HI3 F3].
  assert (F : Frame w1 w3) by (by etransitivity). destruct r as [|[]]; [by split; [split|]|]. apply (gives_from _ _ _ _ w1 w3); [done|]. by apply gives_ret.
Qed.
Lemma touch_ok published id index now l : decoded_ok published l -> decoded_ok published (touch id index now l) /\ decoded_bytes (touch id index now l) = decoded_bytes l.
Proof.
  induction 1 as [|e l He Hl [IH1 IH2]]; [split; [constructor|done]|]. cbn [touch]. destruct (is_entry id index e); [split; [by constructor|done]|].
  split; [by constructor|]. by rewrite decoded_bytes_cons, IH2, decoded_bytes_cons.
Qed.
Lemma decoded_chunk_ok published x id index w : Inv published x w ->
  wp (decoded_chunk id index) (gives published x (fun o => match o with Some c => published id !! index = Some c | None => True end) w) w.
Proof.
  intros HI. unfold decoded_chunk. apply wp_bind. unfold wp at 1, ask. cbn [fst snd]. destruct (find _ _) as [e|] eqn:Ef; [|by apply gives_ret].
  apply find_some in Ef as [Hin Heq]. apply list_elem_of_In in Hin. unfold is_entry in Heq. apply andb_true_iff in Heq as [E1%Z.eqb_eq E2%Nat.eqb_eq].
  pose proof (inv_decoded _ _ _ HI) as Hd. rewrite Forall_forall in Hd. specialize (Hd e Hin). cbn beta in Hd. rewrite E1, E2 in Hd.
  apply gives_bind; [by apply tick_ok|]. intros now w1 HI1. apply gives_bind; [|intros [] w2 HI2; by apply gives_ret].
  unfold wp, change. cbn [fst snd]. pose proof (touch_ok published id index now (w_decoded w1) (inv_decoded _ _ _ HI1)) as [H1' H2'].
  pose proof (inv_extra _ _ _ HI1). split; [|by split].
  destruct HI1 as [Ht Hx Hh Hs Hdd Hg]. split; try done. unfold accounted in *. wsimp. rewrite H2'. done.
Qed.

(** ** Loading *)

Lemma load_spilled_ok published x id index offset len nonce s e size w : Inv published x w -> w_stores w !! id = Some s -> st_chunks s !! index = Some e ->
  ce_residency e = Spilled offset len nonce size ->
  wp (load_spilled id index offset len nonce) (gives published x (fun c => published id !! index = Some c) w) w.
Proof.
  intros HI Hs He Hr. destruct (holds_entry _ _ _ _ (inv_stores _ _ _ HI id s Hs) index e He) as (c & Hc & Hh). unfold entry_holds in Hh. rewrite Hr in Hh.
  destruct Hh as (f & record & Hf & Ho & Hl & Hb & Hread & k & plain & Hk & Hopen & Hdec).
  unfold load_spilled. apply wp_bind. unfold wp at 1, get_store. rewrite Hs. cbn [fst snd]. rewrite Hf, Hread. apply wp_bind. unfold wp at 1, ask. cbn [fst snd].
  rewrite Hk, Hopen, Hdec. cbn [dr_batch dr_flags dr_encodings]. rewrite <- (good_bytes _ (good_at _ _ _ _ _ _ HI Hc)).
  replace (MkChunk (sc_batch c) (sc_encodings c) (sc_flags c) (sc_bytes c)) with c by (by destruct c).
  eapply wp_mono; [|by apply (cache_decoded_ok published x)]. intros r w' [Hst Hr']. split; [done|]. destruct r; [done|]. by subst.
Qed.

(** A chunk published under an index, of a store that is not released. *)
Lemma accessed_store k file id index now s l : store_holds k id s l -> st_spill s = file ->
  store_holds k id (set_chunks (alter (set_access now) index) s) l.
Proof.
  intros [Hlen Hrel He Hf] <-. split; cbn [st_phase st_chunks st_spill set_chunks].
  - intros Hp. rewrite length_alter. by apply Hlen.
  - intros Hp. rewrite (Hrel Hp). done.
  - intros i e. destruct (decide (i = index)) as [->|Hne]; [|rewrite list_lookup_alter_ne by done; by apply He].
    rewrite list_lookup_alter_eq. destruct (st_chunks s !! index) as [e'|] eqn:E; [|done]. intros [= <-]. destruct (He index e' E) as (c & Hc & Hh). by exists c.
  - exact Hf.
Qed.
Lemma accessed_bytes now index s : store_bytes (set_chunks (alter (set_access now) index) s) = store_bytes s.
Proof.
  unfold store_bytes. cbn [st_chunks set_chunks]. destruct (st_chunks s !! index) as [e|] eqn:E.
  - rewrite (zsum_alter _ _ _ _ _ E). unfold entry_bytes. cbn. lia.
  - f_equal. apply list_eq. intros i. destruct (decide (i = index)) as [->|Hne]; [by rewrite list_lookup_alter_eq, E|by rewrite list_lookup_alter_ne].
Qed.
Lemma accessed_shape now index s : shape (set_chunks (alter (set_access now) index) s) = shape s.
Proof.
  unfold shape. cbn. do 6 f_equal. apply list_eq. intros i. rewrite !list_lookup_fmap. destruct (decide (i = index)) as [->|Hne].
  - rewrite list_lookup_alter_eq. by destruct (_ !! index).
  - by rewrite list_lookup_alter_ne.
Qed.
Lemma change_store_put id f w s : w_stores w !! id = Some s -> (change_store id f w).2 = put_store id (f s) w.
Proof.
  intros Hs. unfold change_store, change, put_store. cbn [snd]. f_equal. apply map_eq. intros i. destruct (decide (i = id)) as [->|Hne].
  - by rewrite lookup_alter_eq, Hs, lookup_insert_eq.
  - by rewrite lookup_alter_ne, lookup_insert_ne.
Qed.
Lemma decoded_chunk_miss id index w : (exists c, (decoded_chunk id index w).1 = inr (Some c)) \/ decoded_chunk id index w = (inr None, w).
Proof. unfold decoded_chunk, mbind, store_bind, ask. destruct (find _ _); [left; by eexists|by right]. Qed.
Lemma load_chunk_ok published x id index w : Inv published x w ->
  wp (load_chunk id index) (gives published x (fun c => published id !! index = Some c) w) w.
Proof.
  intros HI. unfold load_chunk. apply wp_bind. unfold wp at 1, get_store. destruct (w_stores w !! id) as [s|] eqn:Hs; cbn [fst snd]; [|by split; [split|]].
  destruct (st_chunks s !! index) as [e|] eqn:He; [|by apply gives_fail].
  destruct (holds_entry _ _ _ _ (inv_stores _ _ _ HI id s Hs) index e He) as (c & Hc & Hh).
  apply wp_bind. unfold wp at 1, tick. cbn [fst snd]. set (w1 := set_clock _ w).
  assert (HI1 : Inv published x w1) by (destruct HI; by split). assert (F1 : Frame w w1) by (by split).
  assert (Hs1 : w_stores w1 !! id = Some s) by done. apply wp_bind. unfold wp at 1. change (change_store ?a ?b w1).1 with (inr tt : StoreError + unit).
  rewrite (change_store_put id _ w1 s Hs1). set (s1 := set_chunks (alter (set_access (w_clock w)) index) s). set (w2 := put_store id s1 w1).
  assert (HI2 : Inv published x w2).
  { apply (inv_put published x x w1 id s s1 HI1 Hs1); [|unfold s1; rewrite accessed_bytes; lia|apply (inv_extra _ _ _ HI)].
    apply (accessed_store _ (st_spill s)); [|done]. apply (inv_stores _ _ _ HI1 id s Hs1). }
  assert (F2 : Frame w w2) by (etransitivity; [exact F1|]; by apply (frame_put _ id s); [|apply accessed_shape]).
  apply (gives_from _ _ _ _ w w2 F2). destruct (ce_residency e) as [chunk|offset len nonce size] eqn:Hr.
  - unfold entry_holds in Hh. rewrite Hr in Hh. subst c. apply gives_bind; [|intros [] w3 HI3; by apply gives_ret].
    split; [|by split]. unfold pin, change. cbn [snd]. destruct HI2. by split.
  - pose proof (decoded_chunk_ok published x id index w2 HI2) as Hd. unfold wp in Hd.
    destruct (decoded_chunk_miss id index w2) as [[hit Hhit]|Hmiss]; apply wp_bind; unfold wp at 1.
    + destruct (decoded_chunk id index w2) as [r w3]. cbn [fst snd] in *. subst r. destruct Hd as [[HI3 F3] Hr3].
      apply (gives_from _ _ _ _ w2 w3 F3). by apply gives_ret.
    + rewrite Hmiss. cbn [fst snd]. apply (load_spilled_ok published x id index offset len nonce s1 (set_access (w_clock w) e) size w2 HI2).
      * unfold w2, put_store. wsimp. apply lookup_insert_eq.
      * unfold s1. cbn [st_chunks set_chunks]. by rewrite list_lookup_alter_eq, He.
      * exact Hr.
Qed.

(** A chunk that is there is loaded: a cache that has no room for it only leaves it out. *)
Lemma bind_result {A C} (m : M A) (f : A -> M C) (r : StoreError + C) w : (exists a, (m w).1 = inr a /\ forall w', (f a w').1 = r) -> ((m ≫= f) w).1 = r.
Proof. unfold mbind, store_bind. intros (a & Hm & Hf). destruct (m w) as [r' w']. cbn in Hm. subst r'. apply Hf. Qed.
Lemma cache_decoded_gives id index chunk w : (cache_decoded id index chunk w).1 = inr chunk.
Proof.
  unfold cache_decoded. apply bind_result. exists (w_clock w). split; [done|]. intros w1. unfold mbind at 1, store_bind at 1, attempt at 1.
  destruct (charge (sc_bytes chunk) ODecodedCache w1) as [[e|[]] w2]; [done|]. apply bind_result. eexists. split; [done|]. intros w3.
  destruct (_ <? _)%Z.
  - unfold mbind at 1, store_bind at 1, attempt at 1. destruct (evict_to_low w3) as [[e|[]] w4]; apply bind_result; by exists tt.
  - apply bind_result. exists (inr tt). split; [done|]. intros w4. apply bind_result. exists tt. split; [|done].
    unfold cache_add, change. done.
Qed.
Lemma load_chunk_found published x id index w s e : Inv published x w -> w_stores w !! id = Some s -> st_chunks s !! index = Some e ->
  exists c, (load_chunk id index w).1 = inr c.
Proof.
  intros HI Hs He. destruct (holds_entry _ _ _ _ (inv_stores _ _ _ HI id s Hs) index e He) as (c & Hc & Hh). unfold entry_holds in Hh.
  unfold load_chunk, mbind at 1, store_bind at 1, get_store at 1. rewrite Hs, He. cbn zeta. unfold mbind at 1, store_bind at 1, tick at 1. cbn [fst snd].
  unfold mbind at 1, store_bind at 1, change_store at 1, change at 1. set (w1 := set_stores _ _).
  destruct (ce_residency e) as [chunk|offset len nonce size] eqn:Hr; [by exists chunk|].
  destruct Hh as (f & record & Hf & _ & _ & _ & Hread & k & plain & Hk & Hopen & Hdec).
  unfold mbind at 1, store_bind at 1. destruct (decoded_chunk_miss id index w1) as [[hit Hhit]|Hmiss].
  { destruct (decoded_chunk id index w1) as [r w2]. cbn [fst] in Hhit. subst r. by exists hit. }
  rewrite Hmiss. unfold load_spilled, mbind at 1, store_bind at 1, get_store at 1.
  assert (w_stores w1 !! id = Some (set_chunks (alter (set_access (w_clock w)) index) s)) as ->.
  { unfold w1. wsimp. by rewrite lookup_alter_eq, Hs. }
  cbn [st_spill set_chunks]. rewrite Hf, Hread. unfold mbind at 1, store_bind at 1, ask at 1. assert (w_cipher w1 = Some k) as -> by done.
  rewrite Hopen, Hdec. eexists. apply cache_decoded_gives.
Qed.

(** ** Reservations, stores made and released *)

(** What an operation that takes or gives back scratch leaves alone: the rows of the stores. *)
Record Looks (w w' : World) : Prop := {
  lk_next : w_next_id w' = w_next_id w;
  lk_shape : forall id, shape <$> w_stores w' !! id = shape <$> w_stores w !! id;
}.
#[export] Instance looks_preorder : PreOrder Looks.
Proof. split; [by split|]. intros a b c [] []. split; congruence. Qed.
Lemma frame_looks w w' : Frame w w' -> Looks w w'.
Proof. intros []. by split. Qed.
Definition keeps {A} (published : Published) (x : Z) (w : World) (r : StoreError + A) (w' : World) : Prop := Inv published x w' /\ Looks w w'.
Lemma steady_keeps {A} published x w (r : StoreError + A) w' : steady published x w r w' -> keeps published x w r w'.
Proof. intros [HI F]. split; [done|by apply frame_looks]. Qed.
Lemma zsum_remove n l : n ∈ l -> (zsum id (remove_one n l) = zsum id l - n)%Z.
Proof.
  induction l as [|m l IH]; intros Hin; [by apply not_elem_of_nil in Hin|]. cbn [remove_one]. destruct (Z.eqb_spec m n) as [->|Hne].
  - unfold zsum, id. cbn. lia.
  - apply elem_of_cons in Hin as [->|Hin]; [done|]. specialize (IH Hin). unfold zsum, id in *. cbn. lia.
Qed.
Lemma remove_in m n l : m ∈ remove_one n l -> m ∈ l.
Proof.
  induction l as [|k l IH]; [done|]. cbn. destruct (k =? n)%Z; [by right|]. intros [->|Hm]%elem_of_cons; [by left|right; by apply IH].
Qed.
(** Room made first when there is none. *)
Lemma room_ok published x (over : bool) w : Inv published x w -> wp (if over then evict_to_low else mret tt) (steady published x w) w.
Proof. intros HI. destruct over; [by apply evict_to_low_ok|by apply steady_ret]. Qed.
Lemma hold_inv published x n q w : (0 <= n)%Z -> Inv published x w ->
  Inv published x (set_query q (set_held (n :: w_held w) (set_resident (w_resident w + n) w))).
Proof.
  intros Hn [Ht Hx Hh Hst Hd Hg]. split; try done.
  - unfold accounted in *. wsimp. unfold zsum at 1. cbn [foldr]. fold (zsum id (w_held w)). unfold id at 1. lia.
  - wsimp. by constructor.
Qed.
Lemma reserve_ok published x size w : (0 <= size)%Z -> Inv published x w -> wp (reserve size) (keeps published x w) w.
Proof.
  intros Hs HI. unfold reserve. apply wp_bind. unfold wp at 1, past_budget, ask. cbn [fst snd].
  apply wp_bind. eapply wp_mono; [|by apply room_ok]. intros r w1 Hr. destruct r as [e|[]]; [by apply steady_keeps|]. destruct Hr as [HI1 F1].
  assert (L1 : Looks w w1) by by apply frame_looks.
  apply wp_bind. unfold wp at 1, past_budget, ask. cbn [fst snd]. destruct (_ <? _)%Z; apply wp_bind; unfold wp at 1; cbn [fst snd]; [by split|].
  split; [exact (hold_inv published x size (w_query w1) w1 Hs HI1)|]. etransitivity; [exact L1|by split].
Qed.
Lemma reserve_query_ok published x most w : (0 <= most)%Z -> (0 <= query_share_bytes (w_config w))%Z -> Inv published x w ->
  wp (reserve_query most) (keeps published x w) w.
Proof.
  intros Hm Hq HI. unfold reserve_query. apply wp_bind. unfold wp at 1, ask. cbn [fst snd]. apply wp_bind. unfold wp at 1, past_budget, ask. cbn [fst snd].
  apply wp_bind. eapply wp_mono; [|by apply room_ok]. intros r w1 Hr. destruct r as [e|[]]; [by apply steady_keeps|]. destruct Hr as [HI1 F1].
  assert (L1 : Looks w w1) by by apply frame_looks.
  apply wp_bind. unfold wp at 1, ask. cbn [fst snd]. destruct (_ <? _)%Z; [by split|]. apply wp_bind. unfold wp at 1. cbn [fst snd].
  split; [|etransitivity; [exact L1|by split]]. apply (hold_inv published x _ _ w1); [|done]. lia.
Qed.
Lemma drop_reservation_ok published x size w : Inv published x w -> size ∈ w_held w -> wp (drop_reservation size) (keeps published x w) w.
Proof.
  intros HI Hin. unfold drop_reservation. apply wp_bind. unfold wp at 1, change. cbn [fst snd].
  pose proof (inv_held _ _ _ HI) as Hh. rewrite Forall_forall in Hh. pose proof (Hh size Hin) as Hs. cbn beta in Hs. pose proof (inv_extra _ _ _ HI) as Hx.
  eapply wp_mono; [|apply (uncharge_ok published x size); [done|done|]].
  { intros r w' [HI' F']. split; [done|]. apply frame_looks in F'. etransitivity; [|exact F']. by split. }
  destruct HI as [Ht _ _ Hst Hd Hg]. split; try done; [|lia|].
  - unfold accounted in *. wsimp. rewrite zsum_remove by done. lia.
  - wsimp. apply Forall_forall. intros m Hm. by eapply Hh, remove_in.
Qed.
Lemma drop_lease_ok published x size w : Inv published x w -> size ∈ w_held w -> wp (drop_lease size) (keeps published x w) w.
Proof.
  intros HI Hin. unfold drop_lease. apply wp_bind. eapply wp_mono; [|by apply (drop_reservation_ok published x)]. intros r w1 [HI1 L1].
  destruct r as [e|[]]; [by split|]. split; [|etransitivity; [exact L1|by split]]. unfold change. cbn [snd]. destruct HI1. by split.
Qed.
Lemma create_ok published w x : Inv published x w -> w_stores w !! w_next_id w = None -> published (w_next_id w) = [] ->
  wp create (fun _ w' => Inv published x w') w.
Proof.
  intros HI Hfresh Hp. unfold wp, create. cbn [fst snd]. destruct HI as [Ht Hx Hh Hs Hd Hg]. split; try done; wsimp.
  - unfold accounted in *. wsimp. rewrite gsum_insert by done. unfold store_bytes at 1. cbn. lia.
  - intros i s. destruct (decide (i = w_next_id w)) as [->|Hne]; [|rewrite lookup_insert_ne by done; by apply Hs].
    rewrite lookup_insert_eq. intros [= <-]. rewrite Hp. split; [done|done| |done]. intros k e He. discriminate He.
Qed.

(** ** A store released *)

Lemma give_back_all {A} (f : A -> Z) (l : list A) : Forall (fun x => 0 <= f x)%Z l -> forall r, (zsum f l <= r)%Z ->
  foldl (fun r x => Z.max 0 (r - f x))%Z r l = (r - zsum f l)%Z.
Proof.
  induction 1 as [|x l Hx Hl IH]; intros r Hr; unfold zsum in *; cbn in *; [lia|]. pose proof (zsum_nonneg f l Hl). unfold zsum in *. rewrite IH; lia.
Qed.
Lemma partition_bytes id l : (decoded_bytes l = decoded_bytes (List.filter (fun e => (de_id e =? id)%Z) l)
  + decoded_bytes (List.filter (fun e => negb (de_id e =? id)%Z) l))%Z.
Proof.
  induction l as [|e l IH]; [done|]. cbn [List.filter]. destruct (de_id e =? id)%Z; cbn [negb]; rewrite !decoded_bytes_cons; lia.
Qed.
Lemma purge_decoded_ok published x id w : Inv published x w -> wp (purge_decoded id) (steady published x w) w.
Proof.
  intros HI. unfold wp, purge_decoded, change. cbn [fst snd]. split; [|by split]. pose proof (decoded_total _ _ _ HI) as Htot. pose proof (inv_extra _ _ _ HI) as Hx.
  pose proof (decoded_nonneg _ _ _ HI) as Hnn. pose proof (partition_bytes id (w_decoded w)) as Hsum.
  assert (Hsub : forall p, Forall (fun e => 0 <= sc_bytes (de_chunk e))%Z (List.filter p (w_decoded w))).
  { intros p. rewrite List.Forall_forall in *. intros e [He _]%List.filter_In. by apply Hnn. }
  pose proof (decoded_bytes_nonneg _ (Hsub (fun e => (de_id e =? id)%Z))) as H1'. pose proof (decoded_bytes_nonneg _ (Hsub (fun e => negb (de_id e =? id)%Z))) as H2'.
  rewrite (give_back_all (fun e => sc_bytes (de_chunk e))) by (apply Hsub || (unfold decoded_bytes in *; lia)). fold (decoded_bytes (List.filter (fun e => (de_id e =? id)%Z) (w_decoded w))).
  apply (inv_decoded_change published x x); [done|done| |lia]. pose proof (inv_decoded _ _ _ HI) as Hd.
  rewrite List.Forall_forall in *. intros e [He _]%List.filter_In. by apply Hd.
Qed.
Lemma release_total published x w id s : Inv published x w -> w_stores w !! id = Some s ->
  foldl (fun r e => match ce_residency e with Resident chunk => Z.max 0 (r - sc_bytes chunk) | Spilled _ _ _ _ => r end) (w_resident w) (st_chunks s)
  = (w_resident w - store_bytes s)%Z.
Proof.
  intros HI Hs. assert (Hnn : Forall (fun e => 0 <= entry_bytes e)%Z (st_chunks s)).
  { apply Forall_lookup. intros i e He. by eapply (entry_bytes_nonneg _ _ _ _ _ _ _ HI). }
  assert (Hle : (store_bytes s <= w_resident w)%Z).
  { pose proof (decoded_bytes_nonneg _ (decoded_nonneg _ _ _ HI)). pose proof (held_nonneg _ _ _ HI). pose proof (inv_extra _ _ _ HI).
    rewrite (inv_total _ _ _ HI). unfold accounted. rewrite <- (insert_id _ _ _ Hs), <- insert_delete_eq, gsum_insert by apply lookup_delete_eq.
    assert (0 <= gsum store_bytes (delete id (w_stores w)))%Z; [|lia]. apply gsum_nonneg. intros i u Hi. apply lookup_delete_Some in Hi as [_ Hi].
    by eapply (store_bytes_nonneg _ _ _ _ _ HI). }
  revert Hle. unfold store_bytes. generalize (w_resident w). induction Hnn as [|e l He Hl IH]; intros r Hr; [cbn in *; lia|].
  pose proof (zsum_nonneg _ _ Hl) as Hz. change (zsum entry_bytes (e :: l)) with (entry_bytes e + zsum entry_bytes l)%Z in *. cbn [foldl].
  assert (entry_bytes e = match ce_residency e with Resident chunk => sc_bytes chunk | Spilled _ _ _ _ => 0%Z end) as Eb by done.
  destruct (ce_residency e); rewrite Eb in *; rewrite IH; lia.
Qed.
Lemma release_ok published x w id s : Inv published x w -> w_stores w !! id = Some s -> 
  Inv published x (set_resident (w_resident w - store_bytes s) (put_store id (release_store s) w)).
Proof.
  intros HI Hs. pose proof HI as [Ht Hx Hh Hst Hd Hg]. split; try done.
  - unfold accounted in *. wsimp. rewrite (gsum_replace _ _ _ _ (release_store s) Hs). assert (store_bytes (release_store s) = 0%Z) as -> by done. lia.
  - wsimp. intros i u. destruct (decide (i = id)) as [->|Hne]; [|rewrite lookup_insert_ne by done; by apply Hst].
    rewrite lookup_insert_eq. intros [= <-]. split; [done|done| |done]. intros k e He. discriminate He.
Qed.
End Spec.
