(* ===== verification/Store.v ===== *)
(** * Store: one result's rows, written, read and viewed, [crates/qh-result-store/src/store.rs], with the
    width statistics of [crates/qh-result-store/src/render.rs].

    An operation names the store by its id in the [World] of [Registry]. A view's expansion that the
    code hands to a pool is a task of the world, run by [run_task] in its own turn. *)
From stdpp Require Import gmap.
From S2P Require Import Prelude Bytes Text Dates Value Names Batch Tagged Columnar Collate JsonCheck Chunk Spill View Registry.
#[local] Open Scope nat_scope.

(** The extended grapheme clusters of a text. *)
Class Graphemes := { graphemes : bytes -> list bytes }.
Definition HEAD_ROWS : Z := 200.
Inductive Outcome := OcComplete (truncated : bool) | OcCancelled | OcFailed (detail : bytes).

Section Store.
Context `{FloatBits} `{!FloatOps} `{!Arrow} `{!Unicode} `{!Normal} `{!Bitmaps} `{!Ipc} `{!Aead} `{!Medium} `{!SpillDir} `{!Graphemes}.

(** ** Width statistics *)

Definition grapheme_width (text : bytes) : Z := Z.of_nat (Nat.min 256 (length (graphemes text))).
Definition widths_observe (texts : list bytes) (columns : nat) (h : HeadWidths) : HeadWidths :=
  if (HEAD_ROWS <=? hw_rows h)%Z then h
  else
    let grown := pad columns 0%Z (hw_widths h) in
    let widths := imap (fun c w => if c <? columns then Z.max w (grapheme_width (default [] (texts !! c))) else w) grown in
    MkWidths widths (hw_rows h + 1) ((hw_rows h + 1 =? HEAD_ROWS)%Z || hw_done h).
Definition widths_snapshot (columns : nat) (h : HeadWidths) : list Z := pad columns 0%Z (hw_widths h).
Definition with_widths (h : HeadWidths) (seen : Z) (s : StoreShared) : StoreShared :=
  MkStore (st_columns s) (st_chunks s) (st_stats s) (st_rows s) (st_phase s) h seen (st_builder s) (st_spill s) (st_views s) (st_view s)
    (st_view_seq s) (st_truncated s).
Fixpoint feed_rows (rows : list nat) (width : nat) (text : nat -> nat -> bytes) (h : HeadWidths) (seen : Z) : HeadWidths * Z :=
  match rows with
  | [] => (h, seen)
  | row :: rows =>
      if (HEAD_ROWS <=? seen)%Z then (h, seen)
      else feed_rows rows width text (widths_observe (text row <$> seq 0 width) width h) (seen + 1)
  end.
Definition feed_head_widths (id : Z) (rows width : nat) (text : nat -> nat -> bytes) : M unit :=
  change_store id (fun s => let '(h, seen) := feed_rows (seq 0 rows) width text (st_widths s) (st_head_rows s) in with_widths h seen s).

(** ** Statistics *)

Definition merge_offset (a b : option Z) : option Z :=
  match a, b with None, o => o | Some f, Some n => if negb (f =? n)%Z then Some MIXED else Some f | Some f, None => Some f end.
Definition merge_one (into delta : ColumnStats) : ColumnStats :=
  if (cs_rows into =? 0)%Z then delta
  else
    MkStats (Z.lor (variants into) (variants delta)) (Z.max (max_scale into) (max_scale delta))
      (if negb (max_scale delta =? max_scale into)%Z then false else scale_uniform into)
      (merge_offset (cs_offset into) (cs_offset delta)) (has_naive_ts into || has_naive_ts delta) (overflow into || overflow delta)
      (cs_rows into + cs_rows delta).
Fixpoint merge_stats (accumulated deltas : list ColumnStats) : list ColumnStats :=
  match deltas, accumulated with
  | [], _ => accumulated
  | d :: deltas, a :: accumulated => merge_one a d :: merge_stats accumulated deltas
  | d :: deltas, [] => merge_one default_stats d :: merge_stats [] deltas
  end.

(** ** Writing *)

Definition check_writable (s : StoreShared) : option StoreError :=
  match st_phase s with
  | PhReleased => Some SeReleased
  | PhEmpty | PhStreaming => None
  | _ => Some (SeInvalidArgument (B "the result is already finished"))
  end.
Definition next_phase (current phase : Phase) : Phase :=
  if decide (current = PhReleased) then current
  else if phase_is_finished current && negb (phase_is_finished phase) then current
  else phase.
Definition with_phase (phase : Phase) (s : StoreShared) : StoreShared :=
  MkStore (st_columns s) (st_chunks s) (st_stats s) (st_rows s) (next_phase (st_phase s) phase) (st_widths s) (st_head_rows s) (st_builder s) (st_spill s)
    (st_views s) (st_view s) (st_view_seq s) (st_truncated s).
Definition with_builder (b : option ChunkBuilder) (s : StoreShared) : StoreShared :=
  MkStore (st_columns s) (st_chunks s) (st_stats s) (st_rows s) (st_phase s) (st_widths s) (st_head_rows s) b (st_spill s)
    (st_views s) (st_view s) (st_view_seq s) (st_truncated s).
Definition with_truncated (t : bool) (s : StoreShared) : StoreShared :=
  MkStore (st_columns s) (st_chunks s) (st_stats s) (st_rows s) (st_phase s) (st_widths s) (st_head_rows s) (st_builder s) (st_spill s)
    (st_views s) (st_view s) (st_view_seq s) t.
Definition begun (columns : list ColumnMeta) (s : StoreShared) : StoreShared :=
  let stats := match st_stats s with [] => replicate (length columns) default_stats | stats => stats end in
  MkStore columns (st_chunks s) stats (st_rows s) (st_phase s) (st_widths s) (st_head_rows s) (Some (builder_new (length columns))) (st_spill s)
    (st_views s) (st_view s) (st_view_seq s) (st_truncated s).
Definition begin_ (id : Z) (columns : list ColumnMeta) : M unit :=
  s ← get_store id;
  match check_writable s with
  | Some e => fail_with e
  | None =>
      match st_columns s with
      | _ :: _ =>
          if length (st_columns s) =? length columns then mret tt
          else fail_with (SeInvalidArgument (B "begin was already called with a different width"))
      | [] =>
          if length columns =? 0 then fail_with (SeInvalidArgument (B "a result needs at least one column"))
          else change_store id (begun columns)
      end
  end.
Definition add_chunk (e : ChunkEntry) (deltas : list ColumnStats) (s : StoreShared) : StoreShared :=
  MkStore (st_columns s) (st_chunks s ++ [e]) (merge_stats (st_stats s) deltas) (add_u32 (ce_first e) (ce_rows e)) (st_phase s) (st_widths s)
    (st_head_rows s) (st_builder s) (st_spill s) (st_views s) (st_view s) (st_view_seq s) (st_truncated s).
(** Charged first, so what does not fit the budget is not published. *)
Definition publish (id : Z) (sealed : SealedChunk) : M unit :=
  s ← get_store id;
  match seal_store_chunk sealed (st_columns s) with
  | inl e => fail_with e
  | inr (chunk, deltas) =>
      let rows := (Z.of_nat (rb_rows (sc_batch chunk)) mod 2 ^ 32)%Z in
      _ ← charge (sc_bytes chunk) OWriter;
      s ← get_store id;
      now ← tick;
      change_store id (add_chunk (MkEntry (st_rows s) rows (Resident chunk) now) deltas)
  end.
Fixpoint publish_all (id : Z) (sealed : list SealedChunk) : M unit :=
  match sealed with [] => mret tt | c :: sealed => _ ← publish id c; publish_all id sealed end.
Definition builder_error (e : ColumnarError) : StoreError := SeInternal (columnar_text e).
(** The rows staged one after another, a full builder sealed before the next. *)
Fixpoint stage_rows (width : nat) (batch : Batch) (rows : list nat) (b : ChunkBuilder) (sealed : list SealedChunk)
  : StoreError + (list SealedChunk * ChunkBuilder) :=
  match rows with
  | [] => inr (sealed, b)
  | row :: rows =>
      if builder_is_full b then
        match seal b with
        | inl e => inl (builder_error e)
        | inr c => stage_rows width batch rows (push_row batch row (builder_new width)) (sealed ++ [c])
        end
      else stage_rows width batch rows (push_row batch row b) sealed
  end.
(** The rows of a batch as the chunks one push publishes: none is left staged. *)
Definition stage_batch (width : nat) (batch : Batch) (b : ChunkBuilder) : StoreError + list SealedChunk :=
  match stage_rows width batch (seq 0 (batch_size batch)) b [] with
  | inl e => inl e
  | inr (sealed, b) =>
      if builder_is_empty b then inr sealed
      else match seal b with inl e => inl (builder_error e) | inr c => inr (sealed ++ [c]) end
  end.

(** ** The view's expansion *)

Definition set_view_of (vid : Z) (f : View -> View) (s : StoreShared) : StoreShared :=
  MkStore (st_columns s) (st_chunks s) (st_stats s) (st_rows s) (st_phase s) (st_widths s) (st_head_rows s) (st_builder s) (st_spill s)
    (alter f vid (st_views s)) (st_view s) (st_view_seq s) (st_truncated s).
Definition current_view (s : StoreShared) : option (Z * View) :=
  match st_view s with Some vid => match st_views s !! vid with Some v => Some (vid, v) | None => None end | None => None end.
Definition chunk_refs (s : StoreShared) : list ChunkRef := imap (fun i e => MkRef i (ce_first e) (ce_rows e)) (st_chunks s).
Definition visible_rows (s : StoreShared) : Z := match current_view s with Some (_, v) => v_len v | None => st_rows s end.
Definition view_id (s : StoreShared) : Z := match current_view s with Some (_, v) => v_id v | None => 0%Z end.
Definition set_tasks (f : list (Z * Z) -> list (Z * Z)) (w : World) : World :=
  MkWorld (w_config w) (w_cipher w) (w_live w) (w_next_id w) (w_resident w) (w_query w) (w_clock w) (w_decoded w) (w_stores w) (w_pins w) (f (w_tasks w)) (w_held w).
Definition maybe_expand_view (id : Z) : M unit :=
  s ← get_store id;
  match current_view s with
  | None => mret tt
  | Some (vid, v) =>
      if negb (v_expandable v) || v_cancel v then mret tt
      else if length (chunk_refs s) <=? v_scanned v then mret tt
      else if v_expanding v then mret tt
      else
        _ ← change_store id (set_view_of vid (set_expanding true));
        change (set_tasks (fun l => l ++ [(id, vid)]))
  end.
(** The chunks loaded one after another, each held while the next is. *)
Fixpoint load_all (id : Z) (refs : list ChunkRef) : M (list (ChunkRef * StoreChunk)) :=
  match refs with
  | [] => mret []
  | r :: refs =>
      chunk ← load_chunk id (cr_index r);
      l ← load_all id refs;
      mret ((r, chunk) :: l)
  end.
Definition expand_view (id vid : Z) : M unit := holding (
  s ← get_store id;
  match st_views s !! vid with
  | None => mret tt
  | Some v =>
      let refs := chunk_refs s in
      if length refs <=? v_scanned v then mret tt
      else
        loaded ← attempt (load_all id (drop (v_scanned v) refs));
        match loaded with
        | inl _ => change_store id (set_view_of vid view_cancel)
        | inr loaded =>
            if v_cancel v then mret tt
            else change_store id (set_view_of vid (fun v' => set_scanned (length refs) (append_rows (scan_chunks loaded (v_spec v)) v')))
        end
  end).
Definition expand_view_now (id : Z) : M unit :=
  s ← get_store id;
  match current_view s with
  | Some (vid, v) => if v_expandable v && negb (v_cancel v) then expand_view id vid else mret tt
  | None => mret tt
  end.
(** A task of the pool: one expansion, and another one when rows came meanwhile. *)
Definition run_task : M unit :=
  tasks ← ask w_tasks;
  match tasks with
  | [] => mret tt
  | (id, vid) :: tasks =>
      _ ← change (set_tasks (fun _ => tasks));
      _ ← expand_view id vid;
      _ ← change_store id (set_view_of vid (set_expanding false));
      s ← get_store id;
      match st_views s !! vid with
      | Some v => if v_scanned v <? length (chunk_refs s) then maybe_expand_view id else mret tt
      | None => mret tt
      end
  end.

(** ** Pushing and finishing *)

Definition push (id : Z) (batch : Batch) : M unit :=
  s ← get_store id;
  match check_writable s with
  | Some e => fail_with e
  | None =>
      let width := length (st_columns s) in
      if width =? 0 then fail_with (SeInvalidArgument (B "begin was not called before push"))
      else if negb (length batch =? width) then fail_with (SeColumnCount width (length batch))
      else
        _ ← change_store id (with_phase PhStreaming);
        match st_builder s with
        | None => fail_with (SeInternal (B "builder missing after begin"))
        | Some b =>
            _ ← change_store id (with_builder (Some (builder_new width)));
            match stage_batch width batch b with
            | inl e => fail_with e
            | inr sealed =>
                _ ← publish_all id sealed;
                _ ← feed_head_widths id (batch_size batch) width
                      (fun row column => match batch_value batch row column with Some v => cell_text v | None => [] end);
                maybe_expand_view id
            end
        end
  end.
(** The rows a sealed chunk holds are read for the widths; one that cannot be is empty. *)
Definition push_chunk (id : Z) (chunk : SealedChunk) : M unit :=
  s ← get_store id;
  match check_writable s with
  | Some e => fail_with e
  | None =>
      let width := length (st_columns s) in
      if width =? 0 then fail_with (SeInvalidArgument (B "begin was not called before push_chunk"))
      else if negb (length (rb_columns (sd_batch chunk)) =? width) then fail_with (SeColumnCount width (length (rb_columns (sd_batch chunk))))
      else
        _ ← change_store id (with_phase PhStreaming);
        _ ← publish id chunk;
        _ ← feed_head_widths id (Nat.min (rb_rows (sd_batch chunk)) 200) width
              (fun row column =>
                 match rb_columns (sd_batch chunk) !! column, sd_encodings chunk !! column with
                 | Some a, Some e => match value_at a e row with inr v => cell_text v | inl _ => [] end
                 | _, _ => []
                 end);
        maybe_expand_view id
  end.
Definition finish (id : Z) (outcome : Outcome) : M unit :=
  s ← get_store id;
  if decide (st_phase s = PhReleased) then fail_with SeReleased
  else
    _ ← change_store id (with_builder None);
    _ ← match st_builder s with
        | Some b => if builder_is_empty b then mret tt else match seal b with inl e => fail_with (builder_error e) | inr c => publish id c end
        | None => mret tt
        end;
    _ ← change_store id (match outcome with
                         | OcComplete truncated => fun s => with_phase PhComplete (with_truncated truncated s)
                         | OcCancelled => with_phase PhCancelled
                         | OcFailed _ => with_phase PhFailed
                         end);
    expand_view_now id.

(** ** Reading *)

(** [partition_point] on the entries, whose first rows only rise. *)
Fixpoint entries_up_to (row : Z) (l : list ChunkEntry) : nat :=
  match l with [] => 0 | e :: l => if (ce_first e <=? row)%Z then S (entries_up_to row l) else 0 end.
Definition chunk_for_row (row : Z) (s : StoreShared) : option ChunkRef :=
  match entries_up_to row (st_chunks s) with
  | O => None
  | S i => match st_chunks s !! i with Some e => Some (MkRef i (ce_first e) (ce_rows e)) | None => None end
  end.
Fixpoint row_cells (chunk : StoreChunk) (columns : list nat) (row width : nat) : StoreError + list Value :=
  match columns with
  | [] => inr []
  | column :: columns =>
      match rb_columns (sc_batch chunk) !! column with
      | None => inl (SeCorrupt (B "chunk is narrower than the declared " ++ decimal (Z.of_nat width) ++ B " columns"))
      | Some a =>
          match value_at a (match sc_encodings chunk !! column with Some e => e | None => ENull end) row with
          | inl e => inl (SeCorrupt (columnar_text e))
          | inr v => match row_cells chunk columns row width with inl e => inl e | inr l => inr (v :: l) end
          end
      end
  end.
Definition row_values (id row : Z) : M (list Value) := holding (
  s ← get_store id;
  match chunk_for_row row s with
  | None => fail_with (SeCorrupt (B "no chunk for row " ++ decimal row))
  | Some r =>
      chunk ← load_chunk id (cr_index r);
      let width := length (st_columns s) in
      match row_cells chunk (seq 0 width) (Z.to_nat (row - cr_first r)) width with inl e => fail_with e | inr cells => mret cells end
  end).
Fixpoint rows_values (id : Z) (rows : list Z) : M (list (list Value)) :=
  match rows with
  | [] => mret []
  | row :: rows => cells ← row_values id row; l ← rows_values id rows; mret (cells :: l)
  end.
Definition range (start finish : Z) : list Z := (fun k => start + Z.of_nat k)%Z <$> seq 0 (Z.to_nat (finish - start)).
Definition values (id start finish : Z) : M (list (list Value)) :=
  s ← get_store id;
  rows_values id (range (Z.min start (st_rows s)) (Z.min finish (st_rows s))).

(** ** Views *)

Definition compute_view (id : Z) (spec : ViewSpec) : M ViewInfo := holding (
  s ← get_store id;
  let fetched := st_rows s in
  let streaming := negb (phase_is_finished (st_phase s)) in
  match view_gate spec fetched streaming (length (st_columns s)) with
  | Some (inl e) => fail_with e
  | Some (inr info) => mret info
  | None => loaded ← load_all id (chunk_refs s); mret (view_rows spec fetched streaming loaded)
  end).
Definition install_view (vid : Z) (v : View) (s : StoreShared) : StoreShared :=
  let views := match st_view s with Some old => alter view_cancel old (st_views s) | None => st_views s end in
  MkStore (st_columns s) (st_chunks s) (st_stats s) (st_rows s) (st_phase s) (st_widths s) (st_head_rows s) (st_builder s) (st_spill s)
    (<[vid := v]> views) (Some vid) (st_view_seq s) (st_truncated s).
Definition next_view (s : StoreShared) : StoreShared :=
  MkStore (st_columns s) (st_chunks s) (st_stats s) (st_rows s) (st_phase s) (st_widths s) (st_head_rows s) (st_builder s) (st_spill s)
    (st_views s) (st_view s) (st_view_seq s + 1) (st_truncated s).
Definition set_view (id : Z) (spec : ViewSpec) : M Z :=
  s ← get_store id;
  if decide (st_phase s = PhReleased) then fail_with SeReleased
  else
    let vid := (st_view_seq s + 1)%Z in
    _ ← change_store id next_view;
    info ← compute_view id spec;
    _ ← change_store id (install_view vid (view_new vid spec info (negb (phase_is_finished (st_phase s)))));
    _ ← maybe_expand_view id;
    mret vid.
Definition distinct_values (id : Z) (column limit : nat) : M DistinctValues := holding (
  s ← get_store id;
  let width := length (st_columns s) in
  if width <=? column then
    fail_with (SeInvalidArgument (B "distinct column " ++ decimal (Z.of_nat column) ++ B " is out of range (width " ++ decimal (Z.of_nat width) ++ B ")"))
  else loaded ← load_all id (chunk_refs s); mret (distinct_of column limit loaded)).
End Store.
