(* ===== verification/StoreSpec.v ===== *)
(** * StoreSpec: what is pushed is what is read, for [Store]. *)
From stdpp Require Import gmap.
From S2P Require Import Prelude Bytes Text Dates Value ValueSpec Names Batch Tagged TaggedSpec Columnar ColumnarSpec.
From S2P Require Import Collate JsonCheck Chunk Spill View Registry RegistrySpec Store.
#[local] Open Scope nat_scope.

Abbreviation Row := (list Value).

Section Spec.
Context `{FloatBits} `{!FloatOps} `{!Arrow} `{!ArrowLaws} `{!Unicode} `{!Normal} `{!Bitmaps} `{!BitmapLaws} `{!Ipc} `{!IpcLaws} `{!Aead} `{!AeadLaws}
  `{!Medium} `{!MediumLaws} `{!SpillDir} `{!Graphemes}.

(** ** Rows *)

Definition rows_of (b : Batch) : list Row := batch_row b <$> seq 0 (batch_size b).
Lemma batch_row_lookup n (b : Batch) row column : rectangular n b -> row < n -> batch_row b row !! column = batch_value b row column.
Proof.
  unfold batch_row, batch_value, rectangular, Batch. intros Hb Hr. revert column. induction Hb as [|c b Hc Hb IH]; intros column; [done|]. cbn.
  destruct (lookup_lt_is_Some_2 c row) as [v Hv]; [lia|]. rewrite Hv. destruct column as [|column]; [cbn; by rewrite Hv|]. cbn. apply IH.
Qed.
Lemma batch_row_length n (b : Batch) row : rectangular n b -> row < n -> length (batch_row b row) = length b.
Proof.
  unfold batch_row, rectangular, Batch. intros Hb Hr. induction Hb as [|c b Hc Hb IH]; [done|]. cbn.
  destruct (lookup_lt_is_Some_2 c row) as [v Hv]; [lia|]. rewrite Hv. cbn. by rewrite IH.
Qed.
Lemma batch_row_app (a b : Batch) row : length a = length b -> rectangular row a ->
  forall k, batch_row (zip_with (fun c x => c ++ firstn 1 (skipn k x)) a b) row = omap (fun x => head (skipn k x)) b.
Proof.
  unfold batch_row, rectangular, Batch. intros Hl Ha k. revert b Hl. induction Ha as [|c a Hc Ha IH]; intros [|x b] Hl; try done. cbn.
  rewrite <- Hc at 1. rewrite lookup_app_r by lia. rewrite Nat.sub_diag. injection Hl as Hl. rewrite (IH b Hl).
  destruct (skipn k x); done.
Qed.
Lemma head_skipn {A} (x : list A) k : head (skipn k x) = x !! k.
Proof. revert k; induction x as [|y x IH]; intros [|k]; try done. apply IH. Qed.
Lemma batch_row_old (f : list Value -> list Value) (a b : Batch) n i : length a = length b -> rectangular n a -> i < n ->
  batch_row (zip_with (fun c x => c ++ f x) a b) i = batch_row a i.
Proof.
  unfold batch_row, rectangular, Batch. intros Hl Ha Hi. revert b Hl. induction Ha as [|c a Hc Ha IH]; intros [|x b] Hl; try done. cbn.
  rewrite lookup_app_l by lia. injection Hl as Hl. by rewrite (IH b Hl).
Qed.
Lemma push_row_rows batch row b : builder_ok b -> fits_builder batch b -> row < batch_size batch -> cb_width b <> 0 ->
  rows_of (cb_columns (push_row batch row b)) = rows_of (cb_columns b) ++ [batch_row batch row].
Proof.
  intros Hb Hf Hr Hw. destruct (push_row_ok batch row b Hb Hf Hr) as (Hb' & Hw' & Hrows & Hcols).
  destruct (Nat.eqb_spec (cb_width b) 0) as [|_]; [done|]. unfold rows_of. fold (builder_rows (push_row batch row b)) (builder_rows b). rewrite Hrows.
  destruct Hb as [[Hlen _] Hrect], Hf as [Hwf Hbr]. rewrite seq_S, fmap_app. cbn [fmap list_fmap Nat.add]. rewrite Hcols. f_equal.
  - apply list_fmap_ext. intros i j Hj. apply lookup_seq in Hj as [-> Hi]. apply (batch_row_old (fun x => firstn 1 (skipn row x)) _ _ (builder_rows b)); [lia|done|done].
  - rewrite (batch_row_app (cb_columns b) batch) by (done || lia). do 2 f_equal. unfold batch_row.
    apply list_omap_ext, Forall_Forall2_diag, Forall_forall. intros x _. apply head_skipn.
Qed.
(** Columns that can be sealed: rows of values that fit. *)
Definition cells_fit (b : Batch) : Prop := Forall (Forall cell_fits) b.
Record piece_ok (width : nat) (p : Batch) : Prop := {
  piece_width : length p = width;
  piece_rows : 0 < batch_size p;
  piece_rect : rectangular (batch_size p) p;
  piece_fit : cells_fit p;
}.
Lemma piece_columns width p : width <> 0 -> piece_ok width p -> p <> [] /\ Forall (fun c => length c = batch_size p /\ Forall cell_fits c) p.
Proof.
  intros Hw [Hl Hn Hr Hf]. split; [intros ->; done|]. unfold rectangular, cells_fit, Batch in *. rewrite Forall_forall in Hr, Hf. apply Forall_forall.
  intros c Hc. split; [by apply Hr|by apply Hf].
Qed.
Lemma piece_seals width p : width <> 0 -> piece_ok width p -> exists s, seal_columns p = inr s.
Proof.
  intros Hw Hp. destruct (piece_columns width p Hw Hp) as [Hne Hall]. destruct (seal_columns_reads (batch_size p) p Hne Hall) as (s & Hs & _). by exists s.
Qed.
Lemma full_has_rows b : builder_ok b -> builder_is_full b = true -> 0 < builder_rows b.
Proof.
  intros [[_ Hb] Hr] Hf. destruct (builder_rows b) as [|n] eqn:E; [|lia]. exfalso. unfold builder_is_full in Hf. rewrite E, Hb in Hf.
  assert (columns_width (cb_columns b) = 0%Z) as Hz.
  { clear -Hr. unfold rectangular, columns_width in *. induction Hr as [|c l Hc Hr IH]; [done|]. apply length_zero_iff_nil in Hc as ->. exact IH. }
  rewrite Hz in Hf. vm_compute in Hf. discriminate Hf.
Qed.
Lemma push_row_fit batch row b : builder_ok b -> fits_builder batch b -> row < batch_size batch -> cells_fit (cb_columns b) -> cells_fit batch ->
  cells_fit (cb_columns (push_row batch row b)).
Proof.
  intros Hb Hf Hr Hfb Hfit. destruct (push_row_ok batch row b Hb Hf Hr) as (_ & _ & _ & ->). unfold cells_fit, Batch in *.
  apply Forall_lookup. intros i c Hc. apply lookup_zip_with_Some in Hc as (y & x & -> & Hy & Hx). rewrite Forall_lookup in Hfb, Hfit.
  apply Forall_app. split; [by eapply Hfb|]. apply Forall_take, Forall_drop. by eapply Hfit.
Qed.
Lemma new_rows width : rows_of (cb_columns (builder_new width)) = [].
Proof. unfold rows_of. assert (batch_size (cb_columns (builder_new width)) = 0) as -> by (by destruct width). done. Qed.
Lemma new_fit width : cells_fit (cb_columns (builder_new width)).
Proof. unfold cells_fit, builder_new. cbn. apply Forall_replicate. constructor. Qed.
Lemma builder_piece width b : builder_ok b -> cb_width b = width -> 0 < builder_rows b -> cells_fit (cb_columns b) -> piece_ok width (cb_columns b).
Proof. intros [[Hl _] Hr] Hw Hn Hf. split; [by rewrite Hl|done|done|done]. Qed.
Definition staged (width : nat) (pieces : list Batch) (sealed : list SealedChunk) : Prop :=
  Forall2 (fun p s => seal_columns p = inr s) pieces sealed /\ Forall (piece_ok width) pieces.
Lemma stage_rows_ok width batch : width <> 0 -> length batch = width -> rectangular (batch_size batch) batch -> cells_fit batch ->
  forall count row b sealed, builder_ok b -> cb_width b = width -> cells_fit (cb_columns b) -> row + count = batch_size batch ->
  exists pieces news b', stage_rows width batch (seq row count) b sealed = inr (sealed ++ news, b') /\ staged width pieces news
  /\ builder_ok b' /\ cb_width b' = width /\ cells_fit (cb_columns b')
  /\ mjoin (rows_of <$> pieces) ++ rows_of (cb_columns b') = rows_of (cb_columns b) ++ (batch_row batch <$> seq row count).
Proof.
  intros Hw Hwb Hrb Hfb. induction count as [|count IH]; intros row b sealed Hb Hbw Hbf Hrow; cbn [seq stage_rows].
  { exists [], [], b. rewrite !app_nil_r. split_and!; first [done | by split; constructor]. }
  assert (Hfit : forall d, cb_width d = width -> fits_builder batch d) by (intros d Hd; split; [by rewrite Hd|done]).
  destruct (builder_is_full b) eqn:Hfull.
  - pose proof (builder_piece width b Hb Hbw (full_has_rows b Hb Hfull) Hbf) as Hp. destruct (piece_seals width _ Hw Hp) as [s Hs].
    unfold seal. rewrite Hs. pose proof (builder_new_ok width) as Hnew.
    destruct (push_row_ok batch row (builder_new width) Hnew (Hfit (builder_new width) eq_refl) ltac:(lia)) as (Hb2 & Hw2 & _).
    destruct (IH (S row) (push_row batch row (builder_new width)) (sealed ++ [s])) as (pieces & news & b' & -> & [Hst Hpo] & Hb' & Hw' & Hf' & Hrows);
      [done|by rewrite Hw2|apply push_row_fit; [done|by apply Hfit|lia|apply new_fit|done]|lia|].
    exists (cb_columns b :: pieces), (s :: news), b'. rewrite <- app_assoc. split_and!; try done; [by split; constructor|].
    rewrite fmap_cons. change (mjoin (?x :: ?l)) with (x ++ mjoin l). rewrite <- app_assoc, Hrows.
    rewrite push_row_rows by (done || lia || by apply Hfit). rewrite new_rows. done.
  - destruct (push_row_ok batch row b Hb (Hfit b Hbw) ltac:(lia)) as (Hb2 & Hw2 & _).
    destruct (IH (S row) (push_row batch row b) sealed) as (pieces & news & b' & -> & Hst & Hb' & Hw' & Hf' & Hrows);
      [done|by rewrite Hw2|apply push_row_fit; [done|by apply Hfit|lia|done|done]|lia|].
    exists pieces, news, b'. split_and!; try done. rewrite Hrows, push_row_rows by (done || lia || by apply Hfit).
    rewrite <- app_assoc. done.
Qed.
Lemma stage_batch_ok width batch : width <> 0 -> length batch = width -> rectangular (batch_size batch) batch -> cells_fit batch ->
  exists pieces sealed, stage_batch width batch (builder_new width) = inr sealed /\ staged width pieces sealed /\ mjoin (rows_of <$> pieces) = rows_of batch.
Proof.
  intros Hw Hwb Hrb Hfb.
  destruct (stage_rows_ok width batch Hw Hwb Hrb Hfb (batch_size batch) 0 (builder_new width) []) as (pieces & news & b' & Hst & [Hs Hp] & Hb' & Hw' & Hf' & Hrows);
    [apply builder_new_ok|done|apply new_fit|done|].
  change (batch_row batch <$> seq 0 (batch_size batch)) with (rows_of batch) in Hrows. unfold stage_batch. rewrite Hst, new_rows in *. cbn [app] in *. destruct (builder_is_empty b') eqn:He.
  - exists pieces, news. split_and!; [done|by split|]. apply Nat.eqb_eq in He.
    assert (rows_of (cb_columns b') = []) as Hz by (unfold rows_of; fold (builder_rows b'); by rewrite He). by rewrite Hz, app_nil_r in Hrows.
  - apply Nat.eqb_neq in He. pose proof (builder_piece width b' Hb' Hw' ltac:(lia) Hf') as Hpb. destruct (piece_seals width _ Hw Hpb) as [s Hseal].
    unfold seal. rewrite Hseal. exists (pieces ++ [cb_columns b']), (news ++ [s]). split_and!; [done| |].
    + split; [apply Forall2_app; [done|by constructor]|apply Forall_app; split; [done|by constructor]].
    + rewrite fmap_app, <- Hrows. clear. induction pieces as [|p pieces IH]; cbn; [by rewrite app_nil_r|]. rewrite <- app_assoc. f_equal. exact IH.
Qed.

(** ** What a published chunk reads as *)

Record chunk_reads (width : nat) (c : StoreChunk) (rows : list Row) : Prop := {
  cr_count : rb_rows (sc_batch c) = length rows;
  cr_width : length (rb_columns (sc_batch c)) = width;
  cr_cells : forall i cells, rows !! i = Some cells -> length cells = width
    /\ forall column v, cells !! column = Some v ->
         exists a e, rb_columns (sc_batch c) !! column = Some a /\ sc_encodings c !! column = Some e /\ value_at a e i = inr v;
}.
(** A sealed chunk whose record has room for its lengths. *)
Definition record_fits (metas : list ColumnMeta) (sealed : SealedChunk) : Prop :=
  forall chunk deltas plain, seal_store_chunk sealed metas = inr (chunk, deltas) -> encode_record (sc_batch chunk) (sc_flags chunk) = inr plain ->
    (Z.of_nat (length plain) + 16 < 2 ^ 32)%Z.
Lemma zsum_lengths_nonneg (l : list Z) : Forall (fun n => 0 <= n)%Z l -> (0 <= foldr Z.add 0 l)%Z.
Proof. induction 1; cbn; lia. Qed.
Lemma flags_bytes_nonneg f : (0 <= flags_bytes f)%Z.
Proof. unfold flags_bytes. apply zsum_lengths_nonneg, Forall_fmap, Forall_forall. intros b _. cbn. lia. Qed.
Lemma published_chunk width metas p s : width <> 0 -> piece_ok width p -> seal_columns p = inr s -> record_fits metas s ->
  exists chunk deltas, seal_store_chunk s metas = inr (chunk, deltas) /\ chunk_good chunk /\ chunk_reads width chunk (rows_of p).
Proof.
  intros Hw Hp Hs Hfits. destruct (piece_columns width p Hw Hp) as [Hne Hall]. destruct Hp as [Hwd Hn Hr Hf].
  destruct (chunk_record_reads (batch_size p) p metas Hne Hn Hall) as (s1 & chunk & deltas & Hs1 & Hc & Hb & He & Hrec). rewrite Hs in Hs1. injection Hs1 as <-.
  destruct (seal_columns_reads (batch_size p) p Hne Hall) as (s2 & Hs2 & Hrows & Hwidth & Henc & Hread & _). rewrite Hs in Hs2. injection Hs2 as <-.
  exists chunk, deltas. split; [done|]. split.
  - split.
    + unfold seal_store_chunk in Hc. destruct (seal_bits _ _ _ _); [discriminate|]. by injection Hc as <- _.
    + unfold seal_store_chunk in Hc. destruct (seal_bits _ _ _ _); [discriminate|]. injection Hc as <- _. cbn [sc_bytes].
      pose proof (memory_nonneg (sd_batch s)). match goal with |- context [flags_bytes ?f] => pose proof (flags_bytes_nonneg f) end. lia.
    + intros plain Hplain. pose proof (Hfits chunk deltas plain Hc Hplain) as Hfit. split; [done|]. apply Hrec; [done|]. unfold fits_u32. lia.
  - rewrite <- Hb in Hrows, Hwidth, Hread. split.
    + rewrite Hrows. unfold rows_of. by rewrite length_fmap, length_seq.
    + by rewrite Hwidth.
    + intros i cells Hi. unfold rows_of in Hi. rewrite list_lookup_fmap in Hi. destruct (seq 0 (batch_size p) !! i) as [j|] eqn:Ej; [|discriminate Hi].
      injection Hi as <-. apply lookup_seq in Ej as [-> Hi]. rewrite (batch_row_length (batch_size p)) by done. split; [done|].
      intros column v Hv. rewrite (batch_row_lookup (batch_size p)) in Hv by done. unfold batch_value in Hv.
      unfold Batch in *. destruct (p !! column) as [values|] eqn:Ec; cbn in Hv; [|discriminate Hv]. rewrite He. by apply (Hread column values).
Qed.

(** ** The rows of a store *)

Fixpoint offsets (first : nat) (groups : list (list Row)) : list (Z * Z) :=
  match groups with [] => [] | g :: groups => (Z.of_nat first, Z.of_nat (length g)) :: offsets (first + length g) groups end.
Record table_ok (s : StoreShared) (l : list StoreChunk) (t : list Row) : Prop := {
  tb_groups : exists groups, Forall2 (chunk_reads (length (st_columns s))) l groups /\ mjoin groups = t
    /\ (st_phase s <> PhReleased -> (fun e => (ce_first e, ce_rows e)) <$> st_chunks s = offsets 0 groups);
  tb_rows : st_rows s = Z.of_nat (length t);
  tb_small : (Z.of_nat (length t) < 2 ^ 32)%Z;
  tb_builder : st_builder s = None \/ st_builder s = Some (builder_new (length (st_columns s)));
  tb_empty : st_columns s = [] -> l = [];
}.
Definition Table : Type := Z -> list Row.
Record Ok (published : Published) (t : Table) (w : World) : Prop := {
  ok_inv : Inv published 0 w;
  ok_tables : forall id s, w_stores w !! id = Some s -> table_ok s (published id) (t id);
  ok_fresh : forall id, (w_next_id w <= id)%Z -> w_stores w !! id = None;
  ok_absent : forall id, w_stores w !! id = None -> published id = [] /\ t id = [];
}.
Definition upd {A} (f : Z -> A) (id : Z) (x : A) : Z -> A := fun i => if decide (i = id) then x else f i.
Lemma upd_same {A} (f : Z -> A) id x : upd f id x id = x.
Proof. unfold upd. by case_decide. Qed.
Lemma upd_other {A} (f : Z -> A) id x i : i <> id -> upd f id x i = f i.
Proof. unfold upd. by case_decide. Qed.
Lemma table_shape s s' l t : shape s' = shape s -> table_ok s l t -> table_ok s' l t.
Proof.
  unfold shape. intros Heq [Hg Hr Hs Hb He]. injection Heq as E1 E2 E3 E4 E5 E6 E7 E8 E9 E10 E11 E12.
  split; rewrite ?E1, ?E4, ?E8; try done. by rewrite E2, E5.
Qed.
Lemma ok_looks published t w w' : Ok published t w -> Inv published 0 w' -> Looks w w' -> Ok published t w'.
Proof.
  intros [HI Ht Hf Ha] HI' F. assert (Hn : forall id, w_stores w' !! id = None <-> w_stores w !! id = None).
  { intros id. pose proof (lk_shape _ _ F id) as Hsh. by destruct (w_stores w' !! id), (w_stores w !! id). }
  split; [done| |intros id; rewrite (lk_next _ _ F), Hn; apply Hf|intros id; rewrite Hn; apply Ha].
  intros id s' Hs'. pose proof (lk_shape _ _ F id) as Hsh. rewrite Hs' in Hsh. destruct (w_stores w !! id) as [s|] eqn:Hs; [|discriminate Hsh].
    injection Hsh as Hsh. eapply table_shape; [|by apply Ht]. unfold shape. congruence.
Qed.
Lemma ok_frame published t w w' : Ok published t w -> Inv published 0 w' -> Frame w w' -> Ok published t w'.
Proof. intros HO HI F. eapply ok_looks; [done|done|by apply frame_looks]. Qed.
Lemma ok_ext published t t' w : (forall id, t id = t' id) -> Ok published t w -> Ok published t' w.
Proof. intros Heq [HI Ht Hf Ha]. split; [done| |done|]; intros id; rewrite <- Heq; [apply Ht|apply Ha]. Qed.
(** An operation that keeps the rows of every store. *)
Definition kept {A} (published : Published) (t : Table) (r : StoreError + A) (w : World) : Prop := Ok published t w.
Lemma kept_steady {A} published t (m : M A) w : Ok published t w -> wp m (steady published 0 w) w -> wp m (kept published t) w.
Proof. intros HO. apply wp_mono. intros r w' [HI F]. by eapply ok_frame. Qed.
Lemma kept_looks {A} published t (m : M A) w : Ok published t w -> wp m (keeps published 0 w) w -> wp m (kept published t) w.
Proof. intros HO. apply wp_mono. intros r w' [HI F]. by eapply ok_looks. Qed.
Lemma kept_bind {A C} published t (m : M A) (f : A -> M C) w : wp m (kept published t) w ->
  (forall a w', Ok published t w' -> wp (f a) (kept published t) w') -> wp (m ≫= f) (kept published t) w.
Proof. intros Hm Hf. apply wp_bind. eapply wp_mono; [|exact Hm]. intros [e|a] w' HO; [done|]. by apply Hf. Qed.
Lemma kept_get {C} published t id (f : StoreShared -> M C) w : Ok published t w ->
  (forall s, w_stores w !! id = Some s -> wp (f s) (kept published t) w) -> wp (get_store id ≫= f) (kept published t) w.
Proof. intros HO Hf. apply wp_bind. unfold wp at 1, get_store. destruct (w_stores w !! id); [by apply Hf|done]. Qed.
Lemma kept_holding {A} published t (m : M A) w : wp m (kept published t) w -> wp (holding m) (kept published t) w.
Proof.
  unfold wp, holding, kept. destruct (m w) as [r w']. cbn [fst snd]. intros [[] Ht Hf Ha]. by split; [split|..].
Qed.
Lemma load_kept published t id index w : Ok published t w -> wp (load_chunk id index) (kept published t) w.
Proof. intros HO. apply kept_steady; [done|]. eapply wp_mono; [|apply (load_chunk_ok published 0), (ok_inv _ _ _ HO)]. by intros r w' [Hs _]. Qed.
Lemma load_all_kept published t id refs : forall w, Ok published t w -> wp (load_all id refs) (kept published t) w.
Proof.
  induction refs as [|r refs IH]; intros w HO; [done|]. cbn [load_all]. apply kept_bind; [by apply load_kept|]. intros c w1 HO1.
  apply kept_bind; [by apply IH|]. by intros l w2 HO2.
Qed.

(** ** Changes that leave the rows alone *)

Record quiet (s s' : StoreShared) : Prop := {
  q_chunks : st_chunks s' = st_chunks s;
  q_spill : st_spill s' = st_spill s;
  q_columns : st_columns s' = st_columns s;
  q_rows : st_rows s' = st_rows s;
  q_released : st_phase s' = PhReleased <-> st_phase s = PhReleased;
  q_builder : st_builder s' = st_builder s \/ st_builder s' = None \/ st_builder s' = Some (builder_new (length (st_columns s)));
}.
Lemma quiet_refl s : quiet s s.
Proof. by split; auto. Qed.
Lemma quiet_table s s' l t : quiet s s' -> table_ok s l t -> table_ok s' l t.
Proof.
  intros [E1 E2 E3 E4 E5 E6] [Hg Hr Hs Hb He]. split; rewrite ?E1, ?E3, ?E4; try done; [|destruct E6 as [->|[->| ->]]; auto].
  destruct Hg as (groups & ? & ? & Hph). exists groups. split_and!; [done|done|]. intros Hp. apply Hph. tauto.
Qed.
Lemma quiet_holds k id s s' l : quiet s s' -> store_holds k id s l -> store_holds k id s' l.
Proof.
  intros [E1 E2 E3 E4 E5 E6] [Hl Hr He Hf]. split; rewrite ?E1, ?E2; try done; tauto.
Qed.
Lemma put_quiet published t w id s s' : Ok published t w -> w_stores w !! id = Some s -> quiet s s' -> Ok published t (put_store id s' w).
Proof.
  intros [HI Ht Hf Ha] Hs Hq. split.
  - apply (inv_put published 0 0 w id s s' HI Hs); [|unfold store_bytes; rewrite (q_chunks _ _ Hq); lia|lia].
    eapply quiet_holds; [exact Hq|]. by apply (inv_stores _ _ _ HI).
  - intros i u. wsimp. destruct (decide (i = id)) as [->|Hne]; [|rewrite lookup_insert_ne by done; by apply Ht].
    rewrite lookup_insert_eq. intros [= <-]. eapply quiet_table; [exact Hq|]. by apply Ht.
  - intros i Hi. wsimp. specialize (Hf i Hi). rewrite lookup_insert_ne; [done|]. intros ->. congruence.
  - intros i. wsimp. intros [Hi _]%lookup_insert_None. by apply Ha.
Qed.
Lemma change_store_absent id f w : w_stores w !! id = None -> (change_store id f w).2 = w.
Proof.
  intros Hs. unfold change_store, change. cbn [snd]. replace (alter f id (w_stores w)) with (w_stores w); [by destruct w|].
  apply map_eq. intros i. destruct (decide (i = id)) as [->|Hne]; [by rewrite lookup_alter_eq, Hs|by rewrite lookup_alter_ne].
Qed.
Lemma change_quiet published t w id f : Ok published t w -> (forall s, quiet s (f s)) -> wp (change_store id f) (kept published t) w.
Proof.
  intros HO Hq. unfold wp, kept. destruct (w_stores w !! id) as [s|] eqn:Hs.
  - rewrite (change_store_put id f w s Hs). by apply (put_quiet _ _ _ _ s).
  - by rewrite change_store_absent.
Qed.
Lemma tasks_kept published t f w : Ok published t w -> wp (change (set_tasks f)) (kept published t) w.
Proof. intros [[] Ht Hf Ha]. by split; [split|..]. Qed.
Lemma quiet_phase phase s : phase <> PhReleased -> quiet s (with_phase phase s).
Proof.
  intros Hp. split; auto. cbn. unfold next_phase. destruct (decide (st_phase s = PhReleased)); [done|]. by destruct (phase_is_finished _ && _).
Qed.
Lemma quiet_trans a b c : quiet a b -> quiet b c -> quiet a c.
Proof.
  intros [A1 A2 A3 A4 A5 A6] [B1 B2 B3 B4 B5 B6]. split; try congruence; [tauto|]. rewrite A3 in B6. destruct B6 as [->|[->| ->]]; auto.
Qed.
Ltac quietly := intros ?; split; cbn; auto; done.
Lemma maybe_expand_kept published t id w : Ok published t w -> wp (maybe_expand_view id) (kept published t) w.
Proof.
  intros HO. unfold maybe_expand_view. apply kept_get; [done|]. intros s Hs. destruct (current_view s) as [[vid v]|]; [|done].
  destruct (_ || _); [done|]. destruct (_ <=? _); [done|]. destruct (v_expanding v); [done|].
  apply kept_bind; [apply change_quiet; [done|quietly]|]. intros [] w1 HO1. by apply tasks_kept.
Qed.
Lemma expand_kept published t id vid w : Ok published t w -> wp (expand_view id vid) (kept published t) w.
Proof.
  intros HO. unfold expand_view. apply kept_holding, kept_get; [done|]. intros s Hs. destruct (st_views s !! vid) as [v|]; [|done]. cbn zeta.
  destruct (_ <=? _); [done|]. apply wp_bind, wp_attempt. eapply wp_mono; [|by apply load_all_kept]. intros [e|l] w1 HO1.
  - apply change_quiet; [done|quietly].
  - destruct (v_cancel v); [done|]. apply change_quiet; [done|quietly].
Qed.
Lemma expand_now_kept published t id w : Ok published t w -> wp (expand_view_now id) (kept published t) w.
Proof.
  intros HO. unfold expand_view_now. apply kept_get; [done|]. intros s Hs. destruct (current_view s) as [[vid v]|]; [|done].
  destruct (_ && _); [by apply expand_kept|done].
Qed.
Lemma run_task_kept published t w : Ok published t w -> wp run_task (kept published t) w.
Proof.
  intros HO. unfold run_task. apply wp_bind. unfold wp at 1, ask. cbn [fst snd]. destruct (w_tasks w) as [|[id vid] tasks]; [done|].
  apply kept_bind; [by apply tasks_kept|]. intros [] w1 HO1. apply kept_bind; [by apply expand_kept|]. intros [] w2 HO2.
  apply kept_bind; [apply change_quiet; [done|quietly]|]. intros [] w3 HO3. apply kept_get; [done|]. intros s Hs.
  destruct (st_views s !! vid) as [v|]; [|done]. destruct (_ <? _); [by apply maybe_expand_kept|done].
Qed.
Lemma compute_kept published t id spec w : Ok published t w -> wp (compute_view id spec) (kept published t) w.
Proof.
  intros HO. unfold compute_view. apply kept_holding, kept_get; [done|]. intros s Hs. cbn zeta. destruct (view_gate _ _ _ _) as [[e|info]|]; [done|done|].
  apply kept_bind; [by apply load_all_kept|]. by intros l w1 HO1.
Qed.
Lemma set_view_kept published t id spec w : Ok published t w -> wp (set_view id spec) (kept published t) w.
Proof.
  intros HO. unfold set_view. apply kept_get; [done|]. intros s Hs. destruct (decide _); [done|]. cbn zeta.
  apply kept_bind; [apply change_quiet; [done|quietly]|]. intros [] w1 HO1. apply kept_bind; [by apply compute_kept|]. intros info w2 HO2.
  apply kept_bind; [apply change_quiet; [done|quietly]|]. intros [] w3 HO3. apply kept_bind; [by apply maybe_expand_kept|]. by intros [] w4 HO4.
Qed.
Lemma distinct_kept published t id column limit w : Ok published t w -> wp (distinct_values id column limit) (kept published t) w.
Proof.
  intros HO. unfold distinct_values. apply kept_holding, kept_get; [done|]. intros s Hs. cbn zeta. destruct (_ <=? _); [done|].
  apply kept_bind; [by apply load_all_kept|]. by intros l w1 HO1.
Qed.
Lemma feed_kept published t id rows width text w : Ok published t w -> wp (feed_head_widths id rows width text) (kept published t) w.
Proof. intros HO. apply change_quiet; [done|]. intros s. destruct (feed_rows _ _ _ _ _). split; cbn; auto; done. Qed.
Lemma begin_kept published t id columns w : Ok published t w -> wp (begin_ id columns) (kept published t) w.
Proof.
  intros HO. unfold begin_. apply kept_get; [done|]. intros s Hs. destruct (check_writable s); [done|]. destruct (st_columns s) as [|c l] eqn:Hc.
  2: { by destruct (_ =? _). }
  destruct (length columns =? 0) eqn:Hl; [done|]. unfold wp, kept. rewrite (change_store_put id _ w s Hs). pose proof HO as [HI Ht Hf Ha].
  pose proof (Ht id s Hs) as [Hg Hr Hsm Hb He]. destruct Hg as (groups & H1' & H2' & H3'). specialize (He Hc).
  assert (groups = []) as -> by (rewrite He in H1'; by inversion H1'). change (mjoin []) with (@nil Row) in H2'. subst.
  assert (Hph : st_chunks s = []).
  { destruct (decide (st_phase s = PhReleased)) as [Hp|Hp]; [apply (holds_released _ _ _ _ (inv_stores _ _ _ HI id s Hs) Hp)|]. specialize (H3' Hp). by destruct (st_chunks s). }
  split.
  - apply (inv_put published 0 0 w id s _ HI Hs); [|by unfold store_bytes, begun; cbn; rewrite Hph|done].
    destruct (inv_stores _ _ _ HI id s Hs) as [Hl1 Hl2 Hl3 Hl4]. by split.
  - intros i u. wsimp. destruct (decide (i = id)) as [->|Hne]; [|rewrite lookup_insert_ne by done; by apply Ht].
    rewrite lookup_insert_eq. intros [= <-]. rewrite <- H2' in *. split; cbn; auto; try done.
    + exists []. rewrite He, Hph. by split_and!.
  - intros i Hi. wsimp. specialize (Hf i Hi). rewrite lookup_insert_ne; [done|]. intros ->. congruence.
  - intros i. wsimp. intros [Hi _]%lookup_insert_None. by apply Ha.
Qed.

(** ** Publishing *)

Lemma offsets_app a b k : offsets k (a ++ b) = offsets k a ++ offsets (k + length (mjoin a)) b.
Proof.
  revert k; induction a as [|g a IH]; intros k; [cbn; by rewrite Nat.add_0_r|]. cbn [offsets app]. rewrite IH.
  change (mjoin (g :: a)) with (g ++ mjoin a). rewrite length_app, Nat.add_assoc. done.
Qed.
Lemma mjoin_snoc {A} (l : list (list A)) x : mjoin (l ++ [x]) = mjoin l ++ x.
Proof. unfold mjoin. induction l as [|y l IH]; [apply app_nil_r|]. cbn [list_join app]. rewrite <- app_assoc. f_equal. exact IH. Qed.
(** What a store keeps while chunks are published in it. *)
Record grown (s s' : StoreShared) : Prop := {
  g_columns : st_columns s' = st_columns s;
  g_phase : st_phase s' = st_phase s;
  g_builder : st_builder s' = st_builder s;
}.
Lemma table_grows s l t c g now deltas : table_ok s l t -> chunk_reads (length (st_columns s)) c g -> st_columns s <> [] ->
  (Z.of_nat (length t + length g) < 2 ^ 32)%Z ->
  table_ok (add_chunk (MkEntry (st_rows s) (Z.of_nat (length g)) (Resident c) now) deltas s) (l ++ [c]) (t ++ g).
Proof.
  intros [Hg Hr Hs Hb He] Hc Hne Hsm. destruct Hg as (groups & H1' & H2' & H3').
  split; cbn [st_columns st_chunks st_rows st_phase st_builder add_chunk ce_first ce_rows]; try done.
  - exists (groups ++ [g]). split_and!; [apply Forall2_app; [done|by constructor]|by rewrite mjoin_snoc, H2'|].
    intros Hp. rewrite fmap_app, offsets_app, (H3' Hp). cbn. by rewrite H2', Hr.
  - rewrite Hr, length_app. unfold add_u32. rewrite Z.mod_small; lia.
  - rewrite length_app. lia.
Qed.
Lemma holds_grows k id s l c first rows now deltas : store_holds k id s l -> st_phase s <> PhReleased ->
  store_holds k id (add_chunk (MkEntry first rows (Resident c) now) deltas s) (l ++ [c]).
Proof.
  intros [Hl Hr He Hf] Hp. split; cbn [st_phase st_chunks st_spill add_chunk]; try done.
  - intros _. rewrite !length_app, (Hl Hp). done.
  - intros i e Hi. apply lookup_app_Some in Hi as [Hi|[Hge Hi]].
    + destruct (He i e Hi) as (c' & Hc & Hh). exists c'. split; [|done]. by apply lookup_app_l_Some.
    + exists c. rewrite (Hl Hp) in *. rewrite lookup_app_r by done. destruct (i - length l) as [|k']; [|done]. injection Hi as <-. by split.
Qed.
Lemma publish_ok published t w id s p sealed : Ok published t w -> w_stores w !! id = Some s -> st_phase s <> PhReleased -> st_columns s <> [] ->
  piece_ok (length (st_columns s)) p -> seal_columns p = inr sealed -> record_fits (st_columns s) sealed ->
  (Z.of_nat (length (t id) + length (rows_of p)) < 2 ^ 32)%Z ->
  wp (publish id sealed) (fun r w' =>
    (exists s', w_stores w' !! id = Some s' /\ grown s s')
    /\ match r with
       | inr _ => exists published', Ok published' (upd t id (t id ++ rows_of p)) w'
       | inl _ => Ok published t w'
       end) w.
Proof.
  intros HO Hs Hp Hne Hpc Hseal Hfits Hsm. pose proof (ok_inv _ _ _ HO) as HI. assert (Hw : length (st_columns s) <> 0) by (by destruct (st_columns s)).
  destruct (published_chunk (length (st_columns s)) (st_columns s) p sealed Hw Hpc Hseal Hfits) as (chunk & deltas & Hc & Hgood & Hreads).
  unfold publish. apply wp_bind. unfold wp at 1, get_store. rewrite Hs. cbn [fst snd]. rewrite Hc. cbn zeta. apply wp_bind.
  eapply wp_mono; [|apply (charge_ok published 0 (sc_bytes chunk) OWriter w (good_size _ Hgood) HI)]. intros r w1 [F1 Hr].
  pose proof (fr_shape _ _ F1 id) as Hsh. rewrite Hs in Hsh. destruct (w_stores w1 !! id) as [s1|] eqn:Hs1; [|discriminate Hsh].
  injection Hsh as Hsh. assert (Hshape : shape s1 = shape s) by (unfold shape; congruence).
  assert (Hg1 : grown s s1) by (unfold shape in Hshape; split; congruence).
  destruct r as [e|[]]; [split; [exists s1; by split|by eapply ok_frame]|]. destruct Hr as [HI1 Hbud].
  pose proof (table_shape _ _ _ _ Hshape (ok_tables _ _ _ HO id s Hs)) as Ht1.
  apply wp_bind. unfold wp at 1, get_store. rewrite Hs1. cbn [fst snd]. apply wp_bind. unfold wp at 1, tick. cbn [fst snd].
  set (w2 := set_clock _ w1). assert (Hs2 : w_stores w2 !! id = Some s1) by done.
  unfold wp. rewrite (change_store_put id _ w2 s1 Hs2). cbn [fst snd].
  assert (Hrows : (Z.of_nat (rb_rows (sc_batch chunk)) mod 2 ^ 32)%Z = Z.of_nat (length (rows_of p))).
  { rewrite (cr_count _ _ _ Hreads). apply Z.mod_small. lia. }
  rewrite Hrows. set (s2 := add_chunk _ deltas s1). split.
  { exists s2. unfold put_store. wsimp. rewrite lookup_insert_eq. split; [done|]. destruct Hg1 as [E1 E2 E3]. by split. }
  destruct Hg1 as [E1 E2 E3]. exists (upd published id (published id ++ [chunk])). split.
  - assert (Hgrown : store_holds (w_cipher w2) id s2 (published id ++ [chunk])).
    { apply holds_grows; [|congruence]. apply (inv_stores _ _ _ HI1 id s1 Hs1). }
    destruct HI1 as [Htot Hx Hh Hst Hd Hgd]. split; try done; unfold put_store, w2 in *; wsimp.
    + unfold accounted in *. wsimp. rewrite (gsum_replace _ _ _ _ s2 Hs1), Htot.
      assert (store_bytes s2 = store_bytes s1 + sc_bytes chunk)%Z as ->; [|lia].
      unfold store_bytes, s2. cbn [st_chunks add_chunk]. rewrite zsum_app. unfold zsum at 2. cbn. lia.
    + intros i u Hi. destruct (decide (i = id)) as [->|Hni].
      * rewrite lookup_insert_eq in Hi. injection Hi as <-. by rewrite upd_same.
      * rewrite lookup_insert_ne in Hi by done. rewrite upd_other by done. by apply Hst.
    + eapply Forall_impl; [exact Hd|]. intros e He. cbn beta in *. destruct (decide (de_id e = id)) as [Heq|Hni]; [|by rewrite upd_other].
      rewrite Heq, upd_same. rewrite Heq in He. by apply lookup_app_l_Some.
    + intros i c. destruct (decide (i = id)) as [->|Hni]; [|rewrite upd_other by done; apply Hgd].
      rewrite upd_same. intros Hin. apply elem_of_app in Hin as [Hin|Hin]; [by eapply Hgd|]. apply list_elem_of_singleton in Hin as ->. done.
  - intros i u. unfold put_store, w2. wsimp. destruct (decide (i = id)) as [->|Hni].
    + rewrite lookup_insert_eq. intros [= <-]. rewrite !upd_same. apply table_grows; [done|by rewrite E1|congruence|done].
    + rewrite lookup_insert_ne, !upd_other by done. intros Hi. pose proof (fr_shape _ _ F1 i) as Hsi. rewrite Hi in Hsi.
      destruct (w_stores w !! i) as [v|] eqn:Hv; [|discriminate Hsi]. injection Hsi as Hsi. eapply table_shape; [|by apply (ok_tables _ _ _ HO)].
      unfold shape. congruence.
  - intros i Hi. unfold put_store, w2 in *. wsimp. rewrite (fr_next _ _ F1) in Hi. pose proof (ok_fresh _ _ _ HO i Hi) as Hn.
    rewrite lookup_insert_ne by (intros ->; congruence). pose proof (fr_shape _ _ F1 i) as Hsi. rewrite Hn in Hsi. by destruct (w_stores w1 !! i).
  - intros i. unfold put_store, w2. wsimp. intros [Hi Hni]%lookup_insert_None. rewrite !upd_other by done. apply (ok_absent _ _ _ HO).
    pose proof (fr_shape _ _ F1 i) as Hsi. rewrite Hi in Hsi. by destruct (w_stores w !! i).
Qed.
(** The table with rows added to one store. *)
Definition added (id : Z) (rows : list Row) (t : Table) : Table := upd t id (t id ++ rows).
Lemma added_nil id t i : added id [] t i = t i.
Proof. unfold added, upd. case_decide; [subst; by rewrite app_nil_r|done]. Qed.
Lemma added_app id a b t i : added id b (added id a t) i = added id (a ++ b) t i.
Proof. unfold added, upd. rewrite (decide_True _ _ (eq_refl id)). repeat case_decide; [by rewrite app_assoc|done]. Qed.
(** What is in of the rows handed in: all of them when the operation went through. *)
Definition taken {A} (t : Table) (id : Z) (rows : list Row) (r : StoreError + A) (w : World) : Prop :=
  exists published n, n <= length rows /\ Ok published (added id (take n rows) t) w /\ match r with inr _ => n = length rows | inl _ => True end.
Lemma taken_none {A} published t id rows e w : Ok published t w -> taken (A:=A) t id rows (inl e) w.
Proof.
  intros HO. exists published, 0. split; [lia|]. split; [|done]. eapply ok_ext; [|exact HO]. intros i. by rewrite take_0, added_nil.
Qed.
Lemma taken_kept {A C} t id rows (r : StoreError + A) (f : A -> M C) w : taken t id rows r w ->
  (forall published t' a, r = inr a -> Ok published t' w -> wp (f a) (kept published t') w) ->
  wp (match r with inl e => fail_with e | inr a => f a end) (taken t id rows) w.
Proof.
  intros (published & n & Hn & HO & Hr) Hf. destruct r as [e|a]; [by exists published, n|]. eapply wp_mono; [|by eapply Hf].
  intros r w' HO'. exists published, n. split; [done|]. split; [exact HO'|]. by destruct r.
Qed.
Lemma grown_trans a b c : grown a b -> grown b c -> grown a c.
Proof. intros [] []. split; congruence. Qed.
Lemma publish_all_ok id pieces sealed : forall published t w s, Ok published t w -> w_stores w !! id = Some s -> st_phase s <> PhReleased ->
  st_columns s <> [] -> staged (length (st_columns s)) pieces sealed -> Forall (record_fits (st_columns s)) sealed ->
  (Z.of_nat (length (t id) + length (mjoin (rows_of <$> pieces))) < 2 ^ 32)%Z ->
  wp (publish_all id sealed) (taken t id (mjoin (rows_of <$> pieces))) w.
Proof.
  intros published t w s HO Hs Hp Hc [Hst Hpo]. revert published t w s HO Hs Hp Hc Hpo.
  induction Hst as [|p c pieces sealed Hpc Hst IH]; intros published t w s HO Hs Hp Hc Hpo Hfits Hsm.
  { exists published, 0. split; [done|]. split; [|done]. eapply ok_ext; [|exact HO]. intros i. by rewrite take_0, added_nil. }
  rewrite fmap_cons in *. change (mjoin (?x :: ?l)) with (x ++ mjoin l) in *. rewrite length_app in Hsm.
  apply Forall_cons in Hpo as [Hp1 Hpo]. apply Forall_cons in Hfits as [Hf1 Hfits]. cbn [publish_all]. apply wp_bind.
  eapply wp_mono; [|apply (publish_ok published t w id s p c HO Hs Hp Hc Hp1 Hpc Hf1); lia]. intros r w1 ((s1 & Hs1 & Hg) & Hr).
  destruct r as [e|[]]; [by eapply taken_none|]. destruct Hr as (published1 & HO1). destruct Hg as [E1 E2 E3].
  eapply wp_mono; [|apply (IH published1 _ w1 s1 HO1 Hs1); rewrite ?E1, ?E2; try done; rewrite upd_same, length_app; lia].
  intros r w2 (published2 & n & Hn & HO2 & Hr2). exists published2, (length (rows_of p) + n). rewrite length_app. split; [lia|]. split; [|destruct r; [done|lia]].
  eapply ok_ext; [|exact HO2]. intros i. fold (added id (rows_of p) t). rewrite added_app. f_equal.
  rewrite take_app. rewrite (take_ge (rows_of p)) by lia. f_equal. f_equal. lia.
Qed.

(** ** Pushing *)

(** A batch of the store's width whose rows the store has room for. *)
Record batch_fits (id : Z) (batch : Batch) (w : World) : Prop := {
  bf_rect : rectangular (batch_size batch) batch;
  bf_cells : cells_fit batch;
  bf_room : forall s, w_stores w !! id = Some s -> (st_rows s + Z.of_nat (batch_size batch) < 2 ^ 32)%Z;
  bf_records : forall s sealed, w_stores w !! id = Some s -> stage_batch (length (st_columns s)) batch (builder_new (length (st_columns s))) = inr sealed ->
    Forall (record_fits (st_columns s)) sealed;
}.
Lemma rows_of_length b : length (rows_of b) = batch_size b.
Proof. unfold rows_of. by rewrite length_fmap, length_seq. Qed.
Lemma changed_store id f w s : w_stores w !! id = Some s -> w_stores (change_store id f w).2 !! id = Some (f s).
Proof. intros Hs. rewrite (change_store_put id f w s Hs). unfold put_store. wsimp. apply lookup_insert_eq. Qed.
Lemma streaming_kept published t id w : Ok published t w -> Ok published t (change_store id (with_phase PhStreaming) w).2.
Proof. intros HO. apply (change_quiet _ _ _ _ _ HO). intros u. by apply quiet_phase. Qed.
Lemma writable_streams s : check_writable s = None -> st_phase (with_phase PhStreaming s) <> PhReleased.
Proof. unfold check_writable, with_phase, next_phase. cbn. destruct (st_phase s); try discriminate; by destruct (decide _). Qed.
Lemma push_ok published t w id batch : Ok published t w -> batch_fits id batch w -> wp (push id batch) (taken t id (rows_of batch)) w.
Proof.
  intros HO [Hrect Hcells Hroom Hrec]. unfold push. apply wp_bind. unfold wp at 1, get_store. destruct (w_stores w !! id) as [s|] eqn:Hs; [|by eapply taken_none].
  cbn [fst snd]. destruct (check_writable s) as [e|] eqn:Hw; [by eapply taken_none|]. cbn zeta. destruct (Nat.eqb_spec (length (st_columns s)) 0) as [|Hne]; [by eapply taken_none|].
  destruct (Nat.eqb_spec (length batch) (length (st_columns s))) as [Hlen|]; cbn [negb]; [|by eapply taken_none].
  pose proof (writable_streams s Hw) as Hph.
  apply wp_bind. pose proof (streaming_kept published t id w HO) as HO1.
  pose proof (changed_store id (with_phase PhStreaming) w s Hs) as Hs1. unfold wp at 1.
  change (change_store id (with_phase PhStreaming) w).1 with (inr tt : StoreError + unit). set (w1 := (change_store id _ w).2) in *.
  pose proof (ok_tables _ _ _ HO id s Hs) as Htab. destruct (tb_builder _ _ _ Htab) as [Hb|Hb]; rewrite Hb; [by eapply taken_none|].
  set (f := with_builder (Some (builder_new (length (st_columns s))))). assert (HO2 : Ok published t (change_store id f w1).2).
  { rewrite (change_store_put _ _ _ _ Hs1). apply (put_quiet _ _ _ _ _ _ HO1 Hs1). split; cbn; auto; done. }
  pose proof (changed_store id f w1 _ Hs1) as Hs2. apply wp_bind. unfold wp at 1. change (change_store id f w1).1 with (inr tt : StoreError + unit).
  set (w2 := (change_store id f w1).2) in *. set (s2 := f (with_phase PhStreaming s)) in *.
  destruct (stage_batch_ok (length (st_columns s)) batch Hne Hlen Hrect Hcells) as (pieces & sealed & Hstage & Hst & Hrows). rewrite Hstage.
  apply wp_bind. eapply wp_mono; [|apply (publish_all_ok id pieces sealed published t w2 s2 HO2 Hs2)].
  - rewrite Hrows. intros r w3 Hr. assert (Hk : wp (match r with inl e => fail_with e | inr _ => _ ← feed_head_widths id (batch_size batch) (length (st_columns s))
        (fun row column => match batch_value batch row column with Some v => cell_text v | None => [] end); maybe_expand_view id end) (taken t id (rows_of batch)) w3).
    { apply (taken_kept t id (rows_of batch) r); [done|]. intros published' t' [] _ HO3. apply kept_bind; [by apply feed_kept|]. intros [] w4 HO4. by apply maybe_expand_kept. }
    by destruct r as [e|[]].
  - exact Hph.
  - unfold s2, f. cbn. by destruct (st_columns s).
  - exact Hst.
  - by apply (Hrec s sealed eq_refl).
  - rewrite Hrows, rows_of_length. pose proof (Hroom s eq_refl). rewrite (tb_rows _ _ _ Htab) in *. lia.
Qed.
Record sealed_fits (id : Z) (p : Batch) (chunk : SealedChunk) (w : World) : Prop := {
  sf_seals : seal_columns p = inr chunk;
  sf_piece : piece_ok (length (rb_columns (sd_batch chunk))) p;
  sf_room : forall s, w_stores w !! id = Some s -> (st_rows s + Z.of_nat (batch_size p) < 2 ^ 32)%Z;
  sf_record : forall s, w_stores w !! id = Some s -> record_fits (st_columns s) chunk;
}.
Lemma push_chunk_ok published t w id p chunk : Ok published t w -> sealed_fits id p chunk w -> wp (push_chunk id chunk) (taken t id (rows_of p)) w.
Proof.
  intros HO [Hseal Hpiece Hroom Hrec]. unfold push_chunk. apply wp_bind. unfold wp at 1, get_store. destruct (w_stores w !! id) as [s|] eqn:Hs; [|by eapply taken_none].
  cbn [fst snd]. destruct (check_writable s) as [e|] eqn:Hw; [by eapply taken_none|]. cbn zeta. destruct (Nat.eqb_spec (length (st_columns s)) 0) as [|Hne]; [by eapply taken_none|].
  destruct (Nat.eqb_spec (length (rb_columns (sd_batch chunk))) (length (st_columns s))) as [Hlen|]; cbn [negb]; [|by eapply taken_none].
  pose proof (writable_streams s Hw) as Hph.
  apply wp_bind. pose proof (streaming_kept published t id w HO) as HO1.
  pose proof (changed_store id (with_phase PhStreaming) w s Hs) as Hs1. unfold wp at 1.
  change (change_store id (with_phase PhStreaming) w).1 with (inr tt : StoreError + unit). set (w1 := (change_store id _ w).2) in *.
  pose proof (ok_tables _ _ _ HO id s Hs) as Htab. apply wp_bind. rewrite Hlen in Hpiece.
  eapply wp_mono; [|apply (publish_ok published t w1 id _ p chunk HO1 Hs1 Hph)].
  - intros r w2 [_ Hr]. destruct r as [e|[]]; [by eapply taken_none|]. destruct Hr as [published' HO2].
    eapply wp_mono; [|apply (kept_bind published' (added id (rows_of p) t)); [by apply feed_kept|intros [] w3 HO3; by apply maybe_expand_kept]].
    intros r w3 HO3. exists published', (length (rows_of p)). split; [done|]. rewrite take_ge by done. split; [exact HO3|]. by destruct r.
  - cbn. by destruct (st_columns s).
  - exact Hpiece.
  - exact Hseal.
  - by apply (Hrec s eq_refl).
  - rewrite rows_of_length. pose proof (Hroom s eq_refl). rewrite (tb_rows _ _ _ Htab) in *. lia.
Qed.
Lemma finish_kept published t w id outcome : Ok published t w -> wp (finish id outcome) (kept published t) w.
Proof.
  intros HO. unfold finish. apply kept_get; [done|]. intros s Hs. destruct (decide _) as [|Hp]; [done|].
  apply kept_bind; [apply change_quiet; [done|quietly]|]. intros [] w1 HO1. apply kept_bind.
  - destruct (tb_builder _ _ _ (ok_tables _ _ _ HO id s Hs)) as [->| ->]; [done|].
    assert (builder_is_empty (builder_new (length (st_columns s))) = true) as -> by (unfold builder_is_empty; by destruct (length (st_columns s))). done.
  - intros [] w2 HO2. apply kept_bind; [|intros [] w3 HO3; by apply expand_now_kept].
    destruct outcome; apply change_quiet; try done; intros u; try by apply quiet_phase.
    apply (quiet_trans _ (with_truncated truncated u)); [split; cbn; auto; done|by apply quiet_phase].
Qed.

(** ** Stores made and released *)

Lemma create_kept published t w : Ok published t w -> wp create (kept published t) w.
Proof.
  intros HO. pose proof HO as [HI Ht Hf Ha]. pose proof (Hf (w_next_id w) ltac:(lia)) as Hn. destruct (Ha _ Hn) as [Hp Htb]. split.
  - exact (create_ok published w 0 HI Hn Hp).
  - intros i u. unfold create. wsimp. destruct (decide (i = w_next_id w)) as [->|Hne]; [|rewrite lookup_insert_ne by done; by apply Ht].
    rewrite lookup_insert_eq. intros [= <-]. rewrite Hp, Htb. split; cbn; auto; try done. exists []. by split_and!.
  - intros i. unfold create. wsimp. intros Hi. rewrite lookup_insert_ne by lia. apply Hf. lia.
  - intros i. unfold create. wsimp. intros [Hi _]%lookup_insert_None. by apply Ha.
Qed.
Lemma release_kept published t w id : Ok published t w -> wp (store_release id) (kept published t) w.
Proof.
  intros HO. unfold wp, kept, store_release. destruct (w_stores w !! id) as [s|] eqn:Hs; [|done]. destruct (decide _) as [|Hp]; [done|]. cbn zeta. cbn [snd].
  pose proof HO as [HI Ht Hf Ha]. rewrite (release_total _ _ _ _ _ HI Hs). split.
  - by apply release_ok.
  - intros i u. wsimp. destruct (decide (i = id)) as [->|Hne]; [|rewrite lookup_insert_ne by done; by apply Ht].
    rewrite lookup_insert_eq. intros [= <-]. destruct (Ht id s Hs) as [(groups & H1' & H2' & _) Hr Hsm Hb He]. split; try done. by exists groups.
  - intros i Hi. wsimp. specialize (Hf i Hi). rewrite lookup_insert_ne; [done|]. intros ->. congruence.
  - intros i. wsimp. intros [Hi _]%lookup_insert_None. by apply Ha.
Qed.
Lemma live_kept published t f w : Ok published t w -> Ok published t (set_live f w).
Proof. intros [[] Ht Hf Ha]. by split; [split|..]. Qed.
Lemma registry_release_kept published t w id : Ok published t w -> wp (registry_release id) (kept published t) w.
Proof.
  intros HO. unfold registry_release. apply wp_bind. unfold wp at 1, ask. cbn [fst snd]. apply kept_bind; [by apply live_kept|]. intros [] w1 HO1.
  apply kept_bind; [destruct (existsb _ _); [by apply release_kept|done]|]. intros [] w2 HO2. apply kept_steady; [done|]. by apply purge_decoded_ok, (ok_inv _ _ _ HO2).
Qed.

(** ** Reading *)

Lemma find_row l : forall k groups row, (fun e => (ce_first e, ce_rows e)) <$> l = offsets k groups -> k <= row < k + length (mjoin groups) ->
  exists i e g, entries_up_to (Z.of_nat row) l = S i /\ l !! i = Some e /\ groups !! i = Some g
  /\ (ce_first e <= Z.of_nat row)%Z /\ g !! Z.to_nat (Z.of_nat row - ce_first e) = mjoin groups !! (row - k).
Proof.
  induction l as [|e l IH]; intros k [|g groups] row Hoff Hrow; try discriminate Hoff; [cbn in Hrow; lia|].
  cbn [offsets] in Hoff. rewrite fmap_cons in Hoff. injection Hoff as Hfirst Hlen Hoff. change (mjoin (g :: groups)) with (g ++ mjoin groups) in *.
  rewrite length_app in Hrow. cbn [entries_up_to]. rewrite Hfirst. replace (Z.of_nat k <=? Z.of_nat row)%Z with true by lia.
  destruct (decide (row < k + length g)) as [Hin|Hout].
  - exists 0, e, g. assert (entries_up_to (Z.of_nat row) l = 0) as ->.
    { destruct l as [|e' l]; [done|]. destruct groups as [|g' groups]; [discriminate Hoff|]. rewrite fmap_cons in Hoff. cbn [offsets] in Hoff. injection Hoff as Hf' _ _.
      cbn [entries_up_to]. rewrite Hf'. destruct (Z.leb_spec (Z.of_nat (k + length g)) (Z.of_nat row)); [lia|done]. }
    split_and!; try done; [lia|]. rewrite Hfirst, lookup_app_l by lia. f_equal. lia.
  - destruct (IH (k + length g) groups row Hoff ltac:(lia)) as (i & e' & g' & Hup & He' & Hg' & Hle & Hcell). exists (S i), e', g'. rewrite Hup.
    split_and!; try done. rewrite Hcell, lookup_app_r by lia. f_equal. lia.
Qed.
Lemma row_cells_ok width chunk rows i cells : chunk_reads width chunk rows -> rows !! i = Some cells ->
  row_cells chunk (seq 0 width) i width = inr cells.
Proof.
  intros Hread Hi. destruct (cr_cells _ _ _ Hread i cells Hi) as [Hlen Hcells].
  enough (Hgen : forall n first, first + n = width -> row_cells chunk (seq first n) i width = inr (drop first cells)) by (by rewrite (Hgen width 0)).
  induction n as [|n IH]; intros first Hn; cbn [seq row_cells]; [by rewrite drop_ge by lia|].
  destruct (lookup_lt_is_Some_2 cells first) as [v Hv]; [lia|]. destruct (Hcells first v Hv) as (a & e & -> & -> & ->).
  rewrite (IH (S first)) by lia. by rewrite (drop_S _ _ _ Hv).
Qed.
Lemma holding_result {A} (m : M A) w : (holding m w).1 = (m w).1.
Proof. unfold holding. by destruct (m w). Qed.
(** A row of a store that is not released is read as it was pushed. *)
Lemma row_values_ok published t w id s row cells : Ok published t w -> w_stores w !! id = Some s -> st_phase s <> PhReleased ->
  t id !! row = Some cells -> wp (row_values id (Z.of_nat row)) (fun r w' => r = inr cells /\ Inv published 0 w' /\ Frame w w') w.
Proof.
  intros HO Hs Hp Hrow. pose proof HO as [HI Ht _]. destruct (Ht id s Hs) as [(groups & Hreads & Hjoin & Hoff) _ _ _ _]. specialize (Hoff Hp).
  assert (Hlt : row < length (t id)) by by eapply lookup_lt_Some.
  destruct (find_row (st_chunks s) 0 groups row Hoff ltac:(rewrite Hjoin; lia)) as (i & e & g & Hup & He & Hg & Hle & Hcell). rewrite Hjoin, Nat.sub_0_r, Hrow in Hcell.
  assert (Hrc : chunk_for_row (Z.of_nat row) s = Some (MkRef i (ce_first e) (ce_rows e))) by (unfold chunk_for_row; by rewrite Hup, He).
  pose proof (load_chunk_ok published 0 id i w HI) as Hload. destruct (load_chunk_found published 0 id i w s e HI Hs He) as [c Hc].
  unfold wp, row_values in *. rewrite holding_result. unfold holding, mbind, store_bind, get_store. rewrite Hs, Hrc. cbn [cr_index cr_first].
  destruct (load_chunk id i w) as [r w1]. cbn [fst snd] in *. subst r. destruct Hload as [[HI1 F1] Hpub].
  destruct (Forall2_lookup_r _ _ _ _ _ Hreads Hg) as (c' & Hc' & Hcr). rewrite Hpub in Hc'. injection Hc' as <-.
  rewrite (row_cells_ok _ _ _ _ _ Hcr Hcell). split; [done|]. split; [destruct HI1; by split|]. etransitivity; [exact F1|by split].
Qed.
Lemma rows_values_ok published t id s w rows : Ok published t w -> w_stores w !! id = Some s -> st_phase s <> PhReleased ->
  Forall (fun row => row < length (t id)) rows ->
  wp (rows_values id (Z.of_nat <$> rows)) (fun r w' => r = inr (omap (fun row => t id !! row) rows) /\ Inv published 0 w' /\ Frame w w') w.
Proof.
  intros HO Hs Hp Hrows. revert w s HO Hs Hp. induction Hrows as [|row rows Hrow Hrows IH]; intros w s HO Hs Hp; [split; [done|by split; [apply HO|]]|].
  destruct (lookup_lt_is_Some_2 _ _ Hrow) as [cells Hcells]. rewrite fmap_cons. cbn [rows_values omap list_omap]. rewrite Hcells. apply wp_bind.
  eapply wp_mono; [|by apply (row_values_ok published t w id s row cells)]. intros r w1 (-> & HI1 & F1).
  pose proof (ok_frame _ _ _ _ HO HI1 F1) as HO1. pose proof (fr_shape _ _ F1 id) as Hsh. rewrite Hs in Hsh.
  destruct (w_stores w1 !! id) as [s1|] eqn:Hs1; [|discriminate Hsh]. injection Hsh as _ _ _ _ Hph _ _ _ _ _ _.
  apply wp_bind. eapply wp_mono; [|apply (IH w1 s1 HO1 Hs1); congruence]. intros r w2 (-> & HI2 & F2). split; [done|]. split; [done|by etransitivity].
Qed.
Lemma omap_slice {A} (l : list A) first n : first + n <= length l -> omap (fun i => l !! i) (seq first n) = take n (drop first l).
Proof.
  revert first; induction n as [|n IH]; intros first Hn; [done|]. cbn. destruct (lookup_lt_is_Some_2 l first) as [x Hx]; [lia|].
  rewrite Hx, (drop_S _ _ _ Hx). cbn. f_equal. apply IH. lia.
Qed.

(** ** Runs *)

Lemma rows_values_kept published t id rows : forall w, Ok published t w -> wp (rows_values id rows) (kept published t) w.
Proof.
  induction rows as [|row rows IH]; intros w HO; [done|]. cbn [rows_values]. apply kept_bind.
  - unfold row_values. apply kept_holding, kept_get; [done|]. intros s Hs. destruct (chunk_for_row row s) as [r|]; [|done].
    apply kept_bind; [by apply load_kept|]. intros c w1 HO1. cbn zeta. by destruct (row_cells _ _ _ _).
  - intros cells w1 HO1. apply kept_bind; [by apply IH|]. by intros l w2 HO2.
Qed.
(** What is called of the registry and its stores, the pushes left out. *)
Inductive Call :=
  | Create | Begin (id : Z) (columns : list ColumnMeta) | Finish (id : Z) (outcome : Outcome) | Values (id start finish : Z)
  | SetView (id : Z) (spec : ViewSpec) | Distinct (id : Z) (column limit : nat) | RunTask | Release (id : Z)
  | Reserve (size : Z) | DropReservation (size : Z) | ReserveQuery (most : Z) | DropLease (size : Z).
Definition run_call (c : Call) (w : World) : World :=
  match c with
  | Create => (create w).2
  | Begin id columns => (begin_ id columns w).2
  | Finish id outcome => (finish id outcome w).2
  | Values id start finish => (values id start finish w).2
  | SetView id spec => (set_view id spec w).2
  | Distinct id column limit => (distinct_values id column limit w).2
  | RunTask => (run_task w).2
  | Release id => (registry_release id w).2
  | Reserve size => (reserve size w).2
  | DropReservation size => (drop_reservation size w).2
  | ReserveQuery most => (reserve_query most w).2
  | DropLease size => (drop_lease size w).2
  end.
(** Only what is held is given back. *)
Definition call_fits (c : Call) (w : World) : Prop :=
  match c with
  | Reserve size => (0 <= size)%Z
  | ReserveQuery most => (0 <= most)%Z /\ (0 <= query_share_bytes (w_config w))%Z
  | DropReservation size | DropLease size => size ∈ w_held w
  | _ => True
  end.
Lemma call_kept published t c w : Ok published t w -> call_fits c w -> Ok published t (run_call c w).
Proof.
  intros HO Hc. pose proof (ok_inv _ _ _ HO) as HI. destruct c; cbn [run_call call_fits] in *.
  - by apply create_kept.
  - by apply begin_kept.
  - by apply finish_kept.
  - apply (kept_get published t id); [done|]. intros s Hs. by apply rows_values_kept.
  - by apply set_view_kept.
  - by apply distinct_kept.
  - by apply run_task_kept.
  - by apply registry_release_kept.
  - apply (kept_looks published t (reserve size)); [done|]. by apply reserve_ok.
  - apply (kept_looks published t (drop_reservation size)); [done|]. by apply drop_reservation_ok.
  - apply (kept_looks published t (reserve_query most)); [done|]. destruct Hc. by apply reserve_query_ok.
  - apply (kept_looks published t (drop_lease size)); [done|]. by apply drop_lease_ok.
Qed.
(** The rows a store counts, and those that came between two worlds. *)
Definition rows_in (id : Z) (w : World) : nat := match w_stores w !! id with Some s => Z.to_nat (st_rows s) | None => 0 end.
Definition came (id : Z) (w w' : World) : nat := rows_in id w' - rows_in id w.
(** A run of the registry from an empty one, and the rows its pushes left in each store. *)
Inductive reachable (config : StoreConfig) (cipher : option SpillCipher) : World -> Table -> Prop :=
  | reach_new : reachable config cipher (registry_new config cipher) (fun _ => [])
  | reach_call w t c : reachable config cipher w t -> call_fits c w -> reachable config cipher (run_call c w) t
  | reach_push w t id batch : reachable config cipher w t -> batch_fits id batch w ->
      reachable config cipher (push id batch w).2 (added id (take (came id w (push id batch w).2) (rows_of batch)) t)
  | reach_push_chunk w t id p chunk : reachable config cipher w t -> sealed_fits id p chunk w ->
      reachable config cipher (push_chunk id chunk w).2 (added id (take (came id w (push_chunk id chunk w).2) (rows_of p)) t).
Lemma rows_in_ok published t w id : Ok published t w -> rows_in id w = length (t id).
Proof.
  intros HO. unfold rows_in. destruct (w_stores w !! id) as [s|] eqn:Hs.
  - rewrite (tb_rows _ _ _ (ok_tables _ _ _ HO id s Hs)). lia.
  - by destruct (ok_absent _ _ _ HO id Hs) as [_ ->].
Qed.
Lemma taken_came {A} published t id rows (r : StoreError + A) w w' : Ok published t w -> taken t id rows r w' ->
  (exists published', Ok published' (added id (take (came id w w') rows) t) w') /\ match r with inr _ => came id w w' = length rows | inl _ => came id w w' <= length rows end.
Proof.
  intros HO (published' & n & Hn & HO' & Hr). assert (Hcame : came id w w' = n).
  { unfold came. rewrite (rows_in_ok _ _ _ id HO), (rows_in_ok _ _ _ id HO'). unfold added. rewrite upd_same, length_app, length_take. lia. }
  rewrite Hcame. split; [by exists published'|]. by destruct r.
Qed.
Lemma run_ok config cipher w t : reachable config cipher w t -> exists published, Ok published t w.
Proof.
  induction 1 as [|w t c Hr [published HO] Hc|w t id batch Hr [published HO] Hb|w t id p chunk Hr [published HO] Hp].
  - exists (fun _ => []). split; try done. split; try done. intros id c Hc. by apply not_elem_of_nil in Hc.
  - exists published. by apply call_kept.
  - destruct (taken_came _ _ _ _ _ w _ HO (push_ok published t w id batch HO Hb)) as [H' _]. exact H'.
  - destruct (taken_came _ _ _ _ _ w _ HO (push_chunk_ok published t w id p chunk HO Hp)) as [H' _]. exact H'.
Qed.

(** ** The claims *)

(** C18: In every run of the registry, whatever its calls and however many of them failed, the total that
    the memory budget is checked against is exactly what is held: the resident chunks of the stores,
    the decrypted chunks of the cache and the reservations not given back. A charge that is granted
    leaves the total, with the new bytes in it, within the budget; one that is refused leaves
    nothing behind. *)
Theorem budget_is_what_is_held config cipher w t : reachable config cipher w t ->
  w_resident w = accounted w
  /\ forall size origin, (0 <= size)%Z ->
       match charge size origin w with
       | (inr _, w') => w_resident w' = (accounted w' + size)%Z /\ (w_resident w' <= budget_bytes (w_config w'))%Z
       | (inl _, w') => w_resident w' = accounted w'
       end.
Proof.
  intros Hr. destruct (run_ok _ _ _ _ Hr) as [published HO]. pose proof (ok_inv _ _ _ HO) as HI.
  split; [rewrite (inv_total _ _ _ HI); lia|]. intros size origin Hs. pose proof (charge_ok published 0 size origin w Hs HI) as Hc. unfold wp in Hc.
  destruct (charge size origin w) as [r w']. cbn [fst snd] in Hc. destruct Hc as [_ Hc]. destruct r as [e|[]].
  - rewrite (inv_total _ _ _ Hc). lia.
  - destruct Hc as [HI' Hb]. split; [rewrite (inv_total _ _ _ HI'); lia|done].
Qed.

(** C17: A result reads back as it was written. In every run, a push that goes through adds all its rows to
    the store and one that fails adds a beginning of them, in their order, and [values] of a store
    that is not released never fails: it gives exactly the rows between the two bounds, cell for
    cell, the range cut where the rows end, whether their chunks are in memory, were moved to the
    encrypted spill file or come from the cache of decrypted chunks. *)
Theorem pushed_rows_read_back config cipher w t : reachable config cipher w t ->
  (forall id batch, batch_fits id batch w -> let '(r, w') := push id batch w in
     match r with inr _ => came id w w' = batch_size batch | inl _ => came id w w' <= batch_size batch end
     /\ reachable config cipher w' (added id (take (came id w w') (rows_of batch)) t))
  /\ forall id s start finish, w_stores w !! id = Some s -> st_phase s <> PhReleased ->
       (values id (Z.of_nat start) (Z.of_nat finish) w).1 = inr (take (finish - start) (drop start (t id))).
Proof.
  intros Hr. destruct (run_ok _ _ _ _ Hr) as [published HO]. split.
  - intros id batch Hb. pose proof (reach_push _ _ _ _ id batch Hr Hb) as Hr'. pose proof (taken_came _ _ _ _ _ w _ HO (push_ok published t w id batch HO Hb)) as [_ Hc].
    rewrite rows_of_length in Hc. destruct (push id batch w) as [r w']. by split.
  - intros id s start finish Hs Hp. pose proof (tb_rows _ _ _ (ok_tables _ _ _ HO id s Hs)) as Hrows.
    unfold values, mbind, store_bind, get_store. rewrite Hs, Hrows. unfold range.
    set (lo := Nat.min start (length (t id))). set (hi := Nat.min finish (length (t id))).
    replace (Z.min (Z.of_nat start) (Z.of_nat (length (t id)))) with (Z.of_nat lo) by lia.
    replace (Z.min (Z.of_nat finish) (Z.of_nat (length (t id)))) with (Z.of_nat hi) by lia.
    replace (Z.to_nat (Z.of_nat hi - Z.of_nat lo)) with (hi - lo) by lia.
    replace ((fun k => Z.of_nat lo + Z.of_nat k)%Z <$> seq 0 (hi - lo)) with (Z.of_nat <$> seq lo (hi - lo)).
    2: { apply list_eq. intros i. rewrite !list_lookup_fmap.
         destruct (decide (i < hi - lo)); [rewrite !lookup_seq_lt by lia; cbn; f_equal; lia|rewrite !lookup_seq_ge by lia; done]. }
    destruct (rows_values_ok published t id s w (seq lo (hi - lo)) HO Hs Hp) as (-> & _).
    { apply Forall_seq. intros j Hj. lia. }
    f_equal. rewrite omap_slice by lia. unfold lo, hi. destruct (decide (start <= length (t id))) as [Hle|Hgt].
    + rewrite (Nat.min_l start) by lia. destruct (decide (finish <= length (t id))); [by rewrite Nat.min_l by lia|].
      rewrite Nat.min_r by lia. rewrite !take_ge; rewrite ?length_drop; try done; lia.
    + rewrite (drop_ge (t id) start) by lia. rewrite take_nil. replace (Nat.min finish (length (t id)) - Nat.min start (length (t id))) with 0 by lia. done.
Qed.
End Spec.

(** ** A small store *)

Module Spilling.
#[local] Existing Instances no_float Toy.toy_bits Toy.toy_arrow Toy.toy_laws Small.small_bitmaps Small.small_bitmap_laws Small.small_unicode
  Small.small_normal Disk.small_aead Disk.small_aead_laws Disk.scalar_dec Disk.batch_dec.
#[export] Instance no_float_ops : FloatOps := {|
  f_le _ _ := true; f_lt _ _ := false; f_add x _ := x; f_mul x _ := x; f_neg x := x; f_of_u32 _ := tt; f_div x _ := x; f_exp2 _ := tt |}.
Definition first : Batch := [[VText (B "[1]"); VText (B "a")]].
Definition second : Batch := [[VText (B "{}")]].
Definition sealed_batch (b : Batch) : option record_batch := match seal_columns b with inr sealed => Some (sd_batch sealed) | inl _ => None end.
(** The streams of the two batches there are. *)
#[export] Instance two_ipc : Ipc := {|
  ipc_write rb := if decide (Some rb = sealed_batch first) then inr [1%Z] else if decide (Some rb = sealed_batch second) then inr [2%Z] else inl [];
  ipc_read s := match (if decide (s = [1%Z]) then sealed_batch first else sealed_batch second) with Some rb => IrBatch rb | None => IrPanic end
|}.
#[export] Instance two_ipc_laws : IpcLaws.
Proof.
  split. intros rb s. cbn [ipc_write ipc_read two_ipc]. destruct (decide (Some rb = sealed_batch first)) as [E|_].
  - intros [= <-]. by rewrite decide_True, <- E.
  - destruct (decide (Some rb = sealed_batch second)) as [E|]; [|discriminate]. intros [= <-]. by rewrite decide_False, <- E.
Defined.
(** A file as its bytes by position. *)
#[export] Instance small_medium : Medium := {|
  medium := Z -> Z;
  write_at m offset s := (None, fun i => if (offset <=? i)%Z && (i <? offset + Z.of_nat (length s))%Z then nth (Z.to_nat (i - offset)) s 0%Z else m i);
  read_at m at_ len := inr ((fun k => m (at_ + Z.of_nat k)%Z) <$> seq 0 (Z.to_nat len))
|}.
#[export] Instance small_medium_laws : MediumLaws.
Proof.
  split; cbn [write_at read_at small_medium fst snd].
  - intros m offset s at_ len Ha Hl. f_equal. apply list_fmap_ext. intros i k Hk. apply lookup_seq in Hk as [-> Hk].
    destruct (Z.leb_spec offset (at_ + Z.of_nat (0 + i))); [lia|done].
  - intros m offset s _. f_equal. rewrite Nat2Z.id. apply list_eq. intros i. rewrite list_lookup_fmap. destruct (decide (i < length s)) as [Hi|Hi].
    + rewrite lookup_seq_lt by done. cbn. destruct (lookup_lt_is_Some_2 s i Hi) as [x Hx]. rewrite Hx. f_equal.
      destruct (Z.leb_spec offset (offset + Z.of_nat i)); [|lia]. destruct (Z.ltb_spec (offset + Z.of_nat i) (offset + Z.of_nat (length s))); [|lia]. cbn [andb].
      replace (Z.to_nat (offset + Z.of_nat i - offset)) with i by lia. by rewrite nth_lookup, Hx.
    + rewrite lookup_seq_ge, lookup_ge_None_2 by lia. done.
Defined.
#[export] Instance small_dir : SpillDir := {| spill_create _ _ _ := inr (fun _ => 0%Z) |}.
#[export] Instance small_graphemes : Graphemes := {| graphemes s := (fun b => [b]) <$> s |}.
(** A budget of one byte, so that the second push moves the first chunk to disk. *)
Definition config : StoreConfig := MkConfig 1 1 (Some (B "/tmp")) 1 0.
Definition cipher : option SpillCipher := Some (@from_seed Disk.small_aead DOMAIN_APP tt).
Definition made : World := run_call (Begin 1 [MkMeta (B "a") (B "text")]) (run_call Create (registry_new config cipher)).
Definition once : World := (push 1 first made).2.
Definition twice : World := (push 1 second once).2.
Definition table : Table := added 1 (rows_of second) (added 1 (rows_of first) (fun _ => [])).
Lemma small_batch_fits w b metas : metas = [MkMeta (B "a") (B "text")] -> b = first \/ b = second ->
  (forall s, w_stores w !! 1%Z = Some s -> st_columns s = metas /\ (st_rows s < 10)%Z) -> batch_fits 1 b w.
Proof.
  intros -> Hb Hw. assert (Hcells : Forall (Forall cell_fits) b).
  { destruct Hb as [->| ->]; repeat first [apply Forall_cons_2 | apply Forall_nil_2 | split]; try (cbn; unfold MAX_DEPTH; lia);
      intros blob Hblob; vm_compute in Hblob; injection Hblob as <-; vm_compute; discriminate. }
  split; [destruct Hb as [->| ->]; by repeat constructor|exact Hcells| |].
  - intros s Hs. destruct (Hw s Hs) as [_ Hr]. destruct Hb as [->| ->]; cbn; lia.
  - intros s sealed Hs. destruct (Hw s Hs) as [-> _]. destruct Hb as [->| ->]; intros Hst; vm_compute in Hst; injection Hst as <-;
      (apply Forall_cons_2; [|constructor]); intros chunk deltas plain Hc Hp; vm_compute in Hc; injection Hc as <- _; vm_compute in Hp; injection Hp as <-;
      vm_compute; reflexivity.
Qed.
Lemma twice_reachable : reachable config cipher twice table.
Proof.
  assert (H0 : reachable config cipher made (fun _ => [])) by (apply reach_call; [apply reach_call; [apply reach_new|exact I]|exact I]).
  assert (H1' : reachable config cipher once (added 1 (rows_of first) (fun _ => []))).
  { pose proof (reach_push _ _ _ _ 1 first H0) as Hp. fold once in Hp. replace (came 1 made once) with (length (rows_of first)) in Hp by (vm_compute; reflexivity).
    rewrite take_ge in Hp by done. apply Hp. apply (small_batch_fits _ _ _ eq_refl); [by left|]. intros s Hs. vm_compute in Hs. injection Hs as <-. by split. }
  pose proof (reach_push _ _ _ _ 1 second H1') as Hp. fold twice in Hp. replace (came 1 once twice) with (length (rows_of second)) in Hp by (vm_compute; reflexivity).
  rewrite take_ge in Hp by done. apply Hp. apply (small_batch_fits _ _ _ eq_refl); [by right|]. intros s Hs. vm_compute in Hs. injection Hs as <-. by split.
Qed.
(** The first chunk is on disk, the second in memory. *)
Example first_chunk_spilled : (fun s => is_resident <$> st_chunks s) <$> (w_stores twice !! 1%Z) = Some [false; true].
Proof. vm_compute. reflexivity. Qed.
End Spilling.
#[local] Existing Instances no_float Toy.toy_bits Toy.toy_arrow Toy.toy_laws Small.small_bitmaps Small.small_bitmap_laws Small.small_unicode
  Small.small_normal Disk.small_aead Disk.small_aead_laws Spilling.no_float_ops Spilling.two_ipc Spilling.two_ipc_laws Spilling.small_medium
  Spilling.small_medium_laws Spilling.small_dir Spilling.small_graphemes.
Lemma budget_is_what_is_held_witness : w_resident Spilling.twice = accounted Spilling.twice /\ w_resident Spilling.twice = 1%Z.
Proof. split; [exact (proj1 (budget_is_what_is_held Spilling.config Spilling.cipher Spilling.twice Spilling.table Spilling.twice_reachable))|vm_compute; reflexivity]. Defined.
Lemma pushed_rows_read_back_witness :
  (values 1 1 9 Spilling.twice).1 = inr [[VText (B "a")]; [VText (B "{}")]].
Proof.
  destruct (w_stores Spilling.twice !! 1%Z) as [s|] eqn:Hs; [|vm_compute in Hs; discriminate Hs].
  apply (proj2 (pushed_rows_read_back Spilling.config Spilling.cipher Spilling.twice Spilling.table Spilling.twice_reachable) 1%Z s 1 9 Hs).
  vm_compute in Hs. injection Hs as <-. discriminate.
Defined.
