(* ===== verification/ViewSpec.v ===== *)
(** * ViewSpec: a view is the filtered and sorted table, for [View] and the views of [Store]. *)
From stdpp Require Import gmap.
From S2P Require Import Prelude Bytes Text Dates Value ValueSpec Names Batch Tagged TaggedSpec Columnar ColumnarSpec.
From S2P Require Import Collate JsonCheck Chunk Spill View Registry RegistrySpec Store StoreSpec.
#[local] Open Scope nat_scope.

(** ** Orders given by a comparison *)

Record cmp_ok {A} (P : A -> Prop) (f : A -> A -> comparison) : Prop := {
  cmp_opp : forall a b, P a -> P b -> f b a = CompOpp (f a b);
  cmp_trans : forall a b c, P a -> P b -> P c -> f a b <> Gt -> f b c <> Gt -> f a c <> Gt;
}.
Lemma cmp_strict {A} (P : A -> Prop) f a b c : cmp_ok P f -> P a -> P b -> P c -> f a b <> Gt -> f b c <> Gt -> f a b = Lt \/ f b c = Lt -> f a c = Lt.
Proof.
  intros [Ho Ht] Ha Hb Hc H1 H2 H3. pose proof (Ht a b c Ha Hb Hc H1 H2) as Hac. destruct (f a c) eqn:E; [|done|done]. exfalso.
  pose proof (Ho a c Ha Hc) as Hca. rewrite E in Hca. destruct H3 as [H3|H3].
  - pose proof (Ht b c a Hb Hc Ha H2 ltac:(by rewrite Hca)) as Hba. rewrite (Ho a b Ha Hb), H3 in Hba. done.
  - pose proof (Ht c a b Hc Ha Hb ltac:(by rewrite Hca) H1) as Hcb. rewrite (Ho b c Hb Hc), H3 in Hcb. done.
Qed.
Lemma cmp_zcompare {A} (P : A -> Prop) (g : A -> Z) : cmp_ok P (fun a b => Z.compare (g a) (g b)).
Proof. split; intros a b; [intros _ _; apply Z.compare_antisym|]. intros c _ _ _. rewrite !Z.compare_le_iff. lia. Qed.
Lemma bytes_compare_opp a : forall b, bytes_compare b a = CompOpp (bytes_compare a b).
Proof.
  induction a as [|x a IH]; intros [|y b]; try done. cbn. rewrite (Z.compare_antisym x y). destruct (Z.compare x y); cbn; done || apply IH.
Qed.
Lemma bytes_compare_trans a : forall b c, bytes_compare a b <> Gt -> bytes_compare b c <> Gt -> bytes_compare a c <> Gt.
Proof.
  induction a as [|x a IH]; intros [|y b] [|z c]; cbn; try done. intros H1 H2.
  destruct (Z.compare_spec x y) as [->|Hxy|Hxy]; [|destruct (Z.compare_spec y z) as [->|Hyz|Hyz]; [| |done]|done].
  - destruct (Z.compare y z); [by eapply IH|done|done].
  - by rewrite (proj2 (Z.compare_lt_iff x z)) by lia.
  - by rewrite (proj2 (Z.compare_lt_iff x z)) by lia.
Qed.
Lemma cmp_bytes {A} (P : A -> Prop) (g : A -> bytes) : cmp_ok P (fun a b => bytes_compare (g a) (g b)).
Proof. split; intros a b; [intros _ _; apply bytes_compare_opp|]. intros c _ _ _. apply bytes_compare_trans. Qed.
Lemma cmp_reverse {A} (P : A -> Prop) f : cmp_ok P f -> cmp_ok P (fun a b => CompOpp (f a b)).
Proof.
  intros [Ho Ht]. split; intros a b; [intros Ha Hb; by rewrite (Ho a b)|]. intros c Ha Hb Hc H1 H2.
  rewrite <- (Ho a c), <- (Ho a b), <- (Ho b c) in * by done. by apply (Ht c b a).
Qed.
Lemma cmp_then {A} (P : A -> Prop) f g : cmp_ok P f -> cmp_ok P g -> cmp_ok P (fun a b => then_with (f a b) (g a b)).
Proof.
  intros Hf Hg. split.
  - intros a b Ha Hb. rewrite (cmp_opp _ _ Hf a b), (cmp_opp _ _ Hg a b) by done. by destruct (f a b).
  - intros a b c Ha Hb Hc H1 H2. assert (E1 : f a b <> Gt) by (intros E; by rewrite E in H1). assert (E2 : f b c <> Gt) by (intros E; by rewrite E in H2).
    destruct (f a b) eqn:Eab; [|by rewrite (cmp_strict P f a b c) by (rewrite ?Eab; auto)|done].
    destruct (f b c) eqn:Ebc; [|by rewrite (cmp_strict P f a b c) by (rewrite ?Eab, ?Ebc; auto)|done].
    assert (f a c = Eq) as ->; [|cbn in *; by apply (cmp_trans _ _ Hg a b c)].
    pose proof (cmp_trans _ _ Hf a b c Ha Hb Hc ltac:(by rewrite Eab) ltac:(by rewrite Ebc)) as Hac.
    pose proof (cmp_trans _ _ Hf c b a Hc Hb Ha) as Hca. rewrite (cmp_opp _ _ Hf b c), (cmp_opp _ _ Hf a b), (cmp_opp _ _ Hf a c), Eab, Ebc in Hca by done.
    specialize (Hca ltac:(done) ltac:(done)). by destruct (f a c).
Qed.
Lemma cmp_ext {A} (P : A -> Prop) f g : (forall a b, P a -> P b -> f a b = g a b) -> cmp_ok P f -> cmp_ok P g.
Proof. intros He [Ho Ht]. split; intros a b; [intros Ha Hb; rewrite <- !He by done; by apply Ho|]. intros c Ha Hb Hc. rewrite <- !He by done. by apply Ht. Qed.
Lemma cmp_map {A C} (P : C -> Prop) (g : A -> C) f : cmp_ok P f -> cmp_ok (fun a => P (g a)) (fun a b => f (g a) (g b)).
Proof. intros [Ho Ht]. split; [intros a b; apply Ho|intros a b c; apply Ht]. Qed.

(** ** Insertion sort *)

Lemma sort_by_sorted {A} (P : A -> Prop) f l : cmp_ok P f -> Forall P l -> StronglySorted (fun a b => f a b <> Gt) (sort_by f l).
Proof.
  intros Hf Hl. assert (Hi : forall x k, P x -> Forall P k -> StronglySorted (fun a b => f a b <> Gt) k -> StronglySorted (fun a b => f a b <> Gt) (insert_by f x k)).
  { intros x k Hx Hk Hs. induction Hs as [|y k Hs IH Hy]; [cbn; by repeat constructor|]. apply Forall_cons in Hk as [Hpy Hk]. cbn [insert_by].
    assert (Hle : f x y <> Gt -> StronglySorted (fun a b => f a b <> Gt) (x :: y :: k)).
    { intros Hxy. constructor; [by constructor|]. constructor; [done|]. rewrite Forall_forall in Hy, Hk |- *. intros z Hz. apply (cmp_trans _ _ Hf x y z); auto. }
    destruct (f x y) eqn:E; [by apply Hle|by apply Hle|]. constructor; [by apply IH|].
    assert (Hp : Permutation (insert_by f x k) (x :: k)).
    { clear -k. induction k as [|z k IH]; [done|]. cbn. destruct (f x z); [done|done|]. rewrite IH. apply perm_swap. }
    rewrite Hp. constructor; [|done]. by rewrite (cmp_opp _ _ Hf x y), E. }
  unfold sort_by. induction Hl as [|x l Hx Hl IH]; [constructor|]. cbn. apply Hi; [done| |done]. fold (sort_by f l). by rewrite sort_by_perm.
Qed.

(** ** The order of keys *)

Definition key_canonical (k : SortKey) : Prop := match k with KNum n => canonical n | _ => True end.
Definition num_of (k : SortKey) : Z := match k with KNum n => key_value n | _ => 0 end.
Definition temporal_of (k : SortKey) : Z * Z := match k with KTemporal r v => (r, v) | _ => (0, 0)%Z end.
Definition text_of (k : SortKey) : bytes := match k with KText t => t | _ => [] end.
Lemma cmp_keys_ok : cmp_ok key_canonical cmp_keys.
Proof.
  apply (cmp_ext _ (fun a b => then_with (Z.compare (key_rank a) (key_rank b)) (then_with (Z.compare (num_of a) (num_of b))
    (then_with (Z.compare (temporal_of a).1 (temporal_of b).1) (then_with (Z.compare (temporal_of a).2 (temporal_of b).2) (bytes_compare (text_of a) (text_of b))))))).
  - intros a b Ha Hb. unfold cmp_keys. destruct (Z.eqb_spec (key_rank a) (key_rank b)) as [E|E]; cbn [negb].
    + rewrite E, Z.compare_refl. destruct a, b; try discriminate E; cbn; try done.
      * rewrite (num_cmp_value n n0) by done. by destruct (Z.compare _ _).
      * destruct (Z.compare rank rank0); try done. by destruct (Z.compare value value0).
    + destruct (Z.compare_spec (key_rank a) (key_rank b)); done.
  - repeat first [apply cmp_then | apply (cmp_zcompare _ key_rank) | apply (cmp_zcompare _ num_of) | apply (cmp_zcompare _ (fun k => (temporal_of k).1))
      | apply (cmp_zcompare _ (fun k => (temporal_of k).2)) | apply (cmp_bytes _ text_of)].
Qed.

Section Spec.
Context `{FloatBits} `{!FloatOps} `{!Arrow} `{!ArrowLaws} `{!Unicode} `{!Normal} `{!Bitmaps} `{!BitmapLaws} `{!Ipc} `{!IpcLaws} `{!Aead} `{!AeadLaws}
  `{!Medium} `{!MediumLaws} `{!SpillDir} `{!Graphemes}.

Lemma sort_key_canonical v : key_canonical (sort_key v).
Proof.
  assert (Hn : forall text, key_canonical (match swift_plain_number text with Some n => KNum n | None => KText (natural_key text) end)).
  { intros text. destruct (swift_plain_number text) as [n|] eqn:E; [|done]. by apply swift_key_ok in E as [Hc _]. }
  destruct v; cbn [sort_key]; try done; apply Hn.
Qed.

(** ** Rows of the table *)

Definition cell_passes (cells : Row) (f : FilterSpec) : bool := match cells !! filter_column f with Some v => filter_matches f v | None => false end.
Definition cell_hits (search : bytes) (v : Value) : bool := negb (is_null v) && ci_contains (cell_text v) search.
(** A row that every filter lets through, with a cell that holds the text searched. *)
Definition cells_pass (spec : ViewSpec) (cells : Row) : bool :=
  forallb (cell_passes cells) (vs_filters spec) && match trim_search (vs_search spec) with [] => true | search => existsb (cell_hits search) cells end.
Definition passes_at (spec : ViewSpec) (t : list Row) (i : nat) : bool := match t !! i with Some cells => cells_pass spec cells | None => false end.
(** The rows of a view in the order of the table. *)
Definition passing (spec : ViewSpec) (t : list Row) : list nat :=
  if needs_rows spec then List.filter (passes_at spec t) (seq 0 (length t)) else seq 0 (length t).
Definition row_key (t : list Row) (column i : nat) : SortKey := sort_key (default VNull (t !! i ≫= (.!! column))).
(** By the key of the column, then by the order of the table whatever the direction. *)
Definition comes_before (t : list Row) (column : nat) (descending : bool) (a b : nat) : Prop :=
  match cmp_keys (row_key t column a) (row_key t column b) with Lt => descending = false | Gt => descending = true | Eq => a < b end.

(** ** Chunks that hold the table *)

(** The chunks loaded with the rows [t] of the table from [first] on. *)
Inductive holds_table (width : nat) : nat -> list (ChunkRef * StoreChunk) -> list Row -> Prop :=
  | ht_nil first : holds_table width first [] []
  | ht_cons first r chunk loaded g t : cr_first r = Z.of_nat first -> cr_rows r = Z.of_nat (length g) -> chunk_reads width chunk g ->
      holds_table width (first + length g) loaded t -> holds_table width first ((r, chunk) :: loaded) (g ++ t).
Lemma value_of_cell width chunk g i cells column : chunk_reads width chunk g -> g !! i = Some cells -> value_of chunk column i = cells !! column.
Proof.
  intros Hread Hi. destruct (cr_cells _ _ _ Hread i cells Hi) as [Hlen Hcells]. unfold value_of. destruct (cells !! column) as [v|] eqn:Hv.
  - destruct (Hcells column v Hv) as (a & e & -> & -> & ->). done.
  - apply lookup_ge_None_1 in Hv. rewrite (lookup_ge_None_2 (rb_columns _)); [done|]. rewrite (cr_width _ _ _ Hread). lia.
Qed.
Lemma row_passes_cells width chunk g i cells spec : chunk_reads width chunk g -> g !! i = Some cells -> row_passes chunk spec i = cells_pass spec cells.
Proof.
  intros Hread Hi. unfold row_passes, cells_pass. f_equal.
  - induction (vs_filters spec) as [|f l IH]; [done|]. cbn. rewrite IH. f_equal. unfold filter_passes, cell_passes. by rewrite (value_of_cell _ _ _ _ _ _ Hread Hi).
  - destruct (trim_search (vs_search spec)) as [|b search]; [done|]. rewrite (cr_width _ _ _ Hread). destruct (cr_cells _ _ _ Hread i cells Hi) as [Hlen _].
    enough (Hgen : forall n k, k + n = width -> existsb (search_hits chunk (b :: search) i) (seq k n) = existsb (cell_hits (b :: search)) (drop k cells)) by (by rewrite (Hgen width 0)).
    induction n as [|n IH]; intros k Hk; cbn [seq existsb]; [by rewrite drop_ge by lia|]. destruct (lookup_lt_is_Some_2 cells k) as [v Hv]; [lia|].
    rewrite (drop_S _ _ _ Hv). cbn [existsb]. rewrite (IH (S k)) by lia. f_equal. unfold search_hits, cell_hits. by rewrite (value_of_cell _ _ _ _ _ _ Hread Hi), Hv.
Qed.
Lemma source_row first r row : cr_first r = Z.of_nat first -> (Z.of_nat (first + row) < 2 ^ 32)%Z -> source_of r row = Z.of_nat (first + row).
Proof. intros Hf Hb. unfold source_of, add_u32. rewrite Hf, Z.mod_small; lia. Qed.
Lemma seq_shift_map first n : seq first n = (fun k => first + k) <$> seq 0 n.
Proof. by rewrite fmap_add_seq, Nat.add_0_r. Qed.
Lemma filter_map {A C} (p : C -> bool) (f : A -> C) l : List.filter p (f <$> l) = f <$> List.filter (fun x => p (f x)) l.
Proof. induction l as [|x l IH]; [done|]. rewrite fmap_cons. cbn [List.filter]. destruct (p (f x)); rewrite IH; [by rewrite fmap_cons|done]. Qed.
Lemma filter_same {A} (p q : A -> bool) l : Forall (fun x => p x = q x) l -> List.filter p l = List.filter q l.
Proof. induction 1 as [|x l Hx Hl IH]; [done|]. cbn. by rewrite Hx, IH. Qed.
Lemma map_same {A C} (f g : A -> C) l : Forall (fun x => f x = g x) l -> f <$> l = g <$> l.
Proof. induction 1 as [|x l Hx Hl IH]; [done|]. by rewrite !fmap_cons, Hx, IH. Qed.
Lemma holds_scan width T spec first loaded t : holds_table width first loaded t -> drop first T = t -> (Z.of_nat (first + length t) < 2 ^ 32)%Z ->
  scan_chunks loaded spec = Z.of_nat <$> List.filter (passes_at spec T) (seq first (length t)).
Proof.
  unfold scan_chunks. induction 1 as [|first r chunk loaded g t Hf Hr Hread Hl IH]; intros HT Hb; [done|].
  rewrite length_app in *. rewrite seq_app, List.filter_app, fmap_app, fmap_cons. change (mjoin (?x :: ?l)) with (x ++ mjoin l). cbn [fst snd].
  assert (HT2 : drop (first + length g) T = t) by (by rewrite <- drop_drop, HT, drop_app_length).
  assert (Hlook : forall k, k < length g -> T !! (first + k) = g !! k) by (intros k Hk; by rewrite <- lookup_drop, HT, lookup_app_l).
  f_equal.
  - unfold scan_chunk, ref_rows. rewrite Hr, Nat2Z.id, (seq_shift_map first), filter_map, <- list_fmap_compose.
    rewrite (filter_same (row_passes chunk spec) (fun k => passes_at spec T (first + k))).
    + apply map_same. rewrite List.Forall_forall. intros k [Hk%List.in_seq _]%List.filter_In. cbn. apply source_row; [done|lia].
    + apply Forall_seq. intros k Hk. destruct (lookup_lt_is_Some_2 g k) as [cells Hc]; [lia|]. unfold passes_at. rewrite Hlook, Hc by lia.
      by apply (row_passes_cells width chunk g).
  - apply IH; [done|lia].
Qed.
Lemma holds_keys width T column first loaded t : holds_table width first loaded t -> drop first T = t -> (Z.of_nat (first + length t) < 2 ^ 32)%Z ->
  mjoin (chunk_keys column <$> loaded) = (fun i => (Z.of_nat i, row_key T column i)) <$> seq first (length t).
Proof.
  induction 1 as [|first r chunk loaded g t Hf Hr Hread Hl IH]; intros HT Hb; [done|].
  rewrite length_app in *. rewrite seq_app, fmap_app, fmap_cons. change (mjoin (?x :: ?l)) with (x ++ mjoin l).
  assert (HT2 : drop (first + length g) T = t) by (by rewrite <- drop_drop, HT, drop_app_length).
  assert (Hlook : forall k, k < length g -> T !! (first + k) = g !! k) by (intros k Hk; by rewrite <- lookup_drop, HT, lookup_app_l).
  f_equal.
  - unfold chunk_keys, ref_rows. cbn [fst snd]. rewrite Hr, Nat2Z.id, (seq_shift_map first), <- list_fmap_compose. apply map_same, Forall_seq. intros k Hk. cbn [compose].
    rewrite (source_row first) by (done || lia). f_equal. unfold row_key. do 2 f_equal. destruct (lookup_lt_is_Some_2 g k) as [cells Hc]; [lia|].
    by rewrite (value_of_cell _ _ _ _ _ _ Hread Hc), Hlook, Hc by lia.
  - apply IH; [done|lia].
Qed.
Lemma included_flags n : forall rows flags, length flags = n -> Forall (fun r => r < n) rows ->
  forall i, i < n -> foldl (fun flags row => <[Z.to_nat row := true]> flags) flags (Z.of_nat <$> rows) !! i = Some (default false (flags !! i) || existsb (Nat.eqb i) rows).
Proof.
  induction rows as [|r rows IH]; intros flags Hl Hr i Hi; cbn [fmap list_fmap foldl existsb].
  - destruct (lookup_lt_is_Some_2 flags i) as [b Hb]; [lia|]. rewrite Hb. cbn. by rewrite orb_false_r.
  - apply Forall_cons in Hr as [Hr Hrows]. rewrite Nat2Z.id. rewrite IH; [|by rewrite length_insert|done|done]. f_equal. destruct (Nat.eqb_spec i r) as [->|Hne].
    + rewrite list_lookup_insert_eq by lia. cbn. by rewrite orb_true_r.
    + by rewrite list_lookup_insert_ne by done.
Qed.

(** ** The rows of a view *)

Lemma row_cmp_ok descending : cmp_ok (fun x : Z * SortKey => key_canonical x.2) (row_cmp descending).
Proof.
  apply cmp_then; [|apply (cmp_zcompare _ fst)]. pose proof (cmp_map key_canonical (@snd Z SortKey) cmp_keys cmp_keys_ok) as Hk.
  destruct descending; [by apply cmp_reverse|exact Hk].
Qed.
Lemma existsb_in i l : existsb (Nat.eqb i) l = true <-> i ∈ l.
Proof.
  rewrite existsb_exists, list_elem_of_In. split; [intros (x & Hx & ->%Nat.eqb_eq); done|]. intros Hi. exists i. by rewrite Nat.eqb_refl.
Qed.
Lemma passing_in spec T i : i ∈ passing spec T <-> i < length T /\ (needs_rows spec = true -> passes_at spec T i = true).
Proof.
  unfold passing. rewrite list_elem_of_In. destruct (needs_rows spec); [rewrite List.filter_In|]; rewrite List.in_seq.
  - split; [intros [Hi Hp]; split; [lia|done]|intros [Hi Hp]; split; [lia|by apply Hp]].
  - split; [intros Hi; split; [lia|done]|intros [Hi _]; lia].
Qed.
Lemma passing_nodup spec T : NoDup (passing spec T).
Proof. unfold passing. destruct (needs_rows spec); [|apply NoDup_seq]. apply NoDup_ListNoDup, List.NoDup_filter, List.seq_NoDup. Qed.
Lemma passing_kept spec T : List.filter (fun i => existsb (Nat.eqb i) (passing spec T)) (seq 0 (length T)) = passing spec T.
Proof.
  transitivity (List.filter (fun i => negb (needs_rows spec) || passes_at spec T i) (seq 0 (length T))).
  - apply filter_same, Forall_seq. intros i Hi. apply eq_true_iff_eq. rewrite existsb_in, passing_in. destruct (needs_rows spec); cbn; [|split; [done|lia]].
    split; [intros [_ Hp]; by apply Hp|]. intros Hp. split; [lia|done].
  - unfold passing. destruct (needs_rows spec); cbn; [done|]. generalize 0 as k. induction (length T) as [|n IH]; intros k; [done|]. cbn. by rewrite IH.
Qed.
Lemma sorted_order T column descending order : NoDup order ->
  StronglySorted (fun a b => row_cmp descending a b <> Gt) ((fun i => (Z.of_nat i, row_key T column i)) <$> order) ->
  StronglySorted (comes_before T column descending) order.
Proof.
  intros Hnd. induction Hnd as [|i order Hi Hnd IH]; intros Hs; [constructor|]. rewrite fmap_cons in Hs. apply StronglySorted_inv in Hs as [Hs Hall].
  constructor; [by apply IH|]. rewrite Forall_fmap, Forall_forall in Hall. apply Forall_forall. intros j Hj. specialize (Hall j Hj). cbn in Hall.
  unfold comes_before, row_cmp in *. cbn [fst snd] in Hall. assert (i <> j) by (intros ->; done).
  destruct (cmp_keys (row_key T column i) (row_key T column j)), descending; cbn in Hall; try done; destruct (Z.compare_spec (Z.of_nat i) (Z.of_nat j)); try done; lia.
Qed.
Lemma sort_rows_ok width T column descending spec loaded : holds_table width 0 loaded T -> (Z.of_nat (length T) < 2 ^ 32)%Z ->
  exists order, sort_rows loaded (Z.of_nat (length T)) column descending (Z.of_nat <$> passing spec T) = Z.of_nat <$> order
  /\ Permutation order (passing spec T) /\ StronglySorted (comes_before T column descending) order.
Proof.
  intros Hl Hb. set (f := fun i => (Z.of_nat i, row_key T column i)). unfold sort_rows, included. rewrite Nat2Z.id.
  rewrite (holds_keys width T column 0 loaded T Hl (drop_0 T) ltac:(cbn; lia)). fold f.
  set (flags := foldl _ _ _). rewrite filter_map. rewrite (filter_same _ (fun i => existsb (Nat.eqb i) (passing spec T))).
  2: { apply Forall_seq. intros i Hi. unfold f. cbn [fst]. rewrite Nat2Z.id. subst flags.
       rewrite (included_flags (length T)); [|by rewrite length_replicate| |lia]; cbn.
       - by rewrite lookup_replicate_2 by lia.
       - apply Forall_forall. intros r Hr. by apply passing_in in Hr as [Hr _]. }
  rewrite passing_kept. pose proof (sort_by_perm (row_cmp descending) (f <$> passing spec T)) as Hp.
  pose proof (sort_by_sorted _ (row_cmp descending) (f <$> passing spec T) (row_cmp_ok descending)) as Hs.
  destruct (Permutation_map_inv f (passing spec T) Hp) as (order & Heq & Hord). change (map f order) with (f <$> order) in Heq. rewrite Heq in Hs |- *.
  exists order. split; [by rewrite <- list_fmap_compose|]. split; [done|]. apply sorted_order.
  - rewrite <- Hord. apply passing_nodup.
  - apply Hs. rewrite Forall_fmap. apply Forall_forall. intros i _. cbn. apply sort_key_canonical.
Qed.
(** What a view of the rows [T] holds: [order], the rows that pass in the order asked for. *)
Record view_of (spec : ViewSpec) (T : list Row) (rows : list Z) (order : list nat) : Prop := {
  vo_rows : rows = Z.of_nat <$> order;
  vo_all : Permutation order (passing spec T);
  vo_order : match vs_sort spec with None => order = passing spec T | Some (column, descending) => StronglySorted (comes_before T column descending) order end;
}.
Lemma view_rows_ok width T spec streaming loaded : holds_table width 0 loaded T -> (Z.of_nat (length T) < 2 ^ 32)%Z ->
  let info := view_rows spec (Z.of_nat (length T)) streaming loaded in
  vi_visible info = Z.of_nat (length (passing spec T)) /\ exists order, view_of spec T (vi_rows info) order.
Proof.
  intros Hl Hb. cbn zeta. unfold view_rows. rewrite Nat2Z.id.
  assert (Hrows : (if needs_rows spec then scan_chunks loaded spec else Z.of_nat <$> seq 0 (length T)) = Z.of_nat <$> passing spec T).
  { unfold passing. destruct (needs_rows spec); [|done]. by rewrite (holds_scan width T spec 0 loaded T Hl (drop_0 T)) by (cbn; lia). }
  rewrite Hrows. cbn [vi_visible vi_rows]. rewrite length_fmap. split.
  - apply Z.mod_small. assert (length (passing spec T) <= length T); [|lia]. unfold passing. destruct (needs_rows spec).
    + etransitivity; [apply List.filter_length_le|]. by rewrite length_seq.
    + by rewrite length_seq.
  - destruct (vs_sort spec) as [[column descending]|] eqn:Hsort.
    + destruct (sort_rows_ok width T column descending spec loaded Hl Hb) as (order & Heq & Hp & Hs). exists order. split; [done|done|]. by rewrite Hsort.
    + exists (passing spec T). split; [done|done|]. by rewrite Hsort.
Qed.

(** ** Views of a store *)

(** Every chunk of a store that is not released is loaded, with its rows of the table. *)
Lemma load_all_ok published t id : forall refs w s first groups l index, Ok published t w -> w_stores w !! id = Some s ->
  st_phase s <> PhReleased -> refs = imap (fun i e => MkRef (index + i) (ce_first e) (ce_rows e)) (drop index (st_chunks s)) ->
  drop index (published id) = l -> Forall2 (chunk_reads (length (st_columns s))) l groups ->
  (fun e => (ce_first e, ce_rows e)) <$> drop index (st_chunks s) = offsets first groups ->
  exists loaded, (load_all id refs w).1 = inr loaded /\ holds_table (length (st_columns s)) first loaded (mjoin groups).
Proof.
  induction refs as [|r refs IH]; intros w s first groups l index HO Hs Hp Hrefs Hl Hgroups Hoff.
  - destruct (drop index (st_chunks s)) as [|e es]; [|discriminate Hrefs]. destruct groups as [|g groups]; [|discriminate Hoff]. exists []. split; [done|constructor].
  - destruct (drop index (st_chunks s)) as [|e es] eqn:Hd; [discriminate Hrefs|]. destruct groups as [|g groups]; [discriminate Hoff|].
    rewrite fmap_cons in Hoff. cbn [offsets] in Hoff. injection Hoff as Hfirst Hrows Hoff. rewrite imap_cons in Hrefs. injection Hrefs as -> Hrefs. rewrite Nat.add_0_r.
    assert (He : st_chunks s !! index = Some e) by (by rewrite <- (Nat.add_0_r index), <- lookup_drop, Hd).
    assert (Hdrop : es = drop (S index) (st_chunks s)) by (apply (f_equal (drop 1)) in Hd; cbn in Hd; rewrite drop_drop in Hd; by rewrite <- Hd, Nat.add_1_r, drop_0 || (rewrite Nat.add_1_r in Hd; done)).
    destruct l as [|c l]; [by inversion Hgroups|]. apply Forall2_cons in Hgroups as [Hread Hgroups].
    assert (Hc : published id !! index = Some c) by (by rewrite <- (Nat.add_0_r index), <- lookup_drop, Hl).
    assert (Hl' : drop (S index) (published id) = l) by (apply (f_equal (drop 1)) in Hl; rewrite drop_drop, Nat.add_1_r in Hl; by rewrite Hl).
    cbn [load_all cr_index]. pose proof (ok_inv _ _ _ HO) as HI. destruct (load_chunk_found published 0 id index w s e HI Hs He) as [c' Hc'].
    pose proof (load_chunk_ok published 0 id index w HI) as Hload. unfold wp in Hload. unfold mbind, store_bind.
    destruct (load_chunk id index w) as [x w1]. cbn [fst snd] in *. subst x. destruct Hload as [[HI1 F1] Hpub]. rewrite Hc in Hpub. injection Hpub as <-.
    pose proof (ok_frame _ _ _ _ HO HI1 F1) as HO1. pose proof (fr_shape _ _ F1 id) as Hsh. rewrite Hs in Hsh.
    destruct (w_stores w1 !! id) as [s1|] eqn:Hs1; [|discriminate Hsh]. injection Hsh as Hcols Hchunks _ _ Hph _ _ _ _ _ _.
    assert (Hcd : (fun e => (ce_first e, ce_rows e)) <$> drop (S index) (st_chunks s1) = (fun e => (ce_first e, ce_rows e)) <$> drop (S index) (st_chunks s))
      by (by rewrite !fmap_drop, Hchunks).
    destruct (IH w1 s1 (first + length g) groups l (S index) HO1 Hs1 ltac:(congruence)) as (loaded & Hloaded & Hht).
    + rewrite Hrefs, Hdrop. clear -Hcd. revert Hcd. generalize (drop (S index) (st_chunks s1)), (drop (S index) (st_chunks s)). intros a b Hab.
      apply list_eq. intros i. rewrite !list_lookup_imap. apply (f_equal (lookup i)) in Hab. rewrite !list_lookup_fmap in Hab.
      destruct (a !! i), (b !! i); cbn in *; try done. injection Hab as -> ->. do 2 f_equal. lia.
    + exact Hl'.
    + by rewrite Hcols.
    + rewrite Hcd, <- Hdrop. exact Hoff.
    + destruct (load_all id refs w1) as [y w2]. cbn [fst] in Hloaded. subst y. eexists. split; [done|].
      change (mjoin (g :: groups)) with (g ++ mjoin groups). rewrite Hcols in Hht. by constructor.
Qed.
Lemma store_loads published t w id s : Ok published t w -> w_stores w !! id = Some s -> st_phase s <> PhReleased ->
  exists loaded, (load_all id (chunk_refs s) w).1 = inr loaded /\ holds_table (length (st_columns s)) 0 loaded (t id).
Proof.
  intros HO Hs Hp. destruct (ok_tables _ _ _ HO id s Hs) as [(groups & Hg & Hj & Hoff) _ _ _ _]. rewrite <- Hj.
  apply (load_all_ok published t id (chunk_refs s) w s 0 groups (published id) 0); try done. by apply Hoff.
Qed.

(** ** What is installed, and what an expansion adds *)

Lemma load_all_steady published id refs : forall w, Inv published 0 w -> wp (load_all id refs) (steady published 0 w) w.
Proof.
  induction refs as [|r refs IH]; intros w HI; [by apply steady_refl|]. cbn [load_all].
  apply steady_bind; [eapply wp_mono; [|by apply (load_chunk_ok published)]; by intros x w' [Hs _]|]. intros c w1 HI1.
  apply steady_bind; [by apply IH|]. intros l w2 HI2. by apply steady_refl.
Qed.
Lemma holding_frame {A} (m : M A) w : Frame w (m w).2 -> Frame w (holding m w).2.
Proof. unfold holding. destruct (m w) as [r w']. cbn [snd]. intros []. by split. Qed.
(** What a spec asks of a store, or why it is refused. *)
Definition store_gate (spec : ViewSpec) (s : StoreShared) : option (StoreError + ViewInfo) :=
  view_gate spec (st_rows s) (negb (phase_is_finished (st_phase s))) (length (st_columns s)).
Lemma compute_view_ok published t w id s spec : Ok published t w -> w_stores w !! id = Some s -> st_phase s <> PhReleased ->
  Frame w (compute_view id spec w).2
  /\ match store_gate spec s with
     | Some answer => (compute_view id spec w).1 = answer
     | None => exists info order, (compute_view id spec w).1 = inr info
         /\ vi_visible info = Z.of_nat (length (passing spec (t id))) /\ view_of spec (t id) (vi_rows info) order
     end.
Proof.
  intros HO Hs Hp. pose proof (ok_tables _ _ _ HO id s Hs) as Ht. unfold compute_view, store_gate. rewrite holding_result. split.
  - apply holding_frame. unfold mbind, store_bind, get_store. rewrite Hs. destruct (view_gate _ _ _ _) as [[e|info]|]; [done|done|].
    pose proof (load_all_steady published id (chunk_refs s) w (ok_inv _ _ _ HO)) as [_ HF]. by destruct (load_all id (chunk_refs s) w) as [[e|l] w1].
  - unfold mbind, store_bind, get_store. rewrite Hs.
    destruct (view_gate _ _ _ _) as [[e|info]|]; [done|done|]. destruct (store_loads published t w id s HO Hs Hp) as (loaded & Hload & Hht).
    destruct (load_all id (chunk_refs s) w) as [x w1]. cbn [fst] in Hload. subst x. rewrite (tb_rows _ _ _ Ht). cbn [fst].
    destruct (view_rows_ok _ _ spec (negb (phase_is_finished (st_phase s))) loaded Hht (tb_small _ _ _ Ht)) as (Hvis & order & Ho). by eexists _, order.
Qed.
(** Queueing an expansion changes nothing of the view but the mark that one is queued. *)
Lemma maybe_expand_view_ok id w s vid v : w_stores w !! id = Some s -> current_view s = Some (vid, v) ->
  (maybe_expand_view id w).1 = inr tt /\ exists s' flag, w_stores (maybe_expand_view id w).2 !! id = Some s' /\ current_view s' = Some (vid, set_expanding flag v).
Proof.
  intros Hs Hv. assert (Hsame : exists s' flag, w_stores w !! id = Some s' /\ current_view s' = Some (vid, set_expanding flag v)).
  { exists s, (v_expanding v). split; [done|]. rewrite Hv. by destruct v. }
  unfold maybe_expand_view, mbind, store_bind, get_store. rewrite Hs, Hv. destruct (_ || _); [by split|]. destruct (_ <=? _); [by split|].
  destruct (v_expanding v); [by split|]. split; [done|]. unfold change_store, change. wsimp. unfold set_tasks. wsimp.
  rewrite lookup_alter_eq, Hs. eexists _, true. split; [done|]. revert Hv. unfold current_view, set_view_of. cbn.
  destruct (st_view s) as [x|]; [|done]. destruct (st_views s !! x) as [y|] eqn:Hy; [|done]. intros [= -> ->]. by rewrite lookup_alter_eq, Hy.
Qed.
(** What [set_view] publishes of the rows [T]: the count of the result and no list for a spec that asks for nothing,
    else the rows that pass in their order; an expansion is owed only while rows still come, by a view
    that is filtered or searched and not sorted, and starts at the first chunk. *)
Record installed (spec : ViewSpec) (T : list Row) (streaming : bool) (v : View) : Prop := {
  in_spec : v_spec v = spec; in_live : v_cancel v = false; in_scanned : v_scanned v = 0;
  in_expandable : v_expandable v = streaming && negb (is_identity spec) && is_none (vs_sort spec) && needs_rows spec;
  in_rows : if is_identity spec then v_identity v = true /\ v_len v = Z.of_nat (length T)
            else v_identity v = false /\ v_len v = Z.of_nat (length (passing spec T)) /\ exists order, view_of spec T (v_rows v) order;
}.
Lemma passing_length spec T : length (passing spec T) <= length T.
Proof.
  unfold passing. destruct (needs_rows spec); [|by rewrite length_seq]. etransitivity; [apply List.filter_length_le|]. by rewrite length_seq.
Qed.
Lemma view_new_installed vid spec T streaming info width : (Z.of_nat (length T) < 2 ^ 32)%Z ->
  match view_gate spec (Z.of_nat (length T)) streaming width with
  | Some answer => inr info = answer
  | None => exists order, view_of spec T (vi_rows info) order
  end -> installed spec T streaming (view_new vid spec info streaming).
Proof.
  intros Hsm Hi. unfold view_new. unfold view_gate in Hi. destruct (is_identity spec) eqn:Hid.
  - injection Hi as ->. split; cbn; rewrite ?Hid; try done.
  - destruct (check_columns spec width); [done|]. destruct (negb _ && streaming); [done|]. destruct Hi as (order & Ho).
    split; cbn; rewrite ?Hid; try done. split; [done|]. split; [|by exists order]. rewrite (vo_rows _ _ _ _ Ho), length_fmap, (vo_all _ _ _ _ Ho).
    apply Z.mod_small. pose proof (passing_length spec T). lia.
Qed.
(** The end of [set_view]: the view is published, and its expansion queued. *)
Definition publish_view (id vid : Z) (v : View) : M Z :=
  _ ← change_store id (install_view vid v); _ ← maybe_expand_view id; mret vid.
Lemma publish_view_ok id vid v w s : w_stores w !! id = Some s ->
  (publish_view id vid v w).1 = inr vid /\ exists s' flag, w_stores (publish_view id vid v w).2 !! id = Some s' /\ current_view s' = Some (vid, set_expanding flag v).
Proof.
  intros Hs. pose proof (change_store_put id (install_view vid v) w s Hs) as Hput. unfold publish_view, mbind, store_bind.
  destruct (change_store id (install_view vid v) w) as [r3 w3] eqn:Ech. injection Ech as <- _. cbn [snd] in Hput.
  assert (Hs3 : w_stores w3 !! id = Some (install_view vid v s)) by (rewrite Hput; wsimp; by rewrite lookup_insert_eq).
  destruct (maybe_expand_view_ok id w3 (install_view vid v s) vid v Hs3) as (Hr & s' & flag & Hs' & Hcv); [unfold current_view, install_view; cbn; by rewrite lookup_insert_eq|].
  destruct (maybe_expand_view id w3) as [r4 w4]. cbn [fst snd] in *. subst r4. split; [done|]. by exists s', flag.
Qed.
Lemma set_view_runs id spec w s : w_stores w !! id = Some s -> st_phase s <> PhReleased ->
  set_view id spec w = match compute_view id spec (change_store id next_view w).2 with
                       | (inl e, w2) => (inl e, w2)
                       | (inr info, w2) =>
                           publish_view id (st_view_seq s + 1) (view_new (st_view_seq s + 1) spec info (negb (phase_is_finished (st_phase s)))) w2
                       end.
Proof.
  intros Hs Hp. unfold set_view, mbind, store_bind, get_store. rewrite Hs. destruct (decide _); [done|]. cbv zeta.
  change (change_store id next_view w) with ((inr tt : StoreError + unit), (change_store id next_view w).2).
  cbn beta iota. by destruct (compute_view _ _ _) as [[e|info] w2].
Qed.
Lemma set_view_ok published t w id s spec : Ok published t w -> w_stores w !! id = Some s -> st_phase s <> PhReleased ->
  match store_gate spec s with
  | Some (inl e) => (set_view id spec w).1 = inl e
  | _ => exists vid s' v, (set_view id spec w).1 = inr vid /\ w_stores (set_view id spec w).2 !! id = Some s' /\ current_view s' = Some (vid, v)
      /\ installed spec (t id) (negb (phase_is_finished (st_phase s))) v
  end.
Proof.
  intros HO Hs Hp. pose proof (ok_tables _ _ _ HO id s Hs) as Ht. rewrite (set_view_runs _ _ _ _ Hs Hp).
  set (streaming := negb _). pose proof (change_quiet published t w id next_view HO ltac:(intros ?; split; cbn; auto; done)) as HO1. unfold wp, kept in HO1.
  assert (Hs1 : w_stores (change_store id next_view w).2 !! id = Some (next_view s)) by (rewrite (change_store_put id next_view w s Hs); wsimp; by rewrite lookup_insert_eq).
  generalize dependent (change_store id next_view w).2. intros w1 HO1 Hs1.
  destruct (compute_view_ok _ _ _ _ _ spec HO1 Hs1 Hp) as [F2 Hc]. change (store_gate spec (next_view s)) with (store_gate spec s) in Hc.
  destruct (compute_view id spec w1) as [r2 w2]. cbn [fst snd] in *.
  pose proof (fr_shape _ _ F2 id) as Hsh. rewrite Hs1 in Hsh. destruct (w_stores w2 !! id) as [s2|] eqn:Hs2; [|discriminate Hsh].
  set (vid := (st_view_seq s + 1)%Z). unfold store_gate in *. rewrite (tb_rows _ _ _ Ht) in *. fold streaming in Hc |- *.
  pose proof (fun info => view_new_installed vid spec (t id) streaming info (length (st_columns s)) (tb_small _ _ _ Ht)) as Hnew.
  assert (Hgo : forall info, installed spec (t id) streaming (view_new vid spec info streaming) -> exists vid' s' v,
    (publish_view id vid (view_new vid spec info streaming) w2).1 = inr vid' /\ w_stores (publish_view id vid (view_new vid spec info streaming) w2).2 !! id = Some s'
    /\ current_view s' = Some (vid', v) /\ installed spec (t id) streaming v).
  { intros info Hin. destruct (publish_view_ok id vid (view_new vid spec info streaming) w2 s2 Hs2) as (Hr & s' & flag & Hs' & Hcv).
    eexists vid, s', _. split_and!; [done|done|exact Hcv|]. by destruct Hin. }
  destruct (view_gate _ _ _ _) as [[e|info]|]; [by subst r2|subst r2; by apply Hgo, Hnew|].
  destruct Hc as (info & order & -> & _ & Ho). apply Hgo, Hnew. by exists order.
Qed.
Lemma offsets_drop k : forall first groups, drop k (offsets first groups) = offsets (first + length (mjoin (take k groups))) (drop k groups).
Proof.
  induction k as [|k IH]; intros first groups; [cbn; by rewrite Nat.add_0_r|]. destruct groups as [|g groups]; [done|]. cbn [drop take offsets].
  rewrite IH. change (mjoin (g :: take k groups)) with (g ++ mjoin (take k groups)). rewrite length_app. f_equal. lia.
Qed.
(** The chunks from the [k]-th on are loaded, with their rows of the table. *)
Lemma store_loads_from published t w id s k e : Ok published t w -> w_stores w !! id = Some s -> st_phase s <> PhReleased -> st_chunks s !! k = Some e ->
  exists loaded first, (load_all id (drop k (chunk_refs s)) w).1 = inr loaded /\ ce_first e = Z.of_nat first /\ first <= length (t id)
    /\ holds_table (length (st_columns s)) first loaded (drop first (t id)).
Proof.
  intros HO Hs Hp He. destruct (ok_tables _ _ _ HO id s Hs) as [(groups & Hg & Hj & Hoff) _ _ _ _]. specialize (Hoff Hp).
  set (first := length (mjoin (take k groups))). assert (Hd : mjoin (drop k groups) = drop first (t id)).
  { rewrite <- Hj. transitivity (drop first (mjoin (take k groups ++ drop k groups))); [|by rewrite take_drop]. rewrite join_app. unfold first. by rewrite drop_app_length. }
  assert (Hoffk : (fun e => (ce_first e, ce_rows e)) <$> drop k (st_chunks s) = offsets first (drop k groups)) by (by rewrite fmap_drop, Hoff, offsets_drop).
  destruct (load_all_ok published t id (drop k (chunk_refs s)) w s first (drop k groups) (drop k (published id)) k HO Hs Hp) as (loaded & Hl & Hh); try done.
  - unfold chunk_refs. apply list_eq. intros i. rewrite lookup_drop, !list_lookup_imap, lookup_drop. done.
  - by apply Forall2_drop.
  - exists loaded, first. split; [done|]. split.
    + destruct (drop k groups) as [|g gs]; [apply (f_equal length) in Hoffk; rewrite length_fmap, length_drop in Hoffk; apply lookup_lt_Some in He; cbn in Hoffk; lia|].
      apply (f_equal (lookup 0)) in Hoffk. rewrite list_lookup_fmap, lookup_drop, Nat.add_0_r, He in Hoffk. cbn in Hoffk. by injection Hoffk.
    + rewrite <- Hd. split; [|done]. rewrite <- Hj. unfold first. transitivity (length (mjoin (take k groups ++ drop k groups))); [|by rewrite take_drop].
      rewrite join_app, length_app. lia.
Qed.
(** An expansion adds the rows that pass of the chunks not scanned yet, in their order. *)
Lemma expand_view_ok published t w id s vid v e : Ok published t w -> w_stores w !! id = Some s -> st_phase s <> PhReleased ->
  st_views s !! vid = Some v -> v_cancel v = false -> st_chunks s !! v_scanned v = Some e ->
  exists s' v', w_stores (expand_view id vid w).2 !! id = Some s' /\ st_views s' !! vid = Some v' /\ v_scanned v' = length (st_chunks s)
    /\ v_rows v' = v_rows v ++ (Z.of_nat <$> List.filter (passes_at (v_spec v) (t id)) (seq (Z.to_nat (ce_first e)) (length (t id) - Z.to_nat (ce_first e)))).
Proof.
  intros HO Hs Hp Hv Hc He. destruct (store_loads_from _ _ _ _ _ _ _ HO Hs Hp He) as (loaded & first & Hl & Hf & Hle & Hh).
  pose proof (load_all_steady published id (drop (v_scanned v) (chunk_refs s)) w (ok_inv _ _ _ HO)) as [_ HF].
  pose proof (tb_small _ _ _ (ok_tables _ _ _ HO id s Hs)) as Hsm.
  assert (Hlen : length (chunk_refs s) = length (st_chunks s)) by (unfold chunk_refs; by rewrite length_imap).
  unfold expand_view, holding. unfold mbind, store_bind, get_store, attempt. rewrite Hs, Hv, Hlen.
  assert ((length (st_chunks s) <=? v_scanned v) = false) as -> by (apply Nat.leb_gt; by eapply lookup_lt_Some).
  destruct (load_all id _ w) as [r w1]. cbn [fst snd] in *. subst r. rewrite Hc.
  pose proof (fr_shape _ _ HF id) as Hsh. rewrite Hs in Hsh. destruct (w_stores w1 !! id) as [s1|] eqn:Hs1; [|discriminate Hsh].
  injection Hsh as _ _ _ _ _ _ _ _ Hviews _ _ _.
  unfold change_store, change. wsimp. rewrite lookup_alter_eq, Hs1. eexists _, _. split; [done|]. cbn [st_views set_view_of].
  rewrite lookup_alter_eq, Hviews, Hv. split; [done|].
  rewrite (holds_scan _ (t id) (v_spec v) first loaded _ Hh eq_refl) by (rewrite length_drop; lia). rewrite Hf, Nat2Z.id, length_drop.
  split; [done|]. unfold append_rows. destruct (Z.of_nat <$> _) as [|x l]; [by rewrite app_nil_r|done].
Qed.

(** C28: A view of a result is the filtered and sorted table when it is installed. In every run of the
    registry, whatever the chunks' places, a view is refused only for a column out of range or a sort
    while rows still come; otherwise the view that is current afterwards has exactly the rows every
    filter lets through and the search finds, each once, its count is theirs, and they are in the order
    of the result, or sorted by the key of the column, rows of equal keys in the order of the result
    in both directions. The keys are totally ordered, numbers by value first, then dates and times,
    then text, then NULL. A view of a finished result owes no expansion; an unsorted one of a result whose rows
    still come does, and an expansion adds the rows that pass of the chunks from the first it has not
    scanned, which for a view just installed is the first of all: the rows it already has come again. *)
Theorem view_is_the_filtered_sorted_table config cipher w t id s spec : reachable config cipher w t ->
  w_stores w !! id = Some s -> st_phase s <> PhReleased ->
  match store_gate spec s with
  | Some (inl e) => (set_view id spec w).1 = inl e
  | _ => exists vid s' v, (set_view id spec w).1 = inr vid /\ w_stores (set_view id spec w).2 !! id = Some s' /\ current_view s' = Some (vid, v)
      /\ installed spec (t id) (negb (phase_is_finished (st_phase s))) v
  end
  /\ (forall vid v e, st_views s !! vid = Some v -> v_cancel v = false -> st_chunks s !! v_scanned v = Some e ->
       exists s' v', w_stores (expand_view id vid w).2 !! id = Some s' /\ st_views s' !! vid = Some v' /\ v_scanned v' = length (st_chunks s)
         /\ v_rows v' = v_rows v ++ (Z.of_nat <$> List.filter (passes_at (v_spec v) (t id)) (seq (Z.to_nat (ce_first e)) (length (t id) - Z.to_nat (ce_first e)))))
  /\ cmp_ok key_canonical cmp_keys /\ forall v, key_canonical (sort_key v).
Proof.
  intros Hr Hs Hp. destruct (run_ok _ _ _ _ Hr) as [published HO].
  split; [by eapply set_view_ok|]. split; [|split; [apply cmp_keys_ok|apply sort_key_canonical]]. intros vid v e Hv Hc He. by eapply expand_view_ok.
Qed.
End Spec.

(** ** Small views *)

#[local] Existing Instances no_float Toy.toy_bits Toy.toy_arrow Toy.toy_laws Small.small_bitmaps Small.small_bitmap_laws Small.small_unicode
  Small.small_normal Disk.small_aead Disk.small_aead_laws Spilling.no_float_ops Spilling.two_ipc Spilling.two_ipc_laws Spilling.small_medium
  Spilling.small_medium_laws Spilling.small_dir Spilling.small_graphemes.
Module Viewed.
Definition finished : World := run_call (Finish 1 (OcComplete false)) Spilling.twice.
Definition sorted : ViewSpec := MkSpec (Some (0, true)) [FText 0 []] [].
Lemma finished_reachable : reachable Spilling.config Spilling.cipher finished Spilling.table.
Proof. apply reach_call; [apply Spilling.twice_reachable|exact I]. Qed.
Definition filtered : ViewSpec := MkSpec None [FText 0 (B "a")] [].
Definition view_shown (w : World) : option (list Z) := w_stores w !! 1%Z ≫= fun s => (fun x => v_rows x.2) <$> current_view s.
(** A filter set while rows still come holds its one row; the task queued with it scans the same chunks
    again and holds it twice. *)
Example streaming_filter_doubles :
  let set := (set_view 1 filtered Spilling.twice).2 in view_shown set = Some [1%Z] /\ view_shown (run_task set).2 = Some [1%Z; 1%Z].
Proof. vm_compute. by split. Qed.
End Viewed.
Lemma view_is_the_filtered_sorted_table_witness : exists vid s' v order,
  (set_view 1 Viewed.sorted Viewed.finished).1 = inr vid /\ w_stores (set_view 1 Viewed.sorted Viewed.finished).2 !! 1%Z = Some s' /\ current_view s' = Some (vid, v)
  /\ v_len v = 3%Z /\ v_expandable v = false /\ view_of Viewed.sorted (Spilling.table 1%Z) (v_rows v) order /\ v_rows v = [1%Z; 2%Z; 0%Z].
Proof.
  destruct (w_stores Viewed.finished !! 1%Z) as [s|] eqn:Hs; [|vm_compute in Hs; discriminate Hs].
  pose proof (proj1 (view_is_the_filtered_sorted_table Spilling.config Spilling.cipher Viewed.finished Spilling.table 1 s Viewed.sorted
    Viewed.finished_reachable Hs ltac:(vm_compute in Hs; injection Hs as <-; discriminate))) as Hv.
  assert (Hg : store_gate Viewed.sorted s = None) by (vm_compute in Hs; injection Hs as <-; reflexivity).
  rewrite Hg in Hv. destruct Hv as (vid & s' & v & Hr & Hs' & Hc & [_ _ _ He Hi]).
  change (is_identity Viewed.sorted) with false in Hi. cbn iota in Hi. destruct Hi as (_ & Hl & order & Ho).
  exists vid, s', v, order. split; [exact Hr|]. split; [exact Hs'|]. split; [exact Hc|]. split; [rewrite Hl; vm_compute; reflexivity|].
  split; [rewrite He; vm_compute in Hs; injection Hs as <-; reflexivity|]. split; [exact Ho|].
  clear -Hs' Hc. vm_compute in Hs'. injection Hs' as <-. vm_compute in Hc. injection Hc as _ <-. vm_compute. reflexivity.
Defined.
