(* ===== verification/TransferPlan.v ===== *)
(** * TransferPlan: the statements a transfer writes and the decision about each,
    [crates/qh-ffi/src/transfer/plan.rs], and the errors a run ends with, [CliError] of
    [crates/qh-ffi/src/lib.rs].

    A statement is read again under the destination's dialect before it is sent ([check_structure])
    and decided once per text ([allow]); [gate] is the decision that needs no network. *)
From stdpp Require Import gmap.
From S2P Require Import Prelude Bytes Text Scan Ident Script Classify ClassifySpec ExecLog Env Guard GuardSpec Value SqlType.
From S2P Require Import Names Types.
#[local] Open Scope nat_scope.

(** ** Errors *)

Inductive ErrorSide := SideSource | SideTarget.
#[export] Instance ErrorSide_eq_dec : EqDecision ErrorSide.
Proof. solve_decision. Defined.
(** The errors a transfer makes, by their message: [RDriver] is what a driver answered ([Connect],
    [Query], [QueryAt] or [HostKey]), [RSetting] a setting that is not a number, [RExport] what the
    export crate answered. *)
Inductive RunError :=
| RUsage (message : bytes)
| RSetting (message : bytes)
| RStorage (message : bytes)
| RDriver (message : bytes)
| RQuery (message : bytes)
| RInternal (message : bytes)
| RIo (message : bytes)
| RExport (message : bytes)
| RWarned (message : bytes) (warnings : list bytes)
| RSided (side : ErrorSide) (inner : RunError).
Definition on (side : ErrorSide) (e : RunError) : RunError := match e with RSided _ _ => e | _ => RSided side e end.
Definition error_side (e : RunError) : option ErrorSide := match e with RSided s _ => Some s | _ => None end.
Fixpoint error_warnings (e : RunError) : list bytes :=
  match e with RWarned _ ws => ws | RSided _ inner => error_warnings inner | _ => [] end.
Fixpoint run_message (e : RunError) : bytes :=
  match e with
  | RUsage m | RSetting m | RStorage m | RDriver m | RQuery m | RIo m | RExport m | RWarned m _ => m
  | RInternal m => B "internal error: " ++ m
  | RSided _ inner => run_message inner
  end.

(** ** The engine's own statements *)

Inductive EngineStatement :=
| Begin_ | Commit_ | Rollback_ | StrictMode | Utf8mb4 | MaxPacket | ExtraFloatDigits | DateStyle | IntervalStyle
| ByteaOutput | ProbeMysql | ArrayNulls.
#[export] Instance EngineStatement_eq_dec : EqDecision EngineStatement.
Proof. solve_decision. Defined.
Definition engine_statements : list EngineStatement :=
  [Begin_; Commit_; Rollback_; StrictMode; Utf8mb4; MaxPacket; ExtraFloatDigits; DateStyle; IntervalStyle; ByteaOutput;
   ProbeMysql; ArrayNulls].
Definition SOURCE_READING : list EngineStatement := [ExtraFloatDigits; DateStyle; IntervalStyle; ByteaOutput].
Definition engine_text (s : EngineStatement) : string :=
  match s with
  | Begin_ => "BEGIN" | Commit_ => "COMMIT" | Rollback_ => "ROLLBACK"
  | StrictMode => "SET SESSION sql_mode = CONCAT_WS(',', NULLIF(@@sql_mode, ''), 'STRICT_ALL_TABLES')"
  | Utf8mb4 => "SET NAMES utf8mb4" | MaxPacket => "SELECT @@max_allowed_packet"
  | ExtraFloatDigits => "SET extra_float_digits = 3" | DateStyle => "SET DateStyle = ISO"
  | IntervalStyle => "SET IntervalStyle = postgres" | ByteaOutput => "SET bytea_output = hex"
  | ProbeMysql => "SELECT COUNT(*) FROM information_schema.tables WHERE table_schema = ? AND table_name = ?"
  | ArrayNulls => "SET array_nulls = on"
  end.
Definition engine_dialect (s : EngineStatement) : Dialect :=
  match s with StrictMode | Utf8mb4 | MaxPacket | ProbeMysql => Mysql | _ => Postgres end.
Definition engine_kind (s : EngineStatement) : StatementKind :=
  match s with MaxPacket | ProbeMysql => KReadOnly | _ => KUnknown end.

(** ** The written statements *)

Record Planned := MkPlanned { pl_text : bytes; pl_kind : StatementKind }.
Definition ddl_of (t : bytes) : Planned := MkPlanned t KDdl.
Definition dml_of (t : bytes) : Planned := MkPlanned t KDml.

(** [str::replace] of one character. *)
Definition replace1 (c : Z) (by_ : bytes) (s : bytes) : bytes := mjoin ((fun b => if b =b c then by_ else [b]) <$> s).
Definition literal (text : bytes) : bytes :=
  if existsb (fun b => b =b BACKSLASH) text then
    B "E'" ++ replace1 SQUOTE [SQUOTE; SQUOTE] (replace1 BACKSLASH [BACKSLASH; BACKSLASH] text) ++ B "'"
  else B "'" ++ replace1 SQUOTE [SQUOTE; SQUOTE] text ++ B "'".

Record WritePlan := MkWrite {
  wp_target : Target; wp_mode : TransferMode; wp_write_into : bytes; wp_table : bytes; wp_label : bytes;
  wp_scratch : option bytes; wp_scratch_label : option bytes; wp_columns : bytes; wp_column_count : nat;
  wp_create : Planned; wp_copy : option Planned; wp_swap : list Planned; wp_drop_old : option Planned;
  wp_cleanup : option Planned }.

Inductive ProbeCall := ProbeText (p : Planned) | ProbeBound (s : EngineStatement) (values : list bytes).
Definition probe (t : Target) (namespace table : bytes) : NameFault + ProbeCall :=
  match qualified t [namespace; table] with
  | inl f => inl f
  | inr q =>
      inr match t with
          | TPostgres => ProbeText (MkPlanned (B "SELECT to_regclass(" ++ literal q ++ B ")") KReadOnly)
          | TMysql => ProbeBound ProbeMysql [namespace; table]
          end
  end.

Definition new_name (stamp : bytes) : bytes := B "qh_new_" ++ stamp.
Definition old_name (stamp : bytes) : bytes := B "qh_old_" ++ stamp.
Definition is_direct (t : Target) (m : TransferMode) : bool :=
  match t, m with TPostgres, TCreate => true | _, _ => false end.

(** The statements of each target, from the texts of the table, the scratch and the backup. *)
Definition pg_copy (write_into columns : bytes) : Planned :=
  dml_of (B "COPY " ++ write_into ++ B " (" ++ columns ++ B ") FROM STDIN").
Definition pg_swap (table scratch name : bytes) : list Planned :=
  [ddl_of (B "DROP TABLE IF EXISTS " ++ table); ddl_of (B "ALTER TABLE " ++ scratch ++ B " RENAME TO " ++ name)].
Definition my_swap (table scratch : bytes) (backup : option bytes) : list Planned :=
  [ddl_of match backup with
          | Some b => B "RENAME TABLE " ++ table ++ B " TO " ++ b ++ B ", " ++ scratch ++ B " TO " ++ table
          | None => B "RENAME TABLE " ++ scratch ++ B " TO " ++ table
          end].

Definition build (tp : TablePlan) (mode : TransferMode) (namespace name : bytes) (existed : bool) (stamp : bytes)
  : NameFault + WritePlan :=
  let t := tp_target tp in
  match qualified t [namespace; name] with
  | inl f => inl f
  | inr table =>
      match qualified t [namespace; new_name stamp] with
      | inl f => inl f
      | inr scratch =>
          match qualified t [namespace; old_name stamp] with
          | inl f => inl f
          | inr backup =>
              let columns := join_sep (B ", ") ((fun c => ident t (pc_name c)) <$> tp_columns tp) in
              let direct := is_direct t mode in
              let write_into := if direct then table else scratch in
              let replaces := match mode with TReplace => existed | TCreate => false end in
              inr (MkWrite t mode write_into table (namespace ++ B "." ++ name)
                     (if direct then None else Some scratch)
                     (if direct then None else Some (namespace ++ B "." ++ new_name stamp))
                     columns (List.length (tp_columns tp)) (ddl_of (create_table_sql tp write_into))
                     (match t with TPostgres => Some (pg_copy write_into columns) | TMysql => None end)
                     (match t, mode with
                      | TPostgres, TReplace => pg_swap table scratch (ident t name)
                      | TPostgres, TCreate => []
                      | TMysql, _ => my_swap table scratch (if replaces then Some backup else None)
                      end)
                     (match t with TMysql => if replaces then Some (ddl_of (B "DROP TABLE " ++ backup)) else None
                                 | TPostgres => None end)
                     (match t with TMysql => Some (ddl_of (B "DROP TABLE IF EXISTS " ++ scratch)) | TPostgres => None end))
          end
      end
  end.

(** The backup's label takes the namespace from the table's label, up to its last dot. *)
Definition backup_label (p : WritePlan) (stamp : bytes) : bytes :=
  (match rsplit_once (fun b => b =b DOT) (wp_label p) with Some (namespace, _) => namespace | None => [] end)
  ++ B "." ++ old_name stamp.
Definition insert_row (columns : nat) : bytes := B "(" ++ join_sep (B ", ") (replicate columns (B "?")) ++ B ")".
Definition insert (p : WritePlan) (rows : nat) : Planned :=
  dml_of (B "INSERT INTO " ++ wp_write_into p ++ B " (" ++ wp_columns p ++ B ") VALUES "
          ++ join_sep (B ", ") (replicate rows (insert_row (wp_column_count p)))).
Definition plan_statements (p : WritePlan) : list Planned :=
  wp_create p :: option_list (wp_copy p)
  ++ match wp_target p with TMysql => [insert p 1] | TPostgres => [] end
  ++ wp_swap p ++ option_list (wp_drop_old p) ++ option_list (wp_cleanup p).

(** ** Decisions *)

Definition check_structure (p : Planned) (d : Dialect) : option RunError :=
  let count := List.length (statements_dialect (pl_text p) (lexer_of d)) in
  let kind := classify_readings (pl_text p) (readings d) in
  if (count =? 1) && bool_decide (kind = pl_kind p) then None
  else Some (RInternal
    (B "a statement of the copy to another connection read as " ++ decimal (Z.of_nat count)
     ++ B " statement(s) of kind " ++ B (kind_label kind) ++ B ", and the plan says one of kind " ++ B (kind_label (pl_kind p))
     ++ B "; nothing was sent")).

Record Decider := MkDecider { ddl_mode : SafeMode; dml_mode : SafeMode; dc_confirmed : bool; dc_dialect : Dialect; decided : list bytes }.
Definition decider_new (f : SafeModeFloor) (confirmed : bool) (d : Dialect) : Decider :=
  MkDecider (destructive_mode_of f) (match floor_resolve f with Some (m, _) => m | None => MFull end) confirmed d [].

Definition REPLACE_ON_CONFIRM : string :=
  "a replace deletes the existing table, so a destination that asks before it writes does not offer it".

Section Decisions.
Context {S : Type} `{ExecutionStore S}.
(** The clock, and the message of a log that was not written. *)
Variable now_millis : S -> Z.
Variable storage_message : bytes.

Definition guarded (r : option S * (CliError + unit)) : option S * option RunError :=
  match r with
  | (sink, inl (Usage m)) => (sink, Some (RUsage m))
  | (sink, inl StorageFailed) => (sink, Some (RStorage storage_message))
  | (sink, inr _) => (sink, None)
  end.

(** [Decider::allow]: the log as it is left, the decider and the refusal. *)
Definition allow (sink : option S) (dc : Decider) (p : Planned) : option S * Decider * option RunError :=
  match check_structure p (dc_dialect dc) with
  | Some e => (sink, dc, Some e)
  | None =>
      if existsb (bytes_eqb (pl_text p)) (decided dc) then (sink, dc, None)
      else
        let '(sink, refusal) :=
          match pl_kind p with
          | KDdl => guarded (guard_destructive_mode now_millis sink (ddl_mode dc) (dc_confirmed dc) (dc_dialect dc) (pl_text p))
          | KDml => guarded (guard_confirmed now_millis sink (dml_mode dc) (dc_confirmed dc) (pl_text p) (dc_dialect dc))
          | other => (sink, Some (RInternal (B "a written statement of the copy has the kind " ++ B (kind_label other)
                                             ++ B ", which has no decision")))
          end in
        match refusal with
        | Some e => (sink, dc, Some e)
        | None => (sink, MkDecider (ddl_mode dc) (dml_mode dc) (dc_confirmed dc) (dc_dialect dc) (pl_text p :: decided dc), None)
        end
  end.

Definition gate (sink : option S) (f : SafeModeFloor) (confirmed : bool) (d : Dialect) (mode : TransferMode) (subject : bytes)
  : option S * option RunError :=
  let m := destructive_mode_of f in
  match mode, m with
  | TReplace, MConfirm =>
      match record_decision now_millis sink m confirmed (MkDecision 1 KDdl subject Classify.Refuse (Some REPLACE_ON_CONFIRM)) with
      | inl _ => (sink, Some (RStorage storage_message))
      | inr (sink, _) =>
          (sink, Some (RUsage (B "SAFE_MODE=" ++ B (safe_mode_as_str m) ++ B " refuses the replace of the destination table: "
                               ++ B REPLACE_ON_CONFIRM)))
      end
  | _, MFull => (sink, None)
  | _, _ =>
      if bool_decide (m = MConfirm) && confirmed then (sink, None)
      else guarded (guard_destructive_mode now_millis sink m confirmed d subject)
  end.
End Decisions.

(** ** Sizes *)

Definition parse_max_allowed_packet `{Float} (v : Value) : option Z :=
  match v with
  | VInt n => if (0 <=? n)%Z then Some n else None
  | VUInt n => Some n
  | VText t => parse_uint U64_MAX (trim t)
  | _ => None
  end.
Definition insert_budget (packet : option Z) : Z :=
  match packet with
  | Some packet => Z.min (16 * 1024 * 1024) (Z.max 1024 (packet / 2))
  | None => 1024 * 1024
  end.

(** ** Properties

    What the plan of a transfer promises, for [TransferPlan].

    A statement is allowed only when it was read as the one statement the plan says, of a kind the
    destination's floor runs; [gate] decides by the destination's table and its answer is the one
    every DDL statement of the plan gets later. *)

#[local] Open Scope nat_scope.

(** ** The engine's own statements *)

(** The statements the engine sends of itself are a fixed list: each is read under its own
    dialect as exactly one statement, of the kind it is declared with, so none of them is taken
    for a write of rows or of a table. *)
Theorem engine_statements_are_single_and_never_writes (s : EngineStatement) :
  s ∈ engine_statements
  /\ List.length (statements_dialect (B (engine_text s)) (lexer_of (engine_dialect s))) = 1
  /\ classify_readings (B (engine_text s)) (readings (engine_dialect s)) = engine_kind s
  /\ engine_kind s <> KDml /\ engine_kind s <> KDdl.
Proof.
  split; [destruct s; in_list|].
  destruct s; (split; [vm_compute; reflexivity|]); (split; [vm_compute; reflexivity|]); split; discriminate.
Qed.

(** ** Structure *)

(** A text is one statement of its kind. *)
Definition reads_as (d : Dialect) (p : Planned) : Prop :=
  List.length (statements_dialect (pl_text p) (lexer_of d)) = 1 /\ classify_readings (pl_text p) (readings d) = pl_kind p.
Lemma check_structure_reads p d : check_structure p d = None <-> reads_as d p.
Proof.
  unfold check_structure, reads_as. cbn -[B Nat.eqb].
  destruct ((_ =? 1) && _) eqn:E.
  - apply andb_true_iff in E as [E1 E2]. apply Nat.eqb_eq in E1. apply bool_decide_eq_true in E2. done.
  - apply andb_false_iff in E as [E|E]; [apply Nat.eqb_neq in E|apply bool_decide_eq_false in E]; (split; [done|]); by intros [? ?].
Qed.

(** ** Decisions *)

(** The destination's floor runs statements of the text's kind: DDL by the entries, DML by every
    statement in it under the strictest of them. *)
Definition runs (dc : Decider) (text : bytes) : Prop :=
  match classify_readings text (readings (dc_dialect dc)) with
  | KDdl => ddl_mode dc = MFull \/ ddl_mode dc = MConfirm /\ dc_confirmed dc = true
  | KDml => Forall (fun x => permitted (dml_mode dc) (dc_confirmed dc) (d_kind x) = true)
              (decisions_readings (dml_mode dc) text (readings (dc_dialect dc)))
  | _ => False
  end.
Definition may_send (dc : Decider) (p : Planned) : Prop := reads_as (dc_dialect dc) p /\ runs dc (pl_text p).
(** The same floor, confirmation and dialect. *)
Definition same_floor (a b : Decider) : Prop :=
  ddl_mode a = ddl_mode b /\ dml_mode a = dml_mode b /\ dc_confirmed a = dc_confirmed b /\ dc_dialect a = dc_dialect b.
#[export] Instance same_floor_equivalence : Equivalence same_floor.
Proof. split; red; unfold same_floor; [done|naive_solver|]. intros ? ? ? (? & ? & ? & ?) (? & ? & ? & ?). split_and!; congruence. Qed.
#[export] Instance may_send_proper : Proper (same_floor ==> eq ==> iff) may_send.
Proof. intros a b (H1 & H2 & H3 & H4) p ? <-. unfold may_send, runs. by rewrite H1, H2, H3, H4. Qed.
#[export] Instance runs_proper : Proper (same_floor ==> eq ==> iff) runs.
Proof. intros a b (H1 & H2 & H3 & H4) p ? <-. unfold runs. by rewrite H1, H2, H3, H4. Qed.

(** Every text decided so far was let through. *)
Definition sound (dc : Decider) : Prop := Forall (runs dc) (decided dc).
Lemma decider_new_sound f c d : sound (decider_new f c d).
Proof. constructor. Qed.
Lemma decided_elem dc text : existsb (bytes_eqb text) (decided dc) = true <-> text ∈ decided dc.
Proof.
  rewrite existsb_exists. split.
  - intros (x & Hx & E). apply bytes_eqb_eq in E as ->. by apply list_elem_of_In.
  - intros Hx. exists text. split; [by apply list_elem_of_In|by apply bytes_eqb_eq].
Qed.

Section Decisions.
Context {S : Type} `{ExecutionStore S} (now_millis : S -> Z) (storage_message : bytes).
Abbreviation allow := (allow now_millis storage_message).
Abbreviation gate := (gate now_millis storage_message).

Lemma guarded_none (r : option S * (CliError + unit)) : (guarded storage_message r).2 = None -> r.2 = inr tt.
Proof. by destruct r as [? [[]|[]]]. Qed.

Lemma guard_loop_permits mode c ds : forall sink,
  (guard_loop now_millis sink mode c ds).2 = inr tt -> Forall (fun d => refusal_error d mode c = None) ds.
Proof.
  induction ds as [|d ds IH]; intros sink; cbn [guard_loop]; [constructor|].
  destruct (record_decision now_millis sink mode c d) as [e|[s' [e|]]] eqn:Er; [done..|].
  intros Hl. constructor; [|by eapply IH].
  unfold record_decision in Er. repeat case_match; by simplify_eq.
Qed.
Lemma guard_confirmed_permits sink mode c sql d :
  (guard_confirmed now_millis sink mode c sql d).2 = inr tt ->
  Forall (fun x => permitted mode c (d_kind x) = true) (decisions_readings mode sql (readings d)).
Proof.
  intros Hg%guard_loop_permits. pose proof (decisions_readings_decided mode sql (readings d)) as Hd.
  rewrite Forall_forall in *. intros x Hx. specialize (Hg _ Hx). specialize (Hd _ Hx).
  unfold ClassifySpec.decided, permitted in *. apply refusal_error_none in Hg as [Hb|[Hb ->]]; by rewrite <- Hd, Hb.
Qed.

Lemma allow_sound sink dc p sink' dc' :
  allow sink dc p = (sink', dc', None) -> sound dc ->
  reads_as (dc_dialect dc) p /\ runs dc (pl_text p) /\ sound dc' /\ same_floor dc dc'
  /\ (pl_text p ∈ decided dc') /\ decided dc ⊆ decided dc'.
Proof.
  unfold TransferPlan.allow. intros Ha Hs.
  destruct (check_structure p (dc_dialect dc)) eqn:Hc; [done|]. apply check_structure_reads in Hc. split; [done|].
  destruct (existsb _ _) eqn:He.
  { injection Ha as <- <-. apply decided_elem in He.
    split_and!; [by apply (proj1 (Forall_forall _ _) Hs)|done|reflexivity|done|done]. }
  destruct Hc as [_ Hk].
  assert (Hr : runs dc (pl_text p) /\ dc' = MkDecider (ddl_mode dc) (dml_mode dc) (dc_confirmed dc) (dc_dialect dc) (pl_text p :: decided dc)).
  { unfold runs. rewrite Hk. destruct (pl_kind p); try done.
    - destruct (guarded _ _) as [s o] eqn:Eg. destruct o; [done|]. injection Ha as <- <-. split; [|done].
      assert (Hg : (guarded storage_message (guard_confirmed now_millis sink (dml_mode dc) (dc_confirmed dc) (pl_text p) (dc_dialect dc))).2 = None)
        by (by rewrite Eg).
      by eapply guard_confirmed_permits, guarded_none.
    - destruct (guarded _ _) as [s o] eqn:Eg. destruct o; [done|]. injection Ha as <- <-. split; [|done].
      assert (Hg : (guarded storage_message (guard_destructive_mode now_millis sink (ddl_mode dc) (dc_confirmed dc) (dc_dialect dc) (pl_text p))).2 = None)
        by (by rewrite Eg).
      by eapply guard_destructive_cases, guarded_none. }
  destruct Hr as [Hr ->]. split_and!; [done| |done| |]; cbn.
  - constructor; [exact Hr|]. eapply Forall_impl; [exact Hs|]. done.
  - by left.
  - by intros x Hx; right.
Qed.
(** A text decided before is let through again without a decision, when it still reads as planned. *)
Lemma allow_again sink dc p : reads_as (dc_dialect dc) p -> pl_text p ∈ decided dc -> allow sink dc p = (sink, dc, None).
Proof.
  intros Hr Hd. unfold TransferPlan.allow. rewrite (proj2 (check_structure_reads _ _) Hr). by rewrite (proj2 (decided_elem _ _) Hd).
Qed.

(** ** The decision that needs no network *)

Definition gate_allows (f : SafeModeFloor) (confirmed : bool) (m : TransferMode) : bool :=
  match destructive_mode_of f, m with
  | MFull, _ => true | MConfirm, TCreate => confirmed | _, _ => false
  end.
Lemma guarded_refused (r : option S * (CliError + unit)) e : r.2 = inl e -> (guarded storage_message r).2 <> None.
Proof. destruct r as [? [[]|]]; cbn; congruence. Qed.
Lemma guard_destructive_refuses sink m c d text :
  (m = MNoDdl \/ m = MReadOnly \/ m = MConfirm /\ c = false) ->
  (guarded storage_message (guard_destructive_mode now_millis sink m c d text)).2 <> None.
Proof.
  intros Hm Hn. apply guarded_none, guard_destructive_cases in Hn as [->|[-> ->]]; destruct Hm as [?|[?|[??]]]; done.
Qed.
Lemma destructive_mode_full f : destructive_mode_of f = MFull -> forall m s, floor_resolve f = Some (m, s) -> m = MFull.
Proof.
  intros Hd m s Hr. pose proof (destructive_mode_reads_the_entries f) as He. rewrite Hd in He.
  apply resolve_spec in Hr as [Hin _]. eauto.
Qed.
Lemma record_decision_keeps_error sink m c x r :
  record_decision now_millis sink m c x = inr r -> r.2 = refusal_error x m c.
Proof. unfold record_decision. repeat case_match; intros; simplify_eq; done. Qed.
Lemma guard_loop_permitted mode c ds : Forall (fun d => refusal_error d mode c = None) ds ->
  forall sink e, (guard_loop now_millis sink mode c ds).2 = inl e -> e = StorageFailed.
Proof.
  induction 1 as [|d ds Hd Hds IH]; intros sink e; cbn [guard_loop]; [done|].
  destruct (record_decision now_millis sink mode c d) as [e'|[s' o]] eqn:Er.
  - intros [= <-]. by apply record_decision_fails in Er.
  - apply record_decision_keeps_error in Er. cbn in Er. rewrite Hd in Er. subst o. apply IH.
Qed.
Lemma storage_guarded (r : option S * (CliError + unit)) :
  (forall e, r.2 = inl e -> e = StorageFailed) ->
  forall e, (guarded storage_message r).2 = Some e -> e = RStorage storage_message.
Proof.
  intros Hr e. destruct r as [s [[m|]|]]; cbn; [|congruence..]. specialize (Hr _ eq_refl). done.
Qed.

Lemma gate_table sink (f : SafeModeFloor) (c : bool) (d : Dialect) (m : TransferMode) (subject : bytes) :
  (gate sink f c d m subject).2 = None <-> gate_allows f c m = true.
Proof.
  unfold TransferPlan.gate, gate_allows. destruct (destructive_mode_of f) eqn:Hd.
  - by destruct m.
  - assert ((guarded storage_message (guard_destructive_mode now_millis sink MNoDdl c d subject)).2 <> None)
      by (apply guard_destructive_refuses; by left). by destruct m.
  - destruct m; cbn -[B guarded guard_destructive_mode].
    + destruct c; [done|].
      assert ((guarded storage_message (guard_destructive_mode now_millis sink MConfirm false d subject)).2 <> None)
        by (apply guard_destructive_refuses; auto). done.
    + by repeat case_match.
  - assert ((guarded storage_message (guard_destructive_mode now_millis sink MReadOnly c d subject)).2 <> None)
      by (apply guard_destructive_refuses; auto). by destruct m.
Qed.

(** The decision taken before a connection is opened is the table the code states: a destination
    whose entries are all [full] takes both modes, one that asks takes a create once it was
    confirmed and never a replace, and one with an entry that forbids DDL takes neither. It is
    also the decision taken later: once it has let a transfer through, no statement of its plan
    that reads as the plan says is refused by the floor when it is DDL, nor any when the floor is
    [full]; only a log that cannot be written stops it. *)
Theorem gate_decides_for_the_plan sink (f : SafeModeFloor) (c : bool) (d : Dialect) (m : TransferMode) (subject : bytes) :
  ((gate sink f c d m subject).2 = None <-> gate_allows f c m = true)
  /\ (gate_allows f c m = true ->
      forall sink dc p e, same_floor (decider_new f c d) dc -> reads_as d p ->
        (pl_kind p = KDdl \/ pl_kind p = KDml /\ destructive_mode_of f = MFull) ->
        (allow sink dc p).2 = Some e -> e = RStorage storage_message).
Proof.
  split; [apply gate_table|].
  intros Hg s dc p e (H1 & H2 & H3 & H4) Hr Hk. cbn in H1, H2, H3, H4.
    unfold TransferPlan.allow. rewrite <- H1, <- H2, <- H3, <- H4.
    rewrite (proj2 (check_structure_reads _ _) Hr). destruct (existsb _ _); [done|].
    destruct Hk as [Hk|[Hk Hfull]]; rewrite Hk; (destruct (guarded _ _) as [s' o] eqn:Eg; destruct o as [e'|]; [|done]);
      cbn [snd]; intros [= ->]; refine (storage_guarded _ _ e _); [|by rewrite Eg| |by rewrite Eg].
    + intros e2. unfold guard_destructive_mode, gate_allows in *. destruct (destructive_decision _ _) as [dec reason] eqn:Ed.
      destruct (record_decision _ _ _ _ _) as [e3|[s3 o3]] eqn:Er; [cbn; intros [= <-]; by apply record_decision_fails in Er|].
      apply record_decision_keeps_error in Er. destruct (destructive_mode_of f); try done; cbn in Ed; injection Ed as <- <-.
      * cbn in Er. by subst o3.
      * destruct m; [|done]. subst c. cbn in Er. by subst o3.
    + intros e2. unfold guard_confirmed. apply guard_loop_permitted.
      pose proof (decisions_readings_decided (match floor_resolve f with Some (m, _) => m | None => MFull end) (pl_text p) (readings d)) as Hd.
      eapply Forall_impl; [exact Hd|]. intros x Hx. apply refusal_error_none. left. rewrite Hx.
      destruct (floor_resolve f) as [[m0 s0]|] eqn:Ef; [|done]. by rewrite (destructive_mode_full _ Hfull _ _ Ef).
Qed.
End Decisions.

#[local] Instance toy_store : ExecutionStore Storage := storage_store toy_hash toy_payload.
Definition asking_floor : SafeModeFloor := [(FUser, MConfirm)].
Lemma gate_decides_for_the_plan_witness :
  (gate (fun _ : Storage => 0%Z) [] (Some empty_storage) asking_floor true Postgres TCreate (B "CREATE TABLE t")).2 = None
  /\ (gate (fun _ : Storage => 0%Z) [] (Some empty_storage) asking_floor true Postgres TReplace (B "DROP TABLE t")).2 <> None.
Proof.
  split.
  - apply (gate_decides_for_the_plan (fun _ : Storage => 0%Z) []). reflexivity.
  - intros H. apply (gate_decides_for_the_plan (fun _ : Storage => 0%Z) []) in H. discriminate H.
Defined.

(** ** The plan's statements *)

Lemma plan_create p : wp_create p ∈ plan_statements p.
Proof. by left. Qed.
Lemma plan_copy p q : wp_copy p = Some q -> q ∈ plan_statements p.
Proof. intros E. unfold plan_statements. rewrite E. apply elem_of_cons. right. apply elem_of_app. left. cbn. by left. Qed.
Lemma plan_swap p q : q ∈ wp_swap p -> q ∈ plan_statements p.
Proof. intros E. unfold plan_statements. rewrite elem_of_cons, !elem_of_app. tauto. Qed.
Lemma plan_drop_old p q : wp_drop_old p = Some q -> q ∈ plan_statements p.
Proof. intros E. unfold plan_statements. rewrite elem_of_cons, !elem_of_app, E. cbn. rewrite list_elem_of_singleton. tauto. Qed.
Lemma plan_cleanup p q : wp_cleanup p = Some q -> q ∈ plan_statements p.
Proof. intros E. unfold plan_statements. rewrite elem_of_cons, !elem_of_app, E. cbn. rewrite list_elem_of_singleton. tauto. Qed.

(** What each target's plan holds. *)
Lemma build_plan tp mode ns name existed stamp plan :
  build tp mode ns name existed stamp = inr plan ->
  wp_target plan = tp_target tp /\ wp_mode plan = mode
  /\ match tp_target tp with
     | TPostgres => is_Some (wp_copy plan)
     | TMysql => (exists swap, wp_swap plan = [swap]) /\ is_Some (wp_cleanup plan)
     end.
Proof. unfold build. repeat case_match; intros; simplify_eq; cbn; eauto. Qed.
