(* ===== verification/TableSwap.v ===== *)
(** * TableSwap: a table replaced on one connection, [crates/qh-ffi/src/table_swap.rs] and the names of
    [crates/qh-ffi/src/sql_ident.rs].

    [replacement_plan] makes every statement from the names, [replace_table] builds the new table beside
    the old one and moves it into place. The server is a parameter: what a statement is answered and
    the state it leaves ([server_run]), a build a Stop can interrupt ([server_build]), and the batches
    of a read ([server_read]). *)
From S2P Require Import Prelude Bytes Text Scan Classify Env Guard Ident Value TransferPlan.
#[local] Open Scope nat_scope.

(** ** Names *)

Inductive Part := PartDatabase | PartSchema | PartTable.
Record Slot := MkSlot { sl_target : string; sl_part : Part }.
Definition TRINO_SLOTS : list Slot :=
  [MkSlot "TARGET_CATALOG" PartDatabase; MkSlot "TARGET_SCHEMA" PartSchema; MkSlot "TARGET_TABLE" PartTable].
Definition POSTGRES_SLOTS : list Slot := [MkSlot "TARGET_SCHEMA" PartSchema; MkSlot "TARGET_TABLE" PartTable].
Definition MYSQL_SLOTS : list Slot := [MkSlot "TARGET_CATALOG" PartDatabase; MkSlot "TARGET_TABLE" PartTable].
Record SlotStyle := MkStyle { ss_kind : DriverKind; ss_style : IdentStyle }.
Definition style_of (kind : DriverKind) : SlotStyle :=
  MkStyle kind match kind with DTrino | DPostgres => Ansi | DMysql => MysqlStyle end.
Definition slot_quote (s : SlotStyle) (name : bytes) : bytes := quote_ident (ss_style s) name.
Definition slots (s : SlotStyle) : list Slot :=
  match ss_kind s with DTrino => TRINO_SLOTS | DPostgres => POSTGRES_SLOTS | DMysql => MYSQL_SLOTS end.
Definition slot_value (s : Slot) (catalog schema table : bytes) : bytes :=
  match sl_part s with PartDatabase => catalog | PartSchema => schema | PartTable => table end.
Definition slot_name (s : SlotStyle) (catalog schema table : bytes) (render : bytes -> bytes) : bytes :=
  join_sep [DOT] (omap (fun slot => match slot_value slot catalog schema table with [] => None | v => Some (render v) end) (slots s)).
Definition slot_qualified (s : SlotStyle) (catalog schema table : bytes) : bytes := slot_name s catalog schema table (slot_quote s).
Definition slot_reference (s : SlotStyle) (catalog schema table : bytes) : bytes := slot_name s catalog schema table (fun v => v).

(** ** The plan *)

Record Replacement := MkReplacement {
  rp_scratch_ref : bytes; rp_backup_ref : bytes; rp_build : bytes; rp_probe : bytes; rp_drop_scratch : bytes;
  rp_install : list bytes; rp_swap : list bytes; rp_undo : option bytes; rp_drop_old : option bytes; rp_atomic : bool }.

Definition sql_literal (kind : DriverKind) (text : bytes) : bytes :=
  let text := match kind with DMysql => replace1 BACKSLASH [BACKSLASH; BACKSLASH] text | _ => text end in
  B "'" ++ replace1 SQUOTE [SQUOTE; SQUOTE] text ++ B "'".
Definition probe_text (from : bytes) (kind : DriverKind) (namespace table : bytes) : bytes :=
  B "SELECT COUNT(*) FROM " ++ from ++ B "information_schema.tables WHERE table_schema = " ++ sql_literal kind namespace
  ++ B " AND table_name = " ++ sql_literal kind table.
Definition rename_text (a b : bytes) : bytes := B "ALTER TABLE " ++ a ++ B " RENAME TO " ++ b.
Definition replacement_plan (s : SlotStyle) (catalog schema table body stamp : bytes) : Replacement :=
  let at_ := slot_qualified s catalog schema in
  let plain := slot_reference s catalog schema in
  let target := at_ table in
  let scratch := at_ (new_name stamp) in
  let backup := at_ (old_name stamp) in
  let make probe install swap undo drop_old atomic :=
    MkReplacement (plain (new_name stamp)) (plain (old_name stamp)) (B "CREATE TABLE " ++ scratch ++ B " AS " ++ body) probe
      (B "DROP TABLE IF EXISTS " ++ scratch) install swap undo drop_old atomic in
  match ss_kind s with
  | DPostgres =>
      let moved := [B "BEGIN"; B "DROP TABLE IF EXISTS " ++ target; rename_text scratch (slot_quote s table); B "COMMIT"] in
      make (probe_text [] DPostgres schema table) moved moved None None true
  | DMysql =>
      make (probe_text [] DMysql catalog table)
        [B "RENAME TABLE " ++ scratch ++ B " TO " ++ target]
        [B "RENAME TABLE " ++ target ++ B " TO " ++ backup ++ B ", " ++ scratch ++ B " TO " ++ target]
        None (Some (B "DROP TABLE " ++ backup)) false
  | DTrino =>
      make (probe_text (slot_quote s catalog ++ B ".") DTrino schema table)
        [rename_text scratch target] [rename_text target backup; rename_text scratch target]
        (Some (rename_text backup target)) (Some (B "DROP TABLE " ++ backup)) false
  end.
Definition replacement_statements (p : Replacement) : list bytes :=
  rp_build p :: rp_swap p ++ (if rp_atomic p then [] else rp_install p) ++ option_list (rp_undo p) ++ option_list (rp_drop_old p)
  ++ [rp_drop_scratch p].

(** ** The run *)

Definition counts_a_table `{Float} (v : Value) : bool :=
  match v with
  | VInt n | VUInt n => (0 <? n)%Z
  | VDecimal unscaled _ => (0 <? unscaled)%Z
  | VText t => match parse_uint U64_MAX (trim t) with Some n => (0 <? n)%Z | None => true end
  | _ => true
  end.

Inductive Built := BFinished (count : option Z) | BStopped (reusable : bool) | BFailed (message : bytes).

Section Replace.
Context `{Float} {St : Type}.
Variable server_run : St -> bytes -> St * (bytes + option Z).
Variable server_build : St -> bytes -> St * Built.
Variable server_read : St -> bytes -> St * (bytes + list (list (list Value))).
Variable stopped : St -> bool.

Definition table_exists (st : St) (probe : bytes) : St * (bytes + bool) :=
  match server_read st probe with
  | (st, inl m) => (st, inl m)
  | (st, inr batches) =>
      (st, inr (existsb (fun b => match b with (v :: _) :: _ => counts_a_table v | _ => false end) batches))
  end.
Definition NOT_RELEASED : bytes := B "the server did not release the connection".
Definition discard_scratch (st : St) (p : Replacement) (reusable : bool) (ws : list bytes) : St * list bytes :=
  let '(st, outcome) :=
    if reusable then match server_run st (rp_drop_scratch p) with (st, inl m) => (st, Some m) | (st, inr _) => (st, None) end
    else (st, Some NOT_RELEASED) in
  match outcome with
  | Some m => (st, ws ++ [B "the temporary table " ++ rp_scratch_ref p ++ B " was left behind: " ++ m])
  | None => (st, ws)
  end.

(** The steps of the swap, from the [index]-th: the index and the error of the one that failed. *)
Fixpoint swap_steps (st : St) (index : nat) (steps : list bytes) : St * option (nat * bytes) :=
  match steps with
  | [] => (st, None)
  | step :: steps =>
      match server_run st step with
      | (st, inl m) => (st, Some (index, m))
      | (st, inr _) => swap_steps st (S index) steps
      end
  end.
(** After a step that failed: whether the old table is where it was. *)
Definition put_back (st : St) (p : Replacement) (index : nat) : St * bool :=
  if rp_atomic p then ((server_run st (B "ROLLBACK")).1, true)
  else if 0 <? index then
    match rp_undo p with
    | Some undo => match server_run st undo with (st, inr _) => (st, true) | (st, inl _) => (st, false) end
    | None => (st, true)
    end
  else (st, true).

Record Outcome := MkOutcome { oc_state : St; oc_affected : option Z; oc_warnings : list bytes; oc_result : bytes + bool }.
Definition stranded (name : bytes) (p : Replacement) : bytes :=
  B "the existing table " ++ name ++ B " is now " ++ rp_backup_ref p ++ B " and could not be renamed back; this run's rows are in "
  ++ rp_scratch_ref p.
Definition untouched (name : bytes) : bytes := B "the existing table " ++ name ++ B " was left as it was".
Definition replaced_notice (name : bytes) : bytes := B "replaced the existing table " ++ name.
(** Leave before the swap: the build is discarded, the old table untouched. *)
Definition leave (st : St) (p : Replacement) (name : bytes) (reusable : bool) (affected : option Z) (ws : list bytes) (r : bytes + bool) : Outcome :=
  let '(st, ws) := discard_scratch st p reusable ws in MkOutcome st affected (ws ++ [untouched name]) r.

Definition swap_in (st : St) (p : Replacement) (name : bytes) (existed : bool) (affected : option Z) (ws : list bytes) : Outcome :=
  let notice := replaced_notice name in
  let ws := if existed then ws ++ [notice] else ws in
  match swap_steps st 0 (if existed then rp_swap p else rp_install p) with
  | (st, Some (index, m)) =>
      match put_back st p index with
      | (st, true) => leave st p name true affected (List.filter (fun w => negb (bytes_eqb w notice)) ws) (inl m)
      | (st, false) => MkOutcome st affected (ws ++ [stranded name p]) (inl m)
      end
  | (st, None) =>
      match existed, rp_drop_old p with
      | true, Some drop_old =>
          match server_run st drop_old with
          | (st, inl m) =>
              MkOutcome st affected
                (ws ++ [B "the new table is in place, and the old one is kept as " ++ rp_backup_ref p ++ B ": " ++ m]) (inr false)
          | (st, inr _) => MkOutcome st affected ws (inr false)
          end
      | _, _ => MkOutcome st affected ws (inr false)
      end
  end.
Definition replace_table (st : St) (p : Replacement) (name : bytes) (affected : option Z) (ws : list bytes) : Outcome :=
  match server_build st (rp_build p) with
  | (st, BStopped reusable) => leave st p name reusable affected ws (inr true)
  | (st, BFailed m) => leave st p name true affected ws (inl m)
  | (st, BFinished count) =>
      if stopped st then leave st p name true count ws (inr true)
      else
        match table_exists st (rp_probe p) with
        | (st, inl m) => leave st p name true count ws (inl m)
        | (st, inr existed) => swap_in st p name existed count ws
        end
  end.
End Replace.
