(* ===== verification/TableSwapSpec.v ===== *)
(** * TableSwapSpec: a replace never costs the table it replaces, for [TableSwap].

    The server is known by its laws only ([SwapServer]): the documented behaviour of [RENAME], [DROP] and
    of transactional DDL on the names of the plan. A statement answered with an error did nothing, unless
    its answer was lost: [lost] says of which statements that can be, and of those it is not known whether
    they took effect. [table] is what a new connection finds under a name, [work] what this session sees
    inside a transaction it opened. *)
From stdpp Require Import gmap.
From S2P Require Import Prelude Bytes Text Scan Classify Env Guard Ident Value ValueSpec TransferPlan TableSwap.
#[local] Open Scope nat_scope.

(** ** Names *)

(** Two tables of one namespace are told apart by the text that names them. *)
Lemma slot_qualified_inj s catalog schema a b : a <> [] -> b <> [] ->
  slot_qualified s catalog schema a = slot_qualified s catalog schema b -> a = b.
Proof.
  intros Ha Hb. unfold slot_qualified, slot_name. destruct s as [k st]. destruct a as [|a0 a]; [done|]. destruct b as [|b0 b]; [done|].
  destruct k; cbn; intros He; apply (quote_ident_inj st);
    repeat match type of He with context [match ?v with [] => None | _ => _ end] => destruct v end; cbn in He;
    repeat first [exact He | apply (f_equal tail) in He; exact He | apply app_inv_head in He | apply (f_equal tail) in He; cbn in He].
Qed.

(** ** The server *)

Section Spec.
Context `{Float} {St C : Type}.
Variable server_run : St -> bytes -> St * (bytes + option Z).
Variable server_build : St -> bytes -> St * Built.
Variable server_read : St -> bytes -> St * (bytes + list (list (list Value))).
Variable stopped : St -> bool.
Abbreviation replace_table := (replace_table server_run server_build server_read stopped).
Abbreviation leave := (leave server_run).
Abbreviation swap_in := (swap_in server_run).

Definition view : Type := bytes -> option C.
Variable table : St -> view.
Variable work : St -> option view.
(** The statements an error may be answered to though they took effect: a connection that dropped with the
    answer, a timeout on this side. *)
Variable lost : bytes -> Prop.

Definition same (v v' : view) : Prop := forall n, v' n = v n.
Definition frame (m : bytes) (v v' : view) : Prop := forall n, n <> m -> v' n = v n.
(** [v'] is [v] with the table [a] under the name [b], which was free. *)
Definition moved (a b : bytes) (v v' : view) : Prop :=
  is_Some (v a) /\ v b = None /\ v' b = v a /\ v' a = None /\ forall n, n <> a -> n <> b -> v' n = v n.
Definition dropped (a : bytes) (v v' : view) : Prop := v' a = None /\ forall n, n <> a -> v' n = v n.

(** A statement outside a transaction: applied as a whole when it is answered, and when it failed not at
    all, or as a whole if its answer was lost. *)
Definition atomic_law (q : bytes) (R : view -> view -> Prop) : Prop := forall st, work st = None ->
  match server_run st q with
  | (st', inr _) => R (table st) (table st') /\ work st' = None
  | (st', inl _) => (same (table st) (table st') \/ (lost q /\ R (table st) (table st'))) /\ work st' = None
  end.
(** A statement inside a transaction: others see nothing of it. *)
Definition inside_law (q : bytes) (R : view -> view -> Prop) : Prop := forall st w, work st = Some w ->
  match server_run st q with
  | (st', inr _) => same (table st) (table st') /\ exists w', work st' = Some w' /\ R w w'
  | (st', inl _) => same (table st) (table st')
  end.
Definition begin_law (q : bytes) : Prop := forall st, work st = None ->
  match server_run st q with
  | (st', inr _) => same (table st) (table st') /\ exists w, work st' = Some w /\ same (table st) w
  | (st', inl _) => same (table st) (table st')
  end.
Definition commit_law (q : bytes) : Prop := forall st w, work st = Some w ->
  match server_run st q with
  | (st', inr _) => same w (table st')
  | (st', inl _) => same (table st) (table st') \/ (lost q /\ same w (table st'))
  end.

Section Names.
Variables (s : SlotStyle) (catalog schema name body stamp : bytes).
Definition target : bytes := slot_qualified s catalog schema name.
Definition scratch : bytes := slot_qualified s catalog schema (new_name stamp).
Definition backup : bytes := slot_qualified s catalog schema (old_name stamp).
Definition plan : Replacement := replacement_plan s catalog schema name body stamp.

(** The tables move as the engine documents. *)
Definition swap_law : Prop :=
  match ss_kind s with
  | DPostgres =>
      begin_law (B "BEGIN")
      /\ inside_law (B "DROP TABLE IF EXISTS " ++ target) (dropped target)
      /\ inside_law (rename_text scratch (slot_quote s name)) (moved scratch target)
      /\ commit_law (B "COMMIT")
      /\ (forall st, same (table st) (table (server_run st (B "ROLLBACK")).1))
  | DMysql =>
      atomic_law (B "RENAME TABLE " ++ scratch ++ B " TO " ++ target) (moved scratch target)
      /\ atomic_law (B "RENAME TABLE " ++ target ++ B " TO " ++ backup ++ B ", " ++ scratch ++ B " TO " ++ target)
           (fun v v' => exists u, moved target backup v u /\ moved scratch target u v')
      /\ atomic_law (B "DROP TABLE " ++ backup) (dropped backup)
  | DTrino =>
      atomic_law (rename_text scratch target) (moved scratch target)
      /\ atomic_law (rename_text target backup) (moved target backup)
      /\ atomic_law (rename_text backup target) (moved backup target)
      /\ atomic_law (B "DROP TABLE " ++ backup) (dropped backup)
  end.
Class SwapServer : Prop := {
  build_frame : forall st, work st = None -> frame scratch (table st) (table (server_build st (rp_build plan)).1)
    /\ work (server_build st (rp_build plan)).1 = None;
  build_done : forall st st' n, work st = None -> server_build st (rp_build plan) = (st', BFinished n) -> is_Some (table st' scratch);
  read_frame : forall st, work st = None -> same (table st) (table (server_read st (rp_probe plan)).1)
    /\ work (server_read st (rp_probe plan)).1 = None;
  discard_frame : forall st, frame scratch (table st) (table (server_run st (rp_drop_scratch plan)).1);
  swap_moves : swap_law;
}.

(** ** The outcomes *)

Context `{SwapServer}.
Hypothesis named : name <> [].
Hypothesis not_scratch : name <> new_name stamp.
Hypothesis not_backup : name <> old_name stamp.

Lemma target_scratch : target <> scratch.
Proof. intros He. apply slot_qualified_inj in He; done. Qed.
Lemma target_backup : target <> backup.
Proof. intros He. apply slot_qualified_inj in He; done. Qed.
Lemma scratch_backup : scratch <> backup.
Proof. intros He. apply slot_qualified_inj in He; done. Qed.

(** The statements that move a table. *)
Definition moving (q : bytes) : Prop := q ∈ rp_swap plan ++ rp_install plan ++ option_list (rp_undo plan).
(** No rows are lost: the old ones are under the name, or the new ones are, whole, or the old ones wait
    under the backup's name, where a swap leaves them on MySQL and Trino. *)
Definition kept (old new : option C) (v : view) : Prop :=
  v target = old \/ (is_Some new /\ v target = new) \/ (ss_kind s <> DPostgres /\ v backup = old).
(** What became of the old table [old] and of the rows built, [new]. *)
Definition outcome_safe (old new : option C) (label : bytes) (o : Outcome) : Prop :=
  match oc_result o with
  | inr false =>
      table (oc_state o) target = new /\ is_Some new
      /\ (ss_kind s <> DPostgres -> is_Some old -> replaced_notice label ∈ oc_warnings o)
  | _ =>
      (table (oc_state o) target = old /\ untouched label ∈ oc_warnings o)
      \/ (ss_kind s = DTrino /\ table (oc_state o) backup = old /\ table (oc_state o) scratch = new
          /\ stranded label plan ∈ oc_warnings o)
      \/ ((exists q, lost q /\ moving q) /\ kept old new (table (oc_state o)))
  end.
Lemma discard_keeps st n : n <> scratch -> table (server_run st (rp_drop_scratch plan)).1 n = table st n.
Proof. apply discard_frame. Qed.
Lemma leave_safe st label reusable affected ws r old new : r <> inr false -> table st target = old ->
  outcome_safe old new label (leave st plan label reusable affected ws r).
Proof.
  intros Hr Ht. unfold TableSwap.leave, discard_scratch, outcome_safe.
  pose proof (discard_keeps st target target_scratch) as Hd. rewrite Ht in Hd.
  destruct reusable; [destruct (server_run st _) as [st' [m|x]]|]; cbn in Hd |- *; (destruct r as [m'|[|]]; [| |done]);
    left; (split; [done|]; apply elem_of_snoc_self).
Qed.
(** After a loss the report may be wrong, the rows are not. *)
Lemma kept_state old new label st affected ws m q : lost q -> moving q -> kept old new (table st) ->
  outcome_safe old new label (MkOutcome st affected ws (inl m)).
Proof. intros Hl Hm Hk. right. right. split; [by exists q|done]. Qed.
Lemma kept_leave st label affected ws m old new q : lost q -> moving q -> kept old new (table st) ->
  outcome_safe old new label (leave st plan label true affected ws (inl m)).
Proof.
  intros Hl Hm Hk. unfold TableSwap.leave, discard_scratch. pose proof (discard_keeps st target target_scratch) as Ht.
  pose proof (discard_keeps st backup (not_eq_sym scratch_backup)) as Hb. destruct (server_run st _) as [st' [e|x]]; cbn in Ht, Hb |- *;
    (right; right; split; [by exists q|]; unfold kept; cbn [oc_state]; by rewrite Ht, Hb).
Qed.

(** A failed step with everything put back is left as a failed build is. *)
Lemma swap_undone st label affected ws m old new : table st target = old ->
  outcome_safe old new label (leave st plan label true affected ws (inl m)).
Proof. by apply leave_safe. Qed.

(** PostgreSQL: whichever step of the transaction fails, others still see the old table, or the new one if
    the answer to the COMMIT was lost. *)
Lemma postgres_steps st : ss_kind s = DPostgres -> work st = None ->
  match swap_steps server_run st 0 (rp_swap plan) with
  | (st', None) => is_Some (table st scratch) /\ table st' target = table st scratch
  | (st', Some _) => same (table st) (table st') \/ (lost (B "COMMIT") /\ is_Some (table st scratch) /\ table st' target = table st scratch)
  end.
Proof.
  intros Hk Hw. pose proof swap_moves as Hl. unfold swap_law in Hl. rewrite Hk in Hl. destruct Hl as (Hb & Hd & Ha & Hc & _).
  unfold plan, replacement_plan. rewrite Hk. cbn [rp_swap swap_steps]. fold target scratch.
  specialize (Hb st Hw). destruct (server_run st (B "BEGIN")) as [s1 [?|?]]; [by left|]. destruct Hb as [Hs1 (w1 & Hw1 & He1)].
  specialize (Hd s1 w1 Hw1). destruct (server_run s1 _) as [s2 [?|?]]; [by left; intros n; rewrite Hd, Hs1|]. destruct Hd as [Hs2 (w2 & Hw2 & _ & Hd2)].
  specialize (Ha s2 w2 Hw2). destruct (server_run s2 _) as [s3 [?|?]]; [by left; intros n; rewrite Ha, Hs2, Hs1|].
  destruct Ha as [Hs3 (w3 & Hw3 & (Hsome & _ & Hm & _ & _))].
  rewrite Hd2 in Hsome, Hm by (intros E; by apply target_scratch). rewrite He1 in Hsome, Hm.
  specialize (Hc s3 w3 Hw3). destruct (server_run s3 _) as [s4 [?|?]]; [|by rewrite Hc, Hm].
  destruct Hc as [Hc|[Hl Hc]]; [by left; intros n; rewrite Hc, Hs3, Hs2, Hs1|]. right. by rewrite Hc, Hm.
Qed.
Lemma postgres_swap st label existed affected ws old : ss_kind s = DPostgres -> work st = None -> table st target = old ->
  outcome_safe old (table st scratch) label (swap_in st plan label existed affected ws).
Proof.
  intros Hk Hw Ht. pose proof (postgres_steps st Hk Hw) as Hst. pose proof swap_moves as Hl. unfold swap_law in Hl. rewrite Hk in Hl.
  destruct Hl as (_ & _ & _ & _ & Hr). unfold TableSwap.swap_in.
  replace (if existed then rp_swap plan else rp_install plan) with (rp_swap plan)
    by (unfold plan, replacement_plan; rewrite Hk; by destruct existed).
  assert (rp_drop_old plan = None) as -> by (unfold plan, replacement_plan; by rewrite Hk).
  destruct (swap_steps _ _ _ _) as [st' [[i m]|]].
  - assert (put_back server_run st' plan i = ((server_run st' (B "ROLLBACK")).1, true)) as ->
      by (unfold put_back, plan, replacement_plan; by rewrite Hk).
    destruct Hst as [Hst|(Hl & Hn & Hst)]; [apply swap_undone; by rewrite Hr, Hst|].
    eapply kept_leave; [exact Hl| |right; left; split; [done|by rewrite Hr]].
    unfold moving, plan, replacement_plan. rewrite Hk. cbn -[B]. rewrite !elem_of_cons. tauto.
  - destruct Hst as [Hn Ht']. assert (Hs : outcome_safe old (table st scratch) label
      (MkOutcome st' affected (if existed then ws ++ [replaced_notice label] else ws) (inr false))) by (by split_and!).
    by destruct existed.
Qed.

(** Dropping the backup, answered or not, leaves the table under its name. *)
Lemma drop_backup st : atomic_law (B "DROP TABLE " ++ backup) (dropped backup) -> work st = None ->
  table (server_run st (B "DROP TABLE " ++ backup)).1 target = table st target.
Proof.
  intros Hd Hw. specialize (Hd st Hw). destruct (server_run st _) as [st' [?|?]]; destruct Hd as [Hd _]; cbn;
    [destruct Hd as [Hd|[_ [_ Hd]]]|destruct Hd as [_ Hd]]; rewrite Hd; first [done|apply target_backup].
Qed.

(** MySQL: one statement moves both. *)
Lemma mysql_swap st label existed affected ws old : ss_kind s = DMysql -> work st = None -> table st target = old ->
  outcome_safe old (table st scratch) label (swap_in st plan label existed affected ws).
Proof.
  intros Hk Hw Ht. pose proof swap_moves as Hl. unfold swap_law in Hl. rewrite Hk in Hl. destruct Hl as (Hi & Hs & Hd).
  unfold TableSwap.swap_in.
  assert (Hp : rp_install plan = [B "RENAME TABLE " ++ scratch ++ B " TO " ++ target]
    /\ rp_swap plan = [B "RENAME TABLE " ++ target ++ B " TO " ++ backup ++ B ", " ++ scratch ++ B " TO " ++ target]
    /\ rp_drop_old plan = Some (B "DROP TABLE " ++ backup) /\ forall st i, put_back server_run st plan i = (st, true)).
  { unfold plan, replacement_plan, put_back. rewrite Hk. cbn -[B]. split_and!; try done. intros. by case_match. }
  assert (Hmv : forall q, q ∈ rp_swap plan ++ rp_install plan -> moving q) by (intros q Hq; unfold moving; rewrite app_assoc; apply elem_of_app; by left).
  destruct Hp as (Hins & Hswap & -> & Hpb). rewrite Hins, Hswap in *. destruct existed; cbn [swap_steps].
  - specialize (Hs st Hw). destruct (server_run st _) as [s1 [m|?]]; destruct Hs as [Hs Hw1].
    + rewrite Hpb. destruct Hs as [Hs|[Hl (u & (_ & _ & Hb & _) & (_ & _ & _ & _ & Hf))]]; [apply swap_undone; by rewrite Hs|].
      eapply kept_leave; [exact Hl|apply Hmv; by left|]. right. right. split; [by rewrite Hk|].
      rewrite Hf by (try exact (not_eq_sym target_backup); exact (not_eq_sym scratch_backup)). by rewrite Hb.
    + destruct Hs as (u & (_ & _ & _ & _ & Hf) & (Hn & _ & Hm & _)).
      rewrite Hf in Hn, Hm by first [intros E; by apply target_scratch|apply scratch_backup].
      assert (Htar : table (server_run s1 (B "DROP TABLE " ++ backup)).1 target = table st scratch).
      { rewrite <- Hm. by apply drop_backup. }
      destruct (server_run s1 _) as [s2 [?|?]]; (split_and!; cbn; [done|done|]; intros _ _); [apply elem_of_app; left|]; apply elem_of_snoc_self.
  - specialize (Hi st Hw). destruct (server_run st _) as [s1 [m|?]]; destruct Hi as [Hi Hw1].
    + rewrite Hpb. destruct Hi as [Hi|[Hl (Hn & _ & Hm & _)]]; [apply swap_undone; by rewrite Hi|].
      eapply kept_leave; [exact Hl|apply Hmv; right; by left|]. right. left. by split.
    + destruct Hi as (Hn & Hnone & Hm & _). split_and!; [done|done|]. rewrite <- Ht, Hnone. by intros _ [? ?].
Qed.

(** The rename that takes back the first one, after the second failed: [st] is the state it is sent in. *)
Definition taken_back (st : St) (label : bytes) (affected : option Z) (ws ws' : list bytes) (m : bytes) : Outcome :=
  match (match server_run st (rename_text backup target) with (st, inr _) => (st, true) | (st, inl _) => (st, false) end) with
  | (st, true) => leave st plan label true affected ws (inl m)
  | (st, false) => MkOutcome st affected (ws' ++ [stranded label plan]) (inl m)
  end.
Lemma trino_undo st label affected ws ws' m old new : ss_kind s = DTrino -> atomic_law (rename_text backup target) (moved backup target) ->
  work st = None -> moving (rename_text backup target) -> table st backup = old -> table st scratch = new ->
  outcome_safe old new label (taken_back st label affected ws ws' m).
Proof.
  intros Hk Hu Hw Hmv Hb Hn. unfold taken_back. specialize (Hu st Hw). destruct (server_run st _) as [s3 [m'|?]]; destruct Hu as [Hu _].
  - destruct Hu as [Hu|[Hl (_ & _ & Hm & _)]].
    + right. left. split_and!; cbn; [done|by rewrite Hu|by rewrite Hu|apply elem_of_snoc_self].
    + eapply kept_state; [exact Hl|exact Hmv|]. left. by rewrite Hm.
  - apply swap_undone. destruct Hu as (_ & _ & Hm & _). by rewrite Hm.
Qed.
(** The second rename took effect though its answer was lost: the new table is under the name, and the old
    one, under the backup's, cannot be moved over it. *)
Lemma trino_lost st label affected ws ws' m old new q : ss_kind s = DTrino -> atomic_law (rename_text backup target) (moved backup target) ->
  work st = None -> lost q -> moving q -> is_Some new -> table st target = new ->
  outcome_safe old new label (taken_back st label affected ws ws' m).
Proof.
  intros Hk Hu Hw Hl Hmv Hn Ht. unfold taken_back. specialize (Hu st Hw). destruct (server_run st _) as [s3 [m'|?]]; destruct Hu as [Hu _].
  - eapply kept_state; [exact Hl|exact Hmv|]. right. left. split; [done|]. destruct Hu as [Hu|[_ (_ & Hnone & _)]]; [by rewrite Hu|].
    rewrite Ht in Hnone. by destruct Hn as [x Hx]; rewrite Hx in Hnone.
  - destruct Hu as (_ & Hnone & _). rewrite Ht in Hnone. by destruct Hn as [x Hx]; rewrite Hx in Hnone.
Qed.

(** Trino: two renames, and a third that takes back the first. *)
Lemma trino_swap st label existed affected ws old : ss_kind s = DTrino -> work st = None -> table st target = old -> is_Some (table st scratch) ->
  outcome_safe old (table st scratch) label (swap_in st plan label existed affected ws).
Proof.
  intros Hk Hw Ht Hnew. pose proof swap_moves as Hl. unfold swap_law in Hl. rewrite Hk in Hl. destruct Hl as (Hi & Hs & Hu & Hd).
  unfold TableSwap.swap_in.
  assert (Hp : rp_install plan = [rename_text scratch target] /\ rp_swap plan = [rename_text target backup; rename_text scratch target]
    /\ rp_drop_old plan = Some (B "DROP TABLE " ++ backup) /\ rp_undo plan = Some (rename_text backup target) /\ rp_atomic plan = false)
    by (unfold plan, replacement_plan; rewrite Hk; cbn -[B]; by split_and!).
  destruct Hp as (Hins & Hswap & -> & Hun & Hat).
  assert (Hmv : forall q, q ∈ [rename_text target backup; rename_text scratch target; rename_text backup target] -> moving q).
  { intros q. unfold moving. rewrite Hins, Hswap, Hun. cbn [app option_list]. rewrite !elem_of_cons. tauto. }
  assert (Hbk : ss_kind s <> DPostgres) by (by rewrite Hk).
  rewrite Hins, Hswap. unfold put_back. rewrite Hat, Hun. destruct existed; cbn [swap_steps].
  - specialize (Hs st Hw). destruct (server_run st (rename_text target backup)) as [s1 [m|?]]; destruct Hs as [Hs Hw1].
    { destruct Hs as [Hs|[Hl (_ & _ & Hb & _)]]; [apply swap_undone; by rewrite Hs|].
      eapply kept_leave; [exact Hl|apply Hmv; by left|]. right. right. split; [done|by rewrite Hb]. }
    destruct Hs as (_ & _ & Hm1 & _ & Hf1). pose proof (Hf1 scratch (not_eq_sym target_scratch) scratch_backup) as Hsc1. rewrite Ht in Hm1.
    pose proof (Hi s1 Hw1) as Hi1. destruct (server_run s1 (rename_text scratch target)) as [s2 [m|?]]; destruct Hi1 as [Hi1 Hw2].
    + cbn [Nat.ltb Nat.leb]. destruct Hi1 as [Hi1|[Hl Hi1]].
      * apply trino_undo; [done|done|done|apply Hmv; do 2 right; by left|by rewrite Hi1|by rewrite Hi1].
      * destruct Hi1 as (_ & _ & Hm2 & _). eapply trino_lost; [done|done|done|exact Hl|apply Hmv; right; by left|done|by rewrite Hm2, Hsc1].
    + destruct Hi1 as (_ & _ & Hm2 & _). rewrite Hsc1 in Hm2.
      assert (Htar : table (server_run s2 (B "DROP TABLE " ++ backup)).1 target = table st scratch) by (rewrite <- Hm2; by apply drop_backup).
      destruct (server_run s2 _) as [s3 [?|?]]; (split_and!; cbn; [done|done|]; intros _ _); [apply elem_of_app; left|]; apply elem_of_snoc_self.
  - specialize (Hi st Hw). destruct (server_run st _) as [s1 [m|?]]; destruct Hi as [Hi Hw1].
    + cbn [Nat.ltb Nat.leb]. destruct Hi as [Hi|[Hl (Hn & _ & Hm & _)]]; [apply swap_undone; by rewrite Hi|].
      eapply kept_leave; [exact Hl|apply Hmv; right; by left|]. right. left. by split.
    + destruct Hi as (Hn & Hnone & Hm & _). split_and!; [done|done|]. rewrite <- Ht, Hnone. by intros _ [? ?].
Qed.
Lemma swap_safe st label existed affected ws old : work st = None -> table st target = old -> is_Some (table st scratch) ->
  outcome_safe old (table st scratch) label (swap_in st plan label existed affected ws).
Proof.
  intros. destruct (ss_kind s) eqn:Hk; [by apply trino_swap|by apply postgres_swap|by apply mysql_swap].
Qed.

(** C29: A replace never costs the table it replaces. Whatever the server answers to each statement, and
    whenever a Stop arrives: a replace that succeeds leaves the rows it built under the table's name,
    and on MySQL and Trino never over a table it did not say it replaced. Every other end leaves the
    old table under its name, and says so, except that on Trino, where the swap is two renames and
    the one that takes back the first may fail too, the old table then waits under the backup's name
    with the rows built beside it, and the warning names both. Where a statement that moves a table may have
    been done though it was answered with an error, the report can be wrong but no rows are lost:
    under the name are the old rows, or the new ones in full, or the old ones are under the backup's
    name on MySQL and Trino. *)
Theorem replace_never_costs_the_table st label affected ws : work st = None ->
  outcome_safe (table st target) (table (server_build st (rp_build plan)).1 scratch) label (replace_table st plan label affected ws).
Proof.
  intros Hw. unfold TableSwap.replace_table. pose proof (build_frame st Hw) as [Hb Hw1].
  destruct (server_build st (rp_build plan)) as [s1 b] eqn:Heb. cbn in Hb, Hw1 |- *. pose proof (Hb target target_scratch) as Ht.
  destruct b as [n|reusable|m]; [|by apply leave_safe|by apply leave_safe].
  destruct (stopped s1); [by apply leave_safe|]. pose proof (build_done st s1 n Hw Heb) as Hn. unfold table_exists.
  pose proof (read_frame s1 Hw1) as [Hr Hw2]. destruct (server_read s1 (rp_probe plan)) as [s2 [m|bs]]; cbn in Hr, Hw2.
  - apply leave_safe; [done|]. by rewrite Hr.
  - rewrite <- (Hr scratch) in *. apply swap_safe; [done|by rewrite Hr|done].
Qed.
End Names.
End Spec.

(** ** A small server *)

(** It keeps its tables in a map, answers [left_over] statements and refuses every later one. One that [drops]
    does what the last of them says and then loses the connection instead of answering. *)
Module Small.
#[local] Existing Instance no_float.
Inductive SmallOp := Move (a b : bytes) | Move2 (a b c d : bytes) | DropTable (a : bytes) | Begin_ | Commit_ | Rollback_.
Record Server := MkServer { tables : gmap bytes Z; inside : option (gmap bytes Z); left_over : nat }.
Definition move (a b : bytes) (m : gmap bytes Z) : option (gmap bytes Z) :=
  match m !! a, m !! b with Some x, None => if decide (a = b) then None else Some (<[b := x]> (delete a m)) | _, _ => None end.
Definition apply_op (o : SmallOp) (m : gmap bytes Z) : option (gmap bytes Z) :=
  match o with
  | Move a b => move a b m
  | Move2 a b c d => m ← move a b m; move c d m
  | DropTable a => Some (delete a m)
  | _ => None
  end.
Definition step (st : Server) (o : SmallOp) : option Server :=
  let keep t i := Some (MkServer t i (Nat.pred (left_over st))) in
  match o, inside st with
  | Begin_, None => keep (tables st) (Some (tables st))
  | Begin_, Some _ => None
  | Commit_, Some m => keep m None
  | Commit_, None => None
  | Rollback_, _ => keep (tables st) None
  | o, Some m => m ← apply_op o m; keep (tables st) (Some m)
  | o, None => m ← apply_op o (tables st); keep m None
  end.
Definition op_of (ops : list (bytes * SmallOp)) (q : bytes) : option SmallOp := snd <$> find (fun x => bytes_eqb x.1 q) ops.
Definition REFUSED : bytes := B "the server is gone".
Definition run (drops : bool) (ops : list (bytes * SmallOp)) (st : Server) (q : bytes) : Server * (bytes + option Z) :=
  match left_over st, op_of ops q with
  | Datatypes.S k, Some o =>
      match step st o with Some st => (st, if drops && (k =? 0) then inl REFUSED else inr None) | None => (st, inl REFUSED) end
  | _, _ => (st, inl REFUSED)
  end.
Definition make (scratch : bytes) (st : Server) (_ : bytes) : Server * Built :=
  match inside st, left_over st with
  | None, Datatypes.S n => (MkServer (<[scratch := 7%Z]> (tables st)) None n, BFinished (Some 3%Z))
  | _, _ => (st, BFailed REFUSED)
  end.
Definition read (target : bytes) (st : Server) (_ : bytes) : Server * (bytes + list (list (list Value))) :=
  (st, inr [[[VInt (match tables st !! target with Some _ => 1 | None => 0 end)]]]).
Definition table (st : Server) : bytes -> option Z := fun n => tables st !! n.
Definition work (st : Server) : option (bytes -> option Z) := (fun m n => m !! n) <$> inside st.

Section Laws.
Variables (drops : bool) (ops : list (bytes * SmallOp)).
Definition lost (_ : bytes) : Prop := drops = true.
Lemma work_none st : work st = None -> inside st = None.
Proof. unfold work. by destruct (inside st). Qed.
Lemma move_moved a b m m' : move a b m = Some m' -> moved a b (fun n => m !! n) (fun n => m' !! n).
Proof.
  unfold move. destruct (m !! a) as [x|] eqn:Ha; [|done]. destruct (m !! b) eqn:Hb; [done|]. destruct (decide (a = b)) as [|Hab]; [done|].
  intros [= <-]. split_and!; [done|done|by rewrite lookup_insert_eq|by rewrite lookup_insert_ne, lookup_delete_eq|].
  intros n Hna Hnb. by rewrite lookup_insert_ne, lookup_delete_ne.
Qed.
Lemma atomic_of q o (R : (bytes -> option Z) -> (bytes -> option Z) -> Prop) : op_of ops q = Some o ->
  match o with Begin_ | Commit_ | Rollback_ => False | _ => True end ->
  (forall m m', apply_op o m = Some m' -> R (fun n => m !! n) (fun n => m' !! n)) ->
  atomic_law (run drops ops) table work lost q R /\ inside_law (run drops ops) table work q R.
Proof.
  intros Ho Hk HR. split.
  - intros st Hw. apply work_none in Hw. unfold run. rewrite Ho. destruct st as [t i [|k]]; cbn in *; subst i; [by split; [left|]|].
    unfold step. cbn. destruct o; try done; (destruct (apply_op _ t) as [m|] eqn:Hm; cbn -[apply_op] in *; rewrite ?Hm; cbn; [|by split; [left|]]; apply HR in Hm;
      destruct drops eqn:Ed, k; cbn; (split; [|done]); try exact Hm; right; by split).
  - intros st w Hw. unfold run. rewrite Ho. destruct st as [t [m|] [|k]]; cbn in *; try done. injection Hw as <-.
    unfold step. cbn. destruct o; try done; (destruct (apply_op _ m) as [m'|] eqn:Hm; cbn -[apply_op] in *; rewrite ?Hm; cbn; [|done]; apply HR in Hm;
      destruct drops, k; cbn; try done; (split; [done|]); eexists; by split).
Qed.

Lemma drop_drops a m m' : apply_op (DropTable a) m = Some m' -> dropped a (fun n => m !! n) (fun n => m' !! n).
Proof. intros [= <-]. split; [apply lookup_delete_eq|]. intros n Hn. by rewrite lookup_delete_ne. Qed.
Lemma move2_moved a b c d m m' : apply_op (Move2 a b c d) m = Some m' ->
  exists u, moved a b (fun n => m !! n) u /\ moved c d u (fun n => m' !! n).
Proof.
  cbn. destruct (move a b m) as [u|] eqn:Hu; cbn; [|done]. intros Hm. exists (fun n => u !! n). split; by apply move_moved.
Qed.
Lemma drop_frame q a : op_of ops q = Some (DropTable a) -> forall st, frame a (table st) (table (run drops ops st q).1).
Proof.
  intros Ho st n Hn. unfold run. rewrite Ho. destruct st as [t [m|] [|k]]; cbn; try done. unfold table. cbn. by rewrite lookup_delete_ne.
Qed.
Lemma begins q : op_of ops q = Some Begin_ -> begin_law (run drops ops) table work q.
Proof.
  intros Ho st Hw. apply work_none in Hw. unfold run. rewrite Ho. destruct st as [t i [|k]]; cbn in *; subst i; [done|]. cbn.
  destruct (drops && (k =? 0)); [done|]. split; [done|]. by eexists.
Qed.
Lemma commits q : op_of ops q = Some Commit_ -> commit_law (run drops ops) table work lost q.
Proof.
  intros Ho st w Hw. unfold run. rewrite Ho. destruct st as [t [m|] [|k]]; cbn in *; try done; [by left|]. injection Hw as <-.
  destruct (drops && (k =? 0)) eqn:Ed; [|done]. right. by apply andb_true_iff in Ed as [Ed _].
Qed.
Lemma rolls_back q : op_of ops q = Some Rollback_ -> forall st, same (table st) (table (run drops ops st q).1).
Proof. intros Ho st. unfold run. rewrite Ho. by destruct st as [t i [|k]]. Qed.
End Laws.

(** What this server understands of one plan. *)
Definition ops_of (s : SlotStyle) (target scratch backup table : bytes) : list (bytes * SmallOp) :=
  [(B "BEGIN", Begin_); (B "COMMIT", Commit_); (B "ROLLBACK", Rollback_); (B "DROP TABLE IF EXISTS " ++ scratch, DropTable scratch);
   (B "DROP TABLE IF EXISTS " ++ target, DropTable target); (rename_text scratch (slot_quote s table), Move scratch target);
   (rename_text scratch target, Move scratch target); (rename_text target backup, Move target backup);
   (rename_text backup target, Move backup target); (B "DROP TABLE " ++ backup, DropTable backup);
   (B "RENAME TABLE " ++ scratch ++ B " TO " ++ target, Move scratch target);
   (B "RENAME TABLE " ++ target ++ B " TO " ++ backup ++ B ", " ++ scratch ++ B " TO " ++ target, Move2 target backup scratch target)].
Definition STAMP : bytes := B "00".
Definition style_at (k : DriverKind) : SlotStyle := style_of k.
Definition target_at (k : DriverKind) : bytes := target (style_at k) (B "c") (B "s") (B "t").
Definition scratch_at (k : DriverKind) : bytes := scratch (style_at k) (B "c") (B "s") STAMP.
Definition backup_at (k : DriverKind) : bytes := backup (style_at k) (B "c") (B "s") STAMP.
Definition ops_at (k : DriverKind) : list (bytes * SmallOp) := ops_of (style_at k) (target_at k) (scratch_at k) (backup_at k) (B "t").
Definition plan_at (k : DriverKind) : Replacement := plan (style_at k) (B "c") (B "s") (B "t") (B "SELECT 1") STAMP.

#[export] Instance small_server (drops : bool) (k : DriverKind) :
  SwapServer (run drops (ops_at k)) (make (scratch_at k)) (read (target_at k)) table work (lost drops) (style_at k) (B "c") (B "s") (B "t") (B "SELECT 1") STAMP.
Proof.
  split.
  - intros st Hw. apply work_none in Hw. unfold make. rewrite Hw. destruct st as [t i [|n]]; cbn in *; subst i; [done|]. split; [|done].
    intros m Hm. unfold table. cbn. by rewrite lookup_insert_ne.
  - intros st st' n Hw. apply work_none in Hw. unfold make. rewrite Hw. destruct st as [t i [|l]]; cbn in *; [done|]. intros [= <- _].
    unfold table. cbn. fold (scratch_at k). by rewrite lookup_insert_eq.
  - by intros st Hw.
  - apply drop_frame. destruct k; vm_compute; reflexivity.
  - unfold swap_law. destruct k; cbn [ss_kind style_at style_of]; split_and!;
      first [ apply begins; vm_compute; reflexivity | apply commits; vm_compute; reflexivity | apply rolls_back; vm_compute; reflexivity
            | (eapply atomic_of; [vm_compute; reflexivity|exact I|first [apply drop_drops|apply move2_moved|apply move_moved]]) ].
Qed.

Definition run_of (drops : bool) (k : DriverKind) (st : Server) : Outcome :=
  replace_table (run drops (ops_at k)) (make (scratch_at k)) (read (target_at k)) (fun _ => false) st (plan_at k) (B "s.t") None [].
Definition start (k : DriverKind) (n : nat) : Server := MkServer (<[target_at k := 1%Z]> ∅) None n.
Definition safe_at (drops : bool) (k : DriverKind) (n : nat) : Prop :=
  outcome_safe table (lost drops) (style_at k) (B "c") (B "s") (B "t") (B "SELECT 1") STAMP (Some 1%Z)
    (table (make (scratch_at k) (start k n) []).1 (scratch_at k)) (B "s.t") (run_of drops k (start k n)).
End Small.

#[local] Existing Instance Small.small_server.
Lemma replace_never_costs_the_table_witness :
  Small.safe_at false DTrino 2 /\ Small.safe_at false DPostgres 9 /\ Small.safe_at false DMysql 9 /\ Small.safe_at true DMysql 2 /\ Small.safe_at true DTrino 3
  /\ oc_result (Small.run_of false DTrino (Small.start DTrino 2)) = inl Small.REFUSED
  /\ oc_result (Small.run_of false DPostgres (Small.start DPostgres 9)) = inr false
  /\ Small.table (oc_state (Small.run_of false DTrino (Small.start DTrino 2))) (Small.backup_at DTrino) = Some 1%Z.
Proof.
  assert (Hsafe : forall d k n, Small.safe_at d k n).
  { intros d k n. assert (Ht : Small.table (Small.start k n) (Small.target_at k) = Some 1%Z) by (apply lookup_insert_eq).
    unfold Small.safe_at. rewrite <- Ht.
    apply (replace_never_costs_the_table (Small.run d (Small.ops_at k)) (Small.make (Small.scratch_at k)) (Small.read (Small.target_at k))
      (fun _ => false) Small.table Small.work (Small.lost d) (Small.style_at k) (B "c") (B "s") (B "t") (B "SELECT 1") Small.STAMP);
      [discriminate|vm_compute; discriminate|vm_compute; discriminate|reflexivity]. }
  split_and!; [apply Hsafe..|vm_compute; reflexivity|vm_compute; reflexivity|vm_compute; reflexivity].
Defined.
(** Trino loses the answer of the first rename, and with it the connection: the old table waits under the
    backup's name, nothing is under its own, and the report says that the table was left as it was. *)
Example lost_rename_strands_the_table :
  let o := Small.run_of true DTrino (Small.start DTrino 2) in
  Small.table (oc_state o) (Small.target_at DTrino) = None /\ Small.table (oc_state o) (Small.backup_at DTrino) = Some 1%Z
  /\ oc_warnings o = [B "the temporary table c.s.qh_new_00 was left behind: the server is gone"; B "the existing table s.t was left as it was"].
Proof. vm_compute. by split_and!. Qed.
