(* ===== verification/TransferRun.v ===== *)
(** * TransferRun: the run of a transfer, [crates/qh-ffi/src/transfer/mod.rs].

    The rows of a query on one connection become a table on another. [Dest] is the destination's
    state, [live_range] the loop from the source's first batch to its end, [conclude] what follows
    it and [transfer] the run from the connected destination on. Everything sent, and what it was answered, is
    an event of [w_trace]; the environment ([Answers]) answers from the trace before, so the
    servers, the clock and a Stop are arbitrary. *)
From S2P Require Import Prelude Bytes Text Scan Script Classify ExecLog Env Guard Ident SqlType Value Batch Names Types Encode.
From S2P Require Import TransferPlan.
#[local] Open Scope nat_scope.

Definition SEND_BYTES : Z := 1024 * 1024.
Definition MYSQL_PLACEHOLDERS : Z := 65535.
Definition STOP_UNCONFIRMED : string := "the server did not confirm the stop; the statement may still be running".

(** [fetch_rows] and [progress_ms] only size what the environment answers; [window] is in nanoseconds. *)
Record Knobs := MkKnobs { fetch_rows : Z; copy_rows : Z; copy_bytes : Z; batch_rows : Z; window : Z; progress_ms : Z }.
(** What [setup] decided without the network; [su_stamp] names the scratch and the backup. *)
Record RunSetup := MkSetup {
  su_source_kind : DriverKind; su_dest_kind : DriverKind; su_target : Target; su_namespace : bytes; su_table : bytes;
  su_dialect : Dialect; su_floor : SafeModeFloor; su_confirmed : bool; su_mode : TransferMode; su_knobs : Knobs;
  su_stamp : bytes }.

Section Run.
Context `{Float} `{Unicode} `{!Encoding} {S : Type} `{ExecutionStore S}.
Variable now_millis : S -> Z.
Variable storage_message : bytes.

(** ** Data *)

Inductive Parameter_ :=
| PNull | PBool (b : bool) | PInt (n : Z) | PUInt (n : Z) | PFloat (f : f64) | PText (t : bytes) | PBytes (b : bytes).
Definition parameter (c : MysqlCell) : Parameter_ :=
  match c with
  | CNull => PNull | CInt n => PInt n | CUInt n => PUInt n | CFloat f => PFloat f | CText t => PText t | CBytes b => PBytes b
  end.
Definition parameter_bytes (p : Parameter_) : Z :=
  match p with
  | PNull | PBool _ => 1
  | PInt _ | PUInt _ | PFloat _ => 9
  | PText t | PBytes t => Z.of_nat (List.length t) + 9
  end%Z.

(** What a statement is answered: the batches of its cursor, the error that ends them, and the
    server's count. *)
Record CursorAnswer := MkCursor { ca_batches : list Batch; ca_error : option bytes; ca_affected : option Z }.

Inductive OutEvent :=
| OutStep (name : string)
| OutStart (columns : list bytes) (query_id : option bytes) (target_columns : list (bytes * bytes)) (fallbacks : list Change)
| OutProgress (rows rows_read : Z)
| OutDone (rows rows_read : Z) (table : bytes) (mode : string) (query_id : option bytes) (stopped : bool)
    (warnings : list bytes) (verified : bool) (target_kind : DriverKind).

(** What a written statement is for. *)
Inductive Purpose := ForCreate | ForSwap | ForDropOld | ForCleanUp.

(** Everything that happened, with its answer ([None]: it succeeded). *)
Inductive Event :=
| EvOut (e : OutEvent) (r : option bytes)
| EvEngine (s : EngineStatement) (r : option bytes)
| EvPacket (packet : option Z)
| EvProbe (p : ProbeCall) (r : bytes + bool)
| EvWritten (why : Purpose) (p : Planned) (r : option bytes)
| EvInsert (p : Planned) (parameters : list Parameter_) (r : bytes + option Z)
| EvCopyIn (p : Planned) (r : option bytes)
| EvCopySend (chunk : bytes) (r : option bytes)
| EvCopyFinish (r : bytes + Z)
| EvDestCancel
| EvCopyDropped
| EvDestClosed
| EvNext (r : bytes + option Batch)
| EvTimer
| EvStopAsked (stop : bool)
| EvSourceOpen (r : option bytes)
| EvSourceReadOnly (r : option bytes)
| EvSourceSet (s : EngineStatement) (r : option bytes)
| EvQuery (r : option (option bytes))
| EvSourceCancel
| EvSourceDropped
| EvSourceClosed.

Inductive Got := GStop | GAnswer (r : bytes + option Batch).
Record Answers := MkAnswers {
  an_out : list Event -> OutEvent -> option bytes;
  an_execute : list Event -> bytes -> list Parameter_ -> bytes + CursorAnswer;
  an_in_time : list Event -> bool;
  an_copy_in : list Event -> bytes -> option bytes;
  an_send : list Event -> bytes -> option bytes;
  an_finish : list Event -> bytes + Z;
  an_timer : list Event -> bool;
  an_next : list Event -> Got;
  an_open : list Event -> option bytes;
  an_read_only : list Event -> option bytes;
  an_source_set : list Event -> EngineStatement -> option bytes;
  an_query : list Event -> option (option bytes);
  an_stop : list Event -> bool;
  an_report : list Event -> bool;
  an_columns : list Event -> list bytes;
  an_types : list Event -> option (list SqlType);
  an_query_id : list Event -> option bytes;
  an_cancelled : list Event -> bool;
}.
Context (env : Answers) (setup : RunSetup).

(** ** The state *)

Record Prepared := MkPrepared { pr_plan : WritePlan; pr_table : TablePlan; pr_decider : Decider; pr_per_insert : Z }.
Record Window := MkWindow { wn_rows : Z; wn_bytes : Z }.
Record Dest := MkDest {
  d_prepared : option Prepared; d_existed : bool; d_budget : Z; d_window : option Window; d_buffer : bytes;
  d_pending : list Parameter_; d_pending_rows : nat; d_pending_bytes : Z; d_acked : Z; d_created : bool;
  d_transaction : bool; d_widenings : list bytes }.
Definition dest_new : Dest := MkDest None false (insert_budget None) None [] [] 0 0 0 false false [].
Definition set_prepared (p : Prepared) (d : Dest) : Dest :=
  MkDest (Some p) (d_existed d) (d_budget d) (d_window d) (d_buffer d) (d_pending d) (d_pending_rows d)
    (d_pending_bytes d) (d_acked d) (d_created d) (d_transaction d) (d_widenings d).
Definition set_existed (b : bool) (d : Dest) : Dest :=
  MkDest (d_prepared d) b (d_budget d) (d_window d) (d_buffer d) (d_pending d) (d_pending_rows d)
    (d_pending_bytes d) (d_acked d) (d_created d) (d_transaction d) (d_widenings d).
Definition set_budget (n : Z) (d : Dest) : Dest :=
  MkDest (d_prepared d) (d_existed d) n (d_window d) (d_buffer d) (d_pending d) (d_pending_rows d)
    (d_pending_bytes d) (d_acked d) (d_created d) (d_transaction d) (d_widenings d).
Definition set_copy (win : option Window) (buffer : bytes) (d : Dest) : Dest :=
  MkDest (d_prepared d) (d_existed d) (d_budget d) win buffer (d_pending d) (d_pending_rows d)
    (d_pending_bytes d) (d_acked d) (d_created d) (d_transaction d) (d_widenings d).
Definition set_pending (ps : list Parameter_) (rows : nat) (size : Z) (d : Dest) : Dest :=
  MkDest (d_prepared d) (d_existed d) (d_budget d) (d_window d) (d_buffer d) ps rows size
    (d_acked d) (d_created d) (d_transaction d) (d_widenings d).
Definition add_acked (n : Z) (d : Dest) : Dest :=
  MkDest (d_prepared d) (d_existed d) (d_budget d) (d_window d) (d_buffer d) (d_pending d) (d_pending_rows d)
    (d_pending_bytes d) (d_acked d + n) (d_created d) (d_transaction d) (d_widenings d).
Definition set_created (b : bool) (d : Dest) : Dest :=
  MkDest (d_prepared d) (d_existed d) (d_budget d) (d_window d) (d_buffer d) (d_pending d) (d_pending_rows d)
    (d_pending_bytes d) (d_acked d) b (d_transaction d) (d_widenings d).
Definition set_transaction (b : bool) (d : Dest) : Dest :=
  MkDest (d_prepared d) (d_existed d) (d_budget d) (d_window d) (d_buffer d) (d_pending d) (d_pending_rows d)
    (d_pending_bytes d) (d_acked d) (d_created d) b (d_widenings d).
Definition set_widenings (l : list bytes) (d : Dest) : Dest :=
  MkDest (d_prepared d) (d_existed d) (d_budget d) (d_window d) (d_buffer d) (d_pending d) (d_pending_rows d)
    (d_pending_bytes d) (d_acked d) (d_created d) (d_transaction d) l.

Record World := MkWorld { w_dest : Dest; w_sink : option S; w_trace : list Event }.

(** ** The monad of the run: the world as it is left, and an error or a result *)

Definition M (E A : Type) : Type := World -> (E + A) * World.
Definition ret {E A} (x : A) : M E A := fun w => (inr x, w).
Definition fail {E A} (e : E) : M E A := fun w => (inl e, w).
Definition bind {E A C} (m : M E A) (k : A -> M E C) : M E C :=
  fun w => match m w with (inl e, w) => (inl e, w) | (inr x, w) => k x w end.
Definition map_error {E F A} (f : E -> F) (m : M E A) : M F A :=
  fun w => match m w with (inl e, w) => (inl (f e), w) | (inr x, w) => (inr x, w) end.
Definition get {E} : M E Dest := fun w => (inr (w_dest w), w).
Definition modify {E} (f : Dest -> Dest) : M E unit := fun w => (inr tt, MkWorld (f (w_dest w)) (w_sink w) (w_trace w)).
Definition log (e : Event) (w : World) : World := MkWorld (w_dest w) (w_sink w) (w_trace w ++ [e]).
(** Ask, note the event with the answer, and go on with the answer. *)
Definition ask {E A} (question : list Event -> A) (event : A -> Event) : M E A :=
  fun w => let a := question (w_trace w) in (inr a, log (event a) w).
(** Ask what leaves no event. *)
Definition peek {E A} (question : list Event -> A) : M E A := fun w => (inr (question (w_trace w)), w).
Definition Run (A : Type) : Type := M RunError A.
Definition on_target (e : RunError) : RunError := on SideTarget e.
Definition on_source (e : RunError) : RunError := on SideSource e.
Definition or_fail (wrap : bytes -> RunError) (r : option bytes) : Run unit :=
  match r with Some m => fail (wrap m) | None => ret tt end.
Definition target_error (m : bytes) : RunError := on_target (RDriver m).
Local Notation "'let!' x := m 'in' k" := (bind m (fun x => k)) (at level 10, x name, m at level 100, k at level 200).
Local Notation "m ;;! k" := (bind m (fun _ => k)) (at level 199, right associativity).

(** ** Statements *)

Definition emit (e : OutEvent) : Run unit := let! r := ask (fun tr => an_out env tr e) (EvOut e) in or_fail RIo r.
Definition step (name : string) : Run unit := emit (OutStep name).

(** Driving a cursor to its end: the error it ends with, or the count. *)
Definition finish_cursor (r : bytes + CursorAnswer) : bytes + option Z :=
  match r with
  | inl m => inl m
  | inr a => match ca_error a with Some m => inl m | None => inr (ca_affected a) end
  end.
Definition finish_statement (tr : list Event) (text : bytes) : option bytes :=
  match finish_cursor (an_execute env tr text []) with inl m => Some m | inr _ => None end.
Definition engine (s : EngineStatement) : Run unit :=
  let! r := ask (fun tr => finish_statement tr (B (engine_text s))) (EvEngine s) in or_fail target_error r.

Definition decide (dc : Decider) (p : Planned) : Run Decider :=
  fun w => match allow now_millis storage_message (w_sink w) dc p with
           | (sink, _, Some e) => (inl (on_target e), MkWorld (w_dest w) sink (w_trace w))
           | (sink, dc, None) => (inr dc, MkWorld (w_dest w) sink (w_trace w))
           end.
Fixpoint decide_all (dc : Decider) (ps : list Planned) : Run Decider :=
  match ps with [] => ret dc | p :: ps => let! dc := decide dc p in decide_all dc ps end.
Definition with_decider (dc : Decider) (p : Prepared) : Prepared := MkPrepared (pr_plan p) (pr_table p) dc (pr_per_insert p).
Definition statement (why : Purpose) (p : Planned) : Run unit :=
  let! d := get in
  match d_prepared d with
  | None => fail (on_target (RInternal (B "no plan to send")))
  | Some prepared =>
      let! dc := decide (pr_decider prepared) p in
      modify (set_prepared (with_decider dc prepared)) ;;!
      let! r := ask (fun tr => finish_statement tr (pl_text p)) (EvWritten why p) in or_fail target_error r
  end.

(** ** Before the source is touched *)

Definition first_cell (b : Batch) : option Value := match b with (v :: _) :: _ => Some v | _ => None end.
Definition read_max_packet (r : bytes + CursorAnswer) : option Z :=
  match r with
  | inl _ => None
  | inr a => foldl (fun packet b => match packet with Some n => Some n | None => first_cell b ≫= parse_max_allowed_packet end)
               None (ca_batches a)
  end.
Definition finds_a_table (b : Batch) : bool :=
  match first_cell b with
  | None | Some VNull => false
  | Some (VInt n) | Some (VUInt n) => (0 <? n)%Z
  | Some _ => true
  end.
Definition probe_answer (r : bytes + CursorAnswer) : bytes + bool :=
  match r with
  | inl m => inl m
  | inr a => match ca_error a with Some m => inl m | None => inr (existsb finds_a_table (ca_batches a)) end
  end.
Definition name_refused (f : NameFault) : RunError := on_target (RUsage (B "the destination name " ++ name_error_text (nf_error f))).
Definition probe_table : Run bool :=
  match probe (su_target setup) (su_namespace setup) (su_table setup) with
  | inl f => fail (name_refused f)
  | inr call =>
      let '(refusal, text, bound) :=
        match call with
        | ProbeText read => (check_structure read (su_dialect setup), pl_text read, [])
        | ProbeBound s values => (None, B (engine_text s), PText <$> values)
        end in
      match refusal with
      | Some e => fail (on_target e)
      | None =>
          let! r := ask (fun tr => probe_answer (an_execute env tr text bound)) (EvProbe call) in
          match r with inl m => fail (target_error m) | inr found => ret found end
      end
  end.
Definition connect_setup : Run unit :=
  (match su_target setup with
   | TMysql =>
       engine StrictMode ;;! engine Utf8mb4 ;;!
       let! packet := ask (fun tr => read_max_packet (an_execute env tr (B (engine_text MaxPacket)) [])) EvPacket in
       modify (set_budget (insert_budget packet))
   | TPostgres => engine ArrayNulls
   end) ;;!
  let! found := probe_table in
  modify (set_existed found) ;;!
  match found, su_mode setup with
  | true, TCreate =>
      fail (on_target (RQuery (B "the table " ++ su_namespace setup ++ B "." ++ su_table setup
                               ++ B " already exists; choose another name, or choose Replace")))
  | _, _ => ret tt
  end.

(** ** Writing *)

Definition rows_per_insert (columns : nat) : Z :=
  Z.min (batch_rows (su_knobs setup)) (Z.max (MYSQL_PLACEHOLDERS / Z.max (Z.of_nat columns) 1) 1).
Definition begin (tp : TablePlan) : Run unit :=
  let! d := get in
  match build tp (su_mode setup) (su_namespace setup) (su_table setup) (d_existed d) (su_stamp setup) with
  | inl f => fail (name_refused f)
  | inr plan =>
      let! dc := decide_all (decider_new (su_floor setup) (su_confirmed setup) (su_dialect setup)) (plan_statements plan) in
      modify (set_prepared (MkPrepared plan tp dc (rows_per_insert (List.length (tp_columns tp))))) ;;!
      (match su_target setup with
       | TPostgres => engine Begin_ ;;! modify (set_transaction true)
       | TMysql => ret tt
       end) ;;!
      modify (set_created true) ;;! statement ForCreate (wp_create plan)
  end.

Definition dest_columns (d : Dest) : list PlannedColumn :=
  match d_prepared d with Some p => tp_columns (pr_table p) | None => [] end.
Definition refused (d : Dest) (v : Violation) (source_row : Z) : RunError :=
  on_target (RQuery (violation_text v (dest_columns d) source_row)).

Definition send_buffer : Run unit :=
  let! d := get in
  match d_buffer d with
  | [] => ret tt
  | chunk =>
      modify (set_copy (d_window d) []) ;;!
      match d_window d with
      | Some _ => let! r := ask (fun tr => an_send env tr chunk) (EvCopySend chunk) in or_fail target_error r
      | None => ret tt
      end
  end.
Definition close_window : Run unit :=
  send_buffer ;;!
  let! d := get in
  match d_window d with
  | None => ret tt
  | Some window =>
      modify (set_copy None (d_buffer d)) ;;!
      let! r := ask (an_finish env) EvCopyFinish in
      match r with
      | inl m => fail (target_error m)
      | inr loaded =>
          if (loaded =? wn_rows window)%Z then modify (add_acked loaded)
          else fail (on_target (RQuery (B "the destination loaded " ++ decimal loaded ++ B " of "
                                        ++ decimal (wn_rows window) ++ B " rows of a window")))
      end
  end.
Definition open_window : Run unit :=
  let! d := get in
  match d_window d with
  | Some _ => ret tt
  | None =>
      match d_prepared d ≫= fun p => wp_copy (pr_plan p) with
      | None => fail (on_target (RInternal (B "no COPY statement")))
      | Some copy =>
          let! r := ask (fun tr => an_copy_in env tr (pl_text copy)) (EvCopyIn copy) in
          or_fail target_error r ;;! modify (fun d => set_copy (Some (MkWindow 0 0)) (d_buffer d) d)
      end
  end.
Definition append_copy (values : list Value) (source_row : Z) : Run unit :=
  open_window ;;!
  let! d := get in
  let before := List.length (d_buffer d) in
  let '(violation, buffer) :=
    match d_prepared d with
    | Some p => copy_row (tp_columns (pr_table p)) values (d_buffer d)
    | None => (None, d_buffer d)
    end in
  modify (set_copy (d_window d) buffer) ;;!
  match violation with
  | Some v => fail (refused d v source_row)
  | None =>
      let added := Z.of_nat (List.length buffer - before) in
      let window := (fun w => MkWindow (wn_rows w + 1) (wn_bytes w + added)) <$> d_window d in
      let '(rows, bytes) := match window with Some w => (wn_rows w, wn_bytes w) | None => (0, 0)%Z end in
      modify (set_copy window buffer) ;;!
      (if (SEND_BYTES <=? Z.of_nat (List.length buffer))%Z then send_buffer else ret tt) ;;!
      if ((copy_rows (su_knobs setup) <=? rows) || (copy_bytes (su_knobs setup) <=? bytes))%Z then close_window else ret tt
  end.

Definition flush_insert : Run unit :=
  let! d := get in
  match d_pending_rows d, d_prepared d with
  | O, _ | _, None => ret tt
  | rows, Some prepared =>
      let planned := insert (pr_plan prepared) rows in
      let! dc := decide (pr_decider prepared) planned in
      modify (fun d => set_pending [] 0 0 (set_prepared (with_decider dc prepared) d)) ;;!
      let! r := ask (fun tr => finish_cursor (an_execute env tr (pl_text planned) (d_pending d)))
                  (EvInsert planned (d_pending d)) in
      match r with
      | inl m => fail (target_error m)
      | inr None => fail (on_target (RQuery (B "the destination did not say how many rows it wrote")))
      | inr (Some written) =>
          if (written =? Z.of_nat rows)%Z then modify (add_acked written)
          else fail (on_target (RQuery (B "the destination wrote " ++ decimal written ++ B " of "
                                        ++ decimal (Z.of_nat rows) ++ B " rows of a batch")))
      end
  end.
Definition append_insert (values : list Value) (source_row : Z) : Run unit :=
  let! d := get in
  match match d_prepared d with Some p => mysql_row (tp_columns (pr_table p)) values | None => inr [] end with
  | inl v => fail (refused d v source_row)
  | inr cells =>
      let added := parameter <$> cells in
      let rows := Datatypes.S (d_pending_rows d) in
      let size := foldl (fun n p => n + parameter_bytes p)%Z (d_pending_bytes d) added in
      modify (set_pending (d_pending d ++ added) rows size) ;;!
      let per_insert := match d_prepared d with Some p => pr_per_insert p | None => 1%Z end in
      if ((per_insert <=? Z.of_nat rows) || (d_budget d <=? size))%Z then flush_insert else ret tt
  end.
Definition append (values : list Value) (source_row : Z) : Run unit :=
  match su_target setup with TPostgres => append_copy values source_row | TMysql => append_insert values source_row end.
Definition flush_all : Run unit := match su_target setup with TPostgres => close_window | TMysql => flush_insert end.

(** ** The live range

    [Finished] is the cursor's "no more rows"; [Failed] holds an error already on its side. *)

Inductive LiveEnd := Finished (rows_read : Z) | Stopped (rows_read : Z) | Failed (e : RunError).
Definition Live (A : Type) : Type := M LiveEnd A.
Definition live {A} (m : Run A) : Live A := map_error Failed m.

(** The next batch; the window of a [COPY] closes on its timer meanwhile, and after that no timer
    is left. *)
Definition fetch (rows_read : Z) : Live (option Batch) :=
  let! d := get in
  (match d_window d with
   | None => ret tt
   | Some _ =>
       let! fired := peek (an_timer env) in
       if fired : bool then ask (fun _ => tt) (fun _ => EvTimer) ;;! live close_window else ret tt
   end) ;;!
  let! got := peek (an_next env) in
  match got with
  | GStop => ask (fun _ => true) EvStopAsked ;;! fail (Stopped rows_read)
  | GAnswer r =>
      ask (fun _ => r) EvNext ;;!
      match r with inl m => fail (Failed (on_source (RDriver m))) | inr batch => ret batch end
  end.
Definition stop_asked (rows_read : Z) : Live unit :=
  let! stop := ask (an_stop env) EvStopAsked in if stop : bool then fail (Stopped rows_read) else ret tt.

Definition write_row (b : Batch) (index : nat) (rows_read : Z) : Live unit :=
  stop_asked rows_read ;;!
  if negb (List.length (batch_row b index) =? List.length b) then
    fail (Failed (on_source (RInternal (B "a batch had a missing cell"))))
  else
    live (append (batch_row b index) (rows_read + 1)) ;;!
    let! report := peek (an_report env) in
    let! d := get in
    if report : bool then live (emit (OutProgress (d_acked d) (rows_read + 1))) else ret tt.
Fixpoint write_rows (b : Batch) (rows index : nat) (rows_read : Z) : Live Z :=
  match rows with
  | O => ret rows_read
  | Datatypes.S rows => write_row b index rows_read ;;! write_rows b rows (Datatypes.S index) (rows_read + 1)
  end.

(** The loop over the batches: the next batch, whether the source has ended, and the rows read. *)
Record LoopState := MkLoop { lp_next : option Batch; lp_ended : bool; lp_rows_read : Z }.
Definition live_turn (s : LoopState) : Live (LoopState + Z) :=
  let! rows_read := match lp_next s with
                    | Some b => write_rows b (batch_size b) 0 (lp_rows_read s)
                    | None => ret (lp_rows_read s)
                    end in
  if lp_ended s then ret (inr rows_read)
  else
    stop_asked rows_read ;;!
    let! next := fetch rows_read in
    match next with
    | Some b => ret (inl (MkLoop (Some b) false rows_read))
    | None => ret (inl (MkLoop None true rows_read))
    end.
Definition live_body (s : LoopState * World) : LoopState * World + (LiveEnd + Z) * World :=
  match live_turn s.1 s.2 with
  | (inl e, w) => inr (inl e, w)
  | (inr (inl s), w) => inl (s, w)
  | (inr (inr rows_read), w) => inr (inr rows_read, w)
  end.

Definition warning_of (c : Change) : bytes :=
  B "column " ++ debug (ch_column c) ++ B " (" ++ ch_from c ++ B ") is written as " ++ ch_to c ++ B ": " ++ ch_note c.
Definition target_failed {A} (m : string) : Live A := fail (Failed (on_target (RQuery (B m)))).
(** Before the loop: the first batch, the table and the [start] event. The fuel of [plan_table] is
    enough ([plan_ends_with_a_reason]), so its [None] does not happen. *)
Definition live_start : Live LoopState :=
  live (step "prepare") ;;!
  let! next := fetch 0 in
  let! columns := peek (an_columns env) in
  let! types := peek (an_types env) in
  if List.length columns =? 0 then
    fail (Failed (on_source (RQuery (B "the query returned no columns, so there is no table to make from it"))))
  else
    match types with
    | None => target_failed "the source driver did not describe its column types"
    | Some types =>
        if negb (List.length types =? List.length columns) then
          fail (Failed (on_target (RInternal (B "the source described a different number of column types than columns"))))
        else
          match plan_table (su_source_kind setup) (su_target setup) (zip columns types) with
          | None => fail (Failed (on_target (RInternal [])))
          | Some (inl refusal) => fail (Failed (on_target (RQuery (rf_reason refusal))))
          | Some (inr tp) =>
              live (begin tp) ;;!
              modify (set_widenings (warning_of <$> widenings tp)) ;;!
              live (step "write") ;;!
              let! query_id := peek (an_query_id env) in
              live (emit (OutStart columns query_id ((fun c => (pc_name c, ddl (pc_resolved c))) <$> tp_columns tp) (fallbacks tp))) ;;!
              ret (MkLoop next (match next with None => true | Some _ => false end) 0)
          end
    end.
(** [None]: the fuel of the loop ran out. *)
Definition live_range (fuel : nat) (w : World) : option (LiveEnd * World) :=
  match live_start w with
  | (inl e, w) => Some (e, w)
  | (inr s, w) =>
      match iter live_body fuel (s, w) with
      | None => None
      | Some (inl e, w) => Some (e, w)
      | Some (inr rows_read, w) =>
          match flush_all w with
          | (inl e, w) => Some (Failed e, w)
          | (inr _, w) => Some (Finished rows_read, w)
          end
      end
  end.

(** ** After the live range *)

Definition attempt {A} (m : Run A) : Run (RunError + A) := fun w => let '(r, w) := m w in (inr r, w).
Fixpoint swap_statements (ps : list Planned) : Run unit :=
  match ps with [] => ret tt | p :: ps => statement ForSwap p ;;! swap_statements ps end.
(** The table takes its name: the warnings it leaves. *)
Definition swap : Run (list bytes) :=
  let! d := get in
  match d_prepared d with
  | None => ret []
  | Some prepared =>
      swap_statements (wp_swap (pr_plan prepared)) ;;!
      (match su_target setup with
       | TPostgres => engine Commit_ ;;! modify (set_transaction false)
       | TMysql => ret tt
       end) ;;!
      modify (set_created false) ;;!
      match wp_drop_old (pr_plan prepared) with
      | None => ret []
      | Some drop_old =>
          let! r := attempt (statement ForDropOld drop_old) in
          ret match r with
              | inr _ => []
              | inl e => [B "the new table is in place, and the old one is kept as "
                          ++ backup_label (pr_plan prepared) (su_stamp setup) ++ B ": " ++ run_message e]
              end
      end
  end.

Definition bounded (tr : list Event) (text : bytes) : option bytes :=
  if an_in_time env tr then finish_statement tr text else Some (B "no answer within the stop budget").
Definition NOT_ROLLED_BACK : string :=
  "the destination transaction could not be rolled back; the server undoes it when the connection ends".
Definition left_behind (label reason : bytes) : bytes := B "the temporary table " ++ label ++ B " was left behind: " ++ reason.
(** The clean-up of a MySQL scratch: its statement, when it is allowed. *)
Definition clean_up : Run (list bytes) :=
  let! d := get in
  match d_prepared d with
  | Some prepared =>
      match wp_cleanup (pr_plan prepared) with
      | Some p =>
          let label := default [] (wp_scratch_label (pr_plan prepared)) in
          let! dc := attempt (decide (pr_decider prepared) p) in
          match dc with
          | inl _ => ret [left_behind [] (B "the clean-up was not allowed")]
          | inr _ =>
              let! r := ask (fun tr => bounded tr (pl_text p)) (EvWritten ForCleanUp p) in
              ret match r with Some reason => [left_behind label reason] | None => [] end
          end
      | None => ret [left_behind [] (B "the clean-up was not allowed")]
      end
  | None => ret [left_behind [] (B "the clean-up was not allowed")]
  end.
(** What a run that did not finish leaves is undone, and the warnings say what could not be. *)
Definition undo : Run (list bytes) :=
  let! d := get in
  (match d_window d with
   | Some _ =>
       modify (set_copy None (d_buffer d)) ;;!
       ask (fun _ => tt) (fun _ => EvDestCancel) ;;! ask (fun _ => tt) (fun _ => EvCopyDropped)
   | None => ret tt
   end) ;;!
  if d_transaction d then
    let! r := ask (fun tr => bounded tr (B (engine_text Rollback_))) (EvEngine Rollback_) in
    ret match r with Some _ => [B NOT_ROLLED_BACK] | None => [] end
  else match d_created d, su_target setup with true, TMysql => clean_up | _, _ => ret [] end.
Definition close_dest : Run unit := ask (fun _ => tt) (fun _ => EvDestClosed).
Definition abort : Run (list bytes) := let! ws := undo in close_dest ;;! ret ws.

Definition with_warnings (e : RunError) (ws : list bytes) : RunError :=
  match ws with
  | [] => e
  | _ => let warned := RWarned (run_message e) ws in
         match error_side e with Some side => on side warned | None => warned end
  end.
(** Abort, then the error with what was found before and what the abort left. *)
Definition abort_with {A} (ws : list bytes) (e : RunError) : Run A :=
  let! more := abort in fail (with_warnings e (ws ++ more)).
Definition abort_quietly {A} (e : RunError) : Run A := let! _more := abort in fail e.
(** [m], or [recover] with its error. *)
Definition or_else {A} (m : Run A) (recover : RunError -> Run A) : Run A :=
  let! r := attempt m in match r with inl e => recover e | inr x => ret x end.

Definition mode_name : string := match su_mode setup with TCreate => "create" | TReplace => "replace" end.
Definition conclude (rows_read : Z) (query_id : option bytes) : Run unit :=
  or_else (let! d := get in step "verify" ;;! emit (OutProgress (d_acked d) rows_read)) abort_quietly ;;!
  let! d := get in
  if negb (d_acked d =? rows_read)%Z then
    abort_with [] (on_target (RQuery (B "verification failed: " ++ decimal rows_read
      ++ B " rows were read from the source and the destination acknowledged " ++ decimal (d_acked d)
      ++ B "; nothing was swapped in")))
  else
    or_else (step "swap") abort_quietly ;;!
    let! ws := or_else (let! more := swap in ret (d_widenings d ++ more)) (abort_with (d_widenings d)) in
    let! d := get in
    close_dest ;;!
    emit (OutDone (d_acked d) rows_read (match d_prepared d with Some p => wp_label (pr_plan p) | None => [] end)
            mode_name query_id false ws true (su_dest_kind setup)).
Definition finish_stopped (rows_read : Z) (query_id : option bytes) (ws : list bytes) : Run unit :=
  let table := su_namespace setup ++ B "." ++ su_table setup in
  emit (OutDone 0 rows_read table mode_name query_id true ((B "stopped; nothing was written to " ++ table) :: ws) false
          (su_dest_kind setup)).

(** ** The source *)

(** The one way out of the live range. The events of a cancel are those of the task that does it,
    in its order; [an_cancelled] says whether the server confirmed it in time. *)
Definition finish_source (completed : bool) : Run (list bytes) :=
  (if completed then ret tt else ask (fun _ => tt) (fun _ => EvSourceCancel)) ;;!
  ask (fun _ => tt) (fun _ => EvSourceDropped) ;;! ask (fun _ => tt) (fun _ => EvSourceClosed) ;;!
  let! confirmed := peek (an_cancelled env) in
  ret (if completed || confirmed then [] else [B STOP_UNCONFIRMED]).

Definition close_source : Run unit := ask (fun _ => tt) (fun _ => EvSourceClosed).
(** A step of the source's setup; the session is closed when it fails. *)
Definition source_step (question : list Event -> option bytes) (event : option bytes -> Event) : Run unit :=
  let! r := ask question event in
  match r with Some m => close_source ;;! fail (on_source (RDriver m)) | None => ret tt end.
Fixpoint source_settings (l : list EngineStatement) : Run unit :=
  match l with
  | [] => ret tt
  | s :: l => source_step (fun tr => an_source_set env tr s) (EvSourceSet s) ;;! source_settings l
  end.
(** Whether the query has a cursor; [false] is a Stop before it. *)
Definition open_source : Run bool :=
  let! opened := ask (an_open env) EvSourceOpen in
  or_fail (fun m => on_source (RDriver m)) opened ;;!
  source_step (an_read_only env) EvSourceReadOnly ;;!
  (match su_source_kind setup with DPostgres => source_settings SOURCE_READING | _ => ret tt end) ;;!
  let! started := ask (an_query env) EvQuery in
  match started with
  | Some None => ret true
  | Some (Some m) => close_source ;;! fail (on_source (RDriver m))
  | None => ask (fun _ => tt) (fun _ => EvSourceCancel) ;;! close_source ;;! ret false
  end.

(** ** The run, from the connected destination on *)

Definition after_live (e : LiveEnd) : Run unit :=
  let! query_id := peek (an_query_id env) in
  match e with
  | Finished rows_read => finish_source true ;;! conclude rows_read query_id
  | Stopped rows_read =>
      let! ws := finish_source false in let! more := abort in finish_stopped rows_read query_id (ws ++ more)
  | Failed e => let! ws := finish_source false in abort_with ws e
  end.
Definition before_live : Run bool :=
  or_else connect_setup (abort_with []) ;;! step "connect" ;;! or_else open_source (abort_with []).
Definition transfer (fuel : nat) (w : World) : option ((RunError + unit) * World) :=
  match before_live w with
  | (inl e, w) => Some (inl e, w)
  | (inr false, w) => Some ((close_dest ;;! finish_stopped 0 None []) w)
  | (inr true, w) =>
      match live_range fuel w with None => None | Some (e, w) => Some (after_live e w) end
  end.
End Run.
