(* ===== verification/TransferRunSpec.v ===== *)
(** * TransferRunSpec: what a run of a transfer guarantees, for [TransferRun].

    The theorems read the trace: [delivered] are the rows the source gave, [copied] and [inserted]
    what the destination took, [confirmed] the rows it acknowledged. [keeps] is the rule for what
    every step preserves, [ok] the one for steps that succeed. *)
From stdpp Require Import gmap.
From S2P Require Import Prelude Bytes Text Scan Script Classify ClassifySpec ExecLog Env Guard GuardSpec Ident SqlType Value Batch.
From S2P Require Import Names Types TypesSpec Encode EncodeSpec TransferPlan TransferRun.
#[local] Open Scope nat_scope.

Create HintDb run discriminated.

Section Spec.
Context `{Float} `{Unicode} `{!Encoding} {S : Type} `{ExecutionStore S}.
Variable now_millis : S -> Z.
Variable storage_message : bytes.
Context (env : Answers) (setup : RunSetup).
Abbreviation World := (@World _ S).
Abbreviation statement := (statement now_millis storage_message env).
Abbreviation decide := (decide now_millis storage_message).
Abbreviation decide_all := (decide_all now_millis storage_message).
Abbreviation begin := (begin now_millis storage_message env setup).
Abbreviation flush_insert := (flush_insert now_millis storage_message env).
Abbreviation append_insert := (append_insert now_millis storage_message env).
Abbreviation append := (append now_millis storage_message env setup).
Abbreviation flush_all := (flush_all now_millis storage_message env setup).
Abbreviation write_row := (write_row now_millis storage_message env setup).
Abbreviation write_rows := (write_rows now_millis storage_message env setup).
Abbreviation live_turn := (live_turn now_millis storage_message env setup).
Abbreviation live_body := (live_body now_millis storage_message env setup).
Abbreviation live_start := (live_start now_millis storage_message env setup).
Abbreviation live_range := (live_range now_millis storage_message env setup).
Abbreviation swap_statements := (swap_statements now_millis storage_message env).
Abbreviation swap := (swap now_millis storage_message env setup).
Abbreviation clean_up := (clean_up now_millis storage_message env).
Abbreviation undo := (undo now_millis storage_message env setup).
Abbreviation abort := (abort now_millis storage_message env setup).
Abbreviation abort_with := (abort_with now_millis storage_message env setup).
Abbreviation abort_quietly := (abort_quietly now_millis storage_message env setup).
Abbreviation conclude := (conclude now_millis storage_message env setup).
Abbreviation after_live := (after_live now_millis storage_message env setup).
Abbreviation before_live := (before_live now_millis storage_message env setup).
Abbreviation transfer := (transfer now_millis storage_message env setup).

(** ** Rules *)

(** [J] of the destination and the trace survives [m], however it ends. *)
Definition keeps (J : Dest -> list Event -> Prop) {E A} (m : M E A) : Prop :=
  forall (w : World) r w', m w = (r, w') -> J (w_dest w) (w_trace w) -> J (w_dest w') (w_trace w').
(** [m] takes a world of [P] to one of [Q] when it succeeds. *)
Definition ok {E A} (P : World -> Prop) (m : M E A) (Q : A -> World -> Prop) : Prop :=
  forall w x w', P w -> m w = (inr x, w') -> Q x w'.
(** Events of [Q] only are added. *)
Definition adds (Q : Event -> Prop) (tr0 : list Event) (_ : Dest) (tr : list Event) : Prop :=
  exists evs, tr = tr0 ++ evs /\ Forall Q evs.

Lemma bind_cases {E A C} (m : M E A) (k : A -> M E C) (w : World) r w' : bind m k w = (r, w') ->
  (exists e, m w = (inl e, w') /\ r = inl e) \/ (exists x w1, m w = (inr x, w1) /\ k x w1 = (r, w')).
Proof. unfold bind. destruct (m w) as [[e|x] w1]; intros Hb; [left|right]; [by simplify_eq; eauto|by eauto]. Qed.

Section Keeps.
Context (J : Dest -> list Event -> Prop).
Lemma hold_ret {E A} (x : A) : keeps J (ret x : M E A).
Proof. by intros w r w' [= <- <-]. Qed.
Lemma keeps_fail {E A} (e : E) : keeps J (fail e : M E A).
Proof. by intros w r w' [= <- <-]. Qed.
Lemma keeps_get {E} : keeps J (get : M E Dest).
Proof. by intros w r w' [= <- <-]. Qed.
Lemma keeps_peek {E A} (q : list Event -> A) : keeps J (peek q : M E A).
Proof. by intros w r w' [= <- <-]. Qed.
Lemma hold_bind {E A C} (m : M E A) (k : A -> M E C) : keeps J m -> (forall x, keeps J (k x)) -> keeps J (bind m k).
Proof. intros Hm Hk w r w' [(e & Hb & _)|(x & w1 & Hb & Hb')]%bind_cases Hj; [by eapply Hm|]. eapply Hk; [done|]. by eapply Hm. Qed.
Lemma keeps_map_error {E F A} (f : E -> F) (m : M E A) : keeps J m -> keeps J (map_error f m).
Proof. intros Hm w r w'. unfold map_error. destruct (m w) as [[e|x] w1] eqn:E1; intros [= <- <-]; by eapply Hm. Qed.
Lemma keeps_attempt {A} (m : Run A) : keeps J m -> keeps J (attempt m).
Proof. intros Hm w r w'. unfold attempt. destruct (m w) as [x w1] eqn:E1; intros [= <- <-]; by eapply Hm. Qed.
Lemma keeps_or_fail wrap r : keeps J (or_fail wrap r).
Proof. destruct r; [apply keeps_fail|apply hold_ret]. Qed.
Lemma keeps_decide dc p : keeps J (decide dc p).
Proof. intros w r w'. unfold TransferRun.decide. by destruct (allow _ _ _ _ _) as [[? ?] [?|]]; intros [= <- <-]. Qed.
Lemma keeps_decide_all dc ps : keeps J (decide_all dc ps).
Proof. revert dc. induction ps as [|p ps IH]; intros dc; [apply hold_ret|]. apply hold_bind; [apply keeps_decide|done]. Qed.
Lemma keeps_modify {E} f : (forall d tr, J d tr -> J (f d) tr) -> keeps J (modify f : M E unit).
Proof. intros Hf w r w' [= <- <-]. apply Hf. Qed.
Lemma keeps_ask {E A} (q : list Event -> A) ev :
  (forall a d tr, J d tr -> J d (tr ++ [ev a])) -> keeps J (ask q ev : M E A).
Proof. intros Hf w r w' [= <- <-]. apply Hf. Qed.
Lemma keeps_or_else {A} (m : Run A) k : keeps J m -> (forall e, keeps J (k e)) -> keeps J (or_else m k).
Proof. intros Hm Hk. apply hold_bind; [by apply keeps_attempt|]. intros [e|x]; [apply Hk|apply hold_ret]. Qed.
End Keeps.

(** Walk through a program: what is left are the steps that change the state or the trace. *)
Ltac keeps_step :=
  match goal with
  | |- keeps _ (bind _ _) => apply hold_bind; [|intros ?]
  | |- keeps _ (ret _) => apply hold_ret
  | |- keeps _ (fail _) => apply keeps_fail
  | |- keeps _ get => apply keeps_get
  | |- keeps _ (peek _) => apply keeps_peek
  | |- keeps _ (map_error _ _) => apply keeps_map_error
  | |- keeps _ (attempt _) => apply keeps_attempt
  | |- keeps _ (or_fail _ _) => apply keeps_or_fail
  | |- keeps _ (TransferRun.decide _ _ _ _) => apply keeps_decide
  | |- keeps _ (TransferRun.decide_all _ _ _ _) => apply keeps_decide_all
  | |- keeps _ (or_else _ _) => apply keeps_or_else; [|intros ?]
  | |- keeps _ (match ?x with _ => _ end) => destruct x eqn:?
  | |- keeps _ (let '(_, _) := ?x in _) => destruct x eqn:?
  end.
Ltac keeps_solve := repeat first [solve [auto with run] | progress cbn beta zeta | keeps_step].

(** ** Every written statement was decided *)

Abbreviation floor0 := (decider_new (su_floor setup) (su_confirmed setup) (su_dialect setup)).
Definition event_decided (e : Event) : Prop :=
  match e with EvWritten _ p _ | EvInsert p _ _ | EvCopyIn p _ => may_send floor0 p | _ => True end.
(** The decider of a prepared run is the floor's, and has decided the whole plan. *)
Definition plan_shape (plan : WritePlan) : Prop :=
  match su_target setup with
  | TPostgres => is_Some (wp_copy plan)
  | TMysql => (exists swap, wp_swap plan = [swap]) /\ is_Some (wp_cleanup plan)
  end.
Definition prepared_decided (p : Prepared) : Prop :=
  plan_shape (pr_plan p) /\ same_floor floor0 (pr_decider p) /\ sound (pr_decider p)
  /\ Forall (fun q => reads_as (su_dialect setup) q /\ pl_text q ∈ decided (pr_decider p)) (plan_statements (pr_plan p)).
Definition decided_so_far (d : Dest) (tr : list Event) : Prop :=
  Forall event_decided tr /\ match d_prepared d with Some p => prepared_decided p | None => True end.

Lemma decided_event (d : Dest) tr e : event_decided e -> decided_so_far d tr -> decided_so_far d (tr ++ [e]).
Proof. intros He [Ht Hp]. split; [|done]. apply Forall_app. split; [done|]. by constructor. Qed.
Lemma decided_dest (d d' : Dest) tr : d_prepared d' = d_prepared d -> decided_so_far d tr -> decided_so_far d' tr.
Proof. unfold decided_so_far. by intros ->. Qed.

Lemma decide_ok dc p (w : World) dc' w' : decide dc p w = (inr dc', w') -> sound dc -> same_floor floor0 dc ->
  may_send floor0 p /\ sound dc' /\ same_floor floor0 dc' /\ (pl_text p ∈ decided dc') /\ decided dc ⊆ decided dc'
  /\ w_dest w' = w_dest w /\ w_trace w' = w_trace w.
Proof.
  unfold TransferRun.decide. destruct (allow _ _ _ _ _) as [[sink dc1] [e|]] eqn:Ha; [done|]. intros [= <- <-] Hs Hf.
  apply allow_sound in Ha as (Hr & Hruns & Hs' & Hf' & Hin & Hsub); [|done]. cbn.
  split_and!; try done; [|by etrans]. rewrite Hf. by split.
Qed.
Lemma decide_all_ok ps : forall dc (w : World) dc' w', decide_all dc ps w = (inr dc', w') -> sound dc -> same_floor floor0 dc ->
  Forall (fun q => reads_as (su_dialect setup) q /\ pl_text q ∈ decided dc') ps /\ sound dc' /\ same_floor floor0 dc'
  /\ decided dc ⊆ decided dc' /\ w_dest w' = w_dest w /\ w_trace w' = w_trace w.
Proof.
  induction ps as [|p ps IH]; intros dc w dc' w'; cbn [TransferRun.decide_all].
  { intros [= <- <-] ? ?. by split_and!. }
  intros [(e & _ & [=])|(dc1 & w1 & M1 & M2)]%bind_cases Hs Hf.
  apply decide_ok in M1 as (Hm & Hs1 & Hf1 & Hin & Hsub & Hd & Ht); [|done..].
  apply IH in M2 as (Hall & Hs2 & Hf2 & Hsub2 & Hd2 & Ht2); [|done..].
  split_and!; try done; [|by etrans|congruence|congruence].
  constructor; [|done]. split; [exact (proj1 Hm)|by apply Hsub2].
Qed.
Lemma prepared_with dc p : sound dc -> same_floor floor0 dc -> decided (pr_decider p) ⊆ decided dc ->
  prepared_decided p -> prepared_decided (with_decider dc p).
Proof.
  intros Hs Hf Hsub (Hsh & _ & _ & Hall). split_and!; [done..|]. eapply Forall_impl; [exact Hall|].
  intros q [Hr Hin]. split; [done|by apply Hsub].
Qed.

Lemma decided_statement why p : keeps decided_so_far (statement why p).
Proof.
  intros w r w' Hb Hj. unfold TransferRun.statement in Hb.
  apply bind_cases in Hb as [(e & [=] & _)|(d & w1 & [= <- <-] & Hb)].
  destruct (d_prepared (w_dest w)) as [pr|] eqn:Hp; [|by injection Hb as <- <-].
  pose proof Hj as [_ Hpr]. rewrite Hp in Hpr. destruct Hpr as (Hsh & Hf & Hs & Hall).
  apply bind_cases in Hb as [(e & Hb & _)|(dc & w2 & Hdc & Hb)]; [by eapply keeps_decide|].
  apply decide_ok in Hdc as (Hm & Hs2 & Hf2 & Hin & Hsub & Hd2 & Ht2); [|done..].
  assert (Hk : keeps decided_so_far
    (bind (ask (fun tr => finish_statement env tr (pl_text p)) (EvWritten why p)) (fun r => or_fail (S := S) target_error r))).
  { apply hold_bind; [|intros; apply keeps_or_fail]. apply keeps_ask. intros. by apply decided_event. }
  unfold bind at 1 in Hb. cbn in Hb. eapply Hk; [exact Hb|]. cbn. rewrite Hd2, Ht2. split; [exact (proj1 Hj)|].
  cbn. by apply prepared_with.
Qed.
Lemma decided_engine s : keeps decided_so_far (@engine _ S env s).
Proof. unfold engine. keeps_solve. apply keeps_ask. intros. by apply decided_event. Qed.
Hint Resolve decided_statement decided_engine : run.

Lemma decided_emit e : keeps decided_so_far (@emit _ S env e).
Proof. unfold emit. keeps_solve. apply keeps_ask. intros. by apply decided_event. Qed.
Lemma decided_close_window : keeps decided_so_far (@close_window _ S env).
Proof.
  unfold close_window, send_buffer. keeps_solve; (apply keeps_modify || apply keeps_ask); intros; by (apply decided_event || eapply decided_dest).
Qed.
Hint Resolve decided_emit decided_close_window : run.
Lemma decided_open_window : keeps decided_so_far (@open_window _ S env).
Proof.
  intros w r w' Hb Hj. unfold open_window in Hb.
  apply bind_cases in Hb as [(e & [=] & _)|(d & w1 & [= <- <-] & Hb)].
  destruct (d_window (w_dest w)) eqn:Hw; [by injection Hb as <- <-|].
  destruct (d_prepared (w_dest w)) as [pr|] eqn:Hp; cbn in Hb; [|by injection Hb as <- <-].
  destruct (wp_copy (pr_plan pr)) as [copy|] eqn:Hc; [|by injection Hb as <- <-].
  pose proof Hj as [_ Hpr]. rewrite Hp in Hpr. destruct Hpr as (Hsh & Hf & Hs & Hall).
  rewrite Forall_forall in Hall. destruct (Hall copy (plan_copy _ _ Hc)) as [Hr Hin].
  match goal with _ : ?m w = (r, w') |- _ => assert (Hk : keeps decided_so_far m) end; [|by eapply Hk].
  apply hold_bind; [apply keeps_ask|].
  - intros. apply decided_event; [|done]. split; [exact Hr|]. rewrite Hf. by apply (proj1 (Forall_forall _ _) Hs).
  - intros ?. keeps_solve. apply keeps_modify. intros. by eapply decided_dest.
Qed.
Hint Resolve decided_open_window : run.
Lemma decided_append_copy values n : keeps decided_so_far (append_copy env setup values n).
Proof.
  unfold append_copy. keeps_solve; try (apply keeps_modify; intros; by eapply decided_dest).
  unfold send_buffer. keeps_solve; (apply keeps_modify || apply keeps_ask); intros; by (apply decided_event || eapply decided_dest).
Qed.
Lemma decided_flush_insert : keeps decided_so_far flush_insert.
Proof.
  intros w r w' Hb Hj. unfold TransferRun.flush_insert in Hb.
  apply bind_cases in Hb as [(e & [=] & _)|(d & w1 & [= <- <-] & Hb)].
  destruct (d_pending_rows (w_dest w)) as [|rows] eqn:Hn; [by injection Hb as <- <-|].
  destruct (d_prepared (w_dest w)) as [pr|] eqn:Hp; [|by injection Hb as <- <-].
  pose proof Hj as [_ Hpr]. rewrite Hp in Hpr. destruct Hpr as (Hsh & Hf & Hs & Hall).
  apply bind_cases in Hb as [(e & Hb & _)|(dc & w2 & Hdc & Hb)]; [by eapply keeps_decide|].
  apply decide_ok in Hdc as (Hm & Hs2 & Hf2 & Hin & Hsub & Hd2 & Ht2); [|done..].
  apply bind_cases in Hb as [(e & [=] & _)|([] & w3 & [= <-] & Hb)].
  match goal with _ : ?m ?w0 = (r, w') |- _ => assert (Hk : keeps decided_so_far m) end.
  { keeps_solve; [apply keeps_ask; intros; by apply decided_event|]. apply keeps_modify. intros. by eapply decided_dest. }
  eapply Hk; [exact Hb|]. cbn. rewrite Hd2, Ht2. split; [exact (proj1 Hj)|]. cbn. by apply prepared_with.
Qed.
Hint Resolve decided_append_copy decided_flush_insert : run.
Lemma decided_append values n : keeps decided_so_far (append values n).
Proof.
  unfold TransferRun.append, TransferRun.append_insert. keeps_solve. apply keeps_modify. intros. by eapply decided_dest.
Qed.
Lemma decided_flush_all : keeps decided_so_far flush_all.
Proof. unfold TransferRun.flush_all. keeps_solve. Qed.
Hint Resolve decided_append decided_flush_all : run.
Lemma decided_begin tp : tp_target tp = su_target setup -> keeps decided_so_far (begin tp).
Proof.
  intros Htp w r w' Hb Hj. unfold TransferRun.begin in Hb.
  apply bind_cases in Hb as [(e & [=] & _)|(d & w1 & [= <- <-] & Hb)].
  destruct (build _ _ _ _ _ _) as [f|plan] eqn:Hplan; [by injection Hb as <- <-|].
  apply bind_cases in Hb as [(e & Hb & _)|(dc & w2 & Hdc & Hb)]; [by eapply keeps_decide_all|].
  apply decide_all_ok in Hdc as (Hall & Hs & Hf & _ & Hd & Ht); [|constructor|reflexivity].
  apply bind_cases in Hb as [(e & [=] & _)|([] & w3 & [= <-] & Hb)].
  match goal with _ : ?m ?w0 = (r, w') |- _ => assert (Hk : keeps decided_so_far m) end.
  { keeps_solve; apply keeps_modify; intros; by eapply decided_dest. }
  eapply Hk; [exact Hb|]. cbn. rewrite Ht. split; [exact (proj1 Hj)|]. cbn. split_and!; try done.
  apply build_plan in Hplan as (_ & _ & Hsh). unfold plan_shape. by rewrite <- Htp.
Qed.

(** ** The run keeps what its steps keep *)

(** An event of the stream that does not report a verified table. *)
Definition plain (e : OutEvent) : Prop := match e with OutDone _ _ _ _ _ _ _ true _ => False | _ => True end.
(** Events that change nothing at the destination. *)
Definition neutral (e : Event) : Prop :=
  match e with
  | EvOut e _ => plain e
  | EvEngine _ _ | EvWritten _ _ _ | EvInsert _ _ _ | EvCopyIn _ _ | EvCopySend _ _ | EvCopyFinish _ | EvNext _ | EvQuery _ | EvSourceDropped =>
      False
  | _ => True
  end.

Section Whole.
Context (J : Dest -> list Event -> Prop).
Hypothesis J_neutral : forall e d tr, neutral e -> J d tr -> J d (tr ++ [e]).
Hypothesis J_next : forall r d tr, J d tr -> J d (tr ++ [EvNext r]).
Hypothesis J_existed : forall b d tr, J d tr -> J (set_existed b d) tr.
Hypothesis J_budget : forall n d tr, J d tr -> J (set_budget n d) tr.
Hypothesis J_widenings : forall l d tr, J d tr -> J (set_widenings l d) tr.
Hypothesis J_setup : forall s, s ∈ [StrictMode; Utf8mb4; ArrayNulls] -> keeps J (@engine _ S env s).
Hypothesis J_close_window : keeps J (@close_window _ S env).
Hypothesis J_append : forall values n, keeps J (append values n).
Hypothesis J_flush_all : keeps J flush_all.
Hypothesis J_begin : forall tp, tp_target tp = su_target setup -> keeps J (begin tp).

Lemma whole_ask {E A} (q : list Event -> A) ev : (forall a, neutral (ev a)) -> keeps J (ask q ev : M E A).
Proof using J_neutral. intros Hn. apply keeps_ask. intros. by apply J_neutral. Qed.
Ltac whole := repeat first [solve [apply whole_ask; done] | assumption | progress cbn beta zeta | keeps_step].

Lemma whole_emit e : plain e -> keeps J (@emit _ S env e).
Proof using J_neutral. intros He. unfold emit. whole. Qed.
Lemma whole_fetch n : keeps J (@fetch _ S env n).
Proof using J_neutral J_next J_close_window.
  unfold fetch, live. whole. apply keeps_ask. intros. by apply J_next.
Qed.
Lemma whole_write_rows b rows : forall index n, keeps J (write_rows b rows index n).
Proof using J_neutral J_append.
  induction rows as [|rows IH]; intros index n; cbn [TransferRun.write_rows]; [apply hold_ret|].
  apply hold_bind; [|intros; apply IH]. unfold TransferRun.write_row, stop_asked, live. whole; (apply J_append || (apply whole_emit; exact I)).
Qed.
Lemma whole_turn s : keeps J (live_turn s).
Proof using J_neutral J_next J_close_window J_append.
  unfold TransferRun.live_turn, stop_asked. whole; (apply whole_write_rows || apply whole_fetch).
Qed.
Lemma whole_start : keeps J live_start.
Proof using J_neutral J_next J_close_window J_append J_begin J_widenings.
  unfold TransferRun.live_start, target_failed, step, live. whole; try (apply whole_emit; exact I); [apply whole_fetch| |].
  - apply J_begin. by eapply plan_table_sound.
  - apply keeps_modify. intros. by apply J_widenings.
Qed.
Lemma whole_loop fuel s (w : World) r w' : iter live_body fuel (s, w) = Some (r, w') ->
  J (w_dest w) (w_trace w) -> J (w_dest w') (w_trace w').
Proof using J_neutral J_next J_close_window J_append.
  intros Hi Hj.
  refine (iter_inv live_body (fun sw => J (w_dest sw.2) (w_trace sw.2)) (fun rw => J (w_dest rw.2) (w_trace rw.2))
            fuel (s, w) (r, w') _ _ Hj Hi).
  - intros [s1 w1] [s2 w2] Hj1. cbn. unfold TransferRun.live_body. cbn.
    destruct (live_turn s1 w1) as [[e|[s3|n]] w3] eqn:Et; intros [= <- <-]. by eapply whole_turn.
  - intros [s1 w1] [r2 w2] Hj1. cbn. unfold TransferRun.live_body. cbn.
    destruct (live_turn s1 w1) as [[e|[s3|n]] w3] eqn:Et; intros [= <- <-]; by eapply whole_turn.
Qed.
Lemma whole_live fuel (w : World) e w' : live_range fuel w = Some (e, w') ->
  J (w_dest w) (w_trace w) -> J (w_dest w') (w_trace w').
Proof using J_neutral J_next J_close_window J_append J_begin J_widenings J_flush_all.
  unfold TransferRun.live_range. intros Hl Hj.
  destruct (live_start w) as [[e1|s] w1] eqn:Es; [simplify_eq; by eapply whole_start|].
  apply whole_start in Es. specialize (Es Hj). destruct (iter live_body fuel (s, w1)) as [[[e2|n] w2]|] eqn:Ei; [| |done].
  - simplify_eq. by eapply whole_loop.
  - apply whole_loop in Ei; [|done]. destruct (flush_all w2) as [[e3|[]] w3] eqn:Ef; simplify_eq; by eapply J_flush_all.
Qed.
Lemma whole_connect_setup : keeps J (@connect_setup _ S env setup).
Proof using J_neutral J_setup J_existed J_budget.
  unfold connect_setup, probe_table. clear J_begin. whole; try (apply keeps_modify; by auto);
    try (apply J_setup; in_list).
Qed.
Lemma whole_open_source : (forall r d tr, J d tr -> J d (tr ++ [EvQuery r])) -> keeps J (@open_source _ S env setup).
Proof using J_neutral.
  intros J_query.
  assert (Hset : forall l, keeps J (@source_settings _ S env l)).
  { intros l. induction l as [|s l IH]; cbn; [apply hold_ret|]. unfold source_step, close_source. whole. }
  unfold open_source, source_step, close_source. whole; try apply Hset. apply keeps_ask. intros. by apply J_query.
Qed.

(** What a run that ends early adds to the rest. *)
Hypothesis J_uncopy : forall d tr, J d tr -> J (set_copy None (d_buffer d) d) tr.
Hypothesis J_rollback : forall r d tr, d_transaction d = true -> J d tr -> J d (tr ++ [EvEngine Rollback_ r]).
Hypothesis J_clean_up : keeps J clean_up.
Hypothesis J_open : keeps J (@open_source _ S env setup).
Lemma whole_abort : keeps J abort.
Proof using J_neutral J_uncopy J_rollback J_clean_up.
  clear J_begin. unfold TransferRun.abort, close_dest. whole.
  intros w r w' Hb Hj. unfold TransferRun.undo in Hb. apply bind_cases in Hb as [(e & [=] & _)|(d & w1 & [= <- <-] & Hb)].
  apply bind_cases in Hb as [(e & Hb & _)|([] & w2 & Hb & Hb2)].
  { destruct (d_window (w_dest w)); [|done]. unfold bind, modify, ask in Hb. done. }
  assert (Hw2 : J (w_dest w2) (w_trace w2) /\ d_transaction (w_dest w2) = d_transaction (w_dest w)).
  { destruct (d_window (w_dest w)).
    - unfold bind, modify, ask, log in Hb. cbn in Hb. injection Hb as <-. cbn. split; [|done].
      by repeat (apply J_neutral; [done|]); apply J_uncopy.
    - by injection Hb as <-. }
  destruct Hw2 as [Hw2 Ht]. destruct (d_transaction (w_dest w)) eqn:Htr.
  - unfold bind, ask, log in Hb2. cbn in Hb2. injection Hb2 as <- <-. cbn. by apply J_rollback.
  - destruct (d_created (w_dest w)); [|by injection Hb2 as <- <-].
    destruct (su_target setup); [by injection Hb2 as <- <-|]. by eapply J_clean_up.
Qed.
Lemma whole_before_live : keeps J before_live.
Proof using J_neutral J_setup J_existed J_budget J_uncopy J_rollback J_clean_up J_open.
  clear J_begin. unfold TransferRun.before_live, TransferRun.abort_with, step.
  whole; first [apply whole_abort | apply whole_connect_setup | (apply whole_emit; exact I) | apply J_open].
Qed.
Hypothesis J_dropped : forall (d : Dest) tr,
  EvNext (inr None) ∈ tr \/ EvSourceCancel ∈ tr -> J d tr -> J d (tr ++ [EvSourceDropped]).
Lemma whole_finish_source completed (w : World) r w' : (completed = true -> EvNext (inr None) ∈ w_trace w) ->
  finish_source env completed w = (r, w') -> J (w_dest w) (w_trace w) ->
  J (w_dest w') (w_trace w') /\ w_dest w' = w_dest w
  /\ exists evs, w_trace w' = w_trace w ++ evs /\ Forall (fun e => match e with EvSourceCancel | EvSourceDropped | EvSourceClosed => True | _ => False end) evs.
Proof using J_neutral J_dropped.
  intros Hc. unfold finish_source, bind, ask, peek, log. destruct completed; cbn; intros [= <- <-] Hj; cbn.
  - split; [|split; [done|]].
    + apply J_neutral; [done|]. apply J_dropped; [by left; apply Hc|done].
    + exists [EvSourceDropped; EvSourceClosed]. rewrite <- !app_assoc. split; [done|by repeat constructor].
  - split; [|split; [done|]].
    + apply J_neutral; [done|]. apply J_dropped; [right; apply elem_of_snoc_self|]. by apply J_neutral.
    + exists [EvSourceCancel; EvSourceDropped; EvSourceClosed]. rewrite <- !app_assoc. split; [done|by repeat constructor].
Qed.
Hypothesis J_swap : keeps J swap.
Hypothesis J_done : forall e r d tr, J d tr -> J d (tr ++ [EvOut e r]).
Lemma whole_conclude n q : keeps J (conclude n q).
Proof using J_neutral J_uncopy J_rollback J_clean_up J_swap J_done.
  clear J_begin. unfold TransferRun.conclude, TransferRun.abort_with, TransferRun.abort_quietly, step, close_dest.
  assert (He : forall e, keeps J (@emit _ S env e)) by (intros e; unfold emit; whole; apply keeps_ask; intros; by apply J_done).
  whole; (apply whole_abort || apply He).
Qed.
Lemma whole_after_live e (w : World) r w' : (forall n, e = Finished n -> EvNext (inr None) ∈ w_trace w) ->
  after_live e w = (r, w') -> J (w_dest w) (w_trace w) -> J (w_dest w') (w_trace w').
Proof using J_neutral J_uncopy J_rollback J_clean_up J_swap J_dropped J_done.
  intros Hf Ha Hj. unfold TransferRun.after_live in Ha. apply bind_cases in Ha as [(? & [=] & _)|(q & w1 & [= <- <-] & Ha)].
  destruct e as [n|n|e]; (apply bind_cases in Ha as [(? & Ha & _)|(ws & w2 & Ha & Ha2)];
    [by apply whole_finish_source in Ha as [? _]; eauto|]);
    (apply whole_finish_source in Ha as [Hj2 _]; [|by eauto|done]).
  - by eapply whole_conclude.
  - eapply (hold_bind J abort); [apply whole_abort| |exact Ha2|exact Hj2]. intros. (apply whole_emit; exact I).
  - unfold TransferRun.abort_with in Ha2. eapply (hold_bind J abort); [apply whole_abort| |exact Ha2|exact Hj2]. intros. apply keeps_fail.
Qed.
End Whole.

(** ** The rows *)

Definition rows_of (b : Batch) : list (list Value) := batch_row b <$> seq 0 (batch_size b).
Definition event_rows (e : Event) : list (list Value) := match e with EvNext (inr (Some b)) => rows_of b | _ => [] end.
Definition delivered (tr : list Event) : list (list Value) := mjoin (event_rows <$> tr).
Definition event_confirmed (e : Event) : Z :=
  match e with EvCopyFinish (inr n) | EvInsert _ _ (inr (Some n)) => n | _ => 0%Z end.
Definition confirmed (tr : list Event) : Z := foldr Z.add 0%Z (event_confirmed <$> tr).
Definition event_copied (e : Event) : bytes := match e with EvCopySend chunk None => chunk | _ => [] end.
Definition copied (tr : list Event) : bytes := mjoin (event_copied <$> tr).
Definition event_inserted (e : Event) : list Parameter_ := match e with EvInsert _ ps (inr (Some _)) => ps | _ => [] end.
Definition inserted (tr : list Event) : list Parameter_ := mjoin (event_inserted <$> tr).
Definition ended (tr : list Event) : Prop := EvNext (inr None) ∈ tr.

Arguments delivered _ : simpl never.
Arguments confirmed _ : simpl never.
Arguments copied _ : simpl never.
Arguments inserted _ : simpl never.

Lemma mjoin_fmap_snoc {A B} (f : A -> list B) l x : mjoin (f <$> (l ++ [x])) = mjoin (f <$> l) ++ f x.
Proof. rewrite fmap_app, join_app. cbn. by rewrite app_nil_r. Qed.
Lemma delivered_snoc tr e : delivered (tr ++ [e]) = delivered tr ++ event_rows e.
Proof. apply mjoin_fmap_snoc. Qed.
Lemma copied_snoc tr e : copied (tr ++ [e]) = copied tr ++ event_copied e.
Proof. apply mjoin_fmap_snoc. Qed.
Lemma inserted_snoc tr e : inserted (tr ++ [e]) = inserted tr ++ event_inserted e.
Proof. apply mjoin_fmap_snoc. Qed.
Lemma foldr_add_app l1 l2 : foldr Z.add 0%Z (l1 ++ l2) = (foldr Z.add 0 l1 + foldr Z.add 0 l2)%Z.
Proof. induction l1; cbn; lia. Qed.
Lemma confirmed_snoc tr e : confirmed (tr ++ [e]) = (confirmed tr + event_confirmed e)%Z.
Proof. unfold confirmed. rewrite fmap_app, foldr_add_app. cbn. lia. Qed.

(** What the destination took, and what waits, is what [rows] are written as. For PostgreSQL the
    text is read as [COPY] reads it. *)
Definition lines_of (columns : list PlannedColumn) (rows : list (list Value)) (text : bytes) : Prop :=
  (text = [] \/ last text = Some LF) /\ Forall2 (row_line columns) rows (copy_read text).
Definition cells_of (columns : list PlannedColumn) (rows : list (list Value)) (ps : list Parameter_) : Prop :=
  exists cells, Forall2 (fun row cs => mysql_row columns row = inr cs) rows cells /\ ps = parameter <$> mjoin cells.
Definition arrived (columns : list PlannedColumn) (rows : list (list Value)) (tr : list Event) : Prop :=
  match su_target setup with
  | TPostgres => lines_of columns rows (copied tr)
  | TMysql => cells_of columns rows (inserted tr)
  end.
Definition waiting (d : Dest) : Z :=
  match su_target setup with
  | TPostgres => match d_window d with Some win => wn_rows win | None => 0%Z end
  | TMysql => Z.of_nat (d_pending_rows d)
  end.
(** [rows] were written, the source has given [rest] more. *)
Record written (columns : list PlannedColumn) (rows rest : list (list Value)) (w : World) : Prop := {
  wr_plan : exists p, d_prepared (w_dest w) = Some p /\ tp_columns (pr_table p) = columns;
  wr_delivered : delivered (w_trace w) = rows ++ rest;
  wr_acked : d_acked (w_dest w) = confirmed (w_trace w);
  wr_count : (confirmed (w_trace w) + waiting (w_dest w) = Z.of_nat (List.length rows))%Z;
  wr_rows : match su_target setup with
            | TPostgres => lines_of columns rows (copied (w_trace w) ++ d_buffer (w_dest w))
                /\ (d_window (w_dest w) = None -> d_buffer (w_dest w) = [])
            | TMysql => cells_of columns rows (inserted (w_trace w) ++ d_pending (w_dest w))
                /\ (d_pending_rows (w_dest w) = 0 -> d_pending (w_dest w) = []) /\ d_window (w_dest w) = None
            end }.

Lemma ok_bind {E A C} (m : M E A) (k : A -> M E C) P Q R : ok P m Q -> (forall x, ok (Q x) (k x) R) -> ok P (bind m k) R.
Proof. intros Hm Hk w x w' Hp [(e & _ & [=])|(y & w1 & Hb & Hb')]%bind_cases. eapply Hk; [|done]. by eapply Hm. Qed.
Lemma ok_live {A} (m : Run A) P Q : ok P m Q -> ok P (live m) Q.
Proof. intros Hm w x w' Hp. unfold live, map_error. destruct (m w) as [[e|y] w1] eqn:E1; intros [= <- <-]. by eapply Hm. Qed.
Lemma ok_conseq {E A} (m : M E A) (P P' : World -> Prop) (Q Q' : A -> World -> Prop) :
  ok P' m Q' -> (forall w, P w -> P' w) -> (forall x w, Q' x w -> Q x w) -> ok P m Q.
Proof. intros Hm Hp Hq w x w' Hw Hr. eapply Hq, Hm; eauto. Qed.

(** An event that carries no rows. *)
Definition no_rows (e : Event) : Prop :=
  event_rows e = [] /\ event_confirmed e = 0%Z /\ event_copied e = [] /\ event_inserted e = [].
Lemma written_log cols rows rest e (w : World) : no_rows e -> written cols rows rest w -> written cols rows rest (log e w).
Proof.
  intros (H5 & H6 & H7 & H8) [? Hd Ha Hc Hr]. split; cbn; [done|..].
  - by rewrite delivered_snoc, H5, app_nil_r.
  - rewrite confirmed_snoc, H6. lia.
  - rewrite confirmed_snoc, H6. lia.
  - rewrite copied_snoc, inserted_snoc, H7, H8, !app_nil_r. exact Hr.
Qed.
Lemma written_ask {A} cols rows rest {E} (q : list Event -> A) ev : (forall a, no_rows (ev a)) ->
  ok (written cols rows rest) (ask q ev : M E A) (fun _ => written cols rows rest).
Proof. intros Hn w x w' Hw [= <- <-]. by apply written_log. Qed.

Section Postgres.
Hypothesis is_postgres : su_target setup = TPostgres.
Context (cols : list PlannedColumn).

Lemma written_send_buffer rows rest :
  ok (fun w => written cols rows rest w /\ is_Some (d_window (w_dest w))) (@send_buffer _ S env)
     (fun _ w => written cols rows rest w /\ is_Some (d_window (w_dest w)) /\ d_buffer (w_dest w) = []).
Proof using is_postgres.
  intros w x w' [Hw [win Hwin]] Hb. unfold send_buffer in Hb.
  apply bind_cases in Hb as [(e & _ & [=])|(d & w1 & [= <- <-] & Hb)].
  destruct (d_buffer (w_dest w)) as [|c chunk] eqn:Hbuf; [injection Hb as <- <-; by eauto|].
  unfold bind, modify, ask, or_fail, log in Hb. rewrite Hwin in Hb. cbn in Hb.
  destruct (an_send env (w_trace w) (c :: chunk)) eqn:Hs; [done|]. injection Hb as <- <-. cbn.
  destruct Hw as [Hp Hd Ha Hc Hr]. rewrite is_postgres in Hr. unfold waiting in Hc. rewrite is_postgres, Hwin in Hc.
  split; [split; cbn; try done|by eauto].
  - by rewrite delivered_snoc, app_nil_r.
  - rewrite confirmed_snoc. cbn. lia.
  - unfold waiting. rewrite is_postgres, confirmed_snoc. cbn. lia.
  - rewrite is_postgres, copied_snoc. cbn [event_copied d_buffer set_copy]. rewrite app_nil_r.
    rewrite Hbuf in Hr. destruct Hr as [Hl _]. split; [exact Hl|done].
Qed.
Lemma written_close_window rows rest :
  ok (written cols rows rest) (@close_window _ S env) (fun _ w => written cols rows rest w /\ d_window (w_dest w) = None).
Proof using is_postgres.
  intros w x w' Hw Hb. unfold close_window in Hb.
  apply bind_cases in Hb as [(e & _ & [=])|([] & w1 & Hs & Hb)].
  apply bind_cases in Hb as [(e & _ & [=])|(d & w2 & [= <- <-] & Hb)].
  destruct (d_window (w_dest w)) as [win|] eqn:Hwin.
  - apply (written_send_buffer rows rest) in Hs as (Hw1 & [win1 Hwin1] & Hbuf); [|by eauto]. rewrite Hwin1 in Hb.
    unfold bind, modify, ask, log, ret, fail in Hb. cbn in Hb.
    destruct (an_finish env (w_trace w1)) as [m|n] eqn:Hf; [done|].
    destruct (Z.eqb_spec n (wn_rows win1)) as [->|]; [|done]. injection Hb as <- <-. cbn.
    destruct Hw1 as [Hp Hd Ha Hc Hr]. unfold waiting in Hc. rewrite is_postgres, Hwin1 in Hc. rewrite is_postgres in Hr.
    split; [|done]. split; cbn; [done|..].
    + by rewrite delivered_snoc, app_nil_r.
    + rewrite confirmed_snoc. cbn. lia.
    + unfold waiting. rewrite is_postgres, confirmed_snoc. cbn. lia.
    + rewrite is_postgres, copied_snoc. cbn. rewrite app_nil_r. destruct Hr as [Hl _]. split; [exact Hl|by intros _].
  - assert (Hbuf : d_buffer (w_dest w) = []) by (destruct Hw as [_ _ _ _ Hr]; rewrite is_postgres in Hr; by apply Hr).
    unfold send_buffer, bind in Hs. cbn in Hs. rewrite Hbuf in Hs. injection Hs as <-. rewrite Hwin in Hb. by injection Hb as <- <-.
Qed.
Lemma written_open_window rows rest :
  ok (written cols rows rest) (@open_window _ S env) (fun _ w => written cols rows rest w /\ is_Some (d_window (w_dest w))).
Proof using is_postgres.
  intros w x w' Hw Hb. unfold open_window in Hb.
  apply bind_cases in Hb as [(e & _ & [=])|(d & w1 & [= <- <-] & Hb)].
  destruct (d_window (w_dest w)) as [win|] eqn:Hwin; [injection Hb as <- <-; by eauto|].
  destruct (_ ≫= _) as [copy|]; [|done]. unfold bind, modify, ask, log, or_fail in Hb. cbn in Hb.
  destruct (an_copy_in _ _ _); [done|]. injection Hb as <- <-. cbn.
  destruct Hw as [Hp Hd Ha Hc Hr]. unfold waiting in Hc. rewrite is_postgres, Hwin in Hc. rewrite is_postgres in Hr.
  split; [|by eauto]. split; cbn; [done|..].
  - by rewrite delivered_snoc, app_nil_r.
  - rewrite confirmed_snoc. cbn. lia.
  - unfold waiting. rewrite is_postgres, confirmed_snoc. cbn. lia.
  - rewrite is_postgres, copied_snoc. cbn. rewrite app_nil_r. destruct Hr as [Hl _]. by split.
Qed.

Lemma lines_more rows text row line fields : lines_of cols rows text -> Forall (fun x => x <> LF) line ->
  copy_line line = fields -> row_line cols row fields -> lines_of cols (rows ++ [row]) (text ++ line ++ [LF]).
Proof using.
  intros [Hl Hr] Hne Hc Hrow. split; [right; by rewrite app_assoc, last_snoc|].
  rewrite copy_read_app by done. apply Forall2_app; [done|]. rewrite Hc. by constructor.
Qed.
Lemma written_append_copy rows row rest n : cols <> [] ->
  ok (written cols rows (row :: rest)) (append_copy env setup row n) (fun _ => written cols (rows ++ [row]) rest).
Proof using is_postgres.
  intros Hne. unfold append_copy. eapply ok_bind; [apply written_open_window|]. intros []. cbn beta.
  intros w x w' [Hw [win Hwin]] Hb. apply bind_cases in Hb as [(e & _ & [=])|(d & w1 & [= <- <-] & Hb)].
  pose proof Hw as [(p & Hp & Hcols) Hd Ha Hc Hr]. rewrite Hp, Hcols in Hb.
  destruct (copy_row cols row (d_buffer (w_dest w))) as [v buffer] eqn:Hrow.
  apply bind_cases in Hb as [(e & _ & [=])|([] & w1 & [= <-] & Hb)].
  destruct v as [v|]; [done|]. apply copy_row_appends in Hrow as (line & fields & -> & Hline & _ & Hcl & Hrl); [|done].
  rewrite Hwin in Hb. cbn [fmap option_fmap option_map] in Hb. cbv zeta in Hb.
  apply bind_cases in Hb as [(e & _ & [=])|([] & w1 & [= <-] & Hb)].
  match type of Hb with bind _ _ ?w0 = _ => assert (Hw0 : written cols (rows ++ [row]) rest w0 /\ is_Some (d_window (w_dest w0))) end.
  { unfold waiting in Hc. rewrite is_postgres, Hwin in Hc. rewrite is_postgres in Hr.
    split; [|by eauto]. split; cbn; [by eauto|by rewrite <- app_assoc|done|..].
    - unfold waiting. rewrite is_postgres. cbn. rewrite length_app. cbn. lia.
    - rewrite is_postgres, app_assoc. split; [|done]. by eapply lines_more; [apply Hr|..]. }
  apply bind_cases in Hb as [(e & _ & [=])|([] & w3 & Hb & Hb')].
  assert (Hw3 : written cols (rows ++ [row]) rest w3).
  { destruct (SEND_BYTES <=? _)%Z; [by apply (written_send_buffer (rows ++ [row]) rest) in Hb as [? _]|by injection Hb as <-; destruct Hw0]. }
  destruct (_ || _); [by apply (written_close_window (rows ++ [row]) rest) in Hb' as [? _]|by injection Hb' as <- <-].
Qed.
End Postgres.

Section Mysql.
Hypothesis is_mysql : su_target setup = TMysql.
Context (cols : list PlannedColumn).

Lemma written_flush_insert rows rest :
  ok (written cols rows rest) flush_insert (fun _ w => written cols rows rest w /\ d_pending_rows (w_dest w) = 0).
Proof using is_mysql.
  intros w x w' Hw Hb. unfold TransferRun.flush_insert in Hb.
  apply bind_cases in Hb as [(e & _ & [=])|(d & w1 & [= <- <-] & Hb)].
  destruct (d_pending_rows (w_dest w)) as [|n] eqn:Hn; [by injection Hb as <- <-|].
  destruct Hw as [(p & Hp & Hcols) Hd Ha Hc Hr]. rewrite Hp in Hb. rewrite is_mysql in Hr. unfold waiting in Hc. rewrite is_mysql, Hn in Hc.
  apply bind_cases in Hb as [(e & _ & [=])|(dc & w2 & Hdc & Hb)].
  assert (Hw2 : w_dest w2 = w_dest w /\ w_trace w2 = w_trace w).
  { unfold TransferRun.decide in Hdc. destruct (allow _ _ _ _ _) as [[? ?] [?|]]; [done|]. by injection Hdc as <- <-. }
  destruct Hw2 as [Hwd Hwt]. unfold bind at 1 in Hb. cbn [modify] in Hb. cbv zeta in Hb.
  unfold bind, ask, modify, ret, fail, log in Hb. cbn -[TransferPlan.insert Z.of_nat] in Hb.
  destruct (finish_cursor _) as [m|[k|]] eqn:Hf; [done| |done].
  destruct (Z.eqb_spec k (Z.of_nat (Datatypes.S n))) as [->|]; [|done]. injection Hb as <- <-. cbn -[Z.of_nat].
  rewrite Hwd, Hwt. split; [|done]. split; cbn -[Z.of_nat].
  - by eexists.
  - by rewrite delivered_snoc, app_nil_r.
  - rewrite confirmed_snoc. cbn -[Z.of_nat]. lia.
  - unfold waiting. rewrite is_mysql, confirmed_snoc. cbn -[Z.of_nat]. lia.
  - rewrite is_mysql, inserted_snoc. cbn. rewrite app_nil_r. split_and!; [apply Hr|done|apply Hr].
Qed.

Lemma written_append_insert rows row rest n :
  ok (written cols rows (row :: rest)) (append_insert row n) (fun _ => written cols (rows ++ [row]) rest).
Proof using is_mysql.
  intros w x w' Hw Hb. unfold TransferRun.append_insert in Hb.
  apply bind_cases in Hb as [(e & _ & [=])|(d & w1 & [= <- <-] & Hb)].
  destruct Hw as [(p & Hp & Hcols) Hd Ha Hc Hr]. rewrite Hp, Hcols in Hb. rewrite is_mysql in Hr. unfold waiting in Hc. rewrite is_mysql in Hc.
  destruct (mysql_row cols row) as [v|cells] eqn:Hrow; [done|].
  apply bind_cases in Hb as [(e & _ & [=])|([] & w1 & [= <-] & Hb)].
  match type of Hb with _ ?w0 = _ => assert (Hw0 : written cols (rows ++ [row]) rest w0) end.
  { split; cbn -[Z.of_nat]; [by eauto|by rewrite <- app_assoc|done|..].
    - unfold waiting. rewrite is_mysql. cbn -[Z.of_nat]. rewrite length_app. cbn. lia.
    - rewrite is_mysql, app_assoc. destruct Hr as ((cs & Hcs & ->) & _ & Hwin). split_and!; [|done|done]. exists (cs ++ [cells]).
      split; [apply Forall2_app; [done|by constructor]|].
      rewrite join_app, fmap_app. cbn. by rewrite app_nil_r. }
  destruct (_ || _); [by apply (written_flush_insert (rows ++ [row]) rest) in Hb as [? _]|by injection Hb as <- <-].
Qed.
End Mysql.

(** *** From a row to the whole source *)

Section Loop.
Context (cols : list PlannedColumn) (cols_some : cols <> []).

Lemma written_append rows row rest n :
  ok (written cols rows (row :: rest)) (append row n) (fun _ => written cols (rows ++ [row]) rest).
Proof using cols_some.
  unfold TransferRun.append. destruct (su_target setup) eqn:Ht; [by apply written_append_copy|by apply written_append_insert].
Qed.
Lemma written_flush_all rows rest : ok (written cols rows rest) flush_all (fun _ w => written cols rows rest w /\ waiting (w_dest w) = 0%Z
    /\ arrived cols rows (w_trace w)).
Proof using.
  unfold TransferRun.flush_all. destruct (su_target setup) eqn:Ht.
  - eapply ok_conseq; [by apply (written_close_window Ht cols rows rest)|done|]. intros [] w [Hw Hwin]. split; [done|].
    unfold waiting, arrived. rewrite Ht, Hwin. split; [done|]. destruct Hw as [_ _ _ _ Hr]. rewrite Ht in Hr.
    destruct Hr as [Hl Hb]. by rewrite (Hb Hwin), app_nil_r in Hl.
  - eapply ok_conseq; [by apply (written_flush_insert Ht cols rows rest)|done|]. intros [] w [Hw Hn]. split; [done|].
    unfold waiting, arrived. rewrite Ht, Hn. split; [done|]. destruct Hw as [_ _ _ _ Hr]. rewrite Ht in Hr.
    destruct Hr as (Hl & Hb & _). by rewrite (Hb Hn), app_nil_r in Hl.
Qed.
Lemma written_stop_asked rows rest n : ok (written cols rows rest) (@stop_asked _ S env n) (fun _ => written cols rows rest).
Proof using.
  unfold stop_asked. eapply ok_bind; [by apply written_ask|]. intros stop w x w' Hw. cbn beta. by destruct stop; intros [= <- <-].
Qed.
Lemma written_emit rows rest e : ok (written cols rows rest) (@emit _ S env e) (fun _ => written cols rows rest).
Proof using.
  unfold emit. eapply ok_bind; [by apply written_ask|]. intros r w x w' Hw. by destruct r; intros [= <- <-].
Qed.
Lemma written_row b index rows row rest n : batch_row b index = row ->
  ok (written cols rows (row :: rest)) (write_row b index n) (fun _ => written cols (rows ++ [row]) rest).
Proof using cols_some.
  intros <-. unfold TransferRun.write_row. eapply ok_bind; [apply written_stop_asked|]. intros [].
  destruct (negb _); [by intros w x w'|]. eapply ok_bind; [apply ok_live, written_append|]. intros [].
  intros w x w' Hw Hb. apply bind_cases in Hb as [(e & _ & [=])|(d & w1 & [= <- <-] & Hb)].
  apply bind_cases in Hb as [(e & _ & [=])|(d & w1 & [= <- <-] & Hb)].
  destruct (an_report _ _); [|by injection Hb as <- <-]. by eapply (ok_live _ _ _ (written_emit _ _ _)).
Qed.
Lemma written_rows b k : forall index rows rest n,
  ok (fun w => written cols rows ((batch_row b <$> seq index k) ++ rest) w /\ n = Z.of_nat (List.length rows))
    (write_rows b k index n)
    (fun n' w => written cols (rows ++ (batch_row b <$> seq index k)) rest w
                 /\ n' = Z.of_nat (List.length (rows ++ (batch_row b <$> seq index k)))).
Proof using cols_some.
  induction k as [|k IH]; intros index rows rest n; cbn [TransferRun.write_rows].
  { intros w x w' [Hw ->] [= <- <-]. by rewrite app_nil_r. }
  intros w x w' [Hw Hn] Hb. apply bind_cases in Hb as [(e & _ & [=])|([] & w1 & Hb & Hb')].
  apply (written_row b index rows _ ((batch_row b <$> seq (Datatypes.S index) k) ++ rest) n eq_refl) in Hb; [|exact Hw].
  apply (IH (Datatypes.S index) (rows ++ [batch_row b index]) rest (n + 1)%Z) in Hb' as [Hw' Hx].
  - cbn [seq fmap list_fmap]. rewrite <- app_assoc in Hw', Hx. done.
  - split; [exact Hb|]. rewrite length_app. cbn. lia.
Qed.

(** The loop: [rows] written, the next batch waiting, and the end of the source seen when it is. *)
Definition loop_inv (s : LoopState) (w : World) : Prop :=
  exists rows, written cols rows (match lp_next s with Some b => rows_of b | None => [] end) w
    /\ lp_rows_read s = Z.of_nat (List.length rows)
    /\ (lp_ended s = true -> lp_next s = None /\ ended (w_trace w)).

Lemma ended_keeps : forall (w : World), ended (w_trace w) -> forall E (q : list Event -> E) ev (x : E) w' F,
  (ask q ev : M F E) w = (inr x, w') -> ended (w_trace w').
Proof using. intros w Hw E q ev x w' F [= <- <-]. apply elem_of_app. by left. Qed.

Lemma written_next rows b (w : World) : written cols rows [] w ->
  written cols rows (match b with Some b => rows_of b | None => [] end) (log (EvNext (inr b)) w).
Proof using.
  intros [? Hd Ha Hc Hr]. split; cbn; [done|..].
  - rewrite delivered_snoc, Hd, app_nil_r. by destruct b.
  - rewrite confirmed_snoc. cbn. lia.
  - rewrite confirmed_snoc. cbn. lia.
  - rewrite copied_snoc, inserted_snoc. cbn. by rewrite !app_nil_r.
Qed.
Lemma written_fetch rows n : ok (written cols rows []) (@fetch _ S env n)
  (fun b w => written cols rows (match b with Some b => rows_of b | None => [] end) w /\ (b = None -> ended (w_trace w))).
Proof using.
  unfold fetch. intros w x w' Hw Hb. apply bind_cases in Hb as [(e & _ & [=])|(d & w1 & [= <- <-] & Hb)].
  apply bind_cases in Hb as [(e & _ & [=])|([] & w1 & Hb & Hb')].
  assert (Hw1 : written cols rows [] w1).
  { destruct (d_window (w_dest w)) eqn:Hwin; [|by injection Hb as <-].
    apply bind_cases in Hb as [(e & _ & [=])|(fired & w2 & [= <- <-] & Hb)].
    destruct (an_timer _ _); [|by injection Hb as <-].
    apply bind_cases in Hb as [(e & _ & [=])|([] & w2 & [= <-] & Hb)].
    destruct (su_target setup) eqn:Ht.
    - apply (ok_live _ _ _ (written_close_window Ht cols rows [])) in Hb as [? _]; [done|]. by apply written_log.
    - destruct Hw as [_ _ _ _ Hr]. rewrite Ht in Hr. destruct Hr as (_ & _ & Hr). congruence. }
  apply bind_cases in Hb' as [(e & _ & [=])|(got & w2 & [= <- <-] & Hb')].
  destruct (an_next _ _) as [|r]; [by apply bind_cases in Hb' as [(e & _ & [=])|(? & ? & _ & ?)]|].
  apply bind_cases in Hb' as [(e & _ & [=])|(got & w2 & [= <- <-] & Hb')].
  destruct r as [m|b]; [done|]. injection Hb' as <- <-. split; [by apply written_next|].
  intros ->. apply elem_of_snoc_self.
Qed.

Lemma written_turn s w x w' : loop_inv s w -> live_turn s w = (inr x, w') ->
  match x with
  | inl s' => loop_inv s' w'
  | inr n => exists rows, written cols rows [] w' /\ n = Z.of_nat (List.length rows) /\ ended (w_trace w')
  end.
Proof using cols_some.
  intros (rows & Hw & Hn & He) Hb. unfold TransferRun.live_turn in Hb.
  apply bind_cases in Hb as [(e & _ & [=])|(n & w1 & Hb & Hb')].
  assert (Hw1 : exists rows, written cols rows [] w1 /\ n = Z.of_nat (List.length rows) /\ (lp_ended s = true -> ended (w_trace w1))).
  { destruct (lp_next s) as [b|] eqn:Hnext.
    - apply (written_rows b (batch_size b) 0 rows [] (lp_rows_read s)) in Hb as [Hw1 Hn1]; [|by rewrite app_nil_r].
      eexists. split; [exact Hw1|]. split; [done|]. intros He'. by destruct (He He') as [? _].
    - injection Hb as <- <-. exists rows. split; [done|]. split; [done|]. intros He'. by apply He. }
  clear Hb Hw Hn He rows. destruct Hw1 as (rows & Hw & Hn & He). destruct (lp_ended s).
  { injection Hb' as <- <-. eauto. }
  apply bind_cases in Hb' as [(e & _ & [=])|([] & w2 & Hb & Hb')].
  apply (written_stop_asked rows []) in Hb; [|done].
  apply bind_cases in Hb' as [(e & _ & [=])|(next & w3 & Hf & Hb')].
  apply (written_fetch rows) in Hf as [Hw3 He3]; [|done].
  destruct next as [b|]; injection Hb' as <- <-; exists rows; (split; [done|]; split; [done|]); [done|]. intros _. split; [done|by apply He3].
Qed.
Lemma written_loop fuel s w n w' : loop_inv s w -> iter live_body fuel (s, w) = Some (inr n, w') ->
  exists rows, written cols rows [] w' /\ n = Z.of_nat (List.length rows) /\ ended (w_trace w').
Proof using cols_some.
  intros Hi Hit.
  refine (iter_inv live_body (fun sw => loop_inv sw.1 sw.2)
    (fun rw => forall n, rw.1 = inr n -> exists rows, written cols rows [] rw.2 /\ n = Z.of_nat (List.length rows) /\ ended (w_trace rw.2))
    fuel (s, w) (inr n, w') _ _ Hi Hit n eq_refl).
  - intros [s1 w1] [s2 w2] Hi1. cbn. unfold TransferRun.live_body. cbn.
    destruct (live_turn s1 w1) as [[e|[s3|k]] w3] eqn:Et; intros [= <- <-]. by eapply (written_turn _ _ (inl _)).
  - intros [s1 w1] [r2 w2] Hi1. cbn. unfold TransferRun.live_body. cbn.
    destruct (live_turn s1 w1) as [[e|[s3|k]] w3] eqn:Et; intros [= <- <-] n0 [=]; subst. by eapply (written_turn _ _ (inr _)).
Qed.
End Loop.

(** *** The start, and the whole live range *)

(** The columns are those of the table planned for what the source described. *)
Definition planned (cols : list PlannedColumn) : Prop :=
  exists names types tp, plan_table (su_source_kind setup) (su_target setup) (zip names types) = Some (inr tp)
    /\ cols = tp_columns tp /\ names <> [] /\ List.length types = List.length names.
Lemma planned_some cols : planned cols -> cols <> [].
Proof.
  intros (names & types & tp & Hp & -> & Hn & Hl). apply plan_table_sound in Hp as (_ & Hf & _).
  apply Forall2_length in Hf. rewrite length_zip_with in Hf. intros E. rewrite E, Hl, Nat.min_id in Hf. by destruct names.
Qed.

(** Nothing was written yet, and the source has given [rest]. *)
Definition untouched (rest : list (list Value)) (d : Dest) (tr : list Event) : Prop :=
  d_window d = None /\ d_buffer d = [] /\ d_pending d = [] /\ d_pending_rows d = 0 /\ d_acked d = 0%Z
  /\ delivered tr = rest /\ confirmed tr = 0%Z /\ copied tr = [] /\ inserted tr = [].
Lemma untouched_log rest d tr e : no_rows e -> untouched rest d tr -> untouched rest d (tr ++ [e]).
Proof.
  intros (H5 & H6 & H7 & H8) (? & ? & ? & ? & ? & Hd & Hc & Hp & Hi). split_and!; try done.
  - by rewrite delivered_snoc, H5, app_nil_r.
  - by rewrite confirmed_snoc, H6, Hc.
  - by rewrite copied_snoc, H7, Hp.
  - by rewrite inserted_snoc, H8, Hi.
Qed.
Lemma untouched_written rest p (w : World) : untouched rest (w_dest w) (w_trace w) -> d_prepared (w_dest w) = Some p ->
  written (tp_columns (pr_table p)) [] rest w.
Proof.
  intros (Hwin & Hb & Hpe & Hn & Ha & Hd & Hc & Hp & Hi) Hpr. split; [by eauto|done|congruence|..].
  - unfold waiting. rewrite Hwin, Hn, Hc. by destruct (su_target setup).
  - rewrite Hp, Hi, Hb, Hpe. destruct (su_target setup).
    + split; [|done]. split; [by left|constructor].
    + split_and!; [|done|done]. exists []. by split.
Qed.
Definition written_dest (cols : list PlannedColumn) rows rest (d : Dest) (tr : list Event) : Prop :=
  written cols rows rest (MkWorld d None tr).
Lemma written_dest_iff cols rows rest (w : World) : written_dest cols rows rest (w_dest w) (w_trace w) <-> written cols rows rest w.
Proof. split; intros [? ? ? ? ?]; by split. Qed.
Lemma written_dest_log cols rows rest d tr e : no_rows e -> written_dest cols rows rest d tr -> written_dest cols rows rest d (tr ++ [e]).
Proof. intros Hn Hw. by apply (written_log _ _ _ e) in Hw. Qed.
Lemma written_dest_modify cols rows rest f d tr :
  (forall d, d_prepared (f d) = d_prepared d /\ d_window (f d) = d_window d /\ d_buffer (f d) = d_buffer d
     /\ d_pending (f d) = d_pending d /\ d_pending_rows (f d) = d_pending_rows d /\ d_acked (f d) = d_acked d) ->
  written_dest cols rows rest d tr -> written_dest cols rows rest (f d) tr.
Proof.
  intros Hf [? ? Ha Hc Hr]. destruct (Hf d) as (E1 & E2 & E3 & E4 & E5 & E6). cbn in *. split; cbn; [by rewrite E1|done|congruence|..].
  - unfold waiting in *. cbn in *. by rewrite E2, E5.
  - by rewrite E2, E3, E4, E5.
Qed.
Lemma written_decider cols rows rest pr dc d tr : d_prepared d = Some pr -> written_dest cols rows rest d tr ->
  written_dest cols rows rest (set_prepared (with_decider dc pr) d) tr.
Proof.
  intros Hp [(p & Hp' & Hc') ? ? ? ?]. cbn in *. rewrite Hp in Hp'. injection Hp' as <-. split; cbn; [by eauto|done..].
Qed.
Lemma written_statement cols rows rest why p : keeps (written_dest cols rows rest) (statement why p).
Proof.
  intros w r w' Hb Hj. unfold TransferRun.statement in Hb.
  apply bind_cases in Hb as [(e & [=] & _)|(d & w1 & [= <- <-] & Hb)].
  destruct (d_prepared (w_dest w)) as [pr|] eqn:Hp; [|by injection Hb as <- <-].
  apply bind_cases in Hb as [(e & Hb & _)|(dc & w2 & Hdc & Hb)]; [by eapply keeps_decide|].
  assert (Hw2 : w_dest w2 = w_dest w /\ w_trace w2 = w_trace w).
  { unfold TransferRun.decide in Hdc. destruct (allow _ _ _ _ _) as [[? ?] [?|]]; [done|]. by injection Hdc as <- <-. }
  destruct Hw2 as [Hwd Hwt]. apply bind_cases in Hb as [(e & [=] & _)|([] & w3 & [= <-] & Hb)].
  match goal with _ : ?m ?w0 = (r, w') |- _ => assert (Hk : keeps (written_dest cols rows rest) m) end.
  { keeps_solve. apply keeps_ask. intros. by apply written_dest_log. }
  eapply Hk; [exact Hb|]. cbn. rewrite Hwd, Hwt. by apply written_decider.
Qed.
Lemma written_begin tp rest :
  ok (fun w => untouched rest (w_dest w) (w_trace w)) (begin tp) (fun _ => written (tp_columns tp) [] rest).
Proof.
  intros w x w' Hu Hb. unfold TransferRun.begin in Hb.
  apply bind_cases in Hb as [(e & [=] & _)|(d & w1 & [= <- <-] & Hb)]. destruct (build _ _ _ _ _ _) as [f|plan]; [done|].
  apply bind_cases in Hb as [(e & _ & [=])|(dc & w2 & Hdc & Hb)].
  assert (Hu2 : untouched rest (w_dest w2) (w_trace w2)) by (by eapply keeps_decide_all).
  apply bind_cases in Hb as [(e & [=] & _)|([] & w3 & [= <-] & Hb)].
  match goal with _ : ?m ?w0 = (inr x, w') |- _ => assert (Hk : keeps (written_dest (tp_columns tp) [] rest) m) end.
  { unfold engine. keeps_solve; try (apply keeps_ask; intros; by apply written_dest_log);
      try (apply keeps_modify; intros; by apply written_dest_modify). apply written_statement. }
  apply written_dest_iff. eapply Hk; [exact Hb|]. apply written_dest_iff.
  match goal with |- written _ _ _ ?w0 =>
    exact (untouched_written rest (MkPrepared plan tp dc (rows_per_insert setup (List.length (tp_columns tp)))) w0 Hu2 eq_refl) end.
Qed.

Lemma untouched_fetch (w : World) b w' : untouched [] (w_dest w) (w_trace w) -> fetch env 0 w = (inr b, w') ->
  untouched (match b with Some b => rows_of b | None => [] end) (w_dest w') (w_trace w') /\ (b = None -> ended (w_trace w')).
Proof.
  intros Hu Hb. unfold fetch in Hb. apply bind_cases in Hb as [(e & [=] & _)|(d & w1 & [= <- <-] & Hb)].
  apply bind_cases in Hb as [(e & _ & [=])|([] & w1 & Hb & Hb')].
  destruct Hu as (Hwin & Hu). rewrite Hwin in Hb. injection Hb as <-.
  apply bind_cases in Hb' as [(e & _ & [=])|(got & w2 & [= <- <-] & Hb')].
  destruct (an_next _ _) as [|r]; [by apply bind_cases in Hb' as [(e & _ & [=])|(? & ? & _ & ?)]|].
  apply bind_cases in Hb' as [(e & _ & [=])|(got & w2 & [= <- <-] & Hb')].
  destruct r as [m|b']; [done|]. injection Hb' as <- <-. destruct Hu as (? & ? & ? & ? & Hd & Hc & Hp & Hi). split.
  - cbn. split_and!; try done; [by rewrite delivered_snoc, Hd; destruct b'|by rewrite confirmed_snoc, Hc|by rewrite copied_snoc, Hp|by rewrite inserted_snoc, Hi].
  - intros ->. apply elem_of_snoc_self.
Qed.
Lemma neutral_no_rows e : neutral e -> no_rows e.
Proof. by destruct e. Qed.
Lemma untouched_clean_up rest : keeps (untouched rest) clean_up.
Proof. unfold TransferRun.clean_up. keeps_solve; apply keeps_ask; intros; by apply untouched_log. Qed.
Lemma untouched_before_live rest : keeps (untouched rest) before_live.
Proof.
  apply whole_before_live; try done.
  - intros e d tr He. by apply untouched_log, neutral_no_rows.
  - intros s _. unfold engine. keeps_solve. apply keeps_ask. intros. by apply untouched_log.
  - intros d tr. unfold untouched. cbn. tauto.
  - intros. by apply untouched_log.
  - apply untouched_clean_up.
  - apply whole_open_source; intros; apply untouched_log; try done. by apply neutral_no_rows.
Qed.

(** What was seen stays seen. *)
Abbreviation seen x := (fun (_ : Dest) (tr : list Event) => x ∈ tr).
Lemma seen_snoc {A} (x e : A) tr : x ∈ tr -> x ∈ tr ++ [e].
Proof. intros. apply elem_of_app. by left. Qed.
Ltac seen_solve := keeps_solve; (apply keeps_ask; intros; by apply seen_snoc) || (apply keeps_modify; intros; done).
Lemma seen_statement x why p : keeps (seen x) (statement why p).
Proof. unfold TransferRun.statement. seen_solve. Qed.
Lemma seen_engine x s : keeps (seen x) (@engine _ S env s).
Proof. unfold engine. seen_solve. Qed.
Hint Resolve seen_statement seen_engine : run.
Lemma seen_begin x tp : keeps (seen x) (begin tp).
Proof. unfold TransferRun.begin. seen_solve. Qed.
Lemma seen_flush_all x : keeps (seen x) flush_all.
Proof. unfold TransferRun.flush_all, close_window, send_buffer, TransferRun.flush_insert. seen_solve. Qed.

(** [Finished] is never an early exit. *)
Definition early_exit {A} (m : Live A) : Prop := forall (w : World) n w', m w <> (inl (Finished n), w').
Lemma early_bind {A C} (m : Live A) (k : A -> Live C) : early_exit m -> (forall x, early_exit (k x)) -> early_exit (bind m k).
Proof.
  intros Hm Hk w n w' Hb. apply bind_cases in Hb as [(e & Hb & E)|(x & w1 & _ & Hb)]; [|by eapply Hk].
  injection E as <-. by eapply Hm.
Qed.
Lemma early_live {A} (m : Run A) : early_exit (live m).
Proof. intros w n w'. unfold live, map_error. by destruct (m w) as [[e|x] w1]. Qed.
Lemma early_fail {A} e : (forall n, e <> Finished n) -> early_exit (fail e : Live A).
Proof. intros He w n w' [= E _]. by eapply He. Qed.
Ltac early := repeat first
  [ done | apply early_live | apply early_bind; [|intros ?] | apply early_fail; discriminate
  | match goal with |- early_exit (match ?x with _ => _ end) => destruct x end | progress cbn beta zeta ].
Lemma early_fetch n : early_exit (@fetch _ S env n).
Proof. unfold fetch. early. Qed.
Lemma early_stop n : early_exit (@stop_asked _ S env n).
Proof. unfold stop_asked. early. Qed.
Lemma early_rows b k : forall index n, early_exit (write_rows b k index n).
Proof.
  induction k as [|k IH]; intros index n; cbn [TransferRun.write_rows]; [done|]. apply early_bind; [|intros; apply IH].
  unfold TransferRun.write_row. early; apply early_stop.
Qed.
Lemma live_start_not_finished : early_exit live_start.
Proof. unfold TransferRun.live_start, target_failed. early. Qed.
Lemma loop_not_finished fuel s (w : World) n w' : iter live_body fuel (s, w) <> Some (inl (Finished n), w').
Proof.
  intros Hi. refine (iter_inv live_body (fun _ => True) (fun rw => forall n, rw.1 <> inl (Finished n)) fuel _ _ _ _ I Hi n eq_refl).
  - done.
  - intros [s1 w1] [r2 w2] _. unfold TransferRun.live_body. cbn.
    destruct (live_turn s1 w1) as [[e|[s3|k]] w3] eqn:Et; intros [= <- <-] k'; [|done]. intros [= ->].
    revert Et. apply (fun H => (H : early_exit (live_turn s1)) w1 k' w3). unfold TransferRun.live_turn. early;
      first [apply early_rows | apply early_stop | apply early_fetch].
Qed.

Lemma written_start (w : World) s w' : untouched [] (w_dest w) (w_trace w) -> live_start w = (inr s, w') ->
  exists cols, planned cols /\ loop_inv cols s w'.
Proof.
  intros Hu Hb. unfold TransferRun.live_start in Hb.
  apply bind_cases in Hb as [(e & _ & [=])|([] & w1 & Hb & Hb')].
  assert (Hu1 : untouched [] (w_dest w1) (w_trace w1)).
  { revert Hb. unfold step, live. refine (fun Hb => (_ : keeps (untouched []) _) _ _ _ Hb Hu). apply keeps_map_error.
    unfold emit. keeps_solve. apply keeps_ask. intros. by apply untouched_log. }
  apply bind_cases in Hb' as [(e & _ & [=])|(next & w2 & Hf & Hb')].
  apply untouched_fetch in Hf as [Hu2 He2]; [|done].
  apply bind_cases in Hb' as [(e & _ & [=])|(names & w3 & [= <- <-] & Hb')].
  apply bind_cases in Hb' as [(e & _ & [=])|(types & w3 & [= <- <-] & Hb')].
  set (names := an_columns env (w_trace w2)) in *. set (types := an_types env (w_trace w2)) in *.
  destruct (List.length names =? 0) eqn:Hn; [done|]. destruct types as [types'|]; [|done].
  destruct (List.length types' =? List.length names) eqn:Hl; [|done]. cbn [negb] in Hb'.
  destruct (plan_table _ _ _) as [[refusal|tp]|] eqn:Hplan; [done| |done].
  exists (tp_columns tp). split.
  { exists names, types', tp. apply Nat.eqb_neq in Hn. apply Nat.eqb_eq in Hl. split_and!; try done. by intros E; rewrite E in Hn. }
  apply bind_cases in Hb' as [(e & _ & [=])|([] & w3 & Hb' & Hb2)].
  pose proof (ok_live _ _ _ (written_begin tp (match next with Some b => rows_of b | None => [] end)) _ _ _ Hu2 Hb') as Hwr.
  assert (He3 : next = None -> ended (w_trace w3)).
  { intros ->. specialize (He2 eq_refl). unfold live in Hb'. eapply (keeps_map_error _ _ _ (seen_begin _ tp)); [exact Hb'|done]. }
  apply bind_cases in Hb2 as [(e & _ & [=])|([] & w4 & [= <-] & Hb2)].
  set (J := fun d tr => written_dest (tp_columns tp) [] (match next with Some b => rows_of b | None => [] end) d tr
              /\ (next = None -> ended tr)).
  match type of Hb2 with bind ?m _ _ = _ => assert (Hk : keeps J m) end.
  { unfold step, emit, live. keeps_solve. apply keeps_ask. intros a d tr [Hj1 Hj2]. split; [by apply written_dest_log|].
    intros E. apply seen_snoc. by apply Hj2. }
  apply bind_cases in Hb2 as [(e & _ & [=])|([] & w5 & Hb2 & Hb3)].
  assert (Hj : J (w_dest w5) (w_trace w5)).
  { eapply Hk; [exact Hb2|]. cbn. split; [|exact He3]. apply written_dest_modify; [done|]. by apply written_dest_iff. }
  apply bind_cases in Hb3 as [(e & _ & [=])|(query_id & w6 & [= <- <-] & Hb3)].
  apply bind_cases in Hb3 as [(e & _ & [=])|([] & w6 & Hb3 & [= <- <-])].
  assert (Hk2 : forall e, keeps J (live (@emit _ S env e))).
  { intros e. unfold emit, live. keeps_solve. apply keeps_ask. intros a d tr [Hj1 Hj2]. split; [by apply written_dest_log|].
    intros E. apply seen_snoc. by apply Hj2. }
  eapply Hk2 in Hb3. specialize (Hb3 Hj) as [Hj1 Hj2]. exists []. cbn. split; [by apply written_dest_iff|]. split; [done|].
  destruct next as [b|]; [done|]. intros _. split; [done|by apply Hj2].
Qed.

Lemma live_range_finished fuel (w : World) n w' : untouched [] (w_dest w) (w_trace w) ->
  live_range fuel w = Some (Finished n, w') ->
  exists cols, planned cols /\ written cols (delivered (w_trace w')) [] w' /\ waiting (w_dest w') = 0%Z
    /\ n = Z.of_nat (List.length (delivered (w_trace w'))) /\ ended (w_trace w')
    /\ arrived cols (delivered (w_trace w')) (w_trace w').
Proof.
  intros Hu. unfold TransferRun.live_range. destruct (live_start w) as [[e1|s] w1] eqn:Es.
  { intros [= -> <-]. exfalso. revert Es. apply live_start_not_finished. }
  apply written_start in Es as (cols & Hp & Hi); [|done].
  destruct (iter live_body fuel (s, w1)) as [[[e2|k] w2]|] eqn:Ei; [| |done].
  { intros [= -> <-]. exfalso. by eapply loop_not_finished. }
  apply (written_loop cols (planned_some _ Hp)) in Ei as (rows & Hw & -> & He); [|done].
  destruct (flush_all w2) as [[e3|[]] w3] eqn:Ef; [done|]. intros [= <- <-].
  assert (He3 : ended (w_trace w3)) by (by eapply seen_flush_all).
  apply (written_flush_all cols rows []) in Ef as (Hw3 & Hz & Ha); [|done].
  assert (Hrows : delivered (w_trace w3) = rows) by (destruct Hw3 as [_ Hd _ _ _]; by rewrite app_nil_r in Hd).
  rewrite Hrows. exists cols. by split_and!.
Qed.

(** ** The end of a run *)

Lemma whole_transfer (J : Dest -> list Event -> Prop) fuel (w : World) r w' :
  (forall e d tr, neutral e -> J d tr -> J d (tr ++ [e])) -> (forall r d tr, J d tr -> J d (tr ++ [EvNext r])) ->
  (forall b d tr, J d tr -> J (set_existed b d) tr) -> (forall n d tr, J d tr -> J (set_budget n d) tr) ->
  (forall l d tr, J d tr -> J (set_widenings l d) tr) ->
  (forall s, s ∈ [StrictMode; Utf8mb4; ArrayNulls] -> keeps J (@engine _ S env s)) ->
  keeps J (@close_window _ S env) -> (forall values n, keeps J (append values n)) -> keeps J flush_all ->
  (forall tp, tp_target tp = su_target setup -> keeps J (begin tp)) ->
  (forall d tr, J d tr -> J (set_copy None (d_buffer d) d) tr) ->
  (forall r d tr, d_transaction d = true -> J d tr -> J d (tr ++ [EvEngine Rollback_ r])) ->
  keeps J clean_up -> keeps J (@open_source _ S env setup) ->
  (forall (d : Dest) tr, EvNext (inr None) ∈ tr \/ EvSourceCancel ∈ tr -> J d tr -> J d (tr ++ [EvSourceDropped])) ->
  keeps J swap -> (forall e r d tr, J d tr -> J d (tr ++ [EvOut e r])) -> untouched [] (w_dest w) (w_trace w) ->
  transfer fuel w = Some (r, w') -> J (w_dest w) (w_trace w) -> J (w_dest w') (w_trace w').
Proof.
  intros Jn Jx Je Jb Jw Js Jc Ja Jf Jg Ju Jr Jk Jo Jd Jsw Jo2 Hu Ht Hj. unfold TransferRun.transfer in Ht.
  destruct (before_live w) as [[e|[]] w1] eqn:Hb.
  - simplify_eq. by eapply whole_before_live.
  - assert (Hj1 : J (w_dest w1) (w_trace w1)) by (by eapply whole_before_live).
    assert (Hu1 : untouched [] (w_dest w1) (w_trace w1)) by (by eapply untouched_before_live).
    destruct (live_range fuel w1) as [[e w2]|] eqn:Hl; [|done]. assert (Hj2 : J (w_dest w2) (w_trace w2)) by (by eapply (whole_live J)).
    injection Ht as Ht. eapply (whole_after_live J); try done. intros n ->.
    apply live_range_finished in Hl as (cols & _ & _ & _ & _ & He & _); done.
  - assert (Hj1 : J (w_dest w1) (w_trace w1)) by (by eapply whole_before_live).
    injection Ht as Ht. unfold close_dest, finish_stopped in Ht. eapply (hold_bind J); [| |exact Ht|exact Hj1].
    + apply keeps_ask. intros. by apply Jn.
    + intros ?. apply (whole_emit J); [done|exact I].
Qed.

Definition start (sink : option S) : World := MkWorld dest_new sink [].
Lemma start_untouched sink : untouched [] (w_dest (start sink)) (w_trace (start sink)).
Proof. by split_and!. Qed.

(** *** Decisions *)

Lemma decided_clean_up : keeps decided_so_far clean_up.
Proof.
  intros w r w' Hb Hj. unfold TransferRun.clean_up in Hb.
  apply bind_cases in Hb as [(e & [=] & _)|(d & w1 & [= <- <-] & Hb)].
  destruct (d_prepared (w_dest w)) as [pr|] eqn:Hp; [|by injection Hb as <- <-].
  destruct (wp_cleanup (pr_plan pr)) as [p|] eqn:Hc; [|by injection Hb as <- <-].
  pose proof Hj as [_ Hpr]. rewrite Hp in Hpr. destruct Hpr as (Hsh & Hf & Hs & Hall).
  apply bind_cases in Hb as [(e & Hb & _)|(dc & w2 & Hdc & Hb)]; [by apply (keeps_attempt decided_so_far) in Hb; [auto|apply keeps_decide]|].
  assert (Hj2 : decided_so_far (w_dest w2) (w_trace w2)).
  { eapply (keeps_attempt decided_so_far); [apply keeps_decide|exact Hdc|done]. }
  destruct dc as [e|dc]; [by injection Hb as <- <-|]. unfold attempt in Hdc.
  destruct (decide (pr_decider pr) p w) as [dc' w3] eqn:Hd. injection Hdc as -> ->.
  apply decide_ok in Hd as (Hm & _); [|done..].
  unfold bind, ask, log in Hb. cbn in Hb. injection Hb as <- <-. cbn. by apply decided_event.
Qed.
Hint Resolve decided_clean_up : run.
Lemma decided_swap : keeps decided_so_far swap.
Proof.
  assert (Hs : forall ps, keeps decided_so_far (swap_statements ps)).
  { intros ps. induction ps as [|p ps IH]; cbn; [apply hold_ret|]. keeps_solve. }
  unfold TransferRun.swap. keeps_solve; try apply Hs; apply keeps_modify; intros; by eapply decided_dest.
Qed.

(** C12: Whatever the servers answer, every statement the run writes with (the table, the [COPY], every
    [INSERT], the swap, the old table's drop and the clean-up of a scratch) was first read again
    under the destination's dialect as exactly one statement of the kind the plan says, and the
    destination's floor runs it: a DDL statement by its entries, once confirmed where it asks,
    every statement of a DML text under the strictest of them. *)
Theorem every_written_statement_was_decided fuel sink r (w : World) e :
  transfer fuel (start sink) = Some (r, w) -> e ∈ w_trace w -> event_decided e.
Proof.
  intros Ht. assert (Hd : decided_so_far (w_dest w) (w_trace w)).
  { assert (Hn : forall e d tr, neutral e -> decided_so_far d tr -> decided_so_far d (tr ++ [e]))
      by (intros e' d tr He; apply decided_event; by destruct e').
    refine (whole_transfer decided_so_far fuel (start sink) r w Hn _ _ _ _ _ _ _ _ _ _ _ _ _ _ _ _ (start_untouched sink) Ht _);
      try (intros; by apply decided_event); try (intros; by eapply decided_dest); auto with run.
    - apply decided_begin.
    - apply whole_open_source; [exact Hn|]. intros. by apply decided_event.
    - apply decided_swap. }
  destruct Hd as [Hd _]. rewrite Forall_forall in Hd. auto.
Qed.

(** *** The source *)

(** What must have happened before an event of the source. *)
Definition source_ready (pre : list Event) (e : Event) : Prop :=
  match e with
  | EvQuery _ => EvSourceReadOnly None ∈ pre
      /\ (su_source_kind setup = DPostgres -> Forall (fun s => EvSourceSet s None ∈ pre) SOURCE_READING)
  | EvSourceDropped => EvNext (inr None) ∈ pre \/ EvSourceCancel ∈ pre
  | _ => True
  end.
(** Every event of the trace finds [P] of the trace before it. *)
Definition always (P : list Event -> Event -> Prop) (tr : list Event) : Prop :=
  forall pre e post, tr = pre ++ e :: post -> P pre e.
Lemma always_snoc P tr e : always P tr -> P tr e -> always P (tr ++ [e]).
Proof.
  intros Ha He pre e' post E. destruct (exists_last (l := e' :: post) ltac:(done)) as (l & x & El).
  rewrite El, app_assoc in E. apply app_inj_tail in E as [-> ->].
  destruct l as [|e2 l]; injection El as -> Hpost; [by rewrite app_nil_r in He|]. by eapply Ha.
Qed.
Lemma always_nil P : always P [].
Proof. by intros [|? ?] ? ?. Qed.
Abbreviation in_order := (fun (_ : Dest) tr => always source_ready tr).

Lemma ordered_settings (l : list EngineStatement) (w : World) w' :
  source_settings env l w = (inr tt, w') -> Forall (fun s => EvSourceSet s None ∈ w_trace w') l.
Proof.
  revert w. induction l as [|s l IH]; intros w Hb; [constructor|]. cbn [source_settings] in Hb.
  apply bind_cases in Hb as [(e & _ & [=])|([] & w1 & Hs & Hb)]. constructor; [|by eapply IH].
  assert (Hin : EvSourceSet s None ∈ w_trace w1).
  { unfold source_step in Hs. apply bind_cases in Hs as [(e & _ & [=])|(r & w2 & [= <- <-] & Hs)].
    destruct (an_source_set env (w_trace w) s) eqn:Ha; [by apply bind_cases in Hs as [(e & _ & [=])|(? & ? & _ & ?)]|].
    injection Hs as <-. apply elem_of_snoc_self. }
  assert (Hk : keeps (seen (EvSourceSet s None)) (@source_settings _ S env l)).
  { clear. induction l as [|s' l IH]; cbn; [apply hold_ret|]. unfold source_step, close_source.
    keeps_solve; first [apply IH | apply keeps_ask; intros; by apply seen_snoc]. }
  by eapply Hk.
Qed.
Lemma ordered_open_source : keeps in_order (@open_source _ S env setup).
Proof.
  intros w r w' Hb Hj. unfold open_source in Hb.
  assert (Hn : forall {E A} (q : list Event -> A) ev, (forall a, match ev a with EvQuery _ | EvSourceDropped => False | _ => True end) ->
             keeps in_order (ask q ev : M E A)).
  { intros E A q ev He. apply keeps_ask. intros a d tr Ha. apply always_snoc; [done|]. specialize (He a). by destruct (ev a). }
  assert (Hstep : forall q ev, (forall a, match ev a with EvQuery _ | EvSourceDropped => False | _ => True end) ->
             keeps in_order (@source_step _ S q ev)).
  { intros q ev He. unfold source_step, close_source. keeps_solve; by apply Hn. }
  assert (Hsets : forall l, keeps in_order (@source_settings _ S env l)).
  { intros l. induction l as [|s l IH]; cbn; [apply hold_ret|]. keeps_solve; first [by apply Hstep | apply IH]. }
  apply bind_cases in Hb as [(e & [=] & _)|(o & w1 & Ho & Hb)]. assert (Ho1 : in_order (w_dest w1) (w_trace w1)) by (eapply Hn; [|exact Ho|exact Hj]; done). clear Ho Hj.
  apply bind_cases in Hb as [(e & Hb & _)|([] & w2 & Hf & Hb)]; [by eapply (keeps_or_fail in_order); [exact Hb|]|].
  assert (Ho2 : in_order (w_dest w2) (w_trace w2)) by (by eapply (keeps_or_fail in_order); [exact Hf|]). clear Hf Ho1.
  apply bind_cases in Hb as [(e & Hb & _)|([] & w3 & Hr & Hb)]; [eapply Hstep; [|exact Hb|exact Ho2]; done|].
  assert (Hro : EvSourceReadOnly None ∈ w_trace w3).
  { unfold source_step in Hr. apply bind_cases in Hr as [(e & [=] & _)|(r3 & w4 & [= <- <-] & Hr)].
    destruct (an_read_only env (w_trace w2)) eqn:Ha; [by apply bind_cases in Hr as [(e & _ & [=])|(? & ? & _ & ?)]|].
    injection Hr as <-. apply elem_of_snoc_self. }
  assert (Hr3 : in_order (w_dest w3) (w_trace w3)) by (eapply Hstep; [|exact Hr|exact Ho2]; done). clear Hr Ho2.
  apply bind_cases in Hb as [(e & Hb & _)|([] & w4 & Hs & Hb)].
  { destruct (su_source_kind setup); [by injection Hb as [=]|by eapply Hsets|by injection Hb as [=]]. }
  assert (Hready : source_ready (w_trace w4) (EvQuery (an_query env (w_trace w4))) /\ in_order (w_dest w4) (w_trace w4)).
  { destruct (su_source_kind setup) eqn:Hk; cbn; rewrite Hk; [injection Hs as <-; by split_and!| |injection Hs as <-; by split_and!].
    split; [|by eapply Hsets]. split; [|intros _; by eapply ordered_settings].
    assert (Hks : keeps (seen (EvSourceReadOnly None)) (@source_settings _ S env SOURCE_READING)).
    { generalize SOURCE_READING. intros l. induction l as [|s' l IH]; cbn; [apply hold_ret|]. unfold source_step, close_source.
      keeps_solve; first [apply IH | apply keeps_ask; intros; by apply seen_snoc]. }
    by eapply Hks. }
  destruct Hready as [Hq Hj]. apply bind_cases in Hb as [(e & [=] & _)|(q & w5 & [= <- <-] & Hb)].
  assert (Hj5 : in_order (w_dest w4) (w_trace w4 ++ [EvQuery (an_query env (w_trace w4))])) by (by apply always_snoc).
  match goal with _ : ?m ?w0 = (r, w') |- _ => assert (Hk : keeps in_order m) end.
  { unfold close_source. keeps_solve; by apply Hn. }
  eapply Hk; [exact Hb|]. exact Hj5.
Qed.

(** *** What depends on the trace alone *)

(** Events of the destination before the table takes its name. *)
Definition writing (e : Event) : Prop :=
  match e with
  | EvEngine Commit_ _ => False
  | EvEngine _ _ | EvWritten (ForCreate | ForCleanUp) _ _ | EvInsert _ _ _ | EvCopyIn _ _ | EvCopySend _ _ | EvCopyFinish _ => True
  | _ => False
  end.
Section TraceOnly.
Context (P : list Event -> Prop) (P_writing : forall e tr, writing e -> P tr -> P (tr ++ [e])).
Abbreviation J := (fun (_ : Dest) tr => P tr).
Ltac traced := keeps_solve; try (apply keeps_modify; by intros); try (apply keeps_ask; intros; by apply P_writing).
Lemma traced_engine s : s <> Commit_ -> keeps J (@engine _ S env s).
Proof using P_writing. intros Hs. unfold engine. keeps_solve. apply keeps_ask. intros. apply P_writing; [by destruct s|done]. Qed.
Lemma traced_statement why p : why = ForCreate \/ why = ForCleanUp -> keeps J (statement why p).
Proof using P_writing.
  intros Hw. unfold TransferRun.statement. traced. apply keeps_ask. intros. apply P_writing; [by destruct Hw as [-> | ->]|done].
Qed.
Lemma traced_close_window : keeps J (@close_window _ S env).
Proof using P_writing. unfold close_window, send_buffer. traced. Qed.
Lemma traced_flush_insert : keeps J flush_insert.
Proof using P_writing. unfold TransferRun.flush_insert. traced. Qed.
Lemma traced_append values n : keeps J (append values n).
Proof using P_writing.
  unfold TransferRun.append, append_copy, open_window, send_buffer, TransferRun.append_insert. traced;
    (apply traced_close_window || apply traced_flush_insert).
Qed.
Lemma traced_flush_all : keeps J flush_all.
Proof using P_writing. unfold TransferRun.flush_all. traced; (apply traced_close_window || apply traced_flush_insert). Qed.
Lemma traced_begin tp : keeps J (begin tp).
Proof using P_writing. unfold TransferRun.begin. traced; [by apply traced_engine|apply traced_statement; by left]. Qed.
Lemma traced_clean_up : keeps J clean_up.
Proof using P_writing. unfold TransferRun.clean_up. traced. Qed.
End TraceOnly.

(** C14: The source is only read, and left in order, whatever happens: its query is sent only after the
    session was made read-only and, on PostgreSQL, after each of the four settings under which its
    values are printed was taken; and its cursor is dropped only when it has said there are no more
    rows, or after the server was asked to cancel. *)
Theorem source_is_read_only_and_cancelled_before_it_is_dropped fuel sink r (w : World) pre e post :
  transfer fuel (start sink) = Some (r, w) -> w_trace w = pre ++ e :: post -> source_ready pre e.
Proof.
  intros Ht. cut (in_order (w_dest w) (w_trace w)); [by intros Ha; apply Ha|].
  assert (Hany : forall e d tr, match e with EvQuery _ | EvSourceDropped => False | _ => True end -> in_order d tr -> in_order d (tr ++ [e])).
  { intros e' d tr He Ha. apply always_snoc; [done|]. by destruct e'. }
  assert (Hw : forall e tr, writing e -> always source_ready tr -> always source_ready (tr ++ [e])).
  { intros e' tr He Ha. apply (Hany _ dest_new); [by destruct e'|done]. }
  assert (Hst : forall why p, keeps in_order (statement why p)).
  { intros why p. unfold TransferRun.statement. keeps_solve; [by apply keeps_modify|]. apply keeps_ask. intros. by apply Hany. }
  assert (Hen : forall s, keeps in_order (@engine _ S env s)).
  { intros s. unfold engine. keeps_solve. apply keeps_ask. intros. by apply Hany. }
  refine (whole_transfer in_order fuel (start sink) r w _ _ _ _ _ _ _ _ _ _ _ _ _ _ _ _ _ (start_untouched sink) Ht _);
    try done; try (intros; by apply Hany).
  - intros e' d tr He. apply (Hany _ d). by destruct e'.
  - by apply traced_close_window.
  - by apply traced_append.
  - by apply traced_flush_all.
  - intros tp _. by apply traced_begin.
  - by apply traced_clean_up.
  - apply ordered_open_source.
  - intros d tr Hd Ha. by apply always_snoc.
  - assert (Hs : forall ps, keeps in_order (swap_statements ps)).
    { intros ps. induction ps as [|p ps IH]; cbn; [apply hold_ret|]. keeps_solve. }
    unfold TransferRun.swap. keeps_solve; by apply keeps_modify.
  - apply always_nil.
Qed.

(** *** Nothing is left open *)

Definition open_step (b : bool) (e : Event) : bool :=
  match e with EvEngine Begin_ None => true | EvEngine Commit_ None | EvEngine Rollback_ _ => false | _ => b end.
(** A transaction was begun, and neither committed nor asked to roll back. *)
Definition open_transaction (tr : list Event) : bool := foldl open_step false tr.
Definition scratch_step (b : bool) (e : Event) : bool :=
  match e with
  | EvWritten ForCreate _ _ => true | EvWritten ForSwap _ None | EvWritten ForCleanUp _ _ => false | _ => b
  end.
(** A table was asked for, and neither renamed into place nor asked to be dropped. *)
Definition scratch_left (tr : list Event) : bool := foldl scratch_step false tr.
Arguments open_transaction _ : simpl never.
Arguments scratch_left _ : simpl never.
Lemma open_snoc tr e : open_transaction (tr ++ [e]) = open_step (open_transaction tr) e.
Proof. unfold open_transaction. by rewrite foldl_app. Qed.
Lemma scratch_snoc tr e : scratch_left (tr ++ [e]) = scratch_step (scratch_left tr) e.
Proof. unfold scratch_left. by rewrite foldl_app. Qed.

Definition closed (tr : list Event) : Prop :=
  open_transaction tr = false /\ (su_target setup = TMysql -> scratch_left tr = false).
Definition flagged (d : Dest) (tr : list Event) : Prop :=
  decided_so_far d tr
  /\ (open_transaction tr = true -> d_transaction d = true)
  /\ (su_target setup = TMysql -> (scratch_left tr = true -> d_created d = true) /\ d_transaction d = false)
  /\ (d_prepared d = None -> d_transaction d = false /\ d_created d = false).
(** Events that neither open nor close, and need no decision. *)
Definition flag_neutral (e : Event) : Prop :=
  (forall b, open_step b e = b) /\ (forall b, scratch_step b e = b) /\ event_decided e.
Lemma flagged_log d tr e : flag_neutral e -> flagged d tr -> flagged d (tr ++ [e]).
Proof.
  intros (Ho & Hs & He) (Hd & Ht & Hm & Hp). split_and!; [by apply decided_event| |intros Hq|done].
  - by rewrite open_snoc, Ho.
  - rewrite scratch_snoc, Hs. by apply Hm.
Qed.
Lemma neutral_flags e : neutral e -> flag_neutral e.
Proof. by destruct e. Qed.
Lemma flagged_dest d d' tr : d_prepared d' = d_prepared d -> d_transaction d' = d_transaction d -> d_created d' = d_created d ->
  flagged d tr -> flagged d' tr.
Proof. intros E1 E2 E3 (Hd & Ht & Hm & Hp). unfold flagged. rewrite E1, E2, E3. split; [by eapply decided_dest|done]. Qed.
Lemma flagged_engine s : s <> Begin_ -> s <> Commit_ -> s <> Rollback_ -> keeps flagged (@engine _ S env s).
Proof. intros ? ? ?. unfold engine. keeps_solve. apply keeps_ask. intros a d tr. apply flagged_log. by destruct s. Qed.

(** A written statement, from the decisions: the flags follow the event. *)
Lemma flagged_statement why p (w : World) r w' : statement why p w = (r, w') -> flagged (w_dest w) (w_trace w) ->
  (why = ForCreate -> d_created (w_dest w) = true) ->
  flagged (w_dest w') (w_trace w') /\ d_created (w_dest w') = d_created (w_dest w) /\ d_transaction (w_dest w') = d_transaction (w_dest w)
  /\ (r = inr tt -> why = ForSwap -> scratch_left (w_trace w') = false).
Proof.
  intros Hb (Hd & Ht & Hm & Hp) Hc. pose proof (decided_statement why p _ _ _ Hb Hd) as Hd'.
  unfold TransferRun.statement in Hb. apply bind_cases in Hb as [(e & [=] & _)|(d & w1 & [= <- <-] & Hb)].
  destruct (d_prepared (w_dest w)) as [pr|] eqn:Hpr; [|injection Hb as <- <-; unfold flagged; rewrite Hpr; by split_and!].
  apply bind_cases in Hb as [(e & Hb & ->)|(dc & w2 & Hdc & Hb)].
  { assert (Hw : w_dest w' = w_dest w /\ w_trace w' = w_trace w).
    { unfold TransferRun.decide in Hb. destruct (allow _ _ _ _ _) as [[? ?] [?|]]; [|done]. by injection Hb as _ <-. }
    destruct Hw as [E1 E2]. rewrite E1, E2 in *. unfold flagged. by rewrite Hpr. }
  assert (Hw2 : w_dest w2 = w_dest w /\ w_trace w2 = w_trace w).
  { unfold TransferRun.decide in Hdc. destruct (allow _ _ _ _ _) as [[? ?] [?|]]; [done|]. by injection Hdc as <- <-. }
  destruct Hw2 as [E1 E2]. unfold bind, modify, ask, or_fail, log, ret, fail in Hb. cbn -[finish_statement] in Hb.
  set (a := finish_statement env (w_trace w2) (pl_text p)) in *.
  assert (Hw' : w_dest w' = set_prepared (with_decider dc pr) (w_dest w) /\ w_trace w' = w_trace w ++ [EvWritten why p a]
     /\ (r = inr tt -> a = None)).
  { rewrite <- E1, <- E2. destruct a; injection Hb as <- <-; done. }
  clear Hb. destruct Hw' as (F1 & F2 & F3). rewrite F1, F2 in *. cbn. split_and!; try done.
  - split_and!; [done|by rewrite open_snoc| |done].
    intros Hq. destruct (Hm Hq) as [Hm1 Hm2]. split; [|done]. rewrite scratch_snoc. by destruct why, a; cbn; auto.
  - intros Hr ->. rewrite scratch_snoc. by rewrite (F3 Hr).
Qed.
Lemma flagged_begin tp : tp_target tp = su_target setup -> keeps flagged (begin tp).
Proof.
  intros Htp w r w' Hb Hj. pose proof (decided_begin tp Htp _ _ _ Hb (proj1 Hj)) as Hd'. destruct Hj as (Hd & Ht & Hm & Hp).
  unfold TransferRun.begin in Hb.
  apply bind_cases in Hb as [(e & [=] & _)|(d & w1 & [= <- <-] & Hb)].
  destruct (build _ _ _ _ _ _) as [f|plan] eqn:Hplan; [by injection Hb as <- <-|].
  apply bind_cases in Hb as [(e & Hb & _)|(dc & w2 & Hdc & Hb)]; [by eapply (keeps_decide_all flagged); [exact Hb|]|].
  apply decide_all_ok in Hdc as (Hall & Hs & Hf & _ & Hwd & Hwt); [|constructor|reflexivity].
  apply build_plan in Hplan as (_ & _ & Hsh).
  apply bind_cases in Hb as [(e & [=] & _)|([] & w3 & [= <-] & Hb)].
  match type of Hb with bind _ _ ?w0 = _ => set (w3 := w0) in *; assert (Hj3 : flagged (w_dest w3) (w_trace w3)) end.
  { unfold w3. cbn. rewrite Hwd, Hwt. split_and!; [|done..]. split; [apply Hd|]. cbn. split_and!; try done. unfold plan_shape. by rewrite <- Htp. }
  apply bind_cases in Hb as [(e & Hb & _)|([] & w4 & Hb1 & Hb)].
  - destruct (su_target setup) eqn:Htg; [|done]. apply bind_cases in Hb as [(e1 & Hb & _)|([] & w5 & _ & [=])].
    unfold engine, bind, ask, log, or_fail in Hb. cbn in Hb. destruct (finish_statement _ _ _) as [m|]; [|done]. injection Hb as _ <-.
    apply flagged_log; [done|exact Hj3].
  - assert (Hj4 : flagged (w_dest w4) (w_trace w4) /\ is_Some (d_prepared (w_dest w4))).
    { destruct (su_target setup) eqn:Htg; [|by injection Hb1 as <-].
      unfold engine, bind, ask, log, or_fail, modify, ret in Hb1. cbn in Hb1. destruct (finish_statement _ _ _) as [m|]; [done|]. injection Hb1 as <-.
      cbn. destruct Hj3 as (Hd3 & _ & _ & _). split; [|done]. split_and!; [|done|by rewrite Htg|done].
      eapply decided_dest; [|by apply (decided_event (w_dest w3))]. done. }
    destruct Hj4 as [(Hd4 & Ht4 & Hm4 & Hp4) [pr Hpr]].
    apply bind_cases in Hb as [(e & [=] & _)|([] & w5 & [= <-] & Hb)].
    apply flagged_statement in Hb as (Hj5 & _); [done| |done]. split; [by eapply decided_dest|]. split; [done|].
    split; [|by cbn; intros E; rewrite E in Hpr]. intros Hq. split; [done|by apply Hm4].
Qed.

Lemma flagged_modify {E} f : (forall d, d_prepared (f d) = d_prepared d /\ d_transaction (f d) = d_transaction d /\ d_created (f d) = d_created d) ->
  keeps flagged (modify f : M E unit).
Proof. intros Hf. apply keeps_modify. intros d tr. destruct (Hf d) as (? & ? & ?). by apply flagged_dest. Qed.
Lemma flagged_decider (pr : Prepared) dc (w w2 : World) :
  d_prepared (w_dest w) = Some pr -> w_dest w2 = w_dest w -> w_trace w2 = w_trace w -> flagged (w_dest w) (w_trace w) ->
  sound dc -> same_floor floor0 dc -> decided (pr_decider pr) ⊆ decided dc ->
  flagged (set_prepared (with_decider dc pr) (w_dest w2)) (w_trace w2).
Proof.
  intros Hp -> -> (Hd & Ht & Hm & Hpr) Hs Hf Hsub. split; [|by split_and!]. destruct Hd as [Hd Hd2]. rewrite Hp in Hd2.
  split; [done|]. cbn. by apply prepared_with.
Qed.
Lemma flagged_close_window : keeps flagged (@close_window _ S env).
Proof.
  unfold close_window, send_buffer. keeps_solve; first [by apply flagged_modify | apply keeps_ask; intros; by apply flagged_log].
Qed.
Lemma flagged_flush_insert : keeps flagged flush_insert.
Proof.
  intros w r w' Hb Hj. unfold TransferRun.flush_insert in Hb.
  apply bind_cases in Hb as [(e & [=] & _)|(d & w1 & [= <- <-] & Hb)].
  destruct (d_pending_rows (w_dest w)) as [|rows] eqn:Hn; [by injection Hb as <- <-|].
  destruct (d_prepared (w_dest w)) as [pr|] eqn:Hp; [|by injection Hb as <- <-].
  pose proof Hj as ((_ & Hpr) & _). rewrite Hp in Hpr. destruct Hpr as (Hsh & Hf & Hs & Hall).
  apply bind_cases in Hb as [(e & Hb & _)|(dc & w2 & Hdc & Hb)]; [by eapply (keeps_decide flagged)|].
  apply decide_ok in Hdc as (Hm & Hs2 & Hf2 & Hin & Hsub & Hd2 & Ht2); [|done..].
  apply bind_cases in Hb as [(e & [=] & _)|([] & w3 & [= <-] & Hb)].
  match goal with _ : ?m ?w0 = (r, w') |- _ => assert (Hk : keeps flagged m) end.
  { keeps_solve; [apply keeps_ask; intros; by apply flagged_log|by apply flagged_modify]. }
  eapply Hk; [exact Hb|]. cbn.
  apply (flagged_dest (set_prepared (with_decider dc pr) (w_dest w2))); [done..|]. by eapply flagged_decider.
Qed.
Lemma flagged_open_window : keeps flagged (@open_window _ S env).
Proof.
  intros w r w' Hb Hj. assert (Hd := decided_open_window _ _ _ Hb (proj1 Hj)). destruct Hj as (_ & Ht & Hm & Hp).
  assert (Hk : keeps (fun d tr => (open_transaction tr = true -> d_transaction d = true)
    /\ (su_target setup = TMysql -> (scratch_left tr = true -> d_created d = true) /\ d_transaction d = false)
    /\ (d_prepared d = None -> d_transaction d = false /\ d_created d = false)) (@open_window _ S env)).
  { unfold open_window. keeps_solve; [|by apply keeps_modify]. apply keeps_ask. intros a d tr. by rewrite open_snoc, scratch_snoc. }
  split; [done|]. by eapply Hk.
Qed.
Hint Resolve flagged_close_window flagged_flush_insert flagged_open_window : run.
Lemma flagged_append values n : keeps flagged (append values n).
Proof.
  unfold TransferRun.append, append_copy, send_buffer, TransferRun.append_insert.
  keeps_solve; first [by apply flagged_modify | apply keeps_ask; intros; by apply flagged_log].
Qed.
Lemma flagged_flush_all : keeps flagged flush_all.
Proof. unfold TransferRun.flush_all. keeps_solve. Qed.

(** An abort closes what is open. *)
Lemma undo_closes (w : World) r w' : undo w = (r, w') -> flagged (w_dest w) (w_trace w) -> closed (w_trace w').
Proof.
  intros Hb Hj. unfold TransferRun.undo in Hb.
  apply bind_cases in Hb as [(e & [=] & _)|(d & w1 & [= <- <-] & Hb)].
  apply bind_cases in Hb as [(e & Hb & _)|([] & w2 & Hb & Hb2)].
  { destruct (d_window (w_dest w)); [|done]. unfold bind, modify, ask in Hb. done. }
  assert (Hw2 : flagged (w_dest w2) (w_trace w2) /\ d_transaction (w_dest w2) = d_transaction (w_dest w)
                /\ d_created (w_dest w2) = d_created (w_dest w)).
  { destruct (d_window (w_dest w)); [|by injection Hb as <-].
    unfold bind, modify, ask, log in Hb. cbn in Hb. injection Hb as <-. cbn. split; [|done].
    repeat (apply flagged_log; [done|]). by apply (flagged_dest (w_dest w)). }
  clear Hj Hb. destruct Hw2 as [(Hd & Ht & Hm & Hp) [E1 E2]]. rewrite <- E1, <- E2 in Hb2.
  destruct (d_transaction (w_dest w2)) eqn:Htr.
  { unfold bind, ask, log in Hb2. cbn in Hb2. injection Hb2 as _ <-. cbn. split; [by rewrite open_snoc|].
    intros Hq. destruct (Hm Hq) as [_ [=]]. }
  assert (Ho : open_transaction (w_trace w2) = false) by (destruct (open_transaction _); [by discriminate Ht|done]).
  destruct (d_created (w_dest w2)) eqn:Hcr.
  2:{ injection Hb2 as _ <-. split; [done|]. intros Hq. destruct (Hm Hq) as [Hs _]. destruct (scratch_left _); [by discriminate Hs|done]. }
  destruct (su_target setup) eqn:Hq; [injection Hb2 as _ <-; split; [done|by rewrite Hq]|].
  unfold TransferRun.clean_up in Hb2. apply bind_cases in Hb2 as [(e & [=] & _)|(d & w1 & [= <- <-] & Hb2)].
  destruct (d_prepared (w_dest w2)) as [pr|] eqn:Hpr; [|by destruct Hp].
  destruct Hd as [_ Hd]. rewrite Hpr in Hd. destruct Hd as (Hsh & Hf & Hs & Hall). unfold plan_shape in Hsh. rewrite Hq in Hsh.
  destruct Hsh as [_ [p Hc]]. rewrite Hc in Hb2. rewrite Forall_forall in Hall. destruct (Hall p (plan_cleanup _ _ Hc)) as [Hr Hin].
  apply bind_cases in Hb2 as [(e & Hb2 & _)|(dc & w3 & Hdc & Hb2)]; [unfold attempt in Hb2; by destruct (decide _ _ _)|].
  unfold attempt, TransferRun.decide in Hdc. rewrite allow_again in Hdc; [|by destruct Hf as (_ & _ & _ & <-)|done].
  injection Hdc as <- <-. unfold bind, ask, log in Hb2. cbn in Hb2. injection Hb2 as _ <-. cbn.
  split; [by rewrite open_snoc|]. intros _. by rewrite scratch_snoc.
Qed.
Lemma closed_log tr e : flag_neutral e -> closed tr -> closed (tr ++ [e]).
Proof. intros (Ho & Hs & _) [H5 H6]. split; [by rewrite open_snoc, Ho|]. intros Hq. rewrite scratch_snoc, Hs. auto. Qed.
Abbreviation closed_run := (fun (_ : Dest) tr => closed tr).
Lemma abort_closes (w : World) r w' : abort w = (r, w') -> flagged (w_dest w) (w_trace w) -> closed (w_trace w').
Proof.
  intros Hb Hj. unfold TransferRun.abort in Hb.
  apply bind_cases in Hb as [(e & Hb & _)|(ws & w1 & Hb & Hb2)]; apply undo_closes in Hb; [done|done| |done].
  unfold close_dest, bind, ask, log in Hb2. cbn in Hb2. injection Hb2 as _ <-. by apply closed_log.
Qed.
Lemma closed_emit e : keeps closed_run (@emit _ S env e).
Proof. unfold emit. keeps_solve. apply keeps_ask. intros. by apply closed_log. Qed.
Lemma abort_then_closed {A} (k : list bytes -> Run A) (w : World) r w' : (forall ws, keeps closed_run (k ws)) ->
  bind abort k w = (r, w') -> flagged (w_dest w) (w_trace w) -> closed (w_trace w').
Proof.
  intros Hk [(e & Hb & _)|(ws & w1 & Hb & Hb2)]%bind_cases Hj; [by eapply abort_closes|]. eapply Hk; [exact Hb2|]. by eapply abort_closes.
Qed.

(** The swap: done, nothing is open; failed, the flags still say what is. *)
Lemma swap_flags (w : World) r w' : swap w = (r, w') -> flagged (w_dest w) (w_trace w) ->
  match r with inl _ => flagged (w_dest w') (w_trace w') | inr _ => closed (w_trace w') end.
Proof.
  intros Hb Hj. unfold TransferRun.swap in Hb. apply bind_cases in Hb as [(e & [=] & _)|(d & w1 & [= <- <-] & Hb)].
  destruct (d_prepared (w_dest w)) as [pr|] eqn:Hpr.
  2:{ injection Hb as <- <-. destruct Hj as (_ & Ht & Hm & Hp). destruct (Hp Hpr) as [E1 E2]. rewrite E1, E2 in *. split.
      - destruct (open_transaction _); [by discriminate Ht|done].
      - intros Hq. destruct (Hm Hq) as [Hs _]. destruct (scratch_left _); [by discriminate Hs|done]. }
  assert (Hsh : plan_shape (pr_plan pr)) by (destruct Hj as ((_ & Hd) & _); rewrite Hpr in Hd; apply Hd).
  assert (Hst : forall ps (w : World) r w', swap_statements ps w = (r, w') -> flagged (w_dest w) (w_trace w) ->
    flagged (w_dest w') (w_trace w') /\ d_created (w_dest w') = d_created (w_dest w)
    /\ (r = inr tt -> (exists p, ps = [p]) -> scratch_left (w_trace w') = false)).
  { clear. intros ps. induction ps as [|p ps IH]; intros w r w' Hb Hj; cbn [TransferRun.swap_statements] in Hb.
    { injection Hb as <- <-. split_and!; try done. by intros _ [? [=]]. }
    apply bind_cases in Hb as [(e & Hb & ->)|([] & w1 & Hb & Hb2)].
    - by apply flagged_statement in Hb as (Hj1 & Hc & _).
    - apply flagged_statement in Hb as (Hj1 & Hc & _ & Hs); [|done..]. pose proof Hb2 as Hb3. apply IH in Hb2 as (Hj2 & Hc2 & _); [|done].
      split_and!; [done|congruence|]. intros -> [q [= -> ->]]. injection Hb3 as <-. by apply Hs. }
  apply bind_cases in Hb as [(e & Hb & ->)|([] & w2 & Hb & Hb2)]; [by apply Hst in Hb as [? _]|].
  apply Hst in Hb as (Hj2 & Hc2 & Hs2); [|done]. clear Hst Hj Hpr.
  apply bind_cases in Hb2 as [(e & Hb2 & ->)|([] & w3 & Hb2 & Hb3)].
  { destruct (su_target setup) eqn:Hq; [|done]. unfold engine, bind, ask, log, or_fail in Hb2. cbn in Hb2.
    destruct (finish_statement _ _ _); [|done]. injection Hb2 as _ <-. by apply flagged_log. }
  assert (Hc3 : closed (w_trace w3)).
  { destruct Hj2 as (_ & Ht & Hm & _). unfold plan_shape in Hsh. destruct (su_target setup) eqn:Hq.
    - unfold engine, bind, ask, log, or_fail, modify in Hb2. cbn in Hb2. destruct (finish_statement _ _ _); [done|]. injection Hb2 as <-.
      cbn. split; [by rewrite open_snoc|by rewrite Hq].
    - injection Hb2 as <-. destruct Hsh as [Hsw _], (Hm eq_refl) as [_ E]. split; [|intros _; by apply Hs2].
      destruct (open_transaction _); [|done]. rewrite E in Ht. by discriminate Ht. }
  apply bind_cases in Hb3 as [(e & [=] & _)|([] & w4 & [= <-] & Hb3)].
  destruct (wp_drop_old (pr_plan pr)) as [p|]; [|by injection Hb3 as <- <-].
  assert (Hk : keeps closed_run (statement ForDropOld p)).
  { unfold TransferRun.statement. keeps_solve; [by apply keeps_modify|]. apply keeps_ask. intros a d tr [H5 H6].
    split; [by rewrite open_snoc|intros Hq; rewrite scratch_snoc; by apply H6]. }
  apply bind_cases in Hb3 as [(e & Hb3 & _)|(x & w5 & Hb3 & [= <- <-])]; [unfold attempt in Hb3; by destruct (statement _ _ _)|].
  unfold attempt in Hb3. destruct (statement ForDropOld p _) as [y w6] eqn:Hy. injection Hb3 as <- <-. by eapply Hk.
Qed.

Lemma or_else_recovered {A} (m : Run A) k (w : World) r w' : or_else m k w = (r, w') ->
  (exists x, m w = (inr x, w') /\ r = inr x) \/ (exists e w1, m w = (inl e, w1) /\ k e w1 = (r, w')).
Proof.
  unfold or_else, attempt, bind. destruct (m w) as [[e|x] w1] eqn:Hm; intros Hb; [right; by eauto|left].
  injection Hb as <- <-. eauto.
Qed.
Lemma flagged_start (w : World) r w' : flagged (w_dest w) (w_trace w) -> before_live w = (r, w') -> flagged (w_dest w') (w_trace w').
Proof.
  intros Hj Hb. eapply (whole_before_live flagged); [..|exact Hb|exact Hj].
  - intros e d tr He. apply flagged_log. by apply neutral_flags.
  - intros b d tr. by apply flagged_dest.
  - intros b d tr. by apply flagged_dest.
  - intros s Hs. apply flagged_engine; intros ->; by repeat (apply elem_of_cons in Hs as [?|Hs]; [done|]); apply elem_of_nil in Hs.
  - intros d tr. by apply flagged_dest.
  - intros a d tr Hd (H5 & H6 & H7 & H8). split; [by apply decided_event|]. split; [by rewrite open_snoc|]. split; [|done].
    intros Hq. rewrite scratch_snoc. by apply H7.
  - intros w1 r1 w2 Hc Hj1. assert (Hd := decided_clean_up _ _ _ Hc (proj1 Hj1)). destruct Hj1 as (_ & Hf).
    split; [done|]. revert Hf.
    refine ((_ : keeps (fun d tr => (open_transaction tr = true -> d_transaction d = true)
      /\ (su_target setup = TMysql -> (scratch_left tr = true -> d_created d = true) /\ d_transaction d = false)
      /\ (d_prepared d = None -> d_transaction d = false /\ d_created d = false)) clean_up) _ _ _ Hc).
    unfold TransferRun.clean_up. keeps_solve. apply keeps_ask. intros a d' tr (H5 & H6 & H7).
    split_and!; [by rewrite open_snoc| |done]. intros Hq. rewrite scratch_snoc. split; [done|by apply H6].
  - apply whole_open_source; intros; apply flagged_log; try done. by apply neutral_flags.
Qed.
Lemma flagged_live fuel (w : World) e w' : live_range fuel w = Some (e, w') ->
  flagged (w_dest w) (w_trace w) -> flagged (w_dest w') (w_trace w').
Proof.
  apply (whole_live flagged).
  - intros e' d tr He. apply flagged_log. by apply neutral_flags.
  - intros r d tr. by apply flagged_log.
  - intros l d tr. by apply flagged_dest.
  - apply flagged_close_window.
  - apply flagged_append.
  - apply flagged_flush_all.
  - apply flagged_begin.
Qed.
Lemma flagged_emit e : keeps flagged (@emit _ S env e).
Proof. unfold emit. keeps_solve. apply keeps_ask. intros. by apply flagged_log. Qed.
Lemma conclude_closes n q (w : World) r w' : conclude n q w = (r, w') -> flagged (w_dest w) (w_trace w) -> closed (w_trace w').
Proof.
  intros Hb Hj. unfold TransferRun.conclude in Hb.
  assert (Hq : forall e (w : World) (r : RunError + unit) w', abort_quietly e w = (r, w') -> flagged (w_dest w) (w_trace w) -> closed (w_trace w')).
  { intros e w1 r1 w2 Hb1. unfold TransferRun.abort_quietly in Hb1. eapply abort_then_closed; [|exact Hb1]. intros. apply keeps_fail. }
  assert (Hq2 : forall e (w : World) (x : unit) w', abort_quietly e w <> (inr x, w')).
  { intros e w1 x w2 Hb1. unfold TransferRun.abort_quietly in Hb1. by apply bind_cases in Hb1 as [(? & ? & ?)|(? & ? & _ & ?)]. }
  apply bind_cases in Hb as [(e & Hb & _)|([] & w1 & Hb & Hb2)].
  { apply or_else_recovered in Hb as [(x & _ & [=])|(e1 & w1 & Hm & Hb)]. eapply Hq; [exact Hb|].
    revert Hm. refine (fun Hm => (_ : keeps flagged _) _ _ _ Hm Hj). unfold step. keeps_solve; apply flagged_emit. }
  apply or_else_recovered in Hb as [(x & Hm & _)|(e1 & w2 & _ & Hb)]; [|by apply Hq2 in Hb].
  assert (Hj1 : flagged (w_dest w1) (w_trace w1)).
  { revert Hm. refine (fun Hm => (_ : keeps flagged _) _ _ _ Hm Hj). unfold step. keeps_solve; apply flagged_emit. }
  clear Hj Hm x. apply bind_cases in Hb2 as [(e & [=] & _)|(d & w2 & [= <- <-] & Hb)].
  destruct (negb _).
  { unfold TransferRun.abort_with in Hb. eapply abort_then_closed; [|exact Hb|exact Hj1]. intros. apply keeps_fail. }
  apply bind_cases in Hb as [(e & Hb & _)|([] & w2 & Hb & Hb2)].
  { apply or_else_recovered in Hb as [(x & _ & [=])|(e1 & w2 & Hm & Hb)]. eapply Hq; [exact Hb|]. by eapply flagged_emit. }
  apply or_else_recovered in Hb as [(x & Hm & _)|(e1 & w3 & _ & Hb)]; [|by apply Hq2 in Hb].
  assert (Hj2 : flagged (w_dest w2) (w_trace w2)) by (by eapply flagged_emit). clear Hj1 Hm x.
  assert (Hend : forall (ws : list bytes) (w3 : World) r w', closed (w_trace w3) ->
     bind get (fun d => bind close_dest (fun _ => emit env (OutDone (d_acked d) n
       (match d_prepared d with Some p => wp_label (pr_plan p) | None => [] end) (mode_name setup) q false ws true (su_dest_kind setup)))) w3
     = (r, w') -> closed (w_trace w')).
  { intros ws w3 r3 w4 Hc3 Hb. eapply (fun k => k : keeps closed_run _); [|exact Hb|exact Hc3]. unfold close_dest.
    keeps_solve; [apply keeps_ask; intros; by apply closed_log|apply closed_emit]. }
  apply bind_cases in Hb2 as [(e & Hb2 & _)|(ws & w3 & Hb2 & Hb3)].
  - apply or_else_recovered in Hb2 as [(x & _ & [=])|(e1 & w3 & Hm & Hb)].
    unfold TransferRun.abort_with in Hb. eapply abort_then_closed; [|exact Hb|]; [intros; apply keeps_fail|].
    apply bind_cases in Hm as [(e2 & Hm & _)|(? & ? & _ & [=])]. by apply swap_flags in Hm.
  - apply or_else_recovered in Hb2 as [(x & Hm & _)|(e1 & w4 & _ & Hb)].
    + apply bind_cases in Hm as [(e2 & _ & [=])|(more & w4 & Hm & [= <- <-])]. apply swap_flags in Hm; [|done]. by eapply Hend.
    + unfold TransferRun.abort_with in Hb. by apply bind_cases in Hb as [(? & ? & ?)|(? & ? & _ & ?)].
Qed.

Lemma closed_before_live : keeps closed_run before_live.
Proof.
  apply (whole_before_live closed_run); try done.
  - intros e' d tr He. apply closed_log. by apply neutral_flags.
  - intros s Hs. unfold engine. keeps_solve. apply keeps_ask. intros a d tr. apply closed_log.
    by repeat (apply elem_of_cons in Hs as [->|Hs]; [done|]); apply elem_of_nil in Hs.
  - intros a d tr _ [H5 H6]. split; [by rewrite open_snoc|intros Hq; rewrite scratch_snoc; by apply H6].
  - unfold TransferRun.clean_up. keeps_solve. apply keeps_ask. intros a d' tr [H5 H6].
    split; [by rewrite open_snoc|intros Hq; by rewrite scratch_snoc].
  - apply whole_open_source; intros; apply closed_log; try done. by apply neutral_flags.
Qed.

(** C13: A run leaves nothing open at the destination, however it ends: a transaction that was begun was
    committed or asked to roll back, and a MySQL scratch table that was asked for was renamed into
    place or asked to be dropped; no refusal of the floor is in the way of that clean-up. *)
Theorem run_leaves_nothing_open fuel sink r (w : World) :
  transfer fuel (start sink) = Some (r, w) -> closed (w_trace w).
Proof.
  intros Ht. unfold TransferRun.transfer in Ht.
  assert (Hj0 : flagged (w_dest (start sink)) (w_trace (start sink))) by (by split_and!; [constructor|..]).
  destruct (before_live (start sink)) as [[e|[]] w1] eqn:Hb.
  - injection Ht as <- <-. by eapply closed_before_live.
  - apply flagged_start in Hb; [|done]. destruct (live_range fuel w1) as [[e w2]|] eqn:Hl; [|done].
    apply flagged_live in Hl; [|done]. injection Ht as Ht. unfold TransferRun.after_live in Ht.
    apply bind_cases in Ht as [(? & [=] & _)|(q & w3 & [= <- <-] & Ht)].
    assert (Hsrc : forall b, keeps flagged (@finish_source _ S env b)).
    { intros b. unfold finish_source. keeps_solve; apply keeps_ask; intros; by apply flagged_log. }
    destruct e as [n|n|e]; apply bind_cases in Ht as [(? & Ht & _)|(ws & w3 & Hs & Ht)];
      try (apply Hsrc in Hs; specialize (Hs Hl)); try (unfold finish_source, bind, ask, peek, ret in Ht; by destruct true).
    + by eapply conclude_closes.
    + eapply abort_then_closed; [|exact Ht|exact Hs]. intros. apply closed_emit.
    + unfold TransferRun.abort_with in Ht. eapply abort_then_closed; [|exact Ht|exact Hs]. intros. apply keeps_fail.
  - injection Ht as Ht. assert (Hc : closed (w_trace w1)).
    { by eapply closed_before_live. }
    eapply (fun k => k : keeps closed_run _); [|exact Ht|exact Hc]. unfold close_dest.
    keeps_solve; [apply keeps_ask; intros; by apply closed_log|apply closed_emit].
Qed.

(** *** The table takes its name last *)

(** Every row the source gave, to its end, is at the destination, in order, and acknowledged. *)
Definition verified (tr : list Event) : Prop :=
  exists cols, planned cols /\ ended tr /\ confirmed tr = Z.of_nat (List.length (delivered tr)) /\ arrived cols (delivered tr) tr.
(** The table has its name. *)
Definition published (tr : list Event) : Prop :=
  match su_target setup with
  | TPostgres => EvEngine Commit_ None ∈ tr
  | TMysql => exists p, EvWritten ForSwap p None ∈ tr
  end.
Definition backed (pre : list Event) (e : Event) : Prop :=
  match e with
  | EvEngine Commit_ _ | EvWritten (ForSwap | ForDropOld) _ _ => verified pre
  | EvOut (OutDone rows n _ _ _ stopped _ true _) _ =>
      verified pre /\ published pre /\ stopped = false /\ rows = n /\ n = Z.of_nat (List.length (delivered pre))
  | _ => True
  end.
Abbreviation backed_run := (fun (_ : Dest) tr => always backed tr).
Lemma neutral_backed e tr : neutral e -> backed tr e.
Proof. by destruct e as [[| | |? ? ? ? ? ? ? [] ?] ?| | | | | | | | | | | | | | | | | | | | |]. Qed.
Lemma writing_backed e tr : writing e -> backed tr e.
Proof. by destruct e as [|[]| | |[] ? ?| | | | | | | | | | | | | | | | |]. Qed.

Lemma verified_more tr e : no_rows e -> verified tr -> verified (tr ++ [e]).
Proof.
  intros (H5 & H6 & H7 & H8) (cols & Hp & He & Hc & Ha). exists cols.
  rewrite delivered_snoc, confirmed_snoc, H5, H6, app_nil_r, Z.add_0_r. split_and!; [done|by apply seen_snoc|done|].
  unfold arrived in *. by rewrite copied_snoc, inserted_snoc, H7, H8, !app_nil_r.
Qed.
(** All is written and read, and everything so far was backed. *)
Definition settled (n : Z) (d : Dest) (tr : list Event) : Prop :=
  always backed tr /\ verified tr /\ d_acked d = confirmed tr /\ n = Z.of_nat (List.length (delivered tr))
  /\ match d_prepared d with Some p => plan_shape (pr_plan p) | None => False end.
Lemma settled_log n d tr e : no_rows e -> backed tr e -> settled n d tr -> settled n d (tr ++ [e]).
Proof.
  intros Hn He (Hb & Hv & Ha & Hl & Hs). pose proof Hn as (H5 & H6 & _). split_and!; [by apply always_snoc|by apply verified_more| | |done].
  - by rewrite confirmed_snoc, H6, Z.add_0_r.
  - by rewrite delivered_snoc, H5, app_nil_r.
Qed.
Lemma settled_modify {E} n f : (forall d, d_prepared (f d) = d_prepared d /\ d_acked (f d) = d_acked d) -> keeps (settled n) (modify f : M E unit).
Proof.
  intros Hf. apply keeps_modify. intros d tr (Hb & Hv & Ha & Hl & Hs). destruct (Hf d) as [E1 E2]. unfold settled. by rewrite E1, E2.
Qed.
Lemma settled_emit n e : (forall a b c d q s w k, e <> OutDone a b c d q s w true k) -> keeps (settled n) (@emit _ S env e).
Proof.
  intros He. unfold emit. keeps_solve. apply keeps_ask. intros a d' tr. apply settled_log; [done|].
  destruct e as [| | |? ? ? ? ? ? ? [] ?]; try done. by edestruct He.
Qed.
Lemma settled_engine n s : keeps (settled n) (@engine _ S env s).
Proof.
  unfold engine. keeps_solve. apply keeps_ask. intros a d tr Hj. apply settled_log; [done| |done]. destruct s; try done. apply Hj.
Qed.
Lemma settled_statement n why p : keeps (settled n) (statement why p).
Proof.
  intros w r w' Hb Hj. unfold TransferRun.statement in Hb.
  apply bind_cases in Hb as [(e & [=] & _)|(d & w1 & [= <- <-] & Hb)].
  destruct (d_prepared (w_dest w)) as [pr|] eqn:Hp; [|by injection Hb as <- <-].
  apply bind_cases in Hb as [(e & Hb & _)|(dc & w2 & Hdc & Hb)]; [by eapply (keeps_decide (settled n))|].
  assert (Hj2 : settled n (w_dest w2) (w_trace w2)) by (by eapply (keeps_decide (settled n))).
  assert (Hw2 : w_dest w2 = w_dest w).
  { unfold TransferRun.decide in Hdc. destruct (allow _ _ _ _ _) as [[? ?] [?|]]; [done|]. by injection Hdc as <- <-. }
  apply bind_cases in Hb as [(e & [=] & _)|([] & w3 & [= <-] & Hb)].
  match goal with _ : ?m ?w0 = (r, w') |- _ => assert (Hk : keeps (settled n) m) end.
  { keeps_solve. apply keeps_ask. intros a d' tr Hj'. apply settled_log; [done| |done]. destruct why; try done; apply Hj'. }
  eapply Hk; [exact Hb|]. cbn. destruct Hj2 as (Hb2 & Hv & Ha & Hl & Hs). split_and!; try done. cbn. by rewrite Hw2, Hp in Hs.
Qed.
Lemma settled_abort n : keeps (settled n) abort.
Proof.
  apply whole_abort.
  - intros e d tr He. apply settled_log; [by apply neutral_no_rows|by apply neutral_backed].
  - intros d tr (Hb & Hv & Ha & Hl & Hs). by split_and!.
  - intros a d tr _. by apply settled_log.
  - unfold TransferRun.clean_up. keeps_solve. apply keeps_ask. intros a d' tr. by apply settled_log.
Qed.
Lemma settled_swap n : keeps (settled n) swap.
Proof.
  assert (Hs : forall ps, keeps (settled n) (swap_statements ps)).
  { intros ps. induction ps as [|p ps IH]; cbn; [apply hold_ret|]. apply hold_bind; [apply settled_statement|done]. }
  unfold TransferRun.swap. keeps_solve; first [apply Hs | apply settled_statement | apply settled_engine | by apply settled_modify].
Qed.
Lemma swap_publishes n (w : World) ws w' : settled n (w_dest w) (w_trace w) -> swap w = (inr ws, w') -> published (w_trace w').
Proof.
  intros (_ & _ & _ & _ & Hsh) Hb. unfold TransferRun.swap in Hb. apply bind_cases in Hb as [(e & [=] & _)|(d & w1 & [= <- <-] & Hb)].
  destruct (d_prepared (w_dest w)) as [pr|]; [|done].
  apply bind_cases in Hb as [(e & _ & [=])|([] & w2 & Hb1 & Hb)].
  apply bind_cases in Hb as [(e & _ & [=])|([] & w3 & Hb2 & Hb)].
  assert (Hpub : published (w_trace w3)).
  { unfold published, plan_shape in *. destruct (su_target setup).
    - unfold engine, bind, ask, log, or_fail, modify in Hb2. cbn in Hb2. destruct (finish_statement _ _ _); [done|]. injection Hb2 as <-.
      apply elem_of_snoc_self.
    - injection Hb2 as <-. destruct Hsh as [[p Hp] _]. rewrite Hp in Hb1. cbn [TransferRun.swap_statements] in Hb1.
      apply bind_cases in Hb1 as [(e & _ & [=])|([] & w4 & Hb1 & [= <-])]. exists p.
      unfold TransferRun.statement in Hb1. apply bind_cases in Hb1 as [(e & [=] & _)|(d & w5 & [= <- <-] & Hb1)].
      destruct (d_prepared (w_dest w)) as [pr2|]; [|done].
      apply bind_cases in Hb1 as [(e & _ & [=])|(dc & w5 & _ & Hb1)].
      apply bind_cases in Hb1 as [(e & _ & [=])|([] & w6 & _ & Hb1)].
      unfold bind, ask, log, or_fail in Hb1. destruct (finish_statement _ _ _); [done|]. injection Hb1 as <-. apply elem_of_snoc_self. }
  assert (Hk : forall x, keeps (seen x) (bind (modify (set_created false)) (fun _ => match wp_drop_old (pr_plan pr) with
    | Some drop_old => bind (attempt (statement ForDropOld drop_old)) (fun r => ret (match r with
        | inl e => [B "the new table is in place, and the old one is kept as " ++ backup_label (pr_plan pr) (su_stamp setup) ++ B ": " ++ run_message e]
        | inr _ => [] end))
    | None => ret [] end) : Run (list bytes))).
  { intros x. keeps_solve. by apply keeps_modify. }
  unfold published in *. destruct (su_target setup); [by eapply Hk|]. destruct Hpub as [p Hp]. exists p. by eapply Hk.
Qed.

Lemma conclude_backed n q (w : World) r w' : conclude n q w = (r, w') -> settled n (w_dest w) (w_trace w) -> always backed (w_trace w').
Proof.
  intros Hb Hj. unfold TransferRun.conclude in Hb.
  assert (Hk : forall r (w w' : World) (m : Run unit), keeps (settled n) m -> m w = (r, w') -> settled n (w_dest w) (w_trace w) -> always backed (w_trace w')).
  { intros r1 w1 w2 m Hm Hr Hs. by eapply Hm. }
  assert (Hq : forall e, keeps (settled n) (abort_quietly e : Run unit)).
  { intros e. unfold TransferRun.abort_quietly. keeps_solve. apply settled_abort. }
  assert (Hw : forall {A} ws e, keeps (settled n) (abort_with ws e : Run A)).
  { intros A ws e. unfold TransferRun.abort_with. keeps_solve. apply settled_abort. }
  apply bind_cases in Hb as [(e & Hb & _)|([] & w1 & Hb & Hb2)].
  { eapply Hk; [|exact Hb|exact Hj]. unfold step. keeps_solve; first [apply Hq | by apply settled_emit]. }
  assert (Hj1 : settled n (w_dest w1) (w_trace w1)).
  { revert Hb. refine (fun Hb => (_ : keeps (settled n) _) _ _ _ Hb Hj). unfold step. keeps_solve; first [apply Hq | by apply settled_emit]. }
  clear Hj Hb. apply bind_cases in Hb2 as [(e & [=] & _)|(d & w2 & [= <- <-] & Hb)].
  destruct (negb _); [by eapply Hk; [apply Hw|exact Hb|]|].
  apply bind_cases in Hb as [(e & Hb & _)|([] & w2 & Hb & Hb2)].
  { eapply Hk; [|exact Hb|exact Hj1]. unfold step. keeps_solve; first [apply Hq | by apply settled_emit]. }
  assert (Hj2 : settled n (w_dest w2) (w_trace w2)).
  { revert Hb. refine (fun Hb => (_ : keeps (settled n) _) _ _ _ Hb Hj1). unfold step. keeps_solve; first [apply Hq | by apply settled_emit]. }
  clear Hj1 Hb. apply bind_cases in Hb2 as [(e & Hb & _)|(ws & w3 & Hb & Hb2)].
  - apply or_else_recovered in Hb as [(x & _ & [=])|(e1 & w3 & Hm & Hb)].
    apply bind_cases in Hm as [(e2 & Hm & _)|(? & ? & _ & [=])]. apply (settled_swap n) in Hm; specialize (Hm Hj2).
    by apply (Hw _ _ _ _ _ _ Hb Hm).
  - apply or_else_recovered in Hb as [(x & Hm & _)|(e1 & w4 & _ & Hb)].
    2:{ unfold TransferRun.abort_with in Hb. by apply bind_cases in Hb as [(? & ? & ?)|(? & ? & _ & ?)]. }
    apply bind_cases in Hm as [(e2 & _ & [=])|(more & w4 & Hm & [= <- <-])].
    pose proof (swap_publishes n _ _ _ Hj2 Hm) as Hpub. apply (settled_swap n) in Hm; specialize (Hm Hj2).
    unfold close_dest, bind, get, ask, emit, log, or_fail, ret, fail in Hb2. cbn -[an_out] in Hb2.
    match type of Hb2 with context [EvOut ?e ?a] => assert (Hw4 : w_trace w' = (w_trace w4 ++ [EvDestClosed]) ++ [EvOut e a]) end.
    { destruct (an_out _ _ _); by injection Hb2 as _ <-. }
    rewrite Hw4. destruct Hm as (Hbk & Hv & Ha & Hl & Hsh).
    apply always_snoc; [by apply always_snoc|]. cbn. split_and!; [by apply verified_more| |done| |].
    + unfold published in *. destruct (su_target setup); [by apply seen_snoc|]. destruct Hpub as [p Hp]. exists p. by apply seen_snoc.
    + destruct Hv as (cols & _ & _ & Hc & _). by rewrite Ha, Hc.
    + by rewrite delivered_snoc, app_nil_r.
Qed.

(** Each part of the run keeps the ready point behind the events that need it. *)
Lemma backed_neutral e (d : Dest) tr : neutral e -> always backed tr -> always backed (tr ++ [e]).
Proof. intros He Ha. apply always_snoc; [done|by apply neutral_backed]. Qed.
Lemma backed_writing e tr : writing e -> always backed tr -> always backed (tr ++ [e]).
Proof. intros He Ha. apply always_snoc; [done|by apply writing_backed]. Qed.
Lemma backed_clean_up : keeps backed_run clean_up.
Proof. pose proof backed_neutral. pose proof backed_writing. by apply traced_clean_up. Qed.
Lemma backed_abort : keeps backed_run abort.
Proof. pose proof backed_neutral. apply whole_abort; try done; [|apply backed_clean_up]. intros a d tr _ Ha. by apply backed_writing. Qed.
Lemma backed_before_live : keeps backed_run before_live.
Proof.
  pose proof backed_neutral. apply whole_before_live; try done.
  - intros s Hs. apply (traced_engine (always backed)); [exact backed_writing|]. intros ->.
    by repeat (apply elem_of_cons in Hs as [?|Hs]; [done|]); apply elem_of_nil in Hs.
  - intros a d tr _ Ha. by apply backed_writing.
  - apply backed_clean_up.
  - apply whole_open_source; [done|]. intros a d tr Ha. by apply always_snoc.
Qed.
Lemma backed_live fuel (w : World) e w' : live_range fuel w = Some (e, w') -> always backed (w_trace w) -> always backed (w_trace w').
Proof.
  pose proof backed_neutral. pose proof backed_writing. intros Hl Hb. eapply (whole_live backed_run); [..|exact Hl|exact Hb]; try done.
  - intros a d tr Ha. by apply always_snoc.
  - by apply traced_close_window.
  - by apply traced_append.
  - by apply traced_flush_all.
  - intros tp _. by apply traced_begin.
Qed.
Lemma backed_finish_source b : keeps backed_run (@finish_source _ S env b).
Proof. unfold finish_source. keeps_solve; apply keeps_ask; intros a d tr Ha; by apply always_snoc. Qed.
(** The source's end is the ready point: nothing waits, and the server has every row. *)
Lemma finished_settled fuel (w : World) n w' : untouched [] (w_dest w) (w_trace w) -> flagged (w_dest w) (w_trace w) ->
  always backed (w_trace w) -> live_range fuel w = Some (Finished n, w') -> settled n (w_dest w') (w_trace w').
Proof.
  intros Hu Hf Hb Hl. pose proof (flagged_live _ _ _ _ Hl Hf) as Hf2. pose proof (backed_live _ _ _ _ Hl Hb) as Hb2.
  apply live_range_finished in Hl as (cols & Hp & Hwr & Hwa & Hrows & Hend & Harr); [|done].
  destruct Hwr as [[p [Hpr _]] Hd Ha Hc _]. split_and!; try done.
  - exists cols. split_and!; try done. lia.
  - destruct Hf2 as ((_ & Hdec) & _). rewrite Hpr in *. apply Hdec.
Qed.
(** What follows the live range. *)
Lemma backed_after_live e (w : World) r w' : (if e is Finished n then settled n (w_dest w) (w_trace w) else always backed (w_trace w)) ->
  after_live e w = (r, w') -> always backed (w_trace w').
Proof.
  intros Hb Ht. unfold TransferRun.after_live in Ht. apply bind_cases in Ht as [(? & [=] & _)|(q & w3 & [= <- <-] & Ht)].
  assert (Hem : forall e, plain e -> keeps backed_run (@emit _ S env e)) by (intros; apply whole_emit; [exact backed_neutral|done]).
  destruct e as [n|n|e]; (apply bind_cases in Ht as [(? & Ht & _)|(ws & w3 & Hs & Ht)]; [unfold finish_source, bind, ask, peek, ret in Ht; done|]).
  - eapply conclude_backed; [exact Ht|]. revert Hb. refine ((_ : keeps (settled n) _) _ _ _ Hs). unfold finish_source.
    keeps_solve; apply keeps_ask; intros a d tr; by apply settled_log.
  - apply backed_finish_source in Hs; specialize (Hs Hb). eapply (fun k => k : keeps backed_run _); [|exact Ht|exact Hs].
    apply hold_bind; [exact backed_abort|]. intros. by apply Hem.
  - apply backed_finish_source in Hs; specialize (Hs Hb). eapply (fun k => k : keeps backed_run _); [|exact Ht|exact Hs].
    unfold TransferRun.abort_with. apply hold_bind; [exact backed_abort|]. intros. apply keeps_fail.
Qed.

(** C11: The table takes its name last. A COMMIT, a statement that renames the new table into place, the
    drop of the old one, and a [done] that says the table is verified each come after the source
    has said it has no more rows, with every row it gave at the destination in its order, written
    as the planned columns are written (what [COPY] reads back from the text sent, or the bound
    parameters of the [INSERT]s), and acknowledged by the server's own counts; the [done] comes
    after the COMMIT or the rename was answered, and its counts are the rows of the source. *)
Theorem table_takes_its_name_last fuel sink r (w : World) pre e post :
  transfer fuel (start sink) = Some (r, w) -> w_trace w = pre ++ e :: post -> backed pre e.
Proof.
  intros Ht. cut (always backed (w_trace w)); [by intros Ha; apply Ha|]. unfold TransferRun.transfer in Ht.
  destruct (before_live (start sink)) as [[e1|[]] w1] eqn:Hb.
  - injection Ht as <- <-. eapply backed_before_live; [exact Hb|]. apply always_nil.
  - pose proof (untouched_before_live [] _ _ _ Hb (start_untouched sink)) as Hu1.
    assert (Hf1 : flagged (w_dest w1) (w_trace w1)) by (eapply flagged_start; [|exact Hb]; by split_and!; [constructor|..]).
    apply backed_before_live in Hb; specialize (Hb (always_nil _)).
    destruct (live_range fuel w1) as [[e2 w2]|] eqn:Hl; [|done]. injection Ht as Ht.
    eapply backed_after_live; [|exact Ht]. destruct e2; [by eapply finished_settled|by eapply backed_live..].
  - injection Ht as Ht. apply backed_before_live in Hb; specialize (Hb (always_nil _)).
    eapply (fun k => k : keeps backed_run _); [|exact Ht|exact Hb]. unfold close_dest, finish_stopped.
    apply hold_bind; [apply keeps_ask; intros a d tr; by apply backed_neutral|]. intros.
    apply whole_emit; [exact backed_neutral|done].
Qed.

(** *** The run ends *)

Definition fetched (tr : list Event) : nat := List.length (List.filter (fun e => match e with EvNext _ => true | _ => false end) tr).
Arguments fetched _ : simpl never.
Lemma fetched_snoc tr e : fetched (tr ++ [e]) = fetched tr + match e with EvNext _ => 1 | _ => 0 end.
Proof. unfold fetched. rewrite List.filter_app, length_app. by destruct e. Qed.
(** After [n] answers the source gives no more batches. *)
Definition source_ends (n : nat) : Prop := forall tr b, n <= fetched tr -> an_next env tr <> GAnswer (inr (Some b)).
Abbreviation at_least k := (fun (_ : Dest) tr => k <= fetched tr).
Lemma at_least_snoc k e tr : k <= fetched tr -> k <= fetched (tr ++ [e]).
Proof. rewrite fetched_snoc. lia. Qed.

Section Ends.
Context (n : nat) (ends : source_ends n).
Lemma fetched_fetch k b (w : World) w' : fetch env k w = (inr (Some b), w') ->
  fetched (w_trace w) < fetched (w_trace w') <= n.
Proof using ends.
  intros Hb. unfold fetch in Hb. apply bind_cases in Hb as [(e & [=] & _)|(d & w1 & [= <- <-] & Hb)].
  apply bind_cases in Hb as [(e & _ & [=])|([] & w1 & Hb & Hb2)].
  assert (Hge : fetched (w_trace w) <= fetched (w_trace w1)).
  { revert Hb. refine (fun Hb => (_ : keeps (at_least (fetched (w_trace w))) _) _ _ _ Hb (le_n _)). unfold live.
    keeps_solve; [apply keeps_ask; intros; by apply at_least_snoc|]. apply traced_close_window. intros. by apply at_least_snoc. }
  apply bind_cases in Hb2 as [(e & _ & [=])|(got & w2 & [= <- <-] & Hb2)].
  destruct (an_next env (w_trace w1)) as [|r] eqn:Hnext; [by apply bind_cases in Hb2 as [(e & _ & [=])|(? & ? & _ & ?)]|].
  apply bind_cases in Hb2 as [(e & _ & [=])|(got & w2 & [= <- <-] & Hb2)].
  destruct r as [m|b']; [done|]. injection Hb2 as -> <-. cbn. rewrite fetched_snoc.
  assert (fetched (w_trace w1) < n); [|lia]. destruct (Nat.lt_ge_cases (fetched (w_trace w1)) n) as [|Hle]; [done|].
  by destruct (ends _ b Hle).
Qed.
Definition turns_left (sw : LoopState * World) : nat :=
  if lp_ended sw.1 then 0 else Datatypes.S (n - fetched (w_trace sw.2)).
Lemma turn_shrinks sw sw' : live_body sw = inl sw' -> turns_left sw' < turns_left sw.
Proof using ends.
  destruct sw as [s w], sw' as [s' w']. unfold TransferRun.live_body. cbn.
  destruct (live_turn s w) as [[e|[s1|k]] w1] eqn:Ht; [done| |done]. intros [= -> ->].
  unfold TransferRun.live_turn in Ht. apply bind_cases in Ht as [(e & _ & [=])|(k & w2 & Hb & Ht)].
  assert (Hge : fetched (w_trace w) <= fetched (w_trace w2)).
  { revert Hb. refine (fun Hb => (_ : keeps (at_least (fetched (w_trace w))) _) _ _ _ Hb (le_n _)).
    destruct (lp_next s); [|apply hold_ret]. apply whole_write_rows; [intros; by apply at_least_snoc|].
    intros. apply traced_append. intros. by apply at_least_snoc. }
  destruct (lp_ended s) eqn:He; [done|]. apply bind_cases in Ht as [(e & _ & [=])|([] & w3 & Hb2 & Ht)].
  assert (Hge2 : fetched (w_trace w2) <= fetched (w_trace w3)).
  { revert Hb2. refine (fun Hb => (_ : keeps (at_least (fetched (w_trace w2))) _) _ _ _ Hb (le_n _)). unfold stop_asked.
    keeps_solve. apply keeps_ask. intros. by apply at_least_snoc. }
  apply bind_cases in Ht as [(e & _ & [=])|(next & w4 & Hf & Ht)].
  destruct next as [b|]; injection Ht as <- <-; unfold turns_left; cbn; rewrite He; [|lia].
  apply fetched_fetch in Hf. lia.
Qed.
Lemma turns_left_bound s (w : World) : turns_left (s, w) <= Datatypes.S n.
Proof using. unfold turns_left. destruct (lp_ended _); lia. Qed.

(** C15: The run ends with an answer whatever the destination, the timers and a Stop do, when the source
    stops giving batches after [n] of them: fuel for two turns more than that is enough. *)
Theorem transfer_terminates fuel sink : n + 2 <= fuel -> exists r (w : World), transfer fuel (start sink) = Some (r, w).
Proof using ends.
  intros Hfuel. unfold TransferRun.transfer. destruct (before_live (start sink)) as [[e|[]] w]; [by eauto| |by destruct (bind _ _ _); eauto].
  unfold TransferRun.live_range. destruct (live_start w) as [[e|s] w1]; [by destruct (after_live _ _); eauto|].
  destruct (iter_total live_body turns_left turn_shrinks fuel (s, w1)) as [[[e|k] w2] Hi].
  { pose proof (turns_left_bound s w1). lia. }
  - rewrite Hi. by destruct (after_live _ _); eauto.
  - rewrite Hi. destruct (flush_all w2) as [[e|[]] w3]; by destruct (after_live _ _); eauto.
Qed.
End Ends.
End Spec.

(** ** Witnesses

    A MySQL query of two rows, in one batch, becomes a new PostgreSQL table. *)

#[local] Existing Instances plain_float plain_encoding ascii_unicode.
#[local] Instance toy_log : ExecutionStore Storage := storage_store toy_hash toy_payload.
Definition sample_answers : Answers :=
  {| an_out _ _ := None;
     an_execute _ _ _ := inr (MkCursor [[[VNull]]] None (Some 0%Z));
     an_in_time _ := true; an_copy_in _ _ := None; an_send _ _ := None; an_finish _ := inr 2%Z; an_timer _ := false;
     an_next tr := GAnswer (inr (if fetched tr =? 0 then Some [[VInt 1; VInt 2]; [VText (B "x\y"); VNull]] else None));
     an_open _ := None; an_read_only _ := None; an_source_set _ _ := None; an_query _ := Some None;
     an_stop _ := false; an_report _ := false; an_columns _ := [B "id"; B "name"];
     an_types _ := Some [sql_of BInt32; sql_of BText]; an_query_id _ := None; an_cancelled _ := true |}.
Definition sample_setup : RunSetup :=
  MkSetup DMysql DPostgres TPostgres (B "public") (B "people") Postgres [(FUser, MConfirm)] true TCreate
    (MkKnobs 1000 50000 67108864 1000 15000000000 250) (B "ab").
Definition sample_run : option ((RunError + unit) * @World _ Storage) :=
  transfer (fun _ : Storage => 0%Z) [] sample_answers sample_setup 3 (start None).
Definition sample_world : @World _ Storage := match sample_run with Some (_, w) => w | None => start None end.
Lemma sample_runs : transfer (fun _ : Storage => 0%Z) [] sample_answers sample_setup 3 (start None) = Some (inr tt, sample_world).
Proof. vm_compute. reflexivity. Qed.

(** The COMMIT and what was before it; the run's last events are the COMMIT, the close and the [done]. *)
Definition before_commit : list Event := take (List.length (w_trace sample_world) - 3) (w_trace sample_world).
Lemma sample_commits : exists post, w_trace sample_world = before_commit ++ EvEngine Commit_ None :: post.
Proof. vm_compute. eexists. reflexivity. Qed.
Lemma table_takes_its_name_last_witness :
  verified sample_setup before_commit
  /\ copied before_commit = B "1" ++ [9%Z] ++ B "x\\y" ++ [LF] ++ B "2" ++ [9%Z] ++ B "\N" ++ [LF].
Proof.
  split; [|vm_compute; reflexivity]. destruct sample_commits as [post Hp].
  change (backed sample_setup before_commit (EvEngine Commit_ None)).
  pose proof (table_takes_its_name_last (fun _ : Storage => 0%Z) [] sample_answers sample_setup 3 None (inr tt) sample_world before_commit (EvEngine Commit_ None)
           post) as Ht.
  exact (Ht sample_runs Hp).
Defined.
Lemma every_written_statement_was_decided_witness :
  may_send (decider_new [(FUser, MConfirm)] true Postgres) (ddl_of (B "CREATE TABLE public.people (id integer, name text)")).
Proof.
  refine (every_written_statement_was_decided (fun _ : Storage => 0%Z) [] sample_answers sample_setup 3 None (inr tt) sample_world
            (EvWritten ForCreate (ddl_of (B "CREATE TABLE public.people (id integer, name text)")) None) sample_runs _).
  vm_compute. in_list.
Defined.
Lemma source_is_read_only_and_cancelled_before_it_is_dropped_witness :
  exists pre, source_ready sample_setup pre (EvQuery (Some None)) /\ EvSourceOpen None ∈ pre.
Proof.
  assert (Hq : exists post, w_trace sample_world = take 5 (w_trace sample_world) ++ EvQuery (Some None) :: post)
    by (vm_compute; eexists; reflexivity).
  destruct Hq as [post Hp]. exists (take 5 (w_trace sample_world)). split; [|vm_compute; in_list].
  exact (source_is_read_only_and_cancelled_before_it_is_dropped (fun _ : Storage => 0%Z) [] sample_answers sample_setup 3 None (inr tt) sample_world _ _ _
           sample_runs Hp).
Defined.

(** The same to MySQL, stopped while it is written: the scratch is dropped. *)
Definition stopped_answers : Answers :=
  {| an_out _ _ := None;
     an_execute _ _ _ := inr (MkCursor [[[VInt 0]]] None (Some 0%Z));
     an_in_time _ := true; an_copy_in _ _ := None; an_send _ _ := None; an_finish _ := inr 2%Z; an_timer _ := false;
     an_next tr := GAnswer (inr (if fetched tr =? 0 then Some [[VInt 1; VInt 2]; [VText (B "x\y"); VNull]] else None));
     an_open _ := None; an_read_only _ := None; an_source_set _ _ := None; an_query _ := Some None;
     an_stop _ := true; an_report _ := false; an_columns _ := [B "id"; B "name"];
     an_types _ := Some [sql_of BInt32; sql_of BText]; an_query_id _ := None; an_cancelled _ := true |}.
Definition stopped_setup : RunSetup :=
  MkSetup DPostgres DMysql TMysql (B "shop") (B "people") Mysql [(FUser, MFull)] false TReplace (MkKnobs 1000 50000 67108864 1000 15000000000 250) (B "ab").
Definition stopped_run : option ((RunError + unit) * @World _ Storage) :=
  transfer (fun _ : Storage => 0%Z) [] stopped_answers stopped_setup 3 (start None).
Definition stopped_world : @World _ Storage := match stopped_run with Some (_, w) => w | None => start None end.
Lemma run_leaves_nothing_open_witness :
  closed stopped_setup (w_trace stopped_world)
  /\ EvWritten ForCleanUp (ddl_of (B "DROP TABLE IF EXISTS shop.qh_new_ab")) None ∈ w_trace stopped_world.
Proof.
  assert (Hr : transfer (fun _ : Storage => 0%Z) [] stopped_answers stopped_setup 3 (start None) = Some (inr tt, stopped_world)) by (vm_compute; reflexivity). split; [|vm_compute; in_list].
  exact (run_leaves_nothing_open (fun _ : Storage => 0%Z) [] stopped_answers stopped_setup 3 None (inr tt) stopped_world Hr).
Defined.
Lemma transfer_terminates_witness : exists r (w : @World _ Storage),
  transfer (fun _ : Storage => 0%Z) [] sample_answers sample_setup 3 (start None) = Some (r, w).
Proof.
  apply (transfer_terminates (fun _ : Storage => 0%Z) [] sample_answers sample_setup 1); [|lia].
  intros tr b Hb. cbn. destruct (fetched tr =? 0) eqn:E; [|done]. apply Nat.eqb_eq in E. lia.
Defined.
