(* ===== verification/TransferSetup.v ===== *)
(** * TransferSetup: what a transfer decides before the network, [setup] and [Knobs::read] of
    [crates/qh-ffi/src/transfer/mod.rs].

    The source statement is one statement and a read, the target's name is one its server keeps, and
    the destination's floor lets the plan through. The kind of a connection ([config::build]),
    whether its driver can write, and the file of [SQL_PATH] are parameters. *)
From stdpp Require Import gmap.
From S2P Require Import Prelude Bytes Text Scan Ident Script Classify ClassifySpec Wrap ExecLog Env Guard GuardSpec Lease.
From S2P Require Import Value SqlType Names Types TypesSpec TransferPlan TransferRun.

Definition SOURCE_ONLY : string := "Save to Table across connections reads the source and nothing else".
Definition FETCH_ROWS : Z := 1000.
Definition COPY_ROWS : Z := 50000.
Definition COPY_BYTES : Z := 64 * 1024 * 1024.
Definition BATCH_ROWS : Z := 1000.
Definition PROGRESS_MS_DEFAULT : Z := 250.
Definition WINDOW_CEILING : Z := 15000000000.

Definition setting_error_text (e : SettingError) : bytes :=
  match e with
  | NotANumber key value => key ++ B " must be a whole number, got '" ++ value ++ B "'"
  | Negative key value => key ++ B " cannot be negative, got '" ++ decimal value ++ B "'"
  end.
Definition setting {A} (r : SettingError + A) : RunError + A :=
  match r with inl e => inl (RSetting (setting_error_text e)) | inr x => inr x end.

(** [statement_timeout], in nanoseconds. *)
Definition statement_timeout (s : Settings) : RunError + option Z :=
  match setting (non_negative s (B "STATEMENT_TIMEOUT_MS") 0) with
  | inl e => inl e
  | inr ms => inr (if (0 <? ms)%Z then Some (ms * 1000000)%Z else None)
  end.

(** [Knobs::read]. *)
Definition positive (s : Settings) (key : bytes) (default : Z) : RunError + Z :=
  match setting (number s key default) with
  | inl e => inl e
  | inr n => if (0 <? n)%Z then inr n else inl (RUsage (key ++ B " must be a positive number"))
  end.
Definition window_of (dest_timeout : option Z) : Z :=
  Z.max (match dest_timeout with Some bound => Z.min (bound / 4) WINDOW_CEILING | None => WINDOW_CEILING end) 1000000.
Local Notation "'let?' x := e 'in' k" := (match e with inl err => inl err | inr x => k end) (at level 10, x name, e at level 100, k at level 200).
Definition knobs_read (s : Settings) (dest_timeout : option Z) : RunError + Knobs :=
  let? fetch := positive s (B "TRANSFER_FETCH_ROWS") FETCH_ROWS in
  let? rows := positive s (B "TRANSFER_COPY_ROWS") COPY_ROWS in
  let? size := positive s (B "TRANSFER_COPY_BYTES") COPY_BYTES in
  let? batch := positive s (B "TRANSFER_BATCH_ROWS") BATCH_ROWS in
  let? progress := setting (number s (B "PROGRESS_MS") PROGRESS_MS_DEFAULT) in
  inr (MkKnobs fetch rows size batch (window_of dest_timeout) progress).

Section Setup.
Context `{Unicode} {S : Type} `{ExecutionStore S}.
Variable now_millis : S -> Z.
Variable storage_message : bytes.
(** The kind [config::build] gives a connection, or its error; whether a driver cannot write; the
    text of a file, or the path as it is shown and the error. *)
Variable connection : Settings -> bytes + DriverKind.
Variable driver_read_only : DriverKind -> bool.
Variable read_file : bytes -> (bytes * bytes) + bytes.

Definition dialect (s : Settings) : Dialect := match connection s with inr kind => dialect_of kind | inl _ => Generic end.
Definition source_sql (s : Settings) : RunError + bytes :=
  let sql := raw s (B "SQL") [] in
  if negb (is_blank (trim sql)) then inr sql
  else
    let path := setting_text s (B "SQL_PATH") [] in
    if is_blank path then inl (RUsage (B "SQL or SQL_PATH is required"))
    else match read_file path with
         | inr text => inr text
         | inl (shown, e) => inl (RUsage (B "cannot read SQL_PATH '" ++ shown ++ B "': " ++ e))
         end.
Definition cli (e : CliError) : RunError := match e with Usage m => RUsage m | StorageFailed => RStorage storage_message end.
Definition of_cli {A} (r : CliError + A) : RunError + A := match r with inl e => inl (cli e) | inr x => inr x end.
Definition sided {A} (side : ErrorSide) (r : RunError + A) : RunError + A := match r with inl e => inl (on side e) | inr x => inr x end.

Definition SETTINGS_NEEDED (t : Target) : string := match t with TPostgres => "TARGET_SCHEMA" | TMysql => "TARGET_CATALOG" end.
Definition namespace_label (t : Target) : string := match t with TPostgres => "schema" | TMysql => "database" end.
(** The target's name: both parts are there, and the server keeps each. *)
Definition check_part (t : Target) (part : bytes) (label : string) : RunError + unit :=
  match check t part with
  | Some e => inl (RUsage (B "the destination " ++ B label ++ B " name " ++ debug part ++ B " " ++ name_error_text e))
  | None => inr tt
  end.
Definition target_name (s : Settings) (t : Target) : RunError + (bytes * bytes) :=
  let namespace := setting_text s (B (SETTINGS_NEEDED t)) [] in
  let table := setting_text s (B "TARGET_TABLE") [] in
  let missing := (if is_blank namespace then [B (SETTINGS_NEEDED t)] else []) ++ (if is_blank table then [B "TARGET_TABLE"] else []) in
  match missing with
  | _ :: _ => inl (RUsage (join_sep (B " and ") missing ++ B " required to write a table"))
  | [] =>
      let? _namespace := check_part t namespace (namespace_label t) in
      let? _table := check_part t table "table" in inr (namespace, table)
  end.
(** The destination's floor, its own and the one pinned over the whole run. *)
Definition target_floor (s dest : Settings) : RunError + SafeModeFloor :=
  let? floor := sided SideTarget (of_cli (safe_mode_floor driver_read_only dest)) in
  let pinned := setting_text s (B "SAFE_MODE_FLOOR") [] in
  if is_blank pinned then inr floor
  else let? m := of_cli (parse_safe_mode pinned (B "SAFE_MODE_FLOOR")) in inr (floor_raise floor FPolicy m).

(** The source's part: its statement, and the mode it is under. *)
Definition setup_source (source : Settings) : RunError + (bytes * SafeMode) :=
  let? sql := source_sql source in
  let body := strip_terminator_dialect (trim sql) (lexer_of (dialect source)) in
  let count := List.length (statements_dialect body (lexer_of (dialect source))) in
  if negb (count =? 1) then
    inl (RUsage (B "Save to Table across connections takes exactly one statement, and this has " ++ decimal (Z.of_nat count)))
  else let? mode := sided SideSource (of_cli (safe_mode driver_read_only source)) in inr (body, mode).
(** The connections and the target, before the destination's decision. *)
Definition setup_target (s source dest : Settings) : RunError + (DriverKind * DriverKind * Target * (bytes * bytes) * SafeModeFloor * bytes) :=
  let driver r := match r with inl m => inl (RDriver m) | inr k => inr k end in
  let? source_kind := sided SideSource (driver (connection source)) in
  let? dest_kind := sided SideTarget (driver (connection dest)) in
  match target_of dest_kind with
  | None => inl (RUsage (B "a table can be saved across connections to PostgreSQL or MySQL; Trino is not a destination"))
  | Some t =>
      let? name := target_name s t in
      let? floor := target_floor s dest in
      match qualified t [name.1; name.2] with
      | inl fault => inl (RUsage (B "the destination name " ++ name_error_text (nf_error fault)))
      | inr q => inr (source_kind, dest_kind, t, name, floor, q)
      end
  end.
Definition subject_of (m : TransferMode) (qualified : bytes) : bytes :=
  match m with TCreate => B "CREATE TABLE " | TReplace => B "DROP TABLE " end ++ qualified.

(** [setup]: the log as it is left, and what was decided with the body of the source statement. *)
Definition setup (sink : option S) (s source dest : Settings) (mode : TransferMode) (stamp : bytes)
  : option S * (RunError + (bytes * RunSetup)) :=
  match setup_source source with
  | inl e => (sink, inl e)
  | inr (body, source_mode) =>
      match require_read now_millis sink (dialect source) source_mode body SOURCE_ONLY with
      | (sink, inl e) => (sink, inl (cli e))
      | (sink, inr _) =>
          match setup_target s source dest with
          | inl e => (sink, inl e)
          | inr (source_kind, dest_kind, t, name, floor, q) =>
              let confirmed := flag dest (B "SAFE_MODE_CONFIRMED") false in
              match gate now_millis storage_message sink floor confirmed (dialect dest) mode (subject_of mode q) with
              | (sink, Some e) => (sink, inl e)
              | (sink, None) =>
                  match guard_confirmed now_millis sink source_mode (safe_mode_confirmed source) body (dialect source) with
                  | (sink, inl e) => (sink, inl (cli e))
                  | (sink, inr _) =>
                      (sink,
                       let? _source_timeout := sided SideSource (statement_timeout source) in
                       let? dest_timeout := sided SideTarget (statement_timeout dest) in
                       let? knobs := knobs_read s dest_timeout in
                       inr (body, MkSetup source_kind dest_kind t name.1 name.2 (dialect dest) floor confirmed mode knobs stamp))
                  end
              end
          end
      end
  end.
End Setup.

(** ** Properties

    What holds of a transfer that passed [setup], for [TransferSetup]. *)

Section Spec.
Context `{Unicode} {S : Type} `{ExecutionStore S}.
Variable now_millis : S -> Z.
Variable storage_message : bytes.
Variable connection : Settings -> bytes + DriverKind.
Variable driver_read_only : DriverKind -> bool.
Variable read_file : bytes -> (bytes * bytes) + bytes.
Abbreviation setup := (setup now_millis storage_message connection driver_read_only read_file).

(** What is read of the source: one statement, and under every reading of its server a read. *)
Definition only_reads (source : Settings) (body : bytes) : Prop :=
  List.length (statements_dialect body (lexer_of (dialect connection source))) = 1
  /\ Forall (fun d => d_kind d = KReadOnly) (decisions_readings MReadOnly body (readings (dialect connection source))).
Definition knobs_sane (k : Knobs) : Prop :=
  (0 < fetch_rows k /\ 0 < copy_rows k /\ 0 < copy_bytes k /\ 0 < batch_rows k /\ 1000000 <= window k <= WINDOW_CEILING)%Z.

Lemma allowed_reads bs rs :
  Forall (fun d => is_allowed (d_decision d) = true) (decisions_readings MReadOnly bs rs) ->
  Forall (fun d => d_kind d = KReadOnly) (decisions_readings MReadOnly bs rs).
Proof.
  pose proof (decisions_readings_decided MReadOnly bs rs) as Hd. rewrite !Forall_forall in *. intros Ha d Hin.
  specialize (Hd _ Hin). specialize (Ha _ Hin). unfold ClassifySpec.decided in Hd. rewrite Hd in Ha. by destruct (d_kind d).
Qed.
Lemma positive_pos s key default n : positive s key default = inr n -> (0 < n)%Z.
Proof. unfold positive. destruct (setting _) as [|k]; [done|]. destruct (Z.ltb_spec 0 k); [|done]. by intros [= <-]. Qed.
Lemma window_bounds o : (1000000 <= window_of o <= WINDOW_CEILING)%Z.
Proof. unfold window_of, WINDOW_CEILING. destruct o; lia. Qed.
Lemma knobs_read_sane s o k : knobs_read s o = inr k -> knobs_sane k /\ window k = window_of o.
Proof.
  unfold knobs_read. destruct (positive s (B "TRANSFER_FETCH_ROWS") _) as [|a] eqn:Ha; [done|].
  destruct (positive s (B "TRANSFER_COPY_ROWS") _) as [|b] eqn:Hb; [done|].
  destruct (positive s (B "TRANSFER_COPY_BYTES") _) as [|c] eqn:Hc; [done|].
  destruct (positive s (B "TRANSFER_BATCH_ROWS") _) as [|d] eqn:Hd; [done|]. destruct (setting _) as [|e]; [done|]. intros [= <-].
  apply positive_pos in Ha, Hb, Hc, Hd. split; [|done]. unfold knobs_sane. cbn. pose proof (window_bounds o). lia.
Qed.
Lemma target_name_kept s t name : target_name s t = inr name -> check t name.1 = None /\ check t name.2 = None.
Proof.
  unfold target_name, check_part. destruct (_ ++ _) as [|]; [|done].
  destruct (check t (setting_text s (B (SETTINGS_NEEDED t)) [])) eqn:H1; [done|].
  destruct (check t (setting_text s (B "TARGET_TABLE") [])) eqn:H2; [done|]. by intros [= <-].
Qed.
(** The floor holds every entry of the destination's own, and the pinned one. *)
Definition floor_covers (s dest : Settings) (f : SafeModeFloor) : Prop :=
  (exists f0, safe_mode_floor driver_read_only dest = inr f0 /\ f0 ⊆ f)
  /\ (is_blank (setting_text s (B "SAFE_MODE_FLOOR") []) = false ->
      exists m, parse_safe_mode (setting_text s (B "SAFE_MODE_FLOOR") []) (B "SAFE_MODE_FLOOR") = inr m /\ (FPolicy, m) ∈ f).
Lemma target_floor_covers s dest f : target_floor storage_message driver_read_only s dest = inr f -> floor_covers s dest f.
Proof.
  unfold target_floor, floor_covers. destruct (safe_mode_floor driver_read_only dest) as [|f0]; [done|]. cbn -[B].
  destruct (is_blank _) eqn:Hb; [intros [= <-]; split; [by exists f0|done]|].
  destruct (parse_safe_mode _ _) as [|m]; [done|]. cbn -[B]. intros [= <-]. unfold floor_raise. split.
  - exists f0. split; [done|]. intros x Hx. apply elem_of_app. by left.
  - intros _. exists m. split; [done|]. apply elem_of_snoc_self.
Qed.
Lemma setup_target_holds s source dest r : setup_target storage_message connection driver_read_only s source dest = inr r ->
  exists source_kind dest_kind t name f q, r = (source_kind, dest_kind, t, name, f, q)
    /\ connection source = inr source_kind /\ connection dest = inr dest_kind /\ target_of dest_kind = Some t
    /\ check t name.1 = None /\ check t name.2 = None /\ floor_covers s dest f.
Proof.
  unfold setup_target. destruct (connection source) as [|sk]; [done|]. destruct (connection dest) as [|dk] eqn:Hd; [done|]. cbn -[B].
  destruct (target_of dk) as [t|] eqn:Ht; [|done]. destruct (target_name s t) as [|name] eqn:Hn; [done|].
  destruct (target_floor _ _ _ _) as [|f] eqn:Hf; [done|]. destruct (qualified _ _) as [|q]; [done|]. intros [= <-].
  apply target_name_kept in Hn as [H1 H2]. exists sk, dk, t, name, f, q. split_and!; try done. by apply target_floor_covers.
Qed.

(** Nothing is sent before all of this was decided: a transfer that passed its setup reads one
    statement that is a read under every reading of the source's server; it writes to a PostgreSQL
    or MySQL connection, under a name that server keeps in each part; the floor it is under holds
    every condition of the destination's own settings and the floor pinned over the run, and it
    lets the mode through; and its limits are positive, the window of a [COPY] between a
    millisecond and fifteen seconds. *)
Theorem setup_decides_before_the_network sink s source dest mode stamp sink' body st :
  setup sink s source dest mode stamp = (sink', inr (body, st)) ->
  only_reads source body
  /\ connection source = inr (su_source_kind st) /\ connection dest = inr (su_dest_kind st)
  /\ target_of (su_dest_kind st) = Some (su_target st)
  /\ check (su_target st) (su_namespace st) = None /\ check (su_target st) (su_table st) = None
  /\ floor_covers s dest (su_floor st)
  /\ gate_allows (su_floor st) (su_confirmed st) mode = true /\ su_mode st = mode
  /\ su_dialect st = dialect connection dest /\ knobs_sane (su_knobs st).
Proof.
  unfold TransferSetup.setup. destruct (setup_source _ _ _ _ _) as [|[b m]] eqn:Hs; [done|].
  destruct (require_read _ _ _ _ _ _) as [sink1 [|[]]] eqn:Hr; [done|].
  destruct (setup_target _ _ _ _ _ _) as [|r] eqn:Ht; [done|].
  apply setup_target_holds in Ht as (sk & dk & t & name & f & q & -> & Hsk & Hdk & Htk & Hn1 & Hn2 & Hf).
  destruct (gate _ _ _ _ _ _ _ _) as [sink2 [e|]] eqn:Hg; [done|].
  destruct (guard_confirmed _ _ _ _ _ _) as [sink3 [|[]]]; [done|].
  destruct (sided SideSource (statement_timeout source)) as [|to1]; [done|].
  destruct (sided SideTarget (statement_timeout dest)) as [|to2]; [done|].
  destruct (knobs_read s to2) as [|k] eqn:Hk; [done|]. intros [= <- <- <-]. cbn. split_and!; try done.
  - split.
    + unfold setup_source in Hs. destruct (source_sql _ _) as [|sql]; [done|].
      destruct (_ =? 1) eqn:H1; [|done]. apply Nat.eqb_eq in H1. cbn -[B] in Hs.
      destruct (sided _ _); [done|]. by injection Hs as <- _.
    + apply allowed_reads. apply (require_loop_ok now_millis sink m SOURCE_ONLY). unfold require_read in Hr. by rewrite Hr.
  - destruct (gate_table now_millis storage_message sink1 f (flag dest (B "SAFE_MODE_CONFIRMED") false) (dialect connection dest) mode
      (subject_of mode q)) as [Hgt _]. apply Hgt. by rewrite Hg.
  - by apply knobs_read_sane in Hk as [? _].
Qed.
End Spec.

#[local] Existing Instance ascii_unicode.
#[local] Instance toy_log : ExecutionStore Storage := storage_store toy_hash toy_payload.
Definition sample_connection (s : Settings) : bytes + DriverKind :=
  match driver_kind_parse (setting_text s (B "DB_KIND") []) with Some k => inr k | None => inl (B "no connection") end.
Definition sample_source : Settings := list_to_map [(B "DB_KIND", B "mysql"); (B "SQL", B "SELECT id FROM t;")].
Definition sample_dest : Settings := list_to_map [(B "DB_KIND", B "postgres"); (B "SAFE_MODE", B "confirm"); (B "SAFE_MODE_CONFIRMED", B "1")].
Definition sample_settings : Settings := list_to_map [(B "TARGET_SCHEMA", B "public"); (B "TARGET_TABLE", B "people")].
Lemma setup_decides_before_the_network_witness : exists st,
  setup (fun _ : Storage => 0%Z) [] sample_connection (fun _ => false) (fun _ => inl ([], [])) None sample_settings sample_source sample_dest TCreate (B "ab")
    = (None, inr (B "SELECT id FROM t", st))
  /\ gate_allows (su_floor st) (su_confirmed st) TCreate = true /\ knobs_sane (su_knobs st).
Proof.
  eexists (MkSetup DMysql DPostgres TPostgres (B "public") (B "people") Postgres [(FUser, MConfirm)] true TCreate
    (MkKnobs 1000 50000 67108864 1000 15000000000 250) (B "ab")).
  assert (Hr : setup (fun _ : Storage => 0%Z) [] sample_connection (fun _ => false) (fun _ => inl ([], [])) None sample_settings sample_source
    sample_dest TCreate (B "ab") = (None, inr (B "SELECT id FROM t", MkSetup DMysql DPostgres TPostgres (B "public") (B "people") Postgres
      [(FUser, MConfirm)] true TCreate (MkKnobs 1000 50000 67108864 1000 15000000000 250) (B "ab")))) by (vm_compute; reflexivity).
  split; [exact Hr|].
  pose proof (setup_decides_before_the_network _ _ _ _ _ _ _ _ _ _ _ _ _ _ Hr) as Hs.
  destruct Hs as (_ & _ & _ & _ & _ & _ & _ & Hg & _ & _ & Hk). split; [exact Hg|exact Hk].
Defined.
