(* ===== verification/Apply.v ===== *)
(** * Apply: a reviewed plan of statements run in one transaction, [crates/qh-ffi/src/apply.rs], with
    [open] of [crates/qh-ffi/src/commands.rs].

    The server and what it sends back are a state [St] with the answers of the driver's calls as its
    functions; a Stop is read off that state where the code reads the flag. *)
From S2P Require Import Prelude Bytes Text Scan Classify Env ExecLog Guard Retry Value Json Names TransferPlan TransferRun TransferSetup.
#[local] Open Scope nat_scope.

Section Apply.
Context `{Float} `{Unicode} {S : Type} `{ExecutionStore S} {St : Type}.
Variable now_millis : S -> Z.
Variable storage_message : bytes.
Variable connection : Settings -> bytes + DriverKind.
Variable driver_read_only : DriverKind -> bool.
(** [serde_json::from_str] with the text of its error, and a value printed as JSON. *)
Variable from_str : bytes -> bytes + Json.
Variable json_text : Json -> bytes.

(** ** The plan *)

Record PlannedChange := MkPlanned { ch_sql : bytes; ch_parameters : list Parameter_; ch_expected : option Z; ch_keyed : bool }.
Definition j_get (key : string) (entries : list (bytes * Json)) : option Json :=
  snd <$> find (fun e => bytes_eqb e.1 (B key)) entries.
Definition at_index (index : nat) (rest : bytes) : bytes := B "CHANGES[" ++ decimal (Z.of_nat index) ++ B "]" ++ rest.
Definition at_param (index position : nat) (rest : string) : bytes :=
  at_index index (B ".params[" ++ decimal (Z.of_nat position) ++ B "]" ++ B rest).
(** An [Option] of a text as [Debug] writes it. *)
Definition debug_option (text : option bytes) : bytes := match text with None => B "None" | Some t => B "Some(" ++ debug t ++ B ")" end.
Definition parse_parameter (index position : nat) (item : Json) : RunError + Parameter_ :=
  let usage rest := inl (RUsage (at_param index position rest)) in
  match item with
  | JObject object =>
      match j_get "type" object ≫= j_str with
      | None => usage " has no type"%string
      | Some kind =>
          match (match j_get "value" object with
                 | None | Some JNull => inr None
                 | Some (JString t) => inr (Some t)
                 | Some other => inl (RUsage (at_param index position ".value must be a string, got " ++ json_text other))
                 end) with
          | inl e => inl e
          | inr text =>
              if bytes_eqb kind (B "null") then inr PNull
              else if bytes_eqb kind (B "bool") then
                match text with
                | Some t =>
                    if bytes_eqb t (B "true") then inr (PBool true)
                    else if bytes_eqb t (B "false") then inr (PBool false)
                    else inl (RUsage (at_param index position " bool value must be true or false, got " ++ debug_option text))
                | None => inl (RUsage (at_param index position " bool value must be true or false, got " ++ debug_option text))
                end
              else if bytes_eqb kind (B "int") then
                match text ≫= parse_i64 with Some n => inr (PInt n) | None => usage " int value is not an integer"%string end
              else if bytes_eqb kind (B "uint") then
                match text ≫= parse_uint U64_MAX with Some n => inr (PUInt n) | None => usage " uint value is not an integer"%string end
              else if bytes_eqb kind (B "float") then
                match text ≫= parse_f64 with Some f => inr (PFloat f) | None => usage " float value is not a number"%string end
              else if bytes_eqb kind (B "text") then
                match text with Some t => inr (PText t) | None => usage " text value is missing"%string end
              else inl (RUsage (at_param index position " has an unknown type " ++ kind))
          end
      end
  | _ => usage " is not an object"%string
  end.
Fixpoint parse_items (index position : nat) (items : list Json) : RunError + list Parameter_ :=
  match items with
  | [] => inr []
  | item :: items =>
      match parse_parameter index position item with
      | inl e => inl e
      | inr p => match parse_items index (position + 1) items with inl e => inl e | inr ps => inr (p :: ps) end
      end
  end.
Definition parse_parameters (value : option Json) (index : nat) : RunError + list Parameter_ :=
  match value with
  | None => inr []
  | Some (JArray items) => parse_items index 0 items
  | Some _ => inl (RUsage (at_index index (B ".params must be an array")))
  end.
Definition parse_change (index : nat) (row : Json) : RunError + PlannedChange :=
  match row with
  | JObject object =>
      match j_get "sql" object ≫= j_str with
      | Some sql =>
          if is_blank (trim sql) then inl (RUsage (at_index index (B " has no sql")))
          else
            match (match j_get "expected" object with
                   | None | Some JNull => inr None
                   | Some v => match j_i64 v with Some n => inr (Some n) | None => inl (RUsage (at_index index (B ".expected is not an integer"))) end
                   end) with
            | inl e => inl e
            | inr expected =>
                let keyed := default true (j_get "keyed" object ≫= j_bool) in
                match parse_parameters (j_get "params" object) index with
                | inl e => inl e
                | inr parameters => inr (MkPlanned sql parameters expected keyed)
                end
            end
      | None => inl (RUsage (at_index index (B " has no sql")))
      end
  | _ => inl (RUsage (at_index index (B " is not an object")))
  end.
Fixpoint parse_rows (index : nat) (rows : list Json) : RunError + list PlannedChange :=
  match rows with
  | [] => inr []
  | row :: rows =>
      match parse_change index row with
      | inl e => inl e
      | inr c => match parse_rows (index + 1) rows with inl e => inl e | inr cs => inr (c :: cs) end
      end
  end.
Definition parse_changes (s : Settings) : RunError + list PlannedChange :=
  let text := raw s (B "CHANGES") [] in
  if is_blank (trim text) then inl (RUsage (B "CHANGES is required: the JSON plan of statements to apply"))
  else
    match from_str text with
    | inl e => inl (RUsage (B "CHANGES is not JSON: " ++ e))
    | inr (JArray rows) => parse_rows 0 rows
    | inr _ => inl (RUsage (B "CHANGES must be a JSON array"))
    end.

(** ** The session *)

Variable engine_connect : DriverKind -> St -> (EngineError + unit) * St.
Variable enforce_read_only : St -> option EngineError * St.
(** [execute_bound] and its cursor read to the end: the error of either, or the server's count. *)
Variable execute_bound : St -> bytes -> list Parameter_ -> option Z -> (EngineError + option Z) * St.
Variable close : St -> St.
Variable stopped : St -> bool.
Variable transactions : DriverKind -> bool.
Variable query_id : St -> option bytes.

Inductive ApplyEvent :=
  | AeStep (name : string)
  | AeProgress (rows : Z)
  | AeDone (applied : Z) (statements : list (Z * option Z * option Z)) (transaction : bool) (query_id : option bytes).
Variable emit : St -> ApplyEvent -> option bytes * St.

Definition engine_error (e : EngineError) : RunError :=
  let message := error_message e in
  match e with
  | EUsage _ => RUsage message
  | EConnect _ _ | EHostKey _ => RDriver message
  | EQuery _ _ _ _ | ETimeout _ _ => RQuery message
  | EStaleHandle | EInternal _ => RInternal message
  end.
Definition lift {A} (r : (EngineError + A) * St) : (RunError + A) * St :=
  match r with (inl e, st) => (inl (engine_error e), st) | (inr a, st) => (inr a, st) end.
Definition run_bound (st : St) (sql : bytes) (parameters : list Parameter_) (timeout : option Z) : (RunError + option Z) * St :=
  lift (execute_bound st sql parameters timeout).
Definition run (st : St) (statement : bytes) (timeout : option Z) : (RunError + option Z) * St := run_bound st statement [] timeout.
(** [open]: [None] of the retry loop is never the case, the loop ends within its attempts. *)
Definition open (s : Settings) (kind : DriverKind) (st : St) : (RunError + unit) * St :=
  match setting (policy_from_settings s) with
  | inl e => (inl e, st)
  | inr policy =>
      match retry_call (engine_connect kind) policy st with
      | None => (inr tt, st)
      | Some (inl e, st, _) => (inl (engine_error e), st)
      | Some (inr _, st, _) =>
          match of_cli storage_message (safe_mode driver_read_only s) with
          | inl e => (inl e, st)
          | inr mode =>
              match mode with
              | MReadOnly =>
                  match enforce_read_only st with
                  | (Some e, st) => (inl (engine_error e), close st)
                  | (None, st) => (inr tt, st)
                  end
              | _ => (inr tt, st)
              end
          end
      end
  end.

(** ** The run *)

Definition verification_failed (keyed : bool) (actual expected : Z) : bool :=
  if keyed then (expected <? actual)%Z else negb (actual =? expected)%Z.
(** [as i64] of a [u64]. *)
Definition wrap_i64 (n : Z) : Z := ((n + 2 ^ 63) mod 2 ^ 64 - 2 ^ 63)%Z.
Inductive Disposition := Written | PendingInSessionTransaction.
Definition disposition_str (d : Disposition) : bytes :=
  match d with Written => B "written" | PendingInSessionTransaction => B "pendingInSessionTransaction" end.
Definition disposition_of (in_transaction rolled_back : bool) : Disposition := if in_transaction && rolled_back then PendingInSessionTransaction else Written.
Definition plan_failure (engine : bytes) (in_transaction rolled_back : bool) (applied : Z) (total : nat) (cause : bytes) : RunError :=
  let d := disposition_of in_transaction rolled_back in
  let detail := match d with
                | PendingInSessionTransaction => B "the transaction was rolled back, so those rows are not in the table"
                | Written => if in_transaction then B "the transaction could not be undone cleanly, so those rows may still be in the table"
                             else B "there was no transaction to undo them"
                end in
  let advice := match d with
                | PendingInSessionTransaction => B "Fix the failing statement and run the plan again when you are ready"
                | Written => B "look at the table before doing anything else, not a retry: running the plan again would write those rows a second time"
                end in
  RWarned (B "the change plan on " ++ engine ++ B ": " ++ cause ++ B ". " ++ decimal applied ++ B " of " ++ decimal (Z.of_nat total)
           ++ B " statement(s) had completed; " ++ detail ++ B " (disposition: " ++ disposition_str d ++ B "). " ++ advice ++ B ".") [].
Definition cancelled_error (engine : bytes) (in_transaction rolled_back : bool) (applied : Z) : RunError :=
  let head := B "the change plan on " ++ engine ++ B " was cancelled before it finished; " in
  RWarned (head ++
    (if rolled_back then B "the transaction was rolled back, so none of the plan is in the table"
     else if in_transaction then
       B "the rollback did not take effect, so the " ++ decimal applied ++ B " statement(s) already written may still be in the table — look at the table before running the plan again"
     else
       B "there is no transaction to undo them, so the " ++ decimal applied ++ B " statement(s) already written are in the table — look at the table before running the plan again")) [].
Definition rollback (st : St) (in_transaction : bool) (timeout : option Z) : bool * St :=
  if in_transaction then match run st (B "ROLLBACK") timeout with (inr _, st) => (true, st) | (inl _, st) => (false, st) end
  else (false, st).
Definition kind_str (k : DriverKind) : bytes := match k with DTrino => B "trino" | DPostgres => B "postgres" | DMysql => B "mysql" end.

Record Run := MkRun { ru_state : St; ru_result : RunError + (Z * list (Z * option Z * option Z)) }.
(** A plan given up: the transaction undone, the session closed. *)
Definition abandon (st : St) (in_transaction : bool) (timeout : option Z) (error : bool -> RunError) : Run :=
  let '(rolled_back, st) := rollback st in_transaction timeout in MkRun (close st) (inl (error rolled_back)).
Definition change_failed (index total : nat) (cause : bytes) : bytes :=
  B "change " ++ decimal (Z.of_nat index) ++ B " of " ++ decimal (Z.of_nat total) ++ B " failed: " ++ cause.
Definition count_disagrees (index total : nat) (actual expected : Z) (keyed : bool) : bytes :=
  B "change " ++ decimal (Z.of_nat index) ++ B " of " ++ decimal (Z.of_nat total) ++ B " affected " ++ decimal actual
  ++ B " row(s) but the plan expected " ++ decimal expected ++ B " (" ++ (if keyed then B "keyed" else B "keyless")
  ++ (if keyed then B ", and a keyed write must not match more than the row it was built from" else []) ++ B ")".
(** Whether the server's count, where it gave one, is not what the plan expected. *)
Definition disagrees (c : PlannedChange) (affected : option Z) : option (Z * Z) :=
  match affected, ch_expected c with
  | Some n, Some expected => if verification_failed (ch_keyed c) (wrap_i64 n) expected then Some (wrap_i64 n, expected) else None
  | _, _ => None
  end.
Fixpoint apply_loop (engine : bytes) (in_transaction : bool) (timeout : option Z) (total index : nat) (changes : list PlannedChange)
  (st : St) (results : list (Z * option Z * option Z)) : Run :=
  match changes with
  | [] => MkRun st (inr (Z.of_nat index, results))
  | c :: changes =>
      if stopped st then abandon st in_transaction timeout (fun r => cancelled_error engine in_transaction r (Z.of_nat index))
      else
        match run_bound st (ch_sql c) (ch_parameters c) timeout with
        | (inl e, st) =>
            abandon st in_transaction timeout
              (fun r => plan_failure engine in_transaction r (Z.of_nat index) total (change_failed (index + 1) total (run_message e)))
        | (inr affected, st) =>
            match disagrees c affected with
            | Some (actual, expected) =>
                abandon st in_transaction timeout
                  (fun r => plan_failure engine in_transaction r (Z.of_nat index + 1) total (count_disagrees (index + 1) total actual expected (ch_keyed c)))
            | None =>
                match emit st (AeProgress (Z.of_nat index + 1)) with
                | (Some e, st) => MkRun st (inl (RIo e))
                | (None, st) =>
                    apply_loop engine in_transaction timeout total (index + 1) changes st
                      (results ++ [(Z.of_nat index + 1, affected, ch_expected c)%Z])
                end
            end
        end
  end.
Definition conclude (engine : bytes) (in_transaction : bool) (timeout : option Z) (total : nat) (r : Run) : St * (RunError + unit) :=
  match ru_result r with
  | inl e => (ru_state r, inl e)
  | inr (applied, results) =>
      match (if in_transaction then run (ru_state r) (B "COMMIT") timeout else (inr None, ru_state r)) with
      | (inl e, st) => (close st, inl (plan_failure engine in_transaction false applied total (B "COMMIT failed: " ++ run_message e)))
      | (inr _, st) =>
          match emit st (AeDone applied results in_transaction (query_id st)) with
          | (Some e, st) => (st, inl (RIo e))
          | (None, st) => (close st, inr tt)
          end
      end
  end.
(** The gate of the whole plan, before anything is opened. *)
Fixpoint guard_changes (sink : option S) (mode : SafeMode) (d : Dialect) (index : nat) (changes : list PlannedChange) : option S * (RunError + unit) :=
  match changes with
  | [] => (sink, inr tt)
  | c :: changes =>
      match guard now_millis sink mode (ch_sql c) d with
      | (sink, inl e) =>
          (sink, inl (RUsage (B "change " ++ decimal (Z.of_nat index + 1) ++ B " was refused: " ++ run_message (cli storage_message e))))
      | (sink, inr _) => guard_changes sink mode d (index + 1) changes
      end
  end.
(** From the connect step on. *)
Definition apply_plan (s : Settings) (kind : DriverKind) (timeout : option Z) (changes : list PlannedChange) (st : St) : St * (RunError + unit) :=
  let want := flag s (B "IN_TRANSACTION") true in
  match emit st (AeStep "connect") with
  | (Some e, st) => (st, inl (RIo e))
  | (None, st) =>
      match open s kind st with
      | (inl e, st) => (st, inl e)
      | (inr _, st) =>
          let in_transaction := want && transactions kind in
          match (if in_transaction then run st (B "BEGIN") timeout else (inr None, st)) with
          | (inl e, st) => (st, inl e)
          | (inr _, st) =>
              match emit st (AeStep "write") with
              | (Some e, st) => (st, inl (RIo e))
              | (None, st) =>
                  conclude (kind_str kind) in_transaction timeout (length changes)
                    (apply_loop (kind_str kind) in_transaction timeout (length changes) 0 changes st [])
              end
          end
      end
  end.
Definition apply_changes (sink : option S) (s : Settings) (st : St) : option S * (St * (RunError + unit)) :=
  let refuse sink e := (sink, (st, inl e)) in
  match parse_changes s with
  | inl e => refuse sink e
  | inr [] => refuse sink (RUsage (B "CHANGES is empty: there is nothing to apply"))
  | inr changes =>
      match of_cli storage_message (safe_mode driver_read_only s) with
      | inl e => refuse sink e
      | inr mode =>
          match guard_changes sink mode (dialect connection s) 0 changes with
          | (sink, inl e) => refuse sink e
          | (sink, inr _) =>
              match statement_timeout s with
              | inl e => refuse sink e
              | inr timeout =>
                  match connection s with
                  | inl m => refuse sink (RDriver m)
                  | inr kind => (sink, apply_plan s kind timeout changes st)
                  end
              end
          end
      end
  end.
End Apply.
