(* ===== verification/ApplySpec.v ===== *)
(** * ApplySpec: a plan of changes is all applied, or the error accounts for what is in the table, for [Apply].

    The server is known by its laws only ([ApplyServer]): what [BEGIN], [COMMIT], [ROLLBACK], the end
    of a session and a statement of the plan do to [table], what others see, and to [work], what the
    session sees inside a transaction it opened; [sent] is what it was sent. A statement answered with an
    error may have taken effect, its answer lost, and one may end the transaction by itself, as MySQL's
    DDL does ([commits_itself]). *)
From stdpp Require Import gmap.
From S2P Require Import Prelude Bytes Text Scan Classify Env ExecLog Guard GuardSpec Retry Value ValueSpec Json Names Types TypesSpec.
From S2P Require Import TransferPlan TransferRun TransferSetup Apply.
#[local] Open Scope nat_scope.

Section Spec.
Context `{Float} `{Unicode} {S : Type} `{ExecutionStore S} {St V : Type}.
Variable now_millis : S -> Z.
Variable storage_message : bytes.
Variable connection : Settings -> bytes + DriverKind.
Variable driver_read_only : DriverKind -> bool.
Variable from_str : bytes -> bytes + Json.
Variable json_text : Json -> bytes.
Variable engine_connect : DriverKind -> St -> (EngineError + unit) * St.
Variable enforce_read_only : St -> option EngineError * St.
Variable execute_bound : St -> bytes -> list Parameter_ -> option Z -> (EngineError + option Z) * St.
Variable close : St -> St.
Variable stopped : St -> bool.
Variable transactions : DriverKind -> bool.
Variable query_id : St -> option bytes.
Variable emit : St -> ApplyEvent -> option bytes * St.
Abbreviation apply_loop := (apply_loop execute_bound close stopped emit).
Abbreviation conclude := (conclude execute_bound close query_id emit).
Abbreviation apply_plan := (apply_plan storage_message driver_read_only engine_connect enforce_read_only execute_bound close stopped transactions query_id emit).
Abbreviation apply_changes := (apply_changes now_millis storage_message connection driver_read_only from_str json_text engine_connect enforce_read_only
  execute_bound close stopped transactions query_id emit).
Abbreviation open := (open storage_message driver_read_only engine_connect enforce_read_only close).
Abbreviation run := (run execute_bound).
Abbreviation abandon := (abandon execute_bound close).

(** ** The server *)

Variable table : St -> V.
Variable work : St -> option V.
Variable sent : St -> list bytes.
(** What a statement that was answered with a count did, and whether it ends a transaction by itself. *)
Variable effect : PlannedChange -> option Z -> V -> V -> Prop.
Variable commits_itself : PlannedChange -> Prop.
Definition same (st st' : St) : Prop := table st' = table st /\ work st' = work st /\ sent st' = sent st.
Lemma same_trans st1 st2 st3 : same st1 st2 -> same st2 st3 -> same st1 st3.
Proof. intros (E1 & E2 & E3) (F1 & F2 & F3). split_and!; congruence. Qed.
Class ApplyServer (changes : list PlannedChange) : Prop := {
  emit_same : forall st e, same st (emit st e).2;
  connect_same : forall k st, same st (engine_connect k st).2;
  enforce_same : forall st, same st (enforce_read_only st).2;
  sent_law : forall st sql ps t, sent (execute_bound st sql ps t).2 = sent st ++ [sql];
  (** A session that ends gives up what it did not commit. *)
  close_same : forall st, table (close st) = table st /\ sent (close st) = sent st;
  begin_law : forall st t, work st = None -> table (run st (B "BEGIN") t).2 = table st
    /\ match (run st (B "BEGIN") t).1 with inr _ => work (run st (B "BEGIN") t).2 = Some (table st) | inl _ => True end;
  (** A COMMIT is all or nothing, and which of the two an error does not say. *)
  commit_law : forall st w t, work st = Some w ->
    match run st (B "COMMIT") t with (inr _, st') => table st' = w | (inl _, st') => table st' = table st \/ table st' = w end;
  commit_idle : forall st t, work st = None -> table (run st (B "COMMIT") t).2 = table st;
  rollback_law : forall st t, table (run st (B "ROLLBACK") t).2 = table st;
  (** Inside a transaction others see nothing of a statement that does not end it. *)
  inside_law : forall c st w t, c ∈ changes -> work st = Some w ->
    match run_bound execute_bound st (ch_sql c) (ch_parameters c) t with
    | (inr n, st') => exists w', effect c n w w'
        /\ ((table st' = table st /\ work st' = Some w') \/ (commits_itself c /\ table st' = w' /\ work st' = None))
    | (inl _, st') => table st' = table st \/ (commits_itself c /\ (table st' = w \/ exists n, effect c n w (table st')))
    end;
  (** Outside one, a statement is applied as a whole, or not at all when it failed and its answer was not lost. *)
  outside_law : forall c st t, c ∈ changes -> work st = None ->
    let '(r, st') := run_bound execute_bound st (ch_sql c) (ch_parameters c) t in
    work st' = None /\ match r with inr n => effect c n (table st) (table st') | inl _ => table st' = table st \/ exists n, effect c n (table st) (table st') end;
}.

(** The effects of changes one after another, each with a count the plan accepts. *)
Fixpoint effects (changes : list PlannedChange) (v v' : V) : Prop :=
  match changes with
  | [] => v' = v
  | c :: changes => exists n u, effect c n v u /\ disagrees c n = None /\ effects changes u v'
  end.
Lemma effects_snoc changes c n v u w : effects changes v u -> effect c n u w -> disagrees c n = None -> effects (changes ++ [c]) v w.
Proof.
  revert v; induction changes as [|d changes IH]; intros v He Hc Hd; cbn in *; [subst; by exists n, w|].
  destruct He as (m & x & Hx & Hdx & He). exists m, x. split_and!; [done|done|by apply IH].
Qed.
(** What the error of a plan given up says: whether it was rolled back, and how many statements ran. *)
Definition failure_text (engine : bytes) (in_tx rolled_back : bool) (k total : nat) (cause : bytes) : bytes :=
  B "the change plan on " ++ engine ++ B ": " ++ cause ++ B ". " ++ decimal (Z.of_nat k) ++ B " of " ++ decimal (Z.of_nat total)
  ++ B " statement(s) had completed; "
  ++ (if in_tx then
        if rolled_back then B "the transaction was rolled back, so those rows are not in the table"
        else B "the transaction could not be undone cleanly, so those rows may still be in the table"
      else B "there was no transaction to undo them")
  ++ B " (disposition: " ++ (if in_tx && rolled_back then B "pendingInSessionTransaction" else B "written") ++ B "). "
  ++ (if in_tx && rolled_back then B "Fix the failing statement and run the plan again when you are ready"
      else B "look at the table before doing anything else, not a retry: running the plan again would write those rows a second time")
  ++ B ".".
Lemma plan_failure_text engine in_tx r k total cause :
  plan_failure engine in_tx r (Z.of_nat k) total cause = RWarned (failure_text engine in_tx r k total cause) [].
Proof. by destruct in_tx, r. Qed.

Section Laws.
Context (changes : list PlannedChange) `{ApplyServer changes}.

(** What is true while the plan runs: [v] is the table before it, [before] what ran. *)
Definition escapes : Prop := exists c, c ∈ changes /\ commits_itself c.
Definition bare (v : V) (before : list PlannedChange) (st : St) : Prop := work st = None /\ effects before v (table st).
Definition covered (v : V) (before : list PlannedChange) (st : St) : Prop := table st = v /\ exists w, work st = Some w /\ effects before v w.
Definition underway (in_tx : bool) (v : V) (before : list PlannedChange) (st : St) : Prop :=
  if in_tx then covered v before st \/ (escapes /\ bare v before st) else bare v before st.
Lemma underway_same in_tx v before st st' : same st st' -> underway in_tx v before st -> underway in_tx v before st'.
Proof. intros (E1 & E2 & _). unfold underway, covered, bare. by rewrite E1, E2. Qed.

(** What the table holds when the plan is given up: in a transaction what it held before, unless a
    statement of the plan ended the transaction by itself; else what [P] says. *)
Definition holds (in_tx : bool) (v : V) (P : V -> Prop) (st : St) : Prop :=
  if in_tx then table st = v \/ (escapes /\ P (table st)) else P (table st).
Lemma holds_table in_tx v P st st' : table st' = table st -> holds in_tx v P st -> holds in_tx v P st'.
Proof. unfold holds. by intros ->. Qed.
Lemma underway_holds in_tx v before st : underway in_tx v before st -> holds in_tx v (effects before v) st.
Proof. unfold underway, holds. destruct in_tx; [intros [[Ht _]|[He [_ Hb]]]; [by left|by right]|by intros [_ Hb]]. Qed.
(** [base] is what was sent when the plan began; after the first [k] statements it is these too. *)
Definition sent_first (base : list bytes) (k : nat) : list bytes := base ++ (ch_sql <$> take k changes).
(** A plan given up is rolled back, in a transaction, and its session ended; that it was undone is said only
    when the server accepted that ROLLBACK. *)
Definition undone (in_tx rolled_back : bool) (st : St) : Prop :=
  rolled_back = true -> in_tx = true /\ exists st0 t n st1, run st0 (B "ROLLBACK") t = (inr n, st1) /\ st = close st1.
Definition given_up (in_tx : bool) (base : list bytes) (k : nat) (rolled_back : bool) (st : St) : Prop :=
  sent st = sent_first base k ++ (if in_tx then [B "ROLLBACK"] else []) /\ undone in_tx rolled_back st.
Definition cannot_report (m : bytes) : Prop := exists st e, (emit st e).1 = Some m.
(** The statement after the first [k], which is [c], was answered with an error. *)
Definition statement_refused (base : list bytes) (k : nat) (c : PlannedChange) (m : bytes) : Prop :=
  exists st t e, sent st = sent_first base k /\ (run_bound execute_bound st (ch_sql c) (ch_parameters c) t).1 = inl e /\ run_message e = m.
(** It was answered with the count [n]. *)
Definition statement_answered (base : list bytes) (k : nat) (c : PlannedChange) (n : option Z) : Prop :=
  exists st t, sent st = sent_first base k /\ (run_bound execute_bound st (ch_sql c) (ch_parameters c) t).1 = inr n.

(** The errors of a plan that was begun, each with its cause, what was sent and what the table then holds. *)
Inductive accounted (in_tx : bool) (engine : bytes) (base : list bytes) (v : V) (st : St) : RunError -> Prop :=
  (** The statement after the first [k] was answered with an error; it may have been done if the answer
      was lost. *)
  | acc_failed k c m rolled_back : changes !! k = Some c -> statement_refused base k c m -> given_up in_tx base (k + 1) rolled_back st ->
      holds in_tx v (fun x => exists u, effects (take k changes) v u /\ (x = u \/ exists n, effect c n u x)) st ->
      accounted in_tx engine base v st
        (RWarned (failure_text engine in_tx rolled_back k (length changes) (change_failed (k + 1) (length changes) m)) [])
  (** It changed another number of rows than the plan expected. *)
  | acc_disagrees k c n actual expected rolled_back : changes !! k = Some c -> statement_answered base k c n -> disagrees c n = Some (actual, expected) ->
      given_up in_tx base (k + 1) rolled_back st ->
      holds in_tx v (fun x => exists u, effects (take k changes) v u /\ effect c n u x) st ->
      accounted in_tx engine base v st
        (RWarned (failure_text engine in_tx rolled_back (k + 1) (length changes) (count_disagrees (k + 1) (length changes) actual expected (ch_keyed c))) [])
  (** A Stop came before it. *)
  | acc_stopped k rolled_back st0 : k < length changes -> stopped st0 = true -> sent st0 = sent_first base k -> given_up in_tx base k rolled_back st ->
      holds in_tx v (effects (take k changes) v) st ->
      accounted in_tx engine base v st (cancelled_error engine in_tx rolled_back (Z.of_nat k))
  (** The COMMIT was answered with an error: all of the plan is in the table, or nothing of it. *)
  | acc_commit m : in_tx = true -> sent st = sent_first base (length changes) ++ [B "COMMIT"] -> table st = v \/ effects changes v (table st) ->
      accounted in_tx engine base v st (RWarned (failure_text engine true false (length changes) (length changes) (B "COMMIT failed: " ++ m)) [])
  (** A report of the run itself could not be written: the error is that one, and says nothing of the table,
      which holds what ran before. *)
  | acc_unreported k m : cannot_report m -> sent st = sent_first base k -> holds in_tx v (effects (take k changes) v) st ->
      accounted in_tx engine base v st (RIo m)
  | acc_done_unreported m : cannot_report m -> effects changes v (table st) -> accounted in_tx engine base v st (RIo m).
Lemma abandon_ok in_tx engine base v k t st (error : bool -> RunError) : sent st = sent_first base k ->
  (forall r st', table st' = table st -> given_up in_tx base k r st' -> accounted in_tx engine base v st' (error r)) ->
  exists e, ru_result (abandon st in_tx t error) = inl e /\ accounted in_tx engine base v (ru_state (abandon st in_tx t error)) e.
Proof.
  intros Hsent Ha. unfold Apply.abandon, rollback. pose proof (rollback_law st t) as Hr. pose proof (sent_law st (B "ROLLBACK") [] t) as Hs. destruct in_tx.
  - assert (sent (run st (B "ROLLBACK") t).2 = sent st ++ [B "ROLLBACK"]) as Hs2 by (unfold Apply.run, run_bound, lift; by destruct (execute_bound _ _ _ _) as [[e|n] st1]).
    destruct (run st (B "ROLLBACK") t) as [[e|n] st'] eqn:Er; cbn in Hr, Hs2 |- *; (eexists; split; [done|]); destruct (close_same st') as [C1 C2];
      (apply Ha; [by rewrite C1|]; split; [by rewrite C2, Hs2, Hsent|]); [done|]. intros _. split; [done|]. by exists st, t, n, st'.
  - eexists. split; [done|]. destruct (close_same st) as [C1 C2]. apply Ha; [done|]. split; [cbn; by rewrite C2, Hsent, app_nil_r|done].
Qed.
(** One statement of the plan. *)
Lemma statement_ok in_tx v before c st t : c ∈ changes -> underway in_tx v before st ->
  match run_bound execute_bound st (ch_sql c) (ch_parameters c) t with
  | (inr n, st') => holds in_tx v (fun x => exists u, effects before v u /\ effect c n u x) st'
      /\ (disagrees c n = None -> underway in_tx v (before ++ [c]) st')
  | (inl _, st') => holds in_tx v (fun x => exists u, effects before v u /\ (x = u \/ exists n, effect c n u x)) st'
  end.
Proof.
  intros Hin Hu.
  assert (Hbare : bare v before st -> match run_bound execute_bound st (ch_sql c) (ch_parameters c) t with
    | (inr n, st') => (exists u, effects before v u /\ effect c n u (table st')) /\ (disagrees c n = None -> bare v (before ++ [c]) st')
    | (inl _, st') => exists u, effects before v u /\ (table st' = u \/ exists n, effect c n u (table st')) end).
  { intros [Hw He]. pose proof (outside_law c st t Hin Hw) as Hl. destruct (run_bound _ _ _ _ _) as [[e|n] st']; destruct Hl as [Hl Hd]; [by exists (table st)|].
    split; [by exists (table st)|]. intros Hdis. split; [done|]. by eapply effects_snoc. }
  unfold underway, holds in *. destruct in_tx; [|by apply Hbare]. destruct Hu as [[Ht (w & Hw & He)]|[Hesc Hb]].
  - pose proof (inside_law c st w t Hin Hw) as Hl. destruct (run_bound _ _ _ _ _) as [[e|n] st'].
    + destruct Hl as [Hl|[Hc Hl]]; [left; by rewrite Hl|]. right. split; [by exists c|]. by exists w.
    + destruct Hl as (w' & Hef & [[Hl Hw']|(Hc & Hl & Hw')]).
      * split; [left; by rewrite Hl|]. intros Hd. left. split; [by rewrite Hl|]. exists w'. split; [done|]. by eapply effects_snoc.
      * assert (escapes) as Hesc by (by exists c). split; [right; split; [done|]; exists w; by rewrite Hl|]. intros Hd. right. split; [done|].
        split; [done|]. rewrite Hl. by eapply effects_snoc.
  - specialize (Hbare Hb). destruct (run_bound _ _ _ _ _) as [[e|n] st']; [by right|]. destruct Hbare as [Hx Hy]. split; [by right|]. intros Hd. right. split; [done|by apply Hy].
Qed.
Lemma run_bound_sent st c t : sent (run_bound execute_bound st (ch_sql c) (ch_parameters c) t).2 = sent st ++ [ch_sql c].
Proof. pose proof (sent_law st (ch_sql c) (ch_parameters c) t) as Hs. unfold run_bound, lift. by destruct (execute_bound _ _ _ _) as [[e|n] st1]. Qed.
Lemma loop_ok engine in_tx base t v rest : forall before st results, changes = before ++ rest -> underway in_tx v before st -> sent st = sent_first base (length before) ->
  let r := apply_loop engine in_tx t (length changes) (length before) rest st results in
  match ru_result r with
  | inr (n, _) => n = Z.of_nat (length changes) /\ underway in_tx v changes (ru_state r) /\ sent (ru_state r) = sent_first base (length changes)
  | inl e => accounted in_tx engine base v (ru_state r) e
  end.
Proof.
  assert (Hgive : forall k st (error : bool -> RunError), sent st = sent_first base k ->
    (forall r st', table st' = table st -> given_up in_tx base k r st' -> accounted in_tx engine base v st' (error r)) ->
    match ru_result (abandon st in_tx t error) with
    | inr (n, _) => n = Z.of_nat (length changes) /\ underway in_tx v changes (ru_state (abandon st in_tx t error))
        /\ sent (ru_state (abandon st in_tx t error)) = sent_first base (length changes)
    | inl e => accounted in_tx engine base v (ru_state (abandon st in_tx t error)) e
    end) by (intros k st error Hs Ha; destruct (abandon_ok in_tx engine base v k t st error Hs Ha) as (e & -> & He); exact He).
  induction rest as [|c rest IH]; intros before st results Hch Hu Hsent; cbn [Apply.apply_loop]; cbn zeta.
  { rewrite app_nil_r in Hch. subst before. by split. }
  assert (Htake : take (length before) changes = before) by (by rewrite Hch, take_app_length).
  assert (Hk : changes !! length before = Some c) by (by rewrite Hch, list_lookup_middle).
  assert (Hnexts : sent_first base (length before + 1) = sent_first base (length before) ++ [ch_sql c])
    by (unfold sent_first; rewrite Nat.add_1_r, (take_S_r _ _ _ Hk), fmap_app, app_assoc; done).
  destruct (stopped st) eqn:Hstop.
  { apply (Hgive (length before)); [done|]. intros r st' Htab Hr. eapply acc_stopped; [by eapply lookup_lt_Some|exact Hstop|done|done|].
    rewrite Htake. eapply holds_table; [exact Htab|by apply underway_holds]. }
  pose proof (statement_ok in_tx v before c st t ltac:(by eapply list_elem_of_lookup_2) Hu) as Hlaw. pose proof (run_bound_sent st c t) as Hsent'.
  destruct (run_bound _ _ _ _ _) as [[e|affected] st'] eqn:Erun; cbn [snd] in Hsent'; rewrite Hsent, <- Hnexts in Hsent'.
  { apply (Hgive (length before + 1)); [done|]. intros r st2 Htab Hr. rewrite plan_failure_text. eapply acc_failed; [exact Hk| |done|rewrite Htake; by eapply holds_table].
    exists st, t, e. by rewrite Erun. }
  destruct Hlaw as [Hh Hnext]. destruct (disagrees c affected) as [[actual expected]|] eqn:Hd.
  { apply (Hgive (length before + 1)); [done|]. intros r st2 Htab Hr. replace (Z.of_nat (length before) + 1)%Z with (Z.of_nat (length before + 1)) by lia. rewrite plan_failure_text.
    eapply acc_disagrees; [exact Hk| |exact Hd|done|rewrite Htake; by eapply holds_table]. exists st, t. by rewrite Erun. }
  specialize (Hnext eq_refl). pose proof (emit_same st' (AeProgress (Z.of_nat (length before) + 1))) as Hem.
  destruct (emit st' _) as [[m|] st2] eqn:Eem; cbn in Hem.
  - apply acc_unreported with (length before + 1); [by exists st', (AeProgress (Z.of_nat (length before) + 1)); rewrite Eem|cbn; destruct Hem as (_ & _ & ->); done|].
    cbn. rewrite Nat.add_1_r, (take_S_r _ _ _ Hk). rewrite Htake. eapply underway_holds, underway_same; [exact Hem|exact Hnext].
  - replace (length before + 1) with (length (before ++ [c])) in Hsent' |- * by (rewrite length_app; done).
    apply IH; [by rewrite <- app_assoc|by eapply underway_same|]. by destruct Hem as (_ & _ & ->).
Qed.
Lemma open_same s k st : same st (open s k st).2 \/ (exists st1 e, same st st1 /\ open s k st = (inl e, close st1)).
Proof.
  unfold Apply.open. assert (Hrefl : same st st) by done. destruct (policy_from_settings s) as [e|p] eqn:Ep; [by left|]. cbn [setting].
  destruct (retry_call_spec (engine_connect k) p st (policy_from_settings_ok _ _ Ep)) as (r & w1 & w2 & es & -> & Hf & Hc & _).
  assert (Hfail : forall es w w', failing (engine_connect k) w es w' -> same w w').
  { intros l. induction l as [|e l IH]; intros w w' Hl; cbn in Hl; [by subst|]. destruct Hl as (w3 & Hc3 & Hl).
    pose proof (connect_same k w) as Hs. rewrite Hc3 in Hs. eapply same_trans; [exact Hs|by apply IH]. }
  assert (Hs : same st w2).
  { eapply same_trans; [by eapply Hfail|]. pose proof (connect_same k w1) as Hs. by rewrite Hc in Hs. }
  destruct r as [e|[]]; [by left|]. destruct (of_cli _ _) as [e|mode]; [by left|]. destruct mode; try by left.
  pose proof (enforce_same w2) as He. destruct (enforce_read_only w2) as [[e|] st2]; cbn in He.
  - right. exists st2, (engine_error e). split; [by eapply same_trans|done].
  - left. by eapply same_trans.
Qed.
(** How a run of the whole plan ends, past the gate. *)
Definition ended (in_tx : bool) (engine : bytes) (base : list bytes) (v : V) (r : RunError + unit) (st : St) : Prop :=
  match r with
  | inr _ => effects changes v (table st) /\ sent st = sent_first base (length changes) ++ (if in_tx then [B "COMMIT"] else [])
  | inl e => accounted in_tx engine base v st e
  end.
Lemma reported_ok (in_tx : bool) engine base v st e : effects changes v (table st) -> sent st = sent_first base (length changes) ++ (if in_tx then [B "COMMIT"] else []) ->
  let '(st', r) := match emit st e with (Some m, st) => (st, inl (RIo m)) | (None, st) => (close st, inr tt) end in ended in_tx engine base v r st'.
Proof.
  intros He Hs. pose proof (emit_same st e) as (Ht & _ & Hse). destruct (emit st e) as [[m|] st1] eqn:Ee; cbn in Ht, Hse |- *.
  - apply acc_done_unreported; [by exists st, e; rewrite Ee|by rewrite Ht].
  - destruct (close_same st1) as [C1 C2]. by rewrite C1, C2, Ht, Hse.
Qed.
Lemma conclude_ok in_tx engine base t v st : underway in_tx v [] st -> sent st = base ->
  let '(st', r) := conclude engine in_tx t (length changes) (apply_loop engine in_tx t (length changes) 0 changes st []) in ended in_tx engine base v r st'.
Proof.
  intros Hu Hsent. pose proof (loop_ok engine in_tx base t v changes [] st [] eq_refl Hu ltac:(unfold sent_first; cbn; by rewrite app_nil_r)) as Hl. cbn [length] in Hl. cbn zeta in Hl.
  unfold Apply.conclude. destruct (ru_result _) as [e|[applied results]]; [done|]. destruct Hl as (-> & Hl & Hls).
  set (st5 := ru_state _) in *. destruct in_tx; [|by apply reported_ok; [apply Hl|rewrite app_nil_r]].
  assert (Hcm : match run st5 (B "COMMIT") t with (inr _, st') => effects changes v (table st') | (inl _, st') => table st' = v \/ effects changes v (table st') end).
  { destruct Hl as [[Ht (w & Hw & He)]|[_ [Hw He]]].
    - pose proof (commit_law st5 w t Hw) as Hc. destruct (run st5 (B "COMMIT") t) as [[e|k] st6]; [|by rewrite Hc].
      destruct Hc as [Hc|Hc]; rewrite Hc; [by left|by right].
    - pose proof (commit_idle st5 t Hw) as Hc. destruct (run st5 (B "COMMIT") t) as [[e|k] st6]; cbn in Hc; rewrite Hc; [by right|done]. }
  assert (Hcs : sent (run st5 (B "COMMIT") t).2 = sent_first base (length changes) ++ [B "COMMIT"])
    by (rewrite <- Hls; pose proof (sent_law st5 (B "COMMIT") [] t) as Hs; unfold Apply.run, run_bound, lift; by destruct (execute_bound _ _ _ _) as [[e|n] st1]).
  destruct (run st5 (B "COMMIT") t) as [[e|k] st6]; cbn [snd] in Hcs; [|by apply reported_ok]. rewrite plan_failure_text. destruct (close_same st6) as [C1 C2].
  apply acc_commit; [done|by rewrite C2|by rewrite C1].
Qed.
Lemma begin_ok (in_tx : bool) st t : work st = None ->
  let '(r, st') := (if in_tx then run st (B "BEGIN") t else (inr None, st)) in
  table st' = table st /\ sent st' = sent st ++ (if in_tx then [B "BEGIN"] else []) /\ match r with inr _ => underway in_tx (table st) [] st' | inl _ => True end.
Proof.
  intros Hw. destruct in_tx; [|rewrite app_nil_r; by split_and!].
  destruct (begin_law st t Hw) as [Hbt Hbw]. pose proof (sent_law st (B "BEGIN") [] t) as Hs. unfold Apply.run, run_bound, lift in *.
  destruct (execute_bound st (B "BEGIN") [] t) as [[e|n] st']; cbn in *; rewrite Hbt, Hs; [by split_and!|].
  split_and!; [done|done|]. left. split; [done|]. by exists (table st).
Qed.
(** Nothing of the plan was sent. *)
Definition not_begun (st st' : St) : Prop := table st' = table st /\ (sent st' = sent st \/ sent st' = sent st ++ [B "BEGIN"]).
(** From the connect step on: nothing of the plan was sent, or the run ended as [ended] says. *)
Lemma apply_plan_ok s kind t st : work st = None ->
  let '(st', r) := apply_plan s kind t changes st in
  (not_begun st st' /\ exists e, r = inl e)
  \/ let in_tx := flag s (B "IN_TRANSACTION") true && transactions kind in
     ended in_tx (kind_str kind) (sent st ++ (if in_tx then [B "BEGIN"] else [])) (table st) r st'.
Proof.
  intros Hw. unfold Apply.apply_plan. pose proof (emit_same st (AeStep "connect")) as He1.
  assert (Hnb : forall st', same st st' -> not_begun st st') by (intros st' (E1 & _ & E3); split; [done|by left]).
  destruct (emit st (AeStep "connect")) as [[m|] st1]; cbn in He1; [left; split; [by apply Hnb|by eexists]|].
  pose proof (open_same s kind st1) as Ho. destruct (open s kind st1) as [[e|[]] st2] eqn:Eo.
  { left. split; [|by eexists]. destruct Ho as [Ho|(st3 & e' & Ho & [= _ ->])]; [apply Hnb; by eapply same_trans|].
    destruct (same_trans _ _ _ He1 Ho) as (E1 & _ & E3). destruct (close_same st3) as [F1 F3]. split; [congruence|left; congruence]. }
  destruct Ho as [Ho|(st3 & e' & _ & [=])]. cbn in Ho. destruct (same_trans _ _ _ He1 Ho) as (Ht2 & Hw2 & Hs2). rewrite Hw in Hw2.
  set (in_tx := flag s (B "IN_TRANSACTION") true && transactions kind) in *.
  pose proof (begin_ok in_tx st2 t Hw2) as Hb. rewrite Ht2, Hs2 in Hb.
  destruct (if in_tx then run st2 (B "BEGIN") t else (inr None, st2)) as [[e|n] st3]; destruct Hb as (Ht3 & Hs3 & Hu3);
    (assert (Hnb3 : not_begun st st3) by (split; [done|]; destruct in_tx; rewrite Hs3, ?app_nil_r; auto)); [by left; split; [|by eexists]|].
  pose proof (emit_same st3 (AeStep "write")) as He4. destruct (emit st3 (AeStep "write")) as [[m|] st4]; cbn in He4.
  { left. split; [|by eexists]. destruct He4 as (E1 & _ & E3). destruct Hnb3 as [N1 N2]. split; [congruence|by rewrite E3]. }
  destruct (He4) as (_ & _ & Hs4).
  pose proof (conclude_ok in_tx (kind_str kind) (sent st ++ (if in_tx then [B "BEGIN"] else [])) t (table st) st4 (underway_same _ _ _ _ _ He4 Hu3) ltac:(by rewrite Hs4)) as Hc.
  destruct (conclude _ _ _ _ _) as [st' r]. by right.
Qed.
End Laws.
(** A plan that passed the gate passed it change by change. *)
Lemma guard_changes_passed mode d l : forall index sink,
  match guard_changes now_millis storage_message sink mode d index l with
  | (_, inr _) => Forall (fun c => exists before after, guard now_millis before mode (ch_sql c) d = (after, inr tt)) l
  | _ => True
  end.
Proof.
  induction l as [|c l IH]; intros index sink; cbn [guard_changes]; [constructor|].
  destruct (guard now_millis sink mode (ch_sql c) d) as [s1 [e|[]]] eqn:Eg; [done|].
  specialize (IH (index + 1) s1). destruct (guard_changes _ _ _ _ _ _ _) as [s2 [e|u]]; [done|]. constructor; [by exists sink, s1|done].
Qed.

End Spec.

(** ** A small server *)

Module SmallPlan.
#[local] Existing Instance no_float.
Record Server := MkServer { rows : list bytes; inside : option (list bytes); heard : list bytes }.
Definition settings : Settings := {[ B "CHANGES" := B "[]"; B "SAFE_MODE" := B "full" ]}.
Definition changes : list PlannedChange :=
  [MkPlanned (B "DELETE FROM t WHERE id = $1") [PInt 7] (Some 1%Z) true; MkPlanned (B "INSERT INTO t VALUES (7)") [] (Some 1%Z) false].
(** The plan as the JSON it is read from. *)
Definition json : Json := JArray
  [JObject [(B "sql", JString (B "DELETE FROM t WHERE id = $1")); (B "expected", JPosInt 1);
            (B "params", JArray [JObject [(B "type", JString (B "int")); (B "value", JString (B "7"))]])];
   JObject [(B "expected", JPosInt 1); (B "keyed", JBool false); (B "sql", JString (B "INSERT INTO t VALUES (7)"))]].
Definition execute (st : Server) (sql : bytes) (ps : list Parameter_) (_ : option Z) : (EngineError + option Z) * Server :=
  let heard := heard st ++ [sql] in
  if bytes_eqb sql (B "BEGIN") then
    match inside st with
    | None => (inr None, MkServer (rows st) (Some (rows st)) heard) | Some _ => (inl (EInternal (B "already open")), MkServer (rows st) (inside st) heard)
    end
  else if bytes_eqb sql (B "COMMIT") then
    match inside st with
    | Some l => (inr None, MkServer l None heard) | None => (inl (EInternal (B "none open")), MkServer (rows st) None heard)
    end
  else if bytes_eqb sql (B "ROLLBACK") then (inr None, MkServer (rows st) None heard)
  else (inr (Some 1%Z), match inside st with Some l => MkServer (rows st) (Some (l ++ [sql])) heard | None => MkServer (rows st ++ [sql]) None heard end).
Definition effect (c : PlannedChange) (n : option Z) (v v' : list bytes) : Prop := n = Some 1%Z /\ v' = v ++ [ch_sql c].
Definition connect (_ : DriverKind) (st : Server) : (EngineError + unit) * Server := (inr tt, st).
Definition emit (st : Server) (_ : ApplyEvent) : option bytes * Server := (None, st).
#[export] Instance small_plan_server : ApplyServer connect (fun st => (None, st)) execute (fun st => MkServer (rows st) None (heard st)) emit rows inside heard effect (fun _ => False) changes.
Proof.
  assert (Hplain : forall c, c ∈ changes -> bytes_eqb (ch_sql c) (B "BEGIN") = false /\ bytes_eqb (ch_sql c) (B "COMMIT") = false /\ bytes_eqb (ch_sql c) (B "ROLLBACK") = false).
  { intros c Hc. apply elem_of_cons in Hc as [->|Hc]; [|apply list_elem_of_singleton in Hc as ->]; vm_compute; by split_and!. }
  split; try done.
  - intros [r [l|] h] sql ps t; unfold execute; cbn [heard inside rows]; destruct (bytes_eqb sql (B "BEGIN")), (bytes_eqb sql (B "COMMIT")), (bytes_eqb sql (B "ROLLBACK")); done.
  - intros [r [l|] h] t Hw; [discriminate Hw|]. by split.
  - intros [r [l|] h] w t Hw; [|discriminate Hw]. cbn in Hw. injection Hw as ->. done.
  - intros [r [l|] h] t Hw; [discriminate Hw|]. done.
  - intros c [r [l|] h] w t Hc Hw; [|discriminate Hw]. cbn in Hw. injection Hw as ->. destruct (Hplain c Hc) as (E1 & E2 & E3).
    unfold run_bound, lift, execute. cbn [inside heard rows]. rewrite E1, E2, E3. exists (w ++ [ch_sql c]). split; [done|]. by left.
  - intros c [r [l|] h] t Hc Hw; [discriminate Hw|]. destruct (Hplain c Hc) as (E1 & E2 & E3). unfold run_bound, lift, execute. cbn [inside heard rows]. rewrite E1, E2, E3. by split.
Qed.
End SmallPlan.
#[local] Existing Instances no_float ascii_unicode SmallPlan.small_plan_server.
#[local] Instance toy_plan_log : ExecutionStore Storage := storage_store toy_hash toy_payload.
