(* ===== verification/ImportDates.v ===== *)
(** * ImportDates: the dates and numbers a file spells in its own way, [crates/qh-import/src/values.rs].

    A character is the bytes of its UTF-8 form: every letter and sign a pattern gives a meaning is an
    ASCII byte, and the position in a text is the text from it on. *)
From S2P Require Import Prelude Bytes Text Dates.
#[local] Open Scope nat_scope.

(** ** Date patterns *)

Inductive Token :=
| Year4
| Year2
| Month (width : nat)
| Day (width : nat)
| Hour24 (width : nat)
| Hour12 (width : nat)
| Minute
| Second
| Fraction
| AmPm
| Literal (text : bytes).
Record DatePattern := MkPattern { dp_tokens : list Token; dp_source : bytes }.
Record IsoDateTime := MkIso { iso_date : bytes; iso_time : option bytes }.
Definition iso_timestamp (x : IsoDateTime) : bytes := iso_date x ++ [SP] ++ default (B "00:00:00") (iso_time x).

Definition QUOTE : Z := 39.
(** A sign before a digit, in the windows of two. *)
Fixpoint signed_digit (s : bytes) : bool :=
  match s with
  | a :: ((b :: _) as rest) => (((a =b 43) || (a =b 45)) && is_ascii_digit b) || signed_digit rest
  | _ => false
  end.
Definition carries_zone (text : bytes) : bool :=
  let up := upper text in
  contains up (B "Z") || contains up (B "UTC") || contains up (B "GMT") || signed_digit text.

(** The text of a quoted run and what is after its closing quote. *)
Fixpoint quoted_run (s : bytes) : option (bytes * bytes) :=
  match s with
  | [] => None
  | c :: s1 =>
      if c =b QUOTE then
        match s1 with
        | d :: s2 => if d =b QUOTE then match quoted_run s2 with Some (t, r) => Some (QUOTE :: t, r) | None => None end else Some ([], s1)
        | [] => Some ([], [])
        end
      else match quoted_run s1 with Some (t, r) => Some (c :: t, r) | None => None end
  end.
Definition token_of (c : Z) (run : nat) : option Token :=
  let letter (x : string) := bytes_eqb [c] (B x) in
  if letter "y" then match run with 4 => Some Year4 | 2 => Some Year2 | _ => None end
  else if letter "M" then match run with 1 | 2 => Some (Month run) | _ => None end
  else if letter "d" then match run with 1 | 2 => Some (Day run) | _ => None end
  else if letter "H" then match run with 1 | 2 => Some (Hour24 run) | _ => None end
  else if letter "h" then match run with 1 | 2 => Some (Hour12 run) | _ => None end
  else if letter "m" then match run with 2 => Some Minute | _ => None end
  else if letter "s" then match run with 2 => Some Second | _ => None end
  else if letter "S" then if (1 <=? run) && (run <=? 9) then Some Fraction else None
  else if letter "a" then match run with 1 => Some AmPm | _ => None end
  else None.
(** A byte that is neither a quote nor a letter joins the literal before it. *)
Definition push_literal (c : Z) (tokens : list Token) : list Token :=
  match last tokens with
  | Some (Literal text) => removelast tokens ++ [Literal (text ++ [c])]
  | _ => tokens ++ [Literal [c]]
  end.
Inductive PatternError :=
| UnclosedQuote
| NotALetter (run : bytes)
| HoldsZone (text : bytes)
| NoDate
| HalfClock.
Definition pattern_turn (state : bytes * list Token) : (bytes * list Token) + (PatternError + list Token) :=
  let '(s, tokens) := state in
  match s with
  | [] => inr (inr tokens)
  | c :: rest =>
      if c =b QUOTE then
        match quoted_run rest with
        | None => inr (inl UnclosedQuote)
        | Some (text, rest) => inl (rest, tokens ++ [Literal (match text with [] => [QUOTE] | _ => text end)])
        end
      else if is_ascii_alphabetic c then
        let run := count_while (fun b => b =b c) s in
        match token_of c run with
        | Some token => inl (drop run s, tokens ++ [token])
        | None => inr (inl (NotALetter (take run s)))
        end
      else inl (rest, push_literal c tokens)
  end.
Definition is_year (t : Token) : bool := match t with Year4 | Year2 => true | _ => false end.
Definition is_month (t : Token) : bool := match t with Month _ => true | _ => false end.
Definition is_day (t : Token) : bool := match t with Day _ => true | _ => false end.
Definition is_hour12 (t : Token) : bool := match t with Hour12 _ => true | _ => false end.
Definition is_ampm (t : Token) : bool := match t with AmPm => true | _ => false end.
Definition zone_literal (t : Token) : option bytes := match t with Literal text => if carries_zone text then Some text else None | _ => None end.
Definition pattern_error_text (pattern : bytes) (e : PatternError) : bytes :=
  let head := B "DATE_FORMAT '" ++ pattern in
  match e with
  | UnclosedQuote => head ++ B "' has an unclosed '"
  | NotALetter run => head ++ B "': '" ++ run ++ B "' is not a pattern letter this import reads (use yyyy, yy, MM, dd, HH, hh a, mm, ss, S, and 'quoted' text)"
  | HoldsZone text =>
      head ++ B "': '" ++ text ++ B "' is a time zone, and this pattern has no zone token, so it would be read and dropped. Leave the zone in the value and unset DATE_FORMAT, or convert the file to one zone first"
  | NoDate => head ++ B "' must name a year, a month and a day"
  | HalfClock => head ++ B "': a 12-hour clock needs both hh and a"
  end.
(** What is asked of the tokens once they are all read. *)
Definition check_tokens (tokens : list Token) : option PatternError :=
  match omap zone_literal tokens with
  | text :: _ => Some (HoldsZone text)
  | [] =>
      if negb (existsb is_year tokens && existsb is_month tokens && existsb is_day tokens) then Some NoDate
      else if negb (Bool.eqb (existsb is_hour12 tokens) (existsb is_ampm tokens)) then Some HalfClock
      else None
  end.
(** [DatePattern::parse]: a turn takes at least one byte, so a turn for each byte and one more is enough. *)
Definition pattern_parse (pattern : bytes) : option (bytes + DatePattern) :=
  match iter pattern_turn (S (length pattern)) (pattern, []) with
  | None => None
  | Some (inl e) => Some (inl (pattern_error_text pattern e))
  | Some (inr tokens) =>
      match check_tokens tokens with
      | Some e => Some (inl (pattern_error_text pattern e))
      | None => Some (inr (MkPattern tokens pattern))
      end
  end.

(** ** Reading a value *)

(** The digits a numeric token takes: at least [min], at most [max]. *)
Definition take_digits (min max : nat) (s : bytes) : option (Z * bytes) :=
  let run := count_while is_ascii_digit (take max s) in
  if run <? min then None else Some (digits_value (take run s), drop run s).
Record Reading := MkReading {
  rd_year : option Z; rd_month : option Z; rd_day : option Z;
  rd_hour : option Z; rd_minute : Z; rd_second : Z; rd_fraction : option bytes; rd_pm : option bool }.
Definition no_reading : Reading := MkReading None None None None 0 0 None None.
Definition set_year v r := MkReading (Some v) (rd_month r) (rd_day r) (rd_hour r) (rd_minute r) (rd_second r) (rd_fraction r) (rd_pm r).
Definition set_month v r := MkReading (rd_year r) (Some v) (rd_day r) (rd_hour r) (rd_minute r) (rd_second r) (rd_fraction r) (rd_pm r).
Definition set_day v r := MkReading (rd_year r) (rd_month r) (Some v) (rd_hour r) (rd_minute r) (rd_second r) (rd_fraction r) (rd_pm r).
Definition set_hour v r := MkReading (rd_year r) (rd_month r) (rd_day r) (Some v) (rd_minute r) (rd_second r) (rd_fraction r) (rd_pm r).
Definition set_minute v r := MkReading (rd_year r) (rd_month r) (rd_day r) (rd_hour r) v (rd_second r) (rd_fraction r) (rd_pm r).
Definition set_second v r := MkReading (rd_year r) (rd_month r) (rd_day r) (rd_hour r) (rd_minute r) v (rd_fraction r) (rd_pm r).
Definition set_fraction v r := MkReading (rd_year r) (rd_month r) (rd_day r) (rd_hour r) (rd_minute r) (rd_second r) (Some v) (rd_pm r).
Definition set_pm v r := MkReading (rd_year r) (rd_month r) (rd_day r) (rd_hour r) (rd_minute r) (rd_second r) (rd_fraction r) (Some v).
(** One token read off the text: why it is not there, or the reading and the text after it. *)
Definition read_token (t : Token) (s : bytes) (r : Reading) : bytes + Reading * bytes :=
  let number min max (set : Z -> Reading -> Reading) why :=
    match take_digits min max s with Some (v, rest) => inr (set v r, rest) | None => inl (B why) end in
  match t with
  | Year4 => number 4 4 set_year "year"%string
  | Year2 => number 2 2 (fun two => set_year (if (two <=? 68)%Z then 2000 + two else 1900 + two)%Z) "year"%string
  | Month width => number (Nat.min width 2) 2 set_month "month"%string
  | Day width => number (Nat.min width 2) 2 set_day "day"%string
  | Hour24 width | Hour12 width => number (Nat.min width 2) 2 set_hour "hour"%string
  | Minute => number 2 2 set_minute "minute"%string
  | Second => number 2 2 set_second "second"%string
  | Fraction =>
      let run := count_while is_ascii_digit (take 9 s) in
      if run =? 0 then inl (B "fraction of a second") else inr (set_fraction (take run s) r, drop run s)
  | AmPm =>
      let word := upper (take 2 s) in
      if bytes_eqb word (B "AM") then inr (set_pm false r, drop 2 s)
      else if bytes_eqb word (B "PM") then inr (set_pm true r, drop 2 s)
      else inl (B "AM or PM")
  | Literal text => if starts_with s text then inr (r, drop (length text) s) else inl (B "expected '" ++ text ++ B "'")
  end.
Fixpoint read_tokens (tokens : list Token) (s : bytes) (r : Reading) : bytes + Reading * bytes :=
  match tokens with
  | [] => inr (r, s)
  | t :: tokens => match read_token t s r with inl why => inl why | inr (r, s) => read_tokens tokens s r end
  end.
(** [days_in_month] of this file. *)
Definition month_days (year month : Z) : Z :=
  if ((month =? 4) || (month =? 6) || (month =? 9) || (month =? 11))%Z then 30
  else if (month =? 2)%Z then (if (year mod 4 =? 0) && (negb (year mod 100 =? 0) || (year mod 400 =? 0)) then 29 else 28)%Z
  else 31.
(** The checks on what was read, and the ISO texts. [None] is the panic of a pattern that names no date. *)
Definition iso_of (r : Reading) : option (bytes + IsoDateTime) :=
  match rd_year r, rd_month r, rd_day r with
  | Some year, Some month, Some day =>
      Some (
        if negb ((1 <=? month) && (month <=? 12))%Z then inl (B "month is not 1-12")
        else if ((day =? 0) || (month_days year month <? day))%Z then inl (B "no such day in that month")
        else
          match (match rd_hour r, rd_pm r with
                 | Some h, Some pm =>
                     if negb ((1 <=? h) && (h <=? 12))%Z then inl (B "hour is not 1-12")
                     else inr (Some (h mod 12 + (if pm then 12 else 0))%Z)
                 | hour, _ => inr hour
                 end) with
          | inl why => inl why
          | inr hour =>
              if (match hour with Some h => 23 <? h | None => false end)%Z || (59 <? rd_minute r)%Z || (59 <? rd_second r)%Z
              then inl (B "time of day out of range")
              else
                let time h := pad0 2 h ++ B ":" ++ pad0 2 (rd_minute r) ++ B ":" ++ pad0 2 (rd_second r)
                              ++ match rd_fraction r with Some digits => B "." ++ digits | None => [] end in
                inr (MkIso (pad0 4 year ++ B "-" ++ pad0 2 month ++ B "-" ++ pad0 2 day) (time <$> hour))
          end)
  | _, _, _ => None
  end.
(** [DatePattern::read]. *)
Definition pattern_read (p : DatePattern) (text : bytes) : option (bytes + IsoDateTime) :=
  let bad why := B "'" ++ text ++ B "' is not a valid date for DATE_FORMAT " ++ dp_source p ++ B " (" ++ why ++ B ")" in
  match read_tokens (dp_tokens p) (trim text) no_reading with
  | inl why => Some (inl (bad why))
  | inr (_, _ :: _) => Some (inl (bad (B "unexpected text after the date")))
  | inr (r, []) => match iso_of r with None => None | Some (inl why) => Some (inl (bad why)) | Some (inr iso) => Some (inr iso) end
  end.

(** ** Numbers *)

(** [str::split_once] and [str::split] on one character, which is a text that is not empty. *)
Fixpoint split_at_text (pat s : bytes) : option (bytes * bytes) :=
  if starts_with s pat then Some ([], drop (length pat) s)
  else match s with [] => None | b :: s => match split_at_text pat s with Some (x, y) => Some (b :: x, y) | None => None end end.
Fixpoint split_text (fuel : nat) (pat s : bytes) : list bytes :=
  match fuel with
  | O => [s]
  | S fuel => match split_at_text pat s with Some (x, y) => x :: split_text fuel pat y | None => [s] end
  end.
Definition is_empty (s : bytes) : bool := match s with [] => true | _ => false end.
Definition all_digits (s : bytes) : bool := forallb is_ascii_digit s.
(** The digits of the whole part, its groups checked where it is grouped. *)
Definition whole_digits (whole : bytes) (grouping : option bytes) : option bytes :=
  match grouping with
  | Some group =>
      if contains whole group then
        match split_text (length whole) group whole with
        | first :: rest =>
            if negb ((1 <=? length first) && (length first <=? 3)) then None
            else if existsb (fun g => negb (length g =? 3)) rest then None
            else Some (first ++ mjoin rest)
        | [] => None
        end
      else Some whole
  | None => Some whole
  end.
Definition normalize_number (text decimal : bytes) (grouping : option bytes) : option bytes :=
  match trim text with
  | [] => None
  | c :: rest =>
      let signed := (c =b 43) || (c =b 45) in
      let body := if signed then rest else c :: rest in
      let '(whole, fraction) := match split_at_text decimal body with Some (w, f) => (w, Some f) | None => (body, None) end in
      if match fraction with Some f => is_empty f || negb (all_digits f) | None => false end then None
      else
        match whole_digits whole grouping with
        | None => None
        | Some digits =>
            if negb (all_digits digits) || (is_empty digits && match fraction with None => true | Some _ => false end) then None
            else Some ((if signed then [c] else []) ++ (if is_empty digits then B "0" else digits)
                       ++ match fraction with Some f => B "." ++ f | None => [] end)
        end
  end.
Example sample_patterns :
  (match pattern_parse (B "dd-MM-yyyy 'at' hh:mm:ss.SSS a") with
   | Some (inr p) => pattern_read p (B " 31-01-2026 at 07:05:09.25 pm ") | _ => None end)
  = Some (inr (MkIso (B "2026-01-31") (Some (B "19:05:09.25"))))
  /\ pattern_parse (B "yyyy-MM-dd'T'HH:mm:ss'Z'") = Some (inl (pattern_error_text (B "yyyy-MM-dd'T'HH:mm:ss'Z'") (HoldsZone (B "Z"))))
  /\ normalize_number (B " -1.234.567,50 ") (B ",") (Some (B ".")) = Some (B "-1234567.50")
  /\ normalize_number (B "1.5") (B ",") (Some (B ".")) = None /\ normalize_number (B ",5") (B ",") None = Some (B "0.5").
Proof. vm_compute. by split_and!. Qed.

(** ** Properties

    A date written in a pattern is read as that date, and every date read is one of the
    calendar, for [ImportDates]. *)

#[local] Open Scope nat_scope.

(** ** Patterns *)

Lemma quoted_run_shorter s : forall t r, quoted_run s = Some (t, r) -> length r < length s.
Proof.
  induction s as [s IH] using (induction_ltof1 _ (@length Z)). unfold ltof in IH. intros t r Hq.
  destruct s as [|c s1]; [done|]. cbn [quoted_run] in Hq. destruct (c =b QUOTE).
  - destruct s1 as [|d s2]; [by injection Hq as <- <-; cbn; lia|]. destruct (d =b QUOTE).
    + destruct (quoted_run s2) as [[t2 r2]|] eqn:E; [|done]. injection Hq as <- <-. apply IH in E; cbn; lia.
    + injection Hq as <- <-. cbn. lia.
  - destruct (quoted_run s1) as [[t2 r2]|] eqn:E; [|done]. injection Hq as <- <-. apply IH in E; cbn; lia.
Qed.
Lemma count_while_head p c s : p c = true -> 0 < count_while p (c :: s).
Proof. intros Hp. cbn. rewrite Hp. lia. Qed.
(** A compiled pattern: widths of one or two, as [token_of] makes them. *)
Definition token_ok (t : Token) : Prop := match t with Month w | Day w | Hour24 w | Hour12 w => w = 1 \/ w = 2 | _ => True end.
Lemma token_of_ok c run t : token_of c run = Some t -> token_ok t.
Proof.
  unfold token_of. cbn zeta. repeat match goal with |- context [if ?b then _ else _] => destruct b end;
    destruct run as [|[|[|[|[|run]]]]]; intros [= <-]; cbn; auto.
Qed.
Lemma push_literal_ok c tokens : Forall token_ok tokens -> Forall token_ok (push_literal c tokens).
Proof.
  intros Ht. unfold push_literal. destruct (last tokens) as [[]|] eqn:E; try (apply Forall_app; split; [done|by repeat constructor]).
  apply Forall_app. split; [|by repeat constructor]. destruct tokens as [|x l] using rev_ind; [done|].
  rewrite removelast_last. by apply Forall_app in Ht as [Ht _].
Qed.
(** A turn leaves less to read and keeps the tokens well made. *)
Lemma pattern_turn_ok s tokens : Forall token_ok tokens ->
  match pattern_turn (s, tokens) with
  | inl (s', tokens') => length s' < length s /\ Forall token_ok tokens'
  | inr (inr tokens') => Forall token_ok tokens'
  | inr (inl _) => True
  end.
Proof.
  intros Ht. unfold pattern_turn. destruct s as [|c rest]; [done|]. destruct (c =b QUOTE).
  { destruct (quoted_run rest) as [[text r]|] eqn:E; [|done]. apply quoted_run_shorter in E. split; [cbn; lia|].
    apply Forall_app. split; [done|by repeat constructor]. }
  destruct (is_ascii_alphabetic c); [|split; [cbn; lia|by apply push_literal_ok]].
  destruct (token_of c _) as [t|] eqn:E; [|done]. split.
  - rewrite length_drop. pose proof (count_while_head (fun b => b =b c) c rest ltac:(apply Z.eqb_refl)). cbn [length]. lia.
  - apply Forall_app. split; [done|]. constructor; [by eapply token_of_ok|done].
Qed.
Lemma pattern_loop fuel : forall s tokens, length s < fuel -> Forall token_ok tokens ->
  exists r, iter pattern_turn fuel (s, tokens) = Some r /\ forall l, r = inr l -> Forall token_ok l.
Proof.
  induction fuel as [|fuel IH]; intros s tokens Hf Ht; [lia|]. rewrite iter_S. pose proof (pattern_turn_ok s tokens Ht) as Hp.
  destruct (pattern_turn (s, tokens)) as [[s' tokens']|[e|l]].
  - destruct Hp as [Hl Ht']. apply IH; [lia|done].
  - eexists. split; [done|]. by intros l [=].
  - eexists. split; [done|]. intros l' [= <-]. done.
Qed.
(** What a pattern that is taken holds. *)
Lemma pattern_parse_ok pattern : exists r, pattern_parse pattern = Some r /\
  forall p, r = inr p -> Forall token_ok (dp_tokens p) /\ existsb is_year (dp_tokens p) = true /\ existsb is_month (dp_tokens p) = true
    /\ existsb is_day (dp_tokens p) = true /\ existsb is_hour12 (dp_tokens p) = existsb is_ampm (dp_tokens p).
Proof.
  unfold pattern_parse. destruct (pattern_loop (S (length pattern)) pattern [] ltac:(lia) ltac:(constructor)) as ([e|l] & -> & Hl);
    [eexists; split; [done|]; by intros p [=]|]. destruct (check_tokens l) as [e|] eqn:Ec; (eexists; split; [done|]); [by intros p [=]|].
  intros p [= <-]. cbn [dp_tokens]. unfold check_tokens in Ec. destruct (omap zone_literal l); [|done].
  destruct (existsb is_year l && existsb is_month l && existsb is_day l) eqn:Ed; [|done]. cbn in Ec.
  destruct (Bool.eqb _ _) eqn:Eh; [|done]. apply Bool.eqb_prop in Eh. apply andb_prop in Ed as [[E1 E2]%andb_prop E3].
  split_and!; auto.
Qed.

(** ** What is read is of the calendar *)

Definition fraction_ok (f : bytes) : Prop := digits f /\ 1 <= length f <= 9.
Definition reading_ok (r : Reading) : Prop :=
  (forall y, rd_year r = Some y -> (0 <= y <= 9999)%Z) /\ (forall h, rd_hour r = Some h -> (0 <= h)%Z)
  /\ (0 <= rd_minute r)%Z /\ (0 <= rd_second r)%Z /\ (forall f, rd_fraction r = Some f -> fraction_ok f)
  /\ (forall m, rd_month r = Some m -> (0 <= m)%Z) /\ (forall d, rd_day r = Some d -> (0 <= d)%Z).
Lemma count_digits s : digits (take (count_while is_ascii_digit s) s).
Proof. induction s as [|b s IH]; cbn; [constructor|]. destruct (is_ascii_digit b) eqn:E; cbn; [by constructor|constructor]. Qed.
Lemma count_take p k s : count_while p (take k s) <= k.
Proof. pose proof (count_while_le p (take k s)). rewrite length_take in *. lia. Qed.
Lemma digits_read k s : let run := count_while is_ascii_digit (take k s) in digits (take run s) /\ length (take run s) <= k.
Proof.
  cbn zeta. pose proof (count_take is_ascii_digit k s) as Hk. split; [|rewrite length_take; lia].
  pose proof (count_digits (take k s)) as Hd. rewrite take_take in Hd. by rewrite Nat.min_l in Hd by lia.
Qed.
Lemma take_digits_bound min max s v rest : take_digits min max s = Some (v, rest) -> (0 <= v < 10 ^ Z.of_nat max)%Z.
Proof.
  unfold take_digits. destruct (digits_read max s) as [Hd Hl]. destruct (_ <? min); [done|]. intros [= <- _].
  pose proof (digits_value_bound _ Hd) as Hv. pose proof (Z.pow_le_mono_r 10 (Z.of_nat (length (take (count_while is_ascii_digit (take max s)) s))) (Z.of_nat max) ltac:(lia) ltac:(lia)). lia.
Qed.
Lemma read_token_ok t s r r' s' : reading_ok r -> read_token t s r = inr (r', s') -> reading_ok r'.
Proof.
  intros (Hy & Hh & Hm & Hs & Hf & Hmo & Hd) Hr. unfold reading_ok, read_token in *. destruct t; cbn zeta in Hr;
    try (destruct (take_digits _ _ s) as [[v rest]|] eqn:E; [|done]; apply take_digits_bound in E; injection Hr as <- <-; cbn;
         split_and!; auto; first [lia | intros x [= <-]; first [destruct (v <=? 68)%Z; lia | lia]]).
  - destruct (count_while _ _ =? 0) eqn:E; [done|]. injection Hr as <- <-. cbn. split_and!; auto. intros f [= <-].
    destruct (digits_read 9 s) as [H1' H2']. split; [done|]. split; [|done].
    assert (count_while is_ascii_digit (take 9 s) <= length s) by (etransitivity; [apply count_while_le|rewrite length_take; lia]).
    apply Nat.eqb_neq in E. rewrite length_take. revert E H. generalize (count_while is_ascii_digit (take 9 s)). lia.
  - destruct (bytes_eqb _ _); [by injection Hr as <- <-|]. destruct (bytes_eqb _ _); [by injection Hr as <- <-|done].
  - destruct (starts_with _ _); [by injection Hr as <- <-|done].
Qed.
Lemma read_tokens_ok tokens : forall s r r' s', reading_ok r -> read_tokens tokens s r = inr (r', s') -> reading_ok r'.
Proof.
  induction tokens as [|t tokens IH]; intros s r r' s' Hr Ht; cbn in Ht; [by injection Ht as <- <-|].
  destruct (read_token t s r) as [why|[r1 s1]] eqn:E; [done|]. eapply IH; [|exact Ht]. by eapply read_token_ok.
Qed.
(** A field that a token names is set. *)
Lemma read_tokens_sets (named : Token -> bool) (field : Reading -> option Z) :
  (forall t s r r' s', read_token t s r = inr (r', s') -> named t = true \/ field r <> None -> field r' <> None) ->
  forall tokens s r r' s', read_tokens tokens s r = inr (r', s') -> existsb named tokens = true \/ field r <> None -> field r' <> None.
Proof.
  intros Hset tokens. induction tokens as [|t tokens IH]; intros s r r' s' Ht Hn; cbn in Ht, Hn; [injection Ht as <- <-; by destruct Hn|].
  destruct (read_token t s r) as [why|[r1 s1]] eqn:E; [done|]. eapply IH; [exact Ht|]. pose proof (Hset _ _ _ _ _ E) as Hs1.
  destruct Hn as [[Hn|Hn]%orb_prop|Hn]; auto.
Qed.
Ltac token_cases Hr :=
  unfold read_token in Hr; cbn zeta in Hr;
  repeat match type of Hr with context [match ?x with _ => _ end] => destruct x eqn:? end; simplify_eq/=; try done; try (intros [?|?]; done).
Lemma reads_date tokens s r' s' : existsb is_year tokens = true -> existsb is_month tokens = true -> existsb is_day tokens = true ->
  read_tokens tokens s no_reading = inr (r', s') -> rd_year r' <> None /\ rd_month r' <> None /\ rd_day r' <> None.
Proof.
  intros Hy Hm Hd Ht. split_and!.
  - eapply (read_tokens_sets is_year rd_year); [|exact Ht|by left]. intros t s1 r r2 s2 Hr. destruct t; token_cases Hr.
  - eapply (read_tokens_sets is_month rd_month); [|exact Ht|by left]. intros t s1 r r2 s2 Hr. destruct t; token_cases Hr.
  - eapply (read_tokens_sets is_day rd_day); [|exact Ht|by left]. intros t s1 r r2 s2 Hr. destruct t; token_cases Hr.
Qed.
Lemma month_days_calendar y m : (1 <= m <= 12)%Z -> month_days y m = days_in_month y m.
Proof. intros Hm. unfold month_days, days_in_month, is_leap. assert (m = 1 \/ m = 2 \/ m = 3 \/ m = 4 \/ m = 5 \/ m = 6 \/ m = 7 \/ m = 8 \/ m = 9 \/ m = 10 \/ m = 11 \/ m = 12)%Z as Hc by lia.
  repeat destruct Hc as [->|Hc]; try subst m; done.
Qed.
Definition iso_date_text (y m d : Z) : bytes := pad0 4 y ++ B "-" ++ pad0 2 m ++ B "-" ++ pad0 2 d.
Definition iso_time_text (h mi s : Z) (fraction : option bytes) : bytes :=
  pad0 2 h ++ B ":" ++ pad0 2 mi ++ B ":" ++ pad0 2 s ++ match fraction with Some f => B "." ++ f | None => [] end.
(** The ISO text of a date of the calendar, and of a time of day. *)
Definition iso_sound (iso : IsoDateTime) : Prop :=
  (exists y m d, (0 <= y <= 9999)%Z /\ valid_date (y, m, d) /\ iso_date iso = iso_date_text y m d)
  /\ forall t, iso_time iso = Some t -> exists h mi s fraction, (0 <= h <= 23 /\ 0 <= mi <= 59 /\ 0 <= s <= 59)%Z
       /\ (forall f, fraction = Some f -> fraction_ok f) /\ t = iso_time_text h mi s fraction.
Lemma iso_of_sound r : reading_ok r -> rd_year r <> None -> rd_month r <> None -> rd_day r <> None ->
  exists x, iso_of r = Some x /\ forall iso, x = inr iso -> iso_sound iso.
Proof.
  intros (Hy & Hh & Hmi & Hs & Hf & _ & Hday) Ny Nm Nd. unfold iso_of. destruct (rd_year r) as [y|]; [|done]. destruct (rd_month r) as [m|]; [|done].
  destruct (rd_day r) as [d|]; [|done]. eexists. split; [reflexivity|]. intros iso.
  destruct ((1 <=? m) && (m <=? 12))%Z eqn:Em; cbn [negb]; [|done]. destruct ((d =? 0) || _)%Z eqn:Ed; [done|].
  destruct (match rd_hour r with Some h => _ | None => _ end) as [why|hour] eqn:Ehour; [done|].
  destruct ((match hour with Some h => _ | None => _ end) || _ || _) eqn:Et; [done|]. intros [= <-].
  specialize (Hy _ eq_refl). specialize (Hday _ eq_refl). rewrite month_days_calendar in Ed by lia. split.
  - exists y, m, d. unfold valid_date. apply orb_false_iff in Ed as [Ed1 Ed2]. split; [lia|]. split; [lia|done].
  - cbn. intros t Ht. destruct hour as [h|]; [|done]. injection Ht as <-. exists h, (rd_minute r), (rd_second r), (rd_fraction r).
    split; [|by split]. assert (0 <= h)%Z; [|lia]. destruct (rd_hour r) as [h0|] eqn:Eh0; [specialize (Hh _ eq_refl)|done].
    destruct (rd_pm r) as [pm|]; [|by injection Ehour as ->]. destruct (negb _); [done|]. injection Ehour as <-. pose proof (Z.mod_pos_bound h0 12 ltac:(lia)). destruct pm; lia.
Qed.

(** ** A date written is read *)

Record Moment := MkMoment { mo_year : Z; mo_month : Z; mo_day : Z; mo_hour : Z; mo_minute : Z; mo_second : Z; mo_fraction : bytes }.
Definition number_text (width : nat) (n : Z) : bytes := if width =? 2 then pad0 2 n else decimal n.
Definition hour12 (h : Z) : Z := if (h mod 12 =? 0)%Z then 12%Z else (h mod 12)%Z.
(** A moment as a token of a pattern writes it. *)
Definition show_token (m : Moment) (t : Token) : bytes :=
  match t with
  | Year4 => pad0 4 (mo_year m)
  | Year2 => pad0 2 (mo_year m mod 100)
  | Month w => number_text w (mo_month m)
  | Day w => number_text w (mo_day m)
  | Hour24 w => number_text w (mo_hour m)
  | Hour12 w => number_text w (hour12 (mo_hour m))
  | Minute => pad0 2 (mo_minute m)
  | Second => pad0 2 (mo_second m)
  | Fraction => mo_fraction m
  | AmPm => if (12 <=? mo_hour m)%Z then B "PM" else B "AM"
  | Literal text => text
  end.
Definition show (m : Moment) (tokens : list Token) : bytes := mjoin (show_token m <$> tokens).
Definition moment_ok (m : Moment) : Prop :=
  (0 <= mo_year m <= 9999)%Z /\ valid_date (mo_year m, mo_month m, mo_day m)
  /\ (0 <= mo_hour m <= 23 /\ 0 <= mo_minute m <= 59 /\ 0 <= mo_second m <= 59)%Z /\ (mo_fraction m <> [] -> fraction_ok (mo_fraction m)).
(** A token of no fixed width is followed by something that is not a digit. *)
Definition no_digit (s : bytes) : Prop := match s with b :: _ => is_ascii_digit b = false | [] => True end.
Definition variable_width (t : Token) : bool := match t with Month 1 | Day 1 | Hour24 1 | Hour12 1 | Fraction => true | _ => false end.
Fixpoint separated (m : Moment) (tokens : list Token) : Prop :=
  match tokens with
  | [] => True
  | t :: rest => (variable_width t = true -> no_digit (show m rest)) /\ separated m rest
  end.
(** The years of [yy]. *)
Definition year_fits (m : Moment) (tokens : list Token) : Prop := Year2 ∈ tokens -> (1969 <= mo_year m <= 2068)%Z.
(** A pattern with a fraction writes one. *)
Definition fraction_written (m : Moment) (tokens : list Token) : Prop := Fraction ∈ tokens -> mo_fraction m <> [].
Definition mark (m : Moment) (t : Token) (r : Reading) : Reading :=
  match t with
  | Year4 | Year2 => set_year (mo_year m) r
  | Month _ => set_month (mo_month m) r
  | Day _ => set_day (mo_day m) r
  | Hour24 _ => set_hour (mo_hour m) r
  | Hour12 _ => set_hour (hour12 (mo_hour m)) r
  | Minute => set_minute (mo_minute m) r
  | Second => set_second (mo_second m) r
  | Fraction => set_fraction (mo_fraction m) r
  | AmPm => set_pm (12 <=? mo_hour m)%Z r
  | Literal _ => r
  end.
Lemma count_run d k s : digits d -> length d <= k -> length d = k \/ no_digit s -> count_while is_ascii_digit (take k (d ++ s)) = length d.
Proof.
  intros Hd. revert k. induction Hd as [|b d Hb Hd IH]; intros k Hk Hs.
  - destruct k; [done|]. destruct Hs as [Hs|Hs]; [done|]. destruct s as [|x s]; [done|]. cbn in *. by rewrite Hs.
  - destruct k; [cbn in Hk; lia|]. cbn in *. rewrite Hb. f_equal. apply IH; [lia|]. destruct Hs; [left; lia|by right].
Qed.
Lemma take_digits_run min max d s v : digits d -> min <= length d <= max -> length d = max \/ no_digit s -> digits_value d = v ->
  take_digits min max (d ++ s) = Some (v, s).
Proof.
  intros Hd Hl Hs <-. unfold take_digits. rewrite count_run by (done || lia). replace (length d <? min) with false by (symmetry; apply Nat.ltb_ge; lia).
  by rewrite take_app_length, drop_app_length.
Qed.
Lemma padded_run k n s : (0 <= n < 10 ^ Z.of_nat k)%Z -> k <> 0 -> take_digits k k (pad0 k n ++ s) = Some (n, s).
Proof.
  intros Hn Hk. pose proof (length_pad0 k n Hn Hk) as Hl. destruct (pad0_spec k n ltac:(lia)) as (Hd & _ & Hv).
  apply take_digits_run; [done|lia|by left|done].
Qed.
Lemma number_run w n s : w = 1 \/ w = 2 -> (0 <= n <= 99)%Z -> (w = 1 -> no_digit s) ->
  take_digits (Nat.min w 2) 2 (number_text w n ++ s) = Some (n, s).
Proof.
  intros [->| ->] Hn Hs; cbn [number_text Nat.eqb Nat.min].
  - pose proof (length_decimal n 2 ltac:(cbn; lia) ltac:(done)). pose proof (decimal_nonempty n). pose proof (decimal_digits n) as Hd.
    apply take_digits_run; [done| |right; auto|apply decimal_value; lia]. split; [|lia]. destruct (decimal n); [done|cbn; lia].
  - apply padded_run; [cbn; lia|done].
Qed.
Lemma mod_100 y : (1969 <= y <= 2068)%Z -> (if (y mod 100 <=? 68)%Z then 2000 + y mod 100 else 1900 + y mod 100)%Z = y.
Proof.
  intros Hy. pose proof (Z.div_mod y 100 ltac:(lia)). pose proof (Z.mod_pos_bound y 100 ltac:(lia)).
  assert (y / 100 = 19 \/ y / 100 = 20)%Z as [E|E] by (assert (19 <= y / 100 <= 20)%Z by (split; [apply Z.div_le_lower_bound; lia|apply Z.lt_succ_r, Z.div_lt_upper_bound; lia]); lia); destruct (y mod 100 <=? 68)%Z eqn:?; lia.
Qed.
Lemma read_shown m t s r : moment_ok m -> token_ok t -> (variable_width t = true -> no_digit s) -> (t = Year2 -> (1969 <= mo_year m <= 2068)%Z) -> (t = Fraction -> mo_fraction m <> []) ->
  read_token t (show_token m t ++ s) r = inr (mark m t r, s).
Proof.
  intros (Hy & [Hm Hd] & (Hh & Hmi & Hs) & Hf) Ht Hv H2 Hfr. assert (days_in_month (mo_year m) (mo_month m) <= 31)%Z as Hdm by (rewrite days_in_month_bound by done; repeat case_match; lia).
  pose proof (Z.mod_pos_bound (mo_hour m) 12 ltac:(lia)). assert (0 <= hour12 (mo_hour m) <= 99)%Z by (unfold hour12; destruct (_ =? 0)%Z; lia).
  destruct t; cbn [read_token show_token mark variable_width token_ok] in *; cbn zeta.
  - by rewrite padded_run by (cbn; lia).
  - pose proof (Z.mod_pos_bound (mo_year m) 100 ltac:(lia)). rewrite padded_run by (cbn; lia). by rewrite mod_100 by auto.
  - rewrite number_run; [done|done|lia|by intros ->; apply Hv].
  - rewrite number_run; [done|done|lia|by intros ->; apply Hv].
  - rewrite number_run; [done|done|lia|by intros ->; apply Hv].
  - rewrite number_run; [done|done|lia|by intros ->; apply Hv].
  - by rewrite padded_run by (cbn; lia).
  - by rewrite padded_run by (cbn; lia).
  - destruct (Hf (Hfr eq_refl)) as [Hfd Hfl]. rewrite count_run; [|done|lia|right; auto]. replace (length (mo_fraction m) =? 0) with false by (symmetry; apply Nat.eqb_neq; lia).
    by rewrite take_app_length, drop_app_length.
  - by destruct (12 <=? mo_hour m)%Z.
  - by rewrite starts_with_app, drop_app_length.
Qed.
Lemma reads_shown m tokens : moment_ok m -> Forall token_ok tokens -> separated m tokens -> year_fits m tokens -> fraction_written m tokens ->
  forall r, read_tokens tokens (show m tokens) r = inr (foldl (fun r t => mark m t r) r tokens, []).
Proof.
  intros Hm. induction tokens as [|t tokens IH]; intros Ht Hs Hy Hf r; [done|]. apply Forall_cons in Ht as [Ht1 Ht2]. destruct Hs as [Hs1 Hs2].
  cbn [read_tokens foldl]. change (show m (t :: tokens)) with (show_token m t ++ show m tokens). rewrite read_shown; [|done|done|exact Hs1| |].
  - apply IH; [done|done| |]; [intros H2; apply Hy; by right|intros H2; apply Hf; by right].
  - intros ->. apply Hy. by left.
  - intros ->. apply Hf. by left.
Qed.
(** What the tokens of a pattern set. *)
Definition is_hour24 (t : Token) : bool := match t with Hour24 _ => true | _ => false end.
Definition is_minute (t : Token) : bool := match t with Minute => true | _ => false end.
Definition is_second (t : Token) : bool := match t with Second => true | _ => false end.
Definition is_fraction (t : Token) : bool := match t with Fraction => true | _ => false end.
Definition marked (m : Moment) (tokens : list Token) (r : Reading) : Reading :=
  let has f := existsb f tokens in
  MkReading (if has is_year then Some (mo_year m) else rd_year r) (if has is_month then Some (mo_month m) else rd_month r)
    (if has is_day then Some (mo_day m) else rd_day r)
    (if has is_hour24 then Some (mo_hour m) else if has is_hour12 then Some (hour12 (mo_hour m)) else rd_hour r)
    (if has is_minute then mo_minute m else rd_minute r) (if has is_second then mo_second m else rd_second r)
    (if has is_fraction then Some (mo_fraction m) else rd_fraction r) (if has is_ampm then Some (12 <=? mo_hour m)%Z else rd_pm r).
Lemma marks m tokens : forall r, existsb is_hour24 tokens && existsb is_hour12 tokens = false ->
  foldl (fun r t => mark m t r) r tokens = marked m tokens r.
Proof.
  induction tokens as [|t tokens IH]; intros r Hx; [by destruct r|]. cbn [foldl]. rewrite IH.
  - destruct t; unfold marked; cbn [existsb is_year is_month is_day is_hour24 is_hour12 is_minute is_second is_fraction is_ampm orb mark];
      cbn -[existsb]; cbn in Hx; repeat match goal with |- context [existsb ?f tokens] => destruct (existsb f tokens) end; done.
  - cbn in Hx. destruct (is_hour24 t), (is_hour12 t), (existsb is_hour24 tokens), (existsb is_hour12 tokens); done.
Qed.
(** The ISO texts of what a pattern writes of a moment. *)
Definition iso_written (m : Moment) (tokens : list Token) : IsoDateTime :=
  let has f := existsb f tokens in
  MkIso (iso_date_text (mo_year m) (mo_month m) (mo_day m))
    (if has is_hour24 || has is_hour12 then
       Some (iso_time_text (mo_hour m) (if has is_minute then mo_minute m else 0) (if has is_second then mo_second m else 0)
               (if has is_fraction then Some (mo_fraction m) else None))
     else None).
Lemma hour12_back h : (0 <= h <= 23)%Z -> (1 <= hour12 h <= 12)%Z /\ (hour12 h mod 12 + (if 12 <=? h then 12 else 0))%Z = h.
Proof.
  intros Hh. assert (h = 0 \/ 1 <= h <= 11 \/ h = 12 \/ 13 <= h <= 23)%Z as [->|[H1'|[->|H1']]] by lia; [done| |done|].
  - unfold hour12. rewrite (Z.mod_small h 12) by lia. replace (h =? 0)%Z with false by lia. rewrite (Z.mod_small h 12) by lia. replace (12 <=? h)%Z with false by lia. lia.
  - unfold hour12. assert (h mod 12 = h - 12)%Z as -> by (symmetry; apply (Z.mod_unique_pos h 12 1); lia). replace (h - 12 =? 0)%Z with false by lia.
    rewrite (Z.mod_small (h - 12) 12) by lia. replace (12 <=? h)%Z with true by lia. lia.
Qed.
Lemma iso_marked m tokens : moment_ok m -> existsb is_year tokens = true -> existsb is_month tokens = true -> existsb is_day tokens = true ->
  existsb is_hour12 tokens = existsb is_ampm tokens -> existsb is_hour24 tokens && existsb is_hour12 tokens = false ->
  iso_of (marked m tokens no_reading) = Some (inr (iso_written m tokens)).
Proof.
  intros (Hy & [Hm Hd] & (Hh & Hmi & Hs) & _) Ey Em Ed Eap Ex. unfold iso_of, marked, iso_written. cbn zeta. cbn [rd_year rd_month rd_day]. rewrite Ey, Em, Ed.
  rewrite month_days_calendar by lia. replace ((1 <=? mo_month m) && (mo_month m <=? 12))%Z with true by lia.
  replace ((mo_day m =? 0) || (days_in_month (mo_year m) (mo_month m) <? mo_day m))%Z with false by lia. cbn [negb].
  cbn [rd_hour rd_pm rd_minute rd_second rd_fraction no_reading]. rewrite <- Eap.
  assert (((59 <? (if existsb is_minute tokens then mo_minute m else 0)) || (59 <? (if existsb is_second tokens then mo_second m else 0)))%Z = false) as Hms
    by (destruct (existsb is_minute tokens), (existsb is_second tokens); lia).
  destruct (existsb is_hour24 tokens), (existsb is_hour12 tokens); try discriminate Ex; cbn [orb].
  - replace (23 <? mo_hour m)%Z with false by lia. cbn [orb]. rewrite Hms. done.
  - destruct (hour12_back (mo_hour m) Hh) as [H1' H2']. replace ((1 <=? hour12 (mo_hour m)) && (hour12 (mo_hour m) <=? 12))%Z with true by lia.
    cbn [negb]. rewrite H2'. replace (23 <? mo_hour m)%Z with false by lia. cbn [orb]. rewrite Hms. done.
  - rewrite Hms. done.
Qed.
(** A moment that a pattern writes whole: what it does not name is midnight's, and where it names minutes, seconds or
    a fraction it names the hour. *)
Definition has_hour (tokens : list Token) : bool := existsb is_hour24 tokens || existsb is_hour12 tokens.
Definition clock_has_hour (tokens : list Token) : Prop := existsb is_minute tokens || existsb is_second tokens || existsb is_fraction tokens = true -> has_hour tokens = true.
Definition written_whole (m : Moment) (tokens : list Token) : Prop :=
  (has_hour tokens = false -> mo_hour m = 0%Z) /\ (existsb is_minute tokens = false -> mo_minute m = 0%Z)
  /\ (existsb is_second tokens = false -> mo_second m = 0%Z) /\ (mo_fraction m <> [] <-> existsb is_fraction tokens = true).
(** The ISO timestamp of a moment. *)
Definition timestamp_of (m : Moment) : bytes :=
  iso_date_text (mo_year m) (mo_month m) (mo_day m) ++ [SP]
  ++ iso_time_text (mo_hour m) (mo_minute m) (mo_second m) (match mo_fraction m with [] => None | f => Some f end).
Lemma iso_whole m tokens : written_whole m tokens -> clock_has_hour tokens -> iso_timestamp (iso_written m tokens) = timestamp_of m.
Proof.
  intros (Hh & Hmi & Hs & Hf) Hc. unfold iso_timestamp, iso_written, timestamp_of. cbn zeta. cbn [iso_date iso_time]. f_equal. f_equal.
  assert ((if existsb is_fraction tokens then Some (mo_fraction m) else None) = match mo_fraction m with [] => None | f => Some f end) as Hfr.
  { destruct (existsb is_fraction tokens) eqn:E; [by destruct (mo_fraction m); [destruct (proj2 Hf eq_refl)|]|].
    destruct (mo_fraction m); [done|]. by discriminate (proj1 Hf ltac:(done)). }
  unfold has_hour, clock_has_hour in *. destruct (existsb is_hour24 tokens || existsb is_hour12 tokens) eqn:E; cbn [default].
  - rewrite Hfr. destruct (existsb is_minute tokens) eqn:E1, (existsb is_second tokens) eqn:E2; rewrite ?Hmi, ?Hs by done; done.
  - fold has_hour in *. unfold has_hour in Hc. rewrite E in Hc. destruct (existsb is_minute tokens); [by specialize (Hc eq_refl)|].
    destruct (existsb is_second tokens); [by specialize (Hc eq_refl)|]. destruct (existsb is_fraction tokens); [by specialize (Hc eq_refl)|].
    rewrite <- Hfr, (Hh eq_refl), (Hmi eq_refl), (Hs eq_refl). done.
Qed.
(** C26: A date is read as it is written. Compiling a pattern ends, and reading through a compiled one never
    panics. What it reads is a date of the calendar and a time of day, as the ISO texts of them. A
    moment written as the pattern says is read back as that moment, its ISO timestamp the very one:
    day and month never change places, a twelve-hour clock with AM or PM is the hour it means. For
    that every number of no fixed width is set off from the digits after it, a year of two digits
    is one from 1969 to 2068, the pattern has one kind of clock, the text no blanks at its ends,
    what the pattern does not name is midnight's, and a pattern with minutes, seconds or a fraction
    has an hour. *)
Theorem dates_are_read_as_written pattern : exists r, pattern_parse pattern = Some r /\ forall p, r = inr p ->
  (forall text, exists x, pattern_read p text = Some x /\ forall iso, x = inr iso -> iso_sound iso)
  /\ forall m, moment_ok m -> written_whole m (dp_tokens p) -> clock_has_hour (dp_tokens p) -> separated m (dp_tokens p) -> year_fits m (dp_tokens p) ->
       existsb is_hour24 (dp_tokens p) && existsb is_hour12 (dp_tokens p) = false -> trim (show m (dp_tokens p)) = show m (dp_tokens p) ->
       exists iso, pattern_read p (show m (dp_tokens p)) = Some (inr iso) /\ iso_timestamp iso = timestamp_of m.
Proof.
  destruct (pattern_parse_ok pattern) as (r & Hr & Hok). exists r. split; [done|]. intros p Hp. destruct (Hok p Hp) as (Ht & Hy & Hm & Hd & Hap). split.
  - intros text. unfold pattern_read. cbn zeta. destruct (read_tokens (dp_tokens p) (trim text) no_reading) as [why|[r1 [|b rest]]] eqn:E;
      [eexists; split; [done|]; by intros ? [=]| |eexists; split; [done|]; by intros ? [=]].
    destruct (reads_date _ _ _ _ Hy Hm Hd E) as (Ny & Nm & Nd). assert (reading_ok no_reading) as H0' by (split_and!; done || lia).
    destruct (iso_of_sound r1 (read_tokens_ok _ _ _ _ _ H0' E) Ny Nm Nd) as (x & -> & Hx).
    destruct x as [why|iso]; (eexists; split; [done|]); intros ? [=]; subst; by apply Hx.
  - intros m Hmo Hwhole Hclock Hs Hyf Hx Htrim. exists (iso_written m (dp_tokens p)). split; [|by apply iso_whole].
    unfold pattern_read. cbn zeta. rewrite Htrim, reads_shown; try done; [by rewrite marks, iso_marked by done|].
    intros Hin. apply Hwhole, existsb_exists. exists Fraction. by split; [apply list_elem_of_In|].
Qed.
Module SmallDates.
Definition pattern : bytes := B "d/M/yy hh:mm:ss.S a".
Definition evening : Moment := MkMoment 2024 4 3 19 5 9 (B "250").
End SmallDates.
(** Minutes that no hour goes with are read and dropped: the timestamp is midnight. *)
Example minutes_without_hour_are_dropped :
  match pattern_parse (B "yyyy-MM-dd mm:ss") with
  | Some (inr p) => (fun x => sum_map (fun e => e) iso_timestamp x) <$> pattern_read p (B "2024-03-04 10:30") | _ => None end
  = Some (inr (B "2024-03-04 00:00:00")).
Proof. vm_compute. reflexivity. Qed.
Lemma dates_are_read_as_written_witness : exists p, pattern_parse SmallDates.pattern = Some (inr p)
  /\ show SmallDates.evening (dp_tokens p) = B "3/4/24 07:05:09.250 PM"
  /\ exists iso, pattern_read p (B "3/4/24 07:05:09.250 PM") = Some (inr iso) /\ iso_timestamp iso = B "2024-04-03 19:05:09.250".
Proof.
  destruct (dates_are_read_as_written SmallDates.pattern) as (r & Hr & Hp). vm_compute in Hr. injection Hr as <-.
  eexists. split; [vm_compute; reflexivity|]. split; [vm_compute; reflexivity|].
  refine (proj2 (Hp _ eq_refl) SmallDates.evening _ _ _ _ _ _ _).
  - unfold moment_ok, valid_date, fraction_ok. cbn. split_and!; try lia. intros _. split; [by apply digits_of_forallb|lia].
  - split_and!; by vm_compute.
  - by vm_compute.
  - cbn. split_and!; done.
  - intros _. cbn. lia.
  - reflexivity.
  - vm_compute. reflexivity.
Defined.
