(* ===== verification/ImportPlan.v ===== *)
(** * ImportPlan: what an import reads of its settings and writes of a row, [crates/qh-ffi/src/import.rs]
    but for its runs, and [excel_digits] of [crates/qh-import/src/xlsx_source.rs].

    A cell is a text or a definite NULL. [serde_json], the code pages and what is asked of a float are
    parameters; a character of a setting is the bytes of its UTF-8 form. *)
From stdpp Require Import gmap.
From S2P Require Import Prelude Bytes Text Scan Classify Env Guard Ident Value Json Batch Names TransferPlan TransferRun TransferSetup.
From S2P Require Import TableSwap Apply ImportDates.
#[local] Open Scope nat_scope.

Definition IMPORT_BATCH : Z := 200.
Definition MAX_ERRORS : nat := 1000.
Definition IMPORT_SQL_MAX_BYTES : Z := 512 * 1024 * 1024.
Definition UNMAPPED_KEYS_KEPT : nat := 20.
Definition Cell : Type := option bytes.
Definition Cells : Type := list Cell.
Inductive SourceFormat := Csv | Xlsx.
#[export] Instance SourceFormat_eq_dec : EqDecision SourceFormat.
Proof. solve_decision. Defined.
Inductive RowFormat := TableFormat (f : SourceFormat) | JsonFormat.
#[export] Instance RowFormat_eq_dec : EqDecision RowFormat.
Proof. solve_decision. Defined.
Inductive Source := RowSource (f : RowFormat) | Statements.
Definition source_format_name (f : SourceFormat) : bytes := match f with Csv => B "csv" | Xlsx => B "xlsx" end.
Definition row_format_name (f : RowFormat) : bytes := match f with TableFormat f => source_format_name f | JsonFormat => B "json" end.
Definition source_format_parse (name : bytes) : option SourceFormat :=
  let name := lower (trim name) in
  if bytes_eqb name (B "csv") then Some Csv else if bytes_eqb name (B "xlsx") then Some Xlsx else None.
Record JsonRow := MkRow { jr_line : nat; jr_cells : Cells; jr_numeric : list bool }.
Inductive Mode := Stop_ | CommitPrefix | Skip_.
#[export] Instance Mode_eq_dec : EqDecision Mode.
Proof. solve_decision. Defined.
Definition is_skip (m : Mode) : bool := match m with Skip_ => true | _ => false end.
Definition one_name (name : bytes) (names : list string) : bool := existsb (fun n => bytes_eqb name (B n)) names.
Definition mode_parse (name : bytes) : option Mode :=
  let name := lower (trim name) in
  if one_name name ["stop"; "stopandrollback"; "rollback"]%string then Some Stop_
  else if one_name name ["commit"; "stopandcommit"]%string then Some CommitPrefix
  else if one_name name ["skip"; "skipandcontinue"]%string then Some Skip_
  else None.
Definition mode_str (m : Mode) : bytes := match m with Stop_ => B "stop" | CommitPrefix => B "commit" | Skip_ => B "skip" end.
Definition mode_of (s : Settings) : RunError + Mode :=
  let raw := setting_text s (B "ON_ERROR") (B "stop") in
  match mode_parse raw with
  | Some m => inr m
  | None => inl (RUsage (B "unknown ON_ERROR '" ++ raw ++ B "'; expected stop, commit or skip"))
  end.
Definition optional (value : bytes) : option bytes := if is_empty value then None else Some value.

(** ** The types of a target *)

Inductive Kind := KInteger | KNumber | KDate | KTimestamp | KOther.
(** A type name without its width or precision. *)
Definition base_type (type_name : bytes) : bytes := lower (trim (default type_name (head (split_byte 40 type_name)))).
Definition NUMERIC_TYPES : list string :=
  ["tinyint"; "smallint"; "int"; "integer"; "bigint"; "int2"; "int4"; "int8"; "serial"; "bigserial"; "smallserial"; "real"; "float";
   "float4"; "float8"; "double"; "double precision"; "decimal"; "numeric"; "number"]%string.
Definition is_numeric (type_name : bytes) : bool := one_name (base_type type_name) NUMERIC_TYPES.
Definition is_boolean (type_name : bytes) : bool := one_name (base_type type_name) ["bool"; "boolean"]%string.
Definition kind_of (type_name : bytes) : Kind :=
  let base := base_type type_name in
  if one_name base ["tinyint"; "smallint"; "mediumint"; "int"; "integer"; "bigint"; "int2"; "int4"; "int8"; "serial"; "bigserial"; "smallserial"]%string
  then KInteger
  else if is_numeric type_name then KNumber
  else if bytes_eqb base (B "date") then KDate
  else if one_name base ["timestamp"; "timestamptz"; "datetime"; "timestamp with time zone"; "timestamp without time zone"]%string then KTimestamp
  else KOther.
Definition IMPORT_TRUE : list string := ["true"; "t"; "1"; "yes"; "y"]%string.
Definition IMPORT_FALSE : list string := ["false"; "f"; "0"; "no"; "n"]%string.

(** ** Settings *)

Record Rules := MkRules { ru_decimal : option bytes; ru_grouping : option bytes; ru_date : option DatePattern; ru_short_rows : bool }.
Definition reads_values (r : Rules) : bool := match ru_decimal r, ru_date r with None, None => false | _, _ => true end.
Definition one_char (s : Settings) (key : string) : RunError + option bytes :=
  let raw := raw s (B key) [] in
  match take_chars 1 raw with
  | ([], _) => inr None
  | (c, rest) =>
      if is_empty rest && negb (all_digits c) && negb (one_name c ["+"; "-"]%string) then inr (Some c)
      else inl (RUsage (B key ++ B " must be one character that is not a digit or a sign, got '" ++ raw ++ B "'"))
  end.
Definition option_eqb (a b : option bytes) : bool :=
  match a, b with Some a, Some b => bytes_eqb a b | None, None => true | _, _ => false end.
Definition given {A} (o : option A) : bool := match o with Some _ => true | None => false end.
Definition rules_of (s : Settings) : RunError + Rules :=
  match one_char s "DECIMAL_SEPARATOR" with
  | inl e => inl e
  | inr decimal =>
      match one_char s "GROUPING_SEPARATOR" with
      | inl e => inl e
      | inr grouping =>
          if given grouping && negb (given decimal) then
            inl (RUsage (B "GROUPING_SEPARATOR is only read together with DECIMAL_SEPARATOR: without it              '1.500' could be 1500 or 1.5"))
          else if given decimal && option_eqb decimal grouping then
            inl (RUsage (B "DECIMAL_SEPARATOR and GROUPING_SEPARATOR must be different characters"))
          else
            let rules date := inr (MkRules decimal grouping date (flag s (B "ALLOW_SHORT_ROWS") false)) in
            match optional (setting_text s (B "DATE_FORMAT") []) with
            | None => rules None
            | Some pattern =>
                match pattern_parse pattern with
                | Some (inr p) => rules (Some p)
                | Some (inl e) => inl (RUsage e)
                | None => rules None
                end
            end
      end
  end.
(** [limit_of]: zero is the crate's default. *)
Definition limit_of (s : Settings) (key : string) : RunError + option Z :=
  match setting (number s (B key) 0) with
  | inl e => inl e
  | inr value =>
      if (value <? 0)%Z then inl (RUsage (B key ++ B " must be a positive number, got " ++ signed value))
      else inr (if (value =? 0)%Z then None else Some value)
  end.
(** A positive number, or its default. *)
Definition positive_or (s : Settings) (key : string) (fallback : Z) : RunError + Z :=
  match setting (number s (B key) fallback) with
  | inl e => inl e
  | inr n => inr (if (0 <? n)%Z then n else fallback)
  end.
Definition delimiter (s : Settings) : RunError + option bytes :=
  let raw := raw s (B "DELIMITER") [] in
  if is_empty raw then inr None
  else
    match take_chars 1 raw with
    | ([], _) => inl (RUsage (B "DELIMITER must be one character"))
    | (c, []) => inr (Some c)
    | (_, _ :: _) => inl (RUsage (B "DELIMITER must be a single character, got '" ++ raw ++ B "'"))
    end.
Definition target_parts (s : Settings) : bytes * bytes * bytes :=
  (setting_text s (B "TARGET_CATALOG") [], setting_text s (B "TARGET_SCHEMA") [], setting_text s (B "TARGET_TABLE") []).

(** ** The file *)

Definition SLASH : Z := 47.
Definition path_join (base rest : bytes) : bytes :=
  if starts_with rest [SLASH] then rest
  else if is_empty base || Text.ends_with base [SLASH] then base ++ rest else base ++ [SLASH] ++ rest.
Definition expand_user (home : option bytes) (path : bytes) : bytes :=
  match strip_prefix path (B "~/") with
  | Some rest => match home with Some (_ :: _ as home) => path_join home rest | _ => path end
  | None => path
  end.
Definition source_path (home : option bytes) (cwd : bytes + bytes) (exists_ : bytes -> bool) (s : Settings) : RunError + bytes :=
  let raw := setting_text s (B "IMPORT_PATH") [] in
  let raw := if is_empty raw then setting_text s (B "IMPORT_FILE") [] else raw in
  if is_empty raw then inl (RUsage (B "IMPORT_PATH is required: the CSV, XLSX, JSON or SQL file to read"))
  else
    let path := expand_user home raw in
    match (if starts_with path [SLASH] then inr path else match cwd with inl e => inl (RInternal e) | inr dir => inr (path_join dir path) end) with
    | inl e => inl e
    | inr path => if exists_ path then inr path else inl (RUsage (B "IMPORT_PATH '" ++ path ++ B "' does not exist"))
    end.
(** [Path::file_name] and [Path::extension]. *)
Definition file_name (path : bytes) : option bytes :=
  match last (List.filter (fun c => negb (is_empty c || bytes_eqb c (B "."))) (split_byte SLASH path)) with
  | Some c => if bytes_eqb c (B "..") then None else Some c
  | None => None
  end.
Definition path_extension (path : bytes) : option bytes :=
  match file_name path ≫= rsplit_once (fun b => b =b 46) with
  | Some (_ :: _, after) => Some after
  | _ => None
  end.
Definition is_json_name (name : bytes) : bool := one_name (lower (trim name)) ["json"; "jsonl"; "ndjson"]%string.
Definition source_of (s : Settings) (path : bytes) : RunError + Source :=
  let raw := setting_text s (B "IMPORT_FORMAT") [] in
  if negb (is_empty (trim raw)) then
    if eq_ignore_ascii_case (trim raw) (B "sql") then inr Statements
    else if is_json_name raw then inr (RowSource JsonFormat)
    else match source_format_parse raw with
         | Some f => inr (RowSource (TableFormat f))
         | None => inl (RUsage (B "unknown IMPORT_FORMAT '" ++ raw ++ B "'; expected csv, xlsx, json or sql"))
         end
  else
    let extension := lower (default [] (path_extension path)) in
    if one_name extension ["csv"; "tsv"]%string then inr (RowSource (TableFormat Csv))
    else if one_name extension ["xlsx"; "xlsm"]%string then inr (RowSource (TableFormat Xlsx))
    else if one_name extension ["json"; "jsonl"; "ndjson"]%string then inr (RowSource JsonFormat)
    else if bytes_eqb extension (B "sql") then inr Statements
    else inl (RUsage (B "cannot tell the format from extension '" ++ extension ++ B "'; set IMPORT_FORMAT to csv, xlsx, json or sql")).
(** The text of a [.sql] file. *)
Fixpoint utf16_units (big_endian : bool) (s : bytes) : option (list Z) :=
  match s with
  | [] => Some []
  | [_] => None
  | a :: b :: s => (fun us => (if big_endian then a * 256 + b else a + b * 256)%Z :: us) <$> utf16_units big_endian s
  end.
(** [char::decode_utf16]: a unit from D800 to DBFF needs one from DC00 to DFFF after it. *)
Fixpoint decode_utf16 (units : list Z) : option bytes :=
  match units with
  | [] => Some []
  | u :: rest =>
      if ((u <? 0xD800) || (0xDFFF <? u))%Z then app (encode_utf8 u) <$> decode_utf16 rest
      else if (0xDC00 <=? u)%Z then None
      else match rest with
           | v :: rest =>
               if ((0xDC00 <=? v) && (v <=? 0xDFFF))%Z
               then app (encode_utf8 (0x10000 + (u - 0xD800) * 1024 + (v - 0xDC00))) <$> decode_utf16 rest
               else None
           | [] => None
           end
  end.
(** The length of the longest valid beginning, [Utf8Error::valid_up_to]. *)
Fixpoint valid_up_to (fuel : nat) (s : bytes) : nat :=
  match fuel with
  | O => 0
  | S fuel =>
      let try n := bool_decide (n <= length s) && valid_utf8 (take n s) in
      match s with
      | [] => 0
      | _ => match (if try 1 then Some 1 else if try 2 then Some 2 else if try 3 then Some 3 else if try 4 then Some 4 else None) with
             | Some n => n + valid_up_to fuel (drop n s)
             | None => 0
             end
      end
  end.
Definition decode_sql (content : bytes) : bytes + bytes :=
  let utf16 rest big_endian :=
    match utf16_units big_endian rest with
    | None => inl (B "is UTF-16 but ends in the middle of a character")
    | Some units => match decode_utf16 units with Some t => inr t | None => inl (B "is UTF-16 with an unpaired surrogate") end
    end in
  match strip_prefix content [0xFF; 0xFE]%Z with
  | Some rest => utf16 rest false
  | None =>
      match strip_prefix content [0xFE; 0xFF]%Z with
      | Some rest => utf16 rest true
      | None =>
          let body := default content (strip_prefix content [0xEF; 0xBB; 0xBF]%Z) in
          if valid_utf8 body then inr body
          else
            let at_ := valid_up_to (S (length body)) body in
            let line := S (length (List.filter (fun b => b =b LF) (take at_ body))) in
            inl (B "is not valid UTF-8 (first bad byte at offset " ++ decimal (Z.of_nat at_) ++ B ", line " ++ decimal (Z.of_nat line)
                 ++ B "); a mysqldump of a binary column needs --hex-blob, and a legacy-encoded file needs converting first")
      end
  end.

(** ** Values *)

(** What is asked of a float here: whether it has a fraction, whether it is of an exact magnitude, and its
    text with fourteen decimals. *)
Class FloatParts `{Float} := { fract_is_zero : f64 -> bool; below_9e15 : f64 -> bool; exp_14 : f64 -> bytes }.
Record Target := MkTarget { tg_source : nat; tg_name : bytes; tg_sql_name : bytes; tg_type_name : bytes; tg_kind : Kind }.
Record Plan := MkPlan { pl_table_sql : bytes; pl_table_reference : bytes; pl_targets : list Target; pl_null_text : option bytes;
  pl_blank_is_empty : bool; pl_style : SlotStyle; pl_rules : Rules }.
Section Values.
Context `{FloatParts}.

Definition finite (f : f64) : bool := negb (is_nan f) && negb (is_infinite f).
Definition is_number (text : bytes) : bool :=
  let trimmed := trim text in
  negb (is_empty trimmed)
  && (given (parse_i64 trimmed) || match parse_f64 trimmed with Some f => finite f | None => false end).
Definition is_whole (text : bytes) : bool :=
  let text := trim text in
  let unsigned := match text with c :: rest => if (c =b 43) || (c =b 45) then rest else text | [] => text end in
  let exponent :=
    if all_digits unsigned then negb (is_empty unsigned)
    else match parse_f64 text with Some f => finite f && fract_is_zero f && below_9e15 f | None => false end in
  match split_once (fun b => b =b 46) unsigned with
  | Some (whole, fraction) =>
      if negb (existsb (fun b => (b =b 101) || (b =b 69)) fraction)
      then all_digits whole && forallb (fun b => b =b 48) fraction && negb (is_empty whole && is_empty fraction)
      else exponent
  | None => exponent
  end.
(** A trailing Z spelled the way MySQL reads it. *)
Definition zulu_as_offset (text : bytes) : option bytes :=
  let trimmed := trim_end text in
  match last trimmed with
  | Some c =>
      if (c =b 90) || (c =b 122) then
        let body := removelast trimmed in
        match last body with Some d => if is_ascii_digit d then Some (body ++ B "+00:00") else None | None => None end
      else None
  | None => None
  end.
Definition excel_digits (exact : bytes) : bytes :=
  match parse_f64 exact with
  | Some value =>
      if finite value && negb (fract_is_zero value) then display (default value (parse_f64 (exp_14 value))) else exact
  | None => exact
  end.
Definition quoted (text : bytes) (style : IdentStyle) : bytes :=
  match style with
  | Ansi => B "'" ++ double SQUOTE text ++ B "'"
  | MysqlStyle => B "'" ++ double SQUOTE (double BACKSLASH text) ++ B "'"
  end.
Definition NULL_ : bytes := B "NULL".
Definition literal (cell : Cell) (type_name : bytes) (null_text : option bytes) (style : IdentStyle) : bytes :=
  match cell with
  | None => NULL_
  | Some text =>
      if option_eqb (Some text) null_text then NULL_
      else if is_empty type_name then quoted text style
      else if is_numeric type_name then if is_number text then text else quoted text style
      else if is_boolean type_name then
        let word := lower (trim text) in
        if one_name word IMPORT_TRUE then B "TRUE" else if one_name word IMPORT_FALSE then B "FALSE" else quoted text style
      else quoted text style
  end.
(** A short row has no cell there, which reads as blank. *)
Definition cell_at (row : Cells) (index : nat) : Cell := match row !! index with None => Some [] | Some c => c end.
Definition row_literals (plan : Plan) (row : Cells) : list bytes :=
  (fun t => literal (cell_at row (tg_source t)) (tg_type_name t) (pl_null_text plan) (ss_style (pl_style plan))) <$> pl_targets plan.
Definition COMMA_ : bytes := B ", ".
Definition tuple_text (plan : Plan) (row : Cells) : bytes := B "(" ++ join_sep COMMA_ (row_literals plan row) ++ B ")".
Definition insert_statement (plan : Plan) (rows : list Cells) : bytes :=
  B "INSERT INTO " ++ pl_table_sql plan ++ B " (" ++ join_sep COMMA_ (tg_sql_name <$> pl_targets plan) ++ B ") VALUES "
  ++ join_sep COMMA_ (tuple_text plan <$> rows).
(** Whether no mapped cell of a row has a value. *)
Definition cell_has_value (plan : Plan) (cell : Cell) : bool :=
  match cell with
  | Some text => negb (pl_blank_is_empty plan && is_empty text) && negb (option_eqb (Some text) (pl_null_text plan))
  | None => false
  end.
Definition row_is_empty (row : JsonRow) (plan : Plan) : bool :=
  negb (existsb (fun t => cell_has_value plan (mjoin (jr_cells row !! tg_source t))) (pl_targets plan)).
(** The row's width against the header's, or the first row's. *)
Definition ragged (cells : Cells) (width : nat) (header allow_short : bool) : option bytes :=
  let found := length cells in
  let against := if header then B "header has" else B "the first row has" in
  let said tail := Some (B "row has " ++ decimal (Z.of_nat found) ++ B " fields, " ++ against ++ B " " ++ decimal (Z.of_nat width) ++ tail) in
  match found ?= width with
  | Eq => None
  | Lt => if allow_short then None else said (B " (ALLOW_SHORT_ROWS pads a short row)")
  | Gt =>
      if existsb (fun c => match c with Some (_ :: _) => true | _ => false end) (drop width cells)
      then said (B " (an unquoted delimiter in a value?)") else None
  end.
(** One value read by its target's type: why the row is rejected, or the text to write. *)
Definition read_value (plan : Plan) (t : Target) (stored_number : bool) (cell : bytes) : bytes + bytes :=
  match tg_kind t with
  | KInteger | KNumber =>
      let word := match parse_f64 (trim cell) with Some f => negb (finite f) | None => false end in
      match (match ru_decimal (pl_rules plan) with
             | Some decimal =>
                 if negb word && negb stored_number then
                   match normalize_number cell decimal (ru_grouping (pl_rules plan)) with
                   | Some plain => inr plain
                   | None => inl (B "column " ++ tg_name t ++ B ": '" ++ cell ++ B "' is not a number written with '" ++ decimal ++ B "' as the decimal point"
                                  ++ match ru_grouping (pl_rules plan) with Some g => B " and '" ++ g ++ B "' between thousands" | None => [] end)
                   end
                 else inr cell
             | None => inr cell
             end) with
      | inl e => inl e
      | inr cell =>
          if match tg_kind t with KInteger => true | _ => false end && is_number cell && negb (is_whole cell)
          then inl (B "column " ++ tg_name t ++ B ": " ++ cell ++ B " is not a whole number, and the column is " ++ tg_type_name t ++ B "; the server would round it")
          else inr cell
      end
  | KDate | KTimestamp =>
      let is_date := match tg_kind t with KDate => true | _ => false end in
      match ru_date (pl_rules plan) with
      | Some pattern =>
          match pattern_read pattern cell with
          | Some (inr iso) => inr (if is_date then iso_date iso else iso_timestamp iso)
          | Some (inl e) => inl (B "column " ++ tg_name t ++ B ": " ++ e)
          | None => inr cell
          end
      | None =>
          if negb is_date && match ss_kind (pl_style plan) with DMysql => true | _ => false end
          then inr (default cell (zulu_as_offset cell)) else inr cell
      end
  | KOther => if stored_number && negb (is_empty (tg_type_name t)) then inr (excel_digits cell) else inr cell
  end.
Fixpoint read_values (plan : Plan) (targets : list Target) (numeric : list bool) (cells : Cells) : bytes + Cells :=
  match targets with
  | [] => inr cells
  | t :: targets =>
      match cells !! tg_source t with
      | Some (Some cell) =>
          if option_eqb (Some cell) (pl_null_text plan) || (pl_blank_is_empty plan && is_empty cell) then read_values plan targets numeric cells
          else
            match read_value plan t (default false (numeric !! tg_source t)) cell with
            | inl e => inl e
            | inr text => read_values plan targets numeric (<[tg_source t := Some text]> cells)
            end
      | _ => read_values plan targets numeric cells
      end
  end.
End Values.

(** ** The column map *)

Record ImportField := MkField { fd_entry : nat; fd_source : Z; fd_target : bytes; fd_name : option bytes }.
Section Columns.
Context `{FloatParts}.
Variable from_str : bytes -> bytes + Json.

Definition columns_at (index : nat) (rest : string) : RunError := RUsage (B "COLUMNS[" ++ decimal (Z.of_nat index) ++ B "]" ++ B rest).
Definition parse_field (index : nat) (row : Json) : RunError + option ImportField :=
  match row with
  | JObject object =>
      if match j_get "include" object ≫= j_bool with Some false => true | _ => false end then inr None
      else
        match j_get "source" object ≫= j_u64 with
        | None => inl (columns_at index " has no source index")
        | Some source =>
            match j_get "target" object ≫= j_str with
            | None | Some [] => inl (columns_at index " has no target name")
            | Some target =>
                match j_get "name" object with
                | None | Some JNull => inr (Some (MkField index source target None))
                | Some (JString name) => inr (Some (MkField index source target (Some name)))
                | Some _ => inl (columns_at index " name must be a string")
                end
            end
        end
  | _ => inl (columns_at index " is not an object")
  end.
Fixpoint parse_fields (index : nat) (rows : list Json) : RunError + list ImportField :=
  match rows with
  | [] => inr []
  | row :: rows =>
      match parse_field index row with
      | inl e => inl e
      | inr f => match parse_fields (index + 1) rows with inl e => inl e | inr fs => inr (option_list f ++ fs) end
      end
  end.
Definition parse_columns (raw : bytes) : RunError + list ImportField :=
  match from_str raw with
  | inl e => inl (RUsage (B "COLUMNS is not JSON: " ++ e))
  | inr (JArray rows) => parse_fields 0 rows
  | inr _ => inl (RUsage (B "COLUMNS must be a JSON array"))
  end.
Definition columns_setting (s : Settings) : option bytes :=
  match Env.get s (B "COLUMNS") with Some raw => if is_empty (trim raw) then None else Some raw | None => None end.
Definition field_matches (header : list bytes) (f : ImportField) : option RunError :=
  match header !! Z.to_nat (fd_source f), fd_name f with
  | None, _ =>
      Some (RUsage (B "COLUMNS[" ++ decimal (Z.of_nat (fd_entry f)) ++ B "] reads column " ++ decimal (fd_source f) ++ B " but the file has "
                    ++ decimal (Z.of_nat (length header)) ++ B " column(s); reload the file in the sheet"))
  | Some seen, Some name =>
      if bytes_eqb seen name then None
      else Some (RUsage (B "COLUMNS[" ++ decimal (Z.of_nat (fd_entry f)) ++ B "] names '" ++ name ++ B "' but the file's column "
                         ++ decimal (fd_source f) ++ B " is '" ++ seen ++ B "'; reload the file in the sheet"))
  | Some _, None => None
  end.
Definition check_columns_against (s : Settings) (header : list bytes) : RunError + unit :=
  match columns_setting s with
  | None => inr tt
  | Some raw =>
      match parse_columns raw with
      | inl e => inl e
      | inr fields => match omap (field_matches header) fields with e :: _ => inl e | [] => inr tt end
      end
  end.
Definition resolve (source : nat) (name : bytes) (style : SlotStyle) (columns : list ColumnMeta) : Target :=
  let type_name := match find (fun c => eq_ignore_ascii_case (cm_name c) name) columns with Some c => cm_type_name c | None => [] end in
  MkTarget source name (quote_ident (ss_style style) name) type_name (kind_of type_name).
Definition plan_rows (s : Settings) (header : option (list bytes)) (columns : list ColumnMeta) (style : SlotStyle)
  (table_sql table_reference : bytes) (null_text : option bytes) (json : bool) (rules : Rules) : RunError + Plan :=
  match (match columns_setting s with
         | Some raw =>
             match parse_columns raw with inl e => inl e | inr fields => inr ((fun f => (Z.to_nat (fd_source f), fd_target f)) <$> fields) end
         | None =>
             match header with
             | None => inl (RUsage (B "COLUMNS is required when the file has no header row: there is nothing to map a column name from"))
             | Some header => inr (imap (fun index name => (index, name)) header)
             end
         end) with
  | inl e => inl e
  | inr [] => inl (RUsage (B "no columns to import: COLUMNS is empty and the header has no names"))
  | inr fields =>
      inr (MkPlan table_sql table_reference ((fun f => resolve f.1 f.2 style columns) <$> fields) null_text (negb json) style rules)
  end.
Definition missing_targets (plan : Plan) (columns : list ColumnMeta) : option bytes :=
  match columns with
  | [] => None
  | _ =>
      match List.filter (fun t => negb (existsb (fun c => eq_ignore_ascii_case (cm_name c) (tg_name t)) columns)) (pl_targets plan) with
      | [] => None
      | missing => Some (B "the target table has no column named " ++ join_sep COMMA_ (tg_name <$> missing))
      end
  end.
End Columns.
Definition unmapped_warning (keys : list bytes) : option bytes :=
  match keys with
  | [] => None
  | _ =>
      let name key := match take_chars 80 key with (_, []) => B "'" ++ key ++ B "'" | (start, _) => B "'" ++ start ++ B "...'" end in
      let cut := if UNMAPPED_KEYS_KEPT <=? length keys then B " (only the first " ++ decimal (Z.of_nat UNMAPPED_KEYS_KEPT) ++ B " are listed)" else [] in
      Some (B "keys first seen after the rows that named the columns were not imported: " ++ join_sep COMMA_ (name <$> keys) ++ cut)
  end.

(** ** Foreign keys and transactions *)

Inductive FkChecks := FkEnforce | FkDisable (off on : string).
Definition fk_label (fk : FkChecks) : bytes := match fk with FkEnforce => B "on" | FkDisable _ _ => B "off" end.
Definition foreign_key_switch (kind : DriverKind) : option (string * string) :=
  match kind with
  | DPostgres => Some ("SET session_replication_role = replica", "SET session_replication_role = DEFAULT")%string
  | DMysql => Some ("SET FOREIGN_KEY_CHECKS = 0", "SET FOREIGN_KEY_CHECKS = 1")%string
  | DTrino => None
  end.
Definition fk_checks (s : Settings) (kind : DriverKind) : RunError + FkChecks :=
  if flag s (B "FOREIGN_KEYS") true then inr FkEnforce
  else
    match foreign_key_switch kind with
    | Some (off, on) => inr (FkDisable off on)
    | None => inl (RUsage (B "FOREIGN_KEYS=off is not supported by " ++ kind_str kind ++ B ": it has no session-level foreign-key switch"))
    end.
