(* ===== verification/Import.v ===== *)
(** * Import: a file into a table, or a file of statements, the runs of [crates/qh-ffi/src/import.rs] with
    [crates/qh-ffi/src/progress.rs].

    Everything sent and read, with its answer, is an event of [w_trace]; the environment ([Answers])
    answers from the trace before, so the server, the rows of the file, the clock and a Stop may do
    anything in any order. [Outcome] and [Progress] are the values the code passes around by
    reference. *)
From stdpp Require Import gmap.
From S2P Require Import Prelude Bytes Text Scan Classify Env ExecLog Guard Directive Ident Value Json Batch Names Retry TransferPlan TransferRun.
From S2P Require Import TransferSetup TableSwap Apply ImportDates ImportPlan Writers.
#[local] Open Scope nat_scope.

(** ** What happens *)

Record DoneReport := MkDone {
  dn_statements : bool; dn_count : Z; dn_table : option bytes; dn_mode : Mode; dn_format : bytes; dn_streams : bool; dn_transaction : bool;
  dn_disposition : string; dn_rejected : option Z; dn_errors : list bytes; dn_errors_truncated : bool; dn_stopped_at : option nat;
  dn_cancelled : bool; dn_foreign_keys : bytes; dn_query_id : option bytes; dn_warnings : list bytes }.
Inductive ImportOut :=
| OeStep (name : string)
| OeProgress (key : string) (count : Z) (bytes_ bytes_total rows_total : option Z)
| OeDone (report : DoneReport)
| OeColumns (names : list bytes)
| OeRows (rows : list Cells)
| OePreviewDone.
Inductive ImportEvent :=
| EvOut (e : ImportOut) (r : option bytes)
| EvConnect (r : EngineError + unit)
| EvReadOnly (r : option EngineError)
| EvExecute (sql : bytes) (r : EngineError + option Z)
| EvColumns (sql : bytes) (r : EngineError + list ColumnMeta)
| EvRow (r : RunError + option JsonRow)
| EvClosed.
Record ImportAnswers := MkImportAnswers {
  an_out : list ImportEvent -> ImportOut -> option bytes;
  an_connect : list ImportEvent -> DriverKind -> EngineError + unit;
  an_read_only : list ImportEvent -> option EngineError;
  an_execute : list ImportEvent -> bytes -> option Z -> EngineError + option Z;
  an_columns : list ImportEvent -> bytes -> option Z -> EngineError + list ColumnMeta;
  an_row : list ImportEvent -> RunError + option JsonRow;
  an_stop : list ImportEvent -> bool;
  an_now : list ImportEvent -> Z;
  an_bytes : list ImportEvent -> option Z;
  an_unmapped : list ImportEvent -> list bytes;
  an_query_id : list ImportEvent -> option bytes;
}.
(** A file opened: the header, whether rows must be of its width, whether it streams, the rows it declares. *)
Record Reader := MkReader { rr_header : option (list bytes); rr_checks_width : bool; rr_streams : bool; rr_rows_total : option Z }.
Record ReadOptions := MkReadOptions {
  ro_delimiter : option bytes; ro_header : bool; ro_sheet : option bytes; ro_encoding : option Codec;
  ro_xlsx_max_bytes : option Z; ro_xlsx_max_cells : option Z }.

(** ** Progress *)

Definition PROGRESS_EVERY : Z := 1000.
Record Progress := MkProgress { pg_floor : Z; pg_last : option Z; pg_at : Z; pg_bytes : option Z; pg_bytes_total : option Z; pg_rows_total : option Z }.
Definition progress_new (floor_ms now : Z) : Progress := MkProgress (Z.max 0 floor_ms * 1000000) None now None None None.
Definition set_totals (bytes_total rows_total : option Z) (p : Progress) : Progress :=
  MkProgress (pg_floor p) (pg_last p) (pg_at p) (pg_bytes p) bytes_total rows_total.
Definition set_bytes (n : option Z) (p : Progress) : Progress := MkProgress (pg_floor p) (pg_last p) (pg_at p) n (pg_bytes_total p) (pg_rows_total p).
Definition reported (count now : Z) (p : Progress) : Progress :=
  MkProgress (pg_floor p) (Some count) now (pg_bytes p) (pg_bytes_total p) (pg_rows_total p).
Definition progress_event (key : string) (count : Z) (p : Progress) : ImportOut :=
  OeProgress key count (pg_bytes p) (pg_bytes_total p) (pg_rows_total p).
Definition progress_due (count now : Z) (p : Progress) : bool :=
  match pg_last p with
  | None => true
  | Some last => (pg_floor p <=? now - pg_at p)%Z || (PROGRESS_EVERY <=? Z.max 0 (count - last))%Z
  end.

(** ** The outcome *)

Inductive Txn := TxnAlive | TxnGone | TxnDoubtful.
Definition txn_after (kind : DriverKind) (e : EngineError) : Txn :=
  match kind, e with
  | DPostgres, EQuery _ (Some _) _ _ | DPostgres, ETimeout _ _ => TxnGone
  | DMysql, EQuery _ (Some code) _ _ =>
      if bytes_eqb code (B "1213") then TxnGone else if bytes_eqb code (B "1205") then TxnDoubtful else TxnAlive
  | _, _ => TxnAlive
  end.
Record Failure := MkFailure { fl_message : bytes; fl_after : Txn; fl_lost : bool }.
Definition failure_local (message : bytes) : Failure := MkFailure message TxnAlive false.
Definition is_lost (e : EngineError) : bool :=
  match e with EConnect _ _ => true | _ => match failure_kind e with Transient => true | _ => false end end.
Definition failure_server (kind : DriverKind) (e : EngineError) : Failure := MkFailure (error_message e) (txn_after kind e) (is_lost e).
Record Outcome := MkOutcome {
  io_written : Z; io_rejected : Z; io_errors : list bytes; io_errors_truncated : bool; io_stopped_at : option nat; io_cancelled : bool;
  io_rollback : bool; io_failed : bool; io_lost : bool; io_warnings : list bytes; io_disposition : string;
  io_connection_lost : bool; io_lost_lines : nat * nat }.
Definition outcome_new (in_transaction : bool) : Outcome :=
  MkOutcome 0 0 [] false None false false false false [] (if in_transaction then "pending" else "written")%string false (0, 0).
Definition add_error (line : nat) (message : bytes) (o : Outcome) : Outcome :=
  if length (io_errors o) <? MAX_ERRORS then
    MkOutcome (io_written o) (io_rejected o) (io_errors o ++ [B "line " ++ decimal (Z.of_nat line) ++ B ": " ++ message]) (io_errors_truncated o)
      (io_stopped_at o) (io_cancelled o) (io_rollback o) (io_failed o) (io_lost o) (io_warnings o) (io_disposition o) (io_connection_lost o) (io_lost_lines o)
  else
    MkOutcome (io_written o) (io_rejected o) (io_errors o) true (io_stopped_at o) (io_cancelled o) (io_rollback o) (io_failed o) (io_lost o)
      (io_warnings o) (io_disposition o) (io_connection_lost o) (io_lost_lines o).
Definition add_rejected (o : Outcome) : Outcome :=
  MkOutcome (io_written o) (io_rejected o + 1) (io_errors o) (io_errors_truncated o) (io_stopped_at o) (io_cancelled o) (io_rollback o) (io_failed o)
    (io_lost o) (io_warnings o) (io_disposition o) (io_connection_lost o) (io_lost_lines o).
Definition add_written (n : Z) (o : Outcome) : Outcome :=
  MkOutcome (io_written o + n) (io_rejected o) (io_errors o) (io_errors_truncated o) (io_stopped_at o) (io_cancelled o) (io_rollback o) (io_failed o)
    (io_lost o) (io_warnings o) (io_disposition o) (io_connection_lost o) (io_lost_lines o).
Definition set_cancelled (o : Outcome) : Outcome :=
  MkOutcome (io_written o) (io_rejected o) (io_errors o) (io_errors_truncated o) (io_stopped_at o) true (io_rollback o) (io_failed o)
    (io_lost o) (io_warnings o) (io_disposition o) (io_connection_lost o) (io_lost_lines o).
Definition lose_connection (first last : nat) (o : Outcome) : Outcome :=
  MkOutcome (io_written o) (io_rejected o) (io_errors o) (io_errors_truncated o) (Some first) (io_cancelled o) false true
    (io_lost o) (io_warnings o) (io_disposition o) true (first, last).
Definition is_gone (t : Txn) : bool := match t with TxnGone => true | _ => false end.
Definition is_doubtful (t : Txn) : bool := match t with TxnDoubtful => true | _ => false end.
Definition is_stop (m : Mode) : bool := match m with Stop_ => true | _ => false end.
Definition is_commit (m : Mode) : bool := match m with CommitPrefix => true | _ => false end.
Definition halt (mode : Mode) (in_transaction : bool) (line : nat) (after : Txn) (o : Outcome) : Outcome :=
  let keeps := in_transaction && is_commit mode in
  let lost := keeps && is_gone after in
  let failed := is_stop mode || lost in
  MkOutcome (io_written o) (io_rejected o) (io_errors o) (io_errors_truncated o) (Some line) (io_cancelled o) (in_transaction && failed) failed lost
    (io_warnings o ++
     (if keeps && is_doubtful after then
        [B "line " ++ decimal (Z.of_nat line) ++ B ": a lock wait timeout stopped the import; if this server rolls back the whole transaction on a timeout (innodb_rollback_on_timeout), the rows before it were not kept"]
      else []))
    (io_disposition o) (io_connection_lost o) (io_lost_lines o).
Definition ImportBatch : Type := list (nat * Cells).
Definition line_of (batch : ImportBatch) : nat := match batch with (line, _) :: _ => line | [] => 0 end.
Definition last_line (fallback : nat) (batch : ImportBatch) : nat := match last batch with Some (line, _) => line | None => fallback end.
(** A failed batch: whether the import ends here. *)
Definition outcome_failed (mode : Mode) (in_transaction : bool) (batch : ImportBatch) (f : Failure) (o : Outcome) : bool * Outcome :=
  let line := line_of batch in
  let o := add_error line (fl_message f) o in
  if fl_lost f then (true, lose_connection line (last_line line batch) o)
  else if negb (is_skip mode) then (true, halt mode in_transaction line (fl_after f) o)
  else (false, o).
Definition connection_lost_message (o : Outcome) (in_transaction : bool) (unit_ table : bytes) : bytes :=
  let '(first, last) := io_lost_lines o in
  let n k := decimal (Z.of_nat k) in
  let lines := if first =? last then B "line " ++ n first else B "lines " ++ n first ++ B "-" ++ n last in
  let state :=
    if in_transaction then B "the open transaction ended with the connection, so no " ++ unit_ ++ B " were written to " ++ table
    else B "the " ++ decimal (io_written o) ++ B " " ++ unit_ ++ B " already written to " ++ table ++ B " remain, and " ++ lines ++ B " may not have been written" in
  B "import stopped at line " ++ n first ++ B ": the connection to the server failed while writing " ++ lines ++ B "; " ++ unit_ ++ B " after line " ++ n last
  ++ B " were not attempted, and nothing was sent again (" ++ state ++ B ")".

(** ** The runs *)

Record ImportWorld (S : Type) := MkImport { w_trace : list ImportEvent; w_sink : option S; w_progress : Progress; w_outcome : Outcome }.
Arguments MkImport {S}.
Arguments w_trace {S}.
Arguments w_sink {S}.
Arguments w_progress {S}.
Arguments w_outcome {S}.
Section Runs.
Context `{FloatParts} `{Unicode} {S : Type} `{ExecutionStore S}.
Variable now_millis : S -> Z.
Variable storage_message : bytes.
Variable connection : Settings -> bytes + DriverKind.
Variable driver_read_only : DriverKind -> bool.
Variable transactions : DriverKind -> bool.
Variable from_str : bytes -> bytes + Json.
Variable env : ImportAnswers.

Definition M (A : Type) : Type := ImportWorld S -> (RunError + A) * ImportWorld S.
Definition ret {A} (x : A) : M A := fun w => (inr x, w).
Definition fail {A} (e : RunError) : M A := fun w => (inl e, w).
Definition bind {A C} (m : M A) (k : A -> M C) : M C := fun w => match m w with (inl e, w) => (inl e, w) | (inr x, w) => k x w end.
Local Notation "'let!' x := m 'in' k" := (bind m (fun x => k)) (at level 10, x name, m at level 100, k at level 200).
Local Notation "m ;;! k" := (bind m (fun _ => k)) (at level 199, right associativity).
Definition log (e : ImportEvent) (w : ImportWorld S) : ImportWorld S := MkImport (w_trace w ++ [e]) (w_sink w) (w_progress w) (w_outcome w).
Definition ask {A} (question : list ImportEvent -> A) (event : A -> ImportEvent) : M A :=
  fun w => let a := question (w_trace w) in (inr a, log (event a) w).
Definition peek {A} (question : list ImportEvent -> A) : M A := fun w => (inr (question (w_trace w)), w).
Definition outcome : M Outcome := fun w => (inr (w_outcome w), w).
Definition on_outcome (f : Outcome -> Outcome) : M unit := fun w => (inr tt, MkImport (w_trace w) (w_sink w) (w_progress w) (f (w_outcome w))).
Definition progress : M Progress := fun w => (inr (w_progress w), w).
Definition on_progress (f : Progress -> Progress) : M unit := fun w => (inr tt, MkImport (w_trace w) (w_sink w) (f (w_progress w)) (w_outcome w)).
(** What a call answered, its error kept as a value. *)
Definition caught {A} (m : M A) : M (RunError + A) := fun w => let '(r, w) := m w in (inr r, w).
Definition or_raise {A} (r : RunError + A) : M A := match r with inl e => fail e | inr x => ret x end.

Definition out (e : ImportOut) : M unit :=
  let! r := ask (fun tr => an_out env tr e) (EvOut e) in match r with Some m => fail (RIo m) | None => ret tt end.
Definition closed : M unit := ask (fun _ => tt) (fun _ => EvClosed).
Definition run_engine (sql : bytes) (timeout : option Z) : M (EngineError + option Z) := ask (fun tr => an_execute env tr sql timeout) (EvExecute sql).
Definition run (sql : bytes) (timeout : option Z) : M (option Z) :=
  let! r := run_engine sql timeout in match r with inl e => fail (engine_error e) | inr n => ret n end.
(** The gate, as a value. *)
Definition guarded (mode : SafeMode) (sql : bytes) (d : Dialect) : M (RunError + unit) := fun w =>
  let '(sink, r) := guard now_millis (w_sink w) mode sql d in (inr (of_cli storage_message r), MkImport (w_trace w) sink (w_progress w) (w_outcome w)).
Definition emit_count (key : string) (count : Z) : M unit :=
  let! p := progress in
  let! now := peek (an_now env) in
  if progress_due count now p then on_progress (reported count now) ;;! out (progress_event key count p) else ret tt.
Definition force (rows : Z) : M unit :=
  let! now := peek (an_now env) in on_progress (reported rows now) ;;! let! p := progress in out (progress_event "rows" rows p).
(** [open], the session's calls noted in the trace. *)
Definition open_session (s : Settings) (kind : DriverKind) : M unit := fun w =>
  let '(r, tr) := Apply.open storage_message driver_read_only
                    (fun kind tr => let r := an_connect env tr kind in (r, tr ++ [EvConnect r]))
                    (fun tr => let r := an_read_only env tr in (r, tr ++ [EvReadOnly r]))
                    (fun tr => tr ++ [EvClosed]) s kind (w_trace w) in
  (r, MkImport tr (w_sink w) (w_progress w) (w_outcome w)).
(** [finish]: the transaction closed, then the checks back on; the transaction's own error wins. *)
Definition finish (in_transaction commit : bool) (fk : FkChecks) (timeout : option Z) : M (RunError + unit) :=
  let! finished := caught (if in_transaction then run (if commit then B "COMMIT" else B "ROLLBACK") timeout ;;! ret tt else ret tt) in
  match fk with
  | FkEnforce => ret finished
  | FkDisable _ on =>
      let! restored := caught (run (B on) timeout) in
      ret (match finished with inl e => inl e | inr _ => match restored with inl e => inl e | inr _ => inr tt end end)
  end.

(** ** Rows *)

(** One [INSERT] and the server's own count; the count to add. *)
Definition send_batch (plan : Plan) (batch : ImportBatch) (timeout : option Z) (safe : SafeMode) (d : Dialect) : M (Failure + Z) :=
  let statement := insert_statement plan (snd <$> batch) in
  let! g := guarded safe statement d in
  match g with
  | inl e => ret (inl (failure_local (run_message e)))
  | inr _ =>
      let! r := run_engine statement timeout in
      let sent := Z.of_nat (length batch) in
      ret (match r with
           | inl e => inl (failure_server (ss_kind (pl_style plan)) e)
           | inr None => inr sent
           | inr (Some actual) =>
               if (actual =? sent)%Z then inr sent
               else inl (MkFailure (B "the server wrote " ++ decimal actual ++ B " row(s) but " ++ decimal sent ++ B " were sent") TxnAlive false)
           end)
  end.
Definition flush (plan : Plan) (batch : ImportBatch) (timeout : option Z) (safe : SafeMode) (d : Dialect) : M (option Failure) :=
  match batch with
  | [] => ret None
  | _ =>
      let! r := send_batch plan batch timeout safe d in
      match r with
      | inl f => ret (Some f)
      | inr count =>
          on_outcome (add_written count) ;;! let! o := outcome in emit_count "rows" (io_written o) ;;! ret None
      end
  end.
Inductive Turn := TurnNext (batch : ImportBatch) (width : option nat) | TurnBreak (batch : ImportBatch) | TurnReturn.
(** Why a row is rejected, or its values read. *)
Definition judge (plan : Plan) (reader : Reader) (width : option nat) (row : JsonRow) : bytes + Cells :=
  match (if rr_checks_width reader then
           ragged (jr_cells row) (default (length (jr_cells row)) width) (given (rr_header reader)) (ru_short_rows (pl_rules plan))
         else None) with
  | Some reason => inl reason
  | None =>
      if row_is_empty row plan then inl (B "no value reached any mapped column")
      else read_values plan (pl_targets plan) (jr_numeric row) (jr_cells row)
  end.
Definition next_width (reader : Reader) (width : option nat) (row : JsonRow) : option nat :=
  if rr_checks_width reader then Some (default (length (jr_cells row)) width) else width.
Section Rows.
Variables (plan : Plan) (reader : Reader) (mode : Mode) (batch_size : Z) (timeout : option Z) (in_transaction : bool) (safe : SafeMode) (d : Dialect).
(** A rejected row under [stop] or [commit]: the rows before it are sent first. *)
Definition reject_and_end (batch : ImportBatch) (line : nat) : M Turn :=
  let! failure := flush plan batch timeout safe d in
  match failure with
  | Some f =>
      on_outcome (add_error (line_of batch) (fl_message f)) ;;!
      if fl_lost f then on_outcome (lose_connection (line_of batch) (last_line line batch)) ;;! ret TurnReturn
      else on_outcome (halt mode in_transaction line (fl_after f)) ;;! ret TurnReturn
  | None => on_outcome (halt mode in_transaction line TxnAlive) ;;! ret TurnReturn
  end.
(** A batch that is full, or every row under [skip]. *)
Definition send_full (batch : ImportBatch) (width : option nat) : M Turn :=
  let! failure := flush plan batch timeout safe d in
  match failure with
  | None => ret (TurnNext [] width)
  | Some f =>
      let! o := outcome in
      let '(ends, o) := outcome_failed mode in_transaction batch f o in
      on_outcome (fun _ => o) ;;! ret (if (ends : bool) then TurnReturn else TurnNext [] width)
  end.
Definition row_turn (batch : ImportBatch) (width : option nat) : M Turn :=
  let! stop := peek (an_stop env) in
  if (stop : bool) then on_outcome set_cancelled ;;! ret (TurnBreak batch)
  else
    let! next := ask (an_row env) EvRow in
    match next with
    | inl e => fail e
    | inr None => ret (TurnBreak batch)
    | inr (Some row) =>
        let! read := peek (an_bytes env) in
        on_progress (set_bytes read) ;;!
        match judge plan reader width row with
        | inl reason =>
            on_outcome (fun o => add_error (jr_line row) reason (add_rejected o)) ;;!
            if is_skip mode then ret (TurnNext batch (next_width reader width row)) else reject_and_end batch (jr_line row)
        | inr cells =>
            let batch := batch ++ [(jr_line row, cells)] in
            if is_skip mode || (batch_size <=? Z.of_nat (length batch))%Z then send_full batch (next_width reader width row)
            else ret (TurnNext batch (next_width reader width row))
        end
    end.
Definition row_body (x : ImportBatch * option nat * ImportWorld S) : ImportBatch * option nat * ImportWorld S + (RunError + option ImportBatch) * ImportWorld S :=
  let '(batch, width, w) := x in
  match row_turn batch width w with
  | (inl e, w) => inr (inl e, w)
  | (inr (TurnNext batch width), w) => inl (batch, width, w)
  | (inr (TurnBreak batch), w) => inr (inr (Some batch), w)
  | (inr TurnReturn, w) => inr (inr None, w)
  end.
(** The tail, and whatever a cancel left behind: both are sent. *)
Definition send_tail (batch : ImportBatch) : M unit :=
  match batch with
  | [] => ret tt
  | _ =>
      let! failure := flush plan batch timeout safe d in
      match failure with
      | None => ret tt
      | Some f => on_outcome (fun o => (outcome_failed mode in_transaction batch f o).2)
      end
  end.
(** [import_rows]: a turn of the loop for each row of the file and one more is enough fuel. *)
Definition import_rows (fuel : nat) (w : ImportWorld S) : option ((RunError + unit) * ImportWorld S) :=
  let w := MkImport (w_trace w) (w_sink w) (w_progress w) (outcome_new in_transaction) in
  let width := if rr_checks_width reader then length <$> rr_header reader else None in
  match iter row_body fuel ([], width, w) with
  | None => None
  | Some (inl e, w) => Some (inl e, w)
  | Some (inr None, w) => Some (inr tt, w)
  | Some (inr (Some batch), w) => Some (send_tail batch w)
  end.
End Rows.
Definition stopped_line (o : Outcome) : bytes := decimal (Z.of_nat (default 0 (io_stopped_at o))).
Definition rows_failed (o : Outcome) (in_transaction : bool) (table : bytes) : bytes :=
  B "import stopped at line " ++ stopped_line o ++
  (if io_lost o then
     B ": the server rolled the whole transaction back with the failed statement, so ON_ERROR=commit could not keep the earlier rows and no rows were written to "
     ++ table ++ B "; ON_ERROR=skip imports the rows that are valid"
   else if in_transaction then B ": no rows were written to " ++ table ++ B " (the transaction was rolled back)"
   else B ": this driver cannot open a transaction, so the " ++ decimal (io_written o) ++ B " rows already written to " ++ table ++ B " remain").
Definition statements_failed (o : Outcome) (in_transaction : bool) : bytes :=
  B "import stopped at line " ++ stopped_line o ++
  (if io_lost o then
     B ": the server rolled the whole transaction back with the failed statement, so ON_ERROR=commit could not keep the earlier ones and no statements were applied; ON_ERROR=skip applies the statements that are valid"
   else if in_transaction then B ": no statements were applied (the transaction was rolled back)"
   else B ": this driver cannot open a transaction, so the " ++ decimal (io_written o) ++ B " statements already applied remain").
(** What follows the loop of either family: [lost] and [failed] are its messages, [success] what it reports. *)
Definition conclude (fk : FkChecks) (timeout : option Z) (in_transaction : bool) (lost failed : Outcome -> bytes) (success : Outcome -> M unit)
  (r : RunError + unit) : M unit :=
  match r with
  | inl e => let! _ := finish in_transaction false fk timeout in closed ;;! fail e
  | inr _ =>
      let! o := outcome in
      if io_connection_lost o then closed ;;! fail (RWarned (lost o) (io_errors o))
      else
        let! finished := finish in_transaction (negb (io_rollback o)) fk timeout in
        match finished with
        | inl e => closed ;;! fail e
        | inr _ => if io_failed o then closed ;;! fail (RWarned (failed o) (io_errors o)) else success o ;;! closed
        end
  end.
(** The checks off, then the transaction: what happens before the loop of either family. *)
Definition switch_off (fk : FkChecks) (timeout : option Z) : M unit :=
  match fk with FkDisable off _ => run (B off) timeout ;;! ret tt | FkEnforce => ret tt end.
Definition prologue (fk : FkChecks) (timeout : option Z) (in_transaction : bool) : M unit :=
  let! off := caught (switch_off fk timeout) in
  match off with
  | inl e => closed ;;! fail e
  | inr _ =>
      if in_transaction then
        let! began := caught (run (B "BEGIN") timeout) in
        match began with
        | inl e => let! _ := finish false false fk timeout in closed ;;! fail e
        | inr _ => ret tt
        end
      else ret tt
  end.
Definition start_progress (s : Settings) : M unit :=
  let! floor := or_raise (setting (number s (B "PROGRESS_MS") PROGRESS_MS_DEFAULT)) in
  let! now := peek (an_now env) in on_progress (fun _ => progress_new floor now).

Record RowsSetup := MkRowsSetup {
  rs_mode : Mode; rs_kind : DriverKind; rs_safe : SafeMode; rs_dialect : Dialect; rs_fk : FkChecks; rs_timeout : option Z; rs_batch : Z;
  rs_null_text : option bytes; rs_rules : Rules; rs_table_sql : bytes; rs_table_reference : bytes; rs_reader : Reader; rs_file_bytes : option Z }.
Definition and_total (read total : option Z) : option Z := match read with Some _ => total | None => None end.
Definition last_progress (su : RowsSetup) (o : Outcome) : M unit :=
  let! p := progress in
  if match pg_last p with Some last => (last =? io_written o)%Z | None => false end then ret tt
  else
    (if io_cancelled o then ret tt else let! read := peek (an_bytes env) in on_progress (set_bytes (and_total read (rs_file_bytes su)))) ;;!
    force (io_written o).
Definition rows_success (su : RowsSetup) (format : RowFormat) (in_transaction : bool) (table : bytes) (o : Outcome) : M unit :=
  last_progress su o ;;!
  let! unmapped := peek (an_unmapped env) in
  let! query_id := peek (an_query_id env) in
  out (OeDone (MkDone false (io_written o) (Some table) (rs_mode su) (row_format_name format) (rr_streams (rs_reader su)) in_transaction
                 (io_disposition o) (Some (io_rejected o)) (io_errors o) (io_errors_truncated o) (io_stopped_at o) (io_cancelled o)
                 (fk_label (rs_fk su)) query_id (io_warnings o ++ option_list (unmapped_warning unmapped)))).
(** From the connect step on. [None]: the file did not end within the fuel. *)
Definition rows_live (fuel : nat) (s : Settings) (su : RowsSetup) (format : RowFormat) (w : ImportWorld S) : option ((RunError + unit) * ImportWorld S) :=
  let columns_of : M (list ColumnMeta) :=
    let! r := ask (fun tr => an_columns env tr (B "SELECT * FROM " ++ rs_table_sql su ++ B " LIMIT 0") (rs_timeout su))
                  (EvColumns (B "SELECT * FROM " ++ rs_table_sql su ++ B " LIMIT 0")) in
    match r with inl e => fail (engine_error e) | inr columns => ret columns end in
  let in_transaction := transactions (rs_kind su) && negb (is_skip (rs_mode su)) in
  let before : M Plan :=
    out (OeStep "connect") ;;!
    open_session s (rs_kind su) ;;!
    let! columns := columns_of in
    let! plan := or_raise (plan_rows from_str s (rr_header (rs_reader su)) columns (style_of (rs_kind su)) (rs_table_sql su) (rs_table_reference su)
                             (rs_null_text su) (bool_decide (format = JsonFormat)) (rs_rules su)) in
    match missing_targets plan columns with
    | Some missing => closed ;;! fail (RUsage missing)
    | None =>
        if match columns with [] => reads_values (pl_rules plan) | _ => false end then
          closed ;;! fail (RUsage (B "DATE_FORMAT and DECIMAL_SEPARATOR need the target's column types, which this driver does not report before a row; import without them, or into a table the driver describes"))
        else
          out (OeStep "write") ;;!
          prologue (rs_fk su) (rs_timeout su) in_transaction ;;!
          start_progress s ;;!
          let! read := peek (an_bytes env) in
          on_progress (set_totals (and_total read (rs_file_bytes su)) (rr_rows_total (rs_reader su))) ;;! ret plan
    end in
  match before w with
  | (inl e, w) => Some (inl e, w)
  | (inr plan, w) =>
      match import_rows plan (rs_reader su) (rs_mode su) (rs_batch su) (rs_timeout su) in_transaction (rs_safe su) (rs_dialect su) fuel w with
      | None => None
      | Some (r, w) =>
          Some (conclude (rs_fk su) (rs_timeout su) in_transaction
                  (fun o => connection_lost_message o in_transaction (B "rows") (pl_table_reference plan))
                  (fun o => rows_failed o in_transaction (pl_table_reference plan))
                  (rows_success su format in_transaction (pl_table_reference plan)) r w)
      end
  end.

(** Everything that can be refused before the network is touched. *)
Context `{Alphanumeric}.
(** A file opened for reading, its size, and the bytes of a [.sql] file. *)
Variable open_file : bytes -> RowFormat -> ReadOptions -> RunError + Reader.
Variable file_size : bytes -> bytes + Z.
Variable read_bytes : bytes -> bytes + bytes.

Definition encoding_of (s : Settings) (format : RowFormat) : RunError + option Codec :=
  let raw := setting_text s (B "ENCODING") [] in
  if is_empty raw then inr None
  else
    match codec_resolve (B "ENCODING") raw with
    | inl message => inl (RExport message)
    | inr codec =>
        if negb (bool_decide (format = TableFormat Csv)) && negb (codec_is_utf8 codec) then
          inl (RUsage (B "ENCODING=" ++ raw ++ B " applies to CSV files; a " ++ row_format_name format ++ B " file is always UTF-8 or carries its own"))
        else inr (Some codec)
    end.
Local Notation "'let?' x := e 'in' k" := (match e with inl err => inl err | inr x => k end) (at level 10, x name, e at level 100, k at level 200).
(** After the gate: the rest of the settings, then the file. *)
Definition rows_settings (s : Settings) (format : RowFormat) (path : bytes) (mode : Mode) (kind : DriverKind) (safe : SafeMode) : RunError + RowsSetup :=
  let json := bool_decide (format = JsonFormat) in
  let? fk := fk_checks s kind in
  let? timeout := statement_timeout s in
  let? batch := positive_or s "IMPORT_BATCH" IMPORT_BATCH in
  let null_text := if json then optional (raw s (B "NULL_TEXT") []) else Some (raw s (B "NULL_TEXT") []) in
  let? rules := rules_of s in
  if json && given (ru_decimal rules) then
    inl (RUsage (B "DECIMAL_SEPARATOR and GROUPING_SEPARATOR apply to CSV and XLSX text; a JSON number is always written with '.', and a JSON string should be a number in the file"))
  else
    let? delimiter := (if json then inr None else delimiter s) in
    let? encoding := encoding_of s format in
    let? max_bytes := limit_of s "IMPORT_XLSX_MAX_BYTES" in
    let? max_cells := limit_of s "IMPORT_XLSX_MAX_CELLS" in
    let options := MkReadOptions delimiter (flag s (B "HEADER") true) (optional (raw s (B "SHEET") [])) encoding max_bytes max_cells in
    let '(catalog, schema, table) := target_parts s in
    let style := style_of kind in
    let table_sql := slot_qualified style catalog schema table in
    if is_empty table_sql then
      inl (RUsage (B "import_data needs a target table: set TARGET_TABLE (and TARGET_SCHEMA where the driver has one)"))
    else
      let? reader := open_file path format options in
      let file_bytes := match file_size path with inr n => Some n | inl _ => None end in
      let? _ := (if json then
                   match rr_header reader with
                   | None => inl (RUsage (B "'" ++ path ++ B "' has no JSON objects with keys: there is nothing to import"))
                   | Some header => check_columns_against from_str s header
                   end
                 else inr tt) in
      inr (MkRowsSetup mode kind safe (dialect connection s) fk timeout batch null_text rules table_sql (slot_reference style catalog schema table) reader file_bytes).
Definition safe_mode_str (m : SafeMode) : bytes :=
  match m with MFull => B "full" | MNoDdl => B "no_ddl" | MConfirm => B "confirm" | MReadOnly => B "read_only" end.
Definition import_rows_file (fuel : nat) (s : Settings) (path : bytes) (format : RowFormat) (w : ImportWorld S)
  : option ((RunError + unit) * ImportWorld S) :=
  let refuse sink e := Some (inl e, MkImport (w_trace w) sink (w_progress w) (w_outcome w)) in
  match mode_of s with
  | inl e => refuse (w_sink w) e
  | inr mode =>
      match connection s with
      | inl m => refuse (w_sink w) (RDriver m)
      | inr kind =>
          match of_cli storage_message (safe_mode driver_read_only s) with
          | inl e => refuse (w_sink w) e
          | inr safe =>
              match refusal safe KDml with
              | Some reason =>
                  match record_kind now_millis (w_sink w) safe KDml path with
                  | (sink, inl e) => refuse sink (cli storage_message e)
                  | (sink, inr _) => refuse sink (RUsage (B "SAFE_MODE=" ++ safe_mode_str safe ++ B " refuses import_data: " ++ B reason))
                  end
              | None =>
                  match rows_settings s format path mode kind safe with
                  | inl e => refuse (w_sink w) e
                  | inr su => rows_live fuel s su format w
                  end
              end
          end
      end
  end.

(** ** Statements *)

Section Statements.
Variables (mode : Mode) (timeout : option Z) (in_transaction : bool) (kind : DriverKind) (safe : SafeMode) (d : Dialect).
(** A statement's failure, if it failed. *)
Definition run_statement (sql : bytes) : M (option Failure) :=
  let! g := guarded safe sql d in
  match g with
  | inl e => ret (Some (failure_local (run_message e)))
  | inr _ => let! r := run_engine sql timeout in ret (match r with inl e => Some (failure_server kind e) | inr _ => None end)
  end.
Fixpoint import_statements_loop (statements : list ScriptStatement) : M unit :=
  match statements with
  | [] => ret tt
  | x :: statements =>
      let! stop := peek (an_stop env) in
      if (stop : bool) then on_outcome set_cancelled
      else
        let! failure := run_statement (text x) in
        match failure with
        | Some f =>
            on_outcome (add_error (line x) (fl_message f)) ;;!
            if fl_lost f then on_outcome (lose_connection (line x) (line x))
            else if is_skip mode then import_statements_loop statements
            else on_outcome (halt mode in_transaction (line x) (fl_after f))
        | None =>
            on_outcome (add_written 1) ;;! let! o := outcome in emit_count "statements" (io_written o) ;;! import_statements_loop statements
        end
  end.
End Statements.
Record StatementsSetup := MkStatementsSetup {
  ss_mode : Mode; ss_conn : DriverKind; ss_safe : SafeMode; ss_dialect : Dialect; ss_fk : FkChecks; ss_timeout : option Z; ss_script : bytes;
  ss_statements : list ScriptStatement }.
Definition statements_setup (s : Settings) (path : bytes) : RunError + StatementsSetup :=
  let? mode := mode_of s in
  let? kind := (match connection s with inl m => inl (RDriver m) | inr kind => inr kind end) in
  let? safe := of_cli storage_message (safe_mode driver_read_only s) in
  let d := dialect connection s in
  let? fk := fk_checks s kind in
  let? timeout := statement_timeout s in
  let at_path rest := RUsage (B "IMPORT_PATH '" ++ path ++ B "'" ++ rest) in
  let unreadable e := RUsage (B "cannot read IMPORT_PATH '" ++ path ++ B "': " ++ e) in
  let? limit := positive_or s "IMPORT_SQL_MAX_BYTES" IMPORT_SQL_MAX_BYTES in
  let? size := (match file_size path with inl e => inl (unreadable e) | inr n => inr n end) in
  if (limit <? size)%Z then
    inl (at_path (B " is " ++ decimal size ++ B " bytes, over the " ++ decimal limit
                  ++ B "-byte limit (IMPORT_SQL_MAX_BYTES): a .sql file is read whole, so split it or raise the limit"))
  else
    let? content := (match read_bytes path with inl e => inl (unreadable e) | inr content => inr content end) in
    let? script := (match decode_sql content with inl reason => inl (at_path (B " " ++ reason)) | inr script => inr script end) in
    let statements := statements_with_lines_dialect script (lexer_of d) in
    match statements with
    | [] => inl (at_path (B " has no SQL statements"))
    | _ =>
        match client_directive script (lexer_of d) with
        | Some r => inl (at_path (B ", line " ++ decimal (Z.of_nat (refusal_line r)) ++ B ": " ++ reason r))
        | None => inr (MkStatementsSetup mode kind safe d fk timeout script statements)
        end
    end.
Definition statements_success (su : StatementsSetup) (in_transaction : bool) (o : Outcome) : M unit :=
  let! p := progress in
  (if match pg_last p with Some last => (last =? io_written o)%Z | None => false end then ret tt
   else out (OeProgress "statements" (io_written o) None None None)) ;;!
  let! query_id := peek (an_query_id env) in
  out (OeDone (MkDone true (io_written o) None (ss_mode su) (B "sql") false in_transaction (io_disposition o) None (io_errors o)
                 (io_errors_truncated o) (io_stopped_at o) (io_cancelled o) (fk_label (ss_fk su)) query_id (io_warnings o))).
Definition import_statements (s : Settings) (path : bytes) : M unit :=
  let! su := or_raise (statements_setup s path) in
  let! door := guarded (ss_safe su) (ss_script su) (ss_dialect su) in
  or_raise door ;;!
  out (OeStep "connect") ;;!
  open_session s (ss_conn su) ;;!
  out (OeStep "write") ;;!
  let in_transaction := transactions (ss_conn su) && negb (is_skip (ss_mode su)) in
  prologue (ss_fk su) (ss_timeout su) in_transaction ;;!
  start_progress s ;;!
  on_outcome (fun _ => outcome_new in_transaction) ;;!
  let! r := caught (import_statements_loop (ss_mode su) (ss_timeout su) in_transaction (ss_conn su) (ss_safe su) (ss_dialect su) (ss_statements su)) in
  conclude (ss_fk su) (ss_timeout su) in_transaction
    (fun o => connection_lost_message o in_transaction (B "statements") (B "the target"))
    (fun o => statements_failed o in_transaction) (statements_success su in_transaction) r.

(** ** The command *)

Definition IMPORT_PREVIEW_ROWS : Z := 5.
Definition IMPORT_PREVIEW_MAX : Z := 1000.
(** A preview reads at most [wanted] rows. *)
Fixpoint preview_rows (wanted : nat) : M (list Cells) :=
  match wanted with
  | O => ret []
  | Datatypes.S wanted =>
      let! next := ask (an_row env) EvRow in
      match next with
      | inl e => fail e
      | inr None => ret []
      | inr (Some row) => let! rows := preview_rows wanted in ret (jr_cells row :: rows)
      end
  end.
Definition default_options : ReadOptions := MkReadOptions None false None None None None.
Definition preview_json (s : Settings) (path : bytes) : M unit :=
  let! n := or_raise (setting (number s (B "IMPORT_PREVIEW_ROWS") IMPORT_PREVIEW_ROWS)) in
  let wanted := if (0 <? n)%Z then Z.min n IMPORT_PREVIEW_MAX else IMPORT_PREVIEW_ROWS in
  let! reader := or_raise (open_file path JsonFormat default_options) in
  let! rows := preview_rows (Z.to_nat wanted) in
  out (OeColumns (default [] (rr_header reader))) ;;!
  match rows with [] => ret tt | _ => out (OeRows rows) end ;;!
  out OePreviewDone.
Variable home : option bytes.
Variable cwd : bytes + bytes.
Variable exists_ : bytes -> bool.
Definition import_data (fuel : nat) (s : Settings) (w : ImportWorld S) : option ((RunError + unit) * ImportWorld S) :=
  match source_path home cwd exists_ s with
  | inl e => Some (inl e, w)
  | inr path =>
      match source_of s path with
      | inl e => Some (inl e, w)
      | inr source =>
          if flag s (B "IMPORT_PREVIEW") false then
            match source with
            | RowSource JsonFormat => Some (preview_json s path w)
            | _ => Some (inl (RUsage (B "IMPORT_PREVIEW is only offered for JSON files")), w)
            end
          else
            match source with
            | RowSource format => import_rows_file fuel s path format w
            | Statements => Some (import_statements s path w)
            end
      end
  end.
End Runs.
