(* ===== verification/ImportSpec.v ===== *)
(** * ImportSpec: an import leaves in the table what its error mode says, for [Import].

    The loop of the rows is described by a ledger: the batches in the order they were sent, each with
    what the server answered. A server is known by what its statements do to a table others see and to a
    session that may have a transaction open ([server_step]); it answers as it likes. *)
From stdpp Require Import gmap.
From S2P Require Import Prelude Bytes Text Scan Classify Env ExecLog Guard Ident Value Json Batch Names Retry TransferPlan TransferRun.
From S2P Require Import TransferSetup TableSwap Apply ImportDates ImportPlan Writers Import.
#[local] Open Scope nat_scope.
#[local] Arguments B : simpl never.
#[local] Arguments Import.finish : simpl never.

(** ** Reading the trace *)

Definition executed (tr : list ImportEvent) : list (bytes * (EngineError + option Z)) :=
  omap (fun e => match e with EvExecute sql r => Some (sql, r) | _ => None end) tr.
Definition rows_read (tr : list ImportEvent) : list JsonRow := omap (fun e => match e with EvRow (inr (Some row)) => Some row | _ => None end) tr.
Definition reports (tr : list ImportEvent) : list DoneReport := omap (fun e => match e with EvOut (OeDone r) None => Some r | _ => None end) tr.
Lemma executed_app a b : executed (a ++ b) = executed a ++ executed b.
Proof. apply omap_app. Qed.
Lemma rows_read_app a b : rows_read (a ++ b) = rows_read a ++ rows_read b.
Proof. apply omap_app. Qed.
Lemma reports_app a b : reports (a ++ b) = reports a ++ reports b.
Proof. apply omap_app. Qed.

(** ** The ledger *)

(** A batch and the server's answer to its [INSERT]; [None]: the gate refused it and it was not sent. *)
Definition Entry : Type := ImportBatch * option (EngineError + option Z).
Definition landed (x : Entry) : bool :=
  match x.2 with Some (inr None) => true | Some (inr (Some n)) => (n =? Z.of_nat (length x.1))%Z | _ => false end.
Definition clean (ledger : list Entry) : Prop := Forall (fun x => landed x = true) ledger.
Definition batches (ledger : list Entry) : ImportBatch := mjoin (fst <$> ledger).
Definition written (ledger : list Entry) : Z := foldr (fun x n => (if landed x then Z.of_nat (length x.1) else 0) + n)%Z 0%Z ledger.
Definition failures (ledger : list Entry) : nat := length (List.filter (fun x => negb (landed x)) ledger).
Lemma batches_snoc l x : batches (l ++ [x]) = batches l ++ x.1.
Proof. unfold batches. rewrite fmap_app. cbn. rewrite join_app. cbn. by rewrite app_nil_r. Qed.
Lemma written_snoc l x : written (l ++ [x]) = (written l + (if landed x then Z.of_nat (length x.1) else 0))%Z.
Proof. induction l as [|y l IH]; cbn; [lia|]. unfold written in *. cbn in *. rewrite IH. lia. Qed.
Lemma failures_snoc l x : failures (l ++ [x]) = failures l + (if landed x then 0 else 1).
Proof. unfold failures. rewrite List.filter_app, length_app. cbn. by destruct (landed x). Qed.
Lemma clean_snoc l x : clean l -> landed x = true -> clean (l ++ [x]).
Proof. intros Hl Hx. apply Forall_app. split; [done|by constructor]. Qed.
Lemma clean_failures l : clean l -> failures l = 0.
Proof. unfold failures. induction 1 as [|x l Hx _ IH]; [done|]. cbn. by rewrite Hx. Qed.

Section Spec.
Context `{FloatParts} `{Unicode} {S : Type} `{ExecutionStore S}.
Variable now_millis : S -> Z.
Variable storage_message : bytes.
Variable env : ImportAnswers.
Abbreviation World := (ImportWorld S).
Definition sent (plan : Plan) (ledger : list Entry) : list (bytes * (EngineError + option Z)) :=
  omap (fun x => (fun r => (insert_statement plan (snd <$> x.1), r)) <$> x.2) ledger.
Lemma sent_snoc plan l x : sent plan (l ++ [x]) = sent plan l ++ option_list ((fun r => (insert_statement plan (snd <$> x.1), r)) <$> x.2).
Proof. unfold sent. by rewrite omap_app. Qed.

(** The rows accepted, how many were rejected, and the width after them. *)
Fixpoint judged (plan : Plan) (reader : Reader) (width : option nat) (rows : list JsonRow) : ImportBatch * nat * option nat :=
  match rows with
  | [] => ([], 0, width)
  | row :: rows =>
      let '(accepted, rejected, last) := judged plan reader (next_width reader width row) rows in
      match judge plan reader width row with
      | inl _ => (accepted, Datatypes.S rejected, last)
      | inr cells => ((jr_line row, cells) :: accepted, rejected, last)
      end
  end.
Lemma judged_snoc plan reader rows : forall width row accepted rejected last, judged plan reader width rows = (accepted, rejected, last) ->
  judged plan reader width (rows ++ [row]) =
    match judge plan reader last row with
    | inl _ => (accepted, Datatypes.S rejected, next_width reader last row)
    | inr cells => (accepted ++ [(jr_line row, cells)], rejected, next_width reader last row)
    end.
Proof.
  induction rows as [|r0 rows IH]; intros width row accepted rejected last Hj; cbn in Hj |- *.
  - injection Hj as <- <- <-. by destruct (judge plan reader width row).
  - destruct (judged plan reader (next_width reader width r0) rows) as [[a1 r1] l1] eqn:E. rewrite (IH _ row _ _ _ E).
    destruct (judge plan reader width r0) as [e|cells]; injection Hj as <- <- <-; by destruct (judge plan reader l1 row).
Qed.

(** ** The steps of the loop *)

Definition quiet (l : list ImportEvent) : Prop := executed l = [] /\ rows_read l = [] /\ reports l = [].
Lemma quiet_app a b : quiet a -> quiet b -> quiet (a ++ b).
Proof. intros (E1 & E2 & E3) (F1 & F2 & F3). unfold quiet. by rewrite executed_app, rows_read_app, reports_app, E1, E2, E3, F1, F2, F3. Qed.
(** [w'] is [w] with more in the trace and the outcome said. *)
Definition moved (w : World) (l : list ImportEvent) (o : Outcome) (w' : World) : Prop := w_trace w' = w_trace w ++ l /\ w_outcome w' = o.
Abbreviation emit_count := (emit_count env).
Abbreviation send_batch := (send_batch now_millis storage_message env).
Abbreviation flush := (flush now_millis storage_message env).
Lemma emit_count_moves key count w : exists l, quiet l /\ moved w l (w_outcome w) (emit_count key count w).2
  /\ ((emit_count key count w).1 = inr tt \/ exists m, (emit_count key count w).1 = inl (RIo m)).
Proof.
  unfold Import.emit_count, bind, progress, peek. destruct (progress_due _ _ _).
  - unfold on_progress, out, bind, ask, log. cbn. set (e := progress_event _ _ _). destruct (an_out _ _ e) as [m|]; cbn.
    + exists [EvOut e (Some m)]. split; [by split_and!|]. split; [done|]. right. by eexists.
    + exists [EvOut e None]. split; [by split_and!|]. split; [done|]. by left.
  - exists []. split; [by split_and!|]. cbn. split; [|by left]. split; [by rewrite app_nil_r|done].
Qed.
(** A batch sent, or refused by the gate: what the answer makes of it. *)
Definition after_of (plan : Plan) (x : Entry) : Txn := match x.2 with Some (inl e) => txn_after (ss_kind (pl_style plan)) e | _ => TxnAlive end.
Definition lost_of (x : Entry) : bool := match x.2 with Some (inl e) => is_lost e | _ => false end.
Definition failure_of (plan : Plan) (x : Entry) (f : Failure) : Prop := fl_after f = after_of plan x /\ fl_lost f = lost_of x.
Lemma send_batch_moves plan batch timeout safe d w : exists a,
  moved w (option_list (EvExecute (insert_statement plan (snd <$> batch)) <$> a)) (w_outcome w) (send_batch plan batch timeout safe d w).2
  /\ if landed (batch, a) then (send_batch plan batch timeout safe d w).1 = inr (inr (Z.of_nat (length batch)))
     else exists f, (send_batch plan batch timeout safe d w).1 = inr (inl f) /\ failure_of plan (batch, a) f.
Proof.
  unfold Import.send_batch, bind, guarded. destruct (guard _ _ _ _ _) as [sink [e|u]]; cbn.
  - exists None. split; [split; [by rewrite app_nil_r|done]|]. cbn. by eexists.
  - exists (Some (an_execute env (w_trace w) (insert_statement plan (snd <$> batch)) timeout)). split; [done|]. unfold run_engine, ask. cbn.
    destruct (an_execute _ _ _ _) as [e|[n|]]; cbn; [by eexists| |done]. destruct (n =? Z.of_nat (length batch))%Z; [done|]. by eexists.
Qed.
Lemma flush_moves plan batch timeout safe d w : batch <> [] -> exists a l, quiet l /\
  if landed (batch, a) then
    moved w (option_list (EvExecute (insert_statement plan (snd <$> batch)) <$> a) ++ l) (add_written (Z.of_nat (length batch)) (w_outcome w))
      (flush plan batch timeout safe d w).2
    /\ ((flush plan batch timeout safe d w).1 = inr None \/ exists m, (flush plan batch timeout safe d w).1 = inl (RIo m))
  else
    moved w (option_list (EvExecute (insert_statement plan (snd <$> batch)) <$> a) ++ l) (w_outcome w) (flush plan batch timeout safe d w).2
    /\ exists f, (flush plan batch timeout safe d w).1 = inr (Some f) /\ failure_of plan (batch, a) f.
Proof.
  intros Hb. destruct (send_batch_moves plan batch timeout safe d w) as (a & [Ht Ho] & Hr). exists a.
  unfold Import.flush. destruct batch as [|x batch]; [done|]. unfold bind. destruct (send_batch plan (x :: batch) timeout safe d w) as [r w1]. cbn [fst snd] in *.
  destruct (landed _).
  - subst r. unfold on_outcome, outcome. set (w2 := MkImport _ _ _ _). destruct (emit_count_moves "rows" (io_written (w_outcome w2)) w2) as (l & Hq & [Ht2 Ho2] & Hr2).
    exists l. split; [done|]. destruct (emit_count "rows" (io_written (w_outcome w2)) w2) as [r3 w3]. cbn [fst snd] in *. split.
    + destruct Hr2 as [->|[m ->]]; (split; cbn [ret snd]; [by rewrite Ht2, app_assoc; cbn [w2 w_trace]; rewrite Ht|rewrite Ho2; cbn; by rewrite Ho]).
    + destruct Hr2 as [->|[m ->]]; [by left|right; by eexists].
  - destruct Hr as (f & -> & Hf). exists []. split; [by split_and!|]. split; [split; [by rewrite app_nil_r|done]|]. by eexists.
Qed.

(** ** The loop *)

(** What an outcome tells: as many errors as rows were rejected and batches failed, up to the cap. *)
Definition told (o : Outcome) (n : nat) : Prop :=
  if io_errors_truncated o then length (io_errors o) = MAX_ERRORS /\ MAX_ERRORS < n else length (io_errors o) = n /\ n <= MAX_ERRORS.
Lemma told_more o n line message : told o n -> told (add_error line message o) (Datatypes.S n).
Proof.
  unfold told, add_error. destruct (length (io_errors o) <? MAX_ERRORS) eqn:E; cbn [io_errors io_errors_truncated]; destruct (io_errors_truncated o).
  - apply Nat.ltb_lt in E. intros []. lia.
  - rewrite length_app. cbn. apply Nat.ltb_lt in E. lia.
  - intros []. split; [done|lia].
  - apply Nat.ltb_ge in E. intros []. lia.
Qed.
Record Going (o : Outcome) : Prop := {
  go_stopped : io_stopped_at o = None; go_rollback : io_rollback o = false; go_failed : io_failed o = false; go_lost : io_lost o = false;
  go_warnings : io_warnings o = []; go_connection : io_connection_lost o = false }.
Lemma going_error line message o : Going o -> Going (add_error line message o).
Proof. unfold add_error. destruct (_ <? _); by intros []. Qed.

Section Loop.
Variables (plan : Plan) (reader : Reader) (mode : Mode) (batch_size : Z) (timeout : option Z) (in_transaction : bool) (safe : SafeMode) (d : Dialect).
Definition first_width : option nat := if rr_checks_width reader then length <$> rr_header reader else None.
(** What was read is what the ledger sent, with [batch] still to send; [rejected] rows were not taken. *)
Record Sofar (more : list ImportEvent) (ledger : list Entry) (batch : ImportBatch) (rejected : nat) (width : option nat) : Prop := {
  sf_sent : executed more = sent plan ledger;
  sf_rows : judged plan reader first_width (rows_read more) = (batches ledger ++ batch, rejected, width);
  sf_reports : reports more = [] }.
Record Counted (ledger : list Entry) (rejected : nat) (o : Outcome) : Prop := {
  ct_written : io_written o = written ledger; ct_rejected : io_rejected o = Z.of_nat rejected; ct_told : told o (rejected + failures ledger) }.
Definition loop_inv (more : list ImportEvent) (batch : ImportBatch) (width : option nat) (o : Outcome) : Prop :=
  exists ledger rejected, Sofar more ledger batch rejected width /\ Counted ledger rejected o /\ Going o
    /\ (is_skip mode = false -> clean ledger /\ rejected = 0) /\ (is_skip mode = true -> batch = [] /\ Forall (fun x => lost_of x = false) ledger).
(** The loop given up in the middle. *)
Definition stuck (more : list ImportEvent) : Prop :=
  exists ledger left_ rejected width, Sofar more ledger left_ rejected width /\ (is_skip mode = false -> clean ledger).
Inductive Ended (ledger : list Entry) (rejected : nat) (o : Outcome) : Prop :=
| ended_whole : Going o -> (is_skip mode = false -> clean ledger /\ rejected = 0) -> Forall (fun x => lost_of x = false) ledger -> Ended ledger rejected o
| ended_lost l x : ledger = l ++ [x] -> lost_of x = true -> (is_skip mode = false -> clean l) -> io_connection_lost o = true -> Ended ledger rejected o
| ended_halted line after o0 : is_skip mode = false -> Going o0 -> o = halt mode in_transaction line after o0 ->
    (clean ledger /\ after = TxnAlive /\ rejected = 1
     \/ exists l x, ledger = l ++ [x] /\ clean l /\ landed x = false /\ lost_of x = false /\ after = after_of plan x /\ rejected <= 1) ->
    Ended ledger rejected o.
Definition ended (more : list ImportEvent) (o : Outcome) : Prop :=
  exists ledger rejected width, Sofar more ledger [] rejected width /\ Counted ledger rejected o /\ Ended ledger rejected o.

Lemma sofar_quiet more l ledger batch rejected width : quiet l -> Sofar more ledger batch rejected width -> Sofar (more ++ l) ledger batch rejected width.
Proof. intros (E1 & E2 & E3) [H1' H2' H3']. split; [by rewrite executed_app, E1, app_nil_r|by rewrite rows_read_app, E2, app_nil_r|by rewrite reports_app, H3', E3]. Qed.
Lemma sofar_sent more l ledger batch a rejected width : quiet l -> Sofar more ledger batch rejected width ->
  Sofar (more ++ option_list (EvExecute (insert_statement plan (snd <$> batch)) <$> a) ++ l) (ledger ++ [(batch, a)]) [] rejected width.
Proof.
  intros Hq [H1' H2' H3']. rewrite app_assoc. apply sofar_quiet; [done|]. split.
  - rewrite executed_app, H1', sent_snoc. by destruct a.
  - rewrite rows_read_app, batches_snoc. cbn [fst]. rewrite app_nil_r. destruct a; cbn; by rewrite app_nil_r.
  - rewrite reports_app, H3'. by destruct a.
Qed.
Lemma counted_landed ledger batch a rejected o : landed (batch, a) = true -> Counted ledger rejected o ->
  Counted (ledger ++ [(batch, a)]) rejected (add_written (Z.of_nat (length batch)) o).
Proof.
  intros Hl [H1' H2' H3']. split; [cbn; rewrite H1', written_snoc, Hl; done|done|]. rewrite failures_snoc, Hl, Nat.add_0_r. exact H3'.
Qed.
Lemma counted_failed ledger x rejected line message o : landed x = false -> Counted ledger rejected o ->
  Counted (ledger ++ [x]) rejected (add_error line message o).
Proof.
  intros Hl [H1' H2' H3']. split.
  - rewrite written_snoc, Hl, Z.add_0_r. unfold add_error. by destruct (_ <? _).
  - unfold add_error. by destruct (_ <? _).
  - rewrite failures_snoc, Hl. replace (rejected + (failures ledger + 1)) with (Datatypes.S (rejected + failures ledger)) by lia. by apply told_more.
Qed.
Lemma counted_rejected ledger rejected line message o : Counted ledger rejected o ->
  Counted ledger (Datatypes.S rejected) (add_error line message (add_rejected o)).
Proof.
  intros [H1' H2' H3']. split.
  - unfold add_error. by destruct (_ <? _).
  - unfold add_error. destruct (_ <? _); cbn; rewrite H2'; lia.
  - change (Datatypes.S rejected + failures ledger) with (Datatypes.S (rejected + failures ledger)). apply told_more. exact H3'.
Qed.
Lemma counted_halt ledger rejected line after o : Counted ledger rejected o -> Counted ledger rejected (halt mode in_transaction line after o).
Proof. by intros []. Qed.
Lemma counted_lose ledger rejected first last o : Counted ledger rejected o -> Counted ledger rejected (lose_connection first last o).
Proof. by intros []. Qed.

Lemma going_written n o : Going o -> Going (add_written n o).
Proof. by intros []. Qed.
Lemma flush_step w T0 more ledger batch rejected width : w_trace w = T0 ++ more -> Sofar more ledger batch rejected width ->
  let '(r, w') := flush plan batch timeout safe d w in
  exists more' ledger', w_trace w' = T0 ++ more' /\ Sofar more' ledger' [] rejected width /\
  match r with
  | inr None => (Counted ledger rejected (w_outcome w) -> Counted ledger' rejected (w_outcome w')) /\ (Going (w_outcome w) -> Going (w_outcome w'))
      /\ (clean ledger -> clean ledger') /\ (Forall (fun x => lost_of x = false) ledger -> Forall (fun x => lost_of x = false) ledger')
  | inr (Some f) => w_outcome w' = w_outcome w /\ exists a, ledger' = ledger ++ [(batch, a)] /\ landed (batch, a) = false /\ failure_of plan (batch, a) f
  | inl _ => clean ledger -> clean ledger'
  end.
Proof.
  intros Ht Hs. destruct batch as [|x batch].
  { cbn. exists more, ledger. by split_and!. }
  destruct (flush_moves plan (x :: batch) timeout safe d w ltac:(done)) as (a & l & Hq & Hm). destruct (flush plan (x :: batch) timeout safe d w) as [r w']. cbn [fst snd] in Hm.
  exists (more ++ option_list (EvExecute (insert_statement plan (snd <$> x :: batch)) <$> a) ++ l), (ledger ++ [(x :: batch, a)]).
  pose proof (sofar_sent _ _ _ _ a _ _ Hq Hs) as Hs'.
  destruct (landed (x :: batch, a)) eqn:El.
  - destruct Hm as [[Ht' Ho'] Hr]. split; [by rewrite Ht', Ht, <- app_assoc|]. split; [exact Hs'|]. destruct Hr as [->|[m ->]]; [|by intros Hc; apply clean_snoc].
    rewrite Ho'. split; [by apply counted_landed|]. split; [by apply going_written|]. split; [by intros Hc; apply clean_snoc|].
    intros Hf. apply Forall_app. split; [done|]. constructor; [|done]. unfold lost_of, landed in *. cbn [snd] in *. by destruct a as [[]|].
  - destruct Hm as [[Ht' Ho'] (f & -> & Hf)]. split; [by rewrite Ht', Ht, <- app_assoc|]. split; [exact Hs'|]. split; [done|]. by exists a.
Qed.
(** A failed batch, told and decided. *)
Lemma failed_step ledger rejected a batch f o : landed (batch, a) = false -> failure_of plan (batch, a) f -> Counted ledger rejected o -> Going o ->
  (is_skip mode = false -> clean ledger /\ rejected = 0) -> Forall (fun x => lost_of x = false) ledger ->
  let '(ends, o') := outcome_failed mode in_transaction batch f o in
  Counted (ledger ++ [(batch, a)]) rejected o'
  /\ if ends then Ended (ledger ++ [(batch, a)]) rejected o'
     else is_skip mode = true /\ Going o' /\ Forall (fun x => lost_of x = false) (ledger ++ [(batch, a)]).
Proof.
  intros Hl [Ha Hf] Hc Hg Hclean Hnl. unfold outcome_failed. rewrite Hf. pose proof (counted_failed _ _ _ (line_of batch) (fl_message f) _ Hl Hc) as Hc'.
  destruct (lost_of (batch, a)) eqn:Elost.
  - split; [by apply counted_lose|]. eapply ended_lost; [done|done|by intros E; apply Hclean|done].
  - destruct (is_skip mode) eqn:Em; cbn [negb].
    + split; [done|]. split; [done|]. split; [by apply going_error|]. apply Forall_app. split; [done|by constructor].
    + split; [by apply counted_halt|]. destruct (Hclean eq_refl) as [Hcl Hr]. eapply ended_halted; [done|by apply going_error|done|]. right. exists ledger, (batch, a). split_and!; try done. lia.
Qed.
Lemma sofar_row more ledger batch rejected width row : Sofar more ledger batch rejected width ->
  match judge plan reader width row with
  | inl _ => Sofar (more ++ [EvRow (inr (Some row))]) ledger batch (Datatypes.S rejected) (next_width reader width row)
  | inr cells => Sofar (more ++ [EvRow (inr (Some row))]) ledger (batch ++ [(jr_line row, cells)]) rejected (next_width reader width row)
  end.
Proof.
  intros [H1' H2' H3']. destruct (judge plan reader width row) as [e|cells] eqn:Ej; (split; [by rewrite executed_app, H1', app_nil_r| |by rewrite reports_app, H3']);
    rewrite rows_read_app; cbn; rewrite (judged_snoc _ _ _ _ _ _ _ _ H2'), Ej; [done|by rewrite app_assoc].
Qed.
(** A rejected row that ends the loop: the rows before it are sent first. *)
Lemma reject_step w T0 more ledger batch width line : is_skip mode = false -> w_trace w = T0 ++ more -> Sofar more ledger batch 1 width ->
  Counted ledger 1 (w_outcome w) -> Going (w_outcome w) -> clean ledger ->
  let '(r, w') := reject_and_end now_millis storage_message env plan mode timeout in_transaction safe d batch line w in
  exists more', w_trace w' = T0 ++ more' /\ match r with inl _ => stuck more' | inr TurnReturn => ended more' (w_outcome w') | inr _ => False end.
Proof.
  intros Hm Ht Hs Hc Hg Hcl. unfold reject_and_end, bind. pose proof (flush_step w T0 more ledger batch 1 width Ht Hs) as Hf.
  destruct (flush plan batch timeout safe d w) as [r w']. destruct Hf as (more' & ledger' & Ht' & Hs' & Hr). destruct r as [e|[f|]].
  - exists more'. split; [done|]. exists ledger', [], 1, width. split; [done|]. intros _. by apply Hr.
  - destruct Hr as [Ho (a & -> & Hl & [Ha Hlost])]. unfold on_outcome. cbn [w_outcome w_trace]. rewrite Ho, Hlost.
    pose proof (counted_failed _ _ _ (line_of batch) (fl_message f) _ Hl Hc) as Hc'.
    destruct (lost_of (batch, a)) eqn:El; cbn; exists more'; (split; [done|]); exists (ledger ++ [(batch, a)]), 1, width; (split; [done|]).
    + split; [by apply counted_lose|]. by eapply ended_lost.
    + split; [by apply counted_halt|]. eapply ended_halted; [done|by apply going_error|done|]. right. exists ledger, (batch, a). by split_and!.
  - destruct Hr as (Hc' & Hg' & Hcl' & _). cbn. exists more'. split; [done|]. exists ledger', 1, width. split; [done|]. split; [apply counted_halt; auto|].
    eapply ended_halted; [done|apply Hg', Hg|done|]. left. split_and!; auto.
Qed.
Lemma row_turn_step w T0 more batch width : w_trace w = T0 ++ more -> loop_inv more batch width (w_outcome w) ->
  let '(r, w') := row_turn now_millis storage_message env plan reader mode batch_size timeout in_transaction safe d batch width w in
  exists more', w_trace w' = T0 ++ more' /\
  match r with
  | inl _ => stuck more'
  | inr (TurnNext batch' width') => loop_inv more' batch' width' (w_outcome w')
  | inr (TurnBreak batch') => exists width', loop_inv more' batch' width' (w_outcome w')
  | inr TurnReturn => ended more' (w_outcome w')
  end.
Proof.
  intros Ht (ledger & rejected & Hs & Hc & Hg & Hclean & Hskip). unfold row_turn, bind, peek. destruct (an_stop env (w_trace w)).
  { exists more. split; [done|]. exists width, ledger, rejected. cbn. split; [done|]. split; [by destruct Hc|]. split; [by destruct Hg|done]. }
  unfold ask. set (a := an_row env (w_trace w)). cbn [log w_trace w_outcome]. assert (w_trace (log (EvRow a) w) = T0 ++ (more ++ [EvRow a])) as Ht1 by (cbn; by rewrite Ht, <- app_assoc).
  destruct a as [e|[row|]] eqn:Ea.
  - exists (more ++ [EvRow (inl e)]). split; [exact Ht1|]. exists ledger, batch, rejected, width. split; [by apply sofar_quiet|by intros E; apply Hclean].
  - unfold on_progress. set (w2 := MkImport _ _ _ _). assert (w_trace w2 = T0 ++ (more ++ [EvRow (inr (Some row))])) as Ht2 by exact Ht1.
    assert (w_outcome w2 = w_outcome w) as Ho2 by done. clearbody w2. set (more2 := more ++ _) in *.
    destruct (judge plan reader width row) as [reason|cells] eqn:Ej.
    + pose proof (sofar_row _ _ _ _ _ row Hs) as Hs2. rewrite Ej in Hs2. unfold on_outcome. rewrite Ho2.
      set (w3 := MkImport _ _ _ _). pose proof (counted_rejected _ _ (jr_line row) reason _ Hc) as Hc2.
      assert (Going (add_error (jr_line row) reason (add_rejected (w_outcome w)))) as Hg2 by (apply going_error; by destruct Hg).
      destruct (is_skip mode) eqn:Em.
      * exists more2. split; [exact Ht2|]. exists ledger, (Datatypes.S rejected). split; [exact Hs2|]. split; [exact Hc2|]. split; [exact Hg2|]. split; [by rewrite Em|intros _; exact (Hskip eq_refl)].
      * destruct (Hclean eq_refl) as [Hcl ->]. pose proof (reject_step w3 T0 more2 ledger batch _ (jr_line row) Em Ht2 Hs2 Hc2 Hg2 Hcl) as Hr.
        destruct (reject_and_end _ _ _ _ _ _ _ _ _ _ _ w3) as [[e|[]] w']; destruct Hr as (more' & Ht' & Hr); try done; by exists more'.
    + pose proof (sofar_row _ _ _ _ _ row Hs) as Hs2. rewrite Ej in Hs2. fold more2 in Hs2. set (batch2 := batch ++ _) in *.
      destruct (is_skip mode || _) eqn:Efull.
      * unfold send_full, bind. pose proof (flush_step w2 T0 more2 ledger batch2 rejected _ Ht2 Hs2) as Hf.
        destruct (flush plan batch2 timeout safe d w2) as [r w']. destruct Hf as (more' & ledger' & Ht' & Hs' & Hr). destruct r as [e|[f|]].
        -- exists more'. split; [done|]. do 4 eexists. split; [exact Hs'|]. intros E. apply Hr, Hclean, E.
        -- destruct Hr as [Ho (a1 & -> & Hl & Hf)]. unfold outcome. rewrite Ho, Ho2.
           assert (Forall (fun x => lost_of x = false) ledger) as Hnl.
           { destruct (is_skip mode) eqn:Em; [by apply Hskip|]. destruct (Hclean eq_refl) as [Hcl _]. eapply Forall_impl; [exact Hcl|].
             intros [b [[]|]] Hx; done. }
           pose proof (failed_step _ _ _ _ _ _ Hl Hf Hc Hg Hclean Hnl) as Hfs. destruct (outcome_failed _ _ _ _ _) as [[|] o']; destruct Hfs as [Hc' He]; unfold on_outcome; cbn.
           ++ exists more'. split; [done|]. exists (ledger ++ [(batch2, a1)]), rejected. eexists. split; [exact Hs'|]. by split.
           ++ destruct He as (Em & Hg' & Hnl'). exists more'. split; [done|]. exists (ledger ++ [(batch2, a1)]), rejected. split; [exact Hs'|]. split; [done|]. split; [done|].
              split; [by rewrite Em|done].
        -- destruct Hr as (Hc' & Hg' & Hcl' & Hnl'). rewrite Ho2 in Hc', Hg'. exists more'. split; [done|]. exists ledger', rejected. split; [exact Hs'|]. split; [auto|]. split; [auto|].
           split; [intros E; destruct (Hclean E); auto|]. intros E. split; [done|]. apply Hnl', Hskip, E.
      * apply orb_false_iff in Efull as [Em _]. exists more2. split; [exact Ht2|]. exists ledger, rejected. rewrite Ho2. split; [exact Hs2|]. split; [done|]. split; [done|].
        split; [done|]. by rewrite Em.
  - exists (more ++ [EvRow (inr None)]). split; [exact Ht1|]. exists width, ledger, rejected. split; [by apply sofar_quiet|]. done.
Qed.

Abbreviation import_rows := (import_rows now_millis storage_message env plan reader mode batch_size timeout in_transaction safe d).
Abbreviation row_body := (row_body now_millis storage_message env plan reader mode batch_size timeout in_transaction safe d).
Lemma rows_loop fuel T0 : forall batch width w more res, w_trace w = T0 ++ more -> loop_inv more batch width (w_outcome w) ->
  iter row_body fuel (batch, width, w) = Some res ->
  exists more', w_trace res.2 = T0 ++ more' /\
  match res.1 with
  | inl _ => stuck more'
  | inr (Some batch') => exists width', loop_inv more' batch' width' (w_outcome res.2)
  | inr None => ended more' (w_outcome res.2)
  end.
Proof.
  induction fuel as [|fuel IH]; intros batch width w more res Ht Hi Hr; [done|]. rewrite iter_S in Hr. unfold Import.row_body at 1 in Hr.
  pose proof (row_turn_step w T0 more batch width Ht Hi) as Hs. destruct (row_turn _ _ _ _ _ _ _ _ _ _ _ _ _ w) as [[e|[batch' width'|batch'|]] w']; destruct Hs as (more' & Ht' & Hs).
  - injection Hr as <-. by exists more'.
  - by eapply IH.
  - injection Hr as <-. by exists more'.
  - injection Hr as <-. by exists more'.
Qed.
Lemma rows_ran fuel w r w' : import_rows fuel w = Some (r, w') -> exists more, w_trace w' = w_trace w ++ more /\
  match r with inl _ => stuck more | inr _ => ended more (w_outcome w') end.
Proof.
  unfold Import.import_rows. set (w0 := MkImport _ _ _ _).
  assert (loop_inv [] [] first_width (w_outcome w0)) as Hi.
  { exists [], 0. split; [done|]. split; [split; [done|done|split; [done|unfold MAX_ERRORS; cbn; lia]]|]. split; [by split|]. split; [intros _; split; [constructor|done]|intros _; split; [done|constructor]]. }
  destruct (iter row_body fuel _) as [[o w1]|] eqn:E; [|done]. intros Hr. pose proof (rows_loop fuel (w_trace w) [] first_width w0 [] _ ltac:(by rewrite app_nil_r) Hi E) as (more & Ht & Hs). cbn [fst snd] in Ht, Hs.
  destruct o as [e|[batch|]]; [injection Hr as <- <-; by exists more| |injection Hr as <- <-; by exists more].
  destruct Hs as (width & ledger & rejected & Hs & Hc & Hg & Hclean & Hskip). unfold send_tail in Hr.
  assert (Forall (fun x => lost_of x = false) ledger) as Hnl.
  { destruct (is_skip mode) eqn:Em; [by apply Hskip|]. destruct (Hclean eq_refl) as [Hcl _]. eapply Forall_impl; [exact Hcl|]. by intros [b [[]|]] Hx. }
  destruct batch as [|x batch].
  { injection Hr as <- <-. exists more. split; [done|]. exists ledger, rejected, width. split; [done|]. split; [done|]. by apply ended_whole. }
  unfold bind in Hr. pose proof (flush_step w1 (w_trace w) more ledger (x :: batch) rejected width Ht Hs) as Hf.
  destruct (flush plan (x :: batch) timeout safe d w1) as [r2 w2]. destruct Hf as (more' & ledger' & Ht' & Hs' & Hf). destruct r2 as [e|[f|]].
  - injection Hr as <- <-. exists more'. split; [done|]. do 4 eexists. split; [exact Hs'|]. intros E2. apply Hf, Hclean, E2.
  - destruct Hf as [Ho (a & -> & Hl & Hf)]. injection Hr as <- <-. exists more'. split; [done|].
    exists (ledger ++ [(x :: batch, a)]), rejected, width. split; [exact Hs'|]. cbn [w_outcome]. rewrite Ho.
    pose proof (failed_step _ _ _ _ _ _ Hl Hf Hc Hg Hclean Hnl) as Hfs. destruct (outcome_failed _ _ _ _ _) as [[|] o']; destruct Hfs as [Hc' He]; (split; [done|]); [done|].
    destruct He as (Em & Hg' & Hnl'). apply ended_whole; [done|by rewrite Em|done].
  - destruct Hf as (Hc' & Hg' & Hcl' & Hnl'). injection Hr as <- <-. exists more'. split; [done|]. exists ledger', rejected, width. split; [exact Hs'|]. split; [auto|].
    apply ended_whole; auto. intros E2. destruct (Hclean E2); auto.
Qed.
(** The loop ends when the file does. *)
Definition file_ends (n : nat) : Prop := forall tr, n <= length (rows_read tr) -> forall row, an_row env tr <> inr (Some row).
Lemma rows_end n : file_ends n -> forall w, exists x, import_rows (Datatypes.S n) w = Some x.
Proof.
  intros Hn w. unfold Import.import_rows. set (w0 := MkImport _ _ _ _).
  assert (forall k batch width w, n - length (rows_read (w_trace w)) < k -> exists x, iter row_body k (batch, width, w) = Some x) as Hl.
  { clear w w0. induction k as [|k IH]; intros batch width w Hk; [lia|]. rewrite iter_S. unfold Import.row_body at 1.
    destruct (row_turn _ _ _ _ _ _ _ _ _ _ _ batch width w) as [[e|[batch' width'|batch'|]] w'] eqn:E; [by eexists| |by eexists..]. apply IH.
    enough (length (rows_read (w_trace w)) < n /\ length (rows_read (w_trace w)) < length (rows_read (w_trace w'))) by lia.
    unfold row_turn, bind, peek in E. destruct (an_stop env (w_trace w)); [done|]. unfold ask in E. destruct (an_row env (w_trace w)) as [e|[row|]] eqn:Er; [done| |done].
    assert (length (rows_read (w_trace w)) < n) as Hlt by (destruct (Nat.le_gt_cases n (length (rows_read (w_trace w)))) as [Hge|]; [by destruct (Hn _ Hge row)|lia]).
    split; [done|]. assert (forall l, length (rows_read (w_trace w)) < length (rows_read ((w_trace w ++ [EvRow (inr (Some row))]) ++ l))) as Hgrow
      by (intros l; rewrite !rows_read_app, !length_app; cbn; lia).
    unfold on_progress in E. set (w2 := MkImport _ _ _ _) in E. assert (w_trace w2 = w_trace w ++ [EvRow (inr (Some row))]) as Ht2 by done. clearbody w2.
    destruct (judge _ _ _ _) as [reason|cells].
    - unfold on_outcome in E. destruct (is_skip mode); [injection E as <- <- <-; cbn; rewrite Ht2; specialize (Hgrow []); by rewrite app_nil_r in Hgrow|].
      unfold reject_and_end, bind in E. destruct (flush plan batch timeout safe d _) as [[e|[f|]] w3]; [done| |done]. unfold on_outcome in E. by destruct (fl_lost f).
    - destruct (is_skip mode || _); [|injection E as <- <- <-; rewrite Ht2; specialize (Hgrow []); by rewrite app_nil_r in Hgrow].
      unfold send_full, bind in E. destruct (flush_moves plan (batch ++ [(jr_line row, cells)]) timeout safe d w2 ltac:(by destruct batch)) as (a & l & _ & Hm).
      destruct (flush plan _ timeout safe d w2) as [[e|[f|]] w3]; [done| |].
      + unfold outcome in E. destruct (outcome_failed _ _ _ _ _) as [[|] o]; [done|]. injection E as <- <- <-. cbn.
        destruct (landed _); destruct Hm as [[Ht3 _] _]; cbn in Ht3; rewrite Ht3, Ht2; apply Hgrow.
      + injection E as <- <- <-. destruct (landed _); destruct Hm as [[Ht3 _] _]; cbn in Ht3; rewrite Ht3, Ht2; apply Hgrow. }
  assert (n - length (rows_read (w_trace w0)) < Datatypes.S n) as Hk by lia.
  destruct (Hl (Datatypes.S n) [] first_width w0 Hk) as ([o w1] & Hx). unfold first_width in Hx. cbv zeta. fold w0. unfold ImportBatch in Hx |- *. rewrite Hx. destruct o as [e|[batch|]]; by eexists.
Qed.
End Loop.

(** ** Before and after the loop *)

Definition answered (r : EngineError + option Z) : bool := match r with inr _ => true | inl _ => false end.
Definition opening (fk : FkChecks) (in_transaction : bool) (l : list (bytes * (EngineError + option Z))) : Prop :=
  exists n m, l = match fk with FkDisable off _ => [(B off, inr n)] | FkEnforce => [] end ++ if in_transaction then [(B "BEGIN", inr m)] else [].
Definition closing_word (commit : bool) : bytes := if commit then B "COMMIT" else B "ROLLBACK".
Definition closing (fk : FkChecks) (in_transaction commit : bool) (a b : EngineError + option Z) : list (bytes * (EngineError + option Z)) :=
  (if in_transaction then [(closing_word commit, a)] else []) ++ match fk with FkDisable _ on => [(B on, b)] | FkEnforce => [] end.
Abbreviation finish := (finish env (S:=S)).
Lemma finish_moves in_transaction commit fk timeout w : exists l a b, w_trace (finish in_transaction commit fk timeout w).2 = w_trace w ++ l
  /\ w_outcome (finish in_transaction commit fk timeout w).2 = w_outcome w
  /\ executed l = closing fk in_transaction commit a b /\ rows_read l = [] /\ reports l = []
  /\ exists r, (finish in_transaction commit fk timeout w).1 = inr r
     /\ (r = inr tt -> (in_transaction = true -> answered a = true) /\ (fk <> FkEnforce -> answered b = true)).
Proof.
  unfold Import.finish, bind, caught, run, run_engine, ask, log, closing, closing_word. unfold bind, ret, fail.
  destruct in_transaction.
  - set (sql := if commit then B "COMMIT" else B "ROLLBACK"). cbn. set (a := an_execute env (w_trace w) sql timeout).
    destruct fk as [|off on].
    + destruct a as [e|n] eqn:Ea; cbn; exists [EvExecute sql a], a, a; rewrite Ea; (split; [done|]); (split; [done|]); (split; [done|]); (split; [done|]); (split; [done|]);
        (eexists; split; [done|]); [by intros [=]|]. intros _. by split.
    + destruct a as [e|n] eqn:Ea; cbn; set (tr := w_trace w ++ _); set (b := an_execute env tr (B on) timeout); exists [EvExecute sql a; EvExecute (B on) b], a, b; rewrite Ea;
        (destruct b as [e2|n2] eqn:Eb; cbn; (split; [by unfold tr; rewrite <- app_assoc|]); (split; [done|]); (split; [done|]); (split; [done|]); (split; [done|]);
        (eexists; split; [done|]); intros Hr; try discriminate Hr; by split).
  - cbn. destruct fk as [|off on]; cbn.
    + exists [], (inr None), (inr None). split; [by rewrite app_nil_r|]. split_and!; try done. eexists. split; [done|]. by intros _.
    + set (b := an_execute env (w_trace w) (B on) timeout). exists [EvExecute (B on) b], (inr None), b.
      destruct b as [e2|n2] eqn:Eb; cbn; (split; [done|]); (split; [done|]); (split; [done|]); (split; [done|]); (split; [done|]); (eexists; split; [done|]); intros Hr; try discriminate Hr; by split.
Qed.

(** A way in that did not reach the loop: nothing sent, the switch refused, [BEGIN] refused and the switch
    put back. *)
Definition refused_opening (fk : FkChecks) (in_transaction : bool) (l : list (bytes * (EngineError + option Z))) : Prop :=
  (exists off on e, fk = FkDisable off on /\ l = [(B off, inl e)])
  \/ in_transaction = true /\ exists ops e b, opening fk false ops /\ l = ops ++ [(B "BEGIN", inl e)] ++ closing fk false false b b.
Abbreviation prologue := (prologue env (S:=S)).
Lemma prologue_moves fk timeout in_transaction w : let '(r, w') := prologue fk timeout in_transaction w in
  exists l, w_trace w' = w_trace w ++ l /\ w_outcome w' = w_outcome w /\ rows_read l = [] /\ reports l = []
  /\ match r with inr _ => opening fk in_transaction (executed l) | inl _ => refused_opening fk in_transaction (executed l) end.
Proof.
  unfold Import.prologue. unfold bind at 1. unfold caught at 1.
  assert (exists l, w_trace (switch_off env fk timeout w).2 = w_trace w ++ l
    /\ w_outcome (switch_off env fk timeout w).2 = w_outcome w
    /\ rows_read l = [] /\ reports l = [] /\ match (switch_off env fk timeout w).1 with
       | inr _ => opening fk false (executed l) | inl _ => exists off on e, fk = FkDisable off on /\ executed l = [(B off, inl e)] end) as Hoff.
  { unfold switch_off. destruct fk as [|off on]; [exists []; cbn; rewrite app_nil_r; split_and!; try done; by exists None, None|].
    unfold bind, run, run_engine, ask. cbn. set (a := an_execute env (w_trace w) (B off) timeout). exists [EvExecute (B off) a]. destruct a as [e|n]; cbn; split_and!; try done.
    - by exists off, on, e.
    - exists n, None. done. }
  destruct Hoff as (l & Ht & Ho & Hrr & Hrp & Hl). destruct (switch_off env fk timeout w) as [[e|u] w1]; cbn [fst snd] in *.
  { destruct Hl as (off & on & e1 & -> & Hl). exists (l ++ [EvClosed]). cbn -[executed rows_read reports]. rewrite Ht, <- app_assoc, rows_read_app, reports_app, executed_app, Hrr, Hrp, Hl.
    split; [done|]. split; [exact Ho|]. split; [done|]. split; [done|]. left. by exists off, on, e1. }
  destruct in_transaction; [|exists l; by split_and!]. unfold bind at 1. unfold caught, bind at 1, run, run_engine, ask. cbn. set (a := an_execute env (w_trace w1) (B "BEGIN") timeout).
  destruct a as [e|n] eqn:Ea; cbn.
  - set (w2 := log _ w1). destruct (finish_moves false false fk timeout w2) as (l2 & x & y & Ht2 & Ho2 & He2 & Hr2 & Hp2 & r & Hr & _).
    unfold bind. destruct (finish false false fk timeout w2) as [fr w3]. cbn [fst snd] in *. subst fr. cbn -[executed rows_read reports]. exists (l ++ [EvExecute (B "BEGIN") (inl e)] ++ l2 ++ [EvClosed]).
    rewrite Ht2. cbn [w2 log w_trace]. rewrite Ht, <- !app_assoc. split; [done|]. split; [by rewrite Ho2; exact Ho|]. rewrite !rows_read_app, !reports_app, Hrr, Hrp, Hr2, Hp2. split; [done|]. split; [done|].
    right. split; [done|]. exists (executed l), e, y. split; [done|]. rewrite !executed_app, He2. cbn. by rewrite app_nil_r.
  - exists (l ++ [EvExecute (B "BEGIN") (inr n)]). rewrite Ht, <- app_assoc, rows_read_app, reports_app, executed_app, Hrr, Hrp. split_and!; try done.
    destruct Hl as (n0 & m0 & ->). exists n0, n. by rewrite <- app_assoc.
Qed.
(** What ends a run after its loop. *)
Record Report_ok (rep : DoneReport) (o : Outcome) : Prop := {
  rp_count : dn_count rep = io_written o; rp_rejected : dn_rejected rep = Some (io_rejected o); rp_errors : dn_errors rep = io_errors o;
  rp_stopped : dn_stopped_at rep = io_stopped_at o; rp_cancelled : dn_cancelled rep = io_cancelled o;
  rp_warned : io_warnings o <> [] -> dn_warnings rep <> [] }.
Definition success_ok (success : Outcome -> M unit) (o : Outcome) : Prop := forall w : World, let '(r, w') := success o w in
  exists l, w_trace w' = w_trace w ++ l /\ executed l = [] /\ rows_read l = []
    /\ match r with inr _ => exists rep, reports l = [rep] /\ Report_ok rep o | inl _ => reports l = [] end.
Inductive concluded (fk : FkChecks) (in_transaction : bool) (o : Outcome) (r r' : RunError + unit) (l : list (bytes * (EngineError + option Z))) (reps : list DoneReport) : Prop :=
| concluded_stuck e a b : r = inl e -> r' = inl e -> l = closing fk in_transaction false a b -> reps = [] -> concluded fk in_transaction o r r' l reps
| concluded_lost e : r = inr tt -> io_connection_lost o = true -> r' = inl e -> l = [] -> reps = [] -> concluded fk in_transaction o r r' l reps
| concluded_failed e a b : r = inr tt -> io_connection_lost o = false -> r' = inl e -> l = closing fk in_transaction (negb (io_rollback o)) a b -> reps = [] ->
    concluded fk in_transaction o r r' l reps
| concluded_done rep a b : r = inr tt -> io_connection_lost o = false -> io_failed o = false -> r' = inr tt -> l = closing fk in_transaction (negb (io_rollback o)) a b ->
    (in_transaction = true -> answered a = true) -> (fk <> FkEnforce -> answered b = true) -> reps = [rep] -> Report_ok rep o ->
    concluded fk in_transaction o r r' l reps.
Lemma conclude_moves fk timeout in_transaction lost failed success r w : success_ok success (w_outcome w) ->
  let '(r', w') := conclude env fk timeout in_transaction lost failed success r w in
  exists l, w_trace w' = w_trace w ++ l /\ rows_read l = [] /\ concluded fk in_transaction (w_outcome w) r r' (executed l) (reports l).
Proof.
  intros Hsu. unfold conclude. destruct r as [e|[]].
  { unfold bind. destruct (finish_moves in_transaction false fk timeout w) as (l & a & b & Ht & Ho & He & Hr & Hp & x & Hx & _). destruct (finish in_transaction false fk timeout w) as [fr w1]. cbn [fst snd] in *. subst fr.
    cbn. exists (l ++ [EvClosed]). rewrite Ht, <- app_assoc, rows_read_app, executed_app, reports_app, Hr, Hp, He. split; [done|]. split; [done|]. eapply concluded_stuck; [done|done|by rewrite app_nil_r|done]. }
  unfold bind at 1. unfold outcome at 1. destruct (io_connection_lost (w_outcome w)) eqn:Ecl.
  { cbn. exists [EvClosed]. split; [done|]. split; [done|]. by eapply concluded_lost. }
  unfold bind at 1. destruct (finish_moves in_transaction (negb (io_rollback (w_outcome w))) fk timeout w) as (l & a & b & Ht & Ho & He & Hr & Hp & x & Hx & Hok).
  destruct (finish in_transaction (negb (io_rollback (w_outcome w))) fk timeout w) as [fr w1]. cbn [fst snd] in *. subst fr. destruct x as [e|[]].
  { cbn. exists (l ++ [EvClosed]). rewrite Ht, <- app_assoc, rows_read_app, executed_app, reports_app, Hr, Hp, He. split; [done|]. split; [done|]. eapply concluded_failed; [done|done|done|by rewrite app_nil_r|done]. }
  destruct (Hok eq_refl) as [Ha Hb]. destruct (io_failed (w_outcome w)) eqn:Ef.
  { cbn. exists (l ++ [EvClosed]). rewrite Ht, <- app_assoc, rows_read_app, executed_app, reports_app, Hr, Hp, He. split; [done|]. split; [done|]. eapply concluded_failed; [done|done|done|by rewrite app_nil_r|done]. }
  unfold bind. pose proof (Hsu w1) as Hsu1. destruct (success (w_outcome w) w1) as [[e|[]] w2]; destruct Hsu1 as (l2 & Ht2 & He2 & Hr2 & Hrep).
  - exists (l ++ l2). rewrite Ht2, Ht, <- app_assoc, rows_read_app, executed_app, reports_app, Hr, Hp, He, Hr2, He2, Hrep. split; [done|]. split; [done|]. eapply concluded_failed; [done|done|done|by rewrite app_nil_r|done].
  - destruct Hrep as (rep & Hrep & Hro). cbn. exists (l ++ l2 ++ [EvClosed]).
    rewrite Ht2, Ht, <- !app_assoc, !rows_read_app, !executed_app, !reports_app, Hr, Hp, He, Hr2, He2, Hrep. split; [done|]. split; [done|]. eapply concluded_done; try done. by rewrite app_nil_r.
Qed.

Lemma out_moves e (w : World) : let '(r, w') := out env e w in exists a, w_trace w' = w_trace w ++ [EvOut e a] /\ w_outcome w' = w_outcome w
  /\ match r with inr _ => a = None | inl _ => a <> None end.
Proof. unfold out, bind, ask. cbn. destruct (an_out env (w_trace w) e) as [m|]; cbn; [by exists (Some m)|by exists None]. Qed.
Lemma quiet_out e a : (forall rep, e <> OeDone rep) -> quiet [EvOut e a].
Proof. intros He. split_and!; try done. cbn. destruct e; try done. by destruct (He report). Qed.
Lemma rows_success_ok su format in_transaction table o : success_ok (rows_success env su format in_transaction table (S:=S)) o.
Proof.
  intros w. unfold rows_success.
  assert (forall w : World, let '(r, w') := last_progress env su o w in exists l, w_trace w' = w_trace w ++ l /\ quiet l) as Hp.
  { clear w. intros w. unfold last_progress. unfold bind at 1. unfold progress at 1. destruct (match pg_last _ with Some _ => _ | None => _ end); [exists []; by rewrite app_nil_r|].
    assert (forall w : World, let '(r, w') := force env (io_written o) w in exists l, w_trace w' = w_trace w ++ l /\ quiet l) as Hf.
    { clear w. intros w. unfold force, bind, peek, on_progress, progress. set (w2 := MkImport _ _ _ _). pose proof (out_moves (progress_event "rows" (io_written o) (w_progress w2)) w2) as Ho.
      destruct (out env _ w2) as [r w']. destruct Ho as (a & Ht & _). exists [EvOut (progress_event "rows" (io_written o) (w_progress w2)) a]. by split; [rewrite Ht|apply quiet_out]. }
    unfold bind. destruct (io_cancelled o); [apply Hf|]. unfold peek, on_progress. set (w2 := MkImport _ _ _ _). apply (Hf w2). }
  unfold bind at 1. specialize (Hp w). destruct (last_progress env su o w) as [[e|u] w1]; destruct Hp as (l & Ht & Hq).
  { exists l. destruct Hq as (E1 & E2 & E3). by split_and!. }
  unfold bind, peek. set (rep := MkDone _ _ _ _ _ _ _ _ _ _ _ _ _ _ _ _). pose proof (out_moves (OeDone rep) w1) as Ho. destruct (out env (OeDone rep) w1) as [r w2]. destruct Ho as (a & Ht2 & _ & Ha).
  destruct Hq as (E1 & E2 & E3). exists (l ++ [EvOut (OeDone rep) a]). cbn [fst snd]. rewrite Ht2, Ht, <- app_assoc, executed_app, rows_read_app, reports_app, E1, E2, E3.
  split; [done|]. split; [done|]. split; [done|]. destruct r as [e|[]].
  - by destruct a.
  - subst a. exists rep. split; [done|]. split; cbn; auto. intros Hw. destruct (io_warnings o); done.
Qed.

Variable connection : Settings -> bytes + DriverKind.
Variable driver_read_only : DriverKind -> bool.
Variable transactions : DriverKind -> bool.
Variable from_str : bytes -> bytes + Json.
(** Opening the session executes nothing. *)
Lemma quiet_all l : Forall (fun e => quiet [e]) l -> quiet l.
Proof. induction 1 as [|e l He _ IH]; [by split_and!|]. by apply (quiet_app [e] l). Qed.
Lemma open_moves s kind (w : World) : let '(r, w') := open_session storage_message driver_read_only env s kind w in
  exists l, w_trace w' = w_trace w ++ l /\ quiet l /\ w_outcome w' = w_outcome w.
Proof.
  unfold open_session. set (f := fun (kind : DriverKind) tr => _). set (g := fun tr => _). set (c := fun tr => _).
  assert (exists l, (Apply.open storage_message driver_read_only f g c s kind (w_trace w)).2 = w_trace w ++ l /\ Forall (fun e => quiet [e]) l) as (l & Hl & Hq).
  { unfold Apply.open. destruct (policy_from_settings s) as [e|p] eqn:Ep; [exists []; split; [by rewrite app_nil_r|constructor]|]. cbn [setting].
    destruct (retry_call_spec (f kind) p (w_trace w) (policy_from_settings_ok _ _ Ep)) as (r & w1 & w2 & es & -> & Hf & Hc & _).
    assert (forall es tr tr', failing (f kind) tr es tr' -> exists l, tr' = tr ++ l /\ Forall (fun e => quiet [e]) l) as Hfail.
    { clear. intros es. induction es as [|e es IH]; intros tr tr' Hf; cbn in Hf; [subst; exists []; split; [by rewrite app_nil_r|constructor]|].
      destruct Hf as (tr2 & Hc & Hf). unfold f in Hc. injection Hc as Hc <-. destruct (IH _ _ Hf) as (l & -> & Hq). exists ([EvConnect (an_connect env tr kind)] ++ l).
      rewrite app_assoc. split; [done|]. constructor; [by split_and!|done]. }
    destruct (Hfail _ _ _ Hf) as (l & -> & Hq). unfold f in Hc. injection Hc as Hc <-. set (a := an_connect env (w_trace w ++ l) kind) in *.
    assert (Forall (fun e => quiet [e]) (l ++ [EvConnect a])) as Hq1 by (apply Forall_app; split; [done|]; constructor; [by split_and!|done]).
    destruct r as [e|[]]; [exists (l ++ [EvConnect a]); by rewrite app_assoc|]. destruct (of_cli _ _) as [e|mode]; [exists (l ++ [EvConnect a]); by rewrite app_assoc|].
    destruct mode; try (exists (l ++ [EvConnect a]); by rewrite app_assoc). unfold g. set (b := an_read_only env _). destruct b as [e|] eqn:Eb; cbn.
    - exists (l ++ [EvConnect a; EvReadOnly (Some e); EvClosed]). split; [unfold c; by rewrite <- !app_assoc|]. apply Forall_app. split; [done|]. repeat (constructor; [by split_and!|]). constructor.
    - exists (l ++ [EvConnect a; EvReadOnly None]). split; [by rewrite <- !app_assoc|]. apply Forall_app. split; [done|]. repeat (constructor; [by split_and!|]). constructor. }
  destruct (Apply.open _ _ f g c s kind (w_trace w)) as [r tr]. cbn in Hl. exists l. split; [done|]. split; [by apply quiet_all|done].
Qed.

(** ** A run *)

Section Run.
Variables (s : Settings) (su : RowsSetup) (format : RowFormat).
Definition in_tx : bool := transactions (rs_kind su) && negb (is_skip (rs_mode su)).
(** A run of the rows: it ended before the loop, or was given up in it, or came to its end. *)
Inductive Shape (more : list ImportEvent) (r : RunError + unit) : Prop :=
| shape_refused e : r = inl e -> (executed more = [] \/ refused_opening (rs_fk su) in_tx (executed more)) -> reports more = [] -> rows_read more = [] -> Shape more r
| shape_setting e : r = inl e -> setting (number s (B "PROGRESS_MS") PROGRESS_MS_DEFAULT) = inl e -> opening (rs_fk su) in_tx (executed more) -> reports more = [] ->
    rows_read more = [] -> Shape more r
| shape_ran columns plan ops l1 l2 l3 r1 o :
    plan_rows from_str s (rr_header (rs_reader su)) columns (style_of (rs_kind su)) (rs_table_sql su) (rs_table_reference su) (rs_null_text su)
      (bool_decide (format = JsonFormat)) (rs_rules su) = inr plan ->
    more = l1 ++ l2 ++ l3 -> opening (rs_fk su) in_tx ops -> executed l1 = ops -> rows_read l1 = [] -> reports l1 = [] -> rows_read l3 = [] ->
    match r1 with inl _ => stuck plan (rs_reader su) (rs_mode su) l2 | inr _ => ended plan (rs_reader su) (rs_mode su) in_tx l2 o end ->
    concluded (rs_fk su) in_tx o r1 r (executed l3) (reports l3) -> Shape more r.
Abbreviation rows_live := (rows_live now_millis storage_message driver_read_only transactions from_str env).
Lemma rows_live_shape fuel (w : World) r w' : rows_live fuel s su format w = Some (r, w') -> exists more, w_trace w' = w_trace w ++ more /\ Shape more r.
Proof.
  unfold Import.rows_live. fold in_tx. set (columns_of := bind (ask _ _) _). set (before := bind _ _).
  assert (forall w : World, let '(r, w') := before w in exists more, w_trace w' = w_trace w ++ more /\ rows_read more = [] /\ reports more = []
    /\ match r with
       | inr plan => opening (rs_fk su) in_tx (executed more) /\ exists columns,
           plan_rows from_str s (rr_header (rs_reader su)) columns (style_of (rs_kind su)) (rs_table_sql su) (rs_table_reference su) (rs_null_text su)
             (bool_decide (format = JsonFormat)) (rs_rules su) = inr plan
       | inl e => executed more = [] \/ refused_opening (rs_fk su) in_tx (executed more)
                  \/ setting (number s (B "PROGRESS_MS") PROGRESS_MS_DEFAULT) = inl e /\ opening (rs_fk su) in_tx (executed more)
       end) as Hbefore.
  { clear w r w'. intros w. unfold before. unfold bind at 1. pose proof (out_moves (OeStep "connect") w) as Hm. destruct (out env (OeStep "connect") w) as [[e|[]] w1]; destruct Hm as (a1 & Ht1 & _).
    { exists [EvOut (OeStep "connect") a1]. by split_and!; [| | |left]. }
    unfold bind at 1. pose proof (open_moves s (rs_kind su) w1) as Hm. destruct (open_session _ _ _ _ _ w1) as [[e|[]] w2]; destruct Hm as (l2 & Ht2 & (E2 & R2 & P2) & _).
    { exists (EvOut (OeStep "connect") a1 :: l2). rewrite Ht2, Ht1, <- app_assoc. split; [done|]. split; [exact R2|]. split; [exact P2|]. left. exact E2. }
    unfold bind at 1. unfold columns_of, bind at 1, ask. set (sql := B "SELECT * FROM " ++ rs_table_sql su ++ B " LIMIT 0"). set (a3 := an_columns env (w_trace w2) sql (rs_timeout su)).
    set (l3 := (EvOut (OeStep "connect") a1 :: l2) ++ [EvColumns sql a3]). set (w3 := log _ w2). assert (w_trace w3 = w_trace w ++ l3) as Ht3 by (unfold w3, l3; cbn; rewrite Ht2, Ht1, <- !app_assoc; done).
    assert (quiet l3) as Hq3 by (unfold l3; apply (quiet_app (_ :: l2)); [by apply (quiet_app [_] l2); [apply quiet_out|split_and!]|by split_and!]).
    clearbody w3 l3. destruct a3 as [e|columns].
    { exists l3. destruct Hq3 as (? & ? & ?). cbn. split_and!; auto. }
    cbn [ret]. unfold bind at 1. destruct (plan_rows _ _ _ columns _ _ _ _ _ _) as [e|plan] eqn:Ep.
    { exists l3. destruct Hq3 as (? & ? & ?). cbn. split_and!; auto. }
    cbn [or_raise ret]. destruct (missing_targets plan columns) as [missing|].
    { exists (l3 ++ [EvClosed]). cbn. rewrite Ht3, <- app_assoc. split; [done|]. destruct (quiet_app l3 [EvClosed] Hq3 ltac:(by split_and!)) as (? & ? & ?). split_and!; auto. }
    destruct (match columns with [] => _ | _ => _ end).
    { exists (l3 ++ [EvClosed]). cbn. rewrite Ht3, <- app_assoc. split; [done|]. destruct (quiet_app l3 [EvClosed] Hq3 ltac:(by split_and!)) as (? & ? & ?). split_and!; auto. }
    unfold bind at 1. pose proof (out_moves (OeStep "write") w3) as Hm. destruct (out env (OeStep "write") w3) as [[e|[]] w4]; destruct Hm as (a4 & Ht4 & _);
      (assert (quiet (l3 ++ [EvOut (OeStep "write") a4])) as Hq4 by (apply quiet_app; [done|by apply quiet_out])); (assert (w_trace w4 = w_trace w ++ (l3 ++ [EvOut (OeStep "write") a4])) as Ht4' by (by rewrite Ht4, Ht3, <- app_assoc));
      clear Ht4; set (l4 := l3 ++ _) in *; clearbody l4; destruct Hq4 as (E4 & R4 & P4).
    { exists l4. split_and!; auto. }
    unfold bind at 1. pose proof (prologue_moves (rs_fk su) (rs_timeout su) in_tx w4) as Hm. destruct (prologue (rs_fk su) (rs_timeout su) in_tx w4) as [[e|[]] w5]; destruct Hm as (l5 & Ht5 & _ & R5 & P5 & E5);
      (assert (w_trace w5 = w_trace w ++ (l4 ++ l5)) as Ht5' by (by rewrite Ht5, Ht4', <- app_assoc)); (assert (executed (l4 ++ l5) = executed l5) as E45 by (by rewrite executed_app, E4)).
    { exists (l4 ++ l5). rewrite rows_read_app, reports_app, R4, P4, R5, P5, E45. split_and!; auto. }
    unfold bind at 1. unfold start_progress, bind at 1. destruct (setting (number s (B "PROGRESS_MS") PROGRESS_MS_DEFAULT)) as [e|floor] eqn:Epm.
    { exists (l4 ++ l5). cbn. rewrite rows_read_app, reports_app, R4, P4, R5, P5, E45. split_and!; auto. }
    cbn. exists (l4 ++ l5). rewrite rows_read_app, reports_app, R4, P4, R5, P5, E45. split_and!; eauto. }
  specialize (Hbefore w). destruct (before w) as [[e|plan] w1]; destruct Hbefore as (l1 & Ht1 & R1 & P1 & Hb).
  { intros [= <- <-]. exists l1. split; [done|]. destruct Hb as [Hb|[Hb|[Hs Hb]]]; [eapply shape_refused; eauto..|by eapply shape_setting]. }
  destruct Hb as [Hop (columns & Hp)]. destruct (import_rows _ _ _ _ _ _ _ _ _ _ _ fuel w1) as [[r1 w2]|] eqn:Ei; [|done].
  apply rows_ran in Ei as (l2 & Ht2 & Hl2). intros Hr. injection Hr as Hr.
  pose proof (conclude_moves (rs_fk su) (rs_timeout su) in_tx (fun o => connection_lost_message o in_tx (B "rows") (pl_table_reference plan)) (fun o => rows_failed o in_tx (pl_table_reference plan))
    (rows_success env su format in_tx (pl_table_reference plan)) r1 w2 (rows_success_ok su format in_tx (pl_table_reference plan) (w_outcome w2))) as Hc.
  rewrite Hr in Hc. destruct Hc as (l3 & Ht3 & R3 & Hc). exists (l1 ++ l2 ++ l3). split; [by rewrite Ht3, Ht2, Ht1, <- !app_assoc|].
  eapply (shape_ran _ _ columns plan (executed l1) l1 l2 l3 r1 (w_outcome w2)); eauto.
Qed.
End Run.
End Spec.
