(* ===== verification/ImportServerSpec.v ===== *)
(** * ImportServerSpec: what an import leaves in the table, whatever the server answers.

    A server is known by what each statement does to a table others see and to a session that may have a
    transaction open ([server_step]). The ledger of [ImportSpec] and the server's steps together say what
    [stop], [commit] and [skip] keep ([import_keeps_what_its_mode_says]) and that the foreign-key checks
    are put back ([foreign_key_checks_are_put_back]). *)
From stdpp Require Import gmap.
From S2P Require Import Prelude Bytes Text Scan Classify Env ExecLog Guard Ident Value Json Batch Names Retry TransferPlan TransferRun.
From S2P Require Import ValueSpec Types TypesSpec TransferSetup TableSwap Apply ImportDates ImportPlan Import ImportSpec.
#[local] Open Scope nat_scope.
#[local] Arguments B : simpl never.

Section Server.
Context `{FloatParts}.
(** What the table holds, and what a statement answered with a count makes of it. *)
Variable V : Type.
Variable effect : bytes -> option Z -> V -> V -> Prop.
Variable kind : DriverKind.
Abbreviation Answer := (EngineError + option Z)%type.

(** ** The server *)

(** A session outside a transaction; inside one, with what it sees; in one the server will only roll
    back; or with its connection lost. *)
Inductive Session := Idle | Inside (w : V) | Aborted | Unknown.
Definition control : list bytes :=
  [B "BEGIN"; B "COMMIT"; B "ROLLBACK"] ++ match foreign_key_switch kind with Some (off, on) => [B off; B on] | None => [] end.
Definition is_control (sql : bytes) : bool := existsb (bytes_eqb sql) control.
Definition is_switch (sql : bytes) : Prop := exists off on, foreign_key_switch kind = Some (off, on) /\ (sql = B off \/ sql = B on).
(** The code of an error the server answered with; another error says nothing of the statement. *)
Definition code_of (e : EngineError) : option bytes := match e with EQuery _ code _ _ => code | _ => None end.
Definition is_timeout (e : EngineError) : Prop := match e with ETimeout _ _ => True | _ => False end.
(** What a failed statement does to the transaction it ran in, by the documentation of the servers: PostgreSQL
    aborts it on every error it answers with, or when the statement is cancelled at its time limit; MySQL rolls back
    the whole transaction on a deadlock (1213), the statement or, by a setting, the transaction on a lock wait timeout
    (1205), and the statement alone on any other error; Trino aborts it. A statement whose answer did not come may
    have run in the transaction, and the connection may break whatever the error. *)
Inductive outcome_of (sql : bytes) (e : EngineError) (w : V) : Session -> Prop :=
| outcome_broken : outcome_of sql e w Unknown
| outcome_unheard w' : code_of e = None -> w' = w \/ (exists n, effect sql n w w') -> outcome_of sql e w (Inside w')
| outcome_postgres : kind = DPostgres -> is_Some (code_of e) \/ is_timeout e -> outcome_of sql e w Aborted
| outcome_deadlock : kind = DMysql -> code_of e = Some (B "1213") -> outcome_of sql e w Idle
| outcome_lock_wait s : kind = DMysql -> code_of e = Some (B "1205") -> s = Inside w \/ s = Idle -> outcome_of sql e w s
| outcome_statement code : kind = DMysql -> code_of e = Some code -> code <> B "1213" -> code <> B "1205" -> outcome_of sql e w (Inside w)
| outcome_trino : kind = DTrino -> is_Some (code_of e) -> outcome_of sql e w Aborted.
(** A statement the server answers with an error has changed nothing; one whose answer is lost may have. *)
Inductive server_step : V * Session -> bytes * Answer -> V * Session -> Prop :=
| step_begin v n : server_step (v, Idle) (B "BEGIN", inr n) (v, Inside v)
| step_commit v w n : server_step (v, Inside w) (B "COMMIT", inr n) (w, Idle)
| step_commit_nothing v s n : s = Idle \/ s = Aborted -> server_step (v, s) (B "COMMIT", inr n) (v, Idle)
| step_rollback v s n : s <> Unknown -> server_step (v, s) (B "ROLLBACK", inr n) (v, Idle)
| step_switch v s sql a : is_switch sql -> server_step (v, s) (sql, a) (v, s)
| step_control_failed v s sql e s' : is_control sql = true -> s' = s \/ s' = Idle \/ s' = Unknown -> server_step (v, s) (sql, inl e) (v, s')
| step_commit_unheard v w e s' : code_of e = None -> s' = Idle \/ s' = Unknown -> server_step (v, Inside w) (B "COMMIT", inl e) (w, s')
| step_outside v v' sql n : is_control sql = false -> effect sql n v v' -> server_step (v, Idle) (sql, inr n) (v', Idle)
| step_inside v w w' sql n : is_control sql = false -> effect sql n w w' -> server_step (v, Inside w) (sql, inr n) (v, Inside w')
| step_refused v sql e s' : is_control sql = false -> s' = Idle \/ s' = Unknown -> server_step (v, Idle) (sql, inl e) (v, s')
| step_unheard v sql e v' s' n : is_control sql = false -> code_of e = None -> effect sql n v v' -> s' = Idle \/ s' = Unknown ->
    server_step (v, Idle) (sql, inl e) (v', s')
| step_failed_inside v w sql e s' : is_control sql = false -> outcome_of sql e w s' -> server_step (v, Inside w) (sql, inl e) (v, s')
| step_dead v s sql e : s = Aborted \/ s = Unknown -> server_step (v, s) (sql, inl e) (v, s).
Fixpoint served (x : V * Session) (l : list (bytes * Answer)) (y : V * Session) : Prop :=
  match l with
  | [] => x = y
  | a :: l => exists x', server_step x a x' /\ served x' l y
  end.
Lemma served_app l1 : forall x l2 y, served x (l1 ++ l2) y <-> exists z, served x l1 z /\ served z l2 y.
Proof.
  induction l1 as [|a l1 IH]; intros x l2 y; cbn; [naive_solver|]. setoid_rewrite IH. naive_solver.
Qed.

(** ** What a ledger makes of a table *)

Definition entry_effect (plan : Plan) (x : Entry) (v v' : V) : Prop :=
  let sql := insert_statement plan (snd <$> x.1) in
  match x.2 with
  | None => v' = v
  | Some (inr n) => effect sql n v v'
  | Some (inl e) => v' = v \/ code_of e = None /\ exists n, effect sql n v v'
  end.
Fixpoint built (plan : Plan) (ledger : list Entry) (v v' : V) : Prop :=
  match ledger with
  | [] => v' = v
  | x :: ledger => exists v1, entry_effect plan x v v1 /\ built plan ledger v1 v'
  end.
Lemma built_snoc plan l x : forall v v1 v', built plan l v v1 -> entry_effect plan x v1 v' -> built plan (l ++ [x]) v v'.
Proof. induction l as [|y l IH]; intros v v1 v'; cbn; [intros <- Hx; by exists v'|]. intros (v2 & Hy & Hl) Hx. exists v2. eauto. Qed.
(** What is kept of the rows read, by mode. *)
Definition promised (mode : Mode) (ledger : list Entry) (rejected : nat) : Prop :=
  match mode with
  | Stop_ => clean ledger /\ rejected = 0
  | CommitPrefix => rejected <= 1 /\ (clean ledger \/ exists l x, ledger = l ++ [x] /\ clean l /\ landed x = false)
  | Skip_ => True
  end.

(** ** The statements of an import, served *)

Lemma insert_is_data plan rows : is_control (insert_statement plan rows) = false.
Proof. unfold is_control, control, insert_statement. by destruct kind. Qed.
Lemma control_words : is_control (B "BEGIN") = true /\ is_control (B "COMMIT") = true /\ is_control (B "ROLLBACK") = true.
Proof. unfold is_control, control. by destruct kind. Qed.
Lemma switch_words sql : is_switch sql -> sql <> B "BEGIN" /\ sql <> B "COMMIT" /\ sql <> B "ROLLBACK" /\ is_control sql = true.
Proof. unfold is_control, control, is_switch. intros (off & on & Hk & [-> | ->]); destruct kind; try discriminate Hk; injection Hk as <- <-; (split; [discriminate|]); (split; [discriminate|]); (split; [discriminate|]); reflexivity. Qed.
Lemma insert_step plan rows x a y : server_step x (insert_statement plan rows, a) y ->
  (exists n v', a = inr n /\ x.2 = Idle /\ effect (insert_statement plan rows) n x.1 v' /\ y = (v', Idle))
  \/ (exists n w w', a = inr n /\ x.2 = Inside w /\ effect (insert_statement plan rows) n w w' /\ y = (x.1, Inside w'))
  \/ (exists e, a = inl e /\ (x.2 = Idle -> y.2 = Idle \/ y.2 = Unknown) /\ (x.2 = Unknown -> y.2 = Unknown)
      /\ (y.1 = x.1 \/ x.2 = Idle /\ code_of e = None /\ exists n, effect (insert_statement plan rows) n x.1 y.1)
      /\ forall w, x.2 = Inside w -> outcome_of (insert_statement plan rows) e w y.2).
Proof.
  pose proof (insert_is_data plan rows) as Hd. intros Hs. inversion Hs; subst; cbn [fst snd].
  all: try (match goal with H : B _ = insert_statement _ _ |- _ => rewrite <- H in Hd; by destruct control_words as (? & ? & ?); congruence end).
  all: try (match goal with H : is_switch _ |- _ => pose proof (switch_words _ H) as (_ & _ & _ & ?); congruence end).
  all: try congruence.
  - left. by exists n, v'.
  - right; left. by exists n, w, w'.
  - right; right. exists e. split_and!; auto; congruence.
  - right; right. exists e. split_and!; eauto 6; congruence.
  - right; right. exists e. split_and!; auto; try congruence; by intros w0 [= <-].
  - right; right. exists e. match goal with Hv : _ \/ _ |- _ => destruct Hv as [-> | ->] end; split_and!; auto; congruence.
Qed.

(** A ledger, served inside a transaction and outside one. *)
Lemma outcome_known sql e w s : kind <> DTrino -> outcome_of sql e w s ->
  s = Unknown \/ (exists w', s = Inside w' /\ (w' = w \/ code_of e = None /\ exists n, effect sql n w w')) \/ txn_after kind e <> TxnAlive /\ (s = Idle \/ s = Aborted).
Proof.
  assert (Hcode : forall code, code_of e = Some code -> exists m p k, e = EQuery m (Some code) p k) by (destruct e; try done; cbn; intros code' ->; by do 3 eexists).
  intros Htrino [|w' He Hw|Hk He|Hk He|s' Hk He Hs|code Hk He _ _|Hk _].
  - by left.
  - right; left. exists w'. split; [done|]. destruct Hw; auto.
  - right; right. split; [|by right]. rewrite Hk. destruct He as [[code (m & p & k & ->)%Hcode]|He]; [done|]. by destruct e.
  - right; right. split; [|by left]. apply Hcode in He as (m & p & k & ->). by rewrite Hk.
  - apply Hcode in He as (m & p & k & ->). destruct Hs as [-> | ->]; [right; left; exists w; auto|]. right; right. split; [|by left]. by rewrite Hk.
  - right; left. exists w. auto.
  - done.
Qed.
Lemma entry_served plan x v w y : kind <> DTrino -> served (v, Inside w) (sent plan [x]) y -> y.1 = v
  /\ ((exists w', y.2 = Inside w' /\ entry_effect plan x w w')
      \/ exists e, x.2 = Some (inl e) /\ (y.2 = Unknown \/ txn_after kind e <> TxnAlive /\ (y.2 = Idle \/ y.2 = Aborted))).
Proof.
  intros Htrino. destruct x as [b [a|]]; cbn; [|intros <-; split; [done|]; left; by exists w]. intros (z & Hs & <-). unfold entry_effect. cbn [fst snd].
  destruct (insert_step _ _ _ _ _ Hs) as [(n & v' & -> & [=] & _)|[(n & w1 & w' & -> & [= ->] & He & ->)|(e & -> & _ & _ & Hv & Hw)]]; cbn [fst snd] in *.
  - split; [done|]. left. by exists w'.
  - split; [destruct Hv as [->|[[=] _]]; done|]. destruct (outcome_known _ _ _ _ Htrino (Hw w eq_refl)) as [Hu|[(w' & -> & He)|Hg]].
    + right. exists e. auto.
    + left. by exists w'.
    + right. exists e. auto.
Qed.
Lemma sent_cons plan x l : sent plan (x :: l) = sent plan [x] ++ sent plan l.
Proof. unfold sent. by rewrite <- (omap_app _ [x] l). Qed.
Lemma inside_ledger plan l : kind <> DTrino -> clean l -> forall v w y, served (v, Inside w) (sent plan l) y -> exists w', y = (v, Inside w') /\ built plan l w w'.
Proof.
  intros Htrino. induction 1 as [|x l Hx Hl IH]; intros v w y; [intros <-; by exists w|]. rewrite sent_cons. intros ([v1 s1] & Hs & Hr)%served_app.
  destruct (entry_served _ _ _ _ _ Htrino Hs) as [Hv Hcases]. cbn in Hv, Hcases. subst v1. unfold landed in *.
  destruct Hcases as [(w1 & -> & He)|(e & Ha & _)]; [|rewrite Ha in Hx; discriminate Hx].
  destruct (IH _ _ _ Hr) as (w' & -> & Hb). exists w'. split; [done|]. by exists w1.
Qed.
Lemma outside_ledger plan l : forall v s y, s = Idle \/ s = Unknown -> served (v, s) (sent plan l) y -> built plan l v y.1 /\ (y.2 = Idle \/ y.2 = Unknown).
Proof.
  induction l as [|x l IH]; intros v s y Hi; [by intros <-|]. rewrite sent_cons. intros ([v1 s1] & Hs & Hr)%served_app.
  assert (entry_effect plan x v v1 /\ (s1 = Idle \/ s1 = Unknown)) as [He Hi1].
  { unfold entry_effect. destruct x as [b [a|]]; cbn in Hs |- *; [|by injection Hs as <- <-].
    destruct Hs as (z & Hs & ->). destruct (insert_step _ _ _ _ _ Hs) as [(n & v' & -> & _ & Hf & [= <- <-])|[(n & w1 & w' & -> & Hw & _)|(e & -> & Hi1 & Hi2 & Hv & _)]]; cbn [fst snd] in *.
    - by split; [|left].
    - destruct Hi; congruence.
    - split; [destruct Hv as [->|(_ & Hl & Hn)]; auto|]. destruct Hi; auto. }
  destruct (IH _ _ _ Hi1 Hr) as [Hb Hy]. split; [|done]. by exists v1.
Qed.

(** The control statements, served. *)
Lemma switch_step x sql a y : is_switch sql -> server_step x (sql, a) y -> y.1 = x.1 /\ (answered a = true -> y = x).
Proof.
  intros Hw Hs. pose proof (switch_words _ Hw) as (? & ? & ? & ?). inversion Hs; subst; cbn; by try congruence.
Qed.
Ltac word_step Hs :=
  inversion Hs; subst; cbn [fst snd];
  try match goal with Hd : is_control (B _) = false |- _ => by destruct control_words as (? & ? & ?); congruence end;
  try match goal with Hw : is_switch (B _) |- _ => by destruct (switch_words _ Hw) as (? & ? & ? & ?) end;
  try match goal with Hb : B _ = B _ |- _ => by vm_compute in Hb; discriminate Hb end.
Lemma begin_step v a y : server_step (v, Idle) (B "BEGIN", a) y -> y.1 = v /\ (answered a = true -> y = (v, Inside v)).
Proof. intros Hs. word_step Hs; by split. Qed.
Lemma commit_step v s a y : server_step (v, s) (B "COMMIT", a) y ->
  (y.1 = v \/ s = Inside y.1) /\ (answered a = true -> s <> Unknown /\ forall w, s = Inside w -> y.1 = w).
Proof.
  intros Hs. word_step Hs; split; auto; try discriminate; try (intros _; split; [done|]; intros w0 [= <-]; done).
  - intros _. match goal with Hi : _ \/ _ |- _ => destruct Hi as [-> | ->] end; done.
Qed.
Lemma rollback_step v s a y : server_step (v, s) (B "ROLLBACK", a) y -> y.1 = v /\ (answered a = true -> s <> Unknown).
Proof. intros Hs. by word_step Hs. Qed.

Variable s : Settings.
Variable fk : FkChecks.
Hypothesis fk_known : fk_checks s kind = inr fk.
Lemma fk_switch off on : fk = FkDisable off on -> is_switch (B off) /\ is_switch (B on).
Proof.
  intros Hf. pose proof fk_known as Hk. rewrite Hf in Hk. revert Hk. unfold fk_checks. destruct (flag _ _ _); [done|]. unfold is_switch. destruct (foreign_key_switch kind) as [[off' on']|]; [|done].
  intros [= -> ->]. split; exists off, on; auto.
Qed.
Lemma opening_served in_transaction ops v y : opening fk in_transaction ops -> served (v, Idle) ops y -> y = (v, if in_transaction then Inside v else Idle).
Proof.
  intros (n & m & ->) (z & Hoff & Hbegin)%served_app.
  assert (z = (v, Idle)) as ->.
  { pose proof fk_switch as Hsw. destruct fk as [|off on]; cbn in Hoff; [done|]. destruct Hoff as (x & Hs & <-). by apply (switch_step _ _ _ _ (proj1 (Hsw _ _ eq_refl)) Hs). }
  destruct in_transaction; cbn in Hbegin; [|done]. destruct Hbegin as (x & Hs & <-). by apply (begin_step _ _ _ Hs).
Qed.
Lemma closing_served in_transaction commit a b v s0 y : served (v, s0) (closing fk in_transaction commit a b) y ->
  (y.1 = v \/ in_transaction && commit = true /\ s0 = Inside y.1)
  /\ (in_transaction = true -> answered a = true -> s0 <> Unknown /\ (commit = true -> forall w, s0 = Inside w -> y.1 = w)).
Proof.
  unfold closing. intros (z & Hend & Hon)%served_app.
  assert (y.1 = z.1) as ->.
  { pose proof fk_switch as Hsw. destruct fk as [|off on]; cbn in Hon; [by subst|]. destruct Hon as (x & Hs & <-). by apply (switch_step _ _ _ _ (proj2 (Hsw _ _ eq_refl)) Hs). }
  destruct in_transaction; cbn in Hend; [|subst z; split; [by left|done]]. destruct Hend as (x & Hs & <-). unfold closing_word in Hs. destruct commit; cbn.
  - destruct (commit_step _ _ _ _ Hs) as [Hv Hw]. split; [destruct Hv; auto|]. intros _ Ha. by destruct (Hw Ha).
  - apply rollback_step in Hs as [Hv Hu]. split; [by left|]. intros _ Ha. by split; [apply Hu|].
Qed.
Lemma refused_served in_transaction l v y : refused_opening fk in_transaction l -> served (v, Idle) l y -> y.1 = v.
Proof.
  intros [(off & on & e & Hf & ->)|(_ & ops & e & b & Hop & ->)].
  - intros (z & Hs & <-). by apply (switch_step _ _ _ _ (proj1 (fk_switch _ _ Hf)) Hs).
  - intros (z & Ho & (z1 & Hb & Hc)%served_app)%served_app. rewrite (opening_served false ops v z Hop Ho) in Hb. destruct Hb as (z2 & Hb & <-).
    apply begin_step in Hb as [Hv _]. destruct z2 as [v1 s1]. cbn in Hv. subst v1. by destruct (closing_served _ _ _ _ _ _ _ Hc) as [[->|[[=] _]] _].
Qed.

(** ** The end of the loop *)

Variable transactions : DriverKind -> bool.
Variable from_str : bytes -> bytes + Json.
Variable su : RowsSetup.
Variable format : RowFormat.
Hypothesis kind_known : rs_kind su = kind.
Hypothesis checks_known : rs_fk su = fk.
Hypothesis trino_has_none : transactions DTrino = false.
Lemma planned_kind header columns table_sql reference null json rules plan :
  plan_rows from_str s header columns (style_of kind) table_sql reference null json rules = inr plan -> ss_kind (pl_style plan) = kind.
Proof. unfold plan_rows. destruct (match columns_setting s with Some _ => _ | None => _ end) as [e|[|f l]]; [done..|]. intros [= <-]. by destruct kind. Qed.
Lemma ended_promise plan mode in_transaction ledger rejected o : Ended plan mode in_transaction ledger rejected o -> io_connection_lost o = false ->
  io_failed o = false \/ in_transaction = true /\ io_rollback o = false -> promised mode ledger rejected.
Proof.
  unfold promised. intros [Hg Hc _|l x _ _ _ Hl|line after o0 Hm Hg -> Hcases] Hlost Hok; [|congruence|].
  - destruct mode; [by apply Hc| |done]. destruct (Hc eq_refl) as [? ->]. split; [lia|by left].
  - destruct mode; [|destruct Hcases as [(Hc & _ & ->)|(l & x & -> & Hc & Hx & _ & _ & Hr)]; (split; [lia|]); [by left|right; by exists l, x]|done].
    cbn in Hok. rewrite andb_true_r in Hok. by destruct Hok as [|[-> ?]].
Qed.
(** Inside a transaction: what the session sees when the loop has ended. *)
Lemma ended_inside plan mode ledger rejected o v y : Ended plan mode true ledger rejected o -> is_skip mode = false -> ss_kind (pl_style plan) = kind -> kind <> DTrino ->
  served (v, Inside v) (sent plan ledger) y -> y.1 = v /\
  (io_connection_lost o = true \/ io_rollback o = true \/ (exists w, y.2 = Inside w /\ built plan ledger v w)
   \/ y.2 = Unknown \/ (forall w, y.2 <> Inside w) /\ io_warnings o <> []).
Proof.
  intros He Hm Hk Htrino Hs. destruct He as [Hg Hc _|l x -> Hlost Hc Hl|line after o0 _ Hg -> Hcases].
  - destruct (inside_ledger _ _ Htrino (proj1 (Hc Hm)) _ _ _ Hs) as (w & -> & Hb). split; [done|]. right; right; left. by exists w.
  - unfold sent in Hs. rewrite omap_app in Hs. apply served_app in Hs as (z & Hl1 & Hx). destruct (inside_ledger _ _ Htrino (Hc Hm) _ _ _ Hl1) as (w & -> & Hb).
    destruct (entry_served _ _ _ _ _ Htrino Hx) as [-> _]. split; [done|]. by left.
  - destruct Hcases as [(Hc & _ & _)|(l & x & -> & Hc & Hx & Hlost & -> & _)].
    { destruct (inside_ledger _ _ Htrino Hc _ _ _ Hs) as (w & -> & Hb). split; [done|]. right; right; left. by exists w. }
    unfold sent in Hs. rewrite omap_app in Hs. apply served_app in Hs as (z & Hl1 & Hxs). destruct (inside_ledger _ _ Htrino Hc _ _ _ Hl1) as (w & -> & Hb).
    destruct (entry_served _ _ _ _ _ Htrino Hxs) as [-> [(w' & -> & He)|(e & Ha & [Hu|[Hne Hi]])]]; (split; [done|]); right.
    + right; left. exists w'. split; [done|]. by eapply built_snoc.
    + right; right. by left.
    + assert (after_of plan x = txn_after kind e) as Hafter by (unfold after_of; by rewrite Ha, Hk). cbn. rewrite Hafter.
      destruct mode; [by left|destruct (txn_after kind e); [done|by left|]|done]. right; right; right. split; [destruct Hi as [-> | ->]; discriminate|]. cbn. by destruct (io_warnings o0).
Qed.
Lemma opening_control in_transaction ops : opening fk in_transaction ops -> Forall (fun x => is_control x.1 = true) ops.
Proof.
  intros (n & m & ->). destruct control_words as (Hb & _ & _). apply Forall_app. split.
  - pose proof fk_switch as Hsw. destruct fk as [|off on]; [done|]. constructor; [|done]. by apply switch_words, (Hsw off on).
  - destruct in_transaction; [|done]. by constructor.
Qed.
Lemma closing_control in_transaction commit a b : Forall (fun x => is_control x.1 = true) (closing fk in_transaction commit a b).
Proof.
  destruct control_words as (_ & Hc & Hr). apply Forall_app. split.
  - destruct in_transaction; [|done]. constructor; [|done]. by destruct commit.
  - pose proof fk_switch as Hsw. destruct fk as [|off on]; [done|]. constructor; [|done]. by apply switch_words, (Hsw off on).
Qed.

(** ** What an import keeps *)

Abbreviation in_tx := (in_tx transactions su).
(** A run that ended with [r], [more] its events: the table went from [v0] to [v1]. *)
Inductive Kept (more : list ImportEvent) (r : RunError + unit) (v0 v1 : V) : Prop :=
| kept_untouched e : r = inl e -> rows_read more = [] -> reports more = [] -> Forall (fun x => is_control x.1 = true) (executed more) -> v1 = v0 -> Kept more r v0 v1
| kept_ran columns plan ledger left_ rejected width before after :
    plan_rows from_str s (rr_header (rs_reader su)) columns (style_of kind) (rs_table_sql su) (rs_table_reference su) (rs_null_text su)
      (bool_decide (format = JsonFormat)) (rs_rules su) = inr plan ->
    judged plan (rs_reader su) (first_width (rs_reader su)) (rows_read more) = (batches ledger ++ left_, rejected, width) ->
    executed more = before ++ sent plan ledger ++ after -> Forall (fun x => is_control x.1 = true) (before ++ after) ->
    (if in_tx then v1 = v0 \/ left_ = [] /\ promised (rs_mode su) ledger rejected /\ built plan ledger v0 v1 else built plan ledger v0 v1) ->
    match r with
    | inl _ => reports more = []
    | inr _ =>
        left_ = [] /\ promised (rs_mode su) ledger rejected
        /\ exists rep, reports more = [rep] /\ dn_count rep = written ledger /\ dn_rejected rep = Some (Z.of_nat rejected)
           /\ length (dn_errors rep) = (rejected + failures ledger) `min` MAX_ERRORS
           /\ (built plan ledger v0 v1 \/ v1 = v0 /\ dn_warnings rep <> [])
    end -> Kept more r v0 v1.
Lemma told_length o n : told o n -> length (io_errors o) = n `min` MAX_ERRORS.
Proof. unfold told. destruct (io_errors_truncated o); lia. Qed.
Lemma in_tx_whole : in_tx = true -> is_skip (rs_mode su) = false.
Proof. unfold ImportSpec.in_tx. intros [_ Hm]%andb_true_iff. by apply negb_true_iff. Qed.
Lemma in_tx_kind : in_tx = true -> kind <> DTrino.
Proof. unfold ImportSpec.in_tx. rewrite kind_known. intros [Ht _]%andb_true_iff Hk. rewrite Hk in Ht. congruence. Qed.
(** A transaction closed by the loop's outcome. *)
Lemma closed_inside plan mode ledger rejected o v y a b v1 s1 : Ended plan mode true ledger rejected o -> is_skip mode = false -> ss_kind (pl_style plan) = kind -> kind <> DTrino ->
  io_connection_lost o = false -> served (v, Inside v) (sent plan ledger) y -> served y (closing fk true (negb (io_rollback o)) a b) (v1, s1) ->
  v1 = v \/ promised mode ledger rejected /\ built plan ledger v v1.
Proof.
  intros He Hm Hk Htrino Hlost Hl Hend. destruct y as [v' s']. destruct (ended_inside _ _ _ _ _ _ _ He Hm Hk Htrino Hl) as [Hv Hcases]. cbn in Hv. subst v'.
  destruct (closing_served _ _ _ _ _ _ _ Hend) as [[Hv|[Hcm Hw]] _]; [by left|]. right. cbn in Hcm, Hw. apply negb_true_iff in Hcm. split; [eapply ended_promise; eauto|].
  destruct Hcases as [?|[?|[(w & Hw' & Hbuilt)|[Hu|[Hno _]]]]]; [congruence..| |cbn in Hu; congruence|by destruct (Hno v1)]. cbn in Hw'. by assert (w = v1) as -> by congruence.
Qed.
(** The end of a run that came to its loop. *)
Lemma concluded_served plan ledger rejected o r1 r l reps v0 y v1 s1 :
  match r1 with
  | inl _ => is_skip (rs_mode su) = false -> clean ledger
  | inr _ => Ended plan (rs_mode su) in_tx ledger rejected o
  end -> ss_kind (pl_style plan) = kind -> served (v0, if in_tx then Inside v0 else Idle) (sent plan ledger) y -> served y l (v1, s1) ->
  concluded fk in_tx o r1 r l reps ->
  if in_tx then v1 = v0 \/ (exists u, r1 = inr u) /\ promised (rs_mode su) ledger rejected /\ built plan ledger v0 v1 else built plan ledger v0 v1.
Proof.
  intros He Hk Hl Hend Hc. destruct y as [v s0]. destruct in_tx eqn:Etx.
  - assert (is_skip (rs_mode su) = false) as Hm by by apply in_tx_whole. pose proof (in_tx_kind Etx) as Htrino.
    destruct Hc as [e a b -> -> -> ->|e -> Hlost -> -> ->|e a b -> Hlost -> -> ->|rep a b -> Hlost Hf -> -> Ha Hb -> Hrep].
    + destruct (inside_ledger _ _ Htrino (He Hm) _ _ _ Hl) as (w & [= -> ->] & _). left. by destruct (closing_served _ _ _ _ _ _ _ Hend) as [[Hv|[[=] _]] _].
    + injection Hend as <- <-. left. by destruct (ended_inside _ _ _ _ _ _ _ He Hm Hk Htrino Hl).
    + destruct (closed_inside _ _ _ _ _ _ _ _ _ _ _ He Hm Hk Htrino Hlost Hl Hend) as [?|?]; [by left|right; by split; [exists tt|]].
    + destruct (closed_inside _ _ _ _ _ _ _ _ _ _ _ He Hm Hk Htrino Hlost Hl Hend) as [?|?]; [by left|right; by split; [exists tt|]].
  - destruct (outside_ledger plan ledger v0 Idle (v, s0) ltac:(by left) Hl) as [Hb _]. cbn in Hb.
    enough (v1 = v) as -> by done.
    destruct Hc as [e a b -> -> -> ->|e -> Hlost -> -> ->|e a b -> Hlost -> -> ->|rep a b -> Hlost Hf -> -> Ha Hb' -> Hrep];
      try (by destruct (closing_served _ _ _ _ _ _ _ Hend) as [[Hv|[[=] _]] _]). by injection Hend.
Qed.
Lemma done_served plan ledger rejected o rep a b v0 y v1 s1 : Ended plan (rs_mode su) in_tx ledger rejected o -> ss_kind (pl_style plan) = kind ->
  io_connection_lost o = false -> io_failed o = false -> (in_tx = true -> answered a = true) -> Report_ok rep o ->
  served (v0, if in_tx then Inside v0 else Idle) (sent plan ledger) y -> served y (closing fk in_tx (negb (io_rollback o)) a b) (v1, s1) ->
  built plan ledger v0 v1 \/ v1 = v0 /\ dn_warnings rep <> [].
Proof.
  intros He Hk Hlost Hf Ha Hrep Hl Hend. destruct y as [v s0]. destruct in_tx eqn:Etx.
  - pose proof (in_tx_whole Etx) as Hm. pose proof (in_tx_kind Etx) as Htrino. destruct (ended_inside _ _ _ _ _ _ _ He Hm Hk Htrino Hl) as [Hv Hcases]. cbn in Hv. subst v.
    assert (io_rollback o = false) as Hr by (destruct He as [Hg _ _| |line after o0 _ _ -> _]; [by destruct Hg|congruence|exact Hf]).
    rewrite Hr in Hend. destruct (closing_served _ _ _ _ _ _ _ Hend) as [Hv Hw]. destruct (Hw eq_refl (Ha eq_refl)) as [Hu Hc].
    destruct Hcases as [?|[?|[(w & Hw' & Hbuilt)|[?|[Hno Hwarn]]]]]; [congruence..| |done|].
    + left. pose proof (Hc eq_refl w Hw') as Hv1. cbn in Hv1. by subst w.
    + right. destruct Hv as [Hv|[_ Hv]]; [|by destruct (Hno v1)]. split; [done|]. by apply Hrep.
  - left. destruct (outside_ledger plan ledger v0 Idle (v, s0) ltac:(by left) Hl) as [Hb _]. destruct (closing_served _ _ _ _ _ _ _ Hend) as [[Hv|[[=] _]] _]. cbn in Hv. by subst v.
Qed.
Lemma shape_kept more r v0 v1 s1 : Shape transactions from_str s su format more r -> served (v0, Idle) (executed more) (v1, s1) -> Kept more r v0 v1.
Proof.
  intros [e -> Hex Hrep Hrows|e -> _ Hop Hrep Hrows|columns plan ops l1 l2 l3 r1 o Hplan -> Hop E1 R1 P1 R3 Hloop Hc] Hs.
  - assert (v1 = v0 /\ Forall (fun x => is_control x.1 = true) (executed more)) as [Hv Hctl].
    { rewrite checks_known in Hex. destruct Hex as [Hex|Hex]; [rewrite Hex in Hs |- *; injection Hs as Hv _; by split|]. split; [by apply (refused_served _ _ _ _ Hex Hs)|].
      destruct Hex as [(off & on & e1 & Hf & ->)|(_ & ops & e1 & b & Hop & ->)]; [constructor; [|done]; by apply switch_words, (fk_switch off on)|].
      apply Forall_app. split; [by eapply opening_control|]. constructor; [by destruct control_words|apply closing_control]. }
    by eapply kept_untouched.
  - rewrite checks_known in Hop. eapply kept_untouched; try done; [by eapply opening_control|]. apply (opening_served _ _ _ _ Hop) in Hs. by injection Hs.
  - rewrite checks_known in Hop, Hc. rewrite kind_known in Hplan. pose proof (planned_kind _ _ _ _ _ _ _ _ Hplan) as Hk. rewrite !executed_app, E1 in Hs. apply served_app in Hs as (x & Ho & (y & Hl & Hend)%served_app).
    rewrite (opening_served _ _ _ _ Hop Ho) in Hl.
    assert (exists ledger left_ rejected width, Sofar plan (rs_reader su) l2 ledger left_ rejected width
      /\ match r1 with inl _ => is_skip (rs_mode su) = false -> clean ledger | inr _ => Ended plan (rs_mode su) in_tx ledger rejected o end
      /\ (forall u, r1 = inr u -> left_ = [] /\ Counted ledger rejected o)) as (ledger & left_ & rejected & width & [Hsent Hj Hrp] & He & Hleft).
    { destruct r1; [destruct Hloop as (ledger & left_ & rejected & width & Hsf & Hc1); by exists ledger, left_, rejected, width|].
      destruct Hloop as (ledger & rejected & width & Hsf & Hct & He). by exists ledger, [], rejected, width. }
    rewrite Hsent in Hl. apply (kept_ran _ _ _ _ columns plan ledger left_ rejected width ops (executed l3)); [done| | | | |].
    + by rewrite !rows_read_app, R1, R3, app_nil_r.
    + by rewrite !executed_app, E1, Hsent.
    + apply Forall_app. split; [by eapply opening_control|]. destruct Hc as [e a b _ _ -> _|e _ _ _ -> _|e a b _ _ _ -> _|rep a b _ _ _ _ -> _ _ _ _]; [apply closing_control|done|apply closing_control..].
    + pose proof (concluded_served _ _ _ _ _ _ _ _ _ _ _ _ He Hk Hl Hend Hc) as Hkept. destruct in_tx; [|done]. destruct Hkept as [?|[[u Hu] ?]]; [by left|right]. split; [by eapply Hleft|done].
    + rewrite !reports_app, P1, Hrp. cbn. destruct Hc as [e a b _ -> _ ->|e _ _ -> _ ->|e a b _ _ -> _ ->|rep a b -> Hlost Hf -> Hl3 Ha _ -> Hrep]; [done..|].
      destruct (Hleft _ eq_refl) as [-> [Hw Hrj Htold]]. split; [done|]. split; [eapply ended_promise; eauto|]. exists rep. pose proof Hrep as [Rc Rj Re _ _ _].
      split; [done|]. split; [by rewrite Rc|]. split; [by rewrite Rj, Hrj|]. split; [by rewrite Re, (told_length _ _ Htold)|]. rewrite Hl3 in Hend. by eapply done_served.
Qed.
End Server.
Arguments served {V} effect kind x l y.
Arguments Kept {_ _ V} effect kind s transactions from_str su format more r v0 v1.

(** ** The properties *)

Section Claims.
Context `{FloatParts} {S : Type} `{ExecutionStore S}.
Variable now_millis : S -> Z.
Variable storage_message : bytes.
Variable env : ImportAnswers.
Variable driver_read_only : DriverKind -> bool.
Variable transactions : DriverKind -> bool.
Variable from_str : bytes -> bytes + Json.
Abbreviation rows_live := (rows_live now_millis storage_message driver_read_only transactions from_str env).
Lemma rows_live_ends n s su format (w : ImportWorld S) : file_ends env n -> exists r w', rows_live (Datatypes.S n) s su format w = Some (r, w').
Proof.
  intros Hn. unfold Import.rows_live. destruct (Import.bind _ _ w) as [[e|plan] w1]; [by do 2 eexists|].
  destruct (rows_end now_millis storage_message env plan (rs_reader su) (rs_mode su) (rs_batch su) (rs_timeout su)
              (transactions (rs_kind su) && negb (is_skip (rs_mode su))) (rs_safe su) (rs_dialect su) n Hn w1) as [[r w2] ->].
  destruct (conclude _ _ _ _ _ _ _ _ _) as [r' w']. by do 2 eexists.
Qed.
(** An error of the connection, and not of the statement. *)
Definition connection_error (e : EngineError) : Prop := (exists m k, e = EConnect m k) \/ failure_kind e = Transient.
Lemma lost_connection e : is_lost e = true -> connection_error e.
Proof. unfold is_lost, connection_error. destruct e as [|m k|m c p k| |m l|f|m]; cbn; try done; [left; by do 2 eexists|]. destruct k; by auto. Qed.
(** C25: With [FOREIGN_KEYS] off, once the checks went off the last statement an import sends is the one
    that switches them on, whatever fails and whenever it is stopped, but for two cases: the connection
    was lost with a batch, which is then the last statement; or [PROGRESS_MS] is not a number, which is
    found only after the checks went off, and the import fails with nothing sent but [BEGIN]. *)
Theorem foreign_key_checks_are_put_back fuel s su format (w : ImportWorld S) r w' more off on :
  rows_live fuel s su format w = Some (r, w') -> w_trace w' = w_trace w ++ more -> rs_fk su = FkDisable off on ->
  executed more = [] \/ (exists e, executed more = [(B off, inl e)])
  \/ exists l n, executed more = (B off, inr n) :: l
     /\ ((exists a, last l = Some (B on, a))
         \/ (exists sql e, last l = Some (sql, inl e) /\ connection_error e)
         \/ exists e, setting (number s (B "PROGRESS_MS") PROGRESS_MS_DEFAULT) = inl e /\ r = inl e /\ (l = [] \/ exists m, l = [(B "BEGIN", inr m)])).
Proof.
  intros Hr Ht Hfk. destruct (rows_live_shape _ _ _ _ _ _ _ _ _ _ _ _ _ Hr) as (more' & Ht' & Hsh). assert (more' = more) as -> by (rewrite Ht' in Ht; by apply app_inv_head in Ht).
  destruct Hsh as [e -> Hex Hrep Hrows|e -> He (n & m & Hop)|columns plan ops l1 l2 l3 r1 o Hplan -> (n & m & Hop) E1 R1 P1 R3 Hloop Hc].
  - destruct Hex as [Hex|[(off' & on' & e1 & Hf & ->)|(_ & ops & e1 & b & (n & m & ->) & ->)]]; [by left|right; left; rewrite Hfk in Hf; injection Hf as <- <-; by exists e1|].
    right; right. rewrite Hfk. cbn. do 2 eexists. split; [done|]. left. by eexists.
  - right; right. rewrite Hop, Hfk. cbn. do 2 eexists. split; [done|]. right; right. exists e. split; [done|]. split; [done|].
    destruct (in_tx transactions su); [right; by eexists|by left].
  - right; right. rewrite !executed_app, E1, Hop, Hfk. cbn. do 2 eexists. split; [done|].
    assert (forall commit a b l, exists x, last (l ++ closing (FkDisable off on) (in_tx transactions su) commit a b) = Some (B on, x)) as Hlast
      by (intros commit a b l; unfold closing; rewrite app_assoc, last_snoc; by eexists).
    rewrite Hfk in Hc. rewrite app_assoc. destruct Hc as [e a b _ _ -> _|e -> Hlost _ -> _|e a b _ _ _ -> _|rep a b _ _ _ _ -> _ _ _ _]; [left; apply Hlast| |left; apply Hlast..].
    right; left. destruct Hloop as (ledger & rejected & width & [Hsent _ _] & _ & He). rewrite app_nil_r, Hsent.
    destruct He as [Hg _ _|l x -> Hx _ _|line after o0 _ Hg -> _]; [by rewrite (go_connection _ Hg) in Hlost| |by cbn in Hlost; rewrite (go_connection _ Hg) in Hlost].
    rewrite sent_snoc. unfold lost_of in Hx. destruct x as [b [[e1|n1]|]]; try done. cbn. rewrite app_assoc, last_snoc. do 2 eexists. split; [done|by apply lost_connection].
Qed.
End Claims.

(** ** A small import *)

(** Three rows of a CSV file into a MySQL table whose second row the server refuses, under [commit]
    with the foreign-key checks off, a batch a row. *)
Module SmallImport.
#[local] Existing Instances no_float ascii_unicode.
#[export] Instance no_parts : FloatParts := {| fract_is_zero _ := true; below_9e15 _ := true; exp_14 _ := [] |}.
#[export] Instance small_log : ExecutionStore Storage := storage_store toy_hash toy_payload.
Definition settings : Settings := {[ B "FOREIGN_KEYS" := B "off"; B "SAFE_MODE" := B "full" ]}.
Definition row (line : nat) (text : string) : JsonRow := MkRow line [Some (B text)] [false].
Definition file : list JsonRow := [row 2 "a"; row 3 "b"; row 4 "c"].
Definition duplicate : EngineError := EQuery (B "Duplicate entry") (Some (B "1062")) None Permanent.
Definition has_b (sql : bytes) : bool := bytes_eqb sql (B "INSERT INTO `t` (`name`) VALUES ('b')").
Definition answers : ImportAnswers := MkImportAnswers
  (fun _ _ => None) (fun _ _ => inr tt) (fun _ => None)
  (fun _ sql _ => if has_b sql then inl duplicate else inr (if is_control DMysql sql then None else Some 1%Z))
  (fun _ _ _ => inr [MkMeta (B "name") (B "varchar")]) (fun tr => inr (file !! length (rows_read tr)))
  (fun _ => false) (fun _ => 0%Z) (fun _ => None) (fun _ => []) (fun _ => None).
Definition target : RowsSetup := MkRowsSetup CommitPrefix DMysql MFull Mysql (FkDisable "SET FOREIGN_KEY_CHECKS = 0" "SET FOREIGN_KEY_CHECKS = 1")
  None 1 (Some []) (MkRules None None None true) (B "`t`") (B "t") (MkReader (Some [B "name"]) true true None) None.
Definition world : ImportWorld Storage := MkImport [] None (progress_new 0 0) (outcome_new false).
(** The table is the statements that reached it. *)
Definition effect (sql : bytes) (_ : option Z) (v v' : list bytes) : Prop := v' = v ++ [sql].
Lemma file_is_read : file_ends answers 3.
Proof. intros tr Hn r. cbn. destruct (file !! _) eqn:E; [|done]. apply lookup_lt_Some in E. cbn in E. lia. Qed.
End SmallImport.
#[local] Existing Instances no_float ascii_unicode SmallImport.no_parts SmallImport.small_log.
(** What each driver answers for transactions. *)
Definition with_transactions (kind : DriverKind) : bool := match kind with DTrino => false | _ => true end.
Abbreviation small_rows := (rows_live (fun _ : Storage => 0%Z) [] (fun _ => false) with_transactions (fun _ => inl []) SmallImport.answers).
Definition row_a : bytes := B "INSERT INTO `t` (`name`) VALUES ('a')".
Definition row_b : bytes := B "INSERT INTO `t` (`name`) VALUES ('b')".
Lemma foreign_key_checks_are_put_back_witness : exists r w', small_rows 4 SmallImport.settings SmallImport.target (TableFormat Csv) SmallImport.world = Some (r, w')
  /\ exists l n, executed (w_trace w') = (B "SET FOREIGN_KEY_CHECKS = 0", inr n) :: l /\ exists a, last l = Some (B "SET FOREIGN_KEY_CHECKS = 1", a).
Proof.
  destruct (small_rows 4 SmallImport.settings SmallImport.target (TableFormat Csv) SmallImport.world) as [[r w']|] eqn:E; [|vm_compute in E; discriminate E].
  exists r, w'. split; [reflexivity|].
  pose proof (foreign_key_checks_are_put_back (fun _ : Storage => 0%Z) [] SmallImport.answers (fun _ => false) with_transactions (fun _ => inl []) 4
              SmallImport.settings SmallImport.target (TableFormat Csv) SmallImport.world r w' (w_trace w') _ _ E eq_refl eq_refl) as Hp.
  vm_compute in E. injection E as <- <-. destruct Hp as [Hp|[[e Hp]|(l & n & Hp & Hl)]]; [discriminate Hp|discriminate Hp|]. exists l, n. split; [exact Hp|].
  destruct Hl as [Hl|[(sql & e & Hl & _)|(e & _ & Hl & _)]]; [exact Hl| |discriminate Hl]. cbn in Hp. injection Hp as <- <-. discriminate Hl.
Defined.
(** A [PROGRESS_MS] that is not a number is found after the checks went off and [BEGIN] was sent, and the run
    returns with the checks off, the transaction open and the session not closed. *)
Example progress_setting_leaves_checks_off : exists r w',
  small_rows 4 (<[B "PROGRESS_MS" := B "often"]> SmallImport.settings) SmallImport.target (TableFormat Csv) SmallImport.world = Some (inl r, w')
  /\ executed (w_trace w') = [(B "SET FOREIGN_KEY_CHECKS = 0", inr None); (B "BEGIN", inr None)]
  /\ existsb (fun e => match e with EvClosed => true | _ => false end) (w_trace w') = false.
Proof. do 2 eexists. split; [vm_compute; reflexivity|]. split; reflexivity. Qed.
(** The report of an import says that a transaction is holding the rows ([pending]) after the transaction
    was committed. *)
Example done_says_pending_after_commit : exists w', small_rows 4 SmallImport.settings SmallImport.target (TableFormat Csv) SmallImport.world = Some (inr tt, w')
  /\ existsb (fun x => bytes_eqb x.1 (B "COMMIT")) (executed (w_trace w')) = true /\ dn_disposition <$> reports (w_trace w') = ["pending"%string].
Proof. eexists. split; [vm_compute; reflexivity|]. by vm_compute. Qed.
(** Under [commit], a batch whose count the server contradicts ends the import and is committed with the
    batches before it; the report does not count it. *)
Definition miscounting : ImportAnswers :=
  let a := SmallImport.answers in
  MkImportAnswers (an_out a) (an_connect a) (an_read_only a)
    (fun tr sql t => if bytes_eqb sql row_b then inr (Some 2%Z) else an_execute a tr sql t)
    (an_columns a) (an_row a) (an_stop a) (an_now a) (an_bytes a) (an_unmapped a) (an_query_id a).
Example miscounted_batch_is_committed : exists w',
  rows_live (fun _ : Storage => 0%Z) [] (fun _ => false) with_transactions (fun _ => inl []) miscounting
    4 SmallImport.settings SmallImport.target (TableFormat Csv) SmallImport.world = Some (inr tt, w')
  /\ (executed (w_trace w')).*1 = [B "SET FOREIGN_KEY_CHECKS = 0"; B "BEGIN"; row_a; row_b; B "COMMIT"; B "SET FOREIGN_KEY_CHECKS = 1"]
  /\ dn_count <$> reports (w_trace w') = [1%Z].
Proof. eexists. split; [vm_compute; reflexivity|]. by vm_compute. Qed.
