(* ===== verification/Glob.v ===== *)
(** * Glob: the [*] and [?] matcher of host patterns, [crates/qh-tunnel/src/pattern.rs]. *)
From S2P Require Import Prelude Bytes Text.

Abbreviation QMARK := 63%Z (only parsing).

(** ** The loop *)

Record GlobState := MkGlob { g_p : nat; g_t : nat; g_star : option nat; g_resume : nat }.

(** One turn of the first loop; it leaves with [None] for [return false] and with the offset in
    the pattern otherwise. *)
Definition glob_turn (pattern text : bytes) (s : GlobState) : GlobState + option nat :=
  let '(MkGlob p t star resume) := s in
  match text !! t with
  | None => inr (Some p)
  | Some b =>
      if at_is (fun c => (c =b QMARK) || (c =b b)) pattern p then inl (MkGlob (S p) (S t) star resume)
      else if is_at pattern p STAR then inl (MkGlob (S p) t (Some p) t)
      else match star with
           | Some q => inl (MkGlob (S q) (S resume) (Some q) (S resume))
           | None => inr None
           end
  end.
Definition glob_fuel (pattern text : bytes) : nat :=
  S ((length text + 1) * (length pattern + length text + 2) + length pattern + length text).
Definition glob (pattern text : bytes) : bool :=
  match iter (glob_turn pattern text) (glob_fuel pattern text) (MkGlob 0 0 None 0) with
  | Some (Some p) => skip_while (fun c => c =b STAR) pattern p =? length pattern
  | _ => false
  end.

(** ** What a pattern means *)

Inductive globs : bytes -> bytes -> Prop :=
| gl_nil : globs [] []
| gl_star_none p t : globs p t -> globs (STAR :: p) t
| gl_star_one p b t : globs (STAR :: p) t -> globs (STAR :: p) (b :: t)
| gl_any p b t : globs p t -> globs (QMARK :: p) (b :: t)
| gl_char p b t : b <> STAR -> globs p t -> globs (b :: p) (b :: t).

(** A pattern with no star matches as many bytes as it has. *)
Fixpoint literal (p t : bytes) : bool :=
  match p, t with
  | [], [] => true
  | c :: p, b :: t => negb (c =b STAR) && ((c =b QMARK) || (c =b b)) && literal p t
  | _, _ => false
  end.

Lemma literal_length p t : literal p t = true -> length p = length t.
Proof. revert t; induction p as [|c p IH]; intros [|b t]; cbn; try done. intros [_ ?]%andb_true_iff. auto. Qed.

Lemma literal_globs p t q u : literal p t = true -> globs (p ++ q) (t ++ u) <-> globs q u.
Proof.
  revert t; induction p as [|c p IH]; intros [|b t]; cbn [literal app]; try done.
  intros [[Hc%negb_true_iff%Z.eqb_neq Hb]%andb_true_iff Hl]%andb_true_iff. rewrite <- (IH t Hl). split.
  - intros Hg. inversion Hg; subst; try done.
  - intros Hg. apply orb_true_iff in Hb as [->%Z.eqb_eq| ->%Z.eqb_eq]; [by constructor|].
    by apply gl_char.
Qed.

(** A match of a pattern that starts literally takes exactly those bytes. *)
Lemma literal_split p q t : Forall (fun c => c <> STAR) p -> globs (p ++ q) t ->
  exists a u, t = a ++ u /\ literal p a = true /\ globs q u.
Proof.
  revert t; induction p as [|c p IH]; intros t Hp Hg.
  - by exists [], t.
  - inversion Hp as [|? ? Hc Hp']; subst. cbn [app] in Hg.
    inversion Hg as [|? ? Hg'|? ? ? Hg'|? b u Hg'|? b u Hb Hg']; subst; try done.
    + destruct (IH _ Hp' Hg') as (a & v & -> & Hl & Hq). exists (b :: a), v. split; [done|].
      split; [|done]. cbn. by rewrite Hl.
    + destruct (IH _ Hp' Hg') as (a & v & -> & Hl & Hq). exists (c :: a), v. split; [done|].
      split; [|done]. cbn. rewrite Hl, (proj2 (Z.eqb_neq _ _) Hb), Z.eqb_refl, orb_true_r. done.
Qed.

Lemma star_absorbs p t u : globs (STAR :: p) u -> globs (STAR :: p) (t ++ u).
Proof. intros Hg. induction t as [|b t IH]; [done|]. by apply gl_star_one. Qed.

Lemma star_inv p t : globs (STAR :: p) t -> exists a u, t = a ++ u /\ globs p u.
Proof.
  remember (STAR :: p) as sp eqn:E. intros Hg. revert p E.
  induction Hg as [|q t Hg IH|q b t Hg IH|q b t Hg IH|q b t Hb Hg IH]; intros p E; simplify_eq.
  - by exists [], t.
  - destruct (IH _ eq_refl) as (a & u & -> & Hu). by exists (b :: a), u.
Qed.

Lemma globs_nil_stars p : globs p [] <-> Forall (fun c => c = STAR) p.
Proof.
  split.
  - remember [] as t eqn:E. induction 1; simplify_eq; auto.
  - induction 1 as [|c p -> _ IH]; [constructor|by apply gl_star_none].
Qed.

Lemma skip_stars pattern p : p <= length pattern ->
  (skip_while (fun c => c =b STAR) pattern p =? length pattern) = true <-> globs (drop p pattern) [].
Proof.
  intros Hp. rewrite Nat.eqb_eq, globs_nil_stars. split.
  - intros E. apply Forall_lookup. intros i c Hi. rewrite lookup_drop in Hi.
    destruct (skip_while_all (fun c => c =b STAR) pattern p (p + i)) as (b & Hb & Hs);
      [lia|apply lookup_lt_Some in Hi; lia|]. apply Z.eqb_eq in Hs. congruence.
  - intros Hf. pose proof (skip_while_le (fun c => c =b STAR) pattern p Hp) as Hle.
    destruct (decide (skip_while (fun c => c =b STAR) pattern p < length pattern)) as [Hlt|]; [|lia].
    destruct (lookup_lt_is_Some_2 pattern _ Hlt) as [c Hc]. pose proof (skip_while_stop _ _ _ _ Hc) as Hn.
    pose proof (skip_while_ge (fun c => c =b STAR) pattern p). rewrite Forall_lookup in Hf.
    rewrite (Hf (skip_while (fun c => c =b STAR) pattern p - p) c) in Hn; [done|].
    rewrite lookup_drop. by replace (p + _) with (skip_while (fun c => c =b STAR) pattern p) by lia.
Qed.

(** ** The loop ends *)

Definition glob_inv (pattern text : bytes) (s : GlobState) : Prop :=
  g_p s <= length pattern /\ g_t s <= length text /\ g_resume s <= g_t s
  /\ (forall q, g_star s = Some q -> q < g_p s).
Definition glob_measure (pattern text : bytes) (s : GlobState) : nat :=
  (length text - g_resume s) * (length pattern + length text + 2)
  + (length pattern - g_p s) + (length text - g_t s).

Lemma glob_turn_decreases pattern text s s' :
  glob_inv pattern text s -> glob_turn pattern text s = inl s' ->
  glob_inv pattern text s' /\ glob_measure pattern text s' < glob_measure pattern text s.
Proof.
  destruct s as [p t star resume]. unfold glob_inv, glob_measure, glob_turn. cbn. intros (Hp & Ht & Hr & Hs).
  destruct (text !! t) as [b|] eqn:Hb; [|done]. apply lookup_lt_Some in Hb.
  destruct (at_is _ pattern p) eqn:Ec; [|destruct (is_at pattern p STAR) eqn:Es; [|destruct star as [q|]; [|done]]];
    intros [= <-]; cbn.
  - unfold at_is in Ec. destruct (pattern !! p) eqn:E; [|done]. apply lookup_lt_Some in E.
    split; [|lia]. split_and!; try lia. intros q Hq. specialize (Hs q Hq). lia.
  - apply is_at_true, lookup_lt_Some in Es. split.
    + split_and!; try lia. intros q [= <-]. lia.
    + assert (length text - t <= length text - resume) by lia. nia.
  - specialize (Hs q eq_refl). split.
    + split_and!; try lia. intros q' [= <-]. lia.
    + assert (length text - resume = S (length text - S resume)) as -> by lia. nia.
Qed.

Lemma glob_total pattern text : exists r,
  iter (glob_turn pattern text) (glob_fuel pattern text) (MkGlob 0 0 None 0) = Some r.
Proof.
  apply (iter_total_inv _ (glob_inv pattern text) (glob_measure pattern text)).
  - intros s s'. apply glob_turn_decreases.
  - unfold glob_inv. cbn. split_and!; try lia. done.
  - unfold glob_measure, glob_fuel. cbn. nia.
Qed.

(** ** The loop decides the pattern *)

(** What the loop has read: since the last star, a literal stretch. *)
Definition glob_ok (pattern text : bytes) (s : GlobState) : Prop :=
  glob_inv pattern text s
  /\ match g_star s with
     | None => exists a u, text = a ++ u /\ length a = g_t s
                 /\ exists c r, pattern = c ++ r /\ length c = g_p s /\ literal c a = true
     | Some q => exists a b u, text = a ++ b ++ u /\ length a = g_resume s /\ length (a ++ b) = g_t s
                 /\ exists x c r, pattern = x ++ STAR :: c ++ r /\ length x = q
                      /\ length (x ++ STAR :: c) = g_p s /\ literal c b = true
                      /\ (globs pattern text <-> globs (STAR :: c ++ r) (b ++ u))
     end.

Lemma literal_no_star p t : literal p t = true -> Forall (fun c => c <> STAR) p.
Proof.
  revert t; induction p as [|c p IH]; intros [|b t]; cbn; try done.
  intros [[Hc%negb_true_iff%Z.eqb_neq _]%andb_true_iff Hl]%andb_true_iff. constructor; eauto.
Qed.

Lemma literal_snoc p t c b :
  literal p t = true -> c <> STAR -> (c =b QMARK) || (c =b b) = true -> literal (p ++ [c]) (t ++ [b]) = true.
Proof.
  revert t; induction p as [|d p IH]; intros [|e t]; cbn [literal app]; try done.
  - intros _ Hc%Z.eqb_neq Hb. by rewrite Hc, Hb.
  - intros [Hd Hl]%andb_true_iff Hc Hb. by rewrite Hd, IH.
Qed.

(** After a literal stretch, a star forgets where the one before it began. *)
Lemma star_restart c b r u : literal c b = true ->
  globs (STAR :: c ++ STAR :: r) (b ++ u) <-> globs (STAR :: r) u.
Proof.
  intros Hl. split.
  - intros (y & v & E & Hg)%star_inv.
    apply literal_split in Hg as (a1 & v1 & -> & Hl1 & Hg); [|by eapply literal_no_star].
    apply literal_length in Hl, Hl1. apply (f_equal (drop (length b))) in E.
    rewrite drop_app_length, app_assoc, drop_app_le in E by (rewrite length_app; lia).
    rewrite E. by apply star_absorbs.
  - intros Hg. apply gl_star_none. by apply (literal_globs c b).
Qed.

(** The star takes one more byte when what follows it does not fit here. *)
Lemma star_advance c b r u b0 w : literal c b = true -> b ++ u = b0 :: w -> b0 <> STAR ->
  ~ globs r u -> globs (STAR :: c ++ r) (b ++ u) <-> globs (STAR :: c ++ r) w.
Proof.
  intros Hl E Hb Hn. split.
  - rewrite E. intros Hg. inversion Hg as [|? ? Hg'|? ? ? Hg'| |]; subst; try done.
    rewrite <- E in Hg'. apply (literal_globs c b r u Hl) in Hg'. done.
  - rewrite E. apply gl_star_one.
Qed.

Lemma star_end c b r : literal c b = true -> globs (STAR :: c ++ r) b <-> globs r [].
Proof.
  intros Hl. split.
  - intros (y & v & E & Hg)%star_inv.
    apply literal_split in Hg as (a1 & v1 & -> & Hl1 & Hg); [|by eapply literal_no_star].
    apply literal_length in Hl, Hl1. apply (f_equal length) in E. rewrite !length_app in E.
    destruct v1; [done|cbn in E; lia].
  - intros Hg. apply gl_star_none. rewrite <- (app_nil_r b). by apply (literal_globs c b).
Qed.

(** The head of what is left of the pattern does not fit the next byte. *)
Lemma head_misfit r b u : b <> STAR ->
  match head r with Some c => (c =b QMARK) || (c =b b) = false /\ c <> STAR | None => True end ->
  ~ globs r (b :: u).
Proof.
  intros Hb Hr Hg. inversion Hg; subst; cbn in Hr; destruct Hr as [Hr ?]; try done.
  rewrite Z.eqb_refl, orb_true_r in Hr. done.
Qed.

Lemma lookup_after {A} (x r : list A) i : length x = i -> (x ++ r) !! i = head r.
Proof. intros <-. rewrite lookup_app_r, Nat.sub_diag by lia. by destruct r. Qed.

Lemma glob_turn_star pattern text s s' b0 q : Forall (fun b => b <> STAR) text ->
  text !! g_t s = Some b0 -> g_star s = Some q ->
  glob_ok pattern text s -> glob_turn pattern text s = inl s' -> glob_ok pattern text s'.
Proof.
  intros Hns Hb Hq [Hi Hok] Et. split; [by eapply glob_turn_decreases|].
  destruct s as [p t star resume]. cbn in *. rewrite Hb, Hq in Et. rewrite Hq in Hok.
  assert (b0 <> STAR) as Hb0 by (by eapply Forall_lookup_1 in Hns).
  destruct Hok as (a & b & u & -> & Ha & Hab & x & c & r & -> & Hx & Hxp & Hl & Hiff).
  rewrite app_assoc, (lookup_after (a ++ b) u t Hab) in Hb. destruct u as [|b1 u]; [done|]. injection Hb as ->.
  unfold at_is, is_at in Et. change (x ++ STAR :: c ++ r) with (x ++ (STAR :: c) ++ r) in Et.
  rewrite app_assoc, (lookup_after _ r p Hxp) in Et.
  destruct (match head r with Some b => _ | None => false end) eqn:E1.
  { destruct r as [|c0 r]; [done|]. cbn [head] in E1. injection Et as <-. cbn.
    assert (c0 <> STAR) as Hc0 by (intros ->; apply orb_true_iff in E1 as [E1|E1]; apply Z.eqb_eq in E1; congruence).
    exists a, (b ++ [b0]), u. rewrite <- app_assoc. split; [done|]. split; [done|].
    split; [rewrite app_assoc, length_app, Hab; cbn; lia|].
    exists x, (c ++ [c0]), r. rewrite <- !app_assoc. split; [done|]. split; [done|].
    split; [rewrite !length_app in *; cbn in *; rewrite length_app; cbn; lia|].
    split; [by apply literal_snoc|done]. }
  destruct (match head r with Some d => d =b STAR | None => false end) eqn:E2.
  { destruct r as [|c0 r]; [done|]. cbn [head] in E2. apply Z.eqb_eq in E2 as ->. injection Et as <-. cbn.
    exists (a ++ b), [], (b0 :: u). rewrite !app_nil_r, <- app_assoc. split; [done|]. split; [done|].
    split; [done|]. exists (x ++ STAR :: c), [], r. rewrite <- app_assoc. split; [done|]. split; [done|].
    split; [rewrite length_app; cbn [length]; lia|]. split; [done|].
    rewrite Hiff. by apply star_restart. }
  injection Et as <-. cbn.
  destruct (b ++ b0 :: u) as [|b2 w] eqn:Ew; [by destruct b|].
  assert (b2 <> STAR) as Hb2.
  { rewrite Forall_forall in Hns. apply Hns. rewrite !elem_of_app. right. left. }
  exists (a ++ [b2]), [], w. rewrite !app_nil_r, <- app_assoc. split; [done|].
  split; [rewrite length_app; cbn; lia|]. split; [rewrite length_app; cbn; lia|].
  exists x, [], (c ++ r). split; [done|]. split; [done|]. split; [rewrite length_app; cbn; lia|].
  split; [done|]. rewrite Hiff, <- Ew. apply (star_advance c b r (b0 :: u) b2 w); [done..|].
  apply head_misfit; [done|]. destruct r as [|c0 r]; [done|]. cbn in *. split; [done|]. by apply Z.eqb_neq.
Qed.

Lemma glob_turn_literal pattern text s s' b0 : Forall (fun b => b <> STAR) text ->
  text !! g_t s = Some b0 -> g_star s = None ->
  glob_ok pattern text s -> glob_turn pattern text s = inl s' -> glob_ok pattern text s'.
Proof.
  intros Hns Hb Hq [Hi Hok] Et. split; [by eapply glob_turn_decreases|].
  destruct s as [p t star resume]. cbn in *. rewrite Hb, Hq in Et. rewrite Hq in Hok.
  assert (b0 <> STAR) as Hb0 by (by eapply Forall_lookup_1 in Hns).
  destruct Hok as (a & u & -> & Ha & c & r & -> & Hc & Hl).
  rewrite (lookup_after a u t Ha) in Hb. destruct u as [|b1 u]; [done|]. injection Hb as ->.
  unfold at_is, is_at in Et. rewrite (lookup_after c r p Hc) in Et.
  destruct (match head r with Some b => _ | None => false end) eqn:E1.
  { destruct r as [|c0 r]; [done|]. cbn [head] in E1. injection Et as <-. cbn.
    assert (c0 <> STAR) as Hc0 by (intros ->; apply orb_true_iff in E1 as [E1|E1]; apply Z.eqb_eq in E1; congruence).
    exists (a ++ [b0]), u. rewrite <- app_assoc. split; [done|]. split; [rewrite length_app; cbn; lia|].
    exists (c ++ [c0]), r. rewrite <- app_assoc. split; [done|]. split; [rewrite length_app; cbn; lia|].
    by apply literal_snoc. }
  destruct (match head r with Some d => d =b STAR | None => false end) eqn:E2; [|done].
  destruct r as [|c0 r]; [done|]. cbn [head] in E2. apply Z.eqb_eq in E2 as ->. injection Et as <-. cbn.
  exists a, [], (b0 :: u). rewrite !app_nil_r. split; [done|]. split; [done|]. split; [done|].
  exists c, [], r. split; [done|]. split; [done|]. split; [rewrite length_app; cbn; lia|].
  split; [done|]. by apply literal_globs.
Qed.

Lemma glob_turn_ok pattern text s s' : Forall (fun b => b <> STAR) text ->
  glob_ok pattern text s -> glob_turn pattern text s = inl s' -> glob_ok pattern text s'.
Proof.
  intros Hns Hok Et. destruct (text !! g_t s) as [b0|] eqn:Hb.
  - destruct (g_star s) as [q|] eqn:Hq; [by eapply glob_turn_star|by eapply glob_turn_literal].
  - unfold glob_turn in Et. destruct s as [p t star resume]. cbn in Hb. by rewrite Hb in Et.
Qed.

(** What the loop leaves with. *)
Definition glob_post (pattern text : bytes) (r : option nat) : Prop :=
  match r with
  | Some p => p <= length pattern /\ (globs pattern text <-> globs (drop p pattern) [])
  | None => ~ globs pattern text
  end.

Lemma glob_turn_done pattern text s r : Forall (fun b => b <> STAR) text ->
  glob_ok pattern text s -> glob_turn pattern text s = inr r -> glob_post pattern text r.
Proof.
  intros Hns [(Hp & Ht & _ & _) Hok] Et. destruct s as [p t star resume]. cbn in *.
  destruct (text !! t) as [b0|] eqn:Hb.
  - destruct star as [q|].
    { destruct (at_is _ pattern p); [done|]. by destruct (is_at pattern p STAR). }
    destruct Hok as (a & u & -> & Ha & c & r0 & -> & Hc & Hl). unfold at_is, is_at in Et.
    rewrite (lookup_after c r0 p Hc) in Et. assert (b0 <> STAR) as Hb0 by (by eapply Forall_lookup_1 in Hns).
    rewrite (lookup_after a u t Ha) in Hb. destruct u as [|b1 u]; [done|]. injection Hb as ->.
    destruct (match head r0 with Some c => _ | None => false end) eqn:E1; [done|].
    destruct (match head r0 with Some d => d =b STAR | None => false end) eqn:E2; [done|].
    injection Et as <-. cbn. rewrite (literal_globs c a r0 _ Hl). apply head_misfit; [done|].
    destruct r0 as [|c0 r0]; [done|]. cbn in *. split; [done|]. by apply Z.eqb_neq.
  - injection Et as <-. cbn. split; [done|]. apply lookup_ge_None in Hb.
    destruct star as [q|].
    + destruct Hok as (a & b & u & -> & Ha & Hab & x & c & r & -> & Hx & Hxp & Hl & Hiff).
      destruct u; [|rewrite !length_app in *; cbn in *; lia]. rewrite app_nil_r in *. rewrite Hiff.
      change (x ++ STAR :: c ++ r) with (x ++ (STAR :: c) ++ r). rewrite app_assoc, drop_app_length' by done.
      by apply star_end.
    + destruct Hok as (a & u & -> & Ha & c & r & -> & Hc & Hl).
      destruct u; [|rewrite length_app in *; cbn in *; lia]. rewrite drop_app_length' by done.
      by apply literal_globs.
Qed.

(** The matcher decides the pattern: it answers yes exactly when the text is the pattern with its
    stars filled in and its question marks read as single bytes. The text holds no star, as a host
    name does not. *)
Theorem glob_spec (pattern text : bytes) :
  Forall (fun b => b <> STAR) text -> glob pattern text = true <-> globs pattern text.
Proof.
  intros Hns. unfold glob. destruct (glob_total pattern text) as [r Hr]. rewrite Hr.
  assert (glob_post pattern text r) as Hpost.
  { eapply (iter_inv _ (glob_ok pattern text) (glob_post pattern text)); [| | |exact Hr].
    - intros s s'. by apply glob_turn_ok.
    - intros s r'. by apply glob_turn_done.
    - split; [unfold glob_inv; cbn; split_and!; try lia; done|]. cbn.
      exists [], text. split; [done|]. split; [done|]. by exists [], pattern. }
  destruct r as [p|]; [|split; done]. destruct Hpost as [Hp ->]. by apply skip_stars.
Qed.

Lemma glob_spec_witness : glob (B "db-??.*.internal") (B "db-01.eu.internal") = true
  /\ globs (B "db-??.*.internal") (B "db-01.eu.internal").
Proof.
  assert (glob (B "db-??.*.internal") (B "db-01.eu.internal") = true) as Hg by (vm_compute; reflexivity).
  split; [done|]. apply (glob_spec (B "db-??.*.internal") (B "db-01.eu.internal")); [|done].
  apply (bool_decide_unpack _). vm_compute. exact I.
Defined.

(** A star in the text is read as a literal one first, and then the pattern's star is spent. *)
Example glob_literal_star : glob (B "*") (B "*a") = false /\ globs (B "*") (B "*a").
Proof. split; [vm_compute; reflexivity|]. apply gl_star_one, gl_star_one, gl_star_none, gl_nil. Qed.
