(* ===== verification/KnownHosts.v ===== *)
(** * KnownHosts: host keys on record, [crates/qh-tunnel/src/known_hosts.rs] and [key.rs].

    Reading the lines of [known_hosts] files, the verdict they add up to for one host and one key,
    and the recording of an accepted key.  Base64, SHA-256 and HMAC-SHA1 are parameters, as is
    what the file system answers: a file is a [Node] of the store, and [can_open], [can_append],
    [can_create], [can_read] and [can_write] say which calls go through; a write that fails has
    written [written] bytes. *)
From stdpp Require Import gmap.
From S2P Require Import Prelude Bytes Text Env Glob.

(** ** Names *)

Definition host_spelling (host : bytes) (port : Z) : bytes :=
  if (port =? 22)%Z then host else B "[" ++ host ++ B "]:" ++ decimal port.

Definition is_valid_host (host : bytes) : bool :=
  (1 <=? length host) && (length host <=? 253)
  && negb (starts_with host [DASH])
  && forallb (fun b => is_ascii_alphanumeric b || (b =b DOT) || (b =b DASH) || (b =b UNDERSCORE) || (b =b COLON))
       host.

(** [str::replace] of one byte. *)
Definition replace_byte (c : Z) (by_ : bytes) (s : bytes) : bytes :=
  mjoin ((fun b => if b =b c then by_ else [b]) <$> s).
Definition shell_quote (value : bytes) : bytes :=
  B "'" ++ replace_byte SQUOTE (B "'\''") value ++ B "'".
Definition remove_command (host : bytes) (port : Z) (file : bytes) : bytes :=
  B "ssh-keygen -R " ++ shell_quote (host_spelling host port) ++ B " -f " ++ shell_quote file.

(** ** [utc_iso8601], by Hinnant's civil-from-days *)

Definition utc_civil (days : Z) : Z * Z * Z :=
  let z := (days + 719468)%Z in
  let era := (z / 146097)%Z in
  let doe := (z mod 146097)%Z in
  let yoe := ((doe - doe / 1460 + doe / 36524 - doe / 146096) / 365)%Z in
  let doy := (doe - (365 * yoe + yoe / 4 - yoe / 100))%Z in
  let mp := ((5 * doy + 2) / 153)%Z in
  let day := (doy - (153 * mp + 2) / 5 + 1)%Z in
  let month := if (mp <? 10)%Z then (mp + 3)%Z else (mp - 9)%Z in
  let year := (yoe + era * 400 + (if (month <=? 2)%Z then 1 else 0))%Z in
  (year, month, day).

(** [{:04}] of a number that is not negative. *)
Definition decimal4 (n : Z) : bytes := replicate (4 - length (decimal n)) 48%Z ++ decimal n.
(** [secs]: the seconds since the epoch. *)
Definition utc_iso8601 (secs : Z) : bytes :=
  let days := (secs / 86400)%Z in
  let rest := (secs mod 86400)%Z in
  let '(year, month, day) := utc_civil days in
  decimal4 year ++ B "-" ++ decimal2 month ++ B "-" ++ decimal2 day ++ B "T" ++ decimal2 (rest / 3600)%Z
    ++ B ":" ++ decimal2 (rest mod 3600 / 60)%Z ++ B ":" ++ decimal2 (rest mod 60)%Z ++ B "Z".

(** ** Keys *)

Definition is_ascii_graphic (b : Z) : bool := ((33 <=? b) && (b <=? 126))%Z.
Definition be_u32 (s : bytes) : Z := foldl (fun n b => (256 * n + b)%Z) 0%Z s.

(** The algorithm name inside a blob: its length in four bytes, the name, and key data. *)
Definition key_type_of (blob : bytes) : option bytes :=
  if length blob <? 4 then None
  else
    let len := be_u32 (take 4 blob) in
    let rest := drop 4 blob in
    if (Z.of_nat (length rest) <? len)%Z then None
    else
      let name := take (Z.to_nat len) rest in
      let key_data := drop (Z.to_nat len) rest in
      if negb (valid_utf8 name) then None
      else match name with
           | [] => None
           | _ => if negb (forallb is_ascii_graphic name) then None
                  else match key_data with [] => None | _ => Some name end
           end.

Record ServerKey := MkServerKey { sk_type : bytes; sk_blob : bytes }.
Definition server_key (blob : bytes) : option ServerKey :=
  match key_type_of blob with Some t => Some (MkServerKey t blob) | None => None end.

(** ** Errors *)

Inductive Origin := App | User | System.
Record RecordedKey := MkRecorded {
  r_type : bytes; r_blob : bytes; r_line : nat; r_file : option bytes; r_origin : option Origin }.
Definition pinned_record (k : ServerKey) : RecordedKey := MkRecorded (sk_type k) (sk_blob k) 0 None None.

Inductive TunnelError :=
| MalformedKnownHosts (file : bytes) (line : nat)
| KnownHostsUnreadable (path : bytes)
| MalformedKeyBlob
| HostKeyStoreUnsafe (path : bytes) (reason : string)
| TunnelIo
| TunnelUsage (message : string)
| HostKeyUnknown (host : bytes) (port : Z) (path : bytes) (key : ServerKey)
| HostKeyMismatch (host : bytes) (port : Z) (path : bytes) (key : ServerKey) (recorded : list RecordedKey)
| HostKeyCertificateExpected (host : bytes) (port : Z) (key : ServerKey) (path : bytes)
| HostKeyPinMismatch (host : bytes) (port : Z) (key : ServerKey) (presented pinned : bytes)
| HostKeyRecordFailed (host : bytes) (port : Z) (key : ServerKey) (path : bytes) (reason : TunnelError)
| HostKeyRevoked (host : bytes) (port : Z) (path : bytes) (line : nat)
| HostKeyNotVerified
| HostCertificateUnsupported (host : bytes) (port : Z) (fingerprint : bytes).

(** Base64 with padding and without, HMAC-SHA1 of a text under a key, SHA-256. *)
Class HostCrypto := {
  decode : bytes -> option bytes; decode_no_pad : bytes -> option bytes;
  encode : bytes -> bytes; encode_no_pad : bytes -> bytes;
  hmac_sha1 : bytes -> bytes -> bytes; sha256 : bytes -> bytes }.
(** What the file system answers, by path, and the user the process runs as. *)
Class HostDisk := {
  can_open : bytes -> bool; can_append : bytes -> bool; can_create : bytes -> bool;
  can_read : bytes -> bool; can_write : bytes -> bool;
  written : bytes -> nat; euid : Z }.

Section Lines.
Context `{HostCrypto}.

Definition fingerprint (blob : bytes) : bytes := B "SHA256:" ++ encode_no_pad (sha256 blob).
Definition known_hosts_line (k : ServerKey) (host : bytes) (port : Z) : bytes :=
  host_spelling host port ++ [SP] ++ sk_type k ++ [SP] ++ encode (sk_blob k).

Definition decode_base64 (field : bytes) : option bytes :=
  match decode field with Some b => Some b | None => decode_no_pad field end.

(** ** One line *)

Inductive Marker := CertAuthority | MRevoked.
Record HostEntry := MkHostEntry {
  he_marker : option Marker; he_patterns : bytes; he_type : bytes; he_blob : bytes }.

(** What the rest of a line is, once its marker is read. *)
Definition parse_key (marker : option Marker) (fields : list bytes) : option HostEntry :=
  match fields with
  | patterns :: token :: body :: _ =>
      match decode_base64 body with
      | None => None
      | Some blob =>
          match key_type_of blob with
          | Some key_type =>
              if bytes_eqb key_type token then Some (MkHostEntry marker patterns key_type blob) else None
          | None => None
          end
      end
  | _ => None
  end.
(** [Entry::parse]: [inl tt] when the line is malformed, [inr None] for a blank or a comment. *)
Definition parse_line (raw : bytes) : unit + option HostEntry :=
  let raw := trim raw in
  match raw with
  | [] => inr None
  | _ =>
      if starts_with raw [HASH] then inr None
      else
        let entry := match split_whitespace raw with
                     | first :: rest =>
                         if bytes_eqb first (B "@cert-authority") then parse_key (Some CertAuthority) rest
                         else if bytes_eqb first (B "@revoked") then parse_key (Some MRevoked) rest
                         else if starts_with first [AT] then None
                         else parse_key None (first :: rest)
                     | [] => None
                     end in
        match entry with Some e => inr (Some e) | None => inl tt end
  end.

Definition hashed_matches (hashed host : bytes) : bool :=
  match split_byte 124%Z hashed with
  | [salt; hash] =>
      match decode_base64 salt, decode_base64 hash with
      | Some salt, Some hash => bytes_eqb (hmac_sha1 salt host) hash
      | _, _ => false
      end
  | _ => false
  end.
(** Whether one pattern is negated, and whether it names the host. *)
Definition pattern_matches (pattern host : bytes) : bool * bool :=
  let '(negated, pattern) := match strip_prefix pattern [BANG] with
                             | Some rest => (true, rest)
                             | None => (false, pattern)
                             end in
  (negated, match strip_prefix pattern (B "|1|") with
            | Some hashed => hashed_matches hashed host
            | None => glob (lower pattern) host
            end).
Fixpoint patterns_loop (patterns : list bytes) (host : bytes) (positive : bool) : bool :=
  match patterns with
  | [] => positive
  | [] :: rest => patterns_loop rest host positive
  | pattern :: rest =>
      let '(negated, matched) := pattern_matches pattern host in
      if matched then if negated then false else patterns_loop rest host true
      else patterns_loop rest host positive
  end.
Definition patterns_match (patterns host : bytes) : bool :=
  patterns_loop (split_byte COMMA patterns) (lower host) false.

(** ** What the lines add up to *)

Record HostScan := MkHostScan {
  hs_spelling : bytes; hs_blob : bytes; hs_recorded : list RecordedKey; hs_matched : bool;
  hs_ca_covered : bool; hs_revoked : option (option bytes * nat) }.
Definition host_scan (host : bytes) (port : Z) (blob : bytes) : HostScan :=
  MkHostScan (host_spelling host port) blob [] false false None.

(** One line that names the host. *)
Definition add_entry (origin : option (bytes * Origin)) (line : nat) (e : HostEntry) (s : HostScan) : HostScan :=
  let '(MkHostScan spelling blob recorded matched ca revoked) := s in
  match he_marker e with
  | Some CertAuthority => MkHostScan spelling blob recorded matched true revoked
  | Some MRevoked =>
      if bytes_eqb (he_blob e) blob
      then MkHostScan spelling blob recorded matched ca
             (match revoked with None => Some (fst <$> origin, line) | r => r end)
      else s
  | None =>
      if bytes_eqb (he_blob e) blob then MkHostScan spelling blob recorded true ca revoked
      else MkHostScan spelling blob
             (recorded ++ [MkRecorded (he_type e) (he_blob e) line (fst <$> origin) (snd <$> origin)])
             matched ca revoked
  end.
Fixpoint add_lines (source : bytes) (origin : option (bytes * Origin)) (line : nat) (raws : list bytes)
  (s : HostScan) : TunnelError + HostScan :=
  match raws with
  | [] => inr s
  | raw :: raws =>
      match parse_line raw with
      | inl _ => inl (MalformedKnownHosts source line)
      | inr None => add_lines source origin (S line) raws s
      | inr (Some e) =>
          add_lines source origin (S line) raws
            (if patterns_match (he_patterns e) (hs_spelling s) then add_entry origin line e s else s)
      end
  end.
Definition add_text (text source : bytes) (origin : option (bytes * Origin)) (s : HostScan)
  : TunnelError + HostScan := add_lines source origin 1 (lines text) s.

Inductive HostKeyVerdict :=
| VMatched
| VUnknown (fingerprint : bytes) (covered_by_certificate_authority : bool)
| VMismatch (recorded : list RecordedKey)
| VRevoked (line : nat) (file : option bytes).
Definition finish_scan (s : HostScan) : HostKeyVerdict :=
  match hs_revoked s with
  | Some (file, line) => VRevoked line file
  | None =>
      if hs_matched s then VMatched
      else match hs_recorded s with
           | [] => VUnknown (fingerprint (hs_blob s)) (hs_ca_covered s)
           | recorded => VMismatch recorded
           end
  end.
Definition check_text (text source host : bytes) (port : Z) (blob : bytes) : TunnelError + HostKeyVerdict :=
  match add_text text source None (host_scan host port blob) with
  | inl e => inl e
  | inr s => inr (finish_scan s)
  end.

(** ** Files *)

(** [n_text]: what reading the file gives, through the link when it is one. *)
Record Node := MkNode { n_symlink : bool; n_regular : bool; n_uid : Z; n_mode : Z; n_text : bytes }.
Abbreviation Store := (gmap bytes Node).
Context `{HostDisk}.

Record StoreFile := MkStoreFile { sf_path : bytes; sf_origin : Origin }.

(** The checks on the open descriptor. *)
Definition safe_node (path : bytes) (n : Node) : TunnelError + unit :=
  if negb (n_regular n) then inl (HostKeyStoreUnsafe path "is not a regular file")
  else if negb (n_uid n =? euid)%Z then inl (HostKeyStoreUnsafe path "is owned by another user")
  else if negb (Z.land (n_mode n) 18 =? 0)%Z then inl (HostKeyStoreUnsafe path "is writable by group or others")
  else inr tt.
Definition open_app_store (st : Store) (path : bytes) (create : bool) : TunnelError + option (Node * Store) :=
  let checked n st := match safe_node path n with inl e => inl e | inr _ => inr (Some (n, st)) end in
  match st !! path with
  | Some n =>
      if n_symlink n then inl (HostKeyStoreUnsafe path "is a symbolic link")
      else if can_open path && (negb create || can_append path) then checked n st
      else inl (if create then TunnelIo else KnownHostsUnreadable path)
  | None =>
      if create then
        if can_open path && can_create path then
          let n := MkNode false true euid 384 [] in checked n (<[path := n]> st)
        else inl TunnelIo
      else inr None
  end.
Definition read_store (st : Store) (f : StoreFile) : TunnelError + bytes :=
  match sf_origin f with
  | App =>
      match open_app_store st (sf_path f) false with
      | inl e => inl e
      | inr None => inr []
      | inr (Some (n, _)) =>
          if can_read (sf_path f) then inr (n_text n) else inl (KnownHostsUnreadable (sf_path f))
      end
  | _ =>
      match st !! sf_path f with
      | None => inr []
      | Some n =>
          if can_open (sf_path f) && can_read (sf_path f) then inr (n_text n)
          else inl (KnownHostsUnreadable (sf_path f))
      end
  end.

Fixpoint add_files (st : Store) (files : list StoreFile) (s : HostScan) : TunnelError + HostScan :=
  match files with
  | [] => inr s
  | f :: files =>
      match read_store st f with
      | inl e => inl e
      | inr text =>
          match add_text text (sf_path f) (Some (sf_path f, sf_origin f)) s with
          | inl e => inl e
          | inr s => add_files st files s
          end
      end
  end.
Definition check_all (st : Store) (files : list StoreFile) (host : bytes) (port : Z) (blob : bytes)
  : TunnelError + HostKeyVerdict :=
  match add_files st files (host_scan host port blob) with
  | inl e => inl e
  | inr s => inr (finish_scan s)
  end.

(** The key types on record for a host, in order, without repeats. *)
Fixpoint types_of_lines (source spelling : bytes) (line : nat) (raws : list bytes) (types : list bytes)
  : TunnelError + list bytes :=
  match raws with
  | [] => inr types
  | raw :: raws =>
      match parse_line raw with
      | inl _ => inl (MalformedKnownHosts source line)
      | inr None => types_of_lines source spelling (S line) raws types
      | inr (Some e) =>
          types_of_lines source spelling (S line) raws
            (if match he_marker e with None => true | Some _ => false end
                && patterns_match (he_patterns e) spelling
                && negb (existsb (bytes_eqb (he_type e)) types)
             then types ++ [he_type e] else types)
      end
  end.
Fixpoint types_of_files (st : Store) (spelling : bytes) (files : list StoreFile) (types : list bytes)
  : TunnelError + list bytes :=
  match files with
  | [] => inr types
  | f :: files =>
      match read_store st f with
      | inl e => inl e
      | inr text =>
          match types_of_lines (sf_path f) spelling 1 (lines text) types with
          | inl e => inl e
          | inr types => types_of_files st spelling files types
          end
      end
  end.
Definition recorded_key_types (st : Store) (files : list StoreFile) (host : bytes) (port : Z)
  : TunnelError + list bytes := types_of_files st (host_spelling host port) files [].

(** ** Recording *)

(** [now]: the seconds since the epoch. The parent directory is made when it can be. *)
Definition record_line (text : bytes) (k : ServerKey) (host : bytes) (port : Z) (now : Z) : bytes :=
  (if match text with [] => false | _ => negb (ends_with text [LF]) end then [LF] else [])
  ++ known_hosts_line k host port ++ B " # accepted by QueryHive " ++ utc_iso8601 now ++ [LF].
Definition add_to (n : Node) (text : bytes) : Node :=
  MkNode (n_symlink n) (n_regular n) (n_uid n) (n_mode n) (n_text n ++ text).
Definition append_if_absent (st : Store) (path host : bytes) (port : Z) (blob : bytes) (now : Z)
  : (TunnelError + bool) * Store :=
  if negb (is_valid_host host)
  then (inl (TunnelUsage "the host name has characters that cannot be written to known_hosts"), st)
  else match server_key blob with
  | None => (inl MalformedKeyBlob, st)
  | Some k =>
      match open_app_store st path true with
      | inl e => (inl e, st)
      | inr None => (inl TunnelIo, st)
      | inr (Some (n, st)) =>
          if negb (can_read path) then (inl TunnelIo, st)
          else
            let host := lower host in
            match add_text (n_text n) path (Some (path, App)) (host_scan host port blob) with
            | inl e => (inl e, st)
            | inr s =>
                if hs_matched s then (inr false, st)
                else
                  let line := record_line (n_text n) k host port now in
                  if can_write path then (inr true, <[path := add_to n line]> st)
                  else (inl TunnelIo, <[path := add_to n (take (written path) line)]> st)
            end
      end
  end.

(** [append], for a file that need not be the app's. *)
Definition append (st : Store) (path host : bytes) (port : Z) (blob : bytes)
  : (TunnelError + unit) * Store :=
  match server_key blob with
  | None => (inl MalformedKeyBlob, st)
  | Some k =>
      match match st !! path with
            | Some n => if can_open path && can_append path then Some n else None
            | None => if can_open path && can_create path then Some (MkNode false true euid 384 []) else None
            end with
      | None => (inl TunnelIo, st)
      | Some n =>
          if match n_text n with [] => false | _ => negb (can_read path) end then (inl TunnelIo, <[path := n]> st)
          else
            let glue := if match n_text n with [] => false | _ => negb (ends_with (n_text n) [LF]) end
                        then [LF] else [] in
            let line := glue ++ known_hosts_line k host port ++ [LF] in
            if can_write path then (inr tt, <[path := add_to n line]> st)
            else (inl TunnelIo, <[path := add_to n (take (written path) line)]> st)
      end
  end.

(** ** The check of the key a server presents, [crates/qh-tunnel/src/tunnel.rs] *)

Inductive HostKeyPolicy :=
| Strict | TrustNew (pinned : ServerKey) | TrustFingerprint (pin : bytes).
Record BastionConfig := MkBastion {
  b_host : bytes; b_port : Z; b_known_hosts : list bytes; b_record_to : option bytes;
  b_policy : HostKeyPolicy }.
Definition SYSTEM_KNOWN_HOSTS : bytes := B "/etc/ssh/ssh_known_hosts".

Definition store_files (c : BastionConfig) : list StoreFile :=
  ((fun path => MkStoreFile path (if bytes_eqb path SYSTEM_KNOWN_HOSTS then System else User)) <$> b_known_hosts c)
  ++ match b_record_to c with Some path => [MkStoreFile path App] | None => [] end.
Definition fallback_path (c : BastionConfig) : bytes :=
  match b_record_to c with Some path => path | None => default [] (head (b_known_hosts c)) end.

Definition is_fingerprint (text : bytes) : bool :=
  match strip_prefix text (B "SHA256:") with
  | Some rest =>
      (length rest =? 43) && forallb (fun b => is_ascii_alphanumeric b || (b =b 43) || (b =b SLASH)) rest
  | None => false
  end.
(** What [Tunnel::open] refuses before the network is touched. *)
Definition refused_before_connecting (c : BastionConfig) : option TunnelError :=
  match b_policy c with
  | TrustFingerprint pin =>
      if negb (is_fingerprint pin)
      then Some (TunnelUsage "the host key to trust must be a SHA256:<43 base64 characters> fingerprint")
      else match b_record_to c with
           | None => Some (TunnelUsage "a host key cannot be trusted without a file to record it in")
           | Some _ => None
           end
  | _ => None
  end.

Definition decide_unknown (c : BastionConfig) (key : ServerKey) (now : Z) (st : Store)
  : (TunnelError + unit) * Store :=
  match b_policy c with
  | TrustNew pinned =>
      if bytes_eqb (sk_blob pinned) (sk_blob key) then (inr tt, st)
      else (inl (HostKeyMismatch (b_host c) (b_port c) (fallback_path c) key [pinned_record pinned]), st)
  | Strict => (inl (HostKeyUnknown (b_host c) (b_port c) (fallback_path c) key), st)
  | TrustFingerprint pin =>
      let presented := fingerprint (sk_blob key) in
      if negb (bytes_eqb pin presented)
      then (inl (HostKeyPinMismatch (b_host c) (b_port c) key presented pin), st)
      else match b_record_to c with
           | None => (inl (TunnelUsage "a host key cannot be trusted without a file to record it in"), st)
           | Some path =>
               match append_if_absent st path (b_host c) (b_port c) (sk_blob key) now with
               | (inr _, st) => (inr tt, st)
               | (inl (HostKeyStoreUnsafe p r), st) => (inl (HostKeyStoreUnsafe p r), st)
               | (inl other, st) => (inl (HostKeyRecordFailed (b_host c) (b_port c) key path other), st)
               end
           end
  end.

(** The decision, the state of the connection's [verified] flag, and the files. *)
Definition decide_key (c : BastionConfig) (abandoned : bool) (key : ServerKey) (now : Z) (verified : bool)
  (st : Store) : (TunnelError + bool) * bool * Store :=
  if abandoned then (inl HostKeyNotVerified, verified, st)
  else match check_all st (store_files c) (b_host c) (b_port c) (sk_blob key) with
  | inl e => (inl e, verified, st)
  | inr VMatched => (inr true, true, st)
  | inr (VRevoked line file) =>
      (inl (HostKeyRevoked (b_host c) (b_port c) (default (fallback_path c) file) line), verified, st)
  | inr (VMismatch recorded) =>
      let path := match recorded with
                  | r :: _ => default (fallback_path c) (r_file r)
                  | [] => fallback_path c
                  end in
      (inl (HostKeyMismatch (b_host c) (b_port c) path key recorded), verified, st)
  | inr (VUnknown _ true) =>
      (inl (HostKeyCertificateExpected (b_host c) (b_port c) key (fallback_path c)), verified, st)
  | inr (VUnknown _ false) =>
      match decide_unknown c key now st with
      | (inl e, st) => (inl e, verified, st)
      | (inr _, st) => (inr true, true, st)
      end
  end.

(** What the server presents in the key exchange. *)
Inductive Presented := PublicKey (blob : bytes) | Certificate (blob : bytes).
Definition check_server_key (c : BastionConfig) (abandoned : bool) (p : Presented) (now : Z)
  (verified : bool) (st : Store) : (TunnelError + bool) * bool * Store :=
  match p with
  | PublicKey blob =>
      match server_key blob with
      | None => (inl MalformedKeyBlob, verified, st)
      | Some key => decide_key c abandoned key now verified st
      end
  | Certificate blob =>
      (inl (HostCertificateUnsupported (b_host c) (b_port c) (fingerprint blob)), verified, st)
  end.
Definition require_verified (verified : bool) : TunnelError + unit :=
  if verified then inr tt else inl HostKeyNotVerified.
End Lines.
