(* ===== verification/KnownHostsSpec.v ===== *)
(** * KnownHostsSpec: when a host key is accepted, for [KnownHosts]. *)
From stdpp Require Import gmap.
From S2P Require Import Prelude Bytes Text Env Glob KnownHosts.

Section Spec.
Context `{HostCrypto} `{HostDisk}.
Abbreviation Store := (gmap bytes Node).

(** ** The lines of a file *)

(** The entries of a text, with their lines; [None] when one is malformed. *)
Fixpoint parsed (line : nat) (raws : list bytes) : option (list (nat * HostEntry)) :=
  match raws with
  | [] => Some []
  | raw :: raws =>
      match parse_line raw, parsed (S line) raws with
      | inr None, Some l => Some l
      | inr (Some e), Some l => Some ((line, e) :: l)
      | _, _ => None
      end
  end.

Lemma parsed_app line a b :
  parsed line (a ++ b) = match parsed line a, parsed (line + length a) b with
                         | Some x, Some y => Some (x ++ y)
                         | _, _ => None
                         end.
Proof.
  revert line; induction a as [|r a IH]; intros line; cbn [app parsed length].
  - rewrite Nat.add_0_r. by destruct (parsed line b).
  - rewrite IH. replace (line + S (length a)) with (S line + length a) by lia.
    destruct (parse_line r) as [|[e|]]; [done|..]; destruct (parsed (S line) a), (parsed (S line + length a) b); done.
Qed.

(** What the entries that name a host add to the scan. *)
Definition plain_is (blob : bytes) (e : HostEntry) : bool :=
  match he_marker e with None => bytes_eqb (he_blob e) blob | Some _ => false end.
Definition plain_other (blob : bytes) (e : HostEntry) : bool :=
  match he_marker e with None => negb (bytes_eqb (he_blob e) blob) | Some _ => false end.
Definition revokes (blob : bytes) (e : HostEntry) : bool :=
  match he_marker e with Some MRevoked => bytes_eqb (he_blob e) blob | _ => false end.
Definition covers (e : HostEntry) : bool := match he_marker e with Some CertAuthority => true | _ => false end.
Definition some_revoked (s : HostScan) : bool := match hs_revoked s with Some _ => true | None => false end.
Definition some_recorded (s : HostScan) : bool := match hs_recorded s with [] => false | _ => true end.
Record scanned (es : list HostEntry) (s s' : HostScan) : Prop := {
  sc_spelling : hs_spelling s' = hs_spelling s;
  sc_blob : hs_blob s' = hs_blob s;
  sc_matched : hs_matched s' = hs_matched s || existsb (plain_is (hs_blob s)) es;
  sc_ca : hs_ca_covered s' = hs_ca_covered s || existsb covers es;
  sc_revoked : some_revoked s' = some_revoked s || existsb (revokes (hs_blob s)) es;
  sc_recorded : some_recorded s' = some_recorded s || existsb (plain_other (hs_blob s)) es;
}.

Lemma scanned_nil s : scanned [] s s.
Proof. split; cbn; by rewrite ?orb_false_r. Qed.
Lemma scanned_app a b s s' s'' : scanned a s s' -> scanned b s' s'' -> scanned (a ++ b) s s''.
Proof.
  intros [A1 A2 A3 A4 A5 A6] [B1 B2 B3 B4 B5 B6].
  split; [congruence|congruence|..]; rewrite existsb_app, ?B3, ?B4, ?B5, ?B6, ?A2, ?A3, ?A4, ?A5, ?A6;
    by rewrite orb_assoc.
Qed.

Lemma add_entry_scanned origin line e s : scanned [e] s (add_entry origin line e s).
Proof.
  destruct s as [sp blob rec m ca rev]. unfold add_entry, some_revoked, some_recorded.
  destruct (he_marker e) as [[]|] eqn:Em; [|destruct (bytes_eqb (he_blob e) blob) eqn:Eb..];
    split; unfold plain_is, plain_other, revokes, covers, some_revoked, some_recorded; cbn; rewrite ?Em, ?Eb; cbn;
    rewrite ?orb_false_r, ?orb_true_r; try done.
  - by destruct rev.
  - by destruct rec.
Qed.

(** The entries of a text that name the host. *)
Definition named (spelling : bytes) (l : list (nat * HostEntry)) : list HostEntry :=
  List.filter (fun e => patterns_match (he_patterns e) spelling) (snd <$> l).

Lemma named_app spelling a b : named spelling (a ++ b) = named spelling a ++ named spelling b.
Proof. unfold named. by rewrite fmap_app, List.filter_app. Qed.

Lemma add_lines_spec source origin raws : forall line s,
  match parsed line raws with
  | None => exists n, add_lines source origin line raws s = inl (MalformedKnownHosts source n)
  | Some l => exists s', add_lines source origin line raws s = inr s' /\ scanned (named (hs_spelling s) l) s s'
  end.
Proof.
  induction raws as [|raw raws IH]; intros line s; cbn [parsed add_lines].
  { exists s. split; [done|apply scanned_nil]. }
  destruct (parse_line raw) as [u|[e|]]; [by exists line| |].
  - set (s1 := if patterns_match (he_patterns e) (hs_spelling s) then add_entry origin line e s else s).
    assert (scanned (if patterns_match (he_patterns e) (hs_spelling s) then [e] else []) s s1) as H1.
    { subst s1. destruct (patterns_match _ _); [apply add_entry_scanned|apply scanned_nil]. }
    specialize (IH (S line) s1). rewrite (sc_spelling _ _ _ H1) in IH.
    destruct (parsed (S line) raws) as [l|]; [|done]. destruct IH as (s' & E & Hs). exists s'. split; [done|].
    pose proof (scanned_app _ _ _ _ _ H1 Hs) as Ha. unfold named. cbn [fmap list_fmap List.filter snd].
    destruct (patterns_match _ _); done.
  - specialize (IH (S line) s). by destruct (parsed (S line) raws).
Qed.

(** The entries of the files that name the host, in order; [None] when a file cannot be read or
    trusted, or a line is malformed. *)
Fixpoint entries_of (st : Store) (files : list StoreFile) : option (list (nat * HostEntry)) :=
  match files with
  | [] => Some []
  | f :: files =>
      match read_store st f with
      | inl _ => None
      | inr text =>
          match parsed 1 (lines text), entries_of st files with
          | Some l, Some ls => Some (l ++ ls)
          | _, _ => None
          end
      end
  end.

Lemma add_files_spec st files : forall s,
  match entries_of st files with
  | None => exists e, add_files st files s = inl e
  | Some l => exists s', add_files st files s = inr s' /\ scanned (named (hs_spelling s) l) s s'
  end.
Proof.
  induction files as [|f files IH]; intros s; cbn [entries_of add_files].
  { exists s. split; [done|apply scanned_nil]. }
  destruct (read_store st f) as [e|text]; [by exists e|].
  pose proof (add_lines_spec (sf_path f) (Some (sf_path f, sf_origin f)) (lines text) 1 s) as Hl.
  unfold add_text. destruct (parsed 1 (lines text)) as [l|].
  - destruct Hl as (s1 & -> & H1). specialize (IH s1). rewrite (sc_spelling _ _ _ H1) in IH.
    destruct (entries_of st files) as [ls|]; [|done]. destruct IH as (s' & E & Hs). exists s'.
    split; [done|]. rewrite named_app. by eapply scanned_app.
  - destruct Hl as [n ->]. by exists (MalformedKnownHosts (sf_path f) n).
Qed.

(** ** The verdict *)

(** What the files say of a host: some entry that names it, in any file, on any line. *)
Definition says (st : Store) (files : list StoreFile) (host : bytes) (port : Z) (P : HostEntry -> bool) : Prop :=
  exists f text l n e, f ∈ files /\ read_store st f = inr text /\ parsed 1 (lines text) = Some l
    /\ (n, e) ∈ l /\ patterns_match (he_patterns e) (host_spelling host port) = true /\ P e = true.
(** Every file can be read and trusted and every line of it is one. *)
Definition readable (st : Store) (files : list StoreFile) : Prop :=
  forall f, f ∈ files -> exists text l, read_store st f = inr text /\ parsed 1 (lines text) = Some l.

Lemma entries_of_readable st files : readable st files <-> is_Some (entries_of st files).
Proof.
  induction files as [|f files IH]; cbn.
  - split; [eauto|]. intros _ f Hf. by apply elem_of_nil in Hf.
  - split.
    + intros Hr. destruct (Hr f) as (text & l & -> & ->); [left|].
      destruct (proj1 IH) as [ls ->]; [|eauto]. intros g Hg. apply Hr. by right.
    + intros [ls E]. destruct (read_store st f) as [|text] eqn:Er; [done|].
      destruct (parsed 1 (lines text)) as [l|] eqn:Ep; [|done].
      destruct (entries_of st files) as [ls'|] eqn:Ee; [|done].
      intros g [->|Hg]%elem_of_cons; [eauto|]. apply IH; [eauto|done].
Qed.

Lemma entries_of_says st files ls host port P : entries_of st files = Some ls ->
  existsb P (named (host_spelling host port) ls) = true <-> says st files host port P.
Proof.
  revert ls; induction files as [|f files IH]; intros ls; cbn.
  - intros [= <-]. cbn. split; [done|]. intros (f & ? & ? & ? & ? & Hf & _). by apply elem_of_nil in Hf.
  - destruct (read_store st f) as [|text] eqn:Er; [done|].
    destruct (parsed 1 (lines text)) as [l|] eqn:Ep; [|done].
    destruct (entries_of st files) as [ls'|] eqn:Ee; [|done]. intros [= <-].
    rewrite named_app, existsb_app, orb_true_iff, (IH ls' eq_refl). split.
    + intros [He|(g & text' & l' & n & e & Hg & Hrest)].
      * apply existsb_exists in He as (e & He & HP). unfold named in He. apply filter_In in He as [He Hm].
        apply list_elem_of_In, list_elem_of_fmap in He as ([n e'] & -> & Hin).
        exists f, text, l, n, e'. split_and!; try done. left.
      * exists g, text', l', n, e. split; [by right|done].
    + intros (g & text' & l' & n & e & Hg & Hr & Hp & Hin & Hm & HP).
      apply elem_of_cons in Hg as [->|Hg]; [left|right].
      * assert (text' = text) as -> by congruence. assert (l' = l) as -> by congruence.
        apply existsb_exists. exists e. split; [|done]. unfold named. apply filter_In.
        split; [|done]. apply list_elem_of_In, list_elem_of_fmap. exists (n, e); split; [done|exact Hin].
      * by exists g, text', l', n, e.
Qed.

(** What the verdict is, from the two kinds of line that matter most downwards. *)
Definition verdict_ok (st : Store) (files : list StoreFile) (host : bytes) (port : Z) (blob : bytes)
  (v : HostKeyVerdict) : Prop :=
  let on P := says st files host port P in
  match v with
  | VRevoked _ _ => on (revokes blob)
  | VMatched => on (plain_is blob) /\ ~ on (revokes blob)
  | VMismatch _ => on (plain_other blob) /\ ~ on (plain_is blob) /\ ~ on (revokes blob)
  | VUnknown fp ca =>
      fp = fingerprint blob /\ (ca = true <-> on covers)
      /\ ~ on (plain_other blob) /\ ~ on (plain_is blob) /\ ~ on (revokes blob)
  end.

Lemma check_all_ok st files host port blob v :
  check_all st files host port blob = inr v <->
  readable st files /\ exists s, add_files st files (host_scan host port blob) = inr s /\ v = finish_scan s.
Proof.
  unfold check_all. rewrite entries_of_readable. pose proof (add_files_spec st files (host_scan host port blob)) as Hs.
  destruct (entries_of st files) as [ls|].
  - destruct Hs as (s & -> & _). split.
    + intros [= <-]. split; [by eexists|by exists s].
    + intros (_ & s' & [= <-] & ->). done.
  - destruct Hs as [e ->]. split; [done|]. intros [[? ?] _]. done.
Qed.

Lemma verdict_of_check (st : Store) files host port blob v :
  check_all st files host port blob = inr v -> readable st files /\ verdict_ok st files host port blob v.
Proof.
  intros (Hr & s & Hs & ->)%check_all_ok. split; [done|].
  pose proof (add_files_spec st files (host_scan host port blob)) as Ha. rewrite Hs in Ha.
  apply entries_of_readable in Hr as [ls El]. rewrite El in Ha. destruct Ha as (s' & [= <-] & Hsc).
  assert (forall P, existsb P (named (host_spelling host port) ls) = true <-> says st files host port P) as Hx
    by (intros P; by apply entries_of_says).
  destruct Hsc as [_ Hb Hm Hc Hv Hd]. cbn [host_scan hs_spelling hs_blob hs_matched hs_ca_covered] in *.
  unfold some_revoked, some_recorded in *. cbn in Hv, Hd. unfold finish_scan.
  assert (forall P, existsb P (named (host_spelling host port) ls) = false -> ~ says st files host port P) as Hn
    by (intros P E; rewrite <- Hx, E; done).
  destruct (hs_revoked s) as [[file line]|]; [by apply Hx|]. symmetry in Hv. apply Hn in Hv.
  destruct (hs_matched s); [symmetry in Hm; by apply Hx in Hm|]. symmetry in Hm. apply Hn in Hm.
  destruct (hs_recorded s); symmetry in Hd; [apply Hn in Hd|apply Hx in Hd; done].
  split; [by rewrite Hb|]. split; [rewrite Hc; apply Hx|done].
Qed.

(** The verdict on a host key is what the lines of all files say of it, whatever their order: a
    line that revokes the key is a refusal before any that records it; the key is accepted only
    when a line that names the host records it; a host with other keys on record is a mismatch;
    one with none is unknown. There is a verdict only when every file can be read and trusted
    and every line of it is one. *)
Theorem verdict_is_what_the_files_say (st : Store) (files : list StoreFile) (host : bytes) (port : Z)
  (blob : bytes) (v : HostKeyVerdict) :
  check_all st files host port blob = inr v ->
  readable st files /\ verdict_ok st files host port blob v.
Proof. apply verdict_of_check. Qed.

(** ** Recording a key *)

(** What base64 is for the lines that are written: it reads back, in visible characters. *)
Class HostCryptoLaws : Prop := {
  decode_encode b : Forall (fun x => 0 <= x < 256)%Z b -> decode (encode b) = Some b;
  encode_graphic b : Forall (fun x => 0 <= x < 256)%Z b -> Forall (fun x => 33 <= x <= 126)%Z (encode b);
  encode_nonempty b : b <> [] -> encode b <> [];
}.
Context `{HostCryptoLaws}.

Lemma parse_line_strip_cr raw : parse_line (strip_cr raw) = parse_line raw.
Proof. unfold parse_line. by rewrite trim_strip_cr. Qed.

Lemma parsed_strip_cr line raws : parsed line (strip_cr <$> raws) = parsed line raws.
Proof.
  revert line. induction raws as [|r raws IH]; intros line; [done|]. cbn [fmap list_fmap parsed].
  by rewrite parse_line_strip_cr, IH.
Qed.

(** An empty piece after the last line says nothing. *)
Lemma parsed_lines_of line pieces : parsed line (lines_of pieces) = parsed line pieces.
Proof.
  revert line. induction pieces as [|p [|q ps] IH]; intros line; [done|..].
  - destruct p; [|done]. cbn. done.
  - change (lines_of (p :: q :: ps)) with (strip_cr p :: lines_of (q :: ps)).
    cbn [parsed]. rewrite parse_line_strip_cr, IH. done.
Qed.

(** Appending a line, with the missing line feed before it, adds what the line says and changes
    nothing else. *)
Definition glue (text : bytes) : bytes :=
  if match text with [] => false | _ => negb (ends_with text [LF]) end then [LF] else [].

Lemma ends_with_lf text : ends_with text [LF] = true -> exists a, text = a ++ [LF].
Proof.
  unfold ends_with. intros (r & E)%starts_with_true. exists (rev r).
  apply (f_equal (@rev Z)) in E. rewrite rev_involutive in E. exact E.
Qed.

Lemma parsed_appended text w : Forall (fun b => b <> LF) w ->
  exists k, parsed 1 (lines (text ++ glue text ++ w ++ [LF]))
            = match parsed 1 (lines text), parsed k [w] with Some x, Some y => Some (x ++ y) | _, _ => None end.
Proof.
  intros Hw. unfold glue. destruct (decide (text = [])) as [->|Hne].
  { exists 1. cbn [app]. rewrite lines_one by done. cbn [lines split_byte lines_of parsed].
    rewrite parse_line_strip_cr. by destruct (parse_line w) as [|[]]. }
  assert (match text with [] => false | _ => negb (ends_with text [LF]) end = negb (ends_with text [LF])) as ->
    by (by destruct text).
  destruct (ends_with text [LF]) eqn:E; cbn [negb app].
  - apply ends_with_lf in E as [a ->]. rewrite <- app_assoc. cbn [app].
    exists (1 + length (strip_cr <$> split_byte LF a)).
    rewrite lines_app, parsed_app, lines_one by done.
    assert (lines (a ++ [LF]) = strip_cr <$> split_byte LF a) as ->.
    { rewrite lines_app. apply app_nil_r. }
    cbn [parsed]. by rewrite parse_line_strip_cr.
  - exists (1 + length (strip_cr <$> split_byte LF text)).
    rewrite lines_app, parsed_app, lines_one by done.
    unfold lines at 1. rewrite parsed_lines_of, parsed_strip_cr. cbn [parsed].
    by rewrite parse_line_strip_cr.
Qed.

(** Bytes of a host's spelling: never one that a list of patterns gives a meaning. *)
Definition plain_host_byte (b : Z) : Prop := (48 <= b <= 58 \/ 65 <= b <= 90 \/ 97 <= b <= 122 \/ b = 45 \/ b = 46 \/ b = 95 \/ b = 91 \/ b = 93)%Z.

Lemma valid_host_bytes host : is_valid_host host = true -> Forall plain_host_byte host /\ host <> [].
Proof.
  unfold is_valid_host. intros Hv. split_bool. split; [|intros ->; cbn in *; lia].
  apply Forall_forall. intros b Hb. match goal with H : forallb _ _ = true |- _ => rewrite forallb_forall in H;
    specialize (H b (proj1 (list_elem_of_In _ _) Hb)) end.
  unfold plain_host_byte. byte_unfold. repeat rewrite orb_true_iff in *. rewrite !andb_true_iff, !Z.eqb_eq, !Z.leb_le in *.
  lia.
Qed.

Lemma digit_plain b : is_ascii_digit b = true -> plain_host_byte b.
Proof. unfold plain_host_byte. byte_unfold. lia. Qed.

Lemma spelling_plain host port : Forall plain_host_byte host -> host <> [] ->
  Forall plain_host_byte (host_spelling host port) /\ host_spelling host port <> [].
Proof.
  intros Hh Hne. unfold host_spelling. destruct (port =? 22)%Z; [done|]. split; [|done].
  change (B "[") with [91%Z]. change (B "]:") with [93; 58]%Z. rewrite !Forall_app.
  split; [|split; [done|split]].
  - apply Forall_singleton. unfold plain_host_byte. lia.
  - apply Forall_cons. split; [|apply Forall_singleton]; unfold plain_host_byte; lia.
  - eapply Forall_impl; [apply decimal_digits|]. intros b. apply digit_plain.
Qed.

Lemma lower_plain s : Forall plain_host_byte s -> Forall plain_host_byte (lower s).
Proof.
  intros Hs. apply Forall_fmap. eapply Forall_impl; [exact Hs|]. intros b Hb.
  unfold plain_host_byte, compose, to_ascii_lowercase in *. byte_unfold. case_match; lia.
Qed.
Lemma lower_idem s : lower (lower s) = lower s.
Proof.
  unfold lower. rewrite <- list_fmap_compose. apply list_fmap_ext. intros i b _.
  unfold compose, to_ascii_lowercase. byte_unfold. repeat case_match; lia.
Qed.
Lemma lower_digits s : Forall (fun b => is_ascii_digit b = true) s -> lower s = s.
Proof.
  induction 1 as [|b s Hb _ IH]; [done|]. unfold lower in *. cbn. rewrite IH. f_equal.
  unfold to_ascii_lowercase. byte_unfold. case_match; lia.
Qed.
Lemma lower_spelling host port : lower (host_spelling host port) = host_spelling (lower host) port.
Proof.
  unfold host_spelling. destruct (port =? 22)%Z; [done|]. unfold lower at 1. rewrite !fmap_app.
  pose proof (lower_digits (decimal port) (decimal_digits port)) as Hd. unfold lower in Hd. rewrite Hd. done.
Qed.

Lemma globs_refl s : Forall plain_host_byte s -> globs s s.
Proof.
  induction 1 as [|b s Hb _ IH]; [constructor|]. apply gl_char; [|done]. unfold plain_host_byte in Hb. lia.
Qed.

Lemma plain_pattern s h : Forall plain_host_byte s -> pattern_matches s h = (false, glob (lower s) h).
Proof.
  intros Hs. unfold pattern_matches.
  assert (forall c r, (c = 33 \/ c = 124)%Z -> starts_with s (c :: r) = false) as Hno.
  { intros c r Hc. destruct Hs as [|b s Hb _]; [done|]. cbn. unfold plain_host_byte in Hb.
    by rewrite (proj2 (Z.eqb_neq c b)) by lia. }
  unfold strip_prefix. rewrite Hno by (by left).
  change (B "|1|") with [124; 49; 124]%Z. by rewrite Hno by (by right).
Qed.

Lemma patterns_one p h : p <> [] -> fst (pattern_matches p h) = false ->
  patterns_loop [p] h false = snd (pattern_matches p h).
Proof.
  intros Hp. destruct p as [|b p]; [done|]. cbn [patterns_loop].
  destruct (pattern_matches (b :: p) h) as [neg m]. cbn. intros ->. by destruct m.
Qed.

(** A host is named by its own spelling. *)
Lemma own_spelling_matches host port : Forall plain_host_byte host -> host <> [] ->
  patterns_match (host_spelling (lower host) port) (host_spelling host port) = true.
Proof.
  intros Hh Hne. destruct (spelling_plain (lower host) port) as [Hs Hn]; [by apply lower_plain|by destruct host|].
  unfold patterns_match. rewrite lower_spelling.
  rewrite split_byte_none by (eapply Forall_impl; [exact Hs|]; unfold plain_host_byte; lia).
  assert (lower (host_spelling (lower host) port) = host_spelling (lower host) port) as El
    by (by rewrite lower_spelling, lower_idem).
  rewrite patterns_one; rewrite ?plain_pattern by done; [|done|done]. cbn [snd]. rewrite El.
  apply glob_spec; [eapply Forall_impl; [exact Hs|]; unfold plain_host_byte; lia|by apply globs_refl].
Qed.

(** ** The line that is written *)

Lemma key_type_graphic blob t : key_type_of blob = Some t ->
  Forall (fun x => 33 <= x <= 126)%Z t /\ t <> [].
Proof.
  unfold key_type_of. repeat (case_match; try done). intros [= <-].
  match goal with E : negb (forallb _ _) = false |- _ => apply negb_false_iff in E; rewrite forallb_forall in E end.
  split; [|done]. apply Forall_forall. intros x Hx.
  match goal with E : forall y, In y _ -> _ |- _ => specialize (E x (proj1 (list_elem_of_In _ _) Hx)) end.
  unfold is_ascii_graphic in *. lia.
Qed.

Lemma plain_graphic b : plain_host_byte b -> (33 <= b <= 126)%Z.
Proof. unfold plain_host_byte. lia. Qed.

(** The record of a key, up to its line feed. *)
Definition record_text (k : ServerKey) (host : bytes) (port now : Z) : bytes :=
  known_hosts_line k host port ++ B " # accepted by QueryHive " ++ utc_iso8601 now.

Lemma utc_shape now : exists s, utc_iso8601 now = s ++ [90%Z] /\ Forall (fun b => b <> LF) s.
Proof.
  unfold utc_iso8601. destruct (utc_civil (now / 86400)) as [[y m] d].
  change (B "Z") with [90%Z]. rewrite !app_assoc. eexists. split; [reflexivity|].
  assert (forall x, Forall (fun b => is_ascii_digit b = true) x -> Forall (fun b => b <> LF) x) as Hd.
  { intros x Hx. eapply Forall_impl; [exact Hx|]. intros b. byte_unfold. lia. }
  assert (Forall (fun b => b <> LF) (decimal4 y)) as Hy.
  { unfold decimal4. apply Forall_app. split; [|apply Hd, decimal_digits].
    apply Forall_replicate. done. }
  rewrite !Forall_app. split_and!; try apply Hd, decimal2_digits; try exact Hy;
    apply Forall_singleton; vm_compute; discriminate.
Qed.

Lemma record_parses k host port now :
  Forall plain_host_byte host -> host <> [] -> Forall (fun x => 0 <= x < 256)%Z (sk_blob k) ->
  key_type_of (sk_blob k) = Some (sk_type k) -> sk_blob k <> [] ->
  parse_line (record_text k host port now)
  = inr (Some (MkHostEntry None (host_spelling host port) (sk_type k) (sk_blob k)))
  /\ Forall (fun b => b <> LF) (record_text k host port now).
Proof.
  intros Hh Hne Hb Hk Hbn. destruct (spelling_plain host port Hh Hne) as [Hs Hsn].
  destruct (key_type_graphic _ _ Hk) as [Ht Htn]. destruct (utc_shape now) as (u & Eu & Hu).
  assert (Forall (fun x => 33 <= x <= 126)%Z (host_spelling host port)) as Hsg
    by (eapply Forall_impl; [exact Hs|]; apply plain_graphic).
  pose proof (encode_graphic (sk_blob k) Hb) as He. pose proof (encode_nonempty (sk_blob k) Hbn) as Hen.
  assert (record_text k host port now
          = host_spelling host port ++ SP :: sk_type k ++ SP :: encode (sk_blob k)
              ++ SP :: B "# accepted by QueryHive " ++ utc_iso8601 now) as Er.
  { unfold record_text, known_hosts_line. rewrite <- !app_assoc. done. }
  split.
  - unfold parse_line.
    assert (exists b0 s0, record_text k host port now = b0 :: s0 ++ [90%Z] /\ plain_host_byte b0) as (b0 & s0 & E0 & Hb0).
    { rewrite Er, Eu. destruct (host_spelling host port) as [|b0 s0]; [done|]. apply Forall_cons in Hs as [Hb0 _].
      exists b0. eexists. split; [|done]. cbn [app]. f_equal. rewrite !app_assoc. cbn [app]. rewrite !app_comm_cons, !app_assoc. reflexivity. }
    assert (trim (record_text k host port now) = record_text k host port now) as ->.
    { rewrite E0. apply trim_graphic; [by apply plain_graphic|lia]. }
    assert (starts_with (record_text k host port now) [HASH] = false) as Hst.
    { rewrite E0. unfold plain_host_byte in Hb0. cbn [starts_with]. apply andb_false_iff. left. lia. }
    assert (exists rest, split_whitespace (record_text k host port now)
                         = host_spelling host port :: sk_type k :: encode (sk_blob k) :: rest) as [rest Hsp].
    { rewrite Er, !split_whitespace_word by done. by eexists. }
    assert (bytes_eqb (host_spelling host port) (B "@cert-authority") = false
            /\ bytes_eqb (host_spelling host port) (B "@revoked") = false
            /\ starts_with (host_spelling host port) [AT] = false) as (N1 & N2 & N3).
    { destruct (host_spelling host port) as [|b s]; [done|]. apply Forall_cons in Hs as [Hb1 _].
      assert (b <> AT) as Hat by (unfold plain_host_byte in Hb1; lia).
      split_and!; [apply not_true_iff_false; intros [= Eb]%bytes_eqb_eq; done..|].
      cbn [starts_with]. apply andb_false_iff. left. lia. }
    rewrite Hst, Hsp, N1, N2, N3. cbn [parse_key]. unfold decode_base64. rewrite decode_encode, Hk, bytes_eqb_refl by done.
    by rewrite E0.
  - rewrite Er, Eu. rewrite Forall_app, Forall_cons, Forall_app, Forall_cons, Forall_app, Forall_cons, !Forall_app.
    assert (forall x, Forall (fun b => 33 <= b <= 126)%Z x -> Forall (fun b => b <> LF) x) as Hg
      by (intros x Hx; eapply Forall_impl; [exact Hx|]; cbn; lia).
    assert (Forall (fun b => b <> LF) (B "# accepted by QueryHive ")) as Hc
      by (vm_compute B; repeat (apply Forall_cons; split; [lia|]); apply Forall_nil_2).
    split_and!; first [exact Hu|exact Hc|by apply Hg|by apply Forall_singleton|done].
Qed.

Lemma patterns_match_lower p host port :
  patterns_match p (host_spelling (lower host) port) = patterns_match p (host_spelling host port).
Proof. unfold patterns_match. by rewrite !lower_spelling, lower_idem. Qed.

(** What recording a key for a host does to the files: one file grows by whole lines that record
    the key, which afterwards names the host and the key; no other file is touched. *)
Definition names_key (host : bytes) (port : Z) (blob : bytes) (x : nat * HostEntry) : Prop :=
  patterns_match (he_patterns (snd x)) (host_spelling host port) = true /\ plain_is blob (snd x) = true.
Definition key_recorded (st : Store) (path host : bytes) (port : Z) (blob : bytes) (st' : Store) : Prop :=
  exists old added l l',
    (forall f, sf_path f = path -> read_store st f = inr old /\ read_store st' f = inr (old ++ added))
    /\ (forall q, q <> path -> st' !! q = st !! q)
    /\ parsed 1 (lines old) = Some l /\ parsed 1 (lines (old ++ added)) = Some (l ++ l')
    /\ Forall (names_key host port blob) l' /\ Exists (names_key host port blob) (l ++ l').

Lemma open_reads (st : Store) path n st1 :
  open_app_store st path true = inr (Some (n, st1)) -> can_read path = true ->
  can_open path = true /\ st1 !! path = Some n /\ n_symlink n = false /\ safe_node path n = inr tt
  /\ (forall q, q <> path -> st1 !! q = st !! q)
  /\ forall f, sf_path f = path -> read_store st f = inr (n_text n).
Proof.
  unfold open_app_store. intros Ho Hr.
  destruct (st !! path) as [m|] eqn:Em.
  - destruct (n_symlink m) eqn:El; [done|]. destruct (can_open path && _) eqn:Ea; [|done].
    apply andb_true_iff in Ea as [Ea _]. destruct (safe_node path m) as [|[]] eqn:Es; [done|].
    simplify_eq. split_and!; try done. intros f <-. unfold read_store, open_app_store.
    rewrite Em, Hr, El, Ea, Es. cbn. by destruct (sf_origin f).
  - destruct (can_open path && can_create path) eqn:Ea; [|done].
    apply andb_true_iff in Ea as [Ea _]. cbv zeta in Ho.
    destruct (safe_node path _) as [|[]] eqn:Es; [done|]. simplify_eq.
    split_and!; try done; [apply lookup_insert_eq|intros q Hq; by apply lookup_insert_ne|].
    intros f <-. unfold read_store, open_app_store. rewrite Em. by destruct (sf_origin f).
Qed.

Lemma read_added (st : Store) path n w f :
  n_symlink n = false -> safe_node path n = inr tt -> can_open path = true -> can_read path = true ->
  sf_path f = path ->
  read_store (<[path := add_to n w]> st) f = inr (n_text n ++ w).
Proof.
  intros Hl Hs Ho Hr <-. unfold read_store, open_app_store. rewrite lookup_insert_eq, Ho, Hr.
  change (n_symlink (add_to n w)) with (n_symlink n). rewrite Hl.
  change (safe_node (sf_path f) (add_to n w)) with (safe_node (sf_path f) n). rewrite Hs.
  by destruct (sf_origin f).
Qed.

Lemma read_same (st' : Store) path n f :
  st' !! path = Some n -> n_symlink n = false -> safe_node path n = inr tt -> can_open path = true ->
  can_read path = true -> sf_path f = path -> read_store st' f = inr (n_text n).
Proof.
  intros Hn Hl Hs Ho Hr <-. unfold read_store, open_app_store. rewrite Hn, Ho, Hr, Hl, Hs. by destruct (sf_origin f).
Qed.

Lemma named_names_key host port blob l : existsb (plain_is blob) (named (host_spelling host port) l) = true ->
  Exists (names_key host port blob) l.
Proof.
  intros (e & He & HP)%existsb_exists. unfold named in He. apply filter_In in He as [He Hm].
  apply list_elem_of_In, list_elem_of_fmap in He as (x & -> & Hx). apply Exists_exists. by exists x.
Qed.

Lemma append_records (st : Store) path host port blob now added st' :
  append_if_absent st path host port blob now = (inr added, st') ->
  Forall (fun x => 0 <= x < 256)%Z blob -> key_recorded st path host port blob st'.
Proof.
  intros Ha Hb. unfold append_if_absent in Ha. destruct (is_valid_host host) eqn:Hv; [|done]. cbn [negb] in Ha.
  apply valid_host_bytes in Hv as [Hh Hne]. unfold server_key in Ha. destruct (key_type_of blob) as [t|] eqn:Hk; [|done].
  destruct (open_app_store st path true) as [|[[n st1]|]] eqn:Ho; [done| |done].
  destruct (can_read path) eqn:Hr; [|done]. cbn [negb] in Ha.
  destruct (open_reads _ _ _ _ Ho Hr) as (Hop & Hn & Hl & Hs & Hother & Hread).
  pose proof (add_lines_spec path (Some (path, App)) (lines (n_text n)) 1 (host_scan (lower host) port blob)) as Hp.
  unfold add_text in Ha. destruct (parsed 1 (lines (n_text n))) as [l|] eqn:El;
    [destruct Hp as (s & Es & Hsc); rewrite Es in Ha|by destruct Hp as [? Hp]; rewrite Hp in Ha].
  destruct (hs_matched s) eqn:Em.
  - simplify_eq. exists (n_text n), [], l, []. rewrite !app_nil_r. split_and!; try done.
    + intros f Hf. split; [by apply Hread|by eapply read_same].
    + destruct Hsc as [_ _ Hm _ _ _]. rewrite Em in Hm. cbn in Hm. symmetry in Hm.
      apply named_names_key in Hm. eapply Exists_impl; [exact Hm|]. intros x [Hx1 Hx2].
      split; [by rewrite <- patterns_match_lower|done].
  - destruct (can_write path); [|done]. simplify_eq.
    assert (lower host <> []) as Hlne by (by destruct host).
    destruct (record_parses (MkServerKey t blob) (lower host) port now) as [Hparse Hlf];
      [by apply lower_plain|done|done|done|by destruct blob|].
    destruct (parsed_appended (n_text n) _ Hlf) as [k Hpa].
    assert (record_line (n_text n) (MkServerKey t blob) (lower host) port now
            = glue (n_text n) ++ record_text (MkServerKey t blob) (lower host) port now ++ [LF]) as Erl.
    { unfold record_line, record_text, glue. by rewrite <- !app_assoc. }
    rewrite El in Hpa. cbn [parsed] in Hpa. rewrite Hparse in Hpa. rewrite <- Erl in Hpa.
    assert (forall x, x = (k, MkHostEntry None (host_spelling (lower host) port) t blob) ->
      names_key host port blob x) as Hx.
    { intros x ->. split; [by apply own_spelling_matches|]. cbn. apply bytes_eqb_refl. }
    eexists (n_text n), _, l, _. split_and!; [| |done|exact Hpa| |].
    + intros f Hf. split; [by apply Hread|by eapply read_added].
    + intros q Hq. rewrite lookup_insert_ne by done. by apply Hother.
    + apply Forall_singleton. by apply Hx.
    + apply Exists_app. right. constructor. by apply Hx.
Qed.

(** ** The key a server presents *)

Lemma matched_iff st files host port blob :
  check_all st files host port blob = inr VMatched <->
  readable st files /\ says st files host port (plain_is blob) /\ ~ says st files host port (revokes blob).
Proof.
  split.
  - intros (Hr & Hv)%verdict_of_check. done.
  - intros (Hr & Hp & Hn). destruct (check_all st files host port blob) as [e|v] eqn:E.
    + exfalso. unfold check_all in E. apply entries_of_readable in Hr as [ls El].
      pose proof (add_files_spec st files (host_scan host port blob)) as Ha. rewrite El in Ha.
      destruct Ha as (s & Ea & _). by rewrite Ea in E.
    + apply verdict_of_check in E as [_ Hv]. destruct v; cbn in Hv; naive_solver.
Qed.

(** Every file the key is looked up in, with what it says before and after a key is recorded. *)
Lemma recorded_is_said st st' path host port blob files :
  key_recorded st path host port blob st' -> readable st files -> (exists f, f ∈ files /\ sf_path f = path) ->
  ~ says st files host port (revokes blob) ->
  readable st' files /\ says st' files host port (plain_is blob) /\ ~ says st' files host port (revokes blob).
Proof.
  intros (old & added & l & l' & Hf & Hother & Hl & Hl' & Hnew & Hsome) Hr (f0 & Hin0 & Hp0) Hn.
  assert (forall f, sf_path f <> path -> read_store st' f = read_store st f) as Hsame.
  { intros f Hp. unfold read_store, open_app_store. rewrite Hother by done.
    destruct (st !! sf_path f) as [n|]; [|done]. destruct (n_symlink n); [done|].
    cbn [negb orb]. rewrite andb_true_r. destruct (can_open (sf_path f)); [|done]. by destruct (safe_node (sf_path f) n). }
  split_and!.
  - intros f Hin. destruct (decide (sf_path f = path)) as [Hp|Hp].
    + eexists _, _. split; [by apply Hf|exact Hl'].
    + rewrite Hsame by done. by apply Hr.
  - apply Exists_exists in Hsome as ((n & e) & Hx & Hm & HP).
    exists f0, (old ++ added), (l ++ l'), n, e. split_and!; [done|exact (proj2 (Hf f0 Hp0))|exact Hl'|exact Hx|exact Hm|exact HP].
  - intros (f & text & lf & n & e & Hin & Ht & Hlf & He & Hm & HP).
    destruct (decide (sf_path f = path)) as [Hp|Hp]; [|apply Hn; rewrite Hsame in Ht by done; by exists f, text, lf, n, e].
    destruct (Hf f Hp) as [Ho Ho']. assert (text = old ++ added) as -> by congruence.
    assert (lf = l ++ l') as -> by congruence. apply elem_of_app in He as [He|He].
    + apply Hn. by exists f, old, l, n, e.
    + rewrite Forall_forall in Hnew. destruct (Hnew _ He) as [_ Hpl]. cbn in Hpl.
      unfold plain_is, revokes in *. by destruct (he_marker e).
Qed.

(** Why a key was accepted, and what that changed. *)
Definition accepted_because (c : BastionConfig) (blob : bytes) (st st' : Store) : Prop :=
  let on P := says st (store_files c) (b_host c) (b_port c) P in
  readable st (store_files c) /\ ~ on (revokes blob)
  /\ (on (plain_is blob) /\ st' = st
      \/ ~ on covers /\ ~ on (plain_other blob)
         /\ ((exists pinned, b_policy c = TrustNew pinned /\ sk_blob pinned = blob /\ st' = st)
             \/ (exists path, b_policy c = TrustFingerprint (fingerprint blob) /\ b_record_to c = Some path
                 /\ key_recorded st path (b_host c) (b_port c) blob st'))).

Lemma accepted_ok c blob key now v st r v' st' :
  decide_key c false key now v st = (r, v', st') -> sk_blob key = blob ->
  Forall (fun x => 0 <= x < 256)%Z blob ->
  match r with inl _ => v' = v | inr b => b = true /\ v' = true /\ accepted_because c blob st st' end.
Proof.
  intros Hd Ek Hb. unfold decide_key in Hd. rewrite Ek in Hd.
  destruct (check_all st (store_files c) (b_host c) (b_port c) blob) as [e|vd] eqn:E; [by simplify_eq|].
  apply verdict_of_check in E as [Hr Hv].
  destruct vd as [|fp ca|rec|]; [|destruct ca|..]; try by simplify_eq.
  - simplify_eq. destruct Hv. split_and!; try done. split; [done|]. split; [done|]. by left.
  - destruct Hv as (_ & Hca & Ho & Hp & Hn).
    assert (~ says st (store_files c) (b_host c) (b_port c) covers) as Hc by (rewrite <- Hca; done).
    unfold decide_unknown in Hd. rewrite Ek in Hd. destruct (b_policy c) as [|pinned|pin] eqn:Ep; [by simplify_eq|..].
    + destruct (bytes_eqb (sk_blob pinned) blob) eqn:Eb; simplify_eq; [|done]. apply bytes_eqb_eq in Eb.
      split_and!; [done..|]. split; [done|]. split; [done|]. right. split; [done|]. split; [done|]. left. by exists pinned.
    + destruct (bytes_eqb pin (fingerprint blob)) eqn:Eb; cbn [negb] in Hd; [|by simplify_eq].
      apply bytes_eqb_eq in Eb.
      destruct (b_record_to c) as [path|] eqn:Er; [|by simplify_eq].
      destruct (append_if_absent st path (b_host c) (b_port c) blob now) as [[err|added] st1] eqn:Ea;
        [by destruct err; simplify_eq|].
      simplify_eq. split_and!; [done..|]. split; [done|]. split; [done|]. right. split; [done|]. split; [done|]. right.
      exists path. split_and!; [done..|]. by eapply append_records.
Qed.

Lemma presented_key blob key : server_key blob = Some key -> sk_blob key = blob.
Proof. unfold server_key. case_match; [|done]. by intros [= <-]. Qed.

(** C35: The key of a server passes only as a plain public key, while the connection is wanted, when
    every file is readable, none revokes it, and either a line that names the host records it,
    with no file changed, or no line says anything of the host and the policy names this very
    key: the key pinned for this connection, or the fingerprint of it, recorded for the host
    before the check passes. A key that is refused leaves the connection unverified. *)
Theorem key_passes_only_when_known (c : BastionConfig) (abandoned : bool) (p : Presented) (now : Z)
  (verified verified' : bool) (st st' : Store) (r : TunnelError + bool) :
  check_server_key c abandoned p now verified st = (r, verified', st') ->
  (forall blob, p = PublicKey blob -> Forall (fun x => 0 <= x < 256)%Z blob) ->
  match r with
  | inl _ => verified' = verified
  | inr passed =>
      passed = true /\ verified' = true /\ abandoned = false
      /\ exists blob, p = PublicKey blob /\ accepted_because c blob st st'
  end.
Proof.
  intros Hc Hb. destruct p as [blob|blob]; cbn in Hc; [|by simplify_eq].
  destruct (server_key blob) as [key|] eqn:Ek; [|by simplify_eq]. apply presented_key in Ek.
  destruct abandoned; [cbn in Hc; by simplify_eq|].
  pose proof (accepted_ok _ _ _ _ _ _ _ _ _ Hc Ek (Hb _ eq_refl)) as Ha.
  destruct r; [done|]. destruct Ha as (? & ? & ?). split_and!; eauto.
Qed.

(** A key that passes is on record afterwards, and the files say so without the policy: the next
    check of it, under any policy, is a match. Only a key pinned for one connection is not. *)
Theorem accepted_key_is_on_record (c : BastionConfig) (abandoned : bool) (blob : bytes) (now : Z)
  (verified verified' passed : bool) (st st' : Store) :
  check_server_key c abandoned (PublicKey blob) now verified st = (inr passed, verified', st') ->
  Forall (fun x => 0 <= x < 256)%Z blob ->
  (forall pinned, b_policy c <> TrustNew pinned) ->
  check_all st' (store_files c) (b_host c) (b_port c) blob = inr VMatched.
Proof.
  intros Hc Hb Hpol. cbn in Hc. destruct (server_key blob) as [key|] eqn:Ek; [|done]. apply presented_key in Ek.
  destruct abandoned; [done|].
  destruct (accepted_ok _ _ _ _ _ _ _ _ _ Hc Ek Hb) as (_ & _ & Hr & Hn & Hcase). apply matched_iff.
  destruct Hcase as [[Hp ->]|(_ & _ & [(pinned & Hx & _)|(path & _ & Hto & Hrec)])]; [done|by apply Hpol in Hx|].
  eapply recorded_is_said; [exact Hrec|done| |done].
  exists (MkStoreFile path App). split; [|done]. unfold store_files. rewrite Hto. apply elem_of_app. right.
  by apply list_elem_of_singleton.
Qed.
End Spec.

(** ** Concrete functions, for the witnesses *)

(** Two letters a byte for base64, and codes that only keep their input apart. *)
Fixpoint letters (b : bytes) : bytes :=
  match b with [] => [] | x :: b => (65 + x / 16)%Z :: (65 + x mod 16)%Z :: letters b end.
Fixpoint of_letters (s : bytes) : option bytes :=
  match s with
  | [] => Some []
  | h :: l :: s => match of_letters s with Some b => Some ((16 * (h - 65) + (l - 65))%Z :: b) | None => None end
  | _ => None
  end.
Definition letter_crypto : HostCrypto :=
  {| decode := of_letters; decode_no_pad := of_letters; encode := letters; encode_no_pad := letters;
     hmac_sha1 salt text := salt ++ text; sha256 b := b |}.
Definition open_disk : HostDisk :=
  {| can_open _ := true; can_append _ := true; can_create _ := true; can_read _ := true; can_write _ := true; written _ := 0; euid := 501%Z |}.

Lemma letters_back b : Forall (fun x => 0 <= x < 256)%Z b -> of_letters (letters b) = Some b.
Proof.
  induction 1 as [|x b Hx _ IH]; [done|]. cbn [letters of_letters]. rewrite IH. do 2 f_equal. pose proof (Z.div_mod x 16). lia.
Qed.
Lemma letter_laws : @HostCryptoLaws letter_crypto.
Proof.
  split; [apply letters_back| |by destruct b].
  intros b. unfold encode; cbn. induction 1 as [|x b Hx _ IH]; [constructor|].
  cbn [letters]. pose proof (Z.mod_pos_bound x 16).
  pose proof (Z.div_pos x 16). pose proof (Z.div_lt_upper_bound x 16 16).
  repeat (apply Forall_cons; split; [lia|]). exact IH.
Qed.

(** A new host under the fingerprint of its key, with nothing on record. *)
Definition new_blob : bytes := [0; 0; 0; 1; 97; 5]%Z.
Definition new_bastion : BastionConfig :=
  MkBastion (B "h.example") 22 [B "/u"] (Some (B "/k"))
    (TrustFingerprint (@fingerprint letter_crypto new_blob)).
Definition first_check := Eval vm_compute in
  @check_server_key letter_crypto open_disk new_bastion false (PublicKey new_blob) 0 false ∅.

Lemma key_passes_only_when_known_witness :
  snd (fst first_check) = true /\ exists blob, PublicKey new_blob = PublicKey blob
    /\ @accepted_because letter_crypto open_disk new_bastion blob ∅ (snd first_check).
Proof.
  split; [reflexivity|].
  refine (proj2 (proj2 (proj2
    (@key_passes_only_when_known letter_crypto open_disk letter_laws new_bastion false (PublicKey new_blob) 0
       false true ∅ (snd first_check) (inr true) _ _)))).
  - vm_compute. reflexivity.
  - intros blob Hp. injection Hp as Hp. rewrite <- Hp. repeat (apply Forall_cons; split; [lia|]). constructor.
Defined.

Lemma accepted_key_is_on_record_witness :
  @check_all letter_crypto open_disk (snd first_check) (store_files new_bastion) (B "h.example") 22 new_blob
  = inr VMatched.
Proof.
  refine (@accepted_key_is_on_record letter_crypto open_disk letter_laws new_bastion false new_blob 0
            false true true ∅ (snd first_check) _ _ _).
  - vm_compute. reflexivity.
  - repeat (apply Forall_cons; split; [lia|]). constructor.
  - intros pinned Hp. discriminate Hp.
Defined.

Lemma verdict_is_what_the_files_say_witness :
  @verdict_ok letter_crypto open_disk (snd first_check) (store_files new_bastion) (B "h.example") 22 new_blob VMatched.
Proof.
  refine (proj2 (@verdict_is_what_the_files_say letter_crypto open_disk (snd first_check) (store_files new_bastion)
                   (B "h.example") 22 new_blob VMatched _)).
  vm_compute. reflexivity.
Defined.
