(* ===== verification/PoolKey.v ===== *)
(** * PoolKey: what makes two connections the same to the pool, the first half of
    [crates/qh-ffi/src/host/pool.rs].

    A pooled session is found again by its [Identity] and a keyed hash of every secret that
    opened it.  The hasher is fed bytes; SipHash under the key of the process is a parameter.
    Paths are a parameter too, compared as the standard library compares them, by component. *)
From stdpp Require Import gmap.
From S2P Require Import Prelude Bytes Text Env Guard KnownHosts.

#[export] Instance DriverKind_eq_dec : EqDecision DriverKind.
Proof. solve_decision. Defined.

Inductive TlsMode := TlsDisable | TlsPrefer | TlsRequire | TlsRequireNoVerify.
#[export] Instance TlsMode_eq_dec : EqDecision TlsMode.
Proof. solve_decision. Defined.

(** ** What is fed to the hasher *)

(** [usize::to_ne_bytes] on a little-endian machine of 64 bits. *)
Definition write_usize (n : nat) : bytes := le_bytes 8 (Z.of_nat n).
Definition hash_secret (secret : option bytes) : bytes :=
  match secret with
  | None => [0%Z]
  | Some secret => 1%Z :: write_usize (length secret) ++ secret
  end.
Definition hash_ca (der : option (list bytes)) : bytes :=
  match der with
  | None => [0%Z]
  | Some der =>
      1%Z :: write_usize (length der)
        ++ mjoin ((fun certificate => write_usize (length certificate) ++ certificate) <$> der)
  end.

(** What fits a machine word. *)
Definition word (n : nat) : Prop := (Z.of_nat n < 2 ^ 64)%Z.

Lemma le_bytes_inj k : forall n m x y,
  (0 <= n < 256 ^ Z.of_nat k)%Z -> (0 <= m < 256 ^ Z.of_nat k)%Z ->
  le_bytes k n ++ x = le_bytes k m ++ y -> n = m /\ x = y.
Proof.
  induction k as [|k IH]; intros n m x y Hn Hm E; [split; [lia|done]|].
  cbn [le_bytes app] in E. injection E as E0 E.
  assert (256 ^ Z.of_nat (S k) = 256 * 256 ^ Z.of_nat k)%Z as Ep
    by (rewrite Nat2Z.inj_succ, Z.pow_succ_r; lia).
  rewrite Ep in Hn, Hm.
  apply IH in E as [E ->]; [|split; [apply Z.div_pos|apply Z.div_lt_upper_bound]; lia..].
  split; [|done]. rewrite (Z.div_mod n 256), (Z.div_mod m 256) by lia. lia.
Qed.

Lemma write_usize_inj n m x y :
  word n -> word m -> write_usize n ++ x = write_usize m ++ y -> n = m /\ x = y.
Proof.
  intros Hn Hm [E ->]%le_bytes_inj; [split; [lia|done]|..]; unfold word in *;
    change (256 ^ Z.of_nat 8)%Z with (2 ^ 64)%Z; lia.
Qed.

(** A text behind its length is read back, whatever follows. *)
Lemma write_text_inj (a b x y : bytes) :
  word (length a) -> word (length b) ->
  (write_usize (length a) ++ a) ++ x = (write_usize (length b) ++ b) ++ y -> a = b /\ x = y.
Proof.
  intros Ha Hb. rewrite <- !app_assoc. intros [El E]%write_usize_inj; [|done..].
  by apply app_inj_1 in E.
Qed.

Definition word_text (s : option bytes) : Prop := forall t, s = Some t -> word (length t).
Lemma hash_secret_inj a b x y :
  word_text a -> word_text b -> hash_secret a ++ x = hash_secret b ++ y -> a = b /\ x = y.
Proof.
  intros Ha Hb. destruct a as [a|], b as [b|]; cbn [hash_secret app]; intros E; try discriminate E.
  2:{ split; [done|]. by apply (f_equal tail) in E. }
  apply (f_equal tail) in E. cbn [tail] in E. apply write_text_inj in E as [-> ->]; auto.
Qed.

Lemma hash_secret_inj1 a b : word_text a -> word_text b -> hash_secret a = hash_secret b -> a = b.
Proof.
  intros Ha Hb E. apply (f_equal (fun z => z ++ [])) in E. by apply hash_secret_inj in E as [-> _].
Qed.

Lemma texts_inj (a b : list bytes) x y :
  Forall (fun t => word (length t)) a -> Forall (fun t => word (length t)) b -> length a = length b ->
  mjoin ((fun t => write_usize (length t) ++ t) <$> a) ++ x
  = mjoin ((fun t => write_usize (length t) ++ t) <$> b) ++ y -> a = b /\ x = y.
Proof.
  intros Ha. revert b. induction Ha as [|t a Ht Ha IH]; intros [|u b] Hb El; try done.
  inversion_clear Hb as [|? ? Hu Hb']. cbn [fmap list_fmap mjoin list_join].
  rewrite <- !(app_assoc (write_usize _ ++ _)). intros [-> E]%write_text_inj; [|done..].
  apply IH in E as [-> ->]; auto.
Qed.

Definition word_texts (l : list bytes) : Prop :=
  word (length l) /\ Forall (fun t => word (length t)) l.
Lemma hash_ca_inj a b x y :
  (forall l, a = Some l -> word_texts l) -> (forall l, b = Some l -> word_texts l) ->
  hash_ca a ++ x = hash_ca b ++ y -> a = b /\ x = y.
Proof.
  intros Ha Hb. destruct a as [a|], b as [b|]; cbn [hash_ca app]; intros E; try discriminate E.
  2:{ split; [done|]. by apply (f_equal tail) in E. }
  apply (f_equal tail) in E. cbn [tail] in E.
  destruct (Ha a eq_refl), (Hb b eq_refl). rewrite <- !app_assoc in E.
  apply write_usize_inj in E as [? E]; [|done..]. apply texts_inj in E as [-> ->]; auto.
Qed.

Section Key.
Context {Path : Type} `{Countable Path}.

Inductive TunnelAuth := AuthAgent | AuthKey (path : Path) | AuthPassword (password : bytes).
Record TunnelConfig := MkTunnelConfig {
  tc_host : bytes; tc_port : Z; tc_user : bytes; tc_auth : TunnelAuth;
  tc_known_hosts : option Path; tc_app_known_hosts : option Path;
  tc_host_key_accept : option bytes; tc_alias : option bytes }.
Record TlsCa := MkTlsCa { ca_path : Path; ca_der : list bytes }.
Record ConnectionConfig := MkConfig {
  cc_kind : DriverKind; cc_host : bytes; cc_port : Z; cc_user : bytes; cc_password : option bytes;
  cc_database : option bytes; cc_schema : option bytes; cc_tls : TlsMode; cc_insecure : bool;
  cc_tunnel : option TunnelConfig; cc_tls_ca : option TlsCa; cc_bearer : option bytes;
  cc_tls_server_name : option bytes }.

Inductive DatabaseSlot := Named (name : bytes) | Unset | Switchable.
Inductive AuthIdentity := IdAgent | IdKey (path : Path) | IdPassword.
Record TunnelIdentity := MkTunnelIdentity {
  ti_host : bytes; ti_port : Z; ti_user : bytes; ti_auth : AuthIdentity;
  ti_known_hosts : list Path; ti_app_known_hosts : option Path }.
Record Identity := MkIdentity {
  id_kind : DriverKind; id_host : bytes; id_port : Z; id_user : bytes; id_tls : TlsMode;
  id_insecure : bool; id_database : DatabaseSlot; id_tls_ca : option Path;
  id_tunnel : option TunnelIdentity }.
Record PoolKey := MkKey { k_identity : Identity; k_credential : Z }.

#[export] Instance DatabaseSlot_eq_dec : EqDecision DatabaseSlot.
Proof. solve_decision. Defined.
#[export] Instance AuthIdentity_eq_dec : EqDecision AuthIdentity.
Proof. solve_decision. Defined.
#[export] Instance TunnelIdentity_eq_dec : EqDecision TunnelIdentity.
Proof. solve_decision. Defined.
#[export] Instance Identity_eq_dec : EqDecision Identity.
Proof. solve_decision. Defined.
#[export] Instance PoolKey_eq_dec : EqDecision PoolKey.
Proof. solve_decision. Defined.

(** Identities are the keys of the pool's map. *)
#[export] Instance DriverKind_countable : Countable DriverKind.
Proof.
  refine (inj_countable' (fun k => match k with DTrino => 0 | DPostgres => 1 | DMysql => 2 end)
            (fun n => match n with 0 => DTrino | 1 => DPostgres | _ => DMysql end) _). by intros [].
Defined.
#[export] Instance TlsMode_countable : Countable TlsMode.
Proof.
  refine (inj_countable'
            (fun k => match k with TlsDisable => 0 | TlsPrefer => 1 | TlsRequire => 2 | TlsRequireNoVerify => 3 end)
            (fun n => match n with 0 => TlsDisable | 1 => TlsPrefer | 2 => TlsRequire | _ => TlsRequireNoVerify end) _).
  by intros [].
Defined.
#[export] Instance DatabaseSlot_countable : Countable DatabaseSlot.
Proof.
  refine (inj_countable' (fun d => match d with Named n => inl n | Unset => inr false | Switchable => inr true end)
            (fun d => match d with inl n => Named n | inr false => Unset | inr true => Switchable end) _).
  by intros [].
Defined.
#[export] Instance AuthIdentity_countable : Countable AuthIdentity.
Proof.
  refine (inj_countable' (fun a => match a with IdKey p => inl p | IdAgent => inr false | IdPassword => inr true end)
            (fun a => match a with inl p => IdKey p | inr false => IdAgent | inr true => IdPassword end) _).
  by intros [].
Defined.
#[export] Instance TunnelIdentity_countable : Countable TunnelIdentity.
Proof.
  refine (inj_countable'
            (fun t => (ti_host t, ti_port t, ti_user t, ti_auth t, ti_known_hosts t, ti_app_known_hosts t))
            (fun '(h, p, u, a, k, m) => MkTunnelIdentity h p u a k m) _).
  by intros [].
Defined.
#[export] Instance Identity_countable : Countable Identity.
Proof.
  refine (inj_countable'
            (fun i => (id_kind i, id_host i, id_port i, id_user i, id_tls i, id_insecure i, id_database i,
                       id_tls_ca i, id_tunnel i))
            (fun '(k, h, p, u, t, i, d, c, n) => MkIdentity k h p u t i d c n) _).
  by intros [].
Defined.

(** ** The key of a connection

    [path_of] and [path_push] build paths as [PathBuf] does; [home] is the variable [HOME]. *)
Context (path_of : bytes -> Path) (path_push : Path -> bytes -> Path) (home : option bytes)
  (sip_hash : bytes -> Z).

Definition home_file (parts : list bytes) : option Path :=
  match home with Some h => Some (foldl path_push (path_of h) parts) | None => None end.
Definition known_hosts_path (t : TunnelConfig) : option Path :=
  match tc_known_hosts t with
  | Some path => Some path
  | None => home_file [B ".ssh"; B "known_hosts"]
  end.
Definition trust_files (t : TunnelConfig) : list Path :=
  option_list (known_hosts_path t) ++ [path_of SYSTEM_KNOWN_HOSTS].

Definition database_slot (c : ConnectionConfig) : DatabaseSlot :=
  match cc_kind c, cc_database c with
  | DPostgres, database => Named (default [] database)
  | DMysql, Some _ => Switchable
  | DMysql, None => Unset
  | DTrino, _ => Switchable
  end.

Definition passphrase (s : Settings) : option bytes :=
  match raw s (B "SSH_KEY_PASSPHRASE") [] with [] => None | p => Some p end.
(** What the tunnel adds to the hash, and how it enters the identity. *)
Definition hash_tunnel (s : Settings) (t : TunnelConfig) : bytes :=
  match tc_auth t with
  | AuthAgent => []
  | AuthKey _ => hash_secret (passphrase s)
  | AuthPassword password => hash_secret (Some password)
  end.
Definition auth_identity (a : TunnelAuth) : AuthIdentity :=
  match a with AuthAgent => IdAgent | AuthKey path => IdKey path | AuthPassword _ => IdPassword end.
Definition tunnel_identity (t : TunnelConfig) : TunnelIdentity :=
  MkTunnelIdentity (tc_host t) (tc_port t) (tc_user t) (auth_identity (tc_auth t)) (trust_files t)
    (tc_app_known_hosts t).

Definition credential_bytes (c : ConnectionConfig) (s : Settings) : bytes :=
  hash_secret (cc_password c) ++ hash_secret (cc_bearer c) ++ hash_ca (ca_der <$> cc_tls_ca c)
    ++ match cc_tunnel c with Some t => hash_tunnel s t | None => [] end.
Definition key_of (c : ConnectionConfig) (s : Settings) : PoolKey :=
  MkKey (MkIdentity (cc_kind c) (cc_host c) (cc_port c) (cc_user c) (cc_tls c) (cc_insecure c)
           (database_slot c) (ca_path <$> cc_tls_ca c) (tunnel_identity <$> cc_tunnel c))
    (sip_hash (credential_bytes c s)).

(** ** What two connections of one key share *)

(** The secrets of a connection: the password, the token, the certificates it trusts, and what
    unlocks its tunnel. An empty passphrase is none. *)
Definition tunnel_secret (c : ConnectionConfig) (s : Settings) : option bytes :=
  match tc_auth <$> cc_tunnel c with
  | Some (AuthKey _) => passphrase s
  | Some (AuthPassword p) => Some p
  | Some AuthAgent | None => None
  end.
Definition secrets (c : ConnectionConfig) (s : Settings)
  : option bytes * option bytes * option (list bytes) * option bytes :=
  (cc_password c, cc_bearer c, ca_der <$> cc_tls_ca c, tunnel_secret c s).

(** The same server, user and trust. The database matters only where a session is bound to it:
    by name on PostgreSQL, by there being one on MySQL. *)
Definition same_target (c1 c2 : ConnectionConfig) : Prop :=
  cc_kind c1 = cc_kind c2 /\ cc_host c1 = cc_host c2 /\ cc_port c1 = cc_port c2
  /\ cc_user c1 = cc_user c2 /\ cc_tls c1 = cc_tls c2 /\ cc_insecure c1 = cc_insecure c2
  /\ (cc_kind c1 = DPostgres -> default [] (cc_database c1) = default [] (cc_database c2))
  /\ (cc_kind c1 = DMysql -> is_Some (cc_database c1) <-> is_Some (cc_database c2))
  /\ ca_path <$> cc_tls_ca c1 = ca_path <$> cc_tls_ca c2
  /\ tunnel_identity <$> cc_tunnel c1 = tunnel_identity <$> cc_tunnel c2.

Lemma same_slot (c1 c2 : ConnectionConfig) :
  cc_kind c1 = cc_kind c2 ->
  database_slot c1 = database_slot c2 <->
  (cc_kind c1 = DPostgres -> default [] (cc_database c1) = default [] (cc_database c2))
  /\ (cc_kind c1 = DMysql -> is_Some (cc_database c1) <-> is_Some (cc_database c2)).
Proof.
  intros Hk. unfold database_slot. rewrite <- Hk.
  destruct (cc_kind c1); (split; [intros E|intros [E1 E2]]).
  - by split.
  - by destruct (cc_database c1), (cc_database c2).
  - injection E as E. by split.
  - f_equal. by apply E1.
  - split; [done|]. intros _. destruct (cc_database c1), (cc_database c2); try done; split; eauto.
  - specialize (E2 eq_refl). destruct (cc_database c1), (cc_database c2); try done.
    + by destruct (proj1 E2 (mk_is_Some _ _ eq_refl)).
    + by destruct (proj2 E2 (mk_is_Some _ _ eq_refl)).
Qed.

Lemma same_identity c1 s1 c2 s2 :
  k_identity (key_of c1 s1) = k_identity (key_of c2 s2) <-> same_target c1 c2.
Proof.
  unfold key_of, same_target. cbn [k_identity]. split.
  - intros E. injection E as Ek Eh Ep Eu Et Ei Ed Ec En.
    destruct (proj1 (same_slot c1 c2 Ek) Ed). split_and!; done.
  - intros (? & ? & ? & ? & ? & ? & E1 & E2 & ? & ?).
    assert (database_slot c1 = database_slot c2) by by apply same_slot.
    congruence.
Qed.

(** The texts of a connection fit in memory. *)
Record fits (c : ConnectionConfig) (s : Settings) : Prop := {
  fit_password : word_text (cc_password c);
  fit_bearer : word_text (cc_bearer c);
  fit_ca : forall l, ca_der <$> cc_tls_ca c = Some l -> word_texts l;
  fit_tunnel : word_text (tunnel_secret c s);
}.

Lemma tunnel_bytes_inj c1 s1 c2 s2 :
  fits c1 s1 -> fits c2 s2 -> tunnel_identity <$> cc_tunnel c1 = tunnel_identity <$> cc_tunnel c2 ->
  match cc_tunnel c1 with Some t => hash_tunnel s1 t | None => [] end
  = match cc_tunnel c2 with Some t => hash_tunnel s2 t | None => [] end <->
  tunnel_secret c1 s1 = tunnel_secret c2 s2.
Proof.
  intros F1%fit_tunnel F2%fit_tunnel. unfold tunnel_secret, hash_tunnel in *.
  destruct (cc_tunnel c1) as [t1|], (cc_tunnel c2) as [t2|]; try done. cbn [fmap option_fmap option_map] in *.
  intros E. injection E as E _ _ E2 _ _. clear E.
  destruct (tc_auth t1), (tc_auth t2); try discriminate E2; split; try done; try congruence; by apply hash_secret_inj1.
Qed.

(** C38: Two connections have one key exactly when they reach the same server as the same user under
    the same trust with the same secrets: a changed password, token, certificate, passphrase or
    trust file is another key, unless two different inputs with one hash are exhibited. *)
Theorem key_identifies_connection (c1 c2 : ConnectionConfig) (s1 s2 : Settings) :
  fits c1 s1 -> fits c2 s2 ->
  (same_target c1 c2 -> secrets c1 s1 = secrets c2 s2 -> key_of c1 s1 = key_of c2 s2)
  /\ (key_of c1 s1 = key_of c2 s2 ->
      same_target c1 c2
      /\ (secrets c1 s1 = secrets c2 s2 \/ exists x y, x <> y /\ sip_hash x = sip_hash y)).
Proof.
  intros F1 F2. split.
  - intros Ht Hs. injection Hs as Ep Eb Ec Es.
    apply (same_identity c1 s1 c2 s2) in Ht as Hi. destruct Ht as (_ & _ & _ & _ & _ & _ & _ & _ & _ & Ht).
    apply (tunnel_bytes_inj _ _ _ _ F1 F2 Ht) in Es.
    unfold key_of in *. cbn [k_identity] in Hi. rewrite Hi. f_equal. f_equal.
    unfold credential_bytes. by rewrite Ep, Eb, Ec, Es.
  - intros E. assert (same_target c1 c2) as Ht by (by apply (same_identity c1 s1 c2 s2); rewrite E).
    split; [done|]. destruct (decide (credential_bytes c1 s1 = credential_bytes c2 s2)) as [Eb|Nb].
    + left. unfold credential_bytes in Eb. unfold secrets.
      apply hash_secret_inj in Eb as [-> Eb]; [|apply F1|apply F2].
      apply hash_secret_inj in Eb as [-> Eb]; [|apply F1|apply F2].
      apply hash_ca_inj in Eb as [-> Eb]; [|apply F1|apply F2].
      apply (tunnel_bytes_inj _ _ _ _ F1 F2) in Eb as ->; [done|apply Ht].
    + right. exists (credential_bytes c1 s1), (credential_bytes c2 s2). split; [done|].
      by apply (f_equal k_credential) in E.
Qed.
End Key.

(** ** Two runs of one connection

    Paths as text; the runs differ in the schema, which is set on the session, and in the
    database, which MySQL switches. *)
Definition toy_config (database schema password : bytes) : @ConnectionConfig bytes :=
  MkConfig DMysql (B "db") 3306 (B "ana") (Some password) (Some database) (Some schema) TlsPrefer false
    (Some (MkTunnelConfig (B "bastion") 22 (B "ana") (AuthKey (B "id")) None None None None))
    None None None.
Definition toy_settings : Settings := {[B "SSH_KEY_PASSPHRASE" := B "open"]}.
Abbreviation toy_key := (key_of id (fun p q => p ++ SLASH :: q) (Some (B "/home/ana"))
                           (foldl (fun n b => (31 * n + b)%Z) 7%Z)).

Lemma toy_fits d s p : word (length p) -> fits (toy_config d s p) toy_settings.
Proof.
  intros Hp. split; cbn; try done.
  - by intros t [= <-].
  - intros t Ht. vm_compute in Ht. injection Ht as <-. done.
Qed.

Lemma key_identifies_connection_witness :
  toy_key (toy_config (B "shop") (B "a") (B "pw")) toy_settings
  = toy_key (toy_config (B "stock") (B "b") (B "pw")) toy_settings.
Proof.
  apply (key_identifies_connection id (fun p q => p ++ SLASH :: q) (Some (B "/home/ana"))
           (foldl (fun n b => (31 * n + b)%Z) 7%Z)
           (toy_config (B "shop") (B "a") (B "pw")) (toy_config (B "stock") (B "b") (B "pw"))
           toy_settings toy_settings); [by apply toy_fits|by apply toy_fits| |done].
  unfold same_target. cbn. split_and!; done.
Defined.
