(* ===== verification/Pool.v ===== *)
(** * Pool: the session pool, the second half of [crates/qh-ffi/src/host/pool.rs].

    The pool is shared by every run, so its state changes in steps that interleave: each
    [Definition] below is what one task does while it holds a lock, between two awaits.  A task is
    a future at one of its awaits, with the guards it owns; dropping it gives the guards back.
    An operation answers with the tasks that go on and the pool it leaves.

    The pool sees a connection through its key.  A session carries the key it was opened with and
    whether it was reset since it was last lent; nothing in the pool reads either.  Which tunnels
    are alive, and what a driver answers, are the environment's. *)
From stdpp Require Import gmap.
From S2P Require Import Prelude Bytes Text Env Guard Retry Lease PoolKey.

Definition QUERY_SESSIONS : nat := 2.
Definition METADATA_SESSIONS : nat := 1.
Definition IDLE_MAX : nat := 3.

Inductive Lane := Query | Metadata.
Definition cap (l : Lane) : nat := match l with Query => QUERY_SESSIONS | Metadata => METADATA_SESSIONS end.
(** The two counts of an entry, by the index of the lane. *)
Definition lane_of (l : Lane) (n : nat * nat) : nat := match l with Query => n.1 | Metadata => n.2 end.
Definition on_lane (l : Lane) (f : nat -> nat) (n : nat * nat) : nat * nat :=
  match l with Query => (f n.1, n.2) | Metadata => (n.1, f n.2) end.

Section Pool.
Context {Path : Type} `{Countable Path}.
Abbreviation PoolKey := (@PoolKey Path).

Record Sess := MkSess { ss_id : nat; ss_key : PoolKey; ss_clean : bool }.
Definition lent (s : Sess) : Sess := MkSess (ss_id s) (ss_key s) false.
Definition cleaned (s : Sess) : Sess := MkSess (ss_id s) (ss_key s) true.

Record Idle := MkIdle { i_session : Sess; i_tunnel : option nat; i_since : Z }.
(** [en_idle]: the most recently returned last. [en_tunnel] is read and written under
    [en_locked]. *)
Record Entry := MkEntry {
  en_credential : Z; en_idle : list Idle; en_leased : nat * nat; en_pending : nat;
  en_retired : bool; en_tunnel : option nat; en_locked : bool }.
Definition entry_new (credential : Z) : Entry := MkEntry credential [] (0, 0) 0 false None false.

Definition set_idle (e : Entry) (idle : list Idle) : Entry :=
  MkEntry (en_credential e) idle (en_leased e) (en_pending e) (en_retired e) (en_tunnel e) (en_locked e).
Definition set_leased (e : Entry) (n : nat * nat) : Entry :=
  MkEntry (en_credential e) (en_idle e) n (en_pending e) (en_retired e) (en_tunnel e) (en_locked e).
Definition set_pending (e : Entry) (n : nat) : Entry :=
  MkEntry (en_credential e) (en_idle e) (en_leased e) n (en_retired e) (en_tunnel e) (en_locked e).
Definition set_tunnel (e : Entry) (t : option nat) (locked : bool) : Entry :=
  MkEntry (en_credential e) (en_idle e) (en_leased e) (en_pending e) (en_retired e) t locked.
Definition retire (e : Entry) : Entry :=
  MkEntry (en_credential e) [] (en_leased e) (en_pending e) true (en_tunnel e) (en_locked e).

(** What a session is being opened for; a reconnect keeps the lease's old session meanwhile. *)
Inductive Purpose :=
| ForLease (lane : Lane) | ForIdle | ForLongOp
| ForReconnect (lane : Lane) (old : Sess) (old_tunnel : option nat).
(** [open_session]: waiting for the tunnel's lock, holding it while the tunnel opens, connecting. *)
Inductive Phase := AtTunnel | OpeningTunnel | Connecting (tunnel : option nat).

Inductive Task :=
| TCheckout (e : nat) (lane : Lane) (key : PoolKey) (waited : bool)
| TOpen (why : Purpose) (e : nat) (key : PoolKey) (phase : Phase)
| THeld (e : nat) (lane : Lane) (key : PoolKey) (s : Sess) (tunnel : option nat)
| TLongOp (s : Sess) (tunnel : option nat)
| TCheckin (e : nat) (s : Sess) (tunnel : option nat) (fate : Fate) (refill : option PoolKey)
| TDiscard (e : nat) (s : Sess) (tunnel : option nat) (refill : option PoolKey)
| TRefill (e : nat) (s : Sess) (tunnel : option nat) (refill : option PoolKey)
| TReset (e : nat) (s : Sess) (tunnel : option nat)
| TParked (e : nat)
| TClose (owner : option nat) (s : list (Sess * option nat)).

Record Pool := MkPool {
  p_entries : list Entry; p_map : gmap (@Identity Path) nat;
  p_opened : nat; p_reused : nat; p_closed : nat; p_tunnels_opened : nat }.
Definition pool_new : Pool := MkPool [] ∅ 0 0 0 0.

Definition upd (e : nat) (f : Entry -> Entry) (p : Pool) : Pool :=
  MkPool (alter f e (p_entries p)) (p_map p) (p_opened p) (p_reused p) (p_closed p) (p_tunnels_opened p).
Definition add_closed (n : nat) (p : Pool) : Pool :=
  MkPool (p_entries p) (p_map p) (p_opened p) (p_reused p) (p_closed p + n) (p_tunnels_opened p).

Definition closing (idle : list Idle) : Task :=
  TClose None ((fun i => (i_session i, i_tunnel i)) <$> idle).
Definition close_in_background (idle : list Idle) : list Task :=
  match idle with [] => [] | _ => [closing idle] end.

(** ** The entry of a key *)

(** A key whose credential differs from the entry's retires it. *)
Definition entry_for (key : PoolKey) (p : Pool) : nat * list Task * Pool :=
  let add old p :=
    let e := length (p_entries p) in
    (e, close_in_background old,
     MkPool (p_entries p ++ [entry_new (k_credential key)]) (<[k_identity key := e]> (p_map p))
       (p_opened p) (p_reused p) (p_closed p) (p_tunnels_opened p)) in
  match p_map p !! k_identity key with
  | None => add [] p
  | Some e =>
      match p_entries p !! e with
      | Some x =>
          if (en_credential x =? k_credential key)%Z then (e, [], p)
          else add (en_idle x) (upd e retire p)
      | None => add [] p
      end
  end.

(** ** Checkout *)

Definition checkout (key : PoolKey) (lane : Lane) (p : Pool) : list Task * Pool :=
  let '(e, old, p) := entry_for key p in (TCheckout e lane key false :: old, p).

Definition idle_alive (alive : nat -> bool) (i : Idle) : bool :=
  match i_tunnel i with Some t => alive t | None => true end.

Inductive Taken := Reuse (i : Idle) | Open.
(** One turn of the loop, under the lock of the entry: [None] is to wait for a session that is
    being reset; the second part is the sessions whose tunnel died. *)
Definition take_session (alive : nat -> bool) (lane : Lane) (waited : bool) (x : Entry)
  : option Taken * list Idle * Entry :=
  let dead := List.filter (fun i => negb (idle_alive alive i)) (en_idle x) in
  let idle := List.filter (idle_alive alive) (en_idle x) in
  let room := lane_of lane (en_leased x) <? cap lane in
  match (if room then last idle else None) with
  | Some i =>
      (Some (Reuse i), dead,
       set_leased (set_idle x (removelast idle)) (on_lane lane S (en_leased x)))
  | None =>
      if room && negb waited && (0 <? en_pending x) then (None, dead, set_idle x idle)
      else (Some Open, dead, set_leased (set_idle x idle) (on_lane lane S (en_leased x)))
  end.
Definition checkout_turn (alive : nat -> bool) (e : nat) (lane : Lane) (key : PoolKey) (waited : bool)
  (p : Pool) : list Task * Pool :=
  match p_entries p !! e with
  | None => ([], p)
  | Some x =>
      let '(decision, dead, x') := take_session alive lane waited x in
      let p := upd e (fun _ => x') p in
      match decision with
      | None => (TCheckout e lane key true :: close_in_background dead, p)
      | Some Open => (TOpen (ForLease lane) e key AtTunnel :: close_in_background dead, p)
      | Some (Reuse i) =>
          (THeld e lane key (lent (i_session i)) (i_tunnel i) :: close_in_background dead,
           MkPool (p_entries p) (p_map p) (p_opened p) (S (p_reused p)) (p_closed p) (p_tunnels_opened p))
      end
  end.

(** ** Opening a session *)

(** What the end of [open_session] gives to the one that asked. *)
Definition give_back_lane (e : nat) (lane : Lane) : Pool -> Pool :=
  upd e (fun x => set_leased x (on_lane lane pred (en_leased x))).
Definition give_back_pending (e : nat) : Pool -> Pool := upd e (fun x => set_pending x (pred (en_pending x))).

Definition open_failed (why : Purpose) (e : nat) (key : PoolKey) (p : Pool) : list Task * Pool :=
  match why with
  | ForLease lane => ([], give_back_lane e lane p)
  | ForIdle => ([], give_back_pending e p)
  | ForLongOp => ([], p)
  | ForReconnect lane old old_tunnel => ([THeld e lane key old old_tunnel], p)
  end.

(** Put a session in the idle list, or close it when the key has enough. *)
Definition park (e : nat) (s : Sess) (tunnel : option nat) (now : Z) (p : Pool) : list Task * Pool :=
  match p_entries p !! e with
  | None => ([], p)
  | Some x =>
      let idle := MkIdle s tunnel now in
      if en_retired x || (IDLE_MAX <=? length (en_idle x)) then (close_in_background [idle], p)
      else ([], upd e (fun x => set_idle x (en_idle x ++ [idle])) p)
  end.

Definition opened (why : Purpose) (e : nat) (key : PoolKey) (tunnel : option nat) (now : Z) (p : Pool)
  : list Task * Pool :=
  let s := MkSess (p_opened p) key true in
  let p := MkPool (p_entries p) (p_map p) (S (p_opened p)) (p_reused p) (p_closed p) (p_tunnels_opened p) in
  match why with
  | ForLease lane | ForReconnect lane _ _ => ([THeld e lane key (lent s) tunnel], p)
  | ForLongOp => ([TLongOp (lent s) tunnel], p)
  | ForIdle => let '(rest, p) := park e s tunnel now p in (TParked e :: rest, p)
  end.

(** [ensure_tunnel], up to its await: [None] while another task holds the lock. *)
Definition tunnel_turn (alive : nat -> bool) (why : Purpose) (e : nat) (key : PoolKey) (p : Pool)
  : option (list Task * Pool) :=
  match id_tunnel (k_identity key), p_entries p !! e with
  | None, _ => Some ([TOpen why e key (Connecting None)], p)
  | Some _, None => None
  | Some _, Some x =>
      if en_locked x then None
      else match en_tunnel x with
           | Some t =>
               if alive t then Some ([TOpen why e key (Connecting (Some t))], p)
               else Some (TOpen why e key OpeningTunnel :: close_in_background (en_idle x),
                          upd e (fun x => set_tunnel (set_idle x []) None true) p)
           | None => Some ([TOpen why e key OpeningTunnel], upd e (fun x => set_tunnel x None true) p)
           end
  end.
(** The end of [ensure_tunnel], on the answer of the bastion. *)
Definition tunnel_opened (ok : bool) (why : Purpose) (e : nat) (key : PoolKey) (p : Pool)
  : list Task * Pool :=
  if ok then
    let t := p_tunnels_opened p in
    ([TOpen why e key (Connecting (Some t))],
     upd e (fun x => set_tunnel x (Some t) false)
       (MkPool (p_entries p) (p_map p) (p_opened p) (p_reused p) (p_closed p) (S t)))
  else open_failed why e key (upd e (fun x => set_tunnel x (en_tunnel x) false) p).

(** [open_idle], until it is spawned. *)
Definition open_idle (e : nat) (key : PoolKey) (only_when_unused : bool) (p : Pool) : list Task * Pool :=
  match p_entries p !! e with
  | None => ([], p)
  | Some x =>
      if en_retired x || negb (length (en_idle x) =? 0)
         || (only_when_unused && negb (bool_decide (en_leased x = (0, 0))))
         || (0 <? en_pending x)
      then ([], p)
      else ([TOpen ForIdle e key AtTunnel], upd e (fun x => set_pending x (S (en_pending x))) p)
  end.
Definition warm (key : PoolKey) (p : Pool) : list Task * Pool :=
  let '(e, old, p) := entry_for key p in
  let '(ts, p) := open_idle e key true p in (ts ++ old, p).
Definition open_unleased (key : PoolKey) (p : Pool) : list Task * Pool :=
  let '(e, old, p) := entry_for key p in (TOpen ForLongOp e key AtTunnel :: old, p).

(** ** Checkin *)

(** The lease ends and its session starts going back, in one step. *)
Definition into_pending (e : nat) (lane : Lane) : Pool -> Pool :=
  upd e (fun x => set_pending (set_leased x (on_lane lane pred (en_leased x))) (S (en_pending x))).
Definition checkin (e : nat) (lane : Lane) (s : Sess) (tunnel : option nat) (f : Fate)
  (refill : option PoolKey) (p : Pool) : list Task * Pool :=
  ([TCheckin e s tunnel f refill], into_pending e lane p).

Definition checkin_turn (alive : nat -> bool) (e : nat) (s : Sess) (tunnel : option nat) (f : Fate)
  (refill : option PoolKey) (p : Pool) : list Task * Pool :=
  let retired := match p_entries p !! e with Some x => en_retired x | None => true end in
  let gone := match tunnel with Some t => negb (alive t) | None => false end in
  if negb (bool_decide (f = FateReset)) || retired || gone
  then ([TDiscard e s tunnel refill], p) else ([TReset e s tunnel], p).
(** A session that is only being closed stops being on its way at once. *)
Definition discard_turn (e : nat) (s : Sess) (tunnel : option nat) (refill : option PoolKey) (p : Pool)
  : list Task * Pool := ([TRefill e s tunnel refill], give_back_pending e p).
Definition refill_turn (e : nat) (s : Sess) (tunnel : option nat) (refill : option PoolKey) (p : Pool)
  : list Task * Pool :=
  match refill with
  | Some key =>
      let '(ts, p) := open_idle e key false p in (TClose (Some e) [(s, tunnel)] :: ts, p)
  | None => ([TClose (Some e) [(s, tunnel)]], p)
  end.
Definition reset_turn (ok : bool) (e : nat) (s : Sess) (tunnel : option nat) (now : Z) (p : Pool)
  : list Task * Pool :=
  if ok then let '(rest, p) := park e (cleaned s) tunnel now p in (TParked e :: rest, p)
  else ([TClose (Some e) [(s, tunnel)]], give_back_pending e p).
Definition parked_turn (e : nat) (p : Pool) : list Task * Pool := ([], give_back_pending e p).
Definition close_turn (owner : option nat) (s : list (Sess * option nat)) (p : Pool) : list Task * Pool :=
  match s with [] => ([], p) | _ :: rest => ([TClose owner rest], add_closed 1 p) end.

(** ** Eviction *)

(** The entry a task owns a share of, and the tunnels. *)
Definition task_entry (t : Task) : option nat :=
  match t with
  | TCheckout e _ _ _ | TOpen _ e _ _ | THeld e _ _ _ _ | TCheckin e _ _ _ _ | TDiscard e _ _ _
  | TRefill e _ _ _ | TReset e _ _ | TParked e => Some e
  | TClose owner _ => owner
  | TLongOp _ _ => None
  end.
Definition task_tunnels (t : Task) : list nat :=
  match t with
  | TOpen why _ _ phase =>
      match why with ForReconnect _ _ old => option_list old | _ => [] end
      ++ match phase with Connecting t => option_list t | _ => [] end
  | THeld _ _ _ _ t | TLongOp _ t | TCheckin _ _ t _ _ | TDiscard _ _ t _ | TRefill _ _ t _
  | TReset _ _ t => option_list t
  | TClose _ s => omap snd s
  | TCheckout _ _ _ _ | TParked _ => []
  end.
Definition shared (ts : list Task) (e : nat) : bool :=
  existsb (fun t => bool_decide (task_entry t = Some e)) ts.
Definition tunnel_shared (ts : list Task) (t : nat) : bool :=
  existsb (fun k => bool_decide (t ∈ task_tunnels k)) ts.

(** The first look at one entry of the map, and the second. *)
Definition expired (now ttl : Z) (i : Idle) : bool := (ttl <=? now - i_since i)%Z.
Definition evict_idle (ts : list Task) (now ttl : Z) (i : @Identity Path) (p : Pool) : list Task * Pool :=
  match p_map p !! i with
  | None => ([], p)
  | Some e =>
      match p_entries p !! e with
      | None => ([], p)
      | Some x =>
          if shared ts e then ([], p)
          else ([closing (List.filter (expired now ttl) (en_idle x))],
                upd e (fun x => set_idle x (List.filter (fun i => negb (expired now ttl i)) (en_idle x))) p)
      end
  end.
Definition evict_entry (ts : list Task) (i : @Identity Path) (p : Pool) : Pool :=
  match p_map p !! i with
  | None => p
  | Some e =>
      match p_entries p !! e with
      | None => p
      | Some x =>
          if shared ts e || negb ((length (en_idle x) =? 0) && bool_decide (en_leased x = (0, 0))
                                  && (en_pending x =? 0))
             || en_locked x || match en_tunnel x with Some t => tunnel_shared ts t | None => false end
          then p
          else MkPool (p_entries p) (delete i (p_map p)) (p_opened p) (p_reused p) (p_closed p)
                 (p_tunnels_opened p)
      end
  end.

(** ** A lease that reconnects

    The making read-only of the new session is the lease's ([Lease.reconnect]). *)
Definition reconnecting (e : nat) (lane : Lane) (key : PoolKey) (s : Sess) (tunnel : option nat)
  : list Task := [TOpen (ForReconnect lane s tunnel) e key AtTunnel].

(** ** Dropping a task

    A run stopped half-way, or a runtime that shut down: the guards of the task give their counts
    back and its sessions are gone. A reconnect that is dropped leaves its lease. *)
Definition drop_task (t : Task) (p : Pool) : list Task * Pool :=
  match t with
  | TOpen why e key OpeningTunnel => open_failed why e key (upd e (fun x => set_tunnel x (en_tunnel x) false) p)
  | TOpen why e key _ => open_failed why e key p
  | THeld e lane _ _ _ => ([], give_back_lane e lane p)
  | TCheckin e _ _ _ _ | TDiscard e _ _ _ | TReset e _ _ | TParked e => ([], give_back_pending e p)
  | TCheckout _ _ _ _ | TLongOp _ _ | TRefill _ _ _ _ | TClose _ _ => ([], p)
  end.
End Pool.
