(* ===== verification/PoolSpec.v ===== *)
(** * PoolSpec: what the session pool guarantees however its tasks interleave, for [Pool]. *)
From stdpp Require Import gmap.
From S2P Require Import Prelude Bytes Text Env Guard Retry Lease PoolKey Pool.

Section Spec.
Context {Path : Type} `{Countable Path}.
Abbreviation Task := (@Task Path).
Abbreviation Pool := (@Pool Path EqDecision0 H).
Abbreviation PoolKey := (@PoolKey Path).
Abbreviation Entry := (@Entry Path).

(** ** Steps *)

(** One task goes on, to the tasks that replace it. *)
Inductive turn : Task -> Pool -> list Task * Pool -> Prop :=
| turn_checkout alive e lane key waited p :
    turn (TCheckout e lane key waited) p (checkout_turn alive e lane key waited p)
| turn_tunnel alive why e key p r : tunnel_turn alive why e key p = Some r ->
    turn (TOpen why e key AtTunnel) p r
| turn_tunnel_opened ok why e key p :
    turn (TOpen why e key OpeningTunnel) p (tunnel_opened ok why e key p)
| turn_connected why e key tunnel now p :
    turn (TOpen why e key (Connecting tunnel)) p (opened why e key tunnel now p)
| turn_not_connected why e key tunnel p :
    turn (TOpen why e key (Connecting tunnel)) p (open_failed why e key p)
| turn_reconnect e lane key s tunnel p :
    turn (THeld e lane key s tunnel) p (reconnecting e lane key s tunnel, p)
| turn_release e lane key s tunnel f p :
    turn (THeld e lane key s tunnel) p
      (checkin e lane s tunnel f (if decide (f = FateDiscardAndRefill) then Some key else None) p)
| turn_checkin alive e s tunnel f refill p :
    turn (TCheckin e s tunnel f refill) p (checkin_turn alive e s tunnel f refill p)
| turn_discard e s tunnel refill p : turn (TDiscard e s tunnel refill) p (discard_turn e s tunnel refill p)
| turn_refill e s tunnel refill p : turn (TRefill e s tunnel refill) p (refill_turn e s tunnel refill p)
| turn_reset ok e s tunnel now p : turn (TReset e s tunnel) p (reset_turn ok e s tunnel now p)
| turn_parked e p : turn (TParked e) p (parked_turn e p)
| turn_close owner s p : turn (TClose owner s) p (close_turn owner s p)
| turn_drop t p : turn t p (drop_task t p).

Inductive step : Pool * list Task -> Pool * list Task -> Prop :=
| step_checkout key lane p ts : step (p, ts) ((checkout key lane p).2, (checkout key lane p).1 ++ ts)
| step_warm key p ts : step (p, ts) ((warm key p).2, (warm key p).1 ++ ts)
| step_long_op key p ts : step (p, ts) ((open_unleased key p).2, (open_unleased key p).1 ++ ts)
| step_turn a t b p r : turn t p r -> step (p, a ++ t :: b) (r.2, a ++ r.1 ++ b)
| step_evict_idle now ttl i p ts :
    step (p, ts) ((evict_idle ts now ttl i p).2, (evict_idle ts now ttl i p).1 ++ ts)
| step_evict_entry i p ts : step (p, ts) (evict_entry ts i p, ts).

Inductive reachable : Pool * list Task -> Prop :=
| reach_new : reachable (pool_new, [])
| reach_step st st' : reachable st -> step st st' -> reachable st'.

(** ** The guards a task owns *)

Definition lease_guard (t : Task) : option (nat * Lane) :=
  match t with
  | TOpen (ForLease l | ForReconnect l _ _) e _ _ | THeld e l _ _ _ => Some (e, l)
  | _ => None
  end.
Definition pending_guard (t : Task) : option nat :=
  match t with
  | TOpen ForIdle e _ _ | TCheckin e _ _ _ _ | TDiscard e _ _ _ | TReset e _ _ | TParked e => Some e
  | _ => None
  end.
Definition tunnel_guard (t : Task) : option nat :=
  match t with TOpen _ e _ OpeningTunnel => Some e | _ => None end.

#[export] Instance Lane_eq_dec : EqDecision Lane.
Proof. solve_decision. Defined.

Definition count {A} `{EqDecision A} (g : Task -> option A) (v : A) (ts : list Task) : nat :=
  length (List.filter (fun t => bool_decide (g t = Some v)) ts).

Lemma count_nil {A} `{EqDecision A} (g : Task -> option A) v : count g v [] = 0.
Proof. done. Qed.
Lemma count_cons {A} `{EqDecision A} (g : Task -> option A) v t ts :
  count g v (t :: ts) = (if bool_decide (g t = Some v) then 1 else 0) + count g v ts.
Proof. unfold count. cbn [List.filter]. by case_bool_decide. Qed.
Lemma count_app {A} `{EqDecision A} (g : Task -> option A) v ts us :
  count g v (ts ++ us) = count g v ts + count g v us.
Proof. unfold count. by rewrite List.filter_app, length_app. Qed.

(** ** The invariant

    [keys] gives the key each entry was made for. *)
Record entry_ok (k : PoolKey) (ts : list Task) (e : nat) (x : Entry) : Prop := {
  eo_lane : forall l, lane_of l (en_leased x) = count lease_guard (e, l) ts;
  eo_pending : en_pending x = count pending_guard e ts;
  eo_locked : count tunnel_guard e ts = (if en_locked x then 1 else 0);
  eo_tunnel : en_locked x = true -> en_tunnel x = None;
  eo_credential : en_credential x = k_credential k;
  eo_idle : Forall (fun i => ss_key (i_session i) = k /\ ss_clean (i_session i) = true) (en_idle x);
  eo_max : length (en_idle x) <= IDLE_MAX;
  eo_retired : en_retired x = true -> en_idle x = [];
}.

Definition task_ok (keys : list PoolKey) (t : Task) : Prop :=
  match t with
  | TCheckout e _ key _ => keys !! e = Some key
  | TOpen why e key _ =>
      keys !! e = Some key
      /\ match why with ForReconnect _ old _ => ss_key old = key | _ => True end
  | THeld e _ key s _ => keys !! e = Some key /\ ss_key s = key
  | TCheckin e s _ _ refill | TDiscard e s _ refill | TRefill e s _ refill =>
      keys !! e = Some (ss_key s) /\ (refill = None \/ refill = Some (ss_key s))
  | TReset e s _ => keys !! e = Some (ss_key s)
  | TParked e | TClose (Some e) _ => is_Some (keys !! e)
  | TLongOp _ _ | TClose None _ => True
  end.

Record pool_ok (keys : list PoolKey) (p : Pool) (ts : list Task) : Prop := {
  po_length : length keys = length (p_entries p);
  po_entries : forall e x k, p_entries p !! e = Some x -> keys !! e = Some k -> entry_ok k ts e x;
  po_tasks : Forall (task_ok keys) ts;
  po_map : forall i e, p_map p !! i = Some e ->
    exists x k, p_entries p !! e = Some x /\ keys !! e = Some k /\ k_identity k = i /\ en_retired x = false;
  po_live : forall e x k, p_entries p !! e = Some x -> keys !! e = Some k -> en_retired x = false ->
    p_map p !! k_identity k = Some e \/ Forall (fun t => task_entry t <> Some e) ts;
}.

Lemma count_perm {A} `{EqDecision A} (g : Task -> option A) v ts us : ts ≡ₚ us -> count g v ts = count g v us.
Proof. induction 1; rewrite ?count_cons; lia. Qed.

Lemma count_zero {A} `{EqDecision A} (g : Task -> option A) v ts :
  (forall t, t ∈ ts -> g t <> Some v) -> count g v ts = 0.
Proof.
  induction ts as [|t ts IH]; intros Hz; [done|]. rewrite count_cons, IH.
  - rewrite bool_decide_eq_false_2; [done|]. apply Hz, list_elem_of_here.
  - intros u Hu. by apply Hz, list_elem_of_further.
Qed.

(** A guard is on the entry of its task. *)
Lemma guards_entry (t : Task) e l :
  task_entry t <> Some e ->
  lease_guard t <> Some (e, l) /\ pending_guard t <> Some e /\ tunnel_guard t <> Some e.
Proof. destruct t as [| [] ? ? []| | | | | | | |[]]; cbn; intros ?; split_and!; congruence. Qed.

Lemma task_ok_entry keys (t : Task) e : task_ok keys t -> task_entry t = Some e -> e < length keys.
Proof.
  destruct t as [| | | | | | | | |[]]; cbn; intros Hok [= <-];
    first [by apply lookup_lt_Some in Hok|by apply lookup_lt_is_Some
          |destruct Hok as [Hok _]; by apply lookup_lt_Some in Hok].
Qed.

Lemma pool_ok_perm keys p ts us : ts ≡ₚ us -> pool_ok keys p ts -> pool_ok keys p us.
Proof.
  intros Hp [Hl He Ht Hm Hv]. split; try done.
  - intros e x k Hx Hk. destruct (He e x k Hx Hk).
    split; try done; intros; by rewrite <- (count_perm _ _ _ _ Hp).
  - by rewrite <- Hp.
  - intros e x k Hx Hk Hr. destruct (Hv e x k Hx Hk Hr) as [?|Hf]; [by left|right].
    by rewrite <- Hp.
Qed.

Lemma guards_zero e (ts : list Task) :
  Forall (fun t => task_entry t <> Some e) ts ->
  (forall l, count lease_guard (e, l) ts = 0) /\ count pending_guard e ts = 0
  /\ count tunnel_guard e ts = 0.
Proof.
  intros Hf. rewrite Forall_forall in Hf.
  split_and!; [intros l|..]; apply count_zero; intros u Hu.
  - by apply guards_entry, Hf.
  - by apply (guards_entry u e Query), Hf.
  - by apply (guards_entry u e Query), Hf.
Qed.

(** An entry that the tasks leave alone. *)
Lemma entry_ok_other k (old new ts : list Task) e x :
  Forall (fun t => task_entry t <> Some e) old -> Forall (fun t => task_entry t <> Some e) new ->
  entry_ok k (old ++ ts) e x -> entry_ok k (new ++ ts) e x.
Proof.
  intros (O1 & O2 & O3)%guards_zero (N1 & N2 & N3)%guards_zero [A1 A2 A3 ? ? ? ? ?].
  split; try done; intros; rewrite count_app, ?N1, ?N2, ?N3.
  - by rewrite A1, count_app, O1.
  - by rewrite A2, count_app, O2.
  - by rewrite <- A3, count_app, O3.
Qed.

(** Tasks of entry [e] go on: what is left to show is about that entry. New tasks come from
    tasks that share the entry, or from the map. *)
Lemma replace keys p p' (f : Entry -> Entry) e (old new ts : list Task) k :
  p_entries p' = alter f e (p_entries p) -> p_map p' = p_map p -> keys !! e = Some k ->
  Forall (fun n => task_entry n = Some e) old ->
  Forall (fun n => task_entry n = Some e \/ task_entry n = None) new ->
  old <> [] \/ p_map p !! k_identity k = Some e \/ Forall (fun n => task_entry n = None) new ->
  pool_ok keys p (old ++ ts) ->
  (forall x, p_entries p !! e = Some x -> Forall (task_ok keys) old -> entry_ok k (old ++ ts) e x ->
     Forall (task_ok keys) new /\ en_retired (f x) = en_retired x /\ entry_ok k (new ++ ts) e (f x)) ->
  pool_ok keys p' (new ++ ts).
Proof.
  intros He Hm Hk Ho Hn Hlive [Hl Hes Hts Hmp Hlv] Hx.
  apply Forall_app in Hts as [Hok Hts].
  destruct (lookup_lt_is_Some_2 (p_entries p) e) as [x Hpx]; [rewrite <- Hl; by apply lookup_lt_Some in Hk|].
  destruct (Hx x Hpx Hok (Hes _ _ _ Hpx Hk)) as (Hno & Hr & Hxo).
  assert (forall e' x', alter f e (p_entries p) !! e' = Some x' ->
            exists x0, p_entries p !! e' = Some x0 /\ en_retired x' = en_retired x0
              /\ (e' = e /\ x0 = x /\ x' = f x \/ e' <> e /\ x' = x0)) as Hinv.
  { intros e' x'. destruct (decide (e' = e)) as [->|Hne].
    - rewrite list_lookup_alter_eq, Hpx. cbn. intros [= <-]. exists x. eauto 6.
    - rewrite list_lookup_alter_ne by done. intros ?. exists x'. eauto 6. }
  split.
  - by rewrite He, length_alter.
  - rewrite He. intros e' x' k' Hx' Hk'.
    apply Hinv in Hx' as (x0 & Hx0 & _ & [(-> & -> & ->)|[Hne ->]]); [by simplify_eq|].
    apply (entry_ok_other _ old); [| |by apply Hes].
    + eapply Forall_impl; [exact Ho|]. intros n E. rewrite E. congruence.
    + eapply Forall_impl; [exact Hn|]. intros n [E|E]; rewrite E; congruence.
  - by apply Forall_app.
  - rewrite Hm. intros i e' Hi. destruct (Hmp i e' Hi) as (x0 & k0 & Hx0 & Hk0 & Hi0 & Hr0).
    rewrite He. destruct (decide (e' = e)) as [->|Hne].
    + assert (x0 = x) as -> by congruence. exists (f x), k0. by rewrite list_lookup_alter_eq, Hpx, Hr.
    + exists x0, k0. by rewrite list_lookup_alter_ne.
  - rewrite Hm, He. intros e' x' k' Hx' Hk' Hr'. apply Hinv in Hx' as (x0 & Hx0 & Er & Hcase).
    rewrite Er in Hr'. destruct (Hlv e' x0 k' Hx0 Hk' Hr') as [?|Hf]; [by left|].
    apply Forall_app in Hf as [Hf1 Hf2]. destruct Hcase as [(-> & _)|[Hne _]].
    + assert (k' = k) as -> by congruence. destruct Hlive as [Hne|[?|Hnone]].
      * destruct old as [|o old]; [done|]. apply Forall_cons in Hf1 as [Hf1 _], Ho as [Ho _]. done.
      * by left.
      * right. apply Forall_app. split; [|done]. eapply Forall_impl; [exact Hnone|]. intros n ->. done.
    + right. apply Forall_app. split; [|done].
      eapply Forall_impl; [exact Hn|]. intros n [E|E]; rewrite E; congruence.
Qed.

(** The same for one task. *)
Lemma replace_task keys p p' (f : Entry -> Entry) e (t : Task) new ts :
  p_entries p' = alter f e (p_entries p) -> p_map p' = p_map p ->
  task_entry t = Some e -> Forall (fun n => task_entry n = Some e \/ task_entry n = None) new ->
  pool_ok keys p (t :: ts) ->
  (forall x k, p_entries p !! e = Some x -> keys !! e = Some k -> task_ok keys t ->
     entry_ok k (t :: ts) e x ->
     Forall (task_ok keys) new /\ en_retired (f x) = en_retired x /\ entry_ok k (new ++ ts) e (f x)) ->
  pool_ok keys p' (new ++ ts).
Proof.
  intros He Hm Ht Hn Hp Hx. pose proof (po_tasks _ _ _ Hp) as [Hok _]%Forall_cons.
  destruct (lookup_lt_is_Some_2 keys e) as [k Hk]; [by eapply task_ok_entry|].
  apply (replace keys p p' f e [t] new ts k); try done.
  - by apply Forall_singleton.
  - by left.
  - intros x Hpx Hok1%Forall_singleton He1. by apply Hx.
Qed.

(** ** Every turn keeps the invariant *)

Lemma closing_count {A} `{EqDecision A} (g : Task -> option A) v idle :
  (forall i, g (closing i) = None) -> count g v (close_in_background idle) = 0.
Proof.
  intros Hg. unfold close_in_background. destruct idle; [done|].
  by rewrite count_cons, bool_decide_eq_false_2 by (by rewrite Hg).
Qed.
Lemma closing_lease v idle : count lease_guard v (close_in_background idle) = 0.
Proof. by apply closing_count. Qed.
Lemma closing_pending v idle : count pending_guard v (close_in_background idle) = 0.
Proof. by apply closing_count. Qed.
Lemma closing_tunnel v idle : count tunnel_guard v (close_in_background idle) = 0.
Proof. by apply closing_count. Qed.
Lemma closing_free keys idle :
  Forall (fun n : Task => task_entry n = None /\ task_ok keys n) (close_in_background idle).
Proof. unfold close_in_background. destruct idle; by repeat constructor. Qed.
Lemma closing_entry e idle :
  Forall (fun n : Task => task_entry n = Some e \/ task_entry n = None) (close_in_background idle).
Proof. unfold close_in_background. destruct idle; constructor; [by right|constructor]. Qed.
Lemma closing_ok keys idle : Forall (task_ok keys) (close_in_background idle).
Proof. unfold close_in_background. destruct idle; by repeat constructor. Qed.
#[local] Hint Resolve closing_entry closing_ok : core.

(** Compare the guards of the tasks before and after, lane by lane. *)
Ltac tally :=
  intros; repeat match goal with A : forall l, lane_of l _ = _ |- _ =>
                   pose proof (A Query); pose proof (A Metadata); clear A end;
  repeat match goal with l : Lane |- _ => destruct l end;
  rewrite ?count_app, ?count_cons, ?count_nil in *; cbn [app] in *;
  rewrite ?count_cons, ?count_app, ?closing_lease, ?closing_pending, ?closing_tunnel in *;
  cbn [lane_of on_lane fst snd lease_guard pending_guard tunnel_guard set_leased set_idle set_pending
       set_tunnel en_leased en_pending en_locked en_idle en_tunnel en_retired en_credential] in *;
  repeat case_bool_decide; simplify_eq; try done; try lia.
Ltac tasks_done := repeat (apply Forall_cons; split); try apply Forall_nil; cbn; eauto.
Ltac entry_turn :=
  intros x1 k1 Hx1 Hk1 Hok [A1 A2 A3 A4 A5 A6 A7 A8]; cbn in Hok; destruct_and?;
  split; [tasks_done|split; [done|]]; split; try done; tally.
(** A turn whose entry changes by [f], its tasks known. *)
Ltac by_replace f :=
  match goal with Hp : pool_ok _ ?p (?t :: _) |- pool_ok _ _ (?new ++ ?ts) =>
    eapply (replace_task _ p _ f _ t new ts); [cbn [p_entries upd]; auto|auto|done|tasks_done|exact Hp|]
  end.

Lemma id_entries (p : Pool) e : p_entries p = alter id e (p_entries p).
Proof. by rewrite list_alter_id. Qed.
#[local] Hint Resolve id_entries : core.

Lemma open_failed_ok keys p why e key phase ts :
  phase <> OpeningTunnel -> pool_ok keys p (TOpen why e key phase :: ts) ->
  pool_ok keys (open_failed why e key p).2 ((open_failed why e key p).1 ++ ts).
Proof.
  intros Hph Hp. destruct why; cbn [open_failed fst snd].
  - by_replace (fun x : Entry => set_leased x (on_lane lane pred (en_leased x))).
    entry_turn; by destruct phase.
  - by_replace (fun x : Entry => set_pending x (pred (en_pending x))). entry_turn; by destruct phase.
  - by_replace (@id Entry). entry_turn; by destruct phase.
  - by_replace (@id Entry). entry_turn; by destruct phase.
Qed.

Lemma replace_free keys p p' (t : Task) new ts :
  p_entries p' = p_entries p -> p_map p' = p_map p -> task_entry t = None ->
  Forall (fun n => task_entry n = None /\ task_ok keys n) new ->
  pool_ok keys p (t :: ts) -> pool_ok keys p' (new ++ ts).
Proof.
  intros He Hm Ht Hn [Hl Hes [_ Hts]%Forall_cons Hmp Hlv].
  assert (forall e, Forall (fun n => task_entry n <> Some e) new) as Hne.
  { intros e. eapply Forall_impl; [exact Hn|]. intros n [E _]. by rewrite E. }
  split; rewrite ?He, ?Hm; try done.
  - intros e x k Hx Hk. apply (entry_ok_other k [t] new ts); [|done|by apply Hes].
    apply Forall_singleton. by rewrite Ht.
  - apply Forall_app. split; [|done]. eapply Forall_impl; [exact Hn|]. by intros n [_ ?].
  - intros e x k Hx Hk Hr. destruct (Hlv e x k Hx Hk Hr) as [?|[_ Hf]%Forall_cons]; [by left|right].
    by apply Forall_app.
Qed.

Lemma park_ok keys p e s tunnel now ts :
  keys !! e = Some (ss_key s) -> ss_clean s = true -> pool_ok keys p ts ->
  pool_ok keys (park e s tunnel now p).2 ((park e s tunnel now p).1 ++ ts).
Proof.
  intros Hk Hc Hp. unfold park. destruct (p_entries p !! e) as [x|] eqn:Hx; [|done].
  destruct (en_retired x || (IDLE_MAX <=? length (en_idle x))) eqn:E; cbn [fst snd].
  - apply (replace keys p p id e [] _ ts (ss_key s)); [auto..|right; right; tasks_done|done|].
    intros x0 _ _ He. split; [tasks_done|]. split; [done|].
    apply (entry_ok_other _ [] _ ts); [done| |done]. tasks_done.
  - apply orb_false_iff in E as [Er El%Nat.leb_gt].
    eapply (replace keys p _ (fun y => set_idle y (en_idle y ++ [MkIdle s tunnel now])) e [] [] ts (ss_key s));
      [done..|by right; right| |]; [done|].
    intros x0 Hx0 _ [A1 A2 A3 A4 A5 A6 A7 A8]. simplify_eq. split; [done|]. split; [done|].
    split; try done; cbn.
    + apply Forall_app. split; [done|]. by apply Forall_singleton.
    + rewrite length_app. cbn. lia.
    + congruence.
Qed.

Lemma opened_ok keys p why e key tunnel now ts :
  pool_ok keys p (TOpen why e key (Connecting tunnel) :: ts) ->
  pool_ok keys (opened why e key tunnel now p).2 ((opened why e key tunnel now p).1 ++ ts).
Proof.
  intros Hp. destruct why; cbn [opened fst snd].
  - by_replace (@id Entry). entry_turn.
  - set (p1 := MkPool _ _ _ _ _ _).
    assert (pool_ok keys p1 (TParked e :: ts)) as Hp1.
    { apply (replace_task keys p p1 id e (TOpen ForIdle e key (Connecting tunnel)) [TParked e] ts);
        [subst p1; by cbn|done|done|tasks_done|done|]. entry_turn. }
    assert (keys !! e = Some key) as Hk
      by (pose proof (po_tasks _ _ _ Hp) as [[Hk _] _]%Forall_cons; done).
    pose proof (park_ok keys p1 e (MkSess (p_opened p) key true) tunnel now (TParked e :: ts) Hk eq_refl Hp1) as Hpk.
    destruct (park e _ tunnel now p1) as [rest p2]. cbn [fst snd] in *.
    eapply pool_ok_perm; [|exact Hpk]. by rewrite <- Permutation_middle.
  - by_replace (@id Entry). entry_turn.
  - by_replace (@id Entry). entry_turn.
Qed.

Lemma tunnel_turn_ok keys p alive why e key r ts :
  tunnel_turn alive why e key p = Some r ->
  pool_ok keys p (TOpen why e key AtTunnel :: ts) -> pool_ok keys r.2 (r.1 ++ ts).
Proof.
  unfold tunnel_turn. intros E Hp. destruct (id_tunnel (k_identity key)) as [n|].
  2:{ simplify_eq. cbn [fst snd]. by_replace (@id Entry). entry_turn. all: by destruct why. }
  destruct (p_entries p !! e) as [x|] eqn:Hx; [|done]. destruct (en_locked x) eqn:El; [done|].
  destruct (en_tunnel x) as [t|] eqn:Et; [destruct (alive t)|]; simplify_eq; cbn [fst snd].
  - by_replace (@id Entry). entry_turn; by destruct why.
  - by_replace (fun x : Entry => set_tunnel (set_idle x []) None true).
    entry_turn; try (rewrite El in A3; lia); cbn; lia.
  - by_replace (fun x : Entry => set_tunnel x None true).
    entry_turn; rewrite El in A3; lia.
Qed.

Lemma tunnel_opened_ok keys ok p why e key ts :
  pool_ok keys p (TOpen why e key OpeningTunnel :: ts) ->
  pool_ok keys (tunnel_opened ok why e key p).2 ((tunnel_opened ok why e key p).1 ++ ts).
Proof.
  intros Hp. unfold tunnel_opened. destruct ok; cbn [fst snd].
  - by_replace (fun x : Entry => set_tunnel x (Some (p_tunnels_opened p)) false).
    entry_turn; destruct (en_locked x1); try lia; by destruct why.
  - apply (open_failed_ok keys _ why e key AtTunnel ts); [done|].
    change (TOpen why e key AtTunnel :: ts) with ([TOpen why e key AtTunnel] ++ ts).
    by_replace (fun x : Entry => set_tunnel x (en_tunnel x) false).
    entry_turn; destruct (en_locked x1); try lia; by destruct why.
Qed.

(** What one turn of the checkout loop does to the entry. *)
Lemma take_facts alive lane waited (x : Entry) d dead x' :
  take_session alive lane waited x = (d, dead, x') ->
  en_credential x' = en_credential x /\ en_retired x' = en_retired x /\ en_pending x' = en_pending x
  /\ en_tunnel x' = en_tunnel x /\ en_locked x' = en_locked x
  /\ en_idle x' ⊆+ en_idle x
  /\ en_leased x' = (match d with None => en_leased x | Some _ => on_lane lane S (en_leased x) end)
  /\ (forall i, d = Some (Reuse i) -> i ∈ en_idle x /\ idle_alive alive i = true)
  /\ (d = None -> waited = false /\ 0 < en_pending x /\ lane_of lane (en_leased x) < cap lane).
Proof.
  unfold take_session. set (idle := List.filter (idle_alive alive) (en_idle x)).
  assert (idle ⊆+ en_idle x) as Hsub.
  { subst idle. induction (en_idle x) as [|i l IH]; [done|]. cbn [List.filter].
    case_match; [by apply submseteq_skip|by apply submseteq_cons]. }
  destruct (lane_of lane (en_leased x) <? cap lane) eqn:El; [destruct (last idle) as [i|] eqn:Ei|].
  - intros E. simplify_eq. cbn. apply last_Some in Ei as [rest Er]. rewrite Er in *.
    rewrite removelast_last. split_and!; try done.
    + etransitivity; [|exact Hsub]. apply submseteq_inserts_r. done.
    + intros j [= <-]. assert (i ∈ idle) as Hin by (rewrite Er; apply elem_of_snoc_self).
      subst idle. apply list_elem_of_In, filter_In in Hin as [Hin ?].
      by apply list_elem_of_In in Hin.
  - destruct waited, (0 <? en_pending x) eqn:Ep; cbn; intros E; simplify_eq; cbn; split_and!; try done.
    intros _. apply Nat.ltb_lt in El, Ep. done.
  - cbn. intros E. simplify_eq. by split_and!.
Qed.

Lemma checkout_turn_ok keys alive e lane key waited p ts :
  pool_ok keys p (TCheckout e lane key waited :: ts) ->
  pool_ok keys (checkout_turn alive e lane key waited p).2
    ((checkout_turn alive e lane key waited p).1 ++ ts).
Proof.
  intros Hp. unfold checkout_turn. destruct (p_entries p !! e) as [x|] eqn:Hx.
  2:{ pose proof (po_tasks _ _ _ Hp) as [Hk _]%Forall_cons. cbn in Hk.
      apply lookup_ge_None in Hx. rewrite <- (po_length _ _ _ Hp) in Hx.
      apply lookup_lt_Some in Hk. lia. }
  destruct (take_session alive lane waited x) as [[d dead] x'] eqn:Et.
  apply take_facts in Et as (T1 & T2 & T3 & T4 & T5 & T6 & T7 & T8 & _).
  assert (forall k ts', entry_ok k ts' e x ->
            Forall (fun i => ss_key (i_session i) = k /\ ss_clean (i_session i) = true) (en_idle x')
            /\ length (en_idle x') <= IDLE_MAX /\ (en_retired x' = true -> en_idle x' = [])) as Hidle.
  { intros k ts' [_ _ _ _ _ A6 A7 A8]. split; [|split].
    - rewrite Forall_forall in *. intros i Hi. apply A6. by eapply elem_of_submseteq.
    - apply submseteq_length in T6. lia.
    - intros Hr. rewrite T2 in Hr. rewrite (A8 Hr) in T6. by apply submseteq_nil_r in T6. }
  destruct d as [[i|]|]; cbn [fst snd]; by_replace (fun _ : Entry => x');
    intros x1 k1 Hx1 Hk1 Hok He; (assert (x1 = x) as -> by congruence);
    destruct (Hidle _ _ He) as (I1 & I2 & I3); destruct He as [A1 A2 A3 A4 A5 A6 A7 A8]; cbn in Hok;
    (split; [|split; [done|split; rewrite ?T1, ?T3, ?T4, ?T5, ?T7; try done; tally]]); tasks_done.
  rewrite Forall_forall in A6. destruct (T8 i eq_refl) as [Hi _]. destruct (A6 i Hi).
  split; [done|]. cbn. congruence.
Qed.

Lemma open_idle_ok keys p e key unused ts :
  keys !! e = Some key -> p_map p !! k_identity key = Some e \/ (exists t, t ∈ ts /\ task_entry t = Some e) ->
  pool_ok keys p ts ->
  pool_ok keys (open_idle e key unused p).2 ((open_idle e key unused p).1 ++ ts).
Proof.
  intros Hk Hlive Hp. unfold open_idle. destruct (p_entries p !! e) as [x|] eqn:Hx; [|done].
  destruct (_ || _); [done|]. cbn [fst snd].
  assert (forall old rest, ts ≡ₚ old ++ rest -> Forall (fun n => task_entry n = Some e) old ->
            old <> [] \/ p_map p !! k_identity key = Some e ->
            pool_ok keys (upd e (fun x => set_pending x (S (en_pending x))) p)
              ((TOpen ForIdle e key AtTunnel :: old) ++ rest)) as Hgo.
  { intros old rest Hperm Ho Hcase. eapply pool_ok_perm in Hp; [|exact Hperm].
    eapply (replace keys p _ (fun x => set_pending x (S (en_pending x))) e old _ rest key);
      [done|done|done|done| | |exact Hp|].
    - apply Forall_cons. split; [by left|]. eapply Forall_impl; [exact Ho|]. by left.
    - destruct Hcase; [by left|right; by left].
    - intros x1 Hx1 Hok [A1 A2 A3 A4 A5 A6 A7 A8]. split; [by apply Forall_cons|]. split; [done|].
      rewrite <- app_comm_cons. split; try done; tally. }
  destruct Hlive as [Hm|(t & Hin & Ht)].
  - apply (Hgo [] ts); auto.
  - apply list_elem_of_split in Hin as (a & b & ->).
    eapply pool_ok_perm; [|apply (Hgo [t] (a ++ b))].
    + cbn [app]. by rewrite Permutation_middle.
    + cbn [app]. by rewrite Permutation_middle.
    + by apply Forall_singleton.
    + by left.
Qed.

Lemma close_ok keys owner s s' p p' ts new :
  p_entries p' = p_entries p -> p_map p' = p_map p -> new = [] \/ new = [TClose owner s'] ->
  pool_ok keys p (TClose owner s :: ts) -> pool_ok keys p' (new ++ ts).
Proof.
  intros He Hm Hnew Hp. destruct owner as [e|].
  - eapply (replace_task keys p p' id e (TClose (Some e) s)); [by rewrite list_alter_id|done|done| |done|].
    + destruct Hnew as [-> | ->]; tasks_done.
    + destruct Hnew as [-> | ->]; entry_turn.
  - eapply (replace_free keys p p' (TClose None s)); [done..| |done].
    destruct Hnew as [-> | ->]; tasks_done.
Qed.

Lemma checkin_turn_ok keys alive e s tunnel f refill p ts :
  pool_ok keys p (TCheckin e s tunnel f refill :: ts) ->
  pool_ok keys (checkin_turn alive e s tunnel f refill p).2
    ((checkin_turn alive e s tunnel f refill p).1 ++ ts).
Proof.
  intros Hp. unfold checkin_turn. destruct (_ || _); cbn [fst snd]; by_replace (@id Entry); entry_turn.
Qed.

Lemma refill_turn_ok keys e s tunnel refill p ts :
  pool_ok keys p (TRefill e s tunnel refill :: ts) ->
  pool_ok keys (refill_turn e s tunnel refill p).2 ((refill_turn e s tunnel refill p).1 ++ ts).
Proof.
  intros Hp. pose proof (po_tasks _ _ _ Hp) as [[Hk Hr] _]%Forall_cons.
  assert (pool_ok keys p ([TClose (Some e) [(s, tunnel)]] ++ ts)) as Hp1
    by (by_replace (@id Entry); entry_turn).
  unfold refill_turn. destruct refill as [key|]; [|done].
  destruct Hr as [?|[= ->]]; [done|].
  assert (exists t, t ∈ [TClose (Some e) [(s, tunnel)]] ++ ts /\ task_entry t = Some e) as Hlive
    by (eexists; split; [apply list_elem_of_here|done]).
  pose proof (open_idle_ok keys p e (ss_key s) false _ Hk (or_intror Hlive) Hp1) as Ho.
  destruct (open_idle e (ss_key s) false p) as [new p1]. cbn [fst snd] in *.
  eapply pool_ok_perm; [|exact Ho]. cbn [app]. by rewrite Permutation_middle.
Qed.

Lemma reset_turn_ok keys ok e s tunnel now p ts :
  pool_ok keys p (TReset e s tunnel :: ts) ->
  pool_ok keys (reset_turn ok e s tunnel now p).2 ((reset_turn ok e s tunnel now p).1 ++ ts).
Proof.
  intros Hp. pose proof (po_tasks _ _ _ Hp) as [Hk _]%Forall_cons. unfold reset_turn. destruct ok.
  - assert (pool_ok keys p ([TParked e] ++ ts)) as Hp1 by (by_replace (@id Entry); entry_turn).
    pose proof (park_ok keys p e (cleaned s) tunnel now _ Hk eq_refl Hp1) as Hpk.
    destruct (park e (cleaned s) tunnel now p) as [rest p2]. cbn [fst snd] in *.
    eapply pool_ok_perm; [|exact Hpk]. cbn [app]. by rewrite Permutation_middle.
  - cbn [fst snd]. by_replace (fun x : Entry => set_pending x (pred (en_pending x))). entry_turn.
Qed.

Lemma drop_ok keys t p ts :
  pool_ok keys p (t :: ts) -> pool_ok keys (drop_task t p).2 ((drop_task t p).1 ++ ts).
Proof.
  intros Hp. destruct t as [e lane key w|why e key ph|e lane key s tn|s tn|e s tn f rf|e s tn rf|e s tn rf
                           |e s tn|e|o s]; cbn [drop_task].
  - cbn [fst snd]. by_replace (@id Entry). entry_turn.
  - destruct ph as [| |tn].
    + by apply (open_failed_ok keys p why e key AtTunnel).
    + by apply (tunnel_opened_ok keys false p why e key ts).
    + by apply (open_failed_ok keys p why e key (Connecting tn)).
  - cbn [fst snd]. by_replace (fun x : Entry => set_leased x (on_lane lane pred (en_leased x))). entry_turn.
  - by apply (replace_free keys p p (TLongOp s tn) [] ts).
  - cbn [fst snd]. by_replace (fun x : Entry => set_pending x (pred (en_pending x))). entry_turn.
  - cbn [fst snd]. by_replace (fun x : Entry => set_pending x (pred (en_pending x))). entry_turn.
  - cbn [fst snd]. by_replace (@id Entry). entry_turn.
  - cbn [fst snd]. by_replace (fun x : Entry => set_pending x (pred (en_pending x))). entry_turn.
  - cbn [fst snd]. by_replace (fun x : Entry => set_pending x (pred (en_pending x))). entry_turn.
  - apply (close_ok keys o s [] p p ts []); auto.
Qed.

Lemma turn_ok keys t p r ts : turn t p r -> pool_ok keys p (t :: ts) -> pool_ok keys r.2 (r.1 ++ ts).
Proof.
  destruct 1; intros Hp.
  - by apply checkout_turn_ok.
  - by eapply tunnel_turn_ok.
  - by apply tunnel_opened_ok.
  - by apply opened_ok.
  - by apply (open_failed_ok keys p why e key (Connecting tunnel)).
  - unfold reconnecting. cbn [fst snd]. by_replace (@id Entry). entry_turn.
  - cbn [fst snd checkin].
    by_replace (fun x : Entry => set_pending (set_leased x (on_lane lane pred (en_leased x))) (S (en_pending x))).
    entry_turn; case_decide; auto.
  - by apply checkin_turn_ok.
  - cbn [fst snd discard_turn]. by_replace (fun x : Entry => set_pending x (pred (en_pending x))). entry_turn.
  - by apply refill_turn_ok.
  - by apply reset_turn_ok.
  - cbn [fst snd parked_turn]. by_replace (fun x : Entry => set_pending x (pred (en_pending x))). entry_turn.
  - destruct s as [|s0 s]; cbn [fst snd close_turn].
    + by apply (close_ok keys owner [] [] p p ts []); auto.
    + apply (close_ok keys owner (s0 :: s) s p _ ts [TClose owner s]); auto.
  - by apply drop_ok.
Qed.

(** ** The entry of a key *)

Lemma lookup_snoc_inv {A} (l : list A) (y : A) i x :
  (l ++ [y]) !! i = Some x -> l !! i = Some x \/ i = length l /\ x = y.
Proof.
  intros E. destruct (decide (i < length l)) as [Hlt|Hge].
  - rewrite lookup_app_l in E by done. by left.
  - rewrite lookup_app_r in E by lia. apply list_lookup_singleton_Some in E as [? ->]. right. split; [lia|done].
Qed.

Lemma lookup_snoc_end {A} (l : list A) (y : A) i : i = length l -> (l ++ [y]) !! i = Some y.
Proof. intros ->. by apply list_lookup_middle. Qed.

Lemma task_ok_snoc keys k (t : Task) : task_ok keys t -> task_ok (keys ++ [k]) t.
Proof.
  assert (forall e k', keys !! e = Some k' -> (keys ++ [k]) !! e = Some k') as Hs
    by (intros e k' ?; by apply lookup_app_l_Some).
  assert (forall e, is_Some (keys !! e) -> is_Some ((keys ++ [k]) !! e)) as Hss
    by (intros e [k' ?]; eauto).
  destruct t as [| | | | | | | | |[]]; cbn; intros; destruct_and?; try split; eauto.
Qed.

(** A new entry for a key whose identity has no entry in use any more. *)
Lemma add_entry_ok keys p (es : list Entry) (idle : list Idle) key a b c d ts :
  length es = length (p_entries p) ->
  (forall e x, es !! e = Some x -> exists x0, p_entries p !! e = Some x0
     /\ (x = x0 \/ x = retire x0 /\ p_map p !! k_identity key = Some e)) ->
  (forall e x, p_map p !! k_identity key = Some e -> es !! e = Some x -> en_retired x = true) ->
  pool_ok keys p ts ->
  pool_ok (keys ++ [key])
    (MkPool (es ++ [entry_new (k_credential key)]) (<[k_identity key := length es]> (p_map p)) a b c d)
    (close_in_background idle ++ ts).
Proof.
  intros Hlen Hes Hgone [Hl He Ht Hm Hv].
  assert (forall e k x, (keys ++ [key]) !! e = Some k -> es !! e = Some x -> keys !! e = Some k) as Hkeys.
  { intros e k x Hk Hx. apply lookup_lt_Some in Hx. by rewrite lookup_app_l in Hk by lia. }
  assert (Forall (fun t => task_entry t <> Some (length es)) (close_in_background idle ++ ts)) as Hnew.
  { apply Forall_app. split.
    - eapply Forall_impl; [apply (closing_free keys)|]. intros n [-> _]. done.
    - eapply Forall_impl; [exact Ht|]. intros n Hn E. apply (task_ok_entry _ _ _ Hn) in E. lia. }
  split; cbn [p_entries p_map].
  - rewrite !length_app. cbn. lia.
  - intros e x k [Hx|[-> ->]]%lookup_snoc_inv Hk.
    + destruct (Hes e x Hx) as (x0 & Hx0 & Hcase). apply (Hkeys _ _ _ Hk) in Hx as Hk0.
      apply (entry_ok_other k [] (close_in_background idle)); [done| |].
      * eapply Forall_impl; [apply (closing_free keys)|]. intros n [-> _]. done.
      * destruct (He e x0 k Hx0 Hk0) as [A1 A2 A3 A4 A5 A6 A7 A8].
        destruct Hcase as [->|[-> _]]; [done|]. split; try done. cbn. lia.
    + rewrite (lookup_snoc_end keys key (length es)) in Hk by lia. injection Hk as <-.
      destruct (guards_zero _ _ Hnew) as (Z1 & Z2 & Z3).
      split; cbn; rewrite ?Z2, ?Z3; try done; try lia. intros l. rewrite Z1. by destruct l.
  - apply Forall_app. split; [apply closing_ok|]. eapply Forall_impl; [exact Ht|]. intros t. apply task_ok_snoc.
  - intros i e [[<- <-]|[Hne Hi]]%lookup_insert_Some.
    + exists (entry_new (k_credential key)), key. split_and!; try done; apply lookup_snoc_end; lia.
    + destruct (Hm i e Hi) as (x0 & k & Hx0 & Hk & Ei & Er).
      destruct (lookup_lt_is_Some_2 es e) as [x Hx]; [rewrite Hlen; by apply lookup_lt_Some in Hx0|].
      destruct (Hes e x Hx) as (x1 & Hx1 & Hcase). assert (x1 = x0) as -> by congruence.
      exists x, k. split_and!; [by apply lookup_app_l_Some|by apply lookup_app_l_Some|done|].
      destruct Hcase as [->|[_ Hi2]]; [done|]. destruct (Hm _ _ Hi2) as (? & k2 & _ & ? & ? & _). congruence.
  - intros e x k [Hx|[-> ->]]%lookup_snoc_inv Hk Hr.
    + apply (Hkeys _ _ _ Hk) in Hx as Hk0. destruct (Hes e x Hx) as (x0 & Hx0 & [->|[-> _]]); [|done].
      destruct (Hv e x0 k Hx0 Hk0 Hr) as [Hi|Hf].
      * left. rewrite lookup_insert_ne; [done|]. intros Ei. rewrite <- Ei in Hi.
        by rewrite (Hgone e x0 Hi Hx) in Hr.
      * right. apply Forall_app. split; [|done].
        eapply Forall_impl; [apply (closing_free keys)|]. intros n [-> _]. done.
    + right. done.
Qed.

Lemma entry_for_ok keys key p ts e old p' :
  pool_ok keys p ts -> entry_for key p = (e, old, p') ->
  exists keys', pool_ok keys' p' (old ++ ts) /\ keys' !! e = Some key
    /\ p_map p' !! k_identity key = Some e.
Proof.
  intros Hp. unfold entry_for. destruct (p_map p !! k_identity key) as [e0|] eqn:Hm.
  2:{ intros E. simplify_eq. exists (keys ++ [key]). split; [|split].
      - apply (add_entry_ok keys p (p_entries p) []); try done; [|by rewrite Hm].
        intros e0 x Hx. exists x. auto.
      - apply lookup_snoc_end. by rewrite (po_length _ _ _ Hp).
      - apply lookup_insert_eq. }
  destruct (po_map _ _ _ Hp _ _ Hm) as (x & k & Hx & Hk & Ei & Er). rewrite Hx.
  destruct (en_credential x =? k_credential key)%Z eqn:Ec; intros E; simplify_eq.
  - exists keys. split; [done|]. split; [|done]. rewrite Hk. f_equal.
    apply Z.eqb_eq in Ec. destruct (po_entries _ _ _ Hp _ _ _ Hx Hk) as [_ _ _ _ Hcr _ _ _].
    destruct k, key. cbn in *. congruence.
  - exists (keys ++ [key]). cbn [upd p_entries p_map p_opened p_reused p_closed p_tunnels_opened].
    split; [|split].
    + apply (add_entry_ok keys p (alter retire e0 (p_entries p))); [by rewrite length_alter| | |done].
      * intros e1 x1. destruct (decide (e0 = e1)) as [->|Hne].
        -- rewrite list_lookup_alter_eq, Hx. cbn. intros [= <-]. exists x. auto.
        -- rewrite list_lookup_alter_ne by done. intros ?. exists x1. auto.
      * intros e1 x1 Hm1. assert (e1 = e0) as -> by congruence.
        rewrite list_lookup_alter_eq, Hx. cbn. by intros [= <-].
    + apply lookup_snoc_end. by rewrite length_alter, (po_length _ _ _ Hp).
    + apply lookup_insert_eq.
Qed.

(** ** Every step keeps the invariant *)

Lemma shared_none (ts : list Task) e : shared ts e = false -> Forall (fun t => task_entry t <> Some e) ts.
Proof.
  intros Hs. apply Forall_forall. intros t Ht E. apply not_true_iff_false in Hs. apply Hs.
  apply existsb_exists. exists t. split; [by apply list_elem_of_In|by apply bool_decide_eq_true].
Qed.

Lemma start_ok keys p ts e key (t : Task) :
  keys !! e = Some key -> p_map p !! k_identity key = Some e -> task_entry t = Some e ->
  lease_guard t = None -> pending_guard t = None -> tunnel_guard t = None -> task_ok keys t ->
  pool_ok keys p ts -> pool_ok keys p (t :: ts).
Proof.
  intros Hk Hm Et G1 G2 G3 Hok Hp. change (t :: ts) with ([t] ++ ts).
  apply (replace keys p p id e [] [t] ts key);
    [auto|done|done|done|apply Forall_singleton; by left|by right; left|done|].
  intros x Hx _ [A1 A2 A3 A4 A5 A6 A7 A8]. split; [by apply Forall_singleton|]. split; [done|].
  split; try done; intros; rewrite count_app, count_cons, count_nil, ?G1, ?G2, ?G3; cbn; auto.
Qed.

Lemma evict_idle_ok keys now ttl i p ts :
  pool_ok keys p ts ->
  pool_ok keys (evict_idle ts now ttl i p).2 ((evict_idle ts now ttl i p).1 ++ ts).
Proof.
  intros Hp. unfold evict_idle. destruct (p_map p !! i) as [e|] eqn:Hi; [|done].
  destruct (po_map _ _ _ Hp _ _ Hi) as (x & k & Hx & Hk & _). rewrite Hx.
  destruct (shared ts e); [done|]. cbn [fst snd].
  eapply (replace keys p _ (fun x => set_idle x (List.filter (fun i => negb (expired now ttl i)) (en_idle x)))
            e [] [closing _] ts k); [done|done|done|done|tasks_done|right; right; tasks_done|done|].
  intros x1 _ _ [A1 A2 A3 A4 A5 A6 A7 A8]. split; [tasks_done|]. split; [done|]. split; cbn; [tally|tally|tally|done|done|..].
  - rewrite Forall_forall in *. intros j Hj. apply A6.
    apply list_elem_of_In, filter_In in Hj as [Hj _]. by apply list_elem_of_In.
  - etransitivity; [apply filter_length_le|done].
  - intros Hr. by rewrite (A8 Hr).
Qed.

Lemma evict_entry_ok keys i p ts : pool_ok keys p ts -> pool_ok keys (evict_entry ts i p) ts.
Proof.
  intros Hp. unfold evict_entry. destruct (p_map p !! i) as [e|] eqn:Hi; [|done].
  destruct (p_entries p !! e) as [x|] eqn:Hx; [|done].
  destruct (shared ts e) eqn:Hs; [done|]. destruct (_ || _); [done|].
  destruct Hp as [Hl He Ht Hm Hv]. split; cbn [p_entries p_map]; try done.
  - intros j e' [_ Hj]%lookup_delete_Some. by apply Hm.
  - intros e' x' k' Hx' Hk' Hr'. destruct (Hv e' x' k' Hx' Hk' Hr') as [Hj|?]; [|by right].
    destruct (decide (i = k_identity k')) as [->|Hne].
    + right. assert (e' = e) as -> by congruence. by apply shared_none.
    + left. by rewrite lookup_delete_ne.
Qed.

Lemma pool_step_ok keys st st' :
  step st st' -> pool_ok keys st.1 st.2 -> exists keys', pool_ok keys' st'.1 st'.2.
Proof.
  destruct 1 as [key lane p ts|key p ts|key p ts|a t b p r Ht|now ttl i p ts|i p ts]; cbn [fst snd]; intros Hp.
  - unfold checkout. destruct (entry_for key p) as [[e old] p'] eqn:E.
    destruct (entry_for_ok _ _ _ _ _ _ _ Hp E) as (keys' & Hp' & Hk & Hm). exists keys'. by eapply start_ok.
  - unfold warm. destruct (entry_for key p) as [[e old] p'] eqn:E.
    destruct (entry_for_ok _ _ _ _ _ _ _ Hp E) as (keys' & Hp' & Hk & Hm). exists keys'.
    pose proof (open_idle_ok keys' p' e key true _ Hk (or_introl Hm) Hp') as Ho.
    destruct (open_idle e key true p') as [new p2]. cbn [fst snd] in *. by rewrite <- app_assoc.
  - unfold open_unleased. destruct (entry_for key p) as [[e old] p'] eqn:E.
    destruct (entry_for_ok _ _ _ _ _ _ _ Hp E) as (keys' & Hp' & Hk & Hm). exists keys'. by eapply start_ok.
  - exists keys. assert (pool_ok keys p (t :: a ++ b)) as Hp1
      by (eapply pool_ok_perm; [|exact Hp]; by rewrite Permutation_middle).
    eapply pool_ok_perm; [|by eapply turn_ok].
    rewrite !app_assoc. f_equiv. apply Permutation_app_comm.
  - exists keys. by apply evict_idle_ok.
  - exists keys. by apply evict_entry_ok.
Qed.

Lemma pool_reachable_ok st : reachable st -> exists keys, pool_ok keys st.1 st.2.
Proof.
  induction 1 as [|st st' _ [keys Hk] Hs]; [|by eapply pool_step_ok].
  exists []. by split.
Qed.

Lemma entry_of keys p ts e x :
  pool_ok keys p ts -> p_entries p !! e = Some x -> exists k, keys !! e = Some k /\ entry_ok k ts e x.
Proof.
  intros Hp Hx. destruct (lookup_lt_is_Some_2 keys e) as [k Hk].
  { rewrite (po_length _ _ _ Hp). by apply lookup_lt_Some in Hx. }
  exists k. split; [done|]. by eapply po_entries.
Qed.

(** ** What the pool promises *)

(** The counts of an entry are the guards alive, whatever runs were stopped half-way: nothing
    leaks and no count is given back twice. One task at most opens the tunnel of an entry, and
    while it does the entry has none. *)
Theorem counts_are_live_guards (p : Pool) (ts : list Task) (e : nat) (x : Entry) :
  reachable (p, ts) -> p_entries p !! e = Some x ->
  (forall lane, lane_of lane (en_leased x) = count lease_guard (e, lane) ts)
  /\ en_pending x = count pending_guard e ts
  /\ count tunnel_guard e ts <= 1
  /\ (0 < count tunnel_guard e ts -> en_tunnel x = None).
Proof.
  intros [keys Hp]%pool_reachable_ok Hx. cbn [fst snd] in Hp. destruct (entry_of _ _ _ _ _ Hp Hx) as (k & _ & [A1 A2 A3 A4 _ _ _ _]).
  split; [done|]. split; [done|]. rewrite A3. destruct (en_locked x); split; [lia|auto|lia|lia].
Qed.

(** C37: A checkout that finds an idle session gets one that was opened with the very key it asked
    for, unused or reset since it was last lent, on a tunnel that is alive, from an entry whose
    credential is still the one the pool knows for that connection. *)
Theorem reused_session_is_the_one_asked_for (p : Pool) (ts : list Task) (alive : nat -> bool)
  (e : nat) (lane : Lane) (key : PoolKey) (waited : bool) (x x' : Entry) (i : Idle) (dead : list Idle) :
  reachable (p, ts) -> TCheckout e lane key waited ∈ ts -> p_entries p !! e = Some x ->
  take_session alive lane waited x = (Some (Reuse i), dead, x') ->
  ss_key (i_session i) = key /\ ss_clean (i_session i) = true /\ idle_alive alive i = true
  /\ en_retired x = false /\ p_map p !! k_identity key = Some e.
Proof.
  intros [keys Hp]%pool_reachable_ok Ht Hx Htake. cbn [fst snd] in Hp.
  apply take_facts in Htake as (_ & _ & _ & _ & _ & _ & _ & Hr & _).
  destruct (Hr i eq_refl) as [Hi Ha].
  destruct (entry_of _ _ _ _ _ Hp Hx) as (k & Hk & [_ _ _ _ _ A6 _ A8]).
  pose proof (po_tasks _ _ _ Hp) as Hts. rewrite Forall_forall in Hts. specialize (Hts _ Ht). cbn in Hts.
  assert (k = key) as -> by congruence. rewrite Forall_forall in A6. destruct (A6 i Hi) as [Ek Ec].
  assert (en_retired x = false) as Er.
  { destruct (en_retired x); [|done]. rewrite A8 in Hi by done. by apply elem_of_nil in Hi. }
  split_and!; try done. destruct (po_live _ _ _ Hp e x key Hx Hk Er) as [?|Hno]; [done|].
  rewrite Forall_forall in Hno. by destruct (Hno _ Ht).
Qed.

(** No entry keeps more idle sessions than the limit, every session it keeps is unused or was
    reset, an entry whose credential was changed keeps none, and the pool's map never leads to
    such an entry. *)
Theorem idle_sessions_are_few_and_clean (p : Pool) (ts : list Task) (e : nat) (x : Entry) :
  reachable (p, ts) -> p_entries p !! e = Some x ->
  length (en_idle x) <= IDLE_MAX
  /\ Forall (fun i => ss_clean (i_session i) = true) (en_idle x)
  /\ (en_retired x = true -> en_idle x = [] /\ forall i, p_map p !! i <> Some e).
Proof.
  intros [keys Hp]%pool_reachable_ok Hx. cbn [fst snd] in Hp. destruct (entry_of _ _ _ _ _ Hp Hx) as (k & _ & [_ _ _ _ _ A6 A7 A8]).
  split; [done|]. split; [eapply Forall_impl; [exact A6|]; by intros i [_ ?]|].
  intros Hr. split; [by apply A8|]. intros i Hi.
  destruct (po_map _ _ _ Hp i e Hi) as (x' & _ & Hx' & _ & _ & Er). cbn [fst snd] in *. congruence.
Qed.

(** A checkout is not a queue: its turn ends with a session or with one being opened, or it
    waits, once, for a session that another task is bringing back. *)
Theorem checkout_waits_once_for_a_return (p : Pool) (ts : list Task) (alive : nat -> bool)
  (e : nat) (lane : Lane) (key : PoolKey) (waited : bool) :
  reachable (p, ts) -> TCheckout e lane key waited ∈ ts ->
  exists next rest, (checkout_turn alive e lane key waited p).1 = next :: close_in_background rest
    /\ ((exists s tunnel, next = THeld e lane key s tunnel)
        \/ next = TOpen (ForLease lane) e key AtTunnel
        \/ next = TCheckout e lane key true /\ waited = false
           /\ exists t, t ∈ ts /\ pending_guard t = Some e).
Proof.
  intros [keys Hp]%pool_reachable_ok Ht. cbn [fst snd] in Hp.
  pose proof (po_tasks _ _ _ Hp) as Hts. rewrite Forall_forall in Hts. specialize (Hts _ Ht). cbn in Hts.
  destruct (lookup_lt_is_Some_2 (p_entries p) e) as [x Hx].
  { rewrite <- (po_length _ _ _ Hp). by apply lookup_lt_Some in Hts. }
  unfold checkout_turn. rewrite Hx. destruct (take_session alive lane waited x) as [[d dead] x'] eqn:E.
  apply take_facts in E as (_ & _ & _ & _ & _ & _ & _ & _ & Hw).
  destruct d as [[i|]|]; cbn [fst]; eexists _, dead; (split; [done|]); [eauto|eauto|].
  right. right. split; [done|]. destruct Hw as (-> & Hpend & _); [done|]. split; [done|].
  destruct (entry_of _ _ _ _ _ Hp Hx) as (k & _ & [_ A2 _ _ _ _ _ _]). rewrite A2 in Hpend.
  unfold count in Hpend. destruct (List.filter _ ts) as [|t l] eqn:Ef; [cbn in Hpend; lia|].
  exists t. assert (In t (t :: l)) as Hin by by left. rewrite <- Ef in Hin.
  apply filter_In in Hin as [? ?%bool_decide_eq_true]. split; [by apply list_elem_of_In|done].
Qed.
End Spec.

(** ** A run that comes back for its session

    The session is opened, lent, reset, parked, and asked for again. *)
Definition toy_pool_key : @PoolKey bytes :=
  MkKey (MkIdentity DTrino (B "db") 443 (B "ana") TlsPrefer false Switchable None None) 7.
Definition run_task (r : list (@Task bytes) * @Pool bytes _ _) : @Pool bytes _ _ * list (@Task bytes) := (r.2, r.1).
Lemma go (st : @Pool bytes _ _ * list (@Task bytes)) t r :
  reachable st -> st.2 = [t] -> turn t st.1 r -> reachable (run_task r).
Proof.
  destruct st as [p ts]. cbn [fst snd]. intros Hr -> Ht. eapply reach_step; [exact Hr|].
  pose proof (step_turn [] t [] p r Ht) as Hs. by rewrite app_nil_r in Hs.
Qed.
Lemma ask (st : @Pool bytes _ _ * list (@Task bytes)) key lane :
  reachable st -> st.2 = [] -> reachable (run_task (checkout key lane st.1)).
Proof.
  destruct st as [p ts]. cbn [fst snd]. intros Hr ->. eapply reach_step; [exact Hr|].
  pose proof (step_checkout key lane p []) as Hs. by rewrite app_nil_r in Hs.
Qed.
Definition toy_all (t : nat) : bool := true.
Definition toy_session : @Sess bytes := MkSess 0 toy_pool_key false.
(** The pool at each await of the first run, and when it is asked again. *)
Definition toy_pool_start : @Pool bytes _ _ * list (@Task bytes) := (pool_new, []).
Definition toy_pool_asked := run_task (checkout toy_pool_key Query toy_pool_start.1).
Definition toy_pool_opening := run_task (checkout_turn toy_all 0 Query toy_pool_key false toy_pool_asked.1).
Definition toy_pool_connecting := run_task ([TOpen (ForLease Query) 0 toy_pool_key (Connecting None)], toy_pool_opening.1).
Definition toy_pool_held := run_task (opened (ForLease Query) 0 toy_pool_key None 0 toy_pool_connecting.1).
Definition toy_pool_back := run_task (checkin 0 Query toy_session None FateReset None toy_pool_held.1).
Definition toy_pool_reset := run_task (checkin_turn toy_all 0 toy_session None FateReset None toy_pool_back.1).
Definition toy_pool_parked := run_task (reset_turn true 0 toy_session None 0 toy_pool_reset.1).
Definition toy_pool_idle := run_task (parked_turn 0 toy_pool_parked.1).
Definition toy_pool_again := run_task (checkout toy_pool_key Query toy_pool_idle.1).

Lemma toy_pool_held_reachable : reachable toy_pool_held.
Proof.
  refine (go toy_pool_connecting _ (opened (ForLease Query) 0 toy_pool_key None 0 toy_pool_connecting.1) _ eq_refl _);
    [|apply turn_connected].
  refine (go toy_pool_opening (TOpen (ForLease Query) 0 toy_pool_key AtTunnel)
            ([TOpen (ForLease Query) 0 toy_pool_key (Connecting None)], toy_pool_opening.1) _ _ _);
    [|vm_compute; reflexivity|apply (turn_tunnel toy_all); reflexivity].
  refine (go toy_pool_asked (TCheckout 0 Query toy_pool_key false)
            (checkout_turn toy_all 0 Query toy_pool_key false toy_pool_asked.1) _ _ _);
    [|vm_compute; reflexivity|apply turn_checkout].
  refine (ask toy_pool_start toy_pool_key Query _ _); [apply reach_new|reflexivity].
Qed.
Lemma toy_pool_again_reachable : reachable toy_pool_again.
Proof.
  refine (ask toy_pool_idle toy_pool_key Query _ _); [|vm_compute; reflexivity].
  refine (go toy_pool_parked (TParked 0) (parked_turn 0 toy_pool_parked.1) _ _ _);
    [|vm_compute; reflexivity|apply turn_parked].
  refine (go toy_pool_reset (TReset 0 toy_session None) (reset_turn true 0 toy_session None 0 toy_pool_reset.1) _ _ _);
    [|vm_compute; reflexivity|apply turn_reset].
  refine (go toy_pool_back (TCheckin 0 toy_session None FateReset None)
            (checkin_turn toy_all 0 toy_session None FateReset None toy_pool_back.1) _ _ _);
    [|vm_compute; reflexivity|apply (turn_checkin toy_all)].
  refine (go toy_pool_held (THeld 0 Query toy_pool_key toy_session None)
            (checkin 0 Query toy_session None FateReset None toy_pool_held.1) _ _ _);
    [apply toy_pool_held_reachable|vm_compute; reflexivity|].
  exact (turn_release 0 Query toy_pool_key toy_session None FateReset toy_pool_held.1).
Qed.

Lemma counts_are_live_guards_witness :
  exists x, p_entries toy_pool_held.1 !! 0 = Some x /\ lane_of Query (en_leased x) = 1.
Proof.
  destruct (p_entries toy_pool_held.1 !! 0) as [x|] eqn:E; [|by vm_compute in E].
  exists x. split; [done|].
  destruct (counts_are_live_guards toy_pool_held.1 toy_pool_held.2 0 x toy_pool_held_reachable E) as [H _].
  rewrite (H Query). vm_compute. reflexivity.
Defined.

Lemma idle_sessions_are_few_and_clean_witness :
  exists x, p_entries toy_pool_again.1 !! 0 = Some x /\ length (en_idle x) <= IDLE_MAX.
Proof.
  destruct (p_entries toy_pool_again.1 !! 0) as [x|] eqn:E; [|by vm_compute in E].
  exists x. split; [done|].
  by destruct (idle_sessions_are_few_and_clean toy_pool_again.1 toy_pool_again.2 0 x toy_pool_again_reachable E).
Defined.

Lemma reused_session_is_the_one_asked_for_witness :
  exists i x dead x', p_entries toy_pool_again.1 !! 0 = Some x
    /\ take_session toy_all Query false x = (Some (Reuse i), dead, x') /\ ss_key (i_session i) = toy_pool_key.
Proof.
  destruct (p_entries toy_pool_again.1 !! 0) as [x|] eqn:E; [|by vm_compute in E].
  destruct (take_session toy_all Query false x) as [[[[i|]|] dead] x'] eqn:Et;
    [|vm_compute in E; injection E as <-; by vm_compute in Et..].
  exists i, x, dead, x'. split; [done|]. split; [done|].
  assert (TCheckout 0 Query toy_pool_key false ∈ toy_pool_again.2) as Hin by (vm_compute; apply list_elem_of_here).
  by destruct (reused_session_is_the_one_asked_for toy_pool_again.1 toy_pool_again.2 toy_all 0 Query
                 toy_pool_key false x x' i dead toy_pool_again_reachable Hin E Et).
Defined.

Lemma checkout_waits_once_for_a_return_witness :
  exists next rest, (checkout_turn toy_all 0 Query toy_pool_key false toy_pool_again.1).1
                    = next :: close_in_background rest.
Proof.
  assert (TCheckout 0 Query toy_pool_key false ∈ toy_pool_again.2) as Hin by (vm_compute; apply list_elem_of_here).
  destruct (checkout_waits_once_for_a_return toy_pool_again.1 toy_pool_again.2 toy_all 0 Query toy_pool_key false
              toy_pool_again_reachable Hin) as (next & rest & E & _). by exists next, rest.
Defined.
